(* ===== verification/_CoqProject ===== *)
-Q . S2P
Prelude.v
Text.v
Types.v
Model.v
EventCodec.v
EventCodecThms.v
Machine.v
MachineInv.v
MachineThms.v
EngineThms.v
CommitThms.v
Stream.v
SnapshotText.v
SnapshotTextThms.v
SnapshotThms.v
EntryLog.v
EntryLogStore.v
EntryLogStoreThms.v
EntryLogRefine.v
Transition.v
TransitionInv.v
TransitionSteps.v
TransitionProps.v
TransitionThms.v
TransitionVotes.v
Cluster.v
Bytes.v
Wal.v
WalThms.v
Metadata.v
Frame.v
Transaction.v
SnapshotFile.v
SnapshotFileThms.v
FileEngine.v
StoreVotes.v
StoreState.v
StoreDisk.v
StoreOps.v
StoreOpen.v
StoreRun.v
DomainBridge.v
FileEngineAdapter.v
AdapterBridge.v
AdapterThms.v
AdapterReopen.v
RuntimeHost.v
RuntimeHostThms.v
HostDisk.v
HostLife.v
Checkpoint.v
CheckpointThms.v
DurableNode.v
PendingRequests.v
OutboundQueue.v
Messages.v
Protobuf.v
MessageCodec.v
MessageCodecThms.v
ReplicaTypes.v
CoreReplica.v
CoreReplicaThms.v
SnapshotStream.v
Replica.v
ReplicaThms.v
RuntimeReplica.v
Simulator.v
Config.v
ConfigThms.v
PeerTls.v
NodeServer.v
NodeServerInv.v
NodeServerRun.v
NodeServerThms.v
ProtocolClient.v
Management.v
Cli.v
Trace.v
TraceThms.v
Findings.v
