(* ===== verification/Prelude.v ===== *)
(** * Choreo Log: verification library

    A model, and proofs about it, of the C++ runtime of Choreo Log
    ([src/cpp-runtime]): a replicated log of choreography commands. Clients
    propose commands; a Raft core orders them; every node applies the
    committed ones to a deterministic state machine and keeps them in
    checksummed files. Paths below are relative to [src/cpp-runtime].

    ** The parts and how they interact

    - The state machine ([state/types], [state/model], [state/machine])
      validates commands, turns them into events, applies events, answers
      retries from receipts and retains a bounded history.
    - The codecs ([state/model], [state/store], [protocol/command_codec],
      [protocol/codec], [protocol/frame]) write events, commands and messages
      as text and bytes.
    - The Raft core ([raft/transition], [raft/entry_log]) is a pure function
      [step : Config -> Node -> Input -> Node * Effects]: it never performs
      I/O, it stages a write and releases the effects that depend on it when
      the write has completed.
    - The drivers run the core: [raft/durable_node] over [raft/checkpoint],
      and [raft/runtime_host] over [raft/file_engine_adapter].
    - The core replica ([replication/core_replica]) is a node of the cluster: it
      runs a host, draws election timeouts, turns client commands into
      proposals, Raft messages into protocol frames and back, and streams
      snapshots in chunks. The legacy replica ([replication/replica]) is the
      first engine, which does all of it over the file engine alone; the
      configuration of a node ([runtime/config]) chooses between the two
      ([replication/runtime_replica]), and the tests of the first engine run
      on a simulated network ([replication/simulator]).
    - The trace writer ([raft/trace]) records the steps of the core as JSON.
    - The storage layer ([storage/wal], [storage/metadata],
      [storage/snapshot], [storage/transaction], [storage/file_util],
      [storage/crc32]) keeps the files; the file engine ([state/store]) puts
      them together as the store of one node, and the adapter
      ([raft/file_engine_adapter], [raft/domain_bridge]) gives the core a
      durable Raft state on top of it.
    - The server of a node ([network/node_server]) accepts clients and peers,
      dials peers, verifies their certificates ([network/peer_tls]), gives
      their frames to the replica and answers clients and management queries.
      It keeps bounded queues ([network/outbound_queue]) and the table of
      requests that wait for a commit ([network/pending_requests]).
    - The management gateway ([apps/management]) and the command-line program
      ([apps/cli]) reach a node through a blocking client ([protocol/client]);
      the latter, and the replay program ([apps/replay]), also work on a store
      directory themselves.

    ** The files of the library

    Domain: [Text] (characters, decimal text, [stoll], [from_chars],
    [getline]), [Types] ([state/types], [state/error]), [Model]
    ([state/model]), [EventCodec] ([parse_event] of [state/store] and
    [protocol/command_codec]), [EventCodecThms] (round trips), [Machine]
    ([state/machine], and the no-op marker of [replication/core_replica]),
    [MachineInv] (the state invariant and a declarative transition relation),
    [MachineThms], [EngineThms], [CommitThms], [Stream]
    ([std::istringstream] as the snapshot reader uses it), [SnapshotText]
    ([snapshot_payload] and [restore_state] of [state/machine]),
    [SnapshotTextThms] and [SnapshotThms] (fingerprints and snapshots are read
    back; snapshots instead of history).

    Consensus: [EntryLog] ([raft/entry_log] as a value), [EntryLogStore] (its
    shared directories and chunks with their reference counts),
    [EntryLogStoreThms] and [EntryLogRefine] (the refinement), [Transition] (all of
    [raft/transition]), [TransitionInv], [TransitionSteps], [TransitionProps]
    and [TransitionVotes] (invariants, what each step may emit and what a driver
    relies on),
    [TransitionThms] (theorems on one node), [Cluster]
    (any number of nodes with disks and a network, each run by the loop of
    [raft/runtime_host], and election safety), [RuntimeHost] (all of
    [raft/runtime_host]), [RuntimeHostThms] (its dispatch), [HostDisk] and
    [HostLife] (a host, its directory and its restarts), [CoreReplica] (all of
    [replication/core_replica]), [CoreReplicaThms] (lives of an opened replica,
    in a weakest-precondition style), [SnapshotStream] (both ends of a
    snapshot stream), [ReplicaTypes] (the structures that both replicas share, and
    votes as frames), [Replica] (all of [replication/replica]),
    [ReplicaThms] (its votes over restarts), [RuntimeReplica] (either of the two
    behind the class [RuntimeOps]), [Simulator] ([replication/simulator]), [Trace] ([raft/trace]) and
    [TraceThms] (its lines as JSON), [Config] ([runtime/config]) and
    [ConfigThms] (what a configuration guarantees).

    Storage: [Bytes] (little-endian integers, CRC-32, a class of codecs,
    [write_atomic]), [Wal] and [WalThms] ([storage/wal]), [Metadata]
    ([storage/metadata]), [Frame] ([protocol/frame]), [Transaction]
    ([storage/transaction]), [SnapshotFile] and [SnapshotFileThms]
    ([storage/snapshot]), [FileEngine] ([state/store]), [StoreState] (what a
    state may forget), [StoreDisk] (what a store directory holds), [StoreOps]
    (every operation keeps it), [StoreVotes] (terms and votes in the metadata of
    a store, whatever is done to it), [StoreOpen] ([FileEngine::open]), [StoreRun]
    (runs of a store), [DomainBridge] ([raft/domain_bridge]),
    [FileEngineAdapter] ([raft/file_engine_adapter]), [AdapterBridge],
    [AdapterThms] and [AdapterReopen] (audits, incremental writes, checkpoints
    and reopening), [Checkpoint] and
    [CheckpointThms] ([raft/checkpoint]), [DurableNode] ([raft/durable_node],
    written against the class [DurableStore] that [CheckpointStore]
    implements).

    Network: [PendingRequests] and [OutboundQueue] ([network/]), [Messages]
    ([protocol/messages]), [Protobuf] (varints, keys and the field reader of
    [protocol/codec]), [MessageCodec] (its encoders and decoders) and
    [MessageCodecThms] (round trips and ranges), [PeerTls] ([network/peer_tls]),
    [NodeServer] (all of [network/node_server], written against [RuntimeOps];
    what sockets, timers and the TLS library report is a [ServerEvent]),
    [NodeServerInv] (the invariant of a server, in a weakest-precondition
    style), [NodeServerRun] (every event keeps it), [NodeServerThms] (what it
    means for clients and peers), [ProtocolClient] ([protocol/client], and the
    client against the pages of the server).

    Programs: [Management] ([apps/management], and what a caller may conclude
    from its answers), [Cli] ([apps/cli] and [apps/replay], opening a directory
    twice, and redirects), [Findings].

    ** How code is translated

    A [std::uint64_t] or other integer is a [Z]; the reduction to its width is
    written out ([wrap64], [wrap32], [to_i32]) where the source does not guard
    the operation. [Result<T>] is [result Error T]. A [std::map] is a [gmap],
    with [sorted_keys] where the iteration order shows. A method that changes
    an object returns the new record. An input that a system call decides
    (an I/O failure, how many bytes of a write reached the file) is an
    argument of the operation, so that a theorem quantifies over it. Loops
    over a list are structural. Fuel: [Wal.scan] has the size of the file,
    [Machine.lower_bound] that of the list, the stream reader of [Frame] one
    more step than there are frames, [SnapshotText.restore_members] the length
    of the text, [EntryLogStore]'s prefix loop the length of the shorter log,
    [PendingRequests.take_loop] and [OutboundQueue]'s loop the size of what
    they empty, [Protobuf.varint_loop] the ten groups after which the source
    rejects, [Protobuf.read_fields] the length of the message (a field takes a
    byte at least), [TraceThms.parse_json] twice the length of the text; the
    theorems show that it is enough because they give the result. The loops of [RuntimeHost] take their fuel as an argument, and any
    fuel above [kMaximumEntries] is shown to be enough
    ([RuntimeHostThms.dispatch_returns], [CoreReplicaThms.replica_methods_return]);
    a method of [CoreReplica] gives [None] when its host runs out of fuel or
    the source would throw, which the latter theorem excludes. Every system call of the file engine that can fail is a field of
    [Os], [OpenOs] or [InstallOs]; a crash between two calls leaves the
    directory that a failure of the later one leaves. Creating the log can
    leave any part of its header ([WalAccess]).

    ** What the theorems show

    - Consensus: at most one leader per term in any schedule of a cluster with
      crashes, failed writes and an adversarial network; a node invariant kept
      by every input; durable states that never regress; no effect before its
      write; votes on the wire are on disk; leaders append only; the commit
      rule; application in log order; halting only on a failed write.
    - Domain: applying events refines a declarative relation and keeps the
      state invariant; a batch commit equals one-by-one application (when a
      command goes by one event id in the batch); retries return the first
      outcome, and another command under the id is refused when its fingerprint
      differs; the events since any state determine the present one; retention
      loses no command id.
    - Snapshots, of states in which nothing is named by a single dash: a
      snapshot stands for the history it replaces; the newest saved one is
      found after any failures of saving and pruning.
    - Storage: the log object implements a plain list of events under appends,
      truncations, rewrites and reopenings, and a torn append is cut away;
      metadata and checkpoints are found old or new, never mixed; a snapshot
      install is all or nothing under any interruptions; the durable driver
      and its disk agree, and what the driver releases is backed by the disk.
    - The store as a whole: whatever operations and restarts are run, with
      whatever failures, the committed history only grows, the directory can
      be opened, and it gives back the state and the answers of that history
      (only a directory in which nothing was ever stored may be left with an
      incomplete log header, which is refused); an incremental write of the
      adapter is what a full audit reads.
    - The host: every dispatch returns; what it releases is what the adapter
      stored; in any life of a host on a new directory (without installed
      snapshots) a reopening gives back the exact state or the state before
      the write that failed.
    - The core replica: every method returns in any life, whatever frames
      arrive and whatever system calls fail, with the durable state in step
      with the disk; at most one vote a term leaves it, and the vote is on
      disk. Snapshot streams are reassembled exactly under loss, repetition
      and reordering; and between a leader and a follower that holds nothing of
      the stream, a transfer whose frames are handled at the other end completes
      with the leader's payload.
    - The legacy replica: at most one vote a term leaves a node over all its
      processes, crashes and reopenings included.
    - The server: its limits on sessions, clients, requests and bytes hold
      after any events; the replica only hears configured peers, and with TLS
      only verified ones; the event pages of a log that does not change leave
      nothing out and repeat nothing.
      A state that the client assembles from pages is the whole state of one
      moment, and it is assembled when the replies come in time.
    - The programs: the gateway reports a commit only when the node answered
      that it committed the submitted command, a failure without "outcome
      unknown" only when the node answered with an error, and every answer that
      arrives as it is; a redirect reaches the leader that the node names;
      a directory that could be opened, whatever bytes it holds, opens again
      to the same state, which the replay program prints.
    - Configurations that are read obey the rules of their engine and their TLS
      section, and those that obey them can be written and read back; trace
      lines are JSON, are written exactly for the steps that their format can
      show, and tell the recorded steps apart.
    - Entry logs behave as values although they share chunks; a commit wakes
      exactly the requests it covers; the byte budget of the outbound queues
      is exact.
    - Codecs: events, commands, fingerprints, checkpoints, protocol messages
      and frames are read back as they were written, and whatever bytes
      arrive, a decoded message has its integers in range.
    - Findings: the lemmas of [Findings], and
      [SnapshotStream.follower_ahead_stalls], show inputs on which the code does not do what its comments or documents
      promise.

    ** What is not modelled

    The node program (it opens and runs the server), the file lock of
    [storage/directory_lease], the remote-procedure library, the sockets, timers and threads below the
    server and the client, the network library's address parser, and OpenSSL,
    whose answers about certificates are data.
    The locks and callbacks of the replicas are their callers' (calls to the
    callbacks are recorded). The run of
    [StoreRun] is that of a replicated store and leaves out the single-node
    path ([FileEngine::submit]) and snapshot installs, whose atomicity is the
    theorem of [Transaction]; it opens directories whose snapshot files can be
    read, and its records have their command's id, no name that is a single
    dash, and indexes below [kIndexes] = 10^16, where the 16 digits of a
    snapshot name keep the order of the indexes; the lives of [HostLife] are
    bounded in the same way. Disk contents are what the
    process wrote: corruption of bytes at rest is only covered by the checks
    the decoders make. Durability of a rename is an outcome of
    [write_atomic].

    ** Plan

    Next: snapshot installs in the runs of [StoreRun] and [HostLife]; then log matching, leader
    completeness and state-machine safety on [Cluster], and the linearizable
    read barrier. *)

From Stdlib Require Import ZArith Lia.
From stdpp Require Export base gmap sets list strings sorting option.

#[global] Open Scope Z_scope.

Declare Scope choreo_scope.
Delimit Scope choreo_scope with choreo.
#[global] Open Scope choreo_scope.

(** Facts that close side conditions everywhere. *)
Create HintDb choreo.

(** ** Machine integers

    A [std::uint64_t] is a [Z]; [wrap64] is the reduction that unsigned
    arithmetic performs, written at every addition or subtraction of the
    source that is not guarded by a comparison right before it. *)

Definition max_u64 : Z := 18446744073709551615.

Definition wrap64 (x : Z) : Z := x mod 18446744073709551616.

Definition wrap32 (x : Z) : Z := x mod 4294967296.

Definition u64 (x : Z) : Prop := 0 <= x <= max_u64.

(** Conversion to [std::int32_t] (two's complement since C++20). *)
Definition to_i32 (x : Z) : Z := (x + 2147483648) mod 4294967296 - 2147483648.

Lemma wrap64_small x : u64 x -> wrap64 x = x.
Proof. unfold u64, max_u64, wrap64. intros. apply Z.mod_small. lia. Qed.

Lemma wrap64_u64 x : u64 (wrap64 x).
Proof.
  unfold u64, max_u64, wrap64.
  pose proof (Z.mod_pos_bound x 18446744073709551616). lia.
Qed.

Lemma to_i32_small x : -2147483648 <= x < 2147483648 -> to_i32 x = x.
Proof. intros. unfold to_i32. rewrite Z.mod_small; lia. Qed.

(** ** Results

    [Result<T>] of the source: a value or an error. *)

Inductive result (E A : Type) : Type :=
| Ok (a : A)
| Err (e : E).
Arguments Ok {E A} a.
Arguments Err {E A} e.

Notation "'let?' x := e 'in' k" :=
  (match e with Ok x => k | Err err => Err err end)
  (at level 10, x pattern, e at level 100, k at level 200,
   format "'[v' 'let?'  x  :=  e  'in' '/' k ']'") : choreo_scope.

Notation "'check!' e 'in' k" :=
  (match e with Ok _ => k | Err err => Err err end)
  (at level 10, e at level 100, k at level 200,
   format "'[v' 'check!'  e  'in' '/' k ']'") : choreo_scope.

Definition is_ok {E A} (r : result E A) : bool :=
  match r with Ok _ => true | Err _ => false end.

Definition is_some {A} (o : option A) : bool :=
  match o with Some _ => true | None => false end.

#[export] Instance result_eq_dec {E A} `{EqDecision E, EqDecision A} :
  EqDecision (result E A).
Proof. solve_decision. Defined.

(** ** Ordered maps and sets

    A [std::map<std::string, V>] is a [gmap string V]. Where the source
    iterates over one, the iteration is by ascending key: [sorted_keys]
    and [sorted_items] give that order ([String.le] is the byte-wise
    lexicographic order of [std::string]). *)

Definition sorted_keys {V} (m : gmap string V) : list string :=
  merge_sort String.le (elements (dom m)).

Definition sorted_items {V} (m : gmap string V) : list (string * V) :=
  omap (fun k => v ← m !! k; Some (k, v)) (sorted_keys m).

Lemma elem_of_sorted_keys {V} (m : gmap string V) k :
  k ∈ sorted_keys m <-> is_Some (m !! k).
Proof.
  unfold sorted_keys. rewrite (merge_sort_Permutation String.le).
  rewrite elem_of_elements, elem_of_dom. done.
Qed.

Lemma sorted_keys_NoDup {V} (m : gmap string V) : NoDup (sorted_keys m).
Proof.
  unfold sorted_keys. rewrite (merge_sort_Permutation String.le).
  apply NoDup_elements.
Qed.

(** ** Lists *)

Lemma filter_all {A} (P : A -> Prop) `{!forall x, Decision (P x)} (l : list A) :
  Forall P l -> filter P l = l.
Proof.
  induction 1 as [|x l Hx Hl IH]; [done|]. rewrite filter_cons_True by done. by rewrite IH.
Qed.

Lemma StronglySorted_weaken {A} (R R' : A -> A -> Prop) (l : list A) :
  (forall x y, R x y -> R' x y) -> StronglySorted R l -> StronglySorted R' l.
Proof.
  intros HR. induction 1 as [|x l _ IH Hall]; constructor; [done|].
  eapply list.Forall_impl; [exact Hall|]. auto.
Qed.

(** ** Tactics *)

(** Split on the scrutinee of a [match] or [if] of the goal or of [H],
    keeping the equation. *)
Ltac case_goal :=
  match goal with
  | |- context [match ?x with _ => _ end] => destruct x eqn:?
  end.

Ltac case_in H :=
  match type of H with
  | context [match ?x with _ => _ end] => destruct x eqn:?
  end.

Ltac case_any :=
  match goal with
  | |- context [match ?x with _ => _ end] => destruct x eqn:?
  | H : context [match ?x with _ => _ end] |- _ => destruct x eqn:?
  end.

(** Turn the boolean tests of the context into propositions. *)
Ltac bool_props :=
  repeat match goal with
  | H : (_ && _)%bool = true |- _ => apply andb_prop in H; destruct H
  | H : (_ || _)%bool = false |- _ => apply orb_false_elim in H; destruct H
  | H : negb _ = true |- _ => apply negb_true_iff in H
  | H : negb _ = false |- _ => apply negb_false_iff in H
  | H : bool_decide _ = true |- _ => apply bool_decide_eq_true in H
  | H : bool_decide _ = false |- _ => apply bool_decide_eq_false in H
  | H : (_ =? _)%Z = true |- _ => apply Z.eqb_eq in H
  | H : (_ =? _)%Z = false |- _ => apply Z.eqb_neq in H
  | H : (_ <? _)%Z = true |- _ => apply Z.ltb_lt in H
  | H : (_ <? _)%Z = false |- _ => apply Z.ltb_ge in H
  | H : (_ <=? _)%Z = true |- _ => apply Z.leb_le in H
  | H : (_ <=? _)%Z = false |- _ => apply Z.leb_gt in H
  end.

(** Reduce decided tests of the goal, and nothing else. *)
Ltac decided :=
  try change (negb true) with false; try change (negb false) with true;
  rewrite ?orb_false_l, ?orb_true_l, ?andb_true_l, ?andb_false_l; cbv iota.
