(* ===== verification/Text.v ===== *)
(** * Byte strings and the text primitives of the C++ library

    A [std::string] is a [string] of 8-bit characters. This file models what
    the sources use of the standard library to print and parse text:
    [operator<<] on integers, [std::stoll], [std::stoull], [std::from_chars]
    and [std::getline] with a delimiter. *)

From Stdlib Require Export Ascii.
From S2P Require Import Prelude.
#[global] Arguments String.append !_ _ : simpl nomatch.
#[global] Open Scope string_scope.
#[global] Open Scope Z_scope.

(** Literals of the source, with the single quote for the double one. *)
Fixpoint lit (s : string) : string :=
  match s with
  | EmptyString => ""
  | String c r => String (if bool_decide (c = "'"%char) then "034"%char else c) (lit r)
  end.

(** ** Characters *)

Definition code (c : ascii) : Z := Z.of_N (N_of_ascii c).

Definition char (z : Z) : ascii := ascii_of_N (Z.to_N z).

Definition is_digit (c : ascii) : bool := (48 <=? code c) && (code c <=? 57).

(** [std::isspace] in the C locale. *)
Definition is_space (c : ascii) : bool :=
  (code c =? 32) || ((9 <=? code c) && (code c <=? 13)).

(** [std::isalnum] in the C locale. *)
Definition is_alnum (c : ascii) : bool :=
  is_digit c || ((65 <=? code c) && (code c <=? 90)) || ((97 <=? code c) && (code c <=? 122)).

Lemma code_range c : 0 <= code c < 256.
Proof. unfold code. pose proof (N_ascii_bounded c). lia. Qed.

Lemma code_char z : 0 <= z < 256 -> code (char z) = z.
Proof. intros. unfold code, char. rewrite N_ascii_embedding; lia. Qed.

(** ** Printing integers *)

Fixpoint print_go (fuel : nat) (n : Z) (acc : string) : string :=
  let acc := String (char (48 + n mod 10)) acc in
  match fuel with
  | O => acc
  | S fuel => if n / 10 =? 0 then acc else print_go fuel (n / 10) acc
  end.

(** Decimal text of a non-negative integer; one division per binary digit is
    enough fuel. *)
Definition print_u (n : Z) : string := print_go (Z.to_nat (Z.log2 n)) n "".

Definition print_i (n : Z) : string :=
  if n <? 0 then "-" +:+ print_u (- n) else print_u n.

(** ** Parsing integers *)

(** The value of the digits in front, and the rest. *)
Fixpoint scan_digits (s : string) (acc : Z) : Z * string :=
  match s with
  | String c r => if is_digit c then scan_digits r (acc * 10 + (code c - 48)) else (acc, s)
  | EmptyString => (acc, s)
  end.

Definition starts_with_digit (s : string) : bool :=
  match s with String c _ => is_digit c | EmptyString => false end.

Fixpoint skip_space (s : string) : string :=
  match s with
  | String c r => if is_space c then skip_space r else s
  | EmptyString => s
  end.

(** An optional sign: [true] when it is a minus. *)
Definition scan_sign (s : string) : bool * string :=
  match s with
  | String c r => if code c =? 45 then (true, r) else if code c =? 43 then (false, r) else (false, s)
  | EmptyString => (false, s)
  end.

Definition min_i64 : Z := -9223372036854775808.
Definition max_i64 : Z := 9223372036854775807.
Definition min_i32 : Z := -2147483648.
Definition max_i32 : Z := 2147483647.

(** [std::stoll]: [None] where it throws. *)
Definition stoll (s : string) : option Z :=
  let '(negative, r) := scan_sign (skip_space s) in
  if starts_with_digit r then
    let v := (scan_digits r 0).1 in
    let v := if negative then - v else v in
    if (min_i64 <=? v) && (v <=? max_i64) then Some v else None
  else None.

(** [std::stoull]: a minus sign negates modulo 2^64. *)
Definition stoull (s : string) : option Z :=
  let '(negative, r) := scan_sign (skip_space s) in
  if starts_with_digit r then
    let v := (scan_digits r 0).1 in
    if v <=? max_u64 then Some (if negative then wrap64 (- v) else v) else None
  else None.

(** [std::from_chars] on [std::int64_t], required to consume everything. *)
Definition from_chars_i64 (s : string) : option Z :=
  let '(negative, r) :=
    match s with
    | String c r => if code c =? 45 then (true, r) else (false, s)
    | EmptyString => (false, s)
    end in
  if starts_with_digit r then
    let '(v, rest) := scan_digits r 0 in
    let v := if negative then - v else v in
    if (min_i64 <=? v) && (v <=? max_i64) && bool_decide (rest = "") then Some v else None
  else None.

(** ** Splitting *)

(** Successive [std::getline(stream, token, delimiter)]: a trailing delimiter
    does not start another token. *)
Fixpoint getlines (delimiter : ascii) (s acc : string) : list string :=
  match s with
  | EmptyString => if bool_decide (acc = "") then [] else [acc]
  | String c r =>
      if bool_decide (c = delimiter) then acc :: getlines delimiter r ""
      else getlines delimiter r (acc +:+ String c "")
  end.

Definition split (delimiter : ascii) (s : string) : list string := getlines delimiter s "".

(** [token.find(c)], as the text before and after the first occurrence. *)
Fixpoint break_at (c : ascii) (s : string) : option (string * string) :=
  match s with
  | EmptyString => None
  | String x r =>
      if bool_decide (x = c) then Some ("", r)
      else match break_at c r with
           | Some (a, b) => Some (String x a, b)
           | None => None
           end
  end.

(** Text joined by a one-character separator. *)
Fixpoint join (sep : string) (l : list string) : string :=
  match l with
  | [] => ""
  | [x] => x
  | x :: r => x +:+ sep +:+ join sep r
  end.

(** ** Lemmas: strings *)

Lemma str_app_assoc (a b c : string) : a +:+ (b +:+ c) = (a +:+ b) +:+ c.
Proof. induction a as [|x a IH]; [done|]. simpl. by rewrite IH. Qed.

Lemma str_app_nil_r (a : string) : a +:+ "" = a.
Proof. induction a as [|x a IH]; [done|]. simpl. by rewrite IH. Qed.

Lemma str_app_cons x (a b : string) : String x a +:+ b = String x (a +:+ b).
Proof. done. Qed.

Lemma str_app_nil_inv (a b : string) : a +:+ b = "" -> a = "" /\ b = "".
Proof. by destruct a, b. Qed.

(** Every character satisfies a test. *)
Fixpoint str_all (P : ascii -> bool) (s : string) : bool :=
  match s with EmptyString => true | String c r => P c && str_all P r end.

Lemma str_all_app P a b : str_all P (a +:+ b) = str_all P a && str_all P b.
Proof. induction a as [|x a IH]; [done|]. simpl. by rewrite IH, andb_assoc. Qed.

Lemma str_all_impl (P Q : ascii -> bool) s :
  (forall c, P c = true -> Q c = true) -> str_all P s = true -> str_all Q s = true.
Proof.
  intros H. induction s as [|c s IH]; [done|]. simpl. intros [H1 H2]%andb_prop.
  apply andb_true_intro. auto.
Qed.

Definition lacks (c : ascii) : string -> bool := str_all (fun x => negb (bool_decide (x = c))).

(** ** Lemmas: integers *)

Lemma digit_char d : 0 <= d < 10 -> is_digit (char (48 + d)) = true /\ code (char (48 + d)) = 48 + d.
Proof.
  intros. unfold is_digit. rewrite code_char by lia. split; [|done].
  apply andb_true_intro. rewrite !Z.leb_le. lia.
Qed.

Lemma print_go_shape fuel : forall n acc,
  0 <= n -> exists s, print_go fuel n acc = s +:+ acc /\ s <> "" /\ str_all is_digit s = true.
Proof.
  induction fuel as [|fuel IH]; intros n acc Hn; simpl.
  - exists (String (char (48 + n mod 10)) ""). split; [done|]. split; [done|].
    simpl. rewrite (proj1 (digit_char (n mod 10) ltac:(apply Z.mod_pos_bound; lia))). done.
  - pose proof (Z.mod_pos_bound n 10 ltac:(lia)).
    destruct (n / 10 =? 0).
    + exists (String (char (48 + n mod 10)) ""). split; [done|]. split; [done|].
      simpl. by rewrite (proj1 (digit_char (n mod 10) ltac:(lia))).
    + destruct (IH (n / 10) (String (char (48 + n mod 10)) acc)) as (s & -> & Hs & Hd).
      { apply Z.div_pos; lia. }
      exists (s +:+ String (char (48 + n mod 10)) ""). split; [by rewrite <- str_app_assoc|].
      split; [by destruct s|]. rewrite str_all_app, Hd. simpl.
      by rewrite (proj1 (digit_char (n mod 10) ltac:(lia))).
Qed.

Lemma print_u_digits n : 0 <= n -> str_all is_digit (print_u n) = true /\ print_u n <> "".
Proof.
  intros Hn. unfold print_u. destruct (print_go_shape (Z.to_nat (Z.log2 n)) n "" Hn)
    as (s & -> & Hs & Hd). by rewrite str_app_nil_r.
Qed.

(** The value of a run of digits. *)
Fixpoint dec_value (s : string) (acc : Z) : Z :=
  match s with String c r => dec_value r (acc * 10 + (code c - 48)) | EmptyString => acc end.

Lemma scan_digits_all s : forall acc r,
  str_all is_digit s = true -> starts_with_digit r = false ->
  scan_digits (s +:+ r) acc = (dec_value s acc, r).
Proof.
  induction s as [|c s IH]; intros acc r Hs Hr; simpl in *.
  - destruct r; [done|]. simpl in *. by rewrite Hr.
  - apply andb_prop in Hs as [-> Hs]. by rewrite IH.
Qed.

Lemma print_go_value fuel : forall n acc a,
  0 <= n < 2 ^ (Z.of_nat fuel + 1) ->
  exists k, 0 <= k /\ dec_value (print_go fuel n acc) a = dec_value acc (a * 10 ^ k + n).
Proof.
  induction fuel as [|fuel IH]; intros n acc a Hn; simpl.
  - assert (n < 10) by (simpl in Hn; lia).
    exists 1. split; [lia|]. rewrite Z.mod_small by lia.
    rewrite (proj2 (digit_char n ltac:(lia))). f_equal. lia.
  - pose proof (Z.mod_pos_bound n 10 ltac:(lia)). pose proof (Z.div_mod n 10 ltac:(lia)).
    destruct (Z.eqb_spec (n / 10) 0) as [Hz|Hz].
    + exists 1. split; [lia|]. simpl. rewrite (proj2 (digit_char (n mod 10) ltac:(lia))).
      f_equal. lia.
    + destruct (IH (n / 10) (String (char (48 + n mod 10)) acc) a) as (k & Hk & ->).
      { split; [apply Z.div_pos; lia|]. apply Z.div_lt_upper_bound; [lia|].
        replace (Z.of_nat (S fuel) + 1) with (Z.succ (Z.of_nat fuel + 1)) in Hn by lia.
        rewrite Z.pow_succ_r in Hn by lia. lia. }
      exists (Z.succ k). split; [lia|]. simpl.
      rewrite (proj2 (digit_char (n mod 10) ltac:(lia))), Z.pow_succ_r by lia. f_equal. lia.
Qed.

Lemma print_u_value n : 0 <= n -> dec_value (print_u n) 0 = n.
Proof.
  intros Hn. unfold print_u. destruct (print_go_value (Z.to_nat (Z.log2 n)) n "" 0) as (k & _ & ->).
  - split; [done|]. rewrite Z2Nat.id by apply Z.log2_nonneg.
    destruct (Z.eq_dec n 0) as [->|]; [done|].
    destruct (Z.log2_spec n ltac:(lia)). by replace (Z.log2 n + 1) with (Z.succ (Z.log2 n)) by lia.
  - simpl. lia.
Qed.

Lemma scan_print_u n r :
  0 <= n -> starts_with_digit r = false -> scan_digits (print_u n +:+ r) 0 = (n, r).
Proof.
  intros Hn Hr. rewrite scan_digits_all; [|by apply print_u_digits|done]. by rewrite print_u_value.
Qed.

Lemma print_u_starts n r : 0 <= n -> starts_with_digit (print_u n +:+ r) = true.
Proof.
  intros [Hd Hne]%print_u_digits. destruct (print_u n); [done|]. simpl in *.
  by apply andb_prop in Hd as [-> _].
Qed.

Lemma digit_not_space_sign c : is_digit c = true ->
  is_space c = false /\ (code c =? 45) = false /\ (code c =? 43) = false.
Proof. unfold is_digit, is_space. intros. bool_props. lia. Qed.

Lemma digit_head s : starts_with_digit s = true ->
  skip_space s = s /\ scan_sign s = (false, s).
Proof.
  destruct s as [|c s]; [done|]. simpl. intros (H1 & H2 & H3)%digit_not_space_sign.
  by rewrite H1, H2, H3.
Qed.

Lemma stoull_print n r : u64 n -> starts_with_digit r = false -> stoull (print_u n +:+ r) = Some n.
Proof.
  intros Hn Hr. unfold u64 in Hn. pose proof (print_u_starts n r ltac:(lia)) as Hs. unfold stoull.
  destruct (digit_head _ Hs) as [-> ->]. rewrite Hs, scan_print_u by (done || lia). simpl.
  by rewrite (proj2 (Z.leb_le _ _)) by lia.
Qed.

Lemma stoull_print' n : u64 n -> stoull (print_u n) = Some n.
Proof. intros. rewrite <- (str_app_nil_r (print_u n)). by apply stoull_print. Qed.

Lemma stoll_print n : min_i64 <= n <= max_i64 -> stoll (print_i n) = Some n.
Proof.
  unfold print_i, stoll. intros Hn. destruct (Z.ltb_spec n 0).
  - pose proof (print_u_starts (-n) "" ltac:(lia)) as Hs. rewrite str_app_nil_r in Hs.
    simpl. rewrite Hs. pose proof (scan_print_u (-n) "" ltac:(lia) eq_refl) as Hv.
    rewrite str_app_nil_r in Hv. rewrite Hv. simpl. rewrite Z.opp_involutive.
    by rewrite !(proj2 (Z.leb_le _ _)) by lia.
  - pose proof (print_u_starts n "" ltac:(lia)) as Hs. rewrite str_app_nil_r in Hs.
    destruct (digit_head _ Hs) as [-> ->]. rewrite Hs.
    pose proof (scan_print_u n "" ltac:(lia) eq_refl) as Hv. rewrite str_app_nil_r in Hv.
    rewrite Hv. simpl. by rewrite !(proj2 (Z.leb_le _ _)) by lia.
Qed.

Lemma from_chars_print n : min_i64 <= n <= max_i64 -> from_chars_i64 (print_i n) = Some n.
Proof.
  unfold print_i, from_chars_i64. intros Hn. destruct (Z.ltb_spec n 0).
  - pose proof (print_u_starts (-n) "" ltac:(lia)) as Hs. rewrite str_app_nil_r in Hs.
    simpl. rewrite Hs. pose proof (scan_print_u (-n) "" ltac:(lia) eq_refl) as Hv.
    rewrite str_app_nil_r in Hv. rewrite Hv. simpl. rewrite Z.opp_involutive.
    by rewrite !(proj2 (Z.leb_le _ _)) by lia.
  - pose proof (print_u_starts n "" ltac:(lia)) as Hs. rewrite str_app_nil_r in Hs.
    pose proof (scan_print_u n "" ltac:(lia) eq_refl) as Hv. rewrite str_app_nil_r in Hv.
    destruct (print_u n) as [|c s] eqn:E; [done|]. pose proof Hs as Hd. simpl in Hd.
    apply digit_not_space_sign in Hd as (_ & -> & _). rewrite Hs, Hv. simpl.
    by rewrite !(proj2 (Z.leb_le _ _)) by lia.
Qed.

(** ** Lemmas: splitting *)

Lemma getlines_app d p : forall acc s,
  lacks d p = true -> getlines d (p +:+ s) acc = getlines d s (acc +:+ p).
Proof.
  induction p as [|c p IH]; intros acc s H; simpl.
  - by rewrite str_app_nil_r.
  - simpl in H. apply andb_prop in H as [Hc Hp]. apply negb_true_iff in Hc. rewrite Hc.
    rewrite IH by done. by rewrite <- str_app_assoc.
Qed.

Lemma getlines_delim d p acc s :
  lacks d p = true ->
  getlines d (p +:+ String d s) acc = (acc +:+ p) :: getlines d s "".
Proof. intros H. rewrite getlines_app by done. simpl. by rewrite bool_decide_eq_true_2. Qed.

(** Splitting a joined text gives the pieces back. *)
Lemma split_join d l :
  Forall (fun x => lacks d x = true) l -> list.last l <> Some "" ->
  split d (join (String d "") l) = l.
Proof.
  unfold split. induction l as [|x l IH]; intros Hall Hlast; [done|].
  inversion Hall as [|?? Hx Hl]; subst.
  destruct l as [|y l].
  - simpl. rewrite <- (str_app_nil_r x), getlines_app by done. simpl. rewrite str_app_nil_r.
    simpl in Hlast. by rewrite bool_decide_eq_false_2 by congruence.
  - change (join (String d "") (x :: y :: l)) with (x +:+ String d (join (String d "") (y :: l))).
    rewrite getlines_delim by done. rewrite IH; [done..|].
    by rewrite list.last_cons_cons in Hlast.
Qed.

Lemma break_at_first c a b :
  lacks c a = true -> break_at c (a +:+ String c b) = Some (a, b).
Proof.
  induction a as [|x a IH]; simpl; intros H.
  - by rewrite bool_decide_eq_true_2.
  - apply andb_prop in H as [Hx Ha]. apply negb_true_iff in Hx. by rewrite Hx, IH.
Qed.

(** Digits and minus signs clash with no separator. *)
Lemma lacks_impl (P : ascii -> bool) d s :
  P d = false -> str_all P s = true -> lacks d s = true.
Proof.
  intros Hd. apply str_all_impl. intros c Hc. apply negb_true_iff, bool_decide_eq_false.
  intros ->. congruence.
Qed.

Lemma lacks_print_u d n : is_digit d = false -> 0 <= n -> lacks d (print_u n) = true.
Proof. intros Hd Hn. by apply (lacks_impl is_digit); [|apply print_u_digits]. Qed.

Lemma lacks_print_i d n :
  is_digit d = false -> (code d =? 45) = false -> lacks d (print_i n) = true.
Proof.
  intros Hd Hm. unfold print_i. destruct (Z.ltb_spec n 0); [|by apply lacks_print_u].
  simpl. apply andb_true_intro. split; [|apply lacks_print_u; [done|lia]].
  apply negb_true_iff, bool_decide_eq_false. intros <-. done.
Qed.

Lemma lacks_app c a b : lacks c (a +:+ b) = lacks c a && lacks c b.
Proof. apply str_all_app. Qed.
