(* ===== verification/Types.v ===== *)
(** * Domain values and errors

    [cpp-runtime/include/choreoos/state/error.hpp], [src/state/error.cpp],
    [include/choreoos/state/types.hpp] and [src/state/types.cpp]: the error
    codes, the validated identifiers, log positions, terms, musical time and
    stage geometry. A validated value is represented by its contents; the
    constructors return [Err] where the source does, and the predicates
    [valid_id], [valid_tick], ... say what a constructed value satisfies. *)

From S2P Require Import Prelude Text.
#[global] Open Scope string_scope.
#[global] Open Scope Z_scope.

(** ** Errors *)

(** [NotLeader] and [Unavailable] carry a suffix: the read statuses of the
    transition core have the same names. *)
Inductive ErrorCode :=
| EmptyId | InvalidId | InvalidStage | InvalidCoordinate
| InvalidTick | InvalidTerm | InvalidTravel | OutOfBounds
| ChoreographyNotFound | ChoreographyExists | DancerExists | DancerNotFound
| DancerInactive | PositionOccupied | TravelTooFar | FormationExists
| FormationNotFound | InvalidFormation | CueExists | CueNotFound
| CueDependencyUnmet | DuplicateCommand | DuplicateEvent | ConflictingEvent
| IndexGap | UnsupportedVersion | UnsupportedType | StoreError
| NotLeaderError | UnavailableError | ProtocolError | CommandConflict
| OutcomeUnavailable.

Record Error := mkError { err_code : ErrorCode; err_message : string }.

#[export] Instance ErrorCode_eq_dec : EqDecision ErrorCode.
Proof. solve_decision. Defined.

#[export] Instance Error_eq_dec : EqDecision Error.
Proof. solve_decision. Defined.

Definition error_code_name (code : ErrorCode) : string :=
  match code with
  | EmptyId => "EmptyId"
  | InvalidId => "InvalidId"
  | InvalidStage => "InvalidStage"
  | InvalidCoordinate => "InvalidCoordinate"
  | InvalidTick => "InvalidTick"
  | InvalidTerm => "InvalidTerm"
  | InvalidTravel => "InvalidTravel"
  | OutOfBounds => "OutOfBounds"
  | ChoreographyNotFound => "ChoreographyNotFound"
  | ChoreographyExists => "ChoreographyExists"
  | DancerExists => "DancerExists"
  | DancerNotFound => "DancerNotFound"
  | DancerInactive => "DancerInactive"
  | PositionOccupied => "PositionOccupied"
  | TravelTooFar => "TravelTooFar"
  | FormationExists => "FormationExists"
  | FormationNotFound => "FormationNotFound"
  | InvalidFormation => "InvalidFormation"
  | CueExists => "CueExists"
  | CueNotFound => "CueNotFound"
  | CueDependencyUnmet => "CueDependencyUnmet"
  | DuplicateCommand => "DuplicateCommand"
  | DuplicateEvent => "DuplicateEvent"
  | ConflictingEvent => "ConflictingEvent"
  | IndexGap => "IndexGap"
  | UnsupportedVersion => "UnsupportedVersion"
  | UnsupportedType => "UnsupportedType"
  | StoreError => "StoreError"
  | NotLeaderError => "NotLeader"
  | UnavailableError => "Unavailable"
  | ProtocolError => "ProtocolError"
  | CommandConflict => "CommandConflict"
  | OutcomeUnavailable => "OutcomeUnavailable"
  end.

(** [Error::to_string] *)
Definition error_to_string (e : Error) : string :=
  error_code_name (err_code e) +:+ ": " +:+ err_message e.

(** ** Identifiers *)

Definition kTicksPerCount : Z := 480.
Definition kMaxStageMm : Z := 1000000.
Definition kMaxIdLength : Z := 64.
Definition kCurrentSchemaVersion : Z := 1.

Definition is_allowed_id_char (ch : ascii) : bool :=
  is_alnum ch || bool_decide (ch = "_"%char) || bool_decide (ch = "."%char) ||
  bool_decide (ch = ":"%char) || bool_decide (ch = "-"%char).

(** [StrongId::parse]; the tags only keep the C++ types apart. *)
Definition parse_id (raw : string) : result Error string :=
  if bool_decide (raw = "") then Err (mkError EmptyId "id must not be empty")
  else if kMaxIdLength <? Z.of_nat (String.length raw)
  then Err (mkError InvalidId "id exceeds 64 characters")
  else if negb (str_all is_allowed_id_char raw)
  then Err (mkError InvalidId "id contains an unsupported character")
  else Ok raw.

Definition valid_id (id : string) : bool :=
  negb (bool_decide (id = "")) && (Z.of_nat (String.length id) <=? kMaxIdLength) &&
  str_all is_allowed_id_char id.

(** ** Log positions, terms and musical time *)

(** [LogIndex::next] *)
Definition index_next (i : Z) : Z := wrap64 (i + 1).

(** [LogIndex::parse] *)
Definition parse_index (value : Z) : result Error Z := Ok value.

(** [Term::parse] *)
Definition parse_term (value : Z) : result Error Z :=
  if value =? 0 then Err (mkError InvalidTerm "term must be greater than zero") else Ok value.

(** [Term::next] *)
Definition term_next (t : Z) : result Error Z :=
  if t =? max_u64 then Err (mkError StoreError "term overflow") else Ok (t + 1).

(** [MusicalTick::from_ticks] *)
Definition from_ticks (ticks : Z) : result Error Z :=
  if ticks <? 0 then Err (mkError InvalidTick "musical ticks must be non-negative") else Ok ticks.

(** [MusicalTick::from_count] *)
Definition from_count (count : Z) : result Error Z :=
  if count <? 0 then Err (mkError InvalidTick "count must be non-negative")
  else if max_i64 / kTicksPerCount <? count
  then Err (mkError InvalidTick "count is too large to convert to ticks")
  else Ok (count * kTicksPerCount).

(** [MusicalTick::count_floor] *)
Definition count_floor (ticks : Z) : Z := ticks / kTicksPerCount.

(** ** Geometry *)

Record Position := mkPosition { pos_x : Z; pos_y : Z }.

Record StageBounds := mkStageBounds { st_width : Z; st_depth : Z }.

Inductive OverlapPolicy := Forbidden | Allowed.

#[export] Instance Position_eq_dec : EqDecision Position.
Proof. solve_decision. Defined.

#[export] Instance StageBounds_eq_dec : EqDecision StageBounds.
Proof. solve_decision. Defined.

#[export] Instance OverlapPolicy_eq_dec : EqDecision OverlapPolicy.
Proof. solve_decision. Defined.

(** [StageCoordinate::from_mm] *)
Definition coordinate_from_mm (mm : Z) : result Error Z :=
  if mm <? 0 then Err (mkError InvalidCoordinate "coordinate must be non-negative")
  else if kMaxStageMm <? mm
  then Err (mkError InvalidCoordinate "coordinate exceeds the 1km implementation limit")
  else Ok mm.

(** [Position::from_mm] *)
Definition position_from_mm (x_mm y_mm : Z) : result Error Position :=
  let? x := coordinate_from_mm x_mm in
  let? y := coordinate_from_mm y_mm in
  Ok (mkPosition x y).

(** [StageBounds::create] *)
Definition stage_create (width depth : Z) : result Error StageBounds :=
  if (width <=? 0) || (depth <=? 0)
  then Err (mkError InvalidStage "stage width and depth must be greater than zero")
  else Ok (mkStageBounds width depth).

(** [StageBounds::from_mm] *)
Definition stage_from_mm (width_mm depth_mm : Z) : result Error StageBounds :=
  let? width := coordinate_from_mm width_mm in
  let? depth := coordinate_from_mm depth_mm in
  stage_create width depth.

(** [StageBounds::contains] *)
Definition contains (s : StageBounds) (p : Position) : bool :=
  (pos_x p <=? st_width s) && (pos_y p <=? st_depth s).

(** Signed 64-bit arithmetic. The source computes distances in it; the
    results are in range for validated coordinates
    ([squared_distance_no_overflow]). *)
Definition to_i64 (x : Z) : Z :=
  (x + 9223372036854775808) mod 18446744073709551616 - 9223372036854775808.

Definition squared_distance_mm (from to : Position) : Z :=
  let dx := to_i64 (pos_x to - pos_x from) in
  let dy := to_i64 (pos_y to - pos_y from) in
  to_i64 (to_i64 (dx * dx) + to_i64 (dy * dy)).

Definition travel_within_limit (from to : Position) (max_travel_mm : Z) : bool :=
  squared_distance_mm from to <=? to_i64 (max_travel_mm * max_travel_mm).

(** ** What the constructors guarantee *)

Definition valid_coordinate (mm : Z) : Prop := 0 <= mm <= kMaxStageMm.

Definition valid_position (p : Position) : Prop :=
  valid_coordinate (pos_x p) /\ valid_coordinate (pos_y p).

Definition valid_stage (s : StageBounds) : Prop :=
  0 < st_width s <= kMaxStageMm /\ 0 < st_depth s <= kMaxStageMm.

Definition valid_tick (t : Z) : Prop := 0 <= t <= max_i64.

Definition valid_term (t : Z) : Prop := 1 <= t <= max_u64.

Lemma parse_id_ok raw id : parse_id raw = Ok id <-> id = raw /\ valid_id raw = true.
Proof.
  unfold parse_id, valid_id. destruct (bool_decide (raw = "")); simpl; [naive_solver|].
  destruct (Z.ltb_spec kMaxIdLength (Z.of_nat (String.length raw))) as [H|H].
  { rewrite (proj2 (Z.leb_gt _ _)) by lia. naive_solver. }
  rewrite (proj2 (Z.leb_le _ _)) by lia. simpl.
  destruct (str_all is_allowed_id_char raw); simpl; naive_solver.
Qed.

Lemma parse_id_valid id : valid_id id = true -> parse_id id = Ok id.
Proof. intros. by apply parse_id_ok. Qed.

Lemma parse_term_valid t : valid_term t -> parse_term t = Ok t.
Proof. unfold valid_term, parse_term. intros. destruct (Z.eqb_spec t 0); [lia|done]. Qed.

Lemma from_ticks_valid t : valid_tick t -> from_ticks t = Ok t.
Proof. unfold valid_tick, from_ticks. intros. destruct (Z.ltb_spec t 0); [lia|done]. Qed.

Lemma coordinate_from_mm_ok mm c :
  coordinate_from_mm mm = Ok c <-> c = mm /\ valid_coordinate mm.
Proof.
  unfold coordinate_from_mm, valid_coordinate.
  destruct (Z.ltb_spec mm 0); [split; [done|lia]|].
  destruct (Z.ltb_spec kMaxStageMm mm); [split; [done|lia]|]. split; [|by intros [-> _]].
  intros; simplify_eq. lia.
Qed.

Lemma position_from_mm_ok x y p :
  position_from_mm x y = Ok p <-> p = mkPosition x y /\ valid_position p.
Proof.
  unfold position_from_mm, valid_position.
  destruct (coordinate_from_mm x) as [cx|] eqn:Hx; destruct (coordinate_from_mm y) as [cy|] eqn:Hy;
    rewrite ?coordinate_from_mm_ok in Hx, Hy; split.
  all: try (intros; simplify_eq/=; destruct_and!; subst; done).
  all: intros [-> [H1 H2]]; simpl in *.
  all: try (assert (coordinate_from_mm x = Ok x) by (by apply coordinate_from_mm_ok); congruence).
  all: try (assert (coordinate_from_mm y = Ok y) by (by apply coordinate_from_mm_ok); congruence).
Qed.

Lemma position_from_mm_valid p : valid_position p -> position_from_mm (pos_x p) (pos_y p) = Ok p.
Proof. intros. apply position_from_mm_ok. by destruct p. Qed.

Lemma stage_from_mm_valid s : valid_stage s -> stage_from_mm (st_width s) (st_depth s) = Ok s.
Proof.
  intros [H1 H2]. unfold stage_from_mm.
  assert (coordinate_from_mm (st_width s) = Ok (st_width s)) as ->.
  { apply coordinate_from_mm_ok. unfold valid_coordinate. split; [done|lia]. }
  assert (coordinate_from_mm (st_depth s) = Ok (st_depth s)) as ->.
  { apply coordinate_from_mm_ok. unfold valid_coordinate. split; [done|lia]. }
  unfold stage_create. rewrite !(proj2 (Z.leb_gt _ _)) by lia. by destruct s.
Qed.

Lemma stage_from_mm_ok w d s : stage_from_mm w d = Ok s -> valid_stage s.
Proof.
  unfold stage_from_mm.
  destruct (coordinate_from_mm w) as [cw|] eqn:Hw; [|done].
  destruct (coordinate_from_mm d) as [cd|] eqn:Hd; [|done].
  apply coordinate_from_mm_ok in Hw as [-> ?], Hd as [-> ?].
  unfold stage_create. destruct ((w <=? 0) || (d <=? 0)) eqn:E; [done|]. bool_props.
  intros; simplify_eq. unfold valid_stage, valid_coordinate in *. simpl. lia.
Qed.

Lemma to_i64_small x : min_i64 <= x <= max_i64 -> to_i64 x = x.
Proof. unfold min_i64, max_i64, to_i64. intros. rewrite Z.mod_small; lia. Qed.

Lemma square_bound z : - kMaxStageMm <= z <= kMaxStageMm -> 0 <= z * z <= 1000000000000.
Proof. unfold kMaxStageMm. nia. Qed.

(** Distances between validated positions are exact. *)
Lemma squared_distance_no_overflow p q :
  valid_position p -> valid_position q ->
  squared_distance_mm p q = (pos_x q - pos_x p) * (pos_x q - pos_x p) +
                            (pos_y q - pos_y p) * (pos_y q - pos_y p).
Proof.
  intros [Hx Hy] [Hx' Hy']. unfold valid_coordinate in *.
  pose proof (square_bound (pos_x q - pos_x p) ltac:(lia)).
  pose proof (square_bound (pos_y q - pos_y p) ltac:(lia)).
  unfold squared_distance_mm, kMaxStageMm in *. cbv zeta.
  rewrite (to_i64_small (pos_x q - pos_x p)), (to_i64_small (pos_y q - pos_y p))
    by (unfold min_i64, max_i64; lia).
  set (a := (pos_x q - pos_x p) * (pos_x q - pos_x p)) in *.
  set (b := (pos_y q - pos_y p) * (pos_y q - pos_y p)) in *.
  rewrite (to_i64_small a), (to_i64_small b) by (unfold min_i64, max_i64; lia).
  rewrite to_i64_small; [done|]. unfold min_i64, max_i64; lia.
Qed.

(** The travel test is the exact comparison of distances, for every
    non-negative 32-bit limit. *)
Lemma travel_within_limit_exact p q m :
  valid_position p -> valid_position q -> 0 <= m <= max_i32 ->
  travel_within_limit p q m = true <->
  (pos_x q - pos_x p) * (pos_x q - pos_x p) + (pos_y q - pos_y p) * (pos_y q - pos_y p) <= m * m.
Proof.
  intros Hp Hq Hm. unfold travel_within_limit. rewrite squared_distance_no_overflow by done.
  assert (m * m <= max_i32 * max_i32) by (apply Z.mul_le_mono_nonneg; lia).
  assert (0 <= m * m) by (apply Z.mul_nonneg_nonneg; lia).
  rewrite Z.leb_le, to_i64_small; [done|]. unfold min_i64, max_i64, max_i32 in *. lia.
Qed.
