(* ===== verification/Model.v ===== *)
(** * Commands and events

    [cpp-runtime/include/choreoos/state/model.hpp] and
    [src/state/model.cpp]: the command and event types, their payloads, their
    stable names and the canonical one-line text of an event. *)

From S2P Require Import Prelude Text Types.

Inductive CommandType :=
| CreateChoreography | AddDancer | RemoveDancer | MoveDancer
| DefineFormation | ChangeFormation | TriggerMusicCue | TriggerLightingCue.

Inductive EventType :=
| ChoreographyCreated | DancerAdded | DancerRemoved | DancerMoved
| FormationDefined | FormationChanged | MusicCueTriggered | LightingCueTriggered
| NoOp.

(** [CreateChoreographyPayload], [DancerPayload], [RemoveDancerPayload],
    [FormationPayload] and [CuePayload], as the alternatives of
    [CommandPayload] (= [EventPayload]). *)
Inductive Payload :=
| PCreate (choreography_id : string) (stage : StageBounds) (overlap : OverlapPolicy)
    (max_travel_mm : Z)
| PDancer (dancer_id : string) (position : Position)
| PRemove (dancer_id : string)
| PFormation (formation_id : string) (members : list string)
| PCue (cue_id : string) (depends_on : option string).

Record Command := mkCommand {
  c_id : string;
  c_choreography : string;
  c_type : CommandType;
  c_schema : Z;
  c_tick : Z;
  c_payload : Payload;
}.

Record Event := mkEvent {
  ev_id : string;
  ev_command : string;
  ev_choreography : string;
  ev_type : EventType;
  ev_schema : Z;
  ev_tick : Z;
  ev_index : Z;
  ev_term : Z;
  ev_payload : Payload;
}.

#[export] Instance CommandType_eq_dec : EqDecision CommandType.
Proof. solve_decision. Defined.

#[export] Instance EventType_eq_dec : EqDecision EventType.
Proof. solve_decision. Defined.

#[export] Instance Payload_eq_dec : EqDecision Payload.
Proof. solve_decision. Defined.

#[export] Instance Command_eq_dec : EqDecision Command.
Proof. solve_decision. Defined.

#[export] Instance Event_eq_dec : EqDecision Event.
Proof. solve_decision. Defined.

Definition command_type_name (type : CommandType) : string :=
  match type with
  | CreateChoreography => "CREATE_CHOREOGRAPHY"
  | AddDancer => "ADD_DANCER"
  | RemoveDancer => "REMOVE_DANCER"
  | MoveDancer => "MOVE_DANCER"
  | DefineFormation => "DEFINE_FORMATION"
  | ChangeFormation => "CHANGE_FORMATION"
  | TriggerMusicCue => "TRIGGER_MUSIC_CUE"
  | TriggerLightingCue => "TRIGGER_LIGHTING_CUE"
  end.

Definition event_type_name (type : EventType) : string :=
  match type with
  | ChoreographyCreated => "CHOREOGRAPHY_CREATED"
  | DancerAdded => "DANCER_ADDED"
  | DancerRemoved => "DANCER_REMOVED"
  | DancerMoved => "DANCER_MOVED"
  | FormationDefined => "FORMATION_DEFINED"
  | FormationChanged => "FORMATION_CHANGED"
  | MusicCueTriggered => "MUSIC_CUE_TRIGGERED"
  | LightingCueTriggered => "LIGHTING_CUE_TRIGGERED"
  | NoOp => "NOOP"
  end.

Definition overlap_policy_name (policy : OverlapPolicy) : string :=
  match policy with Allowed => "allowed" | Forbidden => "forbidden" end.

Definition parse_command_type (name : string) : result Error CommandType :=
  if bool_decide (name = "CREATE_CHOREOGRAPHY") then Ok CreateChoreography
  else if bool_decide (name = "ADD_DANCER") then Ok AddDancer
  else if bool_decide (name = "REMOVE_DANCER") then Ok RemoveDancer
  else if bool_decide (name = "MOVE_DANCER") then Ok MoveDancer
  else if bool_decide (name = "DEFINE_FORMATION") then Ok DefineFormation
  else if bool_decide (name = "CHANGE_FORMATION") then Ok ChangeFormation
  else if bool_decide (name = "TRIGGER_MUSIC_CUE") then Ok TriggerMusicCue
  else if bool_decide (name = "TRIGGER_LIGHTING_CUE") then Ok TriggerLightingCue
  else Err (mkError UnsupportedType "unknown command type").

Definition parse_event_type (name : string) : result Error EventType :=
  if bool_decide (name = "CHOREOGRAPHY_CREATED") then Ok ChoreographyCreated
  else if bool_decide (name = "DANCER_ADDED") then Ok DancerAdded
  else if bool_decide (name = "DANCER_REMOVED") then Ok DancerRemoved
  else if bool_decide (name = "DANCER_MOVED") then Ok DancerMoved
  else if bool_decide (name = "FORMATION_DEFINED") then Ok FormationDefined
  else if bool_decide (name = "FORMATION_CHANGED") then Ok FormationChanged
  else if bool_decide (name = "MUSIC_CUE_TRIGGERED") then Ok MusicCueTriggered
  else if bool_decide (name = "LIGHTING_CUE_TRIGGERED") then Ok LightingCueTriggered
  else if bool_decide (name = "NOOP") then Ok NoOp
  else Err (mkError UnsupportedType "unknown event type").

Definition parse_overlap_policy (name : string) : result Error OverlapPolicy :=
  if bool_decide (name = "allowed") then Ok Allowed
  else if bool_decide (name = "forbidden") then Ok Forbidden
  else Err (mkError UnsupportedType "unknown overlap policy").

Definition event_type_for (type : CommandType) : EventType :=
  match type with
  | CreateChoreography => ChoreographyCreated
  | AddDancer => DancerAdded
  | RemoveDancer => DancerRemoved
  | MoveDancer => DancerMoved
  | DefineFormation => FormationDefined
  | ChangeFormation => FormationChanged
  | TriggerMusicCue => MusicCueTriggered
  | TriggerLightingCue => LightingCueTriggered
  end.

(** [write_members]: the members separated by commas. *)
Definition write_members (members : list string) : string := join "," members.

(** The payload fields of [canonical_event] and [canonical_command], in the
    order they are written. *)
Definition canonical_payload (payload : Payload) : string :=
  match payload with
  | PCreate _ stage overlap max_travel_mm =>
      ";width=" +:+ print_i (st_width stage) +:+ ";depth=" +:+ print_i (st_depth stage) +:+
      ";overlap=" +:+ overlap_policy_name overlap +:+ ";travel=" +:+ print_i max_travel_mm
  | PDancer dancer_id position =>
      ";dancer=" +:+ dancer_id +:+ ";x=" +:+ print_i (pos_x position) +:+
      ";y=" +:+ print_i (pos_y position)
  | PRemove dancer_id => ";dancer=" +:+ dancer_id
  | PFormation formation_id members =>
      ";formation=" +:+ formation_id +:+ ";members=" +:+ write_members members
  | PCue cue_id depends_on =>
      ";cue=" +:+ cue_id +:+ ";depends=" +:+ default "" depends_on
  end.

Definition canonical_event (event : Event) : string :=
  "schema=" +:+ print_u (ev_schema event) +:+ ";type=" +:+ event_type_name (ev_type event) +:+
  ";event=" +:+ ev_id event +:+ ";cmd=" +:+ ev_command event +:+
  ";choreo=" +:+ ev_choreography event +:+ ";tick=" +:+ print_i (ev_tick event) +:+
  ";index=" +:+ print_u (ev_index event) +:+ ";term=" +:+ print_u (ev_term event) +:+
  (if bool_decide (ev_type event = NoOp) then "" else canonical_payload (ev_payload event)).

(** ** Names and parsers agree *)

Lemma parse_command_type_name t : parse_command_type (command_type_name t) = Ok t.
Proof. by destruct t. Qed.

Lemma parse_event_type_name t : parse_event_type (event_type_name t) = Ok t.
Proof. by destruct t. Qed.

Lemma parse_overlap_policy_name p : parse_overlap_policy (overlap_policy_name p) = Ok p.
Proof. by destruct p. Qed.

(** ** Well-formed commands and events: what the constructors guarantee *)

(** The payload goes with the type, and its parts were validated. *)
Definition payload_ok (payload : Payload) : Prop :=
  match payload with
  | PCreate id stage _ travel =>
      valid_id id = true /\ valid_stage stage /\ min_i32 <= travel <= max_i32
  | PDancer id position => valid_id id = true /\ valid_position position
  | PRemove id => valid_id id = true
  | PFormation id members => valid_id id = true /\ Forall (fun m => valid_id m = true) members
  | PCue id depends =>
      valid_id id = true /\ match depends with Some d => valid_id d = true | None => True end
  end.

#[export] Instance payload_ok_dec payload : Decision (payload_ok payload).
Proof.
  destruct payload as [| | | |id [d|]]; unfold payload_ok, valid_stage, valid_position,
    valid_coordinate; apply _.
Defined.

Definition payload_matches (type : EventType) (payload : Payload) : bool :=
  match type, payload with
  | ChoreographyCreated, PCreate _ _ _ _ => true
  | (DancerAdded | DancerMoved), PDancer _ _ => true
  | DancerRemoved, PRemove _ => true
  | (FormationDefined | FormationChanged), PFormation _ _ => true
  | (MusicCueTriggered | LightingCueTriggered), PCue _ _ => true
  | _, _ => false
  end.
