(* ===== verification/EventCodec.v ===== *)
(** * The text records of events and commands

    [parse_event] of [cpp-runtime/src/state/store.cpp] (the inverse of
    [canonical_event]) and [cpp-runtime/src/protocol/command_codec.cpp]
    ([canonical_command] and [parse_command]). Both formats are lists of
    [key=value] fields separated by semicolons. *)

From S2P Require Import Prelude Text Types Model.

(** ** Fields *)

(** The loop of [parse_fields] and [fields_from]: empty tokens are skipped,
    the first occurrence of a key is kept ([std::map::insert]). *)
Fixpoint collect_fields (missing : Error) (tokens : list string) (fields : gmap string string)
    : result Error (gmap string string) :=
  match tokens with
  | [] => Ok fields
  | token :: rest =>
      if bool_decide (token = "") then collect_fields missing rest fields
      else match break_at "="%char token with
           | None => Err missing
           | Some (key, value) =>
               collect_fields missing rest
                 (match fields !! key with Some _ => fields | None => <[key := value]> fields end)
           end
  end.

Definition parse_fields (line : string) : result Error (gmap string string) :=
  collect_fields (mkError StoreError "event record is missing '='") (split ";"%char line) ∅.

Definition require_field (fields : gmap string string) (key : string) : result Error string :=
  match fields !! key with
  | Some value => Ok value
  | None => Err (mkError StoreError ("event record missing field " +:+ key))
  end.

Definition parse_i64 (fields : gmap string string) (key : string) : result Error Z :=
  let? raw := require_field fields key in
  match stoll raw with
  | Some value => Ok value
  | None => Err (mkError StoreError ("invalid integer field " +:+ key))
  end.

Definition parse_u64 (fields : gmap string string) (key : string) : result Error Z :=
  let? raw := require_field fields key in
  match stoull raw with
  | Some value => Ok value
  | None => Err (mkError StoreError ("invalid unsigned field " +:+ key))
  end.

(** Identifiers separated by commas; an invalid one is an error. *)
Fixpoint parse_ids (items : list string) : result Error (list string) :=
  match items with
  | [] => Ok []
  | item :: rest =>
      let? id := parse_id item in
      let? ids := parse_ids rest in
      Ok (id :: ids)
  end.

Definition parse_members (raw : string) : result Error (list string) :=
  if bool_decide (raw = "") then Ok [] else parse_ids (split ","%char raw).

(** [if (!result) return error], whatever the error of the result. *)
Definition or_error {A} (e : Error) (r : result Error A) : result Error A :=
  match r with Ok a => Ok a | Err _ => Err e end.

Definition wrap16 (x : Z) : Z := x mod 65536.

(** The optional [depends] field of a cue. *)
Definition parse_depends (fields : gmap string string) : result Error (option string) :=
  match fields !! "depends" with
  | Some d =>
      if bool_decide (d = "") then Ok None
      else let? id := parse_id d in Ok (Some id)
  | None => Ok None
  end.

(** The [switch] of [parse_event]. *)
Definition parse_event_payload (fields : gmap string string) (choreography_id : string)
    (type : EventType) : result Error Payload :=
  match type with
  | ChoreographyCreated =>
      let missing := mkError StoreError "create event is missing stage fields" in
      let invalid := mkError StoreError "create event has invalid stage fields" in
      let? width := or_error missing (parse_i64 fields "width") in
      let? depth := or_error missing (parse_i64 fields "depth") in
      let? overlap_raw := or_error missing (require_field fields "overlap") in
      let? travel := or_error missing (parse_i64 fields "travel") in
      let? stage := or_error invalid (stage_from_mm (to_i32 width) (to_i32 depth)) in
      let? overlap := or_error invalid (parse_overlap_policy overlap_raw) in
      Ok (PCreate choreography_id stage overlap (to_i32 travel))
  | DancerAdded | DancerMoved =>
      let missing := mkError StoreError "dancer event is missing fields" in
      let invalid := mkError StoreError "dancer event has invalid fields" in
      let? dancer_raw := or_error missing (require_field fields "dancer") in
      let? x := or_error missing (parse_i64 fields "x") in
      let? y := or_error missing (parse_i64 fields "y") in
      let? dancer := or_error invalid (parse_id dancer_raw) in
      let? position := or_error invalid (position_from_mm (to_i32 x) (to_i32 y)) in
      Ok (PDancer dancer position)
  | DancerRemoved =>
      let? dancer_raw := require_field fields "dancer" in
      let? dancer := parse_id dancer_raw in
      Ok (PRemove dancer)
  | FormationDefined | FormationChanged =>
      let missing := mkError StoreError "formation event is missing fields" in
      let? formation_raw := or_error missing (require_field fields "formation") in
      let? members_raw := or_error missing (require_field fields "members") in
      let? formation := parse_id formation_raw in
      let? members := parse_members members_raw in
      Ok (PFormation formation members)
  | MusicCueTriggered | LightingCueTriggered =>
      let? cue_raw := require_field fields "cue" in
      let? cue := parse_id cue_raw in
      let? depends := parse_depends fields in
      Ok (PCue cue depends)
  | NoOp => Ok (PCreate choreography_id (mkStageBounds 1 1) Forbidden 0)
  end.

Definition parse_event (line : string) : result Error Event :=
  let? fields := parse_fields line in
  let missing := mkError StoreError "event record is missing required envelope fields" in
  let? schema_raw := or_error missing (parse_u64 fields "schema") in
  let? type_raw := or_error missing (require_field fields "type") in
  let? event_raw := or_error missing (require_field fields "event") in
  let? cmd_raw := or_error missing (require_field fields "cmd") in
  let? choreo_raw := or_error missing (require_field fields "choreo") in
  let? tick_raw := or_error missing (parse_i64 fields "tick") in
  let? index_raw := or_error missing (parse_u64 fields "index") in
  let? term_raw := or_error missing (parse_u64 fields "term") in
  let invalid := mkError StoreError "event envelope contains invalid values" in
  let? type := or_error invalid (parse_event_type type_raw) in
  let? event_id := or_error invalid (parse_id event_raw) in
  let? command_id := or_error invalid (parse_id cmd_raw) in
  let? choreography_id := or_error invalid (parse_id choreo_raw) in
  let? tick := or_error invalid (from_ticks tick_raw) in
  let? index := or_error invalid (parse_index index_raw) in
  let? term := or_error invalid (parse_term term_raw) in
  let? payload := parse_event_payload fields choreography_id type in
  Ok (mkEvent event_id command_id choreography_id type (wrap16 schema_raw) tick index term
        payload).

(** ** Commands on the wire *)

Definition fields_from (text : string) : result Error (gmap string string) :=
  collect_fields (mkError ProtocolError "command field is missing '='") (split ";"%char text) ∅.

Definition required (fields : gmap string string) (key : string) : result Error string :=
  match fields !! key with
  | Some value => Ok value
  | None => Err (mkError ProtocolError ("command missing " +:+ key))
  end.

Definition required_i64 (fields : gmap string string) (key : string) : result Error Z :=
  let? raw := required fields key in
  match from_chars_i64 raw with
  | Some value => Ok value
  | None => Err (mkError ProtocolError ("invalid integer " +:+ key))
  end.

Definition required_i32 (fields : gmap string string) (key : string) : result Error Z :=
  let? parsed := required_i64 fields key in
  if (parsed <? min_i32) || (max_i32 <? parsed)
  then Err (mkError ProtocolError ("integer out of range " +:+ key))
  else Ok parsed.

(** [members_of]: a comma goes before a member when the text is not empty. *)
Definition members_of (members : list string) : string :=
  foldl (fun text member => (if bool_decide (text = "") then text else text +:+ ",") +:+ member)
    "" members.

(** The payload part of [canonical_command]. *)
Definition command_payload_text (payload : Payload) : string :=
  match payload with
  | PFormation formation_id members =>
      ";formation=" +:+ formation_id +:+ ";members=" +:+ members_of members
  | _ => canonical_payload payload
  end.

Definition canonical_command (command : Command) : string :=
  "schema=" +:+ print_u (c_schema command) +:+ ";type=" +:+ command_type_name (c_type command) +:+
  ";cmd=" +:+ c_id command +:+ ";choreo=" +:+ c_choreography command +:+
  ";tick=" +:+ print_i (c_tick command) +:+ command_payload_text (c_payload command).

(** The [switch] of [parse_command]. *)
Definition parse_command_payload (fields : gmap string string) (show : string)
    (type : CommandType) : result Error Payload :=
  match type with
  | CreateChoreography =>
      let missing := mkError ProtocolError "create command is incomplete" in
      let invalid := mkError ProtocolError "create command stage is invalid" in
      let? width := or_error missing (required_i32 fields "width") in
      let? depth := or_error missing (required_i32 fields "depth") in
      let? travel := or_error missing (required_i32 fields "travel") in
      let? overlap_name := or_error missing (required fields "overlap") in
      let? stage := or_error invalid (stage_from_mm width depth) in
      let? overlap := or_error invalid (parse_overlap_policy overlap_name) in
      Ok (PCreate show stage overlap travel)
  | AddDancer | MoveDancer =>
      let missing := mkError ProtocolError "dancer command is incomplete" in
      let invalid := mkError ProtocolError "dancer command is invalid" in
      let? dancer := or_error missing (required fields "dancer") in
      let? x := or_error missing (required_i32 fields "x") in
      let? y := or_error missing (required_i32 fields "y") in
      let? id := or_error invalid (parse_id dancer) in
      let? position := or_error invalid (position_from_mm x y) in
      Ok (PDancer id position)
  | RemoveDancer =>
      let? dancer := required fields "dancer" in
      let? id := parse_id dancer in
      Ok (PRemove id)
  | DefineFormation | ChangeFormation =>
      let missing := mkError ProtocolError "formation command is incomplete" in
      let? formation := or_error missing (required fields "formation") in
      let? members_raw := or_error missing (required fields "members") in
      let? id := parse_id formation in
      let? members := parse_ids (split ","%char members_raw) in
      Ok (PFormation id members)
  | TriggerMusicCue | TriggerLightingCue =>
      let? cue := required fields "cue" in
      let? id := parse_id cue in
      let? depends := parse_depends fields in
      Ok (PCue id depends)
  end.

Definition parse_command (text : string) : result Error Command :=
  let? fields := fields_from text in
  let missing := mkError ProtocolError "command envelope is incomplete" in
  let? schema := or_error missing (required_i64 fields "schema") in
  let? type_name := or_error missing (required fields "type") in
  let? command_id := or_error missing (required fields "cmd") in
  let? choreography := or_error missing (required fields "choreo") in
  let? tick := or_error missing (required_i64 fields "tick") in
  if negb (schema =? kCurrentSchemaVersion)
  then Err (mkError UnsupportedVersion "command schema version is unsupported")
  else
    let invalid := mkError ProtocolError "command envelope is invalid" in
    let? parsed_type := or_error invalid (parse_command_type type_name) in
    let? parsed_id := or_error invalid (parse_id command_id) in
    let? parsed_show := or_error invalid (parse_id choreography) in
    let? parsed_tick := or_error invalid (from_ticks tick) in
    let? payload := parse_command_payload fields parsed_show parsed_type in
    Ok (mkCommand parsed_id parsed_show parsed_type (wrap16 schema) parsed_tick payload).
