(* ===== verification/EventCodecThms.v ===== *)
(** * Round trips of the event and command records

    A record is a list of fields; parsing gives back the fields that were
    written, from which each value is recovered. *)

From S2P Require Import Prelude Text Types Model EventCodec.

(** ** Fields *)

Definition field_text (kv : string * string) : string := kv.1 +:+ "=" +:+ kv.2.

Definition fields_text (fs : list (string * string)) : string := join ";" (field_text <$> fs).

(** The first value of a key. *)
Fixpoint assoc (k : string) (fs : list (string * string)) : option string :=
  match fs with
  | [] => None
  | (k', v) :: rest => if String.eqb k k' then Some v else assoc k rest
  end.

Definition field_ok (kv : string * string) : Prop :=
  lacks "=" kv.1 = true /\ lacks ";" kv.1 = true /\ lacks ";" kv.2 = true.

Lemma field_text_not_empty kv : field_text kv <> "".
Proof. destruct kv as [[|c k] v]; done. Qed.

Lemma lacks_field kv : field_ok kv -> lacks ";" (field_text kv) = true.
Proof. intros (_ & H1 & H2). unfold field_text. by rewrite !lacks_app, H1, H2. Qed.

Lemma collect_fields_ok missing fs : forall m,
  Forall field_ok fs ->
  exists m', collect_fields missing (field_text <$> fs) m = Ok m' /\
    forall k, m' !! k = match m !! k with Some v => Some v | None => assoc k fs end.
Proof.
  induction fs as [|[k v] fs IH]; intros m Hall; rewrite ?fmap_cons; cbn [collect_fields assoc].
  - exists m. split; [done|]. intros k. by destruct (m !! k).
  - inversion Hall as [|?? (Hk & _ & _) Hfs]; subst.
    rewrite bool_decide_eq_false_2 by apply field_text_not_empty.
    change (field_text (k, v)) with (k +:+ String "=" v). rewrite break_at_first by done.
    destruct (IH (match m !! k with Some _ => m | None => <[k := v]> m end) Hfs)
      as (m' & -> & Hm'). exists m'. split; [done|]. intros k'. rewrite Hm'.
    destruct (String.eqb_spec k' k) as [->|Hne].
    + destruct (m !! k) as [w|] eqn:E; [by rewrite E|]. by rewrite lookup_insert_eq.
    + destruct (m !! k); [done|]. by rewrite lookup_insert_ne by done.
Qed.

Lemma fields_roundtrip missing fs :
  Forall field_ok fs ->
  exists m, collect_fields missing (split ";" (fields_text fs)) ∅ = Ok m /\
    forall k, m !! k = assoc k fs.
Proof.
  intros Hall. unfold fields_text. rewrite split_join.
  - destruct (collect_fields_ok missing fs ∅ Hall) as (m & Hm & Hl).
    exists m. split; [done|]. intros k. by rewrite Hl, lookup_empty.
  - apply Forall_fmap. eapply list.Forall_impl; [exact Hall|]. intros kv. apply lacks_field.
  - intros H. apply last_Some_elem_of, list_elem_of_fmap in H as (kv & H & _).
    by apply (field_text_not_empty kv).
Qed.

(** ** Identifiers carry no separator *)

Lemma id_char_not (c : ascii) (d : ascii) :
  is_allowed_id_char d = false -> is_allowed_id_char c = true -> c <> d.
Proof. intros H1 H2 ->. congruence. Qed.

Lemma valid_id_lacks d id : is_allowed_id_char d = false -> valid_id id = true -> lacks d id = true.
Proof.
  intros Hd H. unfold valid_id in H. bool_props. by eapply lacks_impl.
Qed.

Lemma valid_id_not_empty id : valid_id id = true -> id <> "".
Proof. unfold valid_id. intros. by bool_props. Qed.

Lemma lacks_members ids :
  Forall (fun m => valid_id m = true) ids -> lacks ";" (join "," ids) = true.
Proof.
  induction 1 as [|x l Hx Hl IH]; [done|]. destruct l as [|y l].
  - by apply valid_id_lacks.
  - change (join "," (x :: y :: l)) with (x +:+ "," +:+ join "," (y :: l)).
    rewrite !lacks_app, IH. by rewrite valid_id_lacks.
Qed.

Lemma parse_ids_valid ids : Forall (fun m => valid_id m = true) ids -> parse_ids ids = Ok ids.
Proof.
  induction 1 as [|x l Hx Hl IH]; [done|]. simpl. by rewrite parse_id_valid, IH by done.
Qed.

Lemma split_ids ids :
  Forall (fun m => valid_id m = true) ids -> split "," (join "," ids) = ids.
Proof.
  intros H. apply split_join.
  - eapply list.Forall_impl; [exact H|]. intros x. by apply valid_id_lacks.
  - intros Hl. apply last_Some_elem_of in Hl. rewrite list.Forall_forall in H.
    apply H in Hl. by apply valid_id_not_empty in Hl.
Qed.

Lemma join_ids_empty ids :
  Forall (fun m => valid_id m = true) ids -> join "," ids = "" -> ids = [].
Proof.
  intros H. destruct H as [|x [|y l] Hx Hl]; [done|..]; intros E.
  - by apply valid_id_not_empty in Hx.
  - apply str_app_nil_inv in E as [-> _]. by apply valid_id_not_empty in Hx.
Qed.

Lemma parse_members_valid ids :
  Forall (fun m => valid_id m = true) ids -> parse_members (write_members ids) = Ok ids.
Proof.
  intros H. unfold parse_members, write_members. destruct (bool_decide _) eqn:E; bool_props.
  - by rewrite (join_ids_empty ids).
  - rewrite split_ids by done. by apply parse_ids_valid.
Qed.

(** ** Events *)

Definition payload_fields (payload : Payload) : list (string * string) :=
  match payload with
  | PCreate _ stage overlap travel =>
      [("width", print_i (st_width stage)); ("depth", print_i (st_depth stage));
       ("overlap", overlap_policy_name overlap); ("travel", print_i travel)]
  | PDancer id position =>
      [("dancer", id); ("x", print_i (pos_x position)); ("y", print_i (pos_y position))]
  | PRemove id => [("dancer", id)]
  | PFormation id members => [("formation", id); ("members", write_members members)]
  | PCue id depends => [("cue", id); ("depends", default "" depends)]
  end.

Definition event_fields (e : Event) : list (string * string) :=
  [("schema", print_u (ev_schema e)); ("type", event_type_name (ev_type e)); ("event", ev_id e);
   ("cmd", ev_command e); ("choreo", ev_choreography e); ("tick", print_i (ev_tick e));
   ("index", print_u (ev_index e)); ("term", print_u (ev_term e))] ++
  (if bool_decide (ev_type e = NoOp) then [] else payload_fields (ev_payload e)).

Lemma canonical_event_fields e : canonical_event e = fields_text (event_fields e).
Proof.
  unfold canonical_event, event_fields, fields_text.
  destruct (bool_decide _); [|destruct (ev_payload e)];
    unfold canonical_payload, field_text; simpl; rewrite <- ?str_app_assoc; simpl;
    rewrite ?str_app_nil_r; repeat (f_equal; rewrite <- ?str_app_assoc; simpl).
Qed.

(** What [canonical_event] may be given: validated parts, a payload of the
    event's type, for a creation the envelope's choreography, and for a no-op
    the placeholder payload. *)
Definition event_ok (e : Event) : Prop :=
  0 <= ev_schema e < 65536 /\ valid_id (ev_id e) = true /\ valid_id (ev_command e) = true /\
  valid_id (ev_choreography e) = true /\ valid_tick (ev_tick e) /\ u64 (ev_index e) /\
  valid_term (ev_term e) /\
  match ev_type e with
  | NoOp => ev_payload e = PCreate (ev_choreography e) (mkStageBounds 1 1) Forbidden 0
  | _ => payload_matches (ev_type e) (ev_payload e) = true /\ payload_ok (ev_payload e) /\
         match ev_payload e with PCreate id _ _ _ => id = ev_choreography e | _ => True end
  end.

Lemma field_ok_text k v :
  lacks "=" k = true -> lacks ";" k = true -> lacks ";" v = true -> field_ok (k, v).
Proof. done. Qed.

Ltac field_value :=
  first [ by apply lacks_print_u; [|unfold u64, valid_term in *; lia]
        | by apply lacks_print_i | by apply valid_id_lacks | by apply lacks_members
        | done ].

Lemma payload_fields_ok payload : payload_ok payload -> Forall field_ok (payload_fields payload).
Proof.
  destruct payload as [id stage [] travel|id p|id|id members|id [d|]]; simpl; intros H;
    destruct_and?; repeat constructor; simpl; field_value.
Qed.

Lemma event_fields_ok e : event_ok e -> Forall field_ok (event_fields e).
Proof.
  intros (H1 & H2 & H3 & H4 & H5 & H6 & H7 & H8). unfold event_fields. apply Forall_app. split.
  - repeat constructor; simpl; try field_value. by destruct (ev_type e).
  - destruct (bool_decide_reflect (ev_type e = NoOp)); [constructor|].
    apply payload_fields_ok. destruct (ev_type e); try done; by destruct_and!.
Qed.

Section Lookups.
Context (m : gmap string string) (fs : list (string * string)).
Context (Hm : forall k, m !! k = assoc k fs).

Lemma require_field_assoc k v : assoc k fs = Some v -> require_field m k = Ok v.
Proof. intros H. unfold require_field. by rewrite Hm, H. Qed.

Lemma parse_i64_assoc k v :
  assoc k fs = Some (print_i v) -> min_i64 <= v <= max_i64 -> parse_i64 m k = Ok v.
Proof.
  intros H Hv. unfold parse_i64. rewrite (require_field_assoc _ _ H). by rewrite stoll_print.
Qed.

Lemma parse_u64_assoc k v : assoc k fs = Some (print_u v) -> u64 v -> parse_u64 m k = Ok v.
Proof.
  intros H Hv. unfold parse_u64. rewrite (require_field_assoc _ _ H). by rewrite stoull_print'.
Qed.

Lemma required_assoc k v : assoc k fs = Some v -> required m k = Ok v.
Proof. intros H. unfold required. by rewrite Hm, H. Qed.

Lemma required_i64_assoc k v :
  assoc k fs = Some (print_i v) -> min_i64 <= v <= max_i64 -> required_i64 m k = Ok v.
Proof.
  intros H Hv. unfold required_i64. rewrite (required_assoc _ _ H). by rewrite from_chars_print.
Qed.

Lemma required_i32_assoc k v :
  assoc k fs = Some (print_i v) -> min_i32 <= v <= max_i32 -> required_i32 m k = Ok v.
Proof.
  intros H Hv. unfold required_i32.
  rewrite (required_i64_assoc _ _ H) by (unfold min_i64, max_i64, min_i32, max_i32 in *; lia).
  by rewrite !(proj2 (Z.ltb_ge _ _)) by lia.
Qed.

Lemma parse_depends_assoc d :
  assoc "depends" fs = Some (default "" d) ->
  match d with Some d => valid_id d = true | None => True end ->
  parse_depends m = Ok d.
Proof.
  intros H Hd. unfold parse_depends. rewrite Hm, H. destruct d as [d|]; simpl; [|done].
  rewrite bool_decide_eq_false_2 by by apply valid_id_not_empty. by rewrite parse_id_valid.
Qed.
End Lookups.

(** Coordinates and travel limits fit 32 and 64 bits. *)
Lemma coordinate_bounds mm : valid_coordinate mm ->
  min_i64 <= mm <= max_i64 /\ min_i32 <= mm <= max_i32 /\ to_i32 mm = mm.
Proof.
  unfold valid_coordinate, kMaxStageMm, min_i64, max_i64, min_i32, max_i32. intros.
  repeat split; try lia. apply to_i32_small. lia.
Qed.

Lemma stage_coordinates s : valid_stage s ->
  valid_coordinate (st_width s) /\ valid_coordinate (st_depth s).
Proof. unfold valid_stage, valid_coordinate. lia. Qed.

Lemma i32_bounds x : min_i32 <= x <= max_i32 -> min_i64 <= x <= max_i64 /\ to_i32 x = x.
Proof.
  unfold min_i64, max_i64, min_i32, max_i32. intros. split; [lia|]. apply to_i32_small. lia.
Qed.

Lemma parse_event_payload_fields m fs choreography type payload :
  (forall k, m !! k = assoc k fs) ->
  (forall k v, assoc k (payload_fields payload) = Some v -> assoc k fs = Some v) ->
  payload_matches type payload = true -> payload_ok payload ->
  match payload with PCreate id _ _ _ => id = choreography | _ => True end ->
  parse_event_payload m choreography type = Ok payload.
Proof.
  intros Hm Hfs Hmatch Hok Hid.
  destruct payload as [id stage overlap travel|id p|id|id members|id depends].
  - destruct type; try done. destruct Hok as (_ & Hst & Htr). subst id.
    destruct (stage_coordinates _ Hst) as [(W1 & _ & W2)%coordinate_bounds
                                           (D1 & _ & D2)%coordinate_bounds].
    destruct (i32_bounds _ Htr) as [T1 T2]. unfold parse_event_payload.
    rewrite (parse_i64_assoc m fs Hm "width" (st_width stage)) by (done || by apply Hfs).
    rewrite (parse_i64_assoc m fs Hm "depth" (st_depth stage)) by (done || by apply Hfs).
    rewrite (require_field_assoc m fs Hm "overlap" (overlap_policy_name overlap)) by by apply Hfs.
    rewrite (parse_i64_assoc m fs Hm "travel" travel) by (done || by apply Hfs).
    simpl. rewrite W2, D2, T2, stage_from_mm_valid by done. simpl.
    by rewrite parse_overlap_policy_name.
  - destruct Hok as [Hid' Hp]. pose proof Hp as [(X1 & _ & X2)%coordinate_bounds
                                                 (Y1 & _ & Y2)%coordinate_bounds].
    assert (parse_i64 m "x" = Ok (pos_x p)) as Hx
      by (apply (parse_i64_assoc m fs Hm); [by apply Hfs|done]).
    assert (parse_i64 m "y" = Ok (pos_y p)) as Hy
      by (apply (parse_i64_assoc m fs Hm); [by apply Hfs|done]).
    assert (require_field m "dancer" = Ok id) as Hr
      by (apply (require_field_assoc m fs Hm); by apply Hfs).
    destruct type; try done; unfold parse_event_payload; rewrite Hr, Hx, Hy; simpl;
      rewrite parse_id_valid by done; simpl; rewrite X2, Y2, position_from_mm_valid by done; done.
  - destruct type; try done. unfold parse_event_payload.
    rewrite (require_field_assoc m fs Hm "dancer" id) by by apply Hfs.
    by rewrite parse_id_valid.
  - destruct Hok as [Hid' Hmem].
    assert (require_field m "formation" = Ok id) as Hr
      by (apply (require_field_assoc m fs Hm); by apply Hfs).
    assert (require_field m "members" = Ok (write_members members)) as Hr'
      by (apply (require_field_assoc m fs Hm); by apply Hfs).
    destruct type; try done; unfold parse_event_payload; rewrite Hr, Hr'; simpl;
      by rewrite parse_id_valid, parse_members_valid.
  - destruct Hok as [Hid' Hdep].
    assert (require_field m "cue" = Ok id) as Hr
      by (apply (require_field_assoc m fs Hm); by apply Hfs).
    assert (parse_depends m = Ok depends) as Hr'
      by (apply (parse_depends_assoc m fs Hm); [by apply Hfs|done]).
    destruct type; try done; unfold parse_event_payload; rewrite Hr, parse_id_valid by done;
      by rewrite Hr'.
Qed.

Lemma wrap16_small x : 0 <= x < 65536 -> wrap16 x = x.
Proof. apply Z.mod_small. Qed.

(** The payload fields of an event are found behind its envelope. *)
Lemma payload_assoc e k v :
  ev_type e <> NoOp -> assoc k (payload_fields (ev_payload e)) = Some v ->
  assoc k (event_fields e) = Some v.
Proof.
  intros Ht H. unfold event_fields. rewrite bool_decide_eq_false_2 by done.
  assert (k ∈ ["width"; "depth"; "overlap"; "travel"; "dancer"; "x"; "y"; "formation"; "members";
               "cue"; "depends"]) as Hk.
  { destruct (ev_payload e); simpl in H;
      repeat match type of H with
      | context [String.eqb k ?x] => destruct (String.eqb_spec k x) as [->|_]; [set_solver|]
      end; done. }
  rewrite !elem_of_cons, elem_of_nil in Hk. by destruct_or!; subst k.
Qed.

Lemma parse_event_canonical e : event_ok e -> parse_event (canonical_event e) = Ok e.
Proof.
  intros He. pose proof (event_fields_ok _ He) as Hall. rewrite canonical_event_fields.
  pose proof He as (H1 & H2 & H3 & H4 & H5 & H6 & H7 & H8).
  unfold parse_event, parse_fields.
  destruct (fields_roundtrip (mkError StoreError "event record is missing '='") _ Hall)
    as (m & -> & Hm).
  rewrite (parse_u64_assoc m _ Hm "schema" (ev_schema e)) by (done || unfold u64, max_u64; lia).
  rewrite (require_field_assoc m _ Hm "type" (event_type_name (ev_type e))) by done.
  rewrite (require_field_assoc m _ Hm "event" (ev_id e)) by done.
  rewrite (require_field_assoc m _ Hm "cmd" (ev_command e)) by done.
  rewrite (require_field_assoc m _ Hm "choreo" (ev_choreography e)) by done.
  rewrite (parse_i64_assoc m _ Hm "tick" (ev_tick e))
    by (done || unfold valid_tick, min_i64 in *; lia).
  rewrite (parse_u64_assoc m _ Hm "index" (ev_index e)) by done.
  rewrite (parse_u64_assoc m _ Hm "term" (ev_term e)) by (done || unfold u64, valid_term in *; lia).
  cbn [or_error]. rewrite parse_event_type_name, !parse_id_valid by done.
  rewrite from_ticks_valid, parse_term_valid by done. cbn [or_error parse_index].
  assert (parse_event_payload m (ev_choreography e) (ev_type e) = Ok (ev_payload e)) as ->.
  { destruct (decide (ev_type e = NoOp)) as [Hn|Hn]; [by rewrite Hn in *; rewrite H8|].
    eapply parse_event_payload_fields; [exact Hm|intros; by apply payload_assoc|..];
      destruct (ev_type e); try done; by destruct_and!. }
  rewrite wrap16_small by done. by destruct e.
Qed.

(** A committed event is read back as it was written: parsing the canonical
    text of any well-formed event returns that event. *)
Lemma parse_canonical_event e : event_ok e -> parse_event (canonical_event e) = Ok e.
Proof. exact (parse_event_canonical e). Qed.

(** A move, as the store writes it. *)
Definition demo_event : Event :=
  mkEvent "c-7" "c-7" "opening" DancerMoved 1 4320 7 2 (PDancer "alice" (mkPosition 1200 0)).

Lemma demo_event_ok : event_ok demo_event.
Proof.
  unfold event_ok, valid_tick, u64, valid_term, payload_ok, valid_position, valid_coordinate.
  repeat split; vm_compute; congruence.
Qed.

Lemma parse_canonical_event_witness :
  canonical_event demo_event =
    "schema=1;type=DANCER_MOVED;event=c-7;cmd=c-7;choreo=opening;tick=4320;index=7;term=2;dancer=alice;x=1200;y=0" /\
  parse_event (canonical_event demo_event) = Ok demo_event.
Proof.
  split; [vm_compute; reflexivity|]. apply parse_canonical_event, demo_event_ok.
Defined.

(** ** Commands *)

(** [members_of] is the comma-separated list when no member is empty. *)
Lemma members_of_join ids :
  Forall (fun m => valid_id m = true) ids -> members_of ids = join "," ids.
Proof.
  assert (Hgo : forall l acc, Forall (fun m => valid_id m = true) l -> acc <> "" ->
    foldl (fun text member =>
             (if bool_decide (text = "") then text else text +:+ ",") +:+ member) acc l =
    join "," (acc :: l)).
  { intros l. induction l as [|x l IH]; intros acc Hl Hacc; [done|].
    inversion Hl as [|?? Hx Hl']; subst. cbn [foldl]. rewrite bool_decide_eq_false_2 by done.
    rewrite IH; [|done|by destruct acc].
    change (join "," (acc :: x :: l)) with (acc +:+ "," +:+ join "," (x :: l)).
    destruct l as [|y l]; simpl; by rewrite <- ?str_app_assoc. }
  unfold members_of. intros [|x l Hx Hl]; [done|]. cbn [foldl]. simpl (bool_decide _).
  rewrite Hgo; [done..|]. by apply valid_id_not_empty.
Qed.

Definition command_fields (c : Command) : list (string * string) :=
  [("schema", print_u (c_schema c)); ("type", command_type_name (c_type c)); ("cmd", c_id c);
   ("choreo", c_choreography c); ("tick", print_i (c_tick c))] ++ payload_fields (c_payload c).

(** A command as the constructors build it, of the supported schema. *)
Definition command_ok (c : Command) : Prop :=
  c_schema c = kCurrentSchemaVersion /\ valid_id (c_id c) = true /\
  valid_id (c_choreography c) = true /\ valid_tick (c_tick c) /\
  payload_matches (event_type_for (c_type c)) (c_payload c) = true /\ payload_ok (c_payload c) /\
  match c_payload c with PCreate id _ _ _ => id = c_choreography c | _ => True end.

Lemma canonical_command_fields c :
  payload_ok (c_payload c) -> canonical_command c = fields_text (command_fields c).
Proof.
  intros Hok. unfold canonical_command, command_fields, fields_text.
  destruct (c_payload c) as [| | |id members|]; simpl in Hok;
    unfold command_payload_text, canonical_payload, field_text, write_members;
    rewrite ?members_of_join by (by destruct_and!); simpl; rewrite <- ?str_app_assoc; simpl;
    rewrite ?str_app_nil_r; repeat (f_equal; rewrite <- ?str_app_assoc; simpl).
Qed.

Lemma command_payload_assoc c k v :
  assoc k (payload_fields (c_payload c)) = Some v -> assoc k (command_fields c) = Some v.
Proof.
  intros H. unfold command_fields.
  assert (k ∈ ["width"; "depth"; "overlap"; "travel"; "dancer"; "x"; "y"; "formation"; "members";
               "cue"; "depends"]) as Hk.
  { destruct (c_payload c); simpl in H;
      repeat match type of H with
      | context [String.eqb k ?x] => destruct (String.eqb_spec k x) as [->|_]; [set_solver|]
      end; done. }
  rewrite !elem_of_cons, elem_of_nil in Hk. by destruct_or!; subst k.
Qed.

Lemma parse_command_payload_fields m fs choreography type payload :
  (forall k, m !! k = assoc k fs) ->
  (forall k v, assoc k (payload_fields payload) = Some v -> assoc k fs = Some v) ->
  payload_matches (event_type_for type) payload = true -> payload_ok payload ->
  match payload with PCreate id _ _ _ => id = choreography | _ => True end ->
  parse_command_payload m choreography type = Ok payload.
Proof.
  intros Hm Hfs Hmatch Hok Hid.
  destruct payload as [id stage overlap travel|id p|id|id members|id depends].
  - destruct type; try done. destruct Hok as (_ & Hst & Htr). subst id.
    destruct (stage_coordinates _ Hst) as [(_ & W & _)%coordinate_bounds
                                           (_ & D & _)%coordinate_bounds].
    unfold parse_command_payload.
    rewrite (required_i32_assoc m fs Hm "width" (st_width stage)) by (done || by apply Hfs).
    rewrite (required_i32_assoc m fs Hm "depth" (st_depth stage)) by (done || by apply Hfs).
    rewrite (required_i32_assoc m fs Hm "travel" travel) by (done || by apply Hfs).
    rewrite (required_assoc m fs Hm "overlap" (overlap_policy_name overlap)) by by apply Hfs.
    simpl. rewrite stage_from_mm_valid by done. simpl. by rewrite parse_overlap_policy_name.
  - destruct Hok as [Hid' Hp]. pose proof Hp as [(_ & X & _)%coordinate_bounds
                                                 (_ & Y & _)%coordinate_bounds].
    assert (required_i32 m "x" = Ok (pos_x p)) as Hx
      by (apply (required_i32_assoc m fs Hm); [by apply Hfs|done]).
    assert (required_i32 m "y" = Ok (pos_y p)) as Hy
      by (apply (required_i32_assoc m fs Hm); [by apply Hfs|done]).
    assert (required m "dancer" = Ok id) as Hr
      by (apply (required_assoc m fs Hm); by apply Hfs).
    destruct type; try done; unfold parse_command_payload; rewrite Hr, Hx, Hy; simpl;
      rewrite parse_id_valid by done; simpl; by rewrite position_from_mm_valid.
  - destruct type; try done. unfold parse_command_payload.
    rewrite (required_assoc m fs Hm "dancer" id) by by apply Hfs. by rewrite parse_id_valid.
  - destruct Hok as [Hid' Hmem].
    assert (required m "formation" = Ok id) as Hr
      by (apply (required_assoc m fs Hm); by apply Hfs).
    assert (required m "members" = Ok (write_members members)) as Hr'
      by (apply (required_assoc m fs Hm); by apply Hfs).
    destruct type; try done; unfold parse_command_payload; rewrite Hr, Hr'; simpl;
      unfold write_members; by rewrite parse_id_valid, split_ids, parse_ids_valid.
  - destruct Hok as [Hid' Hdep].
    assert (required m "cue" = Ok id) as Hr
      by (apply (required_assoc m fs Hm); by apply Hfs).
    assert (parse_depends m = Ok depends) as Hr'
      by (apply (parse_depends_assoc m fs Hm); [by apply Hfs|done]).
    destruct type; try done; unfold parse_command_payload; rewrite Hr, parse_id_valid by done;
      by rewrite Hr'.
Qed.

(** A command sent by a client is received as it was sent: parsing the
    canonical text of any well-formed command returns that command. *)
Lemma parse_canonical_command c : command_ok c -> parse_command (canonical_command c) = Ok c.
Proof.
  intros (H1 & H2 & H3 & H4 & H5 & H6 & H7). rewrite canonical_command_fields by done.
  assert (Forall field_ok (command_fields c)) as Hall.
  { unfold command_fields. rewrite H1. apply Forall_app. split; [|by apply payload_fields_ok].
    repeat constructor; simpl; try field_value. by destruct (c_type c). }
  unfold parse_command, fields_from.
  destruct (fields_roundtrip (mkError ProtocolError "command field is missing '='") _ Hall)
    as (m & -> & Hm).
  rewrite (required_i64_assoc m _ Hm "schema" (c_schema c));
    [|by unfold command_fields; simpl; rewrite H1|by rewrite H1].
  rewrite (required_assoc m _ Hm "type" (command_type_name (c_type c))) by done.
  rewrite (required_assoc m _ Hm "cmd" (c_id c)) by done.
  rewrite (required_assoc m _ Hm "choreo" (c_choreography c)) by done.
  rewrite (required_i64_assoc m _ Hm "tick" (c_tick c))
    by (done || unfold valid_tick, min_i64 in *; lia).
  cbn [or_error]. rewrite H1. simpl (negb _). cbv iota.
  rewrite parse_command_type_name, !parse_id_valid, from_ticks_valid by done. cbn [or_error].
  erewrite parse_command_payload_fields;
    [|exact Hm|intros; by apply command_payload_assoc|done..].
  simpl. rewrite wrap16_small by done. destruct c. by simplify_eq/=.
Qed.

Definition demo_command : Command :=
  mkCommand "c-9" "opening" DefineFormation 1 480 (PFormation "front" ["alice"; "bob"]).

Lemma parse_canonical_command_witness :
  canonical_command demo_command =
    "schema=1;type=DEFINE_FORMATION;cmd=c-9;choreo=opening;tick=480;formation=front;members=alice,bob" /\
  parse_command (canonical_command demo_command) = Ok demo_command.
Proof.
  split; [vm_compute; reflexivity|]. apply parse_canonical_command.
  unfold command_ok, valid_tick, payload_ok. simpl. repeat split; try (vm_compute; congruence).
  repeat constructor.
Defined.

(** ** What is parsed is well formed *)

(** The case of an [or_error], [let?] or comparison that gave a result. *)
Ltac parse_case :=
  match goal with
  | H : context [or_error _ ?r] |- _ => let E := fresh "E" in destruct r eqn:E; cbn [or_error] in H; [|done]
  | H : match ?r with Ok _ => _ | Err _ => _ end = Ok _ |- _ => let E := fresh "E" in destruct r eqn:E; [|done]
  end.

Lemma parse_ids_inv items ids : parse_ids items = Ok ids -> Forall (fun m => valid_id m = true) ids.
Proof.
  revert ids. induction items as [|item items IH]; intros ids H; cbn in H; [by injection H as <-|].
  repeat parse_case. injection H as <-. constructor; [|by apply IH]. by apply parse_id_ok in E as [-> ?].
Qed.

Lemma required_i32_inv fields key v : required_i32 fields key = Ok v -> min_i32 <= v <= max_i32.
Proof.
  unfold required_i32. destruct (required_i64 fields key) as [x|]; [|done].
  destruct (Z.ltb_spec x min_i32); [done|]. destruct (Z.ltb_spec max_i32 x); [done|]. cbn. intros [= <-]. lia.
Qed.

Lemma from_chars_range s v : from_chars_i64 s = Some v -> min_i64 <= v <= max_i64.
Proof.
  unfold from_chars_i64. intros H. repeat case_match; simplify_eq; bool_props; unfold min_i64, max_i64 in *; lia.
Qed.

Lemma required_i64_inv fields key v : required_i64 fields key = Ok v -> min_i64 <= v <= max_i64.
Proof.
  unfold required_i64. destruct (required fields key) as [raw|]; [|done].
  destruct (from_chars_i64 raw) as [x|] eqn:E; [|done]. intros [= <-]. by eapply from_chars_range.
Qed.

Lemma parse_command_payload_inv fields show type payload : valid_id show = true ->
  parse_command_payload fields show type = Ok payload ->
  payload_matches (event_type_for type) payload = true /\ payload_ok payload /\
  match payload with PCreate id _ _ _ => id = show | _ => True end.
Proof.
  intros Hs H. destruct type; cbn [parse_command_payload] in H; repeat parse_case; injection H as <-;
    repeat match goal with
    | E : parse_id _ = Ok _ |- _ => apply parse_id_ok in E as [-> ?]
    | E : position_from_mm _ _ = Ok _ |- _ => apply position_from_mm_ok in E as [-> ?]
    | E : stage_from_mm _ _ = Ok _ |- _ => apply stage_from_mm_ok in E
    | E : parse_ids _ = Ok _ |- _ => apply parse_ids_inv in E
    | E : required_i32 _ "travel" = Ok _ |- _ => apply required_i32_inv in E
    | E : parse_depends _ = Ok ?d |- _ => unfold parse_depends in E; repeat case_match; simplify_eq
    end; cbn; split_and!; done || lia.
Qed.

(** A command that is parsed is sent on as it was received. *)
Lemma parse_command_ok text c : parse_command text = Ok c -> command_ok c.
Proof.
  unfold parse_command. intros H. repeat parse_case.
  match goal with E : required_i64 _ "schema" = Ok ?x |- _ => destruct (Z.eqb_spec x kCurrentSchemaVersion) as [->|]; [|done] end.
  cbn [negb] in H. repeat parse_case. injection H as <-. unfold command_ok.
  cbn [c_schema c_id c_choreography c_tick c_type c_payload].
  repeat match goal with E : parse_id _ = Ok _ |- _ => apply parse_id_ok in E as [-> ?] end.
  match goal with E : parse_command_payload _ _ _ = Ok _ |- _ => apply parse_command_payload_inv in E as (? & ? & ?); [|done] end.
  match goal with E : from_ticks ?t = Ok _, E' : required_i64 _ "tick" = Ok ?t |- _ =>
    apply required_i64_inv in E'; unfold from_ticks in E; destruct (Z.ltb_spec t 0); [done|injection E as <-] end.
  split; [done|]. split; [done|]. split; [done|]. split; [unfold valid_tick; lia|]. done.
Qed.
