(* ===== verification/Machine.v ===== *)
(** * The choreography state machine

    [cpp-runtime/include/choreoos/state/machine.hpp] and
    [src/state/machine.cpp]: validation and application of events, command
    receipts, replay, the canonical text and hash of a state, and the
    in-memory [Engine]. An operation that mutates its argument returns the
    new value, or the error and (implicitly) the old value; the one operation
    that can fail halfway returns both. *)

From S2P Require Import Prelude Text Types Model EventCodec.

(** ** State *)

Record DancerState := mkDancerState { ds_position : Position; ds_active : bool }.

Record FormationState := mkFormationState { fs_members : list string }.

Record CueState := mkCueState { cs_tick : Z; cs_depends_on : option string }.

Record EventReceipt := mkEventReceipt { rc_index : Z; rc_term : Z; rc_fingerprint : Z }.

Record ChoreographyState := mkState {
  s_created : bool;
  s_id : option string;
  s_stage : option StageBounds;
  s_overlap : OverlapPolicy;
  s_max_travel_mm : Z;
  s_last_applied : Z;
  s_term : Z;
  s_dancers : gmap string DancerState;
  s_formations : gmap string FormationState;
  s_music_cues : gmap string CueState;
  s_lighting_cues : gmap string CueState;
  s_applied_events : gmap string string;
  s_applied_commands : gmap string string;
  s_receipts : gmap string EventReceipt;
}.

(** [ChoreographyState{}] *)
Definition empty_state : ChoreographyState :=
  mkState false None None Forbidden 0 0 1 ∅ ∅ ∅ ∅ ∅ ∅ ∅.

Record SubmitResult := mkSubmitResult { sr_event : Event; sr_duplicate : bool }.

Inductive IndexRule := Contiguous | Monotonic.

#[export] Instance DancerState_eq_dec : EqDecision DancerState.
Proof. solve_decision. Defined.
#[export] Instance FormationState_eq_dec : EqDecision FormationState.
Proof. solve_decision. Defined.
#[export] Instance CueState_eq_dec : EqDecision CueState.
Proof. solve_decision. Defined.
#[export] Instance EventReceipt_eq_dec : EqDecision EventReceipt.
Proof. solve_decision. Defined.
#[export] Instance ChoreographyState_eq_dec : EqDecision ChoreographyState.
Proof. solve_decision. Defined.

Definition s_with_dancers (d : gmap string DancerState) (s : ChoreographyState) : ChoreographyState :=
  mkState (s_created s) (s_id s) (s_stage s) (s_overlap s) (s_max_travel_mm s) (s_last_applied s)
    (s_term s) d (s_formations s) (s_music_cues s) (s_lighting_cues s) (s_applied_events s)
    (s_applied_commands s) (s_receipts s).

Definition s_with_formations (f : gmap string FormationState) (s : ChoreographyState)
    : ChoreographyState :=
  mkState (s_created s) (s_id s) (s_stage s) (s_overlap s) (s_max_travel_mm s) (s_last_applied s)
    (s_term s) (s_dancers s) f (s_music_cues s) (s_lighting_cues s) (s_applied_events s)
    (s_applied_commands s) (s_receipts s).

Definition s_with_cues (m l : gmap string CueState) (s : ChoreographyState) : ChoreographyState :=
  mkState (s_created s) (s_id s) (s_stage s) (s_overlap s) (s_max_travel_mm s) (s_last_applied s)
    (s_term s) (s_dancers s) (s_formations s) m l (s_applied_events s)
    (s_applied_commands s) (s_receipts s).

Definition s_with_history (events commands : gmap string string)
    (receipts : gmap string EventReceipt) (s : ChoreographyState) : ChoreographyState :=
  mkState (s_created s) (s_id s) (s_stage s) (s_overlap s) (s_max_travel_mm s) (s_last_applied s)
    (s_term s) (s_dancers s) (s_formations s) (s_music_cues s) (s_lighting_cues s)
    events commands receipts.

Definition s_with_position (index term : Z) (s : ChoreographyState) : ChoreographyState :=
  mkState (s_created s) (s_id s) (s_stage s) (s_overlap s) (s_max_travel_mm s) index
    term (s_dancers s) (s_formations s) (s_music_cues s) (s_lighting_cues s)
    (s_applied_events s) (s_applied_commands s) (s_receipts s).

(** ** Fingerprints *)

Definition kFnvOffset : Z := 14695981039346656037.
Definition kFnvPrime : Z := 1099511628211.

Definition kBase64 : string := "ABCDEFGHIJKLMNOPQRSTUVWXYZabcdefghijklmnopqrstuvwxyz0123456789-_".

(** The FNV-1a loop. *)
Fixpoint fnv1a (bytes : string) (hash : Z) : Z :=
  match bytes with
  | EmptyString => hash
  | String byte rest => fnv1a rest (wrap64 (Z.lxor hash (code byte) * kFnvPrime))
  end.

Definition base64_char (digit : Z) : ascii :=
  default "A"%char (String.get (Z.to_nat digit) kBase64).

(** The loop of [encode_fingerprint], writing from the last position. *)
Fixpoint encode_digits (count : nat) (value : Z) (text : string) : string :=
  match count with
  | O => text
  | S count =>
      encode_digits count (Z.shiftr value 6) (String (base64_char (Z.land value 63)) text)
  end.

Definition encode_fingerprint (value : Z) : string := encode_digits 11 value "".

(** [std::find] over the alphabet. *)
Fixpoint find_char (c : ascii) (s : string) (at_ : Z) : option Z :=
  match s with
  | EmptyString => None
  | String x r => if bool_decide (x = c) then Some at_ else find_char c r (at_ + 1)
  end.

Fixpoint decode_digits (first : bool) (text : string) (value : Z) : result Error Z :=
  match text with
  | EmptyString => Ok value
  | String c rest =>
      match find_char c kBase64 0 with
      | None => Err (mkError StoreError "receipt fingerprint alphabet is invalid")
      | Some digit =>
          if first && (15 <? digit)
          then Err (mkError StoreError "receipt fingerprint overflows 64 bits")
          else decode_digits false rest (Z.lor (wrap64 (Z.shiftl value 6)) digit)
      end
  end.

Definition decode_fingerprint (text : string) : result Error Z :=
  if negb (Nat.eqb (String.length text) 11)
  then Err (mkError StoreError "receipt fingerprint length is invalid")
  else decode_digits true text 0.

(** [std::unique] and [std::sort] *)
Fixpoint unique (l : list string) : list string :=
  match l with
  | x :: ((y :: _) as rest) => if bool_decide (x = y) then unique rest else x :: unique rest
  | _ => l
  end.

Definition unique_sorted (members : list string) : list string :=
  unique (merge_sort String.le members).

(** [unique_sorted] on a formation's members, any other payload unchanged. *)
Definition normalize_payload (payload : Payload) : Payload :=
  match payload with
  | PFormation id members => PFormation id (unique_sorted members)
  | _ => payload
  end.

Definition normalize_command (command : Command) : Command :=
  mkCommand (c_id command) (c_choreography command) (c_type command) (c_schema command)
    (c_tick command) (normalize_payload (c_payload command)).

Definition command_fingerprint (command : Command) : Z :=
  fnv1a (canonical_command (normalize_command command)) kFnvOffset.

Definition command_from_event (event : Event) : option Command :=
  let command type :=
    Some (mkCommand (ev_command event) (ev_choreography event) type (ev_schema event)
            (ev_tick event) (ev_payload event)) in
  match ev_type event with
  | NoOp => None
  | ChoreographyCreated => command CreateChoreography
  | DancerAdded => command AddDancer
  | DancerRemoved => command RemoveDancer
  | DancerMoved => command MoveDancer
  | FormationDefined => command DefineFormation
  | FormationChanged => command ChangeFormation
  | MusicCueTriggered => command TriggerMusicCue
  | LightingCueTriggered => command TriggerLightingCue
  end.

Definition receipt_from_event (event : Event) : EventReceipt :=
  mkEventReceipt (ev_index event) (ev_term event)
    (match command_from_event event with Some c => command_fingerprint c | None => 0 end).

(** ** Validation helpers *)

Definition unsupported_schema (version : Z) : Error :=
  mkError UnsupportedVersion ("unsupported schema version " +:+ print_u version).

Definition domain_copy (s : ChoreographyState) : ChoreographyState := s_with_history ∅ ∅ ∅ s.

Definition find_dancer (s : ChoreographyState) (id : string) : option DancerState :=
  s_dancers s !! id.

(** Some active dancer other than [except] stands on the mark. *)
Definition mark_occupied (s : ChoreographyState) (position : Position) (except : option string)
    : bool :=
  existsb (fun '(id, dancer) =>
    ds_active dancer && negb (bool_decide (except = Some id)) &&
    bool_decide (ds_position dancer = position)) (map_to_list (s_dancers s)).

Definition require_created (s : ChoreographyState) : result Error StageBounds :=
  match s_created s, s_id s, s_stage s with
  | true, Some _, Some stage => Ok stage
  | _, _, _ => Err (mkError ChoreographyNotFound "choreography has not been created")
  end.

Definition require_schema (version : Z) : result Error unit :=
  if negb (version =? kCurrentSchemaVersion) then Err (unsupported_schema version) else Ok tt.

Fixpoint validate_members (s : ChoreographyState) (members : list string) : result Error unit :=
  match members with
  | [] => Ok tt
  | member :: rest =>
      match find_dancer s member with
      | None => Err (mkError DancerNotFound ("formation references unknown dancer " +:+ member))
      | Some dancer =>
          if negb (ds_active dancer)
          then Err (mkError DancerInactive ("formation references inactive dancer " +:+ member))
          else validate_members s rest
      end
  end.

Definition validate_formation_members (s : ChoreographyState) (members : list string)
    : result Error unit :=
  if bool_decide (members = [])
  then Err (mkError InvalidFormation "formation must contain at least one dancer")
  else validate_members s members.

Definition find_cue (s : ChoreographyState) (id : string) : option CueState :=
  match s_music_cues s !! id with
  | Some cue => Some cue
  | None => s_lighting_cues s !! id
  end.

Definition validate_cue_dependency (s : ChoreographyState) (depends_on : option string) (tick : Z)
    : result Error unit :=
  match depends_on with
  | None => Ok tt
  | Some id =>
      match find_cue s id with
      | None => Err (mkError CueDependencyUnmet ("cue depends on missing cue " +:+ id))
      | Some dependency =>
          if tick <? cs_tick dependency
          then Err (mkError CueDependencyUnmet "cue occurs before its dependency")
          else Ok tt
      end
  end.

Definition make_event (command : Command) (index term : Z) (payload : Payload)
    : result Error Event :=
  let? event_id := parse_id (c_id command) in
  Ok (mkEvent event_id (c_id command) (c_choreography command) (event_type_for (c_type command))
        (c_schema command) (c_tick command) index term payload).

(** ** Application of one event to the domain *)

Definition apply_create (s : ChoreographyState) (event : Event) (id : string)
    (stage : StageBounds) (overlap : OverlapPolicy) (max_travel_mm : Z)
    : result Error ChoreographyState :=
  if s_created s then Err (mkError ChoreographyExists "choreography already exists")
  else if max_travel_mm <? 0
  then Err (mkError InvalidTravel "maximum travel must be non-negative")
  else Ok (mkState true (Some id) (Some stage) overlap max_travel_mm (s_last_applied s)
             (ev_term event) (s_dancers s) (s_formations s) (s_music_cues s) (s_lighting_cues s)
             (s_applied_events s) (s_applied_commands s) (s_receipts s)).

Definition apply_add (s : ChoreographyState) (dancer_id : string) (position : Position)
    : result Error ChoreographyState :=
  let? stage := require_created s in
  if is_some (find_dancer s dancer_id)
  then Err (mkError DancerExists "dancer already exists")
  else if negb (contains stage position)
  then Err (mkError OutOfBounds "dancer is outside the stage")
  else if bool_decide (s_overlap s = Forbidden) && mark_occupied s position None
  then Err (mkError PositionOccupied "mark is already occupied")
  else Ok (s_with_dancers (<[dancer_id := mkDancerState position true]> (s_dancers s)) s).

Definition apply_remove (s : ChoreographyState) (dancer_id : string)
    : result Error ChoreographyState :=
  let? _ := require_created s in
  match s_dancers s !! dancer_id with
  | None => Err (mkError DancerNotFound "dancer does not exist")
  | Some dancer =>
      if negb (ds_active dancer)
      then Err (mkError DancerInactive "dancer is already removed")
      else Ok (s_with_dancers
                 (<[dancer_id := mkDancerState (ds_position dancer) false]> (s_dancers s)) s)
  end.

Definition apply_move (s : ChoreographyState) (dancer_id : string) (position : Position)
    : result Error ChoreographyState :=
  let? stage := require_created s in
  match s_dancers s !! dancer_id with
  | None => Err (mkError DancerNotFound "dancer does not exist")
  | Some dancer =>
      if negb (ds_active dancer)
      then Err (mkError DancerInactive "removed dancers cannot move")
      else if negb (contains stage position)
      then Err (mkError OutOfBounds "move is outside the stage")
      else if negb (travel_within_limit (ds_position dancer) position (s_max_travel_mm s))
      then Err (mkError TravelTooFar "move exceeds the configured travel limit")
      else if bool_decide (s_overlap s = Forbidden) && mark_occupied s position (Some dancer_id)
      then Err (mkError PositionOccupied "mark is already occupied")
      else Ok (s_with_dancers
                 (<[dancer_id := mkDancerState position (ds_active dancer)]> (s_dancers s)) s)
  end.

Definition apply_formation (s : ChoreographyState) (type : EventType) (formation_id : string)
    (members : list string) : result Error ChoreographyState :=
  let? _ := require_created s in
  let members := unique_sorted members in
  let? _ := validate_formation_members s members in
  let exists_ := is_some (s_formations s !! formation_id) in
  if bool_decide (type = FormationDefined) && exists_
  then Err (mkError FormationExists "formation already exists")
  else if bool_decide (type = FormationChanged) && negb exists_
  then Err (mkError FormationNotFound "formation does not exist")
  else Ok (s_with_formations (<[formation_id := mkFormationState members]> (s_formations s)) s).

(** [apply_cue] on the music cues ([music = true]) or the lighting cues. *)
Definition apply_cue (s : ChoreographyState) (music : bool) (cue_id : string)
    (depends_on : option string) (tick : Z) : result Error ChoreographyState :=
  if is_some (find_cue s cue_id) then Err (mkError CueExists "cue already exists")
  else
    let? _ := validate_cue_dependency s depends_on tick in
    let cue := mkCueState tick depends_on in
    Ok (if music
        then s_with_cues (<[cue_id := cue]> (s_music_cues s)) (s_lighting_cues s) s
        else s_with_cues (s_music_cues s) (<[cue_id := cue]> (s_lighting_cues s)) s).

(** The [switch] of [apply_against]. *)
Definition apply_domain (s : ChoreographyState) (event : Event) : result Error ChoreographyState :=
  let unhandled := Err (mkError UnsupportedType "unhandled event type") in
  match ev_type event, ev_payload event with
  | ChoreographyCreated, PCreate id stage overlap travel =>
      apply_create s event id stage overlap travel
  | DancerAdded, PDancer id position => apply_add s id position
  | DancerRemoved, PRemove id => apply_remove s id
  | DancerMoved, PDancer id position => apply_move s id position
  | FormationDefined, PFormation id members => apply_formation s FormationDefined id members
  | FormationChanged, PFormation id members => apply_formation s FormationChanged id members
  | MusicCueTriggered, PCue id depends =>
      let? _ := require_created s in apply_cue s true id depends (ev_tick event)
  | LightingCueTriggered, PCue id depends =>
      let? _ := require_created s in apply_cue s false id depends (ev_tick event)
  | NoOp, _ => Ok s
  | _, _ => unhandled
  end.

(** ** Commit path *)

(** Has the event been applied before? *)
Definition existing_event (s : ChoreographyState) (event : Event) : result Error bool :=
  match s_applied_events s !! ev_id event with
  | Some text =>
      if bool_decide (text = canonical_event event) then Ok true
      else Err (mkError ConflictingEvent "event id was reused with different content")
  | None =>
      match s_receipts s !! ev_command event with
      | Some receipt =>
          match command_from_event event with
          | Some original =>
              if (rc_index receipt =? ev_index event) && (rc_term receipt =? ev_term event) &&
                 (rc_fingerprint receipt =? command_fingerprint original)
              then Ok true
              else Err (mkError ConflictingEvent
                          "committed command id was reused with different event content")
          | None => Err (mkError ConflictingEvent
                           "committed command id was reused with different event content")
          end
      | None =>
          if is_some (s_applied_commands s !! ev_command event)
          then Err (mkError ConflictingEvent
                      "legacy committed command id was replayed without an outcome receipt")
          else Ok false
      end
  end.

(** [map.insert]: an existing key keeps its value. *)
Definition insert_new {V} (k : string) (v : V) (m : gmap string V) : gmap string V :=
  match m !! k with Some _ => m | None => <[k := v]> m end.

(** The records of an applied event. *)
Definition record_event (event : Event) (s : ChoreographyState) : ChoreographyState :=
  s_with_history
    (insert_new (ev_id event) (canonical_event event) (s_applied_events s))
    (insert_new (ev_command event) (ev_id event) (s_applied_commands s))
    (if bool_decide (ev_type event = NoOp) then s_receipts s
     else <[ev_command event := receipt_from_event event]> (s_receipts s)) s.

Definition apply_against (s : ChoreographyState) (event : Event) (rule : IndexRule)
    (baseline : option ChoreographyState) : result Error ChoreographyState :=
  let? _ := require_schema (ev_schema event) in
  let? seen := existing_event s event in
  if (seen : bool) then Ok s
  else
    let? prior :=
      match baseline with Some b => existing_event b event | None => Ok false end in
    if (prior : bool) then Ok s
    else if match rule with Contiguous => negb (ev_index event =? index_next (s_last_applied s))
                       | Monotonic => false end
    then Err (mkError IndexGap "event index is not contiguous")
    else if match rule with Monotonic => negb (s_last_applied s <? ev_index event)
                       | Contiguous => false end
    then Err (mkError IndexGap "event index must increase during filtered replay")
    else
      let? candidate := apply_domain (domain_copy s) event in
      let published :=
        s_with_position (ev_index event) (ev_term event)
          (s_with_history (s_applied_events s) (s_applied_commands s) (s_receipts s) candidate) in
      Ok (record_event event published).

Definition apply (s : ChoreographyState) (event : Event) (rule : IndexRule)
    : result Error ChoreographyState := apply_against s event rule None.

Definition propose (s : ChoreographyState) (command : Command) : result Error Event :=
  let? _ := require_schema (c_schema command) in
  if is_some (s_applied_commands s !! c_id command) || is_some (s_receipts s !! c_id command)
  then Err (mkError DuplicateCommand "command id has already been accepted")
  else
    let? _ :=
      if negb (bool_decide (c_type command = CreateChoreography)) then
        let? _ := require_created s in
        if bool_decide (Some (c_choreography command) = s_id s) then Ok tt
        else Err (mkError ChoreographyNotFound "command targets a different choreography")
      else if s_created s then Err (mkError ChoreographyExists "choreography already exists")
      else Ok tt in
    let payload := normalize_payload (c_payload command) in
    let candidate := domain_copy s in
    let? tentative := make_event command (index_next (s_last_applied s)) (s_term s) payload in
    let? _ := apply candidate tentative Contiguous in
    Ok tentative.

(** The event passes the filters of [replay]. *)
Definition replayed (through_tick through_index : option Z) (event : Event) : bool :=
  match through_tick with Some t => negb (t <? ev_tick event) | None => true end &&
  match through_index with Some i => negb (i <? ev_index event) | None => true end.

Fixpoint replay_from (s : ChoreographyState) (events : list Event)
    (through_tick through_index : option Z) : result Error ChoreographyState :=
  match events with
  | [] => Ok s
  | event :: rest =>
      if replayed through_tick through_index event then
        let rule := if is_some through_tick || is_some through_index
                    then Monotonic else Contiguous in
        let? s' := apply s event rule in
        replay_from s' rest through_tick through_index
      else replay_from s rest through_tick through_index
  end.

Definition replay (events : list Event) (through_tick through_index : option Z)
    : result Error ChoreographyState := replay_from empty_state events through_tick through_index.

Definition resolve_receipt (s : ChoreographyState) (command : Command) : result Error Event :=
  match s_receipts s !! c_id command with
  | None => Err (mkError OutcomeUnavailable "committed legacy command has no recoverable receipt")
  | Some receipt =>
      if negb (command_fingerprint command =? rc_fingerprint receipt)
      then Err (mkError CommandConflict "operation id reused with different command")
      else
        let normalized := normalize_command command in
        let? event_id := parse_id (c_id command) in
        let? index := parse_index (rc_index receipt) in
        let? term := parse_term (rc_term receipt) in
        Ok (mkEvent event_id (c_id command) (c_choreography command)
              (event_type_for (c_type command)) (c_schema command) (c_tick command) index term
              (c_payload normalized))
  end.

(** ** Canonical text and hash *)

Definition newline : string := String (char 10) "".

Definition lines_of {V} (m : gmap string V) (line : string -> V -> string) : string :=
  foldr (fun kv text => line kv.1 kv.2 +:+ newline +:+ text) "" (sorted_items m).

Definition cue_text (cue : CueState) : string :=
  print_i (cs_tick cue) +:+ ":" +:+ default "" (cs_depends_on cue).

Definition canonical_state (s : ChoreographyState) : string :=
  "schema=" +:+ print_u kCurrentSchemaVersion +:+ newline +:+
  "created=" +:+ (if s_created s then "true" else "false") +:+ newline +:+
  "choreography=" +:+ default "" (s_id s) +:+ newline +:+
  match s_stage s with
  | Some stage => "stage=" +:+ print_i (st_width stage) +:+ "x" +:+ print_i (st_depth stage) +:+
                  newline
  | None => "stage=" +:+ newline
  end +:+
  "overlap=" +:+ overlap_policy_name (s_overlap s) +:+ newline +:+
  "max_travel_mm=" +:+ print_i (s_max_travel_mm s) +:+ newline +:+
  "last_applied=" +:+ print_u (s_last_applied s) +:+ newline +:+
  "term=" +:+ print_u (s_term s) +:+ newline +:+
  lines_of (s_dancers s) (fun id dancer =>
    "dancer=" +:+ id +:+ ":" +:+ print_i (pos_x (ds_position dancer)) +:+ "," +:+
    print_i (pos_y (ds_position dancer)) +:+ ":" +:+
    (if ds_active dancer then "active" else "inactive")) +:+
  lines_of (s_formations s) (fun id formation =>
    "formation=" +:+ id +:+ ":" +:+ join "," (fs_members formation)) +:+
  lines_of (s_music_cues s) (fun id cue => "music=" +:+ id +:+ ":" +:+ cue_text cue) +:+
  lines_of (s_lighting_cues s) (fun id cue => "light=" +:+ id +:+ ":" +:+ cue_text cue).

Definition hex_char (d : Z) : ascii := if d <? 10 then char (48 + d) else char (87 + d).

(** The last [count] hexadecimal digits. *)
Fixpoint hex_digits (count : nat) (value : Z) (text : string) : string :=
  match count with
  | O => text
  | S count => hex_digits count (Z.shiftr value 4) (String (hex_char (Z.land value 15)) text)
  end.

Definition state_hash (s : ChoreographyState) : string :=
  hex_digits 16 (fnv1a (canonical_state s) kFnvOffset) "".

(** ** History retention *)

Definition erase_history (event_key command : string) (drop_command : bool)
    (s : ChoreographyState) : ChoreographyState :=
  s_with_history (delete event_key (s_applied_events s))
    (if drop_command then delete command (s_applied_commands s) else s_applied_commands s)
    (s_receipts s) s.

(** The first loop of [retain_state_history_from], over the keys of
    [applied_events] in order. An unreadable record stops it there. *)
Fixpoint retain_events (s : ChoreographyState) (anchor : Z) (keys : list string)
    : ChoreographyState * option Error :=
  match keys with
  | [] => (s, None)
  | key :: rest =>
      match s_applied_events s !! key with
      | None => retain_events s anchor rest
      | Some text =>
          match parse_event text with
          | Err e => (s, Some e)
          | Ok parsed =>
              if anchor <=? ev_index parsed then retain_events s anchor rest
              else
                let covered := bool_decide (ev_type parsed = NoOp) ||
                               is_some (s_receipts s !! ev_command parsed) in
                retain_events (erase_history key (ev_command parsed) covered s) anchor rest
          end
      end
  end.

(** The second loop: command aliases covered by an old receipt. *)
Definition alias_kept (receipts : gmap string EventReceipt) (anchor : Z) (command : string)
    : bool :=
  match receipts !! command with Some r => negb (rc_index r <? anchor) | None => true end.

Definition retain_aliases (s : ChoreographyState) (anchor : Z) : ChoreographyState :=
  s_with_history (s_applied_events s)
    (filter (fun kv => alias_kept (s_receipts s) anchor kv.1 = true) (s_applied_commands s))
    (s_receipts s) s.

Definition retain_state_history_from (s : ChoreographyState) (anchor : Z)
    : ChoreographyState * option Error :=
  match retain_events s anchor (sorted_keys (s_applied_events s)) with
  | (s', Some e) => (s', Some e)
  | (s', None) => (retain_aliases s' anchor, None)
  end.

(** ** Engine *)

Record Engine := mkEngine { en_state : ChoreographyState; en_events : list Event }.

Definition empty_engine : Engine := mkEngine empty_state [].

Definition apply_committed (engine : Engine) (event : Event) : result Error Engine :=
  let? s := apply (en_state engine) event Contiguous in
  Ok (mkEngine s (en_events engine ++ [event])).

Definition submit (engine : Engine) (command : Command) : result Error (Engine * SubmitResult) :=
  let s := en_state engine in
  if is_some (s_applied_commands s !! c_id command) || is_some (s_receipts s !! c_id command) then
    let? receipt := resolve_receipt s command in
    Ok (engine, mkSubmitResult receipt true)
  else
    let? proposed := propose s command in
    let? engine' := apply_committed engine proposed in
    Ok (engine', mkSubmitResult proposed false).

Fixpoint prepare_loop (base : ChoreographyState) (staged : Engine) (batch : list Event)
    : result Error Engine :=
  match batch with
  | [] => Ok staged
  | event :: rest =>
      let? s := apply_against (en_state staged) event Contiguous (Some base) in
      prepare_loop base (mkEngine s (en_events staged ++ [event])) rest
  end.

Definition prepare_committed (engine : Engine) (batch : list Event) : result Error Engine :=
  prepare_loop (en_state engine) (mkEngine (domain_copy (en_state engine)) []) batch.

(** [std::map::merge] keeps the destination's value: a left-biased union. *)
Definition publish_committed (engine staged : Engine) : Engine :=
  let s := en_state engine in
  let t := en_state staged in
  mkEngine
    (s_with_history (s_applied_events s ∪ s_applied_events t)
       (s_applied_commands s ∪ s_applied_commands t) (s_receipts s ∪ s_receipts t) t)
    (en_events engine ++ en_events staged).

(** [std::lower_bound] as a binary search over [first, first + len). *)
Fixpoint lower_bound (fuel : nat) (events : list Event) (anchor : Z) (first len : nat) : nat :=
  match fuel, len with
  | S fuel, S _ =>
      let half := Nat.div len 2 in
      let middle := (first + half)%nat in
      match events !! middle with
      | Some event =>
          if ev_index event <? anchor
          then lower_bound fuel events anchor (S middle) (len - half - 1)
          else lower_bound fuel events anchor first half
      | None => first
      end
  | _, _ => first
  end.

Definition retain_history_from (engine : Engine) (anchor : Z) : Engine * option Error :=
  match retain_state_history_from (en_state engine) anchor with
  | (s, Some e) => (mkEngine s (en_events engine), Some e)
  | (s, None) =>
      let n := length (en_events engine) in
      (mkEngine s (drop (lower_bound n (en_events engine) anchor 0 n) (en_events engine)), None)
  end.

Definition restore (s : ChoreographyState) (history : list Event) : Engine :=
  mkEngine
    (s_with_history (s_applied_events s) (s_applied_commands s)
       (foldl (fun receipts event =>
                 if bool_decide (ev_type event = NoOp) then receipts
                 else <[ev_command event := receipt_from_event event]> receipts)
          (s_receipts s) history) s)
    history.

Definition replay_through (engine : Engine) (through_tick through_index : option Z)
    : result Error ChoreographyState :=
  if match en_events engine with
     | [] => negb (s_last_applied (en_state engine) =? 0)
     | event :: _ => negb (ev_index event =? 1)
     end
  then Err (mkError StoreError "historical replay is unavailable after compaction")
  else replay (en_events engine) through_tick through_index.

(** The leadership marker of [CoreReplica::noop]: the no-op event of a term at
    an index, for the choreography in the speculative state. *)
Definition noop_event (show : option string) (term index : Z) : Event :=
  let serial := print_u term +:+ "-" +:+ print_u index in
  let show := default "system" show in
  mkEvent ("noop-" +:+ serial) ("noop-" +:+ serial) show NoOp kCurrentSchemaVersion 0 index term
    (PCreate show (mkStageBounds 1 1) Forbidden 0).
