(* ===== verification/MachineInv.v ===== *)
(** * What a choreography state always satisfies

    The invariant of the domain part of a state, the declarative reading of
    one event ([domain_step]) and the proof that [apply_domain] implements it
    and keeps the invariant. *)

From S2P Require Import Prelude Text Types Model EventCodec Machine.

(** ** Sorting members *)

Lemma unique_cons x y l :
  unique (x :: y :: l) = if bool_decide (x = y) then unique (y :: l) else x :: unique (y :: l).
Proof. done. Qed.

Lemma unique_subset l x : x ∈ unique l <-> x ∈ l.
Proof.
  induction l as [|y [|z l] IH]; [done|done|]. rewrite unique_cons.
  destruct (bool_decide_reflect (y = z)) as [->|Hne].
  - rewrite IH. set_solver.
  - rewrite elem_of_cons, IH, (elem_of_cons (z :: l)). done.
Qed.

Lemma elem_of_unique_sorted l x : x ∈ unique_sorted l <-> x ∈ l.
Proof. unfold unique_sorted. rewrite unique_subset. by rewrite (merge_sort_Permutation String.le). Qed.

(** No element repeats its neighbour. *)
Fixpoint no_repeat (l : list string) : Prop :=
  match l with x :: ((y :: _) as rest) => x <> y /\ no_repeat rest | _ => True end.

Lemma unique_head x l : exists r, unique (x :: l) = x :: r.
Proof.
  revert x. induction l as [|y l IH]; intros x; [by exists []|]. rewrite unique_cons.
  destruct (bool_decide_reflect (x = y)) as [->|]; [apply IH|by eexists].
Qed.

Lemma unique_no_repeat l : no_repeat (unique l).
Proof.
  induction l as [|x [|y l] IH]; [done|done|]. rewrite unique_cons.
  destruct (bool_decide_reflect (x = y)); [done|].
  destruct (unique_head y l) as [r Hr]. rewrite Hr in *. by split.
Qed.

Lemma unique_id l : no_repeat l -> unique l = l.
Proof.
  induction l as [|x [|y l] IH]; [done|done|]. intros [Hne Hl]. rewrite unique_cons.
  rewrite bool_decide_eq_false_2 by done. by rewrite IH.
Qed.

Lemma unique_sublist l : unique l `sublist_of` l.
Proof.
  induction l as [|x [|y l] IH]; [done|done|]. rewrite unique_cons.
  destruct (bool_decide _); [by constructor|by constructor].
Qed.

Lemma StronglySorted_sublist {A} (R : relation A) l k :
  l `sublist_of` k -> StronglySorted R k -> StronglySorted R l.
Proof.
  induction 1 as [|x l k Hs IH|x l k Hs IH]; intros Hk; [done| |].
  - inversion Hk; subst. constructor; [by apply IH|].
    apply list.Forall_forall. intros y Hy. eapply list.Forall_forall; [done|].
    by eapply elem_of_sublist.
  - inversion Hk; subst. by apply IH.
Qed.

Lemma unique_sorted_sorted l : StronglySorted String.le (unique_sorted l).
Proof.
  eapply StronglySorted_sublist; [apply unique_sublist|]. apply StronglySorted_merge_sort; apply _.
Qed.

(** Normalising twice is normalising once. *)
Lemma unique_sorted_idem l : unique_sorted (unique_sorted l) = unique_sorted l.
Proof.
  unfold unique_sorted at 1. rewrite (unique_id _) at 1.
  - apply (StronglySorted_unique String.le); [apply StronglySorted_merge_sort; apply _
    |apply unique_sorted_sorted|apply merge_sort_Permutation].
  - assert (merge_sort String.le (unique_sorted l) = unique_sorted l) as ->.
    { apply (StronglySorted_unique String.le); [apply StronglySorted_merge_sort; apply _
      |apply unique_sorted_sorted|apply merge_sort_Permutation]. }
    apply unique_no_repeat.
Qed.

Lemma normalize_payload_idem p : normalize_payload (normalize_payload p) = normalize_payload p.
Proof. destruct p; simpl; [done..| |done]. by rewrite unique_sorted_idem. Qed.

(** ** Occupied marks *)

Lemma mark_occupied_spec s p except :
  mark_occupied s p except = true <->
  exists id d, s_dancers s !! id = Some d /\ ds_active d = true /\ except <> Some id /\
    ds_position d = p.
Proof.
  unfold mark_occupied. rewrite existsb_exists. split.
  - intros ([id d] & Hin & H). bool_props. exists id, d. split; [|done].
    by apply elem_of_map_to_list, list_elem_of_In.
  - intros (id & d & Hd & Ha & He & Hp). exists (id, d). split.
    + by apply list_elem_of_In, elem_of_map_to_list.
    + rewrite Ha. simpl. rewrite (bool_decide_eq_false_2 _ He), (bool_decide_eq_true_2 _ Hp). done.
Qed.

Lemma mark_free_spec s p except :
  mark_occupied s p except = false <->
  forall id d, s_dancers s !! id = Some d -> ds_active d = true -> except <> Some id ->
    ds_position d <> p.
Proof.
  rewrite <- not_true_iff_false, mark_occupied_spec. split.
  - intros H id d Hd Ha He Hp. apply H. by exists id, d.
  - intros H (id & d & Hd & Ha & He & Hp). by apply (H id d).
Qed.

(** ** The invariant *)

(** Cues: no identifier is both a music and a lighting cue, and a dependency
    is a cue that does not come later. *)
Definition cues_ok (s : ChoreographyState) : Prop :=
  (forall id, is_Some (s_music_cues s !! id) -> s_lighting_cues s !! id = None) /\
  (forall id cue dep, find_cue s id = Some cue -> cs_depends_on cue = Some dep ->
     exists c, find_cue s dep = Some c /\ cs_tick c <= cs_tick cue).

(** Dancers stand on the stage; when overlap is forbidden no two active
    dancers share a mark. *)
Record dancers_ok (s : ChoreographyState) (stage : StageBounds) : Prop := {
  do_bounds : forall id d, s_dancers s !! id = Some d ->
    valid_position (ds_position d) /\ contains stage (ds_position d) = true;
  do_apart : s_overlap s = Forbidden -> forall i j di dj,
    s_dancers s !! i = Some di -> s_dancers s !! j = Some dj ->
    ds_active di = true -> ds_active dj = true -> ds_position di = ds_position dj -> i = j;
}.

(** A formation lists known dancers, sorted and without repetition. *)
Definition formations_ok (s : ChoreographyState) : Prop :=
  forall id f, s_formations s !! id = Some f ->
    fs_members f <> [] /\ fs_members f = unique_sorted (fs_members f) /\
    forall m, m ∈ fs_members f -> is_Some (s_dancers s !! m).

Record state_ok (s : ChoreographyState) : Prop := {
  so_empty : s_created s = false ->
    s_id s = None /\ s_stage s = None /\ s_dancers s = ∅ /\ s_formations s = ∅ /\
    s_music_cues s = ∅ /\ s_lighting_cues s = ∅;
  so_created : s_created s = true ->
    is_Some (s_id s) /\ exists stage, s_stage s = Some stage /\ valid_stage stage /\
      dancers_ok s stage;
  so_travel : 0 <= s_max_travel_mm s <= max_i32;
  so_formations : formations_ok s;
  so_cues : cues_ok s;
}.

Lemma empty_state_ok : state_ok empty_state.
Proof. by split. Qed.

(** The invariant only reads the domain. *)
Definition same_domain (s t : ChoreographyState) : Prop :=
  s_created t = s_created s /\ s_id t = s_id s /\ s_stage t = s_stage s /\
  s_overlap t = s_overlap s /\ s_max_travel_mm t = s_max_travel_mm s /\
  s_dancers t = s_dancers s /\ s_formations t = s_formations s /\
  s_music_cues t = s_music_cues s /\ s_lighting_cues t = s_lighting_cues s.

Lemma state_ok_domain s t : same_domain s t -> state_ok s -> state_ok t.
Proof.
  intros (E1 & E2 & E3 & E4 & E5 & E6 & E7 & E8 & E9) [H1 H2 H3 H4 H5].
  split; unfold formations_ok, cues_ok, find_cue in *;
    rewrite ?E1, ?E2, ?E3, ?E4, ?E5, ?E6, ?E7, ?E8, ?E9; try done.
  intros Hc. destruct (H2 Hc) as (? & stage & ? & ? & [D1 D2]).
  split; [done|]. exists stage. split; [done|]. split; [done|]. by split; rewrite ?E4, ?E6.
Qed.

(** ** The declarative reading of an event *)

(** Exact travel: the squared distance is at most the squared limit. *)
Definition within_travel (p q : Position) (limit : Z) : Prop :=
  (pos_x q - pos_x p) * (pos_x q - pos_x p) + (pos_y q - pos_y p) * (pos_y q - pos_y p)
    <= limit * limit.

(** Nobody else stands on the mark, or standing together is allowed. *)
Definition mark_free (s : ChoreographyState) (who : option string) (p : Position) : Prop :=
  s_overlap s = Allowed \/
  forall id d, s_dancers s !! id = Some d -> ds_active d = true -> who <> Some id ->
    ds_position d <> p.

Definition on_stage (s : ChoreographyState) (p : Position) : Prop :=
  exists stage, s_stage s = Some stage /\ pos_x p <= st_width stage /\ pos_y p <= st_depth stage.

Inductive domain_step (s : ChoreographyState) (e : Event) : ChoreographyState -> Prop :=
| step_create id stage overlap travel :
    ev_type e = ChoreographyCreated -> ev_payload e = PCreate id stage overlap travel ->
    s_created s = false -> 0 <= travel ->
    domain_step s e
      (mkState true (Some id) (Some stage) overlap travel (s_last_applied s) (ev_term e)
         (s_dancers s) (s_formations s) (s_music_cues s) (s_lighting_cues s)
         (s_applied_events s) (s_applied_commands s) (s_receipts s))
| step_add id p :
    ev_type e = DancerAdded -> ev_payload e = PDancer id p -> s_created s = true ->
    s_dancers s !! id = None -> on_stage s p -> mark_free s None p ->
    domain_step s e (s_with_dancers (<[id := mkDancerState p true]> (s_dancers s)) s)
| step_remove id p :
    ev_type e = DancerRemoved -> ev_payload e = PRemove id -> s_created s = true ->
    s_dancers s !! id = Some (mkDancerState p true) ->
    domain_step s e (s_with_dancers (<[id := mkDancerState p false]> (s_dancers s)) s)
| step_move id p q :
    ev_type e = DancerMoved -> ev_payload e = PDancer id q -> s_created s = true ->
    s_dancers s !! id = Some (mkDancerState p true) -> on_stage s q ->
    within_travel p q (s_max_travel_mm s) -> mark_free s (Some id) q ->
    domain_step s e (s_with_dancers (<[id := mkDancerState q true]> (s_dancers s)) s)
| step_formation id members :
    ev_payload e = PFormation id members -> s_created s = true -> members <> [] ->
    (forall m, m ∈ members -> exists p, s_dancers s !! m = Some (mkDancerState p true)) ->
    (ev_type e = FormationDefined /\ s_formations s !! id = None \/
     ev_type e = FormationChanged /\ is_Some (s_formations s !! id)) ->
    domain_step s e
      (s_with_formations (<[id := mkFormationState (unique_sorted members)]> (s_formations s)) s)
| step_cue (music : bool) id depends :
    ev_type e = (if music then MusicCueTriggered else LightingCueTriggered) ->
    ev_payload e = PCue id depends -> s_created s = true -> find_cue s id = None ->
    (forall dep, depends = Some dep ->
       exists c, find_cue s dep = Some c /\ cs_tick c <= ev_tick e) ->
    domain_step s e
      (let cue := mkCueState (ev_tick e) depends in
       if music then s_with_cues (<[id := cue]> (s_music_cues s)) (s_lighting_cues s) s
       else s_with_cues (s_music_cues s) (<[id := cue]> (s_lighting_cues s)) s)
| step_noop : ev_type e = NoOp -> domain_step s e s.

(** ** [apply_domain] implements the declarative reading *)

Lemma require_created_spec s : state_ok s ->
  match require_created s with
  | Ok stage => s_created s = true /\ s_stage s = Some stage /\ valid_stage stage /\
                dancers_ok s stage
  | Err _ => s_created s = false
  end.
Proof.
  intros [H1 H2 _ _ _]. unfold require_created.
  destruct (s_created s); [|done]. destruct (H2 eq_refl) as ([id ->] & stage & -> & ? & ?). done.
Qed.

Lemma validate_members_ok s members : validate_members s members = Ok tt <->
  forall m, m ∈ members -> exists p, s_dancers s !! m = Some (mkDancerState p true).
Proof.
  induction members as [|m members IH]; simpl.
  - split; [|done]. intros _ m Hm. by apply elem_of_nil in Hm.
  - unfold find_dancer. destruct (s_dancers s !! m) as [[p []]|] eqn:E; simpl.
    + rewrite IH. split; intros H m'.
      * intros [->|Hm]%elem_of_cons; [by exists p|by apply H].
      * intros Hm. apply H. by apply elem_of_cons; right.
    + split; [done|]. intros H. destruct (H m ltac:(apply elem_of_cons; by left)) as [? ?].
      congruence.
    + split; [done|]. intros H. destruct (H m ltac:(apply elem_of_cons; by left)) as [? ?].
      congruence.
Qed.

Lemma unique_sorted_nil l : unique_sorted l = [] <-> l = [].
Proof.
  split; [|by intros ->]. intros H. destruct l as [|x l]; [done|].
  assert (x ∈ unique_sorted (x :: l)) as Hx by (apply elem_of_unique_sorted, elem_of_cons; by left).
  rewrite H in Hx. by apply elem_of_nil in Hx.
Qed.

Lemma validate_formation_ok s members :
  validate_formation_members s (unique_sorted members) = Ok tt <->
  members <> [] /\
  forall m, m ∈ members -> exists p, s_dancers s !! m = Some (mkDancerState p true).
Proof.
  unfold validate_formation_members.
  destruct (bool_decide_reflect (unique_sorted members = [])) as [E|E];
    rewrite unique_sorted_nil in E.
  - split; [done|by intros [? _]].
  - rewrite validate_members_ok. split; [intros H|intros [_ H]].
    + split; [done|]. intros m Hm. apply H. by apply elem_of_unique_sorted.
    + intros m Hm. apply H. by apply elem_of_unique_sorted.
Qed.

Lemma validate_cue_ok s depends tick : validate_cue_dependency s depends tick = Ok tt <->
  forall dep, depends = Some dep -> exists c, find_cue s dep = Some c /\ cs_tick c <= tick.
Proof.
  unfold validate_cue_dependency. destruct depends as [d|]; [|split; [done|by intros]].
  destruct (find_cue s d) as [c|] eqn:E.
  - destruct (Z.ltb_spec tick (cs_tick c)); split; intros H'; try done.
    + destruct (H' d eq_refl) as (c' & Hc & ?). rewrite E in Hc. simplify_eq. lia.
    + intros dep [= <-]. exists c. split; [done|lia].
  - split; [done|]. intros H. destruct (H d eq_refl) as (c & Hc & _). congruence.
Qed.

Lemma mark_test s who p :
  (bool_decide (s_overlap s = Forbidden) && mark_occupied s p who)%bool = false <->
  mark_free s who p.
Proof.
  unfold mark_free. destruct (s_overlap s); simpl.
  - rewrite mark_free_spec. split; [by right|]. by intros [?|?].
  - split; [by left|done].
Qed.

Lemma contains_spec stage p :
  contains stage p = true <-> pos_x p <= st_width stage /\ pos_y p <= st_depth stage.
Proof. unfold contains. by rewrite andb_true_iff, !Z.leb_le. Qed.

Section Refine.
Context (s : ChoreographyState) (e : Event) (t : ChoreographyState).
Context (Hs : state_ok s) (Hp : payload_ok (ev_payload e)).

Lemma create_refines id stage overlap travel :
  ev_type e = ChoreographyCreated -> ev_payload e = PCreate id stage overlap travel ->
  apply_create s e id stage overlap travel = Ok t <-> domain_step s e t.
Proof.
  intros Ht Hpe. unfold apply_create. split.
  - destruct (s_created s) eqn:E; [done|]. destruct (Z.ltb_spec travel 0); [done|].
    intros; simplify_eq. by eapply step_create.
  - destruct 1; try congruence. rewrite Hpe in *. simplify_eq.
    rewrite H1, (proj2 (Z.ltb_ge _ _)) by lia. done.
Qed.

Lemma add_refines id p :
  ev_type e = DancerAdded -> ev_payload e = PDancer id p ->
  apply_add s id p = Ok t <-> domain_step s e t.
Proof.
  intros Ht Hpe. unfold apply_add, find_dancer. pose proof (require_created_spec s Hs) as Hc.
  destruct (require_created s) as [stage|]; [destruct Hc as (Hc & Hst & _)|];
    [|split; [done|]; destruct 1; congruence]. split.
  - destruct (s_dancers s !! id) eqn:E; [done|]. simpl.
    destruct (contains stage p) eqn:Ec; [|done]. simpl.
    destruct (_ && mark_occupied s p None) eqn:Em; [done|]. intros; simplify_eq.
    eapply step_add; try done; [|by apply mark_test].
    exists stage. by apply contains_spec in Ec.
  - destruct 1 as [| ? ? ? Hpl ? Hn (stage' & Hst' & Hx & Hy) Hm | | | ? ? ? ? ? ? Hor | music |];
      try congruence.
    + rewrite Hpe in Hpl. injection Hpl as <- <-. rewrite Hn. simpl.
      assert (stage' = stage) as -> by congruence.
      rewrite (proj2 (contains_spec stage p)) by done. simpl.
      by rewrite (proj2 (mark_test s None p) Hm).
Qed.

Lemma remove_refines id :
  ev_type e = DancerRemoved -> ev_payload e = PRemove id ->
  apply_remove s id = Ok t <-> domain_step s e t.
Proof.
  intros Ht Hpe. unfold apply_remove. pose proof (require_created_spec s Hs) as Hc.
  destruct (require_created s) as [stage|]; [destruct Hc as (Hc & Hst & _)|];
    [|split; [done|]; destruct 1; congruence]. split.
  - destruct (s_dancers s !! id) as [[p []]|] eqn:E; [|done|done]. simpl. intros; simplify_eq.
    by eapply step_remove.
  - destruct 1 as [| | ? ? ? Hpl ? Hd | | ? ? ? ? ? ? Hor | music |]; try congruence.
    + rewrite Hpe in Hpl. injection Hpl as <-. by rewrite Hd.
Qed.

Lemma move_refines id q :
  ev_type e = DancerMoved -> ev_payload e = PDancer id q ->
  apply_move s id q = Ok t <-> domain_step s e t.
Proof.
  intros Ht Hpe. unfold apply_move. pose proof (require_created_spec s Hs) as Hc.
  destruct (require_created s) as [stage|]; [destruct Hc as (Hc & Hst & _ & [Hb _])|];
    [|split; [done|]; destruct 1; congruence].
  pose proof (so_travel _ Hs) as Htr. rewrite Hpe in Hp. destruct Hp as [_ Hq]. split.
  - destruct (s_dancers s !! id) as [[p []]|] eqn:E; [|done|done]. simpl.
    destruct (contains stage q) eqn:Ec; [|done]. simpl.
    destruct (travel_within_limit p q (s_max_travel_mm s)) eqn:El; [|done]. simpl.
    destruct (_ && mark_occupied s q (Some id)) eqn:Em; [done|]. intros; simplify_eq.
    apply (step_move s e id p q); try done; [| |by apply mark_test].
    + exists stage. by apply contains_spec in Ec.
    + apply travel_within_limit_exact in El; [done| |done..]. by apply (Hb id _ E).
  - destruct 1 as [| | | ? p ? ? Hpl ? Hd (stage' & Hst' & Hx & Hy) Hl Hm
                   | ? ? ? ? ? ? Hor | music |]; try congruence.
    + rewrite Hpe in Hpl. injection Hpl as <- <-. rewrite Hd. simpl.
      assert (stage' = stage) as -> by congruence.
      rewrite (proj2 (contains_spec stage q)) by done. simpl.
      rewrite (proj2 (travel_within_limit_exact p q (s_max_travel_mm s)
                        (proj1 (Hb _ _ Hd)) Hq Htr)) by done.
      simpl. by rewrite (proj2 (mark_test s (Some id) q) Hm).
Qed.

Lemma formation_refines type id members :
  type = FormationDefined \/ type = FormationChanged ->
  ev_type e = type -> ev_payload e = PFormation id members ->
  apply_formation s type id members = Ok t <-> domain_step s e t.
Proof.
  intros Hty Ht Hpe. unfold apply_formation. pose proof (require_created_spec s Hs) as Hc.
  destruct (require_created s) as [stage|]; [destruct Hc as (Hc & Hst & _)|];
    [|split; [done|]; destruct 1; try congruence; destruct_or!; congruence]. split.
  - destruct (validate_formation_members s (unique_sorted members)) as [[]|] eqn:E; [|done].
    apply validate_formation_ok in E as [Hne Hm]. intros H.
    destruct Hty as [-> | ->]; destruct (s_formations s !! id) eqn:Ef; simpl in H; simplify_eq;
      (apply step_formation; [done..|]); [left|right]; split; try done; by eexists.
  - destruct 1 as [| | | | ? members' Hpl ? Hne Hm Hor | music |];
      try (destruct Hty; congruence).
    + rewrite Hpe in Hpl. injection Hpl as <- <-.
      rewrite (proj2 (validate_formation_ok s members)) by done.
      destruct Hor as [[E1 E2]|[E1 [f E2]]]; subst type; by rewrite E1, E2.
Qed.

Lemma cue_refines (music : bool) id depends :
  ev_type e = (if music then MusicCueTriggered else LightingCueTriggered) ->
  ev_payload e = PCue id depends ->
  (let? _ := require_created s in apply_cue s music id depends (ev_tick e)) = Ok t <->
  domain_step s e t.
Proof.
  intros Ht Hpe. unfold apply_cue. pose proof (require_created_spec s Hs) as Hc.
  destruct (require_created s) as [stage|]; [destruct Hc as (Hc & Hst & _)|];
    [|split; [done|]; destruct 1; destruct music; congruence]. split.
  - destruct (find_cue s id) eqn:E; [done|]. simpl.
    destruct (validate_cue_dependency s depends (ev_tick e)) as [[]|] eqn:Ev; [|done].
    intros H. simplify_eq. apply (step_cue s e music id depends); try done.
    by apply validate_cue_ok.
  - destruct 1 as [| | | | ? ? ? ? ? ? Hor | music' ? ? Ht' Hpl ? Hn Hd |];
      try (destruct music; congruence).
    + rewrite Hpe in Hpl. injection Hpl as <- <-. rewrite Hn. simpl.
      rewrite (proj2 (validate_cue_ok s _ _)) by done.
      destruct music, music'; congruence.
Qed.

End Refine.

(** The switch accepts exactly the events the declarative reading allows, with
    its result. *)
Lemma apply_domain_refines s e t :
  state_ok s -> payload_ok (ev_payload e) -> apply_domain s e = Ok t <-> domain_step s e t.
Proof.
  intros Hs Hp. unfold apply_domain.
  destruct (ev_type e) eqn:Ht; destruct (ev_payload e) as [id st ov tr|id p|id|id ms|id dp] eqn:Hpe;
    try (split; [done|]; destruct 1; destruct_or?; destruct_and?; try destruct music; congruence);
    rewrite <- Hpe in Hp.
  all: try (split; [intros; simplify_eq; by apply step_noop|];
            destruct 1; destruct_or?; destruct_and?; try destruct music; congruence).
  - by apply create_refines.
  - by apply add_refines.
  - by apply remove_refines.
  - by apply move_refines.
  - apply formation_refines; auto.
  - apply formation_refines; auto.
  - by apply (cue_refines _ _ _ Hs true).
  - by apply (cue_refines _ _ _ Hs false).
Qed.

(** ** Every event keeps the invariant *)

Lemma formations_mono s t :
  s_formations t = s_formations s ->
  (forall m, is_Some (s_dancers s !! m) -> is_Some (s_dancers t !! m)) ->
  formations_ok s -> formations_ok t.
Proof.
  intros Hf Hd H id f Hl. rewrite Hf in Hl. destruct (H id f Hl) as (? & ? & ?).
  split; [done|]. split; [done|]. auto.
Qed.

(** Replacing one dancer's record. *)
Lemma dancer_update_ok s id d :
  state_ok s -> s_created s = true ->
  valid_position (ds_position d) -> on_stage s (ds_position d) ->
  (ds_active d = true -> mark_free s (Some id) (ds_position d)) ->
  state_ok (s_with_dancers (<[id := d]> (s_dancers s)) s).
Proof.
  intros [H1 H2 H3 H4 H5] Hc Hv (stage & Hst & Hx & Hy) Hm.
  destruct (H2 Hc) as (Hid & stage' & Hst' & Hvs & [Hb Ha]).
  assert (stage' = stage) as -> by congruence. split; simpl; try done; try congruence.
  - intros _. split; [done|]. exists stage. split; [done|]. split; [done|]. split; simpl.
    + intros j dj. rewrite lookup_insert_Some. intros [[-> <-]|[_ Hj]].
      * split; [done|]. by apply contains_spec.
      * by eapply Hb.
    + intros Ho i j di dj. rewrite !lookup_insert_Some.
      intros [[-> <-]|[Hi Li]] [[-> <-]|[Hj Lj]] Ai Aj Heq; try done.
      * destruct (Hm Ai) as [?|Hf]; [congruence|]. by destruct (Hf j dj Lj Aj); congruence.
      * destruct (Hm Aj) as [?|Hf]; [congruence|]. by destruct (Hf i di Li Ai); congruence.
      * by eapply Ha.
  - apply (formations_mono s); [done| |exact H4]. simpl. intros m Hsome.
    destruct (decide (id = m)) as [->|]; [by rewrite lookup_insert_eq|].
    by rewrite lookup_insert_ne.
Qed.

Lemma find_cue_insert s (music : bool) id cue k :
  find_cue s id = None ->
  find_cue (if music then s_with_cues (<[id := cue]> (s_music_cues s)) (s_lighting_cues s) s
            else s_with_cues (s_music_cues s) (<[id := cue]> (s_lighting_cues s)) s) k =
  if bool_decide (k = id) then Some cue else find_cue s k.
Proof.
  unfold find_cue. intros H. destruct (s_music_cues s !! id) eqn:Em; [done|].
  destruct music; simpl; destruct (bool_decide_reflect (k = id)) as [->|Hne].
  - by rewrite lookup_insert_eq.
  - by rewrite lookup_insert_ne by done.
  - by rewrite Em, lookup_insert_eq.
  - destruct (s_music_cues s !! k); [done|]. by rewrite lookup_insert_ne by done.
Qed.

Lemma cue_update_ok s (music : bool) id cue :
  state_ok s -> s_created s = true -> find_cue s id = None ->
  (forall dep, cs_depends_on cue = Some dep ->
     exists c, find_cue s dep = Some c /\ cs_tick c <= cs_tick cue) ->
  state_ok (if music then s_with_cues (<[id := cue]> (s_music_cues s)) (s_lighting_cues s) s
            else s_with_cues (s_music_cues s) (<[id := cue]> (s_lighting_cues s)) s).
Proof.
  intros [H1 H2 H3 H4 [H5 H6]] Hc Hn Hd.
  set (t := if music then _ else _).
  assert (forall k, find_cue t k = if bool_decide (k = id) then Some cue else find_cue s k) as Hf
    by (intros; by apply find_cue_insert).
  assert (s_created t = s_created s /\ s_id t = s_id s /\ s_stage t = s_stage s /\
          s_overlap t = s_overlap s /\ s_max_travel_mm t = s_max_travel_mm s /\
          s_dancers t = s_dancers s /\ s_formations t = s_formations s)
    as (E1 & E2 & E3 & E4 & E5 & E6 & E7) by (by destruct music).
  split; unfold formations_ok; rewrite ?E1, ?E2, ?E3, ?E5, ?E6, ?E7; try done; try congruence.
  - intros _. destruct (H2 Hc) as (? & stage & ? & ? & [D1 D2]). split; [done|]. exists stage.
    split; [done|]. split; [done|]. by split; rewrite ?E4, ?E6.
  - unfold find_cue in Hn. destruct (s_music_cues s !! id) eqn:Em; [done|]. split.
    + intros k. unfold t. destruct music; simpl.
      * destruct (decide (id = k)) as [->|]; [done|]. rewrite lookup_insert_ne by done. apply H5.
      * intros Hk. destruct (decide (id = k)) as [->|]; [rewrite Em in Hk; by destruct Hk|].
        rewrite lookup_insert_ne by done. by apply H5.
    + intros k c dep Hk Hdep. rewrite Hf in Hk.
      assert (exists c0, find_cue s dep = Some c0 /\ cs_tick c0 <= cs_tick c) as (c0 & Hc0 & Hle).
      { destruct (bool_decide_reflect (k = id)); [simplify_eq; by apply Hd|by eapply H6]. }
      exists c0. split; [|done]. rewrite Hf, bool_decide_eq_false_2; [done|].
      intros ->. unfold find_cue in Hc0. rewrite Em, Hn in Hc0. done.
Qed.

Lemma domain_step_ok s e t :
  state_ok s -> payload_ok (ev_payload e) -> domain_step s e t -> state_ok t.
Proof.
  intros Hs Hp. destruct 1 as
    [id stage overlap travel Ht Hpe Hc Htr|id p Ht Hpe Hc Hn Hon Hm|id p Ht Hpe Hc Hd
    |id p q Ht Hpe Hc Hd Hon Hw Hm|id members Hpe Hc Hne Hm Hor|music id depends Ht Hpe Hc Hn Hd|];
    rewrite ?Hpe in Hp; simpl in Hp.
  - destruct Hs as [H1 H2 H3 H4 H5]. destruct (H1 Hc) as (_ & _ & E1 & E2 & E3 & E4).
    destruct Hp as (_ & Hst & Htr'). split; simpl; try done; try congruence.
    + intros _. split; [by eexists|]. exists stage. split; [done|]. split; [done|].
      split; simpl; rewrite E1; intros *; rewrite ?lookup_empty; done.
    + split; [done|]. unfold max_i32, min_i32 in *. lia.
  - destruct Hp as [_ Hv]. apply dancer_update_ok; try done. simpl. intros _.
    destruct Hm as [?|Hf]; [by left|right]. intros i d Hi Ha _. by apply (Hf i d).
  - destruct (so_created _ Hs Hc) as (_ & stage & Hst & _ & [Hb _]).
    destruct (Hb _ _ Hd) as [Hv Hcon%contains_spec]. simpl in *.
    apply dancer_update_ok; try done. by exists stage.
  - destruct Hp as [_ Hv]. by apply dancer_update_ok.
  - destruct Hs as [H1 H2 H3 H4 H5]. split; simpl; try done; try congruence.
    { intros _. destruct (H2 Hc) as (? & stage & ? & ? & [D1 D2]). split; [done|]. by exists stage. }
    intros j f. simpl. rewrite lookup_insert_Some. intros [[-> <-]|[_ Hj]]; [|by apply H4 in Hj].
    simpl. rewrite unique_sorted_idem, unique_sorted_nil. split; [done|]. split; [done|].
    intros m Hin. rewrite elem_of_unique_sorted in Hin. destruct (Hm m Hin) as [p ->]. by eexists.
  - by apply cue_update_ok.
  - done.
Qed.
