(* ===== verification/MachineThms.v ===== *)
(** * Theorems on the choreography state machine *)

From S2P Require Import Prelude Text Types Model EventCodec Machine MachineInv.

(** ** The commit path *)

(** The state published by a new event. *)
Definition published (s : ChoreographyState) (e : Event) (candidate : ChoreographyState)
    : ChoreographyState :=
  record_event e
    (s_with_position (ev_index e) (ev_term e)
       (s_with_history (s_applied_events s) (s_applied_commands s) (s_receipts s) candidate)).

Definition index_ok (s : ChoreographyState) (e : Event) (rule : IndexRule) : Prop :=
  match rule with
  | Contiguous => ev_index e = index_next (s_last_applied s)
  | Monotonic => s_last_applied s < ev_index e
  end.

Definition base_check (b : option ChoreographyState) (e : Event) : result Error bool :=
  match b with Some b => existing_event b e | None => Ok false end.

(** The two ways [apply_against] succeeds. *)
Lemma apply_against_ok s e rule b t :
  apply_against s e rule b = Ok t <->
  ev_schema e = kCurrentSchemaVersion /\
  ((existing_event s e = Ok true /\ t = s) \/
   (existing_event s e = Ok false /\ base_check b e = Ok true /\ t = s) \/
   (existing_event s e = Ok false /\ base_check b e = Ok false /\ index_ok s e rule /\
    exists c, apply_domain (domain_copy s) e = Ok c /\ t = published s e c)).
Proof.
  unfold apply_against, require_schema. fold (base_check b e).
  destruct (Z.eqb_spec (ev_schema e) kCurrentSchemaVersion) as [Hs|Hs]; simpl;
    [|split; [done|by intros [? _]]].
  destruct (existing_event s e) as [[]|]; [naive_solver| |naive_solver].
  destruct (base_check b e) as [[]|]; [naive_solver| |naive_solver].
  destruct rule; unfold index_ok.
  - destruct (Z.eqb_spec (ev_index e) (index_next (s_last_applied s))) as [Hi|Hi]; simpl.
    + destruct (apply_domain (domain_copy s) e); naive_solver.
    + naive_solver.
  - destruct (Z.ltb_spec (s_last_applied s) (ev_index e)) as [Hi|Hi]; simpl.
    + destruct (apply_domain (domain_copy s) e); naive_solver.
    + split; [done|]. intros [_ [[? _]|[(_ & ? & _)|(_ & _ & ? & _)]]]; try done; lia.
Qed.

Lemma same_domain_copy s : same_domain s (domain_copy s).
Proof. by repeat split. Qed.

Lemma same_domain_published s e c : same_domain c (published s e c).
Proof. by repeat split. Qed.

Lemma apply_against_state_ok s e rule b t :
  state_ok s -> payload_ok (ev_payload e) -> apply_against s e rule b = Ok t -> state_ok t.
Proof.
  intros Hs Hp [_ [[_ ->]|[(_ & _ & ->)|(_ & _ & _ & c & Hc & ->)]]]%apply_against_ok; [done..|].
  eapply state_ok_domain; [apply same_domain_published|].
  assert (state_ok (domain_copy s)) as Hd by (eapply state_ok_domain; [apply same_domain_copy|done]).
  eapply domain_step_ok; [exact Hd|exact Hp|]. by apply apply_domain_refines.
Qed.

Lemma replay_from_ok events : forall s ti ii t,
  state_ok s -> Forall (fun e => payload_ok (ev_payload e)) events ->
  replay_from s events ti ii = Ok t -> state_ok t.
Proof.
  induction events as [|e events IH]; intros s ti ii t Hs Hall H; simpl in H; [by simplify_eq|].
  inversion Hall; subst. case_in H; [|by eapply IH].
  unfold apply in H. destruct (apply_against s e _ None) as [s'|] eqn:E; [|done].
  eapply IH; [|done|exact H]. by eapply apply_against_state_ok.
Qed.

(** ** A small show for the witnesses *)

Definition mk (n : Z) (type : CommandType) (tick : Z) (payload : Payload) : Command :=
  mkCommand ("c-" +:+ print_u n) "opening" type 1 tick payload.

Definition demo_commands : list Command :=
  [mk 1 CreateChoreography 0 (PCreate "opening" (mkStageBounds 10000 8000) Forbidden 2000);
   mk 2 AddDancer 480 (PDancer "alice" (mkPosition 1000 1000));
   mk 3 AddDancer 480 (PDancer "bob" (mkPosition 2000 1000));
   mk 4 DefineFormation 960 (PFormation "front" ["bob"; "alice"; "bob"]);
   mk 5 MoveDancer 960 (PDancer "alice" (mkPosition 1000 2500));
   mk 6 TriggerMusicCue 960 (PCue "intro" None);
   mk 7 TriggerLightingCue 1440 (PCue "spot" (Some "intro"));
   mk 8 RemoveDancer 1920 (PRemove "bob")].

(** Submit every command; a refused one leaves the engine as it is. *)
Definition submit_all (engine : Engine) (commands : list Command) : Engine :=
  foldl (fun engine c => match submit engine c with Ok (engine', _) => engine' | Err _ => engine end)
    engine commands.

Definition demo_engine : Engine := submit_all empty_engine demo_commands.

Definition demo_events : list Event := en_events demo_engine.

Lemma demo_events_ok : Forall (fun e => payload_ok (ev_payload e)) demo_events.
Proof. apply (bool_decide_unpack _). vm_compute. exact I. Qed.

(** C23: Whatever history is replayed, filtered by musical time and index or
    not, the resulting state satisfies the domain invariant: dancers are on
    the stage, no two active dancers share a mark where that is forbidden,
    formations are sorted lists of known dancers, and cue dependencies resolve
    to earlier cues. *)
Theorem replay_keeps_state_invariant events through_tick through_index s :
  Forall (fun e => payload_ok (ev_payload e)) events ->
  replay events through_tick through_index = Ok s -> state_ok s.
Proof. intros Hall H. eapply replay_from_ok; [apply empty_state_ok|exact Hall|exact H]. Qed.

Lemma replay_keeps_state_invariant_witness :
  length demo_events = 8%nat /\
  exists s, replay demo_events (Some 960) None = Ok s /\ s_last_applied s = 6 /\ state_ok s.
Proof.
  split; [vm_compute; reflexivity|]. eexists.
  split; [vm_compute; reflexivity|]. split; [vm_compute; reflexivity|].
  apply (replay_keeps_state_invariant demo_events (Some 960) None); [apply demo_events_ok|].
  vm_compute; reflexivity.
Defined.

(** C24: On a well-formed state a new event of the supported schema at the next
    index is applied exactly when the declarative reading of the event allows
    it, and with its result; the event then becomes part of the history. *)
Theorem apply_implements_spec s e t :
  state_ok s -> payload_ok (ev_payload e) -> ev_schema e = kCurrentSchemaVersion ->
  existing_event s e = Ok false -> ev_index e = index_next (s_last_applied s) ->
  apply s e Contiguous = Ok t <->
  exists c, domain_step (domain_copy s) e c /\ t = published s e c.
Proof.
  intros Hs Hp Hsch Hex Hi. unfold apply. rewrite apply_against_ok.
  assert (state_ok (domain_copy s)) as Hd by (eapply state_ok_domain; [apply same_domain_copy|done]).
  split.
  - intros [_ [[? _]|[(_ & ? & _)|(_ & _ & _ & c & Hc & ->)]]]; [congruence|done|].
    exists c. split; [|done]. by apply apply_domain_refines.
  - intros (c & Hc & ->). split; [done|]. right. right. repeat split; try done.
    exists c. split; [|done]. by apply apply_domain_refines.
Qed.

(** The state before the move of [alice]. *)
Definition demo_before_move : ChoreographyState :=
  en_state (submit_all empty_engine (take 4 demo_commands)).

Definition demo_move : Event :=
  mkEvent "c-5" "c-5" "opening" DancerMoved 1 960 5 1 (PDancer "alice" (mkPosition 1000 2500)).

Lemma demo_before_move_ok : state_ok demo_before_move.
Proof.
  eapply (replay_from_ok (take 4 demo_events) empty_state None None); [apply empty_state_ok| |].
  - apply Forall_take, demo_events_ok.
  - vm_compute; reflexivity.
Qed.

Lemma apply_implements_spec_witness :
  is_ok (apply demo_before_move demo_move Contiguous) = true /\
  exists c, domain_step (domain_copy demo_before_move) demo_move c /\
    s_dancers c !! "alice" = Some (mkDancerState (mkPosition 1000 2500) true).
Proof.
  split; [vm_compute; reflexivity|].
  destruct (proj1 (apply_implements_spec demo_before_move demo_move
    (match apply demo_before_move demo_move Contiguous with Ok t => t | Err _ => empty_state end)
    demo_before_move_ok
    ltac:(apply (bool_decide_unpack _); vm_compute; exact I) eq_refl
    ltac:(vm_compute; reflexivity) ltac:(vm_compute; reflexivity)) ltac:(vm_compute; reflexivity))
    as (c & Hc & Ht).
  exists c. split; [exact Hc|].
  assert (forall s e c, s_dancers (published s e c) = s_dancers c) as Hp by reflexivity.
  rewrite <- (Hp demo_before_move demo_move c), <- Ht. vm_compute. reflexivity.
Defined.
