(* ===== verification/EngineThms.v ===== *)
(** * Theorems on proposals, retries and the engine *)

From S2P Require Import Prelude Text Types Model EventCodec Machine MachineInv MachineThms.

(** ** Proposals *)

Lemma is_some_false {A} (o : option A) : is_some o = false <-> o = None.
Proof. by destruct o. Qed.

Lemma is_some_true {A} (o : option A) : is_some o = true <-> is_Some o.
Proof. destruct o; split; [by eexists|done|done|by intros []]. Qed.

(** Is the command id taken? *)
Definition accepted (s : ChoreographyState) (id : string) : bool :=
  is_some (s_applied_commands s !! id) || is_some (s_receipts s !! id).

Lemma accepted_false s id : accepted s id = false <->
  s_applied_commands s !! id = None /\ s_receipts s !! id = None.
Proof. unfold accepted. by rewrite orb_false_iff, !is_some_false. Qed.

Lemma fresh_not_existing s e :
  s_applied_events s !! ev_id e = None -> accepted s (ev_command e) = false -> existing_event s e = Ok false.
Proof. intros H [H1 H2]%accepted_false. unfold existing_event. by rewrite H, H2, H1. Qed.

(** What an accepted proposal is. *)
Lemma proposal_ok s c e : propose s c = Ok e ->
  accepted s (c_id c) = false /\ valid_id (c_id c) = true /\
  ev_id e = c_id c /\ ev_command e = c_id c /\ ev_schema e = kCurrentSchemaVersion /\
  ev_index e = index_next (s_last_applied s) /\ ev_term e = s_term s /\
  e = mkEvent (c_id c) (c_id c) (c_choreography c) (event_type_for (c_type c)) (c_schema c)
        (c_tick c) (index_next (s_last_applied s)) (s_term s) (normalize_payload (c_payload c)) /\
  exists d, apply_domain (domain_copy s) e = Ok d.
Proof.
  unfold propose, require_schema. destruct (Z.eqb_spec (c_schema c) kCurrentSchemaVersion); [|done].
  simpl (negb _). cbv iota. fold (accepted s (c_id c)).
  destruct (accepted s (c_id c)) eqn:Ea; [done|].
  match goal with |- match ?x with _ => _ end = _ -> _ => destruct x; [|done] end.
  unfold make_event. destruct (parse_id (c_id c)) as [eid|] eqn:Eid; [|done].
  apply parse_id_ok in Eid as [-> Hv].
  set (ev := mkEvent _ _ _ _ _ _ _ _ _).
  destruct (apply (domain_copy s) ev Contiguous) as [t|] eqn:Et; [|done].
  intros [= <-]. unfold apply in Et. apply apply_against_ok in Et as [_ Hcase].
  repeat split; try done.
  destruct Hcase as [[Hx _]|[(_ & Hx & _)|(_ & _ & _ & d & Hd & _)]]; [|done|by exists d].
  unfold existing_event in Hx. simpl in Hx. rewrite !lookup_empty in Hx. done.
Qed.

Lemma propose_apply s c e : s_applied_events s !! c_id c = None -> propose s c = Ok e ->
  exists d, apply_domain (domain_copy s) e = Ok d /\ apply s e Contiguous = Ok (published s e d).
Proof.
  intros Ha Hp. destruct (proposal_ok _ _ _ Hp) as (Hacc & _ & Hid & Hcmd & Hsch & Hi & _ & _ & d & Hd).
  exists d. split; [done|]. unfold apply. apply apply_against_ok. split; [done|]. right. right.
  split; [apply fresh_not_existing; congruence|].
  split; [done|]. split; [done|]. by exists d.
Qed.

Lemma insert_new_fresh {V} k (v : V) m : m !! k = None -> insert_new k v m = <[k := v]> m.
Proof. unfold insert_new. by intros ->. Qed.

Lemma insert_new_some {V} k (v : V) m : is_Some (insert_new k v m !! k).
Proof. unfold insert_new. destruct (m !! k) eqn:E; [by eexists|]. by rewrite lookup_insert_eq. Qed.

Lemma insert_new_mono {V} k (v : V) m k' : is_Some (m !! k') -> is_Some (insert_new k v m !! k').
Proof.
  unfold insert_new. destruct (m !! k) eqn:E; [done|]. intros H.
  destruct (decide (k = k')) as [->|]; [by rewrite lookup_insert_eq|by rewrite lookup_insert_ne].
Qed.

Lemma insert_new_inv {V} k (v : V) m k' : is_Some (insert_new k v m !! k') ->
  k' = k \/ is_Some (m !! k').
Proof.
  unfold insert_new. destruct (m !! k) eqn:E; [by right|].
  destruct (decide (k = k')) as [->|]; [by left|rewrite lookup_insert_ne by done; by right].
Qed.

(** An accepted proposal commits: applied to the state it was made from, which
    records no event under its id, it succeeds, takes the next index, publishes
    the leader's term, and leaves a receipt under the command id with the
    fingerprint of the command. *)
Lemma propose_commits s c e :
  s_applied_events s !! c_id c = None -> propose s c = Ok e ->
  exists t, apply s e Contiguous = Ok t /\ s_last_applied t = index_next (s_last_applied s) /\
    s_term t = s_term s /\
    s_receipts t !! c_id c =
      Some (mkEventReceipt (index_next (s_last_applied s)) (s_term s) (command_fingerprint c)).
Proof.
  intros Ha Hp. destruct (propose_apply _ _ _ Ha Hp) as (d & _ & Hap).
  destruct (proposal_ok _ _ _ Hp) as (_ & _ & Hid & Hcmd & _ & Hi & Ht & He & _).
  exists (published s e d). split; [done|]. split; [done|]. split; [done|].
  unfold published, record_event. simpl. subst e. simpl.
  rewrite bool_decide_eq_false_2 by (by destruct (c_type c)).
  rewrite lookup_insert_eq. f_equal. unfold receipt_from_event. simpl. f_equal.
  unfold command_from_event. simpl.
  destruct (c_type c) eqn:Hty; simpl; unfold command_fingerprint, normalize_command; simpl;
    by rewrite normalize_payload_idem, Hty.
Qed.

(** ** Retries *)

Lemma existing_false_fresh s e : existing_event s e = Ok false ->
  s_applied_events s !! ev_id e = None /\ s_receipts s !! ev_command e = None /\
  s_applied_commands s !! ev_command e = None.
Proof.
  unfold existing_event. destruct (s_applied_events s !! ev_id e); [by case_goal|].
  destruct (s_receipts s !! ev_command e); [repeat case_goal; done|].
  destruct (s_applied_commands s !! ev_command e); done.
Qed.

(** Receipts are never lost or changed by a commit. *)
Lemma apply_receipts s e rule t : apply s e rule = Ok t -> s_receipts s ⊆ s_receipts t.
Proof.
  unfold apply. intros [_ [[_ ->]|[(_ & _ & ->)|(Hf & _ & _ & c & _ & ->)]]]%apply_against_ok;
    [done..|]. apply existing_false_fresh in Hf as (_ & Hr & _).
  unfold published, record_event. simpl. destruct (bool_decide _); [done|].
  by apply insert_subseteq.
Qed.

Lemma submit_receipts engine c engine' r :
  submit engine c = Ok (engine', r) -> s_receipts (en_state engine) ⊆ s_receipts (en_state engine').
Proof.
  unfold submit. case_goal.
  - destruct (resolve_receipt _ _); intros; by simplify_eq.
  - destruct (propose _ _) as [e|]; [|done]. unfold apply_committed.
    destruct (apply _ _ _) eqn:E; [|done]. intros; simplify_eq. by eapply apply_receipts.
Qed.

Lemma submit_all_receipts commands : forall engine,
  s_receipts (en_state engine) ⊆ s_receipts (en_state (submit_all engine commands)).
Proof.
  induction commands as [|c commands IH]; intros engine; [done|].
  change (submit_all engine (c :: commands)) with
    (submit_all (match submit engine c with Ok (e', _) => e' | Err _ => engine end) commands).
  etrans; [|apply IH]. destruct (submit engine c) as [[e' r]|] eqn:E; [|done].
  by eapply submit_receipts.
Qed.

(** A command that left a receipt is answered from it. *)
Lemma submit_receipt engine c receipt :
  s_receipts (en_state engine) !! c_id c = Some receipt ->
  submit engine c =
    let? e := resolve_receipt (en_state engine) c in Ok (engine, mkSubmitResult e true).
Proof. intros H. unfold submit. rewrite H, orb_true_r. done. Qed.

(** C21: Retries are exactly-once. Take an engine in a term other than 0 and a
    command, accepted for the first time, under whose id the engine records no
    event yet. The command keeps its outcome: submitted again, at once or after
    any further commands, it returns the same event, marked as a duplicate, and
    changes nothing. A command with that id whose 64-bit fingerprint differs is
    refused as a conflict; one with the same fingerprint (it differs only in the
    order of formation members or in the id inside a creation's payload, or it
    collides) is answered as a retry. *)
Theorem retries_return_the_first_outcome engine c engine' r later :
  s_applied_events (en_state engine) !! c_id c = None -> s_term (en_state engine) <> 0 ->
  submit engine c = Ok (engine', r) -> sr_duplicate r = false ->
  let final := submit_all engine' later in
  submit final c = Ok (final, mkSubmitResult (sr_event r) true) /\
  forall c', c_id c' = c_id c -> command_fingerprint c' <> command_fingerprint c ->
    submit final c' =
      Err (mkError CommandConflict "operation id reused with different command").
Proof.
  intros Ha Ht H Hd final. unfold submit in H. fold (accepted (en_state engine) (c_id c)) in H.
  destruct (accepted (en_state engine) (c_id c)) eqn:Eacc.
  { destruct (resolve_receipt _ _); simplify_eq/=. }
  destruct (propose (en_state engine) c) as [e|] eqn:Ep; [|done].
  destruct (propose_commits _ _ _ Ha Ep) as (t & Hap & _ & _ & Hrc).
  unfold apply_committed in H. rewrite Hap in H. simplify_eq/=.
  assert (s_receipts (en_state final) !! c_id c =
    Some (mkEventReceipt (index_next (s_last_applied (en_state engine)))
            (s_term (en_state engine)) (command_fingerprint c))) as Hf.
  { eapply lookup_weaken; [exact Hrc|]. apply (submit_all_receipts later (mkEngine t _)). }
  split.
  - rewrite (submit_receipt _ _ _ Hf). unfold resolve_receipt. rewrite Hf. simpl.
    rewrite Z.eqb_refl. simpl.
    destruct (proposal_ok _ _ _ Ep) as (_ & Hv & _ & _ & _ & _ & _ & -> & _).
    rewrite parse_id_valid by done. unfold parse_term.
    destruct (Z.eqb_spec (s_term (en_state engine)) 0); [done|]. simpl. done.
  - intros c' Hid Hne. rewrite <- Hid in Hf. rewrite (submit_receipt _ _ _ Hf).
    unfold resolve_receipt. rewrite Hf. simpl.
    destruct (Z.eqb_spec (command_fingerprint c') (command_fingerprint c)); done.
Qed.

(** The command that is retried, and another one under its id. *)
Definition demo_retry : Command := mk 4 DefineFormation 960 (PFormation "front" ["bob"; "alice"; "bob"]).
Definition demo_other : Command := mk 4 DefineFormation 960 (PFormation "back" ["bob"; "alice"]).

Lemma retries_return_the_first_outcome_witness :
  let first := submit_all empty_engine (take 3 demo_commands) in
  exists engine r, submit first demo_retry = Ok (engine, r) /\ sr_duplicate r = false /\
    let final := submit_all engine (drop 4 demo_commands) in
    submit final demo_retry = Ok (final, mkSubmitResult (sr_event r) true) /\
    submit final demo_other = Err (mkError CommandConflict "operation id reused with different command").
Proof.
  cbv zeta. set (first := submit_all empty_engine (take 3 demo_commands)).
  destruct (submit first demo_retry) as [[engine r]|] eqn:E; [|vm_compute in E; discriminate].
  assert (sr_duplicate r = false) as Hd
    by (vm_compute in E; injection E as _ <-; reflexivity).
  exists engine, r. split; [reflexivity|]. split; [exact Hd|].
  destruct (retries_return_the_first_outcome first demo_retry engine r
    (drop 4 demo_commands) ltac:(vm_compute; reflexivity) ltac:(vm_compute; discriminate) E Hd) as [H1 H2].
  split; [exact H1|]. apply H2; [reflexivity|]. vm_compute. discriminate.
Defined.
