(* ===== verification/CommitThms.v ===== *)
(** * Group commit, history and retention

    [Engine::prepare_committed] and [publish_committed] against one-by-one
    application, the history of an engine against its state, retention, and
    the compact receipts. *)

From S2P Require Import Prelude Text Types Model EventCodec Machine MachineInv MachineThms EngineThms.

(** ** Group commit *)

(** The reference: apply the events one by one. *)
Fixpoint apply_all (engine : Engine) (batch : list Event) : result Error Engine :=
  match batch with
  | [] => Ok engine
  | event :: rest => let? engine' := apply_committed engine event in apply_all engine' rest
  end.

(** The sequential state that corresponds to a staged one: the staged domain
    and position, with the base history below the staged history. *)
Definition overlay (base staged : ChoreographyState) : ChoreographyState :=
  s_with_history (s_applied_events base ∪ s_applied_events staged)
    (s_applied_commands base ∪ s_applied_commands staged)
    (s_receipts base ∪ s_receipts staged) staged.

(** What has been staged is new to the base; its commands lead to its events. *)
Record staged_ok (base staged : ChoreographyState) : Prop := {
  sg_events : forall k, is_Some (s_applied_events staged !! k) -> s_applied_events base !! k = None;
  sg_commands : forall k id, s_applied_commands staged !! k = Some id ->
    is_Some (s_applied_events staged !! id) /\
    s_applied_commands base !! k = None /\ s_receipts base !! k = None;
  sg_receipts : forall k, is_Some (s_receipts staged !! k) -> is_Some (s_applied_commands staged !! k);
}.

Lemma staged_absent base staged k : staged_ok base staged -> s_applied_commands staged !! k = None ->
  s_receipts staged !! k = None.
Proof.
  intros Hok H. apply eq_None_not_Some. intros Hs%(sg_receipts _ _ Hok). rewrite H in Hs. by destruct Hs.
Qed.

(** The event goes by the id under which its command was staged, if it was. *)
Definition agrees (staged : ChoreographyState) (e : Event) : Prop :=
  forall id, s_applied_commands staged !! ev_command e = Some id -> id = ev_id e.

(** The duplicate check of the sequential state is the two checks of the
    staged path. *)
Lemma existing_overlay base staged e :
  staged_ok base staged -> agrees staged e ->
  existing_event (overlay base staged) e =
    match existing_event staged e with
    | Ok false => existing_event base e
    | r => r
    end.
Proof.
  intros Hok He. unfold existing_event. simpl.
  destruct (s_applied_events staged !! ev_id e) as [text|] eqn:E.
  { rewrite lookup_union_r, E by (apply (sg_events _ _ Hok); by eexists). by destruct (bool_decide _). }
  rewrite (lookup_union_l _ (s_applied_events staged)) by done.
  destruct (s_applied_commands staged !! ev_command e) as [id|] eqn:Ec.
  - destruct (sg_commands _ _ Hok _ _ Ec) as ([text Ht] & Bc & Br). rewrite (He id Ec) in Ht. congruence.
  - rewrite (staged_absent _ _ _ Hok Ec). simpl. rewrite !lookup_union_l by (done || by eapply staged_absent). done.
Qed.

Lemma domain_copy_overlay base staged : domain_copy (overlay base staged) = domain_copy staged.
Proof. done. Qed.

Lemma published_overlay base staged e c :
  staged_ok base staged -> existing_event staged e = Ok false -> existing_event base e = Ok false ->
  overlay base (published staged e c) = published (overlay base staged) e c /\
  staged_ok base (published staged e c).
Proof.
  intros Hok Hs Hb. apply existing_false_fresh in Hs as (S1 & S2 & S3), Hb as (B1 & B2 & B3). split.
  - unfold overlay, published, record_event. simpl.
    rewrite !insert_new_fresh by (rewrite ?lookup_union, ?S1, ?S3, ?B1, ?B3; done).
    rewrite !insert_union_r by done. by destruct (bool_decide _).
  - unfold published, record_event. split; simpl.
    + intros k [->|Hk]%insert_new_inv; [done|]. by apply (sg_events _ _ Hok).
    + intros k id. rewrite (insert_new_fresh (ev_command e)) by done.
      intros [[<- <-]|[Hne Hk]]%lookup_insert_Some; [by split; [apply insert_new_some|]|].
      destruct (sg_commands _ _ Hok _ _ Hk) as (H1 & H2). split; [by apply insert_new_mono|done].
    + intros k. destruct (bool_decide _).
      * intros Hk. by apply insert_new_mono, (sg_receipts _ _ Hok).
      * destruct (decide (ev_command e = k)) as [->|]; [intros _; apply insert_new_some|].
        rewrite lookup_insert_ne by done. intros Hk. by apply insert_new_mono, (sg_receipts _ _ Hok).
Qed.

(** Applying an event records its command under its id, or nothing. *)
Lemma applied_agrees base staged e t later : ev_command later <> ev_command e \/ ev_id later = ev_id e ->
  apply_against staged e Contiguous (Some base) = Ok t -> agrees staged later -> agrees t later.
Proof.
  intros Hid [_ [[_ ->]|[(_ & _ & ->)|(Hs & _ & _ & c & _ & ->)]]]%apply_against_ok Ha; [done..|].
  apply existing_false_fresh in Hs as (_ & _ & Hs). intros id. unfold published, record_event. simpl.
  rewrite insert_new_fresh by done. intros [[E <-]|[_ H]]%lookup_insert_Some; [|by apply Ha].
  destruct Hid as [Hid|Hid]; [by rewrite E in Hid|done].
Qed.

(** One event, staged and sequential. *)
Lemma apply_overlay base staged e :
  staged_ok base staged -> agrees staged e ->
  match apply_against staged e Contiguous (Some base) with
  | Ok t => apply (overlay base staged) e Contiguous = Ok (overlay base t) /\ staged_ok base t
  | Err x => apply (overlay base staged) e Contiguous = Err x
  end.
Proof.
  intros Hok He. unfold apply, apply_against.
  destruct (require_schema (ev_schema e)) as [[]|]; [|done].
  rewrite existing_overlay by done.
  destruct (existing_event staged e) as [[]|] eqn:Es; [done| |done].
  destruct (existing_event base e) as [[]|] eqn:Eb; [done| |done].
  simpl. destruct (negb (ev_index e =? index_next (s_last_applied staged))); [done|].
  rewrite domain_copy_overlay. destruct (apply_domain (domain_copy staged) e) as [c|]; [|done].
  destruct (published_overlay base staged e c Hok Es Eb) as [Ho Hok'].
  split; [|exact Hok']. f_equal. symmetry. exact Ho.
Qed.

(** A command goes by one event id throughout the batch. *)
Definition one_id_per_command (batch : list Event) : Prop :=
  forall a b, a ∈ batch -> b ∈ batch -> ev_command a = ev_command b -> ev_id a = ev_id b.

Lemma aligned_one_id batch : Forall (fun e => ev_id e = ev_command e) batch -> one_id_per_command batch.
Proof. rewrite list.Forall_forall. intros H a b Ha Hb E. by rewrite (H a Ha), (H b Hb). Qed.

Lemma prepare_loop_equiv base events batch : forall staged,
  staged_ok base (en_state staged) -> Forall (agrees (en_state staged)) batch -> one_id_per_command batch ->
  match prepare_loop base staged batch with
  | Ok out => apply_all (mkEngine (overlay base (en_state staged)) (events ++ en_events staged)) batch
              = Ok (mkEngine (overlay base (en_state out)) (events ++ en_events out))
  | Err x => apply_all (mkEngine (overlay base (en_state staged)) (events ++ en_events staged)) batch
             = Err x
  end.
Proof.
  induction batch as [|e batch IH]; intros staged Hok Hall Hone; [done|].
  apply list.Forall_cons in Hall as [He Hrest]. simpl. unfold apply_committed. simpl.
  pose proof (apply_overlay base (en_state staged) e Hok He) as Hstep.
  destruct (apply_against (en_state staged) e Contiguous (Some base)) as [t|x] eqn:Et;
    [|by rewrite Hstep].
  destruct Hstep as [-> Hok']. rewrite <- app_assoc.
  apply (IH (mkEngine t (en_events staged ++ [e]))); [done| |].
  - rewrite list.Forall_forall in Hrest |- *. intros b Hb. eapply applied_agrees; [|exact Et|by apply Hrest].
    destruct (decide (ev_command b = ev_command e)) as [E|]; [right|by left]. apply Hone; [by right|by left|done].
  - intros a b Ha Hb. apply Hone; by right.
Qed.

Lemma prepare_sequential engine batch :
  one_id_per_command batch ->
  match prepare_committed engine batch with
  | Ok staged => apply_all engine batch = Ok (publish_committed engine staged)
  | Err x => apply_all engine batch = Err x
  end.
Proof.
  intros Hone. destruct engine as [s events]. unfold prepare_committed. simpl.
  pose proof (prepare_loop_equiv s events batch (mkEngine (domain_copy s) [])) as H.
  assert (overlay s (domain_copy s) = s) as Hov.
  { unfold overlay, domain_copy. simpl. rewrite !(right_id_L ∅ (∪)). by destruct s. }
  simpl in H. rewrite Hov, app_nil_r in H. apply H; [| |done].
  - split; simpl; intros k; [|intros id|]; rewrite lookup_empty; [by intros []|done|by intros []].
  - apply list.Forall_forall. intros e _ id. simpl. by rewrite lookup_empty.
Qed.

(** C20: Staging a batch and publishing it is the same as applying its events
    one by one: the same engine on success, history maps included, and the
    same error on failure. For any engine and any batch in which two events of
    the same command have the same id. They have in the logs of both runtimes,
    unless a client takes the name of a marker: client events carry their
    command's id, and the markers, whose event id differs from their command id
    in the legacy runtime, are named after the term and index of the record. *)
Theorem group_commit_is_sequential engine batch :
  one_id_per_command batch ->
  match prepare_committed engine batch with
  | Ok staged => apply_all engine batch = Ok (publish_committed engine staged)
  | Err x => apply_all engine batch = Err x
  end.
Proof. apply prepare_sequential. Qed.

(** A marker as the legacy leader writes it, under two names. *)
Definition demo_marker : Event :=
  mkEvent "noop-node-1-2-5" "noop-2-5" "opening" NoOp 1 0 5 2 (PCreate "opening" (mkStageBounds 1 1) Forbidden 0).

Lemma group_commit_is_sequential_witness :
  let engine := submit_all empty_engine (take 3 demo_commands) in
  let batch := (drop 3 (take 4 demo_events) ++ [demo_marker])%list in
  length batch = 2%nat /\
  exists staged, prepare_committed engine batch = Ok staged /\
    apply_all engine batch = Ok (publish_committed engine staged).
Proof.
  cbv zeta. split; [vm_compute; reflexivity|].
  set (engine := submit_all empty_engine (take 3 demo_commands)).
  set (batch := (drop 3 (take 4 demo_events) ++ [demo_marker])%list).
  assert (one_id_per_command batch) as Hone.
  { intros a b Ha Hb. assert (Forall (fun a => Forall (fun b => ev_command a = ev_command b -> ev_id a = ev_id b) batch) batch) as H
      by (apply (bool_decide_unpack _); vm_compute; exact I).
    rewrite list.Forall_forall in H. specialize (H a Ha). rewrite list.Forall_forall in H. exact (H b Hb). }
  assert (is_ok (prepare_committed engine batch) = true) as Hok by (vm_compute; reflexivity).
  generalize (group_commit_is_sequential engine batch Hone). revert Hok.
  destruct (prepare_committed engine batch) as [staged|x]; intros Hok H;
    [|discriminate Hok].
  exists staged. split; [reflexivity|exact H].
Defined.

(** ** History *)

(** The engines that commits, submitted commands and published batches make of
    an engine: a new one, one restored from a snapshot, or one whose history
    was cut. *)
Inductive built_on (base : Engine) : Engine -> Prop :=
| built_base : built_on base base
| built_commit engine event engine' :
    built_on base engine -> apply_committed engine event = Ok engine' -> built_on base engine'
| built_submit engine c engine' r :
    built_on base engine -> submit engine c = Ok (engine', r) -> built_on base engine'
| built_group engine batch staged :
    built_on base engine -> one_id_per_command batch ->
    prepare_committed engine batch = Ok staged -> built_on base (publish_committed engine staged).

Lemma replay_from_app s events1 events2 t :
  replay_from s events1 None None = Ok t ->
  replay_from s (events1 ++ events2) None None = replay_from t events2 None None.
Proof.
  revert s. induction events1 as [|e l IH]; intros s H; simpl in *; [by simplify_eq|].
  destruct (apply s e Contiguous); [by apply IH|done].
Qed.

(** The events that were added to [base] lead from its state to this one. *)
Definition replays (base engine : Engine) : Prop :=
  exists added, en_events engine = (en_events base ++ added)%list /\
    replay_from (en_state base) added None None = Ok (en_state engine).

Lemma commit_replays base engine event engine' :
  replays base engine -> apply_committed engine event = Ok engine' -> replays base engine'.
Proof.
  unfold apply_committed. intros (added & He & H).
  destruct (apply (en_state engine) event Contiguous) as [s|] eqn:E; [|done].
  intros; simplify_eq/=. exists (added ++ [event])%list. simpl. rewrite He, app_assoc. split; [done|].
  rewrite (replay_from_app _ _ _ _ H). simpl. by rewrite E.
Qed.

Lemma apply_all_replays base batch : forall engine engine',
  replays base engine -> apply_all engine batch = Ok engine' -> replays base engine'.
Proof.
  induction batch as [|e batch IH]; intros engine engine' H Ha; simpl in Ha; [by simplify_eq|].
  destruct (apply_committed engine e) eqn:E; [|done].
  eapply IH; [|exact Ha]. by eapply commit_replays.
Qed.

Lemma built_replays base engine : built_on base engine -> replays base engine.
Proof.
  intros H. induction H as [|engine event engine' _ IH Hc|engine c engine' r _ IH Hs
                            |engine batch staged _ IH Hone Hp].
  - exists []. by rewrite app_nil_r.
  - by eapply commit_replays.
  - unfold submit in Hs. case_in Hs; [destruct (resolve_receipt _ _); by simplify_eq|].
    destruct (propose _ _) as [e|]; [|done].
    destruct (apply_committed engine e) eqn:E; [|done]. simplify_eq.
    by eapply commit_replays.
  - pose proof (prepare_sequential engine batch Hone) as Heq. rewrite Hp in Heq. by eapply apply_all_replays.
Qed.

(** A history that replays from nothing starts at index 1. *)
Lemma replayed_from_one e l s : replay (e :: l) None None = Ok s -> ev_index e = 1.
Proof.
  unfold replay. simpl. destruct (apply empty_state e Contiguous) as [t|] eqn:Ea; [|done]. intros _.
  unfold apply in Ea. apply apply_against_ok in Ea as [_ [[Hx _]|[(_ & Hx & _)|(_ & _ & Hi & _)]]];
    [|done|exact Hi].
  unfold existing_event in Hx. simpl in Hx. by rewrite !lookup_empty in Hx.
Qed.

(** C22: The event history determines the state. Whatever engine one starts
    from, be it new, restored from a snapshot or with its history cut: after any
    commits, submitted commands, retries and published batches (in which a
    command goes by one event id) the events that were added to its history,
    replayed from its state with the same application function, give exactly
    the present state; and on a new engine, replaying the whole history that it
    holds from the empty state does. *)
Theorem history_determines_state base engine :
  built_on base engine ->
  (exists added, en_events engine = (en_events base ++ added)%list /\
     replay_from (en_state base) added None None = Ok (en_state engine)) /\
  (base = empty_engine -> replay_through engine None None = Ok (en_state engine)).
Proof.
  intros H%built_replays. split; [exact H|]. intros ->. destruct H as (added & He & Hr). simpl in He, Hr.
  unfold replay_through. rewrite He. destruct added as [|e l].
  - simpl in Hr. simplify_eq. by rewrite <- Hr.
  - rewrite (replayed_from_one e l _ Hr). exact Hr.
Qed.

Lemma submit_all_built base commands : forall engine, built_on base engine -> built_on base (submit_all engine commands).
Proof.
  induction commands as [|c commands IH]; intros engine H; [done|].
  change (submit_all engine (c :: commands)) with
    (submit_all (match submit engine c with Ok (e', _) => e' | Err _ => engine end) commands).
  apply IH. destruct (submit engine c) as [[e' r]|] eqn:E; [|done]. by eapply built_submit.
Qed.

(** An engine restored from the state after four commands. *)
Definition demo_restored : Engine := restore (en_state (submit_all empty_engine (take 4 demo_commands))) [].

Lemma history_determines_state_witness :
  (s_last_applied (en_state demo_engine) = 8 /\
   replay_through demo_engine None None = Ok (en_state demo_engine)) /\
  let engine := submit_all demo_restored (drop 4 demo_commands) in
  length (en_events engine) = 4%nat /\
  exists added, en_events engine = added /\
    replay_from (en_state demo_restored) added None None = Ok (en_state engine).
Proof.
  split.
  - split; [vm_compute; reflexivity|]. refine (proj2 (history_determines_state empty_engine demo_engine _) eq_refl).
    apply submit_all_built, built_base.
  - cbv zeta. split; [vm_compute; reflexivity|].
    destruct (history_determines_state demo_restored (submit_all demo_restored (drop 4 demo_commands)))
      as [(added & He & H) _]; [apply submit_all_built, built_base|]. exists added. split; [exact He|exact H].
Defined.

(** ** Retention *)

(** Entries of the history that retention keeps or drops. *)
Lemma retain_events_facts keys : forall s anchor s' err,
  retain_events s anchor keys = (s', err) ->
  same_domain s s' /\ s_receipts s' = s_receipts s /\ s_last_applied s' = s_last_applied s /\
  s_term s' = s_term s /\ s_applied_events s' ⊆ s_applied_events s /\
  s_applied_commands s' ⊆ s_applied_commands s.
Proof.
  induction keys as [|key keys IH]; intros s anchor s' err H; simpl in H; [by simplify_eq|].
  destruct (s_applied_events s !! key) as [text|]; [|by eapply IH].
  destruct (parse_event text) as [parsed|]; [|by simplify_eq].
  case_in H; [by eapply IH|].
  apply IH in H as (D & R & L & T & E & C). simpl in *.
  split; [exact D|]. split; [exact R|]. split; [exact L|]. split; [exact T|].
  split; [etrans; [exact E|apply delete_subseteq]|].
  etrans; [exact C|]. destruct (_ || _); [apply delete_subseteq|done].
Qed.

(** Dropped command aliases are those of no-ops and of commands that have a
    receipt. *)
Lemma retain_events_commands keys : forall s anchor s' err id,
  retain_events s anchor keys = (s', err) ->
  is_Some (s_applied_commands s !! id) ->
  is_Some (s_applied_commands s' !! id) \/ is_Some (s_receipts s !! id) \/
  exists key text e, s_applied_events s !! key = Some text /\ parse_event text = Ok e /\
    ev_type e = NoOp /\ ev_command e = id.
Proof.
  induction keys as [|key keys IH]; intros s anchor s' err id H Hid; simpl in H.
  { simplify_eq. by left. }
  destruct (s_applied_events s !! key) as [text|] eqn:Ek; [|by eapply IH].
  destruct (parse_event text) as [parsed|] eqn:Ep; [|simplify_eq; by left].
  case_in H; [by eapply IH|].
  set (covered := bool_decide (ev_type parsed = NoOp) || is_some (s_receipts s !! ev_command parsed))
    in H.
  destruct (decide (covered = true /\ ev_command parsed = id)) as [[Hc <-]|Hno].
  - unfold covered in Hc. apply orb_true_iff in Hc as [Hc|Hc].
    + right. right. exists key, text, parsed. bool_props. done.
    + right. left. by apply is_some_true.
  - destruct (IH _ _ _ _ id H) as [Hl|[Hr|(k & t & e & Hk & Hpe & Ht & Hcmd)]]; simpl in *.
    + destruct covered; [|done]. rewrite lookup_delete_ne; [done|]. intros ?. by apply Hno.
    + by left.
    + by right; left.
    + right. right. exists k, t, e. split; [|done].
      by apply lookup_delete_Some in Hk as [_ ?].
Qed.

(** Retention forgets no client command. Whatever the anchor and whether
    or not it stops at an unreadable record, the domain, the position and all
    receipts are unchanged, and every command id that was taken is still
    taken, no-op markers apart. *)
Lemma retention_keeps_commands s anchor s' err id :
  retain_state_history_from s anchor = (s', err) ->
  same_domain s s' /\ s_receipts s' = s_receipts s /\ s_last_applied s' = s_last_applied s /\
  (accepted s id = true -> accepted s' id = true \/
   exists key text e, s_applied_events s !! key = Some text /\ parse_event text = Ok e /\
     ev_type e = NoOp /\ ev_command e = id).
Proof.
  unfold retain_state_history_from. intros H.
  destruct (retain_events s anchor (sorted_keys (s_applied_events s))) as [s1 err1] eqn:E.
  pose proof (retain_events_facts _ _ _ _ _ E) as (D & R & L & _ & _ & _).
  assert (same_domain s s' /\ s_receipts s' = s_receipts s /\ s_last_applied s' = s_last_applied s)
    as (D' & R' & L') by (destruct err1; simplify_eq; done).
  split; [done|]. split; [done|]. split; [done|]. unfold accepted. rewrite R'.
  intros [Hc|Hr]%orb_true_iff; [|left; by rewrite Hr, orb_true_r].
  apply is_some_true in Hc.
  destruct (retain_events_commands _ _ _ _ _ id E Hc) as [Hl|[Hr|Hn]];
    [left|left; apply is_some_true in Hr; by rewrite Hr, orb_true_r|by right].
  destruct (s_receipts s !! id) as [r|] eqn:Er; [by rewrite orb_true_r|]. rewrite orb_false_r.
  apply is_some_true. destruct err1; simplify_eq; [done|]. simpl.
  destruct Hl as [x Hx]. exists x. apply map_lookup_filter_Some. split; [done|]. simpl.
  unfold alias_kept. by rewrite R, Er.
Qed.

Lemma retention_keeps_commands_witness :
  let r := retain_state_history_from (en_state demo_engine) 6 in
  r.2 = None /\ size (s_applied_events r.1) = 3%nat /\ size (s_applied_commands r.1) = 3%nat /\
  s_receipts r.1 = s_receipts (en_state demo_engine).
Proof.
  cbv zeta. split; [vm_compute; reflexivity|]. split; [vm_compute; reflexivity|].
  split; [vm_compute; reflexivity|].
  exact (proj1 (proj2 (retention_keeps_commands (en_state demo_engine) 6
    (retain_state_history_from (en_state demo_engine) 6).1
    (retain_state_history_from (en_state demo_engine) 6).2 "c-1" (surjective_pairing _)))).
Defined.

(** ** Binary search *)

(** Indexes do not decrease along the list. *)
Definition index_sorted (events : list Event) : Prop :=
  forall i j a b, (i <= j)%nat -> events !! i = Some a -> events !! j = Some b ->
    ev_index a <= ev_index b.

Lemma lower_bound_spec fuel : forall events anchor first len,
  index_sorted events -> (first + len <= length events)%nat -> (len <= fuel)%nat ->
  let k := lower_bound fuel events anchor first len in
  (first <= k <= first + len)%nat /\
  (forall i e, (first <= i < k)%nat -> events !! i = Some e -> ev_index e < anchor) /\
  (forall i e, (k <= i < first + len)%nat -> events !! i = Some e -> anchor <= ev_index e).
Proof.
  induction fuel as [|fuel IH]; intros events anchor first len Hs Hl Hf; cbn zeta.
  { assert (len = 0%nat) as -> by lia. simpl. split; [lia|]. split; intros; lia. }
  destruct len as [|len]; [simpl; split; [lia|]; split; intros; lia|].
  cbn [lower_bound]. set (n := S len) in *. cbv zeta.
  assert (Nat.div n 2 < n)%nat as Hh by (apply Nat.div_lt; unfold n; lia).
  destruct (events !! (first + Nat.div n 2)%nat) as [mid|] eqn:Em;
    [|apply lookup_ge_None_1 in Em; lia].
  destruct (Z.ltb_spec (ev_index mid) anchor) as [Hlt|Hge].
  - destruct (IH events anchor (S (first + Nat.div n 2)) (n - Nat.div n 2 - 1)%nat Hs
      ltac:(lia) ltac:(lia)) as (K1 & K2 & K3).
    split; [lia|]. split.
    + intros i e Hi He. destruct (decide (i <= first + Nat.div n 2)%nat) as [Hle|Hgt].
      * pose proof (Hs _ _ _ _ Hle He Em). lia.
      * apply (K2 i e); [lia|done].
    + intros i e Hi He. apply (K3 i e); [lia|done].
  - destruct (IH events anchor first (Nat.div n 2) Hs ltac:(lia) ltac:(lia)) as (K1 & K2 & K3).
    split; [lia|]. split; [exact K2|].
    intros i e Hi He. destruct (decide (i < first + Nat.div n 2)%nat) as [Hlt|Hge'].
    + apply (K3 i e); [lia|done].
    + pose proof (Hs (first + Nat.div n 2)%nat i mid e ltac:(lia) Em He). lia.
Qed.

(** The search as a list operation: cut off the prefix below the anchor. *)
Fixpoint drop_below (anchor : Z) (events : list Event) : list Event :=
  match events with
  | e :: rest => if ev_index e <? anchor then drop_below anchor rest else events
  | [] => []
  end.

Lemma drop_below_cut anchor events : forall k,
  (k <= length events)%nat ->
  (forall i e, (i < k)%nat -> events !! i = Some e -> ev_index e < anchor) ->
  (forall e, events !! k = Some e -> anchor <= ev_index e) ->
  drop k events = drop_below anchor events.
Proof.
  induction events as [|e events IH]; intros k Hk Hlt Hge; [by destruct k|].
  destruct k as [|k]; simpl.
  - by rewrite (proj2 (Z.ltb_ge _ _)) by (by apply (Hge e)).
  - rewrite (proj2 (Z.ltb_lt _ _)) by (apply (Hlt 0%nat e); [lia|done]).
    apply IH; [simpl in Hk; lia| |].
    + intros i x Hi Hx. apply (Hlt (S i) x); [lia|done].
    + intros x Hx. by apply (Hge x).
Qed.

(** Retaining from an anchor removes exactly the events below it: on a
    history in index order the binary search cuts where a scan would. *)
Theorem retained_events_are_a_suffix engine anchor engine' :
  index_sorted (en_events engine) -> retain_history_from engine anchor = (engine', None) ->
  en_events engine' = drop_below anchor (en_events engine).
Proof.
  unfold retain_history_from. intros Hs H.
  destruct (retain_state_history_from (en_state engine) anchor) as [s [e|]]; [done|].
  injection H as <-. simpl. set (n := length (en_events engine)).
  destruct (lower_bound_spec n (en_events engine) anchor 0 n Hs ltac:(lia) ltac:(lia))
    as (K1 & K2 & K3).
  apply drop_below_cut; [lia| |].
  - intros i x Hi Hx. apply (K2 i x); [lia|done].
  - intros x Hx. pose proof (lookup_lt_Some _ _ _ Hx). eapply K3; [|exact Hx]. lia.
Qed.

Lemma sorted_index_sorted events :
  StronglySorted Z.le (ev_index <$> events) -> index_sorted events.
Proof.
  induction events as [|e events IH]; intros Hs i j a b Hij Ha Hb; [done|].
  inversion Hs as [|?? Hs' Hall]; subst. destruct i as [|i], j as [|j]; simplify_eq/=; [lia| |lia|].
  - rewrite list.Forall_forall in Hall. apply Hall, list_elem_of_fmap. exists b. split; [done|].
    by eapply list_elem_of_lookup_2.
  - apply (IH Hs' i j); [lia|done..].
Qed.

Lemma demo_index_sorted : index_sorted (en_events demo_engine).
Proof.
  apply sorted_index_sorted.
  assert (ev_index <$> en_events demo_engine = [1; 2; 3; 4; 5; 6; 7; 8]) as -> by (vm_compute; reflexivity).
  repeat constructor; lia.
Qed.

Lemma retained_events_are_a_suffix_witness :
  ev_index <$> en_events (retain_history_from demo_engine 6).1 = [6; 7; 8] /\
  en_events (retain_history_from demo_engine 6).1 = drop_below 6 (en_events demo_engine).
Proof.
  split; [vm_compute; reflexivity|].
  assert ((retain_history_from demo_engine 6).2 = None) as H by (vm_compute; reflexivity).
  apply (retained_events_are_a_suffix demo_engine 6 (retain_history_from demo_engine 6).1
    demo_index_sorted).
  rewrite <- H. apply surjective_pairing.
Defined.
