(* ===== verification/Stream.v ===== *)
(** * Formatted input from a string

    What [std::istringstream] does for the sources: [operator>>] on strings
    and integers with its state bits, in the C locale. *)

From S2P Require Import Prelude Text.

(** The unread text, [eofbit] and [failbit]. *)
Record Stream := mkStream { sm_text : string; sm_eof : bool; sm_fail : bool }.

Definition open_stream (text : string) : Stream := mkStream text false false.

(** The sentry of a formatted extraction: a stream that is not good fails, and
    so does one with nothing but white space left. *)
Definition sentry (st : Stream) : bool * Stream :=
  if sm_eof st || sm_fail st then (false, mkStream (sm_text st) (sm_eof st) true)
  else
    match skip_space (sm_text st) with
    | EmptyString => (false, mkStream "" true true)
    | text => (true, mkStream text false false)
    end.

(** The characters before the next white space, and the rest. *)
Fixpoint span_word (s : string) : string * string :=
  match s with
  | EmptyString => ("", "")
  | String c r =>
      if is_space c then ("", s) else let '(w, rest) := span_word r in (String c w, rest)
  end.

Definition is_empty (s : string) : bool := match s with EmptyString => true | _ => false end.

(** [stream >> word]; a failed sentry leaves the variable alone. *)
Definition read_word (st : Stream) (old : string) : string * Stream :=
  let '(ready, st) := sentry st in
  if ready then let '(w, rest) := span_word (sm_text st) in (w, mkStream rest (is_empty rest) false)
  else (old, st).

(** [stream >> integer] after the sentry: sign, digits, and the value they
    give. No digit stores zero, a value out of range the nearest bound, and
    both fail. *)
Definition read_number (convert : bool -> Z -> Z * bool) (st : Stream) (old : Z) : Z * Stream :=
  let '(ready, st) := sentry st in
  if ready then
    let '(negative, r) := scan_sign (sm_text st) in
    if starts_with_digit r then
      let '(v, rest) := scan_digits r 0 in
      let '(value, failed) := convert negative v in
      (value, mkStream rest (is_empty rest) failed)
    else (0, mkStream r (is_empty r) true)
  else (old, st).

Definition convert_signed (low high : Z) (negative : bool) (v : Z) : Z * bool :=
  let v := if negative then - v else v in
  if v <? low then (low, true) else if high <? v then (high, true) else (v, false).

(** A minus sign negates modulo the width. *)
Definition convert_unsigned (high : Z) (negative : bool) (v : Z) : Z * bool :=
  if high <? v then (high, true)
  else ((if negative then (- v) mod (high + 1) else v), false).

Definition max_u32 : Z := 4294967295.

Definition read_i32 : Stream -> Z -> Z * Stream := read_number (convert_signed min_i32 max_i32).
Definition read_i64 : Stream -> Z -> Z * Stream := read_number (convert_signed min_i64 max_i64).
Definition read_u32_text : Stream -> Z -> Z * Stream := read_number (convert_unsigned max_u32).
Definition read_u64_text : Stream -> Z -> Z * Stream := read_number (convert_unsigned max_u64).

(** ** Lines of words *)

(** A word: not empty and without white space. *)
Definition word (w : string) : Prop := w <> "" /\ str_all (fun c => negb (is_space c)) w = true.

(** The stream in front of the remaining words of a line. *)
Definition at_words (ws : list string) : Stream :=
  match ws with
  | [] => mkStream "" true false
  | _ => mkStream (" " +:+ join " " ws) false false
  end.

Lemma word_head w : word w -> exists c r, w = String c r /\ is_space c = false.
Proof.
  intros [Hne Hw]. destruct w as [|c r]; [done|]. exists c, r. split; [done|]. simpl in Hw.
  apply andb_true_iff in Hw as [Hc _]. by apply negb_true_iff in Hc.
Qed.

Lemma skip_word w r : word w -> skip_space (w +:+ r) = w +:+ r.
Proof. intros (c & t & -> & Hc)%word_head. simpl. by rewrite Hc. Qed.

Lemma span_word_app w r :
  str_all (fun c => negb (is_space c)) w = true ->
  match r with String c _ => is_space c = true | EmptyString => True end ->
  span_word (w +:+ r) = (w, r).
Proof.
  intros Hw Hr. induction w as [|c w IH]; simpl in *.
  - destruct r as [|c r]; [done|]. simpl. by rewrite Hr.
  - apply andb_true_iff in Hw as [Hc Hw]. apply negb_true_iff in Hc. rewrite Hc, IH by done. done.
Qed.

Lemma join_cons w ws :
  join " " (w :: ws) = w +:+ match ws with [] => "" | _ => " " +:+ join " " ws end.
Proof. destruct ws; [by rewrite str_app_nil_r|done]. Qed.

(** The text after the first word of a line. *)
Definition after (ws : list string) : string := sm_text (at_words ws).

Lemma join_after w ws : join " " (w :: ws) = w +:+ after ws.
Proof. rewrite join_cons. by destruct ws. Qed.

Lemma after_space ws :
  match after ws with String c _ => is_space c = true | EmptyString => True end.
Proof. by destruct ws. Qed.

Lemma after_stream ws : mkStream (after ws) (is_empty (after ws)) false = at_words ws.
Proof. by destruct ws. Qed.

Lemma sentry_ready w ws : word w ->
  sentry (open_stream (join " " (w :: ws))) = (true, open_stream (w +:+ after ws)) /\
  sentry (at_words (w :: ws)) = (true, open_stream (w +:+ after ws)).
Proof.
  intros Hw. assert (forall t, skip_space t = w +:+ after ws ->
    sentry (mkStream t false false) = (true, open_stream (w +:+ after ws))) as Hs.
  { intros t Ht. unfold sentry. cbn [sm_eof sm_fail sm_text orb]. rewrite Ht.
    destruct (word_head w Hw) as (c & r & -> & _). done. }
  unfold at_words, open_stream. split; apply Hs; rewrite join_after; [by apply skip_word|].
  change (skip_space (" " +:+ (w +:+ after ws))) with (skip_space (w +:+ after ws)). by apply skip_word.
Qed.

Lemma read_word_at w ws old : word w ->
  read_word (open_stream (join " " (w :: ws))) old = (w, at_words ws) /\
  read_word (at_words (w :: ws)) old = (w, at_words ws).
Proof.
  intros Hw. destruct (sentry_ready w ws Hw) as [H1 H2]. unfold read_word. rewrite H1, H2.
  cbn [sm_text open_stream]. rewrite span_word_app by (apply Hw || apply after_space).
  by rewrite after_stream.
Qed.

Lemma read_word_end old : read_word (at_words []) old = (old, mkStream "" true true).
Proof. done. Qed.

(** The text of a number is a word. *)
Lemma digit_no_space c : is_digit c = true -> negb (is_space c) = true.
Proof. unfold is_digit, is_space. intros H. bool_props. apply negb_true_iff, orb_false_iff. lia. Qed.

Lemma word_print_u n : 0 <= n -> word (print_u n).
Proof.
  intros Hn. destruct (print_u_digits n Hn) as [Hd Hne]. split; [done|].
  eapply str_all_impl; [|exact Hd]. apply digit_no_space.
Qed.

Lemma word_print_i n : word (print_i n).
Proof.
  unfold print_i. destruct (Z.ltb_spec n 0) as [Hn|Hn]; [|by apply word_print_u].
  destruct (word_print_u (- n)) as [Hne Hw]; [lia|]. split; [done|]. simpl. by rewrite Hw.
Qed.

Lemma after_no_digit ws : starts_with_digit (after ws) = false.
Proof. by destruct ws. Qed.

Lemma scan_print_i n r : starts_with_digit r = false ->
  let '(negative, text) := scan_sign (print_i n +:+ r) in
  starts_with_digit text = true /\ scan_digits text 0 = (Z.abs n, r) /\
  (if negative then - Z.abs n else Z.abs n) = n.
Proof.
  intros Hr. unfold print_i. destruct (Z.ltb_spec n 0) as [Hn|Hn].
  - change (scan_sign (("-" +:+ print_u (- n)) +:+ r)) with (true, print_u (- n) +:+ r). cbv iota.
    split; [apply print_u_starts; lia|]. split; [|lia].
    replace (Z.abs n) with (- n) by lia. apply scan_print_u; [lia|done].
  - pose proof (print_u_starts n r Hn) as Hs. destruct (digit_head _ Hs) as [_ ->].
    split; [done|]. split; [|lia]. replace (Z.abs n) with n by lia. apply scan_print_u; [lia|done].
Qed.

Lemma read_number_at convert n ws old v :
  (forall negative, (if negative : bool then - Z.abs n else Z.abs n) = n ->
     (n < 0 -> negative = true) -> (negative = true -> n <= 0) ->
     convert negative (Z.abs n) = (v, false)) ->
  read_number convert (open_stream (join " " (print_i n :: ws))) old = (v, at_words ws) /\
  read_number convert (at_words (print_i n :: ws)) old = (v, at_words ws).
Proof.
  intros Hc. destruct (sentry_ready _ ws (word_print_i n)) as [H1 H2].
  unfold read_number. rewrite H1, H2. cbn [sm_text open_stream].
  pose proof (scan_print_i n (after ws) (after_no_digit ws)) as Hs.
  destruct (scan_sign (print_i n +:+ after ws)) as [negative r]. destruct Hs as (S1 & S2 & S3).
  rewrite S1, S2, (Hc negative S3), after_stream; [done|destruct negative; [done|lia]|].
  intros ->. lia.
Qed.

Lemma read_i32_at n ws old : min_i32 <= n <= max_i32 ->
  read_i32 (open_stream (join " " (print_i n :: ws))) old = (n, at_words ws) /\
  read_i32 (at_words (print_i n :: ws)) old = (n, at_words ws).
Proof.
  intros Hn. apply read_number_at. intros negative E _ _. unfold convert_signed. cbv zeta. rewrite E.
  destruct (Z.ltb_spec n min_i32); [lia|]. destruct (Z.ltb_spec max_i32 n); [lia|done].
Qed.

Lemma read_i64_at n ws old : min_i64 <= n <= max_i64 ->
  read_i64 (at_words (print_i n :: ws)) old = (n, at_words ws).
Proof.
  intros Hn. apply read_number_at. intros negative E _ _. unfold convert_signed. cbv zeta. rewrite E.
  destruct (Z.ltb_spec n min_i64); [lia|]. destruct (Z.ltb_spec max_i64 n); [lia|done].
Qed.

Lemma print_i_u n : 0 <= n -> print_i n = print_u n.
Proof. intros. unfold print_i. by destruct (Z.ltb_spec n 0); [lia|]. Qed.

Lemma read_unsigned_at high n ws old : 0 <= n <= high ->
  read_number (convert_unsigned high) (at_words (print_u n :: ws)) old = (n, at_words ws).
Proof.
  intros Hn. rewrite <- print_i_u by lia. apply read_number_at. intros negative Hs _ Hneg.
  unfold convert_unsigned. destruct (Z.ltb_spec high (Z.abs n)); [lia|]. f_equal.
  destruct negative; [|lia]. specialize (Hneg eq_refl). replace n with 0 by lia. done.
Qed.
