(* ===== verification/SnapshotText.v ===== *)
(** * The snapshot text of a state

    [snapshot_payload] and [restore_state] of
    [cpp-runtime/src/state/machine.cpp]: the state as lines of words, and the
    reader of the three versions of that text. *)

From S2P Require Import Prelude Text Stream Types Model EventCodec Machine.

(** ** Writing *)

(** One line of the text. *)
Definition text_line (text : string) : string := text +:+ newline.

(** [std::sort] by index. Receipts of one state have different indexes; the
    order the source would give to equal ones is unspecified. *)
Definition receipt_before (a b : string * EventReceipt) : Prop :=
  rc_index a.2 <= rc_index b.2.

#[export] Instance receipt_before_dec a b : Decision (receipt_before a b).
Proof. unfold receipt_before. apply _. Defined.

Definition ordered_receipts (s : ChoreographyState) : list (string * EventReceipt) :=
  merge_sort receipt_before (sorted_items (s_receipts s)).

(** The loop over the receipts, with its cursor and active term. *)
Fixpoint receipts_text (cursor active_term : Z) (ordered : list (string * EventReceipt)) : string :=
  match ordered with
  | [] => ""
  | (id, receipt) :: rest =>
      (if negb (rc_index receipt =? wrap64 (cursor + 1))
       then text_line ("at " +:+ print_u (wrap64 (rc_index receipt - 1))) else "") +:+
      (if negb (rc_term receipt =? active_term)
       then text_line ("receipt-term " +:+ print_u (rc_term receipt)) else "") +:+
      text_line ("r " +:+ id +:+ " " +:+ encode_fingerprint (rc_fingerprint receipt)) +:+
      receipts_text (rc_index receipt) (rc_term receipt) rest
  end.

(** A command without a receipt that is not a leadership marker. *)
Definition is_legacy (s : ChoreographyState) (kv : string * string) : bool :=
  negb (is_some (s_receipts s !! kv.1)) && negb (String.prefix "noop-" kv.2).

Definition legacy_text (s : ChoreographyState) : string :=
  foldr (fun kv text => (if is_legacy s kv then text_line ("legacy " +:+ kv.1) else "") +:+ text) ""
    (sorted_items (s_applied_commands s)).

Definition cue_line (key id : string) (cue : CueState) : string :=
  key +:+ " " +:+ id +:+ " " +:+ print_i (cs_tick cue) +:+ " " +:+ default "-" (cs_depends_on cue).

Definition snapshot_payload (s : ChoreographyState) : string :=
  text_line "snapshot-state 3" +:+
  text_line ("schema " +:+ print_u kCurrentSchemaVersion) +:+
  text_line ("created " +:+ (if s_created s then "1" else "0")) +:+
  text_line ("choreography " +:+ default "-" (s_id s)) +:+
  text_line match s_stage s with
            | Some stage => "stage " +:+ print_i (st_width stage) +:+ " " +:+ print_i (st_depth stage)
            | None => "stage -"
            end +:+
  text_line ("overlap " +:+ overlap_policy_name (s_overlap s)) +:+
  text_line ("max_travel " +:+ print_i (s_max_travel_mm s)) +:+
  text_line ("last_applied " +:+ print_u (s_last_applied s)) +:+
  text_line ("term " +:+ print_u (s_term s)) +:+
  lines_of (s_dancers s) (fun id dancer =>
    "dancer " +:+ id +:+ " " +:+ print_i (pos_x (ds_position dancer)) +:+ " " +:+
    print_i (pos_y (ds_position dancer)) +:+ " " +:+ (if ds_active dancer then "1" else "0")) +:+
  lines_of (s_formations s) (fun id formation =>
    "formation " +:+ id +:+ foldr (fun m text => " " +:+ m +:+ text) "" (fs_members formation)) +:+
  lines_of (s_music_cues s) (cue_line "music") +:+
  lines_of (s_lighting_cues s) (cue_line "light") +:+
  receipts_text 0 1 (ordered_receipts s) +:+
  legacy_text s.

(** ** Reading *)

Definition bad_snapshot (why : string) : Error :=
  mkError StoreError ("snapshot state is invalid: " +:+ why).

(** The variables of [restore_state]. *)
Record Restore := mkRestore {
  re_state : ChoreographyState;
  re_version : option string;
  re_index : Z;
  re_term : Z;
}.

Definition re_with_state (s : ChoreographyState) (r : Restore) : Restore :=
  mkRestore s (re_version r) (re_index r) (re_term r).

Definition s_with_setup (created : bool) (id : option string) (stage : option StageBounds)
    (overlap : OverlapPolicy) (travel : Z) (s : ChoreographyState) : ChoreographyState :=
  mkState created id stage overlap travel (s_last_applied s) (s_term s) (s_dancers s)
    (s_formations s) (s_music_cues s) (s_lighting_cues s) (s_applied_events s)
    (s_applied_commands s) (s_receipts s).

(** The end of a loop turn: [fields.fail() && !fields.eof()]. *)
Definition line_done (key : string) (fields : Stream) (r : Restore) : result Error Restore :=
  if sm_fail fields && negb (sm_eof fields)
  then Err (bad_snapshot ("malformed line '" +:+ key +:+ "'")) else Ok r.

Definition restore_header (r : Restore) (key : string) (fields : Stream) : result Error Restore :=
  let '(version, _) := read_word fields "" in
  if negb (bool_decide (key = "snapshot-state")) ||
     (negb (bool_decide (version = "1")) && negb (bool_decide (version = "2")) &&
      negb (bool_decide (version = "3")))
  then Err (bad_snapshot "missing or unsupported header")
  else Ok (mkRestore (re_state r) (Some version) (re_index r) (re_term r)).

Definition restore_stage (s : ChoreographyState) (fields : Stream)
    : result Error (ChoreographyState * Stream) :=
  let '(width, fields) := read_word fields "" in
  if bool_decide (width = "-") then Ok (s, fields)
  else
    let '(width_mm, _) := read_i32 (open_stream width) 0 in
    let '(depth, fields) := read_i32 fields 0 in
    let? stage := stage_from_mm width_mm depth in
    Ok (s_with_setup (s_created s) (s_id s) (Some stage) (s_overlap s) (s_max_travel_mm s) s, fields).

Definition restore_dancer (s : ChoreographyState) (fields : Stream)
    : result Error (ChoreographyState * Stream) :=
  let '(id, fields) := read_word fields "" in
  let '(x, fields) := read_i32 fields 0 in
  let '(y, fields) := read_i32 fields 0 in
  let '(active, fields) := read_i32 fields 0 in
  let? position := position_from_mm x y in
  Ok (s_with_dancers (<[id := mkDancerState position (negb (active =? 0))]> (s_dancers s)) s, fields).

(** [while (fields >> member)]; every turn consumes a character, so the length
    of the text is enough fuel. *)
Fixpoint restore_members (fuel : nat) (fields : Stream) (members : list string)
    : result Error (list string * Stream) :=
  match fuel with
  | O => Ok (members, fields)
  | S fuel =>
      let '(member, fields) := read_word fields "" in
      if sm_fail fields then Ok (members, fields)
      else let? parsed := parse_id member in restore_members fuel fields (members ++ [parsed])
  end.

Definition restore_formation (s : ChoreographyState) (fields : Stream)
    : result Error (ChoreographyState * Stream) :=
  let '(id, fields) := read_word fields "" in
  let? (members, fields) := restore_members (S (String.length (sm_text fields))) fields [] in
  Ok (s_with_formations (<[id := mkFormationState members]> (s_formations s)) s, fields).

Definition restore_cue (music : bool) (s : ChoreographyState) (fields : Stream)
    : result Error (ChoreographyState * Stream) :=
  let '(id, fields) := read_word fields "" in
  let '(ticks, fields) := read_i64 fields 0 in
  let '(depends, fields) := read_word fields "" in
  let? tick := from_ticks ticks in
  let? depends_on :=
    (if negb (bool_decide (depends = "-")) && negb (bool_decide (depends = ""))
     then let? parsed := parse_id depends in Ok (Some parsed) else Ok None) in
  let cue := mkCueState tick depends_on in
  Ok (if music
      then s_with_cues (<[id := cue]> (s_music_cues s)) (s_lighting_cues s) s
      else s_with_cues (s_music_cues s) (<[id := cue]> (s_lighting_cues s)) s, fields).

Definition restore_at (r : Restore) (fields : Stream) : result Error (Restore * Stream) :=
  let '(cursor, fields) := read_u64_text fields 0 in
  if sm_fail fields || (cursor <=? re_index r) || (s_last_applied (re_state r) <=? cursor)
  then Err (bad_snapshot "receipt cursor is invalid")
  else Ok (mkRestore (re_state r) (re_version r) cursor (re_term r), fields).

Definition restore_receipt_term (r : Restore) (fields : Stream) : result Error (Restore * Stream) :=
  let '(term, fields) := read_u64_text fields (re_term r) in
  if sm_fail fields || (term =? 0) then Err (bad_snapshot "receipt term is invalid")
  else Ok (mkRestore (re_state r) (re_version r) (re_index r) term, fields).

Definition restore_receipt (r : Restore) (fields : Stream) : result Error (Restore * Stream) :=
  let s := re_state r in
  let '(id, fields) := read_word fields "" in
  let '(fingerprint, fields) := read_word fields "" in
  match parse_id id, decode_fingerprint fingerprint with
  | Ok _, Ok decoded =>
      if (s_last_applied s <=? re_index r) || is_some (s_receipts s !! id)
      then Err (bad_snapshot "compact receipt is invalid or repeated")
      else
        let index := wrap64 (re_index r + 1) in
        Ok (mkRestore
              (s_with_history (s_applied_events s) (<[id := id]> (s_applied_commands s))
                 (<[id := mkEventReceipt index (re_term r) decoded]> (s_receipts s)) s)
              (re_version r) index (re_term r), fields)
  | _, _ => Err (bad_snapshot "compact receipt is invalid or repeated")
  end.

Definition restore_legacy (s : ChoreographyState) (fields : Stream)
    : result Error (ChoreographyState * Stream) :=
  let '(id, fields) := read_word fields "" in
  if negb (is_ok (parse_id id)) || is_some (s_applied_commands s !! id)
  then Err (bad_snapshot "legacy command id is invalid or repeated")
  else Ok (s_with_history (s_applied_events s) (<[id := id]> (s_applied_commands s)) (s_receipts s) s,
           fields).

(** The full receipts of version 2. *)
Definition restore_full_receipt (s : ChoreographyState) (fields : Stream)
    : result Error (ChoreographyState * Stream) :=
  let '(event_id, fields) := read_word fields "" in
  let '(canonical, fields) := read_word fields "" in
  if bool_decide (event_id = "") || bool_decide (canonical = "")
  then Err (bad_snapshot "receipt is missing an event id or payload")
  else
    match parse_event canonical with
    | Ok event =>
        if negb (bool_decide (ev_id event = event_id))
        then Err (bad_snapshot "legacy full receipt is malformed")
        else Ok (s_with_history (<[event_id := canonical]> (s_applied_events s)) (s_applied_commands s)
                   (if bool_decide (ev_type event = NoOp) then s_receipts s
                    else <[ev_command event := receipt_from_event event]> (s_receipts s)) s, fields)
    | Err _ => Err (bad_snapshot "legacy full receipt is malformed")
    end.

Definition restore_applied (s : ChoreographyState) (fields : Stream) : ChoreographyState * Stream :=
  let '(command, fields) := read_word fields "" in
  let '(event, fields) := read_word fields "" in
  (s_with_history (s_applied_events s)
     (<[command := if bool_decide (event = "") then command else event]> (s_applied_commands s))
     (s_receipts s) s, fields).

(** The lines with a single setting. *)
Definition restore_setting (s : ChoreographyState) (key : string) (fields : Stream)
    : option (result Error (ChoreographyState * Stream)) :=
  let setup created id stage overlap travel := s_with_setup created id stage overlap travel s in
  if bool_decide (key = "schema") then Some (
    let '(schema, fields) := read_u32_text fields 0 in
    if negb (schema =? kCurrentSchemaVersion) then Err (unsupported_schema (wrap16 schema))
    else Ok (s, fields))
  else if bool_decide (key = "created") then Some (
    let '(value, fields) := read_i32 fields 0 in
    Ok (setup (negb (value =? 0)) (s_id s) (s_stage s) (s_overlap s) (s_max_travel_mm s), fields))
  else if bool_decide (key = "choreography") then Some (
    let '(id, fields) := read_word fields "" in
    if bool_decide (id = "-") then Ok (s, fields)
    else
      let? parsed := parse_id id in
      Ok (setup (s_created s) (Some parsed) (s_stage s) (s_overlap s) (s_max_travel_mm s), fields))
  else if bool_decide (key = "overlap") then Some (
    let '(name, fields) := read_word fields "" in
    let? policy := parse_overlap_policy name in
    Ok (setup (s_created s) (s_id s) (s_stage s) policy (s_max_travel_mm s), fields))
  else if bool_decide (key = "max_travel") then Some (
    let '(travel, fields) := read_i32 fields (s_max_travel_mm s) in
    Ok (setup (s_created s) (s_id s) (s_stage s) (s_overlap s) travel, fields))
  else if bool_decide (key = "last_applied") then Some (
    let '(value, fields) := read_u64_text fields 0 in
    Ok (s_with_position value (s_term s) s, fields))
  else if bool_decide (key = "term") then Some (
    let '(value, fields) := read_u64_text fields 0 in
    let? term := parse_term value in
    Ok (s_with_position (s_last_applied s) term s, fields))
  else None.

(** The lines that add to a collection of the state. *)
Definition restore_item (version : string) (s : ChoreographyState) (key : string) (fields : Stream)
    : option (result Error (ChoreographyState * Stream)) :=
  if bool_decide (key = "stage") then Some (restore_stage s fields)
  else if bool_decide (key = "dancer") then Some (restore_dancer s fields)
  else if bool_decide (key = "formation") then Some (restore_formation s fields)
  else if bool_decide (key = "music") then Some (restore_cue true s fields)
  else if bool_decide (key = "light") then Some (restore_cue false s fields)
  else if bool_decide (key = "legacy") && bool_decide (version = "3")
  then Some (restore_legacy s fields)
  else if bool_decide (key = "receipt") && bool_decide (version = "2")
  then Some (restore_full_receipt s fields)
  else if bool_decide (key = "applied") then Some (Ok (restore_applied s fields))
  else None.

(** The lines that move the receipt cursor. *)
Definition restore_cursor (version : string) (r : Restore) (key : string) (fields : Stream)
    : option (result Error (Restore * Stream)) :=
  if bool_decide (version = "3") then
    if bool_decide (key = "at") then Some (restore_at r fields)
    else if bool_decide (key = "receipt-term") then Some (restore_receipt_term r fields)
    else if bool_decide (key = "r") then Some (restore_receipt r fields)
    else None
  else None.

(** One turn of the loop. *)
Definition restore_line (r : Restore) (line : string) : result Error Restore :=
  if bool_decide (line = "") then Ok r
  else
    let '(key, fields) := read_word (open_stream line) "" in
    match re_version r with
    | None => restore_header r key fields
    | Some version =>
        match restore_setting (re_state r) key fields with
        | Some step => let? (s, fields) := step in line_done key fields (re_with_state s r)
        | None =>
            match restore_item version (re_state r) key fields with
            | Some step => let? (s, fields) := step in line_done key fields (re_with_state s r)
            | None =>
                match restore_cursor version r key fields with
                | Some step => let? (r, fields) := step in line_done key fields r
                | None => Err (bad_snapshot ("unknown line '" +:+ key +:+ "'"))
                end
            end
        end
    end.

Fixpoint restore_lines (r : Restore) (lines : list string) : result Error Restore :=
  match lines with
  | [] => Ok r
  | line :: rest => let? r := restore_line r line in restore_lines r rest
  end.

Definition restore_state (payload : string) : result Error ChoreographyState :=
  let? r := restore_lines (mkRestore empty_state None 0 1) (split (char 10) payload) in
  match re_version r with
  | None => Err (bad_snapshot "empty payload")
  | Some _ => Ok (re_state r)
  end.
