(* ===== verification/SnapshotTextThms.v ===== *)
(** * The snapshot text is read back

    [restore_state] inverts [snapshot_payload] up to what a snapshot leaves
    out on purpose: the event bodies and the markers of elections. *)

From S2P Require Import Prelude Text Types Model EventCodec Machine Stream EventCodecThms SnapshotText.

(** ** Fingerprints *)

Lemma find_base64 d : 0 <= d < 64 -> find_char (base64_char d) kBase64 0 = Some d.
Proof.
  intros Hd. assert (Forall (fun k : nat => find_char (base64_char (Z.of_nat k)) kBase64 0 =
    Some (Z.of_nat k)) (seq 0 64)) as H by (apply (bool_decide_unpack _); vm_compute; exact I).
  rewrite list.Forall_forall in H. specialize (H (Z.to_nat d)).
  rewrite Z2Nat.id in H by lia. apply H. apply elem_of_seq. lia.
Qed.

Lemma land63 v : Z.land v 63 = v mod 64.
Proof. change 63 with (Z.ones 6). rewrite Z.land_ones by lia. done. Qed.

Lemma shiftr6 v : Z.shiftr v 6 = v / 64.
Proof. rewrite Z.shiftr_div_pow2 by lia. done. Qed.

(** Or-ing six low bits into a shifted value is adding them. *)
Lemma lor_digit a d : 0 <= d < 64 -> Z.lor (a * 64) d = a * 64 + d.
Proof.
  intros Hd. rewrite <- (Z.add_lor_land (a * 64) d).
  assert (Z.land (a * 64) d = 0) as ->; [|lia].
  change 64 with (2 ^ 6). rewrite <- Z.shiftl_mul_pow2 by lia.
  apply Z.bits_inj'. intros n Hn. rewrite Z.land_spec, Z.bits_0.
  destruct (Z.lt_ge_cases n 6).
  - by rewrite Z.shiftl_spec_low.
  - rewrite <- (Z.mod_small d (2 ^ 6)) by (simpl; lia).
    by rewrite Z.mod_pow2_bits_high, andb_false_r by lia.
Qed.

Lemma pow64_succ n : 64 ^ Z.of_nat (S n) = 64 * 64 ^ Z.of_nat n.
Proof. rewrite Nat2Z.inj_succ, Z.pow_succ_r by lia. done. Qed.

Lemma mod_pow64_succ v n :
  v mod 64 ^ Z.of_nat (S n) = v mod 64 + 64 * (v / 64 mod 64 ^ Z.of_nat n).
Proof.
  rewrite pow64_succ. apply Z.rem_mul_r; [lia|]. apply Z.pow_pos_nonneg; lia.
Qed.

(** One decoding step without overflow. *)
Lemma decode_digit rest acc d :
  0 <= d < 64 -> 0 <= acc -> acc * 64 + d <= max_u64 ->
  decode_digits false (String (base64_char d) rest) acc = decode_digits false rest (acc * 64 + d).
Proof.
  intros Hd Ha Hb. cbn [decode_digits]. rewrite find_base64 by done. simpl (false && _).
  f_equal. rewrite Z.shiftl_mul_pow2 by lia. change (2 ^ 6) with 64.
  rewrite wrap64_small by (unfold u64; lia). by apply lor_digit.
Qed.

Lemma decode_encode n : forall v text acc,
  0 <= acc -> acc * 64 ^ Z.of_nat n + v mod 64 ^ Z.of_nat n <= max_u64 ->
  decode_digits false (encode_digits n v text) acc =
  decode_digits false text (acc * 64 ^ Z.of_nat n + v mod 64 ^ Z.of_nat n).
Proof.
  induction n as [|n IH]; intros v text acc Ha Hb.
  - simpl in *. rewrite Z.mod_1_r. f_equal. lia.
  - cbn [encode_digits]. rewrite land63, shiftr6.
    pose proof (Z.mod_pos_bound v 64 ltac:(lia)) as Hd.
    assert (0 < 64 ^ Z.of_nat n) as Hp by (apply Z.pow_pos_nonneg; lia).
    pose proof (Z.mod_pos_bound (v / 64) _ Hp) as Hq.
    rewrite mod_pow64_succ, pow64_succ in *.
    assert (0 <= acc * 64 ^ Z.of_nat n) by (apply Z.mul_nonneg_nonneg; lia).
    rewrite IH by (done || lia). rewrite decode_digit by lia. f_equal. lia.
Qed.

(** The most significant digit comes first. *)
Lemma encode_digits_head n : forall v text,
  encode_digits (S n) v text =
  String (base64_char (v / 64 ^ Z.of_nat n mod 64)) (encode_digits n v text).
Proof.
  induction n as [|n IH]; intros v text.
  - cbn [encode_digits]. rewrite land63. simpl (64 ^ _). by rewrite Z.div_1_r.
  - change (encode_digits (S (S n)) v text) with
      (encode_digits (S n) (Z.shiftr v 6) (String (base64_char (Z.land v 63)) text)).
    rewrite IH. f_equal. f_equal. rewrite shiftr6, pow64_succ.
    rewrite Z.div_div; [done|lia|]. apply Z.pow_pos_nonneg; lia.
Qed.

Lemma encode_digits_length n : forall v text,
  String.length (encode_digits n v text) = (n + String.length text)%nat.
Proof.
  induction n as [|n IH]; intros v text; [done|]. cbn [encode_digits]. rewrite IH. simpl. lia.
Qed.

(** The fingerprint of a receipt survives its text form: for every 64-bit
    value, decoding the eleven encoded characters gives the value back. *)
Theorem fingerprint_roundtrip v :
  u64 v -> decode_fingerprint (encode_fingerprint v) = Ok v.
Proof.
  unfold u64. intros Hv. unfold decode_fingerprint, encode_fingerprint.
  rewrite encode_digits_length. simpl (negb _). cbv iota.
  rewrite encode_digits_head.
  assert (0 <= v / 64 ^ Z.of_nat 10 < 16) as Hd.
  { split; [apply Z.div_pos; [lia|done]|]. apply Z.div_lt_upper_bound; [done|].
    unfold max_u64 in Hv. simpl. lia. }
  rewrite (Z.mod_small (v / _) 64) by lia.
  cbn [decode_digits]. rewrite find_base64 by lia.
  rewrite (proj2 (Z.ltb_ge _ _)) by lia. simpl (true && false). cbv iota.
  change (Z.lor (wrap64 (Z.shiftl 0 6)) (v / 64 ^ Z.of_nat 10)) with (v / 64 ^ Z.of_nat 10).
  pose proof (Z.div_mod v (64 ^ Z.of_nat 10) ltac:(done)) as Hdm.
  rewrite decode_encode by lia. simpl (decode_digits false "" _). f_equal. lia.
Qed.

(** ** Lines *)

Definition text_of (lines : list string) : string :=
  foldr (fun l text => text_line l +:+ text) "" lines.

Lemma text_of_cons l lines : text_of (l :: lines) = text_line l +:+ text_of lines.
Proof. done. Qed.

Lemma text_of_app a b : text_of (a ++ b) = text_of a +:+ text_of b.
Proof. induction a as [|x a IH]; [done|]. simpl. by rewrite IH, str_app_assoc. Qed.

Lemma split_text lines :
  Forall (fun l => lacks (char 10) l = true) lines -> split (char 10) (text_of lines) = lines.
Proof.
  unfold split. induction 1 as [|l lines Hl _ IH]; [done|]. simpl. unfold text_line, newline.
  rewrite <- str_app_assoc. change (String (char 10) "" +:+ text_of lines) with (String (char 10) (text_of lines)).
  rewrite getlines_delim by done. by rewrite IH.
Qed.

Lemma word_lacks_newline w : word w -> lacks (char 10) w = true.
Proof. intros [_ Hw]. by eapply lacks_impl; [|exact Hw]. Qed.

Lemma words_lack_newline ws : Forall word ws -> lacks (char 10) (join " " ws) = true.
Proof.
  induction 1 as [|w ws Hw _ IH]; [done|]. rewrite join_cons, lacks_app, (word_lacks_newline w Hw).
  destruct ws; [done|]. by rewrite lacks_app, IH.
Qed.

Lemma words_not_empty k ws : word k -> join " " (k :: ws) <> "".
Proof. intros [Hk _] H. rewrite join_cons in H. by apply str_app_nil_inv in H as [-> _]. Qed.

(** Identifiers are words. *)
Lemma word_id id : valid_id id = true -> word id.
Proof.
  intros H. split; [by apply valid_id_not_empty|]. unfold valid_id in H. bool_props.
  eapply str_all_impl; [|done]. intros c Hc. apply negb_true_iff.
  unfold is_allowed_id_char, is_alnum, is_digit in Hc. unfold is_space.
  rewrite !orb_true_iff, !andb_true_iff, !bool_decide_eq_true, !Z.leb_le in Hc.
  apply orb_false_iff. rewrite andb_false_iff, Z.eqb_neq, !Z.leb_gt.
  destruct Hc as [[[[Hc| ->]| ->]| ->]| ->]; [lia|..]; vm_compute; (split; [discriminate|by right]).
Qed.

(** ** One line of words *)

Definition restore_words (r : Restore) (lines : list (list string)) : result Error Restore :=
  restore_lines r (join " " <$> lines).

Lemma restore_lines_app r a b :
  restore_lines r (a ++ b) = let? r := restore_lines r a in restore_lines r b.
Proof.
  revert r. induction a as [|l a IH]; intros r; [done|]. simpl. destruct (restore_line r l); [|done]. apply IH.
Qed.

Lemma restore_words_app r a b :
  restore_words r (a ++ b) = let? r := restore_words r a in restore_words r b.
Proof. unfold restore_words. by rewrite fmap_app, restore_lines_app. Qed.

Lemma restore_words_cons r ws rest r' :
  restore_line r (join " " ws) = Ok r' -> restore_words r (ws :: rest) = restore_words r' rest.
Proof. intros H. unfold restore_words. simpl. by rewrite H. Qed.

Lemma restore_words_one r ws : restore_words r [ws] = restore_line r (join " " ws).
Proof. unfold restore_words. rewrite list_fmap_singleton. cbn [restore_lines]. by destruct (restore_line _ _). Qed.

(** The body of a turn after the key has been read. *)
Lemma restore_line_key r k ws version :
  word k -> re_version r = Some version ->
  restore_line r (join " " (k :: ws)) =
  match restore_setting (re_state r) k (at_words ws) with
  | Some step => let? (s, fields) := step in line_done k fields (re_with_state s r)
  | None =>
      match restore_item version (re_state r) k (at_words ws) with
      | Some step => let? (s, fields) := step in line_done k fields (re_with_state s r)
      | None =>
          match restore_cursor version r k (at_words ws) with
          | Some step => let? (r, fields) := step in line_done k fields r
          | None => Err (bad_snapshot ("unknown line '" +:+ k +:+ "'"))
          end
      end
  end.
Proof.
  intros Hk Hv. unfold restore_line. rewrite bool_decide_eq_false_2 by (by apply words_not_empty).
  destruct (read_word_at k ws "" Hk) as [-> _]. by rewrite Hv.
Qed.

Lemma line_done_end key r : line_done key (at_words []) r = Ok r.
Proof. done. Qed.

Lemma line_done_eof key text fail r : line_done key (mkStream text true fail) r = Ok r.
Proof. unfold line_done. cbn [sm_fail sm_eof]. by rewrite andb_false_r. Qed.

(** Literal keys. *)
Ltac literal_word := split; [discriminate|reflexivity].

Ltac key_line :=
  match goal with
  | Hv : re_version ?r = Some _ |- context [restore_line ?r (join " " (?k :: ?ws))] =>
      rewrite (restore_line_key r k ws _ ltac:(literal_word) Hv);
      unfold restore_setting, restore_item, restore_cursor;
      repeat (first [rewrite (bool_decide_eq_true_2 _ eq_refl)
                    |rewrite bool_decide_eq_false_2 by discriminate]); decided
  end.

(** ** What a snapshot can hold *)

Definition id_ok (id : string) : Prop := valid_id id = true.

(** A name that the text does not confuse with an absent one. *)
Definition name_ok (id : string) : Prop := id_ok id /\ id <> "-".

Definition cue_ok (id : string) (cue : CueState) : Prop :=
  id_ok id /\ valid_tick (cs_tick cue) /\
  forall dep, cs_depends_on cue = Some dep -> name_ok dep.

Definition receipt_ok (last : Z) (id : string) (r : EventReceipt) : Prop :=
  id_ok id /\ 1 <= rc_index r <= last /\ valid_term (rc_term r) /\ u64 (rc_fingerprint r).

Record snapshot_ok (s : ChoreographyState) : Prop := {
  sn_id : forall id, s_id s = Some id -> name_ok id;
  sn_stage : forall stage, s_stage s = Some stage -> valid_stage stage;
  sn_travel : min_i32 <= s_max_travel_mm s <= max_i32;
  sn_last : u64 (s_last_applied s);
  sn_term : valid_term (s_term s);
  sn_dancers : forall id d, s_dancers s !! id = Some d -> id_ok id /\ valid_position (ds_position d);
  sn_formations : forall id f, s_formations s !! id = Some f -> id_ok id /\ Forall id_ok (fs_members f);
  sn_music : forall id c, s_music_cues s !! id = Some c -> cue_ok id c;
  sn_lighting : forall id c, s_lighting_cues s !! id = Some c -> cue_ok id c;
  sn_receipts : forall id r, s_receipts s !! id = Some r -> receipt_ok (s_last_applied s) id r;
  sn_distinct : forall i j r r', s_receipts s !! i = Some r -> s_receipts s !! j = Some r' ->
    rc_index r = rc_index r' -> i = j;
  sn_commands : forall id event, s_applied_commands s !! id = Some event -> id_ok id;
}.

(** ** Single lines *)

Lemma coordinate_i32 mm : valid_coordinate mm -> min_i32 <= mm <= max_i32.
Proof. unfold valid_coordinate, kMaxStageMm, min_i32, max_i32. lia. Qed.

Section Lines.
Context (r : Restore) (Hv : re_version r = Some "3").

Definition setup_line (words : list string) (s : ChoreographyState) : Prop :=
  restore_line r (join " " words) = Ok (re_with_state s r).

Lemma line_schema : setup_line ["schema"; print_u kCurrentSchemaVersion] (re_state r).
Proof.
  unfold setup_line. key_line. unfold read_u32_text.
  by rewrite read_unsigned_at by (unfold kCurrentSchemaVersion, max_u32; lia).
Qed.

Lemma line_created (b : bool) :
  setup_line ["created"; if b then "1" else "0"]
    (let s := re_state r in
     s_with_setup b (s_id s) (s_stage s) (s_overlap s) (s_max_travel_mm s) s).
Proof.
  unfold setup_line. change (if b then "1" else "0") with (if b then print_i 1 else print_i 0).
  replace (if b then print_i 1 else print_i 0) with (print_i (if b then 1 else 0)) by (by destruct b).
  key_line. destruct (read_i32_at (if b then 1 else 0) [] 0) as [_ ->];
    [unfold min_i32, max_i32; destruct b; lia|]. by destruct b.
Qed.

Lemma line_choreography (id : option string) : (forall x, id = Some x -> name_ok x) ->
  s_id (re_state r) = None ->
  setup_line ["choreography"; default "-" id]
    (let s := re_state r in
     s_with_setup (s_created s) id (s_stage s) (s_overlap s) (s_max_travel_mm s) s).
Proof.
  intros Hid Hnone. unfold setup_line. key_line. destruct id as [id|]; simpl default.
  - destruct (Hid id eq_refl) as [Hok Hne]. destruct (read_word_at id [] "" (word_id id Hok)) as [_ ->].
    rewrite (bool_decide_eq_false_2 _ Hne). by rewrite parse_id_valid.
  - destruct (read_word_at "-" [] "") as [_ ->]; [literal_word|].
    rewrite (bool_decide_eq_true_2 _ eq_refl), line_done_end. unfold re_with_state, s_with_setup.
    cbv beta zeta. rewrite <- Hnone. by destruct (re_state r).
Qed.

Definition stage_words (stage : option StageBounds) : list string :=
  match stage with
  | Some b => ["stage"; print_i (st_width b); print_i (st_depth b)]
  | None => ["stage"; "-"]
  end.

Lemma print_i_not_dash n : print_i n <> "-".
Proof.
  unfold print_i. destruct (Z.ltb_spec n 0) as [Hn|Hn].
  - destruct (print_u_digits (- n)) as [_ Hne]; [lia|]. intros H. injection H as H. done.
  - destruct (print_u_digits n Hn) as [Hd _]. intros E. rewrite E in Hd. by vm_compute in Hd.
Qed.

Lemma line_stage (stage : option StageBounds) : (forall b, stage = Some b -> valid_stage b) ->
  s_stage (re_state r) = None ->
  setup_line (stage_words stage)
    (let s := re_state r in
     s_with_setup (s_created s) (s_id s) stage (s_overlap s) (s_max_travel_mm s) s).
Proof.
  intros Hst Hnone. unfold setup_line. destruct stage as [b|]; unfold stage_words; key_line; unfold restore_stage.
  - pose proof (Hst b eq_refl) as Hb. destruct (stage_coordinates b Hb) as [Hw Hd].
    apply coordinate_i32 in Hw, Hd.
    destruct (read_word_at _ [print_i (st_depth b)] "" (word_print_i (st_width b))) as [_ ->].
    rewrite (bool_decide_eq_false_2 _ (print_i_not_dash _)).
    destruct (read_i32_at (st_width b) [] 0 Hw) as [Hr _]. simpl join in Hr. rewrite Hr.
    destruct (read_i32_at (st_depth b) [] 0 Hd) as [_ ->]. by rewrite stage_from_mm_valid.
  - destruct (read_word_at "-" [] "") as [_ ->]; [literal_word|].
    rewrite (bool_decide_eq_true_2 _ eq_refl), line_done_end. unfold re_with_state, s_with_setup.
    cbv beta zeta. rewrite <- Hnone. by destruct (re_state r).
Qed.

Lemma line_overlap policy :
  setup_line ["overlap"; overlap_policy_name policy]
    (let s := re_state r in
     s_with_setup (s_created s) (s_id s) (s_stage s) policy (s_max_travel_mm s) s).
Proof.
  unfold setup_line. key_line.
  destruct (read_word_at (overlap_policy_name policy) [] "") as [_ ->]; [by destruct policy|].
  by rewrite parse_overlap_policy_name.
Qed.

Lemma line_travel travel : min_i32 <= travel <= max_i32 ->
  setup_line ["max_travel"; print_i travel]
    (let s := re_state r in
     s_with_setup (s_created s) (s_id s) (s_stage s) (s_overlap s) travel s).
Proof.
  intros Ht. unfold setup_line. key_line.
  by destruct (read_i32_at travel [] (s_max_travel_mm (re_state r)) Ht) as [_ ->].
Qed.

Lemma line_last index : u64 index ->
  setup_line ["last_applied"; print_u index] (s_with_position index (s_term (re_state r)) (re_state r)).
Proof.
  intros Hi. unfold setup_line. key_line. unfold read_u64_text. by rewrite read_unsigned_at.
Qed.

Lemma line_term term : valid_term term ->
  setup_line ["term"; print_u term] (s_with_position (s_last_applied (re_state r)) term (re_state r)).
Proof.
  intros Ht. pose proof Ht as Hb. unfold valid_term in Hb. unfold setup_line. key_line. unfold read_u64_text.
  rewrite read_unsigned_at by lia. by rewrite parse_term_valid.
Qed.

Definition dancer_words (id : string) (d : DancerState) : list string :=
  ["dancer"; id; print_i (pos_x (ds_position d)); print_i (pos_y (ds_position d));
   if ds_active d then "1" else "0"].

Lemma line_dancer id d : id_ok id -> valid_position (ds_position d) ->
  setup_line (dancer_words id d)
    (s_with_dancers (<[id := d]> (s_dancers (re_state r))) (re_state r)).
Proof.
  intros Hid Hp. pose proof Hp as [Hx Hy].
  apply coordinate_i32 in Hx, Hy.
  unfold setup_line, dancer_words. key_line. unfold restore_dancer.
  destruct (read_word_at id [print_i (pos_x (ds_position d)); print_i (pos_y (ds_position d));
    if ds_active d then "1" else "0"] "" (word_id id Hid)) as [_ ->].
  destruct (read_i32_at (pos_x (ds_position d)) [print_i (pos_y (ds_position d));
    if ds_active d then "1" else "0"] 0 Hx) as [_ ->].
  destruct (read_i32_at (pos_y (ds_position d)) [if ds_active d then "1" else "0"] 0 Hy) as [_ ->].
  assert (read_i32 (at_words [if ds_active d then "1" else "0"]) 0 =
    ((if ds_active d then 1 else 0), at_words [])) as ->
    by (by destruct (ds_active d)).
  rewrite position_from_mm_valid by done. destruct d as [p []]; done.
Qed.

Lemma restore_members_words ms : forall fuel acc, Forall id_ok ms -> (length ms < fuel)%nat ->
  restore_members fuel (at_words ms) acc = Ok ((acc ++ ms)%list, mkStream "" true true).
Proof.
  induction ms as [|m ms IH]; intros fuel acc Hall Hf; destruct fuel as [|fuel]; simpl length in Hf; try lia;
    cbn [restore_members].
  - rewrite read_word_end. cbn [sm_fail]. by rewrite app_nil_r.
  - inversion Hall as [|?? Hm Hms]; subst. destruct (read_word_at m ms "" (word_id m Hm)) as [_ ->].
    assert (sm_fail (at_words ms) = false) as -> by (by destruct ms).
    rewrite parse_id_valid by done. rewrite IH by (done || lia). by rewrite <- app_assoc.
Qed.

Lemma words_length ms : Forall id_ok ms -> (length ms <= String.length (sm_text (at_words ms)))%nat.
Proof.
  induction 1 as [|m ms Hm _ IH]; [simpl; lia|].
  assert (String.length (sm_text (at_words (m :: ms))) =
    S (String.length (join " " (m :: ms)))) as -> by done.
  rewrite join_after. unfold after. simpl length.
  assert (forall a b, String.length (a +:+ b) = (String.length a + String.length b)%nat) as Happ
    by (intros a b; induction a as [|c a IHa]; [done|simpl; by rewrite IHa]).
  rewrite Happ. destruct m; [by apply valid_id_not_empty in Hm|]. simpl. lia.
Qed.

Lemma line_formation id f : id_ok id -> Forall id_ok (fs_members f) ->
  setup_line ("formation" :: id :: fs_members f)
    (s_with_formations (<[id := f]> (s_formations (re_state r))) (re_state r)).
Proof.
  intros Hid Hm. unfold setup_line. key_line. unfold restore_formation.
  destruct (read_word_at id (fs_members f) "" (word_id id Hid)) as [_ ->].
  rewrite restore_members_words by (done || (pose proof (words_length _ Hm); lia)).
  rewrite line_done_eof. by destruct f.
Qed.

Definition cue_words (key id : string) (c : CueState) : list string :=
  [key; id; print_i (cs_tick c); default "-" (cs_depends_on c)].

Lemma restore_cue_words music id c : cue_ok id c ->
  restore_cue music (re_state r) (at_words [id; print_i (cs_tick c); default "-" (cs_depends_on c)]) =
  Ok (let s := re_state r in
      if music then s_with_cues (<[id := c]> (s_music_cues s)) (s_lighting_cues s) s
      else s_with_cues (s_music_cues s) (<[id := c]> (s_lighting_cues s)) s, at_words []).
Proof.
  intros (Hid & Ht & Hd). unfold restore_cue.
  destruct (read_word_at id [print_i (cs_tick c); default "-" (cs_depends_on c)] "" (word_id id Hid)) as [_ ->].
  rewrite (read_i64_at (cs_tick c)) by (unfold valid_tick, min_i64 in *; lia).
  destruct (cs_depends_on c) as [dep|] eqn:Hc; simpl default.
  - destruct (Hd dep eq_refl) as [Hdep Hne]. destruct (read_word_at dep [] "" (word_id dep Hdep)) as [_ ->].
    rewrite from_ticks_valid by done. rewrite (bool_decide_eq_false_2 _ Hne).
    rewrite (bool_decide_eq_false_2 (dep = "")) by (by apply valid_id_not_empty).
    decided. rewrite parse_id_valid by done. destruct c as [t d]. simpl in Hc. by subst.
  - destruct (read_word_at "-" [] "") as [_ ->]; [literal_word|]. rewrite from_ticks_valid by done.
    rewrite (bool_decide_eq_true_2 _ eq_refl). decided. destruct c as [t d]. simpl in Hc. by subst.
Qed.

Lemma line_music id c : cue_ok id c ->
  setup_line (cue_words "music" id c)
    (s_with_cues (<[id := c]> (s_music_cues (re_state r))) (s_lighting_cues (re_state r)) (re_state r)).
Proof. intros Hc. unfold setup_line, cue_words. key_line. by rewrite restore_cue_words. Qed.

Lemma line_light id c : cue_ok id c ->
  setup_line (cue_words "light" id c)
    (s_with_cues (s_music_cues (re_state r)) (<[id := c]> (s_lighting_cues (re_state r))) (re_state r)).
Proof. intros Hc. unfold setup_line, cue_words. key_line. by rewrite restore_cue_words. Qed.

Lemma line_legacy id : id_ok id -> s_applied_commands (re_state r) !! id = None ->
  setup_line ["legacy"; id]
    (let s := re_state r in
     s_with_history (s_applied_events s) (<[id := id]> (s_applied_commands s)) (s_receipts s) s).
Proof.
  intros Hid Hnew. unfold setup_line. key_line. unfold restore_legacy.
  destruct (read_word_at id [] "" (word_id id Hid)) as [_ ->]. rewrite parse_id_valid, Hnew by done.
  done.
Qed.
End Lines.

(** ** Collections *)

Definition put {V} (m : gmap string V) (kv : string * V) : gmap string V := <[kv.1 := kv.2]> m.

Lemma elem_of_sorted_items {V} (m : gmap string V) k v : (k, v) ∈ sorted_items m <-> m !! k = Some v.
Proof.
  unfold sorted_items. rewrite list_elem_of_omap. split.
  - intros (k' & _ & H). apply bind_Some in H as (v' & Hm & H). by simplify_eq.
  - intros Hm. exists k. split; [apply elem_of_sorted_keys; by eexists|]. by rewrite Hm.
Qed.

Lemma sorted_items_keys {V} (m : gmap string V) : (sorted_items m).*1 = sorted_keys m.
Proof.
  unfold sorted_items.
  assert (Forall (fun k => is_Some (m !! k)) (sorted_keys m)) as Hall
    by (apply list.Forall_forall; intros k; apply elem_of_sorted_keys).
  induction Hall as [|k l [v Hv] _ IH]; [done|]. simpl. rewrite Hv. simpl. f_equal. exact IH.
Qed.

Lemma fold_put_lookup {V} (l : list (string * V)) k : forall m,
  NoDup l.*1 ->
  foldl put m l !! k = match list_to_map (M := gmap string V) l !! k with Some v => Some v | None => m !! k end.
Proof.
  induction l as [|[k0 v0] l IH]; intros m Hnd; simpl; [by rewrite lookup_empty|].
  inversion Hnd as [|?? Hk Hl]; subst. rewrite IH by done. unfold put. simpl.
  destruct (decide (k = k0)) as [-> |Hne].
  - rewrite !lookup_insert_eq. by rewrite not_elem_of_list_to_map_1.
  - by rewrite !lookup_insert_ne by done.
Qed.

(** Inserting the items of a map one by one gives the map. *)
Lemma fold_put_items {V} (l : list (string * V)) (m : gmap string V) :
  NoDup l.*1 -> (forall k v, (k, v) ∈ l <-> m !! k = Some v) -> foldl put ∅ l = m.
Proof.
  intros Hnd Hl. apply map_eq. intros k. rewrite fold_put_lookup, lookup_empty by done.
  destruct (m !! k) as [v|] eqn:Hm.
  - apply Hl in Hm. by rewrite (elem_of_list_to_map_1 l k v).
  - destruct (list_to_map l !! k) as [v|] eqn:E; [|done].
    apply elem_of_list_to_map_2, Hl in E. congruence.
Qed.

Lemma fold_sorted_items {V} (m : gmap string V) : foldl put ∅ (sorted_items m) = m.
Proof.
  apply fold_put_items; [rewrite sorted_items_keys; apply sorted_keys_NoDup|apply elem_of_sorted_items].
Qed.

Section Collection.
Context {V : Type} (words : string -> V -> list string) (get : ChoreographyState -> gmap string V)
  (set : gmap string V -> ChoreographyState -> ChoreographyState) (ok : string -> V -> Prop).
Context (set_set : forall m m' s, set m' (set m s) = set m' s)
  (get_set : forall m s, get (set m s) = m) (set_get : forall s, set (get s) s = s).
Context (line : forall r k v, re_version r = Some "3" -> ok k v ->
  restore_line r (join " " (words k v)) =
  Ok (re_with_state (set (<[k := v]> (get (re_state r))) (re_state r)) r)).

Lemma restore_collection l : forall r, re_version r = Some "3" ->
  (forall k v, (k, v) ∈ l -> ok k v) ->
  restore_words r ((fun kv => words kv.1 kv.2) <$> l) =
  Ok (re_with_state (set (foldl put (get (re_state r)) l) (re_state r)) r).
Proof.
  induction l as [|[k v] l IH]; intros r Hv Hall.
  - simpl. rewrite set_get. by destruct r.
  - rewrite fmap_cons. rewrite (restore_words_cons _ _ _ _ (line r k v Hv (Hall k v (list_elem_of_here _ _)))).
    rewrite IH; [|done|intros k' v' Hin; apply Hall; by constructor]. simpl.
    unfold re_with_state. cbn [re_state re_version re_index re_term]. by rewrite get_set, set_set.
Qed.

(** A whole map, read into an empty one. *)
Lemma restore_map m r : re_version r = Some "3" -> get (re_state r) = ∅ ->
  (forall k v, m !! k = Some v -> ok k v) ->
  restore_words r ((fun kv => words kv.1 kv.2) <$> sorted_items m) =
  Ok (re_with_state (set m (re_state r)) r).
Proof.
  intros Hv He Hall. rewrite restore_collection; [by rewrite He, fold_sorted_items|done|].
  intros k v Hin. apply Hall. by apply elem_of_sorted_items.
Qed.
End Collection.

(** ** Receipts *)

Fixpoint receipts_words (cursor active_term : Z) (ordered : list (string * EventReceipt))
    : list (list string) :=
  match ordered with
  | [] => []
  | (id, receipt) :: rest =>
      (if negb (rc_index receipt =? wrap64 (cursor + 1))
       then [["at"; print_u (wrap64 (rc_index receipt - 1))]] else []) ++
      (if negb (rc_term receipt =? active_term)
       then [["receipt-term"; print_u (rc_term receipt)]] else []) ++
      ["r"; id; encode_fingerprint (rc_fingerprint receipt)] ::
      receipts_words (rc_index receipt) (rc_term receipt) rest
  end.

Definition self_named {V} (kv : string * V) : string * string := (kv.1, kv.1).

Lemma encode_fingerprint_word v : word (encode_fingerprint v).
Proof.
  unfold encode_fingerprint. split.
  - intros E. pose proof (encode_digits_length 11 v "") as H. rewrite E in H. done.
  - assert (forall n w text, str_all (fun c => negb (is_space c)) text = true ->
      str_all (fun c => negb (is_space c)) (encode_digits n w text) = true) as H.
    { intros n. induction n as [|n IH]; intros w text Ht; [done|]. cbn [encode_digits]. apply IH.
      cbn [str_all]. rewrite Ht, andb_true_r.
      assert (forall d, 0 <= d < 64 -> negb (is_space (base64_char d)) = true) as Hd.
      { intros d Hd. assert (Forall (fun k : nat => negb (is_space (base64_char (Z.of_nat k))) = true)
          (seq 0 64)) as Hall by (apply (bool_decide_unpack _); vm_compute; exact I).
        rewrite list.Forall_forall in Hall. specialize (Hall (Z.to_nat d)).
        rewrite Z2Nat.id in Hall by lia. apply Hall, elem_of_seq. lia. }
      apply Hd. rewrite land63. apply Z.mod_pos_bound. lia. }
    by apply H.
Qed.

(** Reading one receipt, its cursor line and its term line included. *)
Lemma restore_one_receipt r id receipt :
  re_version r = Some "3" -> receipt_ok (s_last_applied (re_state r)) id receipt ->
  u64 (s_last_applied (re_state r)) ->
  0 <= re_index r < rc_index receipt -> s_receipts (re_state r) !! id = None ->
  restore_words r
    ((if negb (rc_index receipt =? wrap64 (re_index r + 1))
      then [["at"; print_u (wrap64 (rc_index receipt - 1))]] else []) ++
     (if negb (rc_term receipt =? re_term r)
      then [["receipt-term"; print_u (rc_term receipt)]] else []) ++
     [["r"; id; encode_fingerprint (rc_fingerprint receipt)]]) =
  Ok (let s := re_state r in
      mkRestore (s_with_history (s_applied_events s) (<[id := id]> (s_applied_commands s))
                   (<[id := receipt]> (s_receipts s)) s) (Some "3") (rc_index receipt) (rc_term receipt)).
Proof.
  intros Hv (Hid & Hi & Ht & Hf) Hlast Hcur Hnew. unfold u64 in Hlast, Hf. unfold valid_term in Ht.
  rewrite restore_words_app.
  assert (restore_words r (if negb (rc_index receipt =? wrap64 (re_index r + 1))
    then [["at"; print_u (wrap64 (rc_index receipt - 1))]] else []) =
    Ok (mkRestore (re_state r) (Some "3") (rc_index receipt - 1) (re_term r))) as ->.
  { rewrite !wrap64_small by (unfold u64; lia).
    destruct (Z.eqb_spec (rc_index receipt) (re_index r + 1)) as [E|E]; simpl negb; cbv iota.
    - replace (rc_index receipt - 1) with (re_index r) by lia. rewrite <- Hv. by destruct r.
    - rewrite restore_words_one. key_line. unfold restore_at, read_u64_text.
      rewrite read_unsigned_at by lia. cbn [sm_fail at_words].
      destruct (Z.leb_spec (rc_index receipt - 1) (re_index r)); [lia|].
      destruct (Z.leb_spec (s_last_applied (re_state r)) (rc_index receipt - 1)); [lia|].
      decided. by rewrite Hv. }
  rewrite restore_words_app. set (r1 := mkRestore _ _ _ _).
  assert (re_version r1 = Some "3") as Hv1 by done.
  assert (restore_words r1 (if negb (rc_term receipt =? re_term r)
    then [["receipt-term"; print_u (rc_term receipt)]] else []) =
    Ok (mkRestore (re_state r) (Some "3") (rc_index receipt - 1) (rc_term receipt))) as ->.
  { destruct (Z.eqb_spec (rc_term receipt) (re_term r)) as [E|E]; simpl negb; cbv iota.
    - by rewrite E.
    - rewrite restore_words_one. key_line.
      unfold restore_receipt_term, read_u64_text. rewrite read_unsigned_at by lia. cbn [sm_fail at_words].
      destruct (Z.eqb_spec (rc_term receipt) 0); [lia|]. by decided. }
  set (r2 := mkRestore _ _ _ (rc_term receipt)). assert (re_version r2 = Some "3") as Hv2 by done.
  rewrite restore_words_one. key_line. unfold restore_receipt.
  destruct (read_word_at id [encode_fingerprint (rc_fingerprint receipt)] "" (word_id id Hid)) as [_ ->].
  destruct (read_word_at _ [] "" (encode_fingerprint_word (rc_fingerprint receipt))) as [_ ->].
  rewrite parse_id_valid by done. rewrite fingerprint_roundtrip by done.
  cbn [r2 re_state re_index re_term re_version]. rewrite Hnew.
  destruct (Z.leb_spec (s_last_applied (re_state r)) (rc_index receipt - 1)); [lia|]. decided.
  rewrite wrap64_small by (unfold u64; lia). replace (rc_index receipt - 1 + 1) with (rc_index receipt) by lia.
  destruct receipt. done.
Qed.

Definition index_lt (a b : string * EventReceipt) : Prop := rc_index a.2 < rc_index b.2.

Lemma restore_receipts ordered : forall r,
  re_version r = Some "3" -> u64 (s_last_applied (re_state r)) -> 0 <= re_index r ->
  Forall (fun kv => receipt_ok (s_last_applied (re_state r)) kv.1 kv.2) ordered ->
  Forall (fun kv => re_index r < rc_index kv.2) ordered -> StronglySorted index_lt ordered ->
  NoDup ordered.*1 -> Forall (fun kv => s_receipts (re_state r) !! kv.1 = None) ordered ->
  exists index term, restore_words r (receipts_words (re_index r) (re_term r) ordered) =
  Ok (let s := re_state r in
      mkRestore (s_with_history (s_applied_events s) (foldl put (s_applied_commands s) (self_named <$> ordered))
                   (foldl put (s_receipts s) ordered) s) (Some "3") index term).
Proof.
  induction ordered as [|[id rc] l IH]; intros r Hv Hu Hi Hok Hlt Hs Hnd Hnew.
  - exists (re_index r), (re_term r). simpl. unfold restore_words. simpl. rewrite <- Hv.
    destruct r as [s ? ? ?]. by destruct s.
  - apply list.Forall_cons in Hok as [Hok1 Hok], Hlt as [Hlt1 Hlt], Hnew as [Hnew1 Hnew].
    apply list.NoDup_cons in Hnd as [Hnd1 Hnd]. inversion Hs as [|?? Hs' Hhd]; subst.
    cbn [receipts_words fst snd] in *.
    assert (forall (A B : list (list string)) x rest, (A ++ B ++ x :: rest = (A ++ B ++ [x]) ++ rest)%list)
      as Hsplit by (intros A B x rest; by rewrite <- !app_assoc).
    rewrite Hsplit, restore_words_app, restore_one_receipt by (done || lia).
    cbv beta zeta. set (r' := mkRestore _ _ _ _).
    destruct (IH r') as (index & term & IHr); unfold r'; cbn [re_version re_state re_index re_term]; try done.
    + pose proof Hok1 as (_ & Hx & _). lia.
    + apply list.Forall_forall. intros [k v] Hin. pose proof (proj1 (list.Forall_forall _ _) Hnew _ Hin) as Hk.
      cbn [fst s_receipts s_with_history] in *. rewrite lookup_insert_ne; [exact Hk|]. intros <-.
      apply Hnd1. change id with (id, v).1. by apply list_elem_of_fmap_2.
    + exists index, term. fold r'. exact IHr.
Qed.

(** Sorting receipts with different indexes sorts them strictly. *)
Lemma strictly_sorted l : StronglySorted receipt_before l ->
  NoDup l -> (forall a b, a ∈ l -> b ∈ l -> rc_index a.2 = rc_index b.2 -> a = b) ->
  StronglySorted index_lt l.
Proof.
  induction 1 as [|x l Hs IH Hall]; intros Hnd Hinj; constructor.
  - apply IH; [by inversion Hnd|]. intros a b Ha Hb. apply Hinj; by constructor.
  - apply list.Forall_forall. intros y Hy. rewrite list.Forall_forall in Hall. specialize (Hall y Hy).
    unfold receipt_before in Hall. unfold index_lt.
    destruct (decide (rc_index x.2 = rc_index y.2)) as [E|E]; [|lia]. exfalso.
    inversion Hnd as [|?? Hx _]; subst. apply Hx.
    rewrite (Hinj x y); [done|constructor|by constructor|done].
Qed.

#[export] Instance receipt_before_total : Total receipt_before.
Proof. intros a b. unfold receipt_before. lia. Qed.

#[export] Instance receipt_before_trans : Transitive receipt_before.
Proof. intros a b c. unfold receipt_before. lia. Qed.

Lemma ordered_permutation s : ordered_receipts s ≡ₚ sorted_items (s_receipts s).
Proof. apply merge_sort_Permutation. Qed.

Lemma elem_of_ordered s k v : (k, v) ∈ ordered_receipts s <-> s_receipts s !! k = Some v.
Proof. rewrite ordered_permutation. apply elem_of_sorted_items. Qed.

Lemma ordered_NoDup s : NoDup (ordered_receipts s).*1.
Proof. rewrite ordered_permutation, sorted_items_keys. apply sorted_keys_NoDup. Qed.

Lemma ordered_strict s : snapshot_ok s -> StronglySorted index_lt (ordered_receipts s).
Proof.
  intros Hs. apply strictly_sorted; [apply StronglySorted_merge_sort; apply _| |].
  - eapply NoDup_fmap_1, ordered_NoDup.
  - intros [k v] [k' v'] H1%elem_of_ordered H2%elem_of_ordered E.
    pose proof (sn_distinct s Hs k k' v v' H1 H2 E). subst k'. f_equal. congruence.
Qed.

(** ** Legacy commands *)

Definition legacy_items (s : ChoreographyState) : list (string * string) :=
  filter (fun kv => is_legacy s kv = true) (sorted_items (s_applied_commands s)).

Lemma restore_legacies l : forall r, re_version r = Some "3" ->
  Forall (fun kv => id_ok kv.1) l -> NoDup l.*1 ->
  Forall (fun kv => s_applied_commands (re_state r) !! kv.1 = None) l ->
  restore_words r ((fun kv : string * string => ["legacy"; kv.1]) <$> l) =
  Ok (let s := re_state r in
      re_with_state (s_with_history (s_applied_events s)
        (foldl put (s_applied_commands s) (self_named <$> l)) (s_receipts s) s) r).
Proof.
  induction l as [|[id e] l IH]; intros r Hv Hok Hnd Hnew.
  - simpl. unfold restore_words. simpl. destruct r as [s ? ? ?]. by destruct s.
  - apply list.Forall_cons in Hok as [Hok1 Hok], Hnew as [Hnew1 Hnew]. apply list.NoDup_cons in Hnd as [Hnd1 Hnd].
    rewrite fmap_cons. rewrite (restore_words_cons _ _ _ _ (line_legacy r Hv id Hok1 Hnew1)).
    cbv zeta. rewrite IH; [done|done|done|done|].
    apply list.Forall_forall. intros [k v] Hin. pose proof (proj1 (list.Forall_forall _ _) Hnew _ Hin) as Hk.
    cbn [fst s_applied_commands s_with_history re_with_state re_state] in *.
    rewrite lookup_insert_ne; [exact Hk|]. intros <-. apply Hnd1.
    change id with (id, v).1. by apply list_elem_of_fmap_2.
Qed.

(** ** The whole text *)

Definition setting_words (s : ChoreographyState) : list (list string) :=
  [["schema"; print_u kCurrentSchemaVersion];
   ["created"; if s_created s then "1" else "0"];
   ["choreography"; default "-" (s_id s)];
   stage_words (s_stage s);
   ["overlap"; overlap_policy_name (s_overlap s)];
   ["max_travel"; print_i (s_max_travel_mm s)];
   ["last_applied"; print_u (s_last_applied s)];
   ["term"; print_u (s_term s)]].

Definition snapshot_words (s : ChoreographyState) : list (list string) :=
  ["snapshot-state"; "3"] :: setting_words s ++
  ((fun kv => dancer_words kv.1 kv.2) <$> sorted_items (s_dancers s)) ++
  ((fun kv => "formation" :: kv.1 :: fs_members kv.2) <$> sorted_items (s_formations s)) ++
  ((fun kv => cue_words "music" kv.1 kv.2) <$> sorted_items (s_music_cues s)) ++
  ((fun kv => cue_words "light" kv.1 kv.2) <$> sorted_items (s_lighting_cues s)) ++
  receipts_words 0 1 (ordered_receipts s) ++
  ((fun kv : string * string => ["legacy"; kv.1]) <$> legacy_items s).

Lemma lines_of_words {V} (m : gmap string V) line words :
  (forall k v, line k v = join " " (words k v)) ->
  lines_of m line = text_of (join " " <$> ((fun kv => words kv.1 kv.2) <$> sorted_items m)).
Proof.
  intros Hl. unfold lines_of, text_of. induction (sorted_items m) as [|[k v] l IH]; [done|].
  rewrite !fmap_cons. cbn [foldr fst snd]. rewrite IH, Hl. unfold text_line. by rewrite <- str_app_assoc.
Qed.

Lemma receipts_text_words ordered : forall cursor term,
  receipts_text cursor term ordered = text_of (join " " <$> receipts_words cursor term ordered).
Proof.
  induction ordered as [|[id rc] l IH]; intros cursor term; [done|].
  cbn [receipts_text receipts_words]. rewrite !fmap_app, fmap_cons, !text_of_app, IH. f_equal.
  - case_goal; [|done]. simpl. by rewrite str_app_nil_r.
  - f_equal. case_goal; [|done]. simpl. by rewrite str_app_nil_r.
Qed.

Lemma legacy_text_words s :
  legacy_text s = text_of (join " " <$> ((fun kv : string * string => ["legacy"; kv.1]) <$> legacy_items s)).
Proof.
  unfold legacy_text, legacy_items. induction (sorted_items (s_applied_commands s)) as [|kv l IH]; [done|].
  rewrite filter_cons. cbn [foldr]. rewrite IH. destruct (is_legacy s kv) eqn:E.
  - by rewrite decide_True.
  - by rewrite decide_False.
Qed.

Lemma members_text ms : foldr (fun m text => " " +:+ m +:+ text) "" ms = after ms.
Proof.
  induction ms as [|m ms IH]; [done|]. cbn [foldr]. rewrite IH.
  change (after (m :: ms)) with (" " +:+ join " " (m :: ms)). by rewrite join_after.
Qed.

Lemma payload_words s : snapshot_payload s = text_of (join " " <$> snapshot_words s).
Proof.
  unfold snapshot_payload, snapshot_words, setting_words.
  rewrite receipts_text_words, legacy_text_words.
  rewrite (lines_of_words (s_dancers s) _ dancer_words) by done.
  rewrite (lines_of_words (s_formations s) _ (fun id f => "formation" :: id :: fs_members f)).
  2: { intros k v. rewrite members_text, (join_after "formation").
       change (after (k :: fs_members v)) with (" " +:+ join " " (k :: fs_members v)).
       by rewrite join_after. }
  rewrite (lines_of_words (s_music_cues s) _ (cue_words "music")) by done.
  rewrite (lines_of_words (s_lighting_cues s) _ (cue_words "light")) by done.
  rewrite !fmap_cons, !fmap_app, !fmap_cons, !text_of_cons, !text_of_app, !text_of_cons, <- !str_app_assoc.
  by destruct (s_stage s).
Qed.

(** Every line is made of words. *)
Lemma words_of_items {V} (m : gmap string V) (words : string -> V -> list string) :
  (forall k v, m !! k = Some v -> Forall word (words k v)) ->
  Forall (Forall word) ((fun kv => words kv.1 kv.2) <$> sorted_items m).
Proof.
  intros Hw. apply Forall_fmap, list.Forall_forall. intros [k v] Hin. by apply Hw, elem_of_sorted_items.
Qed.

Lemma default_word id : (forall x, id = Some x -> name_ok x) -> word (default "-" id).
Proof. intros H. destruct id as [x|]; simpl; [apply word_id, H; done|literal_word]. Qed.

(** Lists of words, word by word. *)
Ltac all_words :=
  repeat first [apply list.Forall_nil_2 | apply list.Forall_cons_2];
  try first [literal_word | apply word_print_i | apply word_print_u; lia | by apply word_id
            | apply encode_fingerprint_word | by apply default_word].

Lemma cue_words_ok key id c : word key -> cue_ok id c -> Forall word (cue_words key id c).
Proof. intros Hk (Hid & _ & Hd). unfold cue_words. all_words. done. Qed.

Lemma receipts_words_ok ordered last : forall cursor term,
  0 <= last <= max_u64 -> Forall (fun kv => receipt_ok last kv.1 kv.2) ordered ->
  Forall (Forall word) (receipts_words cursor term ordered).
Proof.
  induction ordered as [|[id rc] l IH]; intros cursor term Hl Hall; cbn [receipts_words]; [constructor|].
  apply list.Forall_cons in Hall as [(Hid & Hi & Ht & _) Hall]. cbn [fst snd] in *. unfold valid_term in Ht.
  assert (0 <= wrap64 (rc_index rc - 1)) by (rewrite wrap64_small; unfold u64; lia).
  repeat apply list.Forall_app_2; [case_goal; all_words..|]. apply list.Forall_cons_2; [all_words|by apply IH].
Qed.

Lemma snapshot_words_ok s : snapshot_ok s -> Forall (Forall word) (snapshot_words s).
Proof.
  intros Hs. pose proof (sn_last s Hs) as Hl. pose proof (sn_term s Hs) as Ht. unfold u64 in Hl.
  unfold valid_term in Ht. pose proof (sn_id s Hs) as Hid. unfold snapshot_words.
  apply list.Forall_cons_2; [all_words|]. repeat apply list.Forall_app_2.
  - unfold setting_words. repeat (apply list.Forall_cons_2; [|]); [..|constructor]; try all_words.
    + by destruct (s_created s).
    + destruct (s_stage s); unfold stage_words; all_words.
    + by destruct (s_overlap s).
  - apply (words_of_items _ dancer_words). intros k v Hk. destruct (sn_dancers s Hs k v Hk) as [Hk' _].
    unfold dancer_words. all_words. by destruct (ds_active v).
  - apply (words_of_items _ (fun k v => "formation" :: k :: fs_members v)). intros k v Hk.
    destruct (sn_formations s Hs k v Hk) as [Hk' Hm]. apply list.Forall_cons_2; [literal_word|].
    apply list.Forall_cons_2; [by apply word_id|]. eapply list.Forall_impl; [exact Hm|]. intros x. apply word_id.
  - apply (words_of_items _ (cue_words "music")). intros k v Hk.
    apply cue_words_ok; [literal_word|by apply (sn_music s Hs)].
  - apply (words_of_items _ (cue_words "light")). intros k v Hk.
    apply cue_words_ok; [literal_word|by apply (sn_lighting s Hs)].
  - apply (receipts_words_ok _ (s_last_applied s)); [done|]. apply list.Forall_forall.
    intros [k v] Hin. by apply (sn_receipts s Hs), elem_of_ordered.
  - apply Forall_fmap, list.Forall_forall. intros [k v] Hin. unfold legacy_items in Hin.
    apply list_elem_of_filter in Hin as [_ Hin]. apply elem_of_sorted_items in Hin.
    pose proof (sn_commands s Hs k v Hin). simpl. all_words.
Qed.

(** ** Restoring *)

(** What a snapshot keeps of a state: everything but the event bodies, and of
    the command table the commands a client sent, each named by itself. *)
Definition compact_commands (s : ChoreographyState) : gmap string string :=
  map_imap (fun k _ => Some k) (s_receipts s) ∪
  map_imap (fun k _ => Some k) (filter (fun kv => is_legacy s kv = true) (s_applied_commands s)).

Definition compact_state (s : ChoreographyState) : ChoreographyState :=
  s_with_history ∅ (compact_commands s) (s_receipts s) s.

Lemma restore_settings s version :
  snapshot_ok s -> version = Some "3" ->
  restore_words (mkRestore empty_state version 0 1) (setting_words s) =
  Ok (mkRestore (mkState (s_created s) (s_id s) (s_stage s) (s_overlap s) (s_max_travel_mm s)
        (s_last_applied s) (s_term s) ∅ ∅ ∅ ∅ ∅ ∅ ∅) version 0 1).
Proof.
  intros Hs Hv. unfold setting_words.
  rewrite (restore_words_cons _ _ _ _ (line_schema (mkRestore empty_state version 0 1) Hv)).
  do 7 (erewrite restore_words_cons;
    [|first [apply line_created | apply line_choreography | apply line_stage | apply line_overlap
            | apply line_travel | apply line_last | apply line_term]; try done; by apply Hs]).
  done.
Qed.

Lemma self_named_keys {V} (l : list (string * V)) : (self_named <$> l).*1 = l.*1.
Proof. rewrite <- list_fmap_compose. done. Qed.

Lemma self_named_lookup {V} (l : list (string * V)) (k : string) :
  NoDup l.*1 ->
  list_to_map (M := gmap string string) (self_named <$> l) !! k =
  if decide (k ∈ l.*1) then Some k else None.
Proof.
  intros Hnd. destruct (decide (k ∈ l.*1)) as [Hin|Hin].
  - apply elem_of_list_to_map_1; [by rewrite self_named_keys|].
    apply list_elem_of_fmap in Hin as (kv & -> & Hin). apply list_elem_of_fmap. by exists kv.
  - apply not_elem_of_list_to_map_1. by rewrite self_named_keys.
Qed.

Lemma elem_of_keys {V} (l : list (string * V)) (m : gmap string V) k :
  (forall k v, (k, v) ∈ l <-> m !! k = Some v) -> k ∈ l.*1 <-> is_Some (m !! k).
Proof.
  intros Hl. rewrite list_elem_of_fmap. split.
  - intros ([k' v] & -> & Hin). exists v. by apply Hl.
  - intros [v Hv]. exists (k, v). split; [done|]. by apply Hl.
Qed.

Lemma elem_of_legacy s k v :
  (k, v) ∈ legacy_items s <-> filter (fun kv => is_legacy s kv = true) (s_applied_commands s) !! k = Some v.
Proof.
  unfold legacy_items. rewrite list_elem_of_filter, elem_of_sorted_items, map_lookup_filter_Some. tauto.
Qed.

Lemma legacy_NoDup s : NoDup (legacy_items s).*1.
Proof.
  unfold legacy_items. eapply sublist_NoDup; [apply (sorted_keys_NoDup (s_applied_commands s))|].
  rewrite <- sorted_items_keys. apply fmap_sublist, sublist_filter.
Qed.

Lemma restored_commands s :
  foldl put (foldl put ∅ (self_named <$> ordered_receipts s)) (self_named <$> legacy_items s) =
  compact_commands s.
Proof.
  apply map_eq. intros k. pose proof (ordered_NoDup s) as H1. pose proof (legacy_NoDup s) as H2.
  rewrite fold_put_lookup by (by rewrite self_named_keys).
  rewrite fold_put_lookup by (by rewrite self_named_keys).
  rewrite !self_named_lookup, lookup_empty by done. unfold compact_commands.
  rewrite lookup_union, !map_lookup_imap.
  pose proof (elem_of_keys _ _ k (elem_of_ordered s)) as K1.
  pose proof (elem_of_keys _ _ k (elem_of_legacy s)) as K2.
  destruct (decide (k ∈ (legacy_items s).*1)) as [Hin|Hin].
  - apply K2 in Hin as Hl. destruct Hl as [v Hv]. rewrite Hv. simpl.
    by destruct (s_receipts s !! k).
  - destruct (decide (k ∈ (ordered_receipts s).*1)) as [Hin'|Hin'].
    + apply K1 in Hin' as [v Hv]. rewrite Hv. simpl. by destruct (_ ≫= _).
    + rewrite K1 in Hin'. rewrite K2 in Hin. apply eq_None_not_Some in Hin, Hin'. by rewrite Hin, Hin'.
Qed.

Lemma restore_snapshot s : snapshot_ok s -> restore_state (snapshot_payload s) = Ok (compact_state s).
Proof.
  intros Hs. unfold restore_state. rewrite payload_words, split_text.
  2: { apply Forall_fmap. eapply list.Forall_impl; [by apply snapshot_words_ok|].
       intros ws. apply words_lack_newline. }
  change (restore_lines ?r (join " " <$> ?l)) with (restore_words r l). unfold snapshot_words.
  assert (restore_line (mkRestore empty_state None 0 1) (join " " ["snapshot-state"; "3"]) =
    Ok (mkRestore empty_state (Some "3") 0 1)) as Hhead by (vm_compute; reflexivity).
  rewrite (restore_words_cons _ _ _ _ Hhead), restore_words_app, restore_settings by done.
  rewrite restore_words_app, (restore_map dancer_words s_dancers s_with_dancers
    (fun id d => id_ok id /\ valid_position (ds_position d))); try done;
    [|by intros []|intros r k v Hv [H1 H2]; by apply line_dancer|apply (sn_dancers s Hs)].
  rewrite restore_words_app, (restore_map (fun id f => "formation" :: id :: fs_members f) s_formations
    s_with_formations (fun id f => id_ok id /\ Forall id_ok (fs_members f))); try done;
    [|by intros []|intros r k v Hv [H1 H2]; by apply line_formation|apply (sn_formations s Hs)].
  rewrite restore_words_app, (restore_map (cue_words "music") s_music_cues
    (fun m st => s_with_cues m (s_lighting_cues st) st) cue_ok); try done;
    [|by intros []|intros r k v Hv Hc; by apply line_music|apply (sn_music s Hs)].
  rewrite restore_words_app, (restore_map (cue_words "light") s_lighting_cues
    (fun m st => s_with_cues (s_music_cues st) m st) cue_ok); try done;
    [|by intros []|intros r k v Hv Hc; by apply line_light|apply (sn_lighting s Hs)].
  set (r := re_with_state _ _). change 0 with (re_index r) at 1. change 1 with (re_term r) at 1.
  rewrite restore_words_app. destruct (restore_receipts (ordered_receipts s) r) as (index & term & ->);
    try done.
  - apply (sn_last s Hs).
  - apply list.Forall_forall. intros [k v] Hin. by apply (sn_receipts s Hs), elem_of_ordered.
  - apply list.Forall_forall. intros [k v] Hin. apply elem_of_ordered, (sn_receipts s Hs) in Hin as (_ & Hi & _).
    simpl. lia.
  - by apply ordered_strict.
  - apply ordered_NoDup.
  - apply list.Forall_forall. intros [k v] _. apply lookup_empty.
  - rewrite restore_legacies; [|done|..].
    + cbn [re_version re_with_state re_state]. unfold r. cbn. f_equal. unfold compact_state, s_with_history.
      rewrite restored_commands. f_equal.
      apply fold_put_items; [apply ordered_NoDup|apply elem_of_ordered].
    + apply list.Forall_forall. intros [k v] Hin. apply elem_of_legacy, map_lookup_filter_Some in Hin as [Hin _].
      by apply (sn_commands s Hs k v).
    + apply legacy_NoDup.
    + apply list.Forall_forall. intros [k v] Hin.
      apply elem_of_legacy, map_lookup_filter_Some in Hin as [_ Hin].
      cbn [re_state s_applied_commands s_with_history fst].
      rewrite fold_put_lookup by (rewrite self_named_keys; apply ordered_NoDup).
      rewrite self_named_lookup by apply ordered_NoDup. rewrite decide_False; [apply lookup_empty|].
      rewrite (elem_of_keys _ _ k (elem_of_ordered s)). unfold is_legacy in Hin. simpl in Hin. bool_props.
      by destruct (s_receipts s !! k); [|intros []].
Qed.
