(* ===== verification/SnapshotThms.v ===== *)
(** * Snapshots instead of history

    Every state the machine builds can be written as a snapshot; what is read
    back answers as the original does, and replaying the rest of the log on it
    gives what replaying the whole log gives. *)

From S2P Require Import Prelude Text Stream Types Model EventCodec EventCodecThms Machine MachineInv MachineThms EngineThms CommitThms SnapshotTextThms SnapshotText.

(** ** States the machine builds *)

(** The names an event may introduce: the text writes an absent choreography
    or dependency as a dash. *)
Definition no_dash (payload : Payload) : Prop :=
  match payload with
  | PCreate id _ _ _ => id <> "-"
  | PCue _ (Some dep) => dep <> "-"
  | _ => True
  end.

Definition good_event (e : Event) : Prop :=
  event_ok e /\ 1 <= ev_index e /\ no_dash (ev_payload e).

(** Recorded bodies are events at or below the applied index. *)
Definition history_ok (s : ChoreographyState) : Prop :=
  forall id text, s_applied_events s !! id = Some text ->
    exists e, event_ok e /\ text = canonical_event e /\ ev_index e <= s_last_applied s.

Record machine_ok (s : ChoreographyState) : Prop := {
  mo_state : state_ok s;
  mo_snapshot : snapshot_ok s;
  mo_history : history_ok s;
}.

Lemma event_payload_ok e : event_ok e -> payload_ok (ev_payload e).
Proof.
  intros (_ & _ & _ & Hc & _ & _ & _ & H). destruct (ev_type e); try apply H.
  rewrite H. split; [done|]. split; [|done]. by vm_compute.
Qed.

Lemma canonical_event_inj e e' :
  event_ok e -> event_ok e' -> canonical_event e = canonical_event e' -> e = e'.
Proof.
  intros H1%parse_event_canonical H2%parse_event_canonical E. rewrite E in H1. congruence.
Qed.

Lemma fingerprint_u64 text : forall hash, u64 hash -> u64 (fnv1a text hash).
Proof. induction text as [|c text IH]; intros hash Hh; [done|]. cbn [fnv1a]. apply IH, wrap64_u64. Qed.

Lemma receipt_fingerprint_u64 e : u64 (rc_fingerprint (receipt_from_event e)).
Proof.
  unfold receipt_from_event. cbn [rc_fingerprint]. destruct (command_from_event e).
  - apply fingerprint_u64. unfold u64, kFnvOffset, max_u64. lia.
  - unfold u64, max_u64. lia.
Qed.

(** The collections after one event. *)
Lemma insert_all {V} (P : string -> V -> Prop) (m : gmap string V) k v :
  (forall k v, m !! k = Some v -> P k v) -> P k v ->
  forall k' v', <[k := v]> m !! k' = Some v' -> P k' v'.
Proof. intros Hm Hk k' v' H. apply lookup_insert_Some in H as [[<- <-]|[_ H]]; auto. Qed.

(** What the domain part of a snapshot needs. *)
Record snapshot_domain_ok (s : ChoreographyState) : Prop := {
  sd_id : forall id, s_id s = Some id -> name_ok id;
  sd_stage : forall stage, s_stage s = Some stage -> valid_stage stage;
  sd_travel : min_i32 <= s_max_travel_mm s <= max_i32;
  sd_dancers : forall id d, s_dancers s !! id = Some d -> id_ok id /\ valid_position (ds_position d);
  sd_formations : forall id f, s_formations s !! id = Some f -> id_ok id /\ Forall id_ok (fs_members f);
  sd_music : forall id c, s_music_cues s !! id = Some c -> cue_ok id c;
  sd_lighting : forall id c, s_lighting_cues s !! id = Some c -> cue_ok id c;
}.

Lemma snapshot_domain s : snapshot_ok s -> snapshot_domain_ok s.
Proof. by intros []. Qed.

Lemma domain_step_snapshot s e t :
  snapshot_domain_ok s -> good_event e -> domain_step s e t -> snapshot_domain_ok t.
Proof.
  intros [H1 H2 H3 H4 H5 H6 H7] (He & _ & Hd) Hstep.
  pose proof (event_payload_ok e He) as Hp. destruct He as (_ & _ & _ & _ & Ht & _).
  destruct Hstep as [id stage ov tr Hty Hpl _ Hx|id p _ Hpl _ _ _ _|id p _ Hpl _ Hold|id p q _ Hpl _ Hold _ _ _
    |id ms Hpl _ _ _ _|music id dep _ Hpl _ _ _|_]; try rewrite Hpl in Hp, Hd; cbn [payload_ok no_dash] in Hp, Hd.
  - destruct Hp as (P1 & P2 & P3). split; cbn; try done; [intros ? [= <-]; by split|by intros ? [= <-]].
  - destruct Hp as [P1 P2]. split; cbn; try done. by apply insert_all.
  - split; cbn; try done. apply insert_all; [done|]. by apply H4 in Hold.
  - destruct Hp as [P1 P2]. split; cbn; try done. by apply insert_all.
  - destruct Hp as [P1 P2]. split; cbn; try done. apply insert_all; [done|]. split; [done|]. simpl.
    apply list.Forall_forall. intros m Hm. apply (proj1 (elem_of_unique_sorted ms m)) in Hm.
    exact (proj1 (list.Forall_forall _ _) P2 m Hm).
  - assert (cue_ok id (mkCueState (ev_tick e) dep)) as Hc.
    { destruct Hp as [P1 P2]. split; [done|]. split; [done|]. simpl. intros d ->. by split. }
    destruct music; split; cbn; try done; by apply insert_all.
  - by split.
Qed.

Lemma index_grows s e rule : u64 (s_last_applied s) -> 1 <= ev_index e -> index_ok s e rule ->
  s_last_applied s < ev_index e.
Proof.
  intros Hs Hi Hr. destruct rule; [|done]. simpl in Hr. unfold index_next, wrap64 in Hr.
  unfold u64, max_u64 in Hs. destruct (decide (s_last_applied s = 18446744073709551615)) as [E|E].
  - rewrite E in Hr. change ((18446744073709551615 + 1) mod 18446744073709551616) with 0 in Hr. lia.
  - rewrite Z.mod_small in Hr by lia. lia.
Qed.

Lemma published_ok s e c rule :
  machine_ok s -> good_event e -> existing_event s e = Ok false -> index_ok s e rule ->
  apply_domain (domain_copy s) e = Ok c -> machine_ok (published s e c).
Proof.
  intros [M1 M2 M3] Hg Hex Hi Hc. pose proof Hg as (He & Hpos & _).
  pose proof (index_grows s e rule (sn_last s M2) Hpos Hi) as Hlt.
  assert (state_ok (domain_copy s)) as Hcopy by (eapply state_ok_domain; [apply same_domain_copy|done]).
  assert (domain_step (domain_copy s) e c) as Hstep
    by (apply apply_domain_refines; [done|by apply event_payload_ok|done]).
  assert (snapshot_domain_ok (domain_copy s)) as Hdom by (destruct M2; by split).
  pose proof (domain_step_snapshot _ _ _ Hdom Hg Hstep) as [D1 D2 D3 D4 D5 D6 D7].
  pose proof He as (_ & Hid & Hcmd & _ & _ & Hu & Hterm & _).
  apply existing_false_fresh in Hex as (F1 & F2 & F3). split.
  - eapply state_ok_domain; [apply same_domain_published|].
    eapply domain_step_ok; [done|by apply event_payload_ok|done].
  - assert (forall id r, s_receipts (published s e c) !! id = Some r ->
      s_receipts s !! id = Some r \/ id = ev_command e /\ r = receipt_from_event e) as Hrec.
    { intros id r Hr. unfold published, record_event in Hr. cbn [s_receipts s_with_history s_with_position] in Hr.
      destruct (bool_decide (ev_type e = NoOp)); [by left|].
      apply lookup_insert_Some in Hr as [[<- <-]|[_ Hr]]; [by right|by left]. }
    split; try done.
    + intros id r [Hr|[-> ->]]%Hrec.
      * destruct (sn_receipts s M2 id r Hr) as (R1 & R2 & R3). split; [done|]. split; [cbn; lia|done].
      * split; [done|]. cbn [rc_index receipt_from_event rc_term]. split; [cbn; lia|]. split; [done|].
        apply receipt_fingerprint_u64.
    + intros i j r r' [Hr|[-> ->]]%Hrec [Hr'|[-> ->]]%Hrec E; [by eapply (sn_distinct s M2)|..|done].
      * destruct (sn_receipts s M2 _ _ Hr) as (_ & R2 & _). cbn in E. lia.
      * destruct (sn_receipts s M2 _ _ Hr') as (_ & R2 & _). cbn in E. lia.
    + intros id text Ht. unfold published, record_event in Ht.
      cbn [s_applied_commands s_with_history s_with_position] in Ht.
      rewrite insert_new_fresh in Ht by done.
      apply lookup_insert_Some in Ht as [[<- _]|[_ Ht]]; [done|by eapply (sn_commands s M2)].
  - intros id text Ht. unfold published, record_event in Ht.
    cbn [s_applied_events s_with_history s_with_position] in Ht. rewrite insert_new_fresh in Ht by done.
    apply lookup_insert_Some in Ht as [[_ <-]|[_ Ht]]; [by exists e|].
    destruct (M3 id text Ht) as (e' & E1 & E2 & E3). exists e'. split; [done|]. split; [done|]. cbn. lia.
Qed.

Lemma apply_machine_ok s e rule t :
  machine_ok s -> good_event e -> apply s e rule = Ok t -> machine_ok t.
Proof.
  unfold apply. intros Hs He [_ [[_ ->]|[(_ & _ & ->)|(Hf & _ & Hi & c & Hc & ->)]]]%apply_against_ok; [done..|].
  by eapply published_ok.
Qed.

Lemma empty_machine_ok : machine_ok empty_state.
Proof.
  split; [apply empty_state_ok|split|]; try (intros *; cbn; rewrite ?lookup_empty; done);
    by vm_compute.
Qed.

Lemma replay_machine_ok events : forall s t,
  machine_ok s -> Forall good_event events -> replay_from s events None None = Ok t -> machine_ok t.
Proof.
  induction events as [|e events IH]; intros s t Hs Hall H; simpl in H; [by simplify_eq|].
  inversion Hall; subst. destruct (apply s e Contiguous) as [s'|] eqn:E; [|done].
  eapply IH; [|done|exact H]. by eapply apply_machine_ok.
Qed.

(** ** A state and what its snapshot keeps of it *)

(** [t] knows less history than [s] and is otherwise the same. *)
Record forgets (s t : ChoreographyState) : Prop := {
  fg_copy : domain_copy t = domain_copy s;
  fg_receipts : s_receipts t = s_receipts s;
  fg_events : s_applied_events t ⊆ s_applied_events s;
  fg_commands : forall k, is_Some (s_applied_commands t !! k) -> accepted s k = true;
}.

Lemma compact_forgets s : forgets s (compact_state s).
Proof.
  split; [done|done|apply map_empty_subseteq|]. intros k Hk.
  unfold compact_state, compact_commands in Hk. cbn [s_applied_commands s_with_history] in Hk.
  unfold accepted. destruct (s_receipts s !! k) as [r|] eqn:Er; [by rewrite orb_true_r|].
  destruct Hk as [v Hk]. apply lookup_union_Some_raw in Hk as [Hk|[_ Hk]].
  - rewrite map_lookup_imap, Er in Hk. done.
  - rewrite map_lookup_imap in Hk.
    destruct (filter _ (s_applied_commands s) !! k) as [x|] eqn:Ef; [|done].
    apply map_lookup_filter_Some in Ef as [Ef _]. by rewrite Ef.
Qed.

Lemma forgets_fresh s t e : forgets s t -> existing_event s e = Ok false -> existing_event t e = Ok false.
Proof.
  intros [_ F2 F3 F4] (H1 & H2 & H3)%existing_false_fresh. unfold existing_event.
  rewrite (lookup_weaken_None _ _ _ H1 F3), F2, H2.
  destruct (s_applied_commands t !! ev_command e) eqn:E; [|done].
  assert (accepted s (ev_command e) = true) as Ha by (apply F4; by eexists).
  unfold accepted in Ha. by rewrite H2, H3 in Ha.
Qed.

Lemma forgets_published s t e c :
  forgets s t -> existing_event s e = Ok false -> forgets (published s e c) (published t e c).
Proof.
  intros Hf Hex. pose proof (forgets_fresh s t e Hf Hex) as Hex'. destruct Hf as [F1 F2 F3 F4].
  apply existing_false_fresh in Hex as (H1 & H2 & H3), Hex' as (T1 & _ & T3).
  unfold published, record_event.
  split; cbn [s_receipts s_applied_events s_applied_commands s_with_history s_with_position].
  - done.
  - by rewrite F2.
  - rewrite !insert_new_fresh by done. by apply insert_mono.
  - rewrite !insert_new_fresh by done. intros k Hk. unfold accepted.
    cbn [s_receipts s_applied_commands s_with_history s_with_position]. rewrite orb_true_iff, !is_some_true.
    destruct (decide (k = ev_command e)) as [-> |Hne]; [left; rewrite lookup_insert_eq; by eexists|].
    rewrite lookup_insert_ne in Hk |- * by done. apply F4 in Hk. unfold accepted in Hk.
    rewrite orb_true_iff, !is_some_true in Hk. destruct Hk as [Hk|Hk]; [by left|right].
    destruct (bool_decide _); [done|]. by rewrite lookup_insert_ne.
Qed.

Lemma forgets_position s t : forgets s t ->
  s_last_applied t = s_last_applied s /\ s_term t = s_term s /\ canonical_state t = canonical_state s.
Proof.
  intros [F1 _ _ _]. pose proof (f_equal s_last_applied F1) as E1. pose proof (f_equal s_term F1) as E2.
  pose proof (f_equal canonical_state F1) as E3. done.
Qed.

(** A new event: above the applied index, so never seen before. *)
Lemma above_not_existing s e :
  machine_ok s -> event_ok e -> s_last_applied s < ev_index e -> existing_event s e <> Ok true.
Proof.
  intros [_ M2 M3] He Hi. unfold existing_event.
  destruct (s_applied_events s !! ev_id e) as [text|] eqn:Et.
  - destruct (M3 _ _ Et) as (e' & E1 & -> & E3). destruct (bool_decide_reflect (canonical_event e' = canonical_event e))
      as [E|E]; [|done]. apply canonical_event_inj in E; [|done|done]. subst. lia.
  - destruct (s_receipts s !! ev_command e) as [r|] eqn:Er; [|by case_goal].
    destruct (sn_receipts s M2 _ _ Er) as (_ & R & _). destruct (command_from_event e); [|done].
    destruct (Z.eqb_spec (rc_index r) (ev_index e)); [lia|done].
Qed.

(** One event on both. *)
Lemma forgets_apply s t e s' :
  machine_ok s -> forgets s t -> event_ok e -> s_last_applied s < ev_index e ->
  apply s e Contiguous = Ok s' -> exists t', apply t e Contiguous = Ok t' /\ forgets s' t'.
Proof.
  intros Hs Hf He Hi [Hsch [[Hx _]|[(_ & Hx & _)|(Hx & _ & Hidx & c & Hc & ->)]]]%apply_against_ok;
    [by destruct (above_not_existing s e Hs He Hi)|done|].
  exists (published t e c). split; [|by apply forgets_published].
  apply apply_against_ok. split; [done|]. right. right. split; [by eapply forgets_fresh|]. split; [done|].
  destruct (forgets_position s t Hf) as (E1 & _). split; [by unfold index_ok; rewrite E1|].
  exists c. by rewrite (fg_copy s t Hf).
Qed.

(** Indexes above [last], ascending: the part of a log after a snapshot. *)
Fixpoint log_after (last : Z) (events : list Event) : Prop :=
  match events with [] => True | e :: rest => last < ev_index e /\ log_after (ev_index e) rest end.

Lemma apply_new_index s e s' : machine_ok s -> event_ok e -> s_last_applied s < ev_index e ->
  apply s e Contiguous = Ok s' -> s_last_applied s' = ev_index e.
Proof.
  intros Hs He Hi [_ [[Hx _]|[(_ & Hx & _)|(_ & _ & _ & c & _ & ->)]]]%apply_against_ok; [|done|done].
  by destruct (above_not_existing s e Hs He Hi).
Qed.

Lemma forgets_replay events : forall s t s',
  machine_ok s -> forgets s t -> Forall good_event events -> log_after (s_last_applied s) events ->
  replay_from s events None None = Ok s' ->
  exists t', replay_from t events None None = Ok t' /\ forgets s' t'.
Proof.
  induction events as [|e events IH]; intros s t s' Hs Hf Hg Ha Hr; simpl in *; [exists t; by simplify_eq|].
  apply list.Forall_cons in Hg as [Hg1 Hg]. destruct Ha as [Ha1 Ha]. pose proof Hg1 as (He & _).
  destruct (apply s e Contiguous) as [m|] eqn:Em; [|done].
  destruct (forgets_apply s t e m Hs Hf He Ha1 Em) as (m' & -> & Hm).
  apply (IH m m' s'); [by eapply apply_machine_ok|done|done| |done].
  by rewrite (apply_new_index s e m).
Qed.

Lemma log_after_replay events rest : forall s s',
  machine_ok s -> Forall good_event events -> log_after (s_last_applied s) (events ++ rest)%list ->
  replay_from s events None None = Ok s' -> log_after (s_last_applied s') rest.
Proof.
  induction events as [|e events IH]; intros s s' Hs Hg Ha Hr; simpl in *; [by simplify_eq|].
  apply list.Forall_cons in Hg as [Hg1 Hg]. destruct Ha as [Ha1 Ha]. pose proof Hg1 as (He & _).
  destruct (apply s e Contiguous) as [m|] eqn:Em; [|done].
  apply (IH m); [by eapply apply_machine_ok|done| |done]. by rewrite (apply_new_index s e m).
Qed.

(** The answers a client gets. *)
Lemma forgets_answers s t command : forgets s t -> resolve_receipt t command = resolve_receipt s command.
Proof. intros [_ F2 _ _]. unfold resolve_receipt. by rewrite F2. Qed.

(** C31: a snapshot stands for the history it replaces. For any log of
    well-formed events with ascending indexes that replays, in which no
    choreography and no cue dependency is named by a single dash ([good_event]:
    the text writes an absent name so), cut anywhere: the state at the cut is
    written as a snapshot text that is read back without error, with the same
    canonical text and hash, the same receipts and the same answer to every
    retried command; and replaying the rest of the log on what was read back
    succeeds whenever replaying the whole log does, and ends in a state with the
    same canonical text, receipts, index and term (it does not have the bodies
    of the events before the cut). *)
Theorem snapshot_stands_for_history (before after : list Event) (s final : ChoreographyState) :
  Forall good_event (before ++ after)%list -> log_after 0 (before ++ after)%list ->
  replay before None None = Ok s -> replay (before ++ after)%list None None = Ok final ->
  exists restored, restore_state (snapshot_payload s) = Ok restored /\
    canonical_state restored = canonical_state s /\ state_hash restored = state_hash s /\
    s_receipts restored = s_receipts s /\
    (forall command, resolve_receipt restored command = resolve_receipt s command) /\
    exists final', replay_from restored after None None = Ok final' /\
      canonical_state final' = canonical_state final /\ s_receipts final' = s_receipts final /\
      s_last_applied final' = s_last_applied final /\ s_term final' = s_term final.
Proof.
  intros Hg Ha Hb Hall. apply list.Forall_app in Hg as [Hg1 Hg2].
  pose proof (replay_machine_ok _ _ _ empty_machine_ok Hg1 Hb) as Hs.
  pose proof (compact_forgets s) as Hf. destruct (forgets_position s _ Hf) as (_ & _ & Hcan).
  exists (compact_state s). split; [by apply restore_snapshot, mo_snapshot|]. split; [done|].
  split; [unfold state_hash; by rewrite Hcan|]. split; [done|]. split; [intros; by apply forgets_answers|].
  unfold replay in Hall, Hb. rewrite (replay_from_app _ _ _ _ Hb) in Hall.
  destruct (forgets_replay after s (compact_state s) final Hs Hf Hg2) as (final' & Hr & Hf'); [|done|].
  - by apply (log_after_replay before after empty_state s empty_machine_ok).
  - exists final'. split; [done|]. destruct (forgets_position _ _ Hf') as (E1 & E2 & E3).
    split; [done|]. split; [apply (fg_receipts _ _ Hf')|done].
Qed.

#[export] Instance good_event_dec e : Decision (good_event e).
Proof.
  unfold good_event, event_ok, valid_tick, u64, valid_term. repeat apply and_dec; try apply _.
  - destruct (ev_type e); try apply _; destruct (ev_payload e) as [| | | |id [d|]]; apply _.
  - destruct (ev_payload e) as [| | | |id [d|]]; apply _.
Defined.

Lemma demo_good : Forall good_event demo_events /\ log_after 0 demo_events.
Proof. split; [apply (bool_decide_unpack _); vm_compute; exact I|vm_compute; repeat split]. Qed.

Lemma snapshot_stands_for_history_witness :
  exists s restored, replay (take 4 demo_events) None None = Ok s /\
    restore_state (snapshot_payload s) = Ok restored /\ s_last_applied restored = 4 /\
    exists final', replay_from restored (drop 4 demo_events) None None = Ok final' /\
      s_last_applied final' = 8.
Proof.
  destruct (replay (take 4 demo_events) None None) as [s|] eqn:Es; [|vm_compute in Es; discriminate].
  destruct (replay demo_events None None) as [f|] eqn:Ef; [|vm_compute in Ef; discriminate].
  destruct demo_good as [Hg Ha].
  destruct (snapshot_stands_for_history (take 4 demo_events) (drop 4 demo_events) s f)
    as (restored & H1 & H2 & _ & _ & _ & f' & H3 & _ & _ & H4 & _);
    [by rewrite take_drop..|done|by rewrite take_drop|].
  exists s, restored. split; [done|]. split; [done|]. split.
  - assert (s = match replay (take 4 demo_events) None None with Ok s => s | _ => empty_state end) as ->
      by (by rewrite Es).
    vm_compute in H1. injection H1 as <-. reflexivity.
  - exists f'. split; [done|]. rewrite H4.
    assert (f = match replay demo_events None None with Ok s => s | _ => empty_state end) as ->
      by (by rewrite Ef).
    vm_compute. reflexivity.
Defined.
