(* ===== verification/EntryLog.v ===== *)
(** * Raft log entries and the value semantics of [EntryLog]

    [cpp-runtime/include/choreoos/raft/entry_log.hpp]. An [EntryLog] is a
    value: the transition core only sees the sequence of its entries and the
    answer of [valid_terms]. This file fixes that view: a log is the list of
    its entries, the operations are list operations, and [valid_terms] is
    computed from the terms. *)

From S2P Require Import Prelude.

Record Entry := mkEntry { e_term : Z; e_command : string }.

#[export] Instance Entry_eq_dec : EqDecision Entry.
Proof. solve_decision. Defined.

(** [Entry{}]: what [resize] appends when it grows, and what an access past
    the end is given here (the source leaves that access undefined; the
    transition core never makes it, see [Transition]). *)
Definition zero_entry : Entry := mkEntry 0 "".

Definition kMaximumEntries : Z := 100000.

Definition log_size (log : list Entry) : Z := Z.of_nat (length log).

(** [operator[]] *)
Definition log_at (log : list Entry) (i : Z) : Entry :=
  default zero_entry (log !! Z.to_nat i).

Definition log_back_term (log : list Entry) : Z := e_term (log_at log (log_size log - 1)).

(** [validate_terms]: no zero term and no term below its predecessor. *)
Fixpoint validate_terms (previous : Z) (log : list Entry) : bool :=
  match log with
  | [] => true
  | entry :: rest =>
      negb (e_term entry =? 0) && (previous <=? e_term entry) &&
      validate_terms (e_term entry) rest
  end.

(** [valid_terms(before, maximum)] *)
Definition valid_terms (log : list Entry) (before maximum : Z) : bool :=
  validate_terms 0 log &&
  (bool_decide (log = []) ||
   ((before <=? e_term (log_at log 0)) && (log_back_term log <=? maximum))).

(** [resize(count)]: truncate, or grow with default entries. *)
Definition log_resize (log : list Entry) (count : Z) : list Entry :=
  resize (Z.to_nat count) zero_entry log.

(** ** Lemmas *)

(** The declarative reading of [validate_terms]: terms are non-zero,
    ascending and not below [previous]. *)
Inductive ascending : Z -> list Entry -> Prop :=
| asc_nil p : ascending p []
| asc_cons p x l : e_term x <> 0 -> p <= e_term x -> ascending (e_term x) l ->
    ascending p (x :: l).

Lemma validate_terms_spec p l : validate_terms p l = true <-> ascending p l.
Proof.
  revert p; induction l as [|x l IH]; intros p; simpl.
  - split; [constructor|done].
  - rewrite !andb_true_iff, negb_true_iff, Z.eqb_neq, Z.leb_le, IH. split.
    + intros [[? ?] ?]. by constructor.
    + by inversion 1.
Qed.

Lemma ascending_weaken p q l : q <= p -> ascending p l -> ascending q l.
Proof. intros ? H. inversion H; subst; constructor; auto; lia. Qed.

(** Term of the last entry, or [p] when there is none. *)
Fixpoint last_term_from (p : Z) (l : list Entry) : Z :=
  match l with [] => p | x :: r => last_term_from (e_term x) r end.

Lemma ascending_app p l1 l2 :
  ascending p (l1 ++ l2) <-> ascending p l1 /\ ascending (last_term_from p l1) l2.
Proof.
  revert p; induction l1 as [|x l1 IH]; intros p; simpl.
  - split; [intros; split; [constructor|done]|tauto].
  - split.
    + inversion 1 as [|????? H5]; subst. apply IH in H5 as [??]. split; [by constructor|done].
    + intros [H1 ?]. inversion H1; subst. constructor; auto. by apply IH.
Qed.

Lemma last_term_from_lookup p l x :
  l !! (length l - 1)%nat = Some x -> last_term_from p l = e_term x.
Proof.
  revert p; induction l as [|y l IH]; intros p Hl; [done|]. simpl in *.
  destruct l; simplify_eq/=; [done|].
  by apply IH; rewrite ?Nat.sub_0_r in *.
Qed.

Lemma ascending_lookup p l i x :
  ascending p l -> l !! i = Some x -> p <= e_term x /\ e_term x <> 0.
Proof.
  intros H; revert i. induction H as [|p y l ??? IH]; intros i Hi; [done|].
  destruct i; simplify_eq/=; [done|]. apply IH in Hi. lia.
Qed.

Lemma ascending_mono p l i j x y :
  ascending p l -> (i <= j)%nat -> l !! i = Some x -> l !! j = Some y ->
  e_term x <= e_term y.
Proof.
  intros H; revert i j. induction H as [|p z l ??? IH]; intros i j Hij Hi Hj; [done|].
  destruct i, j; simplify_eq/=; try lia.
  - by eapply ascending_lookup in Hj as [? _].
  - eapply IH; [|done..]. lia.
Qed.

Lemma ascending_take n p l : ascending p l -> ascending p (take n l).
Proof. rewrite <- (take_drop n l) at 1. rewrite ascending_app. tauto. Qed.

Lemma ascending_drop n p l : ascending p l -> ascending p (drop n l).
Proof.
  intros H. revert n. induction H as [|p x l ? Hp H IH]; intros [|n]; simpl;
    [constructor|constructor|by constructor|].
  eapply ascending_weaken; [exact Hp|apply IH].
Qed.

(** The terms of a valid log lie between the snapshot term and the current
    term, and do not decrease. *)
Lemma valid_terms_spec l b m :
  valid_terms l b m = true <->
  ascending 0 l /\ (forall i x, l !! i = Some x -> b <= e_term x <= m).
Proof.
  unfold valid_terms, log_back_term, log_at, log_size.
  rewrite andb_true_iff, validate_terms_spec, orb_true_iff, bool_decide_eq_true,
    andb_true_iff, !Z.leb_le.
  destruct (decide (l = [])) as [->|Hne].
  { split; intros [H _]; split; auto. done. }
  assert (exists x, l !! 0%nat = Some x) as [x0 Hx0].
  { destruct l; [done|by eexists]. }
  assert (exists x, l !! (length l - 1)%nat = Some x) as [xl Hxl].
  { apply lookup_lt_is_Some_2. destruct l; simpl; [done|lia]. }
  replace (Z.to_nat 0) with 0%nat by lia.
  replace (Z.to_nat (Z.of_nat (length l) - 1)) with (length l - 1)%nat by lia.
  rewrite Hx0, Hxl. simpl. split.
  - intros [Hasc [?|[Hb Hm]]]; [done|]. split; [done|]. intros i x Hi.
    pose proof (lookup_lt_Some _ _ _ Hi).
    assert (e_term x0 <= e_term x) by (apply (ascending_mono 0 l 0 i); auto; lia).
    assert (e_term x <= e_term xl) by (apply (ascending_mono 0 l i (length l - 1)); auto; lia).
    lia.
  - intros [Hasc Hall]. split; [done|]. right.
    apply Hall in Hx0, Hxl. lia.
Qed.

Lemma log_at_lookup l i x : 0 <= i -> l !! Z.to_nat i = Some x -> log_at l i = x.
Proof. unfold log_at. by intros _ ->. Qed.

Lemma log_at_in_range l i :
  0 <= i < log_size l -> l !! Z.to_nat i = Some (log_at l i).
Proof.
  unfold log_at, log_size. intros.
  destruct (lookup_lt_is_Some_2 l (Z.to_nat i)) as [x ->]; [lia|done].
Qed.

Lemma log_resize_shrink l n :
  0 <= n <= log_size l -> log_resize l n = take (Z.to_nat n) l.
Proof. unfold log_resize, log_size. intros. apply resize_le. lia. Qed.
