(* ===== verification/EntryLogStore.v ===== *)
(** * The shared storage of entry logs

    The implementation of [cpp-runtime/include/choreoos/raft/entry_log.hpp]:
    logs are handles to reference-counted directories of reference-counted
    chunks, copied only when someone else may see them. The store is explicit
    here, with the counts the code tests, and the theorems show that every
    handle still behaves as a value of its own: the list of [EntryLog]. *)

From S2P Require Import Prelude EntryLog.
#[local] Open Scope nat_scope.

Definition kChunkSize : nat := 256.

(** [Data]: pointers to chunks, the number of entries, the cached check. *)
Record Data := mkData {
  dt_chunks : list nat;
  dt_size : nat;
  dt_valid : bool;
}.

(** The heap: handles ([EntryLog] objects) to directories, directories, chunks,
    and the next address. *)
Record Heap := mkHeap {
  hp_logs : gmap nat nat;
  hp_data : gmap nat Data;
  hp_chunks : gmap nat (list Entry);
  hp_next : nat;
}.

Definition empty_data : Data := mkData [] 0 true.

Definition data_at (h : Heap) (d : nat) : Data := default empty_data (hp_data h !! d).
Definition chunk_at (h : Heap) (c : nat) : list Entry := default [] (hp_chunks h !! c).

(** The directory of a handle. *)
Definition data_of (h : Heap) (log : nat) : nat := default 0 (hp_logs h !! log).

(** ** Reference counts *)

(** [data_.use_count()]: the handles to a directory. *)
Definition data_uses (h : Heap) (d : nat) : nat :=
  length (filter (fun kv => kv.2 = d) (map_to_list (hp_logs h))).

(** The directories some handle keeps alive. *)
Definition live (h : Heap) : list nat := remove_dups ((map_to_list (hp_logs h)).*2).

Definition occurrences (c : nat) (l : list nat) : nat := length (filter (fun x => x = c) l).

(** [chunk.use_count()]: the pointers to a chunk in live directories. *)
Definition chunk_uses (h : Heap) (c : nat) : nat :=
  sum_list ((fun d => occurrences c (dt_chunks (data_at h d))) <$> live h).

(** ** Operations *)

(** [EntryLog()] for a new handle, and [clear] for an old one. *)
Definition clear (h : Heap) (log : nat) : Heap :=
  mkHeap (<[log := hp_next h]> (hp_logs h)) (<[hp_next h := empty_data]> (hp_data h))
    (hp_chunks h) (S (hp_next h)).

(** The copy of a handle shares everything. *)
Definition copy_log (h : Heap) (from to : nat) : Heap :=
  mkHeap (<[to := data_of h from]> (hp_logs h)) (hp_data h) (hp_chunks h) (hp_next h).

(** The end of a handle's life. *)
Definition destroy (h : Heap) (log : nat) : Heap :=
  mkHeap (delete log (hp_logs h)) (hp_data h) (hp_chunks h) (hp_next h).

Definition log_length (h : Heap) (log : nat) : nat := dt_size (data_at h (data_of h log)).

(** [operator[]] *)
Definition entry_in (h : Heap) (d : Data) (index : nat) : Entry :=
  default zero_entry
    (chunk_at h (default 0 (dt_chunks d !! (index / kChunkSize))) !! (index mod kChunkSize)).

Definition log_entry (h : Heap) (log index : nat) : Entry :=
  entry_in h (data_at h (data_of h log)) index.

(** [detach] *)
Definition detach (h : Heap) (log : nat) : Heap :=
  if data_uses h (data_of h log) =? 1 then h
  else mkHeap (<[log := hp_next h]> (hp_logs h))
         (<[hp_next h := data_at h (data_of h log)]> (hp_data h)) (hp_chunks h) (S (hp_next h)).

(** [std::make_shared<std::vector<Entry>>(content)]: its address and the heap. *)
Definition new_chunk (h : Heap) (content : list Entry) : nat * Heap :=
  (hp_next h, mkHeap (hp_logs h) (hp_data h) (<[hp_next h := content]> (hp_chunks h)) (S (hp_next h))).

Definition set_data (h : Heap) (d : nat) (data : Data) : Heap :=
  mkHeap (hp_logs h) (<[d := data]> (hp_data h)) (hp_chunks h) (hp_next h).

Definition set_chunk (h : Heap) (c : nat) (content : list Entry) : Heap :=
  mkHeap (hp_logs h) (hp_data h) (<[c := content]> (hp_chunks h)) (hp_next h).

(** [validate_terms] over the entries a directory reaches. *)
Definition entries_of (h : Heap) (d : Data) : list Entry :=
  entry_in h d <$> seq 0 (dt_size d).

Definition check_terms (h : Heap) (d : Data) : Data :=
  mkData (dt_chunks d) (dt_size d) (validate_terms 0 (entries_of h d)).

Definition push_back (h : Heap) (log : nat) (entry : Entry) : Heap :=
  let h := detach h log in
  let d := data_of h log in
  let data := data_at h d in
  let valid := dt_valid data && negb (e_term entry =? 0)%Z &&
               ((dt_size data =? 0) ||
                (e_term (entry_in h data (dt_size data - 1)) <=? e_term entry)%Z) in
  if (dt_size data mod kChunkSize =? 0)
  then
    let '(c, h) := new_chunk h [entry] in
    set_data h d (mkData (dt_chunks data ++ [c]) (S (dt_size data)) valid)
  else
    let last := (length (dt_chunks data) - 1) in
    let c := default 0 (dt_chunks data !! last) in
    if (chunk_uses h c =? 1)
    then set_data (set_chunk h c (chunk_at h c ++ [entry])) d
           (mkData (dt_chunks data) (S (dt_size data)) valid)
    else
      let '(c', h) := new_chunk h (chunk_at h c) in
      set_data (set_chunk h c' (chunk_at h c' ++ [entry])) d
        (mkData (<[last := c']> (dt_chunks data)) (S (dt_size data)) valid).

(** [set] on an index in range. *)
Definition set_entry (h : Heap) (log index : nat) (entry : Entry) : Heap :=
  let h := detach h log in
  let d := data_of h log in
  let data := data_at h d in
  let c := default 0 (dt_chunks data !! (index / kChunkSize)) in
  let '(c', h) := new_chunk h (<[index mod kChunkSize := entry]> (chunk_at h c)) in
  let data := mkData (<[index / kChunkSize := c']> (dt_chunks data)) (dt_size data) (dt_valid data) in
  set_data h d (check_terms h data).

(** The growing loop of [resize]. *)
Fixpoint push_defaults (h : Heap) (log count : nat) : Heap :=
  match count with O => h | S count => push_defaults (push_back h log zero_entry) log count end.

Definition resize_log (h : Heap) (log count : nat) : Heap :=
  if (log_length h log <=? count) then push_defaults h log (count - log_length h log)
  else
    let h := detach h log in
    let d := data_of h log in
    let data := data_at h d in
    let chunks := take ((count + kChunkSize - 1) / kChunkSize) (dt_chunks data) in
    if (count mod kChunkSize =? 0)
    then set_data h d (check_terms h (mkData chunks count (dt_valid data)))
    else
      let last := (length chunks - 1) in
      let c := default 0 (chunks !! last) in
      let '(c', h) := new_chunk h (take (count mod kChunkSize) (chunk_at h c)) in
      set_data h d (check_terms h (mkData (<[last := c']> chunks) count (dt_valid data))).

Definition pop_back (h : Heap) (log : nat) : Heap := resize_log h log (log_length h log - 1).

(** [valid_terms] *)
Definition log_valid_terms (h : Heap) (log : nat) (before maximum : Z) : bool :=
  let data := data_at h (data_of h log) in
  dt_valid data &&
  ((dt_size data =? 0) ||
   ((before <=? e_term (entry_in h data 0))%Z &&
    (e_term (entry_in h data (dt_size data - 1)) <=? maximum)%Z)).

(** ** Comparison *)

(** The inner loop of [common_prefix_size]: the first difference among [count]
    entries from [index] on. *)
Fixpoint first_difference (h : Heap) (a b : Data) (index count : nat) : option nat :=
  match count with
  | O => None
  | S count =>
      if decide (entry_in h a index = entry_in h b index)
      then first_difference h a b (S index) count else Some index
  end.

(** The outer loop, chunk by chunk; a chunk both logs point to is skipped. *)
Fixpoint prefix_loop (fuel : nat) (h : Heap) (a b : Data) (count index : nat) : nat :=
  match fuel with
  | O => count
  | S fuel =>
      if index <? count then
        let chunk := index / kChunkSize in
        let stop := Nat.min count ((chunk + 1) * kChunkSize) in
        if default 0 (dt_chunks a !! chunk) =? default 0 (dt_chunks b !! chunk)
        then prefix_loop fuel h a b count stop
        else match first_difference h a b index (stop - index) with
             | Some found => found
             | None => prefix_loop fuel h a b count stop
             end
      else count
  end.

Definition common_prefix_size (h : Heap) (log other : nat) : nat :=
  if data_of h log =? data_of h other then log_length h log
  else
    let count := Nat.min (log_length h log) (log_length h other) in
    prefix_loop (S count) h (data_at h (data_of h log)) (data_at h (data_of h other)) count 0.

(** [operator==] *)
Definition log_equal (h : Heap) (log other : nat) : bool :=
  (log_length h log =? log_length h other) && (common_prefix_size h log other =? log_length h log).

#[global] Opaque kChunkSize.
