(* ===== verification/EntryLogStoreThms.v ===== *)
(** * Logs behave as values

    Every operation on one handle of [EntryLogStore] acts on that handle as
    the list operation of [EntryLog] and leaves every other handle as it was,
    although they share directories and chunks. *)

From S2P Require Import Prelude EntryLog EntryLogStore.
#[local] Open Scope nat_scope.

#[local] Abbreviation K := kChunkSize.

Lemma chunk_size_pos : 0 < K.
Proof. apply Nat.ltb_lt. vm_compute. reflexivity. Qed.

(** ** Indexes and chunks *)

Lemma split_index n : n = K * (n / K) + n mod K /\ n mod K < K.
Proof.
  pose proof chunk_size_pos. split; [apply Nat.div_mod; lia|apply Nat.mod_upper_bound; lia].
Qed.

Lemma index_unique q r n : r < K -> n = K * q + r -> n / K = q /\ n mod K = r.
Proof.
  intros Hr Hn. split; symmetry; [eapply Nat.div_unique|eapply Nat.mod_unique]; eauto.
Qed.

Lemma index_succ n :
  (S n / K = n / K /\ S n mod K = S (n mod K) /\ S (n mod K) < K) \/
  (S n / K = S (n / K) /\ S n mod K = 0 /\ S (n mod K) = K).
Proof.
  destruct (split_index n) as [Hn Hr]. pose proof chunk_size_pos.
  destruct (decide (S (n mod K) < K)) as [Hlt|Hge].
  - left. destruct (index_unique (n / K) (S (n mod K)) (S n)) as [-> ->]; [done|lia|done].
  - right. destruct (index_unique (S (n / K)) 0 (S n)) as [-> ->]; [lia| |]; [|lia].
    rewrite Nat.mul_succ_r. lia.
Qed.

Lemma index_lt j n : j < n -> j / K < n / K \/ j / K = n / K /\ j mod K < n mod K.
Proof.
  intros Hj. destruct (split_index n) as [Hn Hr], (split_index j) as [Hjn Hjr].
  destruct (decide (j / K < n / K)); [by left|]. right.
  assert (j / K <= n / K) by (apply Nat.Div0.div_le_mono; lia).
  assert (j / K = n / K) as E by lia. rewrite E in *. lia.
Qed.

(** [(count + kChunkSize - 1) / kChunkSize] *)
Lemma chunks_needed n : (n + K - 1) / K = n / K + (if n mod K =? 0 then 0 else 1).
Proof.
  destruct (split_index n) as [Hn Hr]. pose proof chunk_size_pos.
  destruct (Nat.eqb_spec (n mod K) 0) as [E|E].
  - destruct (index_unique (n / K) (K - 1) (n + K - 1)) as [-> _]; lia.
  - destruct (index_unique (n / K + 1) (n mod K - 1) (n + K - 1)) as [-> _]; [lia| |lia].
    rewrite Nat.mul_add_distr_l. lia.
Qed.

(** ** The shape of a directory *)

(** [n] entries in full chunks and a last one with the rest. *)
Record shape (cs : list (list Entry)) (n : nat) : Prop := {
  sp_count : length cs = n / K + (if n mod K =? 0 then 0 else 1);
  sp_full : forall i c, cs !! i = Some c -> i < n / K -> length c = K;
  sp_last : forall c, n mod K <> 0 -> cs !! (n / K) = Some c -> length c = n mod K;
}.

Definition entry_at_chunk (cs : list (list Entry)) (j : nat) : option Entry :=
  cs !! (j / K) ≫= (fun c => c !! (j mod K)).

Lemma shape_lookup cs n j : shape cs n -> j < n -> is_Some (entry_at_chunk cs j).
Proof.
  intros [Hc Hf Hl] Hj. destruct (split_index j) as [_ Hr].
  assert (is_Some (cs !! (j / K))) as [c Hcs].
  { apply lookup_lt_is_Some. rewrite Hc. destruct (index_lt j n Hj) as [H|[H ?]]; [lia|].
    destruct (Nat.eqb_spec (n mod K) 0); lia. }
  unfold entry_at_chunk. rewrite Hcs. simpl. apply lookup_lt_is_Some.
  destruct (index_lt j n Hj) as [H|[H Hm]].
  - rewrite (Hf _ _ Hcs H). lia.
  - rewrite H in Hcs. rewrite (Hl c) by (done || lia). lia.
Qed.

(** The entries of a directory with this shape, as the code reads them. *)
Lemma entries_lookup h d j :
  shape (chunk_at h <$> dt_chunks d) (dt_size d) ->
  entries_of h d !! j = if decide (j < dt_size d) then
    entry_at_chunk (chunk_at h <$> dt_chunks d) j else None.
Proof.
  intros Hs. unfold entries_of. rewrite list_lookup_fmap. destruct (decide (j < dt_size d)) as [Hj|Hj].
  - rewrite lookup_seq_lt by done. simpl. destruct (shape_lookup _ _ _ Hs Hj) as [e He].
    rewrite He. unfold entry_at_chunk in He. rewrite list_lookup_fmap in He.
    unfold entry_in. destruct (dt_chunks d !! (j / K)) as [c|]; [|done]. simpl in *. by rewrite He.
  - by rewrite lookup_seq_ge by lia.
Qed.

Lemma entries_length h d : length (entries_of h d) = dt_size d.
Proof. unfold entries_of. by rewrite length_fmap, length_seq. Qed.

Lemma shape_new cs n e : shape cs n -> n mod K = 0 -> shape (cs ++ [[e]]) (S n).
Proof.
  intros [Hc Hf Hl] Hm. rewrite Hm in Hc. simpl in Hc. pose proof chunk_size_pos.
  assert (forall i c, cs !! i = Some c -> length c = K) as Hall.
  { intros i c Hi. apply (Hf i c Hi). apply lookup_lt_Some in Hi. lia. }
  assert (forall i c, (cs ++ [[e]]) !! i = Some c -> i < n / K /\ length c = K \/
    i = n / K /\ c = [e]) as Hcases.
  { intros i c Hi. apply lookup_app_Some in Hi as [Hi|[Hge Hi]].
    - left. split; [apply lookup_lt_Some in Hi; lia|by eapply Hall].
    - right. destruct (i - length cs) as [|k] eqn:Ek; [|done]. simpl in Hi. injection Hi as <-. split; [lia|done]. }
  destruct (index_succ n) as [(Hq & Hr & Hlt)|(Hq & Hr & Heq)]; split; rewrite ?Hq, ?Hr.
  - rewrite length_app. rewrite Hm. simpl. lia.
  - intros i c Hi Hlt'. destruct (Hcases _ _ Hi) as [[_ H']|[H' _]]; [done|lia].
  - intros c _ Hi. destruct (Hcases _ _ Hi) as [[H' _]|[_ ->]]; [lia|]. by rewrite Hm.
  - rewrite length_app. simpl. lia.
  - intros i c Hi _. destruct (Hcases _ _ Hi) as [[_ H']|[_ ->]]; [done|]. rewrite Hm in Heq. done.
  - done.
Qed.

Lemma shape_extend cs n c e :
  shape cs n -> n mod K <> 0 -> cs !! (n / K) = Some c ->
  shape (<[n / K := c ++ [e]]> cs) (S n).
Proof.
  intros [Hc Hf Hl] Hm Hlast. pose proof (Hl c Hm Hlast) as Hlen.
  apply Nat.eqb_neq in Hm as Hm'. rewrite Hm' in Hc. pose proof chunk_size_pos.
  assert (forall i x, <[n / K := c ++ [e]]> cs !! i = Some x -> i < n / K /\ length x = K \/
    i = n / K /\ x = c ++ [e]) as Hcases.
  { intros i x Hi. destruct (decide (i = n / K)) as [-> |Hne].
    - rewrite list_lookup_insert_eq in Hi by lia. injection Hi as <-. by right.
    - rewrite list_lookup_insert_ne in Hi by done. left.
      assert (i < n / K) by (apply lookup_lt_Some in Hi; lia). split; [done|by eapply Hf]. }
  destruct (index_succ n) as [(Hq & Hr & Hlt)|(Hq & Hr & Heq)]; split; rewrite ?Hq, ?Hr, ?length_insert.
  - rewrite Hc. simpl. done.
  - intros i x Hi Hlt'. destruct (Hcases _ _ Hi) as [[_ H']|[H' _]]; [done|lia].
  - intros x _ Hi. destruct (Hcases _ _ Hi) as [[H' _]|[_ ->]]; [lia|]. rewrite length_app. simpl. lia.
  - rewrite Hc. simpl. lia.
  - intros i x Hi _. destruct (Hcases _ _ Hi) as [[_ H']|[_ ->]]; [done|]. rewrite length_app. simpl. lia.
  - done.
Qed.

Lemma new_chunk_lookup cs n e j : shape cs n -> n mod K = 0 -> j <= n ->
  entry_at_chunk (cs ++ [[e]]) j = if decide (j < n) then entry_at_chunk cs j else Some e.
Proof.
  intros [Hc _ _] Hm Hj. rewrite Hm in Hc. simpl in Hc. unfold entry_at_chunk.
  destruct (decide (j < n)) as [Hlt|Hge].
  - destruct (index_lt j n Hlt) as [H|[_ H]]; [|lia]. by rewrite lookup_app_l by lia.
  - replace j with n by lia. rewrite Hm, lookup_app_r by lia.
    by replace (n / K - length cs) with 0 by lia.
Qed.

Lemma extend_lookup cs n c e j : shape cs n -> n mod K <> 0 -> cs !! (n / K) = Some c -> j <= n ->
  entry_at_chunk (<[n / K := c ++ [e]]> cs) j =
  if decide (j < n) then entry_at_chunk cs j else Some e.
Proof.
  intros Hs Hm Hlast Hj. pose proof (sp_last _ _ Hs c Hm Hlast) as Hlen.
  pose proof (lookup_lt_Some _ _ _ Hlast) as Hlt0. unfold entry_at_chunk.
  destruct (decide (j < n)) as [Hlt|Hge].
  - destruct (decide (j / K = n / K)) as [E|E].
    + rewrite E, list_lookup_insert_eq by done. rewrite Hlast. simpl.
      rewrite lookup_app_l; [done|]. destruct (index_lt j n Hlt); lia.
    + by rewrite list_lookup_insert_ne by done.
  - replace j with n by lia. rewrite list_lookup_insert_eq by done. simpl.
    rewrite lookup_app_r by lia. by replace (n mod K - length c) with 0 by lia.
Qed.

(** Cutting to [m] entries: the chunks that remain, the last one shortened. *)
Definition cut_chunks (cs : list (list Entry)) (m : nat) : list (list Entry) :=
  let kept := take ((m + K - 1) / K) cs in
  if m mod K =? 0 then kept
  else <[length kept - 1 := take (m mod K) (default [] (kept !! (length kept - 1)))]> kept.

Lemma cut_facts cs n m : shape cs n -> m < n ->
  let kept := take ((m + K - 1) / K) cs in
  length kept = m / K + (if m mod K =? 0 then 0 else 1) /\
  (m mod K <> 0 -> length kept - 1 = m / K /\
     exists c, cs !! (m / K) = Some c /\ kept !! (m / K) = Some c /\ m mod K < length c).
Proof.
  intros Hs Hm. pose proof Hs as [Hc Hf Hl]. rewrite chunks_needed.
  assert (m / K <= n / K) as Hle by (apply Nat.Div0.div_le_mono; lia).
  assert (length (take (m / K + (if m mod K =? 0 then 0 else 1)) cs) =
    m / K + (if m mod K =? 0 then 0 else 1)) as Hlen.
  { rewrite length_take, Hc. destruct (index_lt m n Hm) as [H|[H1 H2]];
      destruct (Nat.eqb_spec (m mod K) 0), (Nat.eqb_spec (n mod K) 0); lia. }
  split; [done|]. intros Hr. apply Nat.eqb_neq in Hr as Hr'. rewrite Hr' in *.
  split; [lia|]. destruct (split_index m) as [_ Hmr].
  assert (is_Some (cs !! (m / K))) as [c Hcs].
  { apply lookup_lt_is_Some. rewrite length_take in Hlen. lia. }
  exists c. split; [done|]. split; [by rewrite lookup_take_lt by lia|].
  destruct (index_lt m n Hm) as [H|[H1 H2]].
  - rewrite (Hf _ _ Hcs H). lia.
  - rewrite H1 in Hcs. rewrite (Hl c) by (done || lia). lia.
Qed.

Lemma cut_shape cs n m : shape cs n -> m < n -> shape (cut_chunks cs m) m.
Proof.
  intros Hs Hm. destruct (cut_facts cs n m Hs Hm) as [Hlen Hlast]. pose proof Hs as [Hc Hf _].
  unfold cut_chunks. set (kept := take ((m + K - 1) / K) cs) in *.
  assert (m / K <= n / K) as Hle by (apply Nat.Div0.div_le_mono; lia).
  assert (forall i c, kept !! i = Some c -> i < m / K -> length c = K) as Hfull.
  { intros i c Hi Hlt. apply (Hf i c); [|lia]. unfold kept in Hi.
    by apply lookup_take_Some in Hi as [Hi _]. }
  destruct (Nat.eqb_spec (m mod K) 0) as [E|E].
  - split; [by rewrite Hlen; destruct (Nat.eqb_spec (m mod K) 0)|done|done].
  - destruct (Hlast E) as (Hl & c & Hcs & Hkept & Hclen). rewrite Hl, Hkept. simpl default.
    apply Nat.eqb_neq in E as E'. rewrite ?E' in Hlen. split.
    + by rewrite length_insert, Hlen, E'.
    + intros i x Hi Hlt. rewrite list_lookup_insert_ne in Hi by lia. by apply (Hfull i).
    + intros x _ Hi. rewrite list_lookup_insert_eq in Hi by lia. injection Hi as <-.
      rewrite length_take. lia.
Qed.

Lemma cut_lookup cs n m j : shape cs n -> m < n -> j < m ->
  entry_at_chunk (cut_chunks cs m) j = entry_at_chunk cs j.
Proof.
  intros Hs Hm Hj. destruct (cut_facts cs n m Hs Hm) as [Hlen Hlast].
  unfold cut_chunks, entry_at_chunk. set (kept := take ((m + K - 1) / K) cs) in *.
  assert (kept !! (j / K) = cs !! (j / K)) as Hkept.
  { unfold kept. apply lookup_take_lt. rewrite chunks_needed.
    destruct (index_lt j m Hj) as [H|[H1 H2]]; [lia|]. destruct (Nat.eqb_spec (m mod K) 0); lia. }
  destruct (Nat.eqb_spec (m mod K) 0) as [E|E]; [by rewrite Hkept|].
  destruct (Hlast E) as (Hl & c & Hcs & Hk & Hclen). rewrite Hl, Hk. simpl default.
  destruct (decide (j / K = m / K)) as [Hq|Hq].
  - rewrite Hq, list_lookup_insert_eq by (apply lookup_lt_Some in Hk; done). rewrite Hcs. simpl.
    apply lookup_take_lt. destruct (index_lt j m Hj); lia.
  - by rewrite list_lookup_insert_ne, Hkept by done.
Qed.

(** ** Heaps *)

Definition contents (h : Heap) (d : Data) : list (list Entry) := chunk_at h <$> dt_chunks d.

Record data_ok (h : Heap) (d : Data) : Prop := {
  da_shape : shape (contents h d) (dt_size d);
  da_valid : dt_valid d = validate_terms 0 (entries_of h d);
  da_alloc : forall c, c ∈ dt_chunks d -> c < hp_next h;
}.

Record heap_ok (h : Heap) : Prop := {
  he_logs : forall log d, hp_logs h !! log = Some d ->
    d < hp_next h /\ exists data, hp_data h !! d = Some data /\ data_ok h data;
}.

(** The value of a handle. *)
Definition value (h : Heap) (log : nat) : list Entry := entries_of h (data_at h (data_of h log)).

Lemma entries_ext h h' d d' :
  shape (contents h d) (dt_size d) -> contents h' d' = contents h d -> dt_size d' = dt_size d ->
  entries_of h' d' = entries_of h d.
Proof.
  intros Hs Hc Hn. apply list_eq. intros j. rewrite !entries_lookup by (fold (contents h' d');
    rewrite ?Hc, ?Hn; done). fold (contents h d) (contents h' d'). by rewrite Hc, Hn.
Qed.

(** Only what a directory points to matters to it. *)
Lemma contents_frame h h' d :
  (forall c, c ∈ dt_chunks d -> chunk_at h' c = chunk_at h c) -> contents h' d = contents h d.
Proof.
  intros Hc. unfold contents. apply list_eq. intros i. rewrite !list_lookup_fmap.
  destruct (dt_chunks d !! i) as [c|] eqn:E; [|done]. simpl. f_equal. apply Hc.
  by eapply list_elem_of_lookup_2.
Qed.

Lemma data_ok_frame h h' d :
  data_ok h d -> (forall c, c ∈ dt_chunks d -> chunk_at h' c = chunk_at h c) ->
  hp_next h <= hp_next h' -> data_ok h' d /\ entries_of h' d = entries_of h d.
Proof.
  intros [Hs Hv Ha] Hc Hn. pose proof (contents_frame h h' d Hc) as Hcont.
  assert (entries_of h' d = entries_of h d) as He by (by apply entries_ext).
  split; [|done]. split; [by rewrite Hcont|by rewrite He|]. intros c Hin. apply Ha in Hin. lia.
Qed.

Lemma heap_data h log d : heap_ok h -> hp_logs h !! log = Some d ->
  data_of h log = d /\ hp_data h !! d = Some (data_at h d) /\ data_ok h (data_at h d) /\ d < hp_next h.
Proof.
  intros [Hl] Hd. destruct (Hl _ _ Hd) as (Hlt & data & Hdata & Hok).
  unfold data_of, data_at. by rewrite Hd, Hdata.
Qed.

(** The directory of [log] belongs to it alone. *)
Definition owned (h : Heap) (log : nat) : Prop :=
  forall other d, hp_logs h !! log = Some d -> hp_logs h !! other = Some d -> other = log.

(** Replacing the directory of an owned handle, with chunks that no other
    directory reads changed. *)
Lemma replace_data h h' log d data' :
  heap_ok h -> owned h log -> hp_logs h !! log = Some d ->
  hp_logs h' = hp_logs h -> hp_data h' = <[d := data']> (hp_data h) -> hp_next h <= hp_next h' ->
  (forall other d', hp_logs h !! other = Some d' -> d' <> d ->
     forall c, c ∈ dt_chunks (data_at h d') -> chunk_at h' c = chunk_at h c) ->
  data_ok h' data' ->
  heap_ok h' /\ value h' log = entries_of h' data' /\
  forall other, other <> log -> is_Some (hp_logs h !! other) -> value h' other = value h other.
Proof.
  intros Hok Hown Hd Hl Hdata Hn Hframe Hok'.
  assert (forall other d', hp_logs h !! other = Some d' -> d' <> d ->
    data_ok h' (data_at h d') /\ hp_data h' !! d' = Some (data_at h d') /\
    entries_of h' (data_at h d') = entries_of h (data_at h d')) as Hother.
  { intros other d' Ho Hne. destruct (heap_data h other d' Hok Ho) as (_ & Hdat & Hdok & _).
    destruct (data_ok_frame h h' (data_at h d') Hdok) as [H1 H2]; [by eapply Hframe|done|].
    split; [done|]. split; [by rewrite Hdata, lookup_insert_ne by done|done]. }
  split; [|split].
  - split. intros other d' Ho. rewrite Hl in Ho.
    destruct (heap_data h other d' Hok Ho) as (_ & _ & _ & Hlt). split; [lia|].
    destruct (decide (d' = d)) as [-> |Hne].
    + exists data'. by rewrite Hdata, lookup_insert_eq.
    + destruct (Hother _ _ Ho Hne) as (H1 & H2 & _). eauto.
  - unfold value, data_of, data_at. by rewrite Hl, Hd, Hdata, lookup_insert_eq.
  - intros other Hne [d' Ho]. assert (d' <> d) as Hdd by (intros ->; by apply Hne, (Hown other d)).
    destruct (Hother _ _ Ho Hdd) as (_ & H2 & H3). unfold value, data_of. rewrite Hl, Ho. simpl.
    unfold data_at at 1. rewrite H2. simpl. done.
Qed.

(** ** Counting *)

Lemma uses_one h log other d :
  data_uses h d = 1 -> hp_logs h !! log = Some d -> hp_logs h !! other = Some d -> other = log.
Proof.
  intros Hu Hl Ho. destruct (decide (other = log)) as [|Hne]; [done|]. exfalso.
  unfold data_uses in Hu.
  set (f := filter (fun kv : nat * nat => kv.2 = d) (map_to_list (hp_logs h))) in *.
  assert ((log, d) ∈ f) as H1 by (apply list_elem_of_filter; split; [done|by apply elem_of_map_to_list]).
  assert ((other, d) ∈ f) as H2 by (apply list_elem_of_filter; split; [done|by apply elem_of_map_to_list]).
  destruct f as [|x [|y l]]; [by apply elem_of_nil in H1| |done].
  apply list_elem_of_singleton in H1, H2. congruence.
Qed.

Lemma occurrences_zero c l : occurrences c l = 0 -> c ∉ l.
Proof.
  intros Ho Hin. unfold occurrences in Ho. apply nil_length_inv in Ho.
  assert (c ∈ filter (fun x => x = c) l) as Hf by (by apply list_elem_of_filter).
  rewrite Ho in Hf. by apply elem_of_nil in Hf.
Qed.

Lemma occurrences_one c l i j :
  occurrences c l = 1 -> l !! i = Some c -> l !! j = Some c -> i = j.
Proof.
  revert i j. unfold occurrences. induction l as [|x l IH]; intros i j Ho Hi Hj; [done|].
  rewrite filter_cons in Ho. destruct (decide (x = c)) as [-> |Hne].
  - simpl in Ho. injection Ho as Ho. pose proof (occurrences_zero c l Ho) as Hnot.
    destruct i as [|i], j as [|j]; [done|exfalso..|]; simpl in *.
    + apply Hnot. by eapply list_elem_of_lookup_2.
    + apply Hnot. by eapply list_elem_of_lookup_2.
    + exfalso. apply Hnot. by eapply list_elem_of_lookup_2.
  - destruct i as [|i], j as [|j]; simpl in *; try congruence. f_equal. by apply IH.
Qed.

Lemma sum_list_member (f : nat -> nat) l x : x ∈ l -> f x <= sum_list (f <$> l).
Proof.
  induction l as [|y l IH]; intros Hin; [by apply elem_of_nil in Hin|].
  rewrite fmap_cons. cbn [sum_list_with]. unfold id at 1.
  apply elem_of_cons in Hin as [-> |Hin]; [lia|]. pose proof (IH Hin). lia.
Qed.

Lemma sum_list_two (f : nat -> nat) l x y :
  x ∈ l -> y ∈ l -> x <> y -> f x + f y <= sum_list (f <$> l).
Proof.
  induction l as [|z l IH]; intros Hx Hy Hne; [by apply elem_of_nil in Hx|].
  rewrite fmap_cons. cbn [sum_list_with]. unfold id at 1.
  apply elem_of_cons in Hx as [-> |Hx], Hy as [-> |Hy]; [done|..].
  - pose proof (sum_list_member f l y Hy). lia.
  - pose proof (sum_list_member f l x Hx). lia.
  - pose proof (IH Hx Hy Hne). lia.
Qed.

Lemma live_member h log d : hp_logs h !! log = Some d -> d ∈ live h.
Proof.
  intros Hd. unfold live. apply elem_of_remove_dups, list_elem_of_fmap. exists (log, d).
  split; [done|]. by apply elem_of_map_to_list.
Qed.

(** A chunk with one pointer is read through that pointer only. *)
Lemma chunk_uses_one h log d other d' c i :
  chunk_uses h c = 1 -> hp_logs h !! log = Some d -> hp_logs h !! other = Some d' ->
  dt_chunks (data_at h d) !! i = Some c ->
  (d' <> d -> c ∉ dt_chunks (data_at h d')) /\
  (forall j, dt_chunks (data_at h d) !! j = Some c -> j = i).
Proof.
  intros Hu Hd Hd' Hi. unfold chunk_uses in Hu.
  set (f := fun d => occurrences c (dt_chunks (data_at h d))) in *.
  assert (0 < f d) as Hpos.
  { destruct (f d) eqn:E; [|lia]. exfalso. apply (occurrences_zero _ _ E).
    by eapply list_elem_of_lookup_2. }
  pose proof (live_member _ _ _ Hd) as Hl. pose proof (live_member _ _ _ Hd') as Hl'.
  pose proof (sum_list_member f _ _ Hl). split.
  - intros Hne. pose proof (sum_list_two f _ _ _ Hl Hl' (not_eq_sym Hne)).
    apply occurrences_zero. change (f d' = 0). lia.
  - intros j Hj. apply (occurrences_one c (dt_chunks (data_at h d))); [|done|done]. change (f d = 1). lia.
Qed.

(** ** Detaching *)

Lemma detach_ok h log : heap_ok h -> is_Some (hp_logs h !! log) ->
  heap_ok (detach h log) /\ owned (detach h log) log /\
  (forall other, is_Some (hp_logs h !! other) -> is_Some (hp_logs (detach h log) !! other)) /\
  (forall other, is_Some (hp_logs h !! other) -> value (detach h log) other = value h other).
Proof.
  intros Hok [d Hd]. destruct (heap_data h log d Hok Hd) as (Hof & Hdat & Hdok & Hlt).
  unfold detach. rewrite Hof. destruct (Nat.eqb_spec (data_uses h d) 1) as [Hu|Hu].
  { split; [done|]. split; [|done]. intros other d' Hl Ho. assert (d' = d) as -> by congruence.
    by apply (uses_one h log other d). }
  set (h' := mkHeap _ _ _ _).
  assert (forall d', d' < hp_next h -> data_at h' d' = data_at h d') as Hold
    by (intros d' Hlt'; unfold data_at, h'; cbn [hp_data]; by rewrite lookup_insert_ne by lia).
  assert (data_at h' (hp_next h) = data_at h d) as Hnew
    by (unfold data_at at 1, h'; cbn [hp_data]; by rewrite lookup_insert_eq).
  assert (forall data, data_ok h data -> data_ok h' data /\ entries_of h' data = entries_of h data)
    as Hframe by (intros data Hdata; apply data_ok_frame; [done|done|unfold h'; cbn; lia]).
  split; [|split; [|split]].
  - split. intros other d' Ho. unfold h' in Ho |- *. cbn [hp_logs hp_next hp_data] in *.
    apply lookup_insert_Some in Ho as [[<- <-]|[Hne Ho]].
    + split; [lia|]. exists (data_at h d). rewrite lookup_insert_eq. split; [done|]. by apply Hframe.
    + destruct (heap_data h other d' Hok Ho) as (_ & Hdat' & Hdok' & Hlt'). split; [lia|].
      exists (data_at h d'). rewrite lookup_insert_ne by lia. split; [done|]. by apply Hframe.
  - intros other d' Hl Ho. unfold h' in Hl, Ho. cbn [hp_logs] in *. rewrite lookup_insert_eq in Hl.
    injection Hl as <-. apply lookup_insert_Some in Ho as [[-> _]|[_ Ho]]; [done|].
    destruct (heap_data h other _ Hok Ho) as (_ & _ & _ & Hx). lia.
  - intros other [d' Ho]. unfold h'. cbn [hp_logs].
    destruct (decide (other = log)) as [-> |Hne]; [rewrite lookup_insert_eq|
      rewrite lookup_insert_ne by done]; by eexists.
  - intros other [d' Ho]. destruct (heap_data h other d' Hok Ho) as (Hof' & _ & Hdok' & Hlt').
    unfold value. rewrite Hof'. destruct (decide (other = log)) as [-> |Hne].
    + assert (d' = d) as -> by congruence.
      assert (data_of h' log = hp_next h) as -> by (unfold data_of, h'; cbn; by rewrite lookup_insert_eq).
      rewrite Hnew. by apply Hframe.
    + assert (data_of h' other = d') as ->
        by (unfold data_of, h'; cbn; by rewrite lookup_insert_ne, Ho by done).
      rewrite Hold by done. by apply Hframe.
Qed.

(** The state of an operation after it has detached: the handle's directory is
    its own. *)
Record ready (h : Heap) (log d : nat) (data : Data) : Prop := {
  rd_heap : heap_ok h;
  rd_owned : owned h log;
  rd_log : hp_logs h !! log = Some d;
  rd_of : data_of h log = d;
  rd_data : data_at h d = data;
  rd_ok : data_ok h data;
}.

Lemma detach_ready h log : heap_ok h -> is_Some (hp_logs h !! log) ->
  exists d data, ready (detach h log) log d data /\ entries_of (detach h log) data = value h log.
Proof.
  intros Hok Hl. destruct (detach_ok h log Hok Hl) as (Hok' & Hown & Hdom & Hval).
  destruct (Hdom log Hl) as [d Hd]. destruct (heap_data _ _ _ Hok' Hd) as (Hof & _ & Hdok & _).
  exists d, (data_at (detach h log) d). split; [by split|].
  rewrite <- (Hval log Hl). unfold value. by rewrite Hof.
Qed.

(** What an operation on [log] must leave. *)
Definition acts_as (h h' : Heap) (log : nat) (result : list Entry) : Prop :=
  heap_ok h' /\ value h' log = result /\
  (forall other, is_Some (hp_logs h !! other) -> is_Some (hp_logs h' !! other)) /\
  forall other, other <> log -> is_Some (hp_logs h !! other) -> value h' other = value h other.

(** Finishing a detached operation with a new directory. *)
Lemma finish h h1 h' log d data' result :
  heap_ok h -> is_Some (hp_logs h !! log) -> h1 = detach h log ->
  ready h1 log d (data_at h1 d) ->
  hp_logs h' = hp_logs h1 -> hp_data h' = <[d := data']> (hp_data h1) -> hp_next h1 <= hp_next h' ->
  (forall other d', hp_logs h1 !! other = Some d' -> d' <> d ->
     forall c, c ∈ dt_chunks (data_at h1 d') -> chunk_at h' c = chunk_at h1 c) ->
  data_ok h' data' -> entries_of h' data' = result ->
  acts_as h h' log result.
Proof.
  intros Hok Hl -> [R1 R2 R3 R4 R5 R6] Hlogs Hdata Hn Hframe Hdok Hres.
  destruct (detach_ok h log Hok Hl) as (_ & _ & Hdom & Hval).
  destruct (replace_data _ h' log d data' R1 R2 R3 Hlogs Hdata Hn Hframe Hdok) as (H1 & H2 & H3).
  split; [done|]. split; [by rewrite H2|]. split.
  - intros other Ho. rewrite Hlogs. by apply Hdom.
  - intros other Hne Ho. rewrite (H3 other Hne (Hdom other Ho)). by apply Hval.
Qed.

(** ** Appending *)

Lemma entries_append h h' d d' e :
  shape (contents h d) (dt_size d) -> shape (contents h' d') (dt_size d') ->
  dt_size d' = S (dt_size d) ->
  (forall j, j <= dt_size d -> entry_at_chunk (contents h' d') j =
     if decide (j < dt_size d) then entry_at_chunk (contents h d) j else Some e) ->
  entries_of h' d' = entries_of h d ++ [e].
Proof.
  intros Hs Hs' Hn Hj. apply list_eq. intros j.
  rewrite lookup_app, !entries_lookup by done. fold (contents h d) (contents h' d').
  rewrite entries_length, Hn. destruct (decide (j < S (dt_size d))) as [H|H].
  - rewrite Hj by lia. destruct (decide (j < dt_size d)) as [H'|H'].
    + by destruct (shape_lookup _ _ _ Hs H') as [x ->].
    + by replace (j - dt_size d) with 0 by lia.
  - destruct (decide (j < dt_size d)); [lia|]. symmetry. apply lookup_ge_None_2. simpl. lia.
Qed.

Lemma validate_terms_snoc l e p :
  validate_terms p (l ++ [e]) =
  validate_terms p l && (negb (e_term e =? 0)%Z && (last_term_from p l <=? e_term e)%Z).
Proof.
  revert p. induction l as [|x l IH]; intros p; simpl; [by rewrite andb_true_r|].
  rewrite IH. by rewrite !andb_assoc.
Qed.

(** The incremental check of [push_back] is the check of the longer log. *)
Lemma push_valid h data e :
  shape (contents h data) (dt_size data) -> dt_valid data = validate_terms 0 (entries_of h data) ->
  (0 <= e_term e)%Z ->
  dt_valid data && negb (e_term e =? 0)%Z &&
    ((dt_size data =? 0) || (e_term (entry_in h data (dt_size data - 1)) <=? e_term e)%Z) =
  validate_terms 0 (entries_of h data ++ [e]).
Proof.
  intros Hs Hv He. rewrite validate_terms_snoc, Hv, <- andb_assoc. f_equal. f_equal.
  destruct (Nat.eqb_spec (dt_size data) 0) as [E|E].
  - unfold entries_of. rewrite E. simpl. symmetry. by apply Z.leb_le.
  - rewrite orb_false_l. f_equal.
    rewrite (last_term_from_lookup 0 (entries_of h data) (entry_in h data (dt_size data - 1))); [done|].
    rewrite entries_length. unfold entries_of. rewrite list_lookup_fmap, lookup_seq_lt by lia. done.
Qed.

(** The heap in which one chunk and one directory have been written. *)
Definition written (h : Heap) (d : nat) (data : Data) (c : nat) (content : list Entry) (next : nat)
    : Heap :=
  mkHeap (hp_logs h) (<[d := data]> (hp_data h)) (<[c := content]> (hp_chunks h)) next.

Lemma chunk_at_written h d data c content next x :
  chunk_at (written h d data c content next) x = if decide (x = c) then content else chunk_at h x.
Proof.
  unfold chunk_at, written. cbn [hp_chunks]. destruct (decide (x = c)) as [-> |H].
  - by rewrite lookup_insert_eq.
  - by rewrite lookup_insert_ne.
Qed.

(** Directories of a sound heap never point to the next address. *)
Lemma not_next h log d c : heap_ok h -> hp_logs h !! log = Some d ->
  c ∈ dt_chunks (data_at h d) -> c <> hp_next h.
Proof.
  intros Hok Hd Hin. destruct (heap_data h log d Hok Hd) as (_ & _ & Hdok & _).
  apply (da_alloc _ _ Hdok) in Hin. lia.
Qed.

Lemma last_chunk h data :
  data_ok h data -> dt_size data mod K <> 0 ->
  length (dt_chunks data) - 1 = dt_size data / K /\
  exists c, dt_chunks data !! (dt_size data / K) = Some c /\
    contents h data !! (dt_size data / K) = Some (chunk_at h c).
Proof.
  intros [[Hc _ _] _ _] Hm. unfold contents in *. rewrite length_fmap in Hc.
  apply Nat.eqb_neq in Hm. rewrite Hm in Hc. split; [lia|].
  assert (is_Some (dt_chunks data !! (dt_size data / K))) as [c Hlc] by (apply lookup_lt_is_Some; lia).
  exists c. split; [done|]. by rewrite list_lookup_fmap, Hlc.
Qed.

(** A chunk that is fresh, or read through this directory only, may be written. *)
Lemma write_acts h h1 log d data data' c content next result :
  heap_ok h -> is_Some (hp_logs h !! log) -> h1 = detach h log -> ready h1 log d data ->
  let h' := written h1 d data' c content next in
  hp_next h1 <= next ->
  (c = hp_next h1 \/ forall other d', hp_logs h1 !! other = Some d' -> d' <> d ->
     c ∉ dt_chunks (data_at h1 d')) ->
  shape (contents h' data') (dt_size data') -> entries_of h' data' = result ->
  dt_valid data' = validate_terms 0 result ->
  (forall x, x ∈ dt_chunks data' -> x < next) ->
  acts_as h h' log result.
Proof.
  intros Hok Hl Hh1 Hrd h' Hn Hc Hs He Hv Ha. pose proof Hrd as [R1 R2 R3 R4 R5 R6].
  eapply (finish h h1 h' log d data'); try done; [by subst data|..].
  - intros other d' Ho Hne x Hin. unfold h'. rewrite chunk_at_written.
    destruct (decide (x = c)) as [-> |]; [|done]. destruct Hc as [-> |Hc].
    + by destruct (not_next h1 other d' _ R1 Ho Hin).
    + by destruct (Hc other d' Ho Hne).
  - split; [done|by rewrite Hv, He|done].
Qed.

(** The contents after writing the chunk at position [i]. *)
Lemma contents_written h d data data' c content next i :
  i < length (dt_chunks data) -> dt_chunks data' = <[i := c]> (dt_chunks data) ->
  (forall j, dt_chunks data !! j = Some c -> j = i) ->
  contents (written h d data' c content next) data' = <[i := content]> (contents h data).
Proof.
  intros Hi Hd Hc. unfold contents. rewrite Hd. apply list_eq. intros j.
  rewrite list_lookup_fmap. destruct (decide (j = i)) as [-> |Hne].
  - rewrite !list_lookup_insert_eq by (rewrite ?length_fmap; done). simpl.
    rewrite chunk_at_written. by rewrite decide_True.
  - rewrite !list_lookup_insert_ne, list_lookup_fmap by done.
    destruct (dt_chunks data !! j) as [x|] eqn:E; [|done]. simpl. f_equal.
    rewrite chunk_at_written. rewrite decide_False; [done|]. intros ->. by apply Hne, Hc.
Qed.

(** The same for a chunk added at the end. *)
Lemma contents_appended h d data data' c content next :
  dt_chunks data' = dt_chunks data ++ [c] -> c ∉ dt_chunks data ->
  contents (written h d data' c content next) data' = contents h data ++ [content].
Proof.
  intros Hd Hc. unfold contents. rewrite Hd, fmap_app. f_equal.
  - apply (contents_frame h (written h d data' c content next) data).
    intros x Hin. rewrite chunk_at_written. rewrite decide_False; [done|]. by intros ->.
  - simpl. f_equal. rewrite chunk_at_written. by rewrite decide_True.
Qed.

Lemma push_back_acts h log e : heap_ok h -> is_Some (hp_logs h !! log) -> (0 <= e_term e)%Z ->
  acts_as h (push_back h log e) log (value h log ++ [e]).
Proof.
  intros Hok Hl He. destruct (detach_ready h log Hok Hl) as (d & data & Hrd & Hval).
  pose proof Hrd as [R1 R2 R3 R4 R5 R6]. unfold push_back. rewrite R4, R5.
  remember (detach h log) as h1 eqn:Eh1. pose proof (da_shape _ _ R6) as Hshape.
  rewrite (push_valid h1 data e Hshape (da_valid _ _ R6) He).
  assert (hp_next h1 ∉ dt_chunks data) as Hfresh
    by (intros Hin; apply (da_alloc _ _ R6) in Hin; lia).
  destruct (Nat.eqb_spec (dt_size data mod K) 0) as [Hm|Hm].
  - unfold new_chunk, set_data. cbn [hp_logs hp_data hp_chunks hp_next].
    set (data' := mkData (dt_chunks data ++ [hp_next h1]) _ _).
    pose proof (contents_appended h1 d data data' (hp_next h1) [e] (S (hp_next h1)) eq_refl Hfresh) as Hc.
    pose proof (shape_new _ _ e Hshape Hm) as Hs'. rewrite <- Hc in Hs'.
    apply (write_acts h h1 log d data data' (hp_next h1) [e]); try done; [lia|by left|..].
    + rewrite <- Hval. apply entries_append; [done|done|done|]. intros j Hj. rewrite Hc.
      by apply new_chunk_lookup.
    + by rewrite <- Hval.
    + intros x Hin. apply elem_of_app in Hin as [Hin|Hin]; [apply (da_alloc _ _ R6) in Hin; lia|].
      apply list_elem_of_singleton in Hin. lia.
  - destruct (last_chunk h1 data R6 Hm) as (Hlast & c & Hlc & Hcc). rewrite Hlast, Hlc. simpl default.
    pose proof (shape_extend _ _ _ e Hshape Hm Hcc) as Hs'.
    pose proof (lookup_lt_Some _ _ _ Hlc) as Hlt.
    destruct (Nat.eqb_spec (chunk_uses h1 c) 1) as [Hu|Hu].
    + set (data' := mkData (dt_chunks data) (S (dt_size data)) _).
      assert (contents (written h1 d data' c (chunk_at h1 c ++ [e]) (hp_next h1)) data' =
        <[dt_size data / K := chunk_at h1 c ++ [e]]> (contents h1 data)) as Hc.
      { apply contents_written; [done|by rewrite list_insert_id|].
        rewrite <- R5 in Hlc |- *. by apply (chunk_uses_one h1 log d log d c). }
      rewrite <- Hc in Hs'.
      apply (write_acts h h1 log d data data' c (chunk_at h1 c ++ [e]) (hp_next h1)); try done.
      * right. intros other d' Ho Hne. rewrite <- R5 in Hlc.
        by apply (chunk_uses_one h1 log d other d' c _ Hu R3 Ho Hlc).
      * rewrite <- Hval. apply entries_append; [done|done|done|]. intros j Hj. rewrite Hc.
        by apply extend_lookup.
      * by rewrite <- Hval.
      * apply (da_alloc _ _ R6).
    + unfold new_chunk, set_chunk, set_data. cbn [hp_logs hp_data hp_chunks hp_next].
      unfold chunk_at at 1. cbn [hp_chunks]. rewrite lookup_insert_eq, insert_insert_eq. simpl default.
      set (data' := mkData (<[dt_size data / K := hp_next h1]> (dt_chunks data)) (S (dt_size data)) _).
      assert (contents (written h1 d data' (hp_next h1) (chunk_at h1 c ++ [e]) (S (hp_next h1))) data' =
        <[dt_size data / K := chunk_at h1 c ++ [e]]> (contents h1 data)) as Hc.
      { apply contents_written; [done|done|]. intros j Hj. apply list_elem_of_lookup_2 in Hj. done. }
      rewrite <- Hc in Hs'.
      apply (write_acts h h1 log d data data' (hp_next h1) (chunk_at h1 c ++ [e])); try done;
        [lia|by left|..].
      * rewrite <- Hval. apply entries_append; [done|done|done|]. intros j Hj. rewrite Hc.
        by apply extend_lookup.
      * by rewrite <- Hval.
      * intros x Hin. apply list_elem_of_lookup in Hin as [j Hj].
        apply list_lookup_insert_Some in Hj as [(_ & <- & _)|[_ Hj]]; [lia|].
        apply list_elem_of_lookup_2, (da_alloc _ _ R6) in Hj. lia.
Qed.

(** ** Replacing an entry *)

Lemma shape_replace cs n i c x :
  shape cs n -> cs !! i = Some c -> length x = length c -> shape (<[i := x]> cs) n.
Proof.
  intros [Hc Hf Hl] Hi Hx. pose proof (lookup_lt_Some _ _ _ Hi). split.
  - by rewrite length_insert.
  - intros j y Hj Hlt. apply list_lookup_insert_Some in Hj as [(-> & <- & _)|[_ Hj]]; [|by apply (Hf j)].
    rewrite Hx. by apply (Hf j).
  - intros y Hm Hj. apply list_lookup_insert_Some in Hj as [(-> & <- & _)|[_ Hj]]; [|by apply Hl].
    rewrite Hx. by apply Hl.
Qed.

Lemma replace_lookup cs i c e j :
  cs !! (i / K) = Some c -> i mod K < length c ->
  entry_at_chunk (<[i / K := <[i mod K := e]> c]> cs) j =
  if decide (j = i) then Some e else entry_at_chunk cs j.
Proof.
  intros Hc Hr. pose proof (lookup_lt_Some _ _ _ Hc) as Hlt. unfold entry_at_chunk.
  destruct (decide (j / K = i / K)) as [E|E].
  - rewrite E, list_lookup_insert_eq, Hc by done. simpl. destruct (decide (j = i)) as [-> |Hne].
    + by rewrite list_lookup_insert_eq.
    + rewrite list_lookup_insert_ne; [done|]. intros Hm. apply Hne.
      destruct (split_index j) as [Hj _], (split_index i) as [Hi _]. rewrite Hj, Hi, E. lia.
  - rewrite list_lookup_insert_ne by done. rewrite decide_False; [done|]. by intros ->.
Qed.

Lemma set_entry_acts h log i e : heap_ok h -> is_Some (hp_logs h !! log) ->
  i < length (value h log) -> acts_as h (set_entry h log i e) log (<[i := e]> (value h log)).
Proof.
  intros Hok Hl Hi. destruct (detach_ready h log Hok Hl) as (d & data & Hrd & Hval).
  pose proof Hrd as [R1 R2 R3 R4 R5 R6]. unfold set_entry. rewrite R4, R5.
  remember (detach h log) as h1 eqn:Eh1. pose proof (da_shape _ _ R6) as Hshape.
  rewrite <- Hval, entries_length in Hi.
  destruct (shape_lookup _ _ _ Hshape Hi) as [x Hx]. unfold entry_at_chunk, contents in Hx.
  rewrite list_lookup_fmap in Hx. destruct (dt_chunks data !! (i / K)) as [c|] eqn:Hc; [|done].
  simpl in Hx. apply lookup_lt_Some in Hx. simpl default.
  assert (contents h1 data !! (i / K) = Some (chunk_at h1 c)) as Hcc
    by (unfold contents; by rewrite list_lookup_fmap, Hc).
  pose proof (lookup_lt_Some _ _ _ Hc) as Hlt.
  unfold new_chunk, set_data. cbn [hp_logs hp_data hp_chunks hp_next].
  set (content := <[i mod K := e]> (chunk_at h1 c)). set (data' := check_terms _ _).
  assert (contents (written h1 d data' (hp_next h1) content (S (hp_next h1))) data' =
    <[i / K := content]> (contents h1 data)) as Hcont.
  { apply contents_written; [done|done|]. intros j Hj.
    apply list_elem_of_lookup_2, (da_alloc _ _ R6) in Hj. lia. }
  assert (shape (contents (written h1 d data' (hp_next h1) content (S (hp_next h1))) data')
    (dt_size data')) as Hs'
    by (rewrite Hcont; eapply shape_replace; [done|done|unfold content; by rewrite length_insert]).
  assert (entries_of (written h1 d data' (hp_next h1) content (S (hp_next h1))) data' =
    <[i := e]> (value h log)) as Hent.
  { rewrite <- Hval. apply list_eq. intros j. rewrite entries_lookup by done.
    fold (contents (written h1 d data' (hp_next h1) content (S (hp_next h1))) data'). rewrite Hcont.
    unfold content. rewrite replace_lookup by done. change (dt_size data') with (dt_size data).
    destruct (decide (j = i)) as [-> |Hne].
    - rewrite decide_True by done. by rewrite list_lookup_insert_eq by (rewrite entries_length; done).
    - rewrite list_lookup_insert_ne by done. by rewrite entries_lookup. }
  apply (write_acts h h1 log d data data' (hp_next h1) content (S (hp_next h1))); try done;
    [lia|by left|by rewrite <- Hent|].
  intros x' Hin. apply list_elem_of_lookup in Hin as [j Hj].
  apply list_lookup_insert_Some in Hj as [(_ & <- & _)|[_ Hj]]; [lia|].
  apply list_elem_of_lookup_2, (da_alloc _ _ R6) in Hj. lia.
Qed.

(** ** Resizing *)

Lemma push_defaults_acts count : forall h log, heap_ok h -> is_Some (hp_logs h !! log) ->
  acts_as h (push_defaults h log count) log (value h log ++ replicate count zero_entry).
Proof.
  induction count as [|count IH]; intros h log Hok Hl; cbn [push_defaults replicate].
  - by rewrite app_nil_r.
  - destruct (push_back_acts h log zero_entry Hok Hl (Z.le_refl 0)) as (H1 & H2 & H3 & H4).
    destruct (IH _ log H1 (H3 log Hl)) as (H5 & H6 & H7 & H8).
    split; [done|]. split; [by rewrite H6, H2, <- app_assoc|]. split; [by eauto|].
    intros other Hne Ho. rewrite H8 by eauto. by apply H4.
Qed.

Lemma entries_cut h h' d d' m :
  shape (contents h d) (dt_size d) -> shape (contents h' d') m -> dt_size d' = m ->
  m < dt_size d -> (forall j, j < m -> entry_at_chunk (contents h' d') j = entry_at_chunk (contents h d) j) ->
  entries_of h' d' = take m (entries_of h d).
Proof.
  intros Hs Hs' Hn Hm Hj. subst m. apply list_eq. intros j. rewrite entries_lookup by done.
  fold (contents h' d'). destruct (decide (j < dt_size d')) as [H|H].
  - rewrite lookup_take_lt by done. rewrite entries_lookup by done. fold (contents h d).
    rewrite decide_True by lia. by apply Hj.
  - by rewrite lookup_take_ge by lia.
Qed.

Lemma shrink_acts h log m : heap_ok h -> is_Some (hp_logs h !! log) -> m < length (value h log) ->
  log_length h log = length (value h log) ->
  acts_as h (resize_log h log m) log (take m (value h log)).
Proof.
  intros Hok Hl Hm Hlen. destruct (detach_ready h log Hok Hl) as (d & data & Hrd & Hval).
  pose proof Hrd as [R1 R2 R3 R4 R5 R6]. unfold resize_log.
  destruct (Nat.leb_spec (log_length h log) m) as [Hx|_]; [lia|]. rewrite R4, R5.
  remember (detach h log) as h1 eqn:Eh1. pose proof (da_shape _ _ R6) as Hshape.
  rewrite <- Hval, entries_length in Hm.
  destruct (cut_facts _ _ _ Hshape Hm) as [Hkl Hkc]. pose proof (cut_shape _ _ _ Hshape Hm) as Hcs.
  assert (forall chunks, chunks = take ((m + K - 1) / K) (dt_chunks data) ->
    chunk_at h1 <$> chunks = take ((m + K - 1) / K) (contents h1 data)) as Hkept
    by (intros chunks ->; unfold contents; by rewrite fmap_take).
  destruct (Nat.eqb_spec (m mod K) 0) as [Hmod|Hmod].
  - unfold set_data. set (data' := check_terms _ _).
    assert (forall h', hp_chunks h' = hp_chunks h1 -> contents h' data' = cut_chunks (contents h1 data) m)
      as Hcont.
    { intros h' Hh'. unfold cut_chunks. rewrite Hmod. simpl (0 =? 0). cbv iota.
      rewrite <- (Hkept _ eq_refl). unfold contents, chunk_at. by rewrite Hh'. }
    set (h' := mkHeap _ _ _ _).
    assert (entries_of h' data' = take m (value h log)) as Hent.
    { rewrite <- Hval. apply entries_cut; [done|by rewrite Hcont|done|done|].
      intros j Hj. rewrite Hcont by done. by eapply cut_lookup. }
    eapply (finish h h1 h' log d data'); try done; [by subst data|].
    split; [by rewrite Hcont| |].
    + rewrite Hent, <- Hval. change (dt_valid data') with (validate_terms 0 (entries_of h' data')).
      by rewrite Hent, <- Hval.
    + intros c Hin. apply (da_alloc _ _ R6). unfold data' in Hin. cbn [dt_chunks check_terms] in Hin.
      by apply elem_of_take in Hin as (k & Hk & _); eapply list_elem_of_lookup_2.
  - destruct (Hkc Hmod) as (Hlast & x & Hx & Hkx & Hxl).
    assert (length (take ((m + K - 1) / K) (dt_chunks data)) =
      length (take ((m + K - 1) / K) (contents h1 data))) as Hll
      by (unfold contents; by rewrite <- fmap_take, length_fmap).
    rewrite Hll, Hlast. set (kept := take ((m + K - 1) / K) (dt_chunks data)) in *.
    assert (exists c, kept !! (m / K) = Some c /\ chunk_at h1 c = x) as (c & Hkc' & Hcx).
    { rewrite <- (Hkept kept eq_refl), list_lookup_fmap in Hkx.
      destruct (kept !! (m / K)) as [c|]; [|done]. simpl in Hkx. injection Hkx as <-. eauto. }
    rewrite Hkc'. simpl default. rewrite Hcx.
    unfold new_chunk, set_data. cbn [hp_logs hp_data hp_chunks hp_next].
    set (content := take (m mod K) x). set (data' := check_terms _ _).
    set (h' := mkHeap _ _ _ _). change h' with (written h1 d data' (hp_next h1) content (S (hp_next h1))) in *.
    assert (contents (written h1 d data' (hp_next h1) content (S (hp_next h1))) data' =
      cut_chunks (contents h1 data) m) as Hcont.
    { rewrite (contents_written h1 d (mkData kept m true) data' (hp_next h1) content _ (m / K));
        [|by eapply lookup_lt_Some|done|].
      - unfold cut_chunks. apply Nat.eqb_neq in Hmod as Hmod'. rewrite Hmod', Hlast, Hkx.
        unfold contents at 1. cbn [dt_chunks]. rewrite (Hkept kept eq_refl). done.
      - intros j Hj. cbn [dt_chunks] in Hj. unfold kept in Hj. apply lookup_take_Some in Hj as [Hj _].
        apply list_elem_of_lookup_2, (da_alloc _ _ R6) in Hj. lia. }
    assert (entries_of (written h1 d data' (hp_next h1) content (S (hp_next h1))) data' =
      take m (value h log)) as Hent.
    { rewrite <- Hval. apply entries_cut; [done|by rewrite Hcont|done|done|].
      intros j Hj. rewrite Hcont. by eapply cut_lookup. }
    apply (write_acts h h1 log d data data' (hp_next h1) content (S (hp_next h1))); try done;
      [lia|by left|by rewrite Hcont|by rewrite <- Hent|].
    intros y Hin. unfold data' in Hin. cbn [dt_chunks check_terms] in Hin.
    apply list_elem_of_lookup in Hin as [j Hj].
    apply list_lookup_insert_Some in Hj as [(_ & <- & _)|[_ Hj]]; [lia|].
    unfold kept in Hj. apply lookup_take_Some in Hj as [Hj _].
    apply list_elem_of_lookup_2, (da_alloc _ _ R6) in Hj. lia.
Qed.
