(* ===== verification/EntryLogRefine.v ===== *)
(** * The entry log refines a store of lists

    The observers of [EntryLogStore] read the value of a handle, comparison
    through shared chunks is comparison of values, and every sequence of
    operations on handles does what it does on a plain store of lists. *)

From S2P Require Import Prelude EntryLog EntryLogStore EntryLogStoreThms.
#[local] Open Scope nat_scope.

#[local] Abbreviation K := kChunkSize.

(** ** Handles that are redirected *)

Lemma redirect_acts h log d data next :
  heap_ok h -> data_ok h data -> d < next -> hp_next h <= next ->
  d = hp_next h \/ hp_data h !! d = Some data ->
  acts_as h (mkHeap (<[log := d]> (hp_logs h)) (<[d := data]> (hp_data h)) (hp_chunks h) next) log
    (entries_of h data).
Proof.
  intros Hok Hdata Hd Hn Hcase. set (h' := mkHeap _ _ _ _).
  assert (forall x, data_ok h x -> data_ok h' x /\ entries_of h' x = entries_of h x) as Hframe
    by (intros x Hx; by apply data_ok_frame).
  assert (forall other d', hp_logs h !! other = Some d' ->
    hp_data h' !! d' = Some (data_at h d') /\ data_ok h (data_at h d') /\ d' < hp_next h) as Hold.
  { intros other d' Ho. destruct (heap_data h other d' Hok Ho) as (_ & Hdat & Hx & Hlt).
    split; [|done]. unfold h'. cbn [hp_data]. destruct (decide (d' = d)) as [-> |Hne].
    - rewrite lookup_insert_eq. destruct Hcase as [-> |Hc]; [lia|]. by rewrite <- Hdat.
    - by rewrite lookup_insert_ne. }
  split; [|split; [|split]].
  - split. intros other d' Ho. unfold h' in Ho. cbn [hp_logs] in Ho.
    apply lookup_insert_Some in Ho as [[<- <-]|[_ Ho]].
    + split; [done|]. exists data. unfold h' at 1. cbn [hp_data]. rewrite lookup_insert_eq.
      split; [done|]. by apply Hframe.
    + destruct (Hold _ _ Ho) as (H1 & H2 & H3). split; [cbn; lia|]. eexists. split; [done|].
      by apply Hframe.
  - unfold value, data_of, data_at, h'. cbn [hp_logs hp_data]. rewrite !lookup_insert_eq. simpl.
    by apply Hframe.
  - intros other Ho. unfold h'. cbn [hp_logs]. by apply lookup_insert_is_Some'; right.
  - intros other Hne [d' Ho]. destruct (Hold _ _ Ho) as (H1 & H2 & _).
    destruct (heap_data h other d' Hok Ho) as (Hof & _).
    unfold value. rewrite Hof. assert (data_of h' other = d') as ->
      by (unfold data_of, h'; cbn [hp_logs]; by rewrite lookup_insert_ne, Ho).
    unfold data_at at 1. rewrite H1. simpl. by apply Hframe.
Qed.

Lemma empty_data_ok h : data_ok h empty_data.
Proof.
  pose proof chunk_size_pos. split; [|done|intros c Hin; by apply elem_of_nil in Hin].
  destruct (index_unique 0 0 0) as [H1 H2]; [lia|lia|].
  split; cbn [dt_size empty_data]; [by rewrite H1, H2|intros i c Hi; done|by rewrite H2].
Qed.

Lemma clear_acts h log : heap_ok h -> acts_as h (clear h log) log [].
Proof. intros Hok. apply redirect_acts; [done|apply empty_data_ok|lia|lia|by left]. Qed.

Lemma copy_acts h from to : heap_ok h -> is_Some (hp_logs h !! from) ->
  acts_as h (copy_log h from to) to (value h from).
Proof.
  intros Hok [d Hd]. destruct (heap_data h from d Hok Hd) as (Hof & Hdat & Hdok & Hlt).
  unfold copy_log, value. rewrite Hof. rewrite <- (insert_id (hp_data h) d _ Hdat) at 1.
  apply redirect_acts; [done|done|done|done|by right].
Qed.

(** ** Observers *)

Lemma log_length_value h log : log_length h log = length (value h log).
Proof. unfold value. by rewrite entries_length. Qed.

Lemma log_entry_value h log i : i < length (value h log) ->
  value h log !! i = Some (log_entry h log i).
Proof.
  unfold value. rewrite entries_length. intros Hi. unfold entries_of.
  by rewrite list_lookup_fmap, lookup_seq_lt.
Qed.

Lemma resize_acts h log count : heap_ok h -> is_Some (hp_logs h !! log) ->
  acts_as h (resize_log h log count) log (resize count zero_entry (value h log)).
Proof.
  intros Hok Hl. pose proof (log_length_value h log) as Hlen.
  destruct (decide (length (value h log) <= count)) as [Hge|Hlt].
  - unfold resize_log. destruct (Nat.leb_spec (log_length h log) count); [|lia].
    rewrite resize_ge by done. rewrite Hlen. by apply push_defaults_acts.
  - rewrite resize_le by lia. apply shrink_acts; [done|done|lia|done].
Qed.

Lemma valid_terms_value h log before maximum : heap_ok h -> is_Some (hp_logs h !! log) ->
  log_valid_terms h log before maximum = valid_terms (value h log) before maximum.
Proof.
  intros Hok [d Hd]. destruct (heap_data h log d Hok Hd) as (Hof & _ & [_ Hv _] & _).
  unfold log_valid_terms, valid_terms. pose proof (log_length_value h log) as Hlen.
  unfold log_length in Hlen. fold (log_entry h log 0).
  fold (log_entry h log (dt_size (data_at h (data_of h log)) - 1)). rewrite !Hlen.
  assert (dt_valid (data_at h (data_of h log)) = validate_terms 0 (value h log)) as ->
    by (unfold value; by rewrite Hof).
  f_equal. destruct (decide (value h log = [])) as [Hnil|Hne].
  { by rewrite Hnil, (bool_decide_eq_true_2 _ eq_refl). }
  rewrite (bool_decide_eq_false_2 _ Hne).
  assert (0 < length (value h log)) as Hpos by (destruct (value h log); [done|simpl; lia]).
  destruct (Nat.eqb_spec (length (value h log)) 0); [lia|]. simpl orb.
  unfold log_back_term, log_at, log_size. replace (Z.to_nat 0) with 0 by lia.
  replace (Z.to_nat (Z.of_nat (length (value h log)) - 1)) with (length (value h log) - 1) by lia.
  by rewrite !log_entry_value by lia.
Qed.

(** ** Comparison through shared chunks *)

(** The number of leading entries two lists agree on. *)
Fixpoint common_prefix (a b : list Entry) : nat :=
  match a, b with
  | x :: a, y :: b => if decide (x = y) then S (common_prefix a b) else 0
  | _, _ => 0
  end.

Definition prefix_result (a b : list Entry) (n : nat) : Prop :=
  n <= length a /\ n <= length b /\ (forall j, j < n -> a !! j = b !! j) /\
  (n = length a \/ n = length b \/ a !! n <> b !! n).

Lemma prefix_unique a b n : prefix_result a b n -> common_prefix a b = n.
Proof.
  revert b n. induction a as [|x a IH]; intros b n (Ha & Hb & Hj & He); simpl in *; [lia|].
  destruct b as [|y b]; simpl in *; [lia|]. destruct (decide (x = y)) as [-> |Hne].
  - destruct n as [|n]; [destruct He as [?|[?|He]]; [lia|lia|done]|]. f_equal. apply IH.
    split; [lia|]. split; [lia|]. split; [intros j Hlt; apply (Hj (S j)); lia|].
    destruct He as [?|[?|He]]; [left; lia|right; left; lia|by right; right].
  - destruct n as [|n]; [done|]. specialize (Hj 0 ltac:(lia)). simpl in Hj. congruence.
Qed.

Lemma common_prefix_same a : common_prefix a a = length a.
Proof. apply prefix_unique. split; [done|]. split; [done|]. split; [done|by left]. Qed.

Lemma first_difference_spec h a b n : forall i,
  match first_difference h a b i n with
  | Some r => i <= r < i + n /\ (forall j, i <= j < r -> entry_in h a j = entry_in h b j) /\
              entry_in h a r <> entry_in h b r
  | None => forall j, i <= j < i + n -> entry_in h a j = entry_in h b j
  end.
Proof.
  induction n as [|n IH]; intros i; cbn [first_difference]; [intros; lia|].
  destruct (decide (entry_in h a i = entry_in h b i)) as [E|E].
  - specialize (IH (S i)). destruct (first_difference h a b (S i) n) as [r|].
    + destruct IH as (H1 & H2 & H3). split; [lia|]. split; [|done]. intros j Hj.
      destruct (decide (j = i)) as [-> |]; [done|]. apply H2. lia.
    + intros j Hj. destruct (decide (j = i)) as [-> |]; [done|]. apply IH. lia.
  - split; [lia|]. split; [intros; lia|done].
Qed.

(** Entries of a chunk that both directories point to are the same. *)
Lemma shared_chunk h a b i j : i / K = j / K ->
  default 0 (dt_chunks a !! (i / K)) = default 0 (dt_chunks b !! (i / K)) ->
  entry_in h a j = entry_in h b j.
Proof. intros E Hc. unfold entry_in. by rewrite <- E, Hc. Qed.

Lemma chunk_end i : i < (i / K + 1) * K.
Proof. destruct (split_index i) as [H1 H2]. rewrite Nat.mul_add_distr_r, Nat.mul_comm. lia. Qed.

Lemma same_chunk i j : i <= j < (i / K + 1) * K -> i / K = j / K.
Proof.
  intros [H1 H2]. apply Nat.le_antisymm; [by apply Nat.Div0.div_le_mono|].
  pose proof chunk_size_pos.
  assert (j / K < i / K + 1) by (apply Nat.Div0.div_lt_upper_bound; lia). lia.
Qed.

Lemma prefix_loop_spec h a b count fuel : forall i,
  count - i < fuel -> i <= count -> (forall j, j < i -> entry_in h a j = entry_in h b j) ->
  let r := prefix_loop fuel h a b count i in
  r <= count /\ (forall j, j < r -> entry_in h a j = entry_in h b j) /\
  (r = count \/ entry_in h a r <> entry_in h b r).
Proof.
  induction fuel as [|fuel IH]; intros i Hf Hi Hj; [lia|]. cbn [prefix_loop].
  destruct (Nat.ltb_spec i count) as [Hlt|Hge].
  2: { assert (i = count) as -> by lia. eauto. }
  pose proof (chunk_end i). set (stop := Nat.min count _).
  assert (i < stop <= count) as Hstop by (unfold stop; lia).
  assert (forall j, i <= j < stop -> i / K = j / K) as Hsame
    by (intros j Hjs; apply same_chunk; unfold stop in Hjs; lia).
  assert (forall j, j < stop -> (i <= j -> entry_in h a j = entry_in h b j) ->
    entry_in h a j = entry_in h b j) as Hext
    by (intros j _ Hx; destruct (decide (i <= j)); [auto|apply Hj; lia]).
  destruct (Nat.eqb_spec (default 0 (dt_chunks a !! (i / K))) (default 0 (dt_chunks b !! (i / K))))
    as [Hc|_].
  - apply IH; [lia|lia|]. intros j Hjs. apply Hext; [done|]. intros Hij.
    apply (shared_chunk h a b i j); [by apply Hsame|done].
  - pose proof (first_difference_spec h a b (stop - i) i) as Hfd.
    destruct (first_difference h a b i (stop - i)) as [r|].
    + destruct Hfd as (H1 & H2 & H3). split; [lia|]. split; [|by right]. intros j Hjr.
      apply Hext; [lia|]. intros Hij. apply H2. lia.
    + apply IH; [lia|lia|]. intros j Hjs. apply Hext; [done|]. intros Hij. apply Hfd. lia.
Qed.

Lemma common_prefix_value h a b :
  common_prefix_size h a b = common_prefix (value h a) (value h b).
Proof.
  unfold common_prefix_size. destruct (Nat.eqb_spec (data_of h a) (data_of h b)) as [E|_].
  - unfold value at 2. rewrite <- E. fold (value h a). by rewrite common_prefix_same, log_length_value.
  - symmetry. apply prefix_unique. set (da := data_at h (data_of h a)).
    set (db := data_at h (data_of h b)). set (count := Nat.min _ _).
    assert (count = Nat.min (length (value h a)) (length (value h b))) as Hc
      by (unfold count; by rewrite !log_length_value).
    destruct (prefix_loop_spec h da db count (S count) 0) as (H1 & H2 & H3); [lia|lia|intros; lia|].
    assert (forall j, j < count -> value h a !! j = Some (entry_in h da j) /\
      value h b !! j = Some (entry_in h db j)) as Hread
      by (intros j Hj; split; apply log_entry_value; lia).
    set (r := prefix_loop _ _ _ _ _ _) in *.
    split; [lia|]. split; [lia|]. split.
    + intros j Hj. destruct (Hread j) as [-> ->]; [lia|]. by rewrite H2.
    + destruct (decide (r = count)) as [Hr|Hr]; [lia|]. right. right.
      destruct (Hread r) as [-> ->]; [lia|]. destruct H3 as [?|H3]; [done|congruence].
Qed.

Lemma common_prefix_full a b :
  length a = length b -> common_prefix a b = length a -> a = b.
Proof.
  revert b. induction a as [|x a IH]; intros [|y b] Hl Hc; simpl in *; [done..|].
  destruct (decide (x = y)) as [-> |]; [|done]. f_equal. apply IH; lia.
Qed.

Lemma log_equal_value h a b : log_equal h a b = bool_decide (value h a = value h b).
Proof.
  unfold log_equal. rewrite !log_length_value, common_prefix_value.
  destruct (decide (value h a = value h b)) as [E|E].
  - rewrite (bool_decide_eq_true_2 _ E), <- E, common_prefix_same, !Nat.eqb_refl. done.
  - rewrite (bool_decide_eq_false_2 _ E). apply andb_false_iff.
    destruct (Nat.eqb_spec (length (value h a)) (length (value h b))); [right|by left].
    apply Nat.eqb_neq. intros Hc. by apply E, common_prefix_full.
Qed.

(** ** Sequences of operations *)

(** What the code can do with [EntryLog] objects. *)
Inductive LogOp :=
| Construct (log : nat)
| Copy (from to : nat)
| Destroy (log : nat)
| PushBack (log : nat) (entry : Entry)
| SetEntry (log index : nat) (entry : Entry)
| Resize (log count : nat)
| Clear (log : nat)
| PopBack (log : nat).

Definition empty_heap : Heap := mkHeap ∅ ∅ ∅ 0.

Definition exec_op (h : Heap) (op : LogOp) : Heap :=
  match op with
  | Construct log | Clear log => clear h log
  | Copy from to => copy_log h from to
  | Destroy log => destroy h log
  | PushBack log e => push_back h log e
  | SetEntry log i e => set_entry h log i e
  | Resize log count => resize_log h log count
  | PopBack log => pop_back h log
  end.

(** The store of values: each handle has a list of its own. A use the source
    leaves undefined (a missing handle, an index out of range, [pop_back] on an
    empty log, a negative term) has no successor. *)
Definition spec_op (store : gmap nat (list Entry)) (op : LogOp) : option (gmap nat (list Entry)) :=
  match op with
  | Construct log => Some (<[log := []]> store)
  | Clear log => l ← store !! log; Some (<[log := []]> store)
  | Copy from to => l ← store !! from; Some (<[to := l]> store)
  | Destroy log => l ← store !! log; Some (delete log store)
  | PushBack log e => l ← store !! log;
      if (0 <=? e_term e)%Z then Some (<[log := l ++ [e]]> store) else None
  | SetEntry log i e => l ← store !! log;
      if (i <? length l) then Some (<[log := <[i := e]> l]> store) else None
  | Resize log count => l ← store !! log; Some (<[log := resize count zero_entry l]> store)
  | PopBack log => l ← store !! log;
      if (0 <? length l) then Some (<[log := take (length l - 1) l]> store) else None
  end.

Fixpoint spec_run (store : gmap nat (list Entry)) (ops : list LogOp)
    : option (gmap nat (list Entry)) :=
  match ops with [] => Some store | op :: ops => store ← spec_op store op; spec_run store ops end.

(** The heap represents the store. *)
Definition represents (h : Heap) (store : gmap nat (list Entry)) : Prop :=
  heap_ok h /\
  forall log l, store !! log = Some l -> is_Some (hp_logs h !! log) /\ value h log = l.

Lemma acts_represents h h' log l store :
  represents h store -> acts_as h h' log l -> is_Some (hp_logs h' !! log) ->
  represents h' (<[log := l]> store).
Proof.
  intros [Hok Hr] (H1 & H2 & H3 & H4) Hin. split; [done|]. intros other l' Ho.
  apply lookup_insert_Some in Ho as [[<- <-]|[Hne Ho]]; [done|].
  destruct (Hr _ _ Ho) as [Hsome Hval]. split; [auto|]. by rewrite H4.
Qed.

Lemma destroy_represents h store log :
  represents h store -> represents (destroy h log) (delete log store).
Proof.
  intros [Hok Hr].
  assert (forall x, data_ok h x -> data_ok (destroy h log) x /\
    entries_of (destroy h log) x = entries_of h x) as Hframe by (intros x Hx; by apply data_ok_frame).
  split.
  - split. intros other d Ho. unfold destroy in Ho. cbn [hp_logs] in Ho.
    apply lookup_delete_Some in Ho as [_ Ho].
    destruct (heap_data h other d Hok Ho) as (_ & H1 & H2 & H3). split; [done|].
    eexists. split; [done|]. by apply Hframe.
  - intros other l Ho. apply lookup_delete_Some in Ho as [Hne Ho].
    destruct (Hr _ _ Ho) as [[d Hd] Hval]. unfold value, data_of, destroy. cbn [hp_logs].
    rewrite lookup_delete_ne, Hd by done. split; [by eexists|]. rewrite <- Hval.
    unfold value, data_of. rewrite Hd. done.
Qed.

Lemma exec_represents h store op store' :
  represents h store -> spec_op store op = Some store' -> represents (exec_op h op) store'.
Proof.
  intros Hrep Hs. pose proof Hrep as [Hok Hr]. destruct op as [log|from to|log|log e|log i e|log n|log|log];
    simpl in Hs |- *.
  1: { injection Hs as <-. apply (acts_represents h _ log _ _ Hrep); [by apply clear_acts|].
       simpl. rewrite lookup_insert_eq. by eexists. }
  all: apply bind_Some in Hs as (l & Hl & Hs); destruct (Hr _ _ Hl) as [Hin Hval].
  - injection Hs as <-. eapply acts_represents; [done| |].
    + rewrite <- Hval. by apply copy_acts.
    + simpl. rewrite lookup_insert_eq. by eexists.
  - injection Hs as <-. by apply destroy_represents.
  - destruct (Z.leb_spec 0 (e_term e)); [|done]. injection Hs as <-. subst l.
    pose proof (push_back_acts h log e Hok Hin ltac:(done)) as Ha.
    eapply acts_represents; [done..|]. by apply Ha.
  - destruct (Nat.ltb_spec i (length l)); [|done]. injection Hs as <-. subst l.
    pose proof (set_entry_acts h log i e Hok Hin ltac:(done)) as Ha.
    eapply acts_represents; [done..|]. by apply Ha.
  - injection Hs as <-. subst l. pose proof (resize_acts h log n Hok Hin) as Ha.
    eapply acts_represents; [done..|]. by apply Ha.
  - injection Hs as <-. eapply acts_represents; [done|by apply clear_acts|].
    simpl. rewrite lookup_insert_eq. by eexists.
  - destruct (Nat.ltb_spec 0 (length l)); [|done]. injection Hs as <-. subst l.
    unfold pop_back. rewrite log_length_value.
    pose proof (resize_acts h log (length (value h log) - 1) Hok Hin) as Ha.
    rewrite resize_le in Ha by lia. eapply acts_represents; [done..|]. by apply Ha.
Qed.

Lemma run_represents ops : forall h store store',
  represents h store -> spec_run store ops = Some store' ->
  represents (foldl exec_op h ops) store'.
Proof.
  induction ops as [|op ops IH]; intros h store store' Hrep Hs; simpl in *; [by injection Hs as <-|].
  apply bind_Some in Hs as (mid & H1 & H2). eapply IH; [|done]. by eapply exec_represents.
Qed.

Lemma empty_represents : represents empty_heap ∅.
Proof.
  split; [split; intros log d Hl|intros log l Hl]; [unfold empty_heap in Hl; cbn [hp_logs] in Hl|];
    by rewrite lookup_empty in Hl.
Qed.

(** C33: copy-on-write never shows. After any sequence of constructions,
    copies, destructions, appends, replacements, resizes, clears and pops on any
    handles, starting from nothing, every handle reads as the list of its own
    that the same sequence gives on plain values: its size, each entry, the
    cached check of its terms, the length of the common prefix with any other
    handle and equality with it, although chunks and directories are shared and
    written in place when they are not. *)
Theorem logs_are_values (ops : list LogOp) (store : gmap nat (list Entry)) (log : nat)
    (l : list Entry) :
  spec_run ∅ ops = Some store -> store !! log = Some l ->
  let h := foldl exec_op empty_heap ops in
  log_length h log = length l /\
  (forall i, i < length l -> l !! i = Some (log_entry h log i)) /\
  (forall before maximum, log_valid_terms h log before maximum = valid_terms l before maximum) /\
  (forall other l', store !! other = Some l' ->
     common_prefix_size h log other = common_prefix l l' /\
     log_equal h log other = bool_decide (l = l')).
Proof.
  intros Hs Hl h. destruct (run_represents ops _ _ _ empty_represents Hs) as [Hok Hr]. fold h in Hok, Hr.
  destruct (Hr _ _ Hl) as [Hin <-]. split; [apply log_length_value|].
  split; [intros i Hi; by apply log_entry_value|].
  split; [intros; by apply valid_terms_value|]. intros other l' Ho. destruct (Hr _ _ Ho) as [_ <-].
  split; [apply common_prefix_value|apply log_equal_value].
Qed.

(** Two handles that share a chunk: the second appends to its copy. *)
Definition sample_ops : list LogOp :=
  [Construct 0; PushBack 0 (mkEntry 1 "a"); Copy 0 1; PushBack 1 (mkEntry 1 "b");
   SetEntry 0 0 (mkEntry 2 "c"); Resize 0 2; PopBack 0].

Lemma logs_are_values_witness :
  log_length (foldl exec_op empty_heap sample_ops) 1 = 2 /\
  common_prefix_size (foldl exec_op empty_heap sample_ops) 0 1 = 0.
Proof.
  pose proof (logs_are_values sample_ops
    (<[1 := [mkEntry 1 "a"; mkEntry 1 "b"]]> {[0 := [mkEntry 2 "c"]]}) 1
    [mkEntry 1 "a"; mkEntry 1 "b"]) as H1.
  pose proof (logs_are_values sample_ops
    (<[1 := [mkEntry 1 "a"; mkEntry 1 "b"]]> {[0 := [mkEntry 2 "c"]]}) 0 [mkEntry 2 "c"]) as H0.
  split.
  - destruct H1 as (H1 & _); [vm_compute; reflexivity..|]. exact H1.
  - destruct H0 as (_ & _ & _ & H0); [vm_compute; reflexivity..|].
    destruct (H0 1 [mkEntry 1 "a"; mkEntry 1 "b"]) as [-> _]; vm_compute; reflexivity.
Defined.
