(* ===== verification/Transition.v ===== *)
(** * The pure Raft transition core

    [cpp-runtime/include/choreoos/raft/transition.hpp] and
    [cpp-runtime/src/raft/transition.cpp]: the data of the core, its helper
    functions and [step], one handler per input. A handler that mutates the
    node and its effects returns both. *)

From S2P Require Import Prelude EntryLog.

(** ** Data *)

Inductive Role := Follower | Candidate | Leader.

Record Durable := mkDurable {
  d_term : Z;
  d_voted_for : option string;
  d_log : list Entry;
  d_commit : Z;
  d_applied : Z;
  d_snapshot_index : Z;
  d_snapshot_term : Z;
}.

Record RequestVote := mkRequestVote {
  rv_term : Z; rv_candidate : string; rv_last_index : Z; rv_last_term : Z;
  rv_request_id : Z }.

Record VoteReply := mkVoteReply {
  vr_term : Z; vr_voter : string; vr_granted : bool; vr_request_id : Z }.

Record AppendEntries := mkAppendEntries {
  ae_term : Z; ae_leader : string; ae_prev_index : Z; ae_prev_term : Z;
  ae_entries : list Entry; ae_leader_commit : Z; ae_request_id : Z }.

Record AppendReply := mkAppendReply {
  ar_term : Z; ar_follower : string; ar_success : bool; ar_hint : Z;
  ar_request_id : Z; ar_matched : Z }.

Record SnapshotRequest := mkSnapshotRequest {
  sr_term : Z; sr_leader : string; sr_index : Z; sr_snapshot_term : Z;
  sr_request_id : Z; sr_ready : bool }.

Record SnapshotReply := mkSnapshotReply {
  sp_term : Z; sp_follower : string; sp_success : bool; sp_index : Z;
  sp_request_id : Z }.

Inductive WireMessage :=
| MRequestVote (m : RequestVote)
| MVoteReply (m : VoteReply)
| MAppendEntries (m : AppendEntries)
| MAppendReply (m : AppendReply)
| MSnapshotReply (m : SnapshotReply).

Record Outbound := mkOutbound { o_to : string; o_message : WireMessage }.

Record SnapshotNeeded := mkSnapshotNeeded {
  sn_peer : string; sn_index : Z; sn_term : Z; sn_request_id : Z }.

Record Probe := mkProbe {
  pr_request_id : Z; pr_term : Z; pr_prev : Z; pr_count : Z;
  pr_request : option AppendEntries }.

Record PeerProgress := mkPeerProgress {
  pp_next : Z;
  pp_match : Z;
  pp_in_flight : option Probe;
  pp_snapshot_in_flight : option SnapshotNeeded }.

Record ReadBarrier := mkReadBarrier {
  rb_context : Z; rb_term : Z; rb_index : Z;
  rb_acknowledgements : gset string;
  rb_probes : gmap string Z }.

Inductive ReadStatus := Ready | NotLeader | NotReady | Busy | Cancelled | Unavailable.

Record ReadResult := mkReadResult {
  rr_context : Z; rr_status : ReadStatus; rr_term : Z; rr_index : Z }.

Record Volatile := mkVolatile {
  v_role : Role;
  v_votes : gset string;
  v_peers : gmap string PeerProgress;
  v_leadership_epoch : Z;
  v_read : option ReadBarrier }.

Record PendingWrite := mkPendingWrite {
  pw_token : Z;
  pw_target : Durable;
  pw_after : list Outbound;
  pw_apply_after : list Entry;
  pw_self_vote : bool;
  pw_snapshot_after : list SnapshotNeeded }.

Record Node := mkNode {
  n_durable : Durable;
  n_volatile : Volatile;
  n_pending : option PendingWrite;
  n_next_token : Z;
  n_next_request_id : Z;
  n_halted : bool }.

Record Config := mkConfig { c_self : string; c_peers : list string }.

Inductive Input :=
| ElectionTimeout
| HeartbeatTimeout
| ClientPropose (command : string)
| RecvRequestVote (message : RequestVote)
| RecvVoteReply (message : VoteReply)
| RecvAppend (message : AppendEntries)
| RecvAppendReply (message : AppendReply)
| AdvanceCommit
| ApplyCommitted
| CompactCommitted
| RecvSnapshot (message : SnapshotRequest)
| RecvSnapshotReply (message : SnapshotReply)
| BeginRead (context : Z)
| CancelRead (context : Z)
| PersistCompleted (token : Z)
| PersistFailed (token : Z)
| Restart.

Inductive PersistKind := StateUpdate | LocalCompaction | SnapshotInstall.

Record PersistRequest := mkPersistRequest {
  pq_token : Z; pq_target : Durable; pq_kind : PersistKind }.

Record Effects := mkEffects {
  f_persist : option PersistRequest;
  f_send_now : list Outbound;
  f_apply : list Entry;
  f_halt : bool;
  f_capacity_exhausted : bool;
  f_snapshot_needed : list SnapshotNeeded;
  f_read : option ReadResult }.

#[export] Instance Durable_eq_dec : EqDecision Durable.
Proof. solve_decision. Defined.

#[export] Instance Role_eq_dec : EqDecision Role.
Proof. solve_decision. Defined.

(** Default-initialised structures of the source. *)
Definition empty_durable : Durable := mkDurable 0 None [] 0 0 0 0.

Definition default_progress : PeerProgress := mkPeerProgress 1 0 None None.

Definition no_effects : Effects := mkEffects None [] [] false false [] None.

(** ** Field updates (assignments of the source) *)

Definition d_with_term_vote (t : Z) (v : option string) (d : Durable) : Durable :=
  mkDurable t v (d_log d) (d_commit d) (d_applied d) (d_snapshot_index d) (d_snapshot_term d).

Definition d_with_log (l : list Entry) (d : Durable) : Durable :=
  mkDurable (d_term d) (d_voted_for d) l (d_commit d) (d_applied d) (d_snapshot_index d)
    (d_snapshot_term d).

Definition d_with_commit (c : Z) (d : Durable) : Durable :=
  mkDurable (d_term d) (d_voted_for d) (d_log d) c (d_applied d) (d_snapshot_index d)
    (d_snapshot_term d).

Definition d_with_applied (a : Z) (d : Durable) : Durable :=
  mkDurable (d_term d) (d_voted_for d) (d_log d) (d_commit d) a (d_snapshot_index d)
    (d_snapshot_term d).

Definition d_with_snapshot (i t : Z) (l : list Entry) (d : Durable) : Durable :=
  mkDurable (d_term d) (d_voted_for d) l (d_commit d) (d_applied d) i t.

Definition v_with_role (r : Role) (v : Volatile) : Volatile :=
  mkVolatile r (v_votes v) (v_peers v) (v_leadership_epoch v) (v_read v).

Definition v_with_votes (s : gset string) (v : Volatile) : Volatile :=
  mkVolatile (v_role v) s (v_peers v) (v_leadership_epoch v) (v_read v).

Definition v_with_peers (p : gmap string PeerProgress) (v : Volatile) : Volatile :=
  mkVolatile (v_role v) (v_votes v) p (v_leadership_epoch v) (v_read v).

Definition v_with_epoch (e : Z) (v : Volatile) : Volatile :=
  mkVolatile (v_role v) (v_votes v) (v_peers v) e (v_read v).

Definition v_with_read (r : option ReadBarrier) (v : Volatile) : Volatile :=
  mkVolatile (v_role v) (v_votes v) (v_peers v) (v_leadership_epoch v) r.

Definition n_with_durable (d : Durable) (n : Node) : Node :=
  mkNode d (n_volatile n) (n_pending n) (n_next_token n) (n_next_request_id n) (n_halted n).

Definition n_with_volatile (v : Volatile) (n : Node) : Node :=
  mkNode (n_durable n) v (n_pending n) (n_next_token n) (n_next_request_id n) (n_halted n).

Definition n_with_pending (p : option PendingWrite) (n : Node) : Node :=
  mkNode (n_durable n) (n_volatile n) p (n_next_token n) (n_next_request_id n) (n_halted n).

Definition n_with_next_token (t : Z) (n : Node) : Node :=
  mkNode (n_durable n) (n_volatile n) (n_pending n) t (n_next_request_id n) (n_halted n).

Definition n_with_next_request_id (r : Z) (n : Node) : Node :=
  mkNode (n_durable n) (n_volatile n) (n_pending n) (n_next_token n) r (n_halted n).

Definition n_with_halted (h : bool) (n : Node) : Node :=
  mkNode (n_durable n) (n_volatile n) (n_pending n) (n_next_token n) (n_next_request_id n) h.

Definition f_with_persist (p : option PersistRequest) (f : Effects) : Effects :=
  mkEffects p (f_send_now f) (f_apply f) (f_halt f) (f_capacity_exhausted f)
    (f_snapshot_needed f) (f_read f).

Definition f_with_sends (s : list Outbound) (n : list SnapshotNeeded) (f : Effects) : Effects :=
  mkEffects (f_persist f) s (f_apply f) (f_halt f) (f_capacity_exhausted f) n (f_read f).

Definition f_with_halt (f : Effects) : Effects :=
  mkEffects (f_persist f) (f_send_now f) (f_apply f) true (f_capacity_exhausted f)
    (f_snapshot_needed f) (f_read f).

Definition f_with_capacity (f : Effects) : Effects :=
  mkEffects (f_persist f) (f_send_now f) (f_apply f) (f_halt f) true
    (f_snapshot_needed f) (f_read f).

Definition f_with_read (r : option ReadResult) (f : Effects) : Effects :=
  mkEffects (f_persist f) (f_send_now f) (f_apply f) (f_halt f) (f_capacity_exhausted f)
    (f_snapshot_needed f) r.

(** [effects.send_now.push_back(...)] *)
Definition send_now (o : Outbound) (f : Effects) : Effects :=
  f_with_sends (f_send_now f ++ [o]) (f_snapshot_needed f) f.

(** ** Helper functions *)

Definition quorum (config : Config) : nat :=
  Nat.div (length (c_peers config) + 1) 2 + 1.

Definition known_peer (state : Node) (id : string) : bool :=
  is_some (v_peers (n_volatile state) !! id).

Definition last_index (state : Durable) : Z :=
  wrap64 (d_snapshot_index state + log_size (d_log state)).

Definition valid_durable (state : Durable) : bool :=
  if negb (eqb (d_snapshot_index state =? 0) (d_snapshot_term state =? 0)) ||
     (d_term state <? d_snapshot_term state) ||
     (max_u64 - d_snapshot_index state <? log_size (d_log state)) ||
     (last_index state =? max_u64) ||
     (d_applied state <? d_snapshot_index state) ||
     (d_commit state <? d_applied state) ||
     (last_index state <? d_commit state)
  then false
  else (log_size (d_log state) <=? kMaximumEntries) &&
       valid_terms (d_log state) (d_snapshot_term state) (d_term state).

Definition term_at (state : Durable) (index : Z) : option Z :=
  if index =? d_snapshot_index state then Some (d_snapshot_term state)
  else if (index <? d_snapshot_index state) || (last_index state <? index) then None
  else Some (e_term (log_at (d_log state) (index - d_snapshot_index state - 1))).

Definition last_term (state : Durable) : Z :=
  if bool_decide (d_log state = []) then d_snapshot_term state
  else log_back_term (d_log state).

Definition up_to_date (self : Durable) (term index : Z) : bool :=
  let ours := last_term self in
  (ours <? term) || ((term =? ours) && (last_index self <=? index)).

Definition begin_write (state : Node) (effects : Effects) (target : Durable)
    (after : list Outbound) (apply_after : list Entry) (self_vote : bool)
    (snapshot_after : list SnapshotNeeded) (kind : PersistKind) : Node * Effects :=
  let token := n_next_token state in
  let state := n_with_next_token (wrap64 (token + 1)) state in
  (n_with_pending
     (Some (mkPendingWrite token target after apply_after self_vote snapshot_after)) state,
   f_with_persist (Some (mkPersistRequest token target kind)) effects).

(** [state.volatile_state.peers[peer] = progress] *)
Definition set_progress (peer : string) (progress : PeerProgress) (state : Node) : Node :=
  n_with_volatile
    (v_with_peers (<[peer := progress]> (v_peers (n_volatile state))) (n_volatile state)) state.

(** [if (read) read->probes.insert_or_assign(peer, id)] *)
Definition record_read_probe (peer : string) (id : Z) (v : Volatile) : Volatile :=
  v_with_read
    (match v_read v with
     | Some b => Some (mkReadBarrier (rb_context b) (rb_term b) (rb_index b)
                         (rb_acknowledgements b) (<[peer := id]> (rb_probes b)))
     | None => None
     end) v.

Definition send_append (config : Config) (state : Node) (log : Durable) (peer : string)
    (out : list Outbound) (snapshots : list SnapshotNeeded)
    : Node * list Outbound * list SnapshotNeeded :=
  match v_peers (n_volatile state) !! peer with
  | None => (state, out, snapshots)
  | Some progress =>
    if is_some (pp_in_flight progress) then (state, out, snapshots)
    else match pp_snapshot_in_flight progress with
    | Some request => (state, out, snapshots ++ [request])
    | None =>
      let next := Z.max 1 (pp_next progress) in
      let id := n_next_request_id state in
      if next <=? d_snapshot_index log then
        let request := mkSnapshotNeeded peer (d_snapshot_index log) (d_snapshot_term log) id in
        let state := n_with_next_request_id (wrap64 (id + 1)) state in
        let state := set_progress peer
          (mkPeerProgress (pp_next progress) (pp_match progress) (pp_in_flight progress)
             (Some request)) state in
        (state, out, snapshots ++ [request])
      else if wrap64 (last_index log + 1) <? next then (state, out, snapshots)
      else
        let prev := next - 1 in
        match term_at log prev with
        | None => (state, out, snapshots)
        | Some prev_term =>
          let entries :=
            if next <=? last_index log
            then [log_at (d_log log) (next - d_snapshot_index log - 1)] else [] in
          let state := n_with_next_request_id (wrap64 (id + 1)) state in
          let message := mkAppendEntries (d_term log) (c_self config) prev prev_term entries
                           (d_commit log) id in
          let state := set_progress peer
            (mkPeerProgress (pp_next progress) (pp_match progress)
               (Some (mkProbe id (d_term log) prev (log_size entries) (Some message)))
               (pp_snapshot_in_flight progress)) state in
          let state := n_with_volatile (record_read_probe peer id (n_volatile state)) state in
          (state, out ++ [mkOutbound peer (MAppendEntries message)], snapshots)
        end
    end
  end.

(** One iteration of the loop of [become_leader]. *)
Definition lead_peer (config : Config) (acc : Node * list Outbound * list SnapshotNeeded)
    (peer : string) : Node * list Outbound * list SnapshotNeeded :=
  let '(state, out, snapshots) := acc in
  let state := set_progress peer
    (mkPeerProgress (wrap64 (last_index (n_durable state) + 1)) 0 None None) state in
  send_append config state (n_durable state) peer out snapshots.

Definition become_leader (config : Config) (state : Node) (effects : Effects) : Node * Effects :=
  let v := n_volatile state in
  let state := n_with_volatile
    (v_with_epoch (wrap64 (v_leadership_epoch v + 1)) (v_with_role Leader v)) state in
  let '(state, out, snapshots) :=
    foldl (lead_peer config) (state, f_send_now effects, f_snapshot_needed effects)
      (sorted_keys (v_peers (n_volatile state))) in
  (state, f_with_sends out snapshots effects).

Definition reset_in_flight (progress : PeerProgress) : PeerProgress :=
  mkPeerProgress (pp_next progress) (pp_match progress) None None.

Definition step_down (state : Node) (effects : Effects) : Node * Effects :=
  let v := n_volatile state in
  let effects :=
    match v_read v with
    | Some b => f_with_read (Some (mkReadResult (rb_context b) NotLeader 0 0)) effects
    | None => effects
    end in
  (n_with_volatile
     (mkVolatile Follower ∅ (reset_in_flight <$> v_peers v) (v_leadership_epoch v) None) state,
   effects).

(** The votes counted for index [n]: the leader and every peer whose
    [match] reaches it. *)
Definition replica_count (state : Node) (n : Z) : nat :=
  S (length (filter (fun p => n <= pp_match p.2) (map_to_list (v_peers (n_volatile state))))).

(** The loop of [highest_committable] at [n = commit + k], counting down. *)
Fixpoint highest_committable_from (config : Config) (state : Node) (k : nat) : Z :=
  let d := n_durable state in
  match k with
  | O => d_commit d
  | S k' =>
      let n := d_commit d + Z.of_nat k in
      if negb (e_term (log_at (d_log d) (n - d_snapshot_index d - 1)) =? d_term d)
      then highest_committable_from config state k'
      else if Nat.leb (quorum config) (replica_count state n) then n
      else highest_committable_from config state k'
  end.

Definition highest_committable (config : Config) (state : Node) : Z :=
  highest_committable_from config state
    (Z.to_nat (last_index (n_durable state) - d_commit (n_durable state))).

Definition complete_read (config : Config) (state : Node) (effects : Effects) : Node * Effects :=
  match v_read (n_volatile state) with
  | Some read =>
      if bool_decide (v_role (n_volatile state) = Leader) &&
         (rb_term read =? d_term (n_durable state)) &&
         Nat.leb (quorum config) (size (rb_acknowledgements read)) &&
         (rb_index read <=? d_applied (n_durable state))
      then (n_with_volatile (v_with_read None (n_volatile state)) state,
            f_with_read (Some (mkReadResult (rb_context read) Ready (rb_term read)
                                 (rb_index read))) effects)
      else (state, effects)
  | None => (state, effects)
  end.

Definition initial_peers (config : Config) : gmap string PeerProgress :=
  foldl (fun peers peer =>
           match peers !! peer with
           | Some _ => peers
           | None => <[peer := default_progress]> peers
           end) ∅ (c_peers config).

Definition initial_volatile (config : Config) : Volatile :=
  mkVolatile Follower ∅ (initial_peers config) 0 None.

Definition initial (config : Config) : Node :=
  mkNode empty_durable (initial_volatile config) None 1 1 false.

(** ** Input handlers, one per branch of [step] *)

(** [if (effects.read) effects.read->status = ReadStatus::Unavailable] *)
Definition read_unavailable (effects : Effects) : Effects :=
  match f_read effects with
  | Some r => f_with_read (Some (mkReadResult (rr_context r) Unavailable (rr_term r)
                                   (rr_index r))) effects
  | None => effects
  end.

(** Fail-stop: the invalid-state guard and a failed write share this code. *)
Definition fail_stop (state : Node) : Node * Effects :=
  let state := n_with_pending None state in
  let '(state, effects) := step_down state no_effects in
  (n_with_halted true state, read_unavailable (f_with_halt effects)).

Definition on_persist_completed (config : Config) (state : Node) (token : Z) : Node * Effects :=
  match n_pending state with
  | Some pending =>
      if (pw_token pending =? token) && negb (n_halted state) then
        let state := n_with_pending None state in
        let state := n_with_durable (pw_target pending) state in
        let effects := mkEffects None (pw_after pending) (pw_apply_after pending) false false
                         (pw_snapshot_after pending) None in
        let '(state, effects) := complete_read config state effects in
        if pw_self_vote pending then
          let votes := {[c_self config]} ∪ v_votes (n_volatile state) in
          let state := n_with_volatile (v_with_votes votes (n_volatile state)) state in
          if Nat.leb (quorum config) (size votes) then become_leader config state effects
          else (state, effects)
        else (state, effects)
      else (state, no_effects)
  | None => (state, no_effects)
  end.

Definition on_persist_failed (state : Node) (token : Z) : Node * Effects :=
  match n_pending state with
  | Some pending =>
      if (pw_token pending =? token) && negb (n_halted state) then fail_stop state
      else (state, no_effects)
  | None => (state, no_effects)
  end.

Definition on_restart (config : Config) (state : Node) : Node * Effects :=
  let effects :=
    match v_read (n_volatile state) with
    | Some b => f_with_read (Some (mkReadResult (rb_context b) Cancelled 0 0)) no_effects
    | None => no_effects
    end in
  let state := n_with_halted false (n_with_pending None state) in
  (n_with_volatile (initial_volatile config) state, effects).

Definition on_cancel_read (state : Node) (context : Z) : Node * Effects :=
  match v_read (n_volatile state) with
  | Some b =>
      if rb_context b =? context
      then (n_with_volatile (v_with_read None (n_volatile state)) state,
            f_with_read (Some (mkReadResult context Cancelled 0 0)) no_effects)
      else (state, no_effects)
  | None => (state, no_effects)
  end.

(** [send_append] to every configured peer, in configuration order. *)
Definition send_append_all (config : Config) (state : Node) (log : Durable)
    (out : list Outbound) (snapshots : list SnapshotNeeded)
    : Node * list Outbound * list SnapshotNeeded :=
  foldl (fun '(state, out, snapshots) peer => send_append config state log peer out snapshots)
    (state, out, snapshots) (c_peers config).

Definition on_begin_read (config : Config) (state : Node) (context : Z) : Node * Effects :=
  let refuse status := (state, f_with_read (Some (mkReadResult context status 0 0)) no_effects) in
  let d := n_durable state in
  if n_halted state || is_some (n_pending state) then
    refuse (if n_halted state then Unavailable else Busy)
  else if is_some (v_read (n_volatile state)) then refuse Busy
  else if negb (bool_decide (v_role (n_volatile state) = Leader)) then refuse NotLeader
  else if (d_commit d =? 0) || negb (bool_decide (term_at d (d_commit d) = Some (d_term d)))
  then refuse NotReady
  else
    let barrier := mkReadBarrier context (d_term d) (d_commit d) {[c_self config]} ∅ in
    let state := n_with_volatile (v_with_read (Some barrier) (n_volatile state)) state in
    let '(state, out, snapshots) := send_append_all config state d [] [] in
    complete_read config state (f_with_sends out snapshots no_effects).

Definition on_compact_committed (state : Node) : Node * Effects :=
  let durable := n_durable state in
  if negb (d_applied durable =? d_commit durable) ||
     (d_commit durable =? d_snapshot_index durable)
  then (state, no_effects)
  else match term_at durable (d_commit durable) with
  | None => (state, no_effects)
  | Some boundary_term =>
      let removed := d_commit durable - d_snapshot_index durable in
      let target := d_with_snapshot (d_commit durable) boundary_term
                      (drop (Z.to_nat removed) (d_log durable)) durable in
      begin_write state no_effects target [] [] false [] LocalCompaction
  end.

Definition on_snapshot (config : Config) (state : Node) (m : SnapshotRequest) : Node * Effects :=
  let durable := n_durable state in
  if negb (known_peer state (sr_leader m)) || (sr_term m =? 0) || (sr_index m =? 0) ||
     (sr_index m =? max_u64) || (sr_snapshot_term m =? 0) ||
     (sr_term m <? sr_snapshot_term m)
  then (state, no_effects)
  else if (d_commit durable <? sr_index m) &&
          match term_at durable (d_commit durable) with
          | Some committed_term => sr_snapshot_term m <? committed_term
          | None => false
          end
  then (state, no_effects)
  else
    let reply term success :=
      mkOutbound (sr_leader m)
        (MSnapshotReply (mkSnapshotReply term (c_self config) success
                           (if (success : bool) then sr_index m else 0) (sr_request_id m))) in
    if sr_term m <? d_term durable then
      (state, send_now (reply (d_term durable) false) no_effects)
    else
      let target := if d_term durable <? sr_term m
                    then d_with_term_vote (sr_term m) None durable else durable in
      let '(state, effects) := step_down state no_effects in
      if negb (sr_ready m) then
        if bool_decide (target = durable) then (state, effects)
        else begin_write state effects target [] [] false [] StateUpdate
      else
        let installed := d_commit target <? sr_index m in
        let target :=
          if installed then
            let suffix :=
              if bool_decide (term_at target (sr_index m) = Some (sr_snapshot_term m))
              then drop (Z.to_nat (sr_index m - d_snapshot_index target)) (d_log target)
              else [] in
            d_with_applied (sr_index m)
              (d_with_commit (sr_index m)
                 (d_with_snapshot (sr_index m) (sr_snapshot_term m) suffix target))
          else target in
        let success :=
          installed || bool_decide (term_at target (sr_index m) = Some (sr_snapshot_term m)) in
        let response := reply (d_term target) success in
        if bool_decide (target = durable) then (state, send_now response effects)
        else begin_write state effects target [response] [] false []
               (if installed then SnapshotInstall else StateUpdate).

(** A reply from a higher term: stage the term, drop the vote, step down. *)
Definition observe_higher_term (state : Node) (term : Z) : Node * Effects :=
  let target := d_with_term_vote term None (n_durable state) in
  let '(state, effects) := step_down state no_effects in
  begin_write state effects target [] [] false [] StateUpdate.

Definition on_snapshot_reply (state : Node) (m : SnapshotReply) : Node * Effects :=
  if negb (known_peer state (sp_follower m)) then (state, no_effects)
  else if d_term (n_durable state) <? sp_term m then observe_higher_term state (sp_term m)
  else if (sp_term m =? d_term (n_durable state)) &&
          bool_decide (v_role (n_volatile state) = Leader)
  then match v_peers (n_volatile state) !! sp_follower m with
  | None => (state, no_effects)
  | Some progress =>
      match pp_snapshot_in_flight progress with
      | Some probe =>
          if (sn_request_id probe =? sp_request_id m) &&
             (negb (sp_success m) || (sn_index probe =? sp_index m))
          then
            let progress :=
              if sp_success m then
                let mtch := Z.max (pp_match progress) (sn_index probe) in
                mkPeerProgress (wrap64 (mtch + 1)) mtch (pp_in_flight progress) None
              else mkPeerProgress (pp_next progress) (pp_match progress)
                     (pp_in_flight progress) None in
            (set_progress (sp_follower m) progress state, no_effects)
          else (state, no_effects)
      | None => (state, no_effects)
      end
  end
  else (state, no_effects).

(** The [RequestVote]s of an election, with consecutive request ids. *)
Fixpoint vote_requests (config : Config) (target : Durable) (id : Z) (peers : list string)
    : list Outbound * Z :=
  match peers with
  | [] => ([], id)
  | peer :: rest =>
      let '(out, next) := vote_requests config target (wrap64 (id + 1)) rest in
      (mkOutbound peer (MRequestVote (mkRequestVote (d_term target) (c_self config)
                                        (last_index target) (last_term target) id)) :: out,
       next)
  end.

Definition on_election_timeout (config : Config) (state : Node) : Node * Effects :=
  if negb (bool_decide (v_role (n_volatile state) = Leader)) &&
     negb (d_term (n_durable state) =? max_u64)
  then
    let target := d_with_term_vote (d_term (n_durable state) + 1) (Some (c_self config))
                    (n_durable state) in
    let '(state, effects) := step_down state no_effects in
    let state := n_with_volatile (v_with_role Candidate (n_volatile state)) state in
    let '(after, next) := vote_requests config target (n_next_request_id state)
                            (c_peers config) in
    let state := n_with_next_request_id next state in
    begin_write state effects target after [] true [] StateUpdate
  else (state, no_effects).

Definition on_request_vote (config : Config) (state : Node) (m : RequestVote) : Node * Effects :=
  let durable := n_durable state in
  if negb (known_peer state (rv_candidate m)) || (rv_term m =? 0) ||
     (rv_term m <? rv_last_term m) ||
     negb (eqb (rv_last_index m =? 0) (rv_last_term m =? 0))
  then (state, no_effects)
  else if rv_term m <? d_term durable then
    (state, send_now (mkOutbound (rv_candidate m)
                        (MVoteReply (mkVoteReply (d_term durable) (c_self config) false
                                       (rv_request_id m)))) no_effects)
  else
    let higher := d_term durable <? rv_term m in
    let target := if higher then d_with_term_vote (rv_term m) None durable else durable in
    let '(state, effects) :=
      if higher then step_down state no_effects else (state, no_effects) in
    let grant :=
      (bool_decide (d_voted_for target = None) ||
       bool_decide (d_voted_for target = Some (rv_candidate m))) &&
      up_to_date target (rv_last_term m) (rv_last_index m) in
    let target :=
      if grant then d_with_term_vote (d_term target) (Some (rv_candidate m)) target
      else target in
    let reply := mkOutbound (rv_candidate m)
                   (MVoteReply (mkVoteReply (d_term target) (c_self config) grant
                                  (rv_request_id m))) in
    if bool_decide (target = durable) then (state, send_now reply effects)
    else begin_write state effects target [reply] [] false [] StateUpdate.

Definition on_vote_reply (config : Config) (state : Node) (m : VoteReply) : Node * Effects :=
  if negb (known_peer state (vr_voter m)) then (state, no_effects)
  else if d_term (n_durable state) <? vr_term m then observe_higher_term state (vr_term m)
  else if (vr_term m =? d_term (n_durable state)) && vr_granted m &&
          bool_decide (v_role (n_volatile state) = Candidate) &&
          known_peer state (vr_voter m)
  then
    let votes := {[vr_voter m]} ∪ v_votes (n_volatile state) in
    let state := n_with_volatile (v_with_votes votes (n_volatile state)) state in
    if Nat.leb (quorum config) (size votes) then become_leader config state no_effects
    else (state, no_effects)
  else (state, no_effects).

Definition on_client_propose (config : Config) (state : Node) (command : string)
    : Node * Effects :=
  let durable := n_durable state in
  let leader := bool_decide (v_role (n_volatile state) = Leader) in
  if leader && (kMaximumEntries <=? log_size (d_log durable)) then
    (state, f_with_capacity no_effects)
  else if leader && negb (bool_decide (command = ""%string)) &&
          (last_index durable <? max_u64 - 1)
  then
    let target := d_with_log (d_log durable ++ [mkEntry (d_term durable) command]) durable in
    let '(state, after, snapshots) := send_append_all config state target [] [] in
    begin_write state no_effects target after [] false snapshots StateUpdate
  else (state, no_effects).

(** One iteration of the loop of [HeartbeatTimeout]. *)
Definition heartbeat_peer (config : Config) (acc : Node * list Outbound * list SnapshotNeeded)
    (peer : string) : Node * list Outbound * list SnapshotNeeded :=
  let '(state, out, snapshots) := acc in
  match v_peers (n_volatile state) !! peer with
  | None => acc
  | Some progress =>
      match pp_in_flight progress with
      | Some probe =>
          match pr_request probe with
          | Some request => (state, out ++ [mkOutbound peer (MAppendEntries request)], snapshots)
          | None => acc
          end
      | None => send_append config state (n_durable state) peer out snapshots
      end
  end.

Definition on_heartbeat (config : Config) (state : Node) : Node * Effects :=
  if bool_decide (v_role (n_volatile state) = Leader) then
    let '(state, out, snapshots) :=
      foldl (heartbeat_peer config) (state, [], [])
        (sorted_keys (v_peers (n_volatile state))) in
    (state, f_with_sends out snapshots no_effects)
  else (state, no_effects).

(** The loop that checks the terms of the received entries. *)
Fixpoint entry_terms_ok (previous_term term : Z) (entries : list Entry) : bool :=
  match entries with
  | [] => true
  | entry :: rest =>
      if (e_term entry =? 0) || (e_term entry <? previous_term) || (term <? e_term entry)
      then false
      else entry_terms_ok (e_term entry) term rest
  end.

Definition append_malformed (m : AppendEntries) : bool :=
  (ae_term m =? 0) || (ae_prev_index m =? max_u64) ||
  (max_u64 - 1 - ae_prev_index m <? log_size (ae_entries m)) ||
  (ae_term m <? ae_prev_term m) ||
  negb (eqb (ae_prev_index m =? 0) (ae_prev_term m =? 0)).

(** The loop that merges the received entries into [target.log]; [index] is
    the index of the first of [entries]. The result is the target, [success]
    and [hint]; a conflict at or below the commit index breaks the loop. *)
Fixpoint merge_entries (target : Durable) (index : Z) (entries : list Entry) (hint : Z)
    : Durable * bool * Z :=
  match entries with
  | [] => (target, true, hint)
  | entry :: rest =>
      let offset := index - d_snapshot_index target - 1 in
      let conflict := (index <=? last_index target) &&
                      negb (bool_decide (log_at (d_log target) offset = entry)) in
      if conflict && (index <=? d_commit target) then (target, false, d_commit target)
      else
        let target := if conflict then d_with_log (log_resize (d_log target) offset) target
                      else target in
        let target := if index =? wrap64 (last_index target + 1)
                      then d_with_log (d_log target ++ [entry]) target else target in
        merge_entries target (index + 1) rest hint
  end.

Definition on_append (config : Config) (state : Node) (m : AppendEntries) : Node * Effects :=
  let durable := n_durable state in
  let reply term success hint matched :=
    mkOutbound (ae_leader m)
      (MAppendReply (mkAppendReply term (c_self config) success hint (ae_request_id m)
                       matched)) in
  if negb (known_peer state (ae_leader m)) then (state, no_effects)
  else if append_malformed m then (state, no_effects)
  else if negb (entry_terms_ok (ae_prev_term m) (ae_term m) (ae_entries m))
  then (state, no_effects)
  else if ae_term m <? d_term durable then
    (state, send_now (reply (d_term durable) false (last_index durable) 0) no_effects)
  else
    let target := if d_term durable <? ae_term m
                  then d_with_term_vote (ae_term m) None durable else durable in
    let '(state, effects) := step_down state no_effects in
    let prev_ok := bool_decide (term_at target (ae_prev_index m) = Some (ae_prev_term m)) in
    let hint := if ae_prev_index m <? d_snapshot_index target
                then d_snapshot_index target else last_index target in
    let count := log_size (ae_entries m) in
    let covered := wrap64 (ae_prev_index m + count) in
    if prev_ok && (kMaximumEntries <? wrap64 (covered - d_snapshot_index target)) then
      let effects := f_with_capacity effects in
      let target := d_with_commit
        (Z.max (d_commit target) (Z.min (ae_leader_commit m) (ae_prev_index m))) target in
      let response := reply (d_term target) false (last_index target) 0 in
      if bool_decide (target = durable) then (state, send_now response effects)
      else begin_write state effects target [response] [] false [] StateUpdate
    else
      let '(target, success, hint) :=
        if prev_ok then
          let '(merged, success, hint) :=
            merge_entries target (ae_prev_index m + 1) (ae_entries m) hint in
          if (success : bool)
          then (d_with_commit (Z.max (d_commit merged) (Z.min (ae_leader_commit m) covered))
                  merged, success, hint)
          else (merged, success, hint)
        else (target, false, hint) in
      let hint :=
        if negb success && (d_snapshot_index target <? ae_prev_index m) && negb prev_ok &&
           (ae_prev_index m <=? last_index target)
        then ae_prev_index m - 1 else hint in
      let target :=
        if success then target
        else d_with_commit (d_commit durable) (d_with_log (d_log durable) target) in
      let response := reply (d_term target) success hint (if success then covered else 0) in
      if bool_decide (target = durable) then (state, send_now response effects)
      else begin_write state effects target [response] [] false [] StateUpdate.

(** A successful acknowledgement of a probe the read barrier waits for. *)
Definition acknowledge_read (m : AppendReply) (probe : Probe) (read : option ReadBarrier)
    : option ReadBarrier :=
  match read with
  | Some b =>
      match rb_probes b !! ar_follower m with
      | Some id =>
          if (id =? ar_request_id m) &&
             (ar_matched m =? wrap64 (pr_prev probe + pr_count probe))
          then Some (mkReadBarrier (rb_context b) (rb_term b) (rb_index b)
                       ({[ar_follower m]} ∪ rb_acknowledgements b) (rb_probes b))
          else Some b
      | None => Some b
      end
  | None => None
  end.

Definition on_append_reply (config : Config) (state : Node) (m : AppendReply) : Node * Effects :=
  if negb (known_peer state (ar_follower m)) then (state, no_effects)
  else if d_term (n_durable state) <? ar_term m then
    let '(state, effects) := observe_higher_term state (ar_term m) in
    complete_read config state effects
  else if bool_decide (v_role (n_volatile state) = Leader) &&
          (ar_term m =? d_term (n_durable state))
  then match v_peers (n_volatile state) !! ar_follower m with
  | None => complete_read config state no_effects
  | Some progress =>
      match pp_in_flight progress with
      | None => (state, no_effects)
      | Some probe =>
          if negb (pr_request_id probe =? ar_request_id m) || negb (pr_term probe =? ar_term m)
          then (state, no_effects)
          else
            let state :=
              if ar_success m then
                let state := n_with_volatile
                  (v_with_read (acknowledge_read m probe (v_read (n_volatile state)))
                     (n_volatile state)) state in
                let mtch := Z.max (pp_match progress) (wrap64 (pr_prev probe + pr_count probe)) in
                set_progress (ar_follower m)
                  (mkPeerProgress (Z.max (pp_next progress) (wrap64 (mtch + 1))) mtch None
                     (pp_snapshot_in_flight progress)) state
              else
                let previous := pp_next progress in
                let hint_next := if ar_hint m =? max_u64 then previous else ar_hint m + 1 in
                let next := if 1 <? previous
                            then Z.max (wrap64 (pp_match progress + 1))
                                   (Z.min (previous - 1) hint_next)
                            else previous in
                set_progress (ar_follower m)
                  (mkPeerProgress next (pp_match progress) None
                     (pp_snapshot_in_flight progress)) state in
            complete_read config state no_effects
      end
  end
  else complete_read config state no_effects.

Definition on_advance_commit (config : Config) (state : Node) : Node * Effects :=
  if bool_decide (v_role (n_volatile state) = Leader) then
    let n := highest_committable config state in
    if d_commit (n_durable state) <? n then
      begin_write state no_effects (d_with_commit n (n_durable state)) [] [] false [] StateUpdate
    else (state, no_effects)
  else (state, no_effects).

Definition on_apply_committed (state : Node) : Node * Effects :=
  let durable := n_durable state in
  if (d_applied durable <? d_commit durable) && (d_applied durable <? last_index durable) then
    let target := d_with_applied (d_applied durable + 1) durable in
    let after := [log_at (d_log target) (d_applied target - d_snapshot_index target - 1)] in
    begin_write state no_effects target [] after false [] StateUpdate
  else (state, no_effects).

(** The inputs handled only when no write is in flight and the node runs. *)
Definition step_idle (config : Config) (state : Node) (input : Input) : Node * Effects :=
  match input with
  | CompactCommitted => on_compact_committed state
  | RecvSnapshot m => on_snapshot config state m
  | RecvSnapshotReply m => on_snapshot_reply state m
  | ElectionTimeout => on_election_timeout config state
  | RecvRequestVote m => on_request_vote config state m
  | RecvVoteReply m => on_vote_reply config state m
  | ClientPropose command => on_client_propose config state command
  | HeartbeatTimeout => on_heartbeat config state
  | RecvAppend m => on_append config state m
  | RecvAppendReply m => on_append_reply config state m
  | AdvanceCommit => on_advance_commit config state
  | ApplyCommitted => on_apply_committed state
  | _ => (state, no_effects)
  end.

Definition state_invalid (state : Node) : bool :=
  negb (valid_durable (n_durable state)) ||
  match n_pending state with
  | Some pending => negb (valid_durable (pw_target pending))
  | None => false
  end.

Definition step (config : Config) (state : Node) (input : Input) : Node * Effects :=
  if state_invalid state then fail_stop state
  else match input with
  | PersistCompleted token => on_persist_completed config state token
  | PersistFailed token => on_persist_failed state token
  | Restart => on_restart config state
  | CancelRead context => on_cancel_read state context
  | BeginRead context => on_begin_read config state context
  | _ =>
      if n_halted state || is_some (n_pending state) then (state, no_effects)
      else step_idle config state input
  end.
