(* ===== verification/TransitionInv.v ===== *)
(** * Invariants of the transition core

    The well-formedness of the durable state, the order in which durable
    states may follow each other, the node invariant, and their preservation
    by every handler of [Transition.step]. *)

From S2P Require Import Prelude EntryLog Transition.

(** ** Well-formed durable states *)

(** What [valid_durable] accepts, for a state whose fields are in the range of
    their C++ types. *)
Record durable_ok (d : Durable) : Prop := {
  ok_snap : d_snapshot_index d = 0 <-> d_snapshot_term d = 0;
  ok_snap_nn : 0 <= d_snapshot_index d;
  ok_snapterm : 0 <= d_snapshot_term d <= d_term d;
  ok_term : d_term d <= max_u64;
  ok_last : d_snapshot_index d + log_size (d_log d) < max_u64;
  ok_applied : d_snapshot_index d <= d_applied d <= d_commit d;
  ok_commit : d_commit d <= d_snapshot_index d + log_size (d_log d);
  ok_size : log_size (d_log d) <= kMaximumEntries;
  ok_asc : ascending 0 (d_log d);
  ok_terms : forall i x, d_log d !! i = Some x -> d_snapshot_term d <= e_term x <= d_term d;
}.

(** The fields hold values of their C++ type. *)
Definition durable_typed (d : Durable) : Prop :=
  u64 (d_term d) /\ u64 (d_snapshot_index d) /\ u64 (d_snapshot_term d) /\
  u64 (d_commit d) /\ u64 (d_applied d).

Lemma log_size_nn l : 0 <= log_size l.
Proof. unfold log_size. lia. Qed.

Lemma log_size_app l1 l2 : log_size (l1 ++ l2) = log_size l1 + log_size l2.
Proof. unfold log_size. rewrite length_app. lia. Qed.

Lemma log_size_one e : log_size [e] = 1.
Proof. done. Qed.

Lemma log_size_take n l : 0 <= n <= log_size l -> log_size (take (Z.to_nat n) l) = n.
Proof. unfold log_size. rewrite length_take. lia. Qed.

Lemma log_size_drop n l : 0 <= n -> log_size (drop (Z.to_nat n) l) = Z.max 0 (log_size l - n).
Proof. unfold log_size. rewrite length_drop. lia. Qed.

Ltac size_nn :=
  repeat match goal with
  | |- context [log_size ?l] =>
      lazymatch goal with H : 0 <= log_size l |- _ => fail | _ => pose proof (log_size_nn l) end
  | H : context [log_size ?l] |- _ =>
      lazymatch goal with H' : 0 <= log_size l |- _ => fail | _ => pose proof (log_size_nn l) end
  end.

(** Linear arithmetic with the range constants unfolded. *)
Ltac ulia := unfold u64, max_u64, kMaximumEntries in *; size_nn; lia.

Lemma last_index_eq d :
  0 <= d_snapshot_index d -> d_snapshot_index d + log_size (d_log d) <= max_u64 ->
  last_index d = d_snapshot_index d + log_size (d_log d).
Proof. intros. unfold last_index. apply wrap64_small. ulia. Qed.

Lemma last_index_ok d :
  durable_ok d -> last_index d = d_snapshot_index d + log_size (d_log d).
Proof. intros []. apply last_index_eq; ulia. Qed.

Lemma durable_ok_valid d : durable_ok d -> valid_durable d = true.
Proof.
  intros Hok. pose proof (last_index_ok d Hok) as Hl. destruct Hok.
  unfold valid_durable. rewrite Hl.
  assert (eqb (d_snapshot_index d =? 0) (d_snapshot_term d =? 0) = true) as ->.
  { apply eqb_true_iff. apply eq_true_iff_eq. rewrite !Z.eqb_eq. done. }
  assert (valid_terms (d_log d) (d_snapshot_term d) (d_term d) = true) as ->.
  { apply valid_terms_spec. auto. }
  repeat match goal with
  | |- context [?a <? ?b] => replace (a <? b) with false by (symmetry; apply Z.ltb_ge; ulia)
  | |- context [?a =? ?b] => replace (a =? b) with false by (symmetry; apply Z.eqb_neq; ulia)
  end. simpl. rewrite andb_true_r. apply Z.leb_le. ulia.
Qed.

Lemma valid_durable_ok d : durable_typed d -> valid_durable d = true -> durable_ok d.
Proof.
  unfold durable_typed, valid_durable. intros (Ht & Hi & Hs & Hc & Ha) H.
  case_match eqn:E; [done|].
  rewrite !orb_false_iff in E. destruct E as [[[[[[E1 E2] E3] E4] E5] E6] E7].
  bool_props. apply eqb_prop in E1.
  assert (last_index d = d_snapshot_index d + log_size (d_log d)) as Hl.
  { apply last_index_eq; ulia. }
  rewrite Hl in *.
  match goal with H : valid_terms _ _ _ = true |- _ => apply valid_terms_spec in H as [??] end.
  split; auto; ulia.
Qed.

(** ** Entries by absolute index *)

Definition entry_at (d : Durable) (i : Z) : option Entry :=
  if i <=? d_snapshot_index d then None
  else d_log d !! Z.to_nat (i - d_snapshot_index d - 1).

(** The term the state knows at an index: the boundary or a retained entry. *)
Definition term_of (d : Durable) (i : Z) : option Z :=
  if i =? d_snapshot_index d then Some (d_snapshot_term d)
  else e_term <$> entry_at d i.

Lemma entry_at_range d i e :
  entry_at d i = Some e ->
  d_snapshot_index d < i <= d_snapshot_index d + log_size (d_log d).
Proof.
  unfold entry_at, log_size. case_any; [done|]. intros H%lookup_lt_Some. bool_props. lia.
Qed.

Lemma entry_at_in_range d i :
  d_snapshot_index d < i <= d_snapshot_index d + log_size (d_log d) ->
  entry_at d i = Some (log_at (d_log d) (i - d_snapshot_index d - 1)).
Proof.
  intros. unfold entry_at. case_any; bool_props; [lia|].
  apply log_at_in_range. lia.
Qed.

Lemma entry_at_none d i :
  d_snapshot_index d + log_size (d_log d) < i -> entry_at d i = None.
Proof.
  intros. unfold entry_at. case_any; [done|].
  apply lookup_ge_None_2. unfold log_size in *. lia.
Qed.

Lemma term_at_term_of d i : durable_ok d -> term_at d i = term_of d i.
Proof.
  intros Hok. pose proof (last_index_ok d Hok) as Hl. unfold term_at, term_of. rewrite Hl.
  destruct (i =? d_snapshot_index d) eqn:?; [done|]. bool_props.
  destruct ((i <? _) || _) eqn:E.
  - apply orb_true_iff in E as [E|E]; bool_props.
    + unfold entry_at. case_any; [done|]. bool_props. lia.
    + by rewrite entry_at_none.
  - bool_props. rewrite entry_at_in_range; [done|lia].
Qed.

Lemma term_of_bound d i t :
  durable_ok d -> term_of d i = Some t -> d_snapshot_term d <= t <= d_term d.
Proof.
  intros [] H. unfold term_of in H. case_any; simplify_eq; [lia|].
  apply fmap_Some in H as (e & He & ->). unfold entry_at in He. case_any; [done|]. eauto.
Qed.

Lemma term_of_range d i t :
  durable_ok d -> term_of d i = Some t ->
  d_snapshot_index d <= i <= d_snapshot_index d + log_size (d_log d).
Proof.
  intros [] H. unfold term_of in H. case_any; simplify_eq; bool_props; [ulia|].
  apply fmap_Some in H as (e & He & ->). apply entry_at_range in He. lia.
Qed.

Lemma term_of_in_range d i :
  d_snapshot_index d <= i <= d_snapshot_index d + log_size (d_log d) ->
  is_Some (term_of d i).
Proof.
  intros. unfold term_of. case_any; bool_props; [done|].
  rewrite entry_at_in_range by lia. done.
Qed.

Lemma term_of_mono d i j ti tj :
  durable_ok d -> i <= j -> term_of d i = Some ti -> term_of d j = Some tj -> ti <= tj.
Proof.
  intros Hok Hij Hi Hj. pose proof (term_of_range d i ti Hok Hi).
  pose proof (term_of_bound d j tj Hok Hj).
  unfold term_of in *. destruct (i =? _) eqn:?; simplify_eq; [lia|].
  destruct (j =? _) eqn:?; bool_props; [lia|].
  apply fmap_Some in Hi as (ei & Hei & ->). apply fmap_Some in Hj as (ej & Hej & ->).
  unfold entry_at in *. do 2 (case_any; [done|]). destruct Hok.
  eapply (ascending_mono 0 (d_log d)); [done| |exact Hei|exact Hej]. lia.
Qed.

(** The term at a positive index is never zero. *)
Lemma term_of_nonzero d i t :
  durable_ok d -> term_of d i = Some t -> i <> 0 -> t <> 0.
Proof.
  intros [] H Hi. unfold term_of in H. case_any; simplify_eq; bool_props.
  - intros ?. apply Hi. subst. tauto.
  - apply fmap_Some in H as (e & He & ->). unfold entry_at in He. case_any; [done|].
    by apply (ascending_lookup 0) in He as [_ ?].
Qed.

(** ** The order of durable states

    [durable_le d t]: [t] may follow [d] on disk. Terms, commit, applied and
    boundary never move back, a vote is never changed within its term, and
    every committed entry [t] still holds is the one [d] held; a boundary that
    moves inside the committed prefix takes the term [d] had there. *)
Record durable_le (d t : Durable) : Prop := {
  le_term : d_term d <= d_term t;
  le_vote : d_term d = d_term t -> d_voted_for d <> None -> d_voted_for t = d_voted_for d;
  le_commit : d_commit d <= d_commit t;
  le_applied : d_applied d <= d_applied t;
  le_snap : d_snapshot_index d <= d_snapshot_index t;
  le_prefix : forall i, d_snapshot_index t < i <= d_commit d -> entry_at t i = entry_at d i;
  le_boundary : d_snapshot_index t <= d_commit d ->
                term_of d (d_snapshot_index t) = Some (d_snapshot_term t);
}.

Lemma term_of_boundary d : term_of d (d_snapshot_index d) = Some (d_snapshot_term d).
Proof. unfold term_of. by rewrite Z.eqb_refl. Qed.

#[export] Instance durable_le_preorder : PreOrder durable_le.
Proof.
  split.
  - intros d. split; try done; try lia. intros _. apply term_of_boundary.
  - intros d t u [A1 A2 A3 A4 A5 A6 A7] [B1 B2 B3 B4 B5 B6 B7]. split; try lia.
    + intros Heq Hv. assert (d_term d = d_term t) as Hdt by lia.
      specialize (A2 Hdt Hv). rewrite <- A2. apply B2; [lia|congruence].
    + intros i Hi. rewrite B6, A6; [done|lia|lia].
    + intros Hu. destruct (decide (d_snapshot_index u = d_snapshot_index t)) as [E|E].
      * rewrite E in *. rewrite <- B7 by lia. rewrite term_of_boundary.
        apply A7. lia.
      * rewrite <- B7 by lia. unfold term_of.
        destruct (d_snapshot_index u =? d_snapshot_index t) eqn:Ht; bool_props; [lia|].
        destruct (d_snapshot_index u =? d_snapshot_index d) eqn:Hd; bool_props; [lia|].
        by rewrite A6 by lia.
Qed.

(** ** The node invariant *)

(** What recovery would find once the write in flight has completed. *)
Definition staged (n : Node) : Durable :=
  match n_pending n with Some p => pw_target p | None => n_durable n end.

Record node_ok (config : Config) (n : Node) : Prop := {
  no_durable : durable_ok (n_durable n);
  no_staged : durable_ok (staged n);
  no_le : durable_le (n_durable n) (staged n);
  no_peers : dom (v_peers (n_volatile n)) = list_to_set (c_peers config);
  no_votes : v_votes (n_volatile n) ⊆ {[c_self config]} ∪ list_to_set (c_peers config);
  (* a candidate's or leader's term is positive and its vote is its own *)
  no_role : v_role (n_volatile n) <> Follower ->
            1 <= d_term (staged n) /\ d_voted_for (staged n) = Some (c_self config);
  (* outside the write that starts an election, that state is on disk *)
  no_elected : v_role (n_volatile n) <> Follower ->
               (forall p, n_pending n = Some p -> pw_self_vote p = false) ->
               d_term (n_durable n) = d_term (staged n) /\
               d_voted_for (n_durable n) = Some (c_self config);
  no_self_vote : forall p, n_pending n = Some p -> pw_self_vote p = true ->
                 v_role (n_volatile n) = Candidate;
}.

(** ** Frames: operations that only touch replication progress and reads *)

Record frame (n n' : Node) : Prop := {
  fr_durable : n_durable n' = n_durable n;
  fr_pending : n_pending n' = n_pending n;
  fr_role : v_role (n_volatile n') = v_role (n_volatile n);
  fr_votes : v_votes (n_volatile n') = v_votes (n_volatile n);
  fr_dom : dom (v_peers (n_volatile n')) = dom (v_peers (n_volatile n));
  fr_halted : n_halted n' = n_halted n;
  fr_token : n_next_token n' = n_next_token n;
}.

#[export] Instance frame_preorder : PreOrder frame.
Proof.
  split; [by intros n|].
  intros x y z [] []. split; congruence.
Qed.

Lemma set_progress_frame peer p n :
  is_Some (v_peers (n_volatile n) !! peer) -> frame n (set_progress peer p n).
Proof.
  intros H. split; simpl; try done.
  rewrite dom_insert_L. apply elem_of_dom in H. set_solver.
Qed.

Lemma request_id_frame r n : frame n (n_with_next_request_id r n).
Proof. by split. Qed.

Lemma read_frame r n : frame n (n_with_volatile (v_with_read r (n_volatile n)) n).
Proof. by split. Qed.

Lemma record_read_probe_frame peer id n :
  frame n (n_with_volatile (record_read_probe peer id (n_volatile n)) n).
Proof. by split. Qed.

Lemma send_append_frame config n log peer out sn n' out' sn' :
  send_append config n log peer out sn = (n', out', sn') -> frame n n'.
Proof.
  unfold send_append. intros H.
  repeat case_in H; simplify_eq; try reflexivity; (etrans; [apply request_id_frame|]);
    try (etrans; [|apply record_read_probe_frame]);
    apply set_progress_frame; by eexists.
Qed.

Lemma send_append_all_frame config n log out sn n' out' sn' :
  send_append_all config n log out sn = (n', out', sn') -> frame n n'.
Proof.
  unfold send_append_all. revert n out sn.
  induction (c_peers config) as [|p ps IH]; intros n out sn; simpl.
  - intros; simplify_eq. reflexivity.
  - destruct (send_append config n log p out sn) as [[n1 o1] s1] eqn:E. intros H.
    etrans; [by eapply send_append_frame|]. by eapply IH.
Qed.

Lemma lead_peer_frame config n out sn peer n' out' sn' :
  is_Some (v_peers (n_volatile n) !! peer) ->
  lead_peer config (n, out, sn) peer = (n', out', sn') -> frame n n'.
Proof.
  intros Hp H. unfold lead_peer in H. apply send_append_frame in H.
  etrans; [by eapply set_progress_frame|exact H].
Qed.

Lemma heartbeat_peer_frame config n out sn peer n' out' sn' :
  heartbeat_peer config (n, out, sn) peer = (n', out', sn') -> frame n n'.
Proof.
  unfold heartbeat_peer. intros H.
  repeat case_in H; simplify_eq; try reflexivity. by eapply send_append_frame.
Qed.

Lemma lead_peers_frame config ps : forall n out sn n' out' sn',
  (forall p, p ∈ ps -> is_Some (v_peers (n_volatile n) !! p)) ->
  foldl (lead_peer config) (n, out, sn) ps = (n', out', sn') -> frame n n'.
Proof.
  induction ps as [|p ps IH]; intros n out sn n' out' sn' Hps H; cbn [foldl] in H.
  - simplify_eq. reflexivity.
  - destruct (lead_peer config (n, out, sn) p) as [[n1 o1] s1] eqn:E.
    assert (frame n n1) as F by (eapply lead_peer_frame; [apply Hps; left|exact E]).
    etrans; [exact F|]. eapply IH; [|exact H]. intros q Hq.
    apply elem_of_dom. rewrite (fr_dom _ _ F). apply elem_of_dom, Hps. by right.
Qed.

Lemma heartbeat_peers_frame config ps : forall n out sn n' out' sn',
  foldl (heartbeat_peer config) (n, out, sn) ps = (n', out', sn') -> frame n n'.
Proof.
  induction ps as [|p ps IH]; intros n out sn n' out' sn' H; cbn [foldl] in H.
  - simplify_eq. reflexivity.
  - destruct (heartbeat_peer config (n, out, sn) p) as [[n1 o1] s1] eqn:E.
    etrans; [by eapply heartbeat_peer_frame|]. by eapply IH.
Qed.

Lemma complete_read_frame config n f n' f' :
  complete_read config n f = (n', f') -> frame n n'.
Proof.
  unfold complete_read. intros H. repeat case_in H; simplify_eq; try reflexivity.
  apply read_frame.
Qed.

(** [become_leader] only changes the role beyond a frame. *)
Lemma become_leader_frame config n f n' f' :
  become_leader config n f = (n', f') ->
  frame (n_with_volatile (v_with_role Leader (n_volatile n)) n) n'.
Proof.
  unfold become_leader. intros H.
  destruct (foldl _ _ _) as [[n1 o1] s1] eqn:E in H. simplify_eq.
  apply lead_peers_frame in E; [|by intros; apply elem_of_sorted_keys].
  etrans; [|exact E]. by split.
Qed.

Lemma step_down_facts n f n' f' :
  step_down n f = (n', f') ->
  n_durable n' = n_durable n /\ n_pending n' = n_pending n /\
  v_role (n_volatile n') = Follower /\ v_votes (n_volatile n') = ∅ /\
  dom (v_peers (n_volatile n')) = dom (v_peers (n_volatile n)) /\
  n_halted n' = n_halted n /\ n_next_token n' = n_next_token n /\
  v_read (n_volatile n') = None.
Proof.
  unfold step_down. intros. simplify_eq/=. repeat split; try done.
  apply dom_fmap_L.
Qed.

(** ** Merging received entries *)

(** The entries agree with the log, or the log is cut and continued with
    them; the committed entries stay in both cases. *)
Definition merged (t : Durable) (k : nat) (es : list Entry) (t' : Durable) : Prop :=
  (t' = t /\ es `prefix_of` drop k (d_log t)) \/
  (t' = d_with_log (take k (d_log t) ++ es) t /\
   forall j, Z.of_nat j < d_commit t - d_snapshot_index t ->
     (take k (d_log t) ++ es) !! j = d_log t !! j).

Lemma d_with_log_same t : d_with_log (d_log t) t = t.
Proof. by destruct t. Qed.

Lemma merged_step t k e es t1 t' :
  (k <= length (d_log t))%nat ->
  (t1 = t /\ d_log t !! k = Some e \/
   t1 = d_with_log (take k (d_log t) ++ [e]) t /\
   d_commit t - d_snapshot_index t <= Z.of_nat k) ->
  merged t1 (S k) es t' -> merged t k (e :: es) t'.
Proof.
  intros Hk [[-> He]|[-> Hc]] [[-> Hm]|[-> Hm]]; cbn [d_log d_with_log d_commit d_snapshot_index] in *.
  - left. split; [done|]. rewrite (drop_S _ e) by done. by apply prefix_cons.
  - right. rewrite (take_S_r _ _ e) by done. rewrite (take_S_r _ _ e) in Hm by done.
    rewrite <- app_assoc in *. done.
  - assert (es = []) as ->.
    { rewrite drop_ge in Hm by (rewrite length_app, length_take; simpl; lia).
      by apply prefix_nil_inv in Hm. }
    right. split; [done|]. intros j Hj. rewrite lookup_app_l by (rewrite length_take; lia).
    apply lookup_take_lt. lia.
  - assert (take (S k) (take k (d_log t) ++ [e]) ++ es = take k (d_log t) ++ e :: es) as Heq.
    { rewrite take_ge by (rewrite length_app, length_take; simpl; lia).
      by rewrite <- app_assoc. }
    right. rewrite Heq in *. split; [done|]. intros j Hj.
    rewrite Hm by done. rewrite lookup_app_l by (rewrite length_take; lia).
    apply lookup_take_lt. lia.
Qed.

Lemma merge_entries_merged es : forall t index hint t' hint',
  0 <= d_snapshot_index t ->
  d_snapshot_index t < index <= d_snapshot_index t + log_size (d_log t) + 1 ->
  d_snapshot_index t + log_size (d_log t) < max_u64 -> index + log_size es <= max_u64 ->
  d_commit t <= d_snapshot_index t + log_size (d_log t) ->
  merge_entries t index es hint = (t', true, hint') ->
  merged t (Z.to_nat (index - d_snapshot_index t - 1)) es t' /\ hint' = hint.
Proof.
  induction es as [|e es IH]; intros t index hint t' hint' Hs Hi Hl Hm Hc H; simpl in H.
  { simplify_eq. split; [|done]. left. split; [done|]. apply prefix_nil. }
  assert (log_size (e :: es) = log_size es + 1) as Hes by (unfold log_size; simpl; lia).
  rewrite (last_index_eq t) in H by ulia.
  set (k := Z.to_nat (index - d_snapshot_index t - 1)) in *.
  assert (k <= length (d_log t))%nat by (unfold log_size in *; lia).
  assert (Z.to_nat (index + 1 - d_snapshot_index t - 1) = S k) as Hk1 by lia.
  destruct (index <=? _) eqn:Ein; bool_props; simpl in H.
  - pose proof (log_at_in_range (d_log t) (index - d_snapshot_index t - 1)) as Hat.
    fold k in Hat. specialize (Hat ltac:(lia)).
    case_bool_decide as Heq; simpl in H.
    + rewrite (last_index_eq t), wrap64_small in H by ulia.
      rewrite (proj2 (Z.eqb_neq _ _)) in H by lia.
      eapply IH in H as [H ->]; [|ulia..]. rewrite Hk1 in H. split; [|done].
      eapply merged_step; [done| |exact H]. left. split; [done|]. by rewrite <- Heq.
    + destruct (index <=? d_commit t) eqn:Eic; [done|]. bool_props.
      rewrite log_resize_shrink in H by lia. fold k in H.
      assert (log_size (take k (d_log t)) = index - d_snapshot_index t - 1) as Htk.
      { unfold k. rewrite log_size_take; lia. }
      rewrite last_index_eq, wrap64_small in H by (simpl; ulia). simpl in H.
      rewrite Htk, (proj2 (Z.eqb_eq _ _)) in H by lia.
      eapply IH in H as [H ->]; [|simpl; rewrite ?log_size_app, ?log_size_one, ?Htk; ulia..].
      simpl in H. rewrite Hk1 in H. split; [|done].
      eapply merged_step; [done| |exact H]. right. split; [done|]. lia.
  - rewrite (last_index_eq t), wrap64_small in H by ulia.
    rewrite (proj2 (Z.eqb_eq _ _)) in H by lia.
    assert (k = length (d_log t)) as Hkl by (unfold log_size in *; lia).
    eapply IH in H as [H ->]; [|simpl; rewrite ?log_size_app, ?log_size_one; ulia..].
    simpl in H. rewrite Hk1 in H. split; [|done].
    eapply merged_step; [done| |exact H]. right. split; [|lia].
    by rewrite take_ge by lia.
Qed.

