(* ===== verification/TransitionSteps.v ===== *)
(** * Every handler preserves the node invariant

    The durable states the handlers of [Transition] stage are well formed and
    follow the one on disk; from that, [step] preserves [node_ok]. *)

From S2P Require Import Prelude EntryLog Transition TransitionInv.

(** ** The states the handlers stage *)

Lemma term_vote_ok t v d :
  durable_ok d -> d_term d <= t <= max_u64 -> durable_ok (d_with_term_vote t v d).
Proof.
  intros [] ?. split; simpl; try lia; try exact ok_asc.
  intros i x Hi. specialize (ok_terms i x Hi). lia.
Qed.

Lemma term_vote_le t v d :
  d_term d <= t -> (d_term d = t -> d_voted_for d <> None -> v = d_voted_for d) ->
  durable_le d (d_with_term_vote t v d).
Proof. intros ? Hv. split; simpl; try lia; try done. intros _. apply term_of_boundary. Qed.

Lemma term_vote_same v d : d_voted_for d = v -> d_with_term_vote (d_term d) v d = d.
Proof. destruct d; simpl. by intros ->. Qed.

Lemma commit_ok c d :
  durable_ok d -> d_commit d <= c <= d_snapshot_index d + log_size (d_log d) ->
  durable_ok (d_with_commit c d).
Proof. intros [] ?. split; simpl; try lia; done. Qed.

Lemma commit_le c d : d_commit d <= c -> durable_le d (d_with_commit c d).
Proof. intros ?. split; simpl; try lia; try done. intros _. apply term_of_boundary. Qed.

Lemma applied_ok a d :
  durable_ok d -> d_applied d <= a <= d_commit d -> durable_ok (d_with_applied a d).
Proof. intros [] ?. split; simpl; try lia; done. Qed.

Lemma applied_le a d : d_applied d <= a -> durable_le d (d_with_applied a d).
Proof. intros ?. split; simpl; try lia; try done. intros _. apply term_of_boundary. Qed.

Lemma entry_at_with_log l d i :
  entry_at (d_with_log l d) i =
  if i <=? d_snapshot_index d then None else l !! Z.to_nat (i - d_snapshot_index d - 1).
Proof. done. Qed.

(** Replacing the log above the committed prefix. *)
Lemma with_log_le l d :
  (forall j, Z.of_nat j < d_commit d - d_snapshot_index d -> l !! j = d_log d !! j) ->
  durable_le d (d_with_log l d).
Proof.
  intros Hl. split; simpl; try lia; try done.
  - intros i Hi. rewrite entry_at_with_log. unfold entry_at. case_any; [done|].
    bool_props. apply Hl. lia.
  - intros _. apply term_of_boundary.
Qed.

Lemma propose_ok command d :
  durable_ok d -> 1 <= d_term d -> log_size (d_log d) < kMaximumEntries ->
  d_snapshot_index d + log_size (d_log d) < max_u64 - 1 ->
  durable_ok (d_with_log (d_log d ++ [mkEntry (d_term d) command]) d).
Proof.
  intros [] ???. assert (log_size [mkEntry (d_term d) command] = 1) by done.
  split; simpl; rewrite ?log_size_app; try ulia.
  - apply ascending_app. split; [done|]. constructor; simpl; [lia| |constructor].
    destruct (decide (d_log d = [])) as [->|Hne]; [simpl; lia|].
    destruct (lookup_lt_is_Some_2 (d_log d) (length (d_log d) - 1)) as [x Hx].
    { destruct (d_log d); simpl; [done|lia]. }
    rewrite (last_term_from_lookup _ _ x Hx). apply ok_terms in Hx. lia.
  - intros i x [Hi|[_ Hi]]%lookup_app_Some; [by eauto|].
    apply list_lookup_singleton_Some in Hi as [_ <-]. simpl. lia.
Qed.

Lemma propose_le command d :
  durable_ok d -> durable_le d (d_with_log (d_log d ++ [mkEntry (d_term d) command]) d).
Proof.
  intros []. apply with_log_le. intros j Hj. apply lookup_app_l.
  unfold log_size in *. lia.
Qed.

Lemma entry_terms_ok_spec prev term es :
  0 <= prev -> entry_terms_ok prev term es = true ->
  ascending prev es /\ forall i x, es !! i = Some x -> prev <= e_term x <= term.
Proof.
  revert prev. induction es as [|e es IH]; intros prev Hp H; simpl in H.
  { split; [constructor|]. intros i x Hx. by rewrite lookup_nil in Hx. }
  case_any; [done|]. bool_props. apply IH in H as [Ha Hb]; [|lia].
  split; [constructor; auto; lia|]. intros [|i] x Hx; simplify_eq/=; [lia|].
  apply Hb in Hx. lia.
Qed.

(** The last term of a prefix of the log is the term at its end. *)
Lemma last_term_take d k t :
  durable_ok d -> (k <= length (d_log d))%nat ->
  term_of d (d_snapshot_index d + Z.of_nat k) = Some t ->
  last_term_from 0 (take k (d_log d)) <= t.
Proof.
  intros Hok Hk Ht. pose proof (term_of_bound _ _ _ Hok Ht). destruct Hok.
  destruct k as [|k]; [simpl; lia|].
  unfold term_of in Ht. case_any; bool_props; [lia|].
  apply fmap_Some in Ht as (e & He & ->). unfold entry_at in He. case_any; [done|].
  erewrite last_term_from_lookup; [reflexivity|].
  rewrite length_take, lookup_take_lt by lia.
  rewrite <- He. f_equal. lia.
Qed.

Lemma merged_ok t k es t' prev :
  durable_ok t -> (k <= length (d_log t))%nat ->
  term_of t (d_snapshot_index t + Z.of_nat k) = Some prev ->
  entry_terms_ok prev (d_term t) es = true ->
  Z.of_nat k + log_size es <= kMaximumEntries ->
  d_snapshot_index t + Z.of_nat k + log_size es < max_u64 ->
  merged t k es t' -> durable_ok t'.
Proof.
  intros Hok Hk Hprev Hes Hmax Hlast [[-> _]|[-> Hc]]; [done|].
  pose proof (last_term_take t k prev Hok Hk Hprev) as Hlt.
  pose proof (term_of_bound _ _ _ Hok Hprev) as Hpb.
  destruct Hok. apply entry_terms_ok_spec in Hes as [Hasc Hb]; [|lia].
  assert (log_size (take k (d_log t) ++ es) = Z.of_nat k + log_size es) as Hsz.
  { rewrite log_size_app. unfold log_size at 1. rewrite length_take. lia. }
  split; simpl; rewrite ?Hsz; try lia.
  - (* a committed entry beyond the new log would have been lost *)
    destruct (decide (d_commit t <= d_snapshot_index t + (Z.of_nat k + log_size es))); [done|].
    specialize (Hc (Z.to_nat (Z.of_nat k + log_size es)) ltac:(size_nn; lia)).
    rewrite lookup_ge_None_2 in Hc by (unfold log_size in *; lia).
    symmetry in Hc. apply lookup_ge_None_1 in Hc. unfold log_size in *. lia.
  - apply ascending_app. split; [by apply ascending_take|].
    by eapply ascending_weaken.
  - intros i x [Hi|[_ Hi]]%lookup_app_Some.
    + apply lookup_take_Some in Hi as [Hi _]. eauto.
    + apply Hb in Hi. lia.
Qed.

Lemma merged_le t k es t' : merged t k es t' -> durable_le t t'.
Proof. intros [[-> _]|[-> H]]; [done|]. by apply with_log_le. Qed.

(** After a successful merge the log reaches the end of the entries. *)
Lemma merged_covers t k es t' :
  (k <= length (d_log t))%nat -> merged t k es t' ->
  d_snapshot_index t' = d_snapshot_index t /\
  Z.of_nat k + log_size es <= log_size (d_log t').
Proof.
  intros Hk [[-> [r Hr]]|[-> _]]; (split; [done|]).
  - apply (f_equal length) in Hr. rewrite length_drop, length_app in Hr. unfold log_size. lia.
  - simpl. unfold log_size. rewrite length_app, length_take. lia.
Qed.

Lemma merge_entries_only_log es : forall t index hint t' b hint',
  merge_entries t index es hint = (t', b, hint') -> t' = d_with_log (d_log t') t.
Proof.
  induction es as [|e es IH]; intros t index hint t' b hint' H; simpl in H.
  { simplify_eq. by rewrite d_with_log_same. }
  case_in H; [simplify_eq; by rewrite d_with_log_same|].
  apply IH in H. rewrite H. repeat case_any; done.
Qed.

Lemma merged_entry t k es t' i :
  0 <= d_snapshot_index t -> (k <= length (d_log t))%nat -> merged t k es t' ->
  d_snapshot_index t + Z.of_nat k < i <= d_snapshot_index t + Z.of_nat k + log_size es ->
  entry_at t' i = es !! Z.to_nat (i - d_snapshot_index t - Z.of_nat k - 1).
Proof.
  intros Hs Hk Hm Hi. unfold log_size in Hi. destruct Hm as [[-> [r Hr]]|[-> _]].
  - unfold entry_at. case_any; bool_props; [lia|].
    replace (Z.to_nat (i - d_snapshot_index t - 1))
      with (k + Z.to_nat (i - d_snapshot_index t - Z.of_nat k - 1))%nat by lia.
    rewrite <- lookup_drop, Hr. apply lookup_app_l. lia.
  - rewrite entry_at_with_log. case_any; bool_props; [lia|].
    rewrite lookup_app_r by (rewrite length_take; lia).
    f_equal. rewrite length_take. lia.
Qed.

(** Moving the snapshot boundary to an index the log covers. *)
Definition rebase (d : Durable) (i st a c : Z) : Durable :=
  mkDurable (d_term d) (d_voted_for d) (drop (Z.to_nat (i - d_snapshot_index d)) (d_log d))
    c a i st.

Lemma rebase_ok d i st a c :
  durable_ok d -> term_of d i = Some st -> i <> 0 ->
  i <= a <= c -> c <= d_snapshot_index d + log_size (d_log d) ->
  durable_ok (rebase d i st a c).
Proof.
  intros Hok Ht Hi Ha Hc.
  pose proof (term_of_range _ _ _ Hok Ht) as Hr.
  pose proof (term_of_bound _ _ _ Hok Ht) as Hb.
  pose proof (term_of_nonzero _ _ _ Hok Ht Hi) as Hnz.
  assert (forall k x, drop (Z.to_nat (i - d_snapshot_index d)) (d_log d) !! k = Some x ->
            st <= e_term x) as Hsuf.
  { intros k x Hx. rewrite lookup_drop in Hx.
    assert (entry_at d (i + 1 + Z.of_nat k) = Some x) as He.
    { unfold entry_at. case_any; bool_props; [lia|]. rewrite <- Hx. f_equal. lia. }
    eapply (term_of_mono d i (i + 1 + Z.of_nat k)); [done|lia|done|].
    unfold term_of. case_any; bool_props; [lia|]. by rewrite He. }
  destruct Hok. split; simpl; rewrite ?log_size_drop by lia; try ulia.
  - by apply ascending_drop.
  - intros k x Hx. split; [by eapply Hsuf|]. rewrite lookup_drop in Hx. apply ok_terms in Hx. lia.
Qed.

Lemma rebase_entry d i st a c j :
  d_snapshot_index d <= i -> i < j -> entry_at (rebase d i st a c) j = entry_at d j.
Proof.
  intros Hi Hj. unfold entry_at, rebase. simpl. do 2 (case_any; bool_props; [lia|]).
  rewrite lookup_drop. f_equal. lia.
Qed.

(** Local compaction: the boundary moves to the applied commit index. *)
Lemma compact_le d st :
  durable_ok d -> d_applied d = d_commit d -> term_of d (d_commit d) = Some st ->
  durable_le d (rebase d (d_commit d) st (d_applied d) (d_commit d)).
Proof.
  intros [] ? Ht. split; simpl; try lia; done.
Qed.

(** A snapshot above the commit index replaces the prefix up to it. *)
Definition installed (d : Durable) (i st : Z) (l : list Entry) : Durable :=
  d_with_applied i (d_with_commit i (d_with_snapshot i st l d)).

Lemma install_le d i st l :
  durable_ok d -> d_commit d < i -> durable_le d (installed d i st l).
Proof.
  intros [] Hi. split; simpl; try lia; try done.
Qed.

Lemma install_ok d i st :
  durable_ok d -> d_commit d < i < max_u64 -> 0 < st <= d_term d ->
  durable_ok (installed d i st
    (if bool_decide (term_at d i = Some st)
     then drop (Z.to_nat (i - d_snapshot_index d)) (d_log d) else [])).
Proof.
  intros Hok Hi Hst. rewrite term_at_term_of by done. case_bool_decide as Ht.
  - pose proof (term_of_range _ _ _ Hok Ht). pose proof (ok_applied _ Hok). pose proof (ok_snap_nn _ Hok).
    apply (rebase_ok d i st i i); try done; lia.
  - destruct Hok. split; simpl; try (unfold log_size; simpl; ulia).
    + constructor.
    + intros k x Hx. by rewrite lookup_nil in Hx.
Qed.

(** ** Building [node_ok] *)

Lemma staged_idle n : n_pending n = None -> staged n = n_durable n.
Proof. unfold staged. by intros ->. Qed.

Lemma idle_node_ok config n :
  n_pending n = None -> durable_ok (n_durable n) ->
  dom (v_peers (n_volatile n)) = list_to_set (c_peers config) ->
  v_votes (n_volatile n) ⊆ {[c_self config]} ∪ list_to_set (c_peers config) ->
  (v_role (n_volatile n) <> Follower ->
     1 <= d_term (n_durable n) /\ d_voted_for (n_durable n) = Some (c_self config)) ->
  node_ok config n.
Proof.
  intros Hp Hok Hdom Hvotes Hrole. split; rewrite ?(staged_idle n Hp), ?Hp; try done.
  intros Hr _. split; [done|]. by apply Hrole.
Qed.

Lemma frame_ok config n n' : frame n n' -> node_ok config n -> node_ok config n'.
Proof.
  intros [F1 F2 F3 F4 F5 F6 F7] [].
  split; unfold staged in *; rewrite ?F1, ?F2, ?F3, ?F4, ?F5; done.
Qed.

Lemma step_down_ok config n f n' f' :
  step_down n f = (n', f') -> n_pending n = None -> node_ok config n ->
  node_ok config n' /\ n_pending n' = None /\ n_durable n' = n_durable n /\
  v_role (n_volatile n') = Follower.
Proof.
  intros (Hd & Hp & Hr & Hv & Hdom & _)%step_down_facts Hnone [].
  split; [|by rewrite Hp].
  apply idle_node_ok; rewrite ?Hp, ?Hd, ?Hr, ?Hv, ?Hdom; done || set_solver.
Qed.

Lemma begin_write_ok config n f target after apply_after self_vote snaps kind n' f' :
  begin_write n f target after apply_after self_vote snaps kind = (n', f') ->
  n_pending n = None -> node_ok config n ->
  durable_ok target -> durable_le (n_durable n) target ->
  (v_role (n_volatile n) <> Follower -> self_vote = false /\
     d_term target = d_term (n_durable n) /\ d_voted_for target = d_voted_for (n_durable n)) ->
  (v_role (n_volatile n) = Follower -> self_vote = false) ->
  node_ok config n'.
Proof.
  unfold begin_write. intros H Hnone [] Hok Hle Hrole Hf. simplify_eq.
  rewrite (staged_idle n Hnone) in *.
  assert (self_vote = false) as ->.
  { destruct (v_role (n_volatile n)); [auto|by apply Hrole..]. }
  split; unfold staged; simpl; try done.
  - intros Hr. destruct (Hrole Hr) as (_ & -> & ->). by apply no_role.
  - intros Hr _. destruct (Hrole Hr) as (_ & -> & _). split; [done|]. by apply no_role.
  - intros p ? ?. by simplify_eq/=.
Qed.

(** A follower stages anything that follows its durable state. *)
Lemma begin_write_follower config n f target after apply_after snaps kind n' f' :
  begin_write n f target after apply_after false snaps kind = (n', f') ->
  n_pending n = None -> node_ok config n -> v_role (n_volatile n) = Follower ->
  durable_ok target -> durable_le (n_durable n) target -> node_ok config n'.
Proof. intros. eapply begin_write_ok; eauto. congruence. Qed.

(** Any role stages changes that keep the term and the vote. *)
Lemma begin_write_same config n f target after apply_after snaps kind n' f' :
  begin_write n f target after apply_after false snaps kind = (n', f') ->
  n_pending n = None -> node_ok config n ->
  d_term target = d_term (n_durable n) -> d_voted_for target = d_voted_for (n_durable n) ->
  durable_ok target -> durable_le (n_durable n) target -> node_ok config n'.
Proof. intros. eapply begin_write_ok; eauto. Qed.

(** ** Inputs with fields in the range of their C++ types *)

Definition input_typed (i : Input) : Prop :=
  match i with
  | RecvRequestVote m => u64 (rv_term m) /\ u64 (rv_last_index m) /\ u64 (rv_last_term m)
  | RecvVoteReply m => u64 (vr_term m)
  | RecvAppend m => u64 (ae_term m) /\ u64 (ae_prev_index m) /\ u64 (ae_prev_term m) /\
                    u64 (ae_leader_commit m)
  | RecvAppendReply m => u64 (ar_term m) /\ u64 (ar_hint m) /\ u64 (ar_matched m)
  | RecvSnapshot m => u64 (sr_term m) /\ u64 (sr_index m) /\ u64 (sr_snapshot_term m)
  | RecvSnapshotReply m => u64 (sp_term m)
  | _ => True
  end.

(** ** The handlers that run when no write is in flight *)

Section Idle.
Context (config : Config) (n : Node).
Context (Hok : node_ok config n) (Hidle : n_pending n = None).

Let Hdur : durable_ok (n_durable n) := no_durable config n Hok.

Lemma role_term : v_role (n_volatile n) <> Follower ->
  1 <= d_term (n_durable n) /\ d_voted_for (n_durable n) = Some (c_self config).
Proof. intros Hr. rewrite <- (staged_idle n Hidle). by apply (no_role config n Hok). Qed.

Lemma on_compact_committed_ok n' f' :
  on_compact_committed n = (n', f') -> node_ok config n'.
Proof.
  unfold on_compact_committed. intros H.
  repeat case_in H; simplify_eq; try done. bool_props.
  rename select (term_at _ _ = Some _) into Ht. rewrite term_at_term_of in Ht by done.
  pose proof (ok_applied _ Hdur). pose proof (ok_snap_nn _ Hdur).
  eapply begin_write_same in H; try done.
  - apply (rebase_ok _ _ _ (d_applied (n_durable n)) (d_commit (n_durable n))); try done; try lia.
    apply (ok_commit _ Hdur).
  - by apply (compact_le _ z).
Qed.

Lemma observe_higher_term_ok t n' f' :
  d_term (n_durable n) < t <= max_u64 -> observe_higher_term n t = (n', f') ->
  node_ok config n'.
Proof.
  unfold observe_higher_term. intros Ht H.
  destruct (step_down n no_effects) as [n1 f1] eqn:E.
  eapply step_down_ok in E as (Hok1 & Hp1 & Hd1 & Hr1); [|done..].
  eapply begin_write_follower in H; try done; rewrite ?Hd1.
  - apply term_vote_ok; [done|lia].
  - apply term_vote_le; lia.
Qed.

Lemma on_snapshot_reply_ok m n' f' :
  u64 (sp_term m) -> on_snapshot_reply n m = (n', f') -> node_ok config n'.
Proof.
  unfold on_snapshot_reply, u64. intros Ht H.
  repeat case_in H; simplify_eq; try done; bool_props.
  - eapply observe_higher_term_ok; [|done]. lia.
  - eapply frame_ok; [|done]. apply set_progress_frame. by eexists.
  - eapply frame_ok; [|done]. apply set_progress_frame. by eexists.
Qed.

Lemma on_election_timeout_ok n' f' :
  on_election_timeout config n = (n', f') -> node_ok config n'.
Proof.
  unfold on_election_timeout. intros H. case_in H; [|by simplify_eq]. bool_props.
  destruct (step_down n no_effects) as [n1 f1] eqn:E.
  eapply step_down_ok in E as (Hok1 & Hp1 & Hd1 & Hr1); [|done..].
  destruct (vote_requests _ _ _ _) as [after next]. unfold begin_write in H. simplify_eq.
  pose proof (ok_snapterm _ Hdur). pose proof (ok_term _ Hdur).
  destruct Hok1. split; unfold staged; simpl; rewrite ?Hd1; try done.
  - apply term_vote_ok; [done|lia].
  - apply term_vote_le; lia.
  - intros _. split; [lia|done].
  - intros _ Hp. specialize (Hp _ eq_refl). done.
Qed.

Lemma on_request_vote_ok m n' f' :
  u64 (rv_term m) -> on_request_vote config n m = (n', f') -> node_ok config n'.
Proof.
  unfold on_request_vote, u64. intros Ht H.
  case_in H; [by simplify_eq|]. case_in H; [by simplify_eq|]. bool_props.
  destruct (d_term (n_durable n) <? rv_term m) eqn:Eh; bool_props.
  - destruct (step_down n no_effects) as [n1 f1] eqn:E.
    eapply step_down_ok in E as (Hok1 & Hp1 & Hd1 & Hr1); [|done..].
    case_in H; [by simplify_eq|].
    eapply begin_write_follower in H; try done; rewrite ?Hd1.
    + case_any; apply (term_vote_ok (rv_term m) _ (n_durable n)); done || lia.
    + case_any; apply (term_vote_le (rv_term m) _ (n_durable n)); lia.
  - case_in H; [by simplify_eq|]. bool_props.
    case_in H; [|done]. bool_props.
    assert (d_voted_for (n_durable n) = None \/
            d_voted_for (n_durable n) = Some (rv_candidate m)) as [Hv|Hv].
    { rename select (_ || _ = true) into Ho. apply orb_true_iff in Ho as [Ho|Ho]; bool_props; auto. }
    + eapply begin_write_ok in H; try done; simpl.
      * apply term_vote_ok; [done|lia].
      * apply term_vote_le; [lia|]. by rewrite Hv.
      * intros Hr. apply role_term in Hr as [_ Hr]. congruence.
    + exfalso. rename select (_ <> n_durable n) into Hne. apply Hne.
      by apply term_vote_same.
Qed.
End Idle.

(** [become_leader] on a node whose own vote is on disk. *)
Lemma become_leader_ok config n f n' f' :
  n_pending n = None -> node_ok config n ->
  1 <= d_term (n_durable n) -> d_voted_for (n_durable n) = Some (c_self config) ->
  become_leader config n f = (n', f') -> node_ok config n'.
Proof.
  intros Hp [] Ht Hv H%become_leader_frame. eapply frame_ok; [exact H|].
  apply idle_node_ok; done.
Qed.

Section IdleReplies.
Context (config : Config) (n : Node).
Context (Hok : node_ok config n) (Hidle : n_pending n = None).

Let Hdur : durable_ok (n_durable n) := no_durable config n Hok.

Lemma known_peer_spec id : known_peer n id = true -> id ∈ (list_to_set (c_peers config) : gset string).
Proof.
  rewrite <- (no_peers config n Hok), elem_of_dom. unfold known_peer.
  by destruct (_ !! id).
Qed.

Lemma on_vote_reply_ok m n' f' :
  u64 (vr_term m) -> on_vote_reply config n m = (n', f') -> node_ok config n'.
Proof.
  unfold on_vote_reply, u64. intros Ht H.
  case_in H; [by simplify_eq|]. case_in H; bool_props.
  { eapply observe_higher_term_ok; [done|done| |done]. lia. }
  case_in H; [|by simplify_eq]. bool_props.
  rename select (v_role _ = Candidate) into Hr.
  destruct (role_term config n Hok Hidle) as [Hterm Hvote]; [by rewrite Hr|].
  assert (node_ok config
    (n_with_volatile (v_with_votes ({[vr_voter m]} ∪ v_votes (n_volatile n)) (n_volatile n)) n)).
  { pose proof (no_votes _ _ Hok). apply idle_node_ok; simpl; try done; [apply Hok|].
    assert (vr_voter m ∈ (list_to_set (c_peers config) : gset string)) by by apply known_peer_spec.
    set_solver. }
  case_in H; [|by simplify_eq]. eapply become_leader_ok in H; done.
Qed.

Lemma on_client_propose_ok command n' f' :
  on_client_propose config n command = (n', f') -> node_ok config n'.
Proof.
  unfold on_client_propose. intros H.
  case_in H; [by simplify_eq|]. case_in H; [|by simplify_eq]. bool_props.
  rename select (v_role _ = Leader) into Hr.
  rename select (andb _ _ = false) into Hcap.
  rewrite (bool_decide_eq_true_2 _ Hr) in Hcap. simpl in Hcap. bool_props.
  destruct (role_term config n Hok Hidle) as [Hterm Hvote]; [by rewrite Hr|].
  rename select (last_index _ < _) into Hlast. rewrite last_index_ok in Hlast by done.
  destruct (send_append_all _ _ _ _ _) as [[n1 out] sn] eqn:E.
  apply send_append_all_frame in E.
  eapply begin_write_same; [exact H|..]; rewrite ?(fr_pending _ _ E), ?(fr_durable _ _ E).
  - exact Hidle.
  - by eapply frame_ok.
  - reflexivity.
  - reflexivity.
  - by apply propose_ok.
  - by apply propose_le.
Qed.

Lemma on_heartbeat_ok n' f' : on_heartbeat config n = (n', f') -> node_ok config n'.
Proof.
  unfold on_heartbeat. intros H. case_in H; [|by simplify_eq].
  destruct (foldl _ _ _) as [[n1 out] sn] eqn:E. simplify_eq.
  apply heartbeat_peers_frame in E. by eapply frame_ok.
Qed.

Lemma on_append_reply_ok m n' f' :
  u64 (ar_term m) -> on_append_reply config n m = (n', f') -> node_ok config n'.
Proof.
  unfold on_append_reply, u64. intros Ht H.
  case_in H; [by simplify_eq|]. case_in H; bool_props.
  { destruct (observe_higher_term n _) as [n1 f1] eqn:E.
    apply complete_read_frame in H. eapply frame_ok; [exact H|].
    eapply observe_higher_term_ok; [done|done| |done]. lia. }
  repeat case_in H; simplify_eq; try done; apply complete_read_frame in H;
    (eapply frame_ok; [exact H|]); try done;
    (eapply frame_ok; [apply set_progress_frame; by eexists|]); try done.
  all: eapply frame_ok; [apply read_frame|done].
Qed.

Lemma on_apply_committed_ok n' f' : on_apply_committed n = (n', f') -> node_ok config n'.
Proof.
  unfold on_apply_committed. intros H. case_in H; [|by simplify_eq]. bool_props.
  eapply begin_write_same in H; try done; simpl.
  - apply applied_ok; [done|lia].
  - apply applied_le. lia.
Qed.
End IdleReplies.

(** ** Commit advancement *)

(** [n] may be committed by counting: its entry is of the current term and a
    quorum holds it. *)
Definition committable (config : Config) (state : Node) (n : Z) : Prop :=
  e_term (log_at (d_log (n_durable state)) (n - d_snapshot_index (n_durable state) - 1)) =
    d_term (n_durable state) /\
  (quorum config <= replica_count state n)%nat.

Lemma highest_committable_from_spec config n k :
  let c := d_commit (n_durable n) in
  let r := highest_committable_from config n k in
  c <= r <= c + Z.of_nat k /\
  (c < r -> committable config n r) /\
  (forall i, r < i <= c + Z.of_nat k -> ~ committable config n i).
Proof.
  induction k as [|k IH]; cbn [highest_committable_from]; cbv zeta in *.
  { split; [lia|]. split; intros; lia. }
  destruct IH as (IH1 & IH2 & IH3).
  set (r := highest_committable_from config n k) in *.
  assert (forall P : Prop, (committable config n (d_commit (n_durable n) + Z.of_nat (S k)) -> P) ->
    forall i, r < i <= d_commit (n_durable n) + Z.of_nat (S k) -> committable config n i -> P) as Hnext.
  { intros P HP i Hi Hc. destruct (decide (i = d_commit (n_durable n) + Z.of_nat (S k))) as [->|].
    - auto.
    - exfalso. apply (IH3 i); [lia|done]. }
  case_any; [|case_any].
  - bool_props. split; [lia|]. split; [done|]. intros i Hi Hc. apply (Hnext False) with (i := i); [|done..]. by intros [? _].
  - bool_props. split; [lia|]. split; [|intros; lia]. intros _. split; [done|].
    by apply Nat.leb_le.
  - split; [lia|]. split; [done|]. intros i Hi Hc. apply (Hnext False) with (i := i); [|done..].
    intros [_ Hq%Nat.leb_le]. congruence.
Qed.

Section IdleEntries.
Context (config : Config) (n : Node).
Context (Hok : node_ok config n) (Hidle : n_pending n = None).

Let Hdur : durable_ok (n_durable n) := no_durable config n Hok.

Lemma on_advance_commit_ok n' f' : on_advance_commit config n = (n', f') -> node_ok config n'.
Proof.
  unfold on_advance_commit. intros H. case_in H; [|by simplify_eq].
  case_in H; [|by simplify_eq]. bool_props. unfold highest_committable in *.
  destruct (highest_committable_from_spec config n
    (Z.to_nat (last_index (n_durable n) - d_commit (n_durable n)))) as [Hr _].
  rewrite last_index_ok in * by done. pose proof (ok_commit _ Hdur).
  eapply begin_write_same; [exact H|done|done|done|done| |].
  - apply commit_ok; [done|]. simpl in Hr. lia.
  - apply commit_le. lia.
Qed.

Lemma on_snapshot_ok m n' f' :
  u64 (sr_term m) -> u64 (sr_index m) -> u64 (sr_snapshot_term m) ->
  on_snapshot config n m = (n', f') -> node_ok config n'.
Proof.
  unfold on_snapshot, u64. intros Ht Hi Hs H.
  case_in H; [by simplify_eq|]. case_in H; [by simplify_eq|]. case_in H; [by simplify_eq|].
  bool_props. clear Heqb0.
  destruct (step_down n no_effects) as [n1 f1] eqn:E.
  eapply step_down_ok in E as (Hok1 & Hp1 & Hd1 & Hr1); [|done..].
  set (t := if d_term (n_durable n) <? sr_term m then _ else _) in H.
  assert (durable_ok t /\ durable_le (n_durable n) t /\ d_term t = sr_term m) as (Ht1 & Ht2 & Ht3).
  { unfold t. case_any; bool_props; [|split; [done|]; split; [done|lia]].
    split; [|split; [|done]]. - apply term_vote_ok; [done|lia]. - apply term_vote_le; lia. }
  case_in H.
  { case_in H; [by simplify_eq|].
    eapply begin_write_follower; [exact H|done..| |]; by rewrite ?Hd1. }
  case_in H; [by simplify_eq|].
  eapply begin_write_follower; [exact H|done|done|done|..]; rewrite ?Hd1; case_any;
    bool_props; try done.
  - apply install_ok; [done|lia|lia].
  - etrans; [exact Ht2|]. by apply install_le.
Qed.

Lemma on_append_ok m n' f' :
  u64 (ae_term m) -> u64 (ae_prev_index m) -> u64 (ae_prev_term m) ->
  on_append config n m = (n', f') -> node_ok config n'.
Proof.
  unfold on_append. intros Ht Hpi Hpt H.
  case_in H; [by simplify_eq|]. case_in H; [by simplify_eq|].
  case_in H; [by simplify_eq|]. case_in H; [by simplify_eq|].
  rename select (append_malformed m = false) into Hm. unfold append_malformed in Hm. bool_props.
  destruct (step_down n no_effects) as [n1 f1] eqn:E.
  eapply step_down_ok in E as (Hok1 & Hp1 & Hd1 & Hr1); [|done..].
  set (t := if d_term (n_durable n) <? ae_term m then _ else _) in H.
  assert (durable_ok t /\ durable_le (n_durable n) t /\ d_term t = ae_term m /\
          d_log t = d_log (n_durable n) /\ d_commit t = d_commit (n_durable n))
    as (Ht1 & Ht2 & Ht3 & Ht4 & Ht5).
  { unfold t. case_any; bool_props; [|split; [done|]; split; [done|split; [lia|done]]].
    split; [|split; [|done]]. - apply term_vote_ok; [done|ulia]. - apply term_vote_le; lia. }
  rewrite (wrap64_small (ae_prev_index m + _)), (term_at_term_of t) in H by (done || ulia).
  (* staging [T], or answering at once when nothing changed *)
  assert (forall T o f2 b, durable_ok T -> durable_le (n_durable n) T ->
    (if bool_decide (T = n_durable n) then (n1, send_now o f2)
     else begin_write n1 f2 T [o] [] false [] b) = (n', f') -> node_ok config n') as Hstage.
  { intros T o f2 b HT1 HT2 HT. case_in HT; [by simplify_eq|].
    eapply begin_write_follower; [exact HT|done..| |]; by rewrite ?Hd1. }
  destruct (bool_decide (term_of t (ae_prev_index m) = _)) eqn:Hprev; bool_props; simpl in H.
  2:{ eapply Hstage; [| |exact H].
      - destruct Ht1. rewrite <- Ht4, <- Ht5. by destruct t.
      - rewrite <- Ht4, <- Ht5. by destruct t. }
  pose proof (term_of_range _ _ _ Ht1 Hprev) as Hrange.
  rewrite wrap64_small in H by (pose proof (ok_snap_nn _ Ht1); ulia).
  case_in H; bool_props.
  { eapply Hstage; [| |exact H].
    - apply commit_ok; [done|]. pose proof (ok_commit _ Ht1). lia.
    - etrans; [exact Ht2|]. apply commit_le. lia. }
  destruct (merge_entries _ _ _ _) as [[merged_t success] hint] eqn:Emerge.
  destruct success; simpl in H.
  2:{ assert (merged_t = d_with_log (d_log merged_t) t) as Hlog.
      { by eapply merge_entries_only_log. }
      eapply Hstage; [| |exact H]; rewrite Hlog; simpl.
      - rewrite <- Ht4, <- Ht5. by destruct t.
      - rewrite <- Ht4, <- Ht5. by destruct t. }
  pose proof (ok_snap_nn _ Ht1). pose proof (ok_last _ Ht1).
  apply merge_entries_merged in Emerge as [Hmerged _]; [|pose proof (ok_commit _ Ht1); ulia..].
  replace (ae_prev_index m + 1 - d_snapshot_index t - 1)
    with (ae_prev_index m - d_snapshot_index t) in Hmerged by lia.
  set (k := Z.to_nat (ae_prev_index m - d_snapshot_index t)) in *.
  assert (d_snapshot_index t + Z.of_nat k = ae_prev_index m) as Hk by lia.
  assert (k <= length (d_log t))%nat as Hkl by (unfold log_size in *; lia).
  assert (durable_ok merged_t) as Hmok.
  { eapply (merged_ok t k _ _ (ae_prev_term m)); [done|done|by rewrite Hk| |..|done]; [|ulia..].
    by rewrite Ht3. }
  eapply Hstage; [| |exact H].
  - apply commit_ok; [done|]. pose proof (ok_commit _ Hmok).
    pose proof (merged_covers t k _ _ Hkl Hmerged) as Hcov. lia.
  - etrans; [exact Ht2|]. etrans; [by eapply merged_le|]. apply commit_le. lia.
Qed.
End IdleEntries.
