(* ===== verification/TransitionProps.v ===== *)
(** * Properties of one node of the transition core

    The node invariant along every run, monotonicity of the durable state,
    fail-stop behaviour, and the rule that nothing which depends on a write
    leaves the node before that write has completed. *)

From S2P Require Import Prelude EntryLog Transition TransitionInv TransitionSteps.

(** ** Inputs handled while a write may be in flight *)

Lemma initial_peers_dom config :
  dom (initial_peers config) = list_to_set (c_peers config).
Proof.
  unfold initial_peers.
  assert (forall l (m : gmap string PeerProgress),
    dom (foldl (fun peers peer => match peers !! peer with
           | Some _ => peers | None => <[peer := default_progress]> peers end) m l) =
    dom m ∪ list_to_set l) as Hfold.
  { induction l as [|p l IH]; intros m; simpl; [set_solver|]. rewrite IH.
    destruct (m !! p) eqn:E.
    - assert (p ∈ dom m) by (apply elem_of_dom; by eexists). set_solver.
    - rewrite dom_insert_L. set_solver. }
  rewrite Hfold, dom_empty_L. set_solver.
Qed.

Lemma durable_ok_empty : durable_ok empty_durable.
Proof.
  split; simpl; try (unfold log_size; simpl; ulia); try done. constructor.
Qed.

Lemma recovered_ok config d :
  durable_ok d -> node_ok config (n_with_durable d (initial config)).
Proof.
  intros Hd. apply idle_node_ok; simpl; first [done|apply initial_peers_dom|set_solver].
Qed.

Lemma fail_stop_ok config n n' f' :
  fail_stop n = (n', f') -> node_ok config n -> node_ok config n'.
Proof.
  unfold fail_stop. intros H Hok.
  destruct (step_down _ _) as [n1 f1] eqn:E in H. simplify_eq.
  apply step_down_facts in E as (Hd & Hp & Hr & Hv & Hdom & _). simpl in *.
  destruct Hok. apply idle_node_ok; simpl; rewrite ?Hd, ?Hr, ?Hv, ?Hdom; done || set_solver.
Qed.

(** The state in which the effects of a completed write are released. *)
Definition after_write (p : PendingWrite) (n : Node) : Node :=
  n_with_durable (pw_target p) (n_with_pending None n).

Lemma after_write_ok config n p :
  node_ok config n -> n_pending n = Some p -> node_ok config (after_write p n).
Proof.
  intros [] Hp. unfold staged in *. rewrite Hp in *.
  apply idle_node_ok; simpl; done.
Qed.

Lemma on_persist_completed_ok config n token n' f' :
  node_ok config n -> on_persist_completed config n token = (n', f') -> node_ok config n'.
Proof.
  unfold on_persist_completed. intros Hok H.
  destruct (n_pending n) as [p|] eqn:Hp; [|by simplify_eq].
  case_in H; [|by simplify_eq].
  destruct (complete_read _ _ _) as [n1 f1] eqn:E in H. apply complete_read_frame in E.
  pose proof (after_write_ok config n p Hok Hp) as Haw.
  assert (node_ok config n1) as Hok1 by (eapply frame_ok; [exact E|exact Haw]).
  case_in H; [|by simplify_eq].
  pose proof (no_self_vote _ _ Hok p Hp ltac:(done)) as Hr.
  destruct (no_role _ _ Hok) as [Hterm Hvote]; [by rewrite Hr|].
  unfold staged in *. rewrite Hp in *.
  assert (n_durable n1 = pw_target p) as Hd1 by apply (fr_durable _ _ E).
  assert (n_pending n1 = None) as Hp1 by apply (fr_pending _ _ E).
  assert (node_ok config (n_with_volatile
    (v_with_votes ({[c_self config]} ∪ v_votes (n_volatile n1)) (n_volatile n1)) n1)) as Hok2.
  { apply idle_node_ok; simpl; try apply Hok1; rewrite ?Hd1; try done.
    pose proof (no_votes _ _ Hok1). set_solver. }
  case_in H; [|by simplify_eq].
  eapply become_leader_ok; [| |..|exact H]; simpl; rewrite ?Hd1; done.
Qed.

Lemma on_begin_read_ok config n context n' f' :
  node_ok config n -> on_begin_read config n context = (n', f') -> node_ok config n'.
Proof.
  unfold on_begin_read. intros Hok H. repeat (case_in H; [by simplify_eq|]).
  destruct (send_append_all _ _ _ _ _) as [[n1 out] sn] eqn:E.
  apply send_append_all_frame in E. apply complete_read_frame in H.
  eapply frame_ok; [|exact Hok]. etrans; [|exact H]. etrans; [|exact E]. apply read_frame.
Qed.

Lemma on_cancel_read_ok config n context n' f' :
  node_ok config n -> on_cancel_read n context = (n', f') -> node_ok config n'.
Proof.
  unfold on_cancel_read. intros Hok H. repeat case_in H; simplify_eq; try done.
  eapply frame_ok; [|exact Hok]. apply read_frame.
Qed.

Lemma on_restart_ok config n n' f' :
  node_ok config n -> on_restart config n = (n', f') -> node_ok config n'.
Proof.
  unfold on_restart. intros [] H. simplify_eq.
  apply idle_node_ok; simpl; first [done|apply initial_peers_dom|set_solver].
Qed.

Lemma step_idle_ok config n i n' f' :
  node_ok config n -> n_pending n = None -> input_typed i ->
  step_idle config n i = (n', f') -> node_ok config n'.
Proof.
  intros Hok Hp Hi H. destruct i; simpl in H, Hi; simplify_eq; try done.
  - by eapply on_election_timeout_ok.
  - by eapply on_heartbeat_ok.
  - by eapply on_client_propose_ok.
  - eapply on_request_vote_ok; [done|done| |done]. tauto.
  - by eapply on_vote_reply_ok.
  - eapply on_append_ok; [done|done|..|done]; tauto.
  - eapply on_append_reply_ok; [done|done| |done]. tauto.
  - by eapply on_advance_commit_ok.
  - by eapply on_apply_committed_ok.
  - by eapply on_compact_committed_ok.
  - eapply on_snapshot_ok; [done|done|..|done]; tauto.
  - eapply on_snapshot_reply_ok; [done|done| |done]. tauto.
Qed.

Lemma node_ok_not_invalid config n : node_ok config n -> state_invalid n = false.
Proof.
  intros []. unfold state_invalid, staged in *. rewrite durable_ok_valid by done. simpl.
  destruct (n_pending n); [|done]. by rewrite durable_ok_valid.
Qed.

Lemma step_ok config n i n' f' :
  node_ok config n -> input_typed i -> step config n i = (n', f') -> node_ok config n'.
Proof.
  intros Hok Hi H. unfold step in H. rewrite (node_ok_not_invalid config n Hok) in H.
  assert (forall j, (if n_halted n || is_some (n_pending n) then (n, no_effects)
            else step_idle config n j) = (n', f') -> input_typed j -> node_ok config n') as Hidle.
  { intros j Hj Hty. case_in Hj; [by simplify_eq|]. bool_props.
    eapply step_idle_ok; [done| |done..]. by destruct (n_pending n). }
  destruct i; try (by eapply Hidle); clear Hidle.
  - by eapply on_begin_read_ok.
  - by eapply on_cancel_read_ok.
  - by eapply on_persist_completed_ok.
  - unfold on_persist_failed in H. repeat case_in H; simplify_eq; try done.
    by eapply fail_stop_ok.
  - by eapply on_restart_ok.
Qed.

(** ** What an idle step may emit

    The durable state is untouched, nothing is applied, and the step either
    stages no write or stages one and sends nothing. *)
Record idle_effects (n n' : Node) (f : Effects) : Prop := {
  ie_durable : n_durable n' = n_durable n;
  ie_halted : n_halted n' = n_halted n;
  ie_halt : f_halt f = false;
  ie_apply : f_apply f = [];
  ie_persist :
    match f_persist f, n_pending n' with
    | None, None => True
    | Some q, Some p => pq_token q = pw_token p /\ pq_target q = pw_target p /\
                        f_send_now f = [] /\ f_snapshot_needed f = []
    | _, _ => False
    end;
}.

Lemma no_effects_idle n : n_pending n = None -> idle_effects n n no_effects.
Proof. intros H. split; try done. simpl. by rewrite H. Qed.

Lemma frame_idle n n' f :
  frame n n' -> n_pending n = None -> f_halt f = false -> f_apply f = [] ->
  f_persist f = None -> idle_effects n n' f.
Proof.
  intros [] Hp Hh Ha Hq. split; try congruence. by rewrite Hq, fr_pending, Hp.
Qed.

Lemma quiet_idle n n' f :
  n_durable n' = n_durable n -> n_halted n' = n_halted n -> n_pending n' = None ->
  f_persist f = None -> f_halt f = false -> f_apply f = [] -> idle_effects n n' f.
Proof. intros ?? Hp Hq ??. split; try done. by rewrite Hq, Hp. Qed.

Lemma begin_write_idle n n1 f target after apply_after self_vote snaps kind n' f' :
  begin_write n1 f target after apply_after self_vote snaps kind = (n', f') ->
  n_durable n1 = n_durable n -> n_halted n1 = n_halted n ->
  f_halt f = false -> f_apply f = [] -> f_send_now f = [] -> f_snapshot_needed f = [] ->
  idle_effects n n' f'.
Proof. unfold begin_write. intros. simplify_eq. by split. Qed.

Lemma complete_read_effects config n f n' f' :
  complete_read config n f = (n', f') ->
  f_persist f' = f_persist f /\ f_send_now f' = f_send_now f /\ f_apply f' = f_apply f /\
  f_halt f' = f_halt f /\ f_snapshot_needed f' = f_snapshot_needed f.
Proof. unfold complete_read. intros H. repeat case_in H; by simplify_eq. Qed.

Lemma complete_read_idle config n n1 f n' f' :
  complete_read config n1 f = (n', f') -> idle_effects n n1 f -> idle_effects n n' f'.
Proof.
  intros H. pose proof (complete_read_effects _ _ _ _ _ H) as (E1 & E2 & E3 & E4 & E5).
  apply complete_read_frame in H. destruct H. intros [].
  split; rewrite ?E1, ?E2, ?E3, ?E4, ?E5, ?fr_durable, ?fr_halted, ?fr_pending; done.
Qed.

Lemma step_down_effects n n' f' :
  step_down n no_effects = (n', f') ->
  n_durable n' = n_durable n /\ n_halted n' = n_halted n /\ n_pending n' = n_pending n /\
  f_persist f' = None /\ f_halt f' = false /\ f_apply f' = [] /\ f_send_now f' = [] /\
  f_snapshot_needed f' = [].
Proof. unfold step_down. intros H. simplify_eq. by destruct (v_read _). Qed.

Lemma become_leader_effects config n f n' f' :
  become_leader config n f = (n', f') ->
  n_durable n' = n_durable n /\ n_halted n' = n_halted n /\ n_pending n' = n_pending n /\
  f_persist f' = f_persist f /\ f_halt f' = f_halt f /\ f_apply f' = f_apply f.
Proof.
  intros H. pose proof (become_leader_frame _ _ _ _ _ H) as [].
  unfold become_leader in H. destruct (foldl _ _ _) as [[n1 o1] s1] in H. by simplify_eq.
Qed.

(** Reduce a goal about a handler's result to the operations it ends with. *)
Ltac idle_leaf :=
  simplify_eq; try done;
  first
  [ by apply no_effects_idle
  | eapply begin_write_idle; [eassumption|..]; simpl; congruence
  | apply frame_idle; [apply set_progress_frame; by eexists|done..]
  | apply quiet_idle; simpl; congruence
  | idtac ].

Ltac with_step_down H :=
  let n1 := fresh "n1" in let f1 := fresh "f1" in let E := fresh "E" in
  match type of H with context [step_down ?n no_effects] =>
    destruct (step_down n no_effects) as [n1 f1] eqn:E;
    apply step_down_effects in E as (? & ? & ? & ? & ? & ? & ? & ?)
  end.

Lemma observe_higher_term_idle n t n' f' :
  observe_higher_term n t = (n', f') -> n_pending n = None -> idle_effects n n' f'.
Proof. unfold observe_higher_term. intros H Hp. with_step_down H. idle_leaf. Qed.

Lemma become_leader_idle config n n1 n' f' :
  become_leader config n1 no_effects = (n', f') -> n_pending n1 = None ->
  n_durable n1 = n_durable n -> n_halted n1 = n_halted n -> idle_effects n n' f'.
Proof.
  intros (H1 & H2 & H3 & H4 & H5 & H6)%become_leader_effects Hp ??.
  simpl in *. split; try congruence. by rewrite H4, H3, Hp.
Qed.

Lemma step_idle_effects config n i n' f' :
  n_pending n = None -> step_idle config n i = (n', f') -> idle_effects n n' f'.
Proof.
  intros Hp H. destruct i; simpl in H; try (simplify_eq; by apply no_effects_idle).
  - unfold on_election_timeout in H. case_in H; [|idle_leaf]. with_step_down H.
    destruct (vote_requests _ _ _ _). idle_leaf.
  - unfold on_heartbeat in H. case_in H; [|idle_leaf].
    destruct (foldl _ _ _) as [[n1 o1] s1] eqn:E. simplify_eq.
    apply heartbeat_peers_frame in E. by apply frame_idle.
  - unfold on_client_propose in H. case_in H; [idle_leaf|]. case_in H; [|idle_leaf].
    destruct (send_append_all _ _ _ _ _) as [[n1 o1] s1] eqn:E.
    apply send_append_all_frame in E as []. idle_leaf.
  - unfold on_request_vote in H. do 2 (case_in H; [idle_leaf|]).
    destruct (d_term (n_durable n) <? rv_term message);
      [with_step_down H|]; case_in H; idle_leaf.
  - unfold on_vote_reply in H. case_in H; [idle_leaf|].
    case_in H; [by eapply observe_higher_term_idle|].
    do 2 (case_in H; [|idle_leaf]). by eapply become_leader_idle.
  - unfold on_append in H. do 4 (case_in H; [idle_leaf|]). with_step_down H.
    case_in H; [case_in H; idle_leaf|].
    match type of H with (let '_ := ?e in _) = _ => destruct e as [[t b] h] end.
    case_in H; idle_leaf.
  - unfold on_append_reply in H. case_in H; [idle_leaf|]. case_in H.
    { destruct (observe_higher_term _ _) as [n1 f1] eqn:E.
      eapply complete_read_idle; [exact H|]. by eapply observe_higher_term_idle. }
    repeat case_in H; try idle_leaf; eapply complete_read_idle; try exact H;
      try (by apply no_effects_idle); apply frame_idle; try done;
      try (apply set_progress_frame; by eexists).
    all: etrans; [apply read_frame|apply set_progress_frame; by eexists].
  - unfold on_advance_commit in H. repeat case_in H; idle_leaf.
  - unfold on_apply_committed in H. case_in H; idle_leaf.
  - unfold on_compact_committed in H. repeat case_in H; idle_leaf.
  - unfold on_snapshot in H. do 3 (case_in H; [idle_leaf|]). with_step_down H.
    case_in H; case_in H; idle_leaf.
  - unfold on_snapshot_reply in H. case_in H; [idle_leaf|].
    case_in H; [by eapply observe_higher_term_idle|]. repeat case_in H; idle_leaf.
Qed.

(** ** Votes leave the node only when they are on disk *)

Definition vote_justified (config : Config) (d : Durable) (o : Outbound) : Prop :=
  match o_message o with
  | MVoteReply v =>
      vr_voter v = c_self config /\ vr_term v = d_term d /\
      (vr_granted v = true -> d_voted_for d = Some (o_to o) /\ d_term d <> 0)
  | _ => True
  end.

(** The replies queued behind the write in flight match its target. *)
Definition after_ok (config : Config) (n : Node) : Prop :=
  forall p, n_pending n = Some p -> Forall (vote_justified config (pw_target p)) (pw_after p).

Section Sends.
Context (config : Config) (P : Outbound -> Prop).
Context (Happend : forall peer m, P (mkOutbound peer (MAppendEntries m))).

Lemma send_append_sends n log peer out sn n' out' sn' :
  send_append config n log peer out sn = (n', out', sn') -> Forall P out -> Forall P out'.
Proof.
  unfold send_append. intros H Ho. repeat case_in H; simplify_eq; try done;
    apply Forall_app_2; auto.
Qed.

Lemma send_append_all_sends n log out sn n' out' sn' :
  send_append_all config n log out sn = (n', out', sn') -> Forall P out -> Forall P out'.
Proof.
  unfold send_append_all. revert n out sn.
  induction (c_peers config) as [|p ps IH]; intros n out sn; simpl; [by intros; simplify_eq|].
  destruct (send_append config n log p out sn) as [[n1 o1] s1] eqn:E. intros H Ho.
  eapply IH; [exact H|]. by eapply send_append_sends.
Qed.

Lemma lead_peers_sends ps : forall n out sn n' out' sn',
  foldl (lead_peer config) (n, out, sn) ps = (n', out', sn') -> Forall P out -> Forall P out'.
Proof.
  induction ps as [|p ps IH]; intros n out sn n' out' sn' H Ho; cbn [foldl] in H;
    [by simplify_eq|].
  destruct (lead_peer config (n, out, sn) p) as [[n1 o1] s1] eqn:E.
  eapply IH; [exact H|]. unfold lead_peer in E. by eapply send_append_sends.
Qed.

Lemma heartbeat_peers_sends ps : forall n out sn n' out' sn',
  foldl (heartbeat_peer config) (n, out, sn) ps = (n', out', sn') ->
  Forall P out -> Forall P out'.
Proof.
  induction ps as [|p ps IH]; intros n out sn n' out' sn' H Ho; cbn [foldl] in H;
    [by simplify_eq|].
  destruct (heartbeat_peer config (n, out, sn) p) as [[n1 o1] s1] eqn:E.
  eapply IH; [exact H|]. unfold heartbeat_peer in E.
  repeat case_in E; simplify_eq; try done; [apply Forall_app_2; auto|].
  by eapply send_append_sends.
Qed.

Lemma become_leader_sends n f n' f' :
  become_leader config n f = (n', f') -> Forall P (f_send_now f) -> Forall P (f_send_now f').
Proof.
  unfold become_leader. intros H Hf. destruct (foldl _ _ _) as [[n1 o1] s1] eqn:E in H.
  simplify_eq. simpl. by eapply lead_peers_sends.
Qed.
End Sends.

Lemma vote_requests_sends config target (P : Outbound -> Prop) :
  (forall peer m, P (mkOutbound peer (MRequestVote m))) ->
  forall ps id, Forall P (vote_requests config target id ps).1.
Proof.
  intros HP. induction ps as [|p ps IH]; intros id; simpl; [done|].
  specialize (IH (wrap64 (id + 1))). destruct (vote_requests _ _ _ ps). by constructor.
Qed.

(** What an idle step sends or queues: [Q d o] for the durable state [d] in
    which [o] will be released. *)
Definition emits (Q : Durable -> Outbound -> Prop) (n' : Node) (f : Effects) : Prop :=
  Forall (Q (n_durable n')) (f_send_now f) /\
  forall p, n_pending n' = Some p -> Forall (Q (pw_target p)) (pw_after p).

Lemma begin_write_emits Q n f target after apply_after self_vote snaps kind n' f' :
  begin_write n f target after apply_after self_vote snaps kind = (n', f') ->
  f_send_now f = [] -> Forall (Q target) after -> emits Q n' f'.
Proof.
  unfold begin_write. intros H Hf Ha. simplify_eq. split; simpl; [by rewrite Hf|].
  intros p Hp. by simplify_eq.
Qed.

Lemma quiet_emits Q n f : n_pending n = None -> f_send_now f = [] -> emits Q n f.
Proof. intros Hp Hf. split; rewrite ?Hf, ?Hp; done. Qed.

Lemma send_emits Q n f :
  n_pending n = None -> Forall (Q (n_durable n)) (f_send_now f) -> emits Q n f.
Proof. intros Hp Hf. split; rewrite ?Hp; done. Qed.

Ltac emit_leaf :=
  simplify_eq; try done;
  first
  [ apply quiet_emits; simpl; congruence
  | eapply begin_write_emits; [eassumption|simpl; congruence|]; by repeat constructor
  | apply send_emits; simpl; [congruence|]; by repeat constructor
  | idtac ].

Lemma observe_higher_term_emits Q n t n' f' :
  observe_higher_term n t = (n', f') -> emits Q n' f'.
Proof. unfold observe_higher_term. intros H. with_step_down H. emit_leaf. Qed.

Lemma complete_read_emits Q config n f n' f' :
  complete_read config n f = (n', f') -> emits Q n f -> emits Q n' f'.
Proof.
  intros H. pose proof (complete_read_effects _ _ _ _ _ H) as (_ & E2 & _).
  apply complete_read_frame in H. destruct H. intros [He1 He2].
  split; [by rewrite E2, fr_durable|]. intros p. rewrite fr_pending. apply He2.
Qed.

(** Sending a justified reply at once, or queueing it behind its write. *)
Lemma reply_emits Q n0 n f T o kind n' f' :
  (if bool_decide (T = n_durable n0) then (n, send_now o f)
   else begin_write n f T [o] [] false [] kind) = (n', f') ->
  n_durable n = n_durable n0 -> n_pending n = None -> f_send_now f = [] -> Q T o ->
  emits Q n' f'.
Proof.
  intros H Hd Hp Hf HQ. case_in H; bool_props.
  - simplify_eq. apply send_emits; [done|]. simpl. rewrite Hf, Hd. by repeat constructor.
  - eapply begin_write_emits; [exact H|done|]. by repeat constructor.
Qed.

Lemma on_request_vote_emits config n m n' f' :
  n_pending n = None -> on_request_vote config n m = (n', f') ->
  emits (vote_justified config) n' f'.
Proof.
  intros Hp H. unfold on_request_vote in H.
  destruct (negb (known_peer n (rv_candidate m)) || _ || _ || _) eqn:Hg in H; [emit_leaf|].
  destruct (rv_term m <? d_term (n_durable n)) eqn:Hlow in H; [emit_leaf|]. bool_props.
  destruct (d_term (n_durable n) <? rv_term m) eqn:Hhigh; [with_step_down H|];
    (eapply reply_emits; [exact H|congruence|congruence|simpl; congruence|]);
    (split; [done|]); (split; [done|]); simpl; intros ->; bool_props; (split; [done|]); cbn; lia.
Qed.

Lemma step_idle_votes config n i n' f' :
  n_pending n = None -> step_idle config n i = (n', f') ->
  emits (vote_justified config) n' f'.
Proof.
  intros Hp H. destruct i; simpl in H; try (by emit_leaf).
  - unfold on_election_timeout in H. case_in H; [|emit_leaf]. with_step_down H.
    match type of H with context [vote_requests ?c ?t ?i ?ps] =>
      pose proof (vote_requests_sends c t (vote_justified config t) (fun _ _ => I) ps i) as Hv;
      destruct (vote_requests c t i ps) end.
    eapply begin_write_emits; [exact H|done|done].
  - unfold on_heartbeat in H. case_in H; [|emit_leaf].
    destruct (foldl _ _ _) as [[n1 o1] s1] eqn:E. simplify_eq.
    pose proof (heartbeat_peers_frame _ _ _ _ _ _ _ _ E) as F. apply send_emits; simpl.
    + by rewrite (fr_pending _ _ F).
    + eapply heartbeat_peers_sends; [|exact E|done]. done.
  - unfold on_client_propose in H. case_in H; [emit_leaf|]. case_in H; [|emit_leaf].
    destruct (send_append_all _ _ _ _ _) as [[n1 o1] s1] eqn:E.
    eapply begin_write_emits; [exact H|done|].
    eapply send_append_all_sends; [|exact E|done]. done.
  - by eapply on_request_vote_emits.
  - unfold on_vote_reply in H. case_in H; [emit_leaf|].
    case_in H; [by eapply observe_higher_term_emits|].
    do 2 (case_in H; [|emit_leaf]).
    pose proof (become_leader_effects _ _ _ _ _ H) as (_ & _ & Hp' & _).
    apply send_emits; [by rewrite Hp'|].
    eapply become_leader_sends; [|exact H|done]. done.
  - unfold on_append in H. do 4 (case_in H; [emit_leaf|]). with_step_down H.
    case_in H; [by eapply reply_emits; [exact H|congruence|congruence|simpl; congruence|]|].
    match type of H with (let '_ := ?e in _) = _ => destruct e as [[t b] h] end.
    by eapply reply_emits; [exact H|congruence|congruence|simpl; congruence|].
  - unfold on_append_reply in H. case_in H; [emit_leaf|]. case_in H.
    { destruct (observe_higher_term _ _) as [n1 f1] eqn:E.
      eapply complete_read_emits; [exact H|]. by eapply observe_higher_term_emits. }
    repeat case_in H; try (by emit_leaf); eapply complete_read_emits; try exact H;
      by apply quiet_emits.
  - unfold on_advance_commit in H. repeat case_in H; emit_leaf.
  - unfold on_apply_committed in H. case_in H; emit_leaf.
  - unfold on_compact_committed in H. repeat case_in H; emit_leaf.
  - unfold on_snapshot in H. do 3 (case_in H; [emit_leaf|]). with_step_down H.
    case_in H; [case_in H; emit_leaf|].
    by eapply reply_emits; [exact H|congruence|congruence|simpl; congruence|].
  - unfold on_snapshot_reply in H. case_in H; [emit_leaf|].
    case_in H; [by eapply observe_higher_term_emits|]. repeat case_in H; emit_leaf.
Qed.

(** ** Steps and runs *)

(** The inputs that are only handled by an idle node. *)
Definition idle_input (i : Input) : bool :=
  match i with
  | PersistCompleted _ | PersistFailed _ | Restart | CancelRead _ | BeginRead _ => false
  | _ => true
  end.

Lemma step_idle_input config n i n' f' :
  state_invalid n = false -> idle_input i = true -> step config n i = (n', f') ->
  (n' = n /\ f' = no_effects /\ (n_halted n = true \/ is_Some (n_pending n))) \/
  (n_pending n = None /\ n_halted n = false /\ step_idle config n i = (n', f')).
Proof.
  intros Hv Hi H. unfold step in H. rewrite Hv in H.
  assert ((if n_halted n || is_some (n_pending n) then (n, no_effects)
           else step_idle config n i) = (n', f')) as H'.
  { by destruct i. }
  case_in H'; bool_props.
  - simplify_eq. left. split; [done|]. split; [done|].
    rename select (_ || _ = true) into Ho. apply orb_true_iff in Ho as [?|Ho]; [by left|right].
    by destruct (n_pending n').
  - right. split; [|done]. by destruct (n_pending n).
Qed.

Lemma fail_stop_effects n n' f' :
  fail_stop n = (n', f') ->
  n_durable n' = n_durable n /\ n_pending n' = None /\ n_halted n' = true /\
  v_role (n_volatile n') = Follower /\ f_halt f' = true /\
  f_persist f' = None /\ f_send_now f' = [] /\ f_apply f' = [].
Proof.
  unfold fail_stop. intros H. destruct (step_down _ _) as [n1 f1] eqn:E in H.
  pose proof (step_down_facts _ _ _ _ E) as (Hd & Hp & Hr & _).
  apply step_down_effects in E as (_ & _ & _ & E1 & _ & E2 & E3 & _). simplify_eq.
  unfold read_unavailable. simpl. by destruct (f_read f1).
Qed.

(** Completing the write in flight: its target becomes the durable state and
    its queued effects are released. *)
Lemma persist_completed_effects config n p token n' f' :
  n_pending n = Some p -> on_persist_completed config n token = (n', f') ->
  (n' = n /\ f' = no_effects) \/
  (pw_token p = token /\ n_halted n = false /\ n_durable n' = pw_target p /\
   n_pending n' = None /\ n_halted n' = false /\
   f_persist f' = None /\ f_halt f' = false /\ f_apply f' = pw_apply_after p /\
   forall P : Outbound -> Prop, (forall peer m, P (mkOutbound peer (MAppendEntries m))) ->
     Forall P (pw_after p) -> Forall P (f_send_now f')).
Proof.
  unfold on_persist_completed. intros Hp H. rewrite Hp in H.
  case_in H; [|left; by simplify_eq]. bool_props. right.
  destruct (complete_read _ _ _) as [n1 f1] eqn:E in H.
  pose proof (complete_read_effects _ _ _ _ _ E) as (E1 & E2 & E3 & E4 & _).
  apply complete_read_frame in E as [D1 D2 _ _ _ D6 _]. simpl in *.
  assert (n_durable n' = n_durable n1 /\ n_pending n' = n_pending n1 /\
          n_halted n' = n_halted n1 /\ f_persist f' = f_persist f1 /\
          f_halt f' = f_halt f1 /\ f_apply f' = f_apply f1 /\
          forall P : Outbound -> Prop, (forall peer m, P (mkOutbound peer (MAppendEntries m))) ->
            Forall P (f_send_now f1) -> Forall P (f_send_now f'))
    as (B1 & B2 & B3 & B4 & B5 & B6 & B7).
  { case_in H; [|by simplify_eq]. case_in H; [|by simplify_eq].
    pose proof (become_leader_effects _ _ _ _ _ H) as (?&?&?&?&?&?).
    repeat split; try done. intros P HP. by apply (become_leader_sends _ _ HP _ _ _ _ H). }
  repeat split; try congruence. intros P HP HF. apply B7; [done|]. by rewrite E2.
Qed.

Lemma begin_read_effects config n context n' f' :
  on_begin_read config n context = (n', f') ->
  n_durable n' = n_durable n /\ n_pending n' = n_pending n /\ n_halted n' = n_halted n /\
  f_persist f' = None /\ f_halt f' = false /\ f_apply f' = [] /\
  (is_Some (n_pending n) -> f_send_now f' = []) /\
  forall P : Outbound -> Prop, (forall peer m, P (mkOutbound peer (MAppendEntries m))) ->
    Forall P (f_send_now f').
Proof.
  unfold on_begin_read. intros H. case_in H; [by simplify_eq|]. bool_props.
  assert (n_pending n = None) as Hp by (by destruct (n_pending n)).
  repeat (case_in H; [by simplify_eq|]).
  destruct (send_append_all _ _ _ _ _) as [[n1 out] sn] eqn:E.
  pose proof (complete_read_effects _ _ _ _ _ H) as (E1 & E2 & E3 & E4 & _).
  apply complete_read_frame in H as [D1 D2 _ _ _ D6 _].
  pose proof (send_append_all_frame _ _ _ _ _ _ _ _ E) as [A1 A2 _ _ _ A6 _]. simpl in *.
  repeat split; try congruence.
  - intros [p Hsome]. congruence.
  - intros P HP. rewrite E2. eapply send_append_all_sends; [exact HP|exact E|done].
Qed.

(** A summary of [step] on a well-formed node. *)
Lemma step_summary config n i n' f' :
  node_ok config n -> step config n i = (n', f') ->
  (exists token p, i = PersistCompleted token /\ n_pending n = Some p /\
     on_persist_completed config n token = (n', f')) \/
  (exists token p, i = PersistFailed token /\ n_pending n = Some p /\
     pw_token p = token /\ n_halted n = false /\ fail_stop n = (n', f')) \/
  (n_durable n' = n_durable n /\ f_halt f' = false /\ f_apply f' = [] /\
   ((exists context, i = BeginRead context /\ on_begin_read config n context = (n', f')) \/
    (f_persist f' = None /\ f_send_now f' = [] /\
       (n_pending n' = n_pending n \/ i = Restart /\ n_pending n' = None)) \/
    (n_pending n = None /\ n_halted n = false /\ idle_input i = true /\
     step_idle config n i = (n', f')))).
Proof.
  intros Hok H. pose proof (node_ok_not_invalid _ _ Hok) as Hv.
  destruct (idle_input i) eqn:Hi.
  { destruct (step_idle_input _ _ _ _ _ Hv Hi H) as [(-> & -> & _)|(Hp & Hh & Hs)].
    - right; right. by eauto 10.
    - right; right. pose proof (step_idle_effects _ _ _ _ _ Hp Hs) as [].
      repeat split; try done. right; right. done. }
  unfold step in H. rewrite Hv in H. destruct i; try done.
  - right; right. pose proof (begin_read_effects _ _ _ _ _ H) as (?&?&?&?&?&?&_).
    repeat split; try done. left. by eauto.
  - right; right. unfold on_cancel_read in H. repeat case_in H; simplify_eq; by eauto 10.
  - destruct (n_pending n) as [p|] eqn:Hp.
    + left. by eauto.
    + right; right. unfold on_persist_completed in H. rewrite Hp in H. simplify_eq.
      rewrite Hp. by eauto 10.
  - unfold on_persist_failed in H. destruct (n_pending n) as [p|] eqn:Hp.
    + case_in H; bool_props; [right; left; by eauto 10|].
      right; right. simplify_eq. rewrite Hp. by eauto 10.
    + right; right. simplify_eq. rewrite Hp. by eauto 10.
  - right; right. unfold on_restart in H. simplify_eq. simpl.
    destruct (v_read _); simpl; by eauto 10.
Qed.

(** ** Applied entries *)

(** Only [ApplyCommitted] queues an entry for application, and it queues the
    entry just above the applied index. *)
Definition apply_ok (n : Node) : Prop :=
  forall p, n_pending n = Some p ->
    pw_apply_after p = [] \/
    exists e, pw_apply_after p = [e] /\
      pw_target p = d_with_applied (d_applied (n_durable n) + 1) (n_durable n) /\
      entry_at (n_durable n) (d_applied (n_durable n) + 1) = Some e /\
      d_applied (n_durable n) + 1 <= d_commit (n_durable n).

Lemma begin_write_pending n f target after aa sv sn kind n' f' :
  begin_write n f target after aa sv sn kind = (n', f') ->
  n_pending n' = Some (mkPendingWrite (n_next_token n) target after aa sv sn).
Proof. unfold begin_write. by intros; simplify_eq. Qed.

Ltac apply_leaf :=
  simplify_eq;
  let p := fresh "p" in let Hp := fresh "Hp" in
  intros p Hp;
  first
  [ exfalso; simpl in Hp; congruence
  | repeat match goal with H : begin_write _ _ _ _ _ _ _ _ = _ |- _ =>
      apply begin_write_pending in H; rewrite H in Hp end;
    simplify_eq/=; by left ].

Lemma observe_higher_term_apply n t n' f' :
  observe_higher_term n t = (n', f') -> apply_ok n'.
Proof. unfold observe_higher_term. intros H. with_step_down H. apply_leaf. Qed.

Lemma step_idle_apply config n i n' f' :
  node_ok config n -> n_pending n = None -> step_idle config n i = (n', f') -> apply_ok n'.
Proof.
  intros Hok Hp H. destruct i; simpl in H; try (simplify_eq; intros ??; congruence).
  - unfold on_election_timeout in H. case_in H; [|apply_leaf]. with_step_down H.
    destruct (vote_requests _ _ _ _). apply_leaf.
  - unfold on_heartbeat in H. case_in H; [|apply_leaf].
    destruct (foldl _ _ _) as [[n1 o1] s1] eqn:E. simplify_eq.
    apply heartbeat_peers_frame in E as []. apply_leaf.
  - unfold on_client_propose in H. case_in H; [apply_leaf|]. case_in H; [|apply_leaf].
    destruct (send_append_all _ _ _ _ _) as [[n1 o1] s1] eqn:E. apply_leaf.
  - unfold on_request_vote in H. do 2 (case_in H; [apply_leaf|]).
    destruct (d_term (n_durable n) <? rv_term message);
      [with_step_down H|]; case_in H; apply_leaf.
  - unfold on_vote_reply in H. case_in H; [apply_leaf|].
    case_in H; [by eapply observe_higher_term_apply|].
    do 2 (case_in H; [|apply_leaf]).
    apply become_leader_effects in H as (_ & _ & Hp' & _). simpl in Hp'. apply_leaf.
  - unfold on_append in H. do 4 (case_in H; [apply_leaf|]). with_step_down H.
    case_in H; [case_in H; apply_leaf|].
    match type of H with (let '_ := ?e in _) = _ => destruct e as [[t b] h] end.
    case_in H; apply_leaf.
  - unfold on_append_reply in H. case_in H; [apply_leaf|]. case_in H.
    { destruct (observe_higher_term _ _) as [n1 f1] eqn:E.
      apply observe_higher_term_apply in E. apply complete_read_frame in H as [].
      intros p. rewrite fr_pending, fr_durable. apply E. }
    repeat case_in H; try (by apply_leaf); apply complete_read_frame in H as [];
      simpl in *; apply_leaf.
  - unfold on_advance_commit in H. repeat case_in H; apply_leaf.
  - unfold on_apply_committed in H. case_in H; [|apply_leaf]. bool_props.
    pose proof (no_durable _ _ Hok) as Hd. pose proof (last_index_ok _ Hd) as Hl.
    destruct Hd. unfold begin_write in H. simplify_eq. intros p Hq. simpl in Hq. simplify_eq.
    right. eexists. simpl. split; [reflexivity|]. split; [done|].
    split; [apply entry_at_in_range; lia|lia].
  - unfold on_compact_committed in H. repeat case_in H; apply_leaf.
  - unfold on_snapshot in H. do 3 (case_in H; [apply_leaf|]). with_step_down H.
    case_in H; case_in H; apply_leaf.
  - unfold on_snapshot_reply in H. case_in H; [apply_leaf|].
    case_in H; [by eapply observe_higher_term_apply|]. repeat case_in H; apply_leaf.
Qed.

(** ** The combined invariant of a node *)

Record core_ok (config : Config) (n : Node) : Prop := {
  co_node : node_ok config n;
  co_after : after_ok config n;
  co_apply : apply_ok n;
}.

Lemma core_ok_idle config n : node_ok config n -> n_pending n = None -> core_ok config n.
Proof. intros ? Hp. split; [done|..]; intros p; by rewrite Hp. Qed.

Lemma core_ok_recovered config d :
  durable_ok d -> core_ok config (n_with_durable d (initial config)).
Proof. intros. apply core_ok_idle; [by apply recovered_ok|done]. Qed.

Lemma step_core_ok config n i n' f' :
  core_ok config n -> input_typed i -> step config n i = (n', f') -> core_ok config n'.
Proof.
  intros [Hok Haf Hap] Hi H. pose proof (step_ok _ _ _ _ _ Hok Hi H) as Hok'.
  destruct (step_summary _ _ _ _ _ Hok H)
    as [(token & p & -> & Hp & Hc)|[(token & p & -> & Hp & _ & _ & Hc)|(Hd & Hh & Ha & Hcase)]].
  - destruct (persist_completed_effects _ _ _ _ _ _ Hp Hc)
      as [[-> ->]|(_ & _ & _ & Hnone & _)]; [done|]. by apply core_ok_idle.
  - apply fail_stop_effects in Hc as (_ & Hnone & _). by apply core_ok_idle.
  - destruct Hcase as [(context & -> & Hr)|[(_ & _ & [Hpe|[_ Hpe]])|(Hp & Hhalt & Hii & Hs)]].
    + apply begin_read_effects in Hr as (_ & Hpe & _).
      split; [done|..]; intros p; rewrite Hpe, ?Hd; [apply Haf|apply Hap].
    + split; [done|..]; intros p; rewrite Hpe, ?Hd; [apply Haf|apply Hap].
    + by apply core_ok_idle.
    + pose proof (step_idle_votes _ _ _ _ _ Hp Hs) as [_ Hv].
      split; [done|exact Hv|]. by apply (step_idle_apply config n i n' f').
Qed.

(** Every vote reply a step sends is backed by the durable state. *)
Lemma step_sends_votes config n i n' f' :
  core_ok config n -> step config n i = (n', f') ->
  Forall (vote_justified config (n_durable n')) (f_send_now f').
Proof.
  intros [Hok Haf Hap] H. destruct (step_summary _ _ _ _ _ Hok H)
    as [(token & p & -> & Hp & Hc)|[(token & p & -> & Hp & _ & _ & Hc)|(Hd & Hh & Ha & Hcase)]].
  - destruct (persist_completed_effects _ _ _ _ _ _ Hp Hc)
      as [[-> ->]|(_ & _ & -> & _ & _ & _ & _ & _ & Hs)]; [done|].
    apply Hs; [done|]. by apply Haf.
  - apply fail_stop_effects in Hc as (_ & _ & _ & _ & _ & _ & -> & _). done.
  - destruct Hcase as [(context & -> & Hr)|[(_ & -> & _)|(Hp & Hhalt & Hii & Hs)]]; [|done|].
    + apply begin_read_effects in Hr as (_ & _ & _ & _ & _ & _ & _ & Hs). by apply Hs.
    + by apply step_idle_votes in Hs as [? _].
Qed.

(** ** What a leader stages while it stays leader *)

Definition extends (d t : Durable) : Prop :=
  d_term t = d_term d /\
  forall k e, entry_at d k = Some e -> d_snapshot_index t < k -> entry_at t k = Some e.

Lemma begin_write_volatile n f target after aa sv sn kind n' f' :
  begin_write n f target after aa sv sn kind = (n', f') -> n_volatile n' = n_volatile n.
Proof. unfold begin_write. by intros; simplify_eq. Qed.

(** After a step down the node is a follower, whatever it stages. *)
Lemma step_down_begin_write n n1 f1 f target after aa sv sn kind n' f' :
  step_down n no_effects = (n1, f1) ->
  begin_write n1 f target after aa sv sn kind = (n', f') ->
  v_role (n_volatile n') = Follower.
Proof.
  intros (_ & _ & Hr & _)%step_down_facts H%begin_write_volatile. congruence.
Qed.

Lemma observe_higher_term_follower n t n' f' :
  observe_higher_term n t = (n', f') -> v_role (n_volatile n') = Follower.
Proof.
  unfold observe_higher_term. intros H. destruct (step_down n no_effects) eqn:E.
  by eapply step_down_begin_write.
Qed.

Ltac leader_leaf :=
  exfalso; simplify_eq; simpl in *;
  repeat match goal with
  | E : step_down _ _ = _, H : begin_write _ _ _ _ _ _ _ _ = _ |- _ =>
      pose proof (step_down_begin_write _ _ _ _ _ _ _ _ _ _ _ _ E H); clear H
  | E : step_down _ _ = _ |- _ =>
      apply step_down_facts in E as (? & ? & ? & _)
  end; congruence.

Lemma leader_step_idle config n i n' f' p :
  node_ok config n -> n_pending n = None -> v_role (n_volatile n) = Leader ->
  step_idle config n i = (n', f') -> v_role (n_volatile n') = Leader ->
  n_pending n' = Some p -> extends (n_durable n) (pw_target p).
Proof.
  intros Hok Hidle Hr H Hr' Hp. pose proof (no_durable _ _ Hok) as Hd.
  assert (forall m f target after aa sv sn kind, begin_write m f target after aa sv sn kind = (n', f') ->
    extends (n_durable n) target -> extends (n_durable n) (pw_target p)) as Hbw.
  { intros * Hb Hx. apply begin_write_pending in Hb. rewrite Hp in Hb. by simplify_eq/=. }
  destruct i; simpl in H; try (by simplify_eq; congruence).
  - unfold on_election_timeout in H. rewrite (bool_decide_eq_true_2 _ Hr) in H.
    simpl in H. leader_leaf.
  - unfold on_heartbeat in H. case_in H; [|leader_leaf].
    destruct (foldl _ _ _) as [[n1 o1] s1] eqn:E. simplify_eq.
    apply heartbeat_peers_frame in E as []. congruence.
  - unfold on_client_propose in H. case_in H; [leader_leaf|]. case_in H; [|leader_leaf].
    destruct (send_append_all _ _ _ _ _) as [[n1 o1] s1] eqn:E.
    eapply Hbw; [exact H|]. split; [done|]. intros k e Hk Hs.
    pose proof (entry_at_range _ _ _ Hk). rewrite entry_at_with_log. unfold entry_at in Hk.
    case_any; [done|]. by apply lookup_app_l_Some.
  - unfold on_request_vote in H. do 2 (case_in H; [leader_leaf|]). bool_props.
    destruct (d_term (n_durable n) <? rv_term message) eqn:Eh.
    + destruct (step_down n no_effects) eqn:E. case_in H; leader_leaf.
    + case_in H; [leader_leaf|]. eapply Hbw; [exact H|]. case_any; by split.
  - unfold on_vote_reply in H. case_in H; [leader_leaf|].
    case_in H; [apply observe_higher_term_follower in H; congruence|].
    rewrite Hr in H. repeat (case_in H; try leader_leaf); bool_props; congruence.
  - unfold on_append in H. do 4 (case_in H; [leader_leaf|]).
    destruct (step_down n no_effects) eqn:E.
    case_in H; [case_in H; leader_leaf|].
    match type of H with (let '_ := ?e in _) = _ => destruct e as [[t b] h] end.
    case_in H; leader_leaf.
  - unfold on_append_reply in H. case_in H; [leader_leaf|]. case_in H.
    { destruct (observe_higher_term _ _) as [n1 f1] eqn:E.
      apply observe_higher_term_follower in E. apply complete_read_frame in H as []. congruence. }
    repeat case_in H; try leader_leaf; apply complete_read_frame in H as []; simpl in *; congruence.
  - unfold on_advance_commit in H. repeat case_in H; try leader_leaf.
    eapply Hbw; [exact H|]. by split.
  - unfold on_apply_committed in H. case_in H; [|leader_leaf]. eapply Hbw; [exact H|]. by split.
  - unfold on_compact_committed in H. repeat case_in H; try leader_leaf. bool_props.
    eapply Hbw; [exact H|]. split; [done|]. intros k e Hk Hs. simpl in Hs.
    rewrite <- Hk. apply (rebase_entry (n_durable n) (d_commit (n_durable n)) z
      (d_applied (n_durable n)) (d_commit (n_durable n))); [|done].
    destruct Hd. lia.
  - unfold on_snapshot in H. do 3 (case_in H; [leader_leaf|]).
    destruct (step_down n no_effects) eqn:E. case_in H; case_in H; leader_leaf.
  - unfold on_snapshot_reply in H. case_in H; [leader_leaf|].
    case_in H; [apply observe_higher_term_follower in H; congruence|].
    repeat case_in H; leader_leaf.
Qed.
