(* ===== verification/TransitionThms.v ===== *)
(** * Theorems on one node of the transition core

    The claims about [Transition.step]: each is proved from the lemmas of
    [TransitionInv], [TransitionSteps] and [TransitionProps]; the witnesses
    run the core on concrete inputs. *)

From S2P Require Import Prelude EntryLog Transition TransitionInv TransitionSteps TransitionProps.

(** A run: the node after a sequence of inputs. *)
Definition run (config : Config) (n : Node) (inputs : list Input) : Node :=
  foldl (fun n i => (step config n i).1) n inputs.

(** A node rebuilt from the durable state found on disk, as [DurableNode::open]
    and [RuntimeHost::open] do. *)
Definition recovered (config : Config) (d : Durable) : Node :=
  n_with_durable d (initial config).

(** ** A concrete cluster member for the witnesses *)

Definition demo_config : Config := mkConfig "a" ["b"; "c"].

(** Elect node [a], append a command and commit it with one follower. *)
Definition demo_inputs : list Input :=
  [ElectionTimeout; PersistCompleted 1;
   RecvVoteReply (mkVoteReply 1 "b" true 1);
   ClientPropose "move"; PersistCompleted 2;
   RecvAppendReply (mkAppendReply 1 "b" true 0 3 0);
   HeartbeatTimeout;
   RecvAppendReply (mkAppendReply 1 "b" true 1 5 1);
   AdvanceCommit; PersistCompleted 3; ApplyCommitted].

Definition demo_node : Node := run demo_config (recovered demo_config empty_durable) demo_inputs.

Lemma demo_inputs_typed : Forall input_typed demo_inputs.
Proof. repeat constructor; simpl; unfold u64, max_u64; lia. Qed.

Lemma run_node_ok config inputs : forall n,
  node_ok config n -> Forall input_typed inputs -> node_ok config (run config n inputs).
Proof.
  induction inputs as [|i inputs IH]; intros n Hn Hall; [done|].
  inversion Hall; subst. simpl. apply IH; [|done].
  destruct (step config n i) as [n' f'] eqn:E. by eapply step_ok.
Qed.

Lemma demo_node_ok : node_ok demo_config demo_node.
Proof.
  apply run_node_ok; [|apply demo_inputs_typed]. apply recovered_ok, durable_ok_empty.
Qed.

(** ** Invariant and monotonicity *)

(** C4: From any well-formed durable state found on disk, whatever typed
    inputs arrive, the node invariant holds: durable and staged states satisfy
    [valid_durable], the staged state may follow the durable one, and a
    candidate or leader has voted for itself in a positive term. *)
Theorem run_keeps_node_invariant config d inputs :
  durable_ok d -> Forall input_typed inputs ->
  node_ok config (run config (recovered config d) inputs).
Proof. intros Hd Hi. apply run_node_ok; [by apply recovered_ok|done]. Qed.

Lemma run_keeps_node_invariant_witness :
  node_ok demo_config (run demo_config (recovered demo_config empty_durable) demo_inputs) /\
  v_role (n_volatile demo_node) = Leader /\ d_commit (n_durable demo_node) = 1.
Proof.
  split; [|vm_compute; split; reflexivity].
  apply run_keeps_node_invariant; [apply durable_ok_empty|apply demo_inputs_typed].
Defined.

Lemma step_durable_le config n i n' f' :
  node_ok config n -> step config n i = (n', f') ->
  durable_le (n_durable n) (n_durable n').
Proof.
  intros Hok H. destruct (step_summary _ _ _ _ _ Hok H)
    as [(token & p & -> & Hp & Hc)|[(token & p & -> & Hp & _ & _ & Hc)|(-> & _)]]; [| |done].
  - destruct (persist_completed_effects _ _ _ _ _ _ Hp Hc) as [[-> _]|(_ & _ & -> & _)]; [done|].
    pose proof (no_le _ _ Hok) as Hle. unfold staged in Hle. by rewrite Hp in Hle.
  - apply fail_stop_effects in Hc as (-> & _). done.
Qed.

(** C5: Along every run the durable state only moves forward: terms, commit
    index, applied index and snapshot boundary never decrease, a vote is never
    changed within its term, and no committed entry is rewritten. *)
Theorem run_durable_never_regresses config n inputs :
  node_ok config n -> Forall input_typed inputs ->
  durable_le (n_durable n) (n_durable (run config n inputs)).
Proof.
  intros Hok Hall. revert n Hok.
  induction Hall as [|i inputs Hi _ IH]; intros n Hok; [done|]. simpl.
  destruct (step config n i) as [n' f'] eqn:E. simpl.
  etrans; [by eapply step_durable_le|]. apply IH. by eapply step_ok.
Qed.

Lemma run_durable_never_regresses_witness :
  durable_le (n_durable demo_node)
    (n_durable (run demo_config demo_node [ElectionTimeout; PersistCompleted 4; Restart])) /\
  d_applied (n_durable (run demo_config demo_node [PersistCompleted 4])) = 1.
Proof.
  split; [|vm_compute; reflexivity].
  apply run_durable_never_regresses; [apply demo_node_ok|]. repeat constructor.
Defined.

(** ** Durability before effects *)

(** C6: Nothing that depends on a write leaves the node before the write has
    completed: a step that asks for persistence sends nothing, applies nothing
    and requests no snapshot; while a write is in flight the only input that
    releases messages or applied entries is the completion of that write. *)
Theorem effects_wait_for_the_disk config n i n' f' :
  node_ok config n -> step config n i = (n', f') ->
  (is_Some (f_persist f') ->
     f_send_now f' = [] /\ f_apply f' = [] /\ f_snapshot_needed f' = [] /\
     n_pending n = None /\ is_Some (n_pending n')) /\
  (forall p, n_pending n = Some p -> f_send_now f' <> [] \/ f_apply f' <> [] ->
     i = PersistCompleted (pw_token p) /\ n_durable n' = pw_target p).
Proof.
  intros Hok H. destruct (step_summary _ _ _ _ _ Hok H)
    as [(token & p & -> & Hp & Hc)|[(token & p & -> & Hp & _ & _ & Hc)|(Hd & Hh & Ha & Hcase)]].
  - destruct (persist_completed_effects _ _ _ _ _ _ Hp Hc)
      as [[-> ->]|(Ht & _ & Hd & _ & _ & Hf & _)].
    + split; [by intros [??]|]. simpl. intros ? _ [?|?]; done.
    + split; [rewrite Hf; by intros [??]|]. intros p' Hp' _.
      rewrite Hp in Hp'. simplify_eq. done.
  - apply fail_stop_effects in Hc as (_ & _ & _ & _ & _ & Hf & Hs & Ha). rewrite Hf, Hs, Ha.
    split; [by intros [??]|]. intros ? _ [?|?]; done.
  - destruct Hcase as [(context & -> & Hr)|[(Hf & Hs & _)|(Hp & Hhalt & Hi & Hs)]].
    + apply begin_read_effects in Hr as (_ & _ & _ & Hf & _ & _ & Hs & _). rewrite Hf, Ha.
      split; [by intros [??]|]. intros p Hp [?|?]; [|done]. rewrite Hs in *; done.
    + rewrite Hf, Hs, Ha. split; [by intros [??]|]. intros ? _ [?|?]; done.
    + split; [|congruence]. pose proof (step_idle_effects _ _ _ _ _ Hp Hs) as [].
      intros [q Hq]. rewrite Hq in *. destruct (n_pending n'); [|done].
      by destruct ie_persist as (_ & _ & -> & ->).
Qed.

Lemma effects_wait_for_the_disk_witness :
  is_Some (f_persist (step demo_config (initial demo_config) ElectionTimeout).2) /\
  f_send_now (step demo_config (initial demo_config) ElectionTimeout).2 = [].
Proof.
  split; [vm_compute; by eexists|].
  refine (proj1 (proj1 (effects_wait_for_the_disk demo_config (initial demo_config)
    ElectionTimeout _ _ _ eq_refl) _)).
  - apply (recovered_ok demo_config empty_durable), durable_ok_empty.
  - vm_compute; by eexists.
Defined.

Lemma run_core_ok config inputs : forall n,
  core_ok config n -> Forall input_typed inputs -> core_ok config (run config n inputs).
Proof.
  induction inputs as [|i inputs IH]; intros n Hn Hall; [done|].
  inversion Hall; subst. simpl. apply IH; [|done].
  destruct (step config n i) as [n' f'] eqn:E. by eapply step_core_ok.
Qed.

(** ** Votes *)

(** A follower that is asked for its vote and has persisted it. *)
Definition vote_request : Input := RecvRequestVote (mkRequestVote 1 "b" 0 0 7).

Definition vote_reply : Outbound := mkOutbound "b" (MVoteReply (mkVoteReply 1 "a" true 7)).

(** In every run from disk, a vote that is granted on the wire is already
    the vote of the durable state, in the same term and for the addressee. *)
Lemma granted_votes_are_on_disk config d inputs i n' f' to v :
  durable_ok d -> Forall input_typed inputs ->
  step config (run config (recovered config d) inputs) i = (n', f') ->
  mkOutbound to (MVoteReply v) ∈ f_send_now f' -> vr_granted v = true ->
  vr_voter v = c_self config /\ d_term (n_durable n') = vr_term v /\
  d_voted_for (n_durable n') = Some to.
Proof.
  intros Hd Hall H Hin Hg.
  assert (core_ok config (run config (recovered config d) inputs)) as Hco.
  { apply run_core_ok; [by apply core_ok_recovered|done]. }
  pose proof (step_sends_votes _ _ _ _ _ Hco H) as Hv.
  rewrite list.Forall_forall in Hv. destruct (Hv _ Hin) as (? & Ht & Hj). simpl in Ht, Hj.
  by destruct (Hj Hg) as (? & _).
Qed.

Lemma granted_votes_are_on_disk_witness :
  let n := run demo_config (recovered demo_config empty_durable) [vote_request] in
  let r := step demo_config n (PersistCompleted 1) in
  f_send_now r.2 = [vote_reply] /\ d_voted_for (n_durable r.1) = Some "b"%string.
Proof.
  cbv zeta. split; [vm_compute; reflexivity|].
  refine (proj2 (proj2 (granted_votes_are_on_disk demo_config empty_durable [vote_request]
    (PersistCompleted 1) _ _ "b"%string (mkVoteReply 1 "a" true 7) durable_ok_empty _ eq_refl _
    eq_refl))).
  - repeat constructor; vm_compute; congruence.
  - vm_compute. apply list_elem_of_here.
Defined.

(** The index and term of the last entry a state knows. *)
Lemma last_term_of d : durable_ok d ->
  term_of d (d_snapshot_index d + log_size (d_log d)) = Some (last_term d).
Proof.
  intros Hd. unfold last_term. case_bool_decide as Hl.
  - rewrite Hl. change (log_size []) with 0. rewrite Z.add_0_r. apply term_of_boundary.
  - assert (0 < log_size (d_log d)) as Hpos
      by (unfold log_size; destruct (d_log d); [done|simpl; lia]).
    unfold term_of. destruct (Z.eqb_spec (d_snapshot_index d + log_size (d_log d))
      (d_snapshot_index d)); [lia|].
    rewrite entry_at_in_range by lia. unfold log_back_term. simpl. do 3 f_equal. lia.
Qed.

(** The log of [d] is not ahead of one that ends with [term] at [index]. *)
Definition not_ahead (d : Durable) (term index : Z) : Prop :=
  let last := d_snapshot_index d + log_size (d_log d) in
  exists t, term_of d last = Some t /\ (t < term \/ t = term /\ last <= index).

Lemma up_to_date_not_ahead d term index : durable_ok d ->
  up_to_date d term index = true -> not_ahead d term index.
Proof.
  intros Hd Hu. exists (last_term d). split; [by apply last_term_of|].
  unfold up_to_date in Hu. rewrite last_index_ok in Hu by done.
  apply orb_true_iff in Hu as [Hu|Hu]; bool_props; [by left|right; lia].
Qed.

(** A vote is granted only to a candidate of the voter's term or a newer
    one, whose log is at least as up to date as the voter's, and in the same
    term only to the candidate already voted for, if any. *)
Lemma vote_grant_conditions config n m n' f' o v :
  node_ok config n -> n_pending n = None ->
  on_request_vote config n m = (n', f') ->
  o ∈ f_send_now f' \/ (exists p, n_pending n' = Some p /\ o ∈ pw_after p) ->
  o_message o = MVoteReply v -> vr_granted v = true ->
  o_to o = rv_candidate m /\ vr_term v = rv_term m /\
  d_term (n_durable n) <= rv_term m /\
  not_ahead (n_durable n) (rv_last_term m) (rv_last_index m) /\
  (d_term (n_durable n) = rv_term m ->
     d_voted_for (n_durable n) = None \/ d_voted_for (n_durable n) = Some (rv_candidate m)).
Proof.
  intros Hok Hp H Ho Hm Hg. unfold on_request_vote in H.
  case_in H. { simplify_eq. destruct Ho as [Ho|(p & ? & _)]; [by apply elem_of_nil in Ho|congruence]. }
  case_in H. { simplify_eq. destruct Ho as [Ho|(p & ? & _)]; [|congruence].
    apply list_elem_of_singleton in Ho as ->. by simplify_eq/=. }
  bool_props.
  set (g := (bool_decide _ || bool_decide _) && up_to_date _ _ _) in H.
  assert (emits (fun _ x => forall w, o_message x = MVoteReply w ->
            o_to x = rv_candidate m /\ vr_granted w = g /\ vr_term w = rv_term m) n' f')
    as [E1 E2].
  { destruct (d_term (n_durable n) <? rv_term m) eqn:Hh; bool_props; [with_step_down H|];
      (eapply reply_emits; [exact H|congruence|congruence|simpl; congruence|]);
      simpl; intros w Hw; simplify_eq; simpl; (split; [done|]); (split; [done|]);
      case_any; simpl; lia. }
  assert (o_to o = rv_candidate m /\ vr_granted v = g /\ vr_term v = rv_term m) as (-> & Hgr & ->).
  { destruct Ho as [Ho|(p & Hq & Ho)]; [rewrite list.Forall_forall in E1; by apply (E1 o)|].
    specialize (E2 p Hq). rewrite list.Forall_forall in E2. by apply (E2 o). }
  rewrite Hg in Hgr. unfold g in Hgr. symmetry in Hgr. bool_props.
  split; [done|]. split; [done|]. split; [lia|]. split.
  - rename select (up_to_date _ _ _ = true) into Hu.
    apply up_to_date_not_ahead; [by apply Hok|]. by destruct (d_term (n_durable n) <? rv_term m).
  - intros Heq. rewrite Heq, Z.ltb_irrefl in *. rename select (_ || _ = true) into Hor.
    apply orb_true_iff in Hor as [Hor|Hor]; bool_props; auto.
Qed.

Lemma vote_grant_conditions_witness :
  let n := recovered demo_config empty_durable in
  let m := mkRequestVote 1 "b" 0 0 7 in
  let r := on_request_vote demo_config n m in
  not_ahead (n_durable n) (rv_last_term m) (rv_last_index m) /\
  option_map pw_after (n_pending r.1) = Some [vote_reply].
Proof.
  cbv zeta. split; [|vm_compute; reflexivity].
  refine (proj1 (proj2 (proj2 (proj2 (vote_grant_conditions demo_config
    (recovered demo_config empty_durable) (mkRequestVote 1 "b" 0 0 7) _ _ vote_reply
    (mkVoteReply 1 "a" true 7) _ eq_refl eq_refl _ eq_refl eq_refl))))).
  - apply recovered_ok, durable_ok_empty.
  - right. eexists. split; [vm_compute; reflexivity|]. apply list_elem_of_here.
Defined.

(** ** Application, commit and fail-stop *)

(** C19: Entries are handed to the state machine one at a time and in order:
    in every run from disk, a step that applies anything applies exactly the
    entry above the applied index, which it advances by one, never beyond the
    commit index. *)
Theorem applies_in_log_order config d inputs i n' f' :
  durable_ok d -> Forall input_typed inputs ->
  let n := run config (recovered config d) inputs in
  step config n i = (n', f') -> f_apply f' <> [] ->
  d_applied (n_durable n') = d_applied (n_durable n) + 1 /\
  d_applied (n_durable n') <= d_commit (n_durable n') /\
  exists e, f_apply f' = [e] /\
    entry_at (n_durable n') (d_applied (n_durable n')) = Some e.
Proof.
  intros Hd Hall n H Hne.
  assert (core_ok config n) as [Hok _ Hap].
  { apply run_core_ok; [by apply core_ok_recovered|done]. }
  destruct (step_summary _ _ _ _ _ Hok H)
    as [(token & p & -> & Hp & Hc)|[(token & p & -> & Hp & _ & _ & Hc)|(_ & _ & Ha & _)]];
    [|by apply fail_stop_effects in Hc as (_ & _ & _ & _ & _ & _ & _ & Ha)|done].
  destruct (persist_completed_effects _ _ _ _ _ _ Hp Hc)
    as [[_ ->]|(_ & _ & Htgt & _ & _ & _ & _ & Hf & _)]; [done|].
  destruct (Hap p Hp) as [Hnil|(e & He & Ht & Hent & Hle)]; [congruence|].
  rewrite Htgt, Ht. simpl. split; [done|]. split; [done|].
  exists e. split; [congruence|exact Hent].
Qed.

Lemma applies_in_log_order_witness :
  let r := step demo_config demo_node (PersistCompleted 4) in
  f_apply r.2 = [mkEntry 1 "move"] /\ d_applied (n_durable r.1) = 0 + 1.
Proof.
  cbv zeta. split; [vm_compute; reflexivity|].
  refine (proj1 (applies_in_log_order demo_config empty_durable demo_inputs
    (PersistCompleted 4) _ _ durable_ok_empty demo_inputs_typed (surjective_pairing _) _)).
  vm_compute. congruence.
Defined.

(** A well-formed node halts only because the write in flight failed: it
    then drops the staged state, keeps the durable one and is a follower. *)
Lemma halts_only_on_failed_write config n i n' f' :
  node_ok config n -> step config n i = (n', f') -> f_halt f' = true ->
  exists p, n_pending n = Some p /\ i = PersistFailed (pw_token p) /\
    n_halted n' = true /\ n_pending n' = None /\ n_durable n' = n_durable n /\
    v_role (n_volatile n') = Follower /\ f_send_now f' = [].
Proof.
  intros Hok H Hh. destruct (step_summary _ _ _ _ _ Hok H)
    as [(token & p & -> & Hp & Hc)|[(token & p & -> & Hp & <- & _ & Hc)|(_ & ? & _)]];
    [|exists p|congruence].
  - destruct (persist_completed_effects _ _ _ _ _ _ Hp Hc)
      as [[_ ->]|(_ & _ & _ & _ & _ & _ & Hf & _)]; simpl in *; congruence.
  - apply fail_stop_effects in Hc as (?&?&?&?&?&?&?&?). repeat split; done.
Qed.

Lemma halts_only_on_failed_write_witness :
  exists p, n_pending demo_node = Some p /\ PersistFailed 4 = PersistFailed (pw_token p) /\
    n_halted (step demo_config demo_node (PersistFailed 4)).1 = true.
Proof.
  destruct (halts_only_on_failed_write demo_config demo_node (PersistFailed 4) _ _
    demo_node_ok (surjective_pairing _)) as (p & Hp & Hi & Hh & _); [vm_compute; reflexivity|].
  exists p. repeat split; assumption.
Defined.

(** C18: A leader commits by counting only: [AdvanceCommit] stages the highest
    index above the commit index whose entry is of the current term and whose
    replica count reaches a quorum, and stages nothing when there is none. *)
Theorem advance_commit_is_highest config n n' f' :
  node_ok config n -> n_pending n = None -> v_role (n_volatile n) = Leader ->
  on_advance_commit config n = (n', f') ->
  let d := n_durable n in
  (n_pending n' = None /\ n' = n /\
     forall i, d_commit d < i <= d_snapshot_index d + log_size (d_log d) ->
       ~ committable config n i) \/
  (exists p r, n_pending n' = Some p /\ pw_target p = d_with_commit r d /\
     d_commit d < r <= d_snapshot_index d + log_size (d_log d) /\ committable config n r /\
     forall i, r < i <= d_snapshot_index d + log_size (d_log d) -> ~ committable config n i).
Proof.
  intros Hok Hp Hr H. cbv zeta. pose proof (no_durable _ _ Hok) as Hd.
  unfold on_advance_commit in H. rewrite (bool_decide_eq_true_2 _ Hr) in H.
  unfold highest_committable in H.
  destruct (highest_committable_from_spec config n
    (Z.to_nat (last_index (n_durable n) - d_commit (n_durable n)))) as (S1 & S2 & S3).
  rewrite last_index_ok in * by done. pose proof (ok_commit _ Hd).
  rewrite Z2Nat.id in * by lia.
  case_in H; bool_props.
  - right. apply begin_write_pending in H. do 2 eexists. split; [exact H|]. simpl.
    split; [reflexivity|]. split; [lia|]. split; [by apply S2|].
    intros i Hi. apply S3. lia.
  - left. simplify_eq. split; [done|]. split; [done|]. intros i Hi. apply S3. lia.
Qed.

(** The leader before its commit: the entry of term 1 is on [a] and [b]. *)
Definition demo_leader : Node :=
  run demo_config (recovered demo_config empty_durable) (take 8 demo_inputs).

Lemma advance_commit_is_highest_witness :
  v_role (n_volatile demo_leader) = Leader /\
  (n_pending (on_advance_commit demo_config demo_leader).1 = None \/
   committable demo_config demo_leader 1).
Proof.
  split; [vm_compute; reflexivity|].
  destruct (advance_commit_is_highest demo_config demo_leader
    (on_advance_commit demo_config demo_leader).1 (on_advance_commit demo_config demo_leader).2)
    as [(H & _)|(p & r & Hp & Ht & Hr & Hc & _)].
  - apply run_node_ok; [apply recovered_ok, durable_ok_empty|].
    apply Forall_take, demo_inputs_typed.
  - vm_compute; reflexivity.
  - vm_compute; reflexivity.
  - vm_compute; reflexivity.
  - left; exact H.
  - right. assert (r = 1) as ->; [|exact Hc].
    vm_compute in Hr. destruct Hr as [Hr1 Hr2]. 
    destruct r as [|[]|]; try discriminate Hr1; try reflexivity; destruct (Hr2 eq_refl).
Defined.

(** C17: A leader never rewrites its own log: whatever a leader stages while it
    stays leader keeps the term and every entry above the staged boundary. *)
Theorem leader_append_only config n i n' f' p :
  node_ok config n -> n_pending n = None -> v_role (n_volatile n) = Leader ->
  step config n i = (n', f') -> v_role (n_volatile n') = Leader -> n_pending n' = Some p ->
  d_term (pw_target p) = d_term (n_durable n) /\
  forall k e, entry_at (n_durable n) k = Some e -> d_snapshot_index (pw_target p) < k ->
    entry_at (pw_target p) k = Some e.
Proof.
  intros Hok Hidle Hr H Hr' Hp. destruct (step_summary _ _ _ _ _ Hok H)
    as [(token & q & _ & Hq & _)|[(token & q & _ & Hq & _)|(_ & _ & _ & Hcase)]]; [congruence..|].
  destruct Hcase as [(context & -> & Hb)|[(_ & _ & [Hpe|[_ Hpe]])|(_ & _ & _ & Hs)]];
    [apply begin_read_effects in Hb as (_ & Hpe & _); congruence|congruence..|].
  by eapply leader_step_idle.
Qed.

Lemma leader_append_only_witness :
  let n := run demo_config (recovered demo_config empty_durable) (take 5 demo_inputs) in
  let r := step demo_config n (ClientPropose "turn") in
  d_log (n_durable n) = [mkEntry 1 "move"] /\
  exists p, n_pending r.1 = Some p /\ entry_at (pw_target p) 1 = Some (mkEntry 1 "move").
Proof.
  cbv zeta. split; [vm_compute; reflexivity|].
  eexists. split; [vm_compute; reflexivity|].
  refine (proj2 (leader_append_only demo_config
    (run demo_config (recovered demo_config empty_durable) (take 5 demo_inputs))
    (ClientPropose "turn") _ _ _ _ _ _ (surjective_pairing _) _ _) 1 (mkEntry 1 "move") _ _).
  - apply run_node_ok; [apply recovered_ok, durable_ok_empty|].
    apply Forall_take, demo_inputs_typed.
  - vm_compute; reflexivity.
  - vm_compute; reflexivity.
  - vm_compute; reflexivity.
  - vm_compute; reflexivity.
  - vm_compute; reflexivity.
  - vm_compute; reflexivity.
Defined.
