(* ===== verification/TransitionVotes.v ===== *)
(** * How a step changes the role and the votes of a node

    The last section says what a step, the write it stages and the report of
    its outcome leave behind, for the drivers ([raft/durable_node] and
    [raft/runtime_host]) that run them. *)

From S2P Require Import Prelude EntryLog Transition TransitionInv TransitionSteps TransitionProps TransitionThms.

(** The write in flight, if any, does not start an election. *)
Definition no_self_vote_pending (n : Node) : Prop :=
  forall p, n_pending n = Some p -> pw_self_vote p = false.

(** The four ways an idle step can change role and votes. *)
Inductive vote_change (config : Config) (n : Node) (i : Input) (n' : Node) : Prop :=
| vc_follower :
    v_role (n_volatile n') = Follower -> no_self_vote_pending n' -> vote_change config n i n'
| vc_election :
    v_role (n_volatile n') = Candidate -> v_votes (n_volatile n') = ∅ ->
    vote_change config n i n'
| vc_same :
    v_role (n_volatile n') = v_role (n_volatile n) ->
    v_votes (n_volatile n') = v_votes (n_volatile n) ->
    no_self_vote_pending n' -> vote_change config n i n'
| vc_counted m :
    i = RecvVoteReply m -> vr_granted m = true -> vr_term m = d_term (n_durable n) ->
    v_role (n_volatile n) = Candidate -> n_pending n' = None ->
    v_votes (n_volatile n') = {[vr_voter m]} ∪ v_votes (n_volatile n) ->
    v_role (n_volatile n') = Candidate \/
      (v_role (n_volatile n') = Leader /\
       (quorum config <= size (v_votes (n_volatile n')))%nat) ->
    vote_change config n i n'.

Lemma no_self_vote_none n : n_pending n = None -> no_self_vote_pending n.
Proof. intros H p. by rewrite H. Qed.

Lemma begin_write_no_self_vote n f target after aa sn kind n' f' :
  begin_write n f target after aa false sn kind = (n', f') -> no_self_vote_pending n'.
Proof. intros H%begin_write_pending p Hp. rewrite H in Hp. by simplify_eq. Qed.

Lemma begin_write_follower_change config n i n0 n1 f1 f target after aa sn kind n' f' :
  step_down n0 no_effects = (n1, f1) ->
  begin_write n1 f target after aa false sn kind = (n', f') -> vote_change config n i n'.
Proof.
  intros E H. apply vc_follower; [by eapply step_down_begin_write|].
  by eapply begin_write_no_self_vote.
Qed.

Lemma step_down_change config n i n1 f1 :
  n_pending n = None -> step_down n no_effects = (n1, f1) -> vote_change config n i n1.
Proof.
  intros Hp (_ & Hp1 & Hr & _)%step_down_facts. apply vc_follower; [done|].
  apply no_self_vote_none. congruence.
Qed.

Lemma begin_write_same_change config n i n1 f target after aa sn kind n' f' :
  frame n n1 -> begin_write n1 f target after aa false sn kind = (n', f') ->
  vote_change config n i n'.
Proof.
  intros [] H. pose proof (begin_write_volatile _ _ _ _ _ _ _ _ _ _ H) as Hv.
  apply vc_same; [by rewrite Hv|by rewrite Hv|by eapply begin_write_no_self_vote].
Qed.

Lemma frame_change config n i n' :
  frame n n' -> n_pending n = None -> vote_change config n i n'.
Proof. intros [] Hp. apply vc_same; [done..|]. apply no_self_vote_none. congruence. Qed.

Lemma observe_higher_term_change config n i t n' f' :
  observe_higher_term n t = (n', f') -> vote_change config n i n'.
Proof.
  unfold observe_higher_term. intros H. destruct (step_down n no_effects) eqn:E.
  by eapply begin_write_follower_change.
Qed.

Ltac change_leaf :=
  simplify_eq;
  first
  [ apply frame_change; [reflexivity|done]
  | eapply begin_write_follower_change; eassumption
  | eapply begin_write_same_change; [reflexivity|eassumption]
  | eapply step_down_change; eassumption
  | apply frame_change; [apply set_progress_frame; by eexists|done]
  | idtac ].

Lemma step_idle_change config n i n' f' :
  n_pending n = None -> step_idle config n i = (n', f') -> vote_change config n i n'.
Proof.
  intros Hp H. destruct i; simpl in H; try (by change_leaf).
  - unfold on_election_timeout in H. case_in H; [|change_leaf].
    destruct (step_down n no_effects) as [n1 f1] eqn:E.
    apply step_down_facts in E as (_ & _ & _ & Hv & _).
    destruct (vote_requests _ _ _ _). apply begin_write_volatile in H.
    apply vc_election; rewrite H; done.
  - unfold on_heartbeat in H. case_in H; [|change_leaf].
    destruct (foldl _ _ _) as [[n1 o1] s1] eqn:E. simplify_eq.
    apply heartbeat_peers_frame in E. by apply frame_change.
  - unfold on_client_propose in H. case_in H; [change_leaf|]. case_in H; [|change_leaf].
    destruct (send_append_all _ _ _ _ _) as [[n1 o1] s1] eqn:E.
    apply send_append_all_frame in E. by eapply begin_write_same_change.
  - unfold on_request_vote in H. do 2 (case_in H; [change_leaf|]).
    destruct (d_term (n_durable n) <? rv_term message).
    + destruct (step_down n no_effects) eqn:E. case_in H; change_leaf.
    + case_in H; change_leaf.
  - unfold on_vote_reply in H. case_in H; [change_leaf|].
    case_in H; [by eapply observe_higher_term_change|].
    case_in H; [|change_leaf]. bool_props. case_in H.
    + pose proof (become_leader_frame _ _ _ _ _ H) as []. simpl in *.
      apply (vc_counted _ _ _ _ message); try done; [congruence|].
      right. split; [done|]. rewrite fr_votes. by apply Nat.leb_le.
    + simplify_eq. apply (vc_counted _ _ _ _ message); try done. by left.
  - unfold on_append in H. do 4 (case_in H; [change_leaf|]).
    destruct (step_down n no_effects) eqn:E.
    case_in H; [case_in H; change_leaf|].
    match type of H with (let '_ := ?e in _) = _ => destruct e as [[t b] h] end.
    case_in H; change_leaf.
  - unfold on_append_reply in H. case_in H; [change_leaf|]. case_in H.
    { destruct (observe_higher_term _ _) as [n1 f1] eqn:E.
      unfold observe_higher_term in E. destruct (step_down n no_effects) eqn:E0.
      pose proof (begin_write_no_self_vote _ _ _ _ _ _ _ _ _ E) as Hns.
      eapply step_down_begin_write in E; [|exact E0]. apply complete_read_frame in H as [].
      apply vc_follower; [congruence|]. intros p. rewrite fr_pending. apply Hns. }
    repeat case_in H; try (by change_leaf); apply complete_read_frame in H;
      (apply frame_change; [|done]); (etrans; [|exact H]); try reflexivity;
      try (apply set_progress_frame; by eexists).
    all: etrans; [apply read_frame|apply set_progress_frame; by eexists].
  - unfold on_advance_commit in H. repeat case_in H; change_leaf.
  - unfold on_apply_committed in H. case_in H; change_leaf.
  - unfold on_compact_committed in H. repeat case_in H; change_leaf.
  - unfold on_snapshot in H. do 3 (case_in H; [change_leaf|]).
    destruct (step_down n no_effects) eqn:E. case_in H; case_in H; change_leaf.
  - unfold on_snapshot_reply in H. case_in H; [change_leaf|].
    case_in H; [by eapply observe_higher_term_change|]. repeat case_in H; change_leaf.
Qed.

(** Completing a write: the node's own vote is counted when the write started
    an election. *)
Lemma persist_completed_change config n p token n' f' :
  n_pending n = Some p -> on_persist_completed config n token = (n', f') ->
  (n' = n) \/
  (v_votes (n_volatile n') =
     (if pw_self_vote p then {[c_self config]} ∪ v_votes (n_volatile n)
      else v_votes (n_volatile n)) /\
   (v_role (n_volatile n') = v_role (n_volatile n) \/
    (v_role (n_volatile n') = Leader /\ pw_self_vote p = true /\
     (quorum config <= size (v_votes (n_volatile n')))%nat))).
Proof.
  unfold on_persist_completed. intros Hp H. rewrite Hp in H.
  case_in H; [|left; by simplify_eq]. right.
  destruct (complete_read _ _ _) as [n1 f1] eqn:E in H.
  apply complete_read_frame in E as []. simpl in *.
  case_in H; [|simplify_eq; split; [done|by left]].
  case_in H; [|simplify_eq; simpl; split; [congruence|by left]].
  pose proof (become_leader_frame _ _ _ _ _ H) as [_ _ B3 B4 _ _ _]. simpl in *.
  split; [congruence|]. right. split; [done|]. split; [done|].
  rewrite B4. by apply Nat.leb_le.
Qed.

(** A vote granted on the wire by [n']: it is the durable vote, and nothing is
    in flight. *)
Definition vote_settled (config : Config) (n' : Node) (o : Outbound) : Prop :=
  match o_message o with
  | MVoteReply v =>
      vr_granted v = true ->
      vr_voter v = c_self config /\ vr_term v = d_term (n_durable n') /\
      d_voted_for (n_durable n') = Some (o_to o) /\ n_pending n' = None /\ n_halted n' = false
  | _ => True
  end.

Lemma vote_justified_settled config n' o :
  n_pending n' = None -> n_halted n' = false ->
  vote_justified config (n_durable n') o -> vote_settled config n' o.
Proof.
  unfold vote_justified, vote_settled. destruct (o_message o); try done.
  intros Hp Hh (Hv & Ht & Hj) Hg. by destruct (Hj Hg) as (? & _).
Qed.

Lemma step_sends_settled config n i n' f' :
  core_ok config n -> step config n i = (n', f') ->
  Forall (vote_settled config n') (f_send_now f').
Proof.
  intros Hco H. pose proof (step_sends_votes _ _ _ _ _ Hco H) as Hv.
  destruct (step_summary _ _ _ _ _ (co_node _ _ Hco) H)
    as [(token & p & -> & Hp & Hc)|[(token & p & -> & Hp & _ & _ & Hc)|(Hd & Hh & Ha & Hcase)]].
  - destruct (persist_completed_effects _ _ _ _ _ _ Hp Hc)
      as [[-> ->]|(_ & _ & _ & Hn & Hh & _)]; [done|].
    eapply list.Forall_impl; [exact Hv|]. intros o. by apply vote_justified_settled.
  - apply fail_stop_effects in Hc as (_ & _ & _ & _ & _ & _ & -> & _). done.
  - destruct Hcase as [(context & -> & Hr)|[(_ & -> & _)|(Hp & Hhalt & _ & Hs)]]; [|done|].
    + apply begin_read_effects in Hr as (_ & _ & _ & _ & _ & _ & _ & Hs). by apply Hs.
    + pose proof (step_idle_effects _ _ _ _ _ Hp Hs) as [].
      destruct (f_persist f'), (n_pending n') eqn:Hn; try done.
      * by destruct ie_persist as (_ & _ & -> & _).
      * eapply list.Forall_impl; [exact Hv|]. intros o.
        apply vote_justified_settled; congruence.
Qed.

Lemma begin_read_frame config n context n' f' :
  on_begin_read config n context = (n', f') -> frame n n'.
Proof.
  unfold on_begin_read. intros H. repeat (case_in H; [by simplify_eq|]).
  destruct (send_append_all _ _ _ _ _) as [[n1 out] sn] eqn:E.
  apply send_append_all_frame in E. apply complete_read_frame in H.
  etrans; [|exact H]. etrans; [|exact E]. apply read_frame.
Qed.

(** An input other than a completion or a restart is handled in the idle
    state, or changes at most replication progress and reads. *)
Definition ordinary (i : Input) : bool :=
  match i with PersistCompleted _ | PersistFailed _ | Restart => false | _ => true end.

Lemma step_ordinary config n i n' f' :
  node_ok config n -> ordinary i = true -> step config n i = (n', f') ->
  frame n n' \/
  (n_pending n = None /\ n_halted n = false /\ step_idle config n i = (n', f')).
Proof.
  intros Hok Ho H. unfold step in H. rewrite (node_ok_not_invalid _ _ Hok) in H.
  destruct i; try done.
  all: try (case_in H; [left; by simplify_eq|right]; bool_props;
            split; [by destruct (n_pending n)|by split]).
  - left. by eapply begin_read_frame.
  - left. unfold on_cancel_read in H. repeat case_in H; simplify_eq; try done; apply read_frame.
Qed.

(** ** One step of the core as its drivers see it *)

Lemma step_stages config n i n' f' q :
  node_ok config n -> n_pending n = None -> step config n i = (n', f') -> f_persist f' = Some q ->
  exists p, n_pending n' = Some p /\ pw_token p = pq_token q /\ pw_target p = pq_target q /\
    f_send_now f' = [] /\ f_apply f' = [] /\ n_halted n' = false /\ n_durable n' = n_durable n.
Proof.
  intros Hok Hp H Hq. destruct (step_summary _ _ _ _ _ Hok H)
    as [(token & p & -> & Hp' & _)|[(token & p & -> & Hp' & _)|(Hd & _ & _ & Hcase)]];
    [congruence|congruence|].
  destruct Hcase as [(context & -> & Hr)|[(Hf & _)|(_ & Hh & _ & Hs)]].
  - apply begin_read_effects in Hr as (_ & _ & _ & Hf & _). congruence.
  - congruence.
  - pose proof (step_idle_effects _ _ _ _ _ Hp Hs) as [E1 E2 _ E4 E5]. rewrite Hq in E5.
    destruct (n_pending n') as [p|] eqn:Hp'; [|done]. destruct E5 as (? & ? & ? & ?).
    exists p. repeat split; congruence || done.
Qed.

Lemma step_rests config n i n' f' :
  node_ok config n -> n_pending n = None -> i <> Restart -> step config n i = (n', f') ->
  f_persist f' = None -> n_pending n' = None /\ n_durable n' = n_durable n /\ n_halted n' = n_halted n.
Proof.
  intros Hok Hp Hi H Hq. unfold step in H. rewrite (node_ok_not_invalid _ _ Hok) in H.
  assert (forall j, (if n_halted n || is_some (n_pending n) then (n, no_effects)
    else step_idle config n j) = (n', f') ->
    n_pending n' = None /\ n_durable n' = n_durable n /\ n_halted n' = n_halted n) as Hidle.
  { intros j Hj. case_in Hj; [by simplify_eq|].
    pose proof (step_idle_effects _ _ _ _ _ Hp Hj) as [E1 E2 _ _ E5]. rewrite Hq in E5.
    by destruct (n_pending n'). }
  destruct i; try exact (Hidle _ H); clear Hidle; try done.
  - apply begin_read_effects in H as (E1 & E2 & E3 & _). by rewrite E1, E2, E3.
  - unfold on_cancel_read in H. repeat case_in H; by simplify_eq.
  - unfold on_persist_completed in H. rewrite Hp in H. by simplify_eq.
  - unfold on_persist_failed in H. rewrite Hp in H. by simplify_eq.
Qed.

Lemma stage_fails config n p n' f' :
  node_ok config n -> n_pending n = Some p -> n_halted n = false ->
  step config n (PersistFailed (pw_token p)) = (n', f') -> fail_stop n = (n', f').
Proof.
  intros Hok Hp Hh H. unfold step in H. rewrite (node_ok_not_invalid _ _ Hok) in H.
  unfold on_persist_failed in H. by rewrite Hp, Z.eqb_refl, Hh in H.
Qed.

Lemma stage_completes config n p n' f' :
  node_ok config n -> n_pending n = Some p -> n_halted n = false ->
  step config n (PersistCompleted (pw_token p)) = (n', f') ->
  n_durable n' = pw_target p /\ n_pending n' = None /\ n_halted n' = false.
Proof.
  intros Hok Hp Hh H. unfold step in H. rewrite (node_ok_not_invalid _ _ Hok) in H.
  destruct (persist_completed_effects _ _ _ _ _ _ Hp H) as [[-> _]|(_ & _ & ? & ? & ? & _)]; [|done].
  exfalso. unfold on_persist_completed in H. rewrite Hp, Z.eqb_refl, Hh in H. cbn [negb andb] in H.
  destruct (complete_read _ _ _) as [n1 f1] eqn:E in H.
  apply complete_read_frame in E as [_ E _ _ _ _ _]. cbn in E.
  assert (n_pending n = n_pending n1) as Hx; [|congruence].
  case_in H; [|by simplify_eq]. case_in H; [|by simplify_eq].
  apply become_leader_frame in H as [_ -> _ _ _ _ _]. done.
Qed.

(** A halted node sends nothing. *)
Lemma halted_sends_nothing config n i n' f' :
  node_ok config n -> n_pending n = None -> n_halted n = true -> step config n i = (n', f') ->
  f_send_now f' = [].
Proof.
  intros Hok Hp Hh H. destruct (step_summary _ _ _ _ _ Hok H)
    as [(token & p & -> & Hp' & _)|[(token & p & -> & Hp' & _)|(_ & _ & _ & Hcase)]];
    [congruence|congruence|].
  destruct Hcase as [(context & -> & Hr)|[(_ & Hs & _)|(_ & Hx & _)]]; [|done|congruence].
  unfold on_begin_read in Hr. rewrite Hh in Hr. cbv zeta iota in Hr. rewrite orb_true_l in Hr. by injection Hr as _ <-.
Qed.
