(* ===== verification/Cluster.v ===== *)
(** * A cluster of nodes: election safety

    Several nodes of the transition core, each with its disk, over a network
    that delivers the messages the nodes sent, in any order, any number of
    times or never. A node is the [RuntimeHost]/[DurableNode] loop of the
    source taken apart: [step] stages a write, the disk performs it (or the
    process dies before or after), the completion is reported, and a process
    that died is rebuilt from what its disk holds. *)

From stdpp Require Import functions.
From S2P Require Import Prelude EntryLog Transition TransitionInv TransitionSteps TransitionProps TransitionThms TransitionVotes.

(** What travels: a message of [Effects::send_now], or the snapshot that the
    host sends for a [SnapshotNeeded] in its current term. *)
Inductive Packet :=
| PMessage (src : string) (o : Outbound)
| PSnapshot (src : string) (term : Z) (needed : SnapshotNeeded).

Record Cluster := mkCluster {
  cl_node : string -> Node;
  cl_disk : string -> Durable;
  cl_net : list Packet;
}.

(** The input a delivered message becomes. *)
Definition receive (m : WireMessage) : Input :=
  match m with
  | MRequestVote m => RecvRequestVote m
  | MVoteReply m => RecvVoteReply m
  | MAppendEntries m => RecvAppend m
  | MAppendReply m => RecvAppendReply m
  | MSnapshotReply m => RecvSnapshotReply m
  end.

(** Inputs of the node's own clock and clients. *)
Definition local_input (i : Input) : bool :=
  match i with
  | ElectionTimeout | HeartbeatTimeout | ClientPropose _ | AdvanceCommit | ApplyCommitted
  | CompactCommitted | BeginRead _ | CancelRead _ => true
  | _ => false
  end.

Inductive Event :=
| EvLocal (i : string) (input : Input)
| EvDeliver (k : nat)
| EvSnapshot (k : nat) (request_id : Z) (ready : bool)
| EvWrite (i : string)
| EvComplete (i : string)
| EvFail (i : string)
| EvRecover (i : string) (applied : Z).

#[export] Instance input_typed_dec i : Decision (input_typed i).
Proof. destruct i; simpl; unfold u64; apply _. Defined.

Section Cluster.
Context (members : list string).

Definition config_of (i : string) : Config := mkConfig i (filter (fun p => p <> i) members).

(** Node [i] handles an input; what it sends goes to the network. *)
Definition handle (c : Cluster) (i : string) (input : Input) : Cluster :=
  let '(n, f) := step (config_of i) (cl_node c i) input in
  mkCluster (<[i := n]> (cl_node c)) (cl_disk c)
    (cl_net c ++ (PMessage i <$> f_send_now f)
       ++ (PSnapshot i (d_term (n_durable n)) <$> f_snapshot_needed f)).

Definition fire (c : Cluster) (e : Event) : option Cluster :=
  match e with
  | EvLocal i input =>
      if bool_decide (i ∈ members) && local_input input then Some (handle c i input) else None
  | EvDeliver k =>
      match cl_net c !! k with
      | Some (PMessage _ o) =>
          if bool_decide (o_to o ∈ members) && bool_decide (input_typed (receive (o_message o)))
          then Some (handle c (o_to o) (receive (o_message o))) else None
      | _ => None
      end
  | EvSnapshot k id ready =>
      match cl_net c !! k with
      | Some (PSnapshot src term needed) =>
          let m := RecvSnapshot (mkSnapshotRequest term src (sn_index needed) (sn_term needed)
                                   id ready) in
          if bool_decide (sn_peer needed ∈ members) && bool_decide (input_typed m)
          then Some (handle c (sn_peer needed) m) else None
      | _ => None
      end
  | EvWrite i =>
      match n_pending (cl_node c i) with
      | Some p =>
          if bool_decide (i ∈ members)
          then Some (mkCluster (cl_node c) (<[i := pw_target p]> (cl_disk c)) (cl_net c))
          else None
      | None => None
      end
  | EvComplete i =>
      match n_pending (cl_node c i) with
      | Some p =>
          if bool_decide (i ∈ members) && bool_decide (cl_disk c i = pw_target p)
          then Some (handle c i (PersistCompleted (pw_token p))) else None
      | None => None
      end
  | EvFail i =>
      match n_pending (cl_node c i) with
      | Some p =>
          if bool_decide (i ∈ members) then Some (handle c i (PersistFailed (pw_token p)))
          else None
      | None => None
      end
  | EvRecover i applied =>
      if bool_decide (i ∈ members) &&
         (d_applied (cl_disk c i) <=? applied) && (applied <=? d_commit (cl_disk c i))
      then let d := d_with_applied applied (cl_disk c i) in
           Some (mkCluster (<[i := recovered (config_of i) d]> (cl_node c))
                   (<[i := d]> (cl_disk c)) (cl_net c))
      else None
  end.

(** A schedule: every event must be possible where it occurs. *)
Fixpoint execute (c : Cluster) (es : list Event) : option Cluster :=
  match es with
  | [] => Some c
  | e :: es => c' ← fire c e; execute c' es
  end.

(** Every node starts from what its disk holds. *)
Definition boot (disks : string -> Durable) : Cluster :=
  mkCluster (fun i => recovered (config_of i) (disks i)) disks [].

(** ** The invariant

    [cast] is the history of votes that reached a disk: [cast !! (t, i)] is
    the candidate node [i] voted for in term [t]. *)


Definition disk_rel (n : Node) (d : Durable) : Prop :=
  if n_halted n then n_pending n = None /\ durable_le (n_durable n) d
  else d = n_durable n \/ exists p, n_pending n = Some p /\ d = pw_target p.

Definition packet_ok (cast : gmap (Z * string) string) (p : Packet) : Prop :=
  match p with
  | PMessage src (mkOutbound dst (MVoteReply v)) =>
      vr_granted v = true -> vr_voter v = src /\ cast !! (vr_term v, src) = Some dst
  | _ => True
  end.

(** The votes a candidate or leader has counted were cast for it, in its
    term; none is counted before its own vote is on disk; a leader has a
    quorum of them. *)
Record votes_ok (cast : gmap (Z * string) string) (i : string) (n : Node) : Prop := {
  vo_cast : v_role (n_volatile n) <> Follower ->
    forall v, v ∈ v_votes (n_volatile n) -> cast !! (d_term (n_durable n), v) = Some i;
  vo_fresh : forall p, n_pending n = Some p -> pw_self_vote p = true ->
    v_votes (n_volatile n) = ∅;
  vo_leader : v_role (n_volatile n) = Leader ->
    (quorum (config_of i) <= size (v_votes (n_volatile n)))%nat;
}.

Record disk_ok (cast : gmap (Z * string) string) (i : string) (d : Durable) : Prop := {
  di_ok : durable_ok d;
  di_vote : forall v, d_voted_for d = Some v -> cast !! (d_term d, i) = Some v;
  di_past : forall t v, cast !! (t, i) = Some v ->
    t <= d_term d /\ (t = d_term d -> d_voted_for d = Some v);
}.

Record cluster_inv (cast : gmap (Z * string) string) (c : Cluster) : Prop := {
  ci_core : forall i, i ∈ members -> core_ok (config_of i) (cl_node c i);
  ci_rel : forall i, i ∈ members -> disk_rel (cl_node c i) (cl_disk c i);
  ci_disk : forall i, i ∈ members -> disk_ok cast i (cl_disk c i);
  ci_votes : forall i, i ∈ members -> votes_ok cast i (cl_node c i);
  ci_net : Forall (packet_ok cast) (cl_net c);
}.

Lemma packet_ok_mono cast cast' p : cast ⊆ cast' -> packet_ok cast p -> packet_ok cast' p.
Proof.
  intros Hs. destruct p as [src [dst []]|]; simpl; try done.
  intros H Hg. destruct (H Hg) as [? ?]. split; [done|]. by eapply lookup_weaken.
Qed.

Lemma votes_ok_mono cast cast' i n : cast ⊆ cast' -> votes_ok cast i n -> votes_ok cast' i n.
Proof.
  intros Hs []. split; [|done..]. intros Hr v Hv. eapply lookup_weaken; [|done]. by apply vo_cast0.
Qed.

(** ** One node *)

Lemma step_ordinary_votes cast i n input n' f' :
  core_ok (config_of i) n -> ordinary input = true -> votes_ok cast i n ->
  (forall m, input = RecvVoteReply m -> vr_granted m = true ->
     cast !! (vr_term m, vr_voter m) = Some i) ->
  step (config_of i) n input = (n', f') -> votes_ok cast i n'.
Proof.
  intros Hco Ho [V1 V2 V3] Hm H.
  destruct (step_ordinary _ _ _ _ _ (co_node _ _ Hco) Ho H) as [[]|(Hp & _ & Hs)].
  { split; rewrite ?fr_role, ?fr_votes, ?fr_durable, ?fr_pending; done. }
  pose proof (step_idle_effects _ _ _ _ _ Hp Hs) as [Hd _ _ _ _].
  destruct (step_idle_change _ _ _ _ _ Hp Hs)
    as [Hr Hns|Hr Hv|Hr Hv Hns|m -> Hg Ht Hr Hpe Hv Hq].
  - split; [done| |congruence]. intros p Hp' Hsv. by rewrite (Hns p Hp') in Hsv.
  - split; rewrite ?Hv; [set_solver|done|congruence].
  - split; rewrite ?Hr, ?Hv, ?Hd; [done| |done].
    intros p Hp' Hsv. by rewrite (Hns p Hp') in Hsv.
  - split; rewrite ?Hd, ?Hpe; [|done|by destruct Hq as [Hq|[_ Hq]]; [congruence|]].
    intros _ v. rewrite Hv. intros [->%elem_of_singleton|Hin]%elem_of_union.
    + rewrite <- Ht. by apply Hm.
    + apply V1; [congruence|done].
Qed.

Lemma step_ordinary_rel i n input n' f' d :
  core_ok (config_of i) n -> ordinary input = true -> disk_rel n d ->
  step (config_of i) n input = (n', f') -> disk_rel n' d.
Proof.
  intros Hco Ho Hd H. unfold disk_rel in *.
  destruct (step_ordinary _ _ _ _ _ (co_node _ _ Hco) Ho H) as [[]|(Hp & Hh & Hs)].
  { by rewrite fr_halted, fr_durable, fr_pending. }
  pose proof (step_idle_effects _ _ _ _ _ Hp Hs) as [Hdur Hhal _ _ _].
  rewrite Hhal, Hh, Hdur in *. left. destruct Hd as [?|(p & ? & _)]; [done|congruence].
Qed.

(** The vote of a candidate whose write completes is its own. *)
Lemma complete_votes cast i n p n' f' :
  core_ok (config_of i) n -> n_pending n = Some p -> votes_ok cast i n ->
  disk_ok cast i (pw_target p) ->
  step (config_of i) n (PersistCompleted (pw_token p)) = (n', f') -> votes_ok cast i n'.
Proof.
  intros [Hok _ _] Hp [V1 V2 V3] [_ Dv _] H. unfold step in H.
  rewrite (node_ok_not_invalid _ _ Hok) in H.
  destruct (persist_completed_effects _ _ _ _ _ _ Hp H)
    as [[-> _]|(_ & _ & Hdur & Hnone & _)]; [done|].
  destruct (persist_completed_change _ _ _ _ _ _ Hp H) as [->|[Hv Hr]]; [done|].
  assert (Hrole : v_role (n_volatile n') <> Follower -> v_role (n_volatile n) <> Follower).
  { destruct Hr as [->|(_ & Hsv & _)]; [done|].
    by rewrite (no_self_vote _ _ Hok p Hp Hsv). }
  split; rewrite ?Hnone; [|done|].
  - intros Hr' v Hin. rewrite Hdur. specialize (Hrole Hr').
    destruct (pw_self_vote p) eqn:Hsv.
    + rewrite Hv, (V2 p Hp Hsv) in Hin.
      assert (v = i) as -> by set_solver. apply Dv.
      pose proof (no_role _ _ Hok Hrole) as [_ Hvote].
      unfold staged in Hvote. by rewrite Hp in Hvote.
    + rewrite Hv in Hin. destruct (no_elected _ _ Hok Hrole) as [Ht _].
      { intros q Hq. by simplify_eq. }
      unfold staged in Ht. rewrite Hp in Ht. rewrite <- Ht. by apply V1.
  - intros HL. destruct Hr as [Hr|(_ & _ & Hq)]; [|done].
    destruct (pw_self_vote p) eqn:Hsv.
    + pose proof (no_self_vote _ _ Hok p Hp Hsv). congruence.
    + rewrite Hv. apply V3. congruence.
Qed.

(** ** Assembling the cluster invariant *)

Lemma handle_inv cast c i input n' f' :
  cluster_inv cast c -> i ∈ members -> input_typed input ->
  step (config_of i) (cl_node c i) input = (n', f') ->
  disk_rel n' (cl_disk c i) -> votes_ok cast i n' ->
  cluster_inv cast (handle c i input).
Proof.
  intros [Hco Hrel Hdi Hvo Hnet] Hi Hty Hs Hr Hv. unfold handle. rewrite Hs.
  assert (Hupd : forall (P : string -> Node -> Prop),
    (forall j, j ∈ members -> P j (cl_node c j)) -> P i n' ->
    forall j, j ∈ members -> P j (<[i := n']> (cl_node c) j)).
  { intros P Hall Hn j Hj. destruct (decide (i = j)) as [<-|Hne].
    - by rewrite fn_lookup_insert.
    - rewrite fn_lookup_insert_ne by done. by apply Hall. }
  split; simpl.
  - apply (Hupd (fun j n => core_ok (config_of j) n)); [done|].
    by eapply step_core_ok; [apply Hco| |].
  - by apply (Hupd (fun j n => disk_rel n (cl_disk c j))).
  - done.
  - by apply (Hupd (votes_ok cast)).
  - rewrite !Forall_app. split; [done|]. split.
    + rewrite Forall_fmap. eapply list.Forall_impl;
        [by eapply step_sends_settled; [apply Hco|]|].
      intros [dst m] Ho. unfold vote_settled in Ho. simpl in *. destruct m as [|v| | |]; try done.
      intros Hg. destruct (Ho Hg) as (-> & -> & Hvf & Hp & Hh). split; [done|].
      unfold disk_rel in Hr. rewrite Hh, Hp in Hr. destruct Hr as [Hr|(?&?&_)]; [|done].
      destruct (Hdi i Hi) as [_ Dv _]. rewrite <- Hr in *. by apply Dv.
    + rewrite Forall_fmap. by apply list.Forall_true.
Qed.

Lemma ordinary_inv cast c i input :
  cluster_inv cast c -> i ∈ members -> input_typed input -> ordinary input = true ->
  (forall m, input = RecvVoteReply m -> vr_granted m = true ->
     cast !! (vr_term m, vr_voter m) = Some i) ->
  cluster_inv cast (handle c i input).
Proof.
  intros Hinv Hi Hty Ho Hm. destruct (step (config_of i) (cl_node c i) input) as [n' f'] eqn:E.
  pose proof Hinv as [Hco Hrel _ Hvo _]. eapply handle_inv; eauto.
  - eapply step_ordinary_rel; eauto.
  - eapply step_ordinary_votes; eauto.
Qed.

(** A write reaches the disk: its vote, if it has one, becomes history. *)
Lemma disk_advances cast i d t :
  disk_ok cast i d -> durable_ok t -> durable_le d t ->
  exists cast', cast ⊆ cast' /\ disk_ok cast' i t /\
    forall j d', j <> i -> disk_ok cast j d' -> disk_ok cast' j d'.
Proof.
  intros [Hok Dv Dp] Ht [Lt Lv _ _ _ _ _].
  assert (Hpast : forall u v, cast !! (u, i) = Some v ->
    u <= d_term t /\ (u = d_term t -> d_voted_for t = Some v)).
  { intros u v Hc. destruct (Dp _ _ Hc) as [Hle Heq]. split; [lia|]. intros ->.
    assert (d_term d = d_term t) as Hdt by lia.
    rewrite <- (Heq (eq_sym Hdt)). apply Lv; [done|]. by rewrite (Heq (eq_sym Hdt)). }
  destruct (d_voted_for t) as [v|] eqn:Hvt.
  - assert (Hsub : cast ⊆ <[(d_term t, i) := v]> cast).
    { apply map_subseteq_spec. intros k w Hw.
      destruct (decide (k = (d_term t, i))) as [->|?]; [|by rewrite lookup_insert_ne].
      destruct (Hpast _ _ Hw) as [_ Heq]. rewrite lookup_insert_eq. by apply Heq. }
    exists (<[(d_term t, i) := v]> cast). split; [done|]. split.
    + split; [done|..].
      * intros w Hw. rewrite Hvt in Hw. simplify_eq. by rewrite lookup_insert_eq.
      * intros u w Hw. destruct (decide (u = d_term t)) as [->|Hne].
        -- rewrite lookup_insert_eq in Hw. simplify_eq. split; [lia|]. done.
        -- rewrite lookup_insert_ne in Hw by congruence. split; [|done].
           by destruct (Hpast _ _ Hw).
    + intros j d' Hj [D1 D2 D3]. split; [done|..].
      * intros w Hw. rewrite lookup_insert_ne by congruence. by apply D2.
      * intros u w. rewrite lookup_insert_ne by congruence. apply D3.
  - exists cast. split; [done|]. split; [|done].
    split; [done|congruence|rewrite Hvt; exact Hpast].
Qed.

Lemma replace_disk_inv cast c i n d :
  cluster_inv cast c -> i ∈ members -> core_ok (config_of i) n ->
  (forall cast', cast ⊆ cast' -> votes_ok cast' i n) ->
  durable_ok d -> durable_le (cl_disk c i) d -> disk_rel n d ->
  exists cast', cast ⊆ cast' /\
    cluster_inv cast' (mkCluster (<[i := n]> (cl_node c)) (<[i := d]> (cl_disk c)) (cl_net c)).
Proof.
  intros [Hco Hrel Hdi Hvo Hnet] Hi Hn Hv Hd Hle Hr.
  destruct (disk_advances _ _ _ _ (Hdi i Hi) Hd Hle) as (cast' & Hsub & Hdi' & Hothers).
  exists cast'. split; [done|].
  split; simpl; [intros j Hj; destruct (decide (i = j)) as [<-|Hne];
    rewrite ?fn_lookup_insert, ?fn_lookup_insert_ne by done..|].
  - done.
  - by apply Hco.
  - done.
  - by apply Hrel.
  - done.
  - apply Hothers; [done|]. by apply Hdi.
  - by apply Hv.
  - eapply votes_ok_mono; [done|]. by apply Hvo.
  - eapply list.Forall_impl; [done|]. intros p. by apply packet_ok_mono.
Qed.

Lemma disk_rel_le i n d : node_ok (config_of i) n -> disk_rel n d ->
  durable_le (n_durable n) d.
Proof.
  unfold disk_rel. intros Hok H. destruct (n_halted n); [by destruct H|].
  destruct H as [->|(p & Hp & ->)]; [done|].
  pose proof (no_le _ _ Hok) as Hle. unfold staged in Hle. by rewrite Hp in Hle.
Qed.

Lemma write_inv cast c i p :
  cluster_inv cast c -> i ∈ members -> n_pending (cl_node c i) = Some p ->
  exists cast', cast ⊆ cast' /\
    cluster_inv cast' (mkCluster (cl_node c) (<[i := pw_target p]> (cl_disk c)) (cl_net c)).
Proof.
  intros Hinv Hi Hp. pose proof Hinv as [Hco Hrel Hdi Hvo Hnet].
  pose proof (co_node _ _ (Hco i Hi)) as Hok.
  pose proof (no_staged _ _ Hok) as Hst. pose proof (no_le _ _ Hok) as Hle.
  unfold staged in Hst, Hle. rewrite Hp in Hst, Hle.
  destruct (replace_disk_inv cast c i (cl_node c i) (pw_target p) Hinv Hi (Hco i Hi))
    as (cast' & Hsub & [C1 C2 C3 C4 C5]); [|done| | |].
  - intros. eapply votes_ok_mono; [done|]. by apply Hvo.
  - specialize (Hrel i Hi). unfold disk_rel in Hrel.
    destruct (n_halted (cl_node c i)); [destruct Hrel; congruence|].
    destruct Hrel as [->|(q & Hq & ->)]; [done|]. rewrite Hp in Hq. by simplify_eq.
  - specialize (Hrel i Hi). unfold disk_rel in *.
    destruct (n_halted (cl_node c i)); [destruct Hrel; congruence|]. right. eauto.
  - exists cast'. split; [done|].
    assert (Hsame : forall j, <[i := cl_node c i]> (cl_node c) j = cl_node c j).
    { intros j. destruct (decide (i = j)) as [<-|?];
        [by rewrite fn_lookup_insert|by rewrite fn_lookup_insert_ne]. }
    simpl in *.
    split; simpl.
    + done.
    + intros j Hj. specialize (C2 j Hj). by rewrite Hsame in C2.
    + done.
    + intros j Hj. specialize (C4 j Hj). by rewrite Hsame in C4.
    + done.
Qed.

Lemma recover_inv cast c i a :
  cluster_inv cast c -> i ∈ members ->
  d_applied (cl_disk c i) <= a <= d_commit (cl_disk c i) ->
  let d := d_with_applied a (cl_disk c i) in
  exists cast', cast ⊆ cast' /\
    cluster_inv cast' (mkCluster (<[i := recovered (config_of i) d]> (cl_node c))
                         (<[i := d]> (cl_disk c)) (cl_net c)).
Proof.
  intros Hinv Hi Ha d. pose proof Hinv as [_ _ Hdi _ _].
  pose proof (di_ok _ _ _ (Hdi i Hi)) as Hd.
  assert (durable_ok d) as Hd'.
  { destruct Hd. split; simpl; try done; lia. }
  apply replace_disk_inv; try done.
  - by apply core_ok_recovered.
  - split; simpl; try done; try lia. intros _. apply term_of_boundary.
  - by left.
Qed.

(** Delivering a message that was sent. *)
Lemma deliver_inv cast c src o k :
  cluster_inv cast c -> cl_net c !! k = Some (PMessage src o) -> o_to o ∈ members ->
  input_typed (receive (o_message o)) ->
  cluster_inv cast (handle c (o_to o) (receive (o_message o))).
Proof.
  intros Hinv Hk Hto Hty. apply ordinary_inv; [done..|by destruct (o_message o)|].
  intros m Hm Hg. pose proof (ci_net _ _ Hinv) as Hnet. rewrite list.Forall_forall in Hnet.
  apply list_elem_of_lookup_2, Hnet in Hk. destruct o as [dst [| v | | |]]; simplify_eq/=.
  by destruct (Hk Hg) as [-> ?].
Qed.

Lemma complete_inv cast c i p :
  cluster_inv cast c -> i ∈ members -> n_pending (cl_node c i) = Some p ->
  cl_disk c i = pw_target p ->
  cluster_inv cast (handle c i (PersistCompleted (pw_token p))).
Proof.
  intros Hinv Hi Hp Hd. pose proof Hinv as [Hco Hrel Hdi Hvo _].
  destruct (step (config_of i) (cl_node c i) (PersistCompleted (pw_token p))) as [n' f'] eqn:E.
  assert (n_halted (cl_node c i) = false) as Hh.
  { specialize (Hrel i Hi). unfold disk_rel in Hrel.
    destruct (n_halted (cl_node c i)); [destruct Hrel; congruence|done]. }
  eapply handle_inv; eauto; [done| |].
  - pose proof E as E'. unfold step in E'.
    rewrite (node_ok_not_invalid _ _ (co_node _ _ (Hco i Hi))) in E'.
    destruct (persist_completed_effects _ _ _ _ _ _ Hp E')
      as [[-> _]|(_ & _ & Hdur & Hnone & Hhal & _)]; [by apply Hrel|].
    unfold disk_rel. rewrite Hhal, Hdur. by left.
  - eapply complete_votes; eauto. rewrite <- Hd. by apply Hdi.
Qed.

Lemma fail_inv cast c i p :
  cluster_inv cast c -> i ∈ members -> n_pending (cl_node c i) = Some p ->
  cluster_inv cast (handle c i (PersistFailed (pw_token p))).
Proof.
  intros Hinv Hi Hp. pose proof Hinv as [Hco Hrel Hdi Hvo _].
  pose proof (co_node _ _ (Hco i Hi)) as Hok.
  destruct (step (config_of i) (cl_node c i) (PersistFailed (pw_token p))) as [n' f'] eqn:E.
  assert (n_halted (cl_node c i) = false) as Hh.
  { specialize (Hrel i Hi). unfold disk_rel in Hrel.
    destruct (n_halted (cl_node c i)); [destruct Hrel; congruence|done]. }
  pose proof E as E'. unfold step, on_persist_failed in E'.
  rewrite (node_ok_not_invalid _ _ Hok), Hp, Hh, Z.eqb_refl in E'. simpl in E'.
  apply fail_stop_effects in E' as (Hdur & Hnone & Hhal & Hrole & _).
  eapply handle_inv; eauto; [done| |].
  - unfold disk_rel. rewrite Hhal, Hdur. split; [done|]. eapply disk_rel_le; [done|].
    by apply Hrel.
  - split; rewrite ?Hnone; [congruence|done|congruence].
Qed.

Lemma fire_inv cast c e c' :
  cluster_inv cast c -> fire c e = Some c' ->
  exists cast', cast ⊆ cast' /\ cluster_inv cast' c'.
Proof.
  intros Hinv H. destruct e as [i input|k|k id ready|i|i|i|i a]; simpl in H.
  - case_in H; [|done]. bool_props. simplify_eq. exists cast. split; [done|].
    apply ordinary_inv; try done; by destruct input.
  - destruct (cl_net c !! k) as [[src o|]|] eqn:Hk; try done. case_in H; [|done]. bool_props.
    simplify_eq. exists cast. split; [done|]. by eapply deliver_inv.
  - destruct (cl_net c !! k) as [[|src t needed]|] eqn:Hk; try done. case_in H; [|done].
    bool_props. simplify_eq. exists cast. split; [done|]. by apply ordinary_inv.
  - destruct (n_pending (cl_node c i)) as [p|] eqn:Hp; [|done]. case_in H; [|done].
    bool_props. simplify_eq. by apply write_inv.
  - destruct (n_pending (cl_node c i)) as [p|] eqn:Hp; [|done]. case_in H; [|done].
    bool_props. simplify_eq. exists cast. split; [done|]. by apply complete_inv.
  - destruct (n_pending (cl_node c i)) as [p|] eqn:Hp; [|done]. case_in H; [|done].
    bool_props. simplify_eq. exists cast. split; [done|]. by apply fail_inv.
  - case_in H; [|done]. bool_props. simplify_eq. by apply recover_inv.
Qed.

Lemma execute_inv es : forall cast c c',
  cluster_inv cast c -> execute c es = Some c' ->
  exists cast', cast ⊆ cast' /\ cluster_inv cast' c'.
Proof.
  induction es as [|e es IH]; intros cast c c' Hinv H; simpl in H.
  { simplify_eq. by exists cast. }
  destruct (fire c e) as [c1|] eqn:E; [|done]. simpl in H.
  destruct (fire_inv _ _ _ _ Hinv E) as (cast1 & Hs1 & Hinv1).
  destruct (IH _ _ _ Hinv1 H) as (cast2 & Hs2 & Hinv2).
  exists cast2. split; [by etrans|done].
Qed.

(** The votes found on the disks at boot. *)
Definition boot_votes (disks : string -> Durable) : gmap (Z * string) string :=
  list_to_map (omap (fun i => v ← d_voted_for (disks i); Some ((d_term (disks i), i), v)) members).

Lemma boot_votes_lookup disks t i v :
  boot_votes disks !! (t, i) = Some v -> t = d_term (disks i) /\ d_voted_for (disks i) = Some v.
Proof.
  intros H%elem_of_list_to_map_2. apply list_elem_of_omap in H as (j & Hj & Hv).
  destruct (d_voted_for (disks j)) eqn:E; simplify_eq/=. done.
Qed.

Lemma boot_votes_some disks i v :
  i ∈ members -> d_voted_for (disks i) = Some v ->
  boot_votes disks !! (d_term (disks i), i) = Some v.
Proof.
  intros Hi Hv. destruct (boot_votes disks !! (d_term (disks i), i)) as [w|] eqn:E.
  - apply boot_votes_lookup in E as [_ ?]. congruence.
  - apply not_elem_of_list_to_map in E. destruct E. apply list_elem_of_fmap.
    exists ((d_term (disks i), i), v). split; [done|]. apply list_elem_of_omap.
    exists i. split; [done|]. by rewrite Hv.
Qed.

Lemma boot_inv disks :
  (forall i, i ∈ members -> durable_ok (disks i)) ->
  cluster_inv (boot_votes disks) (boot disks).
Proof.
  intros Hd. split; simpl; try done; intros i Hi.
  - by apply core_ok_recovered, Hd.
  - by left.
  - split; [by apply Hd|intros v; by apply boot_votes_some|].
    intros t v [-> ?]%boot_votes_lookup. split; [lia|done].
Qed.

(** ** Quorums *)

Lemma length_filter_others (l : list string) i : NoDup l -> i ∈ l ->
  (length (filter (fun p => p <> i) l) + 1)%nat = length l.
Proof.
  induction 1 as [|x l Hx Hl IH]; intros Hi; [by apply elem_of_nil in Hi|].
  rewrite filter_cons. case_decide as Hxi; simpl.
  - apply elem_of_cons in Hi as [->|Hi]; [done|]. rewrite <- (IH Hi). lia.
  - subst x. rewrite filter_all; [lia|]. apply list.Forall_forall. by intros y Hy ->.
Qed.

Context (Hnodup : NoDup members).

Lemma quorum_size i : i ∈ members ->
  quorum (config_of i) = (length members / 2 + 1)%nat.
Proof.
  intros Hi. unfold quorum, config_of. simpl. by rewrite length_filter_others.
Qed.

Lemma quorums_meet (A B : gset string) i j :
  i ∈ members -> j ∈ members ->
  A ⊆ list_to_set members -> B ⊆ list_to_set members ->
  (quorum (config_of i) <= size A)%nat -> (quorum (config_of j) <= size B)%nat ->
  exists v, v ∈ A /\ v ∈ B.
Proof.
  intros Hi Hj HA HB. rewrite !quorum_size by done. intros HsA HsB.
  destruct (set_choose_or_empty (A ∩ B)) as [[v Hv%elem_of_intersection]|Hdis]; [by exists v|].
  exfalso. assert (size (A ∪ B) = (size A + size B)%nat) as Hsum.
  { apply size_union. set_solver. }
  assert (size (A ∪ B) <= size (list_to_set members : gset string))%nat as Hle
    by (apply subseteq_size; set_solver).
  rewrite size_list_to_set in Hle by done.
  pose proof (Nat.div_mod_eq (length members) 2).
  pose proof (Nat.mod_upper_bound (length members) 2 ltac:(lia)). lia.
Qed.

Lemma leader_votes cast c i :
  cluster_inv cast c -> i ∈ members -> v_role (n_volatile (cl_node c i)) = Leader ->
  exists A : gset string, A ⊆ list_to_set members /\
    (quorum (config_of i) <= size A)%nat /\
    forall v, v ∈ A -> cast !! (d_term (n_durable (cl_node c i)), v) = Some i.
Proof.
  intros [Hco _ _ Hvo _] Hi Hl. exists (v_votes (n_volatile (cl_node c i))).
  split; [|split; [by apply Hvo|]].
  - pose proof (no_votes _ _ (co_node _ _ (Hco i Hi))) as Hs. intros v Hv%Hs.
    apply elem_of_list_to_set. simpl in Hv.
    apply elem_of_union in Hv as [->%elem_of_singleton|Hv%elem_of_list_to_set]; [done|].
    by apply list_elem_of_filter in Hv as [_ ?].
  - apply (vo_cast _ _ _ (Hvo i Hi)). congruence.
Qed.
End Cluster.

(** ** A concrete election for the witness *)

Definition demo_members : list string := ["a"; "b"; "c"].

(** [a] stands for election, [b] grants its vote, [a] leads term 1. *)
Definition demo_election : list Event :=
  [EvLocal "a" ElectionTimeout; EvWrite "a"; EvComplete "a";
   EvDeliver 0; EvWrite "b"; EvComplete "b"; EvDeliver 2].

(** The leader proposes; [b] dies and comes back. *)
Definition demo_later : list Event :=
  [EvLocal "a" (ClientPropose "move"); EvRecover "b" 0; EvWrite "a"; EvComplete "a"].

Definition demo_boot : Cluster := boot demo_members (fun _ => empty_durable).

Definition demo_elected : Cluster :=
  default demo_boot (execute demo_members demo_boot demo_election).

Definition demo_after : Cluster :=
  default demo_boot (execute demo_members demo_elected demo_later).

(** C1: Election safety. From any well-formed disks, along any schedule of
    timeouts, client commands, deliveries, lost, duplicated and reordered
    messages, disk writes, write failures and crashes, two nodes that lead in
    the same term, be it at different moments, are the same node. *)
Theorem election_safety members disks es es' c c' i j :
  NoDup members -> (forall k, k ∈ members -> durable_ok (disks k)) ->
  execute members (boot members disks) es = Some c ->
  execute members c es' = Some c' ->
  i ∈ members -> j ∈ members ->
  v_role (n_volatile (cl_node c i)) = Leader -> v_role (n_volatile (cl_node c' j)) = Leader ->
  d_term (n_durable (cl_node c i)) = d_term (n_durable (cl_node c' j)) ->
  i = j.
Proof.
  intros Hnd Hd E E' Hi Hj Li Lj Ht.
  destruct (execute_inv _ _ _ _ _ (boot_inv _ _ Hd) E) as (cast & _ & Hinv).
  destruct (execute_inv _ _ _ _ _ Hinv E') as (cast' & Hsub & Hinv').
  destruct (leader_votes _ _ _ _ Hinv Hi Li) as (A & HA & HqA & Hca).
  destruct (leader_votes _ _ _ _ Hinv' Hj Lj) as (B & HB & HqB & Hcb).
  destruct (quorums_meet _ Hnd A B i j Hi Hj HA HB HqA HqB) as (v & Hva & Hvb).
  specialize (Hca v Hva). specialize (Hcb v Hvb). rewrite Ht in Hca.
  eapply lookup_weaken in Hca; [|exact Hsub]. congruence.
Qed.

Lemma election_safety_witness :
  v_role (n_volatile (cl_node demo_elected "a")) = Leader /\
  d_term (n_durable (cl_node demo_after "a")) = 1 /\
  d_log (n_durable (cl_node demo_after "a")) = [mkEntry 1 "move"] /\ "a"%string = "a"%string.
Proof.
  split; [vm_compute; reflexivity|]. split; [vm_compute; reflexivity|].
  split; [vm_compute; reflexivity|].
  apply (election_safety demo_members (fun _ => empty_durable) demo_election demo_later
    demo_elected demo_after "a" "a").
  - vm_compute. repeat constructor; set_solver.
  - intros. apply durable_ok_empty.
  - vm_compute; reflexivity.
  - vm_compute; reflexivity.
  - set_solver.
  - set_solver.
  - vm_compute; reflexivity.
  - vm_compute; reflexivity.
  - vm_compute; reflexivity.
Defined.
