(* ===== verification/Bytes.v ===== *)
(** * Bytes, integers, checksums and binary formats

    A [std::vector<std::uint8_t>], or a [std::string] used as a buffer, is a
    list of integers between 0 and 255. Models [src/storage/crc32.cpp] and
    the integer helpers of [src/storage/file_util.cpp]. The source leaves an
    access past the end undefined; here it reads 0 and writes nothing, and
    the round trips below only use accesses in range. Then what every binary
    format of the store shares: a body sealed with its CRC-32, a codec whose
    decoder inverts its encoder, and a file replaced through [write_atomic].
    The last section proves once, for any codec, what a reader finds after
    writes that may fail. *)

From S2P Require Import Prelude Text Types.
#[global] Open Scope list_scope.
#[global] Open Scope Z_scope.

Definition bytes_ok (bs : list Z) : Prop := Forall (fun b => 0 <= b < 256) bs.

(** A string as bytes and back. *)
Fixpoint bytes_of (s : string) : list Z :=
  match s with EmptyString => [] | String c r => code c :: bytes_of r end.

Fixpoint string_of (bs : list Z) : string :=
  match bs with [] => "" | b :: r => String (char b) (string_of r) end.

Definition byte_at (bs : list Z) (i : nat) : Z := default 0 (bs !! i).

Definition zsize (bs : list Z) : Z := Z.of_nat (length bs).

(** ** Integers *)

(** The loops of [write_u16], [write_u32] and [write_u64] from byte [i]. *)
Fixpoint write_loop (count i : nat) (out : list Z) (offset : nat) (value : Z) : list Z :=
  match count with
  | O => out
  | S count =>
      write_loop count (S i)
        (<[(offset + i)%nat := Z.land (Z.shiftr value (8 * Z.of_nat i)) 255]> out) offset value
  end.

Definition write_u16 (out : list Z) (offset : nat) (value : Z) : list Z :=
  write_loop 2 0 out offset value.

Definition write_u32 (out : list Z) (offset : nat) (value : Z) : list Z :=
  write_loop 4 0 out offset value.

Definition write_u64 (out : list Z) (offset : nat) (value : Z) : list Z :=
  write_loop 8 0 out offset value.

(** The loops of [read_u16], [read_u32] and [read_u64]. *)
Fixpoint read_loop (count i : nat) (bs : list Z) (offset : nat) (value : Z) : Z :=
  match count with
  | O => value
  | S count =>
      read_loop count (S i) bs offset
        (Z.lor value (Z.shiftl (byte_at bs (offset + i)) (8 * Z.of_nat i)))
  end.

Definition read_u16 (bs : list Z) (offset : nat) : Z := read_loop 2 0 bs offset 0.

Definition read_u32 (bs : list Z) (offset : nat) : Z := read_loop 4 0 bs offset 0.

Definition read_u64 (bs : list Z) (offset : nat) : Z := read_loop 8 0 bs offset 0.

(** [out.replace(offset, text.size(), text)] *)
Definition replace_at (out : list Z) (offset : nat) (text : list Z) : list Z :=
  take offset out ++ text ++ drop (offset + length text) out.

Definition zeros (n : nat) : list Z := replicate n 0.

(** ** CRC-32 *)

Fixpoint crc_bits (count : nat) (crc : Z) : Z :=
  match count with
  | O => crc
  | S count =>
      let low_bit := Z.land crc 1 in
      let crc := Z.shiftr crc 1 in
      crc_bits count (if low_bit =? 0 then crc else Z.lxor crc 3988292384)
  end.

Definition crc32 (data : list Z) : Z :=
  Z.lxor (foldl (fun crc b => crc_bits 8 (Z.lxor crc b)) 4294967295 data) 4294967295.

(** The check value of the standard. *)
Example crc32_check : crc32 (bytes_of "123456789") = 3421780262.
Proof. vm_compute. reflexivity. Qed.

(** ** Lemmas *)

Lemma bytes_of_length s : length (bytes_of s) = String.length s.
Proof. induction s as [|c s IH]; [done|]. simpl. by rewrite IH. Qed.

Lemma bytes_of_ok s : bytes_ok (bytes_of s).
Proof. induction s as [|c s IH]; constructor; [apply code_range|done]. Qed.

Lemma char_code c : char (code c) = c.
Proof. unfold char, code. rewrite N2Z.id. apply ascii_N_embedding. Qed.

Lemma string_of_bytes_of s : string_of (bytes_of s) = s.
Proof. induction s as [|c s IH]; [done|]. simpl. by rewrite char_code, IH. Qed.

(** The [count] bytes of a value, least significant first. *)
Definition le_bytes (count : nat) (value : Z) : list Z :=
  (fun i => Z.land (Z.shiftr value (8 * Z.of_nat i)) 255) <$> seq 0 count.

Lemma le_bytes_length count v : length (le_bytes count v) = count.
Proof. unfold le_bytes. by rewrite length_fmap, length_seq. Qed.

Lemma le_bytes_ok count v : bytes_ok (le_bytes count v).
Proof.
  unfold le_bytes. apply Forall_fmap, Forall_true. intros i. simpl.
  change 255 with (Z.ones 8). rewrite Z.land_ones by lia.
  pose proof (Z.mod_pos_bound (Z.shiftr v (8 * Z.of_nat i)) (2 ^ 8) ltac:(lia)). simpl in *. lia.
Qed.

Lemma write_loop_app count : forall i old a b value,
  length old = count ->
  write_loop count i (a ++ old ++ b) (length a - i) value =
    a ++ ((fun k => Z.land (Z.shiftr value (8 * Z.of_nat k)) 255) <$> seq i count) ++ b \/
  (length a < i)%nat.
Proof.
  induction count as [|count IH]; intros i old a b value Hlen.
  - left. destruct old; [done|simpl in Hlen; lia].
  - destruct (decide (length a < i)%nat) as [|Hge]; [by right|left].
    destruct old as [|x old]; [done|]. simpl in Hlen. cbn [write_loop].
    replace (length a - i + i)%nat with (length a + 0)%nat by lia.
    rewrite insert_app_r. cbn [list_insert insert app].
    destruct (IH (S i) old (a ++ [Z.land (Z.shiftr value (8 * Z.of_nat i)) 255]) b value)
      as [H|H]; [lia| |rewrite length_app in H; simpl in H; lia].
    rewrite length_app in H. simpl in H.
    replace (length a + 1 - S i)%nat with (length a - i)%nat in H by lia.
    rewrite <- !app_assoc in H. simpl in H. rewrite H. done.
Qed.

Lemma write_le_app count a old b value :
  length old = count ->
  write_loop count 0 (a ++ old ++ b) (length a) value = a ++ le_bytes count value ++ b.
Proof.
  intros H. destruct (write_loop_app count 0 old a b value H) as [E|E]; [|lia].
  by rewrite Nat.sub_0_r in E.
Qed.

(** The value of little-endian bytes. *)
Fixpoint le_value (bs : list Z) : Z :=
  match bs with [] => 0 | b :: r => b + 256 * le_value r end.

Lemma le_value_bound bs : bytes_ok bs -> 0 <= le_value bs < 256 ^ zsize bs.
Proof.
  induction 1 as [|b bs Hb _ IH]; [done|]. cbn [le_value]. unfold zsize in *. cbn [length].
  rewrite Nat2Z.inj_succ, Z.pow_succ_r by lia. lia.
Qed.

Lemma lor_add_shift v b k :
  0 <= v < 2 ^ k -> 0 <= k -> Z.lor v (Z.shiftl b k) = v + b * 2 ^ k.
Proof.
  intros Hv Hk. rewrite Z.shiftl_mul_pow2 by done. rewrite <- (Z.add_lor_land v (b * 2 ^ k)).
  assert (Z.land v (b * 2 ^ k) = 0) as ->; [|lia].
  rewrite <- Z.shiftl_mul_pow2 by done. apply Z.bits_inj'. intros n Hn.
  rewrite Z.land_spec, Z.bits_0. destruct (Z.lt_ge_cases n k).
  - by rewrite Z.shiftl_spec_low, andb_false_r by lia.
  - rewrite <- (Z.mod_small v (2 ^ k)) by lia. by rewrite Z.mod_pow2_bits_high by lia.
Qed.

Lemma read_loop_app bs : forall i a b value,
  bytes_ok bs -> 0 <= value < 2 ^ (8 * Z.of_nat i) -> (i <= length a)%nat ->
  read_loop (length bs) i (a ++ bs ++ b) (length a - i) value =
  value + le_value bs * 2 ^ (8 * Z.of_nat i).
Proof.
  induction bs as [|x bs IH]; intros i a b value Hok Hv Hi; [simpl; lia|].
  inversion Hok as [|?? Hx Hbs]; subst. cbn [length read_loop le_value].
  replace (length a - i + i)%nat with (length a + 0)%nat by lia.
  unfold byte_at. rewrite lookup_app_r by lia.
  replace (length a + 0 - length a)%nat with 0%nat by lia. simpl (default _ _).
  rewrite lor_add_shift by lia.
  replace (a ++ (x :: bs) ++ b) with ((a ++ [x]) ++ bs ++ b) by (by rewrite <- app_assoc).
  replace (length a - i)%nat with (length (a ++ [x]) - S i)%nat by (rewrite length_app; simpl; lia).
  assert (2 ^ (8 * Z.of_nat (S i)) = 256 * 2 ^ (8 * Z.of_nat i)) as Hpow.
  { replace (8 * Z.of_nat (S i)) with (8 + 8 * Z.of_nat i) by lia.
    by rewrite Z.pow_add_r by lia. }
  assert (0 < 2 ^ (8 * Z.of_nat i)) by (apply Z.pow_pos_nonneg; lia).
  rewrite IH; [|done| |rewrite length_app; simpl; lia].
  - rewrite Hpow. lia.
  - rewrite Hpow. nia.
Qed.

Lemma read_le_app a bs b :
  bytes_ok bs -> read_loop (length bs) 0 (a ++ bs ++ b) (length a) 0 = le_value bs.
Proof.
  intros Hok. pose proof (read_loop_app bs 0 a b 0 Hok) as H. rewrite Nat.sub_0_r in H.
  rewrite H; [simpl; lia|simpl; lia|lia].
Qed.

Lemma le_value_le_bytes count : forall v, 0 <= v < 256 ^ Z.of_nat count ->
  le_value (le_bytes count v) = v.
Proof.
  assert (Hgo : forall count i v, 0 <= v ->
    le_value ((fun k => Z.land (Z.shiftr v (8 * Z.of_nat k)) 255) <$> seq i count) =
    (v / 256 ^ Z.of_nat i) mod 256 ^ Z.of_nat count).
  { clear. induction count as [|count IH]; intros i v Hv.
    - simpl. by rewrite Z.mod_1_r.
    - cbn [seq]. rewrite fmap_cons. cbn [le_value]. rewrite IH by done.
      change 255 with (Z.ones 8). rewrite Z.land_ones, Z.shiftr_div_pow2 by lia.
      replace (2 ^ (8 * Z.of_nat i)) with (256 ^ Z.of_nat i)
        by (rewrite Z.pow_mul_r by lia; done).
      change (2 ^ 8) with 256.
      rewrite !Nat2Z.inj_succ, !Z.pow_succ_r by lia.
      rewrite Z.rem_mul_r; [|lia|apply Z.pow_pos_nonneg; lia].
      rewrite Z.div_div; [|apply Z.pow_nonzero; lia|lia].
      by rewrite (Z.mul_comm (256 ^ Z.of_nat i) 256). }
  intros v Hv. unfold le_bytes. rewrite Hgo by lia. simpl (256 ^ Z.of_nat 0).
  by rewrite Z.div_1_r, Z.mod_small.
Qed.

(** Reading back what was written, between any two pieces. *)
Lemma read_written count a b v :
  0 <= v < 256 ^ Z.of_nat count ->
  read_loop count 0 (a ++ le_bytes count v ++ b) (length a) 0 = v.
Proof.
  intros Hv. pose proof (read_le_app a (le_bytes count v) b (le_bytes_ok _ _)) as H.
  rewrite le_bytes_length in H. rewrite H. by apply le_value_le_bytes.
Qed.

(** The same with the buffer and the offset given by equations, for formats
    with several fields. *)
Lemma write_field count off a old b v out :
  out = a ++ old ++ b -> off = length a -> length old = count ->
  write_loop count 0 out off v = a ++ le_bytes count v ++ b.
Proof. intros -> -> H. by apply write_le_app. Qed.

Lemma read_field count off a b v bs :
  bs = a ++ le_bytes count v ++ b -> off = length a -> 0 <= v < 256 ^ Z.of_nat count ->
  read_loop count 0 bs off 0 = v.
Proof. intros -> -> H. by apply read_written. Qed.

Lemma replace_field off a old b text out :
  out = a ++ old ++ b -> off = length a -> length old = length text ->
  replace_at out off text = a ++ text ++ b.
Proof.
  intros -> -> H. unfold replace_at. rewrite take_app_length. f_equal. f_equal.
  rewrite app_assoc, drop_app_length'; [done|]. rewrite length_app. lia.
Qed.

Lemma take_field off a b (bs : list Z) : bs = a ++ b -> off = length a -> take off bs = a.
Proof. intros -> ->. apply take_app_length. Qed.

Lemma slice_field n off a b c (bs : list Z) :
  bs = a ++ b ++ c -> off = length a -> n = length b -> take n (drop off bs) = b.
Proof. intros -> -> ->. by rewrite drop_app_length, take_app_length. Qed.

Lemma zeros_app n m : zeros (n + m) = zeros n ++ zeros m.
Proof. apply replicate_add. Qed.

Lemma zeros_length n : length (zeros n) = n.
Proof. apply length_replicate. Qed.

Lemma bytes_ok_app a b : bytes_ok (a ++ b) <-> bytes_ok a /\ bytes_ok b.
Proof. apply Forall_app. Qed.

#[export] Hint Resolve bytes_of_ok le_bytes_ok : choreo.

Create Rewrite HintDb bytes.
#[export] Hint Rewrite @length_app le_bytes_length bytes_of_length zeros_length @length_cons @length_nil
  : bytes.

(** Solves the side conditions of the field lemmas: equations between
    concatenations, and lengths. *)
Ltac layout :=
  first [ done
        | unfold wrap32 in *; autorewrite with bytes; simpl; lia
        | rewrite <- ?app_assoc; cbn [app]; rewrite ?app_nil_r; reflexivity ].

(** ** CRC values fit 32 bits *)

Lemma lxor_u32 a b : 0 <= a < 4294967296 -> 0 <= b < 4294967296 -> 0 <= Z.lxor a b < 4294967296.
Proof.
  intros Ha Hb. change 4294967296 with (2 ^ 32) in *.
  assert (Z.lxor a b = Z.lxor a b mod 2 ^ 32) as ->; [|apply Z.mod_pos_bound; lia].
  apply Z.bits_inj'. intros n Hn. destruct (Z.lt_ge_cases n 32).
  - by rewrite Z.mod_pow2_bits_low.
  - rewrite Z.mod_pow2_bits_high, Z.lxor_spec by lia.
    rewrite <- (Z.mod_small a (2 ^ 32)), <- (Z.mod_small b (2 ^ 32)) by done.
    by rewrite !Z.mod_pow2_bits_high by lia.
Qed.

Lemma crc_bits_u32 count : forall crc, 0 <= crc < 4294967296 -> 0 <= crc_bits count crc < 4294967296.
Proof.
  induction count as [|count IH]; intros crc Hc; [done|]. cbn [crc_bits]. apply IH.
  assert (0 <= Z.shiftr crc 1 < 4294967296).
  { rewrite Z.shiftr_div_pow2 by lia. change (2 ^ 1) with 2.
    split; [apply Z.div_pos; lia|apply Z.div_lt_upper_bound; lia]. }
  destruct (_ =? _); [done|]. by apply lxor_u32.
Qed.

Lemma crc32_u32 data : bytes_ok data -> 0 <= crc32 data < 4294967296.
Proof.
  intros Hd. unfold crc32. apply lxor_u32; [|lia].
  assert (Hgo : forall crc, 0 <= crc < 4294967296 ->
    0 <= foldl (fun crc b => crc_bits 8 (Z.lxor crc b)) crc data < 4294967296); [|apply Hgo; lia].
  induction Hd as [|b data Hb _ IH]; intros crc Hc; [done|]. cbn [foldl]. apply IH, crc_bits_u32.
  apply lxor_u32; [done|lia].
Qed.

(** ** Sealed bodies *)

Definition seal (body : list Z) : list Z := body ++ le_bytes 4 (crc32 body).

Lemma seal_length body : length (seal body) = (length body + 4)%nat.
Proof. unfold seal. by rewrite length_app, le_bytes_length. Qed.

Lemma seal_size body : (length (seal body) - 4)%nat = length body.
Proof. rewrite seal_length. lia. Qed.

Lemma seal_body body : take (length body) (seal body) = body.
Proof. apply take_app_length. Qed.

Lemma seal_checksum body : bytes_ok body -> read_u32 (seal body) (length body) = crc32 body.
Proof.
  intros H. apply (read_field 4 _ body []); [by rewrite app_nil_r|done|]. by apply crc32_u32.
Qed.

(** Writing the checksum over four reserved bytes seals the rest. *)
Lemma write_seal body : write_u32 (body ++ zeros 4) (length body) (crc32 body) = seal body.
Proof.
  unfold write_u32. rewrite (write_field 4 _ body (zeros 4) []);
    [by rewrite app_nil_r|by rewrite app_nil_r|done..].
Qed.

(** ** Codecs *)

(** A value of type [A] as a file or a message: the decoder inverts the
    encoder on the values that satisfy [codec_ok], and those can be encoded. *)
Class Codec (A : Type) := {
  codec_ok : A -> Prop;
  encode_with : A -> result Error (list Z);
  decode_with : list Z -> result Error A;
  codec_encodes : forall a, codec_ok a -> exists bytes, encode_with a = Ok bytes;
  codec_inverse : forall a bytes, codec_ok a -> encode_with a = Ok bytes ->
    decode_with bytes = Ok a;
}.

(** ** Replacing a file *)

(** How [write_atomic] ends: the file is replaced; the temporary file could
    not be written, synced or renamed, so the old one is still in place; or
    the rename happened and the directory could not be synced. *)
Inductive AtomicWrite := Replaced | KeptOld (error : Error) | ReplacedUnsynced (error : Error).

Definition write_atomic (file : option (list Z)) (bytes : list Z) (outcome : AtomicWrite)
    : option (list Z) * option Error :=
  match outcome with
  | Replaced => (Some bytes, None)
  | KeptOld e => (file, Some e)
  | ReplacedUnsynced e => (Some bytes, Some e)
  end.

Section Stored.
Context `{Codec A} (absent : A).

(** Read the file if it exists, else a default value. *)
Definition load_stored (file : option (list Z)) : result Error A :=
  match file with None => Ok absent | Some bytes => decode_with bytes end.

(** Encode, then replace the file. *)
Definition store_value (file : option (list Z)) (value : A) (outcome : AtomicWrite)
    : option (list Z) * option Error :=
  match encode_with value with
  | Err e => (file, Some e)
  | Ok bytes => write_atomic file bytes outcome
  end.

(** A file holds the old value or the new one, and a write that reports
    success holds the new one. *)
Lemma store_then_load file old value outcome :
  load_stored file = Ok old -> codec_ok value ->
  let '(file', error) := store_value file value outcome in
  (load_stored file' = Ok old \/ load_stored file' = Ok value) /\
  (error = None -> load_stored file' = Ok value).
Proof.
  intros Hold Hok. unfold store_value. destruct (codec_encodes value Hok) as [bytes Hb].
  rewrite Hb. destruct outcome; cbn [write_atomic load_stored].
  - rewrite (codec_inverse value bytes Hok Hb). eauto.
  - split; [by left|done].
  - rewrite (codec_inverse value bytes Hok Hb). eauto.
Qed.
End Stored.

(** ** Ranges of what is read *)

Lemma read_loop_range count : forall i bs offset value, bytes_ok bs -> 0 <= value < 2 ^ (8 * Z.of_nat i) ->
  0 <= read_loop count i bs offset value < 2 ^ (8 * Z.of_nat (i + count)).
Proof.
  induction count as [|count IH]; intros i bs offset value Hb Hv; cbn [read_loop]; [by rewrite Nat.add_0_r|].
  rewrite <- Nat.add_succ_comm. apply IH; [done|].
  assert (0 <= byte_at bs (offset + i) < 256) as Hx.
  { unfold byte_at. destruct (bs !! (offset + i)%nat) as [x|] eqn:E; cbn; [|lia]. by eapply (list.Forall_lookup_1 (fun b => 0 <= b < 256)). }
  rewrite lor_add_shift by lia. replace (8 * Z.of_nat (S i)) with (8 * Z.of_nat i + 8) by lia.
  rewrite Z.pow_add_r by lia. change (2 ^ 8) with 256. assert (0 < 2 ^ (8 * Z.of_nat i)) by (apply Z.pow_pos_nonneg; lia). nia.
Qed.

Lemma read_u64_range bs offset : bytes_ok bs -> u64 (read_u64 bs offset).
Proof.
  intros H. pose proof (read_loop_range 8 0 bs offset 0 H ltac:(cbn; lia)) as Hr.
  change (8 * Z.of_nat (0 + 8)) with 64 in Hr. unfold u64, read_u64, max_u64. lia.
Qed.
