(* ===== verification/Wal.v ===== *)
(** * The write-ahead log

    [cpp-runtime/src/storage/wal.cpp] and the header of
    [src/storage/file_util.cpp]: the bytes of a record and of a file, loading
    with truncation of a torn tail, appending, truncating and rewriting. The
    file itself is a list of bytes; an append that fails has left some prefix
    of its record in the file. *)

From S2P Require Import Prelude Text Types Model EventCodec EventCodecThms Bytes.

Definition kRecordMagic : Z := 826756940.
Definition kVersion : Z := 1.
Definition kFileHeaderBytes : nat := 16.
Definition kRecordPrefix : nat := 28.
Definition kMaxPayloadBytes : Z := 1048576.
Definition kFileMagic : list Z := bytes_of "CHOSWAL1".

Definition corrupt (detail : string) : Error := mkError StoreError detail.

(** One framed record: prefix, canonical payload, CRC. *)
Definition encode_record (event : Event) : result Error (list Z) :=
  let payload := bytes_of (canonical_event event) in
  let n := length payload in
  if kMaxPayloadBytes <? zsize payload then Err (corrupt "event payload exceeds 1 MiB")
  else
    let record := zeros (kRecordPrefix + n + 4) in
    let record := write_u32 record 0 kRecordMagic in
    let record := write_u16 record 4 kVersion in
    let record := write_u16 record 6 0 in
    let record := write_u32 record 8 (wrap32 (zsize payload)) in
    let record := write_u64 record 12 (ev_term event) in
    let record := write_u64 record 20 (ev_index event) in
    let record := replace_at record kRecordPrefix payload in
    let sum := crc32 (take (kRecordPrefix + n) record) in
    Ok (write_u32 record (kRecordPrefix + n) sum).

Definition wal_file_header : list Z :=
  let header := zeros 16 in
  let header := replace_at header 0 (bytes_of "CHOSWAL1") in
  let header := write_u16 header 8 1 in
  let header := write_u16 header 10 0 in
  write_u32 header 12 (crc32 (take 12 header)).

Fixpoint encode_records (events : list Event) (bytes : list Z) : result Error (list Z) :=
  match events with
  | [] => Ok bytes
  | event :: rest => let? record := encode_record event in encode_records rest (bytes ++ record)
  end.

Definition encode_wal (events : list Event) : result Error (list Z) :=
  encode_records events wal_file_header.

(** A later record magic in the bytes that follow. *)
Fixpoint has_magic (bs : list Z) : bool :=
  match bs with
  | b0 :: ((b1 :: b2 :: b3 :: _) as rest) =>
      ((b0 =? 76) && (b1 =? 79) && (b2 =? 71) && (b3 =? 49)) || has_magic rest
  | _ => false
  end.

Record Scan := mkScan {
  sc_events : list Event;
  sc_ends : list nat;
  sc_good_end : nat;
  sc_truncated : Z;
}.

(** The loop of [load] from [offset]; every record is at least 32 bytes long,
    so the size of the file is enough fuel. *)
Fixpoint scan (fuel : nat) (file : list Z) (offset : nat) (events : list Event)
    (ends : list nat) : result Error Scan :=
  match fuel with
  | O => Ok (mkScan events ends offset 0)
  | S fuel =>
      let size := length file in
      if negb (offset <? size)%nat then Ok (mkScan events ends offset 0)
      else
        let available := (size - offset)%nat in
        if (available <? kRecordPrefix + 4)%nat
        then Ok (mkScan events ends offset (Z.of_nat available))
        else if negb (read_u32 file offset =? kRecordMagic) ||
                negb (read_u16 file (offset + 4) =? kVersion)
        then if has_magic (drop (offset + 1) file)
             then Err (corrupt ("corrupt write-ahead record at offset " +:+
                                print_u (Z.of_nat offset)))
             else Ok (mkScan events ends offset (Z.of_nat available))
        else
          let payload_len := read_u32 file (offset + 8) in
          if kMaxPayloadBytes <? payload_len
          then Err (corrupt "write-ahead record exceeds the 1 MiB limit")
          else
            let n := Z.to_nat payload_len in
            let total := (kRecordPrefix + n + 4)%nat in
            if (available <? total)%nat
            then Ok (mkScan events ends offset (Z.of_nat available))
            else
              let expected := crc32 (take (kRecordPrefix + n) (drop offset file)) in
              let actual := read_u32 file (offset + kRecordPrefix + n) in
              if negb (expected =? actual)
              then Err (corrupt ("write-ahead record checksum mismatch at offset " +:+
                                 print_u (Z.of_nat offset)))
              else
                let payload := string_of (take n (drop (offset + kRecordPrefix) file)) in
                match parse_event payload with
                | Err _ => Err (corrupt "write-ahead payload is not a canonical event")
                | Ok event =>
                    if negb (ev_index event =? read_u64 file (offset + 20)) ||
                       negb (ev_term event =? read_u64 file (offset + 12))
                    then Err (corrupt "write-ahead envelope does not match its payload")
                    else scan fuel file (offset + total) (events ++ [event])
                           (ends ++ [(offset + total)%nat])
                end
  end.

(** The checks of [load] on the file header, then the records. *)
Definition load_scan (file : list Z) : result Error Scan :=
  if (length file <? kFileHeaderBytes)%nat
  then Err (corrupt "write-ahead log header is incomplete")
  else if negb (bool_decide (take 8 file = kFileMagic))
  then Err (corrupt "write-ahead log magic is invalid")
  else if negb (read_u16 file 8 =? kVersion)
  then Err (corrupt "write-ahead log version is unsupported")
  else if negb (crc32 (take 12 file) =? read_u32 file 12)
  then Err (corrupt "write-ahead log header checksum mismatch")
  else scan (length file) file kFileHeaderBytes [] [].

(** ** The log object *)

Record WriteAheadLog := mkWal {
  wal_file : list Z;
  wal_events : list Event;
  wal_ends : list nat;
  wal_truncated : Z;
}.

(** [load]: the scan, then [resize_file] to the end of the last good record;
    [cut] is the error of [resize_file], if it fails. *)
Definition load (file : list Z) (truncated : Z) (cut : option Error)
    : result Error WriteAheadLog :=
  let? s := load_scan file in
  if (sc_good_end s <? length file)%nat
  then match cut with
       | Some _ => Err (corrupt "unable to truncate a torn write-ahead tail")
       | None => Ok (mkWal (take (sc_good_end s) file) (sc_events s) (sc_ends s)
                       (truncated + sc_truncated s))
       end
  else Ok (mkWal file (sc_events s) (sc_ends s) (truncated + sc_truncated s)).

(** How the system calls of [open] before [resize_file] end: [exists] fails;
    [write_new_header] fails or is interrupted, leaving no file or the first
    [k] bytes of the header, since the file is created before the header is
    written to it; the file cannot be read; or none of that. *)
Inductive WalAccess :=
| Accessed
| NotInspected (error : Error)
| HeaderFailed (written : option nat) (error : Error)
| NotRead (error : Error).

(** [load] of an open, with the file it leaves. *)
Definition load_found (file : list Z) (cut : option Error)
    : option (list Z) * result Error WriteAheadLog :=
  match load file 0 cut with
  | Ok log => (Some (wal_file log), Ok log)
  | Err e => (Some file, Err e)
  end.

(** [WriteAheadLog::open] on the file found at the path, if any: the file it
    leaves there, and the log. *)
Definition wal_open (found : option (list Z)) (access : WalAccess) (cut : option Error)
    : option (list Z) * result Error WriteAheadLog :=
  match access, found with
  | NotInspected e, _ => (found, Err e)
  | HeaderFailed written e, None => ((fun k => take k wal_file_header) <$> written, Err e)
  | NotRead e, _ => (Some (default wal_file_header found), Err e)
  | _, _ => load_found (default wal_file_header found) cut
  end.

(** How [append_bytes] ends: everything is written, or it fails after some
    bytes have reached the file. *)
Inductive WriteOutcome := Written | Failed (bytes : nat) (error : Error).

Definition wal_append (log : WriteAheadLog) (event : Event) (outcome : WriteOutcome)
    : WriteAheadLog * option Error :=
  match encode_record event with
  | Err e => (log, Some e)
  | Ok record =>
      match outcome with
      | Failed k e =>
          (mkWal (wal_file log ++ take k record) (wal_events log) (wal_ends log)
             (wal_truncated log), Some e)
      | Written =>
          let previous := default kFileHeaderBytes (list.last (wal_ends log)) in
          (mkWal (wal_file log ++ record) (wal_events log ++ [event])
             (wal_ends log ++ [(previous + length record)%nat]) (wal_truncated log), None)
      end
  end.

(** The records that [truncate_after] keeps. *)
Fixpoint keep_count (index : Z) (events : list Event) : nat :=
  match events with
  | e :: rest => if ev_index e <=? index then S (keep_count index rest) else 0%nat
  | [] => 0%nat
  end.

(** [truncate_after]; [resized] and [synced] are the errors of [resize_file]
    and of [sync_file], if they fail. *)
Definition truncate_after (log : WriteAheadLog) (index : Z) (resized synced : option Error)
    : WriteAheadLog * option Error :=
  let keep := keep_count index (wal_events log) in
  let end_ := match keep with
              | O => kFileHeaderBytes
              | S k => default kFileHeaderBytes (wal_ends log !! k)
              end in
  match resized with
  | Some _ => (log, Some (corrupt "unable to truncate write-ahead log"))
  | None =>
      let file := resize end_ 0 (wal_file log) in
      match synced with
      | Some e => (mkWal file (wal_events log) (wal_ends log) (wal_truncated log), Some e)
      | None => (mkWal file (take keep (wal_events log)) (take keep (wal_ends log))
                   (wal_truncated log), None)
      end
  end.

(** [rewrite]: the old file stays until the new one is in place. A [load] that
    fails afterwards leaves the object to be reopened; its lists are not read
    again. (A new file that cannot be read back ends as [ReplacedUnsynced].) *)
Definition rewrite_log (log : WriteAheadLog) (events : list Event) (outcome : AtomicWrite)
    (cut : option Error) : WriteAheadLog * option Error :=
  match encode_wal events with
  | Err e => (log, Some e)
  | Ok bytes =>
      let '(file, error) := write_atomic (Some (wal_file log)) bytes outcome in
      let log := mkWal (default [] file) (wal_events log) (wal_ends log) (wal_truncated log) in
      match error with
      | Some e => (log, Some e)
      | None =>
          match load (wal_file log) (wal_truncated log) cut with
          | Ok log => (log, None)
          | Err e => (log, Some e)
          end
      end
  end.

Definition wal_at (log : WriteAheadLog) (index : Z) : result Error Event :=
  match list_find (fun e => ev_index e = index) (wal_events log) with
  | Some (_, e) => Ok e
  | None => Err (corrupt "log index was not found")
  end.
