(* ===== verification/WalThms.v ===== *)
(** * Theorems on the write-ahead log *)

From S2P Require Import Prelude Text Types Model EventCodec EventCodecThms Bytes Wal.

(** ** The layout of a record *)

Definition record_prefix (n : nat) (term index : Z) : list Z :=
  le_bytes 4 kRecordMagic ++ le_bytes 2 kVersion ++ le_bytes 2 0 ++
  le_bytes 4 (Z.of_nat n) ++ le_bytes 8 term ++ le_bytes 8 index.

(** Everything but the checksum. *)
Definition record_body (event : Event) : list Z :=
  let payload := bytes_of (canonical_event event) in
  record_prefix (length payload) (ev_term event) (ev_index event) ++ payload.

Definition record_of (event : Event) : list Z :=
  record_body event ++ le_bytes 4 (crc32 (record_body event)).

Definition payload_size (event : Event) : nat := String.length (canonical_event event).

Lemma record_prefix_length n t i : length (record_prefix n t i) = 28%nat.
Proof. unfold record_prefix. by rewrite !length_app, !le_bytes_length. Qed.

Lemma record_body_length e : length (record_body e) = (28 + payload_size e)%nat.
Proof.
  unfold record_body, payload_size. by rewrite length_app, record_prefix_length, bytes_of_length.
Qed.

Lemma record_length e : length (record_of e) = (28 + payload_size e + 4)%nat.
Proof. unfold record_of. by rewrite length_app, record_body_length, le_bytes_length. Qed.

Lemma record_body_ok e : bytes_ok (record_body e).
Proof.
  unfold record_body, record_prefix.
  rewrite !bytes_ok_app. repeat split; auto with choreo.
Qed.

(** The writes of [encode_record] produce that layout. *)
Lemma encode_record_layout e :
  encode_record e = if kMaxPayloadBytes <? Z.of_nat (payload_size e)
                    then Err (corrupt "event payload exceeds 1 MiB") else Ok (record_of e).
Proof.
  unfold encode_record. set (payload := bytes_of (canonical_event e)).
  assert (zsize payload = Z.of_nat (payload_size e)) as Hz
    by (unfold zsize, payload; by rewrite bytes_of_length).
  rewrite Hz. destruct (Z.ltb_spec kMaxPayloadBytes (Z.of_nat (payload_size e))) as [|Hmax]; [done|].
  assert (length payload = payload_size e) as Hl by (apply bytes_of_length).
  assert (wrap32 (Z.of_nat (payload_size e)) = Z.of_nat (length payload)) as Hw.
  { rewrite Hl. unfold wrap32, kMaxPayloadBytes in *. apply Z.mod_small. lia. }
  rewrite Hw. f_equal. unfold kRecordPrefix.
  assert (forall n, zeros (28 + n + 4) =
    zeros 4 ++ zeros 2 ++ zeros 2 ++ zeros 4 ++ zeros 8 ++ zeros 8 ++ zeros n ++ zeros 4) as Hzero.
  { intros n. rewrite zeros_app, (zeros_app 28). rewrite <- app_assoc. done. }
  rewrite Hzero. unfold write_u32, write_u16, write_u64. set (n := length payload).
  set (m := le_bytes 4 kRecordMagic). set (v := le_bytes 2 kVersion). set (z := le_bytes 2 0).
  set (l := le_bytes 4 (Z.of_nat n)). set (t := le_bytes 8 (ev_term e)).
  rewrite (write_field 4 0 [] (zeros 4) (zeros 2 ++ zeros 2 ++ zeros 4 ++ zeros 8 ++ zeros 8 ++
    zeros n ++ zeros 4)) by done.
  rewrite (write_field 2 4 m (zeros 2) (zeros 2 ++ zeros 4 ++ zeros 8 ++ zeros 8 ++
    zeros n ++ zeros 4)) by done.
  rewrite (write_field 2 6 (m ++ v) (zeros 2) (zeros 4 ++ zeros 8 ++ zeros 8 ++
    zeros n ++ zeros 4)) by (done || by rewrite <- !app_assoc).
  rewrite (write_field 4 8 (m ++ v ++ z) (zeros 4) (zeros 8 ++ zeros 8 ++
    zeros n ++ zeros 4)) by (done || by rewrite <- !app_assoc).
  rewrite (write_field 8 12 (m ++ v ++ z ++ l) (zeros 8) (zeros 8 ++
    zeros n ++ zeros 4)) by (done || by rewrite <- !app_assoc).
  rewrite (write_field 8 20 (m ++ v ++ z ++ l ++ t) (zeros 8) (zeros n ++ zeros 4))
    by (done || by rewrite <- !app_assoc).
  assert (forall tl : list Z, (m ++ v ++ z ++ l ++ t) ++ le_bytes 8 (ev_index e) ++ tl =
    record_prefix n (ev_term e) (ev_index e) ++ tl) as Hpre
    by (intros; unfold record_prefix; by rewrite <- !app_assoc).
  rewrite Hpre. set (p := record_prefix n (ev_term e) (ev_index e)).
  assert (length p = 28%nat) as Hp by apply record_prefix_length.
  rewrite (replace_field 28 p (zeros n) (zeros 4)); [|done|done|apply zeros_length].
  rewrite app_assoc.
  rewrite take_app_length' by (rewrite length_app, Hp; done).
  rewrite (write_field 4 (28 + n) (p ++ payload) (zeros 4) []);
    [by rewrite app_nil_r|by rewrite app_nil_r|by rewrite length_app, Hp|done].
Qed.

Definition fits (e : Event) : Prop := Z.of_nat (payload_size e) <= kMaxPayloadBytes.

Lemma kRecordPrefix_28 : kRecordPrefix = 28%nat.
Proof. done. Qed.

#[local] Opaque kRecordPrefix.

(** Reading the fields of a record prefix that lies anywhere in a file. *)
Section Prefix.
Variables (n : nat) (term index : Z) (pre post file : list Z).
Hypothesis Hfile : file = pre ++ record_prefix n term index ++ post.

Lemma prefix_magic : read_u32 file (length pre) = kRecordMagic.
Proof.
  eapply (read_field _ _ pre); [|done|by vm_compute].
  rewrite Hfile. unfold record_prefix. by rewrite <- !app_assoc.
Qed.

Lemma prefix_version : read_u16 file (length pre + 4) = kVersion.
Proof.
  eapply (read_field _ _ (pre ++ le_bytes 4 kRecordMagic)); [|layout|by vm_compute].
  rewrite Hfile. unfold record_prefix. by rewrite <- !app_assoc.
Qed.

Lemma prefix_payload_len :
  Z.of_nat n <= kMaxPayloadBytes -> read_u32 file (length pre + 8) = Z.of_nat n.
Proof.
  intros Hn. eapply (read_field _ _ (pre ++ le_bytes 4 kRecordMagic ++ le_bytes 2 kVersion ++
    le_bytes 2 0)); [|layout|].
  - rewrite Hfile. unfold record_prefix. by rewrite <- !app_assoc.
  - unfold kMaxPayloadBytes in Hn. simpl (256 ^ _). lia.
Qed.

Lemma prefix_term : u64 term -> read_u64 file (length pre + 12) = term.
Proof.
  intros Ht. eapply (read_field _ _ (pre ++ le_bytes 4 kRecordMagic ++ le_bytes 2 kVersion ++
    le_bytes 2 0 ++ le_bytes 4 (Z.of_nat n))); [|layout|].
  - rewrite Hfile. unfold record_prefix. by rewrite <- !app_assoc.
  - unfold u64, max_u64 in Ht. simpl (256 ^ _). lia.
Qed.

Lemma prefix_index : u64 index -> read_u64 file (length pre + 20) = index.
Proof.
  intros Hi. eapply (read_field _ _ (pre ++ le_bytes 4 kRecordMagic ++ le_bytes 2 kVersion ++
    le_bytes 2 0 ++ le_bytes 4 (Z.of_nat n) ++ le_bytes 8 term)); [|layout|].
  - rewrite Hfile. unfold record_prefix. by rewrite <- !app_assoc.
  - unfold u64, max_u64 in Hi. simpl (256 ^ _). lia.
Qed.
End Prefix.

(** One turn of the loop of [load], on a whole record and on a torn one. *)
Section Turn.
Variables (e : Event) (pre post : list Z).
Hypothesis He : event_ok e.
Hypothesis Hfit : fits e.
Let file := pre ++ record_of e ++ post.
Let payload := bytes_of (canonical_event e).

Lemma record_in_file :
  file = pre ++ record_prefix (payload_size e) (ev_term e) (ev_index e) ++
         payload ++ le_bytes 4 (crc32 (record_body e)) ++ post.
Proof.
  unfold file, record_of, record_body. rewrite bytes_of_length. by rewrite <- !app_assoc.
Qed.

Lemma record_payload :
  string_of (take (payload_size e) (drop (length pre + kRecordPrefix) file)) = canonical_event e.
Proof.
  rewrite (slice_field _ _ (pre ++ record_prefix (payload_size e) (ev_term e) (ev_index e))
    payload (le_bytes 4 (crc32 (record_body e)) ++ post)).
  - apply string_of_bytes_of.
  - rewrite record_in_file. by rewrite <- !app_assoc.
  - by rewrite length_app, record_prefix_length, kRecordPrefix_28.
  - unfold payload. by rewrite bytes_of_length.
Qed.

Lemma record_covered :
  take (kRecordPrefix + payload_size e) (drop (length pre) file) = record_body e.
Proof.
  apply (slice_field _ _ pre _ (le_bytes 4 (crc32 (record_body e)) ++ post)); [|done|].
  - unfold file, record_of. by rewrite <- !app_assoc.
  - by rewrite record_body_length, kRecordPrefix_28.
Qed.

Lemma record_checksum :
  read_u32 file (length pre + kRecordPrefix + payload_size e) = crc32 (record_body e).
Proof.
  eapply (read_field _ _ (pre ++ record_body e)).
  - unfold file, record_of. by rewrite <- !app_assoc.
  - rewrite length_app, record_body_length, kRecordPrefix_28. lia.
  - apply crc32_u32, record_body_ok.
Qed.

Lemma scan_record fuel events ends :
  scan (S fuel) file (length pre) events ends =
  scan fuel file (length (pre ++ record_of e)) (events ++ [e])
    (ends ++ [length (pre ++ record_of e)]).
Proof.
  assert (length file = length pre + (28 + payload_size e + 4) + length post)%nat as Hlen
    by (unfold file; rewrite !length_app, record_length; lia).
  destruct He as (_ & _ & _ & _ & _ & Hi & Ht & _).
  assert (u64 (ev_term e)) as Ht' by (unfold valid_term, u64 in *; lia).
  pose proof kRecordPrefix_28 as Hk. cbn [scan]. rewrite Hlen.
  destruct (Nat.ltb_spec (length pre) (length pre + (28 + payload_size e + 4) + length post))
    as [_|]; [|lia]. simpl negb. cbv iota.
  destruct (Nat.ltb_spec (length pre + (28 + payload_size e + 4) + length post - length pre)
    (kRecordPrefix + 4)) as [H|_]; [lia|].
  rewrite (prefix_magic _ _ _ _ _ _ record_in_file), (prefix_version _ _ _ _ _ _ record_in_file),
    (prefix_payload_len _ _ _ _ _ _ record_in_file) by done.
  rewrite !Z.eqb_refl. simpl (negb true || _). cbv iota.
  destruct (Z.ltb_spec kMaxPayloadBytes (Z.of_nat (payload_size e))) as [H|_];
    [unfold fits in Hfit; lia|].
  rewrite Nat2Z.id.
  destruct (Nat.ltb_spec (length pre + (28 + payload_size e + 4) + length post - length pre)
    (kRecordPrefix + payload_size e + 4)) as [H|_]; [lia|].
  rewrite record_covered, record_checksum, Z.eqb_refl. simpl negb. cbv iota.
  rewrite record_payload, parse_event_canonical by done.
  rewrite (prefix_index _ _ _ _ _ _ record_in_file), (prefix_term _ _ _ _ _ _ record_in_file)
    by done.
  rewrite !Z.eqb_refl. simpl (negb true || _). cbv iota.
  by rewrite length_app, record_length, Hk.
Qed.

(** A strict prefix of a record, at the end of the file. *)
Lemma scan_torn k fuel events ends :
  (k < length (record_of e))%nat ->
  scan (S fuel) (pre ++ take k (record_of e)) (length pre) events ends =
  Ok (mkScan events ends (length pre) (Z.of_nat k)).
Proof.
  intros Hkl. set (torn := pre ++ take k (record_of e)). pose proof kRecordPrefix_28 as Hk.
  assert (length torn = length pre + k)%nat as Hlen
    by (unfold torn; rewrite length_app, length_take; lia).
  cbn [scan]. rewrite Hlen. rewrite record_length in Hkl.
  destruct (Nat.ltb_spec (length pre) (length pre + k)) as [Hpos|Hz]; simpl negb; cbv iota;
    [|by replace k with 0%nat by lia].
  replace (length pre + k - length pre)%nat with k by lia.
  destruct (Nat.ltb_spec k (kRecordPrefix + 4)) as [_|H32]; [done|].
  assert (torn = pre ++ record_prefix (payload_size e) (ev_term e) (ev_index e) ++
    take (k - 28) (payload ++ le_bytes 4 (crc32 (record_body e)))) as Htorn.
  { unfold torn, record_of, record_body. rewrite bytes_of_length, <- app_assoc, take_app.
    rewrite take_ge by (rewrite record_prefix_length; lia). by rewrite record_prefix_length. }
  rewrite (prefix_magic _ _ _ _ _ _ Htorn), (prefix_version _ _ _ _ _ _ Htorn),
    (prefix_payload_len _ _ _ _ _ _ Htorn) by done.
  rewrite !Z.eqb_refl. simpl (negb true || _). cbv iota.
  destruct (Z.ltb_spec kMaxPayloadBytes (Z.of_nat (payload_size e))) as [H|_];
    [unfold fits in Hfit; lia|].
  rewrite Nat2Z.id.
  destruct (Nat.ltb_spec k (kRecordPrefix + payload_size e + 4)) as [_|H]; [done|lia].
Qed.
End Turn.

(** ** Whole files *)

Definition records (events : list Event) : list Z := concat (record_of <$> events).

(** Where each record ends, the first one starting at [from]. *)
Fixpoint ends_from (from : nat) (events : list Event) : list nat :=
  match events with
  | [] => []
  | e :: rest => (from + length (record_of e))%nat :: ends_from (from + length (record_of e)) rest
  end.

Definition storable (e : Event) : Prop := event_ok e /\ fits e.

Lemma records_app a b : records (a ++ b) = records a ++ records b.
Proof. unfold records. by rewrite fmap_app, concat_app. Qed.

Lemma encode_records_layout es : forall bytes, Forall fits es ->
  encode_records es bytes = Ok (bytes ++ records es).
Proof.
  induction es as [|e es IH]; intros bytes Hf; cbn [encode_records].
  - by rewrite app_nil_r.
  - inversion Hf as [|?? He Hes]; subst. rewrite encode_record_layout.
    unfold fits in He. destruct (Z.ltb_spec kMaxPayloadBytes (Z.of_nat (payload_size e))); [lia|].
    rewrite IH by done. unfold records. rewrite fmap_cons. cbn [concat].
    by rewrite app_assoc.
Qed.

Lemma scan_records es : forall fuel pre tail events ends,
  Forall storable es -> (length es <= fuel)%nat ->
  scan fuel (pre ++ records es ++ tail) (length pre) events ends =
  scan (fuel - length es) ((pre ++ records es) ++ tail) (length (pre ++ records es))
    (events ++ es) (ends ++ ends_from (length pre) es).
Proof.
  induction es as [|e es IH]; intros fuel pre tail events ends Hall Hfuel.
  - by rewrite !app_nil_r, Nat.sub_0_r.
  - inversion Hall as [|?? [He Hf] Hes]; subst. destruct fuel as [|fuel]; [simpl in Hfuel; lia|].
    replace (records (e :: es)) with (record_of e ++ records es) by done.
    rewrite <- (app_assoc (record_of e)). rewrite (scan_record e pre (records es ++ tail) He Hf).
    rewrite (app_assoc pre (record_of e)). rewrite IH; [|done|cbn [length] in Hfuel; lia].
    cbn [length Nat.sub ends_from]. rewrite <- !app_assoc. by rewrite (length_app pre (record_of e)).
Qed.

Lemma wal_file_header_value :
  wal_file_header = bytes_of "CHOSWAL1" ++ [1; 0; 0; 0] ++
                    le_bytes 4 (crc32 (bytes_of "CHOSWAL1" ++ [1; 0; 0; 0])).
Proof. vm_compute. reflexivity. Qed.

Lemma wal_file_header_length : length wal_file_header = kFileHeaderBytes.
Proof. vm_compute. reflexivity. Qed.

Lemma ends_from_length from es : length (ends_from from es) = length es.
Proof. revert from. induction es as [|e es IH]; intros from; [done|]. simpl. by rewrite IH. Qed.

Lemma records_length_ge es : (length es <= length (records es))%nat.
Proof.
  induction es as [|e es IH]; [done|]. replace (records (e :: es)) with (record_of e ++ records es) by done.
  rewrite length_app, record_length. simpl. lia.
Qed.

(** The header checks of [load] pass on any file that starts with the header. *)
Lemma load_scan_header rest :
  load_scan (wal_file_header ++ rest) =
  scan (length (wal_file_header ++ rest)) (wal_file_header ++ rest) kFileHeaderBytes [] [].
Proof.
  unfold load_scan. rewrite length_app, wal_file_header_length.
  destruct (Nat.ltb_spec (kFileHeaderBytes + length rest) kFileHeaderBytes) as [H|_]; [lia|].
  rewrite (take_field 8 kFileMagic (drop 8 wal_file_header ++ rest))
    by (done || by vm_compute; reflexivity).
  rewrite bool_decide_eq_true_2 by done.
  rewrite (take_field 12 (take 12 wal_file_header) (drop 12 wal_file_header ++ rest))
    by (done || by vm_compute; reflexivity).
  replace (read_u16 (wal_file_header ++ rest) 8) with kVersion.
  - replace (read_u32 (wal_file_header ++ rest) 12) with (crc32 (take 12 wal_file_header)).
    + by rewrite !Z.eqb_refl.
    + symmetry. apply (read_field 4 12 (take 12 wal_file_header) rest); by vm_compute.
  - symmetry. apply (read_field 2 8 (take 8 wal_file_header) (drop 10 wal_file_header ++ rest));
      by vm_compute.
Qed.

(** What a file of whole records and a torn one is loaded as. *)
Lemma load_torn es e k truncated :
  Forall storable es -> storable e -> (k < length (record_of e))%nat ->
  load ((wal_file_header ++ records es) ++ take k (record_of e)) truncated None =
  Ok (mkWal (wal_file_header ++ records es) es (ends_from kFileHeaderBytes es)
        (truncated + Z.of_nat k)).
Proof.
  intros Hes [He Hf] Hk. unfold load.
  assert (length ((wal_file_header ++ records es) ++ take k (record_of e)) =
          length (wal_file_header ++ records es) + k)%nat as Hlen
    by (rewrite length_app, length_take; lia).
  pose proof (records_length_ge es) as Hr. pose proof wal_file_header_length as Hh.
  rewrite <- (app_assoc wal_file_header), load_scan_header, <- Hh.
  rewrite scan_records; [|done|rewrite !length_app; lia].
  rewrite (app_assoc wal_file_header), Hlen.
  replace (length (wal_file_header ++ records es) + k - length es)%nat with
    (S (length (wal_file_header ++ records es) + k - length es - 1))
    by (rewrite length_app, Hh; unfold kFileHeaderBytes; lia).
  rewrite (scan_torn e _ Hf k _ _ _ Hk). cbn [sc_good_end sc_events sc_ends sc_truncated app].
  destruct (Nat.ltb_spec (length (wal_file_header ++ records es))
    (length (wal_file_header ++ records es) + k)) as [_|Hz].
  - by rewrite take_app_length.
  - replace k with 0%nat by lia. by rewrite take_0, app_nil_r.
Qed.

Lemma load_whole es truncated cut :
  Forall storable es ->
  load (wal_file_header ++ records es) truncated cut =
  Ok (mkWal (wal_file_header ++ records es) es (ends_from kFileHeaderBytes es) truncated).
Proof.
  intros Hes. unfold load. pose proof (records_length_ge es) as Hr.
  pose proof wal_file_header_length as Hh.
  rewrite <- (app_nil_r (records es)), load_scan_header, <- Hh.
  rewrite scan_records; [|done|rewrite !length_app; simpl; lia].
  rewrite !app_nil_r.
  replace (length (wal_file_header ++ records es) - length es)%nat with
    (S (length (wal_file_header ++ records es) - length es - 1))
    by (rewrite length_app, Hh; unfold kFileHeaderBytes; lia).
  cbn [scan]. rewrite Nat.ltb_irrefl. simpl negb. cbv iota.
  cbn [sc_good_end sc_events sc_ends sc_truncated app]. by rewrite Nat.ltb_irrefl, Z.add_0_r.
Qed.

(** ** The operations against a plain list of events *)

(** A log object and its file stand for the events [es]. *)
Definition represents (log : WriteAheadLog) (es : list Event) : Prop :=
  wal_file log = wal_file_header ++ records es /\ wal_events log = es /\
  wal_ends log = ends_from kFileHeaderBytes es /\ Forall storable es.

Inductive WalOp :=
| OpAppend (event : Event)
| OpTruncateAfter (index : Z)
| OpRewrite (events : list Event)
| OpReopen.

(** What each operation means for the list. *)
Definition log_spec (es : list Event) (op : WalOp) : list Event :=
  match op with
  | OpAppend e => es ++ [e]
  | OpTruncateAfter index => take (keep_count index es) es
  | OpRewrite events => events
  | OpReopen => es
  end.

(** The operations when no system call fails. *)
Definition wal_do (log : WriteAheadLog) (op : WalOp) : result Error WriteAheadLog :=
  match op with
  | OpAppend e => match wal_append log e Written with (log, None) => Ok log | (_, Some e) => Err e end
  | OpTruncateAfter index =>
      match truncate_after log index None None with (log, None) => Ok log | (_, Some e) => Err e end
  | OpRewrite events =>
      match rewrite_log log events Replaced None with
      | (log, None) => Ok log
      | (_, Some e) => Err e
      end
  | OpReopen => (wal_open (Some (wal_file log)) Accessed None).2
  end.

Fixpoint wal_run (log : WriteAheadLog) (ops : list WalOp) : result Error WriteAheadLog :=
  match ops with
  | [] => Ok log
  | op :: rest => let? log := wal_do log op in wal_run log rest
  end.

Definition op_storable (op : WalOp) : Prop :=
  match op with
  | OpAppend e => storable e
  | OpRewrite events => Forall storable events
  | _ => True
  end.

Lemma ends_from_last es : forall from,
  default from (list.last (ends_from from es)) = (from + length (records es))%nat.
Proof.
  induction es as [|e es IH]; intros from; [simpl; lia|].
  cbn [ends_from]. rewrite last_cons.
  replace (records (e :: es)) with (record_of e ++ records es) by done. rewrite length_app.
  specialize (IH (from + length (record_of e))%nat).
  destruct (list.last (ends_from _ es)) as [x|]; simpl in *; lia.
Qed.

Lemma ends_from_lookup es : forall from k, (k < length es)%nat ->
  ends_from from es !! k = Some (from + length (records (take (S k) es)))%nat.
Proof.
  induction es as [|e es IH]; intros from k Hk; [simpl in Hk; lia|].
  replace (records (take (S k) (e :: es))) with (record_of e ++ records (take k es)) by done.
  destruct k as [|k]; cbn [ends_from].
  - simpl. by rewrite app_nil_r.
  - simpl in Hk. cbn [lookup list_lookup]. rewrite IH by lia. rewrite length_app. f_equal. lia.
Qed.

Lemma ends_from_app a b from :
  ends_from from (a ++ b) = ends_from from a ++ ends_from (from + length (records a)) b.
Proof.
  revert from. induction a as [|e a IH]; intros from; [by rewrite Nat.add_0_r|].
  replace (records (e :: a)) with (record_of e ++ records a) by done.
  cbn [app ends_from]. rewrite IH, length_app. by rewrite Nat.add_assoc.
Qed.

Lemma keep_count_le index es : (keep_count index es <= length es)%nat.
Proof. induction es as [|e es IH]; simpl; [lia|]. destruct (_ <=? _); simpl; lia. Qed.

Lemma storable_record e : storable e -> encode_record e = Ok (record_of e).
Proof.
  intros [_ Hf]. rewrite encode_record_layout. unfold fits in Hf.
  destruct (Z.ltb_spec kMaxPayloadBytes (Z.of_nat (payload_size e))); [lia|done].
Qed.

Lemma storable_fits es : Forall storable es -> Forall fits es.
Proof. intros H. eapply list.Forall_impl; [exact H|]. by intros e [_ Hf]. Qed.

Lemma encode_wal_layout es : Forall storable es ->
  encode_wal es = Ok (wal_file_header ++ records es).
Proof. intros H. by apply encode_records_layout, storable_fits. Qed.

Lemma load_represents es truncated cut log : Forall storable es ->
  load (wal_file_header ++ records es) truncated cut = Ok log -> represents log es.
Proof. intros H. rewrite load_whole by done. intros [= <-]. done. Qed.

Lemma append_represents log es e : represents log es -> storable e ->
  exists log', wal_append log e Written = (log', None) /\ represents log' (es ++ [e]).
Proof.
  intros (Hf & He & Hn & Hs) Hst. unfold wal_append. rewrite storable_record by done.
  eexists. split; [done|]. unfold represents. cbn [wal_file wal_events wal_ends].
  rewrite Hf, He, Hn, records_app, ends_from_last, ends_from_app, <- app_assoc.
  replace (records [e]) with (record_of e) by (unfold records; simpl; by rewrite app_nil_r).
  repeat split. by apply Forall_app_2; [|constructor].
Qed.

Lemma truncate_represents log es index : represents log es ->
  exists log', truncate_after log index None None = (log', None) /\
               represents log' (take (keep_count index es) es).
Proof.
  intros (Hf & He & Hn & Hs). unfold truncate_after. rewrite He. set (keep := keep_count index es).
  eexists. split; [done|]. unfold represents. cbn [wal_file wal_events wal_ends].
  assert ((match keep with O => kFileHeaderBytes
           | S k => default kFileHeaderBytes (wal_ends log !! k) end) =
          length (wal_file_header ++ records (take keep es))) as ->.
  { rewrite length_app, wal_file_header_length.
    pose proof (keep_count_le index es) as Hk. fold keep in Hk.
    destruct keep as [|k]; [done|]. rewrite Hn, ends_from_lookup by lia. done. }
  rewrite Hf, Hn. repeat split.
  - rewrite <- (take_drop keep es) at 2. rewrite records_app, (app_assoc wal_file_header).
    by rewrite resize_le, take_app_length by (rewrite !length_app; lia).
  - rewrite <- (take_drop keep es) at 1. rewrite ends_from_app, take_app_length'; [done|].
    rewrite ends_from_length, length_take. pose proof (keep_count_le index es). unfold keep. lia.
  - by apply Forall_take.
Qed.

Lemma wal_do_represents log es op : represents log es -> op_storable op ->
  exists log', wal_do log op = Ok log' /\ represents log' (log_spec es op).
Proof.
  intros Hrep Hop. destruct op as [e|index|events|]; cbn [wal_do log_spec op_storable] in *.
  - destruct (append_represents log es e Hrep Hop) as (log' & -> & H). eauto.
  - destruct (truncate_represents log es index Hrep) as (log' & -> & H). eauto.
  - unfold rewrite_log, write_atomic. rewrite encode_wal_layout by done. cbv iota zeta.
    change (wal_file (mkWal (default [] (Some ?x)) _ _ _)) with x. rewrite load_whole by done. eexists. by split.
  - destruct Hrep as (Hf & _ & _ & Hs). unfold wal_open, load_found. cbn [default from_option id]. rewrite Hf.
    rewrite load_whole by done. eexists. by split.
Qed.

Lemma wal_run_represents ops : forall log es, represents log es -> Forall op_storable ops ->
  exists log', wal_run log ops = Ok log' /\ represents log' (foldl log_spec es ops).
Proof.
  induction ops as [|op ops IH]; intros log es Hrep Hops; [by exists log|].
  inversion Hops as [|?? Hop Hrest]; subst. cbn [wal_run foldl].
  destruct (wal_do_represents log es op Hrep Hop) as (log' & -> & H). by apply IH.
Qed.

Definition fresh_log : WriteAheadLog := mkWal wal_file_header [] [] 0.

Lemma wal_open_fresh : wal_open None Accessed None = (Some wal_file_header, Ok fresh_log).
Proof. vm_compute. reflexivity. Qed.

(** A log that is opened came from bytes, and leaves its own file. *)
Lemma wal_open_loaded found access cut file log :
  wal_open found access cut = (file, Ok log) -> file = Some (wal_file log) /\ exists bytes, load bytes 0 cut = Ok log.
Proof.
  assert (forall bytes, load_found bytes cut = (file, Ok log) ->
    file = Some (wal_file log) /\ exists bytes, load bytes 0 cut = Ok log) as Hl.
  { intros bytes. unfold load_found. destruct (load bytes 0 cut) as [l|] eqn:E; [|done]. intros [= <- <-]. eauto. }
  unfold wal_open. destruct access as [|x|k x|x], found as [bytes|]; intros H;
    first [exact (Hl _ H)|discriminate (f_equal snd H)].
Qed.

Lemma fresh_represents : represents fresh_log [].
Proof. split; [|split; [|split]]; [vm_compute; reflexivity|done|done|constructor]. Qed.

(** C27: Appending, truncating, rewriting and reopening, in any order and any
    number, succeed and leave a log whose file is the encoding of exactly the
    events a plain list would hold, with the recorded end of every record. *)
Theorem wal_implements_log ops :
  Forall op_storable ops ->
  exists log, (let? l := (wal_open None Accessed None).2 in wal_run l ops) = Ok log /\
    wal_events log = foldl log_spec [] ops /\
    encode_wal (foldl log_spec [] ops) = Ok (wal_file log) /\
    wal_ends log = ends_from kFileHeaderBytes (foldl log_spec [] ops).
Proof.
  intros Hops. rewrite wal_open_fresh. cbn [snd].
  destruct (wal_run_represents ops _ _ fresh_represents Hops) as (log & Hr & Hf & He & Hn & Hs).
  exists log. rewrite Hr. by rewrite encode_wal_layout, Hf, He, Hn by done.
Qed.

Lemma demo_event_storable : storable demo_event.
Proof. split; [apply demo_event_ok|]. vm_compute. congruence. Qed.

(** Three appends, a truncation that removes them, and one more append. *)
Definition demo_ops : list WalOp :=
  [OpAppend demo_event; OpAppend demo_event; OpReopen; OpTruncateAfter 3; OpAppend demo_event].

Lemma wal_implements_log_witness :
  exists log, (let? l := (wal_open None Accessed None).2 in wal_run l demo_ops) = Ok log /\
    wal_events log = [demo_event] /\ wal_ends log = [156%nat].
Proof.
  assert (Forall op_storable demo_ops) as Hops
    by (repeat constructor; apply demo_event_storable).
  destruct (wal_implements_log demo_ops Hops) as (log & Hrun & He & _ & Hn).
  exists log. split; [exact Hrun|]. split; [exact He|]. rewrite Hn. vm_compute. reflexivity.
Defined.

(** An append that fails, after however many bytes reached the file, loses
    nothing that was there and invents nothing: the object keeps its events,
    and reopening its file gives them again, with the torn bytes cut away and
    counted; the new event is found only when its whole record was written. *)
Lemma failed_append_reopens log es e k error :
  represents log es -> storable e ->
  let log' := fst (wal_append log e (Failed k error)) in
  snd (wal_append log e (Failed k error)) = Some error /\
  wal_events log' = es /\
  exists reopened, (wal_open (Some (wal_file log')) Accessed None).2 = Ok reopened /\
    if (k <? length (record_of e))%nat
    then represents reopened es /\ wal_truncated reopened = Z.of_nat k
    else represents reopened (es ++ [e]) /\ wal_truncated reopened = 0.
Proof.
  intros (Hf & He & Hn & Hs) Hst. unfold wal_append. rewrite storable_record by done.
  cbn [fst snd wal_events wal_file]. repeat split; [done|]. unfold wal_open, load_found. cbn [default from_option id].
  rewrite Hf. destruct (Nat.ltb_spec k (length (record_of e))) as [Hk|Hk].
  - rewrite load_torn by done. eexists. repeat split; done.
  - rewrite take_ge by done.
    replace ((wal_file_header ++ records es) ++ record_of e)
      with (wal_file_header ++ records (es ++ [e])).
    + assert (Forall storable (es ++ [e])) as Hall by (by apply Forall_app_2; [|constructor]).
      rewrite load_whole by done. eexists. repeat split; done.
    + rewrite records_app, <- app_assoc. unfold records at 2. simpl. by rewrite app_nil_r.
Qed.

(** ** Loading a loaded file again

    Whatever bytes a file has: the part of it that [load] keeps is loaded with
    the same records, and nothing more is cut. *)

Lemma byte_at_take g bs p : (p < g)%nat -> byte_at (take g bs) p = byte_at bs p.
Proof. intros H. unfold byte_at. by rewrite lookup_take_lt. Qed.

Lemma read_loop_take count : forall i g bs offset value, (offset + i + count <= g)%nat ->
  read_loop count i (take g bs) offset value = read_loop count i bs offset value.
Proof.
  induction count as [|count IH]; intros i g bs offset value H; cbn; [done|].
  rewrite byte_at_take by lia. apply IH. lia.
Qed.

Lemma take_drop_take n k g (bs : list Z) : (k + n <= g)%nat -> take n (drop k (take g bs)) = take n (drop k bs).
Proof. intros H. rewrite !take_drop_commute, take_take. by rewrite Nat.min_l by lia. Qed.

Lemma scan_at_end fuel file offset events ends : (length file <= offset)%nat ->
  scan fuel file offset events ends = Ok (mkScan events ends offset 0).
Proof. intros H. destruct fuel as [|fuel]; [done|]. cbn [scan]. cbv zeta. by rewrite (proj2 (Nat.ltb_ge _ _)) by lia. Qed.

Lemma scan_prefix fuel : forall file offset events ends s, scan fuel file offset events ends = Ok s ->
  (offset <= length file)%nat ->
  (offset <= sc_good_end s <= length file)%nat /\
  forall fuel', (sc_good_end s - offset <= fuel')%nat ->
    scan fuel' (take (sc_good_end s) file) offset events ends = Ok (mkScan (sc_events s) (sc_ends s) (sc_good_end s) 0).
Proof.
  induction fuel as [|fuel IH]; intros file offset events ends s Hs Ho.
  - cbn in Hs. injection Hs as <-. cbn [sc_good_end sc_events sc_ends]. split; [lia|]. intros fuel' _.
    apply scan_at_end. rewrite length_take. lia.
  - assert (forall t, s = mkScan events ends offset t ->
      (offset <= sc_good_end s <= length file)%nat /\ forall fuel', (sc_good_end s - offset <= fuel')%nat ->
      scan fuel' (take (sc_good_end s) file) offset events ends = Ok (mkScan (sc_events s) (sc_ends s) (sc_good_end s) 0)) as Hend.
    { intros t ->. cbn [sc_good_end sc_events sc_ends]. split; [lia|]. intros fuel' _. apply scan_at_end. rewrite length_take. lia. }
    cbn [scan] in Hs. cbv zeta in Hs. destruct (negb (offset <? length file)%nat) eqn:E1; [injection Hs as <-; by eapply Hend|].
    destruct (_ <? kRecordPrefix + 4)%nat eqn:E2; [injection Hs as <-; by eapply Hend|].
    destruct (_ || _) eqn:E3; [destruct (has_magic _); [done|injection Hs as <-; by eapply Hend]|].
    destruct (kMaxPayloadBytes <? _) eqn:E4; [done|].
    set (n := Z.to_nat (read_u32 file (offset + 8))) in *. set (total := (kRecordPrefix + n + 4)%nat) in *.
    destruct (_ <? total)%nat eqn:E5; [injection Hs as <-; by eapply Hend|].
    destruct (negb (crc32 _ =? _)) eqn:E6; [done|]. destruct (parse_event _) as [event|] eqn:E7; [|done].
    match type of Hs with (if ?b then _ else _) = _ => destruct b eqn:E8; [done|] end. apply Nat.ltb_ge in E2, E5. apply IH in Hs as [Hg Hs]; [|unfold total; lia].
    assert (kRecordPrefix = 28%nat) as Hk by reflexivity. split; [lia|]. intros [|fuel'] Hf; [unfold total in Hg; lia|].
    cbn [scan]. cbv zeta. rewrite length_take_le by lia. set (g := sc_good_end s) in *.
    rewrite (proj2 (Nat.ltb_lt offset g)) by (unfold total in Hg; lia). cbn [negb].
    rewrite (proj2 (Nat.ltb_ge (g - offset) (kRecordPrefix + 4))) by (unfold total in Hg; lia).
    unfold read_u32, read_u16, read_u64 in *. rewrite !(read_loop_take _ 0 g) by (fold (read_u32 file (offset + 8)); unfold total in Hg; lia).
    rewrite E3, E4. fold n. fold total. rewrite (proj2 (Nat.ltb_ge (g - offset) total)) by lia.
    rewrite !take_drop_take, !(read_loop_take _ 0 g) by (unfold total in Hg; lia). rewrite E6, E7, E8. apply Hs. unfold total in *. lia.
Qed.

Lemma load_again file truncated cut log cut' : load file truncated cut = Ok log ->
  load (wal_file log) 0 cut' = Ok (mkWal (wal_file log) (wal_events log) (wal_ends log) 0).
Proof.
  unfold load, load_scan. intros H.
  destruct (length file <? kFileHeaderBytes)%nat eqn:E1; [done|]. apply Nat.ltb_ge in E1.
  destruct (negb (bool_decide (take 8 file = _))) eqn:E2; [done|].
  destruct (negb (read_u16 file 8 =? kVersion)) eqn:E3; [done|]. destruct (negb (crc32 (take 12 file) =? _)) eqn:E4; [done|].
  destruct (scan _ _ _ _ _) as [s|] eqn:Es; [|done]. apply scan_prefix in Es as [Hg Hs]; [|done]. set (g := sc_good_end s) in *.
  assert (exists t, log = mkWal (take g file) (sc_events s) (sc_ends s) t) as [t ->].
  { cbv iota in H. fold g in H. destruct (g <? length file)%nat eqn:El; [destruct cut; [done|]; injection H as <-; by eexists|].
    apply Nat.ltb_ge in El. injection H as <-. rewrite take_ge by done. by eexists. }
  cbn [wal_file wal_events wal_ends]. assert (kFileHeaderBytes = 16%nat) as Hk by reflexivity.
  rewrite length_take_le by lia. rewrite (proj2 (Nat.ltb_ge g kFileHeaderBytes)) by lia.
  rewrite (take_take file 8), (take_take file 12), (Nat.min_l 8 g), (Nat.min_l 12 g) by lia.
  unfold read_u16, read_u32 in *. rewrite !(read_loop_take _ 0 g) by lia. rewrite E2, E3, E4.
  rewrite Hs by lia. cbv beta iota. cbn [sc_good_end sc_events sc_ends sc_truncated]. by rewrite Nat.ltb_irrefl.
Qed.
