(* ===== verification/Metadata.v ===== *)
(** * Node metadata

    [cpp-runtime/src/storage/metadata.cpp]: term, vote and commit index in a
    checksummed file that is replaced atomically. *)

From S2P Require Import Prelude Text Types Bytes.

Record NodeMetadata := mkMetadata {
  md_term : Z;
  md_commit_index : Z;
  md_voted_for : option string;
}.

Definition default_metadata : NodeMetadata := mkMetadata 1 0 None.

Definition meta_error (detail : string) : Error := mkError StoreError detail.

Definition encode_metadata (metadata : NodeMetadata) : result Error (list Z) :=
  let voted := bytes_of (default "" (md_voted_for metadata)) in
  if 64 <? zsize voted then Err (meta_error "voted_for exceeds 64 characters")
  else
    let bytes := zeros (32 + length voted) in
    let bytes := replace_at bytes 0 (bytes_of "CHOSMETA") in
    let bytes := write_u16 bytes 8 1 in
    let bytes := write_u16 bytes 10 (zsize voted) in
    let bytes := write_u64 bytes 12 (md_term metadata) in
    let bytes := write_u64 bytes 20 (md_commit_index metadata) in
    let bytes := if bool_decide (voted = []) then bytes else replace_at bytes 28 voted in
    Ok (write_u32 bytes (length bytes - 4) (crc32 (take (length bytes - 4) bytes))).

(** [load_metadata] on the contents of an existing file. *)
Definition decode_metadata (file : list Z) : result Error NodeMetadata :=
  if (length file <? 32)%nat then Err (meta_error "metadata file is incomplete")
  else if negb (bool_decide (take 8 file = bytes_of "CHOSMETA"))
  then Err (meta_error "metadata magic is invalid")
  else if negb (read_u16 file 8 =? 1) then Err (meta_error "metadata version is unsupported")
  else
    let voted_len := read_u16 file 10 in
    if (64 <? voted_len) || negb (length file =? 32 + Z.to_nat voted_len)%nat
    then Err (meta_error "metadata length is invalid")
    else if negb (crc32 (take (length file - 4) file) =? read_u32 file (length file - 4))
    then Err (meta_error "metadata checksum mismatch")
    else
      match parse_term (read_u64 file 12), parse_index (read_u64 file 20) with
      | Ok term, Ok commit =>
          if 0 <? voted_len
          then let? voted := parse_id (string_of (take (Z.to_nat voted_len) (drop 28 file))) in
               Ok (mkMetadata term commit (Some voted))
          else Ok (mkMetadata term commit None)
      | _, _ => Err (meta_error "metadata contains an invalid term or index")
      end.

(** [load_metadata]: a missing file is the initial metadata. *)
Definition load_metadata (file : option (list Z)) : result Error NodeMetadata :=
  match file with None => Ok default_metadata | Some bytes => decode_metadata bytes end.

Definition store_metadata (file : option (list Z)) (metadata : NodeMetadata)
    (outcome : AtomicWrite) : option (list Z) * option Error :=
  match encode_metadata metadata with
  | Err e => (file, Some e)
  | Ok bytes => write_atomic file bytes outcome
  end.

(** ** Round trip *)

Definition metadata_ok (m : NodeMetadata) : Prop :=
  valid_term (md_term m) /\ u64 (md_commit_index m) /\
  match md_voted_for m with None => True | Some id => valid_id id = true end.

Definition metadata_body (term commit : Z) (voted : list Z) : list Z :=
  bytes_of "CHOSMETA" ++ le_bytes 2 1 ++ le_bytes 2 (zsize voted) ++ le_bytes 8 term ++
  le_bytes 8 commit ++ voted.

Lemma metadata_body_length t c v : length (metadata_body t c v) = (28 + length v)%nat.
Proof. unfold metadata_body. autorewrite with bytes. simpl. lia. Qed.

Lemma metadata_body_ok t c v : bytes_ok v -> bytes_ok (metadata_body t c v).
Proof.
  intros Hv. unfold metadata_body. rewrite !bytes_ok_app.
  repeat split; auto with choreo.
Qed.

Lemma encode_metadata_layout m :
  (String.length (default "" (md_voted_for m)) <= 64)%nat ->
  encode_metadata m = Ok (seal (metadata_body (md_term m) (md_commit_index m)
                                  (bytes_of (default "" (md_voted_for m))))).
Proof.
  intros Hlen. unfold encode_metadata. cbv zeta. set (v := bytes_of (default "" (md_voted_for m))).
  assert (length v = String.length (default "" (md_voted_for m))) as Hv by apply bytes_of_length.
  destruct (Z.ltb_spec 64 (zsize v)) as [H|_]; [unfold zsize in H; lia|].
  set (n := length v). set (g := bytes_of "CHOSMETA"). set (o := le_bytes 2 1).
  set (l := le_bytes 2 (zsize v)). set (t := le_bytes 8 (md_term m)).
  set (c := le_bytes 8 (md_commit_index m)).
  assert (zeros (32 + n) = zeros 8 ++ zeros 2 ++ zeros 2 ++ zeros 8 ++ zeros 8 ++ zeros n ++ zeros 4)
    as Hz.
  { replace (32 + n)%nat with (28 + n + 4)%nat by lia. rewrite !zeros_app, <- app_assoc. done. }
  rewrite Hz. unfold write_u16, write_u64.
  rewrite (replace_field 0 [] (zeros 8) (zeros 2 ++ zeros 2 ++ zeros 8 ++ zeros 8 ++ zeros n ++
    zeros 4)) by done.
  rewrite (write_field 2 8 g (zeros 2) (zeros 2 ++ zeros 8 ++ zeros 8 ++ zeros n ++ zeros 4))
    by done.
  rewrite (write_field 2 10 (g ++ o) (zeros 2) (zeros 8 ++ zeros 8 ++ zeros n ++ zeros 4))
    by (done || by rewrite <- !app_assoc).
  rewrite (write_field 8 12 (g ++ o ++ l) (zeros 8) (zeros 8 ++ zeros n ++ zeros 4))
    by (done || by rewrite <- !app_assoc).
  rewrite (write_field 8 20 (g ++ o ++ l ++ t) (zeros 8) (zeros n ++ zeros 4))
    by (done || by rewrite <- !app_assoc).
  fold c. set (buffer := (g ++ o ++ l ++ t) ++ c ++ zeros n ++ zeros 4).
  assert ((if bool_decide (v = []) then buffer else replace_at buffer 28 v) =
          metadata_body (md_term m) (md_commit_index m) v ++ zeros 4) as ->.
  { unfold metadata_body. fold g o l t c. case_bool_decide as Hnil.
    - unfold buffer, n. rewrite Hnil. by rewrite <- !app_assoc.
    - rewrite (replace_field 28 (g ++ o ++ l ++ t ++ c) (zeros n) (zeros 4));
        [by rewrite <- !app_assoc|unfold buffer; by rewrite <- !app_assoc|done|apply zeros_length]. }
  rewrite length_app, zeros_length, Nat.add_sub, take_app_length. by rewrite write_seal.
Qed.

(** Reading the fields back. *)
Section Fields.
Variables (term commit : Z) (voted rest file : list Z).
Hypothesis Hterm : u64 term.
Hypothesis Hcommit : u64 commit.
Hypothesis Hvoted : (length voted <= 64)%nat.
Hypothesis Hfile : file = metadata_body term commit voted ++ rest.

Ltac field before :=
  eapply (read_field _ _ before);
  [ rewrite Hfile; unfold metadata_body; by rewrite <- ?app_assoc
  | layout
  | unfold u64, max_u64, zsize in *; simpl (256 ^ _); lia ].

Lemma metadata_fields :
  take 8 file = bytes_of "CHOSMETA" /\ read_u16 file 8 = 1 /\
  read_u16 file 10 = zsize voted /\ read_u64 file 12 = term /\ read_u64 file 20 = commit /\
  take (length voted) (drop 28 file) = voted.
Proof.
  split; [|split; [|split; [|split; [|split]]]].
  - eapply take_field; [rewrite Hfile; unfold metadata_body; by rewrite <- ?app_assoc|done].
  - field (bytes_of "CHOSMETA").
  - field (bytes_of "CHOSMETA" ++ le_bytes 2 1).
  - field (bytes_of "CHOSMETA" ++ le_bytes 2 1 ++ le_bytes 2 (zsize voted)).
  - field (bytes_of "CHOSMETA" ++ le_bytes 2 1 ++ le_bytes 2 (zsize voted) ++ le_bytes 8 term).
  - apply (slice_field _ _ (bytes_of "CHOSMETA" ++ le_bytes 2 1 ++ le_bytes 2 (zsize voted) ++
      le_bytes 8 term ++ le_bytes 8 commit) voted rest); [|layout|done].
    rewrite Hfile. unfold metadata_body. by rewrite <- ?app_assoc.
Qed.
End Fields.

Lemma decode_metadata_body term commit (voted : option string) :
  metadata_ok (mkMetadata term commit voted) ->
  decode_metadata (seal (metadata_body term commit (bytes_of (default "" voted)))) =
  Ok (mkMetadata term commit voted).
Proof.
  intros (Ht & Hc & Hv). cbn [md_term md_commit_index md_voted_for] in *.
  set (v := bytes_of (default "" voted)). set (body := metadata_body term commit v).
  assert (length v <= 64)%nat as Hl.
  { unfold v. rewrite bytes_of_length. destruct voted as [id|]; simpl; [|lia].
    unfold valid_id, kMaxIdLength in Hv. bool_props. lia. }
  assert (u64 term) as Ht' by (unfold valid_term, u64 in *; lia).
  assert (bytes_ok body) as Hb by (apply metadata_body_ok, bytes_of_ok).
  assert (length body = 28 + length v)%nat as Hlen by apply metadata_body_length.
  pose proof (seal_length body) as Hsl. unfold decode_metadata.
  assert (seal body = metadata_body term commit v ++ le_bytes 4 (crc32 body)) as Hs by done.
  destruct (metadata_fields term commit v _ _ Ht' Hc Hl Hs) as (-> & -> & -> & -> & -> & Hvote).
  destruct (Nat.ltb_spec (length (seal body)) 32) as [H|_]; [lia|].
  rewrite bool_decide_eq_true_2 by done. rewrite Z.eqb_refl. decided.
  destruct (Z.ltb_spec 64 (zsize v)) as [H|_]; [unfold zsize in H; lia|]. decided.
  change (zsize v) with (Z.of_nat (length v)). rewrite Nat2Z.id.
  destruct (Nat.eqb_spec (length (seal body)) (32 + length v)) as [_|H]; [|lia]. decided.
  rewrite seal_size, seal_body, seal_checksum, Z.eqb_refl by done. decided.
  rewrite parse_term_valid by done. unfold parse_index. cbv iota beta.
  rewrite Hvote. unfold v. rewrite string_of_bytes_of, bytes_of_length.
  destruct voted as [id|]; simpl default.
  - rewrite (parse_id_valid id Hv).
    destruct (Z.ltb_spec 0 (Z.of_nat (String.length id))) as [_|H]; [reflexivity|].
    destruct id; [discriminate Hv|simpl in H; lia].
  - reflexivity.
Qed.

Lemma encode_metadata_ok m : metadata_ok m ->
  encode_metadata m = Ok (seal (metadata_body (md_term m) (md_commit_index m)
                                  (bytes_of (default "" (md_voted_for m))))).
Proof.
  intros (_ & _ & Hv). apply encode_metadata_layout. destruct (md_voted_for m) as [id|]; simpl; [|lia].
  unfold valid_id, kMaxIdLength in Hv. bool_props. lia.
Qed.

#[export] Instance metadata_codec : Codec NodeMetadata.
Proof.
  refine {| codec_ok := metadata_ok; encode_with := encode_metadata;
            decode_with := decode_metadata |}.
  - intros m Hm. eexists. by apply encode_metadata_ok.
  - intros [term commit voted] bytes Hm. rewrite encode_metadata_ok by done. intros [= <-].
    by apply decode_metadata_body.
Defined.

(** After writing valid metadata over a readable file, whichever way the
    write ends, the file is read back as either the old or the new term, vote
    and commit index, never as anything else; and it is the new one when the
    write reports success. *)
Lemma metadata_old_or_new file old m outcome :
  load_metadata file = Ok old -> metadata_ok m ->
  let '(file', error) := store_metadata file m outcome in
  (load_metadata file' = Ok old \/ load_metadata file' = Ok m) /\
  (error = None -> load_metadata file' = Ok m).
Proof. exact (store_then_load default_metadata file old m outcome). Qed.

Definition demo_metadata : NodeMetadata := mkMetadata 7 42 (Some "node-2").

Lemma metadata_old_or_new_witness :
  load_metadata (fst (store_metadata None demo_metadata Replaced)) = Ok demo_metadata.
Proof.
  assert (metadata_ok demo_metadata) as Hok by (repeat split; vm_compute; congruence).
  pose proof (metadata_old_or_new None default_metadata demo_metadata Replaced eq_refl Hok) as H.
  destruct (store_metadata None demo_metadata Replaced) as [file' error] eqn:E. cbn [fst].
  apply H. assert (snd (store_metadata None demo_metadata Replaced) = None) as Hn
    by (vm_compute; reflexivity).
  rewrite E in Hn. exact Hn.
Defined.

(** Metadata that is read is well formed, whatever the bytes of the file. *)
Lemma loaded_metadata_ok file m : (forall bytes, file = Some bytes -> bytes_ok bytes) ->
  load_metadata file = Ok m -> metadata_ok m.
Proof.
  destruct file as [bytes|]; [|intros _ [= <-]; by vm_compute]. intros Hb H. specialize (Hb bytes eq_refl). cbn in H.
  unfold decode_metadata in H. repeat (case_match; try done).
  all: pose proof (read_u64_range bytes 12 Hb); pose proof (read_u64_range bytes 20 Hb).
  all: unfold parse_term, parse_index in *; repeat case_match; simplify_eq; unfold metadata_ok, valid_term, u64 in *; cbn in *.
  all: repeat match goal with E : parse_id _ = Ok _ |- _ => apply parse_id_ok in E as [-> ?] end; bool_props; split_and!; done || lia.
Qed.
