(* ===== verification/Frame.v ===== *)
(** * Protocol frames

    [cpp-runtime/include/choreoos/protocol/frame.hpp] and
    [src/protocol/frame.cpp]: the length-prefixed, checksummed frame around
    one message, and what a reader of a byte stream relies on. *)

From S2P Require Import Prelude Text Types Bytes.

Definition kFrameMagic : list Z := bytes_of "CHOS".
Definition kProtocolMajor : Z := 1.
Definition kProtocolMinor : Z := 0.
Definition kFrameHeaderBytes : nat := 20.
Definition kMaxFramePayload : Z := 1048576.

(** [MessageType] is a 16-bit enumeration; the decoder casts whatever number
    it reads, so a type is that number. *)
Definition MessageType := Z.
Definition tHandshake : MessageType := 1.
Definition tAppendEntries : MessageType := 2.
Definition tAppendEntriesResponse : MessageType := 3.
Definition tRequestVote : MessageType := 4.
Definition tRequestVoteResponse : MessageType := 5.
Definition tInstallSnapshot : MessageType := 6.
Definition tInstallSnapshotResponse : MessageType := 7.
Definition tProtocolError : MessageType := 8.
Definition tClientCommand : MessageType := 9.
Definition tClientResponse : MessageType := 10.
Definition tStatusQuery : MessageType := 11.
Definition tStatusResponse : MessageType := 12.
Definition tManagementQuery : MessageType := 13.
Definition tManagementReply : MessageType := 14.

Record Frame := mkFrame {
  fr_type : MessageType;
  fr_correlation : Z;
  fr_payload : list Z;
}.

Record FrameHeader := mkFrameHeader {
  fh_type : MessageType;
  fh_correlation : Z;
  fh_payload_length : Z;
}.

Definition frame_error (detail : string) : Error := mkError ProtocolError detail.

Definition header_from (data : list Z) : result Error FrameHeader :=
  if negb (byte_at data 0 =? byte_at kFrameMagic 0) ||
     negb (byte_at data 1 =? byte_at kFrameMagic 1) ||
     negb (byte_at data 2 =? byte_at kFrameMagic 2) ||
     negb (byte_at data 3 =? byte_at kFrameMagic 3)
  then Err (frame_error "frame magic is invalid")
  else if negb (byte_at data 4 =? kProtocolMajor)
  then Err (frame_error "protocol major version is unsupported")
  else
    let length := read_u32 data 16 in
    if kMaxFramePayload <? length then Err (frame_error "frame payload exceeds 1 MiB")
    else Ok (mkFrameHeader (read_u16 data 6) (read_u64 data 8) length).

Definition encode_frame (frame : Frame) : result Error (list Z) :=
  let payload := fr_payload frame in
  if kMaxFramePayload <? zsize payload then Err (frame_error "frame payload exceeds 1 MiB")
  else
    let bytes := zeros (kFrameHeaderBytes + length payload + 4) in
    let bytes := <[0%nat := byte_at kFrameMagic 0]> bytes in
    let bytes := <[1%nat := byte_at kFrameMagic 1]> bytes in
    let bytes := <[2%nat := byte_at kFrameMagic 2]> bytes in
    let bytes := <[3%nat := byte_at kFrameMagic 3]> bytes in
    let bytes := <[4%nat := kProtocolMajor]> bytes in
    let bytes := <[5%nat := kProtocolMinor]> bytes in
    let bytes := write_u16 bytes 6 (fr_type frame) in
    let bytes := write_u64 bytes 8 (fr_correlation frame) in
    let bytes := write_u32 bytes 16 (zsize payload) in
    let bytes := if bool_decide (payload = []) then bytes
                 else replace_at bytes kFrameHeaderBytes payload in
    Ok (write_u32 bytes (length bytes - 4) (crc32 (take (length bytes - 4) bytes))).

Definition peek_header (data : list Z) : result Error FrameHeader :=
  if (length data <? kFrameHeaderBytes)%nat
  then Err (frame_error "frame header is incomplete")
  else header_from data.

Definition decode_frame (data : list Z) : result Error Frame :=
  if (length data <? kFrameHeaderBytes + 4)%nat then Err (frame_error "frame is incomplete")
  else
    let? header := header_from data in
    let total := (kFrameHeaderBytes + Z.to_nat (fh_payload_length header) + 4)%nat in
    if (length data <? total)%nat then Err (frame_error "frame is incomplete")
    else if negb (length data =? total)%nat
    then Err (frame_error "frame length does not match its header")
    else if negb (crc32 (take (total - 4) data) =? read_u32 data (total - 4))
    then Err (frame_error "frame checksum mismatch")
    else Ok (mkFrame (fh_type header) (fh_correlation header)
               (take (Z.to_nat (fh_payload_length header)) (drop kFrameHeaderBytes data))).

(** ** The layout *)

Definition frame_ok (f : Frame) : Prop :=
  0 <= fr_type f < 65536 /\ u64 (fr_correlation f) /\ bytes_ok (fr_payload f) /\
  zsize (fr_payload f) <= kMaxFramePayload.

Definition frame_head (type correlation : Z) (n : nat) : list Z :=
  [67; 72; 79; 83; 1; 0] ++ le_bytes 2 type ++ le_bytes 8 correlation ++ le_bytes 4 (Z.of_nat n).

Definition frame_body (f : Frame) : list Z :=
  frame_head (fr_type f) (fr_correlation f) (length (fr_payload f)) ++ fr_payload f.

Lemma frame_head_length t c n : length (frame_head t c n) = kFrameHeaderBytes.
Proof. unfold frame_head. rewrite !length_app, !le_bytes_length. done. Qed.

Lemma frame_body_ok f : bytes_ok (fr_payload f) -> bytes_ok (frame_body f).
Proof.
  intros Hp. unfold frame_body, frame_head. rewrite !bytes_ok_app.
  repeat split; auto with choreo. repeat constructor; lia.
Qed.

Lemma encode_frame_layout f :
  zsize (fr_payload f) <= kMaxFramePayload -> encode_frame f = Ok (seal (frame_body f)).
Proof.
  intros Hlen. unfold encode_frame. cbv zeta. set (p := fr_payload f) in *.
  destruct (Z.ltb_spec kMaxFramePayload (zsize p)) as [H|_]; [lia|].
  set (n := length p). change (zsize p) with (Z.of_nat n).
  set (g := [67; 72; 79; 83; 1; 0]). set (t := le_bytes 2 (fr_type f)).
  set (c := le_bytes 8 (fr_correlation f)). set (l := le_bytes 4 (Z.of_nat n)).
  assert (zeros (kFrameHeaderBytes + n + 4) =
    zeros 6 ++ zeros 2 ++ zeros 8 ++ zeros 4 ++ zeros n ++ zeros 4) as ->.
  { rewrite !zeros_app, <- app_assoc. done. }
  assert (forall tl, <[5%nat:=kProtocolMinor]> (<[4%nat:=kProtocolMajor]>
    (<[3%nat:=byte_at kFrameMagic 3]> (<[2%nat:=byte_at kFrameMagic 2]>
    (<[1%nat:=byte_at kFrameMagic 1]> (<[0%nat:=byte_at kFrameMagic 0]> (zeros 6 ++ tl)))))) =
    g ++ tl) as Hmagic by done.
  rewrite Hmagic. unfold write_u16, write_u64, write_u32.
  rewrite (write_field 2 6 g (zeros 2) (zeros 8 ++ zeros 4 ++ zeros n ++ zeros 4)) by done.
  rewrite (write_field 8 8 (g ++ t) (zeros 8) (zeros 4 ++ zeros n ++ zeros 4))
    by (done || by rewrite <- !app_assoc).
  rewrite (write_field 4 16 (g ++ t ++ c) (zeros 4) (zeros n ++ zeros 4))
    by (done || by rewrite <- !app_assoc).
  fold l. set (buffer := (g ++ t ++ c) ++ l ++ zeros n ++ zeros 4).
  assert ((if bool_decide (p = []) then buffer else replace_at buffer kFrameHeaderBytes p) =
          frame_body f ++ zeros 4) as ->.
  { unfold frame_body, frame_head. fold p n g t c l. case_bool_decide as Hnil.
    - unfold buffer, n. rewrite Hnil. by rewrite <- !app_assoc.
    - rewrite (replace_field kFrameHeaderBytes (g ++ t ++ c ++ l) (zeros n) (zeros 4));
        [by rewrite <- !app_assoc|unfold buffer; by rewrite <- !app_assoc|done|apply zeros_length]. }
  rewrite length_app, zeros_length, Nat.add_sub, take_app_length. f_equal. apply write_seal.
Qed.

(** ** Reading a frame back *)

Section Head.
Variables (type correlation : Z) (n : nat) (rest data : list Z).
Hypothesis Htype : 0 <= type < 65536.
Hypothesis Hcorrelation : u64 correlation.
Hypothesis Hn : Z.of_nat n <= kMaxFramePayload.
Hypothesis Hdata : data = frame_head type correlation n ++ rest.

Ltac field before :=
  eapply (read_field _ _ before);
  [ rewrite Hdata; unfold frame_head; by rewrite <- ?app_assoc
  | layout
  | unfold u64, max_u64, kMaxFramePayload in *; simpl (256 ^ _); lia ].

Lemma head_fields :
  header_from data = Ok (mkFrameHeader type correlation (Z.of_nat n)).
Proof.
  unfold header_from.
  assert (read_u32 data 16 = Z.of_nat n) as ->
    by field ([67; 72; 79; 83; 1; 0] ++ le_bytes 2 type ++ le_bytes 8 correlation).
  assert (read_u16 data 6 = type) as -> by field [67; 72; 79; 83; 1; 0].
  assert (read_u64 data 8 = correlation) as ->
    by field ([67; 72; 79; 83; 1; 0] ++ le_bytes 2 type).
  rewrite Hdata. unfold frame_head. cbn [app byte_at lookup list_lookup].
  destruct (Z.ltb_spec kMaxFramePayload (Z.of_nat n)); [lia|]. reflexivity.
Qed.
End Head.

(** Twenty bytes are enough to know the message and the length of the rest,
    whatever follows the frame. *)
Lemma peek_frame f rest : frame_ok f ->
  peek_header (seal (frame_body f) ++ rest) =
  Ok (mkFrameHeader (fr_type f) (fr_correlation f) (zsize (fr_payload f))).
Proof.
  intros (Ht & Hc & _ & Hn). unfold peek_header.
  destruct (Nat.ltb_spec (length (seal (frame_body f) ++ rest)) kFrameHeaderBytes) as [H|_].
  { unfold seal, frame_body in H. rewrite !length_app, frame_head_length in H. lia. }
  eapply head_fields; [done..|]. unfold seal, frame_body. by rewrite <- !app_assoc.
Qed.

Lemma decode_sealed f : frame_ok f -> decode_frame (seal (frame_body f)) = Ok f.
Proof.
  intros Hok. pose proof Hok as (Ht & Hc & Hp & Hn). unfold decode_frame.
  assert (length (frame_body f) = kFrameHeaderBytes + length (fr_payload f))%nat as Hl
    by (unfold frame_body; by rewrite length_app, frame_head_length).
  pose proof (seal_length (frame_body f)) as Hs.
  destruct (Nat.ltb_spec (length (seal (frame_body f))) (kFrameHeaderBytes + 4)) as [H|_]; [lia|].
  erewrite head_fields; [|exact Ht|exact Hc|exact Hn|unfold seal, frame_body; by rewrite <- app_assoc].
  cbv iota beta. cbn [fh_payload_length fh_type fh_correlation]. rewrite Nat2Z.id.
  rewrite <- Hl, Hs, Nat.ltb_irrefl, Nat.eqb_refl, Nat.add_sub, seal_body, seal_checksum
    by (by apply frame_body_ok).
  rewrite Z.eqb_refl. decided. f_equal. destruct f as [type correlation payload].
  cbn [fr_type fr_correlation fr_payload]. f_equal.
  eapply slice_field; [unfold seal, frame_body; by rewrite <- app_assoc| |done].
  by rewrite frame_head_length.
Qed.

#[export] Instance frame_codec : Codec Frame.
Proof.
  refine {| codec_ok := frame_ok; encode_with := encode_frame; decode_with := decode_frame |}.
  - intros f (_ & _ & _ & Hn). eexists. by apply encode_frame_layout.
  - intros f bytes Hf. pose proof Hf as (_ & _ & _ & Hn). rewrite encode_frame_layout by done.
    intros [= <-]. by apply decode_sealed.
Defined.

(** ** Streams *)

(** The frames at the front of a byte stream, and the bytes after them: read a
    header, then the payload and checksum it announces. Every frame is at
    least 24 bytes long, so the length of the stream is enough fuel. *)
Fixpoint read_frames (fuel : nat) (stream : list Z) : result Error (list Frame * list Z) :=
  match fuel with
  | O => Ok ([], stream)
  | S fuel =>
      if (length stream <? kFrameHeaderBytes)%nat then Ok ([], stream)
      else
        let? header := peek_header stream in
        let total := (kFrameHeaderBytes + Z.to_nat (fh_payload_length header) + 4)%nat in
        if (length stream <? total)%nat then Ok ([], stream)
        else
          let? frame := decode_frame (take total stream) in
          let? (frames, rest) := read_frames fuel (drop total stream) in
          Ok (frame :: frames, rest)
  end.

Fixpoint encode_frames (frames : list Frame) : result Error (list Z) :=
  match frames with
  | [] => Ok []
  | frame :: rest =>
      let? bytes := encode_frame frame in
      let? more := encode_frames rest in
      Ok (bytes ++ more)
  end.

Definition sealed_frames (fs : list Frame) : list Z := concat ((seal ∘ frame_body) <$> fs).

Lemma encode_frames_layout fs : Forall frame_ok fs -> encode_frames fs = Ok (sealed_frames fs).
Proof.
  induction 1 as [|f fs (_ & _ & _ & Hf) _ IH]; [done|]. cbn [encode_frames].
  by rewrite encode_frame_layout, IH.
Qed.

Lemma sealed_length f :
  length (seal (frame_body f)) = (kFrameHeaderBytes + length (fr_payload f) + 4)%nat.
Proof. unfold frame_body. by rewrite seal_length, length_app, frame_head_length. Qed.

(** A frame that has not arrived in full is left in the stream. *)
Lemma read_partial f k fuel : frame_ok f -> (k < length (seal (frame_body f)))%nat ->
  read_frames fuel (take k (seal (frame_body f))) = Ok ([], take k (seal (frame_body f))).
Proof.
  intros Hf Hk. destruct fuel as [|fuel]; [done|]. cbn [read_frames].
  rewrite length_take_le by lia. rewrite sealed_length in Hk.
  destruct (Nat.ltb_spec k kFrameHeaderBytes) as [|H20]; [done|].
  assert (peek_header (take k (seal (frame_body f))) =
          Ok (mkFrameHeader (fr_type f) (fr_correlation f) (zsize (fr_payload f)))) as ->.
  { destruct Hf as (Ht & Hc & _ & Hn). unfold peek_header.
    rewrite length_take_le by (rewrite sealed_length; lia).
    destruct (Nat.ltb_spec k kFrameHeaderBytes) as [|_]; [lia|].
    eapply head_fields; [done..|]. unfold seal, frame_body. rewrite <- app_assoc, take_app.
    rewrite (take_ge (frame_head _ _ _)) by (rewrite frame_head_length; lia). done. }
  cbn [fh_payload_length]. unfold zsize. rewrite Nat2Z.id.
  destruct (Nat.ltb_spec k (kFrameHeaderBytes + length (fr_payload f) + 4)); [done|lia].
Qed.

Lemma read_sealed f rest fuel : frame_ok f ->
  read_frames (S fuel) (seal (frame_body f) ++ rest) =
  let? (frames, tail) := read_frames fuel rest in Ok (f :: frames, tail).
Proof.
  intros Hf. cbn [read_frames]. rewrite peek_frame by done.
  rewrite length_app, sealed_length.
  destruct (Nat.ltb_spec (kFrameHeaderBytes + length (fr_payload f) + 4 + length rest)
    kFrameHeaderBytes) as [H|_]; [lia|].
  cbn [fh_payload_length]. unfold zsize. rewrite Nat2Z.id.
  destruct (Nat.ltb_spec (kFrameHeaderBytes + length (fr_payload f) + 4 + length rest)
    (kFrameHeaderBytes + length (fr_payload f) + 4)) as [H|_]; [lia|].
  rewrite <- sealed_length, take_app_length, drop_app_length. by rewrite decode_sealed.
Qed.

(** C28: A stream of encoded frames, cut at any byte of the last one, is read
    back as exactly the complete frames, in order, with the bytes of the
    incomplete one left for the next read: the length in the first 20 bytes
    always ends where the frame ends. *)
Theorem frames_survive_the_stream fs last k stream bytes :
  Forall frame_ok fs -> frame_ok last ->
  encode_frames fs = Ok stream -> encode_frame last = Ok bytes -> (k < length bytes)%nat ->
  read_frames (S (length fs)) (stream ++ take k bytes) = Ok (fs, take k bytes).
Proof.
  intros Hfs Hlast Hs Hb Hk. rewrite encode_frames_layout in Hs by done. injection Hs as <-.
  rewrite encode_frame_layout in Hb by apply Hlast. injection Hb as <-.
  induction Hfs as [|f fs Hf _ IH]; [by apply (read_partial last k 1)|].
  cbn [length]. replace (sealed_frames (f :: fs)) with (seal (frame_body f) ++ sealed_frames fs) by done.
  rewrite <- app_assoc, read_sealed by done. by rewrite IH.
Qed.

Definition demo_frame : Frame := mkFrame tClientCommand 17 (bytes_of "schema=1;type=NOOP").

Lemma frames_survive_the_stream_witness :
  exists stream bytes, encode_frames [demo_frame; demo_frame] = Ok stream /\
    encode_frame demo_frame = Ok bytes /\ length bytes = 42%nat /\
    read_frames 3 (stream ++ take 25 bytes) = Ok ([demo_frame; demo_frame], take 25 bytes).
Proof.
  assert (frame_ok demo_frame) as Hok.
  { split; [vm_compute; split; congruence|]. split; [vm_compute; split; congruence|].
    split; [apply bytes_of_ok|vm_compute; congruence]. }
  eexists _, _. split; [vm_compute; reflexivity|]. split; [vm_compute; reflexivity|].
  split; [reflexivity|].
  apply (frames_survive_the_stream [demo_frame; demo_frame] demo_frame 25);
    [by repeat apply Forall_cons_2|exact Hok|vm_compute; reflexivity|vm_compute; reflexivity|].
  apply Nat.ltb_lt. vm_compute. reflexivity.
Defined.
