(* ===== verification/Transaction.v ===== *)
(** * The snapshot-install transaction

    [cpp-runtime/src/storage/transaction.cpp]: a journal that holds the three
    replacement images of an install, the replacement of the files, and its
    completion at the next opening. A node directory is the record of the
    files the transaction touches; every system call has an outcome that the
    model takes as an argument. *)

From S2P Require Import Prelude Text Types Bytes.

Definition kMaximumBytes : Z := 134217728.
Definition kHeaderBytes : nat := 32.

Record SnapshotTransaction := mkTransaction {
  tx_index : Z;
  tx_snapshot : list Z;
  tx_metadata : list Z;
  tx_wal : list Z;
}.

Inductive InstallFault := NoFault | AfterJournal | AfterSnapshot | AfterMetadata | AfterWal.

#[export] Instance InstallFault_eq_dec : EqDecision InstallFault.
Proof. solve_decision. Defined.

Definition txn_invalid (why : string) : Error :=
  mkError StoreError ("snapshot transaction: " +:+ why).

(** The size check over the three parts, then the empty-part check. *)
Fixpoint parts_fit (remaining : Z) (parts : list (list Z)) : bool :=
  match parts with
  | [] => true
  | part :: rest => negb (remaining <? zsize part) && parts_fit (remaining - zsize part) rest
  end.

Definition txn_encode (value : SnapshotTransaction) : result Error (list Z) :=
  if negb (parts_fit (kMaximumBytes - Z.of_nat kHeaderBytes - 4)
             [tx_snapshot value; tx_metadata value; tx_wal value])
  then Err (txn_invalid "replacement images exceed 128 MiB")
  else if (tx_index value =? 0) || bool_decide (tx_snapshot value = []) ||
          bool_decide (tx_metadata value = []) || bool_decide (tx_wal value = [])
  then Err (txn_invalid "missing index or replacement image")
  else
    let bytes := zeros kHeaderBytes in
    let bytes := replace_at bytes 0 (bytes_of "CHOSTXN1") in
    let bytes := write_u32 bytes 8 1 in
    let bytes := write_u64 bytes 12 (tx_index value) in
    let bytes := write_u32 bytes 20 (wrap32 (zsize (tx_snapshot value))) in
    let bytes := write_u32 bytes 24 (wrap32 (zsize (tx_metadata value))) in
    let bytes := write_u32 bytes 28 (wrap32 (zsize (tx_wal value))) in
    let bytes := bytes ++ tx_snapshot value in
    let bytes := bytes ++ tx_metadata value in
    let bytes := bytes ++ tx_wal value in
    let checksum := crc32 bytes in
    Ok (write_u32 (resize (length bytes + 4) 0 bytes) (length bytes) checksum).

(** One turn of the loop of [decode] ([txn_decode]): the part whose length is at [field] and
    whose bytes start at [cursor]. *)
Definition decode_part (bytes : list Z) (field cursor : nat) : result Error (list Z * nat) :=
  let length_ := read_u32 bytes field in
  if (length_ =? 0) || (zsize bytes - 4 - Z.of_nat cursor <? length_)
  then Err (txn_invalid "invalid replacement image length")
  else Ok (take (Z.to_nat length_) (drop cursor bytes), (cursor + Z.to_nat length_)%nat).

Definition txn_decode (bytes : list Z) : result Error SnapshotTransaction :=
  if (length bytes <? kHeaderBytes + 4)%nat || (kMaximumBytes <? zsize bytes)
  then Err (txn_invalid "invalid journal size")
  else if negb (bool_decide (take 8 bytes = bytes_of "CHOSTXN1")) ||
          negb (read_u32 bytes 8 =? 1) || (read_u64 bytes 12 =? 0) ||
          negb (crc32 (take (length bytes - 4) bytes) =? read_u32 bytes (length bytes - 4))
  then Err (txn_invalid "invalid journal header or checksum")
  else
    let index := read_u64 bytes 12 in
    let? (snapshot, cursor) := decode_part bytes 20 kHeaderBytes in
    let? (metadata, cursor) := decode_part bytes 24 cursor in
    let? (wal, cursor) := decode_part bytes 28 cursor in
    if negb (cursor =? length bytes - 4)%nat then Err (txn_invalid "trailing journal data")
    else Ok (mkTransaction index snapshot metadata wal).

(** ** The files *)

Record Directory := mkDirectory {
  dir_journal : option (list Z);
  dir_snapshots : gmap string (list Z);
  dir_meta : option (list Z);
  dir_wal : option (list Z);
}.

(** [std::setw(16) << std::setfill('0') << index << ".snap"] *)
Definition snapshot_name (index : Z) : string :=
  let digits := print_u index in
  string_of (replicate (16 - String.length digits) 48) +:+ digits +:+ ".snap".

(** The outcomes of the system calls of one [txn_apply], in order. *)
Record InstallOutcome := mkInstallOutcome {
  io_create : option Error;
  io_sync : option Error;
  io_snapshot : AtomicWrite;
  io_meta : AtomicWrite;
  io_wal : AtomicWrite;
  io_remove : bool;
  io_sync_after : option Error;
}.

Definition txn_apply (dir : Directory) (value : SnapshotTransaction) (fault : InstallFault)
    (io : InstallOutcome) : Directory * option Error :=
  if bool_decide (fault = AfterJournal)
  then (dir, Some (txn_invalid "injected interruption after journal"))
  else match io_create io with
  | Some e => (dir, Some (txn_invalid ("cannot create snapshot directory: " +:+ err_message e)))
  | None =>
  match io_sync io with
  | Some e => (dir, Some e)
  | None =>
      let name := snapshot_name (tx_index value) in
      let '(file, error) := write_atomic (dir_snapshots dir !! name) (tx_snapshot value)
                              (io_snapshot io) in
      let dir := mkDirectory (dir_journal dir) (partial_alter (fun _ => file) name (dir_snapshots dir))
                   (dir_meta dir) (dir_wal dir) in
      match error with
      | Some e => (dir, Some e)
      | None =>
      if bool_decide (fault = AfterSnapshot)
      then (dir, Some (txn_invalid "injected interruption after snapshot"))
      else
      let '(file, error) := write_atomic (dir_meta dir) (tx_metadata value) (io_meta io) in
      let dir := mkDirectory (dir_journal dir) (dir_snapshots dir) file (dir_wal dir) in
      match error with
      | Some e => (dir, Some e)
      | None =>
      if bool_decide (fault = AfterMetadata)
      then (dir, Some (txn_invalid "injected interruption after metadata"))
      else
      let '(file, error) := write_atomic (dir_wal dir) (tx_wal value) (io_wal io) in
      let dir := mkDirectory (dir_journal dir) (dir_snapshots dir) (dir_meta dir) file in
      match error with
      | Some e => (dir, Some e)
      | None =>
      if bool_decide (fault = AfterWal)
      then (dir, Some (txn_invalid "injected interruption after WAL"))
      else if negb (io_remove io) then (dir, Some (txn_invalid "cannot remove completed journal"))
      else (mkDirectory None (dir_snapshots dir) (dir_meta dir) (dir_wal dir), io_sync_after io)
      end end end
  end end.

(** [commit_snapshot_transaction]; [access] is the error of looking for the
    journal, and [ancestors] that of resolving and syncing the directories
    above, if they fail. *)
Definition commit_snapshot_transaction (dir : Directory) (value : SnapshotTransaction)
    (fault : InstallFault) (access ancestors : option Error) (journal : AtomicWrite)
    (io : InstallOutcome) : Directory * option Error :=
  match access with Some e => (dir, Some e) | None =>
  if is_some (dir_journal dir) then (dir, Some (txn_invalid "pending install requires recovery"))
  else match txn_encode value with
  | Err e => (dir, Some e)
  | Ok bytes =>
      match ancestors with
      | Some e => (dir, Some e)
      | None =>
          let '(file, error) := write_atomic (dir_journal dir) bytes journal in
          let dir := mkDirectory file (dir_snapshots dir) (dir_meta dir) (dir_wal dir) in
          match error with
          | Some e => (dir, Some e)
          | None => txn_apply dir value fault io
          end
      end
  end end.

(** [recover_snapshot_transaction]; [access] is the error of looking for or
    reading the journal, and [sync] the outcome of the directory sync when
    there is none. *)
Definition recover_snapshot_transaction (dir : Directory) (access sync : option Error)
    (io : InstallOutcome) : Directory * option Error :=
  match access with Some e => (dir, Some e) | None =>
  match dir_journal dir with
  | None => (dir, sync)
  | Some bytes =>
      if kMaximumBytes <? zsize bytes
      then (dir, Some (txn_invalid "unreadable or oversized journal"))
      else match txn_decode bytes with
           | Err e => (dir, Some e)
           | Ok value => txn_apply dir value NoFault io
           end
  end end.

(** ** The journal format *)

Definition txn_ok (v : SnapshotTransaction) : Prop :=
  1 <= tx_index v <= max_u64 /\ bytes_ok (tx_snapshot v) /\ bytes_ok (tx_metadata v) /\
  bytes_ok (tx_wal v) /\ tx_snapshot v <> [] /\ tx_metadata v <> [] /\ tx_wal v <> [] /\
  zsize (tx_snapshot v) + zsize (tx_metadata v) + zsize (tx_wal v) <= kMaximumBytes - 36.

Definition txn_head (index s m w : Z) : list Z :=
  bytes_of "CHOSTXN1" ++ le_bytes 4 1 ++ le_bytes 8 index ++ le_bytes 4 s ++ le_bytes 4 m ++
  le_bytes 4 w.

Definition txn_body (v : SnapshotTransaction) : list Z :=
  txn_head (tx_index v) (zsize (tx_snapshot v)) (zsize (tx_metadata v)) (zsize (tx_wal v)) ++
  tx_snapshot v ++ tx_metadata v ++ tx_wal v.

Lemma txn_head_length i s m w : length (txn_head i s m w) = kHeaderBytes.
Proof. unfold txn_head. rewrite !length_app, !le_bytes_length. done. Qed.

Lemma txn_body_length v : length (txn_body v) =
  (kHeaderBytes + length (tx_snapshot v) + length (tx_metadata v) + length (tx_wal v))%nat.
Proof. unfold txn_body. rewrite !length_app, txn_head_length. lia. Qed.

Lemma txn_body_ok v : txn_ok v -> bytes_ok (txn_body v).
Proof.
  intros (_ & Hs & Hm & Hw & _). unfold txn_body, txn_head. rewrite !bytes_ok_app.
  repeat split; auto with choreo.
Qed.

Lemma zsize_pos l : 0 <= zsize l.
Proof. unfold zsize. lia. Qed.

Lemma wrap32_size l : zsize l < 4294967296 -> wrap32 (zsize l) = zsize l.
Proof. intros H. unfold wrap32. apply Z.mod_small. pose proof (zsize_pos l). lia. Qed.

(** What the encoder accepts, whatever the bytes are. *)
Definition txn_fits (v : SnapshotTransaction) : Prop :=
  tx_index v <> 0 /\ tx_snapshot v <> [] /\ tx_metadata v <> [] /\ tx_wal v <> [] /\
  zsize (tx_snapshot v) + zsize (tx_metadata v) + zsize (tx_wal v) <= kMaximumBytes - 36.

Lemma txn_ok_fits v : txn_ok v -> txn_fits v.
Proof. intros (Hi & _ & _ & _ & Hs & Hm & Hw & Hsize). unfold txn_fits. split; [lia|done]. Qed.

Lemma txn_encode_fits v bytes : txn_encode v = Ok bytes -> txn_fits v.
Proof.
  unfold txn_encode. destruct (parts_fit _ _) eqn:Hp; [|done]. cbn [negb].
  destruct (_ || _) eqn:Hn; [done|]. intros _. repeat rewrite orb_false_iff in Hn.
  destruct Hn as [[[Hi Hs] Hm] Hw]. apply Z.eqb_neq in Hi. apply bool_decide_eq_false in Hs, Hm, Hw.
  unfold txn_fits. split; [done|]. split; [done|]. split; [done|]. split; [done|].
  cbn [parts_fit] in Hp. change (Z.of_nat kHeaderBytes) with 32 in Hp. bool_props. lia.
Qed.

Lemma txn_encode_layout v : txn_fits v -> txn_encode v = Ok (seal (txn_body v)).
Proof.
  intros (Hi & Hs & Hm & Hw & Hsize). unfold txn_encode, kMaximumBytes in *.
  pose proof (zsize_pos (tx_snapshot v)). pose proof (zsize_pos (tx_metadata v)).
  pose proof (zsize_pos (tx_wal v)).
  assert (parts_fit (134217728 - Z.of_nat kHeaderBytes - 4)
    [tx_snapshot v; tx_metadata v; tx_wal v] = true) as ->.
  { cbn [parts_fit]. change (Z.of_nat kHeaderBytes) with 32.
    rewrite !(proj2 (Z.ltb_ge _ _)) by lia. reflexivity. }
  decided. destruct (Z.eqb_spec (tx_index v) 0); [lia|].
  rewrite !bool_decide_eq_false_2 by done. decided. cbv zeta.
  rewrite !wrap32_size by lia.
  set (s := zsize (tx_snapshot v)). set (m := zsize (tx_metadata v)). set (w := zsize (tx_wal v)).
  assert (write_u32 (write_u32 (write_u32 (write_u64 (write_u32 (replace_at (zeros kHeaderBytes) 0
    (bytes_of "CHOSTXN1")) 8 1) 12 (tx_index v)) 20 s) 24 m) 28 w = txn_head (tx_index v) s m w) as ->.
  { change (zeros kHeaderBytes) with (zeros 8 ++ zeros 4 ++ zeros 8 ++ zeros 4 ++ zeros 4 ++ zeros 4).
    set (g := bytes_of "CHOSTXN1"). unfold write_u32, write_u64.
    rewrite (replace_field 0 [] (zeros 8) (zeros 4 ++ zeros 8 ++ zeros 4 ++ zeros 4 ++ zeros 4))
      by done.
    rewrite (write_field 4 8 g (zeros 4) (zeros 8 ++ zeros 4 ++ zeros 4 ++ zeros 4)) by done.
    rewrite (write_field 8 12 (g ++ le_bytes 4 1) (zeros 8) (zeros 4 ++ zeros 4 ++ zeros 4))
      by (done || by rewrite <- !app_assoc).
    rewrite (write_field 4 20 (g ++ le_bytes 4 1 ++ le_bytes 8 (tx_index v)) (zeros 4)
      (zeros 4 ++ zeros 4)) by (done || by rewrite <- !app_assoc).
    rewrite (write_field 4 24 (g ++ le_bytes 4 1 ++ le_bytes 8 (tx_index v) ++ le_bytes 4 s) (zeros 4)
      (zeros 4)) by (done || by rewrite <- !app_assoc).
    rewrite (write_field 4 28 (g ++ le_bytes 4 1 ++ le_bytes 8 (tx_index v) ++ le_bytes 4 s ++
      le_bytes 4 m) (zeros 4) []) by (done || by rewrite <- !app_assoc).
    unfold txn_head. by rewrite <- !app_assoc. }
  replace (((txn_head (tx_index v) s m w ++ tx_snapshot v) ++ tx_metadata v) ++ tx_wal v)
    with (txn_body v) by (unfold txn_body; by rewrite <- !app_assoc).
  rewrite resize_ge by lia. rewrite Nat.add_comm, Nat.add_sub. f_equal. apply write_seal.
Qed.

(** The lengths of the first two parts, whatever the index. *)
Lemma txn_sizes index s m w rest bytes :
  0 <= s < 4294967296 -> 0 <= m < 4294967296 -> bytes = txn_head index s m w ++ rest ->
  read_u32 bytes 20 = s /\ read_u32 bytes 24 = m.
Proof.
  intros Hs Hm ->. unfold txn_head. split.
  - eapply (read_field _ _ (bytes_of "CHOSTXN1" ++ le_bytes 4 1 ++ le_bytes 8 index));
      [by rewrite <- ?app_assoc|layout|simpl (256 ^ _); lia].
  - eapply (read_field _ _ (bytes_of "CHOSTXN1" ++ le_bytes 4 1 ++ le_bytes 8 index ++ le_bytes 4 s));
      [by rewrite <- ?app_assoc|layout|simpl (256 ^ _); lia].
Qed.

Section Fields.
Variables (index s m w : Z) (rest bytes : list Z).
Hypothesis Hindex : u64 index.
Hypothesis Hs : 0 <= s < 4294967296.
Hypothesis Hm : 0 <= m < 4294967296.
Hypothesis Hw : 0 <= w < 4294967296.
Hypothesis Hbytes : bytes = txn_head index s m w ++ rest.

Ltac field before :=
  eapply (read_field _ _ before);
  [ rewrite Hbytes; unfold txn_head; by rewrite <- ?app_assoc
  | layout
  | unfold u64, max_u64 in *; simpl (256 ^ _); lia ].

Lemma txn_fields :
  take 8 bytes = bytes_of "CHOSTXN1" /\ read_u32 bytes 8 = 1 /\ read_u64 bytes 12 = index /\
  read_u32 bytes 20 = s /\ read_u32 bytes 24 = m /\ read_u32 bytes 28 = w.
Proof.
  split; [|split; [|split; [|split; [|split]]]].
  - eapply take_field; [rewrite Hbytes; unfold txn_head; by rewrite <- ?app_assoc|done].
  - field (bytes_of "CHOSTXN1").
  - field (bytes_of "CHOSTXN1" ++ le_bytes 4 1).
  - field (bytes_of "CHOSTXN1" ++ le_bytes 4 1 ++ le_bytes 8 index).
  - field (bytes_of "CHOSTXN1" ++ le_bytes 4 1 ++ le_bytes 8 index ++ le_bytes 4 s).
  - field (bytes_of "CHOSTXN1" ++ le_bytes 4 1 ++ le_bytes 8 index ++ le_bytes 4 s ++ le_bytes 4 m).
Qed.
End Fields.

Lemma decode_part_at bytes field before part after :
  bytes = before ++ part ++ after -> (4 <= length after)%nat -> part <> [] ->
  read_u32 bytes field = zsize part ->
  decode_part bytes field (length before) = Ok (part, (length before + length part)%nat).
Proof.
  intros Hb Ha Hp Hr. unfold decode_part. rewrite Hr.
  assert (zsize bytes = Z.of_nat (length before) + zsize part + Z.of_nat (length after)) as Hz
    by (rewrite Hb; unfold zsize; rewrite !length_app; lia).
  destruct (Z.eqb_spec (zsize part) 0) as [H|_].
  { destruct part; [done|]. unfold zsize in H. simpl in H. lia. }
  destruct (Z.ltb_spec (zsize bytes - 4 - Z.of_nat (length before)) (zsize part)) as [H|_]; [lia|].
  decided. unfold zsize. rewrite Nat2Z.id. f_equal. f_equal.
  by apply (slice_field _ _ before part after).
Qed.

Lemma txn_decode_body v : txn_ok v -> txn_decode (seal (txn_body v)) = Ok v.
Proof.
  intros Hv. pose proof (txn_body_ok v Hv) as Hb. pose proof (txn_body_length v) as Hl.
  pose proof (seal_length (txn_body v)) as Hsl.
  destruct Hv as (Hi & _ & _ & _ & Hs & Hm & Hw & Hsize). unfold kMaximumBytes in Hsize.
  pose proof (zsize_pos (tx_snapshot v)). pose proof (zsize_pos (tx_metadata v)).
  pose proof (zsize_pos (tx_wal v)). set (bytes := seal (txn_body v)) in *.
  set (crc := le_bytes 4 (crc32 (txn_body v))).
  set (head := txn_head (tx_index v) (zsize (tx_snapshot v)) (zsize (tx_metadata v)) (zsize (tx_wal v))).
  assert (bytes = head ++ tx_snapshot v ++ tx_metadata v ++ tx_wal v ++ crc) as Hbytes
    by (unfold bytes, seal, txn_body; by rewrite <- !app_assoc).
  assert (length crc = 4%nat) as Hcrc by apply le_bytes_length.
  assert (length head = kHeaderBytes) as Hhead by apply txn_head_length.
  destruct (txn_fields (tx_index v) (zsize (tx_snapshot v)) (zsize (tx_metadata v)) (zsize (tx_wal v))
    _ bytes ltac:(unfold u64; lia) ltac:(lia) ltac:(lia) ltac:(lia) Hbytes)
    as (Hg & Hone & Hindex & Hfs & Hfm & Hfw).
  unfold txn_decode, kMaximumBytes. rewrite Hg, Hone, Hindex.
  destruct (Nat.ltb_spec (length bytes) (kHeaderBytes + 4)) as [Hx|_]; [lia|].
  destruct (Z.ltb_spec 134217728 (zsize bytes)) as [Hx|_].
  { unfold zsize in *. rewrite Hsl, Hl in Hx. unfold kHeaderBytes in Hx. lia. }
  decided. destruct (Z.eqb_spec (tx_index v) 0); [lia|].
  unfold bytes at 1 2 3 4. rewrite seal_size, seal_body, seal_checksum, Z.eqb_refl by done. decided.
  rewrite <- Hhead, (decode_part_at bytes 20 head (tx_snapshot v) (tx_metadata v ++ tx_wal v ++ crc))
    by (done || (rewrite !length_app; lia)).
  rewrite <- (length_app head), (decode_part_at bytes 24 (head ++ tx_snapshot v) (tx_metadata v)
    (tx_wal v ++ crc)) by (done || (rewrite !length_app; lia) || by rewrite Hbytes, <- !app_assoc).
  rewrite <- (length_app (head ++ _)), (decode_part_at bytes 28 ((head ++ tx_snapshot v) ++ tx_metadata v)
    (tx_wal v) crc) by (done || lia || by rewrite Hbytes, <- !app_assoc).
  rewrite !length_app, Hhead.
  destruct (Nat.eqb_spec (kHeaderBytes + length (tx_snapshot v) + length (tx_metadata v) +
    length (tx_wal v)) (length bytes - 4)) as [_|Hx]; [|lia].
  decided. by destruct v.
Qed.

#[export] Instance txn_codec : Codec SnapshotTransaction.
Proof.
  refine {| codec_ok := txn_ok; encode_with := txn_encode; decode_with := txn_decode |}.
  - intros v Hv. eexists. by apply txn_encode_layout, txn_ok_fits.
  - intros v bytes Hv. rewrite txn_encode_layout by (by apply txn_ok_fits). intros [= <-]. by apply txn_decode_body.
Defined.

(** Whatever a journal is decoded to, its metadata is what was encoded. *)
Lemma journal_metadata v bytes v' :
  txn_encode v = Ok bytes -> txn_decode bytes = Ok v' -> tx_metadata v' = tx_metadata v.
Proof.
  intros He Hd. pose proof (txn_encode_fits v bytes He) as Hf. rewrite txn_encode_layout in He by done.
  injection He as <-. destruct Hf as (_ & Hs & Hm & Hw & Hsize). unfold kMaximumBytes in Hsize.
  pose proof (zsize_pos (tx_snapshot v)). pose proof (zsize_pos (tx_metadata v)). pose proof (zsize_pos (tx_wal v)).
  set (crc := le_bytes 4 (crc32 (txn_body v))). set (bytes := seal (txn_body v)) in *.
  set (head := txn_head (tx_index v) (zsize (tx_snapshot v)) (zsize (tx_metadata v)) (zsize (tx_wal v))).
  assert (bytes = head ++ tx_snapshot v ++ tx_metadata v ++ tx_wal v ++ crc) as Hbytes
    by (unfold bytes, seal, txn_body; by rewrite <- !app_assoc).
  assert (length head = kHeaderBytes) as Hhead by apply txn_head_length.
  assert (length crc = 4%nat) as Hcrc by apply le_bytes_length.
  destruct (txn_sizes (tx_index v) (zsize (tx_snapshot v)) (zsize (tx_metadata v)) (zsize (tx_wal v)) _ bytes
    ltac:(lia) ltac:(lia) Hbytes) as [Hfs Hfm].
  unfold txn_decode in Hd. destruct (_ || _); [done|]. destruct (_ || _); [done|].
  rewrite <- Hhead, (decode_part_at bytes 20 head (tx_snapshot v) (tx_metadata v ++ tx_wal v ++ crc)) in Hd
    by (done || (rewrite !length_app; lia)).
  rewrite <- (length_app head), (decode_part_at bytes 24 (head ++ tx_snapshot v) (tx_metadata v)
    (tx_wal v ++ crc)) in Hd by (done || (rewrite !length_app; lia) || by rewrite Hbytes, <- !app_assoc).
  destruct (decode_part bytes 28 _) as [[w c]|]; [|done]. destruct (negb _); [done|]. by injection Hd as <-.
Qed.

(** ** Atomicity *)

(** The directory after a complete install. *)
Definition install (v : SnapshotTransaction) (d : Directory) : Directory :=
  mkDirectory None (<[snapshot_name (tx_index v) := tx_snapshot v]> (dir_snapshots d))
    (Some (tx_metadata v)) (Some (tx_wal v)).

(** [d] is on its way from [d0]: the journal is in place and completing it
    gives the directory that the install of [v] on [d0] gives. *)
Definition installing (v : SnapshotTransaction) (d0 d : Directory) : Prop :=
  dir_journal d = Some (seal (txn_body v)) /\ install v d = install v d0.

Lemma apply_progress v d0 d fault io :
  installing v d0 d ->
  let '(d', error) := txn_apply d v fault io in
  (installing v d0 d' /\ error <> None) \/ d' = install v d0.
Proof.
  intros [Hj Hi]. unfold txn_apply. destruct d as [journal snapshots meta wal].
  cbn [dir_journal] in Hj. subst journal.
  case_bool_decide; [left; done|]. destruct (io_create io); [left; done|].
  destruct (io_sync io); [left; done|].
  cbn [dir_journal dir_snapshots dir_meta dir_wal].
  assert (forall file, file = snapshots !! snapshot_name (tx_index v) \/ file = Some (tx_snapshot v) ->
    forall meta' wal', installing v d0 (mkDirectory (Some (seal (txn_body v)))
      (partial_alter (fun _ => file) (snapshot_name (tx_index v)) snapshots) meta' wal')) as Hinst.
  { intros file Hf meta' wal'. split; [done|]. rewrite <- Hi. unfold install. cbn [dir_snapshots].
    f_equal. apply map_eq. intros k. unfold insert, map_insert.
    destruct (decide (k = snapshot_name (tx_index v))) as [-> |Hk].
    - by rewrite !lookup_partial_alter_eq.
    - by rewrite !lookup_partial_alter_ne by done. }
  destruct (io_snapshot io); cbn [write_atomic];
    [|left; split; [apply Hinst; auto|done]|left; split; [apply Hinst; auto|done]].
  case_bool_decide; [left; split; [apply Hinst; auto|done]|].
  destruct (io_meta io); cbn [write_atomic];
    [|left; split; [apply Hinst; auto|done]|left; split; [apply Hinst; auto|done]].
  case_bool_decide; [left; split; [apply Hinst; auto|done]|].
  destruct (io_wal io); cbn [write_atomic];
    [|left; split; [apply Hinst; auto|done]|left; split; [apply Hinst; auto|done]].
  case_bool_decide; [left; split; [apply Hinst; auto|done]|].
  destruct (io_remove io); decided; [|left; split; [apply Hinst; auto|done]].
  right. rewrite <- Hi. reflexivity.
Qed.

(** A recovery whose system calls all succeed. *)
Definition undisturbed : InstallOutcome :=
  mkInstallOutcome None None Replaced Replaced Replaced true None.

Definition journal_kept (journal : AtomicWrite) : bool :=
  match journal with KeptOld _ => false | _ => true end.

Lemma recover_progress v d0 d access sync io : txn_ok v ->
  installing v d0 d \/ d = install v d0 ->
  let d' := fst (recover_snapshot_transaction d access sync io) in
  installing v d0 d' \/ d' = install v d0.
Proof.
  intros Hv [Hd| ->]; [|right; by destruct access]. unfold recover_snapshot_transaction.
  destruct access; [by left|].
  pose proof Hd as [Hj _]. rewrite Hj.
  destruct (kMaximumBytes <? _); [by left|]. rewrite txn_decode_body by done.
  pose proof (apply_progress v d0 d NoFault io Hd) as H.
  destruct (txn_apply d v NoFault io) as [d' error]. cbn [fst]. tauto.
Qed.

Lemma recover_finishes v d0 d : txn_ok v -> installing v d0 d ->
  recover_snapshot_transaction d None None undisturbed = (install v d0, None).
Proof.
  intros Hv [Hj Hi]. unfold recover_snapshot_transaction. rewrite Hj.
  destruct (Z.ltb_spec kMaximumBytes (zsize (seal (txn_body v)))) as [Hx|_].
  { destruct Hv as (_ & _ & _ & _ & _ & _ & _ & Hsize). unfold zsize in *.
    rewrite seal_length, txn_body_length in Hx. unfold kHeaderBytes in Hx. lia. }
  rewrite txn_decode_body by done. rewrite <- Hi. reflexivity.
Qed.

(** C26: Installing a snapshot is all or nothing. Whatever fails or interrupts
    the commit, and however many recoveries are interrupted after it, a
    recovery that runs to its end leaves the untouched old directory when the
    journal was never put in place, and otherwise the snapshot, metadata and
    log of the transaction with the journal gone. A commit that reports
    success has already done so. *)
Theorem install_is_atomic d v fault access ancestors journal io attempts :
  dir_journal d = None -> txn_ok v ->
  let '(d1, error) := commit_snapshot_transaction d v fault access ancestors journal io in
  let d2 := foldl (fun d x => fst (recover_snapshot_transaction d (fst x) None (snd x))) d1 attempts in
  fst (recover_snapshot_transaction d2 None None undisturbed) =
    (if negb (is_some access) && negb (is_some ancestors) && journal_kept journal then install v d else d) /\
  (error = None -> d1 = install v d).
Proof.
  intros Hj Hv. unfold commit_snapshot_transaction. rewrite Hj, txn_encode_layout by (by apply txn_ok_fits).
  assert (forall attempts d1, installing v d d1 \/ d1 = install v d ->
    fst (recover_snapshot_transaction
      (foldl (fun d x => fst (recover_snapshot_transaction d (fst x) None (snd x))) d1 attempts)
      None None undisturbed) = install v d) as Hend.
  { clear attempts. induction attempts as [|a attempts IH]; intros d1 Hd1; cbn [foldl].
    - destruct Hd1 as [Hd1| ->]; [by rewrite (recover_finishes v d d1)|done].
    - apply IH. by apply (recover_progress v d). }
  assert (forall attempts, fst (recover_snapshot_transaction
    (foldl (fun d x => fst (recover_snapshot_transaction d (fst x) None (snd x))) d attempts)
    None None undisturbed) = d) as Hold.
  { clear attempts. intros attempts. replace (foldl _ d attempts) with d.
    - unfold recover_snapshot_transaction. by rewrite Hj.
    - induction attempts as [|a attempts IH]; [done|]. cbn [foldl].
      unfold recover_snapshot_transaction at 2. rewrite Hj. by destruct a as [[]]. }
  destruct access; [split; [apply Hold|done]|].
  destruct ancestors; [split; [apply Hold|done]|]. cbn [is_some]. decided.
  assert (installing v d (mkDirectory (Some (seal (txn_body v))) (dir_snapshots d)
    (dir_meta d) (dir_wal d))) as Hin by done.
  destruct journal as [|e|e]; cbn [write_atomic journal_kept].
  - pose proof (apply_progress v d _ fault io Hin) as Hp.
    destruct (txn_apply _ v fault io) as [d1 error]. split; [apply Hend; tauto|].
    intros ->. destruct Hp as [[_ Hp]|Hp]; [by destruct Hp|done].
  - split; [|done]. replace (mkDirectory None (dir_snapshots d) (dir_meta d) (dir_wal d)) with d
      by (destruct d; simpl in Hj; by rewrite Hj). apply Hold.
  - split; [|done]. apply Hend. by left.
Qed.

Definition demo_directory : Directory :=
  mkDirectory None {[snapshot_name 40 := bytes_of "old"]} (Some (bytes_of "old-meta"))
    (Some (bytes_of "old-wal")).

Definition demo_transaction : SnapshotTransaction :=
  mkTransaction 120 (bytes_of "snap") (bytes_of "meta") (bytes_of "wal").

(** The commit stops between the snapshot and the log, a first recovery cannot
    write the metadata, a second one ends the install. *)
Lemma install_is_atomic_witness :
  snapshot_name 120 = "0000000000000120.snap" /\
  let d1 := fst (commit_snapshot_transaction demo_directory demo_transaction AfterSnapshot None None
                   Replaced undisturbed) in
  dir_wal d1 = Some (bytes_of "old-wal") /\
  let d2 := fst (recover_snapshot_transaction d1 None None
                   (mkInstallOutcome None None Replaced (KeptOld (txn_invalid "full")) Replaced true
                      None)) in
  fst (recover_snapshot_transaction d2 None None undisturbed) = install demo_transaction demo_directory.
Proof.
  split; [vm_compute; reflexivity|]. cbv zeta.
  assert (txn_ok demo_transaction) as Hok.
  { split; [vm_compute; split; congruence|]. split; [apply bytes_of_ok|].
    split; [apply bytes_of_ok|]. split; [apply bytes_of_ok|].
    repeat split; vm_compute; congruence. }
  split; [vm_compute; reflexivity|].
  pose proof (install_is_atomic demo_directory demo_transaction AfterSnapshot None None Replaced
    undisturbed [(None, mkInstallOutcome None None Replaced (KeptOld (txn_invalid "full")) Replaced
                    true None)]
    eq_refl Hok) as H.
  destruct (commit_snapshot_transaction demo_directory demo_transaction AfterSnapshot None None
    Replaced undisturbed) as [d1 error].
  exact (proj1 H).
Defined.

(** ** What a recovery leaves *)

(** Every part of a journal that is decoded has bytes of the journal. *)
Lemma decode_part_bytes bytes field cursor part next : bytes_ok bytes -> decode_part bytes field cursor = Ok (part, next) ->
  bytes_ok part.
Proof.
  unfold decode_part. intros Hb. cbv zeta. destruct (_ || _); [done|]. intros [= <- _]. by apply list.Forall_take, list.Forall_drop.
Qed.

Definition files_ok (disk : Directory) : Prop :=
  (forall bytes, dir_journal disk = Some bytes -> bytes_ok bytes) /\ (forall bytes, dir_meta disk = Some bytes -> bytes_ok bytes).

Lemma recovered_directory disk access sync io disk' : files_ok disk ->
  recover_snapshot_transaction disk access sync io = (disk', None) -> dir_journal disk' = None /\ files_ok disk'.
Proof.
  intros [Hj Hm]. unfold recover_snapshot_transaction. destruct access; [done|].
  destruct (dir_journal disk) as [bytes|] eqn:Ej; [|intros H; simplify_eq; split; [done|split; [|done]]; by rewrite Ej].
  destruct (_ <? _); [done|]. destruct (txn_decode bytes) as [v|] eqn:Ev; [|done].
  assert (bytes_ok (tx_metadata v)) as Hv.
  { unfold txn_decode in Ev. destruct (_ || _); [done|]. destruct (_ || _); [done|].
    destruct (decode_part bytes 20 _) as [[s c]|]; [|done]. destruct (decode_part bytes 24 c) as [[m c']|] eqn:E; [|done].
    destruct (decode_part bytes 28 c') as [[w c'']|]; [|done]. destruct (negb _); [done|]. injection Ev as <-. cbn.
    eapply decode_part_bytes; [by apply Hj|exact E]. }
  unfold txn_apply. intros H. change (bool_decide (NoFault = AfterJournal)) with false in H.
  change (bool_decide (NoFault = AfterSnapshot)) with false in H. change (bool_decide (NoFault = AfterMetadata)) with false in H.
  change (bool_decide (NoFault = AfterWal)) with false in H. cbv iota zeta in H.
  destruct (io_create io); [done|]. destruct (io_sync io); [done|].
  destruct (io_snapshot io); cbn [write_atomic] in H; try done.
  destruct (io_meta io); cbn [write_atomic] in H; try done.
  destruct (io_wal io); cbn [write_atomic] in H; try done.
  destruct (negb (io_remove io)); [done|]. injection H as <- _. split; [done|]. split; [done|]. cbn. by intros bytes' [= <-].
Qed.
