(* ===== verification/SnapshotFile.v ===== *)
(** * Snapshot files

    [cpp-runtime/src/storage/snapshot.cpp]: the checksummed envelope around a
    snapshot text, the directory of snapshot files named by index, the search
    for the newest one that verifies, and pruning. *)

From S2P Require Import Prelude Text Stream Types Model EventCodec Machine SnapshotText Bytes Transaction.

Record Snapshot := mkSnapshot {
  sp_index : Z;
  sp_term : Z;
  sp_hash : string;
  sp_events : list Event;
  sp_payload : string;
}.

Definition is_legacy_format (snapshot : Snapshot) : bool := is_empty (sp_payload snapshot).

Definition snapshot_error (detail : string) : Error := mkError StoreError detail.

Definition verify_snapshot (snapshot : Snapshot) : result Error ChoreographyState :=
  let? state :=
    if is_legacy_format snapshot then replay (sp_events snapshot) None None
    else restore_state (sp_payload snapshot) in
  if negb (bool_decide (state_hash state = sp_hash snapshot)) ||
     negb (s_last_applied state =? sp_index snapshot) || negb (s_term state =? sp_term snapshot)
  then Err (snapshot_error "snapshot state hash does not match its contents")
  else Ok state.

(** The lines of a format 1 payload. *)
Fixpoint legacy_events (lines : list string) : result Error (list Event) :=
  match lines with
  | [] => Ok []
  | line :: rest =>
      if bool_decide (line = "") then legacy_events rest
      else
        let? event := parse_event line in
        let? events := legacy_events rest in
        Ok (event :: events)
  end.

(** [read_snapshot] on the contents of a file. *)
Definition read_snapshot (file : list Z) : result Error Snapshot :=
  if (length file <? 52)%nat then Err (snapshot_error "snapshot is incomplete")
  else if negb (bool_decide (take 8 file = bytes_of "CHOSSNAP"))
  then Err (snapshot_error "snapshot magic is invalid")
  else
    let format := read_u16 file 8 in
    if (negb (format =? 1) && negb (format =? 2)) || negb (read_u16 file 10 =? kCurrentSchemaVersion)
    then Err (snapshot_error "snapshot version is unsupported")
    else
      let payload_len := Z.to_nat (read_u32 file 44) in
      if negb (length file =? 52 + payload_len)%nat
      then Err (snapshot_error "snapshot length is invalid")
      else if negb (crc32 (take (length file - 4) file) =? read_u32 file (length file - 4))
      then Err (snapshot_error "snapshot checksum mismatch")
      else
        match parse_index (read_u64 file 12), parse_term (read_u64 file 20) with
        | Ok index, Ok term =>
            let hash := string_of (take 16 (drop 28 file)) in
            let payload := string_of (take payload_len (drop 48 file)) in
            let? snapshot :=
              if format =? 2 then Ok (mkSnapshot index term hash [] payload)
              else let? events := legacy_events (split (char 10) payload) in
                   Ok (mkSnapshot index term hash events "") in
            check! verify_snapshot snapshot in
            Ok snapshot
        | _, _ => Err (snapshot_error "snapshot index or term is invalid")
        end.

Definition encode_snapshot (state : ChoreographyState) : result Error (list Z) :=
  let payload := bytes_of (snapshot_payload state) in
  let hash := bytes_of (state_hash state) in
  if negb (length hash =? 16)%nat then Err (snapshot_error "state hash must be 16 hex characters")
  else if 4294967295 - 64 <? zsize payload then Err (snapshot_error "snapshot payload is too large")
  else
    let bytes := zeros (52 + length payload) in
    let bytes := replace_at bytes 0 (bytes_of "CHOSSNAP") in
    let bytes := write_u16 bytes 8 2 in
    let bytes := write_u16 bytes 10 kCurrentSchemaVersion in
    let bytes := write_u64 bytes 12 (s_last_applied state) in
    let bytes := write_u64 bytes 20 (s_term state) in
    let bytes := replace_at bytes 28 hash in
    let bytes := write_u32 bytes 44 (zsize payload) in
    let bytes := if bool_decide (payload = []) then bytes else replace_at bytes 48 payload in
    Ok (write_u32 bytes (length bytes - 4) (crc32 (take (length bytes - 4) bytes))).

(** ** The directory of snapshots *)

(** File names and contents under [snapshots/]. *)
Definition SnapshotDir : Type := gmap string (list Z).

(** [save_snapshot]: encode, create the directory, optionally sync its parent,
    replace the file. *)
Definition save_snapshot (dir : option SnapshotDir) (state : ChoreographyState) (sync : bool)
    (created synced : option Error) (outcome : AtomicWrite) : option SnapshotDir * option Error :=
  match encode_snapshot state with
  | Err e => (dir, Some e)
  | Ok bytes =>
      match created with
      | Some _ => (dir, Some (snapshot_error "unable to create snapshot directory"))
      | None =>
          let files := default ∅ dir in
          match (if sync then synced else None) with
          | Some e => (Some files, Some e)
          | None =>
              let name := snapshot_name (s_last_applied state) in
              let '(file, error) := write_atomic (files !! name) bytes outcome in
              (Some (match file with Some b => <[name := b]> files | None => files end), error)
          end
      end
  end.

(** [std::from_chars] on [std::uint64_t], required to consume everything. *)
Definition from_chars_u64 (s : string) : option Z :=
  if starts_with_digit s then
    let '(v, rest) := scan_digits s 0 in
    if (v <=? max_u64) && bool_decide (rest = "") then Some v else None
  else None.

(** [path.stem()] of a name whose extension is [".snap"]. *)
Fixpoint snap_stem (name : string) : option string :=
  match name with
  | EmptyString => None
  | String c rest =>
      if bool_decide (rest = ".snap") then Some (String c "")
      else match snap_stem rest with Some stem => Some (String c stem) | None => None end
  end.

(** The index in a file name, for the names the scans accept. *)
Definition snap_index (name : string) : option Z :=
  match snap_stem name with Some stem => from_chars_u64 stem | None => None end.

Definition name_ge (a b : string) : Prop := String.le b a.

#[export] Instance name_ge_dec a b : Decision (name_ge a b).
Proof. unfold name_ge. apply _. Defined.

(** The accepted files by descending name. *)
Definition snapshot_files (files : SnapshotDir) : list string :=
  merge_sort name_ge (filter (fun name => is_some (snap_index name) = true) (elements (dom files))).

(** The first file that can be read and verifies; [unreadable] are the files
    that cannot be opened. *)
Fixpoint first_valid (files : SnapshotDir) (unreadable : string -> bool) (names : list string)
    : option Snapshot :=
  match names with
  | [] => None
  | name :: rest =>
      if unreadable name then first_valid files unreadable rest
      else
        match read_snapshot (default [] (files !! name)) with
        | Ok snapshot => Some snapshot
        | Err _ => first_valid files unreadable rest
        end
  end.

Definition load_latest_snapshot (dir : option SnapshotDir) (unreadable : string -> bool)
    (scanned : option string) : result Error (option Snapshot) :=
  match scanned with
  | Some what => Err (snapshot_error ("unable to enumerate snapshots: " +:+ what))
  | None =>
      match dir with
      | None => Ok None
      | Some files => Ok (first_valid files unreadable (snapshot_files files))
      end
  end.

Record PruneResult := mkPruneResult { pr_remaining : nat; pr_oldest_index : Z }.

(** [prune_snapshots]; [removed] says which deletions succeed. *)
Definition prune_snapshots (dir : option SnapshotDir) (keep : nat) (removed : string -> bool)
    (scanned : option string) : option SnapshotDir * result Error PruneResult :=
  match scanned with
  | Some what => (dir, Err (snapshot_error ("unable to prune snapshots: " +:+ what)))
  | None =>
      match dir with
      | None => (None, Ok (mkPruneResult 0 0))
      | Some files =>
          let names := snapshot_files files in
          let files' :=
            foldl (fun files name => if removed name then delete name files else files) files
              (drop keep names) in
          let remaining := Nat.min keep (length names) in
          (Some files',
           match names !! (remaining - 1)%nat with
           | Some name =>
               if (0 <? remaining)%nat then
                 match snap_index name with
                 | Some index => Ok (mkPruneResult remaining index)
                 | None => Err (snapshot_error "invalid snapshot index")
                 end
               else Ok (mkPruneResult remaining 0)
           | None => Ok (mkPruneResult remaining 0)
           end)
      end
  end.
