(* ===== verification/SnapshotFileThms.v ===== *)
(** * Snapshot files are found again

    The envelope round trip, the order of file names, and what a reader finds
    after saves that may fail and prunes that may be incomplete. *)

From S2P Require Import Prelude Text Stream Types Model EventCodec EventCodecThms Machine MachineInv MachineThms SnapshotText SnapshotTextThms SnapshotThms Bytes Transaction SnapshotFile.

(** ** The envelope *)

Definition snapshot_body (index term : Z) (hash payload : list Z) : list Z :=
  bytes_of "CHOSSNAP" ++ le_bytes 2 2 ++ le_bytes 2 kCurrentSchemaVersion ++ le_bytes 8 index ++
  le_bytes 8 term ++ hash ++ le_bytes 4 (zsize payload) ++ payload.

Lemma hex_digits_length count : forall v text,
  String.length (hex_digits count v text) = (count + String.length text)%nat.
Proof.
  induction count as [|n IH]; intros v text; [done|]. cbn [hex_digits]. rewrite IH. simpl. lia.
Qed.

Lemma state_hash_length s : length (bytes_of (state_hash s)) = 16%nat.
Proof. rewrite bytes_of_length. unfold state_hash. by rewrite hex_digits_length. Qed.

Lemma snapshot_payload_not_empty s : snapshot_payload s <> "".
Proof. unfold snapshot_payload. discriminate. Qed.

Lemma encode_snapshot_layout s :
  zsize (bytes_of (snapshot_payload s)) <= 4294967295 - 64 ->
  encode_snapshot s = Ok (seal (snapshot_body (s_last_applied s) (s_term s) (bytes_of (state_hash s))
                                  (bytes_of (snapshot_payload s)))).
Proof.
  intros Hsize. unfold encode_snapshot. cbv zeta. set (p := bytes_of (snapshot_payload s)) in *.
  set (h := bytes_of (state_hash s)). assert (length h = 16%nat) as Hh by apply state_hash_length.
  rewrite Hh. change (negb (16 =? 16)%nat) with false. cbv iota.
  destruct (Z.ltb_spec (4294967295 - 64) (zsize p)) as [H|_]; [lia|].
  assert (p <> []) as Hne.
  { unfold p. intros E. apply (f_equal (length (A := Z))) in E. rewrite bytes_of_length in E.
    pose proof (snapshot_payload_not_empty s). by destruct (snapshot_payload s). }
  rewrite (bool_decide_eq_false_2 _ Hne).
  set (n := length p). set (g := bytes_of "CHOSSNAP"). set (f := le_bytes 2 2).
  set (v := le_bytes 2 kCurrentSchemaVersion). set (i := le_bytes 8 (s_last_applied s)).
  set (t := le_bytes 8 (s_term s)). set (l := le_bytes 4 (zsize p)).
  assert (zeros (52 + n) = zeros 8 ++ zeros 2 ++ zeros 2 ++ zeros 8 ++ zeros 8 ++ zeros 16 ++ zeros 4 ++
    zeros n ++ zeros 4) as Hz.
  { replace (52 + n)%nat with (48 + n + 4)%nat by lia. rewrite !zeros_app, <- app_assoc. done. }
  rewrite Hz. unfold write_u16, write_u64, write_u32.
  rewrite (replace_field 0 [] (zeros 8) (zeros 2 ++ zeros 2 ++ zeros 8 ++ zeros 8 ++ zeros 16 ++ zeros 4 ++
    zeros n ++ zeros 4)) by done.
  rewrite (write_field 2 8 g (zeros 2) (zeros 2 ++ zeros 8 ++ zeros 8 ++ zeros 16 ++ zeros 4 ++ zeros n ++
    zeros 4)) by done.
  rewrite (write_field 2 10 (g ++ f) (zeros 2) (zeros 8 ++ zeros 8 ++ zeros 16 ++ zeros 4 ++ zeros n ++ zeros 4))
    by (done || by rewrite <- !app_assoc).
  rewrite (write_field 8 12 (g ++ f ++ v) (zeros 8) (zeros 8 ++ zeros 16 ++ zeros 4 ++ zeros n ++ zeros 4))
    by (done || by rewrite <- !app_assoc).
  rewrite (write_field 8 20 (g ++ f ++ v ++ i) (zeros 8) (zeros 16 ++ zeros 4 ++ zeros n ++ zeros 4))
    by (done || by rewrite <- !app_assoc).
  rewrite (replace_field 28 (g ++ f ++ v ++ i ++ t) (zeros 16) (zeros 4 ++ zeros n ++ zeros 4))
    by (done || by rewrite <- !app_assoc).
  assert (length (g ++ f ++ v ++ i ++ t ++ h) = 44%nat) as Hlen.
  { rewrite !length_app, Hh. unfold g, f, v, i, t. autorewrite with bytes. done. }
  rewrite (write_field 4 44 (g ++ f ++ v ++ i ++ t ++ h) (zeros 4) (zeros n ++ zeros 4))
    by (done || by rewrite <- !app_assoc).
  assert (length (g ++ f ++ v ++ i ++ t ++ h ++ l) = 48%nat) as Hlen'.
  { rewrite !app_assoc, length_app, <- !app_assoc, Hlen. unfold l. by rewrite le_bytes_length. }
  rewrite (replace_field 48 (g ++ f ++ v ++ i ++ t ++ h ++ l) (zeros n) (zeros 4));
    [|by rewrite <- !app_assoc|done|apply zeros_length].
  set (body := snapshot_body _ _ _ _).
  assert ((g ++ f ++ v ++ i ++ t ++ h ++ l) ++ p ++ zeros 4 = body ++ zeros 4) as ->
    by (unfold body, snapshot_body; fold g f v i t l; by rewrite <- !app_assoc).
  rewrite length_app, zeros_length, Nat.add_sub, take_app_length.
  pose proof (write_seal body) as Hseal. unfold write_u32 in Hseal. by rewrite Hseal.
Qed.

Section Fields.
Context (index term : Z) (hash payload rest file : list Z).
Context (Hi : u64 index) (Ht : u64 term) (Hh : length hash = 16%nat)
  (Hp : zsize payload <= 4294967295 - 64).
Context (Hfile : file = snapshot_body index term hash payload ++ rest).

Ltac field before :=
  eapply (read_field _ _ before);
  [ rewrite Hfile; unfold snapshot_body; by rewrite <- ?app_assoc
  | autorewrite with bytes; rewrite ?Hh; reflexivity
  | unfold u64, max_u64, zsize, kCurrentSchemaVersion in *; simpl (256 ^ _); lia ].

Lemma snapshot_fields :
  take 8 file = bytes_of "CHOSSNAP" /\ read_u16 file 8 = 2 /\ read_u16 file 10 = kCurrentSchemaVersion /\
  read_u64 file 12 = index /\ read_u64 file 20 = term /\ take 16 (drop 28 file) = hash /\
  read_u32 file 44 = zsize payload /\ take (length payload) (drop 48 file) = payload.
Proof.
  repeat split.
  - eapply take_field; [rewrite Hfile; unfold snapshot_body; by rewrite <- ?app_assoc|done].
  - field (bytes_of "CHOSSNAP").
  - field (bytes_of "CHOSSNAP" ++ le_bytes 2 2).
  - field (bytes_of "CHOSSNAP" ++ le_bytes 2 2 ++ le_bytes 2 kCurrentSchemaVersion).
  - field (bytes_of "CHOSSNAP" ++ le_bytes 2 2 ++ le_bytes 2 kCurrentSchemaVersion ++ le_bytes 8 index).
  - eapply (slice_field _ _ (bytes_of "CHOSSNAP" ++ le_bytes 2 2 ++ le_bytes 2 kCurrentSchemaVersion ++
      le_bytes 8 index ++ le_bytes 8 term)); [rewrite Hfile; unfold snapshot_body; by rewrite <- ?app_assoc| |done].
    by autorewrite with bytes.
  - field (bytes_of "CHOSSNAP" ++ le_bytes 2 2 ++ le_bytes 2 kCurrentSchemaVersion ++ le_bytes 8 index ++
      le_bytes 8 term ++ hash).
  - eapply (slice_field _ _ (bytes_of "CHOSSNAP" ++ le_bytes 2 2 ++ le_bytes 2 kCurrentSchemaVersion ++
      le_bytes 8 index ++ le_bytes 8 term ++ hash ++ le_bytes 4 (zsize payload)));
      [rewrite Hfile; unfold snapshot_body; by rewrite <- ?app_assoc| |done].
    autorewrite with bytes. by rewrite Hh.
Qed.
End Fields.

Lemma snapshot_body_ok i t h p : bytes_ok h -> bytes_ok p -> bytes_ok (snapshot_body i t h p).
Proof.
  intros Hh Hp. unfold snapshot_body. rewrite !bytes_ok_app. repeat split; auto with choreo.
Qed.

Lemma snapshot_body_length i t h p : length h = 16%nat -> length (snapshot_body i t h p) = (48 + length p)%nat.
Proof. intros Hh. unfold snapshot_body. autorewrite with bytes. rewrite Hh. simpl. lia. Qed.

(** The snapshot a state is saved as. *)
Definition snapshot_of (s : ChoreographyState) : Snapshot :=
  mkSnapshot (s_last_applied s) (s_term s) (state_hash s) [] (snapshot_payload s).

Lemma verify_snapshot_of s : snapshot_ok s -> verify_snapshot (snapshot_of s) = Ok (compact_state s).
Proof.
  intros Hs. unfold verify_snapshot, is_legacy_format, snapshot_of. cbn [sp_payload sp_hash sp_index sp_term].
  assert (is_empty (snapshot_payload s) = false) as ->
    by (pose proof (snapshot_payload_not_empty s); by destruct (snapshot_payload s)).
  rewrite restore_snapshot by done.
  destruct (forgets_position s _ (compact_forgets s)) as (E1 & E2 & E3).
  assert (state_hash (compact_state s) = state_hash s) as -> by (unfold state_hash; by rewrite E3).
  rewrite (bool_decide_eq_true_2 _ eq_refl), E1, E2, !Z.eqb_refl. done.
Qed.

Lemma read_encoded s bytes : snapshot_ok s -> encode_snapshot s = Ok bytes ->
  read_snapshot bytes = Ok (snapshot_of s).
Proof.
  intros Hs He.
  assert (zsize (bytes_of (snapshot_payload s)) <= 4294967295 - 64) as Hsize.
  { unfold encode_snapshot in He. case_in He; [done|]. case_in He; [done|]. bool_props. done. }
  rewrite encode_snapshot_layout in He by done.
  assert (forall (a b : list Z), Ok (E := Error) a = Ok b -> a = b) as Hinj by (by intros a b [=]).
  apply Hinj in He. subst bytes.
  set (h := bytes_of (state_hash s)). set (p := bytes_of (snapshot_payload s)) in *.
  set (body := snapshot_body (s_last_applied s) (s_term s) h p).
  assert (length h = 16%nat) as Hh by apply state_hash_length.
  assert (length body = (48 + length p)%nat) as Hbl by (by apply snapshot_body_length).
  assert (bytes_ok body) as Hbok by (apply snapshot_body_ok; apply bytes_of_ok).
  destruct (snapshot_fields (s_last_applied s) (s_term s) h p (le_bytes 4 (crc32 body)) (seal body))
    as (F1 & F2 & F3 & F4 & F5 & F6 & F7 & F8); [apply (sn_last s Hs)| |done|done|done|].
  { pose proof (sn_term s Hs) as Ht. unfold valid_term, u64 in *. lia. }
  unfold read_snapshot. rewrite F1, F2, F3, F7, seal_length, Hbl.
  destruct (Nat.ltb_spec (48 + length p + 4) 52) as [Hx|_]; [lia|].
  rewrite (bool_decide_eq_true_2 _ eq_refl), Z.eqb_refl. change (2 =? 1) with false. change (2 =? 2) with true.
  decided. unfold zsize. rewrite Nat2Z.id.
  replace (48 + length p + 4)%nat with (52 + length p)%nat by lia. rewrite Nat.eqb_refl. decided.
  replace (52 + length p - 4)%nat with (length body) by lia.
  rewrite seal_body, seal_checksum, Z.eqb_refl by done. decided.
  rewrite F4, F5, F6, F8. unfold parse_index. rewrite parse_term_valid by apply (sn_term s Hs).
  unfold h, p. rewrite !string_of_bytes_of. fold (snapshot_of s). rewrite verify_snapshot_of by done.
  by rewrite Z.eqb_refl.
Qed.

(** ** The order of file names *)

Lemma dec_value_acc s : forall acc,
  dec_value s acc = acc * 10 ^ Z.of_nat (String.length s) + dec_value s 0.
Proof.
  induction s as [|c s IH]; intros acc; cbn [dec_value String.length]; [simpl; lia|].
  rewrite (IH (acc * 10 + _)), (IH (0 * 10 + _)), Nat2Z.inj_succ, Z.pow_succ_r by lia. lia.
Qed.

Lemma digit_code c : is_digit c = true -> 0 <= code c - 48 < 10.
Proof. unfold is_digit. intros H. bool_props. lia. Qed.

Lemma dec_value_bound s : str_all is_digit s = true ->
  0 <= dec_value s 0 < 10 ^ Z.of_nat (String.length s).
Proof.
  induction s as [|c s IH]; intros Hd; cbn [dec_value String.length]; [simpl; lia|].
  cbn [str_all] in Hd. apply andb_true_iff in Hd as [Hc Hd]. apply digit_code in Hc. specialize (IH Hd).
  rewrite dec_value_acc, Nat2Z.inj_succ, Z.pow_succ_r by lia. nia.
Qed.

Lemma ascii_compare_code a b : Ascii.compare a b = (code a ?= code b).
Proof. unfold Ascii.compare, code. by rewrite N2Z.inj_compare. Qed.

(** Digit strings of one length are ordered as their values. *)
Lemma digits_compare t a : forall b, str_all is_digit a = true -> str_all is_digit b = true ->
  String.length a = String.length b ->
  String.compare (a +:+ t) (b +:+ t) = (dec_value a 0 ?= dec_value b 0).
Proof.
  induction a as [|x a IH]; intros [|y b] Ha Hb Hl; try done.
  - cbn [dec_value]. rewrite Z.compare_refl. change ("" +:+ t) with t.
    clear. induction t as [|c t IH]; [done|]. cbn [String.compare]. rewrite ascii_compare_code, Z.compare_refl. done.
  - cbn [str_all] in Ha, Hb. apply andb_true_iff in Ha as [Hx Ha], Hb as [Hy Hb].
    injection Hl as Hl. rewrite !str_app_cons. cbn [String.compare dec_value].
    rewrite ascii_compare_code, IH by done.
    rewrite (dec_value_acc a (0 * 10 + _)), (dec_value_acc b (0 * 10 + _)), Hl.
    pose proof (dec_value_bound a Ha) as Ba. pose proof (dec_value_bound b Hb) as Bb. rewrite Hl in Ba.
    set (p := 10 ^ Z.of_nat (String.length b)) in *.
    destruct (Z.compare_spec (code x) (code y)) as [E|E|E]; symmetry.
    + rewrite E. apply Zcompare_plus_compat.
    + apply Z.compare_lt_iff. nia.
    + apply Z.compare_gt_iff. nia.
Qed.

(** The sixteen digits of a name. *)
Definition name_digits (index : Z) : string :=
  string_of (replicate (16 - String.length (print_u index)) 48) +:+ print_u index.

Definition kIndexes : Z := 10 ^ 16.

Lemma print_go_length fuel : forall n acc k, 0 <= n < 10 ^ Z.of_nat k -> (1 <= k)%nat ->
  (String.length (print_go fuel n acc) <= k + String.length acc)%nat.
Proof.
  induction fuel as [|fuel IH]; intros n acc k Hn Hk; cbn [print_go]; [simpl; lia|].
  destruct (Z.eqb_spec (n / 10) 0) as [E|E]; [simpl; lia|].
  destruct k as [|[|k]]; [lia| |].
  - exfalso. apply E. apply Z.div_small. simpl in Hn. lia.
  - etransitivity; [apply (IH _ _ (S k))|cbn [String.length]; lia]; [|lia].
    rewrite Nat2Z.inj_succ, Z.pow_succ_r in Hn by lia.
    split; [apply Z.div_pos; lia|apply Z.div_lt_upper_bound; lia].
Qed.

Lemma length_append a b : String.length (a +:+ b) = (String.length a + String.length b)%nat.
Proof. induction a as [|c a IH]; [done|]. rewrite str_app_cons. simpl. by rewrite IH. Qed.

Lemma string_of_length l : String.length (string_of l) = length l.
Proof. induction l as [|x l IH]; [done|]. simpl. by rewrite IH. Qed.

Lemma zeros_digits n s : str_all is_digit s = true ->
  str_all is_digit (string_of (replicate n 48) +:+ s) = true /\
  dec_value (string_of (replicate n 48) +:+ s) 0 = dec_value s 0.
Proof.
  intros Hs. induction n as [|n [IH1 IH2]]; [done|]. cbn [replicate string_of]. rewrite str_app_cons.
  split; [cbn [str_all]; by rewrite IH1|]. cbn [dec_value].
  change (0 * 10 + (code (char 48) - 48)) with 0. done.
Qed.

Lemma name_digits_ok i : 0 <= i < kIndexes ->
  str_all is_digit (name_digits i) = true /\ String.length (name_digits i) = 16%nat /\
  dec_value (name_digits i) 0 = i.
Proof.
  intros Hi. destruct (print_u_digits i) as [Hd _]; [lia|].
  destruct (zeros_digits (16 - String.length (print_u i)) (print_u i) Hd) as [H1 H2].
  split; [done|]. split.
  - unfold name_digits. rewrite length_append, string_of_length, length_replicate.
    assert (String.length (print_u i) <= 16)%nat; [|lia].
    unfold print_u. pose proof (print_go_length (Z.to_nat (Z.log2 i)) i "" 16) as H. simpl in H. apply H; [|lia].
    unfold kIndexes in Hi. lia.
  - unfold name_digits. rewrite H2. apply print_u_value. lia.
Qed.

Lemma snapshot_name_digits i : snapshot_name i = name_digits i +:+ ".snap".
Proof. unfold snapshot_name, name_digits. by rewrite <- str_app_assoc. Qed.

Lemma names_ordered i j : 0 <= i < kIndexes -> 0 <= j < kIndexes ->
  name_ge (snapshot_name i) (snapshot_name j) <-> j <= i.
Proof.
  intros Hi Hj. destruct (name_digits_ok i Hi) as (I1 & I2 & I3), (name_digits_ok j Hj) as (J1 & J2 & J3).
  unfold name_ge, String.le, String.leb. rewrite !snapshot_name_digits, digits_compare by (done || lia).
  rewrite I3, J3. destruct (Z.compare_spec j i); split; intros H'; try done; lia.
Qed.

Lemma snap_stem_digits s : s <> "" -> snap_stem (s +:+ ".snap") = Some s.
Proof.
  induction s as [|c s IH]; intros Hne; [done|]. rewrite str_app_cons. cbn [snap_stem].
  destruct s as [|d s].
  - by rewrite (bool_decide_eq_true_2 _ eq_refl).
  - assert (String d s +:+ ".snap" <> ".snap") as Hx.
    { intros E. apply (f_equal String.length) in E. rewrite length_append in E. simpl in E. lia. }
    by rewrite (bool_decide_eq_false_2 _ Hx), IH.
Qed.

Lemma snap_index_name i : 0 <= i < kIndexes -> snap_index (snapshot_name i) = Some i.
Proof.
  intros Hi. destruct (name_digits_ok i Hi) as (I1 & I2 & I3). rewrite snapshot_name_digits. unfold snap_index.
  rewrite snap_stem_digits by (intros E; by rewrite E in I2). unfold from_chars_u64.
  assert (starts_with_digit (name_digits i) = true) as ->.
  { destruct (name_digits i); [done|]. cbn [str_all] in I1. by apply andb_true_iff in I1 as [I1 _]. }
  pose proof (scan_digits_all (name_digits i) 0 "" I1 eq_refl) as Hs. rewrite str_app_nil_r in Hs.
  rewrite Hs, I3, (bool_decide_eq_true_2 _ eq_refl).
  unfold kIndexes in Hi. destruct (Z.leb_spec i max_u64) as [_|H]; [done|unfold max_u64 in H; lia].
Qed.

(** ** Searching and pruning *)

#[export] Instance name_ge_total : Total name_ge.
Proof. intros a b. unfold name_ge. destruct (total String.le a b); auto. Qed.

#[export] Instance name_ge_trans : Transitive name_ge.
Proof. intros a b c Hab Hbc. unfold name_ge in *. by transitivity b. Qed.

#[export] Instance name_ge_antisym : AntiSymm (=) name_ge.
Proof. intros a b Hab Hba. unfold name_ge in *. by apply (anti_symm String.le). Qed.

Definition accepted_name (name : string) : Prop := is_some (snap_index name) = true.

#[export] Instance accepted_name_dec name : Decision (accepted_name name).
Proof. unfold accepted_name. apply _. Defined.

Lemma snapshot_files_sorted files : StronglySorted name_ge (snapshot_files files).
Proof. apply StronglySorted_merge_sort; apply _. Qed.

Lemma elem_of_snapshot_files files name :
  name ∈ snapshot_files files <-> accepted_name name /\ is_Some (files !! name).
Proof.
  unfold snapshot_files. rewrite (merge_sort_Permutation name_ge), list_elem_of_filter, elem_of_elements.
  apply and_iff_compat_l. apply elem_of_dom.
Qed.

Lemma snapshot_files_NoDup files : NoDup (snapshot_files files).
Proof.
  unfold snapshot_files. rewrite (merge_sort_Permutation name_ge). apply list.NoDup_filter, NoDup_elements.
Qed.

(** Removing files removes their names and keeps the order. *)
Lemma snapshot_files_subset files files' :
  files' ⊆ files ->
  snapshot_files files' = filter (fun name => is_Some (files' !! name)) (snapshot_files files).
Proof.
  intros Hsub. apply (StronglySorted_unique name_ge).
  - apply snapshot_files_sorted.
  - eapply StronglySorted_sublist; [apply sublist_filter|apply snapshot_files_sorted].
  - apply list.NoDup_Permutation; [apply snapshot_files_NoDup|apply list.NoDup_filter, snapshot_files_NoDup|].
    intros name. rewrite list_elem_of_filter, !elem_of_snapshot_files. split.
    + intros [H1 [b Hb]]. split; [by eexists|]. split; [done|]. exists b. by eapply lookup_weaken.
    + tauto.
Qed.

Definition remove_names (removed : string -> bool) (files : SnapshotDir) (names : list string) : SnapshotDir :=
  foldl (fun files name => if removed name then delete name files else files) files names.

Lemma remove_names_lookup removed names : forall files name,
  name ∉ names -> remove_names removed files names !! name = files !! name.
Proof.
  induction names as [|n names IH]; intros files name Hn; [done|]. cbn.
  apply not_elem_of_cons in Hn as [Hne Hn]. unfold remove_names in IH. rewrite IH by done.
  destruct (removed n); [|done]. by apply lookup_delete_ne.
Qed.

Lemma remove_names_subset removed names : forall files, remove_names removed files names ⊆ files.
Proof.
  induction names as [|n names IH]; intros files; [done|]. cbn. unfold remove_names in IH.
  etransitivity; [apply IH|]. destruct (removed n); [apply delete_subseteq|done].
Qed.

Lemma first_valid_app files unreadable a b :
  first_valid files unreadable (a ++ b) =
  match first_valid files unreadable a with Some s => Some s | None => first_valid files unreadable b end.
Proof. induction a as [|x a IH]; [done|]. cbn. destruct (unreadable x); [done|]. by case_goal. Qed.

Lemma first_valid_ext files files' unreadable names :
  (forall n, n ∈ names -> files' !! n = files !! n) ->
  first_valid files' unreadable names = first_valid files unreadable names.
Proof.
  induction names as [|x names IH]; intros Hn; [done|]. cbn. rewrite (Hn x) by constructor.
  rewrite IH; [done|]. intros n Hin. apply Hn. by constructor.
Qed.

(** Pruning keeps what a search finds among the files it keeps. *)
Lemma prune_keeps_found files keep removed unreadable snapshot :
  first_valid files unreadable (take keep (snapshot_files files)) = Some snapshot ->
  let files' := remove_names removed files (drop keep (snapshot_files files)) in
  first_valid files' unreadable (snapshot_files files') = Some snapshot.
Proof.
  intros Hfound files'. pose proof (remove_names_subset removed (drop keep (snapshot_files files)) files) as Hsub.
  assert (forall n, n ∈ take keep (snapshot_files files) -> files' !! n = files !! n) as Hkept.
  { intros n Hn. apply remove_names_lookup. intros Hd.
    pose proof (snapshot_files_NoDup files) as Hnd. rewrite <- (take_drop keep) in Hnd.
    apply list.NoDup_app in Hnd as (_ & Hdis & _). by apply (Hdis n). }
  rewrite (snapshot_files_subset files files' Hsub), <- (take_drop keep (snapshot_files files)).
  rewrite list.filter_app, first_valid_app.
  assert (filter (fun n => is_Some (files' !! n)) (take keep (snapshot_files files)) =
    take keep (snapshot_files files)) as ->.
  { apply filter_all, list.Forall_forall. intros n Hn. rewrite Hkept by done.
    apply elem_of_snapshot_files. rewrite <- (take_drop keep). apply elem_of_app. by left. }
  by rewrite (first_valid_ext files files'), Hfound.
Qed.

(** Every accepted file has a name the code gives, of an index up to [last]. *)
Definition names_up_to (last : Z) (files : SnapshotDir) : Prop :=
  forall name, accepted_name name -> is_Some (files !! name) ->
    exists i, 0 <= i <= last /\ name = snapshot_name i.

Lemma no_names last : names_up_to last ∅.
Proof. intros name _ [b Hb]. by apply lookup_empty_Some in Hb. Qed.

(** The file with the highest index comes first. *)
Lemma newest_first files last bytes :
  0 <= last < kIndexes -> names_up_to last files -> files !! snapshot_name last = Some bytes ->
  exists rest, snapshot_files files = snapshot_name last :: rest.
Proof.
  intros Hl Hn Hb.
  assert (snapshot_name last ∈ snapshot_files files) as Hin.
  { apply elem_of_snapshot_files. split; [|by eexists]. unfold accepted_name. by rewrite snap_index_name. }
  pose proof (snapshot_files_sorted files) as Hs.
  destruct (snapshot_files files) as [|x rest] eqn:E; [by apply elem_of_nil in Hin|]. exists rest. f_equal.
  apply elem_of_cons in Hin as [->|Hin]; [done|].
  inversion Hs as [|?? _ Hall]; subst. pose proof (proj1 (list.Forall_forall _ _) Hall _ Hin) as Hge.
  assert (x ∈ snapshot_files files) as Hx by (rewrite E; constructor).
  apply elem_of_snapshot_files in Hx as [H1 H2]. destruct (Hn x H1 H2) as (i & Hi & ->).
  apply (names_ordered i last) in Hge; [|lia|lia]. by replace i with last by lia.
Qed.

Lemma names_up_to_insert last files bytes :
  0 <= last < kIndexes -> names_up_to last files ->
  names_up_to last (<[snapshot_name last := bytes]> files).
Proof.
  intros Hl Hn name Ha [b Hb]. apply lookup_insert_Some in Hb as [[<- _]|[_ Hb]].
  - exists last. split; [lia|done].
  - apply Hn; [done|by eexists].
Qed.

(** The saved snapshot is what a search finds, before and after pruning. *)
Lemma saved_found files s bytes unreadable keep removed :
  snapshot_ok s -> s_last_applied s < kIndexes -> names_up_to (s_last_applied s) files ->
  encode_snapshot s = Ok bytes -> unreadable (snapshot_name (s_last_applied s)) = false -> (1 <= keep)%nat ->
  let files1 := <[snapshot_name (s_last_applied s) := bytes]> files in
  let files2 := remove_names removed files1 (drop keep (snapshot_files files1)) in
  first_valid files1 unreadable (snapshot_files files1) = Some (snapshot_of s) /\
  first_valid files2 unreadable (snapshot_files files2) = Some (snapshot_of s).
Proof.
  intros Hs Hl Hn He Hu Hk files1 files2. pose proof (sn_last s Hs) as Hlast. unfold u64 in Hlast.
  destruct (newest_first files1 (s_last_applied s) bytes) as [rest Hr];
    [lia|apply names_up_to_insert; [lia|done]|apply lookup_insert_eq|].
  assert (forall names, first_valid files1 unreadable (snapshot_name (s_last_applied s) :: names) =
    Some (snapshot_of s)) as Hfirst.
  { intros names. cbn [first_valid]. rewrite Hu.
    assert (files1 !! snapshot_name (s_last_applied s) = Some bytes) as -> by apply lookup_insert_eq.
    simpl default.
    by rewrite (read_encoded s bytes). }
  split; [by rewrite Hr|]. apply prune_keeps_found. rewrite Hr. destruct keep as [|keep]; [lia|].
  apply Hfirst.
Qed.

(** C32: snapshot files are found again. Take a state as the machine builds it
    from well-formed events, in which nothing is named by a single dash
    ([snapshot_ok]), at an index below 10^16 (up to there file names order like
    indexes), whose text fits the 32-bit size of the format; and a directory
    whose snapshot files are of indexes up to that one ([names_up_to]). Save the
    state, with any outcome of the system calls, and prune afterwards to at least
    one file, with any deletions failing. If the save reported success and its
    file can be read, the search for the newest snapshot returns the one of this
    state, which verifies and restores it; if it reported an error, the search
    finds what it found before or this snapshot. *)
Theorem saved_snapshot_is_found dir s sync created synced outcome unreadable keep removed scanned :
  snapshot_ok s -> s_last_applied s < kIndexes -> names_up_to (s_last_applied s) (default ∅ dir) ->
  zsize (bytes_of (snapshot_payload s)) <= 4294967295 - 64 ->
  unreadable (snapshot_name (s_last_applied s)) = false -> (1 <= keep)%nat ->
  let '(dir', error) := save_snapshot dir s sync created synced outcome in
  let dir'' := fst (prune_snapshots dir' keep removed scanned) in
  verify_snapshot (snapshot_of s) = Ok (compact_state s) /\
  (error = None -> load_latest_snapshot dir'' unreadable None = Ok (Some (snapshot_of s))) /\
  (error <> None ->
     load_latest_snapshot dir' unreadable None = load_latest_snapshot dir unreadable None \/
     load_latest_snapshot dir' unreadable None = Ok (Some (snapshot_of s))).
Proof.
  intros Hs Hl Hn Hsize Hu Hk. unfold save_snapshot. rewrite encode_snapshot_layout by done.
  pose proof (encode_snapshot_layout s Hsize) as He. set (bytes := seal _) in *. clearbody bytes.
  pose proof (verify_snapshot_of s Hs) as Hv.
  assert (forall d, load_latest_snapshot (Some (default ∅ d)) unreadable None =
    load_latest_snapshot d unreadable None) as Hempty by (by intros [d|]).
  destruct (saved_found (default ∅ dir) s bytes unreadable keep removed Hs Hl Hn He Hu Hk) as [F1 F2].
  destruct created as [e|]; [by split_and!; [done|done|intros _; left]|].
  destruct (if sync then synced else None) as [e|];
    [split_and!; [done|done|intros _; left; apply Hempty]|].
  destruct outcome as [|e|e]; cbn [write_atomic].
  - split_and!; [done| |done]. intros _. unfold prune_snapshots. destruct scanned; cbn [fst].
    + unfold load_latest_snapshot. by rewrite F1.
    + unfold load_latest_snapshot. unfold remove_names in F2. by rewrite F2.
  - split_and!; [done|done|]. intros _. left. rewrite <- (Hempty dir). unfold load_latest_snapshot.
    destruct (default ∅ dir !! snapshot_name (s_last_applied s)) as [b|] eqn:E; [|done].
    assert (<[snapshot_name (s_last_applied s) := b]> (default ∅ dir) = default ∅ dir) as ->; [|done].
    by apply insert_id.
  - split_and!; [done|done|]. intros _. right. unfold load_latest_snapshot. by rewrite F1.
Qed.

(** A saved state of the sample show. *)
Lemma demo_snapshot_ok : snapshot_ok (en_state demo_engine).
Proof.
  destruct demo_good as [Hg _]. apply mo_snapshot.
  apply (replay_machine_ok demo_events empty_state _ empty_machine_ok Hg). vm_compute. reflexivity.
Qed.

Lemma saved_snapshot_is_found_witness :
  load_latest_snapshot
    (fst (save_snapshot None (en_state demo_engine) true None None Replaced)) (fun _ => false) None =
  Ok (Some (snapshot_of (en_state demo_engine))).
Proof.
  pose proof (saved_snapshot_is_found None (en_state demo_engine) true None None Replaced (fun _ => false) 2
    (fun _ => false) (Some "denied") demo_snapshot_ok) as H.
  destruct (save_snapshot None (en_state demo_engine) true None None Replaced) as [dir' error] eqn:E.
  assert (error = None) as -> by (vm_compute in E; congruence).
  apply H; [by vm_compute|apply no_names|by vm_compute|done|lia|done].
Defined.
