(* ===== verification/FileEngine.v ===== *)
(** * The file engine

    [cpp-runtime/include/choreoos/state/store.hpp] and
    [src/state/store.cpp]: the store of one node. It keeps the log, the
    metadata and the snapshots of [Wal], [Metadata], [SnapshotFile] and
    [Transaction] in one directory, and the committed state in memory. Every
    system call that can fail is an argument; after a failure that may have
    changed a file the object refuses to write until it is reopened. *)

From S2P Require Import Prelude Text Stream Types Model EventCodec Machine SnapshotText Bytes Wal Metadata Transaction SnapshotFile.

Record StoreOptions := mkStoreOptions {
  so_snapshot_every : Z;
  so_sync : bool;
  so_commit_on_append : bool;
  so_test_mode : bool;
  so_compact_log : bool;
}.

Inductive StorageFault := NoStorageFault | FailBeforeFlush | FailAfterFlush.

#[export] Instance StorageFault_eq_dec : EqDecision StorageFault.
Proof. solve_decision. Defined.

Record RecoveryReport := mkRecoveryReport {
  rp_used_snapshot : bool;
  rp_snapshot_index : Z;
  rp_replayed : Z;
  rp_truncated : Z;
  rp_commit_index : Z;
  rp_state_hash : string;
}.

Record FileEngine := mkFileEngine {
  fe_disk : Directory;
  fe_options : StoreOptions;
  fe_wal : WriteAheadLog;
  fe_engine : Engine;
  fe_report : RecoveryReport;
  fe_commit : Z;
  fe_snapshot : option Snapshot;
  fe_fault : StorageFault;
  fe_install_fault : InstallFault;
  fe_recovery_required : bool;
}.

(** The outcomes of the system calls of one operation. *)
Record Os := mkOs {
  os_append : WriteOutcome;
  os_resized : option Error;
  os_truncate_synced : option Error;
  os_meta_read : option Error;
  os_meta_write : AtomicWrite;
  os_folder : option Error;
  os_folder_synced : option Error;
  os_save : AtomicWrite;
  os_removed : string -> bool;
  os_scanned : option string;
  os_rewrite : AtomicWrite;
  os_cut : option Error;
}.

(** Everything succeeds. *)
Definition calm : Os :=
  mkOs Written None None None Replaced None None Replaced (fun _ => true) None Replaced None.

Definition store_error (detail : string) : Error := mkError StoreError detail.

(** ** Fields *)

Definition with_wal (wal : WriteAheadLog) (f : FileEngine) : FileEngine :=
  let d := fe_disk f in
  mkFileEngine (mkDirectory (dir_journal d) (dir_snapshots d) (dir_meta d) (Some (wal_file wal)))
    (fe_options f) wal (fe_engine f) (fe_report f) (fe_commit f) (fe_snapshot f) (fe_fault f)
    (fe_install_fault f) (fe_recovery_required f).

Definition with_meta (meta : option (list Z)) (f : FileEngine) : FileEngine :=
  let d := fe_disk f in
  mkFileEngine (mkDirectory (dir_journal d) (dir_snapshots d) meta (dir_wal d))
    (fe_options f) (fe_wal f) (fe_engine f) (fe_report f) (fe_commit f) (fe_snapshot f) (fe_fault f)
    (fe_install_fault f) (fe_recovery_required f).

Definition with_snapshots (snapshots : SnapshotDir) (f : FileEngine) : FileEngine :=
  let d := fe_disk f in
  mkFileEngine (mkDirectory (dir_journal d) snapshots (dir_meta d) (dir_wal d))
    (fe_options f) (fe_wal f) (fe_engine f) (fe_report f) (fe_commit f) (fe_snapshot f) (fe_fault f)
    (fe_install_fault f) (fe_recovery_required f).

Definition with_disk (disk : Directory) (f : FileEngine) : FileEngine :=
  mkFileEngine disk (fe_options f) (fe_wal f) (fe_engine f) (fe_report f) (fe_commit f)
    (fe_snapshot f) (fe_fault f) (fe_install_fault f) (fe_recovery_required f).

Definition with_engine (engine : Engine) (f : FileEngine) : FileEngine :=
  mkFileEngine (fe_disk f) (fe_options f) (fe_wal f) engine (fe_report f) (fe_commit f)
    (fe_snapshot f) (fe_fault f) (fe_install_fault f) (fe_recovery_required f).

(** A new committed index and the report of it. *)
Definition with_commit (commit : Z) (f : FileEngine) : FileEngine :=
  let r := fe_report f in
  mkFileEngine (fe_disk f) (fe_options f) (fe_wal f) (fe_engine f)
    (mkRecoveryReport (rp_used_snapshot r) (rp_snapshot_index r) (rp_replayed r) (rp_truncated r)
       commit (state_hash (en_state (fe_engine f))))
    commit (fe_snapshot f) (fe_fault f) (fe_install_fault f) (fe_recovery_required f).

Definition with_snapshot (snapshot : option Snapshot) (f : FileEngine) : FileEngine :=
  mkFileEngine (fe_disk f) (fe_options f) (fe_wal f) (fe_engine f) (fe_report f) (fe_commit f)
    snapshot (fe_fault f) (fe_install_fault f) (fe_recovery_required f).

Definition with_fault (fault : StorageFault) (f : FileEngine) : FileEngine :=
  mkFileEngine (fe_disk f) (fe_options f) (fe_wal f) (fe_engine f) (fe_report f) (fe_commit f)
    (fe_snapshot f) fault (fe_install_fault f) (fe_recovery_required f).

Definition with_install_fault (fault : InstallFault) (f : FileEngine) : FileEngine :=
  mkFileEngine (fe_disk f) (fe_options f) (fe_wal f) (fe_engine f) (fe_report f) (fe_commit f)
    (fe_snapshot f) (fe_fault f) fault (fe_recovery_required f).

Definition fail_closed (f : FileEngine) : FileEngine :=
  mkFileEngine (fe_disk f) (fe_options f) (fe_wal f) (fe_engine f) (fe_report f) (fe_commit f)
    (fe_snapshot f) (fe_fault f) (fe_install_fault f) true.

(** ** Guards and faults *)

Definition require_writable (f : FileEngine) : option Error :=
  if fe_recovery_required f
  then Some (store_error "storage failure requires reopen before further writes") else None.

(** [storage_failure_unlocked] *)
Definition storage_failure (f : FileEngine) (error : Error) : FileEngine * option Error :=
  (fail_closed f, Some error).

(** [checked_mutation_unlocked] *)
Definition checked_mutation (r : FileEngine * option Error) : FileEngine * option Error :=
  match r with
  | (f, Some e) => storage_failure f e
  | (f, None) => (f, None)
  end.

Definition fail_before_flush (f : FileEngine) : FileEngine * option Error :=
  if bool_decide (fe_fault f = FailBeforeFlush)
  then (with_fault NoStorageFault f, Some (store_error "injected failure before flush"))
  else (f, None).

Definition fail_after_flush (f : FileEngine) : FileEngine * option Error :=
  if bool_decide (fe_fault f = FailAfterFlush)
  then (with_fault NoStorageFault f, Some (store_error "injected failure after flush"))
  else (f, None).

Definition arm_storage_fault (f : FileEngine) (fault : StorageFault) : FileEngine * option Error :=
  if negb (so_test_mode (fe_options f))
  then (f, Some (store_error "storage faults require test mode"))
  else (with_fault fault f, None).

Definition arm_snapshot_install_fault (f : FileEngine) (fault : InstallFault)
    : FileEngine * option Error :=
  if negb (so_test_mode (fe_options f))
  then (f, Some (store_error "snapshot install faults require test mode"))
  else (with_install_fault fault f, None).

(** ** The log in memory *)

Definition log_events (f : FileEngine) : list Event := wal_events (fe_wal f).

(** The index of the first and of the last record. *)
Definition front_index (events : list Event) : option Z := ev_index <$> head events.
Definition back_index (events : list Event) : option Z := ev_index <$> list.last events.

Definition log_entry_of (events : list Event) (index : Z) : option Event :=
  match front_index events, back_index events with
  | Some first, Some last =>
      if (index <? first) || (last <? index) then None else events !! Z.to_nat (index - first)
  | _, _ => None
  end.

Definition log_entry (f : FileEngine) (index : Z) : option Event := log_entry_of (log_events f) index.

Definition last_log_index (f : FileEngine) : Z :=
  default (s_last_applied (en_state (fe_engine f))) (back_index (log_events f)).

Definition log_first_index (f : FileEngine) : Z :=
  default (wrap64 (s_last_applied (en_state (fe_engine f)) + 1)) (front_index (log_events f)).

Definition log_term_at (f : FileEngine) (index : Z) : option Z :=
  if index =? 0 then Some 0
  else
    match log_entry f index with
    | Some entry => Some (ev_term entry)
    | None =>
        match fe_snapshot f with
        | Some snapshot => if sp_index snapshot =? index then Some (sp_term snapshot) else None
        | None => None
        end
    end.

(** ** Snapshots and compaction *)

Definition compact (f : FileEngine) (anchor : Z) (os : Os) : FileEngine * option Error :=
  match front_index (log_events f), back_index (log_events f) with
  | Some first, Some last =>
      if anchor <=? first then (f, None)
      else if last <? anchor then (f, None)
      else
        let kept := drop (Z.to_nat (anchor - first)) (log_events f) in
        let '(wal, error) := rewrite_log (fe_wal f) kept (os_rewrite os) (os_cut os) in
        match checked_mutation (with_wal wal f, error) with
        | (f, None) =>
            if so_compact_log (fe_options f) then
              let '(engine, error) := retain_history_from (fe_engine f) anchor in
              checked_mutation (with_engine engine f, error)
            else (f, None)
        | failed => failed
        end
  | _, _ => (f, None)
  end.

(** The snapshot of the committed state, as kept in memory. *)
Definition snapshot_in_memory (s : ChoreographyState) : Snapshot :=
  mkSnapshot (s_last_applied s) (s_term s) (state_hash s) [] (snapshot_payload s).

Definition take_snapshot (f : FileEngine) (os : Os) : FileEngine * option Error :=
  let s := en_state (fe_engine f) in
  let '(files, error) :=
    save_snapshot (Some (dir_snapshots (fe_disk f))) s (so_sync (fe_options f)) (os_folder os)
      (os_folder_synced os) (os_save os) in
  let f := with_snapshots (default ∅ files) f in
  match error with
  | Some e => (f, Some e)
  | None =>
      let f := with_snapshot (Some (snapshot_in_memory s)) f in
      let '(files, pruned) :=
        prune_snapshots (Some (dir_snapshots (fe_disk f))) 2 (os_removed os) (os_scanned os) in
      let f := with_snapshots (default ∅ files) f in
      match pruned with
      | Err e => (f, Some e)
      | Ok result =>
          if so_compact_log (fe_options f) && (2 <=? pr_remaining result)%nat
          then compact f (pr_oldest_index result) os
          else (f, None)
      end
  end.

Definition maybe_snapshot (f : FileEngine) (os : Os) : FileEngine * option Error :=
  let every := so_snapshot_every (fe_options f) in
  if every =? 0 then (f, None)
  else
    let applied := s_last_applied (en_state (fe_engine f)) in
    let last := match fe_snapshot f with Some snapshot => sp_index snapshot | None => 0 end in
    if applied / every <=? last / every then (f, None)
    else checked_mutation (take_snapshot f os).

Definition checkpoint (f : FileEngine) (os : Os) : FileEngine * option Error :=
  match require_writable f with
  | Some e => (f, Some e)
  | None =>
      if s_last_applied (en_state (fe_engine f)) =? 0 then (f, None)
      else checked_mutation (take_snapshot f os)
  end.

Definition discard_compacted_prefix (f : FileEngine) (os : Os) : FileEngine * option Error :=
  match require_writable f with
  | Some e => (f, Some e)
  | None =>
      match fe_snapshot f with
      | None => (f, Some (store_error "no snapshot to compact against"))
      | Some snapshot => compact f (sp_index snapshot) os
      end
  end.

(** ** The log and the commit index *)

(** [load_metadata] on the node's file; reading it may fail. *)
Definition read_metadata (f : FileEngine) (os : Os) : result Error NodeMetadata :=
  match os_meta_read os with Some e => Err e | None => load_metadata (dir_meta (fe_disk f)) end.

(** [store_metadata] on the node's file. *)
Definition write_metadata (f : FileEngine) (metadata : NodeMetadata) (os : Os)
    : FileEngine * option Error :=
  let '(file, error) := store_metadata (dir_meta (fe_disk f)) metadata (os_meta_write os) in
  (with_meta file f, error).

Definition append_event (f : FileEngine) (event : Event) (os : Os) : FileEngine * option Error :=
  match require_writable f with
  | Some e => (f, Some e)
  | None =>
      let expected := match back_index (log_events f) with
                      | None => wrap64 (s_last_applied (en_state (fe_engine f)) + 1)
                      | Some last => index_next last
                      end in
      if negb (ev_index event =? expected)
      then (f, Some (mkError IndexGap "appended event is not the next log index"))
      else if kMaxPayloadBytes <? Z.of_nat (String.length (canonical_event event))
      then (f, Some (store_error "event payload exceeds 1 MiB"))
      else
        match fail_before_flush f with
        | (f, Some e) => (f, Some e)
        | (f, None) =>
            match wal_append (fe_wal f) event (os_append os) with
            | (wal, Some e) => storage_failure (with_wal wal f) e
            | (wal, None) => checked_mutation (fail_after_flush (with_wal wal f))
            end
        end
  end.

(** [FileEngine::truncate_after] *)
Definition store_truncate_after (f : FileEngine) (index : Z) (os : Os) : FileEngine * option Error :=
  match require_writable f with
  | Some e => (f, Some e)
  | None =>
      if index <? fe_commit f
      then (f, Some (store_error "committed log prefix cannot be truncated"))
      else
        let '(wal, error) :=
          truncate_after (fe_wal f) index (os_resized os) (os_truncate_synced os) in
        checked_mutation (with_wal wal f, error)
  end.

(** The batch of [commit_through]: the records from [next] on, until one is
    missing. *)
Fixpoint commit_batch (f : FileEngine) (next : Z) (count : nat) : list Event :=
  match count with
  | O => []
  | S count =>
      match log_entry f next with
      | None => []
      | Some event => event :: commit_batch f (next + 1) count
      end
  end.

Definition raise_term (term : Z) (metadata : NodeMetadata) : NodeMetadata :=
  if md_term metadata <? term
  then mkMetadata term (md_commit_index metadata) (md_voted_for metadata) else metadata.

Definition set_commit (index : Z) (metadata : NodeMetadata) : NodeMetadata :=
  mkMetadata (md_term metadata) index (md_voted_for metadata).

Definition commit_through (f : FileEngine) (index : Z) (os : Os) : FileEngine * option Error :=
  match require_writable f with
  | Some e => (f, Some e)
  | None =>
      if index <? fe_commit f then (f, None)
      else
        let batch := commit_batch f (fe_commit f + 1) (Z.to_nat (index - fe_commit f)) in
        match prepare_committed (fe_engine f) batch with
        | Err e => (f, Some e)
        | Ok replacement =>
            if negb (s_last_applied (en_state replacement) =? index)
            then (f, Some (mkError IndexGap "commit index is not present in the log"))
            else
              match read_metadata f os with
              | Err e => storage_failure f e
              | Ok metadata =>
                  let updated :=
                    raise_term (s_term (en_state replacement)) (set_commit index metadata) in
                  match write_metadata f updated os with
                  | (f, Some e) => storage_failure f e
                  | (f, None) =>
                      let f := with_engine (publish_committed (fe_engine f) replacement) f in
                      checked_mutation (maybe_snapshot (with_commit index f) os)
                  end
              end
        end
  end.

Definition persist_consensus (f : FileEngine) (term : Z) (voted_for : option string) (os : Os)
    : FileEngine * option Error :=
  match require_writable f with
  | Some e => (f, Some e)
  | None =>
      match read_metadata f os with
      | Err e => storage_failure f e
      | Ok metadata =>
          if term <? md_term metadata
          then (f, Some (store_error "consensus term cannot move backwards"))
          else checked_mutation
                 (write_metadata f (mkMetadata term (md_commit_index metadata) voted_for) os)
      end
  end.

(** [FileEngine::submit]: the single-node path. *)
Definition store_submit (f : FileEngine) (command : Command) (os : Os)
    : FileEngine * result Error SubmitResult :=
  match require_writable f with
  | Some e => (f, Err e)
  | None =>
      let s := en_state (fe_engine f) in
      if is_some (s_applied_commands s !! c_id command) || is_some (s_receipts s !! c_id command)
      then match resolve_receipt s command with
           | Err e => (f, Err e)
           | Ok receipt => (f, Ok (mkSubmitResult receipt true))
           end
      else
        match propose s command with
        | Err e => (f, Err e)
        | Ok proposed =>
            if kMaxPayloadBytes <? Z.of_nat (String.length (canonical_event proposed))
            then (f, Err (store_error "event payload exceeds 1 MiB"))
            else
              match fail_before_flush f with
              | (f, Some e) => (f, Err e)
              | (f, None) =>
                  match wal_append (fe_wal f) proposed (os_append os) with
                  | (wal, Some e) => (fail_closed (with_wal wal f), Err e)
                  | (wal, None) =>
                      match fail_after_flush (with_wal wal f) with
                      | (f, Some e) => (fail_closed f, Err e)
                      | (f, None) =>
                          match read_metadata f os with
                          | Err e => (fail_closed f, Err e)
                          | Ok metadata =>
                              let updated :=
                                raise_term (ev_term proposed) (set_commit (ev_index proposed) metadata) in
                              match write_metadata f updated os with
                              | (f, Some e) => (fail_closed f, Err e)
                              | (f, None) =>
                                  match apply_committed (fe_engine f) proposed with
                                  | Err e => (fail_closed f, Err e)
                                  | Ok engine =>
                                      let f := with_commit (s_last_applied (en_state engine))
                                                 (with_engine engine f) in
                                      match maybe_snapshot f os with
                                      | (f, Some e) => (fail_closed f, Err e)
                                      | (f, None) => (f, Ok (mkSubmitResult proposed false))
                                      end
                                  end
                              end
                          end
                      end
                  end
              end
        end
  end.

(** ** Installing a snapshot of a peer *)

(** The system calls of one install. *)
Record InstallOs := mkInstallOs {
  is_access : option Error;
  is_ancestors : option Error;
  is_journal : AtomicWrite;
  is_apply : InstallOutcome;
  is_created : WalAccess;
  is_cut : option Error;
}.

Definition apply_events (engine : Engine) (events : list Event) : result Error Engine :=
  foldl (fun r event => let? engine := r in apply_committed engine event) (Ok engine) events.

(** The engine a snapshot stands for. *)
Definition engine_of_snapshot (snapshot : Snapshot) (restored : ChoreographyState)
    : result Error Engine :=
  if is_legacy_format snapshot then apply_events empty_engine (sp_events snapshot)
  else Ok (restore restored []).

(** The records kept beside an installed snapshot. *)
Definition install_suffix (f : FileEngine) (snapshot : Snapshot) : list Event :=
  match log_entry f (sp_index snapshot) with
  | Some anchor =>
      if ev_term anchor =? sp_term snapshot
      then filter (fun event => sp_index snapshot <= ev_index event) (log_events f) else []
  | None => []
  end.

Definition install_snapshot (f : FileEngine) (snapshot : Snapshot) (os : Os) (io : InstallOs)
    : FileEngine * option Error :=
  match require_writable f with
  | Some e => (f, Some e)
  | None =>
  if sp_index snapshot <=? fe_commit f then (f, None)
  else
  match verify_snapshot snapshot with
  | Err e => (f, Some e)
  | Ok restored =>
  match engine_of_snapshot snapshot restored with
  | Err e => (f, Some e)
  | Ok replacement =>
  match read_metadata f os with
  | Err e => storage_failure f e
  | Ok metadata =>
  let updated := raise_term (s_term (en_state replacement)) (set_commit (sp_index snapshot) metadata) in
  match encode_snapshot (en_state replacement), encode_metadata updated,
        encode_wal (install_suffix f snapshot) with
  | Err e, _, _ | _, Err e, _ | _, _, Err e => (f, Some e)
  | Ok snapshot_bytes, Ok metadata_bytes, Ok wal_bytes =>
      let transaction := mkTransaction (sp_index snapshot) snapshot_bytes metadata_bytes wal_bytes in
      let fault := fe_install_fault f in
      let f := with_install_fault NoFault f in
      let '(disk, error) :=
        commit_snapshot_transaction (fe_disk f) transaction fault (is_access io) (is_ancestors io)
          (is_journal io) (is_apply io) in
      let f := with_disk disk f in
      match error with
      | Some e => (fail_closed f, Some e)
      | None =>
          let '(file, opened) := wal_open (dir_wal disk) (is_created io) (is_cut io) in
          let f := with_disk (mkDirectory (dir_journal disk) (dir_snapshots disk) (dir_meta disk) file) f in
          match opened with
          | Err e => (fail_closed f, Some e)
          | Ok wal =>
              let f := with_engine replacement (with_wal wal f) in
              let f := with_snapshot
                         (Some (mkSnapshot (sp_index snapshot) (sp_term snapshot) (sp_hash snapshot) []
                                  (snapshot_payload (en_state replacement)))) f in
              let '(files, _) :=
                prune_snapshots (Some (dir_snapshots (fe_disk f))) 1 (os_removed os) (os_scanned os) in
              let f := with_snapshots (default ∅ files) f in
              let report := fe_report f in
              let installed (f : FileEngine) :=
                mkFileEngine (fe_disk f) (fe_options f) (fe_wal f) (fe_engine f)
                  (mkRecoveryReport true (sp_index snapshot) (rp_replayed report) (rp_truncated report)
                     (sp_index snapshot) (sp_hash snapshot))
                  (sp_index snapshot) (fe_snapshot f) (fe_fault f) (fe_install_fault f)
                  (fe_recovery_required f) in
              if so_compact_log (fe_options f) then
                let '(engine, error) := retain_history_from (fe_engine f) (log_first_index f) in
                match error with
                | Some e =>
                    (* the commit index has moved; the report has not *)
                    let f := with_engine engine f in
                    (fail_closed (mkFileEngine (fe_disk f) (fe_options f) (fe_wal f) (fe_engine f)
                       (fe_report f) (sp_index snapshot) (fe_snapshot f) (fe_fault f)
                       (fe_install_fault f) (fe_recovery_required f)), Some e)
                | None => (installed (with_engine engine f), None)
                end
              else (installed f, None)
          end
      end
  end end end end end.

(** ** Opening a directory *)

(** The system calls of [open]. *)
Record OpenOs := mkOpenOs {
  op_directory : option Error;
  op_journal : option Error;
  op_journal_sync : option Error;
  op_apply : InstallOutcome;
  op_created : WalAccess;
  op_cut : option Error;
  op_unreadable : string -> bool;
  op_scanned : option string;
  op_meta_read : option Error;
  op_rewrite : AtomicWrite;
  op_rewrite_cut : option Error;
  op_meta_write : AtomicWrite;
}.

(** The contiguity scan; [previous] is 0 before the first record. *)
Fixpoint contiguous (previous : Z) (events : list Event) : bool :=
  match events with
  | [] => true
  | event :: rest =>
      negb ((ev_index event =? 0) ||
            (negb (previous =? 0) &&
             ((previous =? max_u64) || negb (ev_index event =? wrap64 (previous + 1))))) &&
      contiguous (ev_index event) rest
  end.

(** The committed history kept beside a restored snapshot, when the log still
    has all of it. *)
Fixpoint history_through (index : Z) (events : list Event) : list Event :=
  match events with
  | [] => []
  | event :: rest => if index <? ev_index event then [] else event :: history_through index rest
  end.

Definition retained_history (index : Z) (events : list Event) : list Event :=
  match front_index events, back_index events with
  | Some first, Some last =>
      if (first =? 1) && (index <=? last) then history_through index events else []
  | _, _ => []
  end.

(** The engine and the in-memory snapshot from the selected file. *)
Definition restore_from (snapshot : Snapshot) (records : list Event)
    : result Error (Engine * Snapshot) :=
  let? restored := verify_snapshot snapshot in
  let in_memory :=
    if is_legacy_format snapshot
    then mkSnapshot (sp_index snapshot) (sp_term snapshot) (sp_hash snapshot) []
           (snapshot_payload restored)
    else snapshot in
  let? engine :=
    if is_legacy_format snapshot then apply_events empty_engine (sp_events snapshot)
    else Ok (restore restored (retained_history (sp_index snapshot) records)) in
  Ok (engine, in_memory).

(** The joint between the snapshot and the log. A log that ends below the
    snapshot is replaced by an empty one when the metadata is that of the
    snapshot; the other failures refuse the directory. *)
Definition join_log (wal : WriteAheadLog) (snapshot : option Snapshot) (metadata : NodeMetadata)
    (outcome : AtomicWrite) (cut : option Error) : WriteAheadLog * option Error :=
  match snapshot, front_index (wal_events wal), back_index (wal_events wal) with
  | Some boundary, Some first, Some last =>
      let index := sp_index boundary in
      let '(wal, error) :=
        if last <? index then
          if negb (md_commit_index metadata =? index) || (md_term metadata <? sp_term boundary)
          then (wal, Some (store_error "snapshot and WAL cannot cover durable commit metadata"))
          else rewrite_log wal [] outcome cut
        else if (index <? first) && negb (first - index =? 1)
        then (wal, Some (store_error "retained WAL does not join the recovered snapshot boundary"))
        else (wal, None) in
      match error with
      | Some e => (wal, Some e)
      | None =>
          match log_entry_of (wal_events wal) index with
          | Some anchor =>
              if negb (ev_term anchor =? sp_term boundary)
              then (wal, Some (store_error "retained WAL anchor disagrees with recovered snapshot term"))
              else (wal, None)
          | None => (wal, None)
          end
      end
  | _, _, _ => (wal, None)
  end.

(** The committed records after the snapshot. *)
Fixpoint replay_committed (engine : Engine) (start limit : Z) (events : list Event) (count : Z)
    : result Error (Engine * Z) :=
  match events with
  | [] => Ok (engine, count)
  | event :: rest =>
      if ev_index event <=? start then replay_committed engine start limit rest count
      else if limit <? ev_index event then Ok (engine, count)
      else let? engine := apply_committed engine event in
           replay_committed engine start limit rest (count + 1)
  end.

(** The last steps of [open]: metadata of a single-node store, and retention. *)
Definition finish_open (disk : Directory) (options : StoreOptions) (wal : WriteAheadLog)
    (engine : Engine) (snapshot : option Snapshot) (metadata : NodeMetadata) (replayed : Z) (os : OpenOs)
    : Directory * result Error FileEngine :=
  let s := en_state engine in
  let commit := if so_commit_on_append options then s_last_applied s else md_commit_index metadata in
  let '(disk, error) :=
    if so_commit_on_append options &&
       ((md_commit_index metadata <? commit) || (md_term metadata <? s_term s))
    then
      let updated := raise_term (s_term s) (set_commit commit metadata) in
      let '(file, error) := store_metadata (dir_meta disk) updated (op_meta_write os) in
      (mkDirectory (dir_journal disk) (dir_snapshots disk) file (dir_wal disk), error)
    else (disk, None) in
  match error with
  | Some e => (disk, Err e)
  | None =>
      let store engine :=
        mkFileEngine disk options wal engine
          (mkRecoveryReport (is_some snapshot)
             (match snapshot with Some boundary => sp_index boundary | None => 0 end)
             replayed (wal_truncated wal) commit (state_hash (en_state engine)))
          commit snapshot NoStorageFault NoFault false in
      if so_compact_log options then
        let first := log_first_index (store engine) in
        match retain_history_from engine first with
        | (_, Some e) => (disk, Err e)
        | (engine, None) => (disk, Ok (store engine))
        end
      else (disk, Ok (store engine))
  end.

Definition store_open (disk : Directory) (options : StoreOptions) (os : OpenOs)
    : Directory * result Error FileEngine :=
  match op_directory os with
  | Some _ => (disk, Err (store_error "unable to create store directory"))
  | None =>
  match recover_snapshot_transaction disk (op_journal os) (op_journal_sync os) (op_apply os) with
  | (disk, Some e) => (disk, Err e)
  | (disk, None) =>
  let '(file, opened) := wal_open (dir_wal disk) (op_created os) (op_cut os) in
  let disk := mkDirectory (dir_journal disk) (dir_snapshots disk) (dir_meta disk) file in
  match opened with
  | Err e => (disk, Err e)
  | Ok wal =>
  if negb (contiguous 0 (wal_events wal))
  then (disk, Err (store_error "retained WAL indexes are not contiguous"))
  else
  match load_latest_snapshot (Some (dir_snapshots disk)) (op_unreadable os) (op_scanned os) with
  | Err e => (disk, Err e)
  | Ok found =>
  match (match op_meta_read os with Some e => Err e | None => load_metadata (dir_meta disk) end) with
  | Err e => (disk, Err e)
  | Ok metadata =>
  let limit := if so_commit_on_append options then max_u64 else md_commit_index metadata in
  let selected :=
    match found with
    | Some snapshot => if sp_index snapshot <=? limit then Some snapshot else None
    | None => None
    end in
  match (match selected with
         | Some snapshot => let? (engine, in_memory) := restore_from snapshot (wal_events wal) in
                            Ok (engine, Some in_memory)
         | None => Ok (empty_engine, None)
         end) with
  | Err e => (disk, Err e)
  | Ok (engine, snapshot) =>
  let start := match selected with Some snapshot => sp_index snapshot | None => 0 end in
  if (start =? 0) && match front_index (wal_events wal) with Some first => 1 <? first | None => false end
  then (disk, Err (store_error
         "the log was compacted but no valid snapshot covers its missing prefix"))
  else
  let '(wal, error) := join_log wal snapshot metadata (op_rewrite os) (op_rewrite_cut os) in
  let disk := mkDirectory (dir_journal disk) (dir_snapshots disk) (dir_meta disk) (Some (wal_file wal)) in
  match error with
  | Some e => (disk, Err e)
  | None =>
  match replay_committed engine start limit (wal_events wal) 0 with
  | Err e => (disk, Err e)
  | Ok (engine, replayed) =>
      if s_last_applied (en_state engine) <? md_commit_index metadata
      then (disk, Err (store_error "committed history is missing from snapshot and WAL"))
      else finish_open disk options wal engine snapshot metadata replayed os
  end end end end end end end end.
