(* ===== verification/StoreVotes.v ===== *)
(** * The term and the vote on disk

    What the operations of a [FileEngine] do to the term and the vote that a
    restart will find: only [persist_consensus] changes the vote, a commit or
    an install can at most raise the term to that of an applied entry, and all
    others leave the metadata alone. A pending install journal carries metadata
    too, which the next opening restores. *)

From S2P Require Import Prelude Text Stream Types Model EventCodec Machine MachineThms SnapshotText Bytes Wal WalThms Metadata Transaction SnapshotFile FileEngine.

(** ** Metadata *)

Definition meta_valid (m : NodeMetadata) : Prop :=
  valid_term (md_term m) /\ match md_voted_for m with None => True | Some id => valid_id id = true end.

(** The same vote, and at least the term. *)
Definition raised (m m' : NodeMetadata) : Prop :=
  md_voted_for m' = md_voted_for m /\ md_term m <= md_term m' /\ meta_valid m'.

Lemma land_shift_wrap v k : 0 <= k <= 56 -> Z.land (Z.shiftr (wrap64 v) k) 255 = Z.land (Z.shiftr v k) 255.
Proof.
  intros Hk. change 255 with (Z.ones 8). unfold wrap64. change 18446744073709551616 with (2 ^ 64).
  apply Z.bits_inj'. intros n Hn. rewrite !Z.land_spec, !Z.shiftr_spec by lia.
  destruct (Z.ltb_spec n 8).
  - by rewrite Z.mod_pow2_bits_low by lia.
  - by rewrite Z.ones_spec_high, !andb_false_r by lia.
Qed.

Lemma le_bytes_wrap v : le_bytes 8 (wrap64 v) = le_bytes 8 v.
Proof.
  unfold le_bytes. apply list_fmap_ext. intros i x Hi. apply lookup_seq in Hi as [-> Hi].
  apply land_shift_wrap. lia.
Qed.

(** Metadata is read back with its term and vote, and the commit index modulo
    2^64. *)
Lemma metadata_read_back m bytes : meta_valid m -> encode_metadata m = Ok bytes ->
  decode_metadata bytes = Ok (mkMetadata (md_term m) (wrap64 (md_commit_index m)) (md_voted_for m)).
Proof.
  intros [Ht Hv] He. assert (metadata_ok (mkMetadata (md_term m) (wrap64 (md_commit_index m)) (md_voted_for m))) as Hok.
  { split; [done|]. split; [apply wrap64_u64|done]. }
  pose proof (encode_metadata_ok _ Hok) as Ho. cbn [md_term md_commit_index md_voted_for] in Ho.
  rewrite encode_metadata_layout in He.
  - injection He as <-. replace (metadata_body (md_term m) (md_commit_index m) (bytes_of (default "" (md_voted_for m))))
      with (metadata_body (md_term m) (wrap64 (md_commit_index m)) (bytes_of (default "" (md_voted_for m))))
      by (unfold metadata_body; by rewrite le_bytes_wrap).
    by apply decode_metadata_body.
  - destruct (md_voted_for m) as [id|]; simpl; [|lia]. unfold valid_id, kMaxIdLength in Hv. bool_props. lia.
Qed.

(** ** Directories *)

Section Disk.
Context (Q : NodeMetadata -> Prop).

(** Everything a restart may find as metadata satisfies [Q]. *)
Record disk_all (d : Directory) : Prop := {
  da_meta : forall m, load_metadata (dir_meta d) = Ok m -> Q m;
  da_journal : forall bytes t m, dir_journal d = Some bytes -> txn_decode bytes = Ok t ->
    decode_metadata (tx_metadata t) = Ok m -> Q m;
}.

(** The metadata and the journal are those of [d]. *)
Definition same_meta (d d' : Directory) : Prop :=
  dir_meta d' = dir_meta d /\ dir_journal d' = dir_journal d.

Lemma disk_same d d' : same_meta d d' -> disk_all d -> disk_all d'.
Proof. intros [H1 H2] [Hm Hj]. split; [by rewrite H1|by rewrite H2]. Qed.

Lemma write_atomic_cases file bytes outcome file' error :
  write_atomic file bytes outcome = (file', error) ->
  (file' = file /\ is_Some error) \/ file' = Some bytes.
Proof. destruct outcome; intros [= <- <-]; eauto. Qed.

#[local] Ltac stop := intros [= <- <-]; cbn [dir_meta dir_journal]; split_and?; auto; congruence.

(** A transaction writes its own metadata or none. *)
Lemma txn_apply_meta d t fault io d' error :
  txn_apply d t fault io = (d', error) ->
  (dir_meta d' = dir_meta d \/ dir_meta d' = Some (tx_metadata t)) /\
  (dir_journal d' = dir_journal d \/ dir_journal d' = None) /\
  (error = None -> dir_journal d' = None).
Proof.
  unfold txn_apply. destruct (bool_decide (fault = AfterJournal)); [stop|].
  destruct (io_create io); [stop|]. destruct (io_sync io); [stop|].
  destruct (write_atomic _ _ (io_snapshot io)) as [f1 e1]. destruct e1; [stop|].
  destruct (bool_decide (fault = AfterSnapshot)); [stop|].
  destruct (write_atomic _ _ (io_meta io)) as [f2 e2] eqn:E2. cbn [dir_meta] in E2.
  apply write_atomic_cases in E2. assert (f2 = dir_meta d \/ f2 = Some (tx_metadata t)) as H2 by naive_solver.
  destruct e2; [stop|]. destruct (bool_decide (fault = AfterMetadata)); [stop|].
  destruct (write_atomic _ _ (io_wal io)) as [f3 e3]. destruct e3; [stop|].
  destruct (bool_decide (fault = AfterWal)); [stop|]. destruct (negb _); [stop|].
  stop.
Qed.

Lemma apply_disk d t fault io d' error :
  disk_all d -> (forall m, decode_metadata (tx_metadata t) = Ok m -> Q m) ->
  txn_apply d t fault io = (d', error) -> disk_all d' /\ (error = None -> dir_journal d' = None).
Proof.
  intros [Hm Hj] Ht E. destruct (txn_apply_meta _ _ _ _ _ _ E) as (H1 & H2 & H3). split; [|done]. split.
  - intros m. destruct H1 as [-> | ->]; [apply Hm|apply Ht].
  - intros bytes u m. destruct H2 as [-> | ->]; [apply Hj|done].
Qed.

Lemma commit_transaction_disk d t fault access ancestors journal io d' error :
  disk_all d -> (forall m, decode_metadata (tx_metadata t) = Ok m -> Q m) ->
  commit_snapshot_transaction d t fault access ancestors journal io = (d', error) ->
  disk_all d' /\ (error = None -> dir_journal d' = None).
Proof.
  intros Hd Ht. unfold commit_snapshot_transaction. destruct access; [by intros [= <- <-]|].
  destruct (is_some _); [by intros [= <- <-]|]. destruct (txn_encode t) as [bytes|] eqn:Eb; [|by intros [= <- <-]].
  destruct ancestors; [by intros [= <- <-]|]. destruct (write_atomic _ _ journal) as [file e] eqn:Ew.
  apply write_atomic_cases in Ew.
  assert (disk_all (mkDirectory file (dir_snapshots d) (dir_meta d) (dir_wal d))) as Hd'.
  { destruct Hd as [Hm Hj]. split; [done|]. cbn [dir_journal]. destruct Ew as [[-> _]| ->]; [done|].
    intros b u m [= <-] Hu Hdec. apply Ht. by rewrite <- (journal_metadata t bytes u Eb Hu). }
  destruct e; [by intros [= <- <-]|]. by apply apply_disk.
Qed.

Lemma recover_disk d access sync io d' error :
  disk_all d -> recover_snapshot_transaction d access sync io = (d', error) ->
  disk_all d' /\ (error = None -> dir_journal d' = None).
Proof.
  intros Hd. unfold recover_snapshot_transaction. destruct access; [by intros [= <- <-]|].
  destruct (dir_journal d) as [bytes|] eqn:Ej; [|by intros [= <- <-]].
  destruct (_ <? _); [by intros [= <- <-]|]. destruct (txn_decode bytes) as [t|] eqn:Et; [|by intros [= <- <-]].
  apply apply_disk; [done|]. intros m. by apply (da_journal _ Hd bytes).
Qed.
End Disk.

Lemma disk_mono (P Q : NodeMetadata -> Prop) d : (forall m, P m -> Q m) -> disk_all P d -> disk_all Q d.
Proof. intros H [Hm Hj]. split; [intros m Em; by apply H, Hm|]. intros b t m E1 E2 E3. eapply H, Hj; eauto. Qed.

(** ** Terms of entries and states *)

Section Terms.
Context (M : Z).

Definition terms_below (es : list Event) : Prop := Forall (fun e => ev_term e <= M) es.

Lemma apply_term s e rule b t :
  s_term s <= M -> ev_term e <= M -> apply_against s e rule b = Ok t -> s_term t <= M.
Proof.
  intros Hs He [_ [[_ ->]|[(_ & _ & ->)|(_ & _ & _ & c & _ & ->)]]]%apply_against_ok; [done|done|exact He].
Qed.

Lemma apply_committed_term engine e engine' :
  s_term (en_state engine) <= M -> ev_term e <= M -> apply_committed engine e = Ok engine' ->
  s_term (en_state engine') <= M.
Proof.
  intros Hs He. unfold apply_committed, apply. destruct (apply_against _ _ _ _) as [t|] eqn:E; [|done].
  intros [= <-]. by eapply apply_term.
Qed.

Lemma prepare_loop_term base batch : forall staged engine,
  s_term (en_state staged) <= M -> terms_below batch -> prepare_loop base staged batch = Ok engine ->
  s_term (en_state engine) <= M.
Proof.
  induction batch as [|e batch IH]; intros staged engine Hs Hb; cbn [prepare_loop]; [by intros [= <-]|].
  apply list.Forall_cons in Hb as [He Hb]. destruct (apply_against _ _ _ _) as [t|] eqn:E; [|done].
  apply IH; [by eapply apply_term|done].
Qed.

Lemma apply_events_term es engine : terms_below es -> apply_events empty_engine es = Ok engine -> 1 <= M ->
  s_term (en_state engine) <= M.
Proof.
  intros Hes H HM. unfold apply_events in H.
  assert (s_term (en_state empty_engine) <= M) as H0 by (cbn; lia). revert H0 H. generalize empty_engine.
  induction Hes as [|e es He _ IH]; intros g Hg; cbn [foldl]; [by intros [= <-]|].
  destruct (apply_committed g e) as [g'|] eqn:E.
  - apply IH. by eapply apply_committed_term.
  - clear. induction es; [done|exact IHes].
Qed.

Lemma replay_committed_term start limit es : forall engine count engine' count',
  terms_below es -> s_term (en_state engine) <= M ->
  replay_committed engine start limit es count = Ok (engine', count') -> s_term (en_state engine') <= M.
Proof.
  induction es as [|e es IH]; intros engine count engine' count' Hes Hs; cbn [replay_committed]; [by intros [= <- _]|].
  apply list.Forall_cons in Hes as [He Hes]. destruct (_ <=? _); [by apply IH|].
  destruct (_ <? _); [by intros [= <- _]|]. destruct (apply_committed engine e) as [g|] eqn:E; [|done].
  apply IH; [done|]. by eapply apply_committed_term.
Qed.
End Terms.

Lemma retain_events_term anchor keys : forall s, s_term (retain_events s anchor keys).1 = s_term s.
Proof.
  induction keys as [|key keys IH]; intros s; cbn [retain_events]; [done|].
  destruct (s_applied_events s !! key); [|apply IH]. destruct (parse_event _); [|done].
  destruct (_ <=? _); [apply IH|]. by rewrite IH.
Qed.

Lemma retain_state_term s anchor : s_term (retain_state_history_from s anchor).1 = s_term s.
Proof.
  unfold retain_state_history_from. pose proof (retain_events_term anchor (sorted_keys (s_applied_events s)) s) as H.
  by destruct (retain_events _ _ _) as [s' [e|]].
Qed.

Lemma retain_history_term engine anchor engine' error :
  retain_history_from engine anchor = (engine', error) -> s_term (en_state engine') = s_term (en_state engine).
Proof.
  unfold retain_history_from. pose proof (retain_state_term (en_state engine) anchor) as H.
  destruct (retain_state_history_from _ _) as [s [e|]]; by intros [= <- _].
Qed.

(** Terms read from a log file fit 64 bits. *)
Abbreviation small_terms := (terms_below max_u64).

Lemma stoull_small s v : stoull s = Some v -> v <= max_u64.
Proof.
  unfold stoull. destruct (scan_sign _) as [neg r]. destruct (starts_with_digit r); [|done].
  destruct (_ <=? _) eqn:E; [|done]. apply Z.leb_le in E. destruct neg; intros [= <-]; [|done].
  apply wrap64_u64.
Qed.

Lemma parse_event_small text e : parse_event text = Ok e -> ev_term e <= max_u64.
Proof.
  unfold parse_event. intros H. destruct (parse_fields text) as [fields|]; [|done].
  repeat match type of H with
  | context [or_error _ (parse_u64 fields "term")] =>
      destruct (parse_u64 fields "term") as [term|] eqn:Et; cbn [or_error] in H; [|done]
  | (match or_error ?x ?y with _ => _ end) = _ => destruct y eqn:?; cbn [or_error] in H; [|done]
  end.
  destruct (parse_event_payload _ _ _); [|done]. injection H as <-. cbn [ev_term].
  match goal with E : parse_term _ = Ok _ |- _ => unfold parse_term in E; destruct (_ =? _) in E; [done|injection E as <-] end.
  unfold parse_u64 in Et. destruct (require_field fields "term"); [|done].
  destruct (stoull _) eqn:Es; [|done]. injection Et as <-. by eapply stoull_small.
Qed.

Lemma scan_small fuel file : forall offset events ends s,
  small_terms events -> scan fuel file offset events ends = Ok s -> small_terms (sc_events s).
Proof.
  induction fuel as [|fuel IH]; intros offset events ends s He; cbn [scan]; [by intros [= <-]|].
  destruct (negb _); [by intros [= <-]|]. destruct (_ <? _)%nat; [by intros [= <-]|].
  destruct (_ || _). { destruct (has_magic _); [done|by intros [= <-]]. }
  destruct (_ <? _); [done|]. destruct (_ <? _)%nat; [by intros [= <-]|]. destruct (negb _); [done|].
  destruct (parse_event _) as [e|] eqn:Ep; [|done]. destruct (_ || _); [done|]. apply IH.
  apply Forall_app_2; [done|]. constructor; [|constructor]. by eapply parse_event_small.
Qed.

Lemma load_small file truncated cut wal : load file truncated cut = Ok wal -> small_terms (wal_events wal).
Proof.
  unfold load. destruct (load_scan file) as [s|] eqn:El; [|done]. unfold load_scan in El.
  repeat (destruct (_ <? _)%nat in El || destruct (negb _) in El; try done).
  apply scan_small in El; [|constructor]. destruct (_ <? _)%nat; [destruct cut|]; [done|by intros [= <-]|by intros [= <-]].
Qed.

Lemma wal_open_small found access cut file wal :
  wal_open found access cut = (file, Ok wal) -> file = Some (wal_file wal) /\ small_terms (wal_events wal).
Proof. intros [-> [bytes H]]%wal_open_loaded. split; [done|by eapply load_small]. Qed.

Lemma rewrite_small log es outcome cut log' error :
  small_terms (wal_events log) -> rewrite_log log es outcome cut = (log', error) -> small_terms (wal_events log').
Proof.
  intros Hl. unfold rewrite_log. destruct (encode_wal es); [|by intros [= <- _]].
  destruct (write_atomic _ _ _) as [file [e|]]; [by intros [= <- _]|].
  destruct (load _ _ _) as [log1|] eqn:E; intros [= <- _]; [by eapply load_small|done].
Qed.

(** ** Operations of a store *)

(** [Q] speaks of valid metadata, and holds of a raised term. *)
Record steady (Q : NodeMetadata -> Prop) : Prop := {
  sd_valid : forall m, Q m -> meta_valid m;
  sd_raised : forall m m', Q m -> raised m m' -> Q m';
}.

Record store_fine (Q : NodeMetadata -> Prop) (f : FileEngine) : Prop := {
  sf_disk : disk_all Q (fe_disk f);
  sf_log : small_terms (log_events f);
  sf_state : s_term (en_state (fe_engine f)) <= max_u64;
  sf_clean : fe_recovery_required f = false -> dir_journal (fe_disk f) = None;
}.

Section Operations.
Context (Q : NodeMetadata -> Prop) (HQ : steady Q).
#[local] Abbreviation fine := (store_fine Q).

Lemma fine_closed f : fine f -> fine (fail_closed f).
Proof. intros [H1 H2 H3 H4]. by split. Qed.

Lemma fine_wal wal f : small_terms (wal_events wal) -> fine f -> fine (with_wal wal f).
Proof. intros Hw [H1 H2 H3 H4]. split; try done. by apply (disk_same Q (fe_disk f)). Qed.

Lemma fine_engine engine f : s_term (en_state engine) <= max_u64 -> fine f -> fine (with_engine engine f).
Proof. intros Hw [H1 H2 H3 H4]. by split. Qed.

Lemma fine_snapshots files f : fine f -> fine (with_snapshots files f).
Proof. intros [H1 H2 H3 H4]. split; try done. by apply (disk_same Q (fe_disk f)). Qed.

Lemma fine_snapshot snapshot f : fine f -> fine (with_snapshot snapshot f).
Proof. intros [H1 H2 H3 H4]. by split. Qed.

Lemma fine_commit index f : fine f -> fine (with_commit index f).
Proof. intros [H1 H2 H3 H4]. by split. Qed.

Lemma fine_fault fault f : fine f -> fine (with_fault fault f).
Proof. intros [H1 H2 H3 H4]. by split. Qed.

Lemma fine_checked r : fine r.1 -> fine (checked_mutation r).1.
Proof. destruct r as [f [e|]]; cbn; [apply fine_closed|done]. Qed.

Lemma fine_flush f : fine f -> fine (fail_before_flush f).1 /\ fine (fail_after_flush f).1.
Proof.
  intros H. unfold fail_before_flush, fail_after_flush.
  split; (case_bool_decide; [by apply fine_fault|done]).
Qed.

Lemma append_fine f e os : ev_term e <= max_u64 -> fine f -> fine (append_event f e os).1.
Proof.
  intros He Hf. unfold append_event. destruct (require_writable f); [done|]. destruct (negb _); [done|].
  destruct (_ <? _); [done|]. destruct (fine_flush f Hf) as [H1 _].
  destruct (fail_before_flush f) as [f1 [err|]]; [done|]. cbn [fst] in H1.
  destruct (wal_append (fe_wal f1) e (os_append os)) as [wal error] eqn:E.
  assert (small_terms (wal_events wal)) as Hw.
  { unfold wal_append in E. destruct (encode_record e); [destruct (os_append os)|]; injection E as <- <-;
      cbn [wal_events]; try apply (sf_log _ _ H1).
    apply Forall_app_2; [apply (sf_log _ _ H1)|]. by constructor. }
  destruct error; [by apply fine_closed, fine_wal|].
  apply fine_checked. by apply fine_flush, fine_wal.
Qed.

Lemma truncate_fine f index os : fine f -> fine (store_truncate_after f index os).1.
Proof.
  intros Hf. unfold store_truncate_after. destruct (require_writable f); [done|]. destruct (_ <? _); [done|].
  destruct (truncate_after _ _ _ _) as [wal error] eqn:E. apply fine_checked. apply fine_wal; [|done].
  unfold truncate_after in E. destruct (os_resized os); [injection E as <- <-; apply (sf_log _ _ Hf)|].
  destruct (os_truncate_synced os); injection E as <- <-; cbn [wal_events]; [apply (sf_log _ _ Hf)|].
  apply Forall_take, (sf_log _ _ Hf).
Qed.

Lemma compact_fine f anchor os : fine f -> fine (compact f anchor os).1.
Proof.
  intros Hf. unfold compact. destruct (front_index _); [|done]. destruct (back_index _); [|done].
  destruct (_ <=? _); [done|]. destruct (_ <? _); [done|].
  destruct (rewrite_log _ _ _ _) as [wal error] eqn:E. apply rewrite_small in E; [|apply (sf_log _ _ Hf)].
  pose proof (fine_checked (with_wal wal f, error) (fine_wal wal f E Hf)) as Hc.
  destruct (checked_mutation _) as [f1 [err|]]; [done|]. cbn [fst] in Hc.
  destruct (so_compact_log _); [|done]. destruct (retain_history_from _ _) as [engine err] eqn:Er.
  apply fine_checked, fine_engine; [|done]. rewrite (retain_history_term _ _ _ _ Er). apply (sf_state _ _ Hc).
Qed.

Lemma take_snapshot_fine f os : fine f -> fine (take_snapshot f os).1.
Proof.
  intros Hf. unfold take_snapshot. destruct (save_snapshot _ _ _ _ _ _) as [files [e|]]; [by apply fine_snapshots|].
  destruct (prune_snapshots _ _ _ _) as [files' pruned].
  pose proof (fine_snapshots (default ∅ files') _ (fine_snapshot (Some (snapshot_in_memory (en_state (fe_engine f)))) _
    (fine_snapshots (default ∅ files) f Hf))) as H1.
  destruct pruned as [result|]; [|done]. destruct (_ && _); [by apply compact_fine|done].
Qed.

Lemma maybe_snapshot_fine f os : fine f -> fine (maybe_snapshot f os).1.
Proof.
  intros Hf. unfold maybe_snapshot. destruct (_ =? _); [done|]. destruct (_ <=? _); [done|].
  by apply fine_checked, take_snapshot_fine.
Qed.

(** A metadata write over a file whose metadata satisfies [Q]. *)
Lemma write_metadata_fine f m os f' error :
  fine f -> meta_valid m -> Q (mkMetadata (md_term m) (wrap64 (md_commit_index m)) (md_voted_for m)) ->
  write_metadata f m os = (f', error) -> fine f'.
Proof.
  intros [H1 H2 H3 H4] Hv Hm. unfold write_metadata, store_metadata.
  destruct (encode_metadata m) as [bytes|] eqn:Eb; [|intros [= <- _]; by split; try (by apply (disk_same Q (fe_disk f)))].
  destruct (write_atomic _ _ _) as [file e] eqn:Ew. intros [= <- _]. apply write_atomic_cases in Ew.
  split; try done. destruct H1 as [Hd Hj]. split; [|done]. cbn [fe_disk with_meta dir_meta].
  destruct Ew as [[-> _]| ->]; [done|]. cbn [load_metadata]. rewrite (metadata_read_back m bytes Hv Eb).
  by intros m' [= <-].
Qed.

Lemma read_metadata_Q f os m : fine f -> read_metadata f os = Ok m -> Q m.
Proof. intros Hf. unfold read_metadata. destruct (os_meta_read os); [done|]. apply (sf_disk _ _ Hf). Qed.

(** The metadata of a commit. *)
Lemma raised_commit m term index : meta_valid m -> term <= max_u64 ->
  raised m (mkMetadata (md_term (raise_term term (set_commit index m)))
              (wrap64 (md_commit_index (raise_term term (set_commit index m))))
              (md_voted_for (raise_term term (set_commit index m)))).
Proof.
  intros [Ht Hv] Hterm. unfold raise_term, set_commit. cbn [md_term]. unfold valid_term in Ht.
  destruct (Z.ltb_spec (md_term m) term); cbn; (split; [done|split; [cbn; lia|split; [unfold valid_term; cbn; lia|done]]]).
Qed.

Lemma raised_valid m m' : raised m m' -> meta_valid m'.
Proof. by intros (_ & _ & H). Qed.

Lemma commit_fine f index os : fine f -> fine (commit_through f index os).1.
Proof.
  intros Hf. unfold commit_through. destruct (require_writable f); [done|]. destruct (_ <? _); [done|].
  destruct (prepare_committed _ _) as [replacement|] eqn:Ep; [|done]. destruct (negb _); [done|].
  assert (s_term (en_state replacement) <= max_u64) as Ht.
  { eapply (prepare_loop_term max_u64); [| |exact Ep]; [apply (sf_state _ _ Hf)|].
    assert (forall n next, small_terms (commit_batch f next n)) as H; [|apply H].
    induction n as [|n IH]; intros next; cbn [commit_batch]; [constructor|].
    destruct (log_entry f next) as [e|] eqn:Ee; [|constructor]. constructor; [|apply IH].
    unfold log_entry, log_entry_of in Ee. destruct (front_index _); [|done]. destruct (back_index _); [|done].
    destruct (_ || _); [done|]. apply (Forall_lookup_1 _ _ _ _ (sf_log _ _ Hf) Ee). }
  destruct (read_metadata f os) as [m|] eqn:Em; [|by apply fine_closed].
  pose proof (read_metadata_Q f os m Hf Em) as Hm. pose proof (sd_valid _ HQ m Hm) as Hv.
  pose proof (raised_commit m (s_term (en_state replacement)) index Hv Ht) as Hr.
  destruct (write_metadata _ _ _) as [f1 error] eqn:Ew.
  apply write_metadata_fine in Ew; [|done|exact (raised_valid _ _ Hr)|exact (sd_raised _ HQ _ _ Hm Hr)].
  destruct error; [by apply fine_closed|]. apply fine_checked, maybe_snapshot_fine, fine_commit.
  by apply fine_engine.
Qed.

(** The vote that [persist_consensus] writes: it is on disk if the call
    succeeds, and may be if it fails. *)
Lemma persist_fine f term vote os f' error :
  fine f -> meta_valid (mkMetadata term 0 vote) -> persist_consensus f term vote os = (f', error) ->
  (error = None ->
     store_fine (fun m => meta_valid m /\ md_term m = term /\ md_voted_for m = vote) f' /\
     exists m, Q m /\ md_term m <= term) /\
  store_fine (fun m => Q m \/ meta_valid m /\ md_term m = term /\ md_voted_for m = vote /\
                       exists m0, Q m0 /\ md_term m0 <= term) f'.
Proof.
  intros Hf Hv. unfold persist_consensus.
  set (P := fun m => Q m \/ _). assert (store_fine P f) as HP.
  { destruct Hf as [H1 H2 H3 H4]. split; try done. eapply disk_mono; [|exact H1]. by left. }
  assert (store_fine P (fail_closed f)) as HPc by (destruct HP as [H1 H2 H3 H4]; by split).
  destruct (require_writable f) eqn:Ew; [intros [= <- <-]; by split|].
  assert (dir_journal (fe_disk f) = None) as Hj.
  { apply (sf_clean _ _ Hf). unfold require_writable in Ew. by destruct (fe_recovery_required f). }
  destruct (read_metadata f os) as [m|] eqn:Em; [|intros [= <- <-]; by split].
  pose proof (read_metadata_Q f os m Hf Em) as Hm.
  destruct (Z.ltb_spec term (md_term m)) as [|Hle]; [intros [= <- <-]; by split|].
  unfold write_metadata, store_metadata.
  assert (meta_valid (mkMetadata term (md_commit_index m) vote)) as Hv' by exact Hv.
  destruct (encode_metadata _) as [bytes|] eqn:Eb.
  2:{ cbn. intros [= <- <-]. split; [done|]. destruct HPc as [H1 H2 H3 H4]. split; try done.
      by apply (disk_same P (fe_disk f)). }
  pose proof (metadata_read_back _ _ Hv' Eb) as Hb. cbn [md_term md_commit_index md_voted_for] in Hb.
  destruct (write_atomic _ _ _) as [file e] eqn:Ea. destruct Hf as [H1 H2 H3 H4].
  assert (store_fine P (with_meta file f)) as HPm.
  { split; try done. destruct HP as [[Hd _] _ _ _]. split; [|cbn; by rewrite Hj]. cbn [fe_disk with_meta dir_meta].
    apply write_atomic_cases in Ea as [[-> _]| ->]; [done|]. cbn [load_metadata]. rewrite Hb. intros m' [= <-].
    right. split; [exact Hv|]. eauto. }
  destruct e as [err|]; cbn [checked_mutation storage_failure]; intros [= <- <-].
  - split; [done|]. destruct HPm as [M1 M2 M3 M4]. by split.
  - split; [|done]. intros _. split; [|by eauto]. split; try done. split; [|cbn; by rewrite Hj].
    cbn [fe_disk with_meta dir_meta]. apply write_atomic_cases in Ea as [[_ [? [=]]]| ->].
    cbn [load_metadata]. rewrite Hb. by intros m' [= <-].
Qed.

Lemma verified_term snapshot s : verify_snapshot snapshot = Ok s -> s_term s = sp_term snapshot.
Proof.
  unfold verify_snapshot. destruct (if is_legacy_format snapshot then _ else _) as [t|]; [|done].
  destruct (_ || _) eqn:E; [done|]. intros [= <-]. apply orb_false_iff in E as [_ E].
  by apply negb_false_iff, Z.eqb_eq in E.
Qed.

Lemma apply_events_replays es : forall engine engine' s,
  apply_events engine es = Ok engine' -> replay_from (en_state engine) es None None = Ok s -> en_state engine' = s.
Proof.
  unfold apply_events. induction es as [|e es IH]; intros engine engine' s; cbn [foldl replay_from].
  { by intros [= <-] [= <-]. }
  assert (replayed None None e = true) as -> by done. cbn [is_some orb]. unfold apply_committed at 2.
  destruct (apply (en_state engine) e Contiguous) as [t|] eqn:E; [|done]. intros H1 H2. by eapply IH.
Qed.

(** The engine of a verified snapshot has its term. *)
Lemma snapshot_engine_term snapshot restored engine :
  verify_snapshot snapshot = Ok restored ->
  (engine_of_snapshot snapshot restored = Ok engine \/
   is_legacy_format snapshot = true /\ apply_events empty_engine (sp_events snapshot) = Ok engine) ->
  s_term (en_state engine) = sp_term snapshot.
Proof.
  intros Hv He. rewrite <- (verified_term _ _ Hv). unfold engine_of_snapshot in He. unfold verify_snapshot in Hv.
  destruct (is_legacy_format snapshot).
  - assert (apply_events empty_engine (sp_events snapshot) = Ok engine) as Ha by (by destruct He as [|[_ ?]]).
    unfold replay in Hv. destruct (replay_from empty_state _ _ _) as [t|] eqn:Er; [|done].
    destruct (_ || _); [done|]. injection Hv as <-. f_equal. by eapply apply_events_replays.
  - destruct He as [[= <-]|[[=] _]]. done.
Qed.

Lemma install_fine f snapshot os io :
  fine f -> sp_term snapshot <= max_u64 -> fine (install_snapshot f snapshot os io).1.
Proof.
  intros Hf Hs. unfold install_snapshot. destruct (require_writable f); [done|]. destruct (_ <=? _); [done|].
  destruct (verify_snapshot snapshot) as [restored|] eqn:Ev; [|done].
  destruct (engine_of_snapshot snapshot restored) as [replacement|] eqn:Er; [|done].
  pose proof (snapshot_engine_term _ _ _ Ev (or_introl Er)) as Ht.
  destruct (read_metadata f os) as [m|] eqn:Em; [|by apply fine_closed].
  pose proof (read_metadata_Q f os m Hf Em) as Hm. pose proof (sd_valid _ HQ m Hm) as Hv.
  pose proof (raised_commit m (s_term (en_state replacement)) (sp_index snapshot) Hv ltac:(lia)) as Hr.
  destruct (encode_snapshot _) as [sb|]; [|done].
  destruct (encode_metadata _) as [mb|] eqn:Emb; [|done].
  destruct (encode_wal _) as [wb|]; [|done].
  destruct (commit_snapshot_transaction _ _ _ _ _ _ _) as [disk error] eqn:Ec.
  apply (commit_transaction_disk Q) in Ec as [Hd Hj].
  2:{ cbn. apply (sf_disk _ _ Hf). }
  2:{ cbn [tx_metadata]. rewrite (metadata_read_back (raise_term (s_term (en_state replacement)) (set_commit (sp_index snapshot) m)) _
        (raised_valid _ _ Hr) Emb). intros m' [= <-].
      exact (sd_raised _ HQ _ _ Hm Hr). }
  destruct Hf as [H1 H2 H3 H4].
  destruct error; [by split|]. specialize (Hj eq_refl).
  destruct (wal_open _ _ _) as [file [wal|]] eqn:Ew; [|split; try done; by apply (disk_same Q disk)].
  destruct (wal_open_small _ _ _ _ _ Ew) as [-> Hw]. destruct (prune_snapshots _ _ _ _) as [files pruned].
  assert (forall engine, s_term (en_state engine) <= max_u64 -> fine (mkFileEngine
    (mkDirectory (dir_journal disk) (default ∅ files) (dir_meta disk) (Some (wal_file wal)))
    (fe_options f) wal engine (fe_report f) (sp_index snapshot) (fe_snapshot f) (fe_fault f) NoFault (fe_recovery_required f)))
    as Hnew by (intros engine He; split; try done; by apply (disk_same Q disk)).
  cbn [so_compact_log fe_options with_snapshots with_snapshot with_engine with_wal with_disk with_install_fault].
  destruct (so_compact_log (fe_options f)).
  - destruct (retain_history_from _ _) as [engine err] eqn:Eh.
    pose proof (retain_history_term _ _ _ _ Eh) as He.
    cbn [fe_engine with_snapshots with_snapshot with_engine with_wal with_disk with_install_fault] in He.
    destruct (Hnew engine ltac:(rewrite He; lia)) as [N1 N2 N3 N4]. destruct err; by split.
  - destruct (Hnew replacement ltac:(lia)) as [N1 N2 N3 N4]. by split.
Qed.
End Operations.

(** ** Opening *)

Lemma restored_term snapshot records engine in_memory M :
  restore_from snapshot records = Ok (engine, in_memory) -> sp_term in_memory <= M ->
  s_term (en_state engine) <= M.
Proof.
  unfold restore_from. destruct (verify_snapshot snapshot) as [restored|] eqn:Ev; [|done].
  destruct (is_legacy_format snapshot) eqn:El.
  - destruct (apply_events _ _) as [g|] eqn:Ea; [|done]. intros [= <- <-]. cbn [sp_term].
    by rewrite (snapshot_engine_term _ _ _ Ev (or_intror (conj El Ea))).
  - intros [= <- <-]. cbn [en_state restore s_with_history s_term]. by rewrite <- (verified_term _ _ Ev).
Qed.

Lemma join_log_small wal snapshot metadata outcome cut wal' error :
  small_terms (wal_events wal) -> join_log wal snapshot metadata outcome cut = (wal', error) ->
  small_terms (wal_events wal').
Proof.
  intros Hw. unfold join_log. destruct snapshot as [b|]; [|by intros [= <- _]].
  destruct (front_index _); [|by intros [= <- _]]. destruct (back_index _); [|by intros [= <- _]].
  match goal with |- (let '(_, _) := ?x in _) = _ -> _ => destruct x as [w e] eqn:E end.
  assert (small_terms (wal_events w)) as Hw'.
  { destruct (_ <? _); [destruct (_ || _)|destruct (_ && _)]; try (by injection E as <- _). by eapply rewrite_small. }
  destruct e; [by intros [= <- _]|]. clear E. destruct (log_entry_of _ _); [destruct (negb _)|]; by intros [= <- _].
Qed.

(** The metadata that the opened store reads is among what the directory held. *)
Lemma open_fine Q d options os d' res :
  so_commit_on_append options = false -> disk_all Q d -> store_open d options os = (d', res) ->
  disk_all Q d' /\
  forall f, res = Ok f ->
    fe_disk f = d' /\ fe_recovery_required f = false /\ dir_journal d' = None /\ small_terms (log_events f) /\
    forall M, 1 <= M -> terms_below M (log_events f) ->
      match fe_snapshot f with Some s => sp_term s <= M | None => True end ->
      s_term (en_state (fe_engine f)) <= M.
Proof.
  intros Ho Hd. unfold store_open. destruct (op_directory os); [by intros [= <- <-]|].
  destruct (recover_snapshot_transaction _ _ _ _) as [d1 e1] eqn:Er.
  apply (recover_disk Q) in Er as [Hd1 Hj]; [|done]. destruct e1; [by intros [= <- <-]|]. specialize (Hj eq_refl).
  assert (forall w, disk_all Q (mkDirectory (dir_journal d1) (dir_snapshots d1) (dir_meta d1) w)) as Hd2
    by (intros w; by apply (disk_same Q d1)).
  destruct (wal_open _ _ _) as [file [wal|]] eqn:Ew; [|by intros [= <- <-]].
  destruct (wal_open_small _ _ _ _ _ Ew) as [-> Hw].
  destruct (negb _); [by intros [= <- <-]|]. destruct (load_latest_snapshot _ _ _) as [found|]; [|by intros [= <- <-]].
  cbn [dir_journal dir_snapshots dir_meta].
  destruct (match op_meta_read os with Some _ => _ | None => _ end) as [metadata|]; [|by intros [= <- <-]].
  rewrite Ho. set (selected := match found with Some _ => _ | None => _ end).
  destruct (match selected with Some _ => _ | None => _ end) as [[engine snapshot]|] eqn:Es; [|by intros [= <- <-]].
  destruct (_ && _); [by intros [= <- <-]|].
  destruct (join_log _ _ _ _ _) as [wal' error] eqn:Ej. apply join_log_small in Ej; [|done].
  destruct error; [by intros [= <- <-]|].
  destruct (replay_committed _ _ _ _ _) as [[engine' n]|] eqn:Ep; [|by intros [= <- <-]].
  destruct (_ <? _); [by intros [= <- <-]|]. unfold finish_open. rewrite Ho. cbn [andb].
  assert (forall M, 1 <= M -> terms_below M (wal_events wal') ->
    match snapshot with Some s => sp_term s <= M | None => True end -> s_term (en_state engine') <= M) as Hbound.
  { intros M HM Ht Hs. eapply replay_committed_term; [exact Ht| |exact Ep]. destruct selected as [sn|].
    - destruct (restore_from sn _) as [[g b]|] eqn:Erf; [|done]. injection Es as <- <-. by eapply restored_term.
    - injection Es as <- <-. cbn. lia. }
  destruct (so_compact_log options).
  - destruct (retain_history_from _ _) as [engine2 [e|]] eqn:Eh; intros [= <- <-]; [by split|].
    split; [apply Hd2|]. intros f [= <-]. split; [done|]. split; [done|]. split; [done|]. split; [done|].
    cbn [fe_engine]. rewrite (retain_history_term _ _ _ _ Eh). exact Hbound.
  - intros [= <- <-]. split; [apply Hd2|]. intros f [= <-]. split; [done|]. split; [done|]. split; [done|].
    split; [done|]. exact Hbound.
Qed.
