(* ===== verification/StoreState.v ===== *)
(** * The states a store holds

    What a running store knows of its committed history, after retention, and
    after a restart from a snapshot. A state may forget bodies and the ids of
    leadership markers, never receipts; a state that knows less accepts
    whatever one that knows more accepts. *)

From S2P Require Import Prelude Text Stream Types Model EventCodec EventCodecThms Machine MachineInv MachineThms EngineThms CommitThms SnapshotText SnapshotTextThms SnapshotThms.

(** Ids as [propose] and [CoreReplica::noop] choose them: an event carries the
    id of its command, and a marker is named [noop-...]. *)
Definition named (e : Event) : Prop :=
  ev_id e = ev_command e /\ (ev_type e = NoOp -> String.prefix "noop-" (ev_id e) = true).

Definition body_of (s : ChoreographyState) (k : string) (e : Event) : Prop :=
  s_applied_events s !! k = Some (canonical_event e) /\ event_ok e /\ ev_id e = k /\ named e.

(** Bodies are well-formed events under their own id; a command without a
    receipt is a marker whose body is there. *)
Record tidy (s : ChoreographyState) : Prop := {
  td_bodies : forall k text, s_applied_events s !! k = Some text ->
    accepted s k = true /\ exists e, text = canonical_event e /\ body_of s k e;
  td_commands : forall k v, s_applied_commands s !! k = Some v ->
    is_Some (s_receipts s !! k) \/
    (v = k /\ exists e, body_of s k e /\ ev_type e = NoOp);
}.

Lemma tidy_empty : tidy empty_state.
Proof. split; intros k v H; cbn in H; by rewrite lookup_empty in H. Qed.

(** The history of a state after a new event. *)
Lemma published_history s e c : existing_event s e = Ok false ->
  s_applied_events (published s e c) = <[ev_id e := canonical_event e]> (s_applied_events s) /\
  s_applied_commands (published s e c) = <[ev_command e := ev_id e]> (s_applied_commands s) /\
  s_receipts (published s e c) =
    (if bool_decide (ev_type e = NoOp) then s_receipts s
     else <[ev_command e := receipt_from_event e]> (s_receipts s)).
Proof.
  intros (F1 & F2 & F3)%existing_false_fresh. unfold published, record_event.
  cbn [s_receipts s_applied_events s_applied_commands s_with_history s_with_position].
  by rewrite !insert_new_fresh by done.
Qed.

Lemma published_accepted s e c k : existing_event s e = Ok false ->
  accepted (published s e c) k = true <-> k = ev_command e \/ accepted s k = true.
Proof.
  intros Hex. destruct (published_history s e c Hex) as (_ & E2 & E3).
  unfold accepted. rewrite E2, E3, !orb_true_iff, !is_some_true, lookup_insert_is_Some'.
  destruct (bool_decide _); rewrite ?lookup_insert_is_Some'; split; intros H; naive_solver.
Qed.

Lemma tidy_published s e c :
  tidy s -> event_ok e -> named e -> existing_event s e = Ok false -> tidy (published s e c).
Proof.
  intros [T1 T2] He Hn Hex. pose proof Hn as [Hid Hno].
  destruct (published_history s e c Hex) as (E1 & E2 & E3).
  split; unfold body_of; rewrite E1, ?E2, ?E3; intros k v Hk;
    apply lookup_insert_Some in Hk as [[<- <-]|[Hne Hk]].
  - split; [apply published_accepted; auto|]. exists e. by rewrite lookup_insert_eq.
  - destruct (T1 k v Hk) as (Ha & e' & -> & Hb). split; [apply published_accepted; auto|].
    exists e'. split; [done|]. rewrite lookup_insert_ne by done. exact Hb.
  - destruct (bool_decide_reflect (ev_type e = NoOp)) as [Ht|Ht]; [right|left].
    + split; [done|]. exists e. rewrite <- Hid, lookup_insert_eq. done.
    + rewrite lookup_insert_eq. by eexists.
  - destruct (T2 k v Hk) as [Hr|(-> & e' & Hb & Ht)]; [left|right].
    + destruct (bool_decide _); [done|apply lookup_insert_is_Some'; by right].
    + split; [done|]. exists e'. split; [|done]. rewrite lookup_insert_ne by congruence. exact Hb.
Qed.

(** ** Snapshots of tidy states *)

Lemma compact_commands_receipts s k : tidy s ->
  is_Some (compact_commands s !! k) -> is_Some (s_receipts s !! k).
Proof.
  intros [_ T2] [v Hk]. unfold compact_commands in Hk. apply lookup_union_Some_raw in Hk as [Hk|[_ Hk]].
  - rewrite map_lookup_imap in Hk. destruct (s_receipts s !! k); [by eexists|done].
  - rewrite map_lookup_imap in Hk.
    destruct (filter _ (s_applied_commands s) !! k) as [x|] eqn:Ef; [|done].
    apply map_lookup_filter_Some in Ef as [Ef Hl]. destruct (T2 k x Ef) as [H|(-> & e & (_ & _ & <- & _ & Hp) & Ht)]; [done|].
    unfold is_legacy in Hl. cbn [fst snd] in Hl. by rewrite (Hp Ht), andb_false_r in Hl.
Qed.

Lemma tidy_compact s : tidy s -> tidy (compact_state s).
Proof.
  intros Hs. split; intros k v Hk; cbn in Hk; [by rewrite lookup_empty in Hk|].
  left. apply (compact_commands_receipts s); [done|by eexists].
Qed.

(** ** Knowing less *)

Lemma forgets_refl s : forgets s s.
Proof. split; [done|done|done|]. intros k H. unfold accepted. rewrite (proj2 (is_some_true _) H). done. Qed.

Lemma forgets_trans s t u : forgets s t -> forgets t u -> forgets s u.
Proof.
  intros [A1 A2 A3 A4] [B1 B2 B3 B4]. split; [congruence|congruence|by etransitivity|].
  intros k Hk%B4. unfold accepted in Hk. rewrite orb_true_iff, !is_some_true in Hk.
  destruct Hk as [Hk|Hk]; [by apply A4|]. unfold accepted. rewrite A2 in Hk.
  rewrite (proj2 (is_some_true _) Hk). apply orb_true_r.
Qed.

(** Every body has an index above [i]. *)
Definition above (i : Z) (s : ChoreographyState) : Prop :=
  forall k e, body_of s k e -> i < ev_index e.

Lemma body_of_forgets s u k e : forgets s u -> body_of u k e -> body_of s k e.
Proof. intros [_ _ F _] (H & R). split; [by eapply lookup_weaken|done]. Qed.

Lemma body_of_inj s k e e' : body_of s k e -> body_of s k e' -> e = e'.
Proof. intros (H & He & _) (H' & He' & _). apply canonical_event_inj; [done|done|congruence]. Qed.

(** ** Retention *)

Section Retention.
Context (anchor : Z) (u : ChoreographyState).
Hypothesis Hu : tidy u.
Hypothesis Habove : above (anchor - 1) u.

(** What retention gives: less history, and still all that [u] knows. *)
Definition retained (s s' : ChoreographyState) : Prop := tidy s' /\ forgets s s' /\ forgets s' u.

Lemma erase_retained s key e :
  tidy s -> forgets s u -> body_of s key e -> ev_index e < anchor ->
  retained s (erase_history key (ev_command e)
    (bool_decide (ev_type e = NoOp) || is_some (s_receipts s !! ev_command e)) s).
Proof.
  intros Hs Hf Hb Hi. pose proof Hs as [T1 T2]. pose proof Hb as (Hl & He & <- & Hid & Hno).
  assert (forall e', body_of u (ev_id e) e' -> False) as Hgone.
  { intros e' Hb'. pose proof (body_of_forgets _ _ _ _ Hf Hb') as Hb2.
    rewrite (body_of_inj _ _ _ _ Hb2 Hb) in Hb'. apply Habove in Hb'. lia. }
  assert (bool_decide (ev_type e = NoOp) || is_some (s_receipts s !! ev_command e) = true) as ->.
  { destruct (T1 _ _ Hl) as (Ha & _). unfold accepted in Ha. rewrite Hid in Ha.
    rewrite !orb_true_iff, !is_some_true in *. destruct Ha as [[v Hv]|Ha]; [|by right].
    destruct (T2 _ _ Hv) as [?|(_ & e' & Hb' & Ht)]; [by right|left]. rewrite <- Hid in Hb'.
    rewrite (body_of_inj _ _ _ _ Hb' Hb) in Ht. by apply bool_decide_eq_true. }
  rewrite <- Hid. split; [split|split; split]; unfold body_of, erase_history;
    cbn [s_receipts s_applied_events s_applied_commands s_with_history].
  - intros k text Hk. apply lookup_delete_Some in Hk as [Hne Hk].
    destruct (T1 k text Hk) as (Ha & e' & -> & Hb'). split.
    + unfold accepted in *. cbn [s_applied_commands s_receipts s_with_history]. by rewrite lookup_delete_ne.
    + exists e'. split; [done|]. rewrite lookup_delete_ne by done. exact Hb'.
  - intros k v Hk. apply lookup_delete_Some in Hk as [Hne Hk].
    destruct (T2 k v Hk) as [?|(-> & e' & Hb' & Ht)]; [by left|right]. split; [done|]. exists e'.
    rewrite lookup_delete_ne by done. done.
  - done.
  - done.
  - apply delete_subseteq.
  - intros k [v Hk]. apply lookup_delete_Some in Hk as [_ Hk]. unfold accepted. by rewrite Hk.
  - apply (fg_copy _ _ Hf).
  - apply (fg_receipts _ _ Hf).
  - apply map_subseteq_spec. intros k text Hk. apply lookup_delete_Some.
    split; [|by eapply lookup_weaken; [exact Hk|apply (fg_events _ _ Hf)]].
    intros <-. destruct (td_bodies _ Hu _ _ Hk) as (_ & e' & _ & Hb'). eauto.
  - intros k [v Hk]. unfold accepted. cbn [s_applied_commands s_receipts s_with_history].
    rewrite orb_true_iff, !is_some_true. destruct (td_commands _ Hu _ _ Hk) as [Hr|(-> & e' & Hb' & Ht)].
    + right. by rewrite <- (fg_receipts _ _ Hf).
    + assert (ev_id e <> k) as Hne by (intros <-; eauto). rewrite lookup_delete_ne by done.
      pose proof (fg_commands _ _ Hf k ltac:(by eexists)) as Ha. unfold accepted in Ha.
      by rewrite orb_true_iff, !is_some_true in Ha.
Qed.

Lemma retain_events_retained keys : forall s s' err,
  tidy s -> forgets s u -> retain_events s anchor keys = (s', err) -> err = None /\ retained s s'.
Proof.
  induction keys as [|key keys IH]; intros s s' err Hs Hf H; cbn [retain_events] in H.
  - injection H as <- <-. split; [done|]. split; [done|]. split; [apply forgets_refl|done].
  - destruct (s_applied_events s !! key) as [text|] eqn:Et; [|by eapply IH].
    destruct (td_bodies _ Hs _ _ Et) as (_ & e & -> & Hb). pose proof Hb as (_ & He & _).
    rewrite parse_event_canonical in H by done.
    destruct (Z.leb_spec anchor (ev_index e)) as [_|Hi]; [by eapply IH|].
    destruct (erase_retained s key e Hs Hf Hb Hi) as (R1 & R2 & R3).
    destruct (IH _ _ _ R1 R3 H) as (-> & Q1 & Q2 & Q3). split; [done|]. split; [done|].
    split; [by eapply forgets_trans|done].
Qed.

Lemma aliases_retained s : tidy s -> forgets s u -> retained s (retain_aliases s anchor).
Proof.
  intros Hs Hf. assert (forall k, accepted s k = true -> accepted (retain_aliases s anchor) k = true) as Hacc.
  { intros k. unfold accepted, retain_aliases. cbn [s_applied_commands s_receipts s_with_history].
    rewrite !orb_true_iff, !is_some_true. destruct (s_receipts s !! k) as [r|] eqn:Er; [eauto|].
    intros [[v Hv]|H]; [left|by right]. exists v. apply map_lookup_filter_Some. split; [done|].
    unfold alias_kept. cbn [fst]. by rewrite Er. }
  pose proof Hs as [T1 T2]. split; [split|split; split].
  - intros k text Hk. cbn in Hk. destruct (T1 k text Hk) as (Ha & e & -> & Hb).
    split; [by apply Hacc|by exists e].
  - intros k v Hk. cbn in Hk. apply map_lookup_filter_Some in Hk as [Hk _]. by apply T2 in Hk.
  - done.
  - done.
  - done.
  - intros k [v Hk]. cbn in Hk. apply map_lookup_filter_Some in Hk as [Hk _]. unfold accepted. by rewrite Hk.
  - apply (fg_copy _ _ Hf).
  - apply (fg_receipts _ _ Hf).
  - apply (fg_events _ _ Hf).
  - intros k Hk. apply Hacc, (fg_commands _ _ Hf), Hk.
Qed.

Lemma retention s s' err : tidy s -> forgets s u ->
  retain_state_history_from s anchor = (s', err) -> err = None /\ retained s s'.
Proof.
  intros Hs Hf H. unfold retain_state_history_from in H.
  destruct (retain_events s anchor _) as [m e] eqn:E.
  destruct (retain_events_retained _ _ _ _ Hs Hf E) as (-> & R1 & R2 & R3). injection H as <- <-.
  destruct (aliases_retained m R1 R3) as (Q1 & Q2 & Q3). split; [done|]. split; [done|].
  split; [by eapply forgets_trans|done].
Qed.

End Retention.

(** ** Committed histories *)

Lemma forgets_shape s t : forgets s t ->
  t = s_with_history (s_applied_events t) (s_applied_commands t) (s_receipts s) s.
Proof.
  intros [F1 F2 _ _]. destruct s, t. cbn in F2. subst. unfold domain_copy, s_with_history in *.
  cbn in *. injection F1. intros. subst. reflexivity.
Qed.

Lemma forgets_machine_ok s t : machine_ok s -> forgets s t -> tidy t -> machine_ok t.
Proof.
  intros [M1 M2 M3] Hf Ht. pose proof (forgets_shape s t Hf) as E. split.
  - eapply state_ok_domain; [|exact M1]. rewrite E. by repeat split.
  - assert (forall k v, s_applied_commands t !! k = Some v -> id_ok k) as Hc.
    { intros k v Hk. destruct (td_commands _ Ht _ _ Hk) as [[r Hr]|(-> & e & (_ & He & <- & _) & _)].
      - rewrite (fg_receipts _ _ Hf) in Hr. by apply (sn_receipts s M2) in Hr as [? _].
      - by destruct He as (_ & He & _). }
    clear -E M2 Hc. rewrite E. destruct M2. by split.
  - intros k text Hk. destruct (forgets_position s t Hf) as (-> & _).
    apply (M3 k). eapply lookup_weaken; [exact Hk|apply (fg_events _ _ Hf)].
Qed.

(** The number of events; indexes start at 1. *)
Definition count (events : list Event) : Z := Z.of_nat (length events).

Lemma count_app a b : count (a ++ b)%list = count a + count b.
Proof. unfold count. rewrite length_app. lia. Qed.

(** An entry a store accepts for its log. *)
Definition entry_ok (e : Event) : Prop := good_event e /\ named e.

(** An event above the applied index is new, and is published. *)
Lemma apply_new s e s' :
  machine_ok s -> event_ok e -> s_last_applied s < ev_index e -> apply s e Contiguous = Ok s' ->
  existing_event s e = Ok false /\ exists c, s' = published s e c.
Proof.
  intros Hs He Hi [_ [[Hx _]|[(_ & Hx & _)|(Hx & _ & _ & c & _ & ->)]]]%apply_against_ok; [|done|by eauto].
  by destruct (above_not_existing s e Hs He Hi).
Qed.

(** The state of a store that committed [com]. *)
Record stands (com : list Event) (t : ChoreographyState) : Prop := {
  st_machine : machine_ok t;
  st_tidy : tidy t;
  st_last : s_last_applied t = count com;
  st_term : forall e, list.last com = Some e -> s_term t = ev_term e;
  st_receipts : forall e, e ∈ com -> ev_type e <> NoOp ->
    s_receipts t !! ev_command e = Some (receipt_from_event e);
  st_replay : forall s, replay com None None = Ok s -> forgets s t;
}.

Lemma stands_empty : stands [] empty_state.
Proof.
  split; [apply empty_machine_ok|apply tidy_empty|done|done|by intros e H%elem_of_nil|].
  intros s [= <-]. apply forgets_refl.
Qed.

Lemma stands_forgets com t u : stands com t -> forgets t u -> tidy u -> stands com u.
Proof.
  intros [S1 S2 S3 S4 S5 S6] Hf Hu. destruct (forgets_position t u Hf) as (E1 & E2 & _).
  split; [by eapply forgets_machine_ok|done|congruence| | |].
  - intros e He. rewrite E2. auto.
  - intros e H1 H2. rewrite (fg_receipts _ _ Hf). auto.
  - intros s Hs. eapply forgets_trans; eauto.
Qed.

Lemma replay_app com batch s : replay (com ++ batch)%list None None = Ok s ->
  exists m, replay com None None = Ok m /\ replay_from m batch None None = Ok s.
Proof.
  unfold replay. generalize empty_state. induction com as [|e com IH]; intros m H; simpl in *; [eauto|].
  destruct (apply m e Contiguous); [by apply IH|done].
Qed.

Lemma stands_apply com t e t' :
  Forall entry_ok com -> entry_ok e -> stands com t -> ev_index e = count com + 1 ->
  apply t e Contiguous = Ok t' -> stands (com ++ [e])%list t'.
Proof.
  intros Hcom [Hg Hn] [S1 S2 S3 S4 S5 S6] Hi Ha. pose proof Hg as (He & _).
  assert (s_last_applied t < ev_index e) as Hlt by (rewrite S3, Hi; lia).
  destruct (apply_new t e t' S1 He Hlt Ha) as (Hx & c & Et).
  destruct (published_history t e c Hx) as (_ & _ & E3). split.
  - by eapply apply_machine_ok.
  - rewrite Et. by apply tidy_published.
  - rewrite (apply_new_index t e t') by done. rewrite count_app. done.
  - intros e' He'. rewrite last_snoc in He'. injection He' as <-. by rewrite Et.
  - intros e' [Hin|Hin]%elem_of_app Ht.
    + eapply lookup_weaken; [by apply S5|]. by eapply apply_receipts.
    + apply list_elem_of_singleton in Hin as ->. rewrite Et, E3. by rewrite bool_decide_eq_false_2, lookup_insert_eq.
  - intros s' Hs'. destruct (replay_app com [e] s' Hs') as (s & Hs & Hr). simpl in Hr.
    destruct (apply s e Contiguous) as [x|] eqn:Ex; [|done]. injection Hr as ->.
    assert (machine_ok s) as Hm.
    { eapply replay_machine_ok; [apply empty_machine_ok| |exact Hs].
      eapply list.Forall_impl; [exact Hcom|]. by intros ? []. }
    destruct (forgets_apply s t e s' Hm (S6 s Hs) He) as (t'' & Ht & Hf); [|done|congruence].
    by destruct (forgets_position s t (S6 s Hs)) as (<- & _).
Qed.

Definition numbered (from : Z) (events : list Event) : Prop :=
  forall j e, events !! j = Some e -> ev_index e = from + Z.of_nat j.

Lemma numbered_cons from e es : numbered from (e :: es) <-> ev_index e = from /\ numbered (from + 1) es.
Proof.
  split.
  - intros H. split; [rewrite (H 0%nat e eq_refl); lia|]. intros j x Hx. rewrite (H (S j) x Hx). lia.
  - intros [H1 H2] [|j] x Hx; [simplify_eq/=; lia|]. rewrite (H2 j x Hx). lia.
Qed.

Lemma numbered_app from a b :
  numbered from (a ++ b)%list <-> numbered from a /\ numbered (from + count a) b.
Proof.
  unfold count. revert from. induction a as [|e a IH]; intros from.
  - rewrite app_nil_l. split; [intros H; split; [by intros ?|]|intros [_ H]]; intros j x Hx; rewrite (H j x Hx); simpl; lia.
  - rewrite <- app_comm_cons, !numbered_cons, IH. simpl length.
    replace (from + 1 + Z.of_nat (length a)) with (from + Z.of_nat (S (length a))) by lia. tauto.
Qed.

Lemma numbered_log_after last es : numbered (last + 1) es -> log_after last es.
Proof.
  revert last. induction es as [|e es IH]; intros last H; [done|]. apply numbered_cons in H as [H1 H2].
  simpl. split; [lia|]. apply IH. by rewrite H1.
Qed.

Lemma stands_replay batch : forall com t t',
  Forall entry_ok (com ++ batch)%list -> numbered (count com + 1) batch -> stands com t ->
  replay_from t batch None None = Ok t' -> stands (com ++ batch)%list t'.
Proof.
  induction batch as [|e batch IH]; intros com t t' Hall Hn Hs Hr; simpl in Hr.
  - injection Hr as <-. by rewrite app_nil_r.
  - destruct (apply t e Contiguous) as [m|] eqn:Em; [|done]. apply numbered_cons in Hn as [Hi Hn].
    replace (com ++ e :: batch)%list with ((com ++ [e]) ++ batch)%list in * by (by rewrite <- app_assoc).
    apply (IH _ m); [done| | |done].
    + by rewrite count_app.
    + apply list.Forall_app in Hall as [Hall _]. apply list.Forall_app in Hall as [H1 H2].
      apply (stands_apply com t e m); [done|by inversion H2|done|done|done].
Qed.

(** ** Replaying on a state that knows less *)

Lemma replay_tidy events i : forall s t,
  machine_ok s -> tidy s -> above i s -> Forall entry_ok events -> log_after (s_last_applied s) events ->
  i <= s_last_applied s -> replay_from s events None None = Ok t -> tidy t /\ above i t.
Proof.
  induction events as [|e events IH]; intros s t Hs Ht Hab Hall Ha Hi Hr; simpl in *; [by simplify_eq|].
  destruct (apply s e Contiguous) as [m|] eqn:Em; [|done]. apply list.Forall_cons in Hall as [[Hg Hn] Hall].
  destruct Ha as [Hlt Ha]. pose proof Hg as (He & _). pose proof (apply_new_index s e m Hs He Hlt Em) as Hidx.
  destruct (apply_new s e m Hs He Hlt Em) as (Hx & c & Ec). destruct (published_history s e c Hx) as (E1 & _ & _).
  apply (IH m); [by eapply apply_machine_ok|rewrite Ec; by apply tidy_published| |done|by rewrite Hidx|lia|done].
  intros k e' Hb. destruct Hb as (Hl & He' & Hid & Hn'). rewrite Ec, E1 in Hl.
  apply lookup_insert_Some in Hl as [[_ E]|[_ Hl]].
  - apply canonical_event_inj in E; [|done|done]. subst e'. lia.
  - by apply (Hab k).
Qed.

Lemma above_no_bodies i s : s_applied_events s = ∅ -> above i s.
Proof. intros E k e (H & _). by rewrite E, lookup_empty in H. Qed.
