(* ===== verification/StoreDisk.v ===== *)
(** * What a store directory holds

    The files of a replicated store between its operations: the log from some
    index on, metadata with the commit index, snapshots of committed states.
    The newest snapshot and the committed records after it give back the
    committed state; the lemmas say what each write does to that. *)

From S2P Require Import Prelude Text Stream Types Model EventCodec EventCodecThms Machine MachineInv MachineThms EngineThms CommitThms SnapshotText SnapshotTextThms SnapshotThms StoreState Bytes Wal WalThms Metadata Transaction SnapshotFile SnapshotFileThms.

(** ** Recovering a committed history *)

(** [recovers com cut files base u]: with the log cut before index [cut + 1],
    the newest snapshot, at index [base], and the records of [com] after it
    give the state [u]; without snapshots the whole log does. *)
Inductive recovers (com : list Event) (cut : nat) (files : SnapshotDir) : nat -> ChoreographyState -> Prop :=
| from_log u :
    snapshot_files files = [] -> cut = 0%nat -> replay com None None = Ok u ->
    recovers com cut files 0 u
| from_snapshot base b bytes rest u :
    snapshot_files files = snapshot_name (Z.of_nat base) :: rest ->
    files !! snapshot_name (Z.of_nat base) = Some bytes -> encode_snapshot b = Ok bytes ->
    stands (take base com) b -> (cut < base <= length com)%nat ->
    replay_from (compact_state b) (drop base com) None None = Ok u ->
    recovers com cut files base u.

Record log_ok (events : list Event) : Prop := {
  lo_numbered : numbered 1 events;
  lo_entries : Forall entry_ok events;
  lo_storable : Forall storable events;
  lo_small : count events < kIndexes;
}.

Definition opens_as (file : option (list Z)) (es : list Event) : Prop :=
  exists log, (wal_open file Accessed None).2 = Ok log /\ represents log es.

Definition meta_ok (file : option (list Z)) (commit : Z) : Prop :=
  exists m, load_metadata file = Ok m /\ metadata_ok m /\ md_commit_index m = commit.

(** What the files do not say by themselves. *)
Record View := mkView {
  v_tail : list Event;          (* the records after the commit index *)
  v_cut : nat;                  (* how many records compaction removed *)
  v_base : nat;                 (* the index of the newest snapshot, or 0 *)
  v_known : ChoreographyState;  (* what recovery gives *)
  v_state : ChoreographyState;  (* the committed state in memory *)
}.

Definition v_log (com : list Event) (v : View) : list Event := (drop (v_cut v) com ++ v_tail v)%list.

Record disk_ok (com : list Event) (v : View) (d : Directory) : Prop := {
  do_journal : dir_journal d = None;
  do_log : log_ok (com ++ v_tail v)%list;
  do_present : dir_wal d <> None;
  do_wal : opens_as (dir_wal d) (v_log com v);
  do_meta : meta_ok (dir_meta d) (count com);
  do_names : names_up_to (count com) (dir_snapshots d);
  do_stands : stands com (v_state v);
  do_recovers : recovers com (v_cut v) (dir_snapshots d) (v_base v) (v_known v);
  do_forgets : forgets (v_state v) (v_known v);
}.

(** ** Logs *)

Lemma log_ok_app a b : log_ok (a ++ b)%list -> log_ok a.
Proof.
  intros [L1 L2 L3 L4]. apply numbered_app in L1 as [L1 _]. apply list.Forall_app in L2 as [L2 _].
  apply list.Forall_app in L3 as [L3 _]. rewrite count_app in L4. split; try done. unfold count in *. lia.
Qed.

Lemma log_ok_snoc es e : log_ok es -> entry_ok e -> fits e -> ev_index e = count es + 1 ->
  ev_index e < kIndexes -> log_ok (es ++ [e])%list.
Proof.
  intros [L1 L2 L3 L4] He Hf Hi Hk. split.
  - apply numbered_app. split; [done|]. apply numbered_cons. split; [lia|by intros ?].
  - apply list.Forall_app. auto.
  - apply list.Forall_app. split; [done|]. constructor; [|done]. split; [by destruct He as [[]]|done].
  - rewrite count_app. change (count [e]) with 1. lia.
Qed.

Lemma log_ok_take com tail n : log_ok (com ++ tail)%list -> log_ok (com ++ take n tail)%list.
Proof.
  intros H. rewrite <- (take_drop n tail), app_assoc in H. by apply log_ok_app in H.
Qed.

Lemma log_numbered com v : log_ok (com ++ v_tail v)%list -> (v_cut v <= length com)%nat ->
  numbered (Z.of_nat (v_cut v) + 1) (v_log com v).
Proof.
  intros [L1 _ _ _] Hc j e Hj. unfold v_log in Hj.
  replace (drop (v_cut v) com ++ v_tail v)%list with (drop (v_cut v) (com ++ v_tail v))%list in Hj
    by (by rewrite drop_app_le).
  rewrite lookup_drop in Hj. rewrite (L1 _ _ Hj). lia.
Qed.

(** ** Recovery *)

Lemma recovers_cut com cut files base u : recovers com cut files base u ->
  (base <= length com)%nat /\ ((cut < base)%nat \/ (cut = 0 /\ base = 0)%nat).
Proof. intros [|]; lia. Qed.

Lemma cut_le com cut files base u : recovers com cut files base u -> (cut <= length com)%nat.
Proof. intros H%recovers_cut. lia. Qed.

Lemma entries_good es : Forall entry_ok es -> Forall good_event es.
Proof. intros H. eapply list.Forall_impl; [exact H|]. by intros ? []. Qed.

Lemma stands_compact com b : stands com b -> stands com (compact_state b).
Proof.
  intros Hb. eapply stands_forgets; [done|apply compact_forgets|]. apply tidy_compact, (st_tidy _ _ Hb).
Qed.

Lemma take_log com n : log_ok com -> (n <= length com)%nat -> numbered (count (take n com) + 1) (drop n com).
Proof.
  intros [L1 _ _ _] Hn. rewrite <- (take_drop n com) in L1. apply numbered_app in L1 as [_ L1].
  by rewrite Z.add_comm in L1.
Qed.

(** The recovered state stands for the history and keeps only recent bodies. *)
Lemma recovers_stands com cut files base u :
  log_ok com -> recovers com cut files base u -> stands com u /\ tidy u /\ above (Z.of_nat base) u.
Proof.
  intros Hl Hr. pose proof Hl as [L1 L2 _ _].
  assert (forall b, stands (take base com) b -> s_applied_events b = ∅ -> (base <= length com)%nat ->
    replay_from b (drop base com) None None = Ok u -> stands com u /\ tidy u /\ above (Z.of_nat base) u) as Hgo.
  { intros b Hb Hno Hle Hu. pose proof (take_log com base Hl Hle) as Hn.
    assert (stands com u) as Hs.
    { rewrite <- (take_drop base com). eapply stands_replay; [by rewrite take_drop|done|exact Hb|done]. }
    split; [done|]. eapply replay_tidy; [apply (st_machine _ _ Hb)|apply (st_tidy _ _ Hb)|by apply above_no_bodies| | | |exact Hu].
    - by apply Forall_drop.
    - rewrite (st_last _ _ Hb). by apply numbered_log_after.
    - rewrite (st_last _ _ Hb). unfold count. rewrite length_take. lia. }
  destruct Hr as [u Hf -> Hu|base b bytes rest u _ _ _ Hb Hc Hu].
  - apply (Hgo empty_state); [apply stands_empty|done|lia|done].
  - apply (Hgo (compact_state b)); [by apply stands_compact|done|lia|done].
Qed.

(** A batch the committed state accepts is accepted after recovery. *)
Lemma recovers_commit com cut files base u t t' batch :
  log_ok (com ++ batch)%list -> recovers com cut files base u -> stands com t -> forgets t u ->
  replay_from t batch None None = Ok t' ->
  exists u', replay_from u batch None None = Ok u' /\
    recovers (com ++ batch)%list cut files base u' /\ forgets t' u'.
Proof.
  intros Hl Hr Ht Hf Hb. pose proof Hl as [L1 L2 _ _]. apply numbered_app in L1 as [_ L1].
  apply list.Forall_app in L2 as [_ L2].
  destruct (forgets_replay batch t u t') as (u' & Hu & Hf'); [apply (st_machine _ _ Ht)|done|by apply entries_good| |done|].
  { rewrite (st_last _ _ Ht). apply numbered_log_after. by rewrite Z.add_comm in L1. }
  exists u'. split; [done|]. split; [|done]. destruct Hr as [u Hfiles Hcut Hu0|base b bytes rest u F1 F2 F3 F4 F5 F6].
  - apply from_log; [done|done|]. unfold replay. by rewrite (replay_from_app _ _ _ _ Hu0).
  - eapply from_snapshot; [exact F1|exact F2|exact F3| | |].
    + rewrite take_app_le by lia. done.
    + rewrite length_app. lia.
    + rewrite drop_app_le by lia. by rewrite (replay_from_app _ _ _ _ F6).
Qed.

(** Cutting the log below the newest snapshot. *)
Lemma recovers_compact com cut cut' files base u :
  recovers com cut files base u -> (cut' < base)%nat -> recovers com cut' files base u.
Proof.
  intros [u' H1 H2 H3|base' b bytes rest u' F1 F2 F3 F4 F5 F6] Hc; [lia|].
  eapply from_snapshot; [exact F1|exact F2|exact F3|exact F4|lia|exact F6].
Qed.

(** A new newest snapshot. *)
Lemma recovers_saved com cut files t bytes :
  stands com t -> (cut < length com)%nat -> count com < kIndexes -> names_up_to (count com) files ->
  encode_snapshot t = Ok bytes ->
  recovers com cut (<[snapshot_name (count com) := bytes]> files) (length com) (compact_state t).
Proof.
  intros Ht Hc Hk Hn He. assert (0 <= count com) as Hpos by (unfold count; lia).
  destruct (newest_first (<[snapshot_name (count com) := bytes]> files) (count com) bytes) as [rest Hr];
    [lia|apply names_up_to_insert; [lia|done]|apply lookup_insert_eq|].
  eapply from_snapshot; [exact Hr|apply lookup_insert_eq|exact He| |lia|].
  - by rewrite firstn_all.
  - by rewrite drop_all.
Qed.

(** Pruning keeps the newest file first. *)
Lemma pruned_files keep removed files name rest :
  (1 <= keep)%nat -> snapshot_files files = name :: rest ->
  let files' := remove_names removed files (drop keep (snapshot_files files)) in
  files' !! name = files !! name /\ exists rest', snapshot_files files' = name :: rest'.
Proof.
  intros Hk Hf files'. pose proof (snapshot_files_NoDup files) as Hnd.
  assert (files' !! name = files !! name) as Hname.
  { apply remove_names_lookup. rewrite Hf. destruct keep as [|keep]; [lia|]. cbn [drop].
    rewrite Hf in Hnd. apply list.NoDup_cons in Hnd as [Hnd _]. intros Hin. apply Hnd.
    rewrite <- (take_drop keep rest), elem_of_app. by right. }
  split; [done|]. rewrite (snapshot_files_subset files files') by apply remove_names_subset.
  rewrite Hf, filter_cons_True; [by eexists|]. rewrite Hname.
  assert (name ∈ snapshot_files files) as Hin by (rewrite Hf; constructor).
  by apply elem_of_snapshot_files in Hin as [_ ?].
Qed.

Lemma pruned_empty keep removed files :
  snapshot_files files = [] -> remove_names removed files (drop keep (snapshot_files files)) = files.
Proof. intros ->. by destruct keep. Qed.

Lemma recovers_pruned com cut files base u keep removed :
  (1 <= keep)%nat -> recovers com cut files base u ->
  recovers com cut (remove_names removed files (drop keep (snapshot_files files))) base u.
Proof.
  intros Hk [u' H1 H2 H3|base' b bytes rest u' F1 F2 F3 F4 F5 F6].
  - rewrite pruned_empty by done. by apply from_log.
  - destruct (pruned_files keep removed files _ _ Hk F1) as (E & rest' & E').
    eapply from_snapshot; [exact E'|rewrite E; exact F2|exact F3|exact F4|exact F5|exact F6].
Qed.

Lemma names_subset last files files' : files' ⊆ files -> names_up_to last files -> names_up_to last files'.
Proof. intros Hs Hn name Ha [b Hb]. apply Hn; [done|]. exists b. by eapply lookup_weaken. Qed.

(** Every name is at most the newest. *)
Lemma oldest_le com cut files base u name index :
  count com < kIndexes -> names_up_to (count com) files -> recovers com cut files base u ->
  name ∈ snapshot_files files -> snap_index name = Some index -> index <= Z.of_nat base.
Proof.
  intros Hk Hn Hr Hin Hi. destruct Hr as [u' H1 H2 H3|base b bytes rest u' F1 F2 F3 F4 F5 F6].
  { rewrite H1 in Hin. by apply elem_of_nil in Hin. }
  pose proof Hin as Hin'. apply elem_of_snapshot_files in Hin' as [Ha Hs].
  destruct (Hn name Ha Hs) as (i & Hr & ->). rewrite snap_index_name in Hi by lia. injection Hi as <-.
  rewrite F1 in Hin. apply elem_of_cons in Hin as [E|Hin].
  - apply (f_equal snap_index) in E. rewrite !snap_index_name in E; [by simplify_eq|unfold count in *; lia|lia].
  - pose proof (snapshot_files_sorted files) as Hsort. rewrite F1 in Hsort.
    inversion Hsort as [|?? _ Hall]; subst. pose proof (proj1 (list.Forall_forall _ _) Hall _ Hin) as Hge.
    apply names_ordered in Hge; unfold count in *; lia.
Qed.

(** What [prune_snapshots] leaves, and the anchor it reports. *)
Lemma prune_recovers com cut files base u removed scanned keep :
  (1 <= keep)%nat -> count com < kIndexes -> names_up_to (count com) files -> recovers com cut files base u ->
  exists files', fst (prune_snapshots (Some files) keep removed scanned) = Some files' /\
    names_up_to (count com) files' /\ recovers com cut files' base u /\
    forall r, snd (prune_snapshots (Some files) keep removed scanned) = Ok r ->
      pr_oldest_index r <= Z.of_nat base.
Proof.
  intros Hk Hl Hn Hr. unfold prune_snapshots. destruct scanned as [what|]; [by exists files|].
  eexists. split; [reflexivity|]. split; [eapply names_subset; [apply remove_names_subset|done]|].
  split; [by apply recovers_pruned|]. cbn [snd]. intros r.
  destruct (snapshot_files files !! _) as [name|] eqn:E; [|intros [= <-]; cbn; lia].
  destruct (_ <? _)%nat; [|intros [= <-]; cbn; lia].
  destruct (snap_index name) as [index|] eqn:Ei; [|done]. intros [= <-]. cbn.
  eapply oldest_le; [done|done|done| |done]. by eapply list_elem_of_lookup_2.
Qed.

(** The snapshot kept in memory is the newest one. *)
Definition found_snapshot (found : option Snapshot) (com : list Event) (cut : nat) (base : nat)
    (u : ChoreographyState) : Prop :=
  match found with
  | None => cut = 0%nat /\ base = 0%nat /\ replay com None None = Ok u
  | Some sn => exists b, sn = snapshot_of b /\ stands (take base com) b /\ (cut < base <= length com)%nat /\
      replay_from (compact_state b) (drop base com) None None = Ok u
  end.

Lemma snapshot_index com base b : stands (take base com) b -> (base <= length com)%nat ->
  s_last_applied b = Z.of_nat base.
Proof. intros Hb Hl. rewrite (st_last _ _ Hb). unfold count. rewrite length_take. lia. Qed.

Lemma found_index found com cut base u : found_snapshot found com cut base u ->
  match found with Some sn => sp_index sn | None => 0 end = Z.of_nat base.
Proof.
  destruct found as [sn|]; cbn; [|by intros (_ & -> & _)].
  intros (b & -> & Hb & Hc & _). apply (snapshot_index com base b Hb). lia.
Qed.

Lemma found_compact found com cut cut' base u :
  found_snapshot found com cut base u -> (cut' < base)%nat -> found_snapshot found com cut' base u.
Proof.
  destruct found as [sn|]; cbn; [|intros (_ & -> & _); lia].
  intros (b & H1 & H2 & H3 & H4) Hc. exists b. split; [done|]. split; [done|]. split; [lia|done].
Qed.

Lemma found_commit found com cut base u batch u' :
  found_snapshot found com cut base u -> replay_from u batch None None = Ok u' ->
  found_snapshot found (com ++ batch)%list cut base u'.
Proof.
  intros H Hu. destruct found as [sn|]; cbn in *.
  - destruct H as (b & H1 & H2 & H3 & H4). exists b. split; [done|].
    rewrite take_app_le, drop_app_le, length_app by lia. split; [done|]. split; [lia|].
    by rewrite (replay_from_app _ _ _ _ H4).
  - destruct H as (H1 & H2 & H3). split; [done|]. split; [done|]. unfold replay. by rewrite (replay_from_app _ _ _ _ H3).
Qed.

(** ** Files *)

Lemma load_calm file cut log : load file 0 cut = Ok log -> load file 0 None = Ok log.
Proof.
  unfold load. destruct (load_scan file) as [s|]; [|done].
  destruct (sc_good_end s <? length file)%nat; [|done]. by destruct cut.
Qed.

Lemma wal_open_calm found access cut file log :
  wal_open found access cut = (file, Ok log) -> file = Some (wal_file log) /\ (wal_open found Accessed None).2 = Ok log.
Proof.
  assert (forall bytes, load_found bytes cut = (file, Ok log) ->
    file = Some (wal_file log) /\ (load_found bytes None).2 = Ok log) as Hl.
  { intros bytes. unfold load_found. destruct (load bytes 0 cut) as [l|] eqn:E; [|done].
    rewrite (load_calm _ _ _ E). by intros [= <- <-]. }
  unfold wal_open. destruct access as [|x|k x|x], found as [bytes|]; intros H;
    first [exact (Hl _ H)|discriminate (f_equal snd H)].
Qed.

(** A failed open leaves the file that was there. *)
Lemma wal_open_left bytes access cut file e :
  wal_open (Some bytes) access cut = (file, Err e) ->
  file = Some bytes /\
  (access <> Accessed \/ cut <> None \/ exists x, (wal_open (Some bytes) Accessed None).2 = Err x).
Proof.
  assert (load_found bytes cut = (file, Err e) ->
    file = Some bytes /\ (cut <> None \/ exists x, (load_found bytes None).2 = Err x)) as Hl.
  { unfold load_found. destruct (load bytes 0 cut) as [l|] eqn:E; [done|]. intros [= <- <-].
    split; [done|]. destruct cut; [by left|]. right. rewrite E. by eexists. }
  unfold wal_open. cbn [default from_option id]. destruct access; intros H; try (by simplify_eq; split; [|left]).
  - apply Hl in H as [-> H]. by split; [|right].
  - apply Hl in H as [-> _]. by split; [|left].
Qed.

Lemma represents_opens log es : represents log es -> opens_as (Some (wal_file log)) es.
Proof.
  intros (H1 & H2 & H3 & H4). unfold opens_as, wal_open, load_found. cbn [default from_option id].
  rewrite H1, load_whole by done.
  eexists. split; [reflexivity|]. by repeat split.
Qed.

Lemma open_represents found access cut file log es :
  opens_as found es -> wal_open found access cut = (file, Ok log) ->
  file = Some (wal_file log) /\ represents log es.
Proof. intros (log' & E & H) [-> Ho]%wal_open_calm. split; [done|congruence]. Qed.

Lemma represents_whole kept file : Forall storable kept -> file = wal_file_header ++ records kept ->
  exists wal, represents wal kept /\ wal_file wal = file.
Proof.
  intros Hs ->. exists (mkWal (wal_file_header ++ records kept) kept (ends_from kFileHeaderBytes kept) 0).
  split; [|reflexivity]. split; [reflexivity|]. split; [reflexivity|]. split; [reflexivity|exact Hs].
Qed.

(** Rewriting a log: the old file, or the new one. *)
Lemma rewrite_spec log kept outcome cut : Forall storable kept ->
  match rewrite_log log kept outcome cut with
  | (wal, None) => represents wal kept
  | (wal, Some _) => wal_file wal = wal_file log \/ exists wal', represents wal' kept /\ wal_file wal' = wal_file wal
  end.
Proof.
  intros Hs. unfold rewrite_log. rewrite encode_wal_layout by exact Hs.
  pose proof (represents_whole kept _ Hs eq_refl) as Hw.
  assert (forall n wal, load (wal_file_header ++ records kept) n cut = Ok wal -> represents wal kept) as Hl.
  { intros n wal. by apply load_represents. }
  assert (forall n, is_ok (load (wal_file_header ++ records kept) n cut) = true) as Hok.
  { intros n. by rewrite load_whole. }
  remember (wal_file_header ++ records kept) as bytes eqn:Eb. clear Eb.
  destruct outcome as [|err|err]; cbn [write_atomic from_option id wal_file wal_truncated];
    [|by left|right; exact Hw].
  specialize (Hok (wal_truncated log)). destruct (load bytes (wal_truncated log) cut) as [wal|] eqn:E; [|done].
  by apply Hl in E.
Qed.

(** Writing metadata: the old value or the new one. *)
Lemma store_metadata_spec file old m outcome :
  load_metadata file = Ok old -> metadata_ok m ->
  let '(file', error) := store_metadata file m outcome in
  (load_metadata file' = Ok old \/ load_metadata file' = Ok m) /\
  (error = None -> load_metadata file' = Ok m).
Proof. exact (store_then_load default_metadata file old m outcome). Qed.

(** ** Directories *)

Definition put_wal (file : list Z) (d : Directory) : Directory :=
  mkDirectory (dir_journal d) (dir_snapshots d) (dir_meta d) (Some file).
Definition put_meta (file : option (list Z)) (d : Directory) : Directory :=
  mkDirectory (dir_journal d) (dir_snapshots d) file (dir_wal d).
Definition put_snapshots (files : SnapshotDir) (d : Directory) : Directory :=
  mkDirectory (dir_journal d) files (dir_meta d) (dir_wal d).

Definition set_tail (tail : list Event) (v : View) : View :=
  mkView tail (v_cut v) (v_base v) (v_known v) (v_state v).
Definition set_cut (cut : nat) (v : View) : View :=
  mkView (v_tail v) cut (v_base v) (v_known v) (v_state v).
Definition set_base (base : nat) (known : ChoreographyState) (v : View) : View :=
  mkView (v_tail v) (v_cut v) base known (v_state v).
Definition set_state (s : ChoreographyState) (v : View) : View :=
  mkView (v_tail v) (v_cut v) (v_base v) (v_known v) s.

Lemma disk_log com v d tail file :
  disk_ok com v d -> log_ok (com ++ tail)%list -> opens_as (Some file) (v_log com (set_tail tail v)) ->
  disk_ok com (set_tail tail v) (put_wal file d).
Proof. intros [] Hl Ho. by split. Qed.

Lemma disk_meta com v d file :
  disk_ok com v d -> meta_ok file (count com) -> disk_ok com v (put_meta file d).
Proof. intros [] Hm. by split. Qed.

Lemma disk_files com v d files base known :
  disk_ok com v d -> names_up_to (count com) files -> recovers com (v_cut v) files base known ->
  forgets (v_state v) known -> disk_ok com (set_base base known v) (put_snapshots files d).
Proof. intros [] Hn Hr Hf. by split. Qed.

(** Less history in memory. *)
Lemma disk_state com v d s :
  disk_ok com v d -> tidy s -> forgets (v_state v) s -> forgets s (v_known v) ->
  disk_ok com (set_state s v) d.
Proof. intros [] Ht H1 H2. split; try done. by eapply stands_forgets. Qed.

(** The log from [anchor] on. *)
Lemma disk_cut com v d anchor file :
  disk_ok com v d -> (v_cut v <= anchor)%nat -> (anchor < v_base v)%nat ->
  opens_as (Some file) (drop (anchor - v_cut v) (v_log com v)) ->
  disk_ok com (set_cut anchor v) (put_wal file d).
Proof.
  intros D Hc Hb Ho. pose proof D as []. destruct (recovers_cut _ _ _ _ _ do_recovers0) as [Hle _].
  split; try done; [|by eapply recovers_compact].
  cbn. unfold v_log in *. cbn [v_cut v_tail set_cut] in *.
  rewrite drop_app_le in Ho by (rewrite length_drop; lia). rewrite drop_drop in Ho.
  by replace (v_cut v + (anchor - v_cut v))%nat with anchor in Ho by lia.
Qed.

Lemma disk_cut_le com v d : disk_ok com v d -> (v_cut v <= length com)%nat.
Proof. intros []. by eapply cut_le. Qed.

(** A directory with a new log. *)
Definition new_directory : Directory := mkDirectory None ∅ None (Some wal_file_header).

Definition new_view : View := mkView [] 0 0 empty_state empty_state.

Lemma disk_new : disk_ok [] new_view new_directory.
Proof.
  split; try done.
  - exists fresh_log. split; [|apply fresh_represents]. vm_compute. reflexivity.
  - exists default_metadata. split; [done|]. split; [|done]. by vm_compute.
  - apply no_names.
  - apply stands_empty.
  - by apply from_log.
  - apply forgets_refl.
Qed.

(** A directory in which no log was ever completed: there is none, or creating
    it stopped inside its header. *)
Definition empty_directory : Directory := mkDirectory None ∅ None None.

Definition torn_directory (k : nat) : Directory := mkDirectory None ∅ None (Some (take k wal_file_header)).

Definition unborn (d : Directory) : Prop :=
  d = empty_directory \/ exists k, (k < kFileHeaderBytes)%nat /\ d = torn_directory k.
