(* ===== verification/StoreOps.v ===== *)
(** * The operations of a running store

    Every operation of the file engine, with any outcome of its system calls,
    leaves a directory from which the committed history can be recovered; an
    object that may disagree with its files no longer writes. *)

From S2P Require Import Prelude Text Stream Types Model EventCodec EventCodecThms Machine MachineInv MachineThms EngineThms CommitThms SnapshotText SnapshotTextThms SnapshotThms StoreState Bytes Wal WalThms Metadata Transaction SnapshotFile SnapshotFileThms StoreDisk FileEngine.

Record running (com : list Event) (v : View) (f : FileEngine) : Prop := {
  rn_disk : disk_ok com v (fe_disk f);
  rn_wal : represents (fe_wal f) (v_log com v);
  rn_file : dir_wal (fe_disk f) = Some (wal_file (fe_wal f));
  rn_state : v_state v = en_state (fe_engine f);
  rn_commit : fe_commit f = count com;
  rn_snapshot : found_snapshot (fe_snapshot f) com (v_cut v) (v_base v) (v_known v);
}.

(** The options of a replicated store. *)
Definition options_ok (o : StoreOptions) : Prop :=
  so_commit_on_append o = false /\ 0 <= so_snapshot_every o.

(** A store that committed [com]. *)
Definition store_ok (com : list Event) (f : FileEngine) : Prop :=
  options_ok (fe_options f) /\
  exists v, if fe_recovery_required f then disk_ok com v (fe_disk f) else running com v f.

Lemma store_closed com v f :
  options_ok (fe_options f) -> disk_ok com v (fe_disk f) -> store_ok com (fail_closed f).
Proof. intros Ho Hd. split; [done|]. by exists v. Qed.

Lemma store_running com v f :
  options_ok (fe_options f) -> running com v f -> fe_recovery_required f = false -> store_ok com f.
Proof. intros Ho Hr Hf. split; [done|]. exists v. by rewrite Hf. Qed.

Lemma store_disk com f : store_ok com f -> exists v, disk_ok com v (fe_disk f).
Proof. intros [_ [v H]]. exists v. destruct (fe_recovery_required f); [done|apply (rn_disk _ _ _ H)]. Qed.

(** Operations begin with [require_writable]. *)
Lemma writable_cases com f : store_ok com f ->
  (exists e, require_writable f = Some e) \/
  (require_writable f = None /\ fe_recovery_required f = false /\ options_ok (fe_options f) /\
   exists v, running com v f).
Proof.
  intros [Ho [v H]]. unfold require_writable. destruct (fe_recovery_required f); [left; by eexists|right].
  split; [done|]. split; [done|]. split; [done|]. by exists v.
Qed.

(** ** Indexes of a retained log *)

Lemma front_numbered from es e rest : numbered from es -> es = e :: rest -> front_index es = Some from.
Proof. intros H ->. apply numbered_cons in H as [<- _]. done. Qed.

Lemma back_numbered from es : numbered from es -> es <> [] -> back_index es = Some (from + count es - 1).
Proof.
  intros H Hne. unfold back_index. destruct (list.last es) as [e|] eqn:E; [|by apply last_None in E].
  rewrite last_lookup in E. cbn. rewrite (H _ _ E). unfold count. destruct es; [done|]. simpl length. f_equal. lia.
Qed.

Section Running.
Context (com : list Event) (v : View) (f : FileEngine).
Hypothesis Hrun : running com v f.

Lemma run_events : log_events f = v_log com v.
Proof. destruct (rn_wal _ _ _ Hrun) as (_ & H & _). exact H. Qed.

Lemma run_numbered : numbered (Z.of_nat (v_cut v) + 1) (v_log com v).
Proof.
  pose proof (rn_disk _ _ _ Hrun) as D. apply log_numbered; [apply (do_log _ _ _ D)|by eapply disk_cut_le].
Qed.

Lemma run_last : s_last_applied (en_state (fe_engine f)) = count com.
Proof. rewrite <- (rn_state _ _ _ Hrun). apply (st_last _ _ (do_stands _ _ _ (rn_disk _ _ _ Hrun))). Qed.

Lemma run_count : Z.of_nat (v_cut v) + count (v_log com v) = count (com ++ v_tail v)%list.
Proof.
  pose proof (disk_cut_le _ _ _ (rn_disk _ _ _ Hrun)) as Hc. unfold v_log. rewrite !count_app.
  unfold count. rewrite length_drop. lia.
Qed.

(** An empty log belongs to an empty history. *)
Lemma run_empty_log : v_log com v = [] -> com = [] /\ v_cut v = 0%nat.
Proof.
  intros E. pose proof (do_recovers _ _ _ (rn_disk _ _ _ Hrun)) as Hr. apply recovers_cut in Hr.
  unfold v_log in E. apply app_eq_nil in E as [E _]. apply (f_equal length) in E. rewrite length_drop in E.
  simpl in E. split; [|lia]. apply length_zero_iff_nil. lia.
Qed.

Lemma run_small : count (com ++ v_tail v)%list < kIndexes.
Proof. apply (lo_small _ (do_log _ _ _ (rn_disk _ _ _ Hrun))). Qed.

(** The index [append_event] expects. *)
Lemma run_next :
  match back_index (log_events f) with
  | None => wrap64 (s_last_applied (en_state (fe_engine f)) + 1)
  | Some last => index_next last
  end = count (com ++ v_tail v)%list + 1.
Proof.
  pose proof run_small as Hs. pose proof run_count as Hc. rewrite run_events.
  assert (wrap64 (count (com ++ v_tail v)%list + 1) = count (com ++ v_tail v)%list + 1) as Hw.
  { unfold kIndexes in Hs. unfold wrap64. rewrite Z.mod_small; [done|]. unfold count in *. lia. }
  destruct (decide (v_log com v = [])) as [E|E].
  - destruct (run_empty_log E) as [Hcom Hcut]. rewrite E. cbn [back_index list.last fmap option_fmap option_map].
    rewrite run_last. rewrite E, Hcut in Hc. rewrite <- Hw, <- Hc, Hcom. done.
  - rewrite (back_numbered _ _ run_numbered E). unfold index_next. rewrite <- Hw. f_equal. lia.
Qed.
End Running.

(** ** Appending and truncating *)

Lemma running_fault com v f fault : running com v f -> running com v (with_fault fault f).
Proof. intros []. by split. Qed.

Lemma set_tail_log com v tail : v_log com (set_tail tail v) = (drop (v_cut v) com ++ tail)%list.
Proof. done. Qed.

(** The record is in the file, or at most a prefix of it. *)
Lemma append_file com v f e wal error os :
  running com v f -> log_ok ((com ++ v_tail v) ++ [e])%list ->
  wal_append (fe_wal f) e (os_append os) = (wal, error) ->
  exists tail, disk_ok com (set_tail tail v) (put_wal (wal_file wal) (fe_disk f)) /\
    (error = None -> represents wal (v_log com (set_tail tail v))).
Proof.
  intros Hr Hl Hw. pose proof (rn_disk _ _ _ Hr) as D. pose proof (rn_wal _ _ _ Hr) as Hrep.
  assert (storable e) as He.
  { pose proof (lo_storable _ Hl) as H. apply list.Forall_app in H as [_ H]. by inversion H. }
  assert (forall es, es = v_log com v \/ es = (v_log com v ++ [e])%list ->
    exists tail, es = v_log com (set_tail tail v) /\ log_ok (com ++ tail)%list) as Htail.
  { intros es [-> | ->]; [exists (v_tail v); split; [done|apply (do_log _ _ _ D)]|].
    exists (v_tail v ++ [e])%list. rewrite set_tail_log. unfold v_log. by rewrite <- !app_assoc in *. }
  destruct (os_append os) as [|k err] eqn:Eo.
  - destruct (append_represents _ _ _ Hrep He) as (log' & E & Hrep'). rewrite E in Hw. injection Hw as <- <-.
    destruct (Htail _ (or_intror eq_refl)) as (tail & Et & Hlt). exists tail. rewrite <- Et.
    split; [|done]. apply disk_log; [done|done|]. rewrite <- Et. by apply represents_opens.
  - destruct (failed_append_reopens _ _ _ k err Hrep He) as (E1 & _ & re & Ho & Hre). rewrite Hw in E1, Ho.
    cbn [fst snd] in E1, Ho. subst error.
    assert (exists es, represents re es /\ (es = v_log com v \/ es = (v_log com v ++ [e])%list)) as (es & Hes & Hor).
    { destruct (k <? _)%nat; destruct Hre as [Hre _]; eauto. }
    destruct (Htail es Hor) as (tail & Et & Hlt). exists tail. split; [|done].
    apply disk_log; [done|done|]. rewrite <- Et. by exists re.
Qed.

Lemma running_wal com v f tail wal :
  running com v f -> disk_ok com (set_tail tail v) (put_wal (wal_file wal) (fe_disk f)) ->
  represents wal (v_log com (set_tail tail v)) -> running com (set_tail tail v) (with_wal wal f).
Proof. intros [] Hd Hw. by split. Qed.

Lemma append_ok com f e os : store_ok com f -> entry_ok e -> ev_index e < kIndexes ->
  store_ok com (fst (append_event f e os)).
Proof.
  intros Hs He Hk. unfold append_event.
  destruct (writable_cases com f Hs) as [[err ->]|(-> & Hq & Ho & v & Hr)]; [done|].
  rewrite (run_next com v f Hr). destruct (Z.eqb_spec (ev_index e) (count (com ++ v_tail v)%list + 1)) as [Hi|]; [|done].
  cbn [negb]. destruct (Z.ltb_spec kMaxPayloadBytes (Z.of_nat (String.length (canonical_event e)))) as [|Hfit]; [done|].
  assert (log_ok ((com ++ v_tail v) ++ [e])%list) as Hl.
  { apply log_ok_snoc; [apply (do_log _ _ _ (rn_disk _ _ _ Hr))|done|done|done|done]. }
  unfold fail_before_flush. destruct (bool_decide (fe_fault f = FailBeforeFlush)).
  { apply (store_running com v); [done|by apply running_fault|done]. }
  destruct (wal_append (fe_wal f) e (os_append os)) as [wal error] eqn:Ew.
  destruct (append_file com v f e wal error os Hr Hl Ew) as (tail & Hd & Hrep). destruct error as [err|].
  - by apply (store_closed com (set_tail tail v)).
  - assert (running com (set_tail tail v) (with_wal wal f)) as Hr' by (apply running_wal; auto).
    unfold fail_after_flush. destruct (bool_decide (fe_fault (with_wal wal f) = FailAfterFlush)).
    + by apply (store_closed com (set_tail tail v)).
    + by apply (store_running com (set_tail tail v)).
Qed.

Lemma keep_count_numbered from es index : numbered from es ->
  keep_count index es = Z.to_nat (Z.min (count es) (Z.max 0 (index - from + 1))).
Proof.
  unfold count. revert from. induction es as [|e es IH]; intros from H; [simpl; lia|].
  apply numbered_cons in H as [Hi H]. cbn [keep_count length]. rewrite Hi.
  destruct (Z.leb_spec from index); [|lia]. rewrite (IH _ H). lia.
Qed.

(** Truncation after a committed index keeps the committed records. *)
Lemma keep_exact com v f keep : running com v f -> count com <= keep ->
  take (keep_count keep (v_log com v)) (v_log com v) =
  v_log com (set_tail (take (Z.to_nat (keep - count com)) (v_tail v)) v).
Proof.
  intros Hr Hi. pose proof (run_numbered com v f Hr) as Hn. pose proof (disk_cut_le _ _ _ (rn_disk _ _ _ Hr)) as Hcut.
  rewrite (keep_count_numbered _ _ _ Hn), set_tail_log. unfold v_log, count in *. rewrite length_app, length_drop.
  rewrite take_app_ge by (rewrite length_drop; lia). rewrite length_drop. f_equal.
  destruct (decide (Z.to_nat (keep - Z.of_nat (length com)) <= length (v_tail v))%nat).
  - f_equal. lia.
  - rewrite !take_ge by lia. done.
Qed.

Lemma truncate_ok com f index os : store_ok com f -> store_ok com (fst (store_truncate_after f index os)).
Proof.
  intros Hs. unfold store_truncate_after.
  destruct (writable_cases com f Hs) as [[err ->]|(-> & Hq & Ho & v & Hr)]; [done|].
  rewrite (rn_commit _ _ _ Hr). destruct (Z.ltb_spec index (count com)) as [|Hi]; [done|].
  pose proof (keep_exact com v f index Hr Hi) as Hn. set (n := Z.to_nat (index - count com)) in Hn.
  pose proof (rn_wal _ _ _ Hr) as Hrep.
  pose proof (truncate_represents (fe_wal f) _ index Hrep) as (log' & E & Hrep'). rewrite Hn in Hrep'.
  assert (disk_ok com (set_tail (take n (v_tail v)) v) (put_wal (wal_file log') (fe_disk f))) as Hd.
  { apply disk_log; [apply (rn_disk _ _ _ Hr)|apply log_ok_take, (do_log _ _ _ (rn_disk _ _ _ Hr))|].
    by apply represents_opens. }
  unfold truncate_after in E |- *. destruct (os_resized os) as [err|].
  - apply (store_closed com v); [done|]. cbn. rewrite <- (rn_file _ _ _ Hr).
    pose proof (rn_disk _ _ _ Hr) as D. by destruct (fe_disk f).
  - injection E as E. destruct (os_truncate_synced os) as [err|].
    + apply (store_closed com (set_tail (take n (v_tail v)) v)); [done|]. cbn.
      rewrite <- E in Hd. exact Hd.
    + rewrite E. apply (store_running com (set_tail (take n (v_tail v)) v)); [done|by apply running_wal|done].
Qed.

(** ** Metadata *)

Lemma meta_exists com v f : running com v f ->
  exists m, load_metadata (dir_meta (fe_disk f)) = Ok m /\ metadata_ok m /\ md_commit_index m = count com.
Proof. intros Hr. apply (do_meta _ _ _ (rn_disk _ _ _ Hr)). Qed.

Lemma running_meta com v f file :
  running com v f -> meta_ok file (count com) -> running com v (with_meta file f).
Proof. intros [] Hm. split; try done. by apply (disk_meta com v (fe_disk f)). Qed.

Lemma checked_store com r : store_ok com (fst r) -> store_ok com (fst (checked_mutation r)).
Proof.
  destruct r as [f [e|]]; cbn; intros Hs; [|done]. destruct (store_disk com f Hs) as [v Hd].
  destruct Hs as [Ho _]. by eapply store_closed.
Qed.

Definition vote_ok (vote : option string) : Prop :=
  match vote with None => True | Some id => valid_id id = true end.

Lemma persist_ok com f term vote os : store_ok com f -> valid_term term -> vote_ok vote ->
  store_ok com (fst (persist_consensus f term vote os)).
Proof.
  intros Hs Ht Hv. unfold persist_consensus.
  destruct (writable_cases com f Hs) as [[err ->]|(-> & Hq & Ho & v & Hr)]; [done|].
  destruct (meta_exists com v f Hr) as (m & Hm & Hok & Hc). unfold read_metadata.
  destruct (os_meta_read os); [apply (store_closed com v); [done|apply (rn_disk _ _ _ Hr)]|]. rewrite Hm.
  destruct (term <? md_term m); [done|]. apply checked_store. unfold write_metadata.
  assert (metadata_ok (mkMetadata term (md_commit_index m) vote)) as Hnew by (destruct Hok as (_ & ? & _); done).
  pose proof (store_metadata_spec _ _ _ (os_meta_write os) Hm Hnew) as Hspec.
  destruct (store_metadata _ _ _) as [file error]. destruct Hspec as [Hor _].
  apply (store_running com v); [done| |done]. apply running_meta; [done|].
  destruct Hor as [H|H]; eexists; (split; [exact H|done]).
Qed.

(** ** Compaction *)

Lemma running_engine com v f engine :
  running com v f -> tidy (en_state engine) -> forgets (v_state v) (en_state engine) ->
  forgets (en_state engine) (v_known v) -> running com (set_state (en_state engine) v) (with_engine engine f).
Proof. intros [] Ht H1 H2. split; try done. by apply disk_state. Qed.

Lemma engine_retention engine anchor u : tidy u -> above (anchor - 1) u ->
  tidy (en_state engine) -> forgets (en_state engine) u ->
  exists engine', retain_history_from engine anchor = (engine', None) /\ tidy (en_state engine') /\
    forgets (en_state engine) (en_state engine') /\ forgets (en_state engine') u.
Proof.
  intros Hu Ha Ht Hf. unfold retain_history_from.
  destruct (retain_state_history_from (en_state engine) anchor) as [s err] eqn:E.
  destruct (retention anchor u Hu Ha _ _ _ Ht Hf E) as (-> & R1 & R2 & R3). eexists. split; [reflexivity|done].
Qed.

Lemma retain_running com v f anchor :
  running com v f -> anchor <= Z.of_nat (v_base v) + 1 ->
  exists engine, retain_history_from (fe_engine f) anchor = (engine, None) /\
    running com (set_state (en_state engine) v) (with_engine engine f) /\
    forgets (v_state v) (en_state engine).
Proof.
  intros Hr Ha. pose proof (rn_disk _ _ _ Hr) as D. pose proof (do_recovers _ _ _ D) as Hrec.
  pose proof (log_ok_app _ _ (do_log _ _ _ D)) as Hl.
  destruct (recovers_stands _ _ _ _ _ Hl Hrec) as (_ & Hu & Hab).
  destruct (engine_retention (fe_engine f) anchor (v_known v)) as (engine & E & R1 & R2 & R3); [done| | | |].
  - intros k e Hb. apply Hab in Hb. lia.
  - rewrite <- (rn_state _ _ _ Hr). apply (st_tidy _ _ (do_stands _ _ _ D)).
  - rewrite <- (rn_state _ _ _ Hr). apply (do_forgets _ _ _ D).
  - exists engine. rewrite <- (rn_state _ _ _ Hr) in R2. split; [done|]. split; [by apply running_engine|done].
Qed.

Lemma disk_same_wal d file : dir_wal d = Some file -> put_wal file d = d.
Proof. destruct d. cbn. by intros ->. Qed.

(** The rewritten log starts at [anchor]. *)
Lemma rewrite_running com v f anchor os wal error :
  running com v f -> (v_cut v <= anchor)%nat -> (anchor < v_base v)%nat ->
  rewrite_log (fe_wal f) (drop (anchor - v_cut v) (v_log com v)) (os_rewrite os) (os_cut os) = (wal, error) ->
  match error with
  | None => running com (set_cut anchor v) (with_wal wal f)
  | Some _ => exists v', disk_ok com v' (put_wal (wal_file wal) (fe_disk f))
  end.
Proof.
  intros Hr Hc Hb Hw. pose proof (rn_disk _ _ _ Hr) as D. pose proof (rn_wal _ _ _ Hr) as (_ & _ & _ & Hst).
  pose proof (Forall_drop _ (anchor - v_cut v) _ Hst) as Hst'.
  remember (drop (anchor - v_cut v) (v_log com v)) as kept eqn:Ek.
  assert (forall wal', represents wal' kept ->
    disk_ok com (set_cut anchor v) (put_wal (wal_file wal') (fe_disk f))) as Hnew.
  { intros wal' Hrep. apply disk_cut; [done|done|done|]. rewrite <- Ek. by apply represents_opens. }
  pose proof (rewrite_spec (fe_wal f) kept (os_rewrite os) (os_cut os) Hst') as Hspec. rewrite Hw in Hspec.
  destruct error as [err|].
  - destruct Hspec as [E|(wal' & Hrep & E)].
    + exists v. by rewrite E, (disk_same_wal _ _ (rn_file _ _ _ Hr)).
    + exists (set_cut anchor v). rewrite <- E. by apply Hnew.
  - specialize (Hnew _ Hspec). assert (v_log com (set_cut anchor v) = kept) as Elog.
    { destruct (recovers_cut _ _ _ _ _ (do_recovers _ _ _ D)) as [Hle _].
      rewrite Ek. unfold v_log. cbn [v_cut v_tail set_cut].
      rewrite drop_app_le by (rewrite length_drop; lia). rewrite drop_drop. f_equal. f_equal. lia. }
    destruct Hr as [R1 R2 R3 R4 R5 R6]. split; try done; [cbn [fe_wal with_wal]; by rewrite Elog|].
    by eapply found_compact.
Qed.

Lemma compact_ok com v f anchor os :
  options_ok (fe_options f) -> fe_recovery_required f = false -> running com v f ->
  anchor <= Z.of_nat (v_base v) -> store_ok com (fst (compact f anchor os)).
Proof.
  intros Ho Hq Hr Ha. unfold compact. pose proof (run_numbered com v f Hr) as Hn. rewrite (run_events com v f Hr).
  destruct (v_log com v) as [|e0 es0] eqn:El; [by apply (store_running com v)|]. rewrite <- El in *.
  rewrite (front_numbered _ _ e0 es0 Hn El), (back_numbered _ _ Hn) by (by rewrite El).
  destruct (Z.leb_spec anchor (Z.of_nat (v_cut v) + 1)) as [|H1]; [by apply (store_running com v)|].
  destruct (_ <? anchor); [by apply (store_running com v)|].
  replace (Z.to_nat (anchor - (Z.of_nat (v_cut v) + 1))) with (Z.to_nat (anchor - 1) - v_cut v)%nat by lia.
  destruct (rewrite_log _ _ _ _) as [wal error] eqn:Ew.
  apply (rewrite_running com v f) in Ew; [|done|lia|lia]. destruct error as [err|].
  - destruct Ew as [v' Hd]. by apply (store_closed com v').
  - cbn [checked_mutation fe_options with_wal]. destruct (so_compact_log (fe_options f)).
    + destruct (retain_running com _ _ anchor Ew) as (engine & E & Hr' & _); [cbn; lia|].
      cbn [fe_engine with_wal] in *. rewrite E. by eapply store_running.
    + by apply (store_running com (set_cut (Z.to_nat (anchor - 1)) v)).
Qed.

(** ** Snapshots *)

Lemma file_kept (files : SnapshotDir) name :
  match files !! name with Some b => <[name := b]> files | None => files end = files.
Proof. destruct (files !! name) eqn:E; [by apply insert_id|done]. Qed.

Lemma disk_same_files d : put_snapshots (dir_snapshots d) d = d.
Proof. by destruct d. Qed.

(** The view once the committed state is saved. *)
Definition saved_view (com : list Event) (v : View) : View :=
  set_base (length com) (compact_state (v_state v)) v.

(** The file of the committed state is there, or the directory is as before. *)
Lemma save_disk com v f sync created synced outcome files error :
  running com v f -> (1 <= length com)%nat ->
  save_snapshot (Some (dir_snapshots (fe_disk f))) (en_state (fe_engine f)) sync created synced outcome =
    (files, error) ->
  exists v', disk_ok com v' (put_snapshots (default ∅ files) (fe_disk f)) /\
    (error = None -> v' = saved_view com v).
Proof.
  intros Hr Hc Hs. pose proof (rn_disk _ _ _ Hr) as D. pose proof (recovers_cut _ _ _ _ _ (do_recovers _ _ _ D)) as Hcut.
  pose proof (run_small com v f Hr) as Hsmall. pose proof (disk_same_files (fe_disk f)) as Esame.
  rewrite count_app in Hsmall. assert (0 <= count (v_tail v)) as Ht by (unfold count; lia).
  unfold save_snapshot in Hs. destruct (encode_snapshot (en_state (fe_engine f))) as [bytes|e] eqn:Ee;
    [|injection Hs as <- <-; exists v; cbn [from_option id]; by rewrite Esame].
  destruct created; [injection Hs as <- <-; exists v; cbn [from_option id]; by rewrite Esame|].
  destruct (if sync then synced else None); [injection Hs as <- <-; exists v; cbn [from_option id]; by rewrite Esame|].
  rewrite (run_last com v f Hr) in Hs. cbn [from_option id] in Hs.
  assert (disk_ok com (saved_view com v)
    (put_snapshots (<[snapshot_name (count com) := bytes]> (dir_snapshots (fe_disk f))) (fe_disk f))) as Hnew.
  { apply disk_files; [done| | |apply compact_forgets].
    - apply names_up_to_insert; [unfold count in *; lia|apply (do_names _ _ _ D)].
    - apply recovers_saved; [apply (do_stands _ _ _ D)|lia|lia|apply (do_names _ _ _ D)|by rewrite (rn_state _ _ _ Hr)]. }
  destruct outcome as [|e|e]; cbn [write_atomic] in Hs.
  - injection Hs as <- <-. eexists. split; [exact Hnew|done].
  - rewrite file_kept in Hs. injection Hs as <- <-. exists v. cbn [from_option id]. by rewrite Esame.
  - injection Hs as <- <-. eexists. split; [exact Hnew|done].
Qed.

(** After an operation that reports an error only the files are right. *)
Definition outcome_ok (com : list Event) (r : FileEngine * option Error) : Prop :=
  options_ok (fe_options (fst r)) /\
  match snd r with
  | None => store_ok com (fst r)
  | Some _ => exists v, disk_ok com v (fe_disk (fst r))
  end.

Lemma checked_outcome com r : outcome_ok com r -> store_ok com (fst (checked_mutation r)).
Proof. destruct r as [f [e|]]; intros [Ho H]; [|done]. destruct H as [v H]. by eapply store_closed. Qed.

Lemma store_outcome com r : store_ok com (fst r) -> outcome_ok com r.
Proof. intros H. split; [apply H|]. destruct (snd r); [by apply store_disk|done]. Qed.

(** The saved snapshot is also the one in memory. *)
Lemma running_saved com v f files :
  running com v f -> (1 <= length com)%nat -> disk_ok com (saved_view com v) (put_snapshots files (fe_disk f)) ->
  running com (saved_view com v)
    (with_snapshot (Some (snapshot_in_memory (en_state (fe_engine f)))) (with_snapshots files f)).
Proof.
  intros Hr Hc Hd. pose proof (recovers_cut _ _ _ _ _ (do_recovers _ _ _ (rn_disk _ _ _ Hr))) as Hcut.
  destruct Hr as [R1 R2 R3 R4 R5 R6]. split; try done. cbn [fe_snapshot with_snapshot].
  exists (v_state v). cbn [v_base v_known v_cut saved_view set_base].
  split; [by rewrite R4|]. rewrite firstn_all, drop_all. split; [apply (do_stands _ _ _ R1)|]. split; [lia|done].
Qed.

Lemma running_pruned com v f files :
  running com v f -> names_up_to (count com) files -> recovers com (v_cut v) files (v_base v) (v_known v) ->
  running com v (with_snapshots files f).
Proof.
  intros Hr Hn Hrec. pose proof (rn_disk _ _ _ Hr) as D.
  pose proof (disk_files _ _ _ _ _ _ D Hn Hrec (do_forgets _ _ _ D)) as Hd.
  destruct Hr as [R1 R2 R3 R4 R5 R6]. split; try done. destruct v. exact Hd.
Qed.

Lemma take_snapshot_ok com v f os :
  options_ok (fe_options f) -> fe_recovery_required f = false -> running com v f -> (1 <= length com)%nat ->
  outcome_ok com (take_snapshot f os).
Proof.
  intros Ho Hq Hr Hc. unfold take_snapshot.
  destruct (save_snapshot _ _ _ _ _ _) as [files error] eqn:Es.
  destruct (save_disk com v f _ _ _ _ _ _ Hr Hc Es) as (v1 & Hd1 & Hb). destruct error as [e|].
  { split; [done|]. by exists v1. }
  specialize (Hb eq_refl). subst v1. pose proof (running_saved com v f _ Hr Hc Hd1) as Hr2.
  set (f2 := with_snapshot _ _) in *. pose proof (rn_disk _ _ _ Hr2) as D.
  pose proof (run_small com _ f2 Hr2) as Hsmall. rewrite count_app in Hsmall.
  destruct (prune_recovers com _ _ _ _ (os_removed os) (os_scanned os) 2 ltac:(lia)
    ltac:(unfold count in *; lia) (do_names _ _ _ D) (do_recovers _ _ _ D)) as (files' & E1 & Hn & Hrec & Hold).
  destruct (prune_snapshots _ _ _ _) as [pruned result]. cbn [fst snd] in E1, Hold. subst pruned.
  cbn [from_option id]. pose proof (running_pruned com _ f2 files' Hr2 Hn Hrec) as Hr3.
  destruct result as [r|e]; apply store_outcome; [|by eapply store_running].
  destruct (_ && _); [|by eapply store_running].
  eapply compact_ok; [done|done|exact Hr3|]. by apply Hold.
Qed.

Lemma maybe_snapshot_ok com v f os :
  options_ok (fe_options f) -> fe_recovery_required f = false -> running com v f ->
  store_ok com (fst (maybe_snapshot f os)).
Proof.
  intros Ho Hq Hr. unfold maybe_snapshot. destruct (Z.eqb_spec (so_snapshot_every (fe_options f)) 0) as [|Hz];
    [by apply (store_running com v)|].
  rewrite (found_index _ _ _ _ _ (rn_snapshot _ _ _ Hr)), (run_last com v f Hr).
  destruct (Z.leb_spec (count com / so_snapshot_every (fe_options f))
    (Z.of_nat (v_base v) / so_snapshot_every (fe_options f))) as [|Hlt]; [by apply (store_running com v)|].
  apply checked_outcome, (take_snapshot_ok com v); [done|done|done|].
  destruct com as [|e com]; [|simpl; lia]. exfalso. destruct Ho as [_ Ho].
  change (count []) with 0 in Hlt. rewrite Z.div_0_l in Hlt by lia.
  pose proof (Z.div_pos (Z.of_nat (v_base v)) (so_snapshot_every (fe_options f)) ltac:(lia) ltac:(lia)). lia.
Qed.

Lemma checkpoint_ok com f os : store_ok com f -> store_ok com (fst (checkpoint f os)).
Proof.
  intros Hs. unfold checkpoint.
  destruct (writable_cases com f Hs) as [[err ->]|(-> & Hq & Ho & v & Hr)]; [done|].
  rewrite (run_last com v f Hr). destruct (Z.eqb_spec (count com) 0) as [|Hc]; [done|].
  apply checked_outcome, (take_snapshot_ok com v); [done|done|done|]. unfold count in Hc. lia.
Qed.

Lemma discard_ok com f os : store_ok com f -> store_ok com (fst (discard_compacted_prefix f os)).
Proof.
  intros Hs. unfold discard_compacted_prefix.
  destruct (writable_cases com f Hs) as [[err ->]|(-> & Hq & Ho & v & Hr)]; [done|].
  pose proof (found_index _ _ _ _ _ (rn_snapshot _ _ _ Hr)) as Hi. destruct (fe_snapshot f) as [sn|]; [|done].
  apply (compact_ok com v); [done|done|done|lia].
Qed.

Lemma arm_ok com f fault : store_ok com f -> store_ok com (fst (arm_storage_fault f fault)).
Proof.
  intros [Ho [v H]]. unfold arm_storage_fault. destruct (negb _); (split; [done|]); exists v; [done|].
  cbn [fst fe_recovery_required with_fault]. destruct (fe_recovery_required f); [done|by apply running_fault].
Qed.

(** ** Committing *)

(** The commit index on disk. *)
Definition durable_commit (d : Directory) : Z :=
  match load_metadata (dir_meta d) with Ok m => md_commit_index m | Err _ => 0 end.

(** The records of [f]'s log that the commit index on disk moved past. *)
Definition newly_committed (com : list Event) (f : FileEngine) (d : Directory) : list Event :=
  filter (fun e => count com < ev_index e <= durable_commit d) (log_events f).

Lemma disk_commit com v d : disk_ok com v d -> durable_commit d = count com.
Proof. intros D. destruct (do_meta _ _ _ D) as (m & E & _ & <-). unfold durable_commit. by rewrite E. Qed.

Lemma window_none (lo hi : Z) (es : list Event) : (forall e, e ∈ es -> ~ lo < ev_index e <= hi) ->
  filter (fun e => lo < ev_index e <= hi) es = [].
Proof.
  induction es as [|e es IH]; intros H; [done|]. rewrite filter_cons_False by (apply H; constructor).
  apply IH. intros x Hx. apply H. by constructor.
Qed.

Lemma window_all (lo hi : Z) (es : list Event) : (forall e, e ∈ es -> lo < ev_index e <= hi) ->
  filter (fun e => lo < ev_index e <= hi) es = es.
Proof.
  induction es as [|e es IH]; intros H; [done|]. rewrite filter_cons_True by (apply H; constructor).
  f_equal. apply IH. intros x Hx. apply H. by constructor.
Qed.

Lemma numbered_range from es e : numbered from es -> e ∈ es -> from <= ev_index e < from + count es.
Proof.
  intros H [j Hj]%list_elem_of_lookup. rewrite (H j e Hj). apply lookup_lt_Some in Hj. unfold count. lia.
Qed.

Lemma nothing_new com f d : durable_commit d = count com -> newly_committed com f d = [].
Proof. intros E. apply window_none. lia. Qed.

Section Commit.
Context (com : list Event) (v : View) (f : FileEngine).
Hypothesis Hrun : running com v f.

Lemma tail_numbered : numbered (count com + 1) (v_tail v).
Proof.
  pose proof (lo_numbered _ (do_log _ _ _ (rn_disk _ _ _ Hrun))) as H. apply numbered_app in H as [_ H].
  by rewrite Z.add_comm in H.
Qed.

(** The records past the commit index are the committed batch. *)
Lemma batch_new n d : durable_commit d = count com + count (take n (v_tail v)) ->
  newly_committed com f d = take n (v_tail v).
Proof.
  intros E. unfold newly_committed. rewrite E, (run_events com v f Hrun). pose proof tail_numbered as Ht.
  pose proof (run_numbered com v f Hrun) as Hn. unfold v_log in *.
  pose proof (disk_cut_le _ _ _ (rn_disk _ _ _ Hrun)) as Hc.
  apply numbered_app in Hn as [Hn _]. rewrite list.filter_app, window_none, app_nil_l.
  - rewrite <- (take_drop n (v_tail v)) in Ht |- * at 1. apply numbered_app in Ht as [H1 H2].
    rewrite list.filter_app, window_all, window_none, app_nil_r; [done| |].
    + intros e He%(numbered_range _ _ _ H2). lia.
    + intros e He%(numbered_range _ _ _ H1). lia.
  - intros e He%(numbered_range _ _ _ Hn). unfold count in *. rewrite length_drop in He. lia.
Qed.

Lemma tail_entry j : log_entry f (count com + 1 + Z.of_nat j) = v_tail v !! j.
Proof.
  unfold log_entry. rewrite (run_events com v f Hrun). pose proof (run_numbered com v f Hrun) as Hn.
  pose proof (disk_cut_le _ _ _ (rn_disk _ _ _ Hrun)) as Hc.
  destruct (v_log com v) as [|e0 es0] eqn:El.
  { unfold v_log in El. by apply app_eq_nil in El as [_ ->]. }
  rewrite <- El in *. unfold log_entry_of.
  rewrite (front_numbered _ _ e0 es0 Hn El), (back_numbered _ _ Hn) by (by rewrite El).
  pose proof (run_count com v f Hrun) as Hcount. rewrite count_app in Hcount.
  destruct (Z.ltb_spec (count com + 1 + Z.of_nat j) (Z.of_nat (v_cut v) + 1)) as [H|_]; [unfold count in H; lia|].
  destruct (Z.ltb_spec (Z.of_nat (v_cut v) + 1 + count (v_log com v) - 1) (count com + 1 + Z.of_nat j)) as [H|H]; cbn [orb].
  - symmetry. apply lookup_ge_None. unfold count in *. lia.
  - unfold v_log. rewrite lookup_app_r by (rewrite length_drop; unfold count in *; lia).
    rewrite length_drop. f_equal. unfold count in *. lia.
Qed.

Lemma batch_is_tail n : forall j, commit_batch f (count com + 1 + Z.of_nat j) n = take n (drop j (v_tail v)).
Proof.
  induction n as [|n IH]; intros j; [done|]. cbn [commit_batch]. rewrite tail_entry.
  destruct (v_tail v !! j) as [e|] eqn:E.
  - rewrite (drop_S _ _ _ E). cbn [take]. f_equal. rewrite <- IH. f_equal. lia.
  - by rewrite drop_ge by (by apply lookup_ge_None).
Qed.

Lemma apply_all_replay batch : forall engine engine', apply_all engine batch = Ok engine' ->
  replay_from (en_state engine) batch None None = Ok (en_state engine').
Proof.
  induction batch as [|e batch IH]; intros engine engine' H; cbn [apply_all] in H; [by injection H as <-|].
  simpl. unfold apply_committed in H. destruct (apply (en_state engine) e Contiguous); [|done].
  by apply IH in H.
Qed.

(** The committed state after a batch the engine accepted. *)
Lemma batch_state n staged :
  let batch := take n (v_tail v) in
  let engine := publish_committed (fe_engine f) staged in
  prepare_committed (fe_engine f) batch = Ok staged ->
  stands (com ++ batch)%list (en_state engine) /\
  exists u, found_snapshot (fe_snapshot f) (com ++ batch)%list (v_cut v) (v_base v) u /\
    recovers (com ++ batch)%list (v_cut v) (dir_snapshots (fe_disk f)) (v_base v) u /\
    forgets (en_state engine) u.
Proof.
  intros batch engine Hp. pose proof (rn_disk _ _ _ Hrun) as D. pose proof (do_log _ _ _ D) as Hl.
  pose proof (log_ok_take com (v_tail v) n Hl) as Hl'. fold batch in Hl'. pose proof Hl' as [L1 L2 _ _].
  assert (Forall (fun e => ev_id e = ev_command e) batch) as Hids.
  { apply list.Forall_app in L2 as [_ L2]. eapply list.Forall_impl; [exact L2|]. by intros e [_ [? _]]. }
  pose proof (prepare_sequential (fe_engine f) batch (aligned_one_id batch Hids)) as Hseq. rewrite Hp in Hseq.
  apply apply_all_replay in Hseq. rewrite <- (rn_state _ _ _ Hrun) in Hseq.
  split.
  - apply (stands_replay batch com (v_state v)); [done| |apply (do_stands _ _ _ D)|done].
    apply numbered_app in L1 as [_ L1]. by rewrite Z.add_comm in L1.
  - destruct (recovers_commit _ _ _ _ _ _ _ _ Hl' (do_recovers _ _ _ D) (do_stands _ _ _ D) (do_forgets _ _ _ D) Hseq)
      as (u & Hu & Hrec & Hf). exists u. split; [by eapply found_commit; [apply (rn_snapshot _ _ _ Hrun)|]|done].
Qed.
End Commit.

(** The view after [n] more records are committed. *)
Definition commit_view (n : nat) (u t : ChoreographyState) (v : View) : View :=
  mkView (drop n (v_tail v)) (v_cut v) (v_base v) u t.

Lemma commit_log com v n u t : (v_cut v <= length com)%nat ->
  v_log (com ++ take n (v_tail v))%list (commit_view n u t v) = v_log com v.
Proof.
  intros Hc. unfold v_log. cbn [v_cut v_tail commit_view].
  rewrite drop_app_le, <- app_assoc, take_drop by done. done.
Qed.

Lemma disk_committed com v d file n u t :
  let com' := (com ++ take n (v_tail v))%list in
  disk_ok com v d -> meta_ok file (count com') -> stands com' t ->
  recovers com' (v_cut v) (dir_snapshots d) (v_base v) u -> forgets t u ->
  disk_ok com' (commit_view n u t v) (put_meta file d).
Proof.
  intros com' D Hm Ht Hr Hf. pose proof (disk_cut_le _ _ _ D) as Hc.
  pose proof D as [D1 D2 D3p D3 D4 D5 D6 D7 D8].
  split; try done; cbn [dir_wal dir_snapshots put_meta v_tail commit_view].
  - unfold com'. by rewrite <- app_assoc, take_drop.
  - unfold com'. by rewrite commit_log.
  - intros name Ha Hs. destruct (D5 name Ha Hs) as (i & Hi & ->). exists i. split; [|done].
    unfold com'. rewrite count_app. unfold count in *. lia.
Qed.

Lemma running_committed com v f file n u engine :
  let com' := (com ++ take n (v_tail v))%list in
  running com v f -> meta_ok file (count com') -> stands com' (en_state engine) ->
  found_snapshot (fe_snapshot f) com' (v_cut v) (v_base v) u ->
  recovers com' (v_cut v) (dir_snapshots (fe_disk f)) (v_base v) u -> forgets (en_state engine) u ->
  running com' (commit_view n u (en_state engine) v)
    (with_commit (count com') (with_engine engine (with_meta file f))).
Proof.
  intros com' Hr Hm Ht Hfound Hrec Hf. pose proof (rn_disk _ _ _ Hr) as D. pose proof (disk_cut_le _ _ _ D) as Hc.
  pose proof (disk_committed com v (fe_disk f) file n u (en_state engine) D Hm Ht Hrec Hf) as Hd.
  destruct Hr. split; try done. cbn [fe_wal with_commit with_engine with_meta]. unfold com'. by rewrite commit_log.
Qed.

Lemma commit_metadata_ok m term index : metadata_ok m -> valid_term term -> 0 <= index < kIndexes ->
  metadata_ok (raise_term term (set_commit index m)).
Proof.
  intros (M1 & M2 & M3) Ht Hi. unfold raise_term, set_commit. cbn [md_term].
  assert (u64 index) as Hu by (unfold u64, max_u64, kIndexes in *; lia).
  by destruct (md_term m <? term).
Qed.

Lemma raise_term_commit term m : md_commit_index (raise_term term m) = md_commit_index m.
Proof. unfold raise_term. by destruct (md_term m <? term). Qed.

Lemma store_kept com f f' : store_ok com f' -> store_ok (com ++ newly_committed com f (fe_disk f'))%list f'.
Proof.
  intros Hs. destruct (store_disk com f' Hs) as [v Hd].
  by rewrite nothing_new, app_nil_r by (by apply (disk_commit com v)).
Qed.

(** The commit itself, once the batch is prepared: [file] and [error] are the
    outcome of the metadata write. *)
Lemma publish_ok com v f n index m file error staged os :
  let com' := (com ++ take n (v_tail v))%list in
  let f' := with_meta file f in
  let r := match error with
           | Some e => storage_failure f' e
           | None => checked_mutation (maybe_snapshot
               (with_commit index (with_engine (publish_committed (fe_engine f') staged) f')) os)
           end in
  running com v f -> options_ok (fe_options f) -> fe_recovery_required f = false ->
  prepare_committed (fe_engine f) (take n (v_tail v)) = Ok staged ->
  s_last_applied (en_state staged) = index ->
  load_metadata (dir_meta (fe_disk f)) = Ok m -> metadata_ok m ->
  store_metadata (dir_meta (fe_disk f)) (raise_term (s_term (en_state staged)) (set_commit index m)) (os_meta_write os)
    = (file, error) ->
  exists c, (c = com \/ c = com') /\ store_ok c (fst r).
Proof.
  intros com' f' r Hr Ho Hq Hp Hi Hm Hmok Hw.
  destruct (batch_state com v f Hr n staged Hp) as (Ht & u & Hfound & Hrec & Hf). fold com' in Ht, Hfound, Hrec.
  pose proof (rn_disk _ _ _ Hr) as D. pose proof (do_meta _ _ _ D) as (m' & Hm' & _ & Hcommit).
  assert (index = count com') as Hidx by (rewrite <- Hi; exact (st_last _ _ Ht)).
  assert (0 <= index < kIndexes) as Hrange.
  { pose proof (lo_small _ (log_ok_take com (v_tail v) n (do_log _ _ _ D))). fold com' in H. unfold count in *. lia. }
  assert (metadata_ok (raise_term (s_term (en_state staged)) (set_commit index m))) as Hnew.
  { apply commit_metadata_ok; [done|exact (sn_term _ (mo_snapshot _ (st_machine _ _ Ht)))|done]. }
  pose proof (store_metadata_spec _ _ _ (os_meta_write os) Hm Hnew) as Hspec. rewrite Hw in Hspec.
  destruct Hspec as [Hor Hdone].
  assert (load_metadata file = Ok (raise_term (s_term (en_state staged)) (set_commit index m)) ->
    meta_ok file (count com')) as Hfile.
  { intros E. eexists. split; [exact E|]. split; [done|]. by rewrite raise_term_commit. }
  unfold r. destruct error as [e|].
  - destruct Hor as [E|E].
    + exists com. split; [by left|]. apply (store_closed com v); [done|]. apply disk_meta; [done|].
      exists m. split; [done|]. split; [done|]. congruence.
    + exists com'. split; [by right|]. eapply store_closed; [done|].
      apply (disk_committed com v (fe_disk f) file n u (en_state (publish_committed (fe_engine f) staged)));
        [done|by apply Hfile|done..].
  - exists com'. split; [by right|]. apply checked_store. eapply maybe_snapshot_ok; [done|done|]. rewrite Hidx.
    apply (running_committed com v f file n u); [done|by apply Hfile, Hdone|done..].
Qed.

Lemma commit_through_ok com f index os : store_ok com f ->
  let f' := fst (commit_through f index os) in
  store_ok (com ++ newly_committed com f (fe_disk f'))%list f'.
Proof.
  intros Hs f'. unfold f', commit_through.
  destruct (writable_cases com f Hs) as [[err ->]|(-> & Hq & Ho & v & Hr)]; [by apply store_kept|].
  rewrite (rn_commit _ _ _ Hr). destruct (index <? count com); [by apply store_kept|].
  pose proof (batch_is_tail com v f Hr (Z.to_nat (index - count com)) 0) as Hb.
  replace (count com + 1 + Z.of_nat 0) with (count com + 1) in Hb by lia. rewrite Hb, drop_0. clear Hb.
  set (n := Z.to_nat (index - count com)).
  destruct (prepare_committed (fe_engine f) (take n (v_tail v))) as [staged|e] eqn:Ep; [|by apply store_kept].
  destruct (Z.eqb_spec (s_last_applied (en_state staged)) index) as [Hi|]; [|by apply store_kept]. cbn [negb].
  destruct (meta_exists com v f Hr) as (m & Hm & Hok & Hc). unfold read_metadata.
  destruct (os_meta_read os); [apply store_kept, (store_closed com v); [done|apply (rn_disk _ _ _ Hr)]|]. rewrite Hm.
  unfold write_metadata. destruct (store_metadata _ _ _) as [file error] eqn:Ew.
  destruct (publish_ok com v f n index m file error staged os Hr Ho Hq Ep Hi Hm Hok Ew) as (c & Hc' & Hst).
  cbv zeta in Hst.
  set (r := match error with Some e => _ | None => _ end) in Hst.
  change (store_ok (com ++ newly_committed com f (fe_disk (fst r)))%list (fst r)).
  destruct (store_disk c _ Hst) as [v' Hd]. pose proof (disk_commit c v' _ Hd) as Hdur.
  destruct Hc' as [-> | ->].
  - by rewrite nothing_new, app_nil_r.
  - rewrite (batch_new com v f Hr n); [done|]. by rewrite Hdur, count_app.
Qed.
