(* ===== verification/StoreOpen.v ===== *)
(** * Opening a store

    [FileEngine::open] on a directory that recovers a committed history: it
    fails only when a system call does, and otherwise gives a store that holds
    that history. *)

From S2P Require Import Prelude Text Stream Types Model EventCodec EventCodecThms Machine MachineInv MachineThms EngineThms CommitThms SnapshotText SnapshotTextThms SnapshotThms StoreState Bytes Wal WalThms Metadata Transaction SnapshotFile SnapshotFileThms StoreDisk FileEngine StoreOps.

(** Some system call of [open] fails. *)
Definition open_fails (os : OpenOs) : Prop :=
  op_directory os <> None \/ op_journal os <> None \/ op_journal_sync os <> None \/
  op_created os <> Accessed \/ op_cut os <> None \/ op_scanned os <> None \/ op_meta_read os <> None.

Definition readable (os : OpenOs) : Prop := forall name, op_unreadable os name = false.

(** ** The scan of the log *)

Lemma contiguous_numbered es : forall from previous, numbered from es -> 1 <= from ->
  from + count es <= max_u64 -> previous = 0 \/ previous = from - 1 -> contiguous previous es = true.
Proof.
  unfold count, max_u64. induction es as [|e es IH]; intros from previous Hn H1 Hmax Hp; [done|].
  apply numbered_cons in Hn as [Hi Hn]. cbn [contiguous length] in *. rewrite Hi.
  apply andb_true_iff. split; [|apply (IH (from + 1)); [done|lia|lia|right; lia]].
  destruct (Z.eqb_spec from 0) as [|_]; [lia|]. cbn [orb]. destruct Hp as [-> | ->]; [done|].
  destruct (Z.eqb_spec (from - 1) 0); [done|]. cbn [negb andb]. unfold max_u64.
  destruct (Z.eqb_spec (from - 1) 18446744073709551615) as [|_]; [lia|].
  replace (from - 1 + 1) with from by lia. unfold wrap64. rewrite Z.mod_small by lia. by rewrite Z.eqb_refl.
Qed.

(** ** The newest snapshot *)

Lemma recovers_found com cut files base u os :
  recovers com cut files base u -> readable os ->
  found_snapshot (first_valid files (op_unreadable os) (snapshot_files files)) com cut base u.
Proof.
  intros [u' H1 H2 H3|base' b bytes rest u' F1 F2 F3 F4 F5 F6] Hread.
  - by rewrite H1.
  - rewrite F1. cbn [first_valid]. rewrite Hread, F2. cbn [from_option id].
    rewrite (read_encoded b bytes (mo_snapshot _ (st_machine _ _ F4)) F3). by exists b.
Qed.

(** Receipts already recorded are recorded again unchanged. *)
Lemma restore_same s history :
  (forall e, e ∈ history -> ev_type e <> NoOp -> s_receipts s !! ev_command e = Some (receipt_from_event e)) ->
  restore s history = mkEngine s history.
Proof.
  intros H. unfold restore. f_equal.
  assert (forall receipts, (forall e, e ∈ history -> ev_type e <> NoOp ->
      receipts !! ev_command e = Some (receipt_from_event e)) ->
    foldl (fun (receipts : gmap string EventReceipt) event =>
             if bool_decide (ev_type event = NoOp) then receipts
             else <[ev_command event := receipt_from_event event]> receipts) receipts history = receipts) as Hfold.
  { clear H. induction history as [|e history IH]; intros receipts H; [done|]. cbn [foldl].
    destruct (bool_decide_reflect (ev_type e = NoOp)) as [Ht|Ht].
    - apply IH. intros x Hx. apply H. by constructor.
    - rewrite insert_id by (apply H; [constructor|done]). apply IH. intros x Hx. apply H. by constructor. }
  rewrite Hfold by done. by destruct s.
Qed.

Lemma history_through_take from es index : numbered from es ->
  history_through index es = take (Z.to_nat (index - from + 1)) es.
Proof.
  revert from. induction es as [|e es IH]; intros from H; [by rewrite take_nil|].
  apply numbered_cons in H as [Hi H]. cbn [history_through]. rewrite Hi, (IH _ H).
  destruct (Z.ltb_spec index from).
  - by replace (Z.to_nat (index - from + 1)) with 0%nat by lia.
  - replace (Z.to_nat (index - from + 1)) with (S (Z.to_nat (index - (from + 1) + 1))) by lia. done.
Qed.

(** The history restored beside a snapshot is committed history. *)
Lemma retained_history_committed com v base e :
  log_ok (com ++ v_tail v)%list -> (v_cut v <= length com)%nat -> (base <= length com)%nat ->
  e ∈ retained_history (Z.of_nat base) (v_log com v) -> e ∈ take base com.
Proof.
  intros Hl Hc Hb. pose proof (log_numbered com v Hl Hc) as Hn. unfold retained_history.
  destruct (v_log com v) as [|e0 es0] eqn:El; [by intros H%elem_of_nil|]. rewrite <- El in *.
  rewrite (front_numbered _ _ e0 es0 Hn El), (back_numbered _ _ Hn) by (by rewrite El).
  destruct (Z.eqb_spec (Z.of_nat (v_cut v) + 1) 1) as [E|]; cbn [andb]; [|by intros H%elem_of_nil].
  destruct (_ <=? _); [|by intros H%elem_of_nil]. rewrite (history_through_take _ _ _ Hn).
  assert (v_cut v = 0)%nat as E0 by lia. unfold v_log. rewrite E0, drop_0.
  replace (Z.to_nat (Z.of_nat base - (Z.of_nat 0 + 1) + 1)) with base by lia. by rewrite take_app_le.
Qed.

Lemma restored com v base b :
  log_ok (com ++ v_tail v)%list -> (v_cut v < base <= length com)%nat -> stands (take base com) b ->
  exists engine, restore_from (snapshot_of b) (v_log com v) = Ok (engine, snapshot_of b) /\
    en_state engine = compact_state b.
Proof.
  intros Hl Hc Hb. unfold restore_from. rewrite verify_snapshot_of by apply (mo_snapshot _ (st_machine _ _ Hb)).
  assert (is_legacy_format (snapshot_of b) = false) as ->.
  { unfold is_legacy_format, snapshot_of. cbn [sp_payload]. pose proof (snapshot_payload_not_empty b).
    by destruct (snapshot_payload b). }
  eexists. split; [reflexivity|]. cbn [sp_index snapshot_of]. rewrite (snapshot_index com base b) by (done || lia).
  rewrite restore_same; [done|]. intros e He Ht. apply (st_receipts _ _ Hb); [|done].
  apply (retained_history_committed com v); [done|lia|lia|done].
Qed.

(** ** The committed records *)

Lemma replay_skip start limit tail es : forall engine n,
  (forall e, e ∈ es -> ev_index e <= start) ->
  replay_committed engine start limit (es ++ tail)%list n = replay_committed engine start limit tail n.
Proof.
  induction es as [|e es IH]; intros engine n H; [done|]. rewrite <- app_comm_cons. cbn [replay_committed].
  destruct (Z.leb_spec (ev_index e) start) as [_|Hgt]; [|specialize (H e ltac:(constructor)); lia].
  apply IH. intros x Hx. apply H. by constructor.
Qed.

Lemma replay_stop start limit engine n tail : start <= limit ->
  (forall e, e ∈ tail -> limit < ev_index e) -> replay_committed engine start limit tail n = Ok (engine, n).
Proof.
  intros Hs H. destruct tail as [|e tail]; [done|]. cbn [replay_committed]. specialize (H e ltac:(constructor)).
  destruct (Z.leb_spec (ev_index e) start); [lia|]. by destruct (Z.ltb_spec limit (ev_index e)); [|lia].
Qed.

Lemma replay_batch start limit tail batch : forall engine n u, start <= limit ->
  (forall e, e ∈ batch -> start < ev_index e <= limit) -> (forall e, e ∈ tail -> limit < ev_index e) ->
  replay_from (en_state engine) batch None None = Ok u ->
  exists engine' n', replay_committed engine start limit (batch ++ tail)%list n = Ok (engine', n') /\
    en_state engine' = u.
Proof.
  induction batch as [|e batch IH]; intros engine n u Hs Hb Ht Hr.
  - injection Hr as Hr. exists engine, n. split; [by apply replay_stop|done].
  - rewrite <- app_comm_cons. cbn [replay_committed]. pose proof (Hb e ltac:(constructor)) as He.
    destruct (Z.leb_spec (ev_index e) start); [lia|]. destruct (Z.ltb_spec limit (ev_index e)); [lia|].
    simpl in Hr. unfold apply_committed. destruct (apply (en_state engine) e Contiguous) as [s|] eqn:E; [|done].
    apply IH; [done| |done|done]. intros x Hx. apply Hb. by constructor.
Qed.

Lemma replayed_log com v engine base u :
  log_ok (com ++ v_tail v)%list -> (v_cut v <= base <= length com)%nat ->
  replay_from (en_state engine) (drop base com) None None = Ok u ->
  exists engine' n, replay_committed engine (Z.of_nat base) (count com) (v_log com v) 0 = Ok (engine', n) /\
    en_state engine' = u.
Proof.
  intros Hl Hc Hr. pose proof (lo_numbered _ Hl) as Hn. unfold v_log.
  rewrite <- (take_drop (base - v_cut v) (drop (v_cut v) com)), <- app_assoc, drop_drop.
  replace (v_cut v + (base - v_cut v))%nat with base by lia.
  apply numbered_app in Hn as [Hn Ht].
  assert (forall a b, (a <= base)%nat -> b = take (base - a) (drop a com) -> forall e, e ∈ b -> ev_index e <= Z.of_nat base) as Hlow.
  { intros a b Ha -> e He. apply list_elem_of_lookup in He as [j Hj].
    pose proof (lookup_lt_Some _ _ _ Hj) as Hlt. rewrite length_take in Hlt.
    rewrite lookup_take_lt, lookup_drop in Hj by lia. rewrite (Hn _ _ Hj). lia. }
  rewrite replay_skip by (by apply (Hlow (v_cut v)); [lia|]).
  apply replay_batch; [unfold count; lia| | |done].
  - intros e He. apply list_elem_of_lookup in He as [j Hj]. rewrite lookup_drop in Hj.
    pose proof (lookup_lt_Some _ _ _ Hj) as Hlt. rewrite (Hn _ _ Hj). unfold count. lia.
  - intros e He. apply (numbered_range _ _ _ Ht) in He. lia.
Qed.

(** ** The joint *)

Lemma joined com v wal m outcome cut found u :
  log_ok (com ++ v_tail v)%list -> (v_cut v <= length com)%nat -> wal_events wal = v_log com v ->
  found_snapshot found com (v_cut v) (v_base v) u -> join_log wal found m outcome cut = (wal, None).
Proof.
  intros Hl Hc Hw Hf. unfold join_log. destruct found as [sn|]; [|done].
  destruct Hf as (b & -> & Hb & Hbase & _). cbn [sp_index sp_term snapshot_of].
  rewrite (snapshot_index com (v_base v) b) by (done || lia). rewrite Hw.
  pose proof (log_numbered com v Hl Hc) as Hn. pose proof Hl as [_ _ _ _].
  destruct (v_log com v) as [|e0 es0] eqn:El; [done|]. rewrite <- El in *.
  assert (count (v_log com v) = count com - Z.of_nat (v_cut v) + count (v_tail v)) as Hcount.
  { unfold v_log. rewrite count_app. unfold count. rewrite length_drop. lia. }
  rewrite (front_numbered _ _ e0 es0 Hn El), (back_numbered _ _ Hn) by (by rewrite El).
  destruct (Z.ltb_spec (Z.of_nat (v_cut v) + 1 + count (v_log com v) - 1) (Z.of_nat (v_base v))) as [H|_];
    [unfold count in *; lia|].
  destruct (Z.ltb_spec (Z.of_nat (v_base v)) (Z.of_nat (v_cut v) + 1)) as [H|_]; [lia|]. cbn [andb].
  rewrite Hw. unfold log_entry_of. rewrite (front_numbered _ _ e0 es0 Hn El), (back_numbered _ _ Hn) by (by rewrite El).
  destruct (Z.ltb_spec (Z.of_nat (v_base v)) (Z.of_nat (v_cut v) + 1)) as [H|_]; [lia|].
  destruct (Z.ltb_spec (Z.of_nat (v_cut v) + 1 + count (v_log com v) - 1) (Z.of_nat (v_base v))) as [H|_];
    [unfold count in *; lia|]. cbn [orb].
  assert (v_log com v !! Z.to_nat (Z.of_nat (v_base v) - (Z.of_nat (v_cut v) + 1)) = list.last (take (v_base v) com)) as ->.
  { rewrite last_lookup, length_take. unfold v_log.
    rewrite lookup_app_l, lookup_drop, lookup_take_lt by (rewrite ?length_drop; lia). f_equal. lia. }
  destruct (list.last (take (v_base v) com)) as [e|] eqn:E; [|done].
  by rewrite (st_term _ _ Hb e E), Z.eqb_refl.
Qed.

(** ** The whole of [open] *)

Lemma opened_view com v d u :
  disk_ok com v d -> stands com u -> recovers com (v_cut v) (dir_snapshots d) (v_base v) u ->
  disk_ok com (mkView (v_tail v) (v_cut v) (v_base v) u u) d.
Proof. intros [] Hs Hr. split; try done. apply forgets_refl. Qed.

Lemma first_retained com v f : running com v f -> log_first_index f <= Z.of_nat (v_base v) + 1.
Proof.
  intros Hr. pose proof (run_numbered com v f Hr) as Hn. unfold log_first_index.
  rewrite (run_events com v f Hr), (run_last com v f Hr).
  pose proof (recovers_cut _ _ _ _ _ (do_recovers _ _ _ (rn_disk _ _ _ Hr))) as Hc.
  destruct (v_log com v) as [|e0 es0] eqn:El.
  - destruct (run_empty_log com v f Hr El) as [Ec _].
    rewrite Ec. change (1 <= Z.of_nat (v_base v) + 1). lia.
  - rewrite <- El in *. rewrite (front_numbered _ _ e0 es0 Hn El). cbn. lia.
Qed.

(** The store that [open] returns, before retention. *)
Lemma finish_ok com v d options wal engine snapshot m replayed os :
  disk_ok com v d -> options_ok options -> represents wal (v_log com v) ->
  dir_wal d = Some (wal_file wal) -> en_state engine = v_state v -> md_commit_index m = count com ->
  found_snapshot snapshot com (v_cut v) (v_base v) (v_known v) ->
  exists f v', finish_open d options wal engine snapshot m replayed os = (d, Ok f) /\
    fe_disk f = d /\ fe_options f = options /\ fe_recovery_required f = false /\ running com v' f /\
    v_log com v' = v_log com v /\ forgets (v_state v) (v_state v') /\
    v_tail v' = v_tail v /\ v_base v' = v_base v /\
    rp_state_hash (fe_report f) = state_hash (en_state (fe_engine f)).
Proof.
  intros D Ho Hw Hd He Hm Hsn. unfold finish_open. pose proof Ho as [-> _]. cbn [andb].
  set (store := fun engine => mkFileEngine d options wal engine
    (mkRecoveryReport (is_some snapshot) (match snapshot with Some boundary => sp_index boundary | None => 0 end)
       replayed (wal_truncated wal) (md_commit_index m) (state_hash (en_state engine)))
    (md_commit_index m) snapshot NoStorageFault NoFault false).
  change (mkFileEngine d options wal engine _ _ snapshot NoStorageFault NoFault false) with (store engine).
  assert (running com v (store engine)) as Hr by (by split).
  destruct (so_compact_log options).
  - destruct (retain_running com v (store engine) (log_first_index (store engine)) Hr) as (engine' & E & Hr' & Hf).
    { by apply (first_retained com). }
    cbn [fe_engine store] in E. rewrite E. exists (store engine'), (set_state (en_state engine') v).
    do 3 (split; [done|]). split; [done|]. split; [by destruct Hr'; split|]. split; [done|]. split; [exact Hf|done].
  - exists (store engine), v. do 5 (split; [done|]). split; [done|]. split; [apply forgets_refl|done].
Qed.

(** What a successful [open] gives: the log and the committed state, up to
    forgotten history. *)
Definition opened (com : list Event) (v : View) (d : Directory) (options : StoreOptions) (f : FileEngine) : Prop :=
  fe_disk f = d /\ fe_options f = options /\ fe_recovery_required f = false /\
  exists v', running com v' f /\ v_log com v' = v_log com v /\ forgets (v_state v) (v_state v') /\
    v_tail v' = v_tail v /\ v_base v' = v_base v /\
    rp_state_hash (fe_report f) = state_hash (en_state (fe_engine f)).

(** The snapshot part of [open]: the engine to start from and the snapshot
    kept in memory. *)
Lemma start_engine com v found u :
  log_ok (com ++ v_tail v)%list -> found_snapshot found com (v_cut v) (v_base v) u ->
  let selected := match found with
                  | Some snapshot => if sp_index snapshot <=? count com then Some snapshot else None
                  | None => None
                  end in
  selected = found /\
  match found with Some snapshot => sp_index snapshot | None => 0 end = Z.of_nat (v_base v) /\
  (v_base v <= length com)%nat /\ (v_cut v <= v_base v)%nat /\
  (Z.of_nat (v_base v) = 0 -> v_cut v = 0%nat) /\
  exists engine,
    (match found with
     | Some snapshot => let? (engine, in_memory) := restore_from snapshot (v_log com v) in
                        Ok (engine, Some in_memory)
     | None => Ok (empty_engine, None)
     end) = Ok (engine, found) /\
    replay_from (en_state engine) (drop (v_base v) com) None None = Ok u.
Proof.
  intros Hl Hf. destruct found as [sn|].
  - destruct Hf as (b & -> & Hb & Hc & Hu). destruct (restored com v (v_base v) b Hl Hc Hb) as (engine & E & Es).
    cbn [sp_index snapshot_of]. rewrite (snapshot_index com (v_base v) b) by (done || lia).
    destruct (Z.leb_spec (Z.of_nat (v_base v)) (count com)) as [_|H]; [|unfold count in H; lia].
    split; [done|]. split; [done|]. split; [lia|]. split; [lia|]. split; [lia|].
    exists engine. rewrite E, Es. done.
  - destruct Hf as (-> & -> & Hu). split; [done|]. split; [done|]. split; [lia|]. split; [done|]. split; [done|].
    exists empty_engine. done.
Qed.

(** Opening the log fails only when a system call does, and changes nothing. *)
Lemma wal_left com v d access cut file e : disk_ok com v d ->
  wal_open (dir_wal d) access cut = (file, Err e) -> file = dir_wal d /\ (access <> Accessed \/ cut <> None).
Proof.
  intros D H. pose proof (do_present _ _ _ D) as Hp. destruct (do_wal _ _ _ D) as (wal & Hopen & _).
  destruct (dir_wal d) as [bytes|]; [|destruct (Hp eq_refl)]. destruct (wal_open_left _ _ _ _ _ H) as [-> [?|[?|[x Hx]]]]; try tauto.
  congruence.
Qed.

Lemma store_open_ok com v d options os :
  disk_ok com v d -> options_ok options -> readable os ->
  let '(d', r) := store_open d options os in
  (exists v', disk_ok com v' d') /\
  match r with Err _ => open_fails os | Ok f => opened com v d' options f end.
Proof.
  intros D Ho Hread. unfold store_open, open_fails.
  destruct (op_directory os); [split; [by exists v|by left]|].
  unfold recover_snapshot_transaction. rewrite (do_journal _ _ _ D).
  destruct (op_journal os); [split; [by exists v|by right; left]|].
  destruct (op_journal_sync os); [split; [by exists v|by do 2 right; left]|].
  destruct (wal_open (dir_wal d) (op_created os) (op_cut os)) as [file [wal|e]] eqn:Ew.
  2: { destruct (wal_left com v d _ _ _ _ D Ew) as [-> H]. split; [exists v; by destruct d|tauto]. }
  destruct (open_represents _ _ _ _ _ _ (do_wal _ _ _ D) Ew) as [-> Hrep]. clear Ew.
  pose proof (do_log _ _ _ D) as Hl. pose proof (disk_cut_le _ _ _ D) as Hc.
  assert (disk_ok com v (put_wal (wal_file wal) d)) as D1.
  { pose proof (disk_log com v d (v_tail v) (wal_file wal) D Hl) as H. destruct v. apply H.
    by apply represents_opens. }
  pose proof Hrep as (_ & Hev & _). rewrite Hev. fold (put_wal (wal_file wal) d).
  assert (contiguous 0 (v_log com v) = true) as ->.
  { pose proof (log_numbered com v Hl Hc) as Hn. apply (contiguous_numbered _ _ _ Hn); [lia| |by left].
    pose proof (lo_small _ Hl) as Hs. rewrite count_app in Hs. unfold v_log. rewrite count_app.
    unfold count, kIndexes, max_u64 in *. rewrite length_drop. lia. }
  cbn [negb]. unfold load_latest_snapshot. destruct (op_scanned os); [split; [by exists v|by do 5 right; left]|].
  cbn [dir_snapshots dir_meta put_wal].
  pose proof (recovers_found com _ _ _ _ os (do_recovers _ _ _ D) Hread) as Hfound.
  remember (first_valid (dir_snapshots d) (op_unreadable os) (snapshot_files (dir_snapshots d))) as found eqn:Ef.
  destruct (op_meta_read os); [split; [by exists v|by do 6 right]|].
  destruct (do_meta _ _ _ D) as (m & Hm & _ & Hcommit). rewrite Hm. pose proof Ho as [-> _]. rewrite Hcommit.
  destruct (start_engine com v found (v_known v) Hl Hfound) as (-> & Hstart & Hb & Hcb & Hzero & engine & Heng & Hreplay).
  rewrite Heng, Hstart.
  assert ((Z.of_nat (v_base v) =? 0) && match front_index (v_log com v) with Some first => 1 <? first | None => false end = false) as ->.
  { destruct (Z.eqb_spec (Z.of_nat (v_base v)) 0) as [E|]; [|done]. pose proof (log_numbered com v Hl Hc) as Hn.
    destruct (v_log com v) as [|e0 es0] eqn:El; [done|]. rewrite (front_numbered _ _ e0 es0 Hn eq_refl), Hzero by done. done. }
  rewrite (joined com v wal m (op_rewrite os) (op_rewrite_cut os) found (v_known v) Hl Hc Hev Hfound), Hev.
  change (mkDirectory _ _ _ (Some (wal_file wal))) with (put_wal (wal_file wal) d).
  destruct (replayed_log com v engine (v_base v) (v_known v) Hl) as (engine' & n & -> & Hstate); [lia|done|].
  pose proof (log_ok_app _ _ Hl) as Hlc.
  destruct (recovers_stands _ _ _ _ _ Hlc (do_recovers _ _ _ D)) as (Hst & _ & _).
  rewrite Hstate, (st_last _ _ Hst), Z.ltb_irrefl.
  pose proof (opened_view com v _ (v_known v) D1 Hst (do_recovers _ _ _ D1)) as D2.
  destruct (finish_ok com (mkView (v_tail v) (v_cut v) (v_base v) (v_known v) (v_known v)) (put_wal (wal_file wal) d)
    options wal engine' found m n os D2 Ho Hrep) as (f & v' & -> & H1 & H2 & H3 & H4 & H5 & H6 & H7 & H8 & H9); [done..|].
  split; [by eexists|]. split; [done|]. split; [done|]. split; [done|]. exists v'. split; [done|]. split; [done|].
  split; [|done]. eapply forgets_trans; [apply (do_forgets _ _ _ D)|exact H6].
Qed.

(** ** A directory without a log *)

(** A log with an incomplete header is refused, whatever the system calls do,
    and left as it is. *)
Lemma torn_refused k options os : (k < kFileHeaderBytes)%nat ->
  exists e, store_open (torn_directory k) options os = (torn_directory k, Err e).
Proof.
  intros Hk. assert (length (take k wal_file_header) < kFileHeaderBytes)%nat as Hl by (rewrite length_take; lia).
  unfold torn_directory. remember (take k wal_file_header) as bytes eqn:Eb. clear Eb.
  assert (exists e, load_found bytes (op_cut os) = (Some bytes, Err e)) as [e He].
  { unfold load_found, load, load_scan. apply Nat.ltb_lt in Hl. rewrite Hl. by eexists. }
  assert (exists e, wal_open (Some bytes) (op_created os) (op_cut os) = (Some bytes, Err e)) as [e' He'].
  { destruct (op_created os) as [|x|w x|x]; [by exists e|by exists x|by exists e|by exists x]. }
  unfold store_open, recover_snapshot_transaction. cbn [dir_journal dir_wal dir_snapshots dir_meta].
  destruct (op_directory os); [by eexists|]. destruct (op_journal os); [by eexists|].
  destruct (op_journal_sync os); [by eexists|]. cbn [dir_journal dir_wal dir_snapshots dir_meta].
  rewrite He'. by eexists.
Qed.

(** A log that is created is opened as if its header had been there. *)
Lemma wal_open_created access cut : (forall e, access <> NotInspected e) -> (forall w e, access <> HeaderFailed w e) ->
  wal_open None access cut = wal_open (Some wal_file_header) access cut.
Proof.
  intros H1 H2. destruct access as [|e|w e|e]; [reflexivity|by destruct (H1 e)|by destruct (H2 w e)|reflexivity].
Qed.

Lemma created_open options os :
  op_directory os = None -> op_journal os = None -> op_journal_sync os = None ->
  (forall e, op_created os <> NotInspected e) -> (forall w e, op_created os <> HeaderFailed w e) ->
  store_open empty_directory options os = store_open new_directory options os.
Proof.
  intros H1 H2 H3 H4 H5. unfold store_open, recover_snapshot_transaction. rewrite H1. cbn [dir_journal empty_directory new_directory].
  rewrite H2, H3. cbn [dir_wal dir_snapshots dir_meta dir_journal]. by rewrite (wal_open_created _ _ H4 H5).
Qed.

(** Opening a directory in which no log was ever completed. *)
Lemma unborn_open d options os : unborn d -> options_ok options -> readable os ->
  match store_open d options os with
  | (d', Err _) =>
      d' = d \/ (exists v, disk_ok [] v d') \/
      exists k e, (k < kFileHeaderBytes)%nat /\ op_created os = HeaderFailed (Some k) e /\ d' = torn_directory k
  | (d', Ok f) => d = empty_directory /\ (exists v, disk_ok [] v d') /\ opened [] new_view d' options f
  end.
Proof.
  intros Hd Ho Hr. destruct Hd as [->|(k & Hk & ->)].
  2: { destruct (torn_refused k options os Hk) as [e ->]. by left. }
  pose proof (created_open options os) as Hc. pose proof (store_open_ok [] new_view _ options os disk_new Ho Hr) as Hn.
  destruct (op_directory os) eqn:E1; [unfold store_open; rewrite E1; by left|].
  destruct (op_journal os) eqn:E2; [unfold store_open, recover_snapshot_transaction; rewrite E1; cbn [dir_journal empty_directory]; rewrite E2; by left|].
  destruct (op_journal_sync os) eqn:E3;
    [unfold store_open, recover_snapshot_transaction; rewrite E1; cbn [dir_journal empty_directory]; rewrite E2, E3; by left|].
  destruct (op_created os) as [|e|written e|e] eqn:E4.
  1, 4: rewrite Hc by (done || by intros); destruct (store_open new_directory options os) as [d' [f|e']];
    destruct Hn as [Hn1 Hn2]; [done|by right; left].
  all: clear Hc Hn; unfold store_open, recover_snapshot_transaction; rewrite E1; cbn [dir_journal empty_directory];
    rewrite E2, E3; cbn [dir_wal dir_snapshots dir_meta dir_journal]; rewrite E4; cbn [wal_open].
  1: by left.
  destruct written as [k|]; cbn [fmap option_fmap option_map]; [|by left]. right.
  destruct (decide (k < kFileHeaderBytes)%nat) as [Hk|Hk]; [right; by exists k, e|left; exists new_view].
  assert (torn_directory k = new_directory) as H.
  { unfold new_directory, torn_directory. do 2 f_equal. apply take_ge.
    change (length wal_file_header) with kFileHeaderBytes. lia. }
  pose proof disk_new as D. by rewrite <- H in D.
Qed.

Lemma empty_opens options os d f : options_ok options -> readable os ->
  store_open empty_directory options os = (d, Ok f) -> store_open new_directory options os = (d, Ok f).
Proof.
  intros Ho Hr H. rewrite <- H. symmetry.
  unfold store_open, recover_snapshot_transaction in H. destruct (op_directory os) eqn:E1; [done|].
  cbn [dir_journal empty_directory] in H. destruct (op_journal os) eqn:E2; [done|].
  destruct (op_journal_sync os) eqn:E3; [done|]. cbn [dir_wal] in H.
  destruct (op_created os) as [|e|written e|e] eqn:E4; [|discriminate (f_equal snd H)|discriminate (f_equal snd H)|];
    clear H; apply created_open; congruence.
Qed.
