(* ===== verification/StoreRun.v ===== *)
(** * The life of a store

    Runs of a replicated store: any sequence of operations, restarts included,
    with any outcome of the system calls. The committed history only grows,
    and the directory gives it back when it is opened, unless nothing was ever
    stored in it and its log was left with an incomplete header. *)

From S2P Require Import Prelude Text Stream Types Model EventCodec EventCodecThms Machine MachineInv MachineThms EngineThms CommitThms SnapshotText SnapshotTextThms SnapshotThms StoreState Bytes Wal WalThms Metadata Transaction SnapshotFile SnapshotFileThms StoreDisk FileEngine StoreOps StoreOpen.

(** An operation and the outcomes of its system calls. [DoOpen] drops the
    object, if there is one, and opens the directory: a restart. *)
Inductive StoreOp :=
| DoAppend (event : Event) (os : Os)
| DoTruncate (index : Z) (os : Os)
| DoCommit (index : Z) (os : Os)
| DoPersist (term : Z) (voted_for : option string) (os : Os)
| DoCheckpoint (os : Os)
| DoDiscard (os : Os)
| DoArm (fault : StorageFault)
| DoOpen (options : StoreOptions) (os : OpenOs).

Inductive StoreNode := Running (f : FileEngine) | Closed (d : Directory).

Definition node_disk (n : StoreNode) : Directory :=
  match n with Running f => fe_disk f | Closed d => d end.

Definition engine_step (f : FileEngine) (op : StoreOp) : FileEngine :=
  match op with
  | DoAppend event os => fst (append_event f event os)
  | DoTruncate index os => fst (store_truncate_after f index os)
  | DoCommit index os => fst (commit_through f index os)
  | DoPersist term vote os => fst (persist_consensus f term vote os)
  | DoCheckpoint os => fst (checkpoint f os)
  | DoDiscard os => fst (discard_compacted_prefix f os)
  | DoArm fault => fst (arm_storage_fault f fault)
  | DoOpen _ _ => f
  end.

Definition store_step (n : StoreNode) (op : StoreOp) : StoreNode :=
  match op, n with
  | DoOpen options os, _ =>
      match store_open (node_disk n) options os with
      | (_, Ok f) => Running f
      | (d, Err _) => Closed d
      end
  | _, Running f => Running (engine_step f op)
  | _, Closed d => Closed d
  end.

(** The committed history: the records the commit index on disk moves past. *)
Definition history_step (com : list Event) (n n' : StoreNode) : list Event :=
  match n with
  | Running f => (com ++ newly_committed com f (node_disk n'))%list
  | Closed _ => com
  end.

Fixpoint store_run (n : StoreNode) (com : list Event) (ops : list StoreOp) : StoreNode * list Event :=
  match ops with
  | [] => (n, com)
  | op :: rest => let n' := store_step n op in store_run n' (history_step com n n') rest
  end.

(** What callers pass: entries as the replica builds them, terms and votes
    that parse; a directory whose snapshot files can be read when it is
    opened. *)
Definition op_ok (op : StoreOp) : Prop :=
  match op with
  | DoAppend event _ => entry_ok event /\ ev_index event < kIndexes
  | DoPersist term vote _ => valid_term term /\ vote_ok vote
  | DoOpen options os => options_ok options /\ readable os
  | _ => True
  end.

Definition node_ok (com : list Event) (n : StoreNode) : Prop :=
  match n with Running f => store_ok com f | Closed d => exists v, disk_ok com v d end.

Lemma node_ok_disk com n : node_ok com n -> exists v, disk_ok com v (node_disk n).
Proof. destruct n as [f|d]; [apply store_disk|done]. Qed.

Lemma opened_store com v d options f : options_ok options -> opened com v d options f -> store_ok com f.
Proof.
  intros Ho (_ & H2 & H3 & v' & H4 & _). apply (store_running com v'); [by rewrite H2|done|done].
Qed.

Lemma engine_step_ok com f op : op_ok op -> store_ok com f ->
  store_ok (com ++ newly_committed com f (fe_disk (engine_step f op)))%list (engine_step f op).
Proof.
  intros Hop Hs. destruct op; cbn [engine_step op_ok] in *.
  - destruct Hop. by apply store_kept, append_ok.
  - by apply store_kept, truncate_ok.
  - by apply commit_through_ok.
  - destruct Hop. by apply store_kept, persist_ok.
  - by apply store_kept, checkpoint_ok.
  - by apply store_kept, discard_ok.
  - by apply store_kept, arm_ok.
  - by apply store_kept.
Qed.

Lemma open_step_ok com n options os : op_ok (DoOpen options os) -> node_ok com n ->
  let n' := store_step n (DoOpen options os) in node_ok (history_step com n n') n'.
Proof.
  intros [Ho Hr] Hn n'. destruct (node_ok_disk com n Hn) as [v D].
  assert (node_ok com n') as Hok.
  { pose proof (store_open_ok com v _ options os D Ho Hr) as H. unfold n'. cbn [store_step].
    destruct (store_open (node_disk n) options os) as [d [f|e]]; destruct H as [H1 H2]; [|done].
    by eapply opened_store. }
  destruct n as [f|d]; [|done]. cbn [history_step]. destruct (node_ok_disk com n' Hok) as [v' D'].
  by rewrite nothing_new, app_nil_r by (by apply (disk_commit com v')).
Qed.

Lemma store_step_ok com n op : op_ok op -> node_ok com n ->
  let n' := store_step n op in node_ok (history_step com n n') n'.
Proof.
  intros Hop Hn. destruct op; try by apply open_step_ok.
  all: destruct n as [f|d]; [|done]; exact (engine_step_ok com f _ Hop Hn).
Qed.

(** ** Before the first log *)

(** An opening of the run stopped after [k] bytes of the header of a new log. *)
Definition creation_torn (ops : list StoreOp) (k : nat) : Prop :=
  exists options os e, DoOpen options os ∈ ops /\ op_created os = HeaderFailed (Some k) e.

(** No log was ever completed, after the operations [past]. *)
Definition not_started (past : list StoreOp) (n : StoreNode) : Prop :=
  n = Closed empty_directory \/
  exists k, (k < kFileHeaderBytes)%nat /\ n = Closed (torn_directory k) /\ creation_torn past k.

Definition run_state (past : list StoreOp) (com : list Event) (n : StoreNode) : Prop :=
  node_ok com n \/ (com = [] /\ not_started past n).

Lemma not_started_more past op n : not_started past n -> not_started (past ++ [op]) n.
Proof.
  intros [->|(k & Hk & -> & options & os & e & Hin & E)]; [by left|]. right. exists k. split; [done|]. split; [done|].
  exists options, os, e. split; [apply elem_of_app; by left|done].
Qed.

Lemma not_started_step past n op : op_ok op -> not_started past n ->
  run_state (past ++ [op]) [] (store_step n op).
Proof.
  intros Hop Hn. pose proof (not_started_more past op n Hn) as Hmore.
  assert (exists d, n = Closed d /\ unborn d) as (d & -> & Hd).
  { destruct Hn as [->|(k & Hk & -> & _)]; eexists; (split; [done|]); [by left|right; by exists k]. }
  destruct op as [| | | | | | |options os]; try (by right; split). destruct Hop as [Ho Hr].
  cbn [store_step node_disk]. pose proof (unborn_open d options os Hd Ho Hr) as H.
  destruct (store_open d options os) as [d' [f|e]].
  - destruct H as (_ & _ & H). left. by eapply opened_store.
  - destruct H as [->|[H|(k & e' & Hk & E & ->)]]; [by right; split|by left|]. right. split; [done|]. right.
    exists k. split; [done|]. split; [done|]. exists options, os, e'. split; [|done]. apply elem_of_app. right.
    by apply list_elem_of_singleton.
Qed.

Lemma run_step_ok past com n op : op_ok op -> run_state past com n ->
  let n' := store_step n op in run_state (past ++ [op]) (history_step com n n') n'.
Proof.
  intros Hop [Hn|[-> Hn]]; [left; by apply store_step_ok|].
  pose proof (not_started_step past n op Hop Hn) as H. by destruct Hn as [->|(k & _ & -> & _)].
Qed.

Lemma run_ok ops : forall past com n, Forall op_ok ops -> run_state past com n ->
  run_state (past ++ ops) (store_run n com ops).2 (store_run n com ops).1 /\ com `prefix_of` (store_run n com ops).2.
Proof.
  induction ops as [|op ops IH]; intros past com n Hall Hn; [by rewrite app_nil_r|].
  apply list.Forall_cons in Hall as [Hop Hall]. rewrite cons_middle, app_assoc.
  cbn [store_run]. destruct (IH _ _ _ Hall (run_step_ok past com n op Hop Hn)) as [H1 H2]. split; [done|].
  etransitivity; [|exact H2]. destruct n; [by apply prefix_app_r|done].
Qed.

Lemma store_run_app n com a b :
  store_run n com (a ++ b)%list = store_run (store_run n com a).1 (store_run n com a).2 b.
Proof. revert n com. induction a as [|op a IH]; intros n com; [done|]. apply IH. Qed.

(** Every system call of [open] succeeds. *)
Definition calm_open : OpenOs :=
  mkOpenOs None None None undisturbed Accessed None (fun _ => false) None None Replaced None Replaced.

Lemma calm_readable : readable calm_open.
Proof. done. Qed.

Lemma calm_opens com v d options : disk_ok com v d -> options_ok options ->
  exists d' f, store_open d options calm_open = (d', Ok f) /\ opened com v d' options f.
Proof.
  intros D Ho. pose proof (store_open_ok com v d options calm_open D Ho calm_readable) as H.
  destruct (store_open d options calm_open) as [d' [f|e]]; destruct H as [_ H]; [by eauto|].
  unfold open_fails in H. cbn in H. naive_solver.
Qed.

(** The position and the answers of a state that forgot some history. *)
Definition same_committed (s t : ChoreographyState) : Prop :=
  canonical_state t = canonical_state s /\ s_receipts t = s_receipts s /\
  s_last_applied t = s_last_applied s /\ s_term t = s_term s /\
  forall command, resolve_receipt t command = resolve_receipt s command.

Lemma forgets_same s t : forgets s t -> same_committed s t.
Proof.
  intros H. destruct (forgets_position s t H) as (E1 & E2 & E3). split; [done|].
  split; [apply (fg_receipts _ _ H)|]. split; [done|]. split; [done|]. intros c. by apply forgets_answers.
Qed.

(** Opening the directory of [n], with no system call failing, gives back the
    history [com]: the store is at its end, its state and its answers to
    retried commands are those of replaying it from an empty state, and when
    [n] has not failed it has the same log and the same state as [n]. *)
Definition gives_back (com : list Event) (n : StoreNode) : Prop :=
  forall options, options_ok options ->
  exists d f, store_open (node_disk n) options calm_open = (d, Ok f) /\
    fe_commit f = count com /\ s_last_applied (en_state (fe_engine f)) = count com /\
    (forall s, replay com None None = Ok s -> same_committed s (en_state (fe_engine f))) /\
    (forall g, n = Running g -> fe_recovery_required g = false ->
       log_events f = log_events g /\ same_committed (en_state (fe_engine g)) (en_state (fe_engine f))).

Lemma node_gives_back com n : node_ok com n -> gives_back com n.
Proof.
  intros Hn options Ho.
  assert (exists v, disk_ok com v (node_disk n) /\ forall g, n = Running g -> fe_recovery_required g = false ->
    running com v g) as (v & D & Hg).
  { destruct n as [f|d]; [|destruct Hn as [v0 D0]; exists v0; split; [done|by intros]]. destruct Hn as [_ [v Hv]]. exists v.
    destruct (fe_recovery_required f) eqn:Ef; [split; [done|intros g [= <-]; congruence]|].
    split; [apply (rn_disk _ _ _ Hv)|]. by intros g [= <-]. }
  destruct (calm_opens com v _ options D Ho) as (d & f & Hopen & _ & _ & _ & v' & Hr & Hlog & Hf & _).
  exists d, f. split; [done|]. split; [apply (rn_commit _ _ _ Hr)|]. split; [apply (run_last _ _ _ Hr)|].
  rewrite (rn_state _ _ _ Hr) in Hf. split.
  - intros s Hs. apply forgets_same. eapply forgets_trans; [apply (st_replay _ _ (do_stands _ _ _ D) s Hs)|done].
  - intros g Hng Hq. specialize (Hg g Hng Hq). split.
    + by rewrite (run_events _ _ _ Hr), (run_events _ _ _ Hg).
    + apply forgets_same. by rewrite <- (rn_state _ _ _ Hg).
Qed.

Lemma empty_gives_back : gives_back [] (Closed empty_directory).
Proof.
  intros options Ho. assert (node_ok [] (Closed new_directory)) as H by (exists new_view; apply disk_new).
  destruct (node_gives_back [] _ H options Ho) as (d & f & E & H1 & H2 & H3 & _). exists d, f.
  cbn [node_disk] in *. rewrite created_open by (done || by intros). by repeat (split; [done|]).
Qed.

Lemma run_numbers past com n : run_state past com n -> numbered 1 com.
Proof.
  intros [Hn|[-> _]]; [|by intros ? ? ?]. destruct (node_ok_disk com n Hn) as [v D].
  apply (lo_numbered _ (log_ok_app _ _ (do_log _ _ _ D))).
Qed.


(** ** A run *)

Definition demo_options : StoreOptions := mkStoreOptions 0 true false true true.

Definition torn : Os :=
  mkOs (Failed 40 (corrupt "short write")) None None None Replaced None None Replaced (fun _ => true) None Replaced None.

(** Write eight records, the last one torn; commit, checkpoint and compact on
    the way; restart, write again and commit. *)
Definition demo_store_ops : list StoreOp :=
  [DoOpen demo_options calm_open] ++ ((fun e => DoAppend e calm) <$> take 5 demo_events) ++
  [DoCommit 4 calm; DoCheckpoint calm; DoDiscard calm; DoPersist 1 (Some "node-1") calm] ++
  ((fun e => DoAppend e torn) <$> take 1 (drop 5 demo_events)) ++
  [DoCommit 5 calm; DoOpen demo_options calm_open] ++
  ((fun e => DoAppend e calm) <$> drop 5 demo_events) ++ [DoCommit 8 calm].

#[export] Instance entry_ok_dec e : Decision (entry_ok e).
Proof. unfold entry_ok, named. apply _. Defined.

Lemma demo_entries : Forall (fun e => entry_ok e /\ ev_index e < kIndexes) demo_events.
Proof. apply (bool_decide_unpack _). vm_compute. exact I. Qed.

Lemma appends_ok os es : Forall (fun e => entry_ok e /\ ev_index e < kIndexes) es ->
  Forall op_ok ((fun e => DoAppend e os) <$> es).
Proof. intros H. by apply Forall_fmap. Qed.

Lemma demo_store_ops_ok : Forall op_ok demo_store_ops.
Proof.
  pose proof demo_entries as He. assert (op_ok (DoOpen demo_options calm_open)) as Ho by done.
  assert (op_ok (DoPersist 1 (Some "node-1") calm)) as Hp by (split; [by vm_compute|reflexivity]).
  unfold demo_store_ops.
  apply list.Forall_app_2; [by constructor|]. apply list.Forall_app_2; [by apply appends_ok, Forall_take|].
  apply list.Forall_app_2; [by repeat constructor|].
  apply list.Forall_app_2; [by apply appends_ok, Forall_take, Forall_drop|].
  apply list.Forall_app_2; [by repeat constructor|].
  apply list.Forall_app_2; [by apply appends_ok, Forall_drop|by repeat constructor].
Qed.

