(* ===== verification/DomainBridge.v ===== *)
(** * Between the core's entries and the store's events

    [cpp-runtime/include/choreoos/raft/domain_bridge.hpp] and
    [src/raft/domain_bridge.cpp]: an entry of the Raft log carries the
    canonical text of one event. The audits read a whole store as a Raft state
    and refuse it unless the log, the snapshot, the metadata and the applied
    state agree. *)

From S2P Require Import Prelude EntryLog Transition Text Stream Types Model EventCodec Machine SnapshotText Bytes Wal Metadata Transaction SnapshotFile FileEngine.

Definition bridge_error (message : string) : Error := mkError StoreError message.

Definition encode_domain_event (event : Event) : result Error Entry :=
  if (ev_index event =? 0) || (ev_term event =? 0) || negb (ev_schema event =? kCurrentSchemaVersion)
  then Err (bridge_error "Raft event projection has unsupported envelope")
  else
    let encoded := canonical_event event in
    match parse_event encoded with
    | Ok decoded =>
        if negb (ev_index decoded =? ev_index event) || negb (ev_term decoded =? ev_term event) ||
           negb (bool_decide (canonical_event decoded = encoded))
        then Err (bridge_error "Raft event projection is not a canonical round trip")
        else Ok (mkEntry (ev_term event) encoded)
    | Err _ => Err (bridge_error "Raft event projection is not a canonical round trip")
    end.

Definition decode_domain_entry (entry : Entry) (index : Z) : result Error Event :=
  if (index =? 0) || (e_term entry =? 0)
  then Err (bridge_error "Raft entry must have a positive index and term")
  else
    let? event := parse_event (e_command entry) in
    if negb (ev_schema event =? kCurrentSchemaVersion) || negb (ev_index event =? index) ||
       negb (ev_term event =? e_term entry) ||
       negb (bool_decide (canonical_event event = e_command entry))
    then Err (bridge_error "Raft entry has an inconsistent or noncanonical event envelope")
    else Ok event.

(** The loop of [replay_domain_committed] from [index] on: every entry is
    checked and decoded, the committed ones are collected. *)
Fixpoint decode_committed (term commit previous_term index : Z) (entries : list Entry)
    (committed : list Event) : result Error (list Event) :=
  match entries with
  | [] => Ok committed
  | entry :: rest =>
      if (e_term entry <? previous_term) || (term <? e_term entry)
      then Err (bridge_error "Raft domain entry terms decrease or exceed the current term")
      else
        let? event := decode_domain_entry entry index in
        decode_committed term commit (e_term entry) (index + 1) rest
          (if index <=? commit then committed ++ [event] else committed)
  end.

Definition replay_domain_committed (durable : Durable) : result Error ChoreographyState :=
  if negb (d_snapshot_index durable =? 0) || negb (d_snapshot_term durable =? 0)
  then Err (bridge_error "Full-WAL domain replay cannot reconstruct a snapshot boundary")
  else if (log_size (d_log durable) <? d_commit durable) || (d_commit durable <? d_applied durable)
  then Err (bridge_error "Raft domain replay has invalid commit/applied indexes")
  else
    let? committed := decode_committed (d_term durable) (d_commit durable) 0 1 (d_log durable) [] in
    replay committed None None.

Record DomainProjection := mkDomainProjection {
  dp_raft : Durable;
  dp_applied_state_hash : string;
}.

(** The log loop of [audit_domain_store]; [index] is [offset + 1]. *)
Fixpoint project_log (term index : Z) (events : list Event) : result Error (list Entry) :=
  match events with
  | [] => Ok []
  | event :: rest =>
      if negb (ev_index event =? index) || (term <? ev_term event)
      then Err (bridge_error "Raft event bridge found a WAL index gap or future-term entry")
      else
        let? entry := encode_domain_event event in
        let? entries := project_log term (index + 1) rest in
        Ok (entry :: entries)
  end.

(** [meta_read] is the error of reading the metadata file, if it fails. *)
Definition audit_domain_store (store : FileEngine) (meta_read : option Error)
    : result Error DomainProjection :=
  let? metadata :=
    match meta_read with Some e => Err e | None => load_metadata (dir_meta (fe_disk store)) end in
  let events := log_events store in
  let commit := fe_commit store in
  let applied := s_last_applied (en_state (fe_engine store)) in
  if negb (commit =? md_commit_index metadata) || negb (applied =? commit)
  then Err (bridge_error "Recovered WAL, metadata commit and applied index disagree")
  else if (match front_index events with Some first => negb (first =? 1) | None => false end) ||
          (Z.of_nat (length events) <? commit)
  then Err (bridge_error "Raft event bridge requires an uncompacted, complete WAL prefix")
  else
    let? log := project_log (md_term metadata) 1 events in
    let raft := mkDurable (md_term metadata) (md_voted_for metadata) log commit applied 0 0 in
    let? replayed := replay_domain_committed raft in
    let hash := state_hash replayed in
    if negb (bool_decide (hash = state_hash (en_state (fe_engine store)))) ||
       negb (bool_decide (snapshot_payload replayed = snapshot_payload (en_state (fe_engine store))))
    then Err (bridge_error "Recovered choreography state or retry receipts differ from committed replay")
    else Ok (mkDomainProjection raft hash).

(** ** Projections with a snapshot boundary *)

Record RecoveredDomainProjection := mkProjection {
  pj_term : Z;
  pj_voted_for : option string;
  pj_snapshot : option Snapshot;
  pj_suffix : list Entry;
  pj_commit : Z;
  pj_applied : Z;
  pj_applied_state_hash : string;
  pj_applied_state_payload : string;
}.

Definition projection_base (p : RecoveredDomainProjection) : Z :=
  match pj_snapshot p with Some snapshot => sp_index snapshot | None => 0 end.

(** The suffix loop of [replay_recovered_domain]. *)
Fixpoint replay_suffix (term commit previous_term index : Z) (replayed : ChoreographyState)
    (entries : list Entry) : result Error ChoreographyState :=
  match entries with
  | [] => Ok replayed
  | entry :: rest =>
      if (e_term entry <? previous_term) || (term <? e_term entry)
      then Err (bridge_error "Recovered projection suffix terms decrease or exceed metadata term")
      else
        let? event := decode_domain_entry entry index in
        let? replayed := if index <=? commit then apply replayed event Contiguous else Ok replayed in
        replay_suffix term commit (e_term entry) (index + 1) replayed rest
  end.

(** Where the replay of a projection starts: the verified snapshot. *)
Definition projection_start (p : RecoveredDomainProjection) : result Error (ChoreographyState * Z * Z) :=
  match pj_snapshot p with
  | Some snapshot =>
      let? verified := verify_snapshot snapshot in
      if (sp_index snapshot =? 0) || (pj_term p <? sp_term snapshot)
      then Err (bridge_error "Recovered projection has an invalid snapshot boundary")
      else Ok (verified, sp_index snapshot, sp_term snapshot)
  | None => Ok (empty_state, 0, 0)
  end.

Definition projection_replay (p : RecoveredDomainProjection) (start : ChoreographyState)
    (base previous_term : Z) : result Error ChoreographyState :=
  if (pj_term p =? 0) || negb (pj_applied p =? pj_commit p) || (pj_commit p <? base) ||
     (max_u64 - base <? log_size (pj_suffix p)) || (base + log_size (pj_suffix p) <? pj_commit p)
  then Err (bridge_error "Recovered projection has invalid absolute commit/applied indexes")
  else
    let? replayed := replay_suffix (pj_term p) (pj_commit p) previous_term (base + 1) start (pj_suffix p) in
    if negb (s_last_applied replayed =? pj_applied p) ||
       negb (bool_decide (state_hash replayed = pj_applied_state_hash p)) ||
       negb (bool_decide (snapshot_payload replayed = pj_applied_state_payload p))
    then Err (bridge_error "Recovered projection differs from applied state or retry receipts")
    else Ok replayed.

Definition replay_recovered_domain (p : RecoveredDomainProjection) : result Error ChoreographyState :=
  let? (replayed, base, previous_term) := projection_start p in
  projection_replay p replayed base previous_term.

(** The loop of [audit_recovered_domain_store] over the retained log. *)
Fixpoint project_retained (term : Z) (snapshot : option Snapshot) (previous_index previous_term : Z)
    (events : list Event) : result Error (list Entry) :=
  match events with
  | [] => Ok []
  | event :: rest =>
      let index := ev_index event in
      let base := match snapshot with Some s => sp_index s | None => 0 end in
      if (index =? 0) ||
         (negb (previous_index =? 0) &&
          ((previous_index =? max_u64) || negb (index =? wrap64 (previous_index + 1)))) ||
         (ev_term event <? previous_term) || (term <? ev_term event)
      then Err (bridge_error "Retained WAL has a gap, decreasing terms or future-term entry")
      else
        let? encoded := encode_domain_event event in
        if (index <=? base) && match snapshot with Some s => sp_term s <? ev_term event | None => false end
        then Err (bridge_error "Retained WAL prefix term exceeds snapshot boundary term")
        else if (index =? base) &&
                match snapshot with Some s => negb (ev_term event =? sp_term s) | None => false end
        then Err (bridge_error "Retained WAL anchor disagrees with snapshot term")
        else
          let? entries := project_retained term snapshot index (ev_term event) rest in
          Ok (if base <? index then encoded :: entries else entries)
  end.

(** [probed] says that looking for the journal failed; [meta_read] is the error
    of reading the metadata file, if it fails. *)
Definition audit_recovered_domain_store (store : FileEngine) (probed : bool) (meta_read : option Error)
    : result Error RecoveredDomainProjection :=
  if probed || is_some (dir_journal (fe_disk store))
  then Err (bridge_error "Snapshot installation requires disk recovery before projection")
  else
    let? metadata :=
      match meta_read with Some e => Err e | None => load_metadata (dir_meta (fe_disk store)) end in
    let s := en_state (fe_engine store) in
    if negb (md_commit_index metadata =? fe_commit store)
    then Err (bridge_error "Recovered metadata and FileEngine commit indexes disagree")
    else
      let? suffix := project_retained (md_term metadata) (fe_snapshot store) 0 0 (log_events store) in
      let projection :=
        mkProjection (md_term metadata) (md_voted_for metadata) (fe_snapshot store) suffix
          (md_commit_index metadata) (s_last_applied s) (state_hash s) (snapshot_payload s) in
      check! replay_recovered_domain projection in
      Ok projection.
