(* ===== verification/FileEngineAdapter.v ===== *)
(** * The file-engine adapter

    [cpp-runtime/include/choreoos/raft/file_engine_adapter.hpp] and
    [src/raft/file_engine_adapter.cpp]: the writer behind the host. It checks a
    whole plan before it touches the disk, then runs it as a sequence of store
    operations; after any failure it refuses everything until [recover]. Each
    store call has the outcomes of its own system calls. *)

From S2P Require Import Prelude EntryLog Transition Text Stream Types Model EventCodec Machine SnapshotText Bytes Wal Metadata Transaction SnapshotFile FileEngine DomainBridge.

Record DomainWritePlan := mkPlan {
  pl_base_index : Z;
  pl_base_term : Z;
  pl_term : Z;
  pl_voted_for : option string;
  pl_suffix : list Entry;
  pl_commit : Z;
}.

Record DomainWriteDelta := mkDelta {
  dl_base_index : Z;
  dl_base_term : Z;
  dl_term : Z;
  dl_voted_for : option string;
  dl_keep_index : Z;
  dl_append : list Entry;
  dl_commit : Z;
}.

Inductive DomainWriteFault :=
  NoWriteFault | AfterMetadata | AfterTruncate | AfterAppend | AfterCommit | AppendBeforeFlush
| AppendAfterFlush.

#[export] Instance DomainWriteFault_eq_dec : EqDecision DomainWriteFault.
Proof. solve_decision. Defined.

(** [ad_directory] is what the directory holds while no store is open. *)
Record FileEngineAdapter := mkAdapter {
  ad_directory : Directory;
  ad_test_mode : bool;
  ad_uncertain : bool;
  ad_fault : DomainWriteFault;
  ad_store : option FileEngine;
  ad_current : RecoveredDomainProjection;
  ad_view : option RecoveredDomainProjection;
}.

(** The system calls of one adapter call, store call by store call. *)
Record AdapterOs := mkAdapterOs {
  ao_meta : Os;
  ao_truncate : Os;
  ao_append : nat -> Os;
  ao_commit : Os;
  ao_checkpoint : Os;
  ao_discard : Os;
  ao_install : Os;
  ao_install_io : InstallOs;
  ao_open : OpenOs;
  ao_probed : bool;
  ao_meta_read : option Error;
}.

Definition adapter_invalid (why : string) : Error := mkError StoreError why.

Definition uncertain (a : FileEngineAdapter) : bool := ad_uncertain a || negb (is_some (ad_store a)).

Definition empty_projection : RecoveredDomainProjection := mkProjection 0 None None [] 0 0 "" "".

(** ** Fields *)

Definition ad_with_store (store : FileEngine) (a : FileEngineAdapter) : FileEngineAdapter :=
  mkAdapter (ad_directory a) (ad_test_mode a) (ad_uncertain a) (ad_fault a) (Some store) (ad_current a)
    (ad_view a).

Definition ad_with_fault (fault : DomainWriteFault) (a : FileEngineAdapter) : FileEngineAdapter :=
  mkAdapter (ad_directory a) (ad_test_mode a) (ad_uncertain a) fault (ad_store a) (ad_current a)
    (ad_view a).

(** [uncertain_ = true; view_.reset()] *)
Definition ad_fail (a : FileEngineAdapter) : FileEngineAdapter :=
  mkAdapter (ad_directory a) (ad_test_mode a) true (ad_fault a) (ad_store a) (ad_current a) None.

(** The [fail] of [persist] keeps the view. *)
Definition ad_fail_keep_view (a : FileEngineAdapter) : FileEngineAdapter :=
  mkAdapter (ad_directory a) (ad_test_mode a) true (ad_fault a) (ad_store a) (ad_current a) (ad_view a).

(** [current_ = ...; uncertain_ = false]; the view is gone. *)
Definition ad_observe (current : RecoveredDomainProjection) (a : FileEngineAdapter) : FileEngineAdapter :=
  mkAdapter (ad_directory a) (ad_test_mode a) false (ad_fault a) (ad_store a) current None.

(** ** Reading *)

Definition kRequiresRecovery : Error := adapter_invalid "FileEngine adapter requires disk recovery".

Definition current_raft (a : FileEngineAdapter) : result Error Durable :=
  if uncertain a then Err kRequiresRecovery
  else
    let c := ad_current a in
    Ok (mkDurable (pj_term c) (pj_voted_for c) (pj_suffix c) (pj_commit c) (pj_applied c)
          (match pj_snapshot c with Some s => sp_index s | None => 0 end)
          (match pj_snapshot c with Some s => sp_term s | None => 0 end)).

(** [current_shared]: the view is built once and kept. *)
Definition current_shared (a : FileEngineAdapter)
    : FileEngineAdapter * result Error RecoveredDomainProjection :=
  if uncertain a then (a, Err kRequiresRecovery)
  else
    match ad_view a, ad_store a with
    | Some view, _ => (a, Ok view)
    | None, Some store =>
        let c := ad_current a in
        let view :=
          mkProjection (pj_term c) (pj_voted_for c) (pj_snapshot c) (pj_suffix c) (pj_commit c)
            (pj_applied c) (rp_state_hash (fe_report store))
            (snapshot_payload (en_state (fe_engine store))) in
        (mkAdapter (ad_directory a) (ad_test_mode a) (ad_uncertain a) (ad_fault a) (ad_store a)
           (ad_current a) (Some view), Ok view)
    | None, None => (a, Err kRequiresRecovery)
    end.

Definition inject_next_fault_for_test (a : FileEngineAdapter) (fault : DomainWriteFault)
    : FileEngineAdapter * option Error :=
  if negb (ad_test_mode a) || uncertain a
  then (a, Some (adapter_invalid "FileEngine adapter fault injection unavailable"))
  else (ad_with_fault fault a, None).

(** ** Opening and recovery *)

Definition adapter_options (test_mode : bool) : StoreOptions :=
  mkStoreOptions 0 true false test_mode false.

(** What the directory holds now. *)
Definition adapter_disk (a : FileEngineAdapter) : Directory :=
  match ad_store a with Some store => fe_disk store | None => ad_directory a end.

Definition recover (a : FileEngineAdapter) (os : AdapterOs)
    : FileEngineAdapter * result Error RecoveredDomainProjection :=
  let closed disk := mkAdapter disk (ad_test_mode a) true NoWriteFault None (ad_current a) None in
  match store_open (adapter_disk a) (adapter_options (ad_test_mode a)) (ao_open os) with
  | (disk, Err e) => (closed disk, Err e)
  | (disk, Ok store) =>
      match audit_recovered_domain_store store (ao_probed os) (ao_meta_read os) with
      | Err e => (closed disk, Err e)
      | Ok projected =>
          (mkAdapter disk (ad_test_mode a) false NoWriteFault (Some store) projected None, Ok projected)
      end
  end.

Definition adapter_open (directory : Directory) (test_mode : bool) (os : AdapterOs)
    : FileEngineAdapter * result Error unit :=
  let a := mkAdapter directory test_mode true NoWriteFault None empty_projection None in
  match recover a os with
  | (a, Ok _) => (a, Ok tt)
  | (a, Err e) => (a, Err e)
  end.

(** ** Whole plans *)

(** The suffix loop of [prepare] from [index] on. *)
Fixpoint prepare_entries (term commit previous_term index : Z) (applied : ChoreographyState)
    (entries : list Entry) : result Error (ChoreographyState * list Event) :=
  match entries with
  | [] => Ok (applied, [])
  | entry :: rest =>
      if (e_term entry <? previous_term) || (term <? e_term entry)
      then Err (adapter_invalid "FileEngine write plan terms decrease or exceed metadata term")
      else
        let? event := decode_domain_entry entry index in
        let? applied := if index <=? commit then apply applied event Contiguous else Ok applied in
        let? (applied, events) := prepare_entries term commit (e_term entry) (index + 1) applied rest in
        Ok (applied, event :: events)
  end.

Definition projection_base_term (p : RecoveredDomainProjection) : Z :=
  match pj_snapshot p with Some snapshot => sp_term snapshot | None => 0 end.

(** A vote may only be set, never changed, within a term. *)
Definition changes_vote (term old_term : Z) (vote old_vote : option string) : bool :=
  (term =? old_term) && is_some old_vote && negb (bool_decide (vote = old_vote)).

Definition prepare (old : RecoveredDomainProjection) (plan : DomainWritePlan)
    : result Error (RecoveredDomainProjection * list Event) :=
  let base := projection_base old in
  let base_term := projection_base_term old in
  let size := log_size (pl_suffix plan) in
  if negb (pl_base_index plan =? base) || negb (pl_base_term plan =? base_term) ||
     (pl_term plan <? pj_term old) || (pl_commit plan <? pj_commit old) || (kMaximumEntries <? size) ||
     (max_u64 - base <? size) || (base + size <? pl_commit plan)
  then Err (adapter_invalid "FileEngine write plan has a stale boundary or regressing/invalid indexes")
  else if changes_vote (pl_term plan) (pj_term old) (pl_voted_for plan) (pj_voted_for old)
  then Err (adapter_invalid "FileEngine write plan cannot change a vote in the same term")
  else if match pl_voted_for plan with Some vote => negb (is_ok (parse_id vote)) | None => false end
  then Err (adapter_invalid "FileEngine write plan vote is not a valid node ID")
  else
    let committed := wrap64 (pj_commit old - base) in
    if (size <? committed) ||
       negb (bool_decide (take (Z.to_nat committed) (pj_suffix old) =
                          take (Z.to_nat committed) (pl_suffix plan)))
    then Err (adapter_invalid "FileEngine write plan cannot replace the committed prefix")
    else
      let? applied :=
        match pj_snapshot old with Some snapshot => verify_snapshot snapshot | None => Ok empty_state end in
      let? (applied, events) :=
        prepare_entries (pl_term plan) (pl_commit plan) base_term (base + 1) applied (pl_suffix plan) in
      Ok (mkProjection (pl_term plan) (pl_voted_for plan) (pj_snapshot old) (pl_suffix plan)
            (pl_commit plan) (pl_commit plan) (state_hash applied) (snapshot_payload applied), events).

(** The number of leading entries two logs share. *)
Fixpoint common_entries (a b : list Entry) : nat :=
  match a, b with
  | x :: a, y :: b => if bool_decide (x = y) then S (common_entries a b) else 0
  | _, _ => 0
  end.

(** The append loop of both writers: [n] counts the calls; [stop] is the
    injected failure after the first append. *)
Fixpoint append_events (store : FileEngine) (events : list Event) (stop : option Error)
    (os : nat -> Os) (n : nat) : FileEngine * option Error :=
  match events with
  | [] => (store, None)
  | event :: rest =>
      match append_event store event (os n) with
      | (store, Some e) => (store, Some e)
      | (store, None) =>
          match stop with
          | Some e => (store, Some e)
          | None => append_events store rest stop os (S n)
          end
      end
  end.

(** Both writers arm the store's own fault before they append. *)
Definition arm_append_fault (store : FileEngine) (fault : DomainWriteFault) (nonempty : bool)
    : FileEngine * option Error :=
  if nonempty && (bool_decide (fault = AppendBeforeFlush) || bool_decide (fault = AppendAfterFlush))
  then arm_storage_fault store
         (if bool_decide (fault = AppendBeforeFlush) then FailBeforeFlush else FailAfterFlush)
  else (store, None).

(** A step of a writer: the next operation runs only if nothing failed, and an
    injected failure follows it. *)
Definition then_store (r : FileEngine * option Error) (next : FileEngine -> FileEngine * option Error)
    : FileEngine * option Error :=
  match r with (store, Some e) => (store, Some e) | (store, None) => next store end.

Definition inject (fault at_ : DomainWriteFault) (e : Error) (store : FileEngine)
    : FileEngine * option Error :=
  (store, if bool_decide (fault = at_) then Some e else None).

Definition when (b : bool) (next : FileEngine -> FileEngine * option Error) (store : FileEngine)
    : FileEngine * option Error := if b then next store else (store, None).

(** The store operations of [persist], after the checks. *)
Definition run_plan (store : FileEngine) (current : RecoveredDomainProjection) (plan : DomainWritePlan)
    (events : list Event) (fault : DomainWriteFault) (os : AdapterOs) : FileEngine * option Error :=
  let injected := adapter_invalid "injected FileEngine adapter write failure" in
  let common := common_entries (pj_suffix current) (pl_suffix plan) in
  then_store (persist_consensus store (pl_term plan) (pl_voted_for plan) (ao_meta os)) (fun store =>
  then_store (inject fault AfterMetadata injected store) (fun store =>
  then_store (when (common <? length (pj_suffix current))%nat (fun store =>
                store_truncate_after store (pl_base_index plan + Z.of_nat common) (ao_truncate os)) store)
    (fun store =>
  then_store (inject fault AfterTruncate injected store) (fun store =>
  then_store (arm_append_fault store fault (common <? length events)%nat) (fun store =>
  then_store (append_events store (drop common events)
                (if bool_decide (fault = AfterAppend) then Some injected else None) (ao_append os) 0)
    (fun store =>
  then_store (when (pj_commit current <? pl_commit plan) (fun store =>
                commit_through store (pl_commit plan) (ao_commit os)) store) (fun store =>
  inject fault AfterCommit injected store))))))).

Definition persist_plan (a : FileEngineAdapter) (plan : DomainWritePlan) (os : AdapterOs)
    : FileEngineAdapter * option Error :=
  match (if uncertain a then None else ad_store a) with
  | None => (a, Some kRequiresRecovery)
  | Some store =>
      match prepare (ad_current a) plan with
      | Err e => (a, Some e)
      | Ok (expected, events) =>
          let fault := ad_fault a in
          let a := ad_with_fault NoWriteFault a in
          match run_plan store (ad_current a) plan events fault os with
          | (store, Some e) => (ad_fail_keep_view (ad_with_store store a), Some e)
          | (store, None) =>
              let a := ad_with_store store a in
              match audit_recovered_domain_store store (ao_probed os) (ao_meta_read os) with
              | Err e => (ad_fail_keep_view a, Some e)
              | Ok actual =>
                  if negb (pj_term actual =? pj_term expected) ||
                     negb (bool_decide (pj_voted_for actual = pj_voted_for expected)) ||
                     negb (pj_commit actual =? pj_commit expected) ||
                     negb (bool_decide (pj_suffix actual = pj_suffix expected)) ||
                     negb (bool_decide (pj_applied_state_payload actual = pj_applied_state_payload expected))
                  then (ad_fail_keep_view a,
                        Some (adapter_invalid "FileEngine adapter result differs from validated write plan"))
                  else (ad_observe actual a, None)
              end
          end
      end
  end.

(** ** Incremental writes *)

(** The suffix loop of [persist_delta] from [index] on. *)
Fixpoint decode_append (term previous_term index : Z) (entries : list Entry) : result Error (list Event) :=
  match entries with
  | [] => Ok []
  | entry :: rest =>
      if (e_term entry <? previous_term) || (term <? e_term entry)
      then Err (adapter_invalid "incremental FileEngine suffix terms decrease or exceed metadata term")
      else
        let? event := decode_domain_entry entry index in
        let? events := decode_append term (e_term entry) (index + 1) rest in
        Ok (event :: events)
  end.

(** The newly committed batch: [count] records from [index] on, from the log up
    to [keep] and from the appended events after it. *)
Fixpoint committed_batch (store : FileEngine) (keep : Z) (appended : list Event) (index : Z) (count : nat)
    : result Error (list Event) :=
  match count with
  | O => Ok []
  | S count =>
      match (if index <=? keep then log_entry store index else appended !! Z.to_nat (index - keep - 1)) with
      | None => Err (adapter_invalid "incremental FileEngine commit has a missing entry")
      | Some event =>
          let? events := committed_batch store keep appended (index + 1) count in
          Ok (event :: events)
      end
  end.

(** Everything [persist_delta] checks before it writes; the result is the
    events to append. *)
Definition check_delta (store : FileEngine) (current : RecoveredDomainProjection) (delta : DomainWriteDelta)
    : result Error (list Event) :=
  let base := projection_base current in
  let base_term := projection_base_term current in
  let keep := dl_keep_index delta in
  let size := log_size (dl_append delta) in
  if negb (dl_base_index delta =? base) || negb (dl_base_term delta =? base_term) ||
     (dl_term delta <? pj_term current) || (keep <? pj_commit current) || (last_log_index store <? keep) ||
     (kMaximumEntries <? size) || (max_u64 - keep <=? size) ||
     (kMaximumEntries - size <? wrap64 (keep - base)) ||
     (dl_commit delta <? pj_commit current) || (keep + size <? dl_commit delta) ||
     changes_vote (dl_term delta) (pj_term current) (dl_voted_for delta) (pj_voted_for current)
  then Err (adapter_invalid
              "incremental FileEngine plan has invalid boundary, capacity, vote or indexes")
  else
    check! match dl_voted_for delta with Some vote => parse_id vote | None => Ok "" end in
    let? previous_term :=
      if negb (keep =? base) then
        match log_term_at store keep with
        | Some term => Ok term
        | None => Err (adapter_invalid "incremental FileEngine prefix term is missing")
        end
      else Ok base_term in
    let? appended := decode_append (dl_term delta) previous_term (keep + 1) (dl_append delta) in
    let? committed :=
      committed_batch store keep appended (pj_commit current + 1)
        (Z.to_nat (dl_commit delta - pj_commit current)) in
    match committed with
    | [] => Ok appended
    | _ =>
        let? validated := prepare_committed (fe_engine store) committed in
        if negb (s_last_applied (en_state validated) =? dl_commit delta)
        then Err (adapter_invalid "incremental FileEngine commit did not advance application state")
        else Ok appended
    end.

(** The store operations of [persist_delta], after the checks. *)
Definition run_delta (store : FileEngine) (current : RecoveredDomainProjection) (delta : DomainWriteDelta)
    (appended : list Event) (fault : DomainWriteFault) (os : AdapterOs) : FileEngine * option Error :=
  let injected := adapter_invalid "injected incremental FileEngine write failure" in
  then_store (when (negb (dl_term delta =? pj_term current) ||
                    negb (bool_decide (dl_voted_for delta = pj_voted_for current))) (fun store =>
                persist_consensus store (dl_term delta) (dl_voted_for delta) (ao_meta os)) store) (fun store =>
  then_store (inject fault AfterMetadata injected store) (fun store =>
  then_store (when (dl_keep_index delta <? last_log_index store) (fun store =>
                store_truncate_after store (dl_keep_index delta) (ao_truncate os)) store) (fun store =>
  then_store (inject fault AfterTruncate injected store) (fun store =>
  then_store (arm_append_fault store fault (negb (bool_decide (appended = [])))) (fun store =>
  then_store (append_events store appended
                (if bool_decide (fault = AfterAppend) then Some injected else None) (ao_append os) 0)
    (fun store =>
  then_store (when (pj_commit current <? dl_commit delta) (fun store =>
                commit_through store (dl_commit delta) (ao_commit os)) store) (fun store =>
  inject fault AfterCommit injected store))))))).

(** [current_] after a delta. *)
Definition advance_current (current : RecoveredDomainProjection) (delta : DomainWriteDelta)
    (store : FileEngine) : RecoveredDomainProjection :=
  mkProjection (dl_term delta) (dl_voted_for delta) (pj_snapshot current)
    (log_resize (pj_suffix current) (dl_keep_index delta - projection_base current) ++ dl_append delta)
    (dl_commit delta) (dl_commit delta) (rp_state_hash (fe_report store)) "".

Definition persist_delta (a : FileEngineAdapter) (delta : DomainWriteDelta) (os : AdapterOs)
    : FileEngineAdapter * option Error :=
  match (if uncertain a then None else ad_store a) with
  | None => (a, Some kRequiresRecovery)
  | Some store =>
      match check_delta store (ad_current a) delta with
      | Err e => (a, Some e)
      | Ok appended =>
          let fault := ad_fault a in
          let a := ad_with_fault NoWriteFault a in
          match run_delta store (ad_current a) delta appended fault os with
          | (store, Some e) => (ad_fail (ad_with_store store a), Some e)
          | (store, None) =>
              (ad_observe (advance_current (ad_current a) delta store) (ad_with_store store a), None)
          end
      end
  end.

(** ** Checkpoints and installed snapshots *)

(** The end of both: audit the store and take over what it holds. *)
Definition observe_store (a : FileEngineAdapter) (store : FileEngine) (os : AdapterOs)
    : FileEngineAdapter * option Error :=
  match audit_recovered_domain_store store (ao_probed os) (ao_meta_read os) with
  | Err e => (a, Some e)
  | Ok observed => (ad_observe observed a, None)
  end.

Definition adapter_checkpoint (a : FileEngineAdapter) (os : AdapterOs) : FileEngineAdapter * option Error :=
  match (if uncertain a then None else ad_store a) with
  | None => (a, Some kRequiresRecovery)
  | Some store =>
      if pj_commit (ad_current a) =? 0 then (a, None)
      else
        match then_store (checkpoint store (ao_checkpoint os)) (fun store =>
                discard_compacted_prefix store (ao_discard os)) with
        | (store, Some e) => (ad_fail (ad_with_store store a), Some e)
        | (store, None) => observe_store (ad_fail (ad_with_store store a)) store os
        end
  end.

Definition adapter_install_snapshot (a : FileEngineAdapter) (snapshot : Snapshot) (term : Z)
    (voted_for : option string) (os : AdapterOs) : FileEngineAdapter * option Error :=
  match (if uncertain a then None else ad_store a) with
  | None => (a, Some kRequiresRecovery)
  | Some store =>
      let c := ad_current a in
      if (sp_index snapshot <=? pj_commit c) || (term <? pj_term c) || (term <? sp_term snapshot) ||
         (sp_index snapshot =? max_u64) || changes_vote term (pj_term c) voted_for (pj_voted_for c)
      then (a, Some (adapter_invalid "snapshot install has invalid indexes, term or vote"))
      else
        match verify_snapshot snapshot, parse_term term,
              (match voted_for with Some vote => parse_id vote | None => Ok "" end) with
        | Err e, _, _ | _, Err e, _ | _, _, Err e => (a, Some e)
        | Ok _, Ok term, Ok _ =>
            match then_store
                    (when (negb (term =? pj_term c) || negb (bool_decide (voted_for = pj_voted_for c)))
                       (fun store => persist_consensus store term voted_for (ao_meta os)) store)
                    (fun store => install_snapshot store snapshot (ao_install os) (ao_install_io os)) with
            | (store, Some e) => (ad_fail (ad_with_store store a), Some e)
            | (store, None) => observe_store (ad_fail (ad_with_store store a)) store os
            end
        end
  end.
