(* ===== verification/AdapterBridge.v ===== *)
(** * The audit of a store

    Entries and events correspond one to one; the full audit of a store whose
    files, object and remembered projection agree succeeds and reads that
    projection. *)

From S2P Require Import Prelude EntryLog Transition Text Stream Types Model EventCodec EventCodecThms Machine MachineInv MachineThms EngineThms CommitThms SnapshotText SnapshotTextThms SnapshotThms StoreState Bytes Wal WalThms Metadata Transaction SnapshotFile SnapshotFileThms StoreDisk FileEngine StoreOps StoreOpen DomainBridge.

(** ** Entries *)

Definition entry_of (e : Event) : Entry := mkEntry (ev_term e) (canonical_event e).

Definition current_schema (e : Event) : Prop := ev_schema e = kCurrentSchemaVersion.

Lemma entry_term e : entry_ok e -> ev_term e <> 0 /\ 1 <= ev_index e.
Proof. intros [((_ & _ & _ & _ & _ & _ & Ht & _) & Hi & _) _]. unfold valid_term in Ht. lia. Qed.

Lemma encode_entry e : entry_ok e -> current_schema e -> encode_domain_event e = Ok (entry_of e).
Proof.
  intros He Hs. destruct (entry_term e He) as [Ht Hi]. destruct He as [[He _] _]. unfold encode_domain_event.
  rewrite Hs, Z.eqb_refl, parse_event_canonical, !Z.eqb_refl by done.
  destruct (Z.eqb_spec (ev_index e) 0); [lia|]. destruct (Z.eqb_spec (ev_term e) 0); [done|].
  by rewrite bool_decide_eq_true_2.
Qed.

Lemma decode_entry e : entry_ok e -> current_schema e -> decode_domain_entry (entry_of e) (ev_index e) = Ok e.
Proof.
  intros He Hs. destruct (entry_term e He) as [Ht Hi]. destruct He as [[He _] _]. unfold decode_domain_entry, entry_of.
  cbn [e_term e_command]. destruct (Z.eqb_spec (ev_index e) 0); [lia|]. destruct (Z.eqb_spec (ev_term e) 0); [done|].
  cbn [orb]. rewrite parse_event_canonical by done. rewrite Hs, !Z.eqb_refl. by rewrite bool_decide_eq_true_2.
Qed.

(** What a decoded entry is. *)
Lemma decoded_entry entry index e : decode_domain_entry entry index = Ok e ->
  entry = entry_of e /\ ev_index e = index /\ current_schema e.
Proof.
  unfold decode_domain_entry. destruct (_ || _); [done|]. destruct (parse_event _) as [x|]; [|done].
  destruct (Z.eqb_spec (ev_schema x) kCurrentSchemaVersion) as [E1|]; [|done].
  destruct (Z.eqb_spec (ev_index x) index) as [E2|]; [|done].
  destruct (Z.eqb_spec (ev_term x) (e_term entry)) as [E3|]; [|done]. cbn [negb orb].
  destruct (bool_decide_reflect (canonical_event x = e_command entry)) as [E4|]; [|done]. intros [= <-].
  split; [|done]. unfold entry_of. rewrite E3, E4. by destruct entry.
Qed.

(** ** Terms of a log *)

Record terms_ok (term : Z) (es : list Event) : Prop := {
  tm_sorted : forall i j a b, (i <= j)%nat -> es !! i = Some a -> es !! j = Some b -> ev_term a <= ev_term b;
  tm_bound : forall e, e ∈ es -> ev_term e <= term;
}.

Lemma terms_tail term e es : terms_ok term (e :: es) -> terms_ok term es.
Proof.
  intros [T1 T2]. split; [|intros x Hx; apply T2; by constructor].
  intros i j a b Hij Ha Hb. apply (T1 (S i) (S j)); [lia|done|done].
Qed.

Lemma terms_head term e es : terms_ok term (e :: es) -> forall x, x ∈ es -> ev_term e <= ev_term x.
Proof. intros [T1 _] x [j Hj]%list_elem_of_lookup. apply (T1 0%nat (S j)); [lia|done|done]. Qed.

Lemma terms_drop term n es : terms_ok term es -> terms_ok term (drop n es).
Proof.
  intros [T1 T2]. split; [|intros e He; apply T2; by eapply subseteq_drop, He].
  intros i j a b Hij Ha Hb. rewrite lookup_drop in Ha, Hb. apply (T1 (n + i)%nat (n + j)%nat); [lia|done|done].
Qed.

Lemma terms_take term n es : terms_ok term es -> terms_ok term (take n es).
Proof.
  intros [T1 T2]. split; [|intros e He; apply T2; by eapply subseteq_take, He].
  intros i j a b Hij Ha Hb. apply lookup_take_Some in Ha as [Ha _], Hb as [Hb _]. by apply (T1 i j).
Qed.

Lemma terms_snoc term es e : terms_ok term es -> ev_term e <= term ->
  (forall x, list.last es = Some x -> ev_term x <= ev_term e) -> terms_ok term (es ++ [e])%list.
Proof.
  intros [T1 T2] He Hl. split.
  - assert (forall i a, (es ++ [e])%list !! i = Some a -> ev_term a <= ev_term e) as Hlast.
    { intros i a Ha. apply lookup_app_Some in Ha as [Ha|[_ Ha]].
      - destruct (list.last es) as [x|] eqn:E; [|apply last_None in E; subst; done]. specialize (Hl x eq_refl).
        rewrite last_lookup in E. pose proof (lookup_lt_Some _ _ _ Ha).
        pose proof (T1 i (pred (length es)) a x ltac:(lia) Ha E). lia.
      - apply list_lookup_singleton_Some in Ha as [_ <-]. lia. }
    intros i j a b Hij Ha Hb. pose proof Hb as Hb'. apply lookup_app_Some in Hb as [Hb|[Hge Hb]].
    + pose proof (lookup_lt_Some _ _ _ Hb). rewrite lookup_app_l in Ha by lia. by apply (T1 i j).
    + apply list_lookup_singleton_Some in Hb as [_ <-]. by apply (Hlast i).
  - intros x [Hx|Hx]%elem_of_app; [by apply T2|]. by apply list_elem_of_singleton in Hx as ->.
Qed.

Lemma terms_mono term term' es : terms_ok term es -> term <= term' -> terms_ok term' es.
Proof. intros [T1 T2] H. split; [done|]. intros e He. apply T2 in He. lia. Qed.

(** ** The snapshot text of a state that forgot history *)

Lemma no_legacy s : tidy s -> legacy_text s = "".
Proof.
  intros Ht. unfold legacy_text.
  assert (forall kv, kv ∈ sorted_items (s_applied_commands s) -> is_legacy s kv = false) as H.
  { intros [k v] Hkv. apply elem_of_sorted_items in Hkv. unfold is_legacy. cbn [fst snd].
    destruct (td_commands _ Ht _ _ Hkv) as [Hr|(-> & e & (_ & _ & <- & _ & Hp) & Hno)].
    - by rewrite (proj2 (is_some_true _) Hr).
    - by rewrite (Hp Hno), andb_false_r. }
  induction (sorted_items (s_applied_commands s)) as [|kv l IH]; [done|]. cbn [foldr].
  rewrite H by constructor. rewrite IH; [done|]. intros x Hx. apply H. by constructor.
Qed.

Lemma payload_forgets s t : forgets s t -> tidy s -> tidy t -> snapshot_payload t = snapshot_payload s.
Proof.
  intros Hf Hs Ht. pose proof (no_legacy s Hs) as L1. pose proof (no_legacy t Ht) as L2.
  unfold snapshot_payload. rewrite L1, L2. unfold ordered_receipts. rewrite (fg_receipts _ _ Hf).
  rewrite (forgets_shape s t Hf). reflexivity.
Qed.

(** ** The loops of the audit *)

Definition entries_ok (es : list Event) : Prop := Forall (fun e => entry_ok e /\ current_schema e) es.

Definition snapshot_base (snapshot : option Snapshot) : Z :=
  match snapshot with Some s => sp_index s | None => 0 end.

Lemma project_ok term snapshot es : forall from previous_index previous_term,
  numbered from es -> 1 <= from -> from + count es <= max_u64 -> entries_ok es -> terms_ok term es ->
  previous_index = 0 \/ previous_index = from - 1 -> (forall e, e ∈ es -> previous_term <= ev_term e) ->
  (forall s e, snapshot = Some s -> e ∈ es -> ev_index e <= sp_index s ->
     ev_term e <= sp_term s /\ (ev_index e = sp_index s -> ev_term e = sp_term s)) ->
  project_retained term snapshot previous_index previous_term es =
  Ok (entry_of <$> drop (Z.to_nat (snapshot_base snapshot + 1 - from)) es).
Proof.
  induction es as [|e es IH]; intros from pi pt Hn H1 Hmax Hok Ht Hpi Hpt Hsn; [by rewrite drop_nil|].
  apply numbered_cons in Hn as [Hi Hn]. apply list.Forall_cons in Hok as [[He Hs] Hok].
  unfold count in Hmax. cbn [length] in Hmax. cbn [project_retained]. fold (snapshot_base snapshot). rewrite Hi.
  assert (negb (pi =? 0) && ((pi =? max_u64) || negb (from =? wrap64 (pi + 1))) = false) as ->.
  { destruct Hpi as [-> | ->]; [done|]. unfold max_u64 in *. destruct (Z.eqb_spec (from - 1) 0); [done|]. cbn [negb andb].
    destruct (Z.eqb_spec (from - 1) 18446744073709551615); [lia|]. replace (from - 1 + 1) with from by lia.
    unfold wrap64. rewrite Z.mod_small by lia. by rewrite Z.eqb_refl. }
  destruct (Z.eqb_spec from 0); [lia|]. pose proof (Hpt e ltac:(constructor)) as Hp.
  pose proof (tm_bound _ _ Ht e ltac:(constructor)) as Hb.
  destruct (Z.ltb_spec (ev_term e) pt); [lia|]. destruct (Z.ltb_spec term (ev_term e)); [lia|]. cbn [orb].
  rewrite (encode_entry e He Hs).
  assert ((from <=? snapshot_base snapshot) && match snapshot with Some s => sp_term s <? ev_term e | None => false end = false /\
    (from =? snapshot_base snapshot) && match snapshot with Some s => negb (ev_term e =? sp_term s) | None => false end = false)
    as [-> ->].
  { destruct snapshot as [s|]; [|by rewrite !andb_false_r]. cbn [snapshot_base].
    destruct (Z.leb_spec from (sp_index s)) as [Hle|]; [|destruct (Z.eqb_spec from (sp_index s)); [lia|done]].
    destruct (Hsn s e eq_refl ltac:(constructor) ltac:(lia)) as [T1 T2].
    destruct (Z.ltb_spec (sp_term s) (ev_term e)); [lia|]. split; [done|].
    destruct (Z.eqb_spec from (sp_index s)) as [E|]; [|done]. rewrite T2 by lia. by rewrite Z.eqb_refl. }
  rewrite (IH (from + 1)); [|done|lia|unfold count; lia|done|by eapply terms_tail|right; lia|by apply (terms_head term)|].
  - destruct (Z.ltb_spec (snapshot_base snapshot) from) as [Hlt|Hge].
    + replace (Z.to_nat (snapshot_base snapshot + 1 - (from + 1))) with 0%nat by lia.
      by replace (Z.to_nat (snapshot_base snapshot + 1 - from)) with 0%nat by lia.
    + by replace (Z.to_nat (snapshot_base snapshot + 1 - from)) with
        (S (Z.to_nat (snapshot_base snapshot + 1 - (from + 1)))) by lia.
  - intros s x E Hx. apply (Hsn s x E). by constructor.
Qed.

Lemma suffix_ok term commit es : forall index previous_term s u,
  numbered index es -> entries_ok es -> terms_ok term es -> (forall e, e ∈ es -> previous_term <= ev_term e) ->
  replay_from s (take (Z.to_nat (commit + 1 - index)) es) None None = Ok u ->
  replay_suffix term commit previous_term index s (entry_of <$> es) = Ok u.
Proof.
  induction es as [|e es IH]; intros index pt s u Hn Hok Ht Hpt Hr.
  - rewrite take_nil in Hr. by injection Hr as <-.
  - apply numbered_cons in Hn as [Hi Hn]. apply list.Forall_cons in Hok as [[He Hs] Hok].
    rewrite fmap_cons. cbn [replay_suffix]. cbn [e_term entry_of].
    pose proof (Hpt e ltac:(constructor)) as Hp. pose proof (tm_bound _ _ Ht e ltac:(constructor)) as Hb.
    destruct (Z.ltb_spec (ev_term e) pt); [lia|]. destruct (Z.ltb_spec term (ev_term e)); [lia|]. cbn [orb].
    rewrite <- Hi, (decode_entry e He Hs), Hi.
    assert (forall s', replay_from s' (take (Z.to_nat (commit + 1 - (index + 1))) es) None None = Ok u ->
      replay_suffix term commit (ev_term e) (index + 1) s' (entry_of <$> es) = Ok u) as Hgo.
    { intros s' Hs'. apply IH; [done|done|by eapply terms_tail|by apply (terms_head term)|done]. }
    destruct (Z.leb_spec index commit) as [Hle|Hgt].
    + replace (Z.to_nat (commit + 1 - index)) with (S (Z.to_nat (commit + 1 - (index + 1)))) in Hr by lia.
      cbn [take replay_from replayed is_some orb] in Hr. simpl in Hr.
      destruct (apply s e Contiguous) as [s'|]; [|done]. by apply Hgo.
    + replace (Z.to_nat (commit + 1 - index)) with 0%nat in Hr by lia. cbn [take] in Hr.
      apply Hgo. by replace (Z.to_nat (commit + 1 - (index + 1))) with 0%nat by lia.
Qed.

(** ** Agreement of store and projection *)

Record mirrors (com : list Event) (v : View) (store : FileEngine) (c : RecoveredDomainProjection) : Prop := {
  mi_running : running com v store;
  mi_open : fe_recovery_required store = false;
  mi_options : options_ok (fe_options store) /\ so_snapshot_every (fe_options store) = 0;
  mi_report : rp_state_hash (fe_report store) = state_hash (en_state (fe_engine store));
  mi_meta : load_metadata (dir_meta (fe_disk store)) = Ok (mkMetadata (pj_term c) (count com) (pj_voted_for c));
  mi_valid : metadata_ok (mkMetadata (pj_term c) (count com) (pj_voted_for c));
  mi_snapshot : pj_snapshot c = fe_snapshot store;
  mi_suffix : pj_suffix c = entry_of <$> drop (v_base v) (com ++ v_tail v)%list;
  mi_commit : pj_commit c = count com;
  mi_applied : pj_applied c = count com;
  mi_hash : pj_applied_state_hash c = state_hash (en_state (fe_engine store));
  mi_terms : terms_ok (pj_term c) (v_log com v);
  mi_schema : Forall current_schema (v_log com v);
}.

(** What the full audit reads. *)
Definition audited (c : RecoveredDomainProjection) (store : FileEngine) : RecoveredDomainProjection :=
  mkProjection (pj_term c) (pj_voted_for c) (pj_snapshot c) (pj_suffix c) (pj_commit c) (pj_applied c)
    (pj_applied_state_hash c) (snapshot_payload (en_state (fe_engine store))).

Section Audit.
Context (com : list Event) (v : View) (store : FileEngine) (c : RecoveredDomainProjection).
Hypothesis Hm : mirrors com v store c.

Let Hrun := mi_running _ _ _ _ Hm.
Let D := rn_disk _ _ _ Hrun.

Lemma mirror_log : v_log com v = drop (v_cut v) (com ++ v_tail v)%list.
Proof. unfold v_log. rewrite drop_app_le; [done|by eapply disk_cut_le]. Qed.

Lemma mirror_base : (v_cut v <= v_base v <= length com)%nat.
Proof. pose proof (recovers_cut _ _ _ _ _ (do_recovers _ _ _ D)). lia. Qed.

Lemma mirror_lookup j : v_log com v !! j = (com ++ v_tail v)%list !! (v_cut v + j)%nat.
Proof. by rewrite mirror_log, lookup_drop. Qed.

Lemma mirror_entries : entries_ok (v_log com v).
Proof.
  pose proof (lo_entries _ (do_log _ _ _ D)) as H1. pose proof (mi_schema _ _ _ _ Hm) as H2.
  apply list.Forall_forall. intros e He. split; [|exact (proj1 (list.Forall_forall _ _) H2 e He)].
  rewrite mirror_log in He. apply subseteq_drop in He. exact (proj1 (list.Forall_forall _ _) H1 e He).
Qed.

(** The records from the base on are retained. *)
Lemma mirror_suffix_log : drop (v_base v) (com ++ v_tail v)%list = drop (v_base v - v_cut v) (v_log com v).
Proof. rewrite mirror_log, drop_drop. f_equal. pose proof mirror_base. lia. Qed.

(** Terms do not decrease from one retained record to a later one. *)
Lemma mirror_sorted i j a b : (v_cut v <= i <= j)%nat -> (com ++ v_tail v)%list !! i = Some a ->
  (com ++ v_tail v)%list !! j = Some b -> ev_term a <= ev_term b.
Proof.
  intros Hij Ha Hb. apply (tm_sorted _ _ (mi_terms _ _ _ _ Hm) (i - v_cut v) (j - v_cut v)); [lia| |].
  - rewrite mirror_lookup. by replace (v_cut v + (i - v_cut v))%nat with i by lia.
  - rewrite mirror_lookup. by replace (v_cut v + (j - v_cut v))%nat with j by lia.
Qed.

Lemma mirror_bound i a : (v_cut v <= i)%nat -> (com ++ v_tail v)%list !! i = Some a -> ev_term a <= pj_term c.
Proof.
  intros Hi Ha. apply (tm_bound _ _ (mi_terms _ _ _ _ Hm)), list_elem_of_lookup. exists (i - v_cut v)%nat.
  rewrite mirror_lookup. by replace (v_cut v + (i - v_cut v))%nat with i by lia.
Qed.

(** The term of the record at the snapshot. *)
Lemma boundary_term s e : fe_snapshot store = Some s -> e ∈ v_log com v -> ev_index e <= sp_index s ->
  ev_term e <= sp_term s /\ (ev_index e = sp_index s -> ev_term e = sp_term s).
Proof.
  intros Es He Hle. pose proof (rn_snapshot _ _ _ Hrun) as Hf. rewrite Es in Hf.
  destruct Hf as (b & -> & Hb & Hc & _). cbn [sp_index sp_term snapshot_of] in *.
  rewrite (snapshot_index com (v_base v) b Hb) in * by lia.
  rewrite mirror_log in He. apply list_elem_of_lookup in He as [j Hj]. rewrite lookup_drop in Hj.
  pose proof (lo_numbered _ (do_log _ _ _ D) _ _ Hj) as Hi.
  assert (list.last (take (v_base v) com) = com !! pred (v_base v)) as Hlast.
  { rewrite last_lookup, length_take, lookup_take_lt by lia. f_equal. lia. }
  destruct (lookup_lt_is_Some_2 com (pred (v_base v))) as [x Hx]; [lia|]. rewrite Hx in Hlast.
  rewrite (st_term _ _ Hb x Hlast).
  assert ((com ++ v_tail v)%list !! pred (v_base v) = Some x) as Hx' by (rewrite lookup_app_l by lia; done).
  split.
  - apply (mirror_sorted (v_cut v + j) (pred (v_base v))); [lia|done|done].
  - intros E. assert (v_cut v + j = pred (v_base v))%nat as Ej by lia. rewrite Ej in Hj. congruence.
Qed.

Lemma mirror_suffix_base : snapshot_base (fe_snapshot store) = Z.of_nat (v_base v).
Proof. apply (found_index _ _ _ _ _ (rn_snapshot _ _ _ Hrun)). Qed.

Lemma mirror_projects :
  project_retained (pj_term c) (fe_snapshot store) 0 0 (log_events store) = Ok (pj_suffix c).
Proof.
  pose proof (run_small com v store Hrun) as Hsmall. pose proof (run_count com v store Hrun) as Hcount.
  rewrite (run_events com v store Hrun).
  rewrite (project_ok _ _ _ (Z.of_nat (v_cut v) + 1)), (mi_suffix _ _ _ _ Hm), mirror_suffix_base.
  - rewrite mirror_log, drop_drop. pose proof mirror_base. do 3 f_equal. lia.
  - apply (run_numbered com v store Hrun).
  - lia.
  - unfold max_u64, kIndexes in *. lia.
  - apply mirror_entries.
  - apply (mi_terms _ _ _ _ Hm).
  - by left.
  - intros e He.
    destruct (proj1 (list.Forall_forall _ _) mirror_entries e He) as [H1 _].
    destruct H1 as [((_ & _ & _ & _ & _ & _ & Ht & _) & _) _]. unfold valid_term in Ht. lia.
  - intros s e Es. by apply boundary_term.
Qed.

Lemma suffix_numbered : numbered (Z.of_nat (v_base v) + 1) (drop (v_base v) (com ++ v_tail v)%list).
Proof.
  intros j e Hj. rewrite lookup_drop in Hj. rewrite (lo_numbered _ (do_log _ _ _ D) _ _ Hj). lia.
Qed.

Lemma suffix_committed :
  take (Z.to_nat (count com + 1 - (Z.of_nat (v_base v) + 1))) (drop (v_base v) (com ++ v_tail v)%list) =
  drop (v_base v) com.
Proof.
  pose proof mirror_base. rewrite drop_app_le by lia. unfold count.
  replace (Z.to_nat _) with (length (drop (v_base v) com)) by (rewrite length_drop; lia). apply take_app_length.
Qed.

(** The replay of the projection ends in what recovery gives. *)
Lemma mirror_replays s previous_term :
  (forall e, e ∈ drop (v_base v) (com ++ v_tail v)%list -> previous_term <= ev_term e) ->
  replay_from s (drop (v_base v) com) None None = Ok (v_known v) ->
  replay_suffix (pj_term c) (count com) previous_term (Z.of_nat (v_base v) + 1) s (pj_suffix c) = Ok (v_known v).
Proof.
  intros Hp Hr. rewrite (mi_suffix _ _ _ _ Hm). apply suffix_ok; [apply suffix_numbered| | |done|].
  - rewrite mirror_suffix_log. apply Forall_drop, mirror_entries.
  - rewrite mirror_suffix_log. apply terms_drop, (mi_terms _ _ _ _ Hm).
  - by rewrite suffix_committed.
Qed.

Lemma suffix_size : log_size (pj_suffix c) = count com - Z.of_nat (v_base v) + count (v_tail v).
Proof.
  pose proof mirror_base. rewrite (mi_suffix _ _ _ _ Hm). unfold log_size, count.
  rewrite length_fmap, length_drop, length_app. lia.
Qed.

Lemma known_payload : snapshot_payload (v_known v) = snapshot_payload (en_state (fe_engine store)) /\
  state_hash (v_known v) = state_hash (en_state (fe_engine store)) /\ s_last_applied (v_known v) = count com.
Proof.
  pose proof (log_ok_app _ _ (do_log _ _ _ D)) as Hl.
  destruct (recovers_stands _ _ _ _ _ Hl (do_recovers _ _ _ D)) as (Hst & Ht & _).
  destruct (forgets_position _ _ (do_forgets _ _ _ D)) as (_ & _ & Hcan). rewrite <- (rn_state _ _ _ Hrun).
  split; [|split; [unfold state_hash; by rewrite Hcan|apply (st_last _ _ Hst)]].
  apply payload_forgets; [apply (do_forgets _ _ _ D)|apply (st_tidy _ _ (do_stands _ _ _ D))|done].
Qed.

Lemma mirror_replay start previous_term :
  (forall e, e ∈ drop (v_base v) (com ++ v_tail v)%list -> previous_term <= ev_term e) ->
  replay_from start (drop (v_base v) com) None None = Ok (v_known v) ->
  projection_replay (audited c store) start (Z.of_nat (v_base v)) previous_term = Ok (v_known v).
Proof.
  intros Hp Hr. pose proof (mi_valid _ _ _ _ Hm) as (Hterm & _). cbn [md_term] in Hterm.
  pose proof (run_small _ _ _ Hrun) as Hsmall. rewrite count_app in Hsmall. pose proof mirror_base as Hb.
  destruct known_payload as (K1 & K2 & K3). unfold projection_replay, audited.
  cbn [pj_term pj_suffix pj_commit pj_applied pj_applied_state_hash pj_applied_state_payload].
  rewrite (mi_commit _ _ _ _ Hm), (mi_applied _ _ _ _ Hm), (mi_hash _ _ _ _ Hm), suffix_size, Z.eqb_refl.
  unfold valid_term in Hterm. unfold kIndexes in Hsmall. unfold max_u64.
  assert (0 <= count (v_tail v) /\ Z.of_nat (v_base v) <= count com) as Hc by (unfold count; lia).
  destruct (Z.eqb_spec (pj_term c) 0) as [|_]; [lia|].
  repeat match goal with |- context [?a <? ?b] => destruct (Z.ltb_spec a b) as [?|_]; [lia|] end. cbn [negb orb].
  rewrite (mirror_replays start previous_term Hp Hr), K1, K2, K3, Z.eqb_refl.
  rewrite !(bool_decide_eq_true_2 _ eq_refl). reflexivity.
Qed.

Lemma suffix_terms e : e ∈ drop (v_base v) (com ++ v_tail v)%list ->
  match fe_snapshot store with Some s => sp_term s | None => 0 end <= ev_term e.
Proof.
  intros He. pose proof (rn_snapshot _ _ _ Hrun) as Hf. destruct (fe_snapshot store) as [sn|].
  - destruct Hf as (b & -> & Hb & Hc & _). cbn [sp_term snapshot_of].
    apply list_elem_of_lookup in He as [j Hj]. rewrite lookup_drop in Hj.
    destruct (lookup_lt_is_Some_2 com (pred (v_base v))) as [x Hx]; [lia|].
    assert (list.last (take (v_base v) com) = Some x) as Hlast.
    { rewrite last_lookup, length_take, lookup_take_lt, <- Hx by lia. f_equal. lia. }
    rewrite (st_term _ _ Hb x Hlast).
    apply (mirror_sorted (pred (v_base v)) (v_base v + j)); [lia| |done].
    by rewrite lookup_app_l by lia.
  - rewrite mirror_suffix_log in He. apply subseteq_drop in He. destruct (proj1 (list.Forall_forall _ _) mirror_entries e He) as [H1 _].
    destruct H1 as [((_ & _ & _ & _ & _ & _ & Ht & _) & _) _]. unfold valid_term in Ht. lia.
Qed.

Lemma boundary_bound s : fe_snapshot store = Some s -> sp_term s <= pj_term c.
Proof.
  intros Es. pose proof (rn_snapshot _ _ _ Hrun) as Hf. rewrite Es in Hf. destruct Hf as (b & -> & Hb & Hc & _).
  cbn [sp_term snapshot_of]. destruct (lookup_lt_is_Some_2 com (pred (v_base v))) as [x Hx]; [lia|].
  rewrite (st_term _ _ Hb x).
  - apply (mirror_bound (pred (v_base v))); [lia|]. by rewrite lookup_app_l by lia.
  - rewrite last_lookup, length_take, lookup_take_lt, <- Hx by lia. f_equal. lia.
Qed.

Lemma mirror_start : exists start,
  projection_start (audited c store) =
    Ok (start, Z.of_nat (v_base v), match fe_snapshot store with Some s => sp_term s | None => 0 end) /\
  replay_from start (drop (v_base v) com) None None = Ok (v_known v).
Proof.
  unfold projection_start, audited. cbn [pj_snapshot pj_term]. rewrite (mi_snapshot _ _ _ _ Hm).
  pose proof (rn_snapshot _ _ _ Hrun) as Hf. pose proof boundary_bound as Hbound.
  destruct (fe_snapshot store) as [sn|].
  - specialize (Hbound sn eq_refl). destruct Hf as (b & -> & Hb & Hc & Hr). exists (compact_state b).
    rewrite verify_snapshot_of by apply (mo_snapshot _ (st_machine _ _ Hb)). cbn [sp_index sp_term snapshot_of] in *.
    rewrite (snapshot_index com (v_base v) b Hb) by lia.
    destruct (Z.eqb_spec (Z.of_nat (v_base v)) 0) as [|_]; [lia|].
    destruct (Z.ltb_spec (pj_term c) (s_term b)) as [|_]; [lia|]. done.
  - destruct Hf as (_ & -> & Hr). by exists empty_state.
Qed.
End Audit.

(** The full audit succeeds, and reads the remembered projection. *)
Lemma audit_mirrors com v store c : mirrors com v store c ->
  audit_recovered_domain_store store false None = Ok (audited c store).
Proof.
  intros Hm. pose proof (mi_running _ _ _ _ Hm) as Hr. pose proof (rn_disk _ _ _ Hr) as D.
  unfold audit_recovered_domain_store. rewrite (do_journal _ _ _ D), (mi_meta _ _ _ _ Hm).
  cbn [is_some orb md_term md_commit_index md_voted_for].
  rewrite (rn_commit _ _ _ Hr), Z.eqb_refl, (mirror_projects _ _ _ _ Hm), (run_last _ _ _ Hr). cbn [negb].
  set (p := mkProjection _ _ _ _ _ _ _ _).
  assert (p = audited c store) as ->.
  { unfold p, audited. by rewrite (mi_snapshot _ _ _ _ Hm), (mi_commit _ _ _ _ Hm), (mi_applied _ _ _ _ Hm), (mi_hash _ _ _ _ Hm). }
  destruct (mirror_start _ _ _ _ Hm) as (start & E & Hstart). unfold replay_recovered_domain. rewrite E.
  rewrite (mirror_replay _ _ _ _ Hm start _ (suffix_terms _ _ _ _ Hm) Hstart). done.
Qed.
