(* ===== verification/AdapterThms.v ===== *)
(** * Incremental writes of the adapter

    [persist_delta] updates its remembered projection without reading the store
    again. That projection is what a full audit of the store would read, and
    the log is the one the delta asked for. *)

From S2P Require Import Prelude EntryLog Transition Text Stream Types Model EventCodec EventCodecThms Machine MachineInv MachineThms EngineThms CommitThms SnapshotText SnapshotTextThms SnapshotThms StoreState Bytes Wal WalThms Metadata Transaction SnapshotFile SnapshotFileThms StoreDisk FileEngine StoreOps StoreOpen StoreRun DomainBridge AdapterBridge FileEngineAdapter.

(** ** The projection after each store operation *)

Definition set_consensus (term : Z) (vote : option string) (c : RecoveredDomainProjection) : RecoveredDomainProjection :=
  mkProjection term vote (pj_snapshot c) (pj_suffix c) (pj_commit c) (pj_applied c) (pj_applied_state_hash c)
    (pj_applied_state_payload c).

Definition set_suffix (suffix : list Entry) (c : RecoveredDomainProjection) : RecoveredDomainProjection :=
  mkProjection (pj_term c) (pj_voted_for c) (pj_snapshot c) suffix (pj_commit c) (pj_applied c)
    (pj_applied_state_hash c) (pj_applied_state_payload c).

Definition set_position (commit : Z) (hash : string) (c : RecoveredDomainProjection) : RecoveredDomainProjection :=
  mkProjection (pj_term c) (pj_voted_for c) (pj_snapshot c) (pj_suffix c) commit commit hash
    (pj_applied_state_payload c).

Lemma mirror_writable com v store c : mirrors com v store c -> require_writable store = None.
Proof. intros Hm. unfold require_writable. by rewrite (mi_open _ _ _ _ Hm). Qed.

Lemma persist_mirrors com v store c term vote os store' :
  mirrors com v store c -> valid_term term -> vote_ok vote ->
  persist_consensus store term vote os = (store', None) ->
  mirrors com v store' (set_consensus term vote c).
Proof.
  intros Hm Ht Hv Hp. unfold persist_consensus, read_metadata in Hp.
  rewrite (mirror_writable _ _ _ _ Hm), (mi_meta _ _ _ _ Hm) in Hp.
  destruct (os_meta_read os); [done|]. cbn [md_term md_commit_index] in Hp.
  destruct (Z.ltb_spec term (pj_term c)) as [|Hle]; [done|].
  assert (metadata_ok (mkMetadata term (count com) vote)) as Hok by (by destruct (mi_valid _ _ _ _ Hm) as (_ & ? & _)).
  pose proof (store_metadata_spec _ _ _ (os_meta_write os) (mi_meta _ _ _ _ Hm) Hok) as Hspec.
  unfold write_metadata in Hp. destruct (store_metadata _ _ _) as [file [e|]]; [done|].
  destruct Hspec as [_ Hload]. specialize (Hload eq_refl). injection Hp as <-.
  assert (running com v (with_meta file store)) as Hr.
  { apply running_meta; [apply (mi_running _ _ _ _ Hm)|]. by eexists. }
  destruct Hm. split; try done. by eapply terms_mono.
Qed.

(** The record at an index above the cut. *)
Lemma run_entry com v f index : running com v f -> Z.of_nat (v_cut v) < index ->
  log_entry f index = (com ++ v_tail v)%list !! Z.to_nat (index - 1).
Proof.
  intros Hr Hi. pose proof (run_numbered com v f Hr) as Hn. pose proof (run_count com v f Hr) as Hc.
  pose proof (disk_cut_le _ _ _ (rn_disk _ _ _ Hr)) as Hcut. unfold log_entry. rewrite (run_events com v f Hr).
  assert (v_log com v = drop (v_cut v) (com ++ v_tail v)%list) as Elog by (unfold v_log; by rewrite drop_app_le).
  destruct (v_log com v) as [|e0 es0] eqn:El.
  { symmetry. apply lookup_ge_None. change (count []) with 0 in Hc. unfold count in Hc. lia. }
  rewrite <- El in *. unfold log_entry_of.
  rewrite (front_numbered _ _ e0 es0 Hn El), (back_numbered _ _ Hn) by (by rewrite El).
  destruct (Z.ltb_spec index (Z.of_nat (v_cut v) + 1)); [lia|].
  destruct (Z.ltb_spec (Z.of_nat (v_cut v) + 1 + count (v_log com v) - 1) index); cbn [orb].
  - symmetry. apply lookup_ge_None. unfold count in Hc. unfold count in *. lia.
  - rewrite Elog, lookup_drop. f_equal. lia.
Qed.

Lemma run_last_log com v f : running com v f -> last_log_index f = count (com ++ v_tail v)%list.
Proof.
  intros Hr. unfold last_log_index. rewrite (run_events com v f Hr), (run_last com v f Hr).
  pose proof (run_count com v f Hr) as Hc. destruct (decide (v_log com v = [])) as [E|E].
  - destruct (run_empty_log com v f Hr E) as [Ecom Ecut]. rewrite E, Ecut in *. rewrite Ecom in *. cbn. cbn in Hc. lia.
  - rewrite (back_numbered _ _ (run_numbered com v f Hr) E). cbn. lia.
Qed.

Lemma last_drop_Some {A} n (l : list A) x : list.last (drop n l) = Some x -> list.last l = Some x.
Proof.
  rewrite !last_lookup, lookup_drop, length_drop. intros H.
  pose proof (lookup_lt_Some _ _ _ H). rewrite <- H. f_equal. lia.
Qed.

Lemma mirrors_log com v store c store' tail :
  mirrors com v store c -> running com (set_tail tail v) store' ->
  fe_recovery_required store' = false -> fe_options store' = fe_options store ->
  fe_report store' = fe_report store -> fe_engine store' = fe_engine store ->
  dir_meta (fe_disk store') = dir_meta (fe_disk store) -> fe_snapshot store' = fe_snapshot store ->
  terms_ok (pj_term c) (v_log com (set_tail tail v)) -> Forall current_schema (v_log com (set_tail tail v)) ->
  mirrors com (set_tail tail v) store' (set_suffix (entry_of <$> drop (v_base v) (com ++ tail)%list) c).
Proof.
  intros Hm Hr E1 E2 E3 E4 E5 E6 Ht Hs. destruct Hm. split; try done; cbn [pj_term pj_voted_for pj_applied_state_hash pj_snapshot set_suffix]; congruence.
Qed.

Lemma log_take com v k :
  v_log com (set_tail (take k (v_tail v)) v) = take (length (drop (v_cut v) com) + k) (v_log com v).
Proof. rewrite set_tail_log. unfold v_log. by rewrite take_app_add. Qed.

Lemma truncate_mirrors com v store c keep os store' :
  mirrors com v store c -> count com <= keep <= count (com ++ v_tail v)%list ->
  store_truncate_after store keep os = (store', None) ->
  exists tail, (com ++ tail)%list = take (Z.to_nat keep) (com ++ v_tail v)%list /\
    mirrors com (set_tail tail v) store' (set_suffix (log_resize (pj_suffix c) (keep - Z.of_nat (v_base v))) c).
Proof.
  intros Hm Hk Ht. pose proof (mi_running _ _ _ _ Hm) as Hr. pose proof (mirror_base _ _ _ _ Hm) as Hb.
  exists (take (Z.to_nat (keep - count com)) (v_tail v)).
  assert ((com ++ take (Z.to_nat (keep - count com)) (v_tail v))%list = take (Z.to_nat keep) (com ++ v_tail v)%list) as Eall.
  { rewrite take_app_ge by (unfold count in *; lia). do 2 f_equal. unfold count. lia. }
  split; [done|].
  assert (log_resize (pj_suffix c) (keep - Z.of_nat (v_base v)) =
    entry_of <$> drop (v_base v) (com ++ take (Z.to_nat (keep - count com)) (v_tail v))%list) as ->.
  { rewrite Eall, (mi_suffix _ _ _ _ Hm). unfold log_resize.
    rewrite resize_le by (rewrite length_fmap, length_drop; unfold count in Hk; lia).
    rewrite <- fmap_take, take_drop_commute. do 3 f_equal. unfold count in Hk. lia. }
  unfold store_truncate_after, truncate_after in Ht. rewrite (mirror_writable _ _ _ _ Hm), (rn_commit _ _ _ Hr) in Ht.
  destruct (Z.ltb_spec keep (count com)); [lia|].
  pose proof (truncate_represents (fe_wal store) _ keep (rn_wal _ _ _ Hr)) as (log' & E & Hrep).
  rewrite (keep_exact com v store keep Hr ltac:(lia)) in Hrep. unfold truncate_after in E.
  destruct (os_resized os); [done|]. injection E as E. destruct (os_truncate_synced os); [done|].
  rewrite E in Ht. injection Ht as <-.
  apply (mirrors_log com v store); try done.
  - apply running_wal; [done| |done].
    apply disk_log; [apply (rn_disk _ _ _ Hr)|apply log_ok_take, (do_log _ _ _ (rn_disk _ _ _ Hr))|by apply represents_opens].
  - apply (mi_open _ _ _ _ Hm).
  - rewrite log_take. apply terms_take, (mi_terms _ _ _ _ Hm).
  - rewrite log_take. apply Forall_take, (mi_schema _ _ _ _ Hm).
Qed.

Lemma append_mirrors com v store c e os store' :
  mirrors com v store c -> entry_ok e -> current_schema e -> ev_index e < kIndexes ->
  ev_term e <= pj_term c -> (forall x, list.last (v_log com v) = Some x -> ev_term x <= ev_term e) ->
  append_event store e os = (store', None) ->
  mirrors com (set_tail (v_tail v ++ [e])%list v) store' (set_suffix (pj_suffix c ++ [entry_of e]) c).
Proof.
  intros Hm He Hs Hk Ht Hl Ha. pose proof (mi_running _ _ _ _ Hm) as Hr. pose proof (mirror_base _ _ _ _ Hm) as Hb.
  unfold append_event in Ha. rewrite (mirror_writable _ _ _ _ Hm), (run_next com v store Hr) in Ha.
  destruct (Z.eqb_spec (ev_index e) (count (com ++ v_tail v)%list + 1)) as [Hi|]; [|done]. cbn [negb] in Ha.
  destruct (Z.ltb_spec kMaxPayloadBytes (Z.of_nat (String.length (canonical_event e)))) as [|Hfit]; [done|].
  assert (log_ok ((com ++ v_tail v) ++ [e])%list) as Hlog.
  { apply log_ok_snoc; [apply (do_log _ _ _ (rn_disk _ _ _ Hr))|done|done|done|done]. }
  assert (storable e) as Hst by (split; [by destruct He as [[]]|done]).
  unfold fail_before_flush in Ha. destruct (bool_decide (fe_fault store = FailBeforeFlush)); [done|].
  destruct (append_represents _ _ _ (rn_wal _ _ _ Hr) Hst) as (log' & E & Hrep).
  destruct (os_append os) as [|k err].
  2: { destruct (failed_append_reopens _ _ _ k err (rn_wal _ _ _ Hr) Hst) as (Ef & _).
       destruct (wal_append (fe_wal store) e (Failed k err)) as [w x]. cbn [snd] in Ef. by subst x. }
  rewrite E in Ha. unfold fail_after_flush in Ha.
  destruct (bool_decide (fe_fault (with_wal log' store) = FailAfterFlush)); [done|]. injection Ha as <-.
  assert (v_log com (set_tail (v_tail v ++ [e])%list v) = (v_log com v ++ [e])%list) as Elog
    by (rewrite set_tail_log; unfold v_log; by rewrite <- app_assoc).
  assert ((com ++ v_tail v ++ [e])%list = ((com ++ v_tail v) ++ [e])%list) as Eall by (by rewrite <- app_assoc).
  assert (pj_suffix c ++ [entry_of e] = entry_of <$> drop (v_base v) (com ++ v_tail v ++ [e])%list) as ->.
  { rewrite Eall, drop_app_le by (rewrite length_app; lia). by rewrite fmap_app, (mi_suffix _ _ _ _ Hm). }
  apply (mirrors_log com v store); try done.
  - apply running_wal; [done| |by rewrite Elog].
    apply disk_log; [apply (rn_disk _ _ _ Hr)|by rewrite Eall|]. rewrite Elog. by apply represents_opens.
  - apply (mi_open _ _ _ _ Hm).
  - rewrite Elog. apply terms_snoc; [apply (mi_terms _ _ _ _ Hm)|done|done].
  - rewrite Elog. apply list.Forall_app. split; [apply (mi_schema _ _ _ _ Hm)|by constructor].
Qed.

Lemma arm_mirrors com v store c fault b store' :
  mirrors com v store c -> arm_append_fault store fault b = (store', None) -> mirrors com v store' c.
Proof.
  intros Hm Ha. unfold arm_append_fault, arm_storage_fault in Ha.
  destruct (b && _); [|by injection Ha as <-]. destruct (negb _); [done|]. injection Ha as <-.
  pose proof (running_fault com v store (if bool_decide (fault = AppendBeforeFlush) then FailBeforeFlush else FailAfterFlush)
    (mi_running _ _ _ _ Hm)) as Hr. destruct Hm. by split.
Qed.

Lemma commit_mirrors com v store c index os store' :
  mirrors com v store c -> count com < index -> commit_through store index os = (store', None) ->
  exists com' v', (com' ++ v_tail v')%list = (com ++ v_tail v)%list /\ com `prefix_of` com' /\
    v_base v' = v_base v /\
    mirrors com' v' store' (set_position index (rp_state_hash (fe_report store')) c).
Proof.
  intros Hm Hi Hc. pose proof (mi_running _ _ _ _ Hm) as Hr. pose proof (rn_disk _ _ _ Hr) as D.
  unfold commit_through, read_metadata in Hc. rewrite (mirror_writable _ _ _ _ Hm), (rn_commit _ _ _ Hr) in Hc.
  destruct (Z.ltb_spec index (count com)); [lia|].
  pose proof (batch_is_tail com v store Hr (Z.to_nat (index - count com)) 0) as Hb.
  replace (count com + 1 + Z.of_nat 0) with (count com + 1) in Hb by lia. rewrite drop_0 in Hb.
  rewrite Hb in Hc. clear Hb. set (n := Z.to_nat (index - count com)) in *.
  destruct (prepare_committed (fe_engine store) (take n (v_tail v))) as [staged|] eqn:Ep; [|done].
  destruct (Z.eqb_spec (s_last_applied (en_state staged)) index) as [Hlast|]; [|done]. cbn [negb] in Hc.
  destruct (os_meta_read os); [done|]. rewrite (mi_meta _ _ _ _ Hm) in Hc.
  destruct (batch_state com v store Hr n staged Ep) as (Ht & u & Hfound & Hrec & Hf).
  set (com' := (com ++ take n (v_tail v))%list) in *.
  assert (index = count com') as Hidx by (rewrite <- Hlast; exact (st_last _ _ Ht)).
  assert (0 <= index < kIndexes) as Hrange.
  { pose proof (lo_small _ (log_ok_take com (v_tail v) n (do_log _ _ _ D))) as Hs. fold com' in Hs. unfold count in *. lia. }
  assert (s_term (en_state staged) <= pj_term c) as Hterm.
  { destruct (list.last com') as [x|] eqn:El; [|apply last_None in El; rewrite El in Hidx; unfold count in *; simpl in Hidx; lia].
    pose proof (st_term _ _ Ht x El) as Hx. cbn in Hx. rewrite Hx. rewrite last_lookup in El.
    pose proof (mirror_base _ _ _ _ Hm). apply (mirror_bound _ _ _ _ Hm (pred (length com'))); [unfold count in *; lia|].
    assert ((com' ++ drop n (v_tail v))%list = (com ++ v_tail v)%list) as <- by (unfold com'; by rewrite <- app_assoc, take_drop).
    rewrite lookup_app_l; [done|]. by eapply lookup_lt_Some. }
  assert (raise_term (s_term (en_state staged)) (set_commit index (mkMetadata (pj_term c) (count com) (pj_voted_for c))) =
    mkMetadata (pj_term c) index (pj_voted_for c)) as Eraise.
  { unfold raise_term, set_commit. cbn [md_term md_voted_for]. by destruct (Z.ltb_spec (pj_term c) (s_term (en_state staged))); [lia|]. }
  rewrite Eraise in Hc. pose proof (mi_valid _ _ _ _ Hm) as (M1 & _ & M3).
  assert (metadata_ok (mkMetadata (pj_term c) index (pj_voted_for c))) as Hok.
  { split; [done|]. split; [|done]. cbn. unfold u64, max_u64, kIndexes in *. lia. }
  pose proof (store_metadata_spec _ _ _ (os_meta_write os) (mi_meta _ _ _ _ Hm) Hok) as Hspec.
  unfold write_metadata in Hc. destruct (store_metadata _ _ _) as [file [e|]]; [done|].
  destruct Hspec as [_ Hload]. specialize (Hload eq_refl).
  unfold maybe_snapshot in Hc. cbn [fe_options with_commit with_engine with_meta] in Hc.
  rewrite (proj2 (mi_options _ _ _ _ Hm)) in Hc. cbn [Z.eqb checked_mutation] in Hc. injection Hc as <-.
  exists com', (commit_view n u (en_state (publish_committed (fe_engine store) staged)) v).
  assert ((com' ++ v_tail (commit_view n u (en_state (publish_committed (fe_engine store) staged)) v))%list =
    (com ++ v_tail v)%list) as Eall by (unfold com'; cbn [v_tail commit_view]; by rewrite <- app_assoc, take_drop).
  split; [done|]. split; [by apply prefix_app_r|]. split; [done|]. rewrite Hidx in *.
  assert (running com' (commit_view n u (en_state (publish_committed (fe_engine store) staged)) v)
    (with_commit (count com') (with_engine (publish_committed (fe_engine store) staged) (with_meta file store)))) as Hr'.
  { apply running_committed; [done|by eexists|done..]. }
  assert (v_cut v <= length com)%nat as Hcut by (pose proof (mirror_base _ _ _ _ Hm); lia).
  destruct Hm. split; try done; rewrite ?Eall, ?(commit_log com v n) by done; done.
Qed.

(** ** What the checks of a delta establish *)

Lemma decoded_append term entries : forall previous index es,
  decode_append term previous index entries = Ok es ->
  entries = entry_of <$> es /\ numbered index es /\ Forall current_schema es.
Proof.
  induction entries as [|x entries IH]; intros previous index es H; cbn [decode_append] in H.
  - injection H as <-. split; [done|]. split; [by intros [] ? ?|constructor].
  - destruct (_ || _); [done|]. destruct (decode_domain_entry x index) as [e|] eqn:E; [|done].
    destruct (decode_append term (e_term x) (index + 1) entries) as [es'|] eqn:E'; [|done]. injection H as <-.
    destruct (decoded_entry _ _ _ E) as (-> & Hi & Hs). destruct (IH _ _ _ E') as (-> & Hn & Hall).
    split; [done|]. split; [by apply numbered_cons|by constructor].
Qed.

Lemma decoded_terms term entries : forall previous index es l,
  decode_append term previous index entries = Ok es -> terms_ok term l ->
  (forall x, list.last l = Some x -> ev_term x <= previous) -> terms_ok term (l ++ es)%list.
Proof.
  induction entries as [|x entries IH]; intros previous index es l H Hl Hlast; cbn [decode_append] in H.
  - injection H as <-. by rewrite app_nil_r.
  - destruct (Z.ltb_spec (e_term x) previous) as [|H1]; [done|].
    destruct (Z.ltb_spec term (e_term x)) as [|H2]; [done|]. cbn [orb] in H.
    destruct (decode_domain_entry x index) as [e|] eqn:E; [|done].
    destruct (decode_append term (e_term x) (index + 1) entries) as [es'|] eqn:E'; [|done]. injection H as <-.
    destruct (decoded_entry _ _ _ E) as (-> & _ & _). cbn [e_term entry_of] in *.
    replace (l ++ e :: es')%list with ((l ++ [e]) ++ es')%list by (by rewrite <- app_assoc).
    eapply IH; [exact E'| |].
    + apply terms_snoc; [done|lia|]. intros y Hy. apply Hlast in Hy. lia.
    + intros y Hy. rewrite last_snoc in Hy. injection Hy as <-. lia.
Qed.

Record delta_checked (store : FileEngine) (c : RecoveredDomainProjection) (delta : DomainWriteDelta)
    (appended : list Event) : Prop := {
  dc_term : pj_term c <= dl_term delta;
  dc_keep : pj_commit c <= dl_keep_index delta <= last_log_index store;
  dc_commit : pj_commit c <= dl_commit delta;
  dc_vote : vote_ok (dl_voted_for delta);
  dc_base : dl_base_index delta = projection_base c /\ dl_base_term delta = projection_base_term c;
  dc_append : exists previous,
    decode_append (dl_term delta) previous (dl_keep_index delta + 1) (dl_append delta) = Ok appended /\
    (dl_keep_index delta = projection_base c -> previous = projection_base_term c) /\
    (dl_keep_index delta <> projection_base c -> log_term_at store (dl_keep_index delta) = Some previous);
}.

Lemma check_delta_ok store c delta appended :
  check_delta store c delta = Ok appended -> delta_checked store c delta appended.
Proof.
  unfold check_delta. intros H.
  destruct (_ || changes_vote _ _ _ _) eqn:E in H; [done|]. repeat rewrite orb_false_iff in E.
  destruct E as ((((((((((E1 & E2) & E3) & E4) & E5) & E6) & E7) & E8) & E9) & E10) & E11).
  rewrite negb_false_iff, Z.eqb_eq in E1, E2. rewrite Z.ltb_ge in E3, E4, E5, E9.
  destruct (match dl_voted_for delta with Some vote => parse_id vote | None => Ok "" end) as [w|] eqn:Ev; [|done].
  destruct (if negb _ then _ else _) as [previous|] eqn:Ep in H; [|done].
  destruct (decode_append _ previous _ _) as [es|] eqn:Ed; [|done].
  destruct (committed_batch _ _ _ _ _) as [batch|]; [|done].
  assert (appended = es) as ->.
  { destruct batch; [by injection H as <-|]. destruct (prepare_committed _ _); [|done]. destruct (negb _) in H; [done|by injection H as <-]. }
  split; try done.
  - destruct (dl_voted_for delta) as [vote|]; [|done]. apply parse_id_ok in Ev as [_ Ev]. exact Ev.
  - exists previous. split; [done|]. destruct (Z.eqb_spec (dl_keep_index delta) (projection_base c)); cbn [negb] in Ep.
    + split; [intros _; by injection Ep as <-|done].
    + split; [done|]. intros _. destruct (log_term_at store (dl_keep_index delta)); [by injection Ep as <-|done].
Qed.

(** The term of the last record a delta keeps. *)
Lemma kept_term com v store c delta appended x :
  mirrors com v store c -> delta_checked store c delta appended ->
  list.last (take (Z.to_nat (dl_keep_index delta)) (com ++ v_tail v)%list) = Some x ->
  forall previous,
    (dl_keep_index delta = projection_base c -> previous = projection_base_term c) ->
    (dl_keep_index delta <> projection_base c -> log_term_at store (dl_keep_index delta) = Some previous) ->
    ev_term x = previous.
Proof.
  intros Hm Hd Hx previous H1 H2. pose proof (mi_running _ _ _ _ Hm) as Hr. pose proof (mirror_base _ _ _ _ Hm) as Hb.
  pose proof (dc_keep _ _ _ _ Hd) as Hk. rewrite (run_last_log com v store Hr), (mi_commit _ _ _ _ Hm) in Hk.
  assert (projection_base c = Z.of_nat (v_base v)) as Hpb.
  { unfold projection_base. rewrite (mi_snapshot _ _ _ _ Hm). apply (found_index _ _ _ _ _ (rn_snapshot _ _ _ Hr)). }
  set (keep := dl_keep_index delta) in *. rewrite last_lookup, length_take in Hx.
  assert (0 < keep) as Hpos by (destruct (decide (0 < keep)); [done|]; replace (Z.to_nat keep) with 0%nat in Hx by lia; done).
  assert (length (com ++ v_tail v)%list = Z.to_nat (count (com ++ v_tail v)%list)) as Hlen by (unfold count; lia).
  rewrite lookup_take_lt in Hx by lia.
  replace (pred (Z.to_nat keep `min` length (com ++ v_tail v))) with (Z.to_nat (keep - 1)) in Hx by lia.
  destruct (decide (keep = projection_base c)) as [E|E].
  - rewrite (H1 E). unfold projection_base_term. rewrite (mi_snapshot _ _ _ _ Hm).
    pose proof (rn_snapshot _ _ _ Hr) as Hf. destruct (fe_snapshot store) as [sn|]; [|destruct Hf as (_ & Hz & _); lia].
    destruct Hf as (b & -> & Hstb & Hc & _). cbn [sp_term snapshot_of]. symmetry. apply (st_term _ _ Hstb).
    rewrite last_lookup, length_take, lookup_take_lt by lia. rewrite lookup_app_l in Hx by lia. rewrite <- Hx. f_equal. lia.
  - specialize (H2 E). unfold log_term_at in H2. destruct (Z.eqb_spec keep 0); [lia|].
    assert (Z.of_nat (v_cut v) < keep) as Hcut.
    { pose proof (recovers_cut _ _ _ _ _ (do_recovers _ _ _ (rn_disk _ _ _ Hr))). unfold count in Hk. lia. }
    rewrite (run_entry com v store keep Hr Hcut), Hx in H2. by injection H2 as <-.
Qed.

(** ** The run of a delta *)

Definition appendable (e : Event) : Prop := entry_ok e /\ current_schema e /\ ev_index e < kIndexes.

Lemma append_events_mirrors es : forall com v store c stop os n store',
  mirrors com v store c -> Forall appendable es -> terms_ok (pj_term c) (v_log com v ++ es)%list ->
  append_events store es stop os n = (store', None) ->
  mirrors com (set_tail (v_tail v ++ es)%list v) store' (set_suffix (pj_suffix c ++ (entry_of <$> es)) c).
Proof.
  induction es as [|e es IH]; intros com v store c stop os n store' Hm Hall Ht Ha; cbn [append_events] in Ha.
  - injection Ha as <-. rewrite !app_nil_r. by destruct v, c.
  - apply list.Forall_cons in Hall as [(H1 & H2 & H3) Hall].
    destruct (append_event store e (os n)) as [s1 [err|]] eqn:E; [done|]. destruct stop; [done|].
    assert (terms_ok (pj_term c) ((v_log com v ++ [e]) ++ es)%list) as Ht' by (by rewrite <- (app_assoc _ [e])).
    assert (mirrors com (set_tail (v_tail v ++ [e])%list v) s1 (set_suffix (pj_suffix c ++ [entry_of e]) c)) as Hm'.
    { eapply append_mirrors; [done|done|done|done| | |exact E].
      - apply (tm_bound _ _ Ht). apply elem_of_app. right. constructor.
      - intros x Hx. rewrite last_lookup in Hx.
        apply (tm_sorted _ _ Ht (pred (length (v_log com v))) (length (v_log com v))); [lia| |].
        + pose proof (lookup_lt_Some _ _ _ Hx). by rewrite lookup_app_l.
        + by rewrite lookup_app_r, Nat.sub_diag by lia. }
    specialize (IH com _ s1 _ None os (S n) store' Hm' Hall). cbn [v_tail set_tail pj_suffix pj_term set_suffix] in IH.
    rewrite <- !app_assoc in IH. rewrite fmap_cons. apply IH; [|done]. rewrite set_tail_log, app_assoc. exact Ht'.
Qed.

(** What the core may ask the adapter to append. *)
Definition delta_ok (delta : DomainWriteDelta) : Prop :=
  dl_term delta <= max_u64 /\
  forall entry index e, entry ∈ dl_append delta -> decode_domain_entry entry index = Ok e ->
    entry_ok e /\ ev_index e < kIndexes.

Lemma decoded_appendable term entries : forall previous index es,
  (forall entry index e, entry ∈ entries -> decode_domain_entry entry index = Ok e -> entry_ok e /\ ev_index e < kIndexes) ->
  decode_append term previous index entries = Ok es -> Forall appendable es.
Proof.
  induction entries as [|x entries IH]; intros previous index es Hok H; cbn [decode_append] in H.
  - injection H as <-. constructor.
  - destruct (_ || _); [done|]. destruct (decode_domain_entry x index) as [e|] eqn:E; [|done].
    destruct (decode_append term (e_term x) (index + 1) entries) as [es'|] eqn:E'; [|done]. injection H as <-.
    destruct (decoded_entry _ _ _ E) as (_ & _ & Hs). destruct (Hok x index e ltac:(constructor) E) as [H1 H2].
    constructor; [done|]. eapply IH; [|exact E']. intros y i z Hy. apply Hok. by constructor.
Qed.

Lemma then_store_ok r next store' : then_store r next = (store', None) ->
  exists store, r = (store, None) /\ next store = (store', None).
Proof. destruct r as [s [e|]]; cbn; [done|eauto]. Qed.

Lemma inject_ok fault at_ e store store' : inject fault at_ e store = (store', None) -> store' = store.
Proof. unfold inject. destruct (bool_decide _); [done|]. by intros [= <-]. Qed.

Lemma projection_base_mirrors com v store c : mirrors com v store c -> projection_base c = Z.of_nat (v_base v).
Proof.
  intros Hm. unfold projection_base. rewrite (mi_snapshot _ _ _ _ Hm).
  apply (found_index _ _ _ _ _ (rn_snapshot _ _ _ (mi_running _ _ _ _ Hm))).
Qed.

(** The four phases of a delta. *)
Lemma delta_consensus com v store c term vote os store' :
  mirrors com v store c -> pj_term c <= term <= max_u64 -> vote_ok vote ->
  when (negb (term =? pj_term c) || negb (bool_decide (vote = pj_voted_for c)))
    (fun store => persist_consensus store term vote os) store = (store', None) ->
  mirrors com v store' (set_consensus term vote c).
Proof.
  intros Hm Ht Hv H. unfold when in H. destruct (_ || _) eqn:E.
  - eapply persist_mirrors; [done| |done|exact H]. destruct (mi_valid _ _ _ _ Hm) as (Hp & _). cbn in Hp.
    unfold valid_term in *. lia.
  - injection H as <-. apply orb_false_iff in E as [E1 E2]. rewrite negb_false_iff, Z.eqb_eq in E1.
    rewrite negb_false_iff, bool_decide_eq_true in E2. rewrite E1, E2. by destruct c.
Qed.

Lemma delta_truncate com v store c keep os store' :
  mirrors com v store c -> count com <= keep <= count (com ++ v_tail v)%list ->
  when (keep <? last_log_index store) (fun store => store_truncate_after store keep os) store = (store', None) ->
  exists tail, (com ++ tail)%list = take (Z.to_nat keep) (com ++ v_tail v)%list /\
    mirrors com (set_tail tail v) store' (set_suffix (log_resize (pj_suffix c) (keep - Z.of_nat (v_base v))) c).
Proof.
  intros Hm Hk H. pose proof (mirror_base _ _ _ _ Hm). unfold when in H.
  rewrite (run_last_log com v store (mi_running _ _ _ _ Hm)) in H.
  destruct (Z.ltb_spec keep (count (com ++ v_tail v)%list)) as [Hlt|Hge]; [by eapply truncate_mirrors|].
  injection H as <-. exists (v_tail v). assert (keep = count (com ++ v_tail v)%list) as Ek by lia.
  split; [rewrite Ek; unfold count; by rewrite Nat2Z.id, firstn_all|].
  unfold log_resize. rewrite resize_all_alt; [by destruct v, c|].
  rewrite (mi_suffix _ _ _ _ Hm), length_fmap, length_drop. rewrite Ek. unfold count. rewrite length_app. lia.
Qed.

Lemma delta_commit com v store c commit os store' :
  mirrors com v store c -> count com <= commit ->
  when (count com <? commit) (fun store => commit_through store commit os) store = (store', None) ->
  exists com' v', com `prefix_of` com' /\ v_base v' = v_base v /\
    mirrors com' v' store' (set_position commit (rp_state_hash (fe_report store')) c).
Proof.
  intros Hm Hc H. unfold when in H. destruct (Z.ltb_spec (count com) commit) as [Hlt|Hge].
  - destruct (commit_mirrors _ _ _ _ _ _ _ Hm Hlt H) as (com' & v' & _ & P1 & P2 & M). by exists com', v'.
  - injection H as <-. exists com, v. split; [done|]. split; [done|]. assert (commit = count com) as -> by lia.
    destruct Hm. by split.
Qed.

Lemma mirrors_final com v store c delta :
  mirrors com v store (set_position (dl_commit delta) (rp_state_hash (fe_report store))
    (set_suffix (log_resize (pj_suffix c) (dl_keep_index delta - projection_base c) ++ dl_append delta)
       (set_consensus (dl_term delta) (dl_voted_for delta) c))) ->
  mirrors com v store (advance_current c delta store).
Proof. intros []. by split. Qed.

(** A delta that reports success has left the projection it announces. *)
Lemma run_delta_mirrors com v store c delta appended fault os store' :
  mirrors com v store c -> delta_ok delta -> delta_checked store c delta appended ->
  run_delta store c delta appended fault os = (store', None) ->
  exists com' v', com `prefix_of` com' /\ v_base v' = v_base v /\
    mirrors com' v' store' (advance_current c delta store').
Proof.
  intros Hm [Hmax Hok] Hd Hrun. pose proof Hd as [Hterm Hk Hc Hvote _ (previous & Hdec & Hp1 & Hp2)].
  rewrite (run_last_log com v store (mi_running _ _ _ _ Hm)) in Hk. rewrite (mi_commit _ _ _ _ Hm) in Hk, Hc.
  destruct (decoded_append _ _ _ _ _ Hdec) as (Eappend & _ & _).
  pose proof (decoded_appendable _ _ _ _ _ Hok Hdec) as Happ. unfold run_delta in Hrun.
  apply then_store_ok in Hrun as (s1 & R1 & Hrun). apply then_store_ok in Hrun as (s1' & I1 & Hrun).
  apply inject_ok in I1 as ->. apply then_store_ok in Hrun as (s2 & R2 & Hrun).
  apply then_store_ok in Hrun as (s2' & I2 & Hrun). apply inject_ok in I2 as ->.
  apply then_store_ok in Hrun as (s3 & R3 & Hrun). apply then_store_ok in Hrun as (s4 & R4 & Hrun).
  apply then_store_ok in Hrun as (s5 & R5 & Hrun). apply inject_ok in Hrun as ->.
  pose proof (delta_consensus _ _ _ _ _ _ _ _ Hm (conj Hterm Hmax) Hvote R1) as M1.
  destruct (delta_truncate _ _ _ _ _ _ _ M1 Hk R2) as (tail & Etail & M2).
  pose proof (arm_mirrors _ _ _ _ _ _ _ M2 R3) as M3.
  assert (terms_ok (dl_term delta) (v_log com (set_tail tail v) ++ appended)%list) as Ht.
  { eapply decoded_terms; [exact Hdec|exact (mi_terms _ _ _ _ M3)|].
    - intros x Hx. rewrite (mirror_log _ _ _ _ M3) in Hx. apply last_drop_Some in Hx.
      cbn [v_tail set_tail] in Hx. rewrite Etail in Hx. rewrite (kept_term com v store c delta appended x Hm Hd Hx previous Hp1 Hp2). lia. }
  pose proof (append_events_mirrors appended _ _ _ _ _ _ _ _ M3 Happ Ht R4) as M4.
  rewrite <- Eappend in M4. rewrite (mi_commit _ _ _ _ Hm) in R5.
  destruct (delta_commit _ _ _ _ _ _ _ M4 Hc R5) as (com' & v' & P1 & P2 & M5).
  exists com', v'. split; [done|]. split; [done|]. apply mirrors_final.
  by rewrite (projection_base_mirrors com v store c Hm).
Qed.

(** ** Failures *)

(** The store still recovers the committed history, or more of it. *)
Definition grows (com : list Event) (f : FileEngine) : Prop :=
  exists com', com `prefix_of` com' /\ store_ok com' f.

Lemma grows_same com f : store_ok com f -> grows com f.
Proof. intros H. by exists com. Qed.

Lemma then_grows com r next : grows com (fst r) -> (forall com' f, store_ok com' f -> grows com' (fst (next f))) ->
  grows com (fst (then_store r next)).
Proof.
  destruct r as [f [e|]]; cbn; intros Hg Hn; [done|]. destruct Hg as (com1 & P1 & H1).
  destruct (Hn com1 f H1) as (com2 & P2 & H2). exists com2. split; [by etransitivity|done].
Qed.

Lemma when_grows b next com f : store_ok com f -> (store_ok com f -> grows com (fst (next f))) ->
  grows com (fst (when b next f)).
Proof. intros H Hn. unfold when. destruct b; [by apply Hn|by apply grows_same]. Qed.

Lemma append_events_ok es : forall com f stop os n, store_ok com f -> Forall appendable es ->
  store_ok com (fst (append_events f es stop os n)).
Proof.
  induction es as [|e es IH]; intros com f stop os n Hs Hall; [done|]. cbn [append_events].
  apply list.Forall_cons in Hall as [(H1 & _ & H3) Hall]. pose proof (append_ok com f e (os n) Hs H1 H3) as Ha.
  destruct (append_event f e (os n)) as [f' [err|]]; [done|]. destruct stop; [done|]. by apply IH.
Qed.

Lemma arm_fault_ok com f fault b : store_ok com f -> store_ok com (fst (arm_append_fault f fault b)).
Proof. intros Hs. unfold arm_append_fault. destruct (b && _); [by apply arm_ok|done]. Qed.

Lemma commit_grows com f index os : store_ok com f -> grows com (fst (commit_through f index os)).
Proof. intros Hs. eexists. split; [|by apply commit_through_ok]. by apply prefix_app_r. Qed.

Lemma run_delta_grows com store c delta appended fault os :
  store_ok com store -> valid_term (dl_term delta) -> vote_ok (dl_voted_for delta) -> Forall appendable appended ->
  grows com (fst (run_delta store c delta appended fault os)).
Proof.
  intros Hs Ht Hv Happ. unfold run_delta.
  apply then_grows; [apply when_grows; [done|intros; by apply grows_same, persist_ok]|]. intros c1 f1 H1.
  apply then_grows; [by apply grows_same|]. intros c2 f2 H2.
  apply then_grows; [apply when_grows; [done|intros; by apply grows_same, truncate_ok]|]. intros c3 f3 H3.
  apply then_grows; [by apply grows_same|]. intros c4 f4 H4.
  apply then_grows; [by apply grows_same, arm_fault_ok|]. intros c5 f5 H5.
  apply then_grows; [by apply grows_same, append_events_ok|]. intros c6 f6 H6.
  apply then_grows; [apply when_grows; [done|intros; by apply commit_grows]|]. intros c7 f7 H7.
  by apply grows_same.
Qed.

(** ** Deltas *)

(** An adapter that needs no recovery: its store and its projection agree. *)
Definition adapter_ok (com : list Event) (a : FileEngineAdapter) : Prop :=
  ad_uncertain a = false /\
  exists v store, ad_store a = Some store /\ mirrors com v store (ad_current a).

(** The Raft state a delta asks for. *)
Definition delta_target (c : RecoveredDomainProjection) (delta : DomainWriteDelta) : Durable :=
  mkDurable (dl_term delta) (dl_voted_for delta)
    (take (Z.to_nat (dl_keep_index delta - projection_base c)) (pj_suffix c) ++ dl_append delta)
    (dl_commit delta) (dl_commit delta) (projection_base c) (projection_base_term c).

Lemma delta_valid_term com v store c delta appended :
  mirrors com v store c -> delta_ok delta -> delta_checked store c delta appended -> valid_term (dl_term delta).
Proof.
  intros Hm [Hmax _] Hd. destruct (mi_valid _ _ _ _ Hm) as (Hv & _). cbn in Hv.
  pose proof (dc_term _ _ _ _ Hd). unfold valid_term in *. lia.
Qed.

Lemma persist_delta_spec com a delta os :
  adapter_ok com a -> delta_ok delta ->
  let '(a', error) := persist_delta a delta os in
  match error with
  | None =>
      exists com' store', com `prefix_of` com' /\ adapter_ok com' a' /\ ad_store a' = Some store' /\
        current_raft a' = Ok (delta_target (ad_current a) delta) /\
        audit_recovered_domain_store store' false None = Ok (audited (ad_current a') store')
  | Some _ =>
      (a' = a \/ uncertain a' = true) /\
      exists com' v, com `prefix_of` com' /\ disk_ok com' v (adapter_disk a')
  end.
Proof.
  intros (Hu & v & store & Es & Hm) Hok. unfold persist_delta, uncertain. rewrite Hu, Es. cbn [is_some negb orb].
  assert (exists com' v, com `prefix_of` com' /\ disk_ok com' v (adapter_disk a)) as Hsame.
  { exists com, v. split; [done|]. unfold adapter_disk. rewrite Es. apply (rn_disk _ _ _ (mi_running _ _ _ _ Hm)). }
  destruct (check_delta store (ad_current a) delta) as [appended|e] eqn:Ec; [|split; [by left|done]].
  pose proof (check_delta_ok _ _ _ _ Ec) as Hd. cbn [ad_current ad_with_fault].
  destruct (run_delta _ _ _ _ _ _) as [store' [e|]] eqn:Er.
  - split; [right; done|].
    assert (store_ok com store) as Hso by (apply (store_running com v); [apply (mi_options _ _ _ _ Hm)|apply (mi_running _ _ _ _ Hm)|apply (mi_open _ _ _ _ Hm)]).
    destruct (dc_append _ _ _ _ Hd) as (previous & Hdec & _).
    destruct (run_delta_grows com store (ad_current a) delta appended (ad_fault a) os Hso
      (delta_valid_term _ _ _ _ _ _ Hm Hok Hd) (dc_vote _ _ _ _ Hd)
      (decoded_appendable _ _ _ _ _ (proj2 Hok) Hdec)) as (com' & P & Hs'). rewrite Er in Hs'.
    destruct (store_disk _ _ Hs') as [v' Hv']. exists com', v'. done.
  - destruct (run_delta_mirrors com v store _ delta appended _ os store' Hm Hok Hd Er) as (com' & v' & P1 & _ & M).
    exists com', store'. split; [done|]. split; [split; [done|]; by exists v', store'|]. split; [done|].
    split; [|by apply (audit_mirrors com' v')].
    unfold current_raft, uncertain, advance_current, delta_target.
    cbn [ad_uncertain ad_store ad_observe ad_with_store is_some negb orb ad_current pj_term pj_voted_for pj_suffix
      pj_commit pj_applied pj_snapshot]. unfold log_resize.
    rewrite resize_le; [done|]. pose proof (dc_keep _ _ _ _ Hd) as Hk. pose proof (mirror_base _ _ _ _ Hm).
    rewrite (run_last_log com v store (mi_running _ _ _ _ Hm)) in Hk.
    rewrite (projection_base_mirrors com v store _ Hm), (mi_suffix _ _ _ _ Hm), length_fmap, length_drop.
    unfold count in Hk. lia.
Qed.

(** C16: an incremental write is what a full audit would read. For an adapter
    whose store and remembered projection agree, any delta with decodable
    entries, armed fault and system-call outcomes. If [persist_delta] reports
    success, the Raft state it exposes is exactly the one the delta asked for
    (the kept part of the log, then the appended entries), and auditing the
    whole store again from its files, log, snapshot and applied state succeeds
    and reads that same projection. If it reports an error, either nothing was
    touched or the adapter refuses everything until recovery; the store's
    files still recover a history that extends the committed one. *)
Theorem incremental_write_matches_audit com a delta os :
  adapter_ok com a -> delta_ok delta ->
  let '(a', error) := persist_delta a delta os in
  match error with
  | None =>
      exists com' store', com `prefix_of` com' /\ adapter_ok com' a' /\ ad_store a' = Some store' /\
        current_raft a' = Ok (delta_target (ad_current a) delta) /\
        audit_recovered_domain_store store' false None = Ok (audited (ad_current a') store')
  | Some _ =>
      (a' = a \/ uncertain a' = true) /\
      exists com' v, com `prefix_of` com' /\ disk_ok com' v (adapter_disk a')
  end.
Proof. apply persist_delta_spec. Qed.

(** ** A delta *)

Definition calm_adapter : AdapterOs :=
  mkAdapterOs calm calm (fun _ => calm) calm calm calm calm
    (mkInstallOs None None Replaced undisturbed Accessed None) calm_open false None.

Definition first_delta (es : list Event) (commit : Z) : DomainWriteDelta :=
  mkDelta 0 0 2 (Some "node-1") 0 (entry_of <$> es) commit.

Definition demo_delta : DomainWriteDelta := first_delta (take 5 demo_events) 4.

(** The adapter of a new directory. *)
Definition fresh_store : FileEngine :=
  mkFileEngine (put_wal wal_file_header empty_directory) (adapter_options true) fresh_log empty_engine
    (mkRecoveryReport false 0 0 0 0 (state_hash empty_state)) 0 None NoStorageFault NoFault false.

Definition fresh_projection : RecoveredDomainProjection :=
  mkProjection 1 None None [] 0 0 (state_hash empty_state) (snapshot_payload empty_state).

Definition fresh_adapter : FileEngineAdapter :=
  mkAdapter (put_wal wal_file_header empty_directory) true false NoWriteFault (Some fresh_store) fresh_projection None.

Lemma fresh_adapter_opened : adapter_open empty_directory true calm_adapter = (fresh_adapter, Ok tt).
Proof. vm_compute. reflexivity. Qed.

Lemma fresh_running : running [] (mkView [] 0 0 empty_state empty_state) fresh_store.
Proof.
  split; [|apply fresh_represents|reflexivity|reflexivity|reflexivity|by split].
  exact disk_new.
Qed.

Lemma fresh_adapter_ok : adapter_ok [] fresh_adapter.
Proof.
  split; [done|]. eexists. exists fresh_store. split; [reflexivity|].
  split; [apply fresh_running|reflexivity|by split|reflexivity|reflexivity|by vm_compute|reflexivity|reflexivity|
    reflexivity|reflexivity|reflexivity| |constructor].
  split; [by intros [] ?|by intros e He%elem_of_nil].
Qed.

Lemma decode_unique e index x : entry_ok e -> decode_domain_entry (entry_of e) index = Ok x -> x = e.
Proof.
  intros [[He _] _]. unfold decode_domain_entry, entry_of. cbn [e_term e_command].
  destruct (_ || _); [done|]. rewrite parse_event_canonical by done. destruct (_ || _); [done|]. by intros [= <-].
Qed.

Lemma first_delta_ok es commit : Forall (fun e => entry_ok e /\ ev_index e < kIndexes) es ->
  delta_ok (first_delta es commit).
Proof.
  intros Hall. split; [by vm_compute|]. intros entry index x Hin Hx. cbn [dl_append first_delta] in Hin.
  apply list_elem_of_fmap in Hin as (e & -> & He).
  pose proof (proj1 (list.Forall_forall _ _) Hall e He) as [H1 H2].
  by rewrite (decode_unique e index x H1 Hx).
Qed.

Lemma demo_delta_ok : delta_ok demo_delta.
Proof. exact (first_delta_ok (take 5 demo_events) 4 (Forall_take _ 5 _ demo_entries)). Qed.

Lemma incremental_write_matches_audit_witness :
  exists a' store', adapter_open empty_directory true calm_adapter = (fresh_adapter, Ok tt) /\
    persist_delta fresh_adapter demo_delta calm_adapter = (a', None) /\ ad_store a' = Some store' /\
    current_raft a' = Ok (delta_target (ad_current fresh_adapter) demo_delta) /\
    audit_recovered_domain_store store' false None = Ok (audited (ad_current a') store').
Proof.
  pose proof (incremental_write_matches_audit [] fresh_adapter demo_delta calm_adapter fresh_adapter_ok demo_delta_ok) as H.
  assert (snd (persist_delta fresh_adapter demo_delta calm_adapter) = None) as E by (vm_compute; reflexivity).
  destruct (persist_delta fresh_adapter demo_delta calm_adapter) as [a' error]. cbn [snd] in E. subst error.
  destruct H as (com' & store' & _ & _ & H1 & H2 & H3). exists a', store'.
  split; [exact fresh_adapter_opened|]. split; [reflexivity|]. split; [exact H1|]. split; [exact H2|exact H3].
Defined.
