(* ===== verification/AdapterReopen.v ===== *)
(** * Checkpoints and reopenings of the adapter

    A checkpoint moves the snapshot boundary and nothing else; opening the
    directory of an adapter gives an adapter with the same Raft state. *)

From S2P Require Import Prelude EntryLog Transition Text Stream Types Model EventCodec EventCodecThms Machine MachineInv MachineThms EngineThms CommitThms SnapshotText SnapshotTextThms SnapshotThms StoreState Bytes Wal WalThms Metadata Transaction SnapshotFile SnapshotFileThms StoreDisk FileEngine StoreOps StoreOpen StoreRun DomainBridge AdapterBridge FileEngineAdapter AdapterThms.

(** ** Checkpoints *)

(** What a store may change under a projection. *)
Lemma mirrors_moved com v store c v' store' :
  mirrors com v store c -> running com v' store' -> v_base v' = v_base v -> v_tail v' = v_tail v ->
  fe_recovery_required store' = false -> fe_options store' = fe_options store ->
  fe_report store' = fe_report store -> dir_meta (fe_disk store') = dir_meta (fe_disk store) ->
  fe_snapshot store' = fe_snapshot store ->
  state_hash (en_state (fe_engine store')) = state_hash (en_state (fe_engine store)) ->
  (exists n, v_log com v' = drop n (v_log com v)) -> mirrors com v' store' c.
Proof.
  intros [] Hr E1 E2 E3 E4 E5 E6 E7 E8 [n E9]. split; rewrite ?E1, ?E2, ?E4, ?E5, ?E6, ?E7, ?E8, ?E9; try done.
  - by apply terms_drop.
  - by apply Forall_drop.
Qed.

Lemma cut_log com v n : (v_cut v <= n <= length com)%nat ->
  v_log com (set_cut n v) = drop (n - v_cut v) (v_log com v).
Proof.
  intros Hn. unfold v_log. cbn [v_cut v_tail set_cut]. rewrite drop_app_le, drop_drop by (rewrite length_drop; lia).
  do 2 f_equal. lia.
Qed.

Lemma forgets_hash s t : forgets s t -> state_hash t = state_hash s.
Proof. intros Hf. destruct (forgets_position _ _ Hf) as (_ & _ & Hcan). unfold state_hash. by rewrite Hcan. Qed.

Lemma compact_mirrors com v store c anchor os store' :
  mirrors com v store c -> anchor <= Z.of_nat (v_base v) -> compact store anchor os = (store', None) ->
  exists v', v_base v' = v_base v /\ v_tail v' = v_tail v /\ mirrors com v' store' c.
Proof.
  intros Hm Ha H. pose proof (mi_running _ _ _ _ Hm) as Hr. unfold compact in H.
  pose proof (mirror_base _ _ _ _ Hm) as Hbase. pose proof (run_numbered com v store Hr) as Hn. rewrite (run_events com v store Hr) in H.
  assert (store' = store -> exists v', v_base v' = v_base v /\ v_tail v' = v_tail v /\ mirrors com v' store' c) as Hsame
    by (intros ->; by exists v).
  destruct (v_log com v) as [|e0 es0] eqn:El; [apply Hsame; by injection H|]. rewrite <- El in *.
  rewrite (front_numbered _ _ e0 es0 Hn El), (back_numbered _ _ Hn) in H by (by rewrite El).
  destruct (Z.leb_spec anchor (Z.of_nat (v_cut v) + 1)) as [|H1]; [apply Hsame; by injection H|].
  destruct (_ <? anchor); [apply Hsame; by injection H|].
  replace (Z.to_nat (anchor - (Z.of_nat (v_cut v) + 1))) with (Z.to_nat (anchor - 1) - v_cut v)%nat in H by lia.
  destruct (rewrite_log _ _ _ _) as [wal [err|]] eqn:Ew; [done|].
  apply (rewrite_running com v store) in Ew; [|done|lia|lia].
  cbn [checked_mutation fe_options with_wal] in H. destruct (so_compact_log (fe_options store)).
  - destruct (retain_running com _ _ anchor Ew) as (engine & E & Hr' & Hf); [cbn; lia|].
    cbn [fe_engine with_wal] in *. rewrite E in H. cbn [checked_mutation] in H. injection H as <-.
    eexists. split; [|split; [|apply (mirrors_moved com v store c _ _ Hm Hr')]]; try done; [apply (mi_open _ _ _ _ Hm)| |exists (Z.to_nat (anchor - 1) - v_cut v)%nat; apply (cut_log com v); lia].
    cbn [fe_engine with_engine]. rewrite (forgets_hash _ _ Hf). cbn [v_state set_cut]. by rewrite (rn_state _ _ _ Hr).
  - injection H as <-. exists (set_cut (Z.to_nat (anchor - 1)) v). split; [done|]. split; [done|].
    apply (mirrors_moved com v store c _ _ Hm Ew); try done; [apply (mi_open _ _ _ _ Hm)|].
    exists (Z.to_nat (anchor - 1) - v_cut v)%nat. apply (cut_log com v). lia.
Qed.

(** The projection after a snapshot of everything committed. *)
Definition checkpointed (com : list Event) (v : View) (store : FileEngine) (c : RecoveredDomainProjection)
    : RecoveredDomainProjection :=
  mkProjection (pj_term c) (pj_voted_for c) (fe_snapshot store) (entry_of <$> v_tail v) (count com) (count com)
    (pj_applied_state_hash c) "".

Lemma take_snapshot_mirrors com v store c os store' :
  mirrors com v store c -> (1 <= length com)%nat -> take_snapshot store os = (store', None) ->
  exists v', v_base v' = length com /\ v_tail v' = v_tail v /\
    mirrors com v' store' (checkpointed com v store' c).
Proof.
  intros Hm Hc H. pose proof (mi_running _ _ _ _ Hm) as Hr. unfold take_snapshot in H.
  destruct (save_snapshot _ _ _ _ _ _) as [files [e|]] eqn:Es; [done|].
  destruct (save_disk com v store _ _ _ _ _ _ Hr Hc Es) as (v1 & Hd1 & Hb). specialize (Hb eq_refl). subst v1.
  pose proof (running_saved com v store _ Hr Hc Hd1) as Hr2. set (f2 := with_snapshot _ _) in *.
  pose proof (rn_disk _ _ _ Hr2) as D. pose proof (run_small com _ f2 Hr2) as Hsmall. rewrite count_app in Hsmall.
  destruct (prune_recovers com _ _ _ _ (os_removed os) (os_scanned os) 2 ltac:(lia)
    ltac:(unfold count in *; lia) (do_names _ _ _ D) (do_recovers _ _ _ D)) as (files' & E1 & Hn & Hrec & Hold).
  destruct (prune_snapshots _ _ _ _) as [pruned result]. cbn [fst snd] in E1, Hold. subst pruned.
  cbn [from_option id] in H. pose proof (running_pruned com _ f2 files' Hr2 Hn Hrec) as Hr3.
  destruct result as [r|e]; [|done]. set (f3 := with_snapshots files' f2) in *.
  assert (mirrors com (saved_view com v) f3 (checkpointed com v f3 c)) as Hm3.
  { destruct Hm. split; try done. cbn [pj_suffix checkpointed v_base saved_view set_base v_tail].
    by rewrite drop_app_length. }
  destruct (_ && _); [|injection H as <-; by exists (saved_view com v)].
  destruct (compact_mirrors com _ f3 _ _ os store' Hm3 ltac:(by apply Hold) H) as (v' & V1 & V2 & Hm').
  exists v'. split; [done|]. split; [done|]. destruct Hm'. by split.
Qed.

Lemma then_store_err r next store' e : then_store r next = (store', Some e) ->
  r = (store', Some e) \/ exists store, r = (store, None) /\ next store = (store', Some e).
Proof. destruct r as [s [x|]]; cbn; [left; congruence|eauto]. Qed.

(** An audit that succeeded met no failure. *)
Lemma calm_audit store probed meta_read p :
  audit_recovered_domain_store store probed meta_read = Ok p -> audit_recovered_domain_store store false None = Ok p.
Proof.
  unfold audit_recovered_domain_store. destruct probed; [done|]. cbn [orb].
  destruct (is_some _); [done|]. by destruct meta_read.
Qed.

(** A checkpoint of the adapter keeps its history, and on success it mirrors
    its store. *)
Lemma adapter_checkpoint_spec com a os a' error :
  adapter_ok com a -> adapter_checkpoint a os = (a', error) ->
  match error with
  | None => adapter_ok com a'
  | Some _ => exists v, disk_ok com v (adapter_disk a')
  end.
Proof.
  intros Hok H. pose proof Hok as (Hu & v & store & Es & Hm). unfold adapter_checkpoint, uncertain in H.
  rewrite Hu, Es in H. cbn [is_some negb orb] in H. pose proof (mi_running _ _ _ _ Hm) as Hr.
  destruct (Z.eqb_spec (pj_commit (ad_current a)) 0) as [|Hc]; [by simplify_eq|]. rewrite (mi_commit _ _ _ _ Hm) in Hc.
  assert (store_ok com store) as Hso by (apply (store_running com v); [apply (mi_options _ _ _ _ Hm)|done|apply (mi_open _ _ _ _ Hm)]).
  destruct (then_store _ _) as [store' [e|]] eqn:Er.
  - injection H as <- <-. apply then_store_err in Er as [E|(s1 & E1 & E2)]; apply (store_disk com store').
    + pose proof (checkpoint_ok com store (ao_checkpoint os) Hso) as X. by rewrite E in X.
    + pose proof (checkpoint_ok com store (ao_checkpoint os) Hso) as X. rewrite E1 in X.
      pose proof (discard_ok com s1 (ao_discard os) X) as Y. by rewrite E2 in Y.
  - apply then_store_ok in Er as (s1 & E1 & E2). unfold checkpoint in E1.
    rewrite (mirror_writable _ _ _ _ Hm), (run_last _ _ _ Hr) in E1.
    destruct (Z.eqb_spec (count com) 0) as [|_]; [lia|].
    destruct (take_snapshot store (ao_checkpoint os)) as [s2 [x|]] eqn:Et; [done|]. cbn [checked_mutation] in E1.
    injection E1 as ->. destruct (take_snapshot_mirrors com v store _ _ s1 Hm ltac:(unfold count in Hc; lia) Et)
      as (v1 & B1 & T1 & M1).
    unfold discard_compacted_prefix in E2. rewrite (mirror_writable _ _ _ _ M1) in E2.
    pose proof (found_index _ _ _ _ _ (rn_snapshot _ _ _ (mi_running _ _ _ _ M1))) as Hi.
    destruct (fe_snapshot s1) as [sn|]; [|done].
    destruct (compact_mirrors com v1 s1 _ (sp_index sn) _ store' M1 ltac:(cbn in Hi; lia) E2) as (v2 & B2 & T2 & M2).
    unfold observe_store in H. destruct (audit_recovered_domain_store _ _ _) as [p|x] eqn:Ea; injection H as <- <-.
    + split; [done|]. exists v2, store'. split; [done|]. cbn [ad_current ad_observe].
      pose proof (calm_audit _ _ _ _ Ea) as Ea'. rewrite (audit_mirrors com v2 store' _ M2) in Ea'. injection Ea' as <-. destruct M2. by split.
    + exists v2. apply (rn_disk _ _ _ (mi_running _ _ _ _ M2)).
Qed.

(** ** Opening the directory again *)

Lemma store_open_meta d options os d' f :
  dir_journal d = None -> so_commit_on_append options = false -> store_open d options os = (d', Ok f) ->
  dir_meta d' = dir_meta d.
Proof.
  intros Hj Ho H. unfold store_open, recover_snapshot_transaction in H. rewrite Hj, Ho in H.
  destruct (op_directory os); [done|]. destruct (op_journal os); [done|]. destruct (op_journal_sync os); [done|].
  destruct (wal_open _ _ _) as [file [wal0|]]; [|done]. destruct (negb _); [done|]. destruct (load_latest_snapshot _ _ _); [|done].
  destruct (match op_meta_read os with Some e => _ | None => _ end); [|done].
  destruct (match _ with Some snapshot => _ | None => _ end) as [[engine snapshot]|] in H; [|done].
  destruct (_ && _); [done|]. destruct (join_log _ _ _ _ _) as [wal [e|]]; [done|].
  destruct (replay_committed _ _ _ _ _) as [[engine' n]|]; [|done]. destruct (_ <? _); [done|].
  unfold finish_open in H. rewrite Ho in H. cbn [andb] in H.
  destruct (so_compact_log options); [|by simplify_eq]. destruct (retain_history_from _ _) as [x [y|]]; by simplify_eq.
Qed.

(** What a successful projection of the retained log says about its records. *)
Lemma projected_terms term snapshot es : forall pi pt entries,
  project_retained term snapshot pi pt es = Ok entries ->
  terms_ok term es /\ Forall current_schema es /\ forall e, e ∈ es -> pt <= ev_term e.
Proof.
  induction es as [|e es IH]; intros pi pt entries H.
  - split; [split; [by intros [] ?|by intros e He%elem_of_nil]|]. split; [constructor|by intros e He%elem_of_nil].
  - cbn [project_retained] in H. destruct (_ || _) eqn:E in H; [done|]. repeat rewrite orb_false_iff in E.
    destruct E as (((_ & _) & E1) & E2). rewrite Z.ltb_ge in E1, E2.
    destruct (encode_domain_event e) as [x|] eqn:Ex; [|done]. do 2 (case_in H; [done|]).
    destruct (project_retained term snapshot (ev_index e) (ev_term e) es) as [l|] eqn:El; [|done].
    destruct (IH _ _ _ El) as ([T1 T2] & S & P).
    assert (forall a, a ∈ e :: es -> ev_term e <= ev_term a) as Hfirst.
    { intros a Ha. apply elem_of_cons in Ha as [->|Ha]; [lia|by apply P]. }
    split; [split|split].
    + intros [|i] [|j] a b Hij Ha Hb; cbn in Ha, Hb; [simplify_eq; lia| |lia|by apply (T1 i j); [lia|..]].
      simplify_eq. apply P. by eapply list_elem_of_lookup_2.
    + intros a Ha. apply elem_of_cons in Ha as [->|Ha]; [lia|by apply T2].
    + constructor; [|done]. unfold encode_domain_event in Ex. case_in Ex; [done|]. bool_props. done.
    + intros a Ha. apply Hfirst in Ha. lia.
Qed.

(** Whatever a directory went through, the adapter that opens it mirrors its
    store. *)
Lemma opened_mirrors com v d test_mode os d' f p :
  disk_ok com v d -> readable os -> store_open d (adapter_options test_mode) os = (d', Ok f) ->
  audit_recovered_domain_store f false None = Ok p ->
  exists v', v_tail v' = v_tail v /\ v_base v' = v_base v /\ fe_disk f = d' /\ mirrors com v' f p.
Proof.
  intros D Hr Ho Ha.
  pose proof (store_open_ok com v d (adapter_options test_mode) os D ltac:(by split) Hr) as H. rewrite Ho in H.
  destruct H as (_ & O1 & O2 & O3 & v' & R & Hlog & _ & T & B & Hrep). exists v'. split; [done|]. split; [done|]. split; [done|].
  pose proof (store_open_meta d (adapter_options test_mode) os d' f (do_journal _ _ _ D) eq_refl Ho) as Emeta.
  destruct (do_meta _ _ _ D) as (m & Hm & Hok & Hc).
  assert (m = mkMetadata (md_term m) (count com) (md_voted_for m)) as Em by (destruct m; cbn in *; congruence).
  set (q := mkProjection (md_term m) (md_voted_for m) (fe_snapshot f) (entry_of <$> drop (v_base v') (com ++ v_tail v')%list)
    (count com) (count com) (state_hash (en_state (fe_engine f))) "").
  assert (mirrors com v' f q) as M.
  { pose proof Ha as Ha'. unfold audit_recovered_domain_store in Ha'. rewrite O1, Emeta, Hm in Ha'.
    destruct (_ || _); [done|]. destruct (negb _); [done|].
    destruct (project_retained _ _ _ _ _) as [l|] eqn:El; [|done].
    destruct (projected_terms _ _ _ _ _ _ El) as (T1 & S1 & _). rewrite (run_events _ _ _ R) in T1, S1.
    split; try done; rewrite ?O1, ?O2, ?Emeta; try done; [rewrite Hm; by f_equal|].
    unfold q. cbn [pj_term pj_voted_for]. by rewrite <- Em. }
  rewrite (audit_mirrors _ _ _ _ M) in Ha. injection Ha as <-. destruct M. by split.
Qed.

(** The boundary that a store remembers is determined by the history. *)
Lemma boundary_unique com v store v' f : running com v store -> running com v' f -> v_base v' = v_base v ->
  match fe_snapshot f with Some s => (sp_index s, sp_term s) | None => (0, 0) end =
  match fe_snapshot store with Some s => (sp_index s, sp_term s) | None => (0, 0) end.
Proof.
  intros R R' B. pose proof (rn_snapshot _ _ _ R) as F. pose proof (rn_snapshot _ _ _ R') as F'. rewrite B in F'.
  destruct (fe_snapshot store) as [s|], (fe_snapshot f) as [s'|]; [| | |done].
  - destruct F as (b & -> & Hb & Hc & _), F' as (b' & -> & Hb' & Hc' & _). cbn [sp_index sp_term snapshot_of].
    rewrite (st_last _ _ Hb), (st_last _ _ Hb'). f_equal.
    destruct (list.last (take (v_base v) com)) as [x|] eqn:El.
    + by rewrite (st_term _ _ Hb x El), (st_term _ _ Hb' x El).
    + apply last_None in El. assert (length (take (v_base v) com) = 0%nat) as L by (by rewrite El).
      rewrite length_take in L. lia.
  - destruct F as (b & -> & Hb & Hc & _), F' as (_ & Z & _). lia.
  - destruct F as (_ & Z & _), F' as (b' & -> & Hb' & Hc' & _). lia.
Qed.

(** What opening an adapter on a directory gives. *)
Lemma opened_adapter com v d test_mode os a :
  disk_ok com v d -> readable (ao_open os) -> adapter_open d test_mode os = (a, Ok tt) -> adapter_ok com a.
Proof.
  intros D Hr H. unfold adapter_open, recover in H. cbn [ad_store ad_directory ad_test_mode adapter_disk] in H.
  destruct (store_open d (adapter_options test_mode) (ao_open os)) as [d' [f|]] eqn:Ho; [|done].
  destruct (audit_recovered_domain_store f (ao_probed os) (ao_meta_read os)) as [p|] eqn:Ea; [|done]. injection H as <-.
  destruct (opened_mirrors com v d test_mode _ _ _ _ D Hr Ho (calm_audit _ _ _ _ Ea)) as (v' & _ & _ & _ & M).
  split; [done|]. by exists v', f.
Qed.

(** Opening the directory of an adapter gives its Raft state back. *)
Lemma reopened_adapter com a test_mode os d :
  adapter_ok com a -> current_raft a = Ok d -> readable (ao_open os) ->
  ao_probed os = false -> ao_meta_read os = None -> ~ open_fails (ao_open os) ->
  exists a', adapter_open (adapter_disk a) test_mode os = (a', Ok tt) /\ adapter_ok com a' /\ current_raft a' = Ok d.
Proof.
  intros (Hu & v & store & Es & M) Hd Hr Hp Hmr Hf. unfold adapter_disk. rewrite Es.
  pose proof (mi_running _ _ _ _ M) as R. pose proof (rn_disk _ _ _ R) as D.
  pose proof (store_open_ok com v _ (adapter_options test_mode) _ D ltac:(by split) Hr) as Ho.
  destruct (store_open (fe_disk store) (adapter_options test_mode) (ao_open os)) as [disk [f|]] eqn:Eo; [|by destruct Ho].
  destruct Ho as (_ & O1 & O2 & O3 & v' & R' & Hlog & _ & T & B & Hrep).
  pose proof (store_open_meta (fe_disk store) (adapter_options test_mode) _ disk f (do_journal _ _ _ D) eq_refl Eo) as Emeta.
  set (c := ad_current a) in *.
  set (q := mkProjection (pj_term c) (pj_voted_for c) (fe_snapshot f) (pj_suffix c) (pj_commit c) (pj_applied c)
    (state_hash (en_state (fe_engine f))) "").
  assert (mirrors com v' f q) as M'.
  { destruct M. split; try done; rewrite ?O1, ?O2, ?Emeta, ?T, ?B, ?Hlog; done. }
  unfold adapter_open, recover, adapter_disk. cbn [ad_store ad_directory ad_test_mode]. rewrite Eo, Hp, Hmr, (audit_mirrors _ _ _ _ M').
  eexists. split; [done|]. split.
  - split; [done|]. exists v', f. split; [done|]. cbn [ad_current]. destruct M'. by split.
  - pose proof (boundary_unique _ _ _ _ _ R R' B) as Hb.
    unfold current_raft, uncertain in *. rewrite Hu, Es in Hd. cbn [is_some negb orb] in Hd. injection Hd as <-.
    cbn. fold c. rewrite (mi_snapshot _ _ _ _ M). destruct (fe_snapshot f), (fe_snapshot store); congruence.
Qed.
