(* ===== verification/RuntimeHost.v ===== *)
(** * The runtime host

    [cpp-runtime/include/choreoos/raft/runtime_host.hpp] and
    [src/raft/runtime_host.cpp]: the synchronous loop that owns a node. It runs
    the transition core, writes what the core stages through the file-engine
    adapter, checks what the adapter then holds, confirms the application of
    committed entries, and only then releases the effects; any error halts it.

    Each adapter call takes the outcomes of its system calls: [os n] for the
    [n]-th call of a dispatch. The two loops take fuel; [None] is running out of
    it. *)

From S2P Require Import Prelude EntryLog EntryLogRefine Transition Text Stream Types Model EventCodec Machine SnapshotText Bytes Wal Metadata Transaction SnapshotFile FileEngine DomainBridge FileEngineAdapter.

(** The snapshot is shared and immutable. *)
Record PinnedSnapshot := mkPinned { ps_request : SnapshotNeeded; ps_snapshot : Snapshot }.

Record HostEffects := mkHostEffects {
  he_send : list Outbound;
  he_snapshots : list PinnedSnapshot;
  he_capacity_exhausted : bool;
  he_reads : list ReadResult;
}.

Definition no_host_effects : HostEffects := mkHostEffects [] [] false [].

Record RuntimeHost := mkHost {
  rh_config : Config;
  rh_adapter : FileEngineAdapter;
  rh_node : Node;
  rh_snapshot_every : Z;
  rh_pinned : gmap string PinnedSnapshot;
  rh_published : option Snapshot;
}.

Definition host_invalid (why : string) : Error := mkError StoreError why.

(** ** Fields *)

Definition rh_with_node (n : Node) (h : RuntimeHost) : RuntimeHost :=
  mkHost (rh_config h) (rh_adapter h) n (rh_snapshot_every h) (rh_pinned h) (rh_published h).

Definition rh_with_adapter (a : FileEngineAdapter) (h : RuntimeHost) : RuntimeHost :=
  mkHost (rh_config h) a (rh_node h) (rh_snapshot_every h) (rh_pinned h) (rh_published h).

Definition rh_with_pins (pinned : gmap string PinnedSnapshot) (published : option Snapshot) (h : RuntimeHost)
    : RuntimeHost :=
  mkHost (rh_config h) (rh_adapter h) (rh_node h) (rh_snapshot_every h) pinned published.

(** ** Opening *)

(** The loop over [config.peers]: distinct, valid, and not the node itself. *)
Fixpoint host_peers_valid (self : string) (members : gset string) (peers : list string) : bool :=
  match peers with
  | [] => true
  | peer :: rest =>
      negb (bool_decide (peer = self) || negb (is_ok (parse_id peer)) || bool_decide (peer ∈ members)) &&
      host_peers_valid self ({[peer]} ∪ members) rest
  end.

(** [named]: the path is not empty. [lease]: the error of taking the lock of the
    directory, if it fails. The result comes with what the directory then
    holds. *)
Definition host_open (config : Config) (named : bool) (directory : Directory) (snapshot_every : Z)
    (test_mode : bool) (lease : option Error) (os : AdapterOs) : Directory * result Error RuntimeHost :=
  if negb (is_ok (parse_id (c_self config))) || negb named
  then (directory, Err (host_invalid "runtime host requires a valid local ID and data directory"))
  else if negb (host_peers_valid (c_self config) ∅ (c_peers config))
  then (directory, Err (host_invalid "runtime host requires distinct valid peer IDs"))
  else
    match lease with
    | Some e => (directory, Err e)
    | None =>
        let '(adapter, opened) := adapter_open directory test_mode os in
        (adapter_disk adapter,
         check! opened in
         let? recovered := current_raft adapter in
         let node := n_with_durable recovered (initial config) in
         let '(validated, effects) := step config node Restart in
         if f_halt effects
         then Err (host_invalid "recovered state violates transition-core invariants")
         else Ok (mkHost config adapter validated snapshot_every ∅ None))
    end.

(** ** Halting *)

Definition host_halt (h : RuntimeHost) : RuntimeHost :=
  let n :=
    match n_pending (rh_node h) with
    | Some pending => fst (step (rh_config h) (rh_node h) (PersistFailed (pw_token pending)))
    | None => rh_node h
    end in
  let n := n_with_volatile (initial_volatile (rh_config h)) (n_with_halted true n) in
  rh_with_pins ∅ None (rh_with_node n h).

(** ** Persistence *)

(** The delta between the durable state and the target. *)
Definition target_delta (durable target : Durable) : DomainWriteDelta :=
  let common := common_prefix (d_log durable) (d_log target) in
  mkDelta (d_snapshot_index target) (d_snapshot_term target) (d_term target) (d_voted_for target)
    (wrap64 (d_snapshot_index target + Z.of_nat common)) (drop common (d_log target)) (d_commit target).

(** The branch on the kind of the request. *)
Definition host_write (h : RuntimeHost) (request : PersistRequest) (installing : option Snapshot)
    (os : AdapterOs) : FileEngineAdapter * option Error :=
  let target := pq_target request in
  let durable := n_durable (rh_node h) in
  let a := rh_adapter h in
  match pq_kind request with
  | LocalCompaction => adapter_checkpoint a os
  | SnapshotInstall =>
      match installing with
      | Some snapshot =>
          if negb (sp_index snapshot =? d_snapshot_index target) ||
             negb (sp_term snapshot =? d_snapshot_term target)
          then (a, Some (host_invalid "snapshot intent lacks its matching verified application snapshot"))
          else adapter_install_snapshot a snapshot (d_term target) (d_voted_for target) os
      | None => (a, Some (host_invalid "snapshot intent lacks its matching verified application snapshot"))
      end
  | StateUpdate =>
      if bool_decide (d_with_applied (d_applied durable) target = durable) then (a, None)
      else if negb (d_snapshot_index target =? d_snapshot_index durable) ||
              negb (d_snapshot_term target =? d_snapshot_term durable)
      then (a, Some (host_invalid "ordinary persistence cannot change the snapshot boundary"))
      else persist_delta a (target_delta durable target) os
  end.

(** What the adapter now holds against what was asked for. *)
Definition host_observe (a : FileEngineAdapter) (target : Durable) : option Error :=
  match current_raft a with
  | Err e => Some e
  | Ok observed =>
      if negb (bool_decide (observed = d_with_applied (d_applied observed) target)) ||
         negb (d_applied observed =? d_commit target) || (d_applied observed <? d_applied target)
      then Some (host_invalid
                   "runtime persistence disagrees with the requested consensus/application state")
      else None
  end.

Definition host_persist (h : RuntimeHost) (request : PersistRequest) (installing : option Snapshot)
    (os : AdapterOs) : RuntimeHost * option Error :=
  match host_write h request installing os with
  | (a, Some e) => (rh_with_adapter a h, Some e)
  | (a, None) => (rh_with_adapter a h, host_observe a (pq_target request))
  end.

(** ** Collecting effects *)

Definition kMaxPinnedBytes : Z := 67108864.

(** The latest snapshot of the store, if it answers [needed]. *)
Definition matching_snapshot (h : RuntimeHost) (needed : SnapshotNeeded) : option Snapshot :=
  match ad_store (rh_adapter h) with
  | Some store =>
      match fe_snapshot store with
      | Some snapshot =>
          if is_legacy_format snapshot || negb (sp_index snapshot =? sn_index needed) ||
             negb (sp_term snapshot =? sn_term needed) ||
             (kMaxPinnedBytes <? Z.of_nat (String.length (sp_payload snapshot)))
          then None else Some snapshot
      | None => None
      end
  | None => None
  end.

(** [published_] is kept while it is the same snapshot. *)
Definition publish (published : option Snapshot) (snapshot : Snapshot) : Snapshot :=
  match published with
  | Some p =>
      if negb (sp_index p =? sp_index snapshot) || negb (bool_decide (sp_hash p = sp_hash snapshot))
      then snapshot else p
  | None => snapshot
  end.

(** The pin of [needed]: found, or made from the latest snapshot. *)
Definition pin (h : RuntimeHost) (needed : SnapshotNeeded) : option (RuntimeHost * PinnedSnapshot) :=
  let fresh :=
    match matching_snapshot h needed with
    | None => None
    | Some snapshot =>
        let published := publish (rh_published h) snapshot in
        let pinned := mkPinned needed published in
        Some (rh_with_pins (<[sn_peer needed := pinned]> (rh_pinned h)) (Some published) h, pinned)
    end in
  match rh_pinned h !! sn_peer needed with
  | Some found => if sn_request_id (ps_request found) =? sn_request_id needed then Some (h, found) else fresh
  | None => fresh
  end.

Definition add_snapshot (p : PinnedSnapshot) (output : HostEffects) : HostEffects :=
  mkHostEffects (he_send output) (he_snapshots output ++ [p]) (he_capacity_exhausted output)
    (he_reads output).

Fixpoint collect_snapshots (h : RuntimeHost) (needed : list SnapshotNeeded) (output : HostEffects)
    : RuntimeHost * HostEffects * option Error :=
  match needed with
  | [] => (h, output, None)
  | need :: rest =>
      match pin h need with
      | None =>
          (h, output, Some (host_invalid "snapshot work has no matching bounded durable application snapshot"))
      | Some (h, pinned) => collect_snapshots h rest (add_snapshot pinned output)
      end
  end.

Definition add_effects (effects : Effects) (output : HostEffects) : HostEffects :=
  mkHostEffects (he_send output ++ f_send_now effects) (he_snapshots output)
    (he_capacity_exhausted output || f_capacity_exhausted effects)
    (he_reads output ++ match f_read effects with Some r => [r] | None => [] end).

Definition collect (h : RuntimeHost) (effects : Effects) (output : HostEffects)
    : RuntimeHost * HostEffects * option Error :=
  if f_halt effects then (h, output, Some (host_invalid "transition core halted"))
  else collect_snapshots h (f_snapshot_needed effects) (add_effects effects output).

(** ** The loops *)

(** A host in the middle of a dispatch: what it has collected, and how many
    adapter calls it has made. *)
Record HostRun := mkRun { hr_host : RuntimeHost; hr_output : HostEffects; hr_calls : nat }.

(** [while (effects.persist)], and the [collect] after it. *)
Fixpoint advance_loop (fuel : nat) (r : HostRun) (effects : Effects) (installing : option Snapshot)
    (os : nat -> AdapterOs) : option (HostRun * option Error) :=
  match collect (hr_host r) effects (hr_output r) with
  | (h, output, error) =>
      match f_persist effects, error with
      | None, _ | _, Some _ => Some (mkRun h output (hr_calls r), error)
      | Some request, None =>
          match fuel with
          | O => None
          | S fuel =>
              match host_persist h request installing (os (hr_calls r)) with
              | (h, Some e) => Some (mkRun h output (S (hr_calls r)), Some e)
              | (h, None) =>
                  let '(n, effects) := step (rh_config h) (rh_node h) (PersistCompleted (pq_token request)) in
                  advance_loop fuel (mkRun (rh_with_node n h) output (S (hr_calls r))) effects installing os
              end
          end
      end
  end.

Definition advance (fuel : nat) (r : HostRun) (input : Input) (installing : option Snapshot)
    (os : nat -> AdapterOs) : option (HostRun * option Error) :=
  let h := hr_host r in
  let '(n, effects) := step (rh_config h) (rh_node h) input in
  advance_loop fuel (mkRun (rh_with_node n h) (hr_output r) (hr_calls r)) effects installing os.

(** [if (applied) applied = ...] *)
Definition and_then (p : option (HostRun * option Error)) (next : HostRun -> option (HostRun * option Error))
    : option (HostRun * option Error) :=
  match p with
  | Some (r, None) => next r
  | _ => p
  end.

(** [while (applied && node_.durable.applied < node_.durable.commit)] *)
Fixpoint apply_loop (fuel : nat) (r : HostRun) (os : nat -> AdapterOs) : option (HostRun * option Error) :=
  let d := n_durable (rh_node (hr_host r)) in
  if d_applied d <? d_commit d then
    match fuel with
    | O => None
    | S fuel' => and_then (advance fuel r ApplyCommitted None os) (fun r => apply_loop fuel' r os)
    end
  else Some (r, None).

Definition compact_due (h : RuntimeHost) : bool :=
  let d := n_durable (rh_node h) in
  negb (rh_snapshot_every h =? 0) && (rh_snapshot_every h <=? wrap64 (d_commit d - d_snapshot_index d)).

(** A pin stays while the core still waits for its answer. *)
Definition pin_active (n : Node) (peer : string) (p : PinnedSnapshot) : bool :=
  match v_peers (n_volatile n) !! peer with
  | Some progress =>
      match pp_snapshot_in_flight progress with
      | Some probe => sn_request_id probe =? sn_request_id (ps_request p)
      | None => false
      end
  | None => false
  end.

Definition drop_pins (h : RuntimeHost) : RuntimeHost :=
  rh_with_pins (filter (fun kv => pin_active (rh_node h) kv.1 kv.2 = true) (rh_pinned h)) (rh_published h) h.

Definition host_dispatch (fuel : nat) (h : RuntimeHost) (input : Input) (installing : option Snapshot)
    (os : nat -> AdapterOs) : option (RuntimeHost * result Error HostEffects) :=
  if n_halted (rh_node h)
  then Some (h, Err (host_invalid "runtime host halted; reopen from actual disk recovery"))
  else
    match
      and_then (advance fuel (mkRun h no_host_effects 0) input installing os) (fun r =>
      and_then (advance fuel r AdvanceCommit None os) (fun r =>
      and_then (apply_loop fuel r os) (fun r =>
      if compact_due (hr_host r) then advance fuel r CompactCommitted None os else Some (r, None))))
    with
    | None => None
    | Some (r, Some e) => Some (host_halt (hr_host r), Err e)
    | Some (r, None) => Some (drop_pins (hr_host r), Ok (hr_output r))
    end.

Definition host_inject_fault (h : RuntimeHost) (fault : DomainWriteFault) : RuntimeHost * option Error :=
  let '(a, e) := inject_next_fault_for_test (rh_adapter h) fault in (rh_with_adapter a h, e).
