(* ===== verification/RuntimeHostThms.v ===== *)
(** * Theorems on the runtime host

    Whatever the adapter's system calls do, a dispatch returns; it releases
    effects only when the adapter holds exactly the durable state of the node,
    and otherwise leaves the host halted. *)

From S2P Require Import Prelude EntryLog EntryLogRefine Transition TransitionInv TransitionSteps TransitionProps TransitionThms TransitionVotes Text Stream Types Model EventCodec Machine SnapshotText Bytes Wal Metadata Transaction SnapshotFile FileEngine DomainBridge FileEngineAdapter RuntimeHost.

(** ** Collecting touches the pins only *)

Record same_core (h h' : RuntimeHost) : Prop := {
  sc_config : rh_config h' = rh_config h;
  sc_node : rh_node h' = rh_node h;
  sc_adapter : rh_adapter h' = rh_adapter h;
  sc_every : rh_snapshot_every h' = rh_snapshot_every h;
}.

#[export] Instance same_core_preorder : PreOrder same_core.
Proof. split; [by split|]. intros a b c [] []. split; congruence. Qed.

(** What may be handed to the network. *)
Definition snapshot_fits (s : Snapshot) : Prop :=
  is_legacy_format s = false /\ Z.of_nat (String.length (sp_payload s)) <= kMaxPinnedBytes.

Definition pin_ok (p : PinnedSnapshot) : Prop :=
  sp_index (ps_snapshot p) = sn_index (ps_request p) /\ snapshot_fits (ps_snapshot p).

Record pins_ok (h : RuntimeHost) : Prop := {
  po_pinned : map_Forall (fun _ p => pin_ok p) (rh_pinned h);
  po_published : match rh_published h with Some s => snapshot_fits s | None => True end;
}.

Lemma pin_spec h needed h' p :
  pin h needed = Some (h', p) -> pins_ok h -> same_core h h' /\ pins_ok h' /\ pin_ok p.
Proof.
  unfold pin. intros H [H1 H2].
  assert (forall h' p, match matching_snapshot h needed with
    | None => None
    | Some snapshot =>
        let published := publish (rh_published h) snapshot in
        let pinned := mkPinned needed published in
        Some (rh_with_pins (<[sn_peer needed := pinned]> (rh_pinned h)) (Some published) h, pinned)
    end = Some (h', p) -> same_core h h' /\ pins_ok h' /\ pin_ok p) as Hfresh.
  { clear H h' p. intros h' p H. destruct (matching_snapshot h needed) as [s|] eqn:E; [|done].
    injection H as <- <-. unfold matching_snapshot in E. repeat case_in E; simplify_eq. bool_props.
    assert (snapshot_fits (publish (rh_published h) s) /\ sp_index (publish (rh_published h) s) = sn_index needed) as [F1 F2].
    { unfold publish. destruct (rh_published h); [|by split].
      case_goal; [by split|]. bool_props. split; [done|congruence]. }
    split; [by split|]. split; [|by split]. split; [|done]. apply map_Forall_insert_2; [by split|done]. }
  destruct (rh_pinned h !! sn_peer needed) as [found|] eqn:E; [|by apply Hfresh].
  case_in H; [|by apply Hfresh]. injection H as <- <-. split; [done|]. split; [done|].
  exact (map_Forall_lookup_1 _ _ _ _ H1 E).
Qed.

Lemma collect_snapshots_spec needed : forall h output h' output' e,
  collect_snapshots h needed output = (h', output', e) -> pins_ok h -> Forall pin_ok (he_snapshots output) ->
  same_core h h' /\ pins_ok h' /\ Forall pin_ok (he_snapshots output') /\ he_send output' = he_send output.
Proof.
  induction needed as [|need needed IH]; intros h output h' output' e H Hh Ho; cbn [collect_snapshots] in H;
    [by simplify_eq|].
  destruct (pin h need) as [[h1 p]|] eqn:E; [|by simplify_eq].
  destruct (pin_spec _ _ _ _ E Hh) as (S1 & P1 & P2).
  destruct (IH _ _ _ _ _ H P1) as (S2 & P3 & P4 & P5); [by apply list.Forall_app; split; [|constructor]|].
  split; [by etrans|]. done.
Qed.

Lemma collect_spec h f output h' output' e :
  collect h f output = (h', output', e) -> pins_ok h -> Forall pin_ok (he_snapshots output) ->
  same_core h h' /\ pins_ok h' /\ Forall pin_ok (he_snapshots output') /\
  (e = None -> f_halt f = false /\ he_send output' = he_send output ++ f_send_now f).
Proof.
  unfold collect. intros H Hh Ho. destruct (f_halt f); [by simplify_eq|].
  destruct (collect_snapshots_spec _ _ _ _ _ _ H Hh Ho) as (S1 & P1 & P2 & P3).
  split; [done|]. split; [done|]. split; [done|]. intros _. by rewrite P3.
Qed.

(** ** Persisting *)

(** The adapter holds the durable state of the node, applied through its commit
    index. *)
Definition holds (a : FileEngineAdapter) (d : Durable) : Prop :=
  current_raft a = Ok (d_with_applied (d_commit d) d).

Lemma host_persist_spec h q installing os h' e :
  host_persist h q installing os = (h', e) ->
  rh_config h' = rh_config h /\ rh_node h' = rh_node h /\ rh_snapshot_every h' = rh_snapshot_every h /\
  rh_pinned h' = rh_pinned h /\ rh_published h' = rh_published h /\
  (e = None -> holds (rh_adapter h') (pq_target q)).
Proof.
  unfold host_persist. intros H. destruct (host_write h q installing os) as [a [err|]]; simplify_eq; [done|].
  repeat split; try done. cbn [rh_adapter rh_with_adapter]. unfold host_observe, holds.
  destruct (current_raft a) as [o|]; [|done]. case_goal; [done|]. intros _. bool_props. congruence.
Qed.

(** ** One [advance] *)

(** A host between two steps of a dispatch. *)
Record host_between (h : RuntimeHost) : Prop := {
  hb_node : node_ok (rh_config h) (rh_node h);
  hb_idle : n_pending (rh_node h) = None;
  hb_live : n_halted (rh_node h) = false;
  hb_holds : holds (rh_adapter h) (n_durable (rh_node h));
  hb_pins : pins_ok h;
}.

Lemma step_rests_live config n i n' f' :
  node_ok config n -> n_pending n = None -> n_halted n = false -> step config n i = (n', f') ->
  f_persist f' = None -> n_pending n' = None /\ n_durable n' = n_durable n /\ n_halted n' = false.
Proof.
  intros Hok Hp Hh H Hq. assert (i = Restart \/ i <> Restart) as [->|Hi] by (destruct i; auto).
  - unfold step in H. rewrite (node_ok_not_invalid _ _ Hok) in H. unfold on_restart in H. by simplify_eq.
  - rewrite <- Hh. by eapply step_rests.
Qed.

Definition run_durable (r : HostRun) : Durable := n_durable (rh_node (hr_host r)).

(** What one [advance] leaves behind. *)
Record advanced (r r' : HostRun) (i : Input) (e : option Error) : Prop := {
  av_config : rh_config (hr_host r') = rh_config (hr_host r);
  av_every : rh_snapshot_every (hr_host r') = rh_snapshot_every (hr_host r);
  av_node : node_ok (rh_config (hr_host r')) (rh_node (hr_host r'));
  av_running : n_halted (rh_node (hr_host r')) = false;
  av_le : durable_le (run_durable r) (run_durable r');
  av_snapshots : Forall pin_ok (he_snapshots (hr_output r'));
  av_live : e = None ->
    host_between (hr_host r') /\
    (exists sends, he_send (hr_output r') = he_send (hr_output r) ++ sends /\
       Forall (vote_justified (rh_config (hr_host r)) (run_durable r')) sends) /\
    exists n f, step (rh_config (hr_host r)) (rh_node (hr_host r)) i = (n, f) /\
      run_durable r' = match f_persist f with Some q => pq_target q | None => run_durable r end;
}.

Lemma advance_loop_rests fuel r f installing os : f_persist f = None ->
  advance_loop fuel r f installing os =
  (let '(h, output, e) := collect (hr_host r) f (hr_output r) in Some (mkRun h output (hr_calls r), e)).
Proof.
  intros Hf. destruct fuel; cbn [advance_loop]; destruct (collect _ _ _) as [[h o] e]; by rewrite Hf.
Qed.

(** A step that asks for no write. *)
Lemma advance_rests fuel r i installing os n f :
  host_between (hr_host r) -> input_typed i -> Forall pin_ok (he_snapshots (hr_output r)) ->
  step (rh_config (hr_host r)) (rh_node (hr_host r)) i = (n, f) -> f_persist f = None ->
  exists r' e, advance fuel r i installing os = Some (r', e) /\ advanced r r' i e.
Proof.
  intros [Hn Hidle Hh Hhold Hpins] Hi Ho E1 Hq. unfold advance. destruct r as [h output calls].
  cbn [hr_host hr_output hr_calls] in *. rewrite E1, advance_loop_rests by done. cbn [hr_host hr_output hr_calls].
  destruct (step_rests_live _ _ _ _ _ Hn Hidle Hh E1 Hq) as (Hp1 & Hd1 & Hh1).
  pose proof (core_ok_idle _ _ Hn Hidle) as Hc. pose proof (step_sends_votes _ _ _ _ _ Hc E1) as Hvotes.
  pose proof (step_ok _ _ _ _ _ Hn Hi E1) as Hn1.
  assert (pins_ok (rh_with_node n h)) as Hpins1 by (destruct Hpins; by split).
  destruct (collect _ f output) as [[h2 o2] e2] eqn:E2.
  destruct (collect_spec _ _ _ _ _ _ E2 Hpins1 Ho) as ([C1 C2 C3 C4] & P2 & O2 & S2).
  cbn [rh_config rh_node rh_adapter rh_snapshot_every rh_with_node] in C1, C2, C3, C4.
  eexists _, _. split; [done|].
  split; unfold run_durable; cbn [hr_host hr_output]; rewrite ?C1, ?C2, ?C4, ?Hd1; try done.
  intros ->. destruct (S2 eq_refl) as [_ Hs2]. rewrite Hd1 in Hvotes. split; [|split].
  - split; rewrite ?C1, ?C2, ?C3, ?Hd1; done.
  - by exists (f_send_now f).
  - exists n, f. by rewrite Hq.
Qed.

(** The completion of a write that the adapter confirmed, and the effects it
    releases. *)
Lemma complete_write config n p q n' f' :
  core_ok config n -> n_pending n = Some p -> n_halted n = false -> pw_token p = pq_token q ->
  step config n (PersistCompleted (pq_token q)) = (n', f') ->
  node_ok config n' /\ n_durable n' = pw_target p /\ n_pending n' = None /\ n_halted n' = false /\
  f_persist f' = None /\ Forall (vote_justified config (n_durable n')) (f_send_now f') /\
  durable_le (n_durable n) (n_durable n').
Proof.
  intros Hc Hp Hh Htok E. pose proof (co_node _ _ Hc) as Hn.
  pose proof (step_ok _ _ (PersistCompleted (pq_token q)) _ _ Hn I E) as Hn'.
  pose proof (step_durable_le _ _ _ _ _ Hn E) as Hle. pose proof (step_sends_votes _ _ _ _ _ Hc E) as Hvotes.
  rewrite <- Htok in E. destruct (stage_completes _ _ _ _ _ Hn Hp Hh E) as (Hd & Hp' & Hh').
  split_and!; try done. unfold step in E. rewrite (node_ok_not_invalid _ _ Hn) in E.
  destruct (persist_completed_effects _ _ _ _ _ _ Hp E) as [[-> _]|(_ & _ & _ & _ & _ & Hx & _)]; congruence.
Qed.

(** A step that stages a write. *)
Lemma advance_writes fuel r i installing os n f q :
  host_between (hr_host r) -> input_typed i -> Forall pin_ok (he_snapshots (hr_output r)) -> (0 < fuel)%nat ->
  step (rh_config (hr_host r)) (rh_node (hr_host r)) i = (n, f) -> f_persist f = Some q ->
  exists r' e, advance fuel r i installing os = Some (r', e) /\ advanced r r' i e.
Proof.
  intros [Hn Hidle Hh Hhold Hpins] Hi Ho Hfuel E1 Hq. unfold advance. destruct r as [h output calls].
  cbn [hr_host hr_output hr_calls] in *. rewrite E1. pose proof (core_ok_idle _ _ Hn Hidle) as Hc.
  pose proof (step_core_ok _ _ _ _ _ Hc Hi E1) as Hc1. pose proof (co_node _ _ Hc1) as Hn1.
  destruct (step_stages _ _ _ _ _ _ Hn Hidle E1 Hq) as (p & Hp & Htok & Htgt & Hsend & _ & Hh1 & Hd1).
  assert (pins_ok (rh_with_node n h)) as Hpins1 by (destruct Hpins; by split).
  destruct fuel as [|fuel]; [lia|]. cbn [advance_loop hr_host hr_output hr_calls].
  destruct (collect _ f output) as [[h2 o2] e2] eqn:E2.
  destruct (collect_spec _ _ _ _ _ _ E2 Hpins1 Ho) as ([C1 C2 C3 C4] & P2 & O2 & S2). rewrite Hq.
  cbn [rh_config rh_node rh_adapter rh_snapshot_every rh_with_node] in C1, C2, C3, C4.
  destruct e2 as [e|].
  { eexists _, _. split; [done|]. split; unfold run_durable; cbn [hr_host hr_output]; rewrite ?C1, ?C2, ?Hd1; done. }
  destruct (S2 eq_refl) as [_ Hs2]. rewrite Hsend, app_nil_r in Hs2.
  destruct (host_persist h2 q installing (os calls)) as [h3 e3] eqn:E3.
  destruct (host_persist_spec _ _ _ _ _ _ E3) as (D1 & D2 & D3 & D4 & D5 & D6). destruct e3 as [e|].
  { eexists _, _. split; [done|].
    split; unfold run_durable; cbn [hr_host hr_output]; rewrite ?D1, ?D2, ?D3, ?C1, ?C2, ?C4, ?Hd1; done. }
  specialize (D6 eq_refl). rewrite D1, C1, D2, C2.
  destruct (step (rh_config h) n (PersistCompleted (pq_token q))) as [n4 f4] eqn:E4.
  destruct (complete_write _ _ _ _ _ _ Hc1 Hp Hh1 Htok E4) as (Hn4 & Hd4 & Hp4 & Hh4 & Hf4 & Hvotes & Hle4).
  rewrite advance_loop_rests by done. cbn [hr_host hr_output hr_calls].
  destruct (collect (rh_with_node n4 h3) f4 o2) as [[h5 o5] e5] eqn:E5.
  assert (pins_ok (rh_with_node n4 h3)) as Hpins3 by (destruct P2; split; cbn; rewrite ?D4, ?D5; done).
  destruct (collect_spec _ _ _ _ _ _ E5 Hpins3 O2) as ([F1 F2 F3 F4] & P5 & O5 & S5).
  cbn [rh_config rh_node rh_adapter rh_snapshot_every rh_with_node] in F1, F2, F3, F4. rewrite Hd1 in Hle4.
  eexists _, _. split; [done|].
  split; unfold run_durable; cbn [hr_host hr_output]; rewrite ?F1, ?F2, ?F4, ?D1, ?D3, ?C1, ?C4; try done.
  intros ->. destruct (S5 eq_refl) as [_ Hs5]. split; [|split].
  - split; rewrite ?F1, ?F2, ?F3, ?D1, ?C1; try done. by rewrite Hd4, Htgt.
  - exists (f_send_now f4). by rewrite Hs5, Hs2.
  - exists n, f. by rewrite Hq, Hd4, Htgt.
Qed.

Lemma advance_spec fuel r i installing os :
  host_between (hr_host r) -> input_typed i -> Forall pin_ok (he_snapshots (hr_output r)) -> (0 < fuel)%nat ->
  exists r' e, advance fuel r i installing os = Some (r', e) /\ advanced r r' i e.
Proof.
  intros Hb Hi Ho Hf. destruct (step (rh_config (hr_host r)) (rh_node (hr_host r)) i) as [n f] eqn:E.
  destruct (f_persist f) as [q|] eqn:Hq; [by eapply advance_writes|by eapply advance_rests].
Qed.

(** ** The inputs the host gives itself *)

Lemma live_step config n i : node_ok config n -> n_pending n = None -> n_halted n = false ->
  idle_input i = true -> step config n i = step_idle config n i.
Proof.
  intros Hn Hp Hh Hi. unfold step. rewrite (node_ok_not_invalid _ _ Hn), Hp, Hh. by destruct i.
Qed.

Lemma begin_write_target n f target after aa sv sn kind n' f' q :
  begin_write n f target after aa sv sn kind = (n', f') -> f_persist f' = Some q -> pq_target q = target.
Proof. unfold begin_write. intros H Hq. by simplify_eq/=. Qed.

Lemma advance_commit_target config n n' f q :
  on_advance_commit config n = (n', f) -> f_persist f = Some q ->
  exists c, pq_target q = d_with_commit c (n_durable n).
Proof.
  unfold on_advance_commit. intros H Hq. repeat case_in H; simplify_eq; try done.
  eexists. by eapply begin_write_target.
Qed.

Lemma compact_target n n' f q :
  on_compact_committed n = (n', f) -> f_persist f = Some q ->
  exists i t l, pq_target q = d_with_snapshot i t l (n_durable n).
Proof.
  unfold on_compact_committed. intros H Hq. repeat case_in H; simplify_eq; try done.
  eexists _, _, _. by eapply begin_write_target.
Qed.

Lemma apply_target config n : node_ok config n -> d_applied (n_durable n) < d_commit (n_durable n) ->
  exists n' f q, on_apply_committed n = (n', f) /\ f_persist f = Some q /\
    pq_target q = d_with_applied (d_applied (n_durable n) + 1) (n_durable n).
Proof.
  intros Hn Hlt. pose proof (no_durable _ _ Hn) as Hd. unfold on_apply_committed.
  pose proof (ok_commit _ Hd). pose proof (ok_last _ Hd). pose proof (ok_snap_nn _ Hd). pose proof (log_size_nn (d_log (n_durable n))).
  assert (last_index (n_durable n) = d_snapshot_index (n_durable n) + log_size (d_log (n_durable n))) as ->.
  { unfold last_index. apply wrap64_small. unfold u64. lia. }
  destruct (Z.ltb_spec (d_applied (n_durable n)) (d_commit (n_durable n))); [|lia].
  destruct (Z.ltb_spec (d_applied (n_durable n)) (d_snapshot_index (n_durable n) + log_size (d_log (n_durable n)))); [|lia].
  cbn [andb]. eexists _, _, _. split; [done|]. split; [done|]. done.
Qed.

(** Several steps of a dispatch, with the term and the vote unchanged. *)
Record progressed (r r' : HostRun) (e : option Error) : Prop := {
  pg_config : rh_config (hr_host r') = rh_config (hr_host r);
  pg_every : rh_snapshot_every (hr_host r') = rh_snapshot_every (hr_host r);
  pg_node : node_ok (rh_config (hr_host r')) (rh_node (hr_host r'));
  pg_running : n_halted (rh_node (hr_host r')) = false;
  pg_le : durable_le (run_durable r) (run_durable r');
  pg_snapshots : Forall pin_ok (he_snapshots (hr_output r'));
  pg_live : e = None ->
    host_between (hr_host r') /\
    d_term (run_durable r') = d_term (run_durable r) /\
    d_voted_for (run_durable r') = d_voted_for (run_durable r) /\
    exists sends, he_send (hr_output r') = he_send (hr_output r) ++ sends /\
      Forall (vote_justified (rh_config (hr_host r)) (run_durable r')) sends;
}.

Lemma votes_kept config d d' sends : d_term d' = d_term d -> d_voted_for d' = d_voted_for d ->
  Forall (vote_justified config d) sends -> Forall (vote_justified config d') sends.
Proof.
  intros E1 E2 H. eapply list.Forall_impl; [exact H|]. intros o. unfold vote_justified.
  destruct (o_message o); try done. by rewrite E1, E2.
Qed.

Lemma progressed_refl r : host_between (hr_host r) -> Forall pin_ok (he_snapshots (hr_output r)) ->
  progressed r r None.
Proof.
  intros Hb Ho. split; try done; [apply Hb|apply Hb|]. intros _. split; [done|]. split; [done|]. split; [done|].
  exists []. by rewrite app_nil_r.
Qed.

Lemma progressed_trans r1 r2 r3 e : progressed r1 r2 None -> progressed r2 r3 e -> progressed r1 r3 e.
Proof.
  intros [A1 A2 A3 A7 A4 A5 A6] [B1 B2 B3 B7 B4 B5 B6]. split; try congruence; try done.
  - by etrans.
  - intros He. destruct (A6 eq_refl) as (_ & T1 & V1 & s1 & O1 & F1).
    destruct (B6 He) as (Hb & T2 & V2 & s2 & O2 & F2). split; [done|]. split; [congruence|]. split; [congruence|].
    exists (s1 ++ s2)%list. rewrite O2, O1, app_assoc. split; [done|]. apply list.Forall_app. split.
    + by eapply votes_kept.
    + by rewrite <- A1.
Qed.

Definition own_input (i : Input) : Prop := i = AdvanceCommit \/ i = ApplyCommitted \/ i = CompactCommitted.

(** What the host's own inputs may change. *)
Lemma own_target config n i n' f q : node_ok config n -> n_pending n = None -> n_halted n = false ->
  own_input i -> step config n i = (n', f) -> f_persist f = Some q ->
  d_term (pq_target q) = d_term (n_durable n) /\ d_voted_for (pq_target q) = d_voted_for (n_durable n) /\
  (i = ApplyCommitted -> pq_target q = d_with_applied (d_applied (n_durable n) + 1) (n_durable n)) /\
  (i = CompactCommitted -> d_commit (pq_target q) = d_commit (n_durable n) /\
                           d_applied (pq_target q) = d_applied (n_durable n)).
Proof.
  intros Hn Hp Hh Hi H Hq. rewrite live_step in H by (done || destruct Hi as [->|[->| ->]]; done).
  destruct Hi as [->|[->| ->]]; cbn [step_idle] in H.
  - destruct (advance_commit_target _ _ _ _ _ H Hq) as [c ->]. done.
  - unfold on_apply_committed in H. case_in H; [|by simplify_eq].
    by rewrite (begin_write_target _ _ _ _ _ _ _ _ _ _ _ H Hq).
  - destruct (compact_target _ _ _ _ H Hq) as (x & t & l & ->). done.
Qed.

Lemma own_input_typed i : own_input i -> input_typed i.
Proof. by intros [->|[->| ->]]. Qed.

Lemma own_advance fuel r i os : host_between (hr_host r) -> own_input i ->
  Forall pin_ok (he_snapshots (hr_output r)) -> (0 < fuel)%nat ->
  exists r' e, advance fuel r i None os = Some (r', e) /\ progressed r r' e /\
    (e = None -> i = CompactCommitted ->
       d_commit (run_durable r') = d_commit (run_durable r) /\ d_applied (run_durable r') = d_applied (run_durable r)) /\
    (e = None -> i = ApplyCommitted -> d_applied (run_durable r) < d_commit (run_durable r) ->
       run_durable r' = d_with_applied (d_applied (run_durable r) + 1) (run_durable r)).
Proof.
  intros Hb Hi Ho Hf. destruct (advance_spec fuel r i None os Hb (own_input_typed i Hi) Ho Hf) as (r' & e & E & A).
  exists r', e. split; [done|]. destruct A as [A1 A2 A3 A7 A4 A5 A6]. pose proof Hb as [Hn Hp Hh _ _].
  assert (e = None -> exists n f, step (rh_config (hr_host r)) (rh_node (hr_host r)) i = (n, f) /\
    run_durable r' = match f_persist f with Some q => pq_target q | None => run_durable r end) as Hd
    by (intros He; by destruct (A6 He) as (_ & _ & Hd)).
  split; [|split].
  - split; try done. intros He. destruct (A6 He) as (Hb' & Hs & n & f & Es & Ed). split; [done|].
    rewrite Ed in *. destruct (f_persist f) as [q|] eqn:Hq; [|done].
    destruct (own_target _ _ _ _ _ _ Hn Hp Hh Hi Es Hq) as (T1 & T2 & _). done.
  - intros He ->. destruct (Hd He) as (n & f & Es & ->). destruct (f_persist f) as [q|] eqn:Hq; [|done].
    destruct (own_target _ _ _ _ _ _ Hn Hp Hh Hi Es Hq) as (_ & _ & _ & T). by apply T.
  - intros He -> Hlt. destruct (Hd He) as (n & f & Es & ->).
    destruct (apply_target _ _ Hn Hlt) as (n2 & f2 & q & E2 & Hq & _).
    assert (f = f2) as -> by (rewrite (live_step _ _ _ Hn Hp Hh) in Es by done; cbn [step_idle] in Es; congruence).
    rewrite Hq. destruct (own_target _ _ _ _ _ _ Hn Hp Hh Hi Es Hq) as (_ & _ & T & _). by apply T.
Qed.

(** ** The loop of applications *)

Lemma apply_loop_spec os : forall fuel r, host_between (hr_host r) -> Forall pin_ok (he_snapshots (hr_output r)) ->
  d_commit (run_durable r) - d_applied (run_durable r) <= Z.of_nat fuel ->
  exists r' e, apply_loop fuel r os = Some (r', e) /\ progressed r r' e /\
    (e = None -> d_applied (run_durable r') = d_commit (run_durable r')).
Proof.
  induction fuel as [|fuel IH]; intros r Hb Ho Hk; cbn [apply_loop]; fold (run_durable r);
    pose proof (ok_applied _ (no_durable _ _ (hb_node _ Hb))) as Hle; fold (run_durable r) in Hle;
    destruct (Z.ltb_spec (d_applied (run_durable r)) (d_commit (run_durable r))) as [Hlt|Hge];
    try lia; try (exists r, None; split; [done|]; split; [by apply progressed_refl|]; intros; lia).
  destruct (own_advance (S fuel) r ApplyCommitted os Hb) as (r1 & e1 & E1 & P1 & _ & D1);
    [by right; left|done|lia|]. rewrite E1. destruct e1 as [e|]; cbn [and_then].
  { exists r1, (Some e). split; [done|]. by split. }
  specialize (D1 eq_refl eq_refl Hlt). destruct (pg_live _ _ _ P1 eq_refl) as (Hb1 & _).
  destruct (IH r1) as (r2 & e2 & E2 & P2 & D2); [done|apply P1|rewrite D1; cbn; lia|].
  exists r2, e2. split; [done|]. split; [by eapply progressed_trans|done].
Qed.

(** ** Dispatching *)

(** A host between two dispatches: a running one has everything applied and
    holds exactly what the adapter holds. *)
Record host_ok (h : RuntimeHost) : Prop := {
  ho_node : node_ok (rh_config h) (rh_node h);
  ho_idle : n_pending (rh_node h) = None;
  ho_live : n_halted (rh_node h) = false ->
    current_raft (rh_adapter h) = Ok (n_durable (rh_node h)) /\
    d_applied (n_durable (rh_node h)) = d_commit (n_durable (rh_node h));
  ho_pins : pins_ok h;
}.

Lemma drained d : d_applied d = d_commit d -> d_with_applied (d_commit d) d = d.
Proof. intros <-. by destruct d. Qed.

Lemma host_ok_between h : host_ok h -> n_halted (rh_node h) = false -> host_between h.
Proof.
  intros [H1 H2 H3 H4] Hh. destruct (H3 Hh) as [E A]. split; try done. unfold holds. by rewrite drained.
Qed.

Lemma halt_ok h : node_ok (rh_config h) (rh_node h) -> n_halted (rh_node h) = false ->
  host_ok (host_halt h) /\ rh_config (host_halt h) = rh_config h /\ n_halted (rh_node (host_halt h)) = true /\
  n_durable (rh_node (host_halt h)) = n_durable (rh_node h).
Proof.
  intros Hn Hh. unfold host_halt. set (n := match n_pending (rh_node h) with Some _ => _ | None => _ end).
  assert (n_durable n = n_durable (rh_node h) /\ n_pending n = None) as [Hd Hp].
  { unfold n. destruct (n_pending (rh_node h)) as [p|] eqn:Hp; [|done].
    destruct (step (rh_config h) (rh_node h) (PersistFailed (pw_token p))) as [n1 f1] eqn:E.
    apply (stage_fails _ _ _ _ _ Hn Hp Hh), fail_stop_effects in E. by destruct E as (E1 & E2 & _). }
  split; [|done]. split; cbn; try done.
  apply idle_node_ok; cbn; rewrite ?Hd; first [done|apply (no_durable _ _ Hn)|apply initial_peers_dom|set_solver].
Qed.

Lemma drop_pins_core h : same_core h (drop_pins h).
Proof. by split. Qed.

Lemma drop_pins_ok h : pins_ok h -> pins_ok (drop_pins h).
Proof.
  intros [H1 H2]. split; [|done]. intros k p Hp. apply map_lookup_filter_Some in Hp as [Hp _]. exact (H1 k p Hp).
Qed.

(** The steps of a dispatch after the input itself. *)
Lemma own_steps_spec fuel r os :
  host_between (hr_host r) -> Forall pin_ok (he_snapshots (hr_output r)) -> kMaximumEntries < Z.of_nat fuel ->
  exists r' e,
    and_then (advance fuel r AdvanceCommit None os) (fun r =>
    and_then (apply_loop fuel r os) (fun r =>
    if compact_due (hr_host r) then advance fuel r CompactCommitted None os else Some (r, None))) = Some (r', e) /\
    progressed r r' e /\ (e = None -> d_applied (run_durable r') = d_commit (run_durable r')).
Proof.
  intros Hb Ho Hf. assert (0 < fuel)%nat as Hf' by (unfold kMaximumEntries in Hf; lia).
  destruct (own_advance fuel r AdvanceCommit os Hb) as (r1 & e1 & -> & P1 & _); [by left|done|done|].
  destruct e1 as [e|]; cbn [and_then]; [by exists r1, (Some e)|].
  destruct (pg_live _ _ _ P1 eq_refl) as (Hb1 & _). pose proof (pg_snapshots _ _ _ P1) as Ho1.
  assert (d_commit (run_durable r1) - d_applied (run_durable r1) <= Z.of_nat fuel) as Hk.
  { destruct (no_durable _ _ (hb_node _ Hb1)) as [_ _ _ _ _ Ha Hc Hs _ _]. unfold run_durable. lia. }
  destruct (apply_loop_spec os fuel r1 Hb1 Ho1 Hk) as (r2 & e2 & -> & P2 & D2).
  pose proof (progressed_trans _ _ _ _ P1 P2) as P12.
  destruct e2 as [e|]; cbn [and_then]; [by exists r2, (Some e)|].
  destruct (pg_live _ _ _ P2 eq_refl) as (Hb2 & _). pose proof (pg_snapshots _ _ _ P2) as Ho2.
  destruct (compact_due (hr_host r2)); [|by exists r2, None].
  destruct (own_advance fuel r2 CompactCommitted os Hb2) as (r3 & e3 & -> & P3 & D3 & _); [by right; right|done|done|].
  exists r3, e3. split; [done|]. split; [by eapply progressed_trans|].
  intros He. destruct (D3 He eq_refl) as [-> ->]. by apply D2.
Qed.

(** What a dispatch guarantees. *)
Record dispatched (h h' : RuntimeHost) (r : result Error HostEffects) : Prop := {
  dp_ok : host_ok h';
  dp_config : rh_config h' = rh_config h;
  dp_le : durable_le (n_durable (rh_node h)) (n_durable (rh_node h'));
  dp_result :
    match r with
    | Ok out => n_halted (rh_node h') = false /\ Forall pin_ok (he_snapshots out) /\
                Forall (vote_justified (rh_config h) (n_durable (rh_node h'))) (he_send out)
    | Err _ => n_halted (rh_node h') = true
    end;
}.

Lemma dispatch_spec fuel h i installing os :
  host_ok h -> input_typed i -> kMaximumEntries < Z.of_nat fuel ->
  exists h' r, host_dispatch fuel h i installing os = Some (h', r) /\ dispatched h h' r.
Proof.
  intros Hok Hi Hf. unfold host_dispatch. destruct (n_halted (rh_node h)) eqn:Hh.
  { eexists _, _. split; [done|]. by split. }
  pose proof (host_ok_between h Hok Hh) as Hb. assert (0 < fuel)%nat as Hf' by (unfold kMaximumEntries in Hf; lia).
  destruct (advance_spec fuel (mkRun h no_host_effects 0) i installing os Hb Hi) as (r1 & e1 & -> & A);
    [constructor|done|]. destruct A as [A1 A2 A3 A7 A4 A5 A6]. unfold run_durable in A4. cbn [hr_host] in A1, A4.
  destruct e1 as [e|]; cbn [and_then].
  { eexists _, _. split; [done|]. destruct (halt_ok (hr_host r1) A3 A7) as (H1 & H2 & H3 & H4).
    split; [done|congruence|by rewrite H4|done]. }
  destruct (A6 eq_refl) as (Hb1 & (sends & Es & Fs) & _). cbn [hr_output he_send no_host_effects app] in Es.
  destruct (own_steps_spec fuel r1 os Hb1 A5 Hf) as (r2 & e2 & -> & [P1 P2 P3 P7 P4 P5 P6] & D).
  unfold run_durable in *. destruct e2 as [e|].
  - eexists _, _. split; [done|]. destruct (halt_ok (hr_host r2) P3 P7) as (H1 & H2 & H3 & H4).
    split; [done|congruence|rewrite H4; by etrans|done].
  - eexists _, _. split; [done|]. destruct (P6 eq_refl) as (Hb2 & T & V & s2 & E2 & F2). specialize (D eq_refl).
    destruct Hb2 as [B1 B2 B3 B4 B5]. unfold holds in B4. rewrite drained in B4 by done.
    split; cbn [drop_pins rh_node rh_config rh_adapter rh_with_pins]; [|congruence|by etrans|].
    + split; cbn [drop_pins rh_node rh_config rh_adapter rh_with_pins]; try done. by apply drop_pins_ok.
    + split; [done|]. split; [done|]. rewrite E2, Es. apply list.Forall_app. split.
      * by eapply votes_kept.
      * cbn [hr_host] in *. by rewrite <- A1.
Qed.

(** ** Fuel *)

Lemma advance_loop_mono os installing : forall fuel fuel' r f p, (fuel <= fuel')%nat ->
  advance_loop fuel r f installing os = Some p -> advance_loop fuel' r f installing os = Some p.
Proof.
  induction fuel as [|fuel IH]; intros [|fuel'] r f p Hle H; try lia; try done; cbn [advance_loop] in *.
  - destruct (collect _ _ _) as [[h o] [e|]]; [by destruct (f_persist f)|]. by destruct (f_persist f).
  - destruct (collect _ _ _) as [[h o] [e|]]; [by destruct (f_persist f)|].
    destruct (f_persist f) as [q|]; [|done]. destruct (host_persist _ _ _ _) as [h' [e|]]; [done|].
    destruct (step _ _ _) as [n f']. apply IH; [lia|done].
Qed.

Lemma advance_mono os installing fuel fuel' r i p : (fuel <= fuel')%nat ->
  advance fuel r i installing os = Some p -> advance fuel' r i installing os = Some p.
Proof. unfold advance. destruct (step _ _ _) as [n f]. apply advance_loop_mono. Qed.

(** A computation that gives the same answer whenever it gives one. *)
Lemma and_then_mono (a b : option (HostRun * option Error)) f g p :
  (forall x, a = Some x -> b = Some x) -> (forall r x, f r = Some x -> g r = Some x) ->
  and_then a f = Some p -> and_then b g = Some p.
Proof.
  intros Hab Hfg H. destruct a as [[r e]|]; [|done]. rewrite (Hab _ eq_refl). cbn [and_then] in *.
  destruct e; [done|]. by apply Hfg.
Qed.

Lemma apply_loop_mono os : forall fuel fuel' r p, (fuel <= fuel')%nat ->
  apply_loop fuel r os = Some p -> apply_loop fuel' r os = Some p.
Proof.
  induction fuel as [|fuel IH]; intros [|fuel'] r p Hle H; try lia; try done; cbn [apply_loop] in *;
    destruct (d_applied _ <? d_commit _); try done.
  revert H. apply and_then_mono; [intros x; apply advance_mono; lia|]. intros r' x. apply IH. lia.
Qed.

Lemma dispatch_mono fuel fuel' h i installing os p : (fuel <= fuel')%nat ->
  host_dispatch fuel h i installing os = Some p -> host_dispatch fuel' h i installing os = Some p.
Proof.
  intros Hle. unfold host_dispatch. destruct (n_halted _); [done|].
  destruct (and_then _ _) as [x|] eqn:E; [|done]. intros H.
  match goal with |- match ?t with _ => _ end = _ => assert (t = Some x) as -> end; [|done].
  revert E. apply and_then_mono; [intros y; by apply advance_mono|]. intros r y.
  apply and_then_mono; [intros z; by apply advance_mono|]. intros r' z.
  apply and_then_mono; [intros w; by apply apply_loop_mono|]. intros r'' w.
  destruct (compact_due _); [by apply advance_mono|done].
Qed.

(** ** Opening, and runs of a host *)

Lemma recovered_applied store probed meta_read p :
  audit_recovered_domain_store store probed meta_read = Ok p -> pj_applied p = pj_commit p.
Proof.
  unfold audit_recovered_domain_store. intros H. repeat case_in H; simplify_eq.
  rename select (replay_recovered_domain _ = Ok _) into R. unfold replay_recovered_domain in R.
  repeat case_in R; simplify_eq. unfold projection_replay in R. case_in R; [done|].
  rename select (_ || _ = false) into O. repeat rewrite orb_false_iff in O.
  destruct O as ((((_ & O) & _) & _) & _). rewrite negb_false_iff, Z.eqb_eq in O. done.
Qed.

Lemma adapter_open_applied directory test_mode os a d :
  adapter_open directory test_mode os = (a, Ok tt) -> current_raft a = Ok d -> d_applied d = d_commit d.
Proof.
  unfold adapter_open, recover. intros H Hd.
  destruct (store_open _ _ _) as [disk [store|]]; [|done].
  destruct (audit_recovered_domain_store _ _ _) as [p|] eqn:E; [|done].
  apply recovered_applied in E. injection H as <-. unfold current_raft in Hd. cbn in Hd. injection Hd as <-. done.
Qed.

Lemma host_open_inv config named directory every test_mode lease os d h :
  host_open config named directory every test_mode lease os = (d, Ok h) ->
  exists a durable, adapter_open directory test_mode os = (a, Ok tt) /\ current_raft a = Ok durable /\
    valid_durable durable = true /\ d = adapter_disk a /\
    h = mkHost config a (n_with_durable durable (initial config)) every ∅ None.
Proof.
  unfold host_open. intros H. repeat (case_in H; [done|]). destruct lease; [done|].
  destruct (adapter_open directory test_mode os) as [a [[]|]] eqn:Ea; [|done].
  destruct (current_raft a) as [durable|] eqn:Ed; [|done].
  destruct (step config _ Restart) as [n f] eqn:Es. destruct (f_halt f) eqn:Ef; [done|]. injection H as <- <-.
  exists a, durable. split; [done|]. split; [done|]. unfold step in Es. case_in Es.
  { apply fail_stop_effects in Es. destruct Es as (_ & _ & _ & _ & Hx & _). congruence. }
  rename select (state_invalid _ = false) into Hv. unfold on_restart in Es. cbn in Es. injection Es as <- <-.
  unfold state_invalid in Hv. cbn in Hv. rewrite orb_false_r, negb_false_iff in Hv. done.
Qed.

Lemma host_open_ok config named directory every test_mode lease os d h :
  host_open config named directory every test_mode lease os = (d, Ok h) -> durable_typed (n_durable (rh_node h)) ->
  host_ok h /\ n_halted (rh_node h) = false /\ rh_config h = config.
Proof.
  intros (a & durable & Ea & Ed & Hv & _ & ->)%host_open_inv Ht. cbn [rh_node rh_config n_durable n_with_durable] in *.
  split; [|done]. pose proof (valid_durable_ok durable Ht Hv). split; cbn [rh_node rh_config rh_adapter]; try done.
  - by apply recovered_ok.
  - intros _. split; [done|]. by eapply adapter_open_applied.
Qed.

(** An input, the snapshot that comes with it, and the outcomes of the system
    calls of its dispatch. *)
Definition HostTurn : Type := Input * option Snapshot * (nat -> AdapterOs).

Fixpoint host_run (fuel : nat) (h : RuntimeHost) (turns : list HostTurn) : option RuntimeHost :=
  match turns with
  | [] => Some h
  | (input, installing, os) :: rest =>
      match host_dispatch fuel h input installing os with
      | Some (h, _) => host_run fuel h rest
      | None => None
      end
  end.

Definition turn_ok (t : HostTurn) : Prop := input_typed (fst (fst t)).

Lemma run_spec fuel turns : forall h, kMaximumEntries < Z.of_nat fuel -> host_ok h -> Forall turn_ok turns ->
  exists h', host_run fuel h turns = Some h' /\ host_ok h' /\ rh_config h' = rh_config h /\
    durable_le (n_durable (rh_node h)) (n_durable (rh_node h')).
Proof.
  induction turns as [|[[i s] os] turns IH]; intros h Hf Hok Hall; [by exists h|].
  apply list.Forall_cons in Hall as [Hi Hall]. cbn [host_run].
  destruct (dispatch_spec fuel h i s os Hok Hi Hf) as (h1 & r & -> & D). destruct D as [D1 D2 D3 _].
  destruct (IH h1 Hf D1 Hall) as (h2 & E2 & O2 & C2 & L2). exists h2. split; [done|]. split; [done|].
  split; [congruence|by etrans].
Qed.

Section Opened.
Context (config : Config) (named : bool) (directory : Directory) (every : Z) (test_mode : bool).
Context (lease : option Error) (opening : AdapterOs) (disk : Directory) (h0 : RuntimeHost).
Hypothesis Hopen : host_open config named directory every test_mode lease opening = (disk, Ok h0).
Hypothesis Htyped : durable_typed (n_durable (rh_node h0)).

(** C8: A dispatch returns. From any opened host, after any inputs and
    whatever the system calls do, the write loop and the application loop of
    [dispatch] end: with more fuel than a log has entries the result is there,
    and it is the same for every such amount. *)
Theorem dispatch_returns turns i installing os :
  Forall turn_ok turns -> input_typed i ->
  exists h h' r, forall fuel, kMaximumEntries < Z.of_nat fuel ->
    host_run fuel h0 turns = Some h /\ host_dispatch fuel h i installing os = Some (h', r).
Proof.
  intros Hall Hi. destruct (host_open_ok _ _ _ _ _ _ _ _ _ Hopen Htyped) as (Hok & _).
  set (least := S (Z.to_nat kMaximumEntries)). assert (kMaximumEntries < Z.of_nat least) as Hl by (unfold least; clear; lia).
  destruct (run_spec least turns h0 Hl Hok Hall) as (h & Er & Hh & _).
  destruct (dispatch_spec least h i installing os Hh Hi Hl) as (h' & r & Ed & _).
  exists h, h', r. intros fuel Hf. assert (0 <= kMaximumEntries) by done. assert (least <= fuel)%nat as Hle by (unfold least; lia).
  split; [|by apply (dispatch_mono least)].
  clear Ed Hh Hopen Htyped. revert h0 Er Hok. induction turns as [|[[j s] o] turns IH]; intros h1 Er Hok; [done|].
  apply list.Forall_cons in Hall as [Hj Hall]. cbn [host_run] in *.
  destruct (dispatch_spec least h1 j s o Hok Hj Hl) as (h2 & r2 & E2 & D2). rewrite E2 in Er.
  rewrite (dispatch_mono least fuel _ _ _ _ _ Hle E2). apply (IH Hall h2); [done|apply D2].
Qed.

(** C7: Effects are released only when the store holds them. After any inputs
    and failures, a dispatch either returns effects, with the node running, all
    committed entries applied, the adapter's current state equal to the node's
    durable state, every granted vote in it, and every snapshot to send the one
    asked for, complete and at most 64 MiB; or it returns an error with the node
    halted for good. No write stays in flight, and the durable state never
    regresses. *)
Theorem released_effects_are_stored fuel turns h i installing os h' r :
  Forall turn_ok turns -> input_typed i -> kMaximumEntries < Z.of_nat fuel ->
  host_run fuel h0 turns = Some h -> host_dispatch fuel h i installing os = Some (h', r) ->
  n_pending (rh_node h') = None /\
  durable_le (n_durable (rh_node h0)) (n_durable (rh_node h)) /\
  durable_le (n_durable (rh_node h)) (n_durable (rh_node h')) /\
  match r with
  | Ok out =>
      n_halted (rh_node h') = false /\
      current_raft (rh_adapter h') = Ok (n_durable (rh_node h')) /\
      d_applied (n_durable (rh_node h')) = d_commit (n_durable (rh_node h')) /\
      (forall to v, mkOutbound to (MVoteReply v) ∈ he_send out -> vr_granted v = true ->
         vr_term v = d_term (n_durable (rh_node h')) /\ d_voted_for (n_durable (rh_node h')) = Some to) /\
      (forall p, p ∈ he_snapshots out ->
         sp_index (ps_snapshot p) = sn_index (ps_request p) /\ is_legacy_format (ps_snapshot p) = false /\
         Z.of_nat (String.length (sp_payload (ps_snapshot p))) <= kMaxPinnedBytes)
  | Err _ =>
      n_halted (rh_node h') = true /\
      forall j s o, exists e, host_dispatch fuel h' j s o = Some (h', Err e)
  end.
Proof.
  intros Hall Hi Hf Er Ed. destruct (host_open_ok _ _ _ _ _ _ _ _ _ Hopen Htyped) as (Hok & _).
  destruct (run_spec fuel turns h0 Hf Hok Hall) as (h1 & E1 & Hh & _ & Hle). assert (h1 = h) as -> by congruence.
  destruct (dispatch_spec fuel h i installing os Hh Hi Hf) as (h2 & r2 & E2 & [[D1 D2 D3 D4] D5 D6 D7]).
  assert (h2 = h' /\ r2 = r) as [-> ->] by (split; congruence).
  split; [done|]. split; [done|]. split; [done|]. destruct r as [out|e].
  - destruct D7 as (F1 & F2 & F3). destruct (D3 F1) as [F4 F5]. split; [done|]. split; [done|]. split; [done|]. split.
    + intros to v Hin Hg. apply (proj1 (list.Forall_forall _ _) F3) in Hin as (_ & ? & Hin). by destruct (Hin Hg).
    + intros p Hin. apply (proj1 (list.Forall_forall _ _) F2) in Hin as (? & ? & ?). done.
  - split; [done|]. intros j s o. unfold host_dispatch. rewrite D7. by eexists.
Qed.
End Opened.

(** ** A host on a new directory *)

Definition calm_os : AdapterOs :=
  mkAdapterOs calm calm (fun _ => calm) calm calm calm calm
    (mkInstallOs None None Replaced undisturbed Accessed None)
    (mkOpenOs None None None undisturbed Accessed None (fun _ => false) None None Replaced None Replaced) false None.

Definition host_config : Config := mkConfig "node-1" ["node-2"; "node-3"].

Definition host_directory : Directory := mkDirectory None ∅ None None.

Definition new_host : Directory * result Error RuntimeHost :=
  host_open host_config true host_directory 100 true None calm_os.

(** A vote for node-2, then an election of its own. *)
Definition vote_for_two : Input := RecvRequestVote (mkRequestVote 2 "node-2" 0 0 7).

Definition host_turns : list HostTurn := [(ElectionTimeout, None, fun _ => calm_os)].

Lemma enough_fuel : exists fuel, (3 <= fuel)%nat /\ kMaximumEntries < Z.of_nat fuel.
Proof. exists (Z.to_nat (kMaximumEntries + 1)). unfold kMaximumEntries. lia. Qed.

Lemma host_turns_ok : Forall turn_ok host_turns.
Proof. by repeat constructor. Qed.

Lemma dispatch_returns_witness :
  exists disk h0, new_host = (disk, Ok h0) /\
  exists h h' r, forall fuel, kMaximumEntries < Z.of_nat fuel ->
    host_run fuel h0 host_turns = Some h /\ host_dispatch fuel h vote_for_two None (fun _ => calm_os) = Some (h', r).
Proof.
  destruct new_host as [disk [h0|e]] eqn:E; [|exfalso; revert E; vm_compute; discriminate]. exists disk, h0. split; [reflexivity|].
  assert (match snd new_host with Ok h => n_durable (rh_node h) | Err _ => empty_durable end = mkDurable 1 None [] 0 0 0 0) as Hd
    by (vm_compute; reflexivity). rewrite E in Hd; cbn [snd] in Hd.
  apply (dispatch_returns host_config true host_directory 100 true None calm_os disk h0 E).
  - rewrite Hd. repeat split; vm_compute; congruence.
  - exact host_turns_ok.
  - repeat split; vm_compute; congruence.
Defined.

Lemma released_effects_are_stored_witness :
  exists fuel disk h0 h' out, new_host = (disk, Ok h0) /\
    host_dispatch fuel h0 vote_for_two None (fun _ => calm_os) = Some (h', Ok out) /\
    he_send out = [mkOutbound "node-2" (MVoteReply (mkVoteReply 2 "node-1" true 7))] /\
    current_raft (rh_adapter h') = Ok (n_durable (rh_node h')) /\ d_voted_for (n_durable (rh_node h')) = Some "node-2"%string.
Proof.
  destruct new_host as [disk [h0|e]] eqn:E; [|exfalso; revert E; vm_compute; discriminate].
  assert (match snd new_host with Ok h => n_durable (rh_node h) | Err _ => empty_durable end = mkDurable 1 None [] 0 0 0 0) as Hd
    by (vm_compute; reflexivity). rewrite E in Hd; cbn [snd] in Hd.
  assert (match snd new_host with
          | Ok h => match host_dispatch 3 h vote_for_two None (fun _ => calm_os) with
                    | Some (_, Ok out) => Some (he_send out) | _ => None end
          | Err _ => None end = Some [mkOutbound "node-2" (MVoteReply (mkVoteReply 2 "node-1" true 7))]) as Hsend
    by (vm_compute; reflexivity). rewrite E in Hsend; cbn [snd] in Hsend.
  destruct (host_dispatch 3 h0 vote_for_two None (fun _ => calm_os)) as [[h' [out|]]|] eqn:Er; [|discriminate Hsend|discriminate Hsend].
  injection Hsend as Hsend. destruct enough_fuel as (fuel & Hle & Hfuel).
  apply (dispatch_mono 3 fuel _ _ _ _ _ Hle) in Er. exists fuel, disk, h0, h', out.
  destruct (released_effects_are_stored host_config true host_directory 100 true None calm_os disk h0 E
    ltac:(rewrite Hd; repeat split; vm_compute; congruence) fuel [] h0 vote_for_two None (fun _ => calm_os) h' (Ok out))
    as (_ & _ & _ & _ & Hcur & _ & Hvote & _).
  - constructor.
  - repeat split; vm_compute; congruence.
  - exact Hfuel.
  - reflexivity.
  - exact Er.
  - split; [reflexivity|]. split; [exact Er|]. split; [exact Hsend|]. split; [exact Hcur|].
    apply (Hvote "node-2"%string (mkVoteReply 2 "node-1" true 7)); [rewrite Hsend; constructor|reflexivity].
Defined.
