(* ===== verification/HostDisk.v ===== *)
(** * The host and its directory

    The composition of the core, the host, the adapter and the store: whatever
    inputs a host is given and whatever system calls fail, what its directory
    holds gives back the durable state the node runs with. *)

From S2P Require Import Prelude EntryLog EntryLogRefine Transition TransitionInv TransitionSteps TransitionProps TransitionThms TransitionVotes Text Stream Types Model EventCodec EventCodecThms Machine MachineInv MachineThms EngineThms CommitThms SnapshotText SnapshotTextThms SnapshotThms StoreState Bytes Wal WalThms Metadata Transaction SnapshotFile SnapshotFileThms StoreDisk FileEngine StoreOps StoreOpen StoreRun DomainBridge AdapterBridge FileEngineAdapter AdapterThms AdapterReopen RuntimeHost RuntimeHostThms.

(** ** Where the entries of a staged log come from *)

Definition input_entries (d : Durable) (i : Input) : list Entry :=
  match i with
  | RecvAppend m => ae_entries m
  | ClientPropose command => [mkEntry (d_term d) command]
  | _ => []
  end.

Section Entries.
Context (P : Entry -> Prop) (Hzero : P zero_entry).

Lemma resize_all l k : Forall P l -> Forall P (log_resize l k).
Proof. intros Hl. unfold log_resize. apply Forall_resize; [done|exact Hl]. Qed.

Lemma merge_entries_all es : forall t index hint t' b hint', Forall P (d_log t) -> Forall P es ->
  merge_entries t index es hint = (t', b, hint') -> Forall P (d_log t').
Proof.
  induction es as [|e es IH]; intros t index hint t' b hint' Ht Hes H; cbn [merge_entries] in H; [by simplify_eq|].
  apply list.Forall_cons in Hes as [He Hes]. case_in H; [by simplify_eq|]. eapply IH; [|exact Hes|exact H].
  repeat case_goal; cbn; repeat apply Forall_app_2; try done; try (by apply resize_all); by constructor.
Qed.

Lemma append_target config n m n' f q :
  Forall P (d_log (n_durable n)) -> Forall P (ae_entries m) -> on_append config n m = (n', f) ->
  f_persist f = Some q -> Forall P (d_log (pq_target q)).
Proof.
  intros Hl He H Hq. unfold on_append in H. do 4 (case_in H; [by simplify_eq|]).
  set (t := if d_term (n_durable n) <? ae_term m then _ else _) in H.
  assert (d_log t = d_log (n_durable n)) as Ht by (unfold t; by case_goal).
  with_step_down H. case_in H.
  { case_in H; [simplify_eq/=; congruence|].
    rewrite (begin_write_target _ _ _ _ _ _ _ _ _ _ _ H Hq). cbn. by rewrite Ht. }
  match type of H with (let '_ := ?e in _) = _ => destruct e as [[T b] hint] eqn:E end.
  assert (Forall P (d_log T)) as HT.
  { case_in E; [|simplify_eq; by rewrite Ht]. destruct (merge_entries _ _ _ _) as [[T1 b1] h1] eqn:Em.
    apply merge_entries_all in Em; [|by rewrite Ht|done]. case_in E; by simplify_eq. }
  cbv zeta in H. case_in H; [simplify_eq/=; congruence|].
  rewrite (begin_write_target _ _ _ _ _ _ _ _ _ _ _ H Hq). by destruct b.
Qed.

(** Close a branch that stages nothing, or stages a target whose log is known. *)
Ltac staged_leaf H Hq :=
  first
  [ by simplify_eq
  | simplify_eq/=; congruence
  | rewrite (begin_write_target _ _ _ _ _ _ _ _ _ _ _ H Hq); cbn; by auto using Forall_drop ].

Lemma snapshot_target config n m n' f q :
  Forall P (d_log (n_durable n)) -> on_snapshot config n m = (n', f) -> f_persist f = Some q ->
  Forall P (d_log (pq_target q)).
Proof.
  intros Hl H Hq. unfold on_snapshot in H. do 3 (case_in H; [by simplify_eq|]).
  set (t := if d_term (n_durable n) <? sr_term m then _ else _) in H.
  assert (Forall P (d_log t)) as Ht by (unfold t; by case_goal).
  with_step_down H. case_in H; [case_in H; staged_leaf H Hq|]. cbv zeta in H.
  case_in H; [simplify_eq/=; congruence|]. rewrite (begin_write_target _ _ _ _ _ _ _ _ _ _ _ H Hq).
  case_goal; [|done]. cbn. case_goal; [by apply Forall_drop|constructor].
Qed.

Lemma idle_target config n i n' f q :
  Forall P (d_log (n_durable n)) -> Forall P (input_entries (n_durable n) i) ->
  step_idle config n i = (n', f) -> f_persist f = Some q -> Forall P (d_log (pq_target q)).
Proof.
  intros Hl Hi H Hq. destruct i; cbn [step_idle input_entries] in *; try (by simplify_eq).
  - unfold on_election_timeout in H. case_in H; [|by simplify_eq]. with_step_down H.
    destruct (vote_requests _ _ _ _). staged_leaf H Hq.
  - unfold on_heartbeat in H. case_in H; [|by simplify_eq]. destruct (foldl _ _ _) as [[? ?] ?]. by simplify_eq.
  - unfold on_client_propose in H. case_in H; [by simplify_eq|]. case_in H; [|by simplify_eq].
    destruct (send_append_all _ _ _ _ _) as [[? ?] ?].
    rewrite (begin_write_target _ _ _ _ _ _ _ _ _ _ _ H Hq). by apply Forall_app_2.
  - unfold on_request_vote in H. do 2 (case_in H; [by simplify_eq|]).
    destruct (d_term (n_durable n) <? rv_term message); [with_step_down H|]; cbv zeta in H;
      (case_in H; [simplify_eq/=; congruence|]);
      rewrite (begin_write_target _ _ _ _ _ _ _ _ _ _ _ H Hq); by case_goal.
  - unfold on_vote_reply, observe_higher_term in H. case_in H; [by simplify_eq|].
    case_in H; [with_step_down H; staged_leaf H Hq|]. case_in H; [|by simplify_eq]. case_in H; [|by simplify_eq].
    apply become_leader_effects in H as (_ & _ & _ & H & _). cbn in H. congruence.
  - by eapply append_target.
  - unfold on_append_reply, observe_higher_term in H. case_in H; [by simplify_eq|].
    case_in H.
    { with_step_down H. destruct (begin_write _ _ _ _ _ _ _ _) as [n2 f2] eqn:E.
      apply complete_read_effects in H as (H & _). rewrite H in Hq. staged_leaf E Hq. }
    repeat case_in H; try (by simplify_eq); apply complete_read_effects in H as (H & _); cbn in H; congruence.
  - unfold on_advance_commit in H. repeat case_in H; staged_leaf H Hq.
  - unfold on_apply_committed in H. case_in H; staged_leaf H Hq.
  - unfold on_compact_committed in H. repeat case_in H; staged_leaf H Hq.
  - by eapply snapshot_target.
  - unfold on_snapshot_reply, observe_higher_term in H. case_in H; [by simplify_eq|].
    case_in H; [with_step_down H; staged_leaf H Hq|]. repeat case_in H; by simplify_eq.
Qed.

Lemma staged_entries config n i n' f q :
  TransitionInv.node_ok config n -> n_pending n = None -> step config n i = (n', f) -> f_persist f = Some q ->
  Forall P (d_log (n_durable n)) -> Forall P (input_entries (n_durable n) i) -> Forall P (d_log (pq_target q)).
Proof.
  intros Hn Hp H Hq Hl Hi. destruct (step_summary _ _ _ _ _ Hn H)
    as [(token & p & -> & Hp' & _)|[(token & p & -> & Hp' & _)|(_ & _ & _ & Hcase)]]; [congruence|congruence|].
  destruct Hcase as [(context & -> & Hr)|[(Hf & _)|(_ & _ & _ & Hs)]].
  - apply begin_read_effects in Hr as (_ & _ & _ & Hf & _). congruence.
  - congruence.
  - by eapply idle_target.
Qed.
End Entries.

(** ** The adapter call of one step *)

Lemma collect_snapshots_core needed : forall h o h' o' e, collect_snapshots h needed o = (h', o', e) ->
  rh_adapter h' = rh_adapter h /\ rh_node h' = rh_node h /\ rh_config h' = rh_config h.
Proof.
  induction needed as [|x l IH]; intros h o h' o' e H; cbn [collect_snapshots] in H; [by simplify_eq|].
  destruct (pin h x) as [[h1 p]|] eqn:E; [|by simplify_eq]. apply IH in H as (-> & -> & ->).
  unfold pin in E. repeat case_in E; by simplify_eq.
Qed.

Lemma collect_core h f o h' o' e : collect h f o = (h', o', e) ->
  rh_adapter h' = rh_adapter h /\ rh_node h' = rh_node h /\ rh_config h' = rh_config h.
Proof. unfold collect. destruct (f_halt f); [by intros; simplify_eq|apply collect_snapshots_core]. Qed.

(** What one step does to the adapter: nothing, or the write of what it staged. *)
Lemma advance_adapter fuel r i installing os r' e :
  host_between (hr_host r) -> input_typed i -> advance fuel r i installing os = Some (r', e) ->
  (run_durable r' = run_durable r \/ holds (rh_adapter (hr_host r')) (run_durable r')) /\
  (rh_adapter (hr_host r') = rh_adapter (hr_host r) \/
  exists n f q h w, step (rh_config (hr_host r)) (rh_node (hr_host r)) i = (n, f) /\ f_persist f = Some q /\
    rh_adapter h = rh_adapter (hr_host r) /\ n_durable (rh_node h) = run_durable r /\
    durable_ok (pq_target q) /\
    host_write h q installing (os (hr_calls r)) = (rh_adapter (hr_host r'), w) /\ (e = None -> w = None) /\
    (w = None \/ run_durable r' = run_durable r)).
Proof.
  intros [Hn Hidle Hh _ _] Hi H. unfold advance in H. destruct r as [h output calls].
  cbn [hr_host hr_output hr_calls] in *. destruct (step (rh_config h) (rh_node h) i) as [n f] eqn:E1.
  destruct (f_persist f) as [q|] eqn:Hq.
  2: { rewrite advance_loop_rests in H by done. cbn [hr_host hr_output hr_calls] in H.
       destruct (collect _ _ _) as [[h2 o2] e2] eqn:E2. apply collect_core in E2 as (E2 & N2 & _). injection H as <- <-.
       split; [|by left]. left. unfold run_durable. cbn [hr_host]. rewrite N2. cbn [rh_node rh_with_node].
       by destruct (step_rests_live _ _ _ _ _ Hn Hidle Hh E1 Hq) as (_ & -> & _). }
  pose proof (core_ok_idle _ _ Hn Hidle) as Hc. pose proof (step_core_ok _ _ _ _ _ Hc Hi E1) as Hc1.
  destruct (step_stages _ _ _ _ _ _ Hn Hidle E1 Hq) as (p & Hp & Htok & Htgt & _ & _ & Hh1 & Hd1).
  destruct fuel as [|fuel]; cbn [advance_loop hr_host hr_output hr_calls] in H;
    destruct (collect _ f output) as [[h2 o2] e2] eqn:E2; apply collect_core in E2 as (A2 & N2 & C2); rewrite Hq in H;
    (destruct e2 as [err|];
      [injection H as <- <-; split; [left; unfold run_durable; cbn [hr_host]; rewrite N2; exact Hd1|by left]|]); [done|].
  destruct (host_persist h2 q installing (os calls)) as [h3 e3] eqn:E3.
  unfold host_persist in E3. destruct (host_write h2 q installing (os calls)) as [a w] eqn:Ew.
  enough ((run_durable r' = n_durable (rh_node h) \/ holds (rh_adapter (hr_host r')) (run_durable r')) /\
    rh_adapter (hr_host r') = a /\ (e = None -> w = None) /\ (w = None \/ run_durable r' = n_durable (rh_node h))) as (B1 & B2 & B3 & B4).
  { split; [done|]. right. exists n, f, q, h2, w. split; [done|]. split; [done|]. split; [done|].
    split; [unfold run_durable; cbn [hr_host]; rewrite N2; exact Hd1|]. split; [|by rewrite B2].
    pose proof (no_staged _ _ (co_node _ _ Hc1)) as S. unfold staged in S. by rewrite Hp, Htgt in S. }
  assert (rh_adapter h3 = a /\ rh_node h3 = rh_node h2 /\ rh_config h3 = rh_config h2 /\ (e3 = None -> w = None /\ holds a (pq_target q)))
    as (A3 & N3 & C3 & W3).
  { pose proof (host_persist_spec h2 q installing (os calls) h3 e3) as S. unfold host_persist in S. rewrite Ew in S.
    specialize (S E3). destruct S as (SC & SN & _ & _ & _ & SH). destruct w; simplify_eq/=; [done|].
    split; [done|]. split; [done|]. split; [done|]. intros X. split; [done|]. exact (SH X). }
  destruct e3 as [err|].
  { injection H as <- <-. assert (n_durable (rh_node h3) = n_durable (rh_node h)) as Hsame by (rewrite N3, N2; exact Hd1).
    split; [by left|]. split; [done|]. split; [done|by right]. }
  destruct (W3 eq_refl) as [-> Hhold].
  destruct (step (rh_config h3) (rh_node h3) _) as [n4 f4] eqn:E4. rewrite N3, N2, C3, C2 in E4. cbn [rh_node rh_config rh_with_node] in E4.
  assert (f_persist f4 = None /\ n_durable n4 = pq_target q) as [Hf4 Hd4].
  { rewrite <- Htok, <- Htgt in *. destruct (stage_completes _ _ _ _ _ (co_node _ _ Hc1) Hp Hh1 E4) as (X & _). split; [|done].
    unfold step in E4. rewrite (node_ok_not_invalid _ _ (co_node _ _ Hc1)) in E4.
    destruct (persist_completed_effects _ _ _ _ _ _ Hp E4) as [[_ ->]|(_ & _ & _ & _ & _ & Hx & _)]; done. }
  rewrite advance_loop_rests in H by done. cbn [hr_host hr_output hr_calls] in H.
  destruct (collect _ f4 o2) as [[h5 o5] e5] eqn:E5. apply collect_core in E5 as (A5 & N5 & _). injection H as <- <-. cbn [hr_host] in *.
  cbn [rh_adapter rh_with_node rh_node] in A5, N5. split; [right|split; [by rewrite A5, A3|by split; [|left]]].
  unfold run_durable. cbn [hr_host]. rewrite A5, N5, Hd4, A3. exact Hhold.
Qed.

(** ** Writing what the core stages *)

(** An entry that, if it is a record at all, is one a store accepts. *)
Definition domain_entry (x : Entry) : Prop :=
  forall index e, decode_domain_entry x index = Ok e -> entry_ok e /\ ev_index e < kIndexes.

Definition entries_domain (i : Input) : Prop :=
  match i with
  | RecvAppend m => Forall domain_entry (ae_entries m)
  | ClientPropose command => forall term, domain_entry (mkEntry term command)
  | _ => True
  end.

Lemma zero_domain : domain_entry zero_entry.
Proof. intros index e H. unfold decode_domain_entry in H. cbn in H. by rewrite orb_true_r in H. Qed.

Lemma input_domain d i : entries_domain i -> Forall domain_entry (input_entries d i).
Proof. destruct i; cbn; intros H; try constructor; done. Qed.

Lemma stored_domain com a d : adapter_ok com a -> current_raft a = Ok d -> Forall domain_entry (d_log d).
Proof.
  intros (Hu & v & store & Es & M) Hd. unfold current_raft, uncertain in Hd. rewrite Hu, Es in Hd.
  cbn [is_some negb orb] in Hd. injection Hd as <-. cbn [d_log]. rewrite (mi_suffix _ _ _ _ M).
  pose proof (do_log _ _ _ (rn_disk _ _ _ (mi_running _ _ _ _ M))) as L. apply list.Forall_forall. intros x Hx.
  apply list_elem_of_fmap in Hx as (e & -> & He). apply subseteq_drop in He.
  pose proof (proj1 (list.Forall_forall _ _) (lo_entries _ L) e He) as Hok. intros index y Hy.
  rewrite (decode_unique e index y Hok Hy). split; [done|]. apply list_elem_of_lookup in He as [j Hj].
  rewrite (lo_numbered _ L j e Hj). pose proof (lo_small _ L) as Hs. apply lookup_lt_Some in Hj. unfold count in Hs. lia.
Qed.

(** The history under an adapter, in use or not. *)
Definition kept (com : list Event) (a : FileEngineAdapter) : Prop :=
  exists com' v, com `prefix_of` com' /\ disk_ok com' v (adapter_disk a).

Lemma adapter_kept com a : adapter_ok com a -> kept com a.
Proof.
  intros (_ & v & store & Es & M). exists com, v. split; [done|]. unfold adapter_disk. rewrite Es.
  apply (rn_disk _ _ _ (mi_running _ _ _ _ M)).
Qed.

Lemma kept_prefix com com' a : com `prefix_of` com' -> kept com' a -> kept com a.
Proof. intros H (c & v & P & D). exists c, v. split; [by etrans|done]. Qed.

Definition written (com : list Event) (a : FileEngineAdapter) (w : option Error) : Prop :=
  match w with
  | None => exists com', com `prefix_of` com' /\ adapter_ok com' a
  | Some _ => kept com a
  end.

Lemma target_delta_ok d t : durable_ok t -> Forall domain_entry (d_log t) -> delta_ok (target_delta d t).
Proof.
  intros Ht Hl. split; [apply (ok_term _ Ht)|]. cbn [dl_append target_delta]. intros x index e Hx He.
  apply subseteq_drop in Hx. exact (proj1 (list.Forall_forall _ _) Hl x Hx index e He).
Qed.

Lemma write_backed com h q os a w :
  adapter_ok com (rh_adapter h) -> durable_ok (pq_target q) -> Forall domain_entry (d_log (pq_target q)) ->
  host_write h q None os = (a, w) -> written com a w.
Proof.
  intros Ha Ht Hl H. unfold host_write in H. destruct (pq_kind q).
  - case_in H; [simplify_eq; by exists com|]. case_in H; [simplify_eq; by apply adapter_kept|].
    pose proof (persist_delta_spec com (rh_adapter h) (target_delta (n_durable (rh_node h)) (pq_target q)) os Ha
      (target_delta_ok _ _ Ht Hl)) as S. rewrite H in S. destruct w as [x|].
    + destruct S as (_ & com' & v & P & D). by exists com', v.
    + destruct S as (com' & store' & P & A & _). by exists com'.
  - pose proof (adapter_checkpoint_spec com _ _ _ _ Ha H) as S. destruct w as [x|].
    + destruct S as [v D]. by exists com, v.
    + by exists com.
  - simplify_eq. by apply adapter_kept.
Qed.

(** ** Histories along a dispatch *)

Lemma holds_commit com a d : adapter_ok com a -> holds a d -> d_commit d = count com.
Proof.
  intros (Hu & v & store & Es & M) Hd. unfold holds, current_raft, uncertain in Hd. rewrite Hu, Es in Hd.
  cbn [is_some negb orb] in Hd. injection Hd as _ _ _ Hc _ _ _. by rewrite <- Hc, (mi_commit _ _ _ _ M).
Qed.

(** What a directory holds covers a commit index. *)
Definition covers (com : list Event) (a : FileEngineAdapter) (commit : Z) : Prop :=
  exists com' v, com `prefix_of` com' /\ commit <= count com' /\ disk_ok com' v (adapter_disk a).

Lemma covers_prefix com com' a n : com `prefix_of` com' -> covers com' a n -> covers com a n.
Proof. intros H (c & v & P & L & D). exists c, v. split; [by etrans|done]. Qed.

Lemma kept_covers com a n : kept com a -> n <= count com -> covers com a n.
Proof.
  intros (c & v & P & D) Hn. exists c, v. split; [done|]. split; [|done]. apply prefix_length in P. unfold count in *. lia.
Qed.

Definition run_backed (com : list Event) (r : HostRun) : Prop :=
  host_between (hr_host r) /\ Forall pin_ok (he_snapshots (hr_output r)) /\ adapter_ok com (rh_adapter (hr_host r)).

(** After a step of a dispatch: the history grew and the host is backed, or the
    directory still covers what the node has committed. *)
Definition outcome (com : list Event) (r : HostRun) (e : option Error) : Prop :=
  match e with
  | None => exists com', com `prefix_of` com' /\ run_backed com' r
  | Some _ => covers com (rh_adapter (hr_host r)) (d_commit (run_durable r))
  end.

Lemma outcome_prefix com com' r e : com `prefix_of` com' -> outcome com' r e -> outcome com r e.
Proof.
  intros P. destruct e; [by apply covers_prefix|]. intros (c & P' & B). exists c. split; [by etrans|done].
Qed.

Lemma advance_outcome com fuel r i os r' e :
  run_backed com r -> input_typed i -> entries_domain i -> (0 < fuel)%nat ->
  advance fuel r i None os = Some (r', e) -> outcome com r' e.
Proof.
  intros (Hb & Ho & Ha) Hi Hd Hf H. destruct (advance_spec fuel r i None os Hb Hi Ho Hf) as (r2 & e2 & E & A).
  assert (r2 = r' /\ e2 = e) as [-> ->] by (split; congruence). clear E.
  destruct (advance_adapter fuel r i None os r' e Hb Hi H) as [Hdur Hw].
  pose proof (holds_commit _ _ _ Ha (hb_holds _ Hb)) as Hcommit. fold (run_durable r) in Hcommit.
  assert (exists w, written com (rh_adapter (hr_host r')) w /\ (e = None -> w = None) /\
    (w = None \/ run_durable r' = run_durable r)) as (w & W & We & Ws).
  { destruct Hw as [->|(n & f & q & h & w & Es & Hq & A1 & A2 & Hok & Hw & We & Ws)].
    - exists None. split; [by exists com|]. split; [done|by left].
    - exists w. split; [|done]. apply (write_backed com h q (os (hr_calls r))); [by rewrite A1|done| |done].
      eapply (staged_entries domain_entry zero_domain); [apply (hb_node _ Hb)|apply (hb_idle _ Hb)|done|done| |].
      + exact (stored_domain _ _ _ Ha (hb_holds _ Hb)).
      + by apply input_domain. }
  destruct e as [x|]; cbn [outcome].
  - destruct w as [y|].
    + destruct Ws as [|Ws]; [done|]. rewrite Ws. apply kept_covers; [done|lia].
    + destruct W as (c & P & Hc). apply (covers_prefix com c _ _ P), kept_covers; [by apply adapter_kept|].
      destruct Hdur as [->|Hh]; [|rewrite (holds_commit _ _ _ Hc Hh); lia].
      apply prefix_length in P. rewrite Hcommit. unfold count. lia.
  - rewrite (We eq_refl) in W. destruct W as (c & P & Hc). exists c. split; [done|].
    destruct (av_live _ _ _ _ A eq_refl) as (Hb' & _). split; [done|]. split; [apply A|done].
Qed.

Lemma and_then_outcome com p next r' e' :
  (forall r e, p = Some (r, e) -> outcome com r e) ->
  (forall com r, run_backed com r -> next r = Some (r', e') -> outcome com r' e') ->
  and_then p next = Some (r', e') -> outcome com r' e'.
Proof.
  intros Hp Hn H. destruct p as [[r [e|]]|]; [| |done]; cbn [and_then] in H.
  - apply Hp. congruence.
  - destruct (Hp r None eq_refl) as (c & P & B). by eapply outcome_prefix, Hn.
Qed.

Lemma own_outcome com fuel r i os r' e : run_backed com r -> own_input i -> (0 < fuel)%nat ->
  advance fuel r i None os = Some (r', e) -> outcome com r' e.
Proof.
  intros B Hi Hf. apply advance_outcome; [done|by apply own_input_typed|by destruct Hi as [->|[->| ->]]|done].
Qed.

Lemma apply_loop_outcome os : forall fuel com r r' e, run_backed com r ->
  apply_loop fuel r os = Some (r', e) -> outcome com r' e.
Proof.
  induction fuel as [|fuel IH]; intros com r r' e B H; cbn [apply_loop] in H; case_in H; try done;
    try (injection H as <- <-; by exists com).
  revert H. apply and_then_outcome; [|intros; by eapply IH].
  intros r1 e1. apply own_outcome; [done|by right; left|lia].
Qed.

(** A host between two dispatches and the history of its directory. *)
Definition host_backed (com : list Event) (h : RuntimeHost) : Prop :=
  if n_halted (rh_node h)
  then d_commit (n_durable (rh_node h)) <= count com /\ exists v, disk_ok com v (adapter_disk (rh_adapter h))
  else adapter_ok com (rh_adapter h).

Lemma halt_durable h : n_durable (rh_node (host_halt h)) = n_durable (rh_node h).
Proof.
  unfold host_halt. cbn [rh_node rh_with_pins rh_with_node n_durable n_with_volatile n_with_halted].
  destruct (n_pending (rh_node h)) as [p|]; [|done]. unfold step, on_persist_failed.
  assert (forall n, n_durable (fst (fail_stop n)) = n_durable n) as Hstop.
  { intros n. destruct (fail_stop n) as [n' f] eqn:E. by apply fail_stop_effects in E as (E & _). }
  repeat case_goal; try done; apply Hstop.
Qed.

Lemma dispatch_backed com fuel h i os h' r :
  host_ok h -> host_backed com h -> input_typed i -> entries_domain i -> kMaximumEntries < Z.of_nat fuel ->
  host_dispatch fuel h i None os = Some (h', r) -> exists com', com `prefix_of` com' /\ host_backed com' h'.
Proof.
  intros Hok Hback Hi Hd Hf H. assert (0 < fuel)%nat as Hf' by (unfold kMaximumEntries in Hf; lia).
  destruct (dispatch_spec fuel h i None os Hok Hi Hf) as (h2 & r2 & E & [_ _ _ D]).
  assert (h2 = h' /\ r2 = r) as [-> ->] by (split; congruence). clear E.
  unfold host_dispatch in H. destruct (n_halted (rh_node h)) eqn:Hh; [simplify_eq; by exists com|].
  unfold host_backed in Hback. rewrite Hh in Hback.
  destruct (and_then _ _) as [[r1 e1]|] eqn:E; [|done].
  assert (outcome com r1 e1) as O.
  { revert E. apply and_then_outcome.
    - intros r2 e2. apply advance_outcome; [|done|done|done]. split; [by apply host_ok_between|]. by split.
    - intros c2 r2 B2. apply and_then_outcome; [intros r3 e3; apply own_outcome; [done|by left|done]|].
      intros c3 r3 B3. apply and_then_outcome; [intros r4 e4; by apply apply_loop_outcome|].
      intros c4 r4 B4. destruct (compact_due _); [apply own_outcome; [done|by right; right|done]|].
      intros [= <- <-]. by exists c4. }
  destruct e1 as [x|]; injection H as <- <-.
  - destruct O as (c & v & P & L & Dk). exists c. split; [done|]. unfold host_backed. rewrite D.
    split; [by rewrite halt_durable|by exists v].
  - destruct O as (c & P & _ & _ & A). exists c. split; [done|]. unfold host_backed.
    destruct D as (D & _). rewrite D. exact A.
Qed.
