(* ===== verification/HostLife.v ===== *)
(** * The life of a host

    A host that is opened on a directory, dispatches inputs, fails, is killed
    and is opened again, any number of times. *)

From S2P Require Import Prelude EntryLog EntryLogRefine Transition TransitionInv TransitionSteps TransitionProps TransitionThms TransitionVotes Text Stream Types Model EventCodec EventCodecThms Machine MachineInv MachineThms EngineThms CommitThms SnapshotText SnapshotTextThms SnapshotThms StoreState Bytes Wal WalThms Metadata Transaction SnapshotFile SnapshotFileThms StoreDisk FileEngine StoreOps StoreOpen StoreRun DomainBridge AdapterBridge FileEngineAdapter AdapterThms AdapterReopen RuntimeHost RuntimeHostThms HostDisk.

(** ** What a backed adapter shows *)

Lemma backed_view com a d : adapter_ok com a -> current_raft a = Ok d ->
  exists v, d_log d = entry_of <$> drop (v_base v) (com ++ v_tail v)%list /\ d_snapshot_index d = Z.of_nat (v_base v) /\
    d_commit d = count com /\ (v_base v <= length com)%nat.
Proof.
  intros (Hu & v & store & Es & M) Hd. unfold current_raft, uncertain in Hd. rewrite Hu, Es in Hd.
  cbn [is_some negb orb] in Hd. injection Hd as <-. exists v. cbn [d_log d_snapshot_index d_commit].
  split; [apply (mi_suffix _ _ _ _ M)|]. split; [|split; [apply (mi_commit _ _ _ _ M)|apply (mirror_base _ _ _ _ M)]].
  rewrite (mi_snapshot _ _ _ _ M). apply (found_index _ _ _ _ _ (rn_snapshot _ _ _ (mi_running _ _ _ _ M))).
Qed.

(** The committed entries of the node are the committed records. *)
Lemma backed_entry com a d index : adapter_ok com a -> current_raft a = Ok d ->
  d_snapshot_index d < index <= d_commit d -> entry_at d index = entry_of <$> com !! Z.to_nat (index - 1).
Proof.
  intros Ha Hd Hi. destruct (backed_view com a d Ha Hd) as (v & El & Eb & Ec & Hb). unfold entry_at.
  destruct (Z.leb_spec index (d_snapshot_index d)); [lia|]. rewrite El, list_lookup_fmap, lookup_drop.
  rewrite lookup_app_l by (unfold count in *; lia). do 2 f_equal. lia.
Qed.

Lemma backed_typed com a d : adapter_ok com a -> current_raft a = Ok d -> durable_typed d.
Proof.
  intros (Hu & v & store & Es & M) Hd. unfold current_raft, uncertain in Hd. rewrite Hu, Es in Hd.
  cbn [is_some negb orb] in Hd. injection Hd as <-. pose proof (mi_running _ _ _ _ M) as R.
  pose proof (run_small _ _ _ R) as Hs. rewrite count_app in Hs. pose proof (mirror_base _ _ _ _ M) as Hb.
  pose proof (found_index _ _ _ _ _ (rn_snapshot _ _ _ R)) as Hi. pose proof (mi_valid _ _ _ _ M) as (Ht & _).
  unfold valid_term in Ht. cbn [md_term] in Ht.
  assert (match pj_snapshot (ad_current a) with Some s => 0 <= sp_term s <= pj_term (ad_current a) | None => True end) as Hst.
  { pose proof (boundary_bound _ _ _ _ M) as Hbound. pose proof (rn_snapshot _ _ _ R) as F. rewrite (mi_snapshot _ _ _ _ M).
    destruct (fe_snapshot store) as [s|]; [|done]. specialize (Hbound s eq_refl). split; [|done].
    destruct F as (b & -> & Hstb & Hc & _). cbn [sp_term snapshot_of].
    destruct (list.last (take (v_base v) com)) as [x|] eqn:El.
    - rewrite (st_term _ _ Hstb x El). apply last_Some_elem_of, subseteq_take in El.
      pose proof (lo_entries _ (log_ok_app _ _ (do_log _ _ _ (rn_disk _ _ _ R)))) as L.
      destruct (proj1 (list.Forall_forall _ _) L x El) as [((_ & _ & _ & _ & _ & _ & Hx & _) & _) _]. unfold valid_term in Hx. lia.
    - apply last_None in El. assert (length (take (v_base v) com) = 0%nat) as L by (by rewrite El).
      rewrite length_take in L. lia. }
  rewrite <- (mi_snapshot _ _ _ _ M) in Hi. unfold durable_typed, u64, max_u64, kIndexes, count in *.
  cbn [d_term d_snapshot_index d_snapshot_term d_commit d_applied].
  rewrite (mi_commit _ _ _ _ M), (mi_applied _ _ _ _ M). unfold count in *.
  destruct (pj_snapshot (ad_current a)); unfold max_u64 in Ht; lia.
Qed.

Lemma open_leaves com v d test_mode os : disk_ok com v d -> readable (ao_open os) ->
  exists v', disk_ok com v' (adapter_disk (fst (adapter_open d test_mode os))).
Proof.
  intros D Hr. unfold adapter_open, recover. cbn [ad_store ad_directory ad_test_mode adapter_disk].
  pose proof (store_open_ok com v d (adapter_options test_mode) (ao_open os) D ltac:(by split) Hr) as H.
  destruct (store_open d (adapter_options test_mode) (ao_open os)) as [d' [f|]]; destruct H as [H O]; [|done].
  destruct O as (O & _). destruct (audit_recovered_domain_store _ _ _); [|done].
  cbn [fst adapter_disk ad_store]. by rewrite O.
Qed.

(** ** Lives *)

Section Life.
Context (config : Config) (every : Z) (test_mode : bool).

Inductive HostNode := Up (h : RuntimeHost) | Down (d : Directory).

Inductive HostStep :=
| Dispatch (i : Input) (os : nat -> AdapterOs)
| Reopen (lease : option Error) (os : AdapterOs).

Definition node_directory (n : HostNode) : Directory :=
  match n with Up h => adapter_disk (rh_adapter h) | Down d => d end.

(** A reopening also stands for a process that was killed: what the directory
    holds is what the last system call left. *)
Definition life_step (fuel : nat) (n : HostNode) (s : HostStep) : option HostNode :=
  match s, n with
  | Reopen lease os, _ =>
      match host_open config true (node_directory n) every test_mode lease os with
      | (_, Ok h) => Some (Up h)
      | (d, Err _) => Some (Down d)
      end
  | Dispatch i os, Up h =>
      match host_dispatch fuel h i None os with Some (h', _) => Some (Up h') | None => None end
  | Dispatch _ _, Down d => Some (Down d)
  end.

Fixpoint life (fuel : nat) (n : HostNode) (steps : list HostStep) : option HostNode :=
  match steps with
  | [] => Some n
  | s :: rest => match life_step fuel n s with Some n' => life fuel n' rest | None => None end
  end.

Definition life_step_ok (s : HostStep) : Prop :=
  match s with
  | Dispatch i _ => input_typed i /\ entries_domain i
  | Reopen _ os => readable (ao_open os)
  end.

Definition node_backed (com : list Event) (n : HostNode) : Prop :=
  match n with
  | Up h => host_ok h /\ host_backed com h
  | Down d => exists v, disk_ok com v d
  end.

Lemma backed_disk com n : node_backed com n -> exists v, disk_ok com v (node_directory n).
Proof.
  destruct n as [h|d]; [|done]. intros [_ H]. unfold host_backed in H. destruct (n_halted _); [by destruct H|].
  destruct H as (_ & v & store & Es & M). exists v. cbn [node_directory]. unfold adapter_disk. rewrite Es.
  apply (rn_disk _ _ _ (mi_running _ _ _ _ M)).
Qed.

Lemma opened_up com v d0 d lease os d' h : disk_ok com v d0 -> readable (ao_open os) ->
  (forall a, adapter_open d test_mode os = (a, Ok tt) -> adapter_open d0 test_mode os = (a, Ok tt)) ->
  host_open config true d every test_mode lease os = (d', Ok h) -> node_backed com (Up h).
Proof.
  intros D Hr Hsame H. pose proof (host_open_inv _ _ _ _ _ _ _ _ _ H) as (a & durable & Ea & Ed & _ & _ & Eh).
  pose proof (opened_adapter com v _ test_mode os a D Hr (Hsame a Ea)) as Ha.
  assert (durable_typed (n_durable (rh_node h))) as Ht by (subst h; by eapply backed_typed).
  destruct (host_open_ok _ _ _ _ _ _ _ _ _ H Ht) as (Hok & Hh & _). split; [done|].
  unfold host_backed. rewrite Hh. by subst h.
Qed.

(** What an opening that fails leaves: the directory, or what the adapter does. *)
Lemma host_open_err d lease os d' e : host_open config true d every test_mode lease os = (d', Err e) ->
  d' = d \/ d' = adapter_disk (fst (adapter_open d test_mode os)).
Proof.
  unfold host_open. intros H. do 2 (case_in H; [injection H as <- _; by left|]).
  destruct lease; [injection H as <- _; by left|].
  destruct (adapter_open d test_mode os) as [a opened]. injection H as <- _. by right.
Qed.

Lemma reopen_backed com n lease os d r :
  node_backed com n -> readable (ao_open os) ->
  host_open config true (node_directory n) every test_mode lease os = (d, r) ->
  node_backed com match r with Ok h => Up h | Err _ => Down d end.
Proof.
  intros Hn Hr H. destruct (backed_disk com n Hn) as [v D]. destruct r as [h|e].
  - by apply (opened_up com v _ _ _ _ _ _ D Hr (fun a Ha => Ha) H).
  - destruct (host_open_err _ _ _ _ _ H) as [->| ->]; [by exists v|by eapply open_leaves].
Qed.

Lemma life_step_backed com fuel n s : node_backed com n -> life_step_ok s -> kMaximumEntries < Z.of_nat fuel ->
  exists n' com', life_step fuel n s = Some n' /\ com `prefix_of` com' /\ node_backed com' n'.
Proof.
  intros Hn Hs Hf. destruct s as [i os|lease os]; cbn [life_step life_step_ok] in *.
  - destruct n as [h|d]; [|by exists (Down d), com]. destruct Hn as [Hok Hb], Hs as [Hi Hd].
    destruct (dispatch_spec fuel h i None os Hok Hi Hf) as (h' & r & E & D). rewrite E.
    destruct (dispatch_backed com fuel h i os h' r Hok Hb Hi Hd Hf E) as (com' & P & Hb').
    exists (Up h'), com'. split; [done|]. split; [done|]. split; [apply D|done].
  - destruct (host_open config true (node_directory n) every test_mode lease os) as [d r] eqn:E.
    pose proof (reopen_backed com n lease os d r Hn Hs E) as Hb.
    exists match r with Ok h => Up h | Err _ => Down d end, com. split; [by destruct r|done].
Qed.

Lemma life_backed fuel steps : forall com n, node_backed com n -> Forall life_step_ok steps ->
  kMaximumEntries < Z.of_nat fuel ->
  exists n' com', life fuel n steps = Some n' /\ com `prefix_of` com' /\ node_backed com' n'.
Proof.
  induction steps as [|s steps IH]; intros com n Hn Hall Hf; [by exists n, com|].
  apply list.Forall_cons in Hall as [Hs Hall]. cbn [life].
  destruct (life_step_backed com fuel n s Hn Hs Hf) as (n1 & com1 & -> & P1 & B1).
  destruct (IH com1 n1 B1 Hall Hf) as (n2 & com2 & E2 & P2 & B2). exists n2, com2. split; [done|].
  split; [by etrans|done].
Qed.

(** A life begins in a directory without a log, and may stay there. *)
Definition not_born (n : HostNode) : Prop := exists d, n = Down d /\ unborn d.

Lemma reopen_unborn d lease os : unborn d -> readable (ao_open os) ->
  match host_open config true d every test_mode lease os with
  | (_, Ok h) => node_backed [] (Up h)
  | (d', Err _) => unborn d' \/ node_backed [] (Down d')
  end.
Proof.
  intros Hd Hr. assert (options_ok (adapter_options test_mode)) as Ho by (by split).
  pose proof (unborn_open d (adapter_options test_mode) (ao_open os) Hd Ho Hr) as H.
  destruct (host_open config true d every test_mode lease os) as [d' [h|e]] eqn:E.
  - eapply (opened_up [] new_view new_directory d); [apply disk_new|done| |exact E]. intros a. unfold adapter_open, recover.
    cbn [ad_store ad_directory ad_test_mode adapter_disk].
    destruct (store_open d _ _) as [d1 [f|]] eqn:Es; [|done]. destruct H as (-> & _).
    by rewrite (empty_opens _ _ _ _ Ho Hr Es).
  - destruct (host_open_err _ _ _ _ _ E) as [->| ->]; [by left|]. unfold adapter_open, recover.
    cbn [ad_store ad_directory ad_test_mode adapter_disk].
    destruct (store_open d _ _) as [d1 [f|]]; cbn [fst adapter_disk ad_store ad_directory].
    + destruct H as (_ & H & O & _). right. by destruct (audit_recovered_domain_store _ _ _); cbn; rewrite ?O.
    + destruct H as [->|[H|(k & x & Hk & _ & ->)]]; [by left|by right|]. left. right. by exists k.
Qed.

Lemma life_begins fuel steps : forall n, not_born n -> Forall life_step_ok steps -> kMaximumEntries < Z.of_nat fuel ->
  exists n', life fuel n steps = Some n' /\ (not_born n' \/ exists com, node_backed com n').
Proof.
  induction steps as [|s steps IH]; intros n Hn Hall Hf; [by exists n; split; [|left]|].
  apply list.Forall_cons in Hall as [Hs Hall]. destruct Hn as (d & -> & Hd).
  assert (exists n1, life_step fuel (Down d) s = Some n1 /\ (not_born n1 \/ node_backed [] n1)) as (n1 & E1 & H1).
  { destruct s as [i os|lease os]; cbn [life_step node_directory life_step_ok] in *.
    - exists (Down d). split; [done|]. left. by exists d.
    - pose proof (reopen_unborn d lease os Hd Hs) as H.
      destruct (host_open config true d every test_mode lease os) as [d' [h|e]]; eexists; (split; [done|]); [by right|].
      destruct H as [H|H]; [left; by exists d'|by right]. }
  cbn [life]. rewrite E1. destruct H1 as [H1|H1]; [by apply IH|].
  destruct (life_backed fuel steps [] n1 H1 Hall Hf) as (n2 & com & E2 & _ & B). exists n2. split; [done|]. right. by exists com.
Qed.

Lemma life_app fuel a b : forall n, life fuel n (a ++ b)%list =
  match life fuel n a with Some n' => life fuel n' b | None => None end.
Proof.
  induction a as [|s a IH]; intros n; [done|]. cbn [life app]. destruct (life_step fuel n s); [apply IH|done].
Qed.

Lemma life_mono fuel fuel' steps : (fuel <= fuel')%nat -> forall n n',
  life fuel n steps = Some n' -> life fuel' n steps = Some n'.
Proof.
  intros Hle. induction steps as [|s steps IH]; intros n n' H; [done|]. cbn [life] in *.
  destruct (life_step fuel n s) as [n1|] eqn:E; [|done].
  assert (life_step fuel' n s = Some n1) as ->; [|by apply IH].
  destruct s as [i os|lease os], n as [h|d]; cbn [life_step] in *; try done.
  destruct (host_dispatch fuel h i None os) as [[h' r]|] eqn:Ed; [|done].
  by rewrite (dispatch_mono fuel fuel' _ _ _ _ _ Hle Ed).
Qed.

(** The checks of [host_open] on the configuration. *)
Definition config_valid : bool :=
  is_ok (parse_id (c_self config)) && host_peers_valid (c_self config) ∅ (c_peers config).

(** A backed, running host and the host that opens its directory. *)
Lemma reopened_host com h : config_valid = true -> host_ok h -> host_backed com h -> n_halted (rh_node h) = false ->
  exists d h', host_open config true (adapter_disk (rh_adapter h)) every test_mode None calm_os = (d, Ok h') /\
    n_durable (rh_node h') = n_durable (rh_node h) /\ n_halted (rh_node h') = false.
Proof.
  intros Hv Hok Hb Hh. unfold host_backed in Hb. rewrite Hh in Hb. destruct (ho_live _ Hok Hh) as [Hd _].
  destruct (reopened_adapter com _ test_mode calm_os _ Hb Hd) as (a & Ea & _ & Ed);
    [by intros|done|done|unfold open_fails; cbn; naive_solver|].
  unfold config_valid in Hv. apply andb_true_iff in Hv as [V1 V2].
  unfold host_open. rewrite V1, V2. cbn [negb orb]. rewrite Ea, Ed.
  assert (state_invalid (n_with_durable (n_durable (rh_node h)) (initial config)) = false) as Hs.
  { unfold state_invalid. cbn. by rewrite (durable_ok_valid _ (no_durable _ _ (ho_node _ Hok))). }
  unfold step. rewrite Hs. cbn. by eexists _, _.
Qed.

Lemma calm_store com n : node_backed com n ->
  exists d f, store_open (node_directory n) (adapter_options test_mode) calm_open = (d, Ok f) /\ fe_commit f = count com.
Proof.
  intros Hn. destruct (backed_disk com n Hn) as [v D].
  destruct (calm_opens com v _ (adapter_options test_mode) D ltac:(by split)) as (d & f & E & _ & _ & _ & v' & R & _).
  exists d, f. split; [done|]. apply (rn_commit _ _ _ R).
Qed.

(** C3: Restarts lose nothing. Take any life of a host on a new directory:
    dispatches of inputs, failures of any system calls (among them those that
    leave an incomplete log header), halts, kills and reopenings. Whenever the
    host runs, opening its directory gives a host with exactly its durable Raft
    state. Whatever happens afterwards, the directory can be opened and has
    everything the host had committed; and a host that runs later has the same
    entries at all committed indexes that neither has compacted. [life_step_ok]
    bounds the lives: no snapshot of a peer is installed; the commands of the
    inputs that decode are records as the runtime builds them, with the
    command's id as their id, no choreography and no cue dependency named by a
    single dash, and indexes below 10^16 ([entries_domain]); and snapshot files
    can be read when the directory is opened. *)
Theorem restarts_lose_nothing fuel before after h :
  config_valid = true -> kMaximumEntries < Z.of_nat fuel -> Forall life_step_ok (before ++ after)%list ->
  life fuel (Down empty_directory) before = Some (Up h) -> n_halted (rh_node h) = false ->
  (exists d h1, host_open config true (adapter_disk (rh_adapter h)) every test_mode None calm_os = (d, Ok h1) /\
     n_durable (rh_node h1) = n_durable (rh_node h) /\ n_halted (rh_node h1) = false) /\
  exists n, life fuel (Down empty_directory) (before ++ after)%list = Some n /\
    (exists d f, store_open (node_directory n) (adapter_options test_mode) calm_open = (d, Ok f) /\
       d_commit (n_durable (rh_node h)) <= fe_commit f) /\
    forall h', n = Up h' -> n_halted (rh_node h') = false ->
      let d := n_durable (rh_node h) in
      let d' := n_durable (rh_node h') in
      d_commit d <= d_commit d' /\
      forall index, Z.max (d_snapshot_index d) (d_snapshot_index d') < index <= d_commit d ->
        entry_at d' index = entry_at d index.
Proof.
  intros Hv Hf Hall Hb Hh. apply list.Forall_app in Hall as [A1 A2].
  destruct (life_begins fuel before (Down empty_directory)) as (n1 & E1 & Hn1); [exists empty_directory; split; [done|by left]|done|done|].
  assert (n1 = Up h) as -> by congruence. clear E1. destruct Hn1 as [(d & [=] & _)|[com B1]].
  pose proof B1 as [Hok Hback]. split; [by eapply reopened_host|].
  unfold host_backed in Hback. rewrite Hh in Hback. destruct (ho_live _ Hok Hh) as [Hd Happ].
  destruct (backed_view _ _ _ Hback Hd) as (v & _ & _ & Hc & _).
  destruct (life_backed fuel after com (Up h) B1 A2 Hf) as (n & com' & E2 & P & B2).
  exists n. rewrite life_app, Hb. split; [done|]. pose proof (prefix_length _ _ P) as HP. split.
  - destruct (calm_store com' n B2) as (d & f & E & Ef). exists d, f. split; [done|]. rewrite Ef, Hc. unfold count. lia.
  - intros h' -> Hh'. cbv zeta. destruct B2 as [Hok' Hback']. unfold host_backed in Hback'. rewrite Hh' in Hback'.
    destruct (ho_live _ Hok' Hh') as [Hd' _]. destruct (backed_view _ _ _ Hback' Hd') as (v' & _ & _ & Hc' & _).
    split; [rewrite Hc, Hc'; unfold count; lia|]. intros index Hi.
    rewrite (backed_entry _ _ _ _ Hback Hd), (backed_entry _ _ _ _ Hback' Hd') by (unfold count in *; lia).
    f_equal. pose proof (ok_snap_nn _ (no_durable _ _ (ho_node _ Hok))). symmetry. apply prefix_lookup_lt; [unfold count in *; lia|done].
Qed.
End Life.

(** ** A life *)

(** A canonical record is read back as itself under any term. *)
Lemma canonical_domain e term : entry_ok e -> ev_index e < kIndexes -> domain_entry (mkEntry term (canonical_event e)).
Proof.
  intros He Hi index x H. unfold decode_domain_entry in H. cbn [e_term e_command] in H. case_in H; [done|].
  rewrite parse_event_canonical in H by (by destruct He as [[? _] _]). case_in H; [done|]. by injection H as <-.
Qed.

Definition alone : Config := mkConfig "node-1" [].

Definition first_record : Event := noop_event None 2 1.

(** Opened, elected, one proposal, and an election whose metadata write fails
    after the file was replaced. *)
Definition life_before : list HostStep :=
  [Reopen None calm_os; Dispatch ElectionTimeout (fun _ => calm_os);
   Dispatch (ClientPropose (canonical_event first_record)) (fun _ => calm_os)].

(** The metadata file is replaced, and the system call reports a failure. *)
Definition unsynced : Os :=
  mkOs (os_append calm) (os_resized calm) (os_truncate_synced calm) (os_meta_read calm)
    (ReplacedUnsynced (adapter_invalid "directory sync failed")) (os_folder calm) (os_folder_synced calm) (os_save calm)
    (os_removed calm) (os_scanned calm) (os_rewrite calm) (os_cut calm).

Definition life_after : list HostStep :=
  [Dispatch ElectionTimeout (fun _ => calm_os); Reopen None calm_os;
   Dispatch ElectionTimeout (fun _ => mkAdapterOs unsynced calm (fun _ => calm) calm calm calm calm
     (mkInstallOs None None Replaced undisturbed Accessed None) calm_open false None);
   Reopen None calm_os].

Lemma first_record_ok : entry_ok first_record /\ ev_index first_record < kIndexes.
Proof. apply (bool_decide_unpack _). vm_compute. exact I. Qed.

Lemma life_steps_ok : Forall life_step_ok (life_before ++ life_after)%list.
Proof.
  unfold life_before, life_after. cbn [app].
  repeat (apply list.Forall_cons; split); try apply list.Forall_nil; try done.
  split; [done|]. intros term. apply canonical_domain; apply first_record_ok.
Qed.

Definition life_view (n : option HostNode) : option (Z * Z * list Entry) :=
  match n with
  | Some (Up h) => if n_halted (rh_node h) then None
                   else Some (d_term (n_durable (rh_node h)), d_commit (n_durable (rh_node h)), d_log (n_durable (rh_node h)))
  | _ => None
  end.

Definition first_entry : Entry := mkEntry 2 (canonical_event first_record).

Lemma restarts_lose_nothing_witness :
  exists fuel h h',
    life alone 100 true fuel (Down empty_directory) life_before = Some (Up h) /\
    life alone 100 true fuel (Down empty_directory) (life_before ++ life_after)%list = Some (Up h') /\
    d_term (n_durable (rh_node h)) = 2 /\ d_term (n_durable (rh_node h')) = 3 /\
    d_commit (n_durable (rh_node h)) = 1 /\ 1 <= d_commit (n_durable (rh_node h')) /\
    exists d h1, host_open alone true (adapter_disk (rh_adapter h)) 100 true None calm_os = (d, Ok h1) /\
      n_durable (rh_node h1) = n_durable (rh_node h).
Proof.
  destruct enough_fuel as (fuel & Hle & Hfuel).
  assert (life_view (life alone 100 true 3 (Down empty_directory) life_before) = Some (2, 1, [first_entry])) as V1
    by (vm_compute; reflexivity).
  assert (life_view (life alone 100 true 3 (Down empty_directory) (life_before ++ life_after)%list) = Some (3, 1, [first_entry])) as V2
    by (vm_compute; reflexivity).
  destruct (life alone 100 true 3 (Down empty_directory) life_before) as [[h|]|] eqn:E1; [|discriminate V1|discriminate V1].
  destruct (life alone 100 true 3 (Down empty_directory) (life_before ++ life_after)%list) as [[h'|]|] eqn:E2;
    [|discriminate V2|discriminate V2].
  cbn [life_view] in V1, V2. destruct (n_halted (rh_node h)) eqn:H1; [discriminate V1|].
  destruct (n_halted (rh_node h')) eqn:H2; [discriminate V2|]. injection V1 as T1 C1 _. injection V2 as T2 C2 _.
  apply (life_mono alone 100 true 3 fuel _ Hle) in E1, E2.
  destruct (restarts_lose_nothing alone 100 true fuel life_before life_after h eq_refl Hfuel life_steps_ok E1 H1)
    as ((d & h1 & R1 & R2 & _) & n & En & _ & Hlater).
  rewrite E2 in En. injection En as <-. destruct (Hlater h' eq_refl H2) as [Hc _]. rewrite C1 in Hc.
  exists fuel, h, h'. split; [exact E1|]. split; [exact E2|]. split; [exact T1|]. split; [exact T2|].
  split; [exact C1|]. split; [exact Hc|]. exists d, h1. split; [exact R1|exact R2].
Defined.
