(* ===== verification/Checkpoint.v ===== *)
(** * The Raft checkpoint

    [cpp-runtime/src/raft/checkpoint.cpp] and its header: one checksummed file
    with the whole durable state of the transition core, replaced atomically,
    and the store object around it. *)

From S2P Require Import Prelude Text Types Bytes EntryLog Transition.

Definition kMaximumFileBytes : Z := 16777216.
Definition kMaximumCommandBytes : Z := 1048576.
Definition kNoVote : Z := 4294967295.

Definition ck_invalid (why : string) : Error := mkError StoreError why.

(** [data.resize(offset + 4)] and the write at the old end. *)
Definition add_u32 (data : list Z) (value : Z) : list Z :=
  write_u32 (resize (length data + 4) 0 data) (length data) value.

Definition add_u64 (data : list Z) (value : Z) : list Z :=
  write_u64 (resize (length data + 8) 0 data) (length data) value.

(** The methods of [Reader]: the value and the cursor after it. *)
Definition take_u32 (bytes : list Z) (cursor : nat) : option (Z * nat) :=
  if (length bytes <? cursor)%nat || (length bytes - cursor <? 4)%nat then None
  else Some (read_u32 bytes cursor, (cursor + 4)%nat).

Definition take_u64 (bytes : list Z) (cursor : nat) : option (Z * nat) :=
  if (length bytes <? cursor)%nat || (length bytes - cursor <? 8)%nat then None
  else Some (read_u64 bytes cursor, (cursor + 8)%nat).

Definition take_string (bytes : list Z) (cursor : nat) (size : Z) : option (string * nat) :=
  if (length bytes <? cursor)%nat || (Z.of_nat (length bytes - cursor) <? size) then None
  else Some (string_of (take (Z.to_nat size) (drop cursor bytes)), (cursor + Z.to_nat size)%nat).

Definition entry_shape_ok (term : Z) (entry : Entry) : bool :=
  negb ((e_term entry =? 0) || (term <? e_term entry) || bool_decide (e_command entry = ""%string) ||
        (kMaximumCommandBytes <? Z.of_nat (String.length (e_command entry)))).

Definition valid_state (value : Durable) : result Error unit :=
  if negb (d_snapshot_index value =? 0) || negb (d_snapshot_term value =? 0)
  then Err (ck_invalid "Raft v1 checkpoint cannot store a snapshot boundary")
  else if (log_size (d_log value) <? d_commit value) || (d_commit value <? d_applied value)
  then Err (ck_invalid "Raft checkpoint indexes violate applied <= commit <= log length")
  else if negb (d_applied value =? 0)
  then Err (ck_invalid
              "Raft checkpoint cannot persist applied progress without state-machine snapshot")
  else if match d_voted_for value with
          | Some vote => 64 <? Z.of_nat (String.length vote)
          | None => false
          end
  then Err (ck_invalid "Raft checkpoint vote ID too large")
  else if kMaximumEntries <? log_size (d_log value)
  then Err (ck_invalid "Raft checkpoint log too long")
  else if forallb (entry_shape_ok (d_term value)) (d_log value) then Ok tt
  else Err (ck_invalid "Raft checkpoint entry has invalid term or command length").

Definition validate_transition (old next : Durable) : result Error unit :=
  check! valid_state next in
  if (d_term next <? d_term old) || (d_commit next <? d_commit old)
  then Err (ck_invalid "Raft checkpoint cannot roll back term or committed index")
  else if (d_term next =? d_term old) && is_some (d_voted_for old) &&
          negb (bool_decide (d_voted_for next = d_voted_for old))
  then Err (ck_invalid "Raft checkpoint cannot change a vote in the same term")
  else if log_size (d_log next) <? d_commit old
  then Err (ck_invalid "Raft checkpoint cannot truncate committed entries")
  else if bool_decide (take (Z.to_nat (d_commit old)) (d_log next) =
                       take (Z.to_nat (d_commit old)) (d_log old))
  then Ok tt
  else Err (ck_invalid "Raft checkpoint cannot rewrite committed prefix").

Definition add_entry (data : list Z) (entry : Entry) : list Z :=
  let data := add_u64 data (e_term entry) in
  let data := add_u32 data (wrap32 (Z.of_nat (String.length (e_command entry)))) in
  data ++ bytes_of (e_command entry).

Definition encode_checkpoint (value : Durable) : result Error (list Z) :=
  check! valid_state value in
  let data := bytes_of "CHRAFT01" in
  let data := add_u32 data 1 in
  let data := add_u32 data 0 in
  let data := add_u64 data (d_term value) in
  let data := add_u64 data (d_commit value) in
  let data := add_u64 data (d_applied value) in
  let data := add_u32 data
    (match d_voted_for value with
     | Some vote => wrap32 (Z.of_nat (String.length vote)) | None => kNoVote end) in
  let data := match d_voted_for value with Some vote => data ++ bytes_of vote | None => data end in
  let data := add_u32 data (wrap32 (log_size (d_log value))) in
  let data := foldl add_entry data (d_log value) in
  if kMaximumFileBytes - 4 <? zsize data
  then Err (ck_invalid "Raft checkpoint exceeds maximum encoded size")
  else
    let data := write_u32 data 12 (wrap32 (zsize data - 16)) in
    Ok (add_u32 data (crc32 data)).

(** The entries of a checkpoint: [count] of them from [cursor]. *)
Fixpoint decode_entries (count : nat) (bytes : list Z) (cursor : nat) (log : list Entry)
    : result Error (list Entry * nat) :=
  match count with
  | O => Ok (log, cursor)
  | S count =>
      let malformed := Err (ck_invalid "Raft checkpoint log entry malformed") in
      match take_u64 bytes cursor with
      | None => malformed
      | Some (term, cursor) =>
          match take_u32 bytes cursor with
          | None => malformed
          | Some (size, cursor) =>
              if kMaximumCommandBytes <? size then malformed
              else match take_string bytes cursor size with
                   | None => malformed
                   | Some (command, cursor) =>
                       decode_entries count bytes cursor (log ++ [mkEntry term command])
                   end
          end
      end
  end.

(** The optional vote. *)
Definition decode_vote (bytes : list Z) (cursor : nat) (vote_len : Z)
    : result Error (option string * nat) :=
  if vote_len =? kNoVote then Ok (None, cursor)
  else if 64 <? vote_len then Err (ck_invalid "Raft checkpoint vote ID too long")
  else match take_string bytes cursor vote_len with
       | None => Err (ck_invalid "Raft checkpoint vote incomplete")
       | Some (vote, cursor) => Ok (Some vote, cursor)
       end.

(** The fields after the header. *)
Definition decode_fields (bytes : list Z) : result Error Durable :=
  let truncated := Err (ck_invalid "Raft checkpoint has truncated metadata") in
  match take_u64 bytes 16 with None => truncated | Some (term, cursor) =>
  match take_u64 bytes cursor with None => truncated | Some (commit, cursor) =>
  match take_u64 bytes cursor with None => truncated | Some (applied, cursor) =>
  match take_u32 bytes cursor with None => truncated | Some (vote_len, cursor) =>
    let? (vote, cursor) := decode_vote bytes cursor vote_len in
    match take_u32 bytes cursor with
    | None => Err (ck_invalid "Raft checkpoint log count invalid")
    | Some (count, cursor) =>
        if kMaximumEntries <? count then Err (ck_invalid "Raft checkpoint log count invalid")
        else
          let? (log, cursor) := decode_entries (Z.to_nat count) bytes cursor [] in
          if negb (cursor =? length bytes - 4)%nat
          then Err (ck_invalid "Raft checkpoint trailing data")
          else
            let value := mkDurable term vote log commit applied 0 0 in
            check! valid_state value in Ok value
    end
  end end end end.

Definition decode_checkpoint (bytes : list Z) : result Error Durable :=
  if (length bytes <? 16 + 8 * 3 + 4 + 4 + 4)%nat || (kMaximumFileBytes <? zsize bytes)
  then Err (ck_invalid "Raft checkpoint has invalid file size")
  else if negb (bool_decide (take 8 bytes = bytes_of "CHRAFT01")) ||
          negb (read_u32 bytes 8 =? 1) || negb (read_u32 bytes 12 =? zsize bytes - 20)
  then Err (ck_invalid "Raft checkpoint magic, version, or length invalid")
  else if negb (crc32 (take (length bytes - 4) bytes) =? read_u32 bytes (length bytes - 4))
  then Err (ck_invalid "Raft checkpoint checksum mismatch")
  else decode_fields bytes.

(** [read_checkpoint]; [access] is the error of looking for or reading the
    file, if that fails. *)
Definition read_checkpoint (file : option (list Z)) (access : option Error)
    : result Error Durable :=
  match access with
  | Some e => Err e
  | None => match file with None => Ok empty_durable | Some bytes => decode_checkpoint bytes end
  end.

(** ** The store *)

Inductive CheckpointFault := NoCheckpointFault | BeforeReplace | AfterReplace.

Record CheckpointStore := mkCheckpointStore {
  cs_file : option (list Z);
  cs_current : Durable;
  cs_uncertain : bool;
  cs_fault : CheckpointFault;
  cs_test_mode : bool;
}.

(** [CheckpointStore::open] in a directory that exists. *)
Definition checkpoint_open (file : option (list Z)) (access : option Error) (test_mode : bool)
    : result Error CheckpointStore :=
  let? snapshot := read_checkpoint file access in
  Ok (mkCheckpointStore file snapshot false NoCheckpointFault test_mode).

Definition persist (store : CheckpointStore) (target : Durable) (outcome : AtomicWrite)
    : CheckpointStore * option Error :=
  if cs_uncertain store
  then (store, Some (ck_invalid "Raft checkpoint requires recovery after previous write failure"))
  else match validate_transition (cs_current store) target with
  | Err e => (store, Some e)
  | Ok _ =>
  match encode_checkpoint target with
  | Err e => (store, Some e)
  | Ok encoded =>
      let fault := cs_fault store in
      let fail file why :=
        (mkCheckpointStore file (cs_current store) true NoCheckpointFault (cs_test_mode store), Some why)
      in
      match fault with
      | BeforeReplace =>
          fail (cs_file store) (ck_invalid "injected Raft checkpoint failure before replacement")
      | _ =>
          let '(file, error) := write_atomic (cs_file store) encoded outcome in
          match error with
          | Some e => fail file e
          | None =>
              match fault with
              | AfterReplace =>
                  fail file (ck_invalid "injected Raft checkpoint failure after durable replacement")
              | _ => (mkCheckpointStore file target false NoCheckpointFault (cs_test_mode store), None)
              end
          end
      end
  end end.

Definition recover (store : CheckpointStore) (access : option Error)
    : CheckpointStore * result Error Durable :=
  match read_checkpoint (cs_file store) access with
  | Err e => (mkCheckpointStore (cs_file store) (cs_current store) true (cs_fault store)
                (cs_test_mode store), Err e)
  | Ok value => (mkCheckpointStore (cs_file store) value false NoCheckpointFault
                   (cs_test_mode store), Ok value)
  end.

Definition inject_next_fault_for_test (store : CheckpointStore) (fault : CheckpointFault)
    : CheckpointStore * option Error :=
  if cs_test_mode store
  then (mkCheckpointStore (cs_file store) (cs_current store) (cs_uncertain store) fault
          (cs_test_mode store), None)
  else (store, Some (ck_invalid "Raft checkpoint fault injection requires test mode")).
