(* ===== verification/CheckpointThms.v ===== *)
(** * Theorems on the Raft checkpoint

    The round trip of the checkpoint file, and the contract of the store: what
    [persist] reports and what [recover] finds. *)

From S2P Require Import Prelude Text Types Bytes EntryLog Transition TransitionInv TransitionSteps TransitionProps Checkpoint.

(** ** The layout of the file *)

Lemma add_u32_app data v : add_u32 data v = data ++ le_bytes 4 v.
Proof.
  unfold add_u32, write_u32. rewrite resize_ge by lia. rewrite Nat.add_comm, Nat.add_sub.
  rewrite (write_field 4 (length data) data (replicate 4 0) []);
    [by rewrite app_nil_r|by rewrite app_nil_r|done|done].
Qed.

Lemma add_u64_app data v : add_u64 data v = data ++ le_bytes 8 v.
Proof.
  unfold add_u64, write_u64. rewrite resize_ge by lia. rewrite Nat.add_comm, Nat.add_sub.
  rewrite (write_field 8 (length data) data (replicate 8 0) []);
    [by rewrite app_nil_r|by rewrite app_nil_r|done|done].
Qed.

Definition entry_bytes (e : Entry) : list Z :=
  le_bytes 8 (e_term e) ++ le_bytes 4 (wrap32 (Z.of_nat (String.length (e_command e)))) ++
  bytes_of (e_command e).

Definition entries_bytes (log : list Entry) : list Z := concat (entry_bytes <$> log).

Definition vote_length (vote : option string) : Z :=
  match vote with Some v => wrap32 (Z.of_nat (String.length v)) | None => kNoVote end.

Definition vote_bytes (vote : option string) : list Z :=
  match vote with Some v => bytes_of v | None => [] end.

Definition ck_fields (d : Durable) : list Z :=
  le_bytes 8 (d_term d) ++ le_bytes 8 (d_commit d) ++ le_bytes 8 (d_applied d) ++
  le_bytes 4 (vote_length (d_voted_for d)) ++ vote_bytes (d_voted_for d) ++
  le_bytes 4 (wrap32 (log_size (d_log d))) ++ entries_bytes (d_log d).

Definition ck_body (d : Durable) : list Z :=
  bytes_of "CHRAFT01" ++ le_bytes 4 1 ++ le_bytes 4 (wrap32 (zsize (ck_fields d))) ++ ck_fields d.

Lemma add_entries log : forall data, foldl add_entry data log = data ++ entries_bytes log.
Proof.
  induction log as [|e log IH]; intros data; cbn [foldl]; [by rewrite app_nil_r|].
  rewrite IH. unfold add_entry. rewrite add_u64_app, add_u32_app.
  replace (entries_bytes (e :: log)) with (entry_bytes e ++ entries_bytes log) by done.
  unfold entry_bytes. by rewrite <- !app_assoc.
Qed.

Lemma encode_checkpoint_layout d :
  encode_checkpoint d =
  check! valid_state d in
  if kMaximumFileBytes - 4 <? 16 + zsize (ck_fields d)
  then Err (ck_invalid "Raft checkpoint exceeds maximum encoded size")
  else Ok (seal (ck_body d)).
Proof.
  unfold encode_checkpoint. destruct (valid_state d); [|done]. cbv zeta.
  rewrite !add_u64_app, !add_u32_app, add_entries. fold (vote_length (d_voted_for d)).
  set (vl := vote_length (d_voted_for d)).
  assert (forall data tl, (match d_voted_for d with Some vote => data ++ bytes_of vote
    | None => data end) ++ tl = data ++ vote_bytes (d_voted_for d) ++ tl) as Hvote.
  { intros data tl. destruct (d_voted_for d); [by rewrite <- app_assoc|done]. }
  rewrite <- !(app_assoc (match d_voted_for d with Some _ => _ | None => _ end)), !Hvote.
  replace ((((((((bytes_of "CHRAFT01" ++ le_bytes 4 1) ++ le_bytes 4 0) ++ le_bytes 8 (d_term d)) ++
    le_bytes 8 (d_commit d)) ++ le_bytes 8 (d_applied d)) ++ le_bytes 4 vl) ++
    vote_bytes (d_voted_for d) ++ le_bytes 4 (wrap32 (log_size (d_log d))) ++ entries_bytes (d_log d)))
    with ((bytes_of "CHRAFT01" ++ le_bytes 4 1) ++ le_bytes 4 0 ++ ck_fields d)
    by (unfold ck_fields; fold vl; by rewrite <- !app_assoc).
  set (f := ck_fields d).
  assert (zsize ((bytes_of "CHRAFT01" ++ le_bytes 4 1) ++ le_bytes 4 0 ++ f) = 16 + zsize f) as ->
    by (unfold zsize; autorewrite with bytes; simpl; lia).
  destruct (_ <? _); [done|]. f_equal.
  replace (16 + zsize f - 16) with (zsize f) by lia. unfold write_u32.
  rewrite (write_field 4 12 (bytes_of "CHRAFT01" ++ le_bytes 4 1) (le_bytes 4 0) f) by done.
  unfold seal, ck_body. fold f. by rewrite <- !app_assoc.
Qed.

(** ** Reading it back *)

Lemma take_u32_at bytes a b v :
  bytes = a ++ le_bytes 4 v ++ b -> 0 <= v < 4294967296 ->
  take_u32 bytes (length a) = Some (v, length (a ++ le_bytes 4 v)).
Proof.
  intros Hb Hv. unfold take_u32.
  assert (length bytes = length a + 4 + length b)%nat as Hl
    by (rewrite Hb, !length_app, le_bytes_length; lia).
  destruct (Nat.ltb_spec (length bytes) (length a)); [lia|].
  destruct (Nat.ltb_spec (length bytes - length a) 4); [lia|]. decided.
  rewrite length_app, le_bytes_length. f_equal. f_equal. by apply (read_field 4 _ a b).
Qed.

Lemma take_u64_at bytes a b v :
  bytes = a ++ le_bytes 8 v ++ b -> u64 v ->
  take_u64 bytes (length a) = Some (v, length (a ++ le_bytes 8 v)).
Proof.
  intros Hb Hv. unfold take_u64.
  assert (length bytes = length a + 8 + length b)%nat as Hl
    by (rewrite Hb, !length_app, le_bytes_length; lia).
  destruct (Nat.ltb_spec (length bytes) (length a)); [lia|].
  destruct (Nat.ltb_spec (length bytes - length a) 8); [lia|]. decided.
  rewrite length_app, le_bytes_length. f_equal. f_equal. apply (read_field 8 _ a b); [done..|].
  unfold u64, max_u64 in Hv. simpl (256 ^ _). lia.
Qed.

Lemma take_string_at bytes a b s :
  bytes = a ++ bytes_of s ++ b ->
  take_string bytes (length a) (Z.of_nat (String.length s)) = Some (s, length (a ++ bytes_of s)).
Proof.
  intros Hb. unfold take_string.
  assert (length bytes = length a + String.length s + length b)%nat as Hl
    by (rewrite Hb, !length_app, bytes_of_length; lia).
  destruct (Nat.ltb_spec (length bytes) (length a)); [lia|].
  destruct (Z.ltb_spec (Z.of_nat (length bytes - length a)) (Z.of_nat (String.length s))); [lia|].
  decided. rewrite Nat2Z.id, length_app, bytes_of_length. f_equal. f_equal.
  rewrite (slice_field _ _ a (bytes_of s) b); [apply string_of_bytes_of|done|done|].
  by rewrite bytes_of_length.
Qed.

Definition entry_typed (e : Entry) : Prop :=
  u64 (e_term e) /\ Z.of_nat (String.length (e_command e)) <= kMaximumCommandBytes.

Lemma wrap32_length s : Z.of_nat (String.length s) <= kMaximumCommandBytes ->
  wrap32 (Z.of_nat (String.length s)) = Z.of_nat (String.length s).
Proof. unfold wrap32, kMaximumCommandBytes. intros. apply Z.mod_small. lia. Qed.

Lemma decode_entries_at log : forall bytes a b acc,
  bytes = a ++ entries_bytes log ++ b -> Forall entry_typed log ->
  decode_entries (length log) bytes (length a) acc =
  Ok (acc ++ log, length (a ++ entries_bytes log)).
Proof.
  induction log as [|[term command] log IH]; intros bytes a b acc Hb Hall;
    cbn [length decode_entries].
  - by rewrite !app_nil_r.
  - inversion Hall as [|?? [Ht Hc] Hrest]; subst x l. cbn [e_term e_command] in Ht, Hc.
    set (l4 := le_bytes 4 (wrap32 (Z.of_nat (String.length command)))).
    assert (entries_bytes (mkEntry term command :: log) =
      le_bytes 8 term ++ l4 ++ bytes_of command ++ entries_bytes log) as Hcons
      by (unfold entries_bytes; cbn [fmap list_fmap concat]; unfold entry_bytes;
          cbn [e_term e_command]; by rewrite <- !app_assoc).
    rewrite Hcons in Hb. rewrite Hcons.
    rewrite (take_u64_at bytes a (l4 ++ bytes_of command ++ entries_bytes log ++ b) term)
      by (done || by rewrite Hb, <- !app_assoc).
    rewrite (take_u32_at bytes (a ++ le_bytes 8 term) (bytes_of command ++ entries_bytes log ++ b)
      (wrap32 (Z.of_nat (String.length command))));
      [|by rewrite Hb; unfold l4; rewrite <- !app_assoc|unfold wrap32; apply Z.mod_pos_bound; lia].
    fold l4. rewrite wrap32_length by done.
    destruct (Z.ltb_spec kMaximumCommandBytes (Z.of_nat (String.length command))); [lia|].
    rewrite (take_string_at bytes ((a ++ le_bytes 8 term) ++ l4) (entries_bytes log ++ b))
      by (by rewrite Hb, <- !app_assoc).
    rewrite (IH bytes (((a ++ le_bytes 8 term) ++ l4) ++ bytes_of command) b)
      by (done || by rewrite Hb, <- !app_assoc).
    by rewrite <- !app_assoc.
Qed.

(** What [valid_state] accepts. *)
Record shape_ok (d : Durable) : Prop := {
  sh_index : d_snapshot_index d = 0;
  sh_term : d_snapshot_term d = 0;
  sh_commit : d_commit d <= log_size (d_log d);
  sh_applied : d_applied d = 0 /\ 0 <= d_commit d;
  sh_vote : forall v, d_voted_for d = Some v -> Z.of_nat (String.length v) <= 64;
  sh_size : log_size (d_log d) <= kMaximumEntries;
  sh_entries : Forall (fun e => e_term e <> 0 /\ e_term e <= d_term d /\ e_command e <> ""%string /\
                 Z.of_nat (String.length (e_command e)) <= kMaximumCommandBytes) (d_log d);
}.

Lemma entry_shape_spec term e : entry_shape_ok term e = true <->
  e_term e <> 0 /\ e_term e <= term /\ e_command e <> ""%string /\
  Z.of_nat (String.length (e_command e)) <= kMaximumCommandBytes.
Proof.
  unfold entry_shape_ok. rewrite negb_true_iff, !orb_false_iff, Z.eqb_neq, !Z.ltb_ge,
    bool_decide_eq_false. tauto.
Qed.

Lemma valid_state_spec d : valid_state d = Ok tt <-> shape_ok d.
Proof.
  unfold valid_state. split.
  - intros H.
    destruct (Z.eqb_spec (d_snapshot_index d) 0); [|done].
    destruct (Z.eqb_spec (d_snapshot_term d) 0); [|done].
    destruct (Z.ltb_spec (log_size (d_log d)) (d_commit d)); [done|].
    destruct (Z.ltb_spec (d_commit d) (d_applied d)); [done|].
    destruct (Z.eqb_spec (d_applied d) 0); [|done].
    destruct (match d_voted_for d with Some vote => _ | None => _ end) eqn:Hv; [done|].
    destruct (Z.ltb_spec kMaximumEntries (log_size (d_log d))); [done|].
    destruct (forallb _ _) eqn:Hf; [|done].
    split; [done..|lia| |done|].
    + intros v Hsome. rewrite Hsome in Hv. by apply Z.ltb_ge in Hv.
    + apply Is_true_true, forallb_True in Hf. eapply list.Forall_impl; [exact Hf|].
      intros x Hx. apply entry_shape_spec. by apply Is_true_true.
  - intros [-> -> Hc [-> Hc0] Hv Hs He].
    replace (log_size (d_log d) <? d_commit d) with false by (symmetry; apply Z.ltb_ge; lia).
    replace (d_commit d <? 0) with false by (symmetry; apply Z.ltb_ge; lia).
    replace (match d_voted_for d with Some vote => 64 <? Z.of_nat (String.length vote)
             | None => false end) with false
      by (symmetry; destruct (d_voted_for d); [apply Z.ltb_ge; by apply Hv|done]).
    replace (kMaximumEntries <? log_size (d_log d)) with false by (symmetry; apply Z.ltb_ge; done).
    replace (forallb (entry_shape_ok (d_term d)) (d_log d)) with true; [done|].
    symmetry. apply Is_true_true, forallb_True. eapply list.Forall_impl; [exact He|].
    intros e Hshape. apply Is_true_true. by apply entry_shape_spec.
Qed.

(** A durable state a checkpoint can hold: its fields are in the range of
    their types and [valid_state] accepts it. *)
Definition ck_ok (d : Durable) : Prop :=
  u64 (d_term d) /\ u64 (d_commit d) /\ Forall (fun e => u64 (e_term e)) (d_log d) /\ shape_ok d.

Lemma ck_body_ok d : bytes_ok (ck_body d).
Proof.
  assert (bytes_ok (entries_bytes (d_log d))) as He.
  { unfold bytes_ok, entries_bytes. apply Forall_concat, Forall_fmap, Forall_true. intros e.
    change (bytes_ok (entry_bytes e)). unfold entry_bytes. rewrite !bytes_ok_app.
    repeat split; auto with choreo. }
  assert (bytes_ok (vote_bytes (d_voted_for d))) as Hv.
  { destruct (d_voted_for d); [apply bytes_of_ok|constructor]. }
  unfold ck_body, ck_fields. rewrite !bytes_ok_app.
  repeat split; auto with choreo.
Qed.

Lemma decode_vote_at bytes a b vote :
  bytes = a ++ vote_bytes vote ++ b ->
  (forall v, vote = Some v -> Z.of_nat (String.length v) <= 64) ->
  decode_vote bytes (length a) (vote_length vote) = Ok (vote, length (a ++ vote_bytes vote)).
Proof.
  intros Hb Hv. unfold decode_vote, kNoVote. destruct vote as [v|]; cbn [vote_length vote_bytes] in *.
  - specialize (Hv v eq_refl). assert (wrap32 (Z.of_nat (String.length v)) = Z.of_nat (String.length v))
      as -> by (unfold wrap32; apply Z.mod_small; lia).
    destruct (Z.eqb_spec (Z.of_nat (String.length v)) 4294967295); [lia|].
    destruct (Z.ltb_spec 64 (Z.of_nat (String.length v))); [lia|].
    by rewrite (take_string_at bytes a b v Hb).
  - rewrite Z.eqb_refl. by rewrite app_nil_r.
Qed.

Lemma vote_length_range vote : 0 <= vote_length vote < 4294967296.
Proof. destruct vote; [apply Z.mod_pos_bound; lia|done]. Qed.

Lemma decode_fields_at d rest : ck_ok d ->
  (length rest = 4)%nat ->
  let head := bytes_of "CHRAFT01" ++ le_bytes 4 1 ++ le_bytes 4 (wrap32 (zsize (ck_fields d))) in
  decode_fields (head ++ ck_fields d ++ rest) = Ok d.
Proof.
  intros (Ht & Hc & He & Hsh) Hrest head. set (bytes := head ++ ck_fields d ++ rest).
  pose proof Hsh as [Hi Hst Hcm [Ha _] Hv Hs Hent]. unfold decode_fields.
  assert (length head = 16%nat) as Hhead by done.
  set (t := le_bytes 8 (d_term d)). set (c := le_bytes 8 (d_commit d)).
  set (a := le_bytes 8 (d_applied d)). set (vl := le_bytes 4 (vote_length (d_voted_for d))).
  set (v := vote_bytes (d_voted_for d)). set (n := le_bytes 4 (wrap32 (log_size (d_log d)))).
  set (es := entries_bytes (d_log d)).
  assert (bytes = head ++ t ++ c ++ a ++ vl ++ v ++ n ++ es ++ rest) as Hb
    by (unfold bytes, ck_fields; by rewrite <- !app_assoc).
  rewrite <- Hhead, (take_u64_at bytes head (c ++ a ++ vl ++ v ++ n ++ es ++ rest) (d_term d)) by done.
  fold t. rewrite (take_u64_at bytes (head ++ t) (a ++ vl ++ v ++ n ++ es ++ rest) (d_commit d))
    by (done || by rewrite Hb, <- !app_assoc).
  fold c. rewrite (take_u64_at bytes ((head ++ t) ++ c) (vl ++ v ++ n ++ es ++ rest) (d_applied d));
    [|by rewrite Hb, <- !app_assoc|rewrite Ha; unfold u64, max_u64; lia].
  fold a. rewrite (take_u32_at bytes (((head ++ t) ++ c) ++ a) (v ++ n ++ es ++ rest)
    (vote_length (d_voted_for d))); [|by rewrite Hb, <- !app_assoc|apply vote_length_range].
  fold vl. rewrite (decode_vote_at bytes ((((head ++ t) ++ c) ++ a) ++ vl) (n ++ es ++ rest))
    by (done || by rewrite Hb, <- !app_assoc).
  fold v. assert (wrap32 (log_size (d_log d)) = log_size (d_log d)) as Hw
    by (unfold wrap32; apply Z.mod_small; ulia).
  rewrite (take_u32_at bytes (((((head ++ t) ++ c) ++ a) ++ vl) ++ v) (es ++ rest)
    (wrap32 (log_size (d_log d)))); [|by rewrite Hb, <- !app_assoc|rewrite Hw; ulia].
  fold n. rewrite Hw. destruct (Z.ltb_spec kMaximumEntries (log_size (d_log d))); [ulia|].
  unfold log_size. rewrite Nat2Z.id.
  rewrite (decode_entries_at (d_log d) bytes ((((((head ++ t) ++ c) ++ a) ++ vl) ++ v) ++ n) rest).
  2: { by rewrite Hb, <- !app_assoc. }
  2: { rewrite list.Forall_forall in He, Hent. apply list.Forall_forall. intros e Hin.
       split; [by apply He|]. by apply Hent. }
  fold es.
  assert (length ((((((((head ++ t) ++ c) ++ a) ++ vl) ++ v) ++ n) ++ es)) = length bytes - 4)%nat as Hend.
  { rewrite Hb. rewrite <- Hrest. rewrite !length_app. lia. }
  rewrite Hend, Nat.eqb_refl. decided. cbn [app].
  replace (mkDurable (d_term d) (d_voted_for d) (d_log d) (d_commit d) (d_applied d) 0 0) with d
    by (destruct d; cbn in *; by subst).
  by rewrite (proj2 (valid_state_spec d) Hsh).
Qed.

Lemma decode_encode_checkpoint d bytes : ck_ok d ->
  encode_checkpoint d = Ok bytes -> decode_checkpoint bytes = Ok d.
Proof.
  intros Hok. pose proof Hok as (_ & _ & _ & Hsh). rewrite encode_checkpoint_layout.
  rewrite (proj2 (valid_state_spec d) Hsh).
  destruct (Z.ltb_spec (kMaximumFileBytes - 4) (16 + zsize (ck_fields d))) as [|Hmax]; [done|].
  intros [= <-]. unfold decode_checkpoint. set (bytes := seal (ck_body d)).
  set (head := bytes_of "CHRAFT01" ++ le_bytes 4 1 ++ le_bytes 4 (wrap32 (zsize (ck_fields d)))).
  set (crc := le_bytes 4 (crc32 (ck_body d))).
  assert (bytes = head ++ ck_fields d ++ crc) as Hb
    by (unfold bytes, seal, ck_body, head; by rewrite <- !app_assoc).
  assert (28 + 4 <= length (ck_fields d))%nat as Hmin
    by (unfold ck_fields; rewrite !length_app, !le_bytes_length; lia).
  assert (length bytes = 20 + length (ck_fields d))%nat as Hlen.
  { rewrite Hb. unfold head, crc. autorewrite with bytes. simpl. lia. }
  assert (wrap32 (zsize (ck_fields d)) = zsize (ck_fields d)) as Hw.
  { unfold wrap32. apply Z.mod_small. unfold kMaximumFileBytes, zsize in *. lia. }
  assert (take 8 bytes = bytes_of "CHRAFT01") as ->
    by (eapply take_field; [rewrite Hb; unfold head; by rewrite <- !app_assoc|done]).
  assert (read_u32 bytes 8 = 1) as ->
    by (eapply (read_field _ _ (bytes_of "CHRAFT01"));
        [rewrite Hb; unfold head; by rewrite <- !app_assoc|done|by vm_compute]).
  assert (read_u32 bytes 12 = zsize bytes - 20) as ->.
  { eapply (read_field _ _ (bytes_of "CHRAFT01" ++ le_bytes 4 1));
      [|done|unfold zsize; rewrite Hlen; unfold kMaximumFileBytes, zsize in *; simpl (256 ^ _); lia].
    rewrite Hb at 1. unfold head. rewrite Hw.
    replace (zsize bytes - 20) with (zsize (ck_fields d)) by (unfold zsize; rewrite Hlen; lia).
    by rewrite <- !app_assoc. }
  destruct (Nat.ltb_spec (length bytes) (16 + 8 * 3 + 4 + 4 + 4)) as [Hx|_]; [lia|].
  destruct (Z.ltb_spec kMaximumFileBytes (zsize bytes)) as [Hx|_].
  { unfold zsize, kMaximumFileBytes in *. rewrite Hlen in Hx. lia. }
  decided. rewrite Z.eqb_refl. decided.
  unfold bytes at 1 2 3 4. rewrite seal_size, seal_body, seal_checksum, Z.eqb_refl by apply ck_body_ok.
  decided. rewrite Hb. by apply decode_fields_at.
Qed.

(** ** The store *)

(** A well-formed durable state is in the range of the file's fields. *)
Lemma durable_ck d : durable_ok d -> shape_ok d -> ck_ok d.
Proof.
  intros Hd Hs. pose proof (ok_terms _ Hd) as Hterms. pose proof Hd as [].
  split; [|split; [|split; [|done]]]; [ulia|ulia|].
  apply list.Forall_forall. intros e Hin. apply list_elem_of_lookup in Hin as [i Hi].
  apply Hterms in Hi. ulia.
Qed.

(** A store whose last write is certain holds what its file holds. *)
Definition store_ok (s : CheckpointStore) : Prop :=
  cs_uncertain s = false -> read_checkpoint (cs_file s) None = Ok (cs_current s).

(** What [persist] leaves: on success the target, in memory and on disk; on
    failure the old or the new state on disk. *)
Lemma persist_law s target outcome s' error :
  store_ok s -> durable_ok target -> persist s target outcome = (s', error) ->
  store_ok s' /\
  match error with
  | None => cs_current s' = target /\ cs_uncertain s' = false
  | Some _ => read_checkpoint (cs_file s') None = read_checkpoint (cs_file s) None \/
              read_checkpoint (cs_file s') None = Ok target
  end.
Proof.
  intros Hs Ht H. unfold persist in H.
  destruct (cs_uncertain s) eqn:Hu; [simplify_eq; split; [done|by left]|].
  destruct (validate_transition (cs_current s) target) as [[]|e] eqn:Hv;
    [|simplify_eq; split; [done|by left]].
  assert (shape_ok target) as Hshape.
  { apply valid_state_spec. unfold validate_transition in Hv.
    destruct (valid_state target) as [[]|]; [done|done]. }
  destruct (encode_checkpoint target) as [bytes|e] eqn:He; [|simplify_eq; split; [done|by left]].
  pose proof (decode_encode_checkpoint target bytes (durable_ck _ Ht Hshape) He) as Hd.
  destruct (cs_fault s), outcome; cbn [write_atomic] in H; simplify_eq;
    (split; [intros Hx; first [discriminate Hx | exact Hd]|]);
    first [ by split | by left | by right ].
Qed.

Lemma recover_law s access s' r : recover s access = (s', r) ->
  store_ok s' /\ cs_file s' = cs_file s /\
  r = match access with Some e => Err e | None => read_checkpoint (cs_file s) None end /\
  match r with Ok d => cs_current s' = d /\ cs_uncertain s' = false | Err _ => True end.
Proof.
  unfold recover, store_ok. destruct access as [e|]; cbn [read_checkpoint]; [by intros; simplify_eq|].
  destruct (read_checkpoint (cs_file s) None) as [d|e] eqn:E; cbn [read_checkpoint] in E;
    rewrite E; intros H; simplify_eq; cbn [cs_file cs_current cs_uncertain]; rewrite ?E; done.
Qed.

(** [validate_transition] never refuses, for its order, a state that the core
    may stage. *)
Lemma staged_transition_valid old next :
  durable_ok old -> durable_le old next -> durable_ok next ->
  d_snapshot_index old = 0 -> shape_ok next -> validate_transition old next = Ok tt.
Proof.
  intros Ho Hle Hn Hsi Hshape. unfold validate_transition.
  rewrite (proj2 (valid_state_spec next) Hshape). pose proof Hle as [L1 L2 L3 _ _ L6 _].
  pose proof (sh_index _ Hshape) as Hni. pose proof (sh_commit _ Hshape) as Hnc.
  pose proof (ok_commit _ Ho) as Hoc. rewrite Hsi in Hoc.
  destruct (Z.ltb_spec (d_term next) (d_term old)); [lia|].
  destruct (Z.ltb_spec (d_commit next) (d_commit old)); [lia|]. decided.
  destruct ((d_term next =? d_term old) && is_some (d_voted_for old) &&
            negb (bool_decide (d_voted_for next = d_voted_for old))) eqn:Hvote.
  { bool_props. destruct (d_voted_for old) as [v|] eqn:Hv; [|done].
    exfalso. match goal with H : d_voted_for next <> _ |- _ => apply H end.
    by apply L2. }
  destruct (Z.ltb_spec (log_size (d_log next)) (d_commit old)); [lia|].
  rewrite bool_decide_eq_true_2; [done|]. apply list_eq. intros i.
  destruct (decide (i < Z.to_nat (d_commit old))%nat) as [Hi|Hi].
  - rewrite !lookup_take_lt by done.
    specialize (L6 (Z.of_nat i + 1)). unfold entry_at in L6. rewrite Hni, Hsi in L6.
    destruct (Z.leb_spec (Z.of_nat i + 1) 0); [lia|].
    replace (Z.to_nat (Z.of_nat i + 1 - 0 - 1)) with i in L6 by lia. apply L6. lia.
  - by rewrite !lookup_take_ge by lia.
Qed.

(** A checkpoint is read back as it was written: decoding the file that
    [encode] produces for any well-formed state returns that state, with its
    term, vote, commit index and every entry. *)
Lemma checkpoint_roundtrip d bytes : durable_ok d ->
  encode_checkpoint d = Ok bytes -> decode_checkpoint bytes = Ok d.
Proof.
  intros Hd He. apply (decode_encode_checkpoint d bytes); [|done].
  apply durable_ck; [done|]. apply valid_state_spec. unfold encode_checkpoint in He.
  destruct (valid_state d) as [[]|]; [done|done].
Qed.

(** The store's own guard never stands in the way of the core: any state
    that may follow the current one, of a shape the file can hold, passes
    [validate_transition]. *)
Theorem checkpoint_accepts_successors old next :
  durable_ok old -> shape_ok old -> durable_ok next -> shape_ok next -> durable_le old next ->
  validate_transition old next = Ok tt.
Proof. intros Ho Hos Hn Hns Hle. apply staged_transition_valid; try done. apply Hos. Qed.

Definition demo_durable : Durable :=
  mkDurable 3 (Some "b"%string) [mkEntry 1 "create"; mkEntry 3 "move"] 1 0 0 0.

Lemma demo_durable_ok : durable_ok demo_durable.
Proof.
  apply valid_durable_ok; [|vm_compute; reflexivity].
  repeat split; vm_compute; congruence.
Qed.

Lemma checkpoint_roundtrip_witness :
  exists bytes, encode_checkpoint demo_durable = Ok bytes /\ length bytes = 87%nat /\
    decode_checkpoint bytes = Ok demo_durable.
Proof.
  eexists. split; [vm_compute; reflexivity|]. split; [vm_compute; reflexivity|].
  apply (checkpoint_roundtrip demo_durable); [apply demo_durable_ok|vm_compute; reflexivity].
Defined.

Lemma checkpoint_accepts_successors_witness :
  validate_transition empty_durable demo_durable = Ok tt.
Proof.
  apply checkpoint_accepts_successors;
    [apply durable_ok_empty|apply valid_state_spec; vm_compute; reflexivity|apply demo_durable_ok|
     apply valid_state_spec; vm_compute; reflexivity|].
  split; try (vm_compute; congruence); try done.
  intros i [Hi Hc]. vm_compute in Hi, Hc. destruct i; congruence || done.
Defined.
