(* ===== verification/DurableNode.v ===== *)
(** * The durable driver of the transition core

    [cpp-runtime/src/raft/durable_node.cpp] and its header: the executor that
    runs [step], writes what it stages and releases the effects. The driver is
    written against an interface of durable stores; [CheckpointStore] is an
    instance of it. *)

From S2P Require Import Prelude Text Types Bytes EntryLog Transition TransitionInv TransitionSteps TransitionProps TransitionThms TransitionVotes Checkpoint CheckpointThms.

(** ** What the driver asks of a store *)

Class DurableStore (S : Type) := {
  ds_current : S -> Durable;
  ds_persist : S -> Durable -> AtomicWrite -> S * option Error;
  ds_recover : S -> option Error -> S * result Error Durable;
  (** what a recovery would find on disk *)
  ds_disk : S -> result Error Durable;
  (** no write has failed since the last recovery *)
  ds_certain : S -> bool;
  ds_ok : S -> Prop;
  ds_certain_current : forall s, ds_ok s -> ds_certain s = true ->
    ds_disk s = Ok (ds_current s);
  ds_persist_law : forall s target outcome s' error,
    ds_ok s -> durable_ok target -> ds_persist s target outcome = (s', error) ->
    ds_ok s' /\
    match error with
    | None => ds_current s' = target /\ ds_certain s' = true
    | Some _ => ds_disk s' = ds_disk s \/ ds_disk s' = Ok target
    end;
  ds_recover_law : forall s access s' r,
    ds_ok s -> ds_recover s access = (s', r) ->
    ds_ok s' /\ r = match access with Some e => Err e | None => ds_disk s end /\
    ds_disk s' = ds_disk s /\
    match r with
    | Ok d => ds_current s' = d /\ ds_certain s' = true
    | Err _ => True
    end;
}.

(** ** Configuration checks *)

Fixpoint fresh_names (names : gset string) (peers : list string) : bool :=
  match peers with
  | [] => true
  | peer :: rest =>
      negb (bool_decide (peer = ""%string) || bool_decide (peer ∈ names)) &&
      fresh_names ({[peer]} ∪ names) rest
  end.

Definition valid_config (config : Config) : bool :=
  negb (bool_decide (c_self config = ""%string)) && fresh_names {[c_self config]} (c_peers config).

Definition acceptable_durable_vote (config : Config) (durable : Durable) : bool :=
  match d_voted_for durable with
  | None => true
  | Some vote => bool_decide (vote = c_self config) || bool_decide (vote ∈ c_peers config)
  end.

Definition dn_error (why : string) : Error := mkError StoreError why.

Record DriveResult := mkDriveResult { dr_effects : Effects; dr_error : option Error }.

Section Driver.
Context {S : Type} `{DurableStore S}.

Record DurableNode := mkDurableNode {
  dn_config : Config;
  dn_store : S;
  dn_node : Node;
}.

(** [DurableNode::open] on what [CheckpointStore::open] returns. *)
Definition durable_open (config : Config) (checkpoint : result Error S)
    : result Error DurableNode :=
  if negb (valid_config config) then Err (dn_error "Raft durable driver has invalid cluster IDs")
  else
    let? store := checkpoint in
    if negb (acceptable_durable_vote config (ds_current store))
    then Err (dn_error "Recovered Raft vote does not belong to configured cluster")
    else Ok (mkDurableNode config store (n_with_durable (ds_current store) (initial config))).

(** The branch of [Restart]; [access] is the error of reading the checkpoint. *)
Definition drive_restart (d : DurableNode) (access : option Error) : DurableNode * DriveResult :=
  let config := dn_config d in
  let '(store, recovered) := ds_recover (dn_store d) access in
  let halt why :=
    (mkDurableNode config store (n_with_halted true (n_with_pending None (dn_node d))),
     mkDriveResult (f_with_halt no_effects) (Some why)) in
  match recovered with
  | Ok value =>
      if negb (acceptable_durable_vote config value)
      then halt (dn_error "Recovered Raft vote does not belong to configured cluster")
      else (mkDurableNode config store (n_with_durable value (initial config)),
            mkDriveResult no_effects None)
  | Err e => halt e
  end.

(** [step], then the write it asks for, then its completion. *)
Definition drive_step (d : DurableNode) (input : Input) (outcome : AtomicWrite)
    : DurableNode * DriveResult :=
  let config := dn_config d in
  let '(next, effects) := step config (dn_node d) input in
  match f_persist effects with
  | None => (mkDurableNode config (dn_store d) next, mkDriveResult effects None)
  | Some request =>
      if negb (bool_decide (f_send_now effects = [])) || negb (bool_decide (f_apply effects = []))
      then
        let '(halted, stopped) := step config next (PersistFailed (pq_token request)) in
        (mkDurableNode config (dn_store d) halted,
         mkDriveResult stopped
           (Some (dn_error "Raft core emitted dependent effects before durable write")))
      else
        let '(store, saved) := ds_persist (dn_store d) (pq_target request) outcome in
        match saved with
        | Some e =>
            let '(halted, stopped) := step config next (PersistFailed (pq_token request)) in
            (mkDurableNode config store halted, mkDriveResult stopped (Some e))
        | None =>
            let '(durable, released) := step config next (PersistCompleted (pq_token request)) in
            (mkDurableNode config store durable, mkDriveResult released None)
        end
  end.

(** [dispatch]; [outcome] is how the write that the input may cause ends, and
    [access] the error of the read that a restart makes, if it fails. *)
Definition dispatch (d : DurableNode) (input : Input) (outcome : AtomicWrite)
    (access : option Error) : DurableNode * DriveResult :=
  match input with
  | Restart => drive_restart d access
  | PersistCompleted _ | PersistFailed _ =>
      (d, mkDriveResult no_effects
            (Some (dn_error "Persistence callbacks are private to the Raft storage driver")))
  | ApplyCommitted =>
      (d, mkDriveResult no_effects
            (Some (dn_error "ApplyCommitted requires atomic choreography checkpoint integration")))
  | _ => drive_step d input outcome
  end.
End Driver.
Arguments DurableNode S : clear implicits.

(** ** The checkpoint store meets the interface *)

#[export] Instance checkpoint_durable_store : DurableStore CheckpointStore.
Proof.
  refine {| ds_current := cs_current; ds_persist := persist; ds_recover := recover;
            ds_disk s := read_checkpoint (cs_file s) None;
            ds_certain s := negb (cs_uncertain s); ds_ok := store_ok |}.
  - intros s Hs Hc. apply Hs. by apply negb_true_iff.
  - intros s target outcome s' error Hs Ht H.
    destruct (persist_law s target outcome s' error Hs Ht H) as [Hs' Hr]. split; [done|].
    destruct error; [done|]. destruct Hr as [-> ->]. done.
  - intros s access s' r _ H. destruct (recover_law s access s' r H) as (Hs & Hf & Hr & Hm).
    split; [done|]. split; [done|]. split; [by rewrite Hf|]. destruct r; [|done].
    destruct Hm as [-> ->]. done.
Defined.

(** ** The invariant of the driver *)

Section DriverInv.
Context {S : Type} `{DurableStore S}.

(** Between two inputs no write is in flight; the disk holds a well-formed
    state that may follow the node's; and a node that runs has exactly what is
    on disk. *)
Record driver_ok (d : DurableNode S) : Prop := {
  dv_node : node_ok (dn_config d) (dn_node d);
  dv_idle : n_pending (dn_node d) = None;
  dv_store : ds_ok (dn_store d);
  dv_disk : exists on_disk, ds_disk (dn_store d) = Ok on_disk /\ durable_ok on_disk /\
              durable_le (n_durable (dn_node d)) on_disk;
  dv_live : n_halted (dn_node d) = false ->
            ds_certain (dn_store d) = true /\ ds_current (dn_store d) = n_durable (dn_node d);
}.

Lemma live_disk d : driver_ok d -> n_halted (dn_node d) = false ->
  ds_disk (dn_store d) = Ok (n_durable (dn_node d)).
Proof.
  intros [_ _ Hs _ Hl] Hh. destruct (Hl Hh) as [Hc <-]. by apply ds_certain_current.
Qed.

Lemma open_ok config checkpoint d :
  durable_open config checkpoint = Ok d ->
  (forall s, checkpoint = Ok s -> ds_ok s /\ ds_certain s = true /\ durable_ok (ds_current s)) ->
  driver_ok d /\ n_halted (dn_node d) = false.
Proof.
  unfold durable_open. intros Ho Hs. repeat case_in Ho; simplify_eq.
  destruct (Hs _ eq_refl) as (Hok & Hc & Hd). split; [|done]. split; cbn [dn_config dn_node dn_store].
  - by apply recovered_ok.
  - done.
  - done.
  - exists (ds_current a). split; [by apply ds_certain_current|]. done.
  - done.
Qed.

Lemma restart_ok d access d' r : driver_ok d -> drive_restart d access = (d', r) -> driver_ok d'.
Proof.
  intros [Hn Hi Hs (disk & Hd & Hdok & Hle) Hl] Hr. unfold drive_restart in Hr.
  destruct (ds_recover (dn_store d) access) as [store rec] eqn:E.
  destruct (ds_recover_law _ _ _ _ Hs E) as (Hs' & Hrec & Hdisk & Hm). rewrite Hd in Hrec.
  assert (node_ok (dn_config d) (n_with_halted true (n_with_pending None (dn_node d)))) as Hhalt.
  { destruct Hn as [N1 N2 N3 N4 N5 N6 N7 N8]. unfold staged in *. rewrite Hi in *.
    split; unfold staged; cbn; try done. }
  assert (exists on_disk, ds_disk store = Ok on_disk /\ durable_ok on_disk /\
    durable_le (n_durable (dn_node d)) on_disk) as Hdisk' by (exists disk; by rewrite Hdisk).
  destruct access as [e|]; subst rec; [injection Hr as <- <-; by split|].
  destruct Hm as [Hcur Hcert].
  case_in Hr; injection Hr as <- <-; split; cbn [dn_config dn_node dn_store]; try done.
  - by apply recovered_ok.
  - exists disk. by rewrite Hdisk.
Qed.

(** What one turn of the driver does: the invariant is kept, the durable state
    only moves forward, every vote reply that leaves is on disk, and an error
    halts the node with nothing released. *)
Record turn_ok (d d' : DurableNode S) (r : DriveResult) : Prop := {
  tn_ok : driver_ok d';
  tn_config : dn_config d' = dn_config d;
  tn_le : durable_le (n_durable (dn_node d)) (n_durable (dn_node d'));
  tn_votes : Forall (vote_justified (dn_config d) (n_durable (dn_node d')))
               (f_send_now (dr_effects r));
  tn_error : dr_error r <> None -> f_send_now (dr_effects r) = [] /\ f_apply (dr_effects r) = [];
  tn_sends : f_send_now (dr_effects r) <> [] -> n_halted (dn_node d') = false;
}.

Lemma failed_turn d n1 p q store e n2 f2 :
  driver_ok d -> node_ok (dn_config d) n1 -> n_pending n1 = Some p -> n_halted n1 = false ->
  n_durable n1 = n_durable (dn_node d) -> pw_token p = pq_token q -> pw_target p = pq_target q ->
  ds_ok store -> ds_disk store = ds_disk (dn_store d) \/ ds_disk store = Ok (pq_target q) ->
  step (dn_config d) n1 (PersistFailed (pq_token q)) = (n2, f2) ->
  turn_ok d (mkDurableNode (dn_config d) store n2) (mkDriveResult f2 (Some e)).
Proof.
  intros [_ _ _ (disk & Hdisk & Hdok & Hle) _] Hn1 Hp Hh1 Hd1 Htok Htgt Hs' Hm E2.
  pose proof (step_ok _ _ (PersistFailed (pq_token q)) _ _ Hn1 I E2) as Hn2.
  rewrite <- Htok in E2. pose proof (stage_fails _ _ _ _ _ Hn1 Hp Hh1 E2) as Hfail.
  apply fail_stop_effects in Hfail as (F1 & F2 & F3 & _ & _ & _ & F4 & F5).
  pose proof (no_staged _ _ Hn1) as N2. pose proof (no_le _ _ Hn1) as N3.
  unfold staged in N2, N3. rewrite Hp, Htgt in N2, N3. rewrite Hd1 in N3.
  split; cbn [dn_config dn_node dn_store dr_effects dr_error]; [|done| |by rewrite F4|done|by rewrite F4].
  - split; cbn [dn_config dn_node dn_store]; [done|done|done| |intros Hx; congruence].
    rewrite F1, Hd1. destruct Hm as [-> | ->]; [by exists disk|by exists (pq_target q)].
  - by rewrite F1, Hd1.
Qed.

Lemma completed_turn d n1 p q store n2 f2 :
  core_ok (dn_config d) n1 -> n_pending n1 = Some p -> n_halted n1 = false ->
  n_durable n1 = n_durable (dn_node d) -> pw_token p = pq_token q -> pw_target p = pq_target q ->
  ds_ok store -> ds_current store = pq_target q -> ds_certain store = true ->
  step (dn_config d) n1 (PersistCompleted (pq_token q)) = (n2, f2) ->
  turn_ok d (mkDurableNode (dn_config d) store n2) (mkDriveResult f2 None).
Proof.
  intros Hc1 Hp Hh1 Hd1 Htok Htgt Hs' Hcur Hcert E2. pose proof (co_node _ _ Hc1) as Hn1.
  pose proof (step_ok _ _ (PersistCompleted (pq_token q)) _ _ Hn1 I E2) as Hn2.
  pose proof (step_sends_votes _ _ _ _ _ Hc1 E2) as Hvotes.
  rewrite <- Htok in E2. destruct (stage_completes _ _ _ _ _ Hn1 Hp Hh1 E2) as (Hd2 & Hp2 & Hh2).
  pose proof (no_staged _ _ Hn1) as N2. pose proof (no_le _ _ Hn1) as N3.
  unfold staged in N2, N3. rewrite Hp in N2, N3. rewrite Hd1 in N3.
  split; cbn [dn_config dn_node dn_store dr_effects dr_error]; [|done|by rewrite Hd2|done|done|done].
  split; cbn [dn_config dn_node dn_store]; [done|done|done| |].
  - exists (pq_target q). split; [rewrite <- Hcur; by apply ds_certain_current|].
    rewrite Hd2, Htgt in *. done.
  - intros _. split; [done|]. congruence.
Qed.

Lemma drive_step_turn d i outcome d' r :
  driver_ok d -> input_typed i -> i <> Restart -> drive_step d i outcome = (d', r) ->
  turn_ok d d' r.
Proof.
  intros Hd Hi Hnr Hr. pose proof Hd as [Hn Hidle Hs Hdisk Hl].
  unfold drive_step in Hr. destruct (step (dn_config d) (dn_node d) i) as [n1 f1] eqn:E1.
  pose proof (core_ok_idle _ _ Hn Hidle) as Hc. pose proof (step_core_ok _ _ _ _ _ Hc Hi E1) as Hc1.
  pose proof (co_node _ _ Hc1) as Hn1.
  destruct (f_persist f1) as [q|] eqn:Hq.
  - destruct (step_stages _ _ _ _ _ _ Hn Hidle E1 Hq)
      as (p & Hp & Htok & Htgt & Hsend & Happ & Hh1 & Hd1).
    rewrite Hsend, Happ in Hr. rewrite !bool_decide_eq_true_2 in Hr by done. cbn [negb orb] in Hr.
    assert (durable_ok (pq_target q)) as Htok'.
    { pose proof (no_staged _ _ Hn1) as N2. unfold staged in N2. by rewrite Hp, Htgt in N2. }
    destruct (ds_persist (dn_store d) (pq_target q) outcome) as [store error] eqn:Hpe.
    destruct (ds_persist_law _ _ _ _ _ Hs Htok' Hpe) as [Hs' Hm]. destruct error as [e|].
    + destruct (step (dn_config d) n1 (PersistFailed (pq_token q))) as [n2 f2] eqn:E2.
      injection Hr as <- <-. by eapply failed_turn.
    + destruct (step (dn_config d) n1 (PersistCompleted (pq_token q))) as [n2 f2] eqn:E2.
      injection Hr as <- <-. destruct Hm. by eapply completed_turn.
  - injection Hr as <- <-.
    destruct (step_rests _ _ _ _ _ Hn Hidle Hnr E1 Hq) as (Hp1 & Hd1 & Hh1).
    pose proof (step_sends_votes _ _ _ _ _ Hc E1) as Hvotes.
    split; cbn [dn_config dn_node dn_store dr_effects dr_error];
      [|done|by rewrite Hd1|done|done|].
    + split; cbn [dn_config dn_node dn_store]; [done|done|done|by rewrite Hd1|by rewrite Hh1, Hd1].
    + intros Hsend. rewrite Hh1. destruct (n_halted (dn_node d)) eqn:Hh; [|done].
      by destruct (Hsend (halted_sends_nothing _ _ _ _ _ Hn Hidle Hh E1)).
Qed.

Lemma restart_turn d access d' r :
  driver_ok d -> drive_restart d access = (d', r) -> turn_ok d d' r.
Proof.
  intros Hd Hr. pose proof (restart_ok d access d' r Hd Hr) as Hok.
  destruct Hd as [Hn Hi Hs (disk & Hdisk & Hdok & Hle) _]. unfold drive_restart in Hr.
  destruct (ds_recover (dn_store d) access) as [store rec] eqn:E.
  destruct (ds_recover_law _ _ _ _ Hs E) as (Hs' & Hrec & _ & _). rewrite Hdisk in Hrec.
  destruct access as [e|]; subst rec; [injection Hr as <- <-; by split|].
  case_in Hr; injection Hr as <- <-; by split.
Qed.

Lemma dispatch_turn d i outcome access d' r :
  driver_ok d -> input_typed i -> dispatch d i outcome access = (d', r) -> turn_ok d d' r.
Proof.
  intros Hd Hi Hr. unfold dispatch in Hr. destruct i;
    try (by eapply drive_step_turn); try (by eapply restart_turn);
    injection Hr as <- <-; (split; cbn; try done; apply Hd).
Qed.

(** An input with the outcomes of the write and the read it may cause. *)
Definition Turn : Type := Input * AtomicWrite * option Error.

Definition drive (d : DurableNode S) (inputs : list Turn) : DurableNode S :=
  foldl (fun d '(i, outcome, access) => fst (dispatch d i outcome access)) d inputs.

Definition turn_typed (t : Turn) : Prop := input_typed (fst (fst t)).

Lemma drive_ok inputs : forall d, driver_ok d -> Forall turn_typed inputs ->
  driver_ok (drive d inputs) /\
  durable_le (n_durable (dn_node d)) (n_durable (dn_node (drive d inputs))).
Proof.
  induction inputs as [|[[i o] a] inputs IH]; intros d Hd Hall; [done|].
  inversion Hall as [|?? Hi Hrest]; subst. cbn [drive foldl].
  destruct (dispatch d i o a) as [d' r] eqn:E. cbn [fst].
  destruct (dispatch_turn _ _ _ _ _ _ Hd Hi E) as [Hok' _ Hle _ _ _].
  destruct (IH d' Hok' Hrest) as [Hfin Hle']. split; [done|]. by etrans.
Qed.

(** A store as opening leaves it: consistent, certain and well formed. *)
Definition store_opened (s : S) : Prop :=
  ds_ok s /\ ds_certain s = true /\ durable_ok (ds_current s).

Lemma opened_driver_ok config store d :
  durable_open config (Ok store) = Ok d -> store_opened store ->
  driver_ok d /\ n_durable (dn_node d) = ds_current store.
Proof.
  intros Ho Hs. split.
  - apply (open_ok config (Ok store) d Ho). by intros s [= <-].
  - unfold durable_open in Ho. repeat case_in Ho; by simplify_eq.
Qed.

(** C25: Whatever inputs arrive, in whatever order, and however the writes they
    cause end, no write is left in flight, the disk always holds a readable
    well-formed state that never moved back from the one the driver was opened
    with, and a node that has not halted holds exactly what is on disk. *)
Theorem driver_and_disk_agree config store d inputs :
  store_opened store -> durable_open config (Ok store) = Ok d ->
  Forall turn_typed inputs ->
  let d' := drive d inputs in
  n_pending (dn_node d') = None /\
  (exists on_disk, ds_disk (dn_store d') = Ok on_disk /\ durable_ok on_disk /\
     durable_le (ds_current store) on_disk) /\
  (n_halted (dn_node d') = false -> ds_disk (dn_store d') = Ok (n_durable (dn_node d'))).
Proof.
  intros Hs Ho Hall. destruct (opened_driver_ok _ _ _ Ho Hs) as [Hd Hcur].
  destruct (drive_ok inputs d Hd Hall) as [Hfin Hle]. cbv zeta. rewrite <- Hcur.
  pose proof Hfin as [_ Hp _ (disk & Hdisk & Hdok & Hle') _].
  split; [done|]. split; [|by apply live_disk].
  exists disk. split; [done|]. split; [done|]. by etrans.
Qed.

(** The driver releases nothing that the disk does not back: when a turn
    sends anything, the disk holds the node's durable state, and a vote it
    grants is the vote recorded there in that term; a turn that reports an
    error sends and applies nothing. *)
Lemma released_effects_are_backed config store d inputs i outcome access d' r :
  store_opened store -> durable_open config (Ok store) = Ok d ->
  Forall turn_typed inputs -> input_typed i ->
  dispatch (drive d inputs) i outcome access = (d', r) ->
  (f_send_now (dr_effects r) <> [] -> ds_disk (dn_store d') = Ok (n_durable (dn_node d'))) /\
  (forall to v, mkOutbound to (MVoteReply v) ∈ f_send_now (dr_effects r) -> vr_granted v = true ->
     d_term (n_durable (dn_node d')) = vr_term v /\ d_voted_for (n_durable (dn_node d')) = Some to) /\
  (dr_error r <> None -> f_send_now (dr_effects r) = [] /\ f_apply (dr_effects r) = []).
Proof.
  intros Hs Ho Hall Hi Hr. destruct (opened_driver_ok _ _ _ Ho Hs) as [Hd _].
  destruct (drive_ok inputs d Hd Hall) as [Hfin _].
  destruct (dispatch_turn _ _ _ _ _ _ Hfin Hi Hr) as [Hok _ _ Hv He Hsend].
  split; [intros Hx; apply live_disk; auto|]. split; [|done].
  intros to v Hin Hg. rewrite list.Forall_forall in Hv. destruct (Hv _ Hin) as (_ & ? & Hj).
  by destruct (Hj Hg).
Qed.
End DriverInv.

(** ** A run on the checkpoint store *)

Definition demo_store : CheckpointStore :=
  mkCheckpointStore None empty_durable false NoCheckpointFault false.

Lemma demo_store_opened : store_opened demo_store.
Proof. split; [by intros _|]. split; [done|]. apply durable_ok_empty. Qed.

Definition demo_driver : DurableNode CheckpointStore :=
  mkDurableNode demo_config demo_store (n_with_durable empty_durable (initial demo_config)).

(** An election whose write succeeds, a vote that arrives, a proposal whose
    write fails after the file was replaced, and a restart. *)
Definition demo_drive : list Turn :=
  [(ElectionTimeout, Replaced, None); (RecvVoteReply (mkVoteReply 1 "b" true 1), Replaced, None);
   (ClientPropose "move", ReplacedUnsynced (dn_error "fsync failed"), None);
   (Restart, Replaced, None)].

Lemma driver_and_disk_agree_witness :
  n_halted (dn_node (drive demo_driver (take 3 demo_drive))) = true /\
  let d' := drive demo_driver demo_drive in
  d_log (n_durable (dn_node d')) = [mkEntry 1 "move"] /\
  ds_disk (dn_store d') = Ok (n_durable (dn_node d')).
Proof.
  split; [vm_compute; reflexivity|]. cbv zeta. split; [vm_compute; reflexivity|].
  apply (driver_and_disk_agree demo_config demo_store demo_driver demo_drive);
    [apply demo_store_opened|vm_compute; reflexivity| |vm_compute; reflexivity].
  repeat apply Forall_cons_2; try apply Forall_nil_2; cbn; unfold u64, max_u64; try done; lia.
Defined.

Lemma released_effects_are_backed_witness :
  let '(d', r) := dispatch demo_driver vote_request Replaced None in
  f_send_now (dr_effects r) = [vote_reply] /\
  ds_disk (dn_store d') = Ok (n_durable (dn_node d')) /\
  d_voted_for (n_durable (dn_node d')) = Some "b"%string.
Proof.
  destruct (dispatch demo_driver vote_request Replaced None) as [d' r] eqn:E.
  assert (f_send_now (dr_effects r) = [vote_reply]) as Hsend.
  { transitivity (f_send_now (dr_effects (snd (dispatch demo_driver vote_request Replaced None))));
      [by rewrite E|vm_compute; reflexivity]. }
  destruct (released_effects_are_backed demo_config demo_store demo_driver [] vote_request Replaced
    None d' r demo_store_opened) as (Hdisk & Hvote & _).
  - vm_compute; reflexivity.
  - apply Forall_nil_2.
  - repeat split; vm_compute; congruence.
  - exact E.
  - split; [exact Hsend|]. split; [apply Hdisk; by rewrite Hsend|].
    apply (Hvote "b"%string (mkVoteReply 1 "a" true 7)); [|reflexivity].
    rewrite Hsend. apply list_elem_of_here.
Defined.
