(* ===== verification/PendingRequests.v ===== *)
(** * Pending client requests

    [cpp-runtime/include/choreoos/network/pending_requests.hpp]: the waiters
    of a node, keyed by request id and grouped by the log index they wait for.
    The two maps are kept consistent, and a commit wakes exactly the requests
    it covers, in log order. *)

From S2P Require Import Prelude.

Section Pending.
Context {T : Type}.

Record PendingRequests := mkPending {
  pq_next : Z;
  pq_items : gmap Z (Z * T);
  pq_by_index : gmap Z (gset Z);
}.

Definition no_requests : PendingRequests := mkPending 1 ∅ ∅.

Definition kCapacity : nat := 1024.

Definition full (p : PendingRequests) : bool := Nat.leb kCapacity (size (pq_items p)).

(** [*set.begin()] *)
Definition set_begin (s : gset Z) : option Z := head (merge_sort Z.le (elements s)).

(** [map.begin()->first] *)
Definition map_begin {V} (m : gmap Z V) : option Z := set_begin (dom m).

(** [add]: [items_.emplace] keeps an item that is already there. *)
Definition add (p : PendingRequests) (index : Z) (item : T) : Z * PendingRequests :=
  let id := pq_next p in
  (id, mkPending (wrap64 (id + 1))
         (match pq_items p !! id with
          | Some _ => pq_items p
          | None => <[id := (index, item)]> (pq_items p)
          end)
         (<[index := {[id]} ∪ default ∅ (pq_by_index p !! index)]> (pq_by_index p))).

Definition take_request (p : PendingRequests) (id : Z) : option T * PendingRequests :=
  match pq_items p !! id with
  | None => (None, p)
  | Some (index, value) =>
      let group := default ∅ (pq_by_index p !! index) ∖ {[id]} in
      (Some value,
       mkPending (pq_next p) (delete id (pq_items p))
         (if bool_decide (group = ∅) then delete index (pq_by_index p)
          else <[index := group]> (pq_by_index p)))
  end.

(** The loop of [take_through]; every turn removes a request, so the number of
    requests is enough fuel. *)
Fixpoint take_loop (fuel : nat) (p : PendingRequests) (commit : Z) (ready : list T)
    : list T * PendingRequests :=
  match fuel with
  | O => (ready, p)
  | S fuel =>
      match map_begin (pq_by_index p) with
      | Some index =>
          if index <=? commit then
            match set_begin (default ∅ (pq_by_index p !! index)) with
            | Some id =>
                let '(item, p) := take_request p id in
                take_loop fuel p commit
                  (match item with Some v => ready ++ [v] | None => ready end)
            | None => (ready, p)
            end
          else (ready, p)
      | None => (ready, p)
      end
  end.

Definition take_through (p : PendingRequests) (commit : Z) : list T * PendingRequests :=
  take_loop (size (pq_items p)) p commit [].

Fixpoint take_all (p : PendingRequests) (ids : list Z) (removed : list T)
    : list T * PendingRequests :=
  match ids with
  | [] => (removed, p)
  | id :: rest =>
      let '(item, p) := take_request p id in
      take_all p rest (match item with Some v => removed ++ [v] | None => removed end)
  end.

(** [remove_if], the ids in ascending order. *)
Definition remove_if (p : PendingRequests) (predicate : T -> bool) : list T * PendingRequests :=
  let ids := filter (fun id => match pq_items p !! id with
                               | Some (_, v) => predicate v | None => false end = true)
               (merge_sort Z.le (elements (dom (pq_items p)))) in
  take_all p ids [].

(** ** The invariant *)

(** Every request is in the group of its index and the other way round, groups
    are not empty, and ids below [next_] have been given out. *)
Record pending_ok (p : PendingRequests) : Prop := {
  pd_grouped : forall id i v, pq_items p !! id = Some (i, v) ->
    exists g, pq_by_index p !! i = Some g /\ id ∈ g;
  pd_listed : forall i g id, pq_by_index p !! i = Some g -> id ∈ g ->
    exists v, pq_items p !! id = Some (i, v);
  pd_group : forall i g, pq_by_index p !! i = Some g -> g <> ∅;
  pd_next : forall id x, pq_items p !! id = Some x -> id < pq_next p;
}.

Lemma no_requests_ok : pending_ok no_requests.
Proof. by split. Qed.

Lemma set_begin_min s id : set_begin s = Some id -> id ∈ s /\ forall x, x ∈ s -> id <= x.
Proof.
  unfold set_begin. intros H.
  pose proof (StronglySorted_merge_sort Z.le (elements s)) as Hs.
  pose proof (merge_sort_Permutation Z.le (elements s)) as Hp.
  destruct (merge_sort Z.le (elements s)) as [|y l] eqn:E; [done|]. simpl in H. injection H as <-.
  inversion Hs as [|?? _ Hall]; subst.
  assert (forall x, x ∈ s <-> x ∈ y :: l) as Hin
    by (intros x; rewrite <- elem_of_elements, Hp; done).
  split; [apply Hin, list_elem_of_here|]. intros x Hx. apply Hin in Hx.
  apply elem_of_cons in Hx as [-> |Hx]; [lia|]. rewrite list.Forall_forall in Hall. by apply Hall.
Qed.

Lemma set_begin_none s : set_begin s = None -> s = ∅.
Proof.
  unfold set_begin. intros H. destruct (merge_sort Z.le (elements s)) as [|y l] eqn:E; [|done].
  pose proof (merge_sort_Permutation Z.le (elements s)) as Hp. rewrite E in Hp.
  apply Permutation_nil_l in Hp. apply leibniz_equiv. by apply elements_empty_iff.
Qed.

Lemma add_ok p index item :
  pending_ok p -> 0 <= pq_next p < max_u64 -> pending_ok (snd (add p index item)).
Proof.
  intros [H1 H2 H3 H4] Hn. unfold add. cbn [snd].
  assert (pq_items p !! pq_next p = None) as Hfresh.
  { destruct (pq_items p !! pq_next p) eqn:E; [|done]. apply H4 in E. lia. }
  rewrite Hfresh. assert (wrap64 (pq_next p + 1) = pq_next p + 1) as Hw
    by (apply wrap64_small; unfold u64; lia).
  split; cbn [pq_items pq_by_index pq_next].
  - intros id i v Hid. apply lookup_insert_Some in Hid as [[<- [= <- <-]]|[Hne Hid]].
    + exists ({[pq_next p]} ∪ default ∅ (pq_by_index p !! index)).
      rewrite lookup_insert_eq. set_solver.
    + apply H1 in Hid as (g & Hg & Hin). destruct (decide (i = index)) as [-> |Hi].
      * rewrite lookup_insert_eq, Hg. eexists. split; [done|]. simpl. set_solver.
      * rewrite lookup_insert_ne by done. eauto.
  - intros i g id Hg Hin. apply lookup_insert_Some in Hg as [[<- <-]|[Hne Hg]].
    + apply elem_of_union in Hin as [Hin|Hin].
      * apply elem_of_singleton in Hin as ->. rewrite lookup_insert_eq. eauto.
      * destruct (pq_by_index p !! index) as [g|] eqn:Hg; simpl in Hin; [|set_solver].
        destruct (H2 _ _ _ Hg Hin) as [v Hv]. exists v. rewrite lookup_insert_ne; [done|].
        intros <-. congruence.
    + destruct (H2 _ _ _ Hg Hin) as [v Hv]. exists v. rewrite lookup_insert_ne; [done|].
      intros <-. congruence.
  - intros i g Hg. apply lookup_insert_Some in Hg as [[<- <-]|[Hne Hg]]; [set_solver|by eapply H3].
  - intros id x Hid. rewrite Hw.
    apply lookup_insert_Some in Hid as [[<- _]|[_ Hid]]; [lia|]. apply H4 in Hid. lia.
Qed.

Lemma take_ok p id : pending_ok p -> pending_ok (snd (take_request p id)).
Proof.
  intros Hok. pose proof Hok as [H1 H2 H3 H4]. unfold take_request.
  destruct (pq_items p !! id) as [[index value]|] eqn:E; [|done]. cbn [snd].
  destruct (H1 _ _ _ E) as (g0 & Hg0 & Hin0). rewrite Hg0. simpl default.
  split; cbn [pq_items pq_by_index pq_next].
  - intros id' i v Hid. apply lookup_delete_Some in Hid as [Hne Hid].
    apply H1 in Hid as (g & Hg & Hin). destruct (decide (i = index)) as [-> |Hi].
    + rewrite Hg0 in Hg. injection Hg as <-. rewrite bool_decide_eq_false_2 by set_solver.
      rewrite lookup_insert_eq. eexists. split; [done|]. set_solver.
    + exists g. split; [|done]. case_bool_decide; [by rewrite lookup_delete_ne|
        by rewrite lookup_insert_ne].
  - intros i g id' Hg Hin.
    assert (exists g', pq_by_index p !! i = Some g' /\ id' ∈ g' /\ id' <> id) as (g' & Hg' & Hin' & Hne).
    { assert (i <> index -> pq_by_index p !! i = Some g -> exists g', pq_by_index p !! i = Some g' /\
        id' ∈ g' /\ id' <> id) as Hother.
      { intros Hi Hgi. exists g. split; [done|]. split; [done|]. intros ->.
        destruct (H2 _ _ _ Hgi Hin) as [v Hv]. congruence. }
      case_bool_decide as Hb.
      - apply lookup_delete_Some in Hg as [Hne Hg]. by apply Hother.
      - apply lookup_insert_Some in Hg as [[<- <-]|[Hne Hg]]; [|by apply Hother].
        exists g0. set_solver. }
    destruct (H2 _ _ _ Hg' Hin') as [v Hv]. exists v. by rewrite lookup_delete_ne.
  - intros i g Hg. case_bool_decide as Hb.
    + apply lookup_delete_Some in Hg as [_ Hg]. by eapply H3.
    + apply lookup_insert_Some in Hg as [[<- <-]|[_ Hg]]; [done|by eapply H3].
  - intros id' x Hid. apply lookup_delete_Some in Hid as [_ Hid]. by eapply H4.
Qed.

(** ** Waking the requests a commit covers *)

(** Requests in the order they are woken: by index, then by id. *)
Definition before (p : PendingRequests) (a b : Z) : Prop :=
  exists i va j vb, pq_items p !! a = Some (i, va) /\ pq_items p !! b = Some (j, vb) /\
    (i < j \/ i = j /\ a < b).

(** [ids] are the requests of [p] that wait for an index up to [commit], in
    order, and [values] are theirs. *)
Record woken (p : PendingRequests) (commit : Z) (ids : list Z) (values : list T) : Prop := {
  wk_values : Forall2 (fun id v => exists i, pq_items p !! id = Some (i, v) /\ i <= commit) ids values;
  wk_all : forall id i v, pq_items p !! id = Some (i, v) -> i <= commit -> id ∈ ids;
  wk_order : StronglySorted (before p) ids;
}.

Lemma take_first p commit index id : pending_ok p ->
  map_begin (pq_by_index p) = Some index -> index <= commit ->
  set_begin (default ∅ (pq_by_index p !! index)) = Some id ->
  exists v, pq_items p !! id = Some (index, v) /\
    forall id' j v', pq_items p !! id' = Some (j, v') -> id' <> id -> before p id id'.
Proof.
  intros [H1 H2 H3 H4] Hm Hc Hs. apply set_begin_min in Hm as [Hdom Hmin].
  apply elem_of_dom in Hdom as [g Hg]. rewrite Hg in Hs. simpl in Hs.
  apply set_begin_min in Hs as [Hin Hless]. destruct (H2 _ _ _ Hg Hin) as [v Hv].
  exists v. split; [done|]. intros id' j v' Hid Hne.
  destruct (H1 _ _ _ Hid) as (g' & Hg' & Hin').
  exists index, v, j, v'. split; [done|]. split; [done|].
  assert (index <= j) as Hle by (apply Hmin, elem_of_dom; by eexists).
  destruct (decide (index = j)) as [<-|]; [|lia]. right. split; [done|].
  rewrite Hg in Hg'. injection Hg' as <-. pose proof (Hless _ Hin'). lia.
Qed.

(** The loop leaves [p'], having woken [ids]. *)
Definition loop_result (p : PendingRequests) (commit : Z) (ready : list T)
    (r : list T * PendingRequests) : Prop :=
  exists ids values p', r = (ready ++ values, p') /\
    woken p commit ids values /\ pending_ok p' /\
    (forall id, pq_items p' !! id = if bool_decide (id ∈ ids) then None else pq_items p !! id).

Lemma loop_stops p commit ready : pending_ok p ->
  (forall id i v, pq_items p !! id = Some (i, v) -> commit < i) ->
  loop_result p commit ready (ready, p).
Proof.
  intros Hok Hnone. exists [], [], p. rewrite app_nil_r. split; [done|].
  split; [|split; [done|intros id; by rewrite bool_decide_eq_false_2 by apply not_elem_of_nil]].
  split; [constructor| |constructor]. intros id i v Hid Hi. apply Hnone in Hid. lia.
Qed.

Lemma before_delete p a b id next by_index :
  before (mkPending next (delete id (pq_items p)) by_index) a b -> before p a b.
Proof.
  intros (i & va & j & vb & Ha & Hb & Ho). cbn [pq_items] in *.
  apply lookup_delete_Some in Ha as [_ Ha]. apply lookup_delete_Some in Hb as [_ Hb].
  by exists i, va, j, vb.
Qed.

Lemma loop_turn p commit ready index id v r :
  pending_ok p -> pq_items p !! id = Some (index, v) -> index <= commit ->
  (forall id' j v', pq_items p !! id' = Some (j, v') -> id' <> id -> before p id id') ->
  loop_result (snd (take_request p id)) commit (ready ++ [v]) r ->
  loop_result p commit ready r.
Proof.
  intros Hok Hv Hle Hfirst (ids & values & p' & -> & [Wv Wa Wo] & Hok' & Hitems).
  unfold take_request in *. rewrite Hv in *. cbn [snd pq_items] in *.
  assert (id ∉ ids) as Hnot.
  { intros Hin. apply list_elem_of_lookup in Hin as [k Hk].
    destruct (Forall2_lookup_l _ _ _ _ _ Wv Hk) as (x & _ & i & Hi & _).
    by rewrite lookup_delete_eq in Hi. }
  exists (id :: ids), (v :: values), p'. split; [by rewrite <- app_assoc|].
  split; [|split; [done|]].
  - split.
    + constructor; [by exists index|]. eapply list.Forall2_impl; [exact Wv|].
      intros x y (i & Hi & Hc). apply lookup_delete_Some in Hi as [_ Hi]. by exists i.
    + intros id' i v' Hid Hi. destruct (decide (id' = id)) as [-> |Hne]; [apply list_elem_of_here|].
      apply list_elem_of_further, (Wa id' i v'); [|done]. by rewrite lookup_delete_ne.
    + constructor.
      * eapply StronglySorted_weaken; [|exact Wo]. intros x y. apply before_delete.
      * apply list.Forall_forall. intros x Hx. apply list_elem_of_lookup in Hx as [k Hk].
        destruct (Forall2_lookup_l _ _ _ _ _ Wv Hk) as (y & _ & i & Hi & _).
        apply lookup_delete_Some in Hi as [Hne Hi]. by eapply Hfirst.
  - intros id'. rewrite Hitems. destruct (decide (id' = id)) as [-> |Hne].
    + rewrite lookup_delete_eq, (bool_decide_eq_true_2 (id ∈ id :: ids)) by apply list_elem_of_here.
      by destruct (bool_decide (id ∈ ids)).
    + rewrite lookup_delete_ne by done. assert (bool_decide (id' ∈ ids) = bool_decide (id' ∈ id :: ids))
        as -> by (apply bool_decide_ext; rewrite elem_of_cons; naive_solver). done.
Qed.

Lemma take_loop_woken fuel : forall p commit ready,
  pending_ok p -> (size (pq_items p) <= fuel)%nat ->
  loop_result p commit ready (take_loop fuel p commit ready).
Proof.
  induction fuel as [|fuel IH]; intros p commit ready Hok Hfuel; cbn [take_loop].
  { apply loop_stops; [done|]. assert (pq_items p = ∅) as -> by (apply map_size_empty_inv; lia).
    intros id i v. by rewrite lookup_empty. }
  destruct (map_begin (pq_by_index p)) as [index|] eqn:Hm.
  2: { apply loop_stops; [done|]. intros id i v Hid. exfalso. apply set_begin_none in Hm.
       destruct (pd_grouped _ Hok _ _ _ Hid) as (g & Hg & _).
       apply elem_of_dom_2 in Hg. set_solver. }
  destruct (Z.leb_spec index commit) as [Hle|Hgt].
  2: { apply loop_stops; [done|]. intros id i v Hid. apply set_begin_min in Hm as [_ Hmin].
       destruct (pd_grouped _ Hok _ _ _ Hid) as (g & Hg & _).
       apply elem_of_dom_2 in Hg. apply Hmin in Hg. lia. }
  destruct (set_begin (default ∅ (pq_by_index p !! index))) as [id|] eqn:Hs.
  2: { exfalso. apply set_begin_none in Hs. apply set_begin_min in Hm as [Hdom _].
       apply elem_of_dom in Hdom as [g Hg]. rewrite Hg in Hs. simpl in Hs.
       by apply (pd_group _ Hok _ _ Hg). }
  destruct (take_first p commit index id Hok Hm Hle Hs) as (v & Hv & Hfirst).
  apply (loop_turn p commit ready index id v); [done..|].
  pose proof (take_ok p id Hok) as Hok'. unfold take_request in *. rewrite Hv in *.
  cbn [snd] in *. apply IH; [done|]. cbn [pq_items]. rewrite map_size_delete, Hv. simpl. lia.
Qed.

(** ** Removing requests *)

Lemma take_request_items p id x : pq_items (snd (take_request p id)) !! x = if bool_decide (x = id) then None else pq_items p !! x.
Proof.
  unfold take_request. destruct (pq_items p !! id) as [[i v]|] eqn:E; cbn [snd pq_items]; case_bool_decide as Hx.
  - subst x. apply lookup_delete_eq.
  - by apply lookup_delete_ne.
  - by subst x.
  - done.
Qed.

Lemma take_request_next p id : pq_next (snd (take_request p id)) = pq_next p.
Proof. unfold take_request. by destruct (pq_items p !! id) as [[i v]|]. Qed.

Lemma take_loop_next fuel : forall p commit ready, pq_next (snd (take_loop fuel p commit ready)) = pq_next p.
Proof.
  induction fuel as [|fuel IH]; intros p commit ready; cbn [take_loop]; [done|].
  destruct (map_begin _) as [index|]; [|done]. destruct (index <=? commit); [|done].
  destruct (set_begin _) as [id|]; [|done]. rewrite <- (take_request_next p id).
  destruct (take_request p id) as [item p']. apply IH.
Qed.

Lemma take_all_spec ids : forall p removed, pending_ok p ->
  let p' := snd (take_all p ids removed) in
  pending_ok p' /\ pq_next p' = pq_next p /\
  (forall x, pq_items p' !! x = if bool_decide (x ∈ ids) then None else pq_items p !! x).
Proof.
  induction ids as [|id ids IH]; intros p removed Hok p'.
  - split; [done|]. split; [done|]. intros x. by rewrite bool_decide_eq_false_2 by apply not_elem_of_nil.
  - unfold p'. cbn [take_all]. pose proof (take_ok p id Hok) as Hok1. pose proof (take_request_next p id) as Hn.
    pose proof (take_request_items p id) as Hi. destruct (take_request p id) as [item p1]. cbn [snd] in *.
    destruct (IH p1 (match item with Some v => removed ++ [v] | None => removed end) Hok1) as (H1 & H2 & H3).
    split; [done|]. split; [congruence|]. intros x. rewrite H3, Hi.
    destruct (decide (x = id)) as [-> |Hne].
    + rewrite (bool_decide_eq_true_2 (id = id)), (bool_decide_eq_true_2 (id ∈ id :: ids)) by (done || apply list_elem_of_here).
      by destruct (bool_decide (id ∈ ids)).
    + rewrite (bool_decide_eq_false_2 (x = id)) by done.
      assert (bool_decide (x ∈ id :: ids) = bool_decide (x ∈ ids)) as -> by (apply bool_decide_ext; rewrite elem_of_cons; naive_solver).
      done.
Qed.

(** [remove_if] keeps exactly the other requests. *)
Lemma remove_if_spec p predicate : pending_ok p ->
  let p' := snd (remove_if p predicate) in
  pending_ok p' /\ pq_next p' = pq_next p /\
  (forall id, pq_items p' !! id =
     match pq_items p !! id with
     | Some (i, v) => if predicate v then None else Some (i, v)
     | None => None
     end).
Proof.
  intros Hok p'. unfold p', remove_if.
  match goal with |- context [take_all p ?ids []] => destruct (take_all_spec ids p [] Hok) as (H1 & H2 & H3) end.
  split; [done|]. split; [done|]. intros id. rewrite H3. clear H1 H2 H3 p'.
  destruct (pq_items p !! id) as [[i v]|] eqn:E; [|by case_bool_decide].
  assert (id ∈ merge_sort Z.le (elements (dom (pq_items p)))) as Hin.
  { rewrite merge_sort_Permutation. apply elem_of_elements, elem_of_dom. by eexists. }
  case_bool_decide as Hb; rewrite list_elem_of_filter, E in Hb.
  - destruct Hb as [-> _]. done.
  - destruct (predicate v); [|done]. by destruct Hb.
Qed.

(** When the commit index advances, exactly the requests that wait for an
    index up to it are woken, each once, by ascending index and in order of
    arrival within an index; all others stay, and the two maps stay
    consistent. *)
Lemma commit_wakes_exactly_its_requests p commit :
  pending_ok p ->
  exists ids values p', take_through p commit = (values, p') /\ woken p commit ids values /\
    pending_ok p' /\
    (forall id, pq_items p' !! id = if bool_decide (id ∈ ids) then None else pq_items p !! id).
Proof.
  intros Hok. destruct (take_loop_woken (size (pq_items p)) p commit [] Hok (Nat.le_refl _))
    as (ids & values & p' & H). exists ids, values, p'. exact H.
Qed.
End Pending.
Arguments PendingRequests T : clear implicits.

(** Three requests, two of them for the same index. *)
Definition demo_pending : PendingRequests string :=
  snd (add (snd (add (snd (add no_requests 9 "late")) 4 "first")) 4 "second").

Lemma demo_pending_ok : pending_ok demo_pending.
Proof.
  assert (forall n, 0 <= n < 10 -> 0 <= n < max_u64) as Hn by (unfold max_u64; lia).
  unfold demo_pending. apply add_ok; [apply add_ok; [apply add_ok; [apply no_requests_ok|]|]|];
    apply Hn; vm_compute; split; congruence.
Qed.

Lemma commit_wakes_exactly_its_requests_witness :
  exists p', take_through demo_pending 5 = (["first"; "second"], p') /\ pending_ok p' /\
    size (pq_items p') = 1%nat.
Proof.
  destruct (commit_wakes_exactly_its_requests demo_pending 5 demo_pending_ok)
    as (ids & values & p' & Ht & _ & Hok & _).
  exists p'. assert (take_through demo_pending 5 = (["first"; "second"], snd (take_through demo_pending 5)))
    as E by (vm_compute; reflexivity).
  rewrite Ht in E. cbn [snd] in E. injection E as ->. split; [exact Ht|]. split; [exact Hok|].
  replace p' with (snd (take_through demo_pending 5)) by (by rewrite Ht). vm_compute. reflexivity.
Defined.
