(* ===== verification/OutboundQueue.v ===== *)
(** * Outbound queues and their shared budget

    [cpp-runtime/include/choreoos/network/outbound_queue.hpp]. Every session
    has a queue of frames; all queues charge one budget. A frame is charged by
    a reservation that lives as long as anything points to its buffer: a frame
    in a queue, or a write in progress that holds the buffer returned by
    [front]. The world below has all of them, with the references counted. *)

From S2P Require Import Prelude.

Record QueueBudget := mkBudget { qb_bytes : Z; qb_client_bytes : Z }.

Definition kGlobalBytes : Z := 32 * 2 ^ 20.
Definition kClientBytes : Z := 24 * 2 ^ 20.
Definition kSessionBytes : Z := 2 * 2 ^ 20.
Definition kFrames : nat := 64.

Definition RetryKey : Type := Z * Z.

(** [Reservation]: the buffer it owns and whether it is charged to a peer. *)
Record Reservation := mkReservation { rs_buffer : string; rs_peer : bool }.

(** [Frame]: the accounted buffer, by the address of its reservation. *)
Record Frame := mkFrame { fm_bytes : nat; fm_retry : option RetryKey }.

Record OutboundQueue := mkQueue { oq_bytes : Z; oq_frames : list Frame }.

(** All sessions, the writes in progress, the reservations and the budget. *)
Record World := mkWorld {
  wd_budget : QueueBudget;
  wd_reservations : gmap nat Reservation;
  wd_queues : gmap nat OutboundQueue;
  wd_writes : list nat;
  wd_next : nat;
}.

Definition buffer_size (b : string) : Z := Z.of_nat (String.length b).

(** [frame.bytes->size()] *)
Definition frame_size (w : World) (frame : nat) : Z :=
  match wd_reservations w !! frame with Some r => buffer_size (rs_buffer r) | None => 0 end.

(** ** Reference counts *)

Definition occurs (r : nat) (l : list nat) : Z := Z.of_nat (length (filter (fun x => x = r) l)).

(** A sum over the values of a map. *)
Definition total {V} (f : V -> Z) (m : gmap nat V) : Z := map_fold (fun _ v acc => f v + acc) 0 m.

Definition queue_uses (r : nat) (q : OutboundQueue) : Z := occurs r (fm_bytes <$> oq_frames q).

Definition uses (w : World) (r : nat) : Z :=
  total (queue_uses r) (wd_queues w) + occurs r (wd_writes w).

(** ** Reservations *)

(** [Reservation(...)] *)
Definition reserve (b : QueueBudget) (r : Reservation) : QueueBudget :=
  let size := buffer_size (rs_buffer r) in
  mkBudget (wrap64 (qb_bytes b + size))
    (if rs_peer r then qb_client_bytes b else wrap64 (qb_client_bytes b + size)).

(** [~Reservation()] *)
Definition unreserve (b : QueueBudget) (r : Reservation) : QueueBudget :=
  let size := buffer_size (rs_buffer r) in
  mkBudget (wrap64 (qb_bytes b - size))
    (if rs_peer r then qb_client_bytes b else wrap64 (qb_client_bytes b - size)).

(** A pointer to [r] has gone: the last one destroys the reservation. *)
Definition drop_reference (w : World) (r : nat) : World :=
  if uses w r =? 0 then
    match wd_reservations w !! r with
    | Some res => mkWorld (unreserve (wd_budget w) res) (delete r (wd_reservations w))
                    (wd_queues w) (wd_writes w) (wd_next w)
    | None => w
    end
  else w.

(** ** Queue operations *)

Definition set_queue (w : World) (s : nat) (q : OutboundQueue) : World :=
  mkWorld (wd_budget w) (wd_reservations w) (<[s := q]> (wd_queues w)) (wd_writes w) (wd_next w).

Definition new_queue (w : World) (s : nat) : World := set_queue w s (mkQueue 0 []).

Definition refused (w : World) (q : OutboundQueue) (size : Z) (peer : bool) : bool :=
  Nat.leb kFrames (length (oq_frames q)) ||
  (wrap64 (kSessionBytes - oq_bytes q) <? size) ||
  (wrap64 (kGlobalBytes - qb_bytes (wd_budget w)) <? size) ||
  (negb peer && (wrap64 (kClientBytes - qb_client_bytes (wd_budget w)) <? size)).

Definition push (w : World) (s : nat) (bytes : string) (peer : bool) (retry : option RetryKey)
    : bool * World :=
  match wd_queues w !! s with
  | None => (false, w)
  | Some q =>
      if bool_decide (is_Some retry) &&
         existsb (fun f => bool_decide (fm_retry f = retry)) (oq_frames q)
      then (true, w)
      else if refused w q (buffer_size bytes) peer then (false, w)
      else
        let r := mkReservation bytes peer in
        (true,
         mkWorld (reserve (wd_budget w) r) (<[wd_next w := r]> (wd_reservations w))
           (<[s := mkQueue (wrap64 (oq_bytes q + buffer_size bytes))
                     (oq_frames q ++ [mkFrame (wd_next w) retry])]> (wd_queues w))
           (wd_writes w) (S (wd_next w)))
  end.

(** [front], kept by a write handler. *)
Definition start_write (w : World) (s : nat) : World :=
  match wd_queues w !! s with
  | Some (mkQueue _ (f :: _)) =>
      mkWorld (wd_budget w) (wd_reservations w) (wd_queues w) (fm_bytes f :: wd_writes w) (wd_next w)
  | _ => w
  end.

(** The write handler is destroyed, whether the write completed or not. *)
Definition end_write (w : World) (r : nat) : World :=
  match list_find (fun x => x = r) (wd_writes w) with
  | Some (i, _) =>
      drop_reference (mkWorld (wd_budget w) (wd_reservations w) (wd_queues w)
                        (delete i (wd_writes w)) (wd_next w)) r
  | None => w
  end.

Definition pop (w : World) (s : nat) : World :=
  match wd_queues w !! s with
  | Some (mkQueue bytes (f :: rest)) =>
      drop_reference (set_queue w s (mkQueue (wrap64 (bytes - frame_size w (fm_bytes f))) rest))
        (fm_bytes f)
  | _ => w
  end.

(** [while (!empty()) pop();], once per frame. *)
Fixpoint pop_loop (w : World) (s count : nat) : World :=
  match count with O => w | S count => pop_loop (pop w s) s count end.

Definition queue_length (w : World) (s : nat) : nat :=
  match wd_queues w !! s with Some q => length (oq_frames q) | None => 0%nat end.

Definition clear_queue (w : World) (s : nat) : World := pop_loop w s (queue_length w s).

(** [~OutboundQueue()] *)
Definition end_session (w : World) (s : nat) : World :=
  let w := clear_queue w s in
  mkWorld (wd_budget w) (wd_reservations w) (delete s (wd_queues w)) (wd_writes w) (wd_next w).

(** ** Sums over maps *)

Lemma total_empty {V} (f : V -> Z) : total f ∅ = 0.
Proof. done. Qed.

Lemma total_insert {V} (f : V -> Z) m k v :
  m !! k = None -> total f (<[k := v]> m) = f v + total f m.
Proof. intros Hk. unfold total. apply (map_fold_insert_L (fun _ v acc => f v + acc) 0 k v m); [intros; lia|done]. Qed.

Lemma total_delete {V} (f : V -> Z) m k v :
  m !! k = Some v -> total f m = f v + total f (delete k m).
Proof. intros Hk. unfold total. apply (map_fold_delete_L (fun _ v acc => f v + acc) 0 k v m); [intros; lia|done]. Qed.

Lemma total_update {V} (f : V -> Z) m k v v' :
  m !! k = Some v -> total f (<[k := v']> m) = total f m - f v + f v'.
Proof.
  intros Hk. rewrite (total_delete f m k v Hk), <- insert_delete_eq.
  rewrite total_insert by apply lookup_delete_eq. lia.
Qed.

Lemma total_nonneg {V} (f : V -> Z) m : (forall v, 0 <= f v) -> 0 <= total f m.
Proof.
  intros Hf. induction m as [|k v m Hk IH] using map_ind; [done|].
  rewrite total_insert by done. specialize (Hf v). lia.
Qed.

Lemma total_ge {V} (f : V -> Z) m k v : (forall v, 0 <= f v) -> m !! k = Some v -> f v <= total f m.
Proof.
  intros Hf Hk. rewrite (total_delete f m k v Hk). pose proof (total_nonneg f (delete k m) Hf). lia.
Qed.

Lemma total_zero {V} (f : V -> Z) m : total f m = 0 -> (forall v, 0 <= f v) ->
  forall k v, m !! k = Some v -> f v = 0.
Proof.
  intros Ht Hf k v Hk. pose proof (total_ge f m k v Hf Hk). pose proof (Hf v). lia.
Qed.

Lemma total_all_zero {V} (f : V -> Z) m :
  (forall k v, m !! k = Some v -> f v = 0) -> total f m = 0.
Proof.
  induction m as [|k v m Hk IH] using map_ind; intros Hz; [done|]. rewrite total_insert by done.
  rewrite (Hz k v) by apply lookup_insert_eq. rewrite IH; [lia|]. intros k' v' Hk'.
  apply (Hz k' v'). rewrite lookup_insert_ne; [done|]. intros ->. congruence.
Qed.

Lemma occurs_nonneg r l : 0 <= occurs r l.
Proof. unfold occurs. lia. Qed.

Lemma occurs_cons r x l : occurs r (x :: l) = (if decide (x = r) then 1 else 0) + occurs r l.
Proof.
  unfold occurs. rewrite filter_cons. destruct (decide (x = r)); cbn [length]; lia.
Qed.

Lemma occurs_app r l l' : occurs r (l ++ l') = occurs r l + occurs r l'.
Proof. unfold occurs. rewrite list.filter_app, length_app. lia. Qed.

Lemma occurs_delete r l i x :
  l !! i = Some x -> occurs r (delete i l) = occurs r l - (if decide (x = r) then 1 else 0).
Proof.
  intros Hi. rewrite <- (take_drop_middle l i x Hi) at 2. rewrite delete_take_drop.
  rewrite !occurs_app, occurs_cons. lia.
Qed.

Lemma occurs_zero r l : occurs r l = 0 -> r ∉ l.
Proof.
  intros Ho Hin. assert (r ∈ filter (fun x => x = r) l) as Hf by (by apply list_elem_of_filter).
  unfold occurs in Ho. destruct (filter _ l); [by apply elem_of_nil in Hf|done].
Qed.

(** ** The invariant *)

Definition res_size (r : Reservation) : Z := buffer_size (rs_buffer r).
Definition client_size (r : Reservation) : Z := if rs_peer r then 0 else res_size r.

Definition sum_sizes (m : gmap nat Reservation) (l : list Frame) : Z :=
  foldr (fun f acc => match m !! fm_bytes f with Some r => res_size r | None => 0 end + acc) 0 l.

Record queue_ok (m : gmap nat Reservation) (q : OutboundQueue) : Prop := {
  qo_bytes : oq_bytes q = sum_sizes m (oq_frames q);
  qo_limit : oq_bytes q <= kSessionBytes;
  qo_frames : (length (oq_frames q) <= kFrames)%nat;
}.

Record world_ok (w : World) : Prop := {
  wo_bytes : qb_bytes (wd_budget w) = total res_size (wd_reservations w);
  wo_client : qb_client_bytes (wd_budget w) = total client_size (wd_reservations w);
  wo_global : qb_bytes (wd_budget w) <= kGlobalBytes;
  wo_share : qb_client_bytes (wd_budget w) <= kClientBytes;
  wo_live : forall r, is_Some (wd_reservations w !! r) <-> 0 < uses w r;
  wo_queues : forall s q, wd_queues w !! s = Some q -> queue_ok (wd_reservations w) q;
  wo_next : forall r, is_Some (wd_reservations w !! r) -> (r < wd_next w)%nat;
}.

(** The same, but for one reservation that may have lost its last pointer. *)
Record world_but (r0 : nat) (w : World) : Prop := {
  wb_bytes : qb_bytes (wd_budget w) = total res_size (wd_reservations w);
  wb_client : qb_client_bytes (wd_budget w) = total client_size (wd_reservations w);
  wb_global : qb_bytes (wd_budget w) <= kGlobalBytes;
  wb_share : qb_client_bytes (wd_budget w) <= kClientBytes;
  wb_held : is_Some (wd_reservations w !! r0);
  wb_live : forall r, r <> r0 -> is_Some (wd_reservations w !! r) <-> 0 < uses w r;
  wb_queues : forall s q, wd_queues w !! s = Some q -> queue_ok (wd_reservations w) q;
  wb_next : forall r, is_Some (wd_reservations w !! r) -> (r < wd_next w)%nat;
}.

Lemma res_size_nonneg r : 0 <= res_size r.
Proof. unfold res_size, buffer_size. lia. Qed.

Lemma client_size_nonneg r : 0 <= client_size r.
Proof. unfold client_size. pose proof (res_size_nonneg r). case_goal; lia. Qed.

Lemma queue_uses_nonneg r q : 0 <= queue_uses r q.
Proof. apply occurs_nonneg. Qed.

#[local] Hint Resolve res_size_nonneg client_size_nonneg queue_uses_nonneg occurs_nonneg : choreo.

Lemma uses_nonneg w r : 0 <= uses w r.
Proof.
  unfold uses. pose proof (total_nonneg (queue_uses r) (wd_queues w) (queue_uses_nonneg r)).
  pose proof (occurs_nonneg r (wd_writes w)). lia.
Qed.

Lemma wrap_small x : 0 <= x <= 2 ^ 40 -> wrap64 x = x.
Proof. intros. apply wrap64_small. unfold u64, max_u64. lia. Qed.

Lemma budget_small m : total res_size m <= kGlobalBytes -> total client_size m <= kClientBytes ->
  0 <= total res_size m <= 2 ^ 30 /\ 0 <= total client_size m <= 2 ^ 30.
Proof.
  intros H1 H2. unfold kGlobalBytes, kClientBytes in *.
  pose proof (total_nonneg res_size m res_size_nonneg).
  pose proof (total_nonneg client_size m client_size_nonneg). lia.
Qed.

Lemma sum_sizes_ext m m' l :
  (forall f, f ∈ l -> m' !! fm_bytes f = m !! fm_bytes f) -> sum_sizes m' l = sum_sizes m l.
Proof.
  induction l as [|f l IH]; intros Hm; [done|]. simpl. rewrite (Hm f) by constructor.
  rewrite IH; [done|]. intros g Hg. apply Hm. by constructor.
Qed.

Lemma sum_sizes_app m l l' : sum_sizes m (l ++ l') = sum_sizes m l + sum_sizes m l'.
Proof. induction l as [|f l IH]; [done|]. simpl. fold (sum_sizes m l') in *. rewrite IH. lia. Qed.

Lemma sum_sizes_nonneg m l : 0 <= sum_sizes m l.
Proof.
  induction l as [|f l IH]; [done|]. simpl.
  pose proof res_size_nonneg as Hr. destruct (m !! fm_bytes f) as [r|]; [specialize (Hr r)|]; lia.
Qed.

(** Dropping the pointer restores the invariant. *)
Lemma drop_ok r0 w : world_but r0 w -> world_ok (drop_reference w r0).
Proof.
  intros [H1 H2 H3 H4 H5 H6 H7 H8]. unfold drop_reference.
  pose proof (uses_nonneg w r0) as Hpos. destruct (Z.eqb_spec (uses w r0) 0) as [E|E].
  2: { split; try done. intros r. destruct (decide (r = r0)) as [-> |]; [|by apply H6].
       split; [lia|done]. }
  destruct H5 as [res Hres]. rewrite Hres.
  pose proof (total_delete res_size _ _ _ Hres) as T1.
  pose proof (total_delete client_size _ _ _ Hres) as T2.
  pose proof (budget_small (wd_reservations w)) as Hsmall. rewrite H1 in H3. rewrite H2 in H4.
  destruct (Hsmall H3 H4) as [B1 B2].
  pose proof (total_nonneg res_size (delete r0 (wd_reservations w)) res_size_nonneg).
  pose proof (total_nonneg client_size (delete r0 (wd_reservations w)) client_size_nonneg).
  pose proof (res_size_nonneg res). pose proof (client_size_nonneg res).
  assert (qb_bytes (unreserve (wd_budget w) res) = total res_size (delete r0 (wd_reservations w))) as E1.
  { simpl. fold (res_size res). rewrite wrap_small; [lia|]. rewrite H1. lia. }
  assert (qb_client_bytes (unreserve (wd_budget w) res) =
    total client_size (delete r0 (wd_reservations w))) as E2.
  { simpl. fold (res_size res). rewrite H2. unfold client_size in T2 at 2.
    destruct (rs_peer res); [lia|]. rewrite wrap_small; lia. }
  split; cbn [wd_budget wd_reservations wd_queues wd_writes wd_next].
  - done.
  - done.
  - rewrite E1. lia.
  - rewrite E2. lia.
  - intros r. change (uses _ r) with (uses w r). destruct (decide (r = r0)) as [-> |Hne].
    + rewrite lookup_delete_eq. split; [by intros []|lia].
    + rewrite lookup_delete_ne by done. by apply H6.
  - intros s q Hq. destruct (H7 s q Hq) as [Q1 Q2 Q3]. split; [|done|done]. rewrite Q1. symmetry.
    apply sum_sizes_ext. intros f Hf. apply lookup_delete_ne. intros ->.
    assert (queue_uses (fm_bytes f) q = 0) as Hz.
    { unfold uses in E. pose proof (total_ge _ _ _ _ (queue_uses_nonneg (fm_bytes f)) Hq).
      pose proof (occurs_nonneg (fm_bytes f) (wd_writes w)).
      pose proof (queue_uses_nonneg (fm_bytes f) q). lia. }
    apply occurs_zero in Hz. apply Hz. apply list_elem_of_fmap. eauto.
  - intros r Hr. apply H8. destruct (decide (r = r0)) as [-> |Hne]; [by eexists|].
    by rewrite lookup_delete_ne in Hr.
Qed.

(** ** The operations keep it *)

Lemma set_queue_uses w s q q' r : wd_queues w !! s = Some q ->
  uses (set_queue w s q') r = uses w r - queue_uses r q + queue_uses r q'.
Proof.
  intros Hq. unfold uses, set_queue. cbn [wd_queues wd_writes]. rewrite (total_update _ _ s q) by done. lia.
Qed.

Lemma pop_ok w s : world_ok w -> world_ok (pop w s).
Proof.
  intros Hok. pose proof Hok as [H1 H2 H3 H4 H5 H6 H7]. unfold pop.
  destruct (wd_queues w !! s) as [[bytes [|f rest]]|] eqn:Hq; [done| |done].
  destruct (H6 s _ Hq) as [Q1 Q2 Q3]. cbn [oq_bytes oq_frames length] in Q1, Q2, Q3.
  apply drop_ok. set (q' := mkQueue _ rest).
  assert (forall r, uses (set_queue w s q') r =
    uses w r - (if decide (fm_bytes f = r) then 1 else 0)) as Hu.
  { intros r. rewrite (set_queue_uses w s _ q' r Hq). unfold queue_uses, q'. cbn [oq_frames].
    rewrite fmap_cons, occurs_cons. lia. }
  split; try done.
  - apply H5. pose proof (uses_nonneg (set_queue w s q') (fm_bytes f)) as Hn. rewrite Hu in Hn.
    rewrite decide_True in Hn by done. lia.
  - intros r Hne. rewrite Hu, decide_False by done. rewrite Z.sub_0_r. apply H5.
  - intros s' q Hs. unfold set_queue in Hs. cbn [wd_queues] in Hs.
    apply lookup_insert_Some in Hs as [[_ <-]|[_ Hs]]; [|by apply (H6 s')].
    cbn [sum_sizes foldr] in Q1. fold (sum_sizes (wd_reservations w) rest) in Q1.
    pose proof (sum_sizes_nonneg (wd_reservations w) rest).
    assert (frame_size w (fm_bytes f) =
      match wd_reservations w !! fm_bytes f with Some r => res_size r | None => 0 end) as Hfs by done.
    rewrite <- Hfs in Q1. assert (0 <= frame_size w (fm_bytes f)) as Hfn.
    { rewrite Hfs. destruct (wd_reservations w !! fm_bytes f) as [x|]; [apply res_size_nonneg|lia]. }
    unfold kSessionBytes in Q2.
    assert (oq_bytes q' = sum_sizes (wd_reservations w) rest) as Hb
      by (unfold q'; cbn [oq_bytes]; rewrite wrap_small; lia).
    split; [done|rewrite Hb; unfold kSessionBytes; lia|unfold q'; cbn [oq_frames]; lia].
Qed.

Lemma pop_loop_ok count : forall w s, world_ok w -> world_ok (pop_loop w s count).
Proof. induction count as [|n IH]; intros w s Hok; [done|]. cbn [pop_loop]. by apply IH, pop_ok. Qed.

Lemma end_write_ok w r : world_ok w -> world_ok (end_write w r).
Proof.
  intros Hok. pose proof Hok as [H1 H2 H3 H4 H5 H6 H7]. unfold end_write.
  destruct (list_find _ (wd_writes w)) as [[i x]|] eqn:Hf; [|done].
  apply list_find_Some in Hf as (Hi & -> & _). apply drop_ok. set (w' := mkWorld _ _ _ _ _).
  assert (forall y, uses w' y = uses w y - (if decide (r = y) then 1 else 0)) as Hu.
  { intros y. unfold uses, w'. cbn [wd_queues wd_writes]. rewrite (occurs_delete y _ i r Hi). lia. }
  split; try done.
  - apply H5. pose proof (uses_nonneg w' r) as Hn. rewrite Hu, decide_True in Hn by done. lia.
  - intros y Hne. rewrite Hu, decide_False by done. rewrite Z.sub_0_r. apply H5.
Qed.

Lemma start_write_ok w s : world_ok w -> world_ok (start_write w s).
Proof.
  intros Hok. pose proof Hok as [H1 H2 H3 H4 H5 H6 H7]. unfold start_write.
  destruct (wd_queues w !! s) as [[bytes [|f rest]]|] eqn:Hq; [done| |done].
  assert (0 < uses w (fm_bytes f)) as Hpos.
  { unfold uses. pose proof (total_ge _ _ _ _ (queue_uses_nonneg (fm_bytes f)) Hq) as Ht.
    unfold queue_uses in Ht at 1. cbn [oq_frames] in Ht. rewrite fmap_cons, occurs_cons in Ht.
    rewrite decide_True in Ht by done. pose proof (occurs_nonneg (fm_bytes f) (fm_bytes <$> rest)).
    pose proof (occurs_nonneg (fm_bytes f) (wd_writes w)). lia. }
  split; try done. intros r. rewrite H5. unfold uses in Hpos |- *. cbn [wd_queues wd_writes].
  rewrite occurs_cons. destruct (decide (fm_bytes f = r)) as [<- |]; lia.
Qed.

Lemma new_queue_ok w s : world_ok w -> wd_queues w !! s = None -> world_ok (new_queue w s).
Proof.
  intros [H1 H2 H3 H4 H5 H6 H7] Hs. split; try done.
  - intros r. rewrite H5. unfold uses, new_queue, set_queue. cbn [wd_queues wd_writes].
    rewrite total_insert by done. done.
  - intros s' q Hq. unfold new_queue, set_queue in Hq. cbn [wd_queues] in Hq.
    apply lookup_insert_Some in Hq as [[_ <-]|[_ Hq]]; [|by apply (H6 s')].
    split; [done|done|cbn [oq_frames length]; lia].
Qed.

Lemma not_refused w q size peer : world_ok w -> queue_ok (wd_reservations w) q -> 0 <= size ->
  refused w q size peer = false ->
  (length (oq_frames q) < kFrames)%nat /\ oq_bytes q + size <= kSessionBytes /\
  qb_bytes (wd_budget w) + size <= kGlobalBytes /\
  (peer = false -> qb_client_bytes (wd_budget w) + size <= kClientBytes).
Proof.
  intros [H1 H2 H3 H4 _ _ _] [Q1 Q2 _] Hs Hr. unfold refused in Hr.
  pose proof (sum_sizes_nonneg (wd_reservations w) (oq_frames q)).
  destruct (budget_small (wd_reservations w)) as [B1 B2]; [lia|lia|].
  unfold kSessionBytes, kGlobalBytes, kClientBytes in *.
  rewrite !orb_false_iff, andb_false_iff, Nat.leb_gt, !Z.ltb_ge in Hr.
  rewrite !wrap_small in Hr by lia. destruct Hr as [[[R1 R2] R3] R4].
  split; [done|]. split; [lia|]. split; [lia|]. intros ->. destruct R4 as [|R4]; [done|lia].
Qed.

Lemma push_ok w s bytes peer retry : world_ok w -> world_ok (snd (push w s bytes peer retry)).
Proof.
  intros Hok. pose proof Hok as [H1 H2 H3 H4 H5 H6 H7]. unfold push.
  destruct (wd_queues w !! s) as [q|] eqn:Hq; [|done]. case_goal; [done|].
  destruct (refused w q (buffer_size bytes) peer) eqn:Hr; [done|]. cbn [snd].
  pose proof (H6 _ _ Hq) as Hqok. set (r := mkReservation bytes peer).
  assert (0 <= res_size r) as Hs by apply res_size_nonneg.
  change (buffer_size bytes) with (res_size r) in *.
  assert (rs_peer r = peer) as Hp by done. clearbody r.
  destruct (not_refused w q _ peer Hok Hqok Hs Hr) as (N1 & N2 & N3 & N4).
  assert (wd_reservations w !! wd_next w = None) as Hfresh
    by (apply eq_None_not_Some; intros Hx; apply H7 in Hx; lia).
  pose proof (total_insert res_size _ _ r Hfresh) as T1.
  pose proof (total_insert client_size _ _ r Hfresh) as T2.
  destruct (budget_small (wd_reservations w)) as [B1 B2]; [lia|lia|].
  pose proof (sum_sizes_nonneg (wd_reservations w) (oq_frames q)). destruct Hqok as [Q1 Q2 Q3].
  unfold kSessionBytes, kGlobalBytes, kClientBytes in N2, N3, N4.
  assert (qb_bytes (reserve (wd_budget w) r) = qb_bytes (wd_budget w) + res_size r) as E1
    by (simpl; fold (res_size r); apply wrap_small; lia).
  assert (qb_client_bytes (reserve (wd_budget w) r) = qb_client_bytes (wd_budget w) + client_size r /\
    qb_client_bytes (wd_budget w) + client_size r <= kClientBytes) as [E2 E3].
  { unfold client_size, reserve. cbn [qb_client_bytes]. fold (res_size r). rewrite Hp. destruct peer; [lia|].
    specialize (N4 eq_refl). rewrite wrap_small by lia. unfold kClientBytes. lia. }
  set (q' := mkQueue _ _). set (w' := mkWorld _ _ _ _ _).
  assert (forall x, uses w' x = uses w x + (if decide (wd_next w = x) then 1 else 0)) as Hu.
  { intros x. unfold uses, w'. cbn [wd_queues wd_writes]. rewrite (total_update _ _ s q) by done.
    unfold queue_uses, q'. cbn [oq_frames]. rewrite fmap_app, occurs_app. simpl.
    rewrite occurs_cons. unfold occurs at 4. simpl. lia. }
  assert (forall l, (forall f, f ∈ l -> wd_next w <> fm_bytes f) ->
    sum_sizes (wd_reservations w') l = sum_sizes (wd_reservations w) l) as Hsum.
  { intros l Hl. apply sum_sizes_ext. intros f Hf. by apply lookup_insert_ne, Hl. }
  assert (forall s' x, wd_queues w !! s' = Some x -> forall f, f ∈ oq_frames x ->
    wd_next w <> fm_bytes f) as Hold.
  { intros s' x Hx f Hf E. assert (0 < uses w (fm_bytes f)) as Hpos.
    { unfold uses. pose proof (total_ge _ _ _ _ (queue_uses_nonneg (fm_bytes f)) Hx).
      pose proof (occurs_nonneg (fm_bytes f) (wd_writes w)).
      assert (queue_uses (fm_bytes f) x <> 0) as Hnz; [|pose proof (queue_uses_nonneg (fm_bytes f) x); lia].
      intros Hz. apply occurs_zero in Hz. apply Hz, list_elem_of_fmap. eauto. }
    apply H5, H7 in Hpos. lia. }
  split; unfold w'; cbn [wd_budget wd_reservations wd_queues wd_writes wd_next]; fold w'.
  - lia.
  - lia.
  - rewrite E1. done.
  - rewrite E2. done.
  - intros x. rewrite Hu. destruct (decide (wd_next w = x)) as [<- |Hne].
    + rewrite lookup_insert_eq. pose proof (uses_nonneg w (wd_next w)). split; [lia|by eexists].
    + rewrite lookup_insert_ne by done. rewrite Z.add_0_r. apply H5.
  - intros s' x Hx. apply lookup_insert_Some in Hx as [[_ <-]|[_ Hx]].
    + assert (oq_bytes q' = oq_bytes q + res_size r) as Eb
        by (unfold q'; cbn [oq_bytes]; apply wrap_small; lia).
      split; [|rewrite Eb; unfold kSessionBytes; lia|unfold q'; cbn [oq_frames]; rewrite length_app; simpl; lia].
      rewrite Eb. unfold q'. cbn [oq_frames]. rewrite sum_sizes_app.
      change (<[wd_next w := r]> (wd_reservations w)) with (wd_reservations w').
      rewrite (Hsum (oq_frames q)) by (by apply (Hold s)). simpl. rewrite lookup_insert_eq. lia.
    + destruct (H6 _ _ Hx) as [X1 X2 X3]. split; [|done|done].
      change (<[wd_next w := r]> (wd_reservations w)) with (wd_reservations w').
      rewrite X1, Hsum; [done|]. by apply (Hold s').
  - intros x Hx. destruct (decide (wd_next w = x)) as [<- |Hne]; [lia|].
    rewrite lookup_insert_ne in Hx by done. apply H7 in Hx. lia.
Qed.

(** ** Any schedule *)

Inductive QueueOp :=
| Open (s : nat)
| Push (s : nat) (bytes : string) (peer : bool) (retry : option RetryKey)
| StartWrite (s : nat)
| EndWrite (frame : nat)
| Pop (s : nat)
| ClearQueue (s : nat)
| EndSession (s : nat).

(** Opening a session that exists changes nothing. *)
Definition queue_step (w : World) (op : QueueOp) : World :=
  match op with
  | Open s => match wd_queues w !! s with None => new_queue w s | Some _ => w end
  | Push s bytes peer retry => snd (push w s bytes peer retry)
  | StartWrite s => start_write w s
  | EndWrite frame => end_write w frame
  | Pop s => pop w s
  | ClearQueue s => clear_queue w s
  | EndSession s => end_session w s
  end.

Definition idle : World := mkWorld (mkBudget 0 0) ∅ ∅ [] 0.

Lemma idle_ok : world_ok idle.
Proof.
  split; [done|done|by vm_compute|by vm_compute|..].
  - intros r. unfold uses, idle. cbn [wd_queues wd_writes wd_reservations]. rewrite lookup_empty.
    split; [by intros []|]. rewrite total_empty. intros H. unfold occurs in H. simpl in H. lia.
  - intros s q Hq. unfold idle in Hq. cbn [wd_queues] in Hq. by rewrite lookup_empty in Hq.
  - intros r Hr. unfold idle in Hr. cbn [wd_reservations] in Hr. rewrite lookup_empty in Hr.
    by destruct Hr.
Qed.

(** Popping as often as there are frames empties a queue. *)
Lemma drop_queues w r : wd_queues (drop_reference w r) = wd_queues w.
Proof. unfold drop_reference. repeat case_goal; done. Qed.

Lemma pop_queue w s b f l : wd_queues w !! s = Some (mkQueue b (f :: l)) ->
  exists b', wd_queues (pop w s) !! s = Some (mkQueue b' l).
Proof.
  intros Hq. unfold pop. rewrite Hq, drop_queues. unfold set_queue. cbn [wd_queues].
  rewrite lookup_insert_eq. eauto.
Qed.

Lemma pop_loop_empties l : forall w s b, wd_queues w !! s = Some (mkQueue b l) ->
  exists b', wd_queues (pop_loop w s (length l)) !! s = Some (mkQueue b' []).
Proof.
  induction l as [|f l IH]; intros w s b Hq; [by exists b|]. cbn [length pop_loop].
  destruct (pop_queue w s b f l Hq) as [b' Hb]. by apply (IH _ _ b').
Qed.

Lemma clear_queue_ok w s : world_ok w -> world_ok (clear_queue w s).
Proof. apply pop_loop_ok. Qed.

Lemma clear_queue_empties w s q : wd_queues w !! s = Some q ->
  exists b, wd_queues (clear_queue w s) !! s = Some (mkQueue b []).
Proof.
  intros Hq. unfold clear_queue, queue_length. rewrite Hq. destruct q as [b l]. by eapply pop_loop_empties.
Qed.

Lemma pop_other w s s' : s' <> s -> wd_queues (pop w s) !! s' = wd_queues w !! s'.
Proof.
  intros Hne. unfold pop. destruct (wd_queues w !! s) as [[b [|f l]]|]; [done| |done].
  rewrite drop_queues. unfold set_queue. cbn [wd_queues]. by apply lookup_insert_ne.
Qed.

Lemma end_session_ok w s : world_ok w -> world_ok (end_session w s).
Proof.
  intros Hok. unfold end_session. pose proof (clear_queue_ok w s Hok) as Hc.
  destruct (wd_queues w !! s) as [q|] eqn:Hq.
  - destruct (clear_queue_empties w s q Hq) as [b Hb]. destruct Hc as [H1 H2 H3 H4 H5 H6 H7].
    split; try done.
    + intros r. rewrite H5. unfold uses. cbn [wd_queues wd_writes].
      rewrite (total_delete (queue_uses r) _ s _ Hb). done.
    + intros s' x Hx. cbn [wd_queues] in Hx. apply lookup_delete_Some in Hx as [_ Hx]. by apply (H6 s').
  - unfold clear_queue, queue_length in *. rewrite Hq in *. cbn [pop_loop] in *.
    rewrite delete_id by done. by destruct w.
Qed.

Lemma queue_step_ok w op : world_ok w -> world_ok (queue_step w op).
Proof.
  intros Hok. destruct op; cbn [queue_step].
  - destruct (wd_queues w !! s) eqn:E; [done|]. by apply new_queue_ok.
  - by apply push_ok.
  - by apply start_write_ok.
  - by apply end_write_ok.
  - by apply pop_ok.
  - by apply clear_queue_ok.
  - by apply end_session_ok.
Qed.

Lemma queue_run_ok ops : forall w, world_ok w -> world_ok (foldl queue_step w ops).
Proof. induction ops as [|op ops IH]; intros w Hok; [done|]. by apply IH, queue_step_ok. Qed.

(** C34: the shared budget is exact at every moment of any schedule of sessions,
    pushes, writes that start and end in any order (also after their queue was
    cleared or destroyed) and retirements: it is the total size of the buffers
    something still points to, it never exceeds 32 MiB (24 MiB for clients), a
    queue never holds more than 2 MiB or 64 frames and its own count is the size
    of its frames; and once nothing is queued and no write is running, all of it
    has been given back. No unsigned subtraction wraps. *)
Theorem budget_is_exact (ops : list QueueOp) :
  let w := foldl queue_step idle ops in
  qb_bytes (wd_budget w) = total res_size (wd_reservations w) /\
  qb_client_bytes (wd_budget w) = total client_size (wd_reservations w) /\
  0 <= qb_bytes (wd_budget w) <= kGlobalBytes /\
  0 <= qb_client_bytes (wd_budget w) <= kClientBytes /\
  (forall r, is_Some (wd_reservations w !! r) <-> 0 < uses w r) /\
  (forall s q, wd_queues w !! s = Some q ->
     oq_bytes q = sum_sizes (wd_reservations w) (oq_frames q) /\
  0 <= oq_bytes q <= kSessionBytes /\ (length (oq_frames q) <= kFrames)%nat) /\
  ((forall s q, wd_queues w !! s = Some q -> oq_frames q = []) -> wd_writes w = [] ->
     wd_budget w = mkBudget 0 0).
Proof.
  intros w. destruct (queue_run_ok ops _ idle_ok) as [H1 H2 H3 H4 H5 H6 H7]. fold w in H1, H2, H3, H4, H5, H6, H7.
  split; [done|]. split; [done|]. split; [split; [rewrite H1; apply total_nonneg, res_size_nonneg|done]|].
  split; [split; [rewrite H2; apply total_nonneg, client_size_nonneg|done]|]. split; [done|]. split.
  - intros s q Hq. destruct (H6 s q Hq) as [Q1 Q2 Q3]. split; [done|]. split; [|done].
    split; [rewrite Q1; apply sum_sizes_nonneg|done].
  - intros Hempty Hw. assert (wd_reservations w = ∅) as He.
    { apply map_eq. intros r. rewrite lookup_empty. apply eq_None_not_Some. rewrite H5.
      unfold uses. rewrite Hw, total_all_zero; [unfold occurs; simpl; lia|].
      intros s q Hq. unfold queue_uses. by rewrite (Hempty s q Hq). }
    rewrite He in H1, H2. rewrite total_empty in H1, H2. destruct (wd_budget w). simpl in *. congruence.
Qed.

(** A write that ends after its session was retired. *)
Definition late_write : list QueueOp :=
  [Open 0; Push 0 "frame" false (Some (1, 2)); Push 0 "again" false (Some (1, 2));
   StartWrite 0; EndSession 0; EndWrite 0].

Lemma budget_is_exact_witness :
  wd_budget (foldl queue_step idle (take 5 late_write)) = mkBudget 5 5 /\
  wd_budget (foldl queue_step idle late_write) = mkBudget 0 0.
Proof.
  split; [vm_compute; reflexivity|].
  destruct (budget_is_exact late_write) as (_ & _ & _ & _ & _ & _ & H). apply H.
  - assert (wd_queues (foldl queue_step idle late_write) = ∅) as -> by (vm_compute; reflexivity).
    intros s q Hq. by rewrite lookup_empty in Hq.
  - vm_compute. reflexivity.
Defined.
