(* ===== verification/Messages.v ===== *)
(** * Protocol messages

    The structs of [cpp-runtime/include/choreoos/protocol/messages.hpp]. Those
    that share a name with a message of the Raft core carry the prefix [Proto].
    [std::string] is [string]; [default_...] is a value as its declaration
    initialises it. *)

From S2P Require Import Prelude Model.

Record Handshake := mkHandshake { hs_node_id : string; hs_major : Z; hs_minor : Z }.
Definition default_handshake : Handshake := mkHandshake "" 1 0.

Record ProtoAppendEntries := mkProtoAppendEntries {
  pa_term : Z;
  pa_leader_id : string;
  pa_prev_log_index : Z;
  pa_prev_log_term : Z;
  pa_entries : list Event;
  pa_leader_commit : Z;
}.
Definition default_append_entries : ProtoAppendEntries := mkProtoAppendEntries 1 "" 0 0 [] 0.

Record ProtoAppendResponse := mkProtoAppendResponse {
  par_term : Z;
  par_follower_id : string;
  par_success : bool;
  par_match_index : Z;
  par_hint_index : Z;
}.
Definition default_append_response : ProtoAppendResponse := mkProtoAppendResponse 1 "" false 0 0.

Record ProtoRequestVote := mkProtoRequestVote {
  prv_term : Z;
  prv_candidate_id : string;
  prv_last_log_index : Z;
  prv_last_log_term : Z;
}.
Definition default_request_vote : ProtoRequestVote := mkProtoRequestVote 1 "" 0 0.

Record ProtoVoteResponse := mkProtoVoteResponse {
  pvr_term : Z;
  pvr_voter_id : string;
  pvr_vote_granted : bool;
}.
Definition default_vote_response : ProtoVoteResponse := mkProtoVoteResponse 1 "" false.

Record ProtoInstallSnapshot := mkProtoInstallSnapshot {
  pi_term : Z;
  pi_leader_id : string;
  pi_last_included_index : Z;
  pi_last_included_term : Z;
  pi_state_hash : string;
  pi_payload : string;
  pi_offset : Z;
  pi_more : bool;
}.
Definition default_install_snapshot : ProtoInstallSnapshot :=
  mkProtoInstallSnapshot 1 "" 0 0 "" "" 0 false.

Record ProtoSnapshotResponse := mkProtoSnapshotResponse {
  psr_term : Z;
  psr_follower_id : string;
  psr_success : bool;
  psr_next_offset : Z;
}.
Definition default_snapshot_response : ProtoSnapshotResponse :=
  mkProtoSnapshotResponse 1 "" false 0.

(** The struct [ProtocolError]; the constructor of that name is an error code. *)
Record ProtoError := mkProtoError { pe_code : string; pe_detail : string }.
Definition default_protocol_error : ProtoError := mkProtoError "" "".

Record ClientCommand := mkClientCommand { cc_canonical : string }.
Definition default_client_command : ClientCommand := mkClientCommand "".

Record ClientResponse := mkClientResponse {
  cr_ok : bool;
  cr_duplicate : bool;
  cr_error_code : string;
  cr_error_message : string;
  cr_leader_id : string;
  cr_index : Z;
  cr_event_canonical : string;
  cr_state_hash : string;
}.
Definition default_client_response : ClientResponse :=
  mkClientResponse false false "" "" "" 0 "" "".

Record StatusResponse := mkStatusResponse {
  ss_node_id : string;
  ss_leader_id : string;
  ss_role : string;
  ss_term : Z;
  ss_commit_index : Z;
  ss_last_log_index : Z;
  ss_state_hash : string;
  ss_canonical_state : string;
}.
Definition default_status_response : StatusResponse := mkStatusResponse "" "" "" 1 0 0 "" "".

Record ManagementQuery := mkManagementQuery {
  mq_operation : string;
  mq_after_index : Z;
  mq_page_size : Z;
  mq_peer_id : string;
  mq_delay_ms : Z;
  mq_expected_state_hash : string;
}.
Definition default_management_query : ManagementQuery := mkManagementQuery "" 0 0 "" 0 "".

Record ManagementReply := mkManagementReply {
  mr_error_code : string;
  mr_error_message : string;
  mr_events : list string;
  mr_next_after_index : Z;
  mr_has_more : bool;
  mr_role_changes : Z;
  mr_elections_started : Z;
  mr_votes_granted : Z;
  mr_step_downs : Z;
  mr_messages_dropped_oversize : Z;
  mr_snapshot_chunks_sent : Z;
  mr_transport_frames_sent : Z;
  mr_transport_frames_received : Z;
  mr_transport_dropped : Z;
  mr_snapshot_index : Z;
  mr_snapshot_state_hash : string;
  mr_recovery_report : string;
  mr_state_chunk : string;
  mr_state_size : Z;
}.
Definition default_management_reply : ManagementReply :=
  mkManagementReply "" "" [] 0 false 0 0 0 0 0 0 0 0 0 0 "" "" "" 0.
