(* ===== verification/Protobuf.v ===== *)
(** * The protobuf wire format

    The writers and the [Reader] of [cpp-runtime/src/protocol/codec.cpp]: keys,
    variable-length integers and length-delimited fields, and the loop every
    decoder runs over the fields of a message. *)

From S2P Require Import Prelude Text Types Bytes Frame.

(** ** Definitions *)

Definition kVarint : Z := 0.
Definition kLength : Z := 2.

(** [write_varint]: seven bits a byte, low bits first, the eighth bit set on
    every byte but the last. Ten rounds shift out a 64-bit value. *)
Fixpoint write_varint_loop (rounds : nat) (out : list Z) (value : Z) : list Z :=
  match rounds with
  | O => out ++ [value]
  | S rounds =>
      if 128 <=? value
      then write_varint_loop rounds (out ++ [Z.lor (Z.land value 127) 128]) (Z.shiftr value 7)
      else out ++ [value]
  end.

Definition write_varint (out : list Z) (value : Z) : list Z := write_varint_loop 10 out value.

Definition write_key (out : list Z) (field type : Z) : list Z :=
  write_varint out (Z.lor (Z.shiftl field 3) type).

Definition write_uint (out : list Z) (field value : Z) : list Z :=
  if value =? 0 then out else write_varint (write_key out field kVarint) value.

Definition write_bool (out : list Z) (field : Z) (value : bool) : list Z :=
  if negb value then out else write_key out field kVarint ++ [1].

Definition write_bytes (out : list Z) (field : Z) (value : list Z) : list Z :=
  if bool_decide (value = []) then out
  else write_varint (write_key out field kLength) (zsize value) ++ value.

(** A [Reader] is the part of its bytes from [offset] on. *)
Definition Reader := list Z.

Definition reader_done (r : Reader) : bool := match r with [] => true | _ => false end.

Fixpoint varint_loop (rounds : nat) (shift value : Z) (r : Reader) : result Error (Z * Reader) :=
  match rounds with
  | O => Err (mkError ProtocolError "protobuf varint exceeds ten bytes")
  | S rounds =>
      match r with
      | [] => Err (mkError ProtocolError "protobuf varint is truncated")
      | byte :: r =>
          if (shift =? 63) && (1 <? byte)
          then Err (mkError ProtocolError "protobuf varint overflows uint64")
          else
            let value := Z.lor value (wrap64 (Z.shiftl (Z.land byte 127) shift)) in
            if Z.land byte 128 =? 0 then Ok (value, r)
            else varint_loop rounds (shift + 7) value r
      end
  end.

(** The shifts 0, 7, ..., 63 are ten rounds. *)
Definition varint (r : Reader) : result Error (Z * Reader) := varint_loop 10 0 0 r.

Definition skip_or_read (wire : Z) (read : bool) (r : Reader) : result Error (list Z * Reader) :=
  if wire =? kVarint then let? (_, r) := varint r in Ok ([], r)
  else if wire =? kLength then
    let? (length, r) := varint r in
    if zsize r <? length then Err (mkError ProtocolError "protobuf length exceeds payload")
    else
      let slice := take (Z.to_nat length) r in
      Ok (if read then slice else [], drop (Z.to_nat length) r)
  else if wire =? 1 then
    if zsize r <? 8 then Err (mkError ProtocolError "protobuf fixed64 is truncated")
    else Ok ([], drop 8 r)
  else if wire =? 5 then
    if zsize r <? 4 then Err (mkError ProtocolError "protobuf fixed32 is truncated")
    else Ok ([], drop 4 r)
  else Err (mkError ProtocolError "protobuf wire type is unsupported").

(** What a decoder does with one field: the rest of the reader and the message
    with the field stored, or an error. *)
Definition FieldStep (M : Type) := Z -> Z -> Reader -> M -> result Error (M * Reader).

(** [while (!reader.done())]: read a key, split it, store or skip the field.
    [narrow] is the conversion of the field number: [static_cast<int>] in most
    decoders, none in the two of the management messages. A key takes at
    least one byte, so the rounds of [read_fields] never run out
    ([read_fields_rounds]). *)
Fixpoint decode_loop {M} (narrow : Z -> Z) (step : FieldStep M) (rounds : nat) (r : Reader)
    (message : M) : result Error M :=
  if reader_done r then Ok message
  else
    match rounds with
    | O => Err (mkError ProtocolError "")
    | S rounds =>
        let? (key, r) := varint r in
        let field := narrow (Z.shiftr key 3) in
        let wire := Z.land key 7 in
        let? (message, r) := step field wire r message in
        decode_loop narrow step rounds r message
    end.

Definition read_fields {M} (narrow : Z -> Z) (step : FieldStep M) (r : Reader) (message : M)
    : result Error M := decode_loop narrow step (length r) r message.

(** The [else] branch of every decoder. *)
Definition skip_field {M} (wire : Z) (r : Reader) (message : M) : result Error (M * Reader) :=
  let? (_, r) := skip_or_read wire false r in Ok (message, r).

#[global] Arguments write_varint : simpl never.
#[global] Arguments write_key : simpl never.
#[global] Arguments write_uint : simpl never.
#[global] Arguments write_bool : simpl never.
#[global] Arguments write_bytes : simpl never.
#[global] Arguments varint : simpl never.
#[global] Arguments skip_or_read : simpl never.
#[global] Arguments read_fields : simpl never.

(** ** Varints *)

Lemma write_varint_loop_app rounds : forall out v,
  write_varint_loop rounds out v = out ++ write_varint_loop rounds [] v.
Proof.
  induction rounds as [|rounds IH]; intros out v; cbn [write_varint_loop]; [done|].
  destruct (128 <=? v); [|done]. rewrite IH, (IH ([] ++ _)). by rewrite app_assoc.
Qed.

Lemma write_varint_app out v : write_varint out v = out ++ write_varint [] v.
Proof. apply write_varint_loop_app. Qed.

Lemma write_key_app out f t : write_key out f t = out ++ write_key [] f t.
Proof. apply write_varint_app. Qed.

Lemma write_uint_app out f v : write_uint out f v = out ++ write_uint [] f v.
Proof.
  unfold write_uint. destruct (v =? 0); [by rewrite app_nil_r|].
  by rewrite write_varint_app, write_key_app, (write_varint_app (write_key _ _ _)), app_assoc.
Qed.

Lemma write_bool_app out f v : write_bool out f v = out ++ write_bool [] f v.
Proof.
  unfold write_bool. destruct v; cbn [negb]; [|by rewrite app_nil_r].
  by rewrite write_key_app, app_assoc.
Qed.

Lemma write_bytes_app out f v : write_bytes out f v = out ++ write_bytes [] f v.
Proof.
  unfold write_bytes. case_bool_decide; [by rewrite app_nil_r|].
  by rewrite write_varint_app, write_key_app, (write_varint_app (write_key _ _ _)), !app_assoc.
Qed.

(** One byte of a varint: its seven bits and its continuation bit. *)
Lemma varint_low v : 0 <= v -> Z.land (Z.lor (Z.land v 127) 128) 127 = v mod 128.
Proof.
  intros. rewrite Z.land_lor_distr_l. change (Z.land 128 127) with 0. rewrite Z.lor_0_r.
  rewrite <- Z.land_assoc. change (Z.land 127 127) with (Z.ones 7). by rewrite Z.land_ones.
Qed.

Lemma varint_more v : (Z.land (Z.lor (Z.land v 127) 128) 128 =? 0) = false.
Proof.
  rewrite Z.land_lor_distr_l, <- Z.land_assoc. change (Z.land 127 128) with 0.
  by rewrite Z.land_0_r.
Qed.

Lemma varint_last v : 0 <= v < 128 -> Z.land v 127 = v /\ (Z.land v 128 =? 0) = true.
Proof.
  intros Hv. change 127 with (Z.ones 7). rewrite Z.land_ones by lia. split; [by rewrite Z.mod_small|].
  apply Z.eqb_eq. apply Z.bits_inj_0. intros n. rewrite Z.land_spec. change 128 with (2 ^ 7).
  destruct (Z.ltb_spec n 0); [by rewrite Z.testbit_neg_r|].
  destruct (decide (n = 7)) as [->|]; [|by rewrite Z.pow2_bits_false, andb_false_r by lia].
  rewrite <- (Z.mod_small v (2 ^ 7)) by lia. by rewrite Z.mod_pow2_bits_high by lia.
Qed.

Lemma varint_loop_written rounds : forall spare acc v r,
  let shift := 7 * (10 - Z.of_nat rounds) in
  (rounds <= 10)%nat -> 0 <= acc < 2 ^ shift -> 0 <= v < 2 ^ (64 - shift) ->
  varint_loop rounds shift acc (write_varint_loop (rounds + spare) [] v ++ r) =
  Ok (acc + v * 2 ^ shift, r).
Proof.
  induction rounds as [|rounds IH]; intros spare acc v r shift Hr Hacc Hv.
  { subst shift. simpl in Hv. lia. }
  assert (0 <= shift <= 63) by lia.
  assert (forall w, 0 <= w < 2 ^ (64 - shift) -> Z.shiftl w shift = wrap64 (Z.shiftl w shift)) as Hwrap.
  { intros w Hw. unfold wrap64. rewrite Z.shiftl_mul_pow2 by lia. rewrite Z.mod_small; [done|].
    replace 18446744073709551616 with (2 ^ (64 - shift) * 2 ^ shift); [nia|].
    rewrite <- Z.pow_add_r by lia. by replace (64 - shift + shift) with 64 by lia. }
  cbn [varint_loop write_varint_loop Nat.add]. destruct (Z.leb_spec 128 v) as [Hbig|Hsmall].
  - assert (7 < 64 - shift) by (apply (Z.pow_lt_mono_r_iff 2); [lia..|]; change (2 ^ 7) with 128; lia).
    rewrite write_varint_loop_app, <- app_assoc. cbn [app].
    destruct (Z.eqb_spec shift 63); [lia|]. cbn [andb]. rewrite varint_more, varint_low by lia.
    pose proof (Z.mod_pos_bound v 128 ltac:(lia)).
    pose proof (Z.pow_lt_mono_r 2 7 (64 - shift) ltac:(lia) ltac:(lia) ltac:(lia)) as Hp. change (2 ^ 7) with 128 in Hp.
    rewrite <- Hwrap, lor_add_shift by lia.
    replace (shift + 7) with (7 * (10 - Z.of_nat rounds)) by lia.
    rewrite IH; [|lia|..].
    + do 2 f_equal. rewrite Z.shiftr_div_pow2 by lia. change (2 ^ 7) with 128.
      replace (7 * (10 - Z.of_nat rounds)) with (7 + shift) by lia. rewrite Z.pow_add_r by lia.
      change (2 ^ 7) with 128. pose proof (Z.div_mod v 128 ltac:(lia)) as Hd.
      set (q := v / 128) in *. set (m := v mod 128) in *. clearbody q m. rewrite Hd. ring.
    + replace (7 * (10 - Z.of_nat rounds)) with (7 + shift) by lia. rewrite Z.pow_add_r by lia.
      change (2 ^ 7) with 128. set (m := v mod 128) in *. set (p := 2 ^ shift) in *. nia.
    + replace (64 - shift) with (7 + (64 - 7 * (10 - Z.of_nat rounds))) in Hv by lia.
      rewrite Z.pow_add_r in Hv by lia. rewrite Z.shiftr_div_pow2 by lia. change (2 ^ 7) with 128 in *.
      split; [apply Z.div_pos; lia|]. apply Z.div_lt_upper_bound; lia.
  - cbn [app]. destruct (varint_last v) as [-> ->]; [lia|].
    assert ((shift =? 63) && (1 <? v) = false) as ->.
    { destruct (Z.eqb_spec shift 63) as [E|]; [|done]. rewrite E in Hv. simpl in Hv.
      destruct (Z.ltb_spec 1 v); [lia|done]. }
    by rewrite <- Hwrap, lor_add_shift by lia.
Qed.

(** [varint] reads back what [write_varint] wrote, whatever follows. *)
Lemma varint_written v r : u64 v -> varint (write_varint [] v ++ r) = Ok (v, r).
Proof.
  intros Hv. unfold varint, write_varint, u64, max_u64 in *.
  pose proof (varint_loop_written 10 0 0 v r ltac:(lia)) as H. cbv zeta in H.
  change (7 * (10 - Z.of_nat 10)) with 0 in H. rewrite Z.mul_1_r in H. apply H; [done|].
  change (2 ^ (64 - 0)) with 18446744073709551616. lia.
Qed.

Lemma varint_loop_shrinks rounds : forall shift acc r v r',
  varint_loop rounds shift acc r = Ok (v, r') -> (length r' < length r)%nat.
Proof.
  induction rounds as [|rounds IH]; intros shift acc r v r'; [done|]. cbn [varint_loop].
  destruct r as [|byte r]; [done|]. destruct (_ && _); [done|]. destruct (_ =? 0).
  - intros [= <- <-]. simpl. lia.
  - intros H%IH. simpl. lia.
Qed.

(** A varint takes at least a byte. *)
Lemma varint_shrinks r v r' : varint r = Ok (v, r') -> (length r' < length r)%nat.
Proof. apply varint_loop_shrinks. Qed.

(** [skip_or_read] never moves backwards. *)
Lemma skip_or_read_shrinks wire read r x r' :
  skip_or_read wire read r = Ok (x, r') -> (length r' <= length r)%nat.
Proof.
  unfold skip_or_read. destruct (wire =? kVarint).
  { destruct (varint r) as [[v q]|] eqn:E; [|done]. apply varint_shrinks in E. intros [= <- <-]. lia. }
  destruct (wire =? kLength).
  { destruct (varint r) as [[v q]|] eqn:E; [|done]. apply varint_shrinks in E.
    destruct (zsize q <? v); [done|]. intros [= <- <-]. rewrite length_drop. lia. }
  destruct (wire =? 1); [|destruct (wire =? 5); [|done]];
    (destruct (_ <? _); [done|]; intros [= <- <-]; rewrite length_drop; lia).
Qed.

(** ** The decoder loop *)

(** A field step that never moves backwards. *)
Class Forward {M} (step : FieldStep M) :=
  forward : forall field wire r m m' r', step field wire r m = Ok (m', r') -> (length r' <= length r)%nat.

Section Loop.
Context {M : Type} (narrow : Z -> Z) (step : FieldStep M) `{!Forward step}.

(** The rounds never run out: any number above the length gives the same. *)
Lemma read_fields_rounds rounds : forall r m,
  (length r <= rounds)%nat -> decode_loop narrow step rounds r m = read_fields narrow step r m.
Proof.
  unfold read_fields.
  enough (forall n1 n2 r m, (length r <= n1)%nat -> (length r <= n2)%nat ->
    decode_loop narrow step n1 r m = decode_loop narrow step n2 r m) as H by auto.
  induction n1 as [|n1 IH]; intros n2 r m H1 H2; (destruct r as [|b r]; [by destruct n2|]); [simpl in H1; lia|].
  destruct n2 as [|n2]; [simpl in H2; lia|]. cbn [decode_loop reader_done].
  destruct (varint (b :: r)) as [[key q]|] eqn:E; [|done]. apply varint_shrinks in E.
  destruct (step _ _ q m) as [[m' q']|] eqn:E2; [|done]. apply forward in E2.
  simpl in E, H1, H2. apply IH; lia.
Qed.

Lemma read_fields_nil m : read_fields narrow step [] m = Ok m.
Proof. done. Qed.

(** One iteration of the loop. *)
Lemma read_fields_step r m :
  r <> [] ->
  read_fields narrow step r m =
    (let? (key, r) := varint r in
     let? (m, r) := step (narrow (Z.shiftr key 3)) (Z.land key 7) r m in
     read_fields narrow step r m).
Proof.
  intros Hr. destruct r as [|b r]; [done|]. unfold read_fields at 1. cbn [length decode_loop reader_done].
  destruct (varint (b :: r)) as [[key q]|] eqn:E; [|done]. apply varint_shrinks in E.
  destruct (step _ _ q m) as [[m' q']|] eqn:E2; [|done]. apply forward in E2.
  apply read_fields_rounds. simpl in E. lia.
Qed.
End Loop.

(** ** Reading what the writers wrote *)

(** Field numbers go up to 2^29 - 1. *)
Lemma key_fields f t : 0 < f < 536870912 -> 0 <= t < 8 ->
  let key := Z.lor (Z.shiftl f 3) t in u64 key /\ Z.shiftr key 3 = f /\ Z.land key 7 = t.
Proof.
  intros Hf Ht key. assert (key = t + f * 2 ^ 3) as E.
  { unfold key. rewrite Z.lor_comm. apply lor_add_shift; [|lia]. change (2 ^ 3) with 8. lia. }
  change (2 ^ 3) with 8 in E. split; [unfold u64, max_u64; lia|]. rewrite E. split.
  - rewrite Z.shiftr_div_pow2 by lia. change (2 ^ 3) with 8. rewrite Z.div_add by lia.
    by rewrite Z.div_small.
  - change 7 with (Z.ones 3). rewrite Z.land_ones by lia. change (2 ^ 3) with 8.
    rewrite Z.mod_add by lia. by apply Z.mod_small.
Qed.

(** A byte string whose size fits [std::size_t]. *)
Definition sized (s : list Z) : Prop := zsize s <= max_u64.

Lemma slice_written s read r : sized s ->
  skip_or_read kLength read (write_varint [] (zsize s) ++ s ++ r) = Ok (if read then s else [], r).
Proof.
  intros Hs. unfold sized in Hs. unfold skip_or_read. cbn [Z.eqb kLength kVarint].
  rewrite varint_written by (unfold u64, zsize in *; lia).
  destruct (Z.ltb_spec (zsize (s ++ r)) (zsize s)) as [H|_].
  { unfold zsize in H. rewrite length_app in H. lia. }
  unfold zsize. rewrite Nat2Z.id, take_app_length, drop_app_length. done.
Qed.

Section Written.
Context {M : Type} (narrow : Z -> Z) (step : FieldStep M) `{!Forward step}.
Hypothesis Hnarrow : forall f, 0 < f < 536870912 -> narrow f = f.

Lemma decode_key f t r m : 0 < f < 536870912 -> 0 <= t < 8 ->
  read_fields narrow step (write_key [] f t ++ r) m =
    (let? (m, r) := step f t r m in read_fields narrow step r m).
Proof.
  intros Hf Ht. destruct (key_fields f t Hf Ht) as (Hk & E1 & E2).
  pose proof (varint_written _ r Hk) as Hv. unfold write_key.
  rewrite read_fields_step; [|done|].
  - by rewrite Hv, E1, E2, Hnarrow.
  - intros E. by rewrite E in Hv.
Qed.

Lemma decode_uint f v r m m' : 0 < f < 536870912 -> u64 v ->
  (v <> 0 -> step f kVarint (write_varint [] v ++ r) m = Ok (m', r)) ->
  (v = 0 -> m = m') ->
  read_fields narrow step (write_uint [] f v ++ r) m = read_fields narrow step r m'.
Proof.
  intros Hf Hv H1 H0. unfold write_uint. destruct (Z.eqb_spec v 0) as [E|E]; [by rewrite H0|].
  rewrite write_varint_app, <- app_assoc, decode_key by done. by rewrite H1.
Qed.

Lemma decode_bool f v r m m' : 0 < f < 536870912 ->
  (v <> false -> step f kVarint (write_varint [] (Z.b2z v) ++ r) m = Ok (m', r)) ->
  (v = false -> m = m') ->
  read_fields narrow step (write_bool [] f v ++ r) m = read_fields narrow step r m'.
Proof.
  intros Hf H1 H0. unfold write_bool. destruct v; cbn [negb]; [|by rewrite H0].
  rewrite <- app_assoc, decode_key by done. by rewrite (H1 ltac:(done) : step f kVarint ([1] ++ r) m = _).
Qed.

Lemma decode_bytes f s r m m' : 0 < f < 536870912 ->
  (s <> [] -> step f kLength (write_varint [] (zsize s) ++ s ++ r) m = Ok (m', r)) ->
  (s = [] -> m = m') ->
  read_fields narrow step (write_bytes [] f s ++ r) m = read_fields narrow step r m'.
Proof.
  intros Hf H1 H0. unfold write_bytes. case_bool_decide as E; [by rewrite H0|].
  rewrite write_varint_app, <- !app_assoc, decode_key by done. by rewrite H1.
Qed.
End Written.

(** ** Fields nobody knows *)

(** The bytes of a field after its key, for each wire type that is skipped. *)
Inductive field_body : Z -> list Z -> Prop :=
| body_varint v : u64 v -> field_body kVarint (write_varint [] v)
| body_length s : sized s -> field_body kLength (write_varint [] (zsize s) ++ s)
| body_fixed64 s : length s = 8%nat -> field_body 1 s
| body_fixed32 s : length s = 4%nat -> field_body 5 s.

Lemma field_body_wire wire body : field_body wire body -> 0 <= wire < 8.
Proof. destruct 1; unfold kVarint, kLength; lia. Qed.

Lemma skip_body wire body r : field_body wire body ->
  skip_or_read wire false (body ++ r) = Ok ([], r).
Proof.
  destruct 1 as [v Hv|s Hs|s Hs|s Hs].
  - unfold skip_or_read. cbn [Z.eqb kVarint]. by rewrite varint_written.
  - rewrite <- app_assoc. by apply slice_written.
  - unfold skip_or_read. cbn [Z.eqb kVarint kLength]. unfold zsize. rewrite length_app, Hs.
    destruct (Z.ltb_spec (Z.of_nat (8 + length r)) 8); [lia|]. rewrite <- Hs, drop_app_length. done.
  - unfold skip_or_read. cbn [Z.eqb kVarint kLength]. unfold zsize. rewrite length_app, Hs.
    destruct (Z.ltb_spec (Z.of_nat (4 + length r)) 4); [lia|]. rewrite <- Hs, drop_app_length. done.
Qed.

Lemma skip_field_body {M} wire body r (m : M) : field_body wire body ->
  skip_field wire (body ++ r) m = Ok (m, r).
Proof. intros H. unfold skip_field. by rewrite skip_body. Qed.

(** A decoder that passes over the field numbers from [first] on. *)
Class Ignores {M} (first : Z) (step : FieldStep M) :=
  ignores : forall field wire body r m, first <= field -> field_body wire body ->
    step field wire (body ++ r) m = Ok (m, r).

(** A field written by a newer version of the protocol. *)
Inductive extension (first : Z) : list Z -> Prop :=
| extension_field f wire body :
    first <= f < 536870912 -> field_body wire body -> extension first (write_key [] f wire ++ body).

Lemma extension_ignored {M} narrow first (step : FieldStep M) `{!Forward step} `{!Ignores first step} x r m :
  (forall f, 0 < f < 536870912 -> narrow f = f) -> 0 < first -> extension first x ->
  read_fields narrow step (x ++ r) m = read_fields narrow step r m.
Proof.
  intros Hn Hfirst [f wire body Hf Hb]. rewrite <- app_assoc.
  rewrite decode_key; [|done|done|lia|by eapply field_body_wire]. by rewrite (ignores (first := first)) by (done || lia).
Qed.

Lemma extensions_ignored {M} narrow first (step : FieldStep M) `{!Forward step} `{!Ignores first step} xs m :
  (forall f, 0 < f < 536870912 -> narrow f = f) -> 0 < first -> Forall (extension first) xs ->
  read_fields narrow step (concat xs) m = Ok m.
Proof.
  intros Hn Hfirst. induction 1 as [|x xs Hx _ IH]; cbn [concat]; [done|].
  by rewrite (extension_ignored narrow first).
Qed.

(** ** The writers write bytes *)

Lemma write_varint_bytes v : u64 v -> bytes_ok (write_varint [] v).
Proof.
  unfold write_varint. enough (forall rounds v, 0 <= v < 2 ^ (7 * Z.of_nat rounds) ->
    bytes_ok (write_varint_loop rounds [] v)) as H by (intros; apply H; unfold u64, max_u64 in *; simpl; lia).
  induction rounds as [|rounds IH]; intros w Hw; cbn [write_varint_loop].
  { change (2 ^ (7 * Z.of_nat 0)) with 1 in Hw. apply list.Forall_singleton. lia. }
  destruct (Z.leb_spec 128 w); [|apply list.Forall_singleton; lia].
  rewrite write_varint_loop_app. apply bytes_ok_app. split.
  - apply list.Forall_singleton. pose proof (Z.land_ones w 7 ltac:(lia)) as E.
    change (Z.ones 7) with 127 in E. change (2 ^ 7) with 128 in E. rewrite E.
    pose proof (Z.mod_pos_bound w 128 ltac:(lia)).
    pose proof (lor_add_shift (w mod 128) 1 7) as E2. change (Z.shiftl 1 7) with 128 in E2.
    change (2 ^ 7) with 128 in E2. rewrite E2 by lia. lia.
  - apply IH. rewrite Z.shiftr_div_pow2 by lia. change (2 ^ 7) with 128.
    replace (7 * Z.of_nat (S rounds)) with (7 + 7 * Z.of_nat rounds) in Hw by lia.
    rewrite Z.pow_add_r in Hw by lia. change (2 ^ 7) with 128 in Hw.
    split; [apply Z.div_pos; lia|]. apply Z.div_lt_upper_bound; lia.
Qed.

Lemma write_key_bytes out f t : 0 < f < 536870912 -> 0 <= t < 8 -> bytes_ok out ->
  bytes_ok (write_key out f t).
Proof.
  intros Hf Ht Hout. rewrite write_key_app. apply bytes_ok_app. split; [done|].
  apply write_varint_bytes. apply (key_fields f t Hf Ht).
Qed.

Lemma write_uint_bytes out f v : 0 < f < 536870912 -> u64 v -> bytes_ok out ->
  bytes_ok (write_uint out f v).
Proof.
  intros Hf Hv Hout. unfold write_uint. destruct (v =? 0); [done|]. rewrite write_varint_app.
  apply bytes_ok_app. split; [by apply write_key_bytes|by apply write_varint_bytes].
Qed.

Lemma write_bool_bytes out f v : 0 < f < 536870912 -> bytes_ok out -> bytes_ok (write_bool out f v).
Proof.
  intros Hf Hout. unfold write_bool. destruct v; [|done]. cbn [negb]. apply bytes_ok_app.
  split; [by apply write_key_bytes|by apply list.Forall_singleton].
Qed.

Lemma write_bytes_bytes out f s : 0 < f < 536870912 -> bytes_ok s -> sized s -> bytes_ok out ->
  bytes_ok (write_bytes out f s).
Proof.
  intros Hf Hs Hsz Hout. unfold write_bytes. case_bool_decide; [done|].
  rewrite write_varint_app, !bytes_ok_app. split_and!; [by apply write_key_bytes| |done].
  apply write_varint_bytes. unfold u64, sized, zsize in *. lia.
Qed.
