(* ===== verification/MessageCodec.v ===== *)
(** * The message codec

    The [encode] overloads and the decoders of
    [cpp-runtime/src/protocol/codec.cpp], one pair per message. A decoder is
    the loop of [Protobuf] with the branches of its body as the field step; an
    [if] per struct member says which field number stores into it. *)

From S2P Require Import Prelude Text Types Model Bytes EventCodec Messages Protobuf.

(** ** Encoders *)

Definition encode_handshake (m : Handshake) : result Error (list Z) :=
  let out := write_bytes [] 1 (bytes_of (hs_node_id m)) in
  let out := write_uint out 2 (hs_major m) in
  let out := write_uint out 3 (hs_minor m) in
  Ok out.

(** One entry: a nested record with the canonical event in field 1. *)
Definition write_entry (out : list Z) (event : Event) : list Z :=
  let record := write_bytes [] 1 (bytes_of (canonical_event event)) in
  write_bytes out 5 record.

Definition encode_append_entries (m : ProtoAppendEntries) : result Error (list Z) :=
  let out := write_uint [] 1 (pa_term m) in
  let out := write_bytes out 2 (bytes_of (pa_leader_id m)) in
  let out := write_uint out 3 (pa_prev_log_index m) in
  let out := write_uint out 4 (pa_prev_log_term m) in
  let out := foldl write_entry out (pa_entries m) in
  let out := write_uint out 6 (pa_leader_commit m) in
  Ok out.

Definition encode_append_response (m : ProtoAppendResponse) : result Error (list Z) :=
  let out := write_uint [] 1 (par_term m) in
  let out := write_bytes out 2 (bytes_of (par_follower_id m)) in
  let out := write_bool out 3 (par_success m) in
  let out := write_uint out 4 (par_match_index m) in
  let out := write_uint out 5 (par_hint_index m) in
  Ok out.

Definition encode_request_vote (m : ProtoRequestVote) : result Error (list Z) :=
  let out := write_uint [] 1 (prv_term m) in
  let out := write_bytes out 2 (bytes_of (prv_candidate_id m)) in
  let out := write_uint out 3 (prv_last_log_index m) in
  let out := write_uint out 4 (prv_last_log_term m) in
  Ok out.

Definition encode_vote_response (m : ProtoVoteResponse) : result Error (list Z) :=
  let out := write_uint [] 1 (pvr_term m) in
  let out := write_bytes out 2 (bytes_of (pvr_voter_id m)) in
  let out := write_bool out 3 (pvr_vote_granted m) in
  Ok out.

Definition encode_install_snapshot (m : ProtoInstallSnapshot) : result Error (list Z) :=
  let out := write_uint [] 1 (pi_term m) in
  let out := write_bytes out 2 (bytes_of (pi_leader_id m)) in
  let out := write_uint out 3 (pi_last_included_index m) in
  let out := write_uint out 4 (pi_last_included_term m) in
  let out := write_bytes out 5 (bytes_of (pi_state_hash m)) in
  let out := write_bytes out 6 (bytes_of (pi_payload m)) in
  let out := write_uint out 7 (pi_offset m) in
  let out := write_bool out 8 (pi_more m) in
  Ok out.

Definition encode_snapshot_response (m : ProtoSnapshotResponse) : result Error (list Z) :=
  let out := write_uint [] 1 (psr_term m) in
  let out := write_bytes out 2 (bytes_of (psr_follower_id m)) in
  let out := write_bool out 3 (psr_success m) in
  let out := write_uint out 4 (psr_next_offset m) in
  Ok out.

Definition encode_protocol_error (m : ProtoError) : result Error (list Z) :=
  let out := write_bytes [] 1 (bytes_of (pe_code m)) in
  let out := write_bytes out 2 (bytes_of (pe_detail m)) in
  Ok out.

Definition encode_client_command (m : ClientCommand) : result Error (list Z) :=
  Ok (write_bytes [] 1 (bytes_of (cc_canonical m))).

Definition encode_client_response (m : ClientResponse) : result Error (list Z) :=
  let out := write_bool [] 1 (cr_ok m) in
  let out := write_bool out 2 (cr_duplicate m) in
  let out := write_bytes out 3 (bytes_of (cr_error_code m)) in
  let out := write_bytes out 4 (bytes_of (cr_error_message m)) in
  let out := write_bytes out 5 (bytes_of (cr_leader_id m)) in
  let out := write_uint out 6 (cr_index m) in
  let out := write_bytes out 7 (bytes_of (cr_event_canonical m)) in
  let out := write_bytes out 8 (bytes_of (cr_state_hash m)) in
  Ok out.

Definition encode_status_query : result Error (list Z) := Ok [].

Definition encode_status_response (m : StatusResponse) : result Error (list Z) :=
  let out := write_bytes [] 1 (bytes_of (ss_node_id m)) in
  let out := write_bytes out 2 (bytes_of (ss_leader_id m)) in
  let out := write_bytes out 3 (bytes_of (ss_role m)) in
  let out := write_uint out 4 (ss_term m) in
  let out := write_uint out 5 (ss_commit_index m) in
  let out := write_uint out 6 (ss_last_log_index m) in
  let out := write_bytes out 7 (bytes_of (ss_state_hash m)) in
  let out := write_bytes out 8 (bytes_of (ss_canonical_state m)) in
  Ok out.

Definition encode_management_query (m : ManagementQuery) : result Error (list Z) :=
  let out := write_bytes [] 1 (bytes_of (mq_operation m)) in
  let out := write_uint out 2 (mq_after_index m) in
  let out := write_uint out 3 (mq_page_size m) in
  let out := write_bytes out 4 (bytes_of (mq_peer_id m)) in
  let out := write_uint out 5 (mq_delay_ms m) in
  let out := write_bytes out 6 (bytes_of (mq_expected_state_hash m)) in
  Ok out.

Definition encode_management_reply (m : ManagementReply) : result Error (list Z) :=
  let out := write_bytes [] 1 (bytes_of (mr_error_code m)) in
  let out := write_bytes out 2 (bytes_of (mr_error_message m)) in
  let out := foldl (fun out event => write_bytes out 3 (bytes_of event)) out (mr_events m) in
  let out := write_uint out 4 (mr_next_after_index m) in
  let out := write_bool out 5 (mr_has_more m) in
  let out := write_uint out 6 (mr_role_changes m) in
  let out := write_uint out 7 (mr_elections_started m) in
  let out := write_uint out 8 (mr_votes_granted m) in
  let out := write_uint out 9 (mr_step_downs m) in
  let out := write_uint out 10 (mr_messages_dropped_oversize m) in
  let out := write_uint out 11 (mr_snapshot_chunks_sent m) in
  let out := write_uint out 12 (mr_transport_frames_sent m) in
  let out := write_uint out 13 (mr_transport_frames_received m) in
  let out := write_uint out 14 (mr_transport_dropped m) in
  let out := write_uint out 15 (mr_snapshot_index m) in
  let out := write_bytes out 16 (bytes_of (mr_snapshot_state_hash m)) in
  let out := write_bytes out 17 (bytes_of (mr_recovery_report m)) in
  let out := write_bytes out 18 (bytes_of (mr_state_chunk m)) in
  let out := write_uint out 19 (mr_state_size m) in
  Ok out.

(** ** Decoders *)

Definition handshake_field : FieldStep Handshake := fun field wire r m =>
  if (field =? 1) && (wire =? kLength) then
    let? (value, r) := skip_or_read wire true r in
    Ok (mkHandshake (string_of value) (hs_major m) (hs_minor m), r)
  else if ((field =? 2) || (field =? 3)) && (wire =? kVarint) then
    let? (value, r) := varint r in
    if 4294967295 <? value then Err (mkError ProtocolError "handshake version exceeds uint32")
    else if field =? 2 then Ok (mkHandshake (hs_node_id m) (wrap32 value) (hs_minor m), r)
    else Ok (mkHandshake (hs_node_id m) (hs_major m) (wrap32 value), r)
  else skip_field wire r m.

Definition decode_handshake (bytes : list Z) : result Error Handshake :=
  read_fields to_i32 handshake_field bytes default_handshake.

(** The inner loop over an entry record keeps the last field 1. *)
Definition record_field : FieldStep string := fun field wire r canonical =>
  if (field =? 1) && (wire =? kLength) then
    let? (value, r) := skip_or_read wire true r in Ok (string_of value, r)
  else skip_field wire r canonical.

Definition append_entries_field : FieldStep ProtoAppendEntries := fun field wire r m =>
  if ((field =? 1) || (field =? 3) || (field =? 4) || (field =? 6)) && (wire =? kVarint) then
    let? (value, r) := varint r in
    Ok (mkProtoAppendEntries
          (if field =? 1 then value else pa_term m)
          (pa_leader_id m)
          (if field =? 3 then value else pa_prev_log_index m)
          (if field =? 4 then value else pa_prev_log_term m)
          (pa_entries m)
          (if field =? 6 then value else pa_leader_commit m), r)
  else if (field =? 2) && (wire =? kLength) then
    let? (value, r) := skip_or_read wire true r in
    Ok (mkProtoAppendEntries (pa_term m) (string_of value) (pa_prev_log_index m)
          (pa_prev_log_term m) (pa_entries m) (pa_leader_commit m), r)
  else if (field =? 5) && (wire =? kLength) then
    let? (record, r) := skip_or_read wire true r in
    let? canonical := read_fields to_i32 record_field record "" in
    let? event := parse_event canonical in
    Ok (mkProtoAppendEntries (pa_term m) (pa_leader_id m) (pa_prev_log_index m)
          (pa_prev_log_term m) (pa_entries m ++ [event]) (pa_leader_commit m), r)
  else skip_field wire r m.

Definition decode_append_entries (bytes : list Z) : result Error ProtoAppendEntries :=
  read_fields to_i32 append_entries_field bytes default_append_entries.

Definition append_response_field : FieldStep ProtoAppendResponse := fun field wire r m =>
  if (wire =? kVarint) && ((field =? 1) || (field =? 3) || (field =? 4) || (field =? 5)) then
    let? (value, r) := varint r in
    Ok (mkProtoAppendResponse
          (if field =? 1 then value else par_term m)
          (par_follower_id m)
          (if field =? 3 then negb (value =? 0) else par_success m)
          (if field =? 4 then value else par_match_index m)
          (if field =? 5 then value else par_hint_index m), r)
  else if (field =? 2) && (wire =? kLength) then
    let? (value, r) := skip_or_read wire true r in
    Ok (mkProtoAppendResponse (par_term m) (string_of value) (par_success m) (par_match_index m)
          (par_hint_index m), r)
  else skip_field wire r m.

Definition decode_append_response (bytes : list Z) : result Error ProtoAppendResponse :=
  read_fields to_i32 append_response_field bytes default_append_response.

(** A varint under any other number than 2 is read here, stored or not. *)
Definition request_vote_field : FieldStep ProtoRequestVote := fun field wire r m =>
  if (wire =? kVarint) && negb (field =? 2) then
    let? (value, r) := varint r in
    Ok (mkProtoRequestVote
          (if field =? 1 then value else prv_term m)
          (prv_candidate_id m)
          (if field =? 3 then value else prv_last_log_index m)
          (if field =? 4 then value else prv_last_log_term m), r)
  else if (field =? 2) && (wire =? kLength) then
    let? (value, r) := skip_or_read wire true r in
    Ok (mkProtoRequestVote (prv_term m) (string_of value) (prv_last_log_index m)
          (prv_last_log_term m), r)
  else skip_field wire r m.

Definition decode_request_vote (bytes : list Z) : result Error ProtoRequestVote :=
  read_fields to_i32 request_vote_field bytes default_request_vote.

Definition vote_response_field : FieldStep ProtoVoteResponse := fun field wire r m =>
  if (wire =? kVarint) && negb (field =? 2) then
    let? (value, r) := varint r in
    Ok (mkProtoVoteResponse
          (if field =? 1 then value else pvr_term m)
          (pvr_voter_id m)
          (if field =? 3 then negb (value =? 0) else pvr_vote_granted m), r)
  else if (field =? 2) && (wire =? kLength) then
    let? (value, r) := skip_or_read wire true r in
    Ok (mkProtoVoteResponse (pvr_term m) (string_of value) (pvr_vote_granted m), r)
  else skip_field wire r m.

Definition decode_vote_response (bytes : list Z) : result Error ProtoVoteResponse :=
  read_fields to_i32 vote_response_field bytes default_vote_response.

Definition install_snapshot_field : FieldStep ProtoInstallSnapshot := fun field wire r m =>
  if (wire =? kVarint) &&
     ((field =? 1) || (field =? 3) || (field =? 4) || (field =? 7) || (field =? 8)) then
    let? (value, r) := varint r in
    Ok (mkProtoInstallSnapshot
          (if field =? 1 then value else pi_term m)
          (pi_leader_id m)
          (if field =? 3 then value else pi_last_included_index m)
          (if field =? 4 then value else pi_last_included_term m)
          (pi_state_hash m)
          (pi_payload m)
          (if field =? 7 then value else pi_offset m)
          (if field =? 8 then negb (value =? 0) else pi_more m), r)
  else if (wire =? kLength) && ((field =? 2) || (field =? 5) || (field =? 6)) then
    let? (value, r) := skip_or_read wire true r in
    Ok (mkProtoInstallSnapshot (pi_term m)
          (if field =? 2 then string_of value else pi_leader_id m)
          (pi_last_included_index m) (pi_last_included_term m)
          (if field =? 5 then string_of value else pi_state_hash m)
          (if field =? 6 then string_of value else pi_payload m)
          (pi_offset m) (pi_more m), r)
  else skip_field wire r m.

Definition decode_install_snapshot (bytes : list Z) : result Error ProtoInstallSnapshot :=
  read_fields to_i32 install_snapshot_field bytes default_install_snapshot.

Definition snapshot_response_field : FieldStep ProtoSnapshotResponse := fun field wire r m =>
  if (wire =? kVarint) && negb (field =? 2) then
    let? (value, r) := varint r in
    Ok (mkProtoSnapshotResponse
          (if field =? 1 then value else psr_term m)
          (psr_follower_id m)
          (if field =? 3 then negb (value =? 0) else psr_success m)
          (if field =? 4 then value else psr_next_offset m), r)
  else if (field =? 2) && (wire =? kLength) then
    let? (value, r) := skip_or_read wire true r in
    Ok (mkProtoSnapshotResponse (psr_term m) (string_of value) (psr_success m)
          (psr_next_offset m), r)
  else skip_field wire r m.

Definition decode_snapshot_response (bytes : list Z) : result Error ProtoSnapshotResponse :=
  read_fields to_i32 snapshot_response_field bytes default_snapshot_response.

Definition protocol_error_field : FieldStep ProtoError := fun field wire r m =>
  if (wire =? kLength) && ((field =? 1) || (field =? 2)) then
    let? (value, r) := skip_or_read wire true r in
    Ok (mkProtoError (if field =? 1 then string_of value else pe_code m)
                     (if field =? 2 then string_of value else pe_detail m), r)
  else skip_field wire r m.

Definition decode_protocol_error (bytes : list Z) : result Error ProtoError :=
  read_fields to_i32 protocol_error_field bytes default_protocol_error.

Definition client_command_field : FieldStep ClientCommand := fun field wire r m =>
  if (field =? 1) && (wire =? kLength) then
    let? (value, r) := skip_or_read wire true r in Ok (mkClientCommand (string_of value), r)
  else skip_field wire r m.

Definition decode_client_command (bytes : list Z) : result Error ClientCommand :=
  read_fields to_i32 client_command_field bytes default_client_command.

Definition client_response_field : FieldStep ClientResponse := fun field wire r m =>
  if (wire =? kVarint) && ((field =? 1) || (field =? 2) || (field =? 6)) then
    let? (value, r) := varint r in
    Ok (mkClientResponse
          (if field =? 1 then negb (value =? 0) else cr_ok m)
          (if field =? 2 then negb (value =? 0) else cr_duplicate m)
          (cr_error_code m) (cr_error_message m) (cr_leader_id m)
          (if field =? 6 then value else cr_index m)
          (cr_event_canonical m) (cr_state_hash m), r)
  else if (wire =? kLength) && (3 <=? field) && (field <=? 8) && negb (field =? 6) then
    let? (value, r) := skip_or_read wire true r in
    Ok (mkClientResponse (cr_ok m) (cr_duplicate m)
          (if field =? 3 then string_of value else cr_error_code m)
          (if field =? 4 then string_of value else cr_error_message m)
          (if field =? 5 then string_of value else cr_leader_id m)
          (cr_index m)
          (if field =? 7 then string_of value else cr_event_canonical m)
          (if field =? 8 then string_of value else cr_state_hash m), r)
  else skip_field wire r m.

Definition decode_client_response (bytes : list Z) : result Error ClientResponse :=
  read_fields to_i32 client_response_field bytes default_client_response.

Definition status_response_field : FieldStep StatusResponse := fun field wire r m =>
  if (wire =? kVarint) && ((field =? 4) || (field =? 5) || (field =? 6)) then
    let? (value, r) := varint r in
    Ok (mkStatusResponse (ss_node_id m) (ss_leader_id m) (ss_role m)
          (if field =? 4 then value else ss_term m)
          (if field =? 5 then value else ss_commit_index m)
          (if field =? 6 then value else ss_last_log_index m)
          (ss_state_hash m) (ss_canonical_state m), r)
  else if (wire =? kLength) &&
     ((field =? 1) || (field =? 2) || (field =? 3) || (field =? 7) || (field =? 8)) then
    let? (value, r) := skip_or_read wire true r in
    Ok (mkStatusResponse
          (if field =? 1 then string_of value else ss_node_id m)
          (if field =? 2 then string_of value else ss_leader_id m)
          (if field =? 3 then string_of value else ss_role m)
          (ss_term m) (ss_commit_index m) (ss_last_log_index m)
          (if field =? 7 then string_of value else ss_state_hash m)
          (if field =? 8 then string_of value else ss_canonical_state m), r)
  else skip_field wire r m.

Definition decode_status_response (bytes : list Z) : result Error StatusResponse :=
  read_fields to_i32 status_response_field bytes default_status_response.

(** The management decoders keep the field number at 64 bits. *)
Definition management_query_field : FieldStep ManagementQuery := fun field wire r m =>
  if ((field =? 1) || (field =? 4) || (field =? 6)) && (wire =? kLength) then
    let? (value, r) := skip_or_read wire true r in
    Ok (mkManagementQuery
          (if field =? 1 then string_of value else mq_operation m)
          (mq_after_index m) (mq_page_size m)
          (if field =? 4 then string_of value else mq_peer_id m)
          (mq_delay_ms m)
          (if field =? 6 then string_of value else mq_expected_state_hash m), r)
  else if ((field =? 2) || (field =? 3) || (field =? 5)) && (wire =? kVarint) then
    let? (value, r) := varint r in
    if field =? 2 then
      Ok (mkManagementQuery (mq_operation m) value (mq_page_size m) (mq_peer_id m) (mq_delay_ms m)
            (mq_expected_state_hash m), r)
    else if field =? 5 then
      if 5000 <? value then Err (mkError ProtocolError "management delay exceeds 5000 ms")
      else Ok (mkManagementQuery (mq_operation m) (mq_after_index m) (mq_page_size m)
                 (mq_peer_id m) (wrap32 value) (mq_expected_state_hash m), r)
    else if 128 <? value then Err (mkError ProtocolError "management page size exceeds 128")
    else Ok (mkManagementQuery (mq_operation m) (mq_after_index m) (wrap32 value) (mq_peer_id m)
               (mq_delay_ms m) (mq_expected_state_hash m), r)
  else skip_field wire r m.

Definition decode_management_query (bytes : list Z) : result Error ManagementQuery :=
  read_fields (fun field => field) management_query_field bytes default_management_query.

(** The two switches of [decode_management_reply]. *)
Definition reply_string (field : Z) (value : string) (m : ManagementReply) : ManagementReply :=
  mkManagementReply
    (if field =? 1 then value else mr_error_code m)
    (if field =? 2 then value else mr_error_message m)
    (if field =? 3 then mr_events m ++ [value] else mr_events m)
    (mr_next_after_index m) (mr_has_more m) (mr_role_changes m) (mr_elections_started m)
    (mr_votes_granted m) (mr_step_downs m) (mr_messages_dropped_oversize m)
    (mr_snapshot_chunks_sent m) (mr_transport_frames_sent m) (mr_transport_frames_received m)
    (mr_transport_dropped m) (mr_snapshot_index m)
    (if field =? 16 then value else mr_snapshot_state_hash m)
    (if field =? 17 then value else mr_recovery_report m)
    (if field =? 18 then value else mr_state_chunk m)
    (mr_state_size m).

Definition reply_number (field value : Z) (m : ManagementReply) : ManagementReply :=
  mkManagementReply (mr_error_code m) (mr_error_message m) (mr_events m)
    (if field =? 4 then value else mr_next_after_index m)
    (if field =? 5 then negb (value =? 0) else mr_has_more m)
    (if field =? 6 then value else mr_role_changes m)
    (if field =? 7 then value else mr_elections_started m)
    (if field =? 8 then value else mr_votes_granted m)
    (if field =? 9 then value else mr_step_downs m)
    (if field =? 10 then value else mr_messages_dropped_oversize m)
    (if field =? 11 then value else mr_snapshot_chunks_sent m)
    (if field =? 12 then value else mr_transport_frames_sent m)
    (if field =? 13 then value else mr_transport_frames_received m)
    (if field =? 14 then value else mr_transport_dropped m)
    (if field =? 15 then value else mr_snapshot_index m)
    (mr_snapshot_state_hash m) (mr_recovery_report m) (mr_state_chunk m)
    (if field =? 19 then value else mr_state_size m).

Definition management_reply_field : FieldStep ManagementReply := fun field wire r m =>
  if ((field =? 1) || (field =? 2) || (field =? 3) || (field =? 16) || (field =? 17) ||
      (field =? 18)) && (wire =? kLength) then
    let? (value, r) := skip_or_read wire true r in Ok (reply_string field (string_of value) m, r)
  else if (((4 <=? field) && (field <=? 15)) || (field =? 19)) && (wire =? kVarint) then
    let? (value, r) := varint r in Ok (reply_number field value m, r)
  else skip_field wire r m.

Definition decode_management_reply (bytes : list Z) : result Error ManagementReply :=
  read_fields (fun field => field) management_reply_field bytes default_management_reply.
