(* ===== verification/MessageCodecThms.v ===== *)
(** * The message codec inverts itself

    Every message that satisfies its well-formedness predicate is read back as
    it was written: one [Codec] instance per message, then the choice of the
    decoder by the type of the frame, and the frame around it. *)

From S2P Require Import Prelude Text Types Model Bytes Frame EventCodec EventCodecThms Messages Protobuf MessageCodec.

#[local] Arguments reply_string _ _ _ /.
#[local] Arguments canonical_event : simpl never.
#[local] Arguments reply_number _ _ _ /.

(** ** Decoders move forward *)

Lemma skip_field_forward {M} wire r (m m' : M) r' :
  skip_field wire r m = Ok (m', r') -> (length r' <= length r)%nat.
Proof.
  unfold skip_field. destruct (skip_or_read wire false r) as [[x q]|] eqn:E; [|done].
  intros [= <- <-]. by eapply skip_or_read_shrinks.
Qed.

Ltac forward_step :=
  intros field wire r m m' r';
  repeat (case_match; try discriminate);
  repeat match goal with
  | H : varint _ = Ok _ |- _ => apply varint_shrinks in H
  | H : skip_or_read _ _ _ = Ok _ |- _ => apply skip_or_read_shrinks in H
  end;
  first [ intros [= <- <-]; subst; lia | apply skip_field_forward ].

#[export] Instance handshake_forward : Forward handshake_field.
Proof. unfold handshake_field. forward_step. Qed.

#[export] Instance record_forward : Forward record_field.
Proof. unfold record_field. forward_step. Qed.

#[export] Instance append_entries_forward : Forward append_entries_field.
Proof. unfold append_entries_field. forward_step. Qed.

#[export] Instance append_response_forward : Forward append_response_field.
Proof. unfold append_response_field. forward_step. Qed.

#[export] Instance request_vote_forward : Forward request_vote_field.
Proof. unfold request_vote_field. forward_step. Qed.

#[export] Instance vote_response_forward : Forward vote_response_field.
Proof. unfold vote_response_field. forward_step. Qed.

#[export] Instance install_snapshot_forward : Forward install_snapshot_field.
Proof. unfold install_snapshot_field. forward_step. Qed.

#[export] Instance snapshot_response_forward : Forward snapshot_response_field.
Proof. unfold snapshot_response_field. forward_step. Qed.

#[export] Instance protocol_error_forward : Forward protocol_error_field.
Proof. unfold protocol_error_field. forward_step. Qed.

#[export] Instance client_command_forward : Forward client_command_field.
Proof. unfold client_command_field. forward_step. Qed.

#[export] Instance client_response_forward : Forward client_response_field.
Proof. unfold client_response_field. forward_step. Qed.

#[export] Instance status_response_forward : Forward status_response_field.
Proof. unfold status_response_field. forward_step. Qed.

#[export] Instance management_query_forward : Forward management_query_field.
Proof. unfold management_query_field. forward_step. Qed.

#[export] Instance management_reply_forward : Forward management_reply_field.
Proof. unfold management_reply_field. forward_step. Qed.

(** ** Well-formed messages *)

(** A text whose size fits [std::size_t]. *)
Definition text_ok (s : string) : Prop := sized (bytes_of s).

Definition u32 (x : Z) : Prop := 0 <= x <= 4294967295.

Definition handshake_ok (m : Handshake) : Prop :=
  text_ok (hs_node_id m) /\ u32 (hs_major m) /\ hs_major m <> 0 /\ u32 (hs_minor m).

(** An entry of an [AppendEntries]: an event its codec reads back, in a record
    whose size fits. *)
Definition record_bytes (e : Event) : list Z := write_bytes [] 1 (bytes_of (canonical_event e)).

Definition wire_entry_ok (e : Event) : Prop := event_ok e /\ sized (record_bytes e).

Definition append_entries_ok (m : ProtoAppendEntries) : Prop :=
  u64 (pa_term m) /\ pa_term m <> 0 /\ text_ok (pa_leader_id m) /\ u64 (pa_prev_log_index m) /\
  u64 (pa_prev_log_term m) /\ Forall wire_entry_ok (pa_entries m) /\ u64 (pa_leader_commit m).

Definition append_response_ok (m : ProtoAppendResponse) : Prop :=
  u64 (par_term m) /\ par_term m <> 0 /\ text_ok (par_follower_id m) /\
  u64 (par_match_index m) /\ u64 (par_hint_index m).

Definition request_vote_ok (m : ProtoRequestVote) : Prop :=
  u64 (prv_term m) /\ prv_term m <> 0 /\ text_ok (prv_candidate_id m) /\
  u64 (prv_last_log_index m) /\ u64 (prv_last_log_term m).

Definition vote_response_ok (m : ProtoVoteResponse) : Prop :=
  u64 (pvr_term m) /\ pvr_term m <> 0 /\ text_ok (pvr_voter_id m).

Definition install_snapshot_ok (m : ProtoInstallSnapshot) : Prop :=
  u64 (pi_term m) /\ pi_term m <> 0 /\ text_ok (pi_leader_id m) /\
  u64 (pi_last_included_index m) /\ u64 (pi_last_included_term m) /\ text_ok (pi_state_hash m) /\
  text_ok (pi_payload m) /\ u64 (pi_offset m).

Definition snapshot_response_ok (m : ProtoSnapshotResponse) : Prop :=
  u64 (psr_term m) /\ psr_term m <> 0 /\ text_ok (psr_follower_id m) /\ u64 (psr_next_offset m).

Definition protocol_error_ok (m : ProtoError) : Prop := text_ok (pe_code m) /\ text_ok (pe_detail m).

Definition client_command_ok (m : ClientCommand) : Prop := text_ok (cc_canonical m).

Definition client_response_ok (m : ClientResponse) : Prop :=
  text_ok (cr_error_code m) /\ text_ok (cr_error_message m) /\ text_ok (cr_leader_id m) /\
  u64 (cr_index m) /\ text_ok (cr_event_canonical m) /\ text_ok (cr_state_hash m).

Definition status_response_ok (m : StatusResponse) : Prop :=
  text_ok (ss_node_id m) /\ text_ok (ss_leader_id m) /\ text_ok (ss_role m) /\
  u64 (ss_term m) /\ ss_term m <> 0 /\ u64 (ss_commit_index m) /\ u64 (ss_last_log_index m) /\
  text_ok (ss_state_hash m) /\ text_ok (ss_canonical_state m).

(** The decoder bounds the page size and the delay. *)
Definition management_query_ok (m : ManagementQuery) : Prop :=
  text_ok (mq_operation m) /\ u64 (mq_after_index m) /\ 0 <= mq_page_size m <= 128 /\
  text_ok (mq_peer_id m) /\ 0 <= mq_delay_ms m <= 5000 /\ text_ok (mq_expected_state_hash m).

(** An empty event would not be written. *)
Definition management_reply_ok (m : ManagementReply) : Prop :=
  text_ok (mr_error_code m) /\ text_ok (mr_error_message m) /\
  Forall (fun e => text_ok e /\ e <> "") (mr_events m) /\
  u64 (mr_next_after_index m) /\ u64 (mr_role_changes m) /\ u64 (mr_elections_started m) /\
  u64 (mr_votes_granted m) /\ u64 (mr_step_downs m) /\ u64 (mr_messages_dropped_oversize m) /\
  u64 (mr_snapshot_chunks_sent m) /\ u64 (mr_transport_frames_sent m) /\
  u64 (mr_transport_frames_received m) /\ u64 (mr_transport_dropped m) /\
  u64 (mr_snapshot_index m) /\ text_ok (mr_snapshot_state_hash m) /\
  text_ok (mr_recovery_report m) /\ text_ok (mr_state_chunk m) /\ u64 (mr_state_size m).

Lemma bytes_of_nil s : bytes_of s = [] -> s = "".
Proof. by destruct s. Qed.

Lemma b2z_test (b : bool) : negb (Z.b2z b =? 0) = b.
Proof. by destruct b. Qed.

Lemma b2z_u64 (b : bool) : u64 (Z.b2z b).
Proof. unfold u64, max_u64. destruct b; simpl; lia. Qed.

Lemma wrap32_small x : 0 <= x <= 4294967295 -> wrap32 x = x.
Proof. intros. unfold wrap32. apply Z.mod_small. lia. Qed.

Lemma narrow_int f : 0 < f < 536870912 -> to_i32 f = f.
Proof. intros. apply to_i32_small. lia. Qed.

Lemma narrow_none f : 0 < f < 536870912 -> (fun x : Z => x) f = f.
Proof. done. Qed.


(** Put a chain of writers in the form [field ++ field ++ ... ++ []]. *)
Ltac split_writers :=
  repeat match goal with
  | |- context [write_uint ?o ?f ?v] =>
      lazymatch o with [] => fail | _ => rewrite (write_uint_app o f v) end
  | |- context [write_bool ?o ?f ?v] =>
      lazymatch o with [] => fail | _ => rewrite (write_bool_app o f v) end
  | |- context [write_bytes ?o ?f ?v] =>
      lazymatch o with [] => fail | _ => rewrite (write_bytes_app o f v) end
  end;
  rewrite <- ?app_assoc.

(** Run the step of a decoder on a written value. *)
Ltac run_step :=
  intros ?; cbn;
  first [ rewrite varint_written by apply b2z_u64; rewrite b2z_test
        | rewrite varint_written by (unfold u64, u32, max_u64 in *; lia)
        | rewrite slice_written by done; rewrite string_of_bytes_of ];
  cbn;
  repeat match goal with
  | |- context [?a <? ?b] => destruct (Z.ltb_spec a b); [unfold u32 in *; lia|]
  end;
  rewrite ?wrap32_small by (unfold u32 in *; lia);
  reflexivity.

(** A field that was left out has its default value. *)
Ltac left_out :=
  first [ intros ->%bytes_of_nil; reflexivity | intros ->; first [reflexivity|done] ].

(** Read the first field of such a list. *)
Ltac read_first :=
  match goal with
  | |- read_fields _ _ (write_uint [] _ _ ++ _) _ = _ =>
      erewrite decode_uint;
        [|apply _|first [exact narrow_int|exact narrow_none]|lia|unfold u64, u32, max_u64 in *; lia|run_step|left_out]
  | |- read_fields _ _ (write_bool [] _ _ ++ _) _ = _ =>
      erewrite decode_bool; [|apply _|first [exact narrow_int|exact narrow_none]|lia|run_step|left_out]
  | |- read_fields _ _ (write_bytes [] _ _ ++ _) _ = _ =>
      erewrite decode_bytes; [|apply _|first [exact narrow_int|exact narrow_none]|lia|run_step|left_out]
  end.

(** Every decoder, run on the bytes of a message, reaches that message, with
    the bytes that follow still to read. Here for the messages without
    repeated fields. *)
Ltac reads ok default :=
  intros Hok E; injection E as <-;
  match type of Hok with _ ?m => destruct m end;
  unfold ok in Hok; cbn in *; destruct_and?;
  unfold default; split_writers; repeat read_first; reflexivity.

Lemma handshake_reads m bytes r : handshake_ok m -> encode_handshake m = Ok bytes ->
  read_fields to_i32 handshake_field (bytes ++ r) default_handshake =
  read_fields to_i32 handshake_field r m.
Proof. reads handshake_ok default_handshake. Qed.

Lemma append_response_reads m bytes r : append_response_ok m -> encode_append_response m = Ok bytes ->
  read_fields to_i32 append_response_field (bytes ++ r) default_append_response =
  read_fields to_i32 append_response_field r m.
Proof. reads append_response_ok default_append_response. Qed.

Lemma request_vote_reads m bytes r : request_vote_ok m -> encode_request_vote m = Ok bytes ->
  read_fields to_i32 request_vote_field (bytes ++ r) default_request_vote =
  read_fields to_i32 request_vote_field r m.
Proof. reads request_vote_ok default_request_vote. Qed.

Lemma vote_response_reads m bytes r : vote_response_ok m -> encode_vote_response m = Ok bytes ->
  read_fields to_i32 vote_response_field (bytes ++ r) default_vote_response =
  read_fields to_i32 vote_response_field r m.
Proof. reads vote_response_ok default_vote_response. Qed.

Lemma install_snapshot_reads m bytes r : install_snapshot_ok m -> encode_install_snapshot m = Ok bytes ->
  read_fields to_i32 install_snapshot_field (bytes ++ r) default_install_snapshot =
  read_fields to_i32 install_snapshot_field r m.
Proof. reads install_snapshot_ok default_install_snapshot. Qed.

Lemma snapshot_response_reads m bytes r : snapshot_response_ok m -> encode_snapshot_response m = Ok bytes ->
  read_fields to_i32 snapshot_response_field (bytes ++ r) default_snapshot_response =
  read_fields to_i32 snapshot_response_field r m.
Proof. reads snapshot_response_ok default_snapshot_response. Qed.

Lemma protocol_error_reads m bytes r : protocol_error_ok m -> encode_protocol_error m = Ok bytes ->
  read_fields to_i32 protocol_error_field (bytes ++ r) default_protocol_error =
  read_fields to_i32 protocol_error_field r m.
Proof. reads protocol_error_ok default_protocol_error. Qed.

Lemma client_command_reads m bytes r : client_command_ok m -> encode_client_command m = Ok bytes ->
  read_fields to_i32 client_command_field (bytes ++ r) default_client_command =
  read_fields to_i32 client_command_field r m.
Proof. reads client_command_ok default_client_command. Qed.

Lemma client_response_reads m bytes r : client_response_ok m -> encode_client_response m = Ok bytes ->
  read_fields to_i32 client_response_field (bytes ++ r) default_client_response =
  read_fields to_i32 client_response_field r m.
Proof. reads client_response_ok default_client_response. Qed.

Lemma status_response_reads m bytes r : status_response_ok m -> encode_status_response m = Ok bytes ->
  read_fields to_i32 status_response_field (bytes ++ r) default_status_response =
  read_fields to_i32 status_response_field r m.
Proof. reads status_response_ok default_status_response. Qed.

Lemma management_query_reads m bytes r : management_query_ok m -> encode_management_query m = Ok bytes ->
  read_fields (fun field => field) management_query_field (bytes ++ r) default_management_query =
  read_fields (fun field => field) management_query_field r m.
Proof. reads management_query_ok default_management_query. Qed.

(** ** Repeated fields *)

Lemma foldl_writer {A} (write : list Z -> A -> list Z) xs :
  (forall out x, write out x = out ++ write [] x) ->
  forall out, foldl write out xs = out ++ concat (write [] <$> xs).
Proof.
  intros Hw. induction xs as [|x xs IH]; intros out; cbn; [by rewrite app_nil_r|].
  by rewrite IH, (Hw out x), app_assoc.
Qed.

Lemma decode_repeated {M A} narrow (step : FieldStep M) (bytes : A -> list Z) (ok : A -> Prop)
    (add : M -> A -> M) r xs :
  (forall x m r, ok x -> read_fields narrow step (bytes x ++ r) m = read_fields narrow step r (add m x)) ->
  Forall ok xs ->
  forall m, read_fields narrow step (concat (bytes <$> xs) ++ r) m =
            read_fields narrow step r (foldl add m xs).
Proof.
  intros Hone. induction 1 as [|x xs Hx _ IH]; intros m; cbn; [done|].
  by rewrite <- app_assoc, Hone, IH.
Qed.

Lemma foldl_append {M A B} (make : list B -> M) (g : A -> B) (add : M -> A -> M) xs :
  (forall acc x, add (make acc) x = make (acc ++ [g x])) ->
  forall acc, foldl add (make acc) xs = make (acc ++ (g <$> xs)).
Proof.
  intros H. induction xs as [|x xs IH]; intros acc; cbn; [by rewrite app_nil_r|].
  by rewrite H, IH, <- app_assoc.
Qed.

(** *** Management replies *)

Definition add_event (m : ManagementReply) (e : string) : ManagementReply := reply_string 3 e m.

Lemma read_event e m r : text_ok e /\ e <> "" ->
  read_fields (fun field => field) management_reply_field
    (write_bytes [] 3 (bytes_of e) ++ r) m =
  read_fields (fun field => field) management_reply_field r (add_event m e).
Proof.
  intros [Hs He]. apply decode_bytes; [apply _|done|lia|..].
  - intros _. cbn. rewrite slice_written by done. by rewrite string_of_bytes_of.
  - by intros ?%bytes_of_nil.
Qed.

Lemma management_reply_reads m bytes r : management_reply_ok m -> encode_management_reply m = Ok bytes ->
  read_fields (fun field => field) management_reply_field (bytes ++ r) default_management_reply =
  read_fields (fun field => field) management_reply_field r m.
Proof.
  intros Hok E. injection E as <-. destruct m. unfold management_reply_ok in Hok. cbn in *. destruct_and?.
  rewrite foldl_writer by (intros; apply write_bytes_app). unfold default_management_reply.
  split_writers. do 2 read_first.
  rewrite (decode_repeated _ _ (fun e => write_bytes [] 3 (bytes_of e)) _ add_event)
    with (1 := read_event) by done.
  rewrite (foldl_append (fun acc => mkManagementReply mr_error_code mr_error_message acc 0 false
             0 0 0 0 0 0 0 0 0 0 "" "" "" 0) (fun e => e)) by done.
  rewrite list_fmap_id. cbn [app]. by repeat read_first.
Qed.

(** *** Append requests *)

Lemma canonical_event_text e : event_ok e -> canonical_event e <> "".
Proof. intros He E. pose proof (parse_event_canonical e He) as H. by rewrite E in H. Qed.

Lemma read_record e : wire_entry_ok e ->
  read_fields to_i32 record_field (record_bytes e) "" = Ok (canonical_event e).
Proof.
  intros [He Hs]. unfold record_bytes in *. rewrite <- (app_nil_r (write_bytes _ _ _)).
  assert (sized (bytes_of (canonical_event e))) as Hc.
  { unfold sized, write_bytes in *. case_bool_decide as E; [by rewrite E|].
    unfold zsize in *. rewrite length_app in Hs. lia. }
  erewrite decode_bytes; [apply read_fields_nil|apply _|exact narrow_int|lia|..].
  - intros _. cbn. rewrite slice_written by done. by rewrite string_of_bytes_of.
  - intros E%bytes_of_nil. by destruct (canonical_event_text e He).
Qed.

Definition with_entry (m : ProtoAppendEntries) (e : Event) : ProtoAppendEntries :=
  mkProtoAppendEntries (pa_term m) (pa_leader_id m) (pa_prev_log_index m) (pa_prev_log_term m)
    (pa_entries m ++ [e]) (pa_leader_commit m).

Lemma write_entry_app out e : write_entry out e = out ++ write_entry [] e.
Proof. apply write_bytes_app. Qed.

Lemma read_entry e m r : wire_entry_ok e ->
  read_fields to_i32 append_entries_field (write_entry [] e ++ r) m =
  read_fields to_i32 append_entries_field r (with_entry m e).
Proof.
  intros Hok. pose proof Hok as [He Hs]. apply decode_bytes; [apply _|exact narrow_int|lia|..].
  - intros _. cbn. rewrite slice_written by done. fold (record_bytes e).
    rewrite read_record, parse_event_canonical by done. done.
  - intros E. pose proof (read_record e Hok) as H. unfold record_bytes in H.
    rewrite E in H. injection H as H. by destruct (canonical_event_text e He).
Qed.

Lemma append_entries_reads m bytes r : append_entries_ok m -> encode_append_entries m = Ok bytes ->
  read_fields to_i32 append_entries_field (bytes ++ r) default_append_entries =
  read_fields to_i32 append_entries_field r m.
Proof.
  intros Hok E. injection E as <-. destruct m. unfold append_entries_ok in Hok. cbn in *. destruct_and?.
  rewrite foldl_writer by apply write_entry_app. unfold default_append_entries.
  split_writers. do 4 read_first.
  rewrite (decode_repeated _ _ (write_entry []) _ with_entry) with (1 := read_entry) by done.
  rewrite (foldl_append (fun acc => mkProtoAppendEntries pa_term pa_leader_id pa_prev_log_index
             pa_prev_log_term acc 0) (fun e => e)) by done.
  rewrite list_fmap_id. cbn [app]. by repeat read_first.
Qed.

(** ** Newer fields *)

(** No message has a field number above 19. *)
Ltac ignore_step :=
  intros field wire body r m Hf Hb;
  repeat match goal with
  | |- context [field =? ?k] => rewrite (proj2 (Z.eqb_neq field k)) by lia
  | |- context [field <=? ?k] => rewrite (proj2 (Z.leb_gt field k)) by lia
  end;
  cbn; rewrite ?andb_false_r, ?andb_true_r; cbn;
  try (destruct Hb; [rewrite varint_written by done; by destruct m|..]; cbn);
  apply skip_field_body; first [done | by constructor].

#[export] Instance handshake_ignores : Ignores 20 handshake_field.
Proof. unfold handshake_field. ignore_step. Qed.

#[export] Instance append_entries_ignores : Ignores 20 append_entries_field.
Proof. unfold append_entries_field. ignore_step. Qed.

#[export] Instance append_response_ignores : Ignores 20 append_response_field.
Proof. unfold append_response_field. ignore_step. Qed.

#[export] Instance request_vote_ignores : Ignores 20 request_vote_field.
Proof. unfold request_vote_field. ignore_step. Qed.

#[export] Instance vote_response_ignores : Ignores 20 vote_response_field.
Proof. unfold vote_response_field. ignore_step. Qed.

#[export] Instance install_snapshot_ignores : Ignores 20 install_snapshot_field.
Proof. unfold install_snapshot_field. ignore_step. Qed.

#[export] Instance snapshot_response_ignores : Ignores 20 snapshot_response_field.
Proof. unfold snapshot_response_field. ignore_step. Qed.

#[export] Instance protocol_error_ignores : Ignores 20 protocol_error_field.
Proof. unfold protocol_error_field. ignore_step. Qed.

#[export] Instance client_command_ignores : Ignores 20 client_command_field.
Proof. unfold client_command_field. ignore_step. Qed.

#[export] Instance client_response_ignores : Ignores 20 client_response_field.
Proof. unfold client_response_field. ignore_step. Qed.

#[export] Instance status_response_ignores : Ignores 20 status_response_field.
Proof. unfold status_response_field. ignore_step. Qed.

#[export] Instance management_query_ignores : Ignores 20 management_query_field.
Proof. unfold management_query_field. ignore_step. Qed.

#[export] Instance management_reply_ignores : Ignores 20 management_reply_field.
Proof. unfold management_reply_field. ignore_step. Qed.

(** ** Messages by frame type *)

(** A message of any type. *)
Inductive Message :=
| OfHandshake (m : Handshake)
| OfAppendEntries (m : ProtoAppendEntries)
| OfAppendResponse (m : ProtoAppendResponse)
| OfRequestVote (m : ProtoRequestVote)
| OfVoteResponse (m : ProtoVoteResponse)
| OfInstallSnapshot (m : ProtoInstallSnapshot)
| OfSnapshotResponse (m : ProtoSnapshotResponse)
| OfProtocolError (m : ProtoError)
| OfClientCommand (m : ClientCommand)
| OfClientResponse (m : ClientResponse)
| OfStatusQuery
| OfStatusResponse (m : StatusResponse)
| OfManagementQuery (m : ManagementQuery)
| OfManagementReply (m : ManagementReply).

Definition message_type (m : Message) : MessageType :=
  match m with
  | OfHandshake _ => tHandshake
  | OfAppendEntries _ => tAppendEntries
  | OfAppendResponse _ => tAppendEntriesResponse
  | OfRequestVote _ => tRequestVote
  | OfVoteResponse _ => tRequestVoteResponse
  | OfInstallSnapshot _ => tInstallSnapshot
  | OfSnapshotResponse _ => tInstallSnapshotResponse
  | OfProtocolError _ => tProtocolError
  | OfClientCommand _ => tClientCommand
  | OfClientResponse _ => tClientResponse
  | OfStatusQuery => tStatusQuery
  | OfStatusResponse _ => tStatusResponse
  | OfManagementQuery _ => tManagementQuery
  | OfManagementReply _ => tManagementReply
  end.

(** The overload of [encode] for the message. *)
Definition encode_message (m : Message) : result Error (list Z) :=
  match m with
  | OfHandshake m => encode_handshake m
  | OfAppendEntries m => encode_append_entries m
  | OfAppendResponse m => encode_append_response m
  | OfRequestVote m => encode_request_vote m
  | OfVoteResponse m => encode_vote_response m
  | OfInstallSnapshot m => encode_install_snapshot m
  | OfSnapshotResponse m => encode_snapshot_response m
  | OfProtocolError m => encode_protocol_error m
  | OfClientCommand m => encode_client_command m
  | OfClientResponse m => encode_client_response m
  | OfStatusQuery => encode_status_query
  | OfStatusResponse m => encode_status_response m
  | OfManagementQuery m => encode_management_query m
  | OfManagementReply m => encode_management_reply m
  end.

Definition result_map {E A B} (f : A -> B) (r : result E A) : result E B :=
  let? a := r in Ok (f a).

(** The decoder that the receivers choose by the type of the frame; a status
    query has no payload to decode, and no other type has a decoder. *)
Definition decode_message (type : MessageType) (payload : list Z) : option (result Error Message) :=
  if type =? tHandshake then Some (result_map OfHandshake (decode_handshake payload))
  else if type =? tAppendEntries then Some (result_map OfAppendEntries (decode_append_entries payload))
  else if type =? tAppendEntriesResponse then Some (result_map OfAppendResponse (decode_append_response payload))
  else if type =? tRequestVote then Some (result_map OfRequestVote (decode_request_vote payload))
  else if type =? tRequestVoteResponse then Some (result_map OfVoteResponse (decode_vote_response payload))
  else if type =? tInstallSnapshot then Some (result_map OfInstallSnapshot (decode_install_snapshot payload))
  else if type =? tInstallSnapshotResponse then Some (result_map OfSnapshotResponse (decode_snapshot_response payload))
  else if type =? tProtocolError then Some (result_map OfProtocolError (decode_protocol_error payload))
  else if type =? tClientCommand then Some (result_map OfClientCommand (decode_client_command payload))
  else if type =? tClientResponse then Some (result_map OfClientResponse (decode_client_response payload))
  else if type =? tStatusQuery then Some (Ok OfStatusQuery)
  else if type =? tStatusResponse then Some (result_map OfStatusResponse (decode_status_response payload))
  else if type =? tManagementQuery then Some (result_map OfManagementQuery (decode_management_query payload))
  else if type =? tManagementReply then Some (result_map OfManagementReply (decode_management_reply payload))
  else None.

Definition message_ok (m : Message) : Prop :=
  match m with
  | OfHandshake m => handshake_ok m
  | OfAppendEntries m => append_entries_ok m
  | OfAppendResponse m => append_response_ok m
  | OfRequestVote m => request_vote_ok m
  | OfVoteResponse m => vote_response_ok m
  | OfInstallSnapshot m => install_snapshot_ok m
  | OfSnapshotResponse m => snapshot_response_ok m
  | OfProtocolError m => protocol_error_ok m
  | OfClientCommand m => client_command_ok m
  | OfClientResponse m => client_response_ok m
  | OfStatusQuery => True
  | OfStatusResponse m => status_response_ok m
  | OfManagementQuery m => management_query_ok m
  | OfManagementReply m => management_reply_ok m
  end.

(** Run the decoder of the message on its bytes and what follows. *)
Ltac by_reads reads :=
  erewrite reads by eassumption;
  rewrite (extensions_ignored _ 20)
    by (first [apply _ | exact narrow_int | exact narrow_none | done]);
  reflexivity.

Lemma read_extended m exts payload :
  message_ok m -> Forall (extension 20) exts -> encode_message m = Ok payload ->
  decode_message (message_type m) (payload ++ concat exts) = Some (Ok m).
Proof.
  intros Hok Hx E. destruct m; cbn in Hok, E |- *; [..|reflexivity| | | ];
    unfold result_map, decode_handshake, decode_append_entries, decode_append_response,
      decode_request_vote, decode_vote_response, decode_install_snapshot, decode_snapshot_response,
      decode_protocol_error, decode_client_command, decode_client_response,
      decode_status_response, decode_management_query, decode_management_reply.
  - by_reads handshake_reads.
  - by_reads append_entries_reads.
  - by_reads append_response_reads.
  - by_reads request_vote_reads.
  - by_reads vote_response_reads.
  - by_reads install_snapshot_reads.
  - by_reads snapshot_response_reads.
  - by_reads protocol_error_reads.
  - by_reads client_command_reads.
  - by_reads client_response_reads.
  - by_reads status_response_reads.
  - by_reads management_query_reads.
  - by_reads management_reply_reads.
Qed.

(** ** Every payload is bytes *)

Lemma write_entry_bytes out e : wire_entry_ok e -> bytes_ok out -> bytes_ok (write_entry out e).
Proof.
  intros [He Hs] Hout. apply write_bytes_bytes; [lia| |done|done].
  apply write_bytes_bytes; [lia|apply bytes_of_ok| |apply list.Forall_nil_2].
  unfold record_bytes, sized, write_bytes in *. case_bool_decide as E; [by rewrite E|].
  unfold zsize in *. rewrite length_app in Hs. lia.
Qed.

Lemma foldl_bytes {A} (write : list Z -> A -> list Z) (ok : A -> Prop) xs :
  (forall out x, ok x -> bytes_ok out -> bytes_ok (write out x)) ->
  Forall ok xs -> forall out, bytes_ok out -> bytes_ok (foldl write out xs).
Proof. intros Hw. induction 1; intros out Hout; cbn; eauto. Qed.

Ltac payload_bytes :=
  repeat first [ assumption
               | apply list.Forall_nil_2
               | apply write_uint_bytes; [lia|unfold u64, u32, max_u64 in *; lia|]
               | apply write_bool_bytes; [lia|]
               | apply write_bytes_bytes; [lia|apply bytes_of_ok|assumption|] ].

Lemma encoded_bytes m payload :
  message_ok m -> encode_message m = Ok payload -> bytes_ok payload.
Proof.
  intros Hok E. destruct m as [m|m|m|m|m|m|m|m|m|m| |m|m|m]; cbn in Hok, E.
  2: { injection E as <-. destruct Hok as (? & ? & ? & ? & ? & He & ?). payload_bytes.
       apply (foldl_bytes _ _ _ write_entry_bytes He). payload_bytes. }
  13: { injection E as <-. unfold management_reply_ok in Hok. destruct_and?. payload_bytes.
       eapply foldl_bytes; [|eassumption|payload_bytes].
       intros out x [? ?] ?. payload_bytes. }
  10: { injection E as <-. apply list.Forall_nil_2. }
  all: injection E as <-; red in Hok; destruct_and?; payload_bytes.
Qed.

(** ** What a decoder can produce *)

Lemma varint_loop_range rounds : forall shift acc r v r',
  shift = 7 * (10 - Z.of_nat rounds) -> (rounds <= 10)%nat -> 0 <= acc < 2 ^ shift -> bytes_ok r ->
  varint_loop rounds shift acc r = Ok (v, r') -> u64 v /\ bytes_ok r'.
Proof.
  induction rounds as [|rounds IH]; intros shift acc r v r' Hs Hr Hacc Hok; [done|].
  cbn [varint_loop]. destruct r as [|byte r]; [done|]. apply list.Forall_cons in Hok as [Hb Hok].
  destruct ((shift =? 63) && (1 <? byte)) eqn:Etop; [done|].
  assert (0 <= Z.land byte 127 < 2 ^ 7 /\ (shift = 63 -> Z.land byte 127 < 2)) as [Hlow Htop].
  { pose proof (Z.land_ones byte 7 ltac:(lia)) as E. change (Z.ones 7) with 127 in E. rewrite E.
    split; [apply Z.mod_pos_bound; done|]. intros ->. cbn in Etop. apply Z.ltb_ge in Etop.
    rewrite Z.mod_small; [lia|]. change (2 ^ 7) with 128. lia. }
  assert (Z.shiftl (Z.land byte 127) shift <= max_u64) as Hmax.
  { rewrite Z.shiftl_mul_pow2 by lia. destruct (decide (shift = 63)) as [E|].
    - specialize (Htop E). rewrite E. change (2 ^ 63) with 9223372036854775808. unfold max_u64. lia.
    - assert (2 ^ shift <= 2 ^ 56) by (apply Z.pow_le_mono_r; lia).
      change (2 ^ 56) with 72057594037927936 in *. change (2 ^ 7) with 128 in *.
      pose proof (Z.pow_pos_nonneg 2 shift). unfold max_u64. nia. }
  assert (0 <= Z.shiftl (Z.land byte 127) shift) by (apply Z.shiftl_nonneg; lia).
  rewrite wrap64_small by done. rewrite lor_add_shift by lia.
  destruct (_ =? 0).
  - intros [= <- <-]. split; [|done]. rewrite Z.shiftl_mul_pow2 in Hmax, H by lia.
    destruct (decide (shift = 63)) as [E|].
    + rewrite E in *. change (2 ^ 63) with 9223372036854775808 in *. unfold u64, max_u64 in *. specialize (Htop eq_refl). lia.
    + assert (2 ^ shift <= 2 ^ 56) by (apply Z.pow_le_mono_r; lia).
      change (2 ^ 56) with 72057594037927936 in *. change (2 ^ 7) with 128 in *.
      unfold u64, max_u64 in *. nia.
  - destruct (decide (rounds = 0%nat)) as [->|]; [done|].
    apply IH; [lia|lia| |done]. rewrite Z.pow_add_r by lia. change (2 ^ 7) with 128 in *.
    pose proof (Z.pow_pos_nonneg 2 shift). nia.
Qed.

Lemma varint_range r v r' : bytes_ok r -> varint r = Ok (v, r') -> u64 v /\ bytes_ok r'.
Proof. intros Hr. apply (varint_loop_range 10 0 0); [done|done|done|done]. Qed.

Lemma skip_or_read_bytes wire read r x r' :
  bytes_ok r -> skip_or_read wire read r = Ok (x, r') -> bytes_ok r'.
Proof.
  intros Hr. unfold skip_or_read. destruct (wire =? kVarint).
  { destruct (varint r) as [[v q]|] eqn:E; [|done]. apply varint_range in E as [_ ?]; [|done].
    by intros [= <- <-]. }
  destruct (wire =? kLength).
  { destruct (varint r) as [[v q]|] eqn:E; [|done]. apply varint_range in E as [_ ?]; [|done].
    destruct (zsize q <? v); [done|]. intros [= <- <-]. by apply list.Forall_drop. }
  destruct (wire =? 1); [|destruct (wire =? 5); [|done]];
    (destruct (_ <? _); [done|]; intros [= <- <-]; by apply list.Forall_drop).
Qed.

(** A field step that keeps a property of the message. *)
Definition keeps {M} (P : M -> Prop) (step : FieldStep M) : Prop :=
  forall field wire r m m' r', bytes_ok r -> P m -> step field wire r m = Ok (m', r') ->
    P m' /\ bytes_ok r'.

Lemma read_fields_keeps {M} narrow (step : FieldStep M) (P : M -> Prop) r m m' :
  keeps P step -> bytes_ok r -> P m -> read_fields narrow step r m = Ok m' -> P m'.
Proof.
  intros Hk. unfold read_fields. generalize (length r) as rounds. intros rounds. revert r m.
  induction rounds as [|rounds IH]; intros r m Hr Hm; (destruct r as [|b r]; [by intros [= <-]|]); [done|].
  cbn [decode_loop reader_done]. destruct (varint (b :: r)) as [[key q]|] eqn:E; [|done].
  apply varint_range in E as [_ Hq]; [|done].
  destruct (step _ _ q m) as [[m1 q1]|] eqn:E2; [|done]. apply Hk in E2 as [? ?]; eauto.
Qed.

Lemma skip_field_keeps {M} (P : M -> Prop) wire r m m' r' :
  bytes_ok r -> P m -> skip_field wire r m = Ok (m', r') -> P m' /\ bytes_ok r'.
Proof.
  intros Hr Hm. unfold skip_field. destruct (skip_or_read wire false r) as [[x q]|] eqn:E; [|done].
  intros [= <- <-]. split; [done|]. by eapply skip_or_read_bytes.
Qed.

(** The numbers of a message fit the members of its struct, and the two bounds
    of a management query hold. *)
Definition message_in_range (m : Message) : Prop :=
  match m with
  | OfHandshake m => u32 (hs_major m) /\ u32 (hs_minor m)
  | OfAppendEntries m =>
      u64 (pa_term m) /\ u64 (pa_prev_log_index m) /\ u64 (pa_prev_log_term m) /\
      u64 (pa_leader_commit m)
  | OfAppendResponse m => u64 (par_term m) /\ u64 (par_match_index m) /\ u64 (par_hint_index m)
  | OfRequestVote m => u64 (prv_term m) /\ u64 (prv_last_log_index m) /\ u64 (prv_last_log_term m)
  | OfVoteResponse m => u64 (pvr_term m)
  | OfInstallSnapshot m =>
      u64 (pi_term m) /\ u64 (pi_last_included_index m) /\ u64 (pi_last_included_term m) /\
      u64 (pi_offset m)
  | OfSnapshotResponse m => u64 (psr_term m) /\ u64 (psr_next_offset m)
  | OfProtocolError _ | OfClientCommand _ | OfStatusQuery => True
  | OfClientResponse m => u64 (cr_index m)
  | OfStatusResponse m => u64 (ss_term m) /\ u64 (ss_commit_index m) /\ u64 (ss_last_log_index m)
  | OfManagementQuery m =>
      u64 (mq_after_index m) /\ 0 <= mq_page_size m <= 128 /\ 0 <= mq_delay_ms m <= 5000
  | OfManagementReply m =>
      u64 (mr_next_after_index m) /\ u64 (mr_role_changes m) /\ u64 (mr_elections_started m) /\
      u64 (mr_votes_granted m) /\ u64 (mr_step_downs m) /\ u64 (mr_messages_dropped_oversize m) /\
      u64 (mr_snapshot_chunks_sent m) /\ u64 (mr_transport_frames_sent m) /\
      u64 (mr_transport_frames_received m) /\ u64 (mr_transport_dropped m) /\
      u64 (mr_snapshot_index m) /\ u64 (mr_state_size m)
  end.

(** Show that a step keeps its message in range. *)
Ltac keeps_range :=
  lazymatch goal with |- keeps ?P _ => pose proof (skip_field_keeps P) end;
  intros field wire rd msg msg' rd' Hr Hm;
  repeat (case_match; try discriminate);
  repeat match goal with
  | H : varint _ = Ok _ |- _ => apply varint_range in H as [? ?]; [|done]
  | H : skip_or_read _ _ _ = Ok _ |- _ => apply skip_or_read_bytes in H; [|done]
  end;
  bool_props;
  first [ intros [= <- <-]; split; [|assumption]; cbn in *; unfold wrap32;
          rewrite ?Z.mod_small by (unfold u64, max_u64 in *; lia);
          destruct_and?; split_and?; repeat case_match; unfold u64, u32, max_u64 in *; lia
        | match goal with H : context [skip_field] |- _ => apply H; assumption end ].

Lemma decode_in_range {M} (make : M -> Message) narrow step bytes default m :
  keeps (fun m => message_in_range (make m)) step -> message_in_range (make default) ->
  bytes_ok bytes -> result_map make (read_fields narrow step bytes default) = Ok m ->
  message_in_range m.
Proof.
  intros Hk Hd Hb. unfold result_map. destruct (read_fields _ _ _ _) as [x|] eqn:E; [|done].
  intros [= <-]. by apply (read_fields_keeps _ _ _ _ _ _ Hk Hb Hd E).
Qed.

Lemma handshake_keeps : keeps (fun m => message_in_range (OfHandshake m)) handshake_field.
Proof. unfold handshake_field. keeps_range. Qed.

Lemma append_entries_keeps : keeps (fun m => message_in_range (OfAppendEntries m)) append_entries_field.
Proof. unfold append_entries_field. keeps_range. Qed.

Lemma append_response_keeps : keeps (fun m => message_in_range (OfAppendResponse m)) append_response_field.
Proof. unfold append_response_field. keeps_range. Qed.

Lemma request_vote_keeps : keeps (fun m => message_in_range (OfRequestVote m)) request_vote_field.
Proof. unfold request_vote_field. keeps_range. Qed.

Lemma vote_response_keeps : keeps (fun m => message_in_range (OfVoteResponse m)) vote_response_field.
Proof. unfold vote_response_field. keeps_range. Qed.

Lemma install_snapshot_keeps : keeps (fun m => message_in_range (OfInstallSnapshot m)) install_snapshot_field.
Proof. unfold install_snapshot_field. keeps_range. Qed.

Lemma snapshot_response_keeps : keeps (fun m => message_in_range (OfSnapshotResponse m)) snapshot_response_field.
Proof. unfold snapshot_response_field. keeps_range. Qed.

Lemma protocol_error_keeps : keeps (fun m => message_in_range (OfProtocolError m)) protocol_error_field.
Proof. unfold protocol_error_field. keeps_range. Qed.

Lemma client_command_keeps : keeps (fun m => message_in_range (OfClientCommand m)) client_command_field.
Proof. unfold client_command_field. keeps_range. Qed.

Lemma client_response_keeps : keeps (fun m => message_in_range (OfClientResponse m)) client_response_field.
Proof. unfold client_response_field. keeps_range. Qed.

Lemma status_response_keeps : keeps (fun m => message_in_range (OfStatusResponse m)) status_response_field.
Proof. unfold status_response_field. keeps_range. Qed.

Lemma management_query_keeps : keeps (fun m => message_in_range (OfManagementQuery m)) management_query_field.
Proof. unfold management_query_field. keeps_range. Qed.

Lemma management_reply_keeps : keeps (fun m => message_in_range (OfManagementReply m)) management_reply_field.
Proof. unfold management_reply_field. keeps_range. Qed.

Lemma decoded_range type payload m :
  bytes_ok payload -> decode_message type payload = Some (Ok m) -> message_in_range m.
Proof.
  intros Hb. unfold decode_message.
  repeat match goal with |- context [type =? ?t] => destruct (type =? t) end; [..|done];
    intros [= H]; revert H.
  11: by intros <-.
  - by apply decode_in_range; [apply handshake_keeps|..].
  - by apply decode_in_range; [apply append_entries_keeps|..].
  - by apply decode_in_range; [apply append_response_keeps|..].
  - by apply decode_in_range; [apply request_vote_keeps|..].
  - by apply decode_in_range; [apply vote_response_keeps|..].
  - by apply decode_in_range; [apply install_snapshot_keeps|..].
  - by apply decode_in_range; [apply snapshot_response_keeps|..].
  - by apply decode_in_range; [apply protocol_error_keeps|..].
  - by apply decode_in_range; [apply client_command_keeps|..].
  - by apply decode_in_range; [apply client_response_keeps|..].
  - by apply decode_in_range; [apply status_response_keeps|..].
  - by apply decode_in_range; [apply management_query_keeps|..].
  - by apply decode_in_range; [apply management_reply_keeps|..].
Qed.

(** C29: Messages survive the wire. Each of the fourteen messages is encoded;
    and when its payload is at most 1 MiB, the limit of a frame, the frame that
    carries it is encoded and decoded unchanged, and the decoder chosen by the
    type of the frame gives the message that was sent. For messages with numbers
    of their width and the values that the wire can carry ([message_ok]): the
    sender's term and the major version are not zero (a zero is left out, and an
    absent one reads as 1), entries are well-formed events, a management query
    asks for at most 128 records and 5000 ms, and a reply has no empty event. *)
Theorem messages_survive_the_wire m correlation :
  message_ok m -> u64 correlation ->
  exists payload, encode_message m = Ok payload /\
    (zsize payload <= kMaxFramePayload ->
     exists bytes frame, encode_frame (mkFrame (message_type m) correlation payload) = Ok bytes /\
       decode_frame bytes = Ok frame /\ fr_correlation frame = correlation /\
       decode_message (fr_type frame) (fr_payload frame) = Some (Ok m)).
Proof.
  intros Hok Hc. assert (exists payload, encode_message m = Ok payload) as [payload E]
    by (destruct m; eexists; reflexivity).
  exists payload. split; [done|]. intros Hsize.
  assert (frame_ok (mkFrame (message_type m) correlation payload)) as Hf.
  { split; [by destruct m|]. split; [done|]. split; [by eapply encoded_bytes|done]. }
  eexists _, _. rewrite encode_frame_layout by done. split; [reflexivity|].
  rewrite decode_sealed by done. split; [reflexivity|]. split; [done|]. cbn [fr_type fr_payload].
  rewrite <- (app_nil_r payload). by apply (read_extended m []).
Qed.

Definition demo_append : Message :=
  OfAppendEntries (mkProtoAppendEntries 3 "node-1" 300 2 [demo_event; demo_event] 299).

Lemma demo_append_ok : message_ok demo_append.
Proof.
  assert (wire_entry_ok demo_event) as He by (split; [apply demo_event_ok|vm_compute; congruence]).
  unfold demo_append, message_ok, append_entries_ok, u64, max_u64.
  cbn [pa_term pa_leader_id pa_prev_log_index pa_prev_log_term pa_entries pa_leader_commit].
  split; [lia|]. split; [lia|]. split; [vm_compute; congruence|]. split; [lia|]. split; [lia|].
  split; [|lia]. repeat (apply Forall_cons_2; [exact He|]). apply Forall_nil_2.
Qed.

Lemma messages_survive_the_wire_witness :
  exists payload bytes frame, encode_message demo_append = Ok payload /\
    encode_frame (mkFrame tAppendEntries 9 payload) = Ok bytes /\ decode_frame bytes = Ok frame /\
    decode_message (fr_type frame) (fr_payload frame) = Some (Ok demo_append).
Proof.
  destruct (messages_survive_the_wire demo_append 9 demo_append_ok) as (payload & E & H).
  - vm_compute. split; congruence.
  - assert (zsize payload <= kMaxFramePayload) as Hs.
    { injection E as <-. vm_compute. congruence. }
    destruct (H Hs) as (bytes & frame & E1 & E2 & _ & E3). exists payload, bytes, frame. by split_and!.
Defined.

(** C30: Whatever bytes arrive, a payload that is decoded gives a message whose
    numbers fit the members of its struct: 64-bit fields are at most 2^64 - 1,
    versions at most 2^32 - 1, and a management query asks for at most 128
    events and 5000 ms; a payload with a larger value is an error. *)
Theorem decoded_messages_fit type payload m :
  bytes_ok payload -> decode_message type payload = Some (Ok m) -> message_in_range m.
Proof. exact (decoded_range type payload m). Qed.

Lemma decoded_messages_fit_witness :
  exists m, decode_message tManagementQuery [24; 128; 1; 40; 136; 39; 248; 255; 255; 255; 15; 1] = Some (Ok m) /\
    message_in_range m /\
    decode_message tManagementQuery [24; 129; 1] =
      Some (Err (mkError ProtocolError "management page size exceeds 128")).
Proof.
  assert (bytes_ok [24; 128; 1; 40; 136; 39; 248; 255; 255; 255; 15; 1]) as Hb.
  { repeat apply Forall_cons_2; try apply Forall_nil_2; lia. }
  eexists. split; [vm_compute; reflexivity|]. split; [|vm_compute; reflexivity].
  eapply (decoded_messages_fit tManagementQuery _ _ Hb). vm_compute. reflexivity.
Defined.

(** ** Sizes of payloads *)

Lemma varint_loop_length rounds : forall out v, (length (write_varint_loop rounds out v) <= length out + S rounds)%nat.
Proof.
  induction rounds as [|rounds IH]; intros out v; cbn [write_varint_loop].
  - rewrite length_app. cbn. lia.
  - destruct (128 <=? v); [|rewrite length_app; cbn; lia]. etrans; [apply IH|]. rewrite length_app. cbn. lia.
Qed.

Lemma write_varint_length out v : (length (write_varint out v) <= length out + 11)%nat.
Proof. apply varint_loop_length. Qed.

Lemma write_uint_length out f v : (length (write_uint out f v) <= length out + 22)%nat.
Proof.
  unfold write_uint, write_key. destruct (v =? 0); [lia|]. etrans; [apply write_varint_length|].
  pose proof (write_varint_length out (Z.lor (Z.shiftl f 3) kVarint)). lia.
Qed.

Lemma write_bool_length out f v : (length (write_bool out f v) <= length out + 12)%nat.
Proof.
  unfold write_bool, write_key. destruct v; cbn [negb]; [|lia]. rewrite length_app.
  pose proof (write_varint_length out (Z.lor (Z.shiftl f 3) kVarint)). cbn [length]. lia.
Qed.

Lemma write_bytes_length out f v : (length (write_bytes out f v) <= length out + 22 + length v)%nat.
Proof.
  unfold write_bytes, write_key. destruct (bool_decide _); [lia|]. rewrite length_app.
  pose proof (write_varint_length (write_varint out (Z.lor (Z.shiftl f 3) kLength)) (zsize v)).
  pose proof (write_varint_length out (Z.lor (Z.shiftl f 3) kLength)). lia.
Qed.

(** The bounds of a chain of writes. *)
Ltac bound_writes t :=
  lazymatch t with
  | write_uint ?out ?f ?v => pose proof (write_uint_length out f v); bound_writes out
  | write_bool ?out ?f ?v => pose proof (write_bool_length out f v); bound_writes out
  | write_bytes ?out ?f ?v => pose proof (write_bytes_length out f v); bound_writes out
  | _ => idtac
  end.

(** The payloads of a snapshot transfer. *)
Lemma install_snapshot_size m payload : encode_install_snapshot m = Ok payload ->
  zsize payload <= 200 + Z.of_nat (String.length (pi_leader_id m)) + Z.of_nat (String.length (pi_state_hash m)) +
    Z.of_nat (String.length (pi_payload m)).
Proof.
  unfold encode_install_snapshot. cbv zeta. intros [= <-]. unfold zsize.
  match goal with |- Z.of_nat (length ?t) <= _ => bound_writes t end.
  rewrite !bytes_of_length in *. cbn [length] in *. lia.
Qed.

Lemma snapshot_response_size m payload : encode_snapshot_response m = Ok payload ->
  zsize payload <= 100 + Z.of_nat (String.length (psr_follower_id m)).
Proof.
  unfold encode_snapshot_response. cbv zeta. intros [= <-]. unfold zsize.
  match goal with |- Z.of_nat (length ?t) <= _ => bound_writes t end.
  rewrite !bytes_of_length in *. cbn [length] in *. lia.
Qed.

Lemma install_snapshot_back m : install_snapshot_ok m ->
  exists payload, encode_install_snapshot m = Ok payload /\ decode_install_snapshot payload = Ok m.
Proof.
  intros Hok. destruct (encode_install_snapshot m) as [payload|] eqn:E; [|done]. exists payload. split; [done|].
  assert (encode_message (OfInstallSnapshot m) = Ok payload) as E' by exact E.
  pose proof (read_extended (OfInstallSnapshot m) [] payload Hok (list.Forall_nil_2 _) E') as H.
  rewrite app_nil_r in H. cbn in H. destruct (decode_install_snapshot payload) as [x|] eqn:Ed; cbn in H; congruence.
Qed.

Lemma snapshot_response_back m : snapshot_response_ok m ->
  exists payload, encode_snapshot_response m = Ok payload /\ decode_snapshot_response payload = Ok m.
Proof.
  intros Hok. destruct (encode_snapshot_response m) as [payload|] eqn:E; [|done]. exists payload. split; [done|].
  assert (encode_message (OfSnapshotResponse m) = Ok payload) as E' by exact E.
  pose proof (read_extended (OfSnapshotResponse m) [] payload Hok (list.Forall_nil_2 _) E') as H.
  rewrite app_nil_r in H. cbn in H. destruct (decode_snapshot_response payload) as [x|] eqn:Ed; cbn in H; congruence.
Qed.
