(* ===== verification/ReplicaTypes.v ===== *)
(** * What both replicas share

    [cpp-runtime/include/choreoos/replication/replica.hpp]: the configuration,
    the answers and the counters of a replica, the same for the legacy replica
    ([Replica]) and for the one on the transition core ([CoreReplica]). Then
    what both need to say that a frame grants a vote: the votes cast so far,
    the frames that are covered by them, and how a vote answer is read back. *)

From S2P Require Import Prelude Text Types Model Bytes Frame FileEngine Messages Protobuf MessageCodec MessageCodecThms.

Record ReplicaConfig := mkReplicaConfig {
  rf_id : string;
  rf_leader_id : string;
  rf_peers : list string;
  rf_elections : bool;
  rf_rng_seed : Z;
  rf_election_timeout_min : Z;
  rf_election_timeout_max : Z;
  rf_snapshot_every : Z;
  rf_max_append_entries : Z;
  rf_max_append_bytes : Z;
  rf_max_snapshot_chunk_bytes : Z;
}.

Record EnqueueResult := mkEnqueueResult {
  eq_event : Event;
  eq_duplicate : bool;
  eq_committed : bool;
  eq_leader_id : string;
}.

Record NodeStatus := mkNodeStatus {
  ns_node_id : string;
  ns_leader_id : string;
  ns_role : string;
  ns_term : Z;
  ns_commit_index : Z;
  ns_last_log_index : Z;
  ns_state_hash : string;
  ns_canonical_state : string;
}.

Record ConsensusMetrics := mkConsensusMetrics {
  cm_role_changes : Z;
  cm_elections_started : Z;
  cm_votes_granted : Z;
  cm_step_downs : Z;
  cm_messages_dropped_oversize : Z;
  cm_snapshot_chunks_sent : Z;
}.

Definition no_metrics : ConsensusMetrics := mkConsensusMetrics 0 0 0 0 0 0.

Definition default_frame : Frame := mkFrame tProtocolError 0 [].

(** The calls of [sender_] and [commit_hook_]. The hook reads the store (which
    an adapter may not have) and the leader of the replica that calls it. *)
Inductive Call :=
| Sent (peer : string) (frame : Frame)
| Committed (store : option FileEngine) (leader : string).

(** ** Counters *)

Definition count_election (m : ConsensusMetrics) : ConsensusMetrics :=
  mkConsensusMetrics (cm_role_changes m) (wrap64 (cm_elections_started m + 1)) (cm_votes_granted m)
    (cm_step_downs m) (cm_messages_dropped_oversize m) (cm_snapshot_chunks_sent m).

Definition count_vote (m : ConsensusMetrics) : ConsensusMetrics :=
  mkConsensusMetrics (cm_role_changes m) (cm_elections_started m) (wrap64 (cm_votes_granted m + 1))
    (cm_step_downs m) (cm_messages_dropped_oversize m) (cm_snapshot_chunks_sent m).

Definition count_oversize (m : ConsensusMetrics) : ConsensusMetrics :=
  mkConsensusMetrics (cm_role_changes m) (cm_elections_started m) (cm_votes_granted m)
    (cm_step_downs m) (wrap64 (cm_messages_dropped_oversize m + 1)) (cm_snapshot_chunks_sent m).

Definition count_chunk (m : ConsensusMetrics) : ConsensusMetrics :=
  mkConsensusMetrics (cm_role_changes m) (cm_elections_started m) (cm_votes_granted m)
    (cm_step_downs m) (cm_messages_dropped_oversize m) (wrap64 (cm_snapshot_chunks_sent m + 1)).

(** ** Pieces of a payload *)

Definition text_size (s : string) : Z := Z.of_nat (String.length s).

(** [s.substr(offset, length)] *)
Definition substr (s : string) (offset length : Z) : string :=
  String.substring (Z.to_nat offset) (Z.to_nat length) s.

(** ** The random number of a timeout *)

(** [next_random]: three shifts of a 64-bit word. *)
Definition xorshift (rng : Z) : Z :=
  let rng := Z.lxor rng (wrap64 (Z.shiftl rng 13)) in
  let rng := Z.lxor rng (Z.shiftr rng 7) in
  Z.lxor rng (wrap64 (Z.shiftl rng 17)).

(** The seed of a node: the configured one, mixed with the bytes of its id. *)
Definition seed_of (config : ReplicaConfig) : Z :=
  let seed := if rf_rng_seed config =? 0 then 1 else rf_rng_seed config in
  let rng := foldl (fun rng byte => wrap64 (wrap64 (rng * 131) + byte)) seed (bytes_of (rf_id config)) in
  if rng =? 0 then 1 else rng.

(** An event under another term. *)
Definition event_with_term (term : Z) (e : Event) : Event :=
  mkEvent (ev_id e) (ev_command e) (ev_choreography e) (ev_type e) (ev_schema e) (ev_tick e)
    (ev_index e) term (ev_payload e).

(** ** What a server uses of a replica

    A method gives the calls it made, in order, and the replica after it; it is
    [None] when it throws. [E] stands for the outcomes of the system calls. *)
Class RuntimeOps (R E : Type) := {
  rr_heartbeat : E -> R -> option (list Call * R);
  rr_handle : E -> Frame -> string -> R -> option (list Call * R);
  rr_enqueue : E -> Command -> R -> option (list Call * R * result Error EnqueueResult);
  rr_store : R -> option FileEngine;
  rr_leader_id : R -> string;
  rr_status : R -> option NodeStatus;
  rr_metrics : R -> ConsensusMetrics;
  rr_failure_reason : R -> string;
  rr_engine_name : R -> string;
}.

(** ** Votes on the wire *)

(** The votes cast so far: at most one peer a term. *)
Abbreviation Votes := (gmap Z string).

(** A frame that grants a vote grants one of [V]. *)
Definition call_cast (V : Votes) (call : Call) : Prop :=
  match call with
  | Committed _ _ => True
  | Sent peer frame =>
      fr_type frame = tRequestVoteResponse ->
      forall m, decode_vote_response (fr_payload frame) = Ok m -> pvr_vote_granted m = true ->
        V !! pvr_term m = Some peer
  end.

Lemma call_cast_mono V V' call : V ⊆ V' -> call_cast V call -> call_cast V' call.
Proof.
  intros Hle. destruct call as [peer f|]; [|done]. intros H Ht m Em Hm.
  eapply lookup_weaken; [by apply H|done].
Qed.

(** A vote reply decodes to the term it was given, or 1 for the term 0. *)
Lemma vote_response_decoded term voter granted payload :
  u64 term -> text_ok voter ->
  encode_vote_response (mkProtoVoteResponse term voter granted) = Ok payload ->
  decode_vote_response payload = Ok (mkProtoVoteResponse (if term =? 0 then 1 else term) voter granted).
Proof.
  intros Ht Hv E. destruct (Z.eqb_spec term 0) as [->|Hne].
  - assert (encode_vote_response (mkProtoVoteResponse 1 voter granted) = Ok (write_uint [] 1 1 ++ payload)) as E1.
    { injection E as <-. unfold encode_vote_response. cbn [pvr_term pvr_voter_id pvr_vote_granted].
      rewrite (write_bool_app (write_bytes _ _ _)), (write_bytes_app (write_uint [] 1 1)).
      rewrite (write_bool_app (write_bytes (write_uint [] 1 0) _ _)), (write_bytes_app (write_uint [] 1 0)).
      cbn [app]. rewrite <- !app_assoc. done. }
    assert (vote_response_ok (mkProtoVoteResponse 1 voter granted)) as Hok by (by split_and!).
    pose proof (vote_response_reads _ _ [] Hok E1) as H. rewrite app_nil_r in H. unfold decode_vote_response. rewrite <- (app_nil_r payload).
    rewrite app_nil_r. revert H. erewrite decode_uint; [|apply _|exact narrow_int|lia|done|..];
      [by intros ->|intros _; cbn; rewrite varint_written by done; reflexivity|done].
  - rewrite <- (app_nil_r payload). unfold decode_vote_response.
    erewrite vote_response_reads; [done|by split_and!|exact E].
Qed.

Lemma parse_id_size raw : is_ok (parse_id raw) = true -> text_ok raw.
Proof.
  unfold parse_id, text_ok, sized, zsize. rewrite bytes_of_length. case_bool_decide; [done|].
  destruct (Z.ltb_spec kMaxIdLength (Z.of_nat (String.length raw))); [done|]. intros _.
  unfold kMaxIdLength, max_u64 in *. lia.
Qed.

(** A decoded message is in range. *)
Lemma decoded_by {T} (make : T -> Message) narrow step bytes default m :
  keeps (fun m => message_in_range (make m)) step -> message_in_range (make default) ->
  bytes_ok bytes -> read_fields narrow step bytes default = Ok m -> message_in_range (make m).
Proof. intros Hk Hd Hb. exact (read_fields_keeps _ _ (fun m => message_in_range (make m)) _ _ _ Hk Hb Hd). Qed.

(** A request for a vote, as a candidate with an empty log sends it. *)
Definition vote_frame (term : Z) (peer : string) : Frame :=
  mkFrame tRequestVote 7
    match encode_request_vote (mkProtoRequestVote term peer 0 0) with Ok payload => payload | Err _ => [] end.

Lemma vote_frame_bytes term peer : u64 term -> text_ok peer -> bytes_ok (fr_payload (vote_frame term peer)).
Proof.
  intros Ht Hp. cbn -[write_uint write_bytes]. apply write_uint_bytes; [lia|done|]. apply write_uint_bytes; [lia|done|].
  apply write_bytes_bytes; [lia|apply bytes_of_ok|done|]. apply write_uint_bytes; [lia|done|constructor].
Qed.
