(* ===== verification/CoreReplica.v ===== *)
(** * The core replica

    [cpp-runtime/include/choreoos/replication/core_replica.hpp] and
    [src/replication/core_replica.cpp]: the node of the transition-core backend.
    It owns the clocks, the client proposals, the translation between Raft
    messages and protocol frames, and the snapshot streams, on top of a
    [RuntimeHost].

    The calls of [sender_] and [commit_hook_] are recorded in [core_calls], in
    order. Methods are in a state monad; a method that does not return gives
    [None]: a loop of the host ran out of fuel, or the source would throw
    ([std::map::at], [Result::value] on an error, or an adapter without a
    store). *)

From S2P Require Import Prelude EntryLog EntryLogRefine Transition Text Stream Types Model EventCodec Machine SnapshotText Bytes Wal Metadata Transaction SnapshotFile FileEngine DomainBridge FileEngineAdapter RuntimeHost Frame Messages Protobuf MessageCodec ReplicaTypes.

(** ** Data *)

Record Transfer := mkTransfer {
  tr_pinned : PinnedSnapshot;
  tr_frame : Frame;
  tr_end : Z;
  tr_final : bool;
}.

Record Incoming := mkIncoming {
  ic_leader : string;
  ic_term : Z;
  ic_index : Z;
  ic_snapshot_term : Z;
  ic_hash : string;
  ic_bytes : string;
}.

Record CoreReplica := mkCore {
  core_config : ReplicaConfig;
  core_host : RuntimeHost;
  core_leader_id : string;
  core_sender : bool;
  core_commit_hook : bool;
  core_metrics : ConsensusMetrics;
  core_rng : Z;
  core_snapshot_correlation : Z;
  core_elapsed : Z;
  core_timeout : Z;
  core_speculative_dirty : bool;
  core_index_initialized : bool;
  core_speculative : ChoreographyState;
  core_command_index : gmap string Z;
  core_outgoing : gmap string Transfer;
  core_incoming : option Incoming;
  core_failure : option Error;
  core_calls : list Call;
}.

(** ** Fields *)

Definition set_host (v : RuntimeHost) (c : CoreReplica) : CoreReplica :=
  mkCore (core_config c) v (core_leader_id c) (core_sender c) (core_commit_hook c)
    (core_metrics c) (core_rng c) (core_snapshot_correlation c) (core_elapsed c)
    (core_timeout c) (core_speculative_dirty c) (core_index_initialized c) (core_speculative c)
    (core_command_index c) (core_outgoing c) (core_incoming c) (core_failure c) (core_calls c).

Definition set_leader_id (v : string) (c : CoreReplica) : CoreReplica :=
  mkCore (core_config c) (core_host c) v (core_sender c) (core_commit_hook c) (core_metrics c)
    (core_rng c) (core_snapshot_correlation c) (core_elapsed c) (core_timeout c)
    (core_speculative_dirty c) (core_index_initialized c) (core_speculative c)
    (core_command_index c) (core_outgoing c) (core_incoming c) (core_failure c) (core_calls c).

Definition set_sender (v : bool) (c : CoreReplica) : CoreReplica :=
  mkCore (core_config c) (core_host c) (core_leader_id c) v (core_commit_hook c)
    (core_metrics c) (core_rng c) (core_snapshot_correlation c) (core_elapsed c)
    (core_timeout c) (core_speculative_dirty c) (core_index_initialized c) (core_speculative c)
    (core_command_index c) (core_outgoing c) (core_incoming c) (core_failure c) (core_calls c).

Definition set_commit_hook (v : bool) (c : CoreReplica) : CoreReplica :=
  mkCore (core_config c) (core_host c) (core_leader_id c) (core_sender c) v (core_metrics c)
    (core_rng c) (core_snapshot_correlation c) (core_elapsed c) (core_timeout c)
    (core_speculative_dirty c) (core_index_initialized c) (core_speculative c)
    (core_command_index c) (core_outgoing c) (core_incoming c) (core_failure c) (core_calls c).

Definition set_metrics (v : ConsensusMetrics) (c : CoreReplica) : CoreReplica :=
  mkCore (core_config c) (core_host c) (core_leader_id c) (core_sender c) (core_commit_hook c)
    v (core_rng c) (core_snapshot_correlation c) (core_elapsed c) (core_timeout c)
    (core_speculative_dirty c) (core_index_initialized c) (core_speculative c)
    (core_command_index c) (core_outgoing c) (core_incoming c) (core_failure c) (core_calls c).

Definition set_rng (v : Z) (c : CoreReplica) : CoreReplica :=
  mkCore (core_config c) (core_host c) (core_leader_id c) (core_sender c) (core_commit_hook c)
    (core_metrics c) v (core_snapshot_correlation c) (core_elapsed c) (core_timeout c)
    (core_speculative_dirty c) (core_index_initialized c) (core_speculative c)
    (core_command_index c) (core_outgoing c) (core_incoming c) (core_failure c) (core_calls c).

Definition set_snapshot_correlation (v : Z) (c : CoreReplica) : CoreReplica :=
  mkCore (core_config c) (core_host c) (core_leader_id c) (core_sender c) (core_commit_hook c)
    (core_metrics c) (core_rng c) v (core_elapsed c) (core_timeout c) (core_speculative_dirty c)
    (core_index_initialized c) (core_speculative c) (core_command_index c) (core_outgoing c)
    (core_incoming c) (core_failure c) (core_calls c).

Definition set_elapsed (v : Z) (c : CoreReplica) : CoreReplica :=
  mkCore (core_config c) (core_host c) (core_leader_id c) (core_sender c) (core_commit_hook c)
    (core_metrics c) (core_rng c) (core_snapshot_correlation c) v (core_timeout c)
    (core_speculative_dirty c) (core_index_initialized c) (core_speculative c)
    (core_command_index c) (core_outgoing c) (core_incoming c) (core_failure c) (core_calls c).

Definition set_timeout (v : Z) (c : CoreReplica) : CoreReplica :=
  mkCore (core_config c) (core_host c) (core_leader_id c) (core_sender c) (core_commit_hook c)
    (core_metrics c) (core_rng c) (core_snapshot_correlation c) (core_elapsed c) v
    (core_speculative_dirty c) (core_index_initialized c) (core_speculative c)
    (core_command_index c) (core_outgoing c) (core_incoming c) (core_failure c) (core_calls c).

Definition set_speculative_dirty (v : bool) (c : CoreReplica) : CoreReplica :=
  mkCore (core_config c) (core_host c) (core_leader_id c) (core_sender c) (core_commit_hook c)
    (core_metrics c) (core_rng c) (core_snapshot_correlation c) (core_elapsed c)
    (core_timeout c) v (core_index_initialized c) (core_speculative c) (core_command_index c)
    (core_outgoing c) (core_incoming c) (core_failure c) (core_calls c).

Definition set_index_initialized (v : bool) (c : CoreReplica) : CoreReplica :=
  mkCore (core_config c) (core_host c) (core_leader_id c) (core_sender c) (core_commit_hook c)
    (core_metrics c) (core_rng c) (core_snapshot_correlation c) (core_elapsed c)
    (core_timeout c) (core_speculative_dirty c) v (core_speculative c) (core_command_index c)
    (core_outgoing c) (core_incoming c) (core_failure c) (core_calls c).

Definition set_speculative (v : ChoreographyState) (c : CoreReplica) : CoreReplica :=
  mkCore (core_config c) (core_host c) (core_leader_id c) (core_sender c) (core_commit_hook c)
    (core_metrics c) (core_rng c) (core_snapshot_correlation c) (core_elapsed c)
    (core_timeout c) (core_speculative_dirty c) (core_index_initialized c) v
    (core_command_index c) (core_outgoing c) (core_incoming c) (core_failure c) (core_calls c).

Definition set_command_index (v : gmap string Z) (c : CoreReplica) : CoreReplica :=
  mkCore (core_config c) (core_host c) (core_leader_id c) (core_sender c) (core_commit_hook c)
    (core_metrics c) (core_rng c) (core_snapshot_correlation c) (core_elapsed c)
    (core_timeout c) (core_speculative_dirty c) (core_index_initialized c) (core_speculative c)
    v (core_outgoing c) (core_incoming c) (core_failure c) (core_calls c).

Definition set_outgoing (v : gmap string Transfer) (c : CoreReplica) : CoreReplica :=
  mkCore (core_config c) (core_host c) (core_leader_id c) (core_sender c) (core_commit_hook c)
    (core_metrics c) (core_rng c) (core_snapshot_correlation c) (core_elapsed c)
    (core_timeout c) (core_speculative_dirty c) (core_index_initialized c) (core_speculative c)
    (core_command_index c) v (core_incoming c) (core_failure c) (core_calls c).

Definition set_incoming (v : option Incoming) (c : CoreReplica) : CoreReplica :=
  mkCore (core_config c) (core_host c) (core_leader_id c) (core_sender c) (core_commit_hook c)
    (core_metrics c) (core_rng c) (core_snapshot_correlation c) (core_elapsed c)
    (core_timeout c) (core_speculative_dirty c) (core_index_initialized c) (core_speculative c)
    (core_command_index c) (core_outgoing c) v (core_failure c) (core_calls c).

Definition set_failure (v : option Error) (c : CoreReplica) : CoreReplica :=
  mkCore (core_config c) (core_host c) (core_leader_id c) (core_sender c) (core_commit_hook c)
    (core_metrics c) (core_rng c) (core_snapshot_correlation c) (core_elapsed c)
    (core_timeout c) (core_speculative_dirty c) (core_index_initialized c) (core_speculative c)
    (core_command_index c) (core_outgoing c) (core_incoming c) v (core_calls c).

Definition set_calls (v : list Call) (c : CoreReplica) : CoreReplica :=
  mkCore (core_config c) (core_host c) (core_leader_id c) (core_sender c) (core_commit_hook c)
    (core_metrics c) (core_rng c) (core_snapshot_correlation c) (core_elapsed c)
    (core_timeout c) (core_speculative_dirty c) (core_index_initialized c) (core_speculative c)
    (core_command_index c) (core_outgoing c) (core_incoming c) (core_failure c) v.

(** ** The monad *)

(** [sys_fuel]: of the loops of one dispatch. [sys_os n k]: the outcomes of the
    [k]-th adapter call of the [n]-th dispatch. *)
Record System := mkSystem { sys_fuel : nat; sys_os : nat -> nat -> AdapterOs }.

(** A replica in a method, and the dispatches made so far. *)
Record CoreRun := mkCoreRun { cu_core : CoreReplica; cu_dispatches : nat }.

Definition M (A : Type) : Type := CoreRun -> option (CoreRun * A).

#[export] Instance M_ret : MRet M := fun A a r => Some (r, a).

#[export] Instance M_bind : MBind M := fun A B k m r =>
  match m r with
  | Some (r, a) => k a r
  | None => None
  end.

Definition get : M CoreReplica := fun r => Some (r, cu_core r).

Definition update (f : CoreReplica -> CoreReplica) : M unit := fun r =>
  Some (mkCoreRun (f (cu_core r)) (cu_dispatches r), tt).

Definition throw {A} : M A := fun _ => None.

Definition of_option {A} (o : option A) : M A := match o with Some a => mret a | None => throw end.

Definition of_result {A} (x : result Error A) : M A := match x with Ok a => mret a | Err _ => throw end.

Definition skip : M unit := mret tt.

Definition whenM (b : bool) (m : M unit) : M unit := if b then m else skip.

Fixpoint for_each {A} (l : list A) (body : A -> M unit) : M unit :=
  match l with [] => skip | a :: l => body a;; for_each l body end.

(** ** Small methods *)

Definition core_invalid (message : string) : Error := mkError StoreError message.

Definition kMaximumSnapshotBytes : Z := 67108864.

Definition append_effects (target source : HostEffects) : HostEffects :=
  mkHostEffects (he_send target ++ he_send source) (he_snapshots target ++ he_snapshots source)
    (he_capacity_exhausted target || he_capacity_exhausted source) (he_reads target).

Definition core_node (c : CoreReplica) : Node := rh_node (core_host c).
Definition core_durable (c : CoreReplica) : Durable := n_durable (core_node c).
Definition core_role (c : CoreReplica) : Role := v_role (n_volatile (core_node c)).

(** [host_.node().halted || failure_] *)
Definition core_stopped (c : CoreReplica) : bool := n_halted (core_node c) || is_some (core_failure c).

Definition known_peer (c : CoreReplica) (peer : string) : bool :=
  bool_decide (peer ∈ rf_peers (core_config c)).

Definition is_leader (c : CoreReplica) : bool :=
  negb (n_halted (core_node c)) && negb (is_some (core_failure c)) && bool_decide (core_role c = Leader).

(** [FileEngineAdapter::inspection_store], which throws without a store. *)
Definition inspection_store (a : FileEngineAdapter) : option FileEngine := ad_store a.

Definition get_store : M FileEngine :=
  c ← get; of_option (inspection_store (rh_adapter (core_host c))).

(** [failure_ = error] *)
Definition fail_with (e : Error) : M unit := update (set_failure (Some e)).

Definition draw_timeout : M Z :=
  c ← get;
  let rng := xorshift (core_rng c) in
  update (set_rng rng);;
  let span := to_i32 (rf_election_timeout_max (core_config c) - rf_election_timeout_min (core_config c) + 1) in
  mret (rf_election_timeout_min (core_config c) + to_i32 (rng mod wrap64 span)).

(** ** The command index *)

Definition index_event (index : Z) (event : Event) (m : gmap string Z) : gmap string Z :=
  if bool_decide (ev_type event = NoOp) then m else <[ev_command event := index]> m.

(** The whole log. *)
Definition index_log (events : list Event) : gmap string Z :=
  foldl (fun m event => index_event (ev_index event) event m) ∅ events.

(** The records from [first] to the last one. *)
Definition index_tail (store : FileEngine) (first : Z) (m : gmap string Z) : gmap string Z :=
  foldl (fun m index =>
           match log_entry store index with
           | Some event => index_event index event m
           | None => m
           end) m (seqZ first (last_log_index store - first + 1)).

Definition log_repaired (before after : Durable) : bool :=
  (d_snapshot_index before =? d_snapshot_index after) &&
  (common_prefix (d_log before) (d_log after) <? length (d_log before))%nat.

Definition synchronize_log (before : Durable) : M unit :=
  c ← get;
  store ← get_store;
  let after := core_durable c in
  let anchor := log_first_index store in
  let boundary_changed := negb (d_snapshot_index before =? d_snapshot_index after) in
  let repaired := log_repaired before after in
  (if boundary_changed || repaired || negb (core_index_initialized c)
   then update (set_index_initialized true);; update (set_command_index (index_log (log_events store)))
   else
     let first := wrap64 (wrap64 (d_snapshot_index before + log_size (d_log before)) + 1) in
     update (set_command_index (index_tail store first (core_command_index c))));;
  whenM repaired (update (set_speculative_dirty true));;
  whenM boundary_changed
    (let '(retained, error) := retain_state_history_from (core_speculative c) anchor in
     update (set_speculative retained);;
     whenM (is_some error) (update (set_speculative_dirty true));;
     whenM (d_commit before <? d_commit after) (update (set_speculative_dirty true))).

(** ** The speculative state *)

(** Apply the records at [indexes], which follow the commit index. *)
Fixpoint apply_uncommitted (store : FileEngine) (indexes : list Z) (state : ChoreographyState)
    : result Error ChoreographyState :=
  match indexes with
  | [] => Ok state
  | index :: rest =>
      match log_entry store index with
      | None => Err (core_invalid "transition backend has a missing uncommitted event")
      | Some event =>
          let? state := apply state event Contiguous in
          apply_uncommitted store rest state
      end
  end.

Definition speculate (store : FileEngine) : result Error ChoreographyState :=
  let first := wrap64 (fe_commit store + 1) in
  apply_uncommitted store (seqZ first (last_log_index store - first + 1)) (en_state (fe_engine store)).

Definition ensure_speculative : M (result Error unit) :=
  c ← get;
  if negb (core_speculative_dirty c) then mret (Ok tt)
  else
    store ← get_store;
    match speculate store with
    | Err e => mret (Err e)
    | Ok state =>
        update (set_speculative state);;
        update (set_speculative_dirty false);;
        mret (Ok tt)
    end.

(** The marker of a new term; [noop_event] is the event it builds. *)
Definition noop : M (result Error Event) :=
  ready ← ensure_speculative;
  match ready with
  | Err e => mret (Err e)
  | Ok _ =>
      c ← get;
      let durable := core_durable c in
      let last := wrap64 (d_snapshot_index durable + log_size (d_log durable)) in
      if max_u64 - 1 <=? last
      then mret (Err (core_invalid "log index space exhausted before the current-term barrier"))
      else
        term ← of_result (parse_term (d_term durable));
        mret (Ok (noop_event (s_id (core_speculative c)) term (last + 1)))
  end.

Definition count_role_change (next : Role) (m : ConsensusMetrics) : ConsensusMetrics :=
  mkConsensusMetrics (wrap64 (cm_role_changes m + 1)) (cm_elections_started m) (cm_votes_granted m)
    (if bool_decide (next = Follower) then wrap64 (cm_step_downs m + 1) else cm_step_downs m)
    (cm_messages_dropped_oversize m) (cm_snapshot_chunks_sent m).

Definition count (f : ConsensusMetrics -> ConsensusMetrics) : M unit :=
  c ← get; update (set_metrics (f (core_metrics c))).

(** ** Sending *)

Definition send (peer : string) (frame : Frame) : M unit :=
  c ← get;
  if core_stopped c then skip
  else if kMaxFramePayload <? zsize (fr_payload frame) then
    count count_oversize;;
    fail_with (core_invalid "transition backend produced an oversized replication frame")
  else whenM (core_sender c) (update (set_calls (core_calls c ++ [Sent peer frame]))).

(** The loop over [append->entries]. *)
Fixpoint domain_entries (index : Z) (entries : list Entry) : result Error (list Event) :=
  match entries with
  | [] => Ok []
  | entry :: rest =>
      let index := wrap64 (index + 1) in
      let? event := decode_domain_entry entry index in
      let? events := domain_entries index rest in
      Ok (event :: events)
  end.

(** The type, the correlation and the payload of a message of the core. *)
Definition wire_type (message : WireMessage) : MessageType :=
  match message with
  | MRequestVote _ => tRequestVote
  | MVoteReply _ => tRequestVoteResponse
  | MAppendEntries _ => tAppendEntries
  | MAppendReply _ => tAppendEntriesResponse
  | MSnapshotReply _ => tInstallSnapshotResponse
  end.

Definition wire_correlation (message : WireMessage) : Z :=
  match message with
  | MRequestVote m => rv_request_id m
  | MVoteReply m => vr_request_id m
  | MAppendEntries m => ae_request_id m
  | MAppendReply m => ar_request_id m
  | MSnapshotReply m => Transition.sp_request_id m
  end.

Definition wire_payload (message : WireMessage) (snapshot_ack_bytes : Z) : result Error (list Z) :=
  match message with
  | MRequestVote m =>
      encode_request_vote
        (mkProtoRequestVote (rv_term m) (rv_candidate m) (rv_last_index m) (rv_last_term m))
  | MVoteReply m =>
      encode_vote_response (mkProtoVoteResponse (vr_term m) (vr_voter m) (vr_granted m))
  | MAppendEntries m =>
      let? events := domain_entries (ae_prev_index m) (ae_entries m) in
      encode_append_entries
        (mkProtoAppendEntries (ae_term m) (ae_leader m) (ae_prev_index m) (ae_prev_term m) events
           (ae_leader_commit m))
  | MAppendReply m =>
      encode_append_response
        (mkProtoAppendResponse (ar_term m) (ar_follower m) (ar_success m) (ar_matched m) (ar_hint m))
  | MSnapshotReply m =>
      encode_snapshot_response
        (mkProtoSnapshotResponse (Transition.sp_term m) (sp_follower m) (sp_success m)
           (if sp_success m then snapshot_ack_bytes else 0))
  end.

Definition vote_granted (message : WireMessage) : bool :=
  match message with MVoteReply m => vr_granted m | _ => false end.

(** Encoding a granted vote also restarts the election clock. *)
Definition emit (outbound : Outbound) (snapshot_ack_bytes : Z) : M unit :=
  let message := o_message outbound in
  whenM (vote_granted message) (update (set_elapsed 0);; count count_vote);;
  match wire_payload message snapshot_ack_bytes with
  | Err e => fail_with e
  | Ok payload => send (o_to outbound) (mkFrame (wire_type message) (wire_correlation message) payload)
  end.

(** ** Snapshot streams *)

(** The chunk of [snapshot] at [offset], at most [limit] bytes long. *)
Definition chunk_length (limit : Z) (snapshot : Snapshot) (offset : Z) : Z :=
  Z.min limit (text_size (sp_payload snapshot) - offset).

Definition chunk_end (limit : Z) (snapshot : Snapshot) (offset : Z) : Z :=
  wrap64 (offset + chunk_length limit snapshot offset).

Definition chunk_final (limit : Z) (snapshot : Snapshot) (offset : Z) : bool :=
  chunk_end limit snapshot offset =? text_size (sp_payload snapshot).

Definition chunk_message (term : Z) (leader : string) (limit : Z) (snapshot : Snapshot) (offset : Z)
    : ProtoInstallSnapshot :=
  mkProtoInstallSnapshot term leader (sp_index snapshot) (sp_term snapshot) (sp_hash snapshot)
    (substr (sp_payload snapshot) offset (chunk_length limit snapshot offset)) offset
    (negb (chunk_final limit snapshot offset)).

Definition send_chunk (peer : string) (offset : Z) : M unit :=
  c ← get;
  transfer ← of_option (core_outgoing c !! peer);
  let snapshot := ps_snapshot (tr_pinned transfer) in
  if (text_size (sp_payload snapshot) <? offset) || (core_snapshot_correlation c =? max_u64)
  then fail_with (core_invalid "invalid snapshot offset or exhausted correlation IDs")
  else
    let limit := rf_max_snapshot_chunk_bytes (core_config c) in
    let end_ := chunk_end limit snapshot offset in
    let final := chunk_final limit snapshot offset in
    update (set_outgoing
      (<[peer := mkTransfer (tr_pinned transfer) (tr_frame transfer) end_ final]> (core_outgoing c)));;
    match encode_install_snapshot
            (chunk_message (d_term (core_durable c)) (rf_id (core_config c)) limit snapshot offset) with
    | Err e => fail_with e
    | Ok payload =>
        let frame := mkFrame tInstallSnapshot (core_snapshot_correlation c) payload in
        update (set_outgoing
          (<[peer := mkTransfer (tr_pinned transfer) frame end_ final]> (core_outgoing c)));;
        update (set_snapshot_correlation (core_snapshot_correlation c + 1));;
        count count_chunk;;
        send peer frame
    end.

Definition reply_chunk (peer : string) (correlation : Z) (success : bool) (next_offset : Z) : M unit :=
  c ← get;
  match encode_snapshot_response
          (mkProtoSnapshotResponse (d_term (core_durable c)) (rf_id (core_config c)) success next_offset) with
  | Err e => fail_with e
  | Ok payload => send peer (mkFrame tInstallSnapshotResponse correlation payload)
  end.

(** One pinned snapshot of the effects: a new stream, or a retry of the chunk
    that waits for its answer. *)
Definition release_snapshot (pinned : PinnedSnapshot) : M unit :=
  c ← get;
  let peer := sn_peer (ps_request pinned) in
  let start :=
    update (set_outgoing (<[peer := mkTransfer pinned default_frame 0 false]> (core_outgoing c)));;
    send_chunk peer 0 in
  match core_outgoing c !! peer with
  | Some found =>
      if sn_request_id (ps_request (tr_pinned found)) =? sn_request_id (ps_request pinned)
      then send peer (tr_frame found) else start
  | None => start
  end.

Definition release (output : HostEffects) (snapshot_ack_bytes : Z) : M unit :=
  for_each (he_send output) (fun outbound => emit outbound snapshot_ack_bytes);;
  for_each (he_snapshots output) release_snapshot;;
  c ← get;
  whenM (negb (core_stopped c) && core_commit_hook c) 
    (update (set_calls (core_calls c ++ [Committed (inspection_store (rh_adapter (core_host c))) (core_leader_id c)]))).

Section Methods.
Context (sys : System).

(** ** Driving the host *)

(** [host_.dispatch(input, installing)] *)
Definition dispatch_host (input : Input) (installing : option Snapshot) : M (result Error HostEffects) := fun r =>
  let c := cu_core r in
  match host_dispatch (sys_fuel sys) (core_host c) input installing (sys_os sys (cu_dispatches r)) with
  | Some (h, x) => Some (mkCoreRun (set_host h c) (S (cu_dispatches r)), x)
  | None => None
  end.

(** Drop the streams and the leader when the term changed or leadership ended. *)
Definition forget_leader (before : Durable) (role : Role) : M unit :=
  c ← get;
  let changed := negb (d_term (core_durable c) =? d_term before) in
  whenM ((changed || negb (bool_decide (core_role c = Leader))) &&
         (changed || bool_decide (role = Leader)))
    (update (set_outgoing ∅);; update (set_incoming None);; update (set_leader_id "")).

(** The barrier of a new leader: the marker is appended and checked. *)
Definition append_barrier (before : Durable) (output : HostEffects) : M (result Error HostEffects) :=
  c ← get;
  update (set_leader_id (rf_id (core_config c)));;
  update (set_speculative_dirty true);;
  event ← noop;
  match event with
  | Err e => fail_with e;; mret (Err e)
  | Ok event =>
      match encode_domain_event event with
      | Err e => fail_with e;; mret (Err e)
      | Ok encoded =>
          appended ← dispatch_host (ClientPropose (e_command encoded)) None;
          match appended with
          | Err e => fail_with e;; mret (Err e)
          | Ok appended =>
              store ← get_store;
              if he_capacity_exhausted appended ||
                 negb (bool_decide (canonical_event <$> log_entry store (ev_index event) =
                                    Some (e_command encoded)))
              then
                let e := core_invalid
                  "no capacity for the current-term barrier; node requires operational recovery" in
                fail_with e;; mret (Err e)
              else
                synchronize_log before;;
                update (set_speculative_dirty true);;
                mret (Ok (append_effects output appended))
          end
      end
  end.

Definition drive (input : Input) (installing : option Snapshot) : M (result Error HostEffects) :=
  c ← get;
  let before := core_durable c in
  let role := core_role c in
  output ← dispatch_host input installing;
  match output with
  | Err e => fail_with e;; mret (Err e)
  | Ok output =>
      c ← get;
      let next_role := core_role c in
      whenM (negb (bool_decide (role = next_role))) (count (count_role_change next_role));;
      forget_leader before role;;
      synchronize_log before;;
      if bool_decide (next_role = Leader) && negb (bool_decide (role = Leader))
      then append_barrier before output
      else mret (Ok output)
  end.

(** [if (output) release(output, bytes)] *)
Definition release_if (output : result Error HostEffects) (snapshot_ack_bytes : Z) : M unit :=
  match output with Ok output => release output snapshot_ack_bytes | Err _ => skip end.

(** [pumped = drive(HeartbeatTimeout{})], added to what is released. *)
Definition pump (output : HostEffects) : M unit :=
  pumped ← drive HeartbeatTimeout None;
  match pumped with
  | Err _ => skip
  | Ok pumped => release (append_effects output pumped) 0
  end.

Definition heartbeat : M unit :=
  c ← get;
  if core_stopped c then skip
  else
    (if is_leader c then
       output ← drive HeartbeatTimeout None; release_if output 0
     else
       let elapsed := core_elapsed c + 1 in
       update (set_elapsed elapsed);;
       if core_timeout c <=? elapsed then
         update (set_elapsed 0);;
         timeout ← draw_timeout;
         update (set_timeout timeout);;
         count count_election;;
         output ← drive ElectionTimeout None; release_if output 0
       else output ← drive HeartbeatTimeout None; release_if output 0).

(** ** Client commands *)

(** An entry of the log that carries the id of [command]. *)
Definition duplicate_answer (c : CoreReplica) (store : FileEngine) (index : Z) (command : Command)
    : result Error EnqueueResult :=
  match log_entry store index with
  | None => Err (core_invalid "transition command index disagrees with retained log")
  | Some event =>
      let original := mkCommand (ev_command event) (ev_choreography event) (c_type command)
                        (ev_schema event) (ev_tick event) (ev_payload event) in
      if negb (bool_decide (ev_type event = event_type_for (c_type command))) ||
         negb (bool_decide (canonical_command original = canonical_command (normalize_command command)))
      then Err (mkError CommandConflict "command ID reused with a different request")
      else Ok (mkEnqueueResult event true (ev_index event <=? fe_commit store) (core_leader_id c))
  end.

(** The event of a new command, if it can be replicated in one frame. *)
Definition sized_event (c : CoreReplica) (store : FileEngine) (proposed : Event) : result Error Entry :=
  let sized := mkProtoAppendEntries (d_term (core_durable c)) (rf_id (core_config c))
                 (last_log_index store) (default 0 (log_term_at store (last_log_index store)))
                 [proposed] (fe_commit store) in
  match encode_append_entries sized with
  | Ok wire =>
      if kMaxFramePayload <? zsize wire
      then Err (mkError ProtocolError "command exceeds replication frame capacity")
      else encode_domain_event proposed
  | Err _ => Err (mkError ProtocolError "command exceeds replication frame capacity")
  end.

(** Drive the proposal, check that it was stored, and follow it speculatively. *)
Definition append_proposal (proposed : Event) (encoded : Entry) : M (result Error EnqueueResult) :=
  output ← drive (ClientPropose (e_command encoded)) None;
  match output with
  | Err e => mret (Err e)
  | Ok output =>
      if he_capacity_exhausted output
      then mret (Err (mkError UnavailableError "retained log window is full; retry after quorum progress"))
      else
        store ← get_store;
        if negb (bool_decide (canonical_event <$> log_entry store (ev_index proposed) =
                              Some (e_command encoded)))
        then
          let e := core_invalid "core proposal did not durably append the requested event" in
          fail_with e;; mret (Err e)
        else
          c ← get;
          match apply (core_speculative c) proposed Contiguous with
          | Err e => fail_with e;; mret (Err e)
          | Ok state =>
              update (set_speculative state);;
              release output 0;;
              c ← get;
              store ← get_store;
              mret (Ok (mkEnqueueResult proposed false (ev_index proposed <=? fe_commit store)
                          (core_leader_id c)))
          end
  end.

Definition enqueue (command : Command) : M (result Error EnqueueResult) :=
  c ← get;
  if core_stopped c then mret (Err (core_invalid "transition backend halted; reopen from disk"))
  else if negb (is_leader c)
  then mret (Err (mkError NotLeaderError ("leader is " +:+ core_leader_id c)))
  else
    store ← get_store;
    let committed := en_state (fe_engine store) in
    if is_some (s_receipts committed !! c_id command) ||
       is_some (s_applied_commands committed !! c_id command)
    then
      mret (let? receipt := resolve_receipt committed command in
            Ok (mkEnqueueResult receipt true true (core_leader_id c)))
    else
      match core_command_index c !! c_id command with
      | Some index => mret (duplicate_answer c store index command)
      | None =>
          if kMaximumEntries - 1 <=? log_size (d_log (core_durable c))
          then mret (Err (mkError UnavailableError "retained log needs quorum progress and maintenance"))
          else
            ready ← ensure_speculative;
            match ready with
            | Err e => mret (Err e)
            | Ok _ =>
                c ← get;
                match propose (core_speculative c) command with
                | Err e => mret (Err e)
                | Ok proposed =>
                    term ← of_result (parse_term (d_term (core_durable c)));
                    let proposed := event_with_term term proposed in
                    match sized_event c store proposed with
                    | Err e => mret (Err e)
                    | Ok encoded => append_proposal proposed encoded
                    end
                end
            end
      end.

(** ** Snapshots received *)

Definition chunk_refused (m : ProtoInstallSnapshot) : bool :=
  negb (text_size (pi_state_hash m) =? 16) || (pi_last_included_index m =? 0) ||
  (pi_last_included_index m =? max_u64) || (pi_last_included_term m =? 0) ||
  (pi_term m <? pi_last_included_term m) || (kMaximumSnapshotBytes <? pi_offset m) ||
  (kMaximumSnapshotBytes - pi_offset m <? text_size (pi_payload m)) ||
  (pi_more m && is_empty (pi_payload m)).

(** The stream that [m] continues. *)
Definition same_stream (incoming : option Incoming) (m : ProtoInstallSnapshot) : bool :=
  match incoming with
  | Some i =>
      bool_decide (ic_leader i = pi_leader_id m) && (ic_term i =? pi_term m) &&
      (ic_index i =? pi_last_included_index m) && (ic_snapshot_term i =? pi_last_included_term m) &&
      bool_decide (ic_hash i = pi_state_hash m)
  | None => false
  end.

Definition start_stream (m : ProtoInstallSnapshot) : Incoming :=
  mkIncoming (pi_leader_id m) (pi_term m) (pi_last_included_index m) (pi_last_included_term m)
    (pi_state_hash m) "".

Definition with_bytes (bytes : string) (i : Incoming) : Incoming :=
  mkIncoming (ic_leader i) (ic_term i) (ic_index i) (ic_snapshot_term i) (ic_hash i) bytes.

(** What a chunk does to the stream: it does not fit, it repeats what is there,
    it extends it, or it is the last one. *)
Inductive Absorbed :=
| Refused
| Repeated (i : Incoming)
| Extended (i : Incoming)
| Completed (bytes : string).

Definition absorb (incoming : option Incoming) (m : ProtoInstallSnapshot) : Absorbed :=
  let same := same_stream incoming m in
  match (if (pi_offset m =? 0) && negb same then Some (start_stream m) else incoming) with
  | None => Refused
  | Some i =>
      let bytes := ic_bytes i in
      let size := text_size bytes in
      if (negb same && negb (pi_offset m =? 0)) || (size <? pi_offset m) then Refused
      else if pi_offset m <? size then
        if (text_size (pi_payload m) <=? size - pi_offset m) &&
           bool_decide (substr bytes (pi_offset m) (text_size (pi_payload m)) = pi_payload m)
        then Repeated i else Refused
      else
        let bytes := bytes +:+ pi_payload m in
        if pi_more m then Extended (with_bytes bytes i) else Completed bytes
  end.

(** Drop the stream and ask the leader to start again. *)
Definition restart_stream (m : ProtoInstallSnapshot) (correlation : Z) : M unit :=
  update (set_incoming None);; reply_chunk (pi_leader_id m) correlation false 0.

(** The last chunk: verify the whole payload and install it. *)
Definition finish_stream (m : ProtoInstallSnapshot) (correlation : Z) (ready : SnapshotRequest)
    (bytes : string) : M unit :=
  let snapshot := mkSnapshot (pi_last_included_index m) (pi_last_included_term m) (pi_state_hash m)
                    [] bytes in
  update (set_incoming None);;
  if negb (is_ok (verify_snapshot snapshot)) then reply_chunk (pi_leader_id m) correlation false 0
  else
    output ← drive (RecvSnapshot ready) (Some snapshot);
    release_if output (text_size (sp_payload snapshot)).

(** A chunk of a snapshot above the commit index. *)
Definition assemble (m : ProtoInstallSnapshot) (correlation : Z) (ready : SnapshotRequest) : M unit :=
  c ← get;
  match absorb (core_incoming c) m with
  | Refused => restart_stream m correlation
  | Repeated i =>
      update (set_incoming (Some i));;
      reply_chunk (pi_leader_id m) correlation true (text_size (ic_bytes i))
  | Extended i =>
      update (set_incoming (Some i));;
      reply_chunk (pi_leader_id m) correlation true (text_size (ic_bytes i))
  | Completed bytes => finish_stream m correlation ready bytes
  end.

(** A snapshot the node already has: say so, unless the hashes differ. *)
Definition already_installed (m : ProtoInstallSnapshot) (correlation : Z) (ready : SnapshotRequest)
    (installed : option Snapshot) : M unit :=
  let conflict :=
    match installed with
    | Some s => (sp_index s =? pi_last_included_index m) && negb (bool_decide (sp_hash s = pi_state_hash m))
    | None => false
    end in
  if conflict then reply_chunk (pi_leader_id m) correlation false 0
  else
    reply ← drive (RecvSnapshot ready) None;
    release_if reply (wrap64 (pi_offset m + text_size (pi_payload m))).

Definition on_snapshot (m : ProtoInstallSnapshot) (correlation : Z) : M unit :=
  if chunk_refused m then skip
  else
    c ← get;
    store ← get_store;
    let commit := d_commit (core_durable c) in
    let committed_term := default 0 (log_term_at store commit) in
    if (commit <? pi_last_included_index m) && (pi_last_included_term m <? committed_term) then skip
    else
      let header := mkSnapshotRequest (pi_term m) (pi_leader_id m) (pi_last_included_index m)
                      (pi_last_included_term m) correlation false in
      observed ← drive (RecvSnapshot header) None;
      match observed with
      | Err _ => skip
      | Ok observed =>
          release observed 0;;
          c ← get;
          if negb (pi_term m =? d_term (core_durable c)) || negb (bool_decide (core_role c = Follower))
          then skip
          else
            update (set_leader_id (pi_leader_id m));;
            update (set_elapsed 0);;
            store ← get_store;
            let ready := mkSnapshotRequest (pi_term m) (pi_leader_id m) (pi_last_included_index m)
                           (pi_last_included_term m) correlation true in
            if pi_last_included_index m <=? d_commit (core_durable c)
            then already_installed m correlation ready (fe_snapshot store)
            else assemble m correlation ready
      end.

(** ** Answers to chunks *)

Definition on_snapshot_reply (m : ProtoSnapshotResponse) (correlation : Z) : M unit :=
  c ← get;
  let term := d_term (core_durable c) in
  if term <? psr_term m then
    output ← drive (RecvSnapshotReply (mkSnapshotReply (psr_term m) (psr_follower_id m) false 0 0)) None;
    release_if output 0
  else
    match core_outgoing c !! psr_follower_id m with
    | None => skip
    | Some transfer =>
        if negb (is_leader c) || negb (psr_term m =? term) ||
           negb (fr_correlation (tr_frame transfer) =? correlation)
        then skip
        else if negb (psr_success m) then send_chunk (psr_follower_id m) 0
        else if negb (psr_next_offset m =? tr_end transfer) then skip
        else if negb (tr_final transfer) then send_chunk (psr_follower_id m) (tr_end transfer)
        else
          let request := ps_request (tr_pinned transfer) in
          update (set_outgoing (delete (psr_follower_id m) (core_outgoing c)));;
          output ← drive (RecvSnapshotReply (mkSnapshotReply (psr_term m) (psr_follower_id m) true
                            (sn_index request) (sn_request_id request))) None;
          match output with
          | Err _ => skip
          | Ok output =>
              c ← get;
              store ← get_store;
              if is_leader c && (sn_index request <? last_log_index store) then pump output
              else release output 0
          end
    end.

(** ** Frames *)

(** The entries of an append request: indexes that follow, terms that do not
    decrease and do not exceed the term of the leader. *)
Fixpoint append_events (limit index term : Z) (events : list Event) : option (list Entry) :=
  match events with
  | [] => Some []
  | event :: rest =>
      if index =? max_u64 then None
      else
        let index := index + 1 in
        if negb (ev_index event =? index) || (ev_term event <? term) || (limit <? ev_term event)
        then None
        else
          match encode_domain_event event with
          | Err _ => None
          | Ok encoded =>
              entries ← append_events limit index (ev_term event) rest;
              Some (encoded :: entries)
          end
  end.

Definition append_input (m : ProtoAppendEntries) (correlation : Z) : option AppendEntries :=
  let index := pa_prev_log_index m in
  let term := pa_prev_log_term m in
  if xorb (index =? 0) (term =? 0) || (pa_term m <? term) then None
  else
    entries ← append_events (pa_term m) index term (pa_entries m);
    Some (mkAppendEntries (pa_term m) (pa_leader_id m) index term entries (pa_leader_commit m) correlation).

(** A successful answer of this term must match the request in flight. *)
Definition unexpected_reply (c : CoreReplica) (progress : PeerProgress) (m : ProtoAppendResponse)
    (correlation : Z) : bool :=
  (par_term m =? d_term (core_durable c)) && par_success m &&
  match pp_in_flight progress with
  | None => true
  | Some probe =>
      negb (pr_request_id probe =? correlation) ||
      negb (par_match_index m =? wrap64 (pr_prev probe + pr_count probe))
  end.

(** The input of a frame, and the leader it announces. *)
Definition frame_input (c : CoreReplica) (progress : PeerProgress) (frame : Frame) (peer : string)
    : option (Input * string) :=
  let correlation := fr_correlation frame in
  if fr_type frame =? tRequestVote then
    match decode_request_vote (fr_payload frame) with
    | Ok m =>
        if negb (bool_decide (prv_candidate_id m = peer)) then None
        else Some (RecvRequestVote (mkRequestVote (prv_term m) (prv_candidate_id m)
                     (prv_last_log_index m) (prv_last_log_term m) correlation), "")
    | Err _ => None
    end
  else if fr_type frame =? tRequestVoteResponse then
    match decode_vote_response (fr_payload frame) with
    | Ok m =>
        if negb (bool_decide (pvr_voter_id m = peer)) then None
        else Some (RecvVoteReply (mkVoteReply (pvr_term m) (pvr_voter_id m) (pvr_vote_granted m)
                     correlation), "")
    | Err _ => None
    end
  else if fr_type frame =? tAppendEntries then
    match decode_append_entries (fr_payload frame) with
    | Ok m =>
        if negb (bool_decide (pa_leader_id m = peer)) then None
        else
          append ← append_input m correlation;
          Some (RecvAppend append, if d_term (core_durable c) <=? ae_term append then ae_leader append else "")
    | Err _ => None
    end
  else if fr_type frame =? tAppendEntriesResponse then
    match decode_append_response (fr_payload frame) with
    | Ok m =>
        if negb (bool_decide (par_follower_id m = peer)) then None
        else if unexpected_reply c progress m correlation then None
        else Some (RecvAppendReply (mkAppendReply (par_term m) (par_follower_id m) (par_success m)
                     (par_hint_index m) correlation (par_match_index m)), "")
    | Err _ => None
    end
  else None.

(** After the input was driven: follow the leader, and keep replicating while
    the answers of a peer move its progress. *)
Definition after_input (frame : Frame) (peer leader : string) (before : PeerProgress) (before_commit : Z)
    (output : HostEffects) : M unit :=
  c ← get;
  whenM (negb (bool_decide (leader = "")) && bool_decide (core_role c = Follower))
    (update (set_leader_id leader);; update (set_elapsed 0));;
  whenM (fr_type frame =? tAppendEntries) (update (set_speculative_dirty true));;
  c ← get;
  if (fr_type frame =? tAppendEntriesResponse) && is_leader c then
    progress ← of_option (v_peers (n_volatile (core_node c)) !! peer);
    store ← get_store;
    let advanced := (pp_match before <? pp_match progress) || (pp_next progress <? pp_next before) in
    if (advanced && (pp_next progress <=? last_log_index store)) ||
       (before_commit <? d_commit (core_durable c))
    then pump output
    else release output 0
  else release output 0.

Definition handle (frame : Frame) (transport_peer : string) : M unit :=
  c ← get;
  if core_stopped c || negb (known_peer c transport_peer) then skip
  else
    before ← of_option (v_peers (n_volatile (core_node c)) !! transport_peer);
    if fr_type frame =? tInstallSnapshot then
      match decode_install_snapshot (fr_payload frame) with
      | Ok m =>
          whenM (bool_decide (pi_leader_id m = transport_peer)) (on_snapshot m (fr_correlation frame))
      | Err _ => skip
      end
    else if fr_type frame =? tInstallSnapshotResponse then
      match decode_snapshot_response (fr_payload frame) with
      | Ok m =>
          whenM (bool_decide (psr_follower_id m = transport_peer))
            (on_snapshot_reply m (fr_correlation frame))
      | Err _ => skip
      end
    else
      match frame_input c before frame transport_peer with
      | None => skip
      | Some (input, leader) =>
          output ← drive input None;
          match output with
          | Err _ => skip
          | Ok output =>
              after_input frame transport_peer leader before (d_commit (core_durable c)) output
          end
      end.
End Methods.

(** ** Opening and status *)

(** [draw_timeout], [synchronize_log] and the constructor run without a
    dispatch. *)
Definition construct (config : ReplicaConfig) : M unit :=
  update (set_rng (seed_of config));;
  timeout ← draw_timeout;
  update (set_timeout timeout);;
  synchronize_log empty_durable.

(** The members with their initialisers. *)
Definition fresh_core (config : ReplicaConfig) (host : RuntimeHost) : CoreReplica :=
  mkCore config host "" false false no_metrics 1 1 0 3 true false empty_state ∅ ∅ None None [].

Definition config_refused (config : ReplicaConfig) : bool :=
  negb (rf_elections config) || (rf_election_timeout_min config <? 1) ||
  (rf_election_timeout_max config <? rf_election_timeout_min config) ||
  (1000 <? rf_election_timeout_max config) || (rf_max_snapshot_chunk_bytes config =? 0) ||
  (262144 <? rf_max_snapshot_chunk_bytes config).

Definition core_open (config : ReplicaConfig) (named : bool) (directory : Directory)
    (lease : option Error) (os : AdapterOs) : option (Directory * result Error CoreReplica) :=
  if config_refused config
  then Some (directory,
             Err (core_invalid "transition backend requires elections and valid timeout/chunk bounds"))
  else
    let '(directory, host) :=
      host_open (mkConfig (rf_id config) (rf_peers config)) named directory (rf_snapshot_every config)
        false lease os in
    match host with
    | Err e => Some (directory, Err e)
    | Ok host =>
        match (construct config;; ensure_speculative) (mkCoreRun (fresh_core config host) 0) with
        | None => None
        | Some (_, Err e) => Some (directory, Err e)
        | Some (r, Ok _) => Some (directory, Ok (cu_core r))
        end
    end.

Definition status (c : CoreReplica) (store : FileEngine) : NodeStatus :=
  let d := core_durable c in
  let role :=
    match core_role c with Leader => "leader" | Candidate => "candidate" | Follower => "follower" end in
  mkNodeStatus (rf_id (core_config c)) (core_leader_id c) (if core_stopped c then "halted" else role)
    (d_term d) (d_commit d) (wrap64 (d_snapshot_index d + log_size (d_log d)))
    (rp_state_hash (fe_report store)) "".
