(* ===== verification/CoreReplicaThms.v ===== *)
(** * What a core replica does on the wire

    The methods of [CoreReplica] return, whatever frames arrive and whatever
    the system calls do, and every granted vote that leaves as a frame is the
    vote of the durable state. The proofs are in a weakest-precondition style
    over the monad of [CoreReplica]. *)

From S2P Require Import Prelude EntryLog EntryLogRefine Transition TransitionInv TransitionSteps TransitionProps Text Stream Types Model EventCodec EventCodecThms Machine SnapshotText Bytes Wal Metadata Transaction SnapshotFile FileEngine DomainBridge FileEngineAdapter RuntimeHost RuntimeHostThms Frame Messages Protobuf MessageCodec MessageCodecThms ReplicaTypes CoreReplica.

(** ** Weakest preconditions *)

(** [m] returns from [r], in a state and with a value that satisfy [Q]. *)
Definition wp {A} (m : M A) (Q : CoreRun -> A -> Prop) (r : CoreRun) : Prop :=
  exists r' a, m r = Some (r', a) /\ Q r' a.

Lemma wp_ret {A} (a : A) Q r : Q r a -> wp (mret a) Q r.
Proof. intros H. by exists r, a. Qed.

Lemma wp_bind {A B} (m : M A) (k : A -> M B) Q r :
  wp m (fun r' a => wp (k a) Q r') r -> wp (m ≫= k) Q r.
Proof.
  intros (r1 & a & E & r2 & b & E2 & HQ). exists r2, b. split; [|done].
  unfold mbind, M_bind. by rewrite E.
Qed.

Lemma wp_mono {A} (m : M A) (Q Q' : CoreRun -> A -> Prop) r :
  (forall r' a, Q r' a -> Q' r' a) -> wp m Q r -> wp m Q' r.
Proof. intros H (r' & a & E & HQ). exists r', a. eauto. Qed.

Lemma wp_get Q r : Q r (cu_core r) -> wp get Q r.
Proof. intros H. by exists r, (cu_core r). Qed.

Lemma wp_update f Q r : Q (mkCoreRun (f (cu_core r)) (cu_dispatches r)) tt -> wp (update f) Q r.
Proof. intros H. by eexists _, _. Qed.

Lemma wp_skip Q r : Q r tt -> wp skip Q r.
Proof. apply wp_ret. Qed.

Lemma wp_when (b : bool) m Q r : (b = true -> wp m Q r) -> (b = false -> Q r tt) -> wp (whenM b m) Q r.
Proof. destruct b; intros H1 H2; [by apply H1|by apply wp_skip, H2]. Qed.

Lemma wp_option {A} (o : option A) a Q r : o = Some a -> Q r a -> wp (of_option o) Q r.
Proof. intros -> H. by apply wp_ret. Qed.

Lemma wp_for_each {A} (l : list A) body (I : CoreRun -> Prop) (P : A -> Prop) r :
  (forall a r, P a -> I r -> wp (body a) (fun r' _ => I r') r) -> Forall P l -> I r ->
  wp (for_each l body) (fun r' _ => I r') r.
Proof.
  intros Hb Hl. revert r. induction Hl as [|a l Ha _ IH]; intros r Hr; [by apply wp_skip|].
  apply wp_bind. eapply wp_mono; [|by apply Hb]. intros r' [] Hr'. by apply IH.
Qed.

(** Step through the basic operations. *)
Ltac wp_step :=
  first
  [ apply wp_bind
  | apply wp_get; cbn beta
  | apply wp_update; cbn beta
  | apply wp_ret; cbn beta
  | apply wp_skip; cbn beta ].

(** ** What the replica keeps *)

(** [d] stands behind the votes: none is of a later term, and one of its own
    term is its vote. *)
Definition votes_fit (V : Votes) (d : Durable) : Prop :=
  forall term peer, V !! term = Some peer ->
    term <= d_term d /\ (term = d_term d -> d_voted_for d = Some peer).

Definition send_cast (config : Config) (V : Votes) (o : Outbound) : Prop :=
  match o_message o with
  | MVoteReply v =>
      vr_voter v = c_self config /\ u64 (vr_term v) /\
      (vr_granted v = true -> vr_term v <> 0 /\ V !! vr_term v = Some (o_to o))
  | _ => True
  end.

Lemma votes_fit_le V d d' : durable_le d d' -> votes_fit V d -> votes_fit V d'.
Proof.
  intros Hle Hf term peer Hv. destruct (Hf term peer Hv) as [H1 H2]. pose proof (le_term _ _ Hle).
  split; [lia|]. intros E. assert (term = d_term d) as Et by lia.
  rewrite (le_vote _ _ Hle); [by apply H2|lia|]. by rewrite (H2 Et).
Qed.

(** The vote of [d] itself can be added. *)
Definition cast_vote (V : Votes) (d : Durable) : Votes :=
  match d_voted_for d with Some peer => <[d_term d := peer]> V | None => V end.

Lemma cast_vote_fits V d : votes_fit V d -> V ⊆ cast_vote V d /\ votes_fit (cast_vote V d) d.
Proof.
  intros Hf. unfold cast_vote. destruct (d_voted_for d) as [peer|] eqn:Ev; [|by split].
  split.
  - destruct (V !! d_term d) as [q|] eqn:Eq; [|by apply insert_subseteq].
    destruct (Hf _ _ Eq) as [_ Hq]. specialize (Hq eq_refl). rewrite insert_id; [done|congruence].
  - intros term q. destruct (decide (term = d_term d)) as [->|Hne].
    + rewrite lookup_insert_eq. intros [= <-]. split; [lia|done].
    + rewrite lookup_insert_ne by done. apply Hf.
Qed.

Lemma send_cast_mono config V V' o : V ⊆ V' -> send_cast config V o -> send_cast config V' o.
Proof.
  intros Hle. unfold send_cast. destruct (o_message o) as [|v| | |]; try done.
  intros (H1 & H2 & H3). split_and!; try done. intros Hg. destruct (H3 Hg). split; [done|].
  by eapply lookup_weaken.
Qed.

Lemma justified_cast config V d o : durable_ok d -> vote_justified config d o ->
  send_cast config (cast_vote V d) o.
Proof.
  intros Hd. unfold vote_justified, send_cast. destruct (o_message o) as [|v| | |]; try done.
  intros (H1 & H2 & H3). split; [done|]. rewrite H2. split.
  - pose proof (ok_snapterm _ Hd). pose proof (ok_term _ Hd). unfold u64. lia.
  - intros Hg. destruct (H3 Hg) as [Hv Hz]. split; [done|]. unfold cast_vote. rewrite Hv.
    apply lookup_insert_eq.
Qed.

Definition raft_config (c : ReplicaConfig) : Config := mkConfig (rf_id c) (rf_peers c).

(** A stream repeats frames of its own, never a vote. *)
Definition streams_ok (c : CoreReplica) : Prop :=
  map_Forall (fun _ t => fr_type (tr_frame t) <> tRequestVoteResponse) (core_outgoing c).

Record core_ok (V : Votes) (c : CoreReplica) : Prop := {
  ck_host : host_ok (core_host c);
  ck_config : rh_config (core_host c) = raft_config (core_config c);
  ck_id : text_ok (rf_id (core_config c));
  ck_streams : streams_ok c;
  ck_votes : votes_fit V (core_durable c);
  ck_calls : Forall (call_cast V) (core_calls c);
}.

(** From [c] to [c']: votes are only added, and the durable state does not
    regress. *)
Record moved (V : Votes) (c : CoreReplica) (V' : Votes) (c' : CoreReplica) : Prop := {
  mv_votes : V ⊆ V';
  mv_ok : core_ok V' c';
  mv_config : core_config c' = core_config c;
  mv_le : durable_le (core_durable c) (core_durable c');
}.

Lemma moved_refl V c : core_ok V c -> moved V c V c.
Proof. intros H. by split. Qed.

Lemma moved_trans V1 c1 V2 c2 V3 c3 : moved V1 c1 V2 c2 -> moved V2 c2 V3 c3 -> moved V1 c1 V3 c3.
Proof. intros [A1 A2 A3 A4] [B1 B2 B3 B4]. split; [by etrans|done|congruence|by etrans]. Qed.

(** The same replica but for its own bookkeeping. *)
Record quiet (c c' : CoreReplica) : Prop := {
  qt_config : core_config c' = core_config c;
  qt_host : core_host c' = core_host c;
  qt_calls : core_calls c' = core_calls c;
  qt_streams : streams_ok c -> streams_ok c';
}.

(** The same host, and more calls, all of them in [V]. *)
Record spoke (V : Votes) (c c' : CoreReplica) : Prop := {
  sk_config : core_config c' = core_config c;
  sk_host : core_host c' = core_host c;
  sk_streams : streams_ok c -> streams_ok c';
  sk_calls : Forall (call_cast V) (core_calls c) -> Forall (call_cast V) (core_calls c');
}.

#[export] Instance spoke_preorder V : PreOrder (spoke V).
Proof.
  split; [by intros c; split|]. intros c1 c2 c3 [A1 A2 A3 A4] [B1 B2 B3 B4].
  split; [congruence|congruence|auto|auto].
Qed.

Lemma quiet_spoke V c c' : quiet c c' -> spoke V c c'.
Proof. intros [H1 H2 H3 H4]. split; [done|done|done|]. by rewrite H3. Qed.

Lemma spoke_durable V c c' : spoke V c c' -> core_durable c' = core_durable c.
Proof. intros [_ H _ _]. unfold core_durable, core_node. by rewrite H. Qed.

Lemma spoke_ok V c c' : core_ok V c -> spoke V c c' -> core_ok V c'.
Proof.
  intros [H1 H2 H3 H4 H5 H6] Hs. pose proof (spoke_durable _ _ _ Hs) as Hd. destruct Hs as [Q1 Q2 Q3 Q4].
  split; rewrite ?Q1, ?Q2, ?Hd; auto.
Qed.

Lemma spoke_moved V c c' : core_ok V c -> spoke V c c' -> moved V c V c'.
Proof.
  intros H Hs. split; [done|by eapply spoke_ok|apply (sk_config _ _ _ Hs)|by rewrite (spoke_durable _ _ _ Hs)].
Qed.

Lemma quiet_moved V c c' : core_ok V c -> quiet c c' -> moved V c V c'.
Proof. intros H Hq. by apply spoke_moved, quiet_spoke. Qed.

(** An update of the bookkeeping, after which [spoke] still holds. *)
Lemma wp_quiet f V c0 (Q : CoreRun -> unit -> Prop) r :
  (forall c, quiet c (f c)) -> spoke V c0 (cu_core r) ->
  (forall r', spoke V c0 (cu_core r') -> quiet (cu_core r) (cu_core r') -> Q r' tt) -> wp (update f) Q r.
Proof.
  intros Hq Hs HQ. apply wp_update. apply HQ; cbn [cu_core]; [|by apply Hq].
  etrans; [exact Hs|]. by apply quiet_spoke.
Qed.

Ltac quiet_update := intros ?; by split.

Definition speaks {A} (V : Votes) (m : M A) (c0 : CoreReplica) (r : CoreRun) : Prop :=
  wp m (fun r' _ => spoke V c0 (cu_core r')) r.

Lemma count_speaks f V c0 r : spoke V c0 (cu_core r) -> speaks V (count f) c0 r.
Proof.
  intros Hs. unfold speaks, count. do 2 wp_step. eapply wp_quiet; [|exact Hs|done]. quiet_update.
Qed.

Lemma update_speaks f V c0 r : (forall c, quiet c (f c)) -> spoke V c0 (cu_core r) -> speaks V (update f) c0 r.
Proof. intros Hq Hs. by eapply wp_quiet. Qed.

Lemma bind_speaks {A B} (m : M A) (k : A -> M B) V c0 r :
  speaks V m c0 r -> (forall a r', spoke V c0 (cu_core r') -> speaks V (k a) c0 r') -> speaks V (m ≫= k) c0 r.
Proof. intros Hm Hk. apply wp_bind. eapply wp_mono; [|exact Hm]. intros r' a Hs. by apply Hk. Qed.

Lemma fail_speaks e V c0 r : spoke V c0 (cu_core r) -> speaks V (fail_with e) c0 r.
Proof. apply update_speaks. quiet_update. Qed.

Lemma when_speaks b m V c0 r : spoke V c0 (cu_core r) -> speaks V m c0 r -> speaks V (whenM b m) c0 r.
Proof. intros Hs Hm. apply wp_when; intros _; [exact Hm|exact Hs]. Qed.

Lemma add_call_speaks V c0 c d call : spoke V c0 c -> call_cast V call ->
  speaks V (update (set_calls (core_calls c ++ [call]))) c0 (mkCoreRun c d).
Proof.
  intros Hs Hc. apply wp_update. cbn [cu_core]. etrans; [exact Hs|].
  split; [done|done|done|]. intros Hl. apply Forall_app_2; [done|]. by constructor.
Qed.

Lemma send_speaks peer frame V c0 r : spoke V c0 (cu_core r) ->
  call_cast V (Sent peer frame) -> speaks V (send peer frame) c0 r.
Proof.
  intros Hs Hc. unfold speaks, send. do 2 wp_step. destruct r as [c d]. cbn [cu_core] in *.
  destruct (core_stopped c); [by wp_step|]. destruct (_ <? _).
  - apply bind_speaks; [by apply count_speaks|]. intros _ r' Hr'. by apply fail_speaks.
  - apply when_speaks; [done|]. by apply add_call_speaks.
Qed.

Lemma draw_speaks V c0 r : spoke V c0 (cu_core r) -> speaks V draw_timeout c0 r.
Proof.
  intros Hs. unfold speaks, draw_timeout. do 2 wp_step. cbv zeta.
  apply bind_speaks; [apply update_speaks; [quiet_update|done]|]. intros _ r1 H1. by apply wp_ret.
Qed.

Lemma reply_cast config V o v payload :
  text_ok (c_self config) -> o_message o = MVoteReply v -> send_cast config V o ->
  encode_vote_response (mkProtoVoteResponse (vr_term v) (vr_voter v) (vr_granted v)) = Ok payload ->
  call_cast V (Sent (o_to o) (mkFrame tRequestVoteResponse (vr_request_id v) payload)).
Proof.
  intros Hid Eo. unfold send_cast. rewrite Eo. intros (Hv & Ht & Hg) E _ m. cbn [fr_payload].
  assert (text_ok (vr_voter v)) as Hok by (by rewrite Hv).
  rewrite (vote_response_decoded _ _ _ _ Ht Hok E). intros [= <-]. cbn.
  intros Hgr. destruct (Hg Hgr) as [Hz Hb]. by destruct (Z.eqb_spec (vr_term v) 0).
Qed.

Section Release.
Context (V : Votes) (c0 : CoreReplica).
Hypothesis Hok : core_ok V c0.

Let config : Config := raft_config (core_config c0).

Lemma emit_speaks o bytes r : spoke V c0 (cu_core r) -> send_cast config V o ->
  speaks V (emit o bytes) c0 r.
Proof.
  intros Hs Ho. unfold emit. apply bind_speaks.
  { apply when_speaks; [done|]. apply bind_speaks; [apply update_speaks; [quiet_update|done]|].
    intros _ r1 H1. by apply count_speaks. }
  intros _ r1 H1. destruct (wire_payload (o_message o) bytes) as [payload|e] eqn:E; [|by apply fail_speaks].
  apply send_speaks; [done|]. destruct (o_message o) as [| v | | |] eqn:Eo; try done.
  eapply (reply_cast config); [exact (ck_id _ _ Hok)|exact Eo|exact Ho|exact E].
Qed.

(** Storing a transfer whose frame is not a vote. *)
Lemma stream_quiet c peer t : fr_type (tr_frame t) <> tRequestVoteResponse ->
  quiet c (set_outgoing (<[peer := t]> (core_outgoing c)) c).
Proof. intros Ht. split; [done|done|done|]. intros H. by apply map_Forall_insert_2. Qed.

Lemma stream_speaks peer t r : spoke V c0 (cu_core r) -> fr_type (tr_frame t) <> tRequestVoteResponse ->
  speaks V (update (set_outgoing (<[peer := t]> (core_outgoing (cu_core r))))) c0 r.
Proof.
  intros Hs Ht. apply wp_update. cbn [cu_core]. etrans; [exact Hs|]. by apply quiet_spoke, stream_quiet.
Qed.

Lemma send_chunk_speaks peer offset r : spoke V c0 (cu_core r) -> is_Some (core_outgoing (cu_core r) !! peer) ->
  speaks V (send_chunk peer offset) c0 r.
Proof.
  intros Hs [t Ht]. unfold speaks, send_chunk. do 2 wp_step. apply wp_bind. eapply wp_option; [exact Ht|].
  assert (fr_type (tr_frame t) <> tRequestVoteResponse) as Hf.
  { apply (sk_streams _ _ _ Hs (ck_streams _ _ Hok) peer t Ht). }
  destruct (_ || _); [by apply fail_speaks|]. apply bind_speaks; [by apply stream_speaks|].
  intros _ r1 H1. destruct (encode_install_snapshot _) as [payload|e]; [|by apply fail_speaks].
  apply bind_speaks.
  { apply wp_update. cbn [cu_core]. etrans; [exact H1|]. apply quiet_spoke. split; [done|done|done|].
    intros _. by apply map_Forall_insert_2; [|apply (sk_streams _ _ _ Hs), Hok]. }
  intros _ r2 H2.
  apply bind_speaks; [apply update_speaks; [quiet_update|done]|]. intros _ r3 H3.
  apply bind_speaks; [by apply count_speaks|]. intros _ r4 H4. by apply send_speaks.
Qed.

Lemma reply_chunk_speaks peer correlation success next r : spoke V c0 (cu_core r) ->
  speaks V (reply_chunk peer correlation success next) c0 r.
Proof.
  intros Hs. unfold speaks, reply_chunk. do 2 wp_step.
  destruct (encode_snapshot_response _) as [payload|e]; [|by apply fail_speaks]. by apply send_speaks.
Qed.

Lemma release_snapshot_speaks pinned r : spoke V c0 (cu_core r) -> speaks V (release_snapshot pinned) c0 r.
Proof.
  intros Hs. unfold speaks, release_snapshot. do 2 wp_step.
  assert (speaks V (update (set_outgoing (<[sn_peer (ps_request pinned) := mkTransfer pinned default_frame 0 false]>
            (core_outgoing (cu_core r))));; send_chunk (sn_peer (ps_request pinned)) 0) c0 r) as Hstart.
  { apply wp_bind. apply wp_update. apply send_chunk_speaks; cbn [cu_core].
    - etrans; [exact Hs|]. by apply quiet_spoke, stream_quiet.
    - cbn. rewrite lookup_insert_eq. eauto. }
  destruct (core_outgoing (cu_core r) !! _) as [found|] eqn:E; [|exact Hstart].
  destruct (_ =? _); [|exact Hstart]. apply send_speaks; [done|]. intros Hf.
  by destruct (sk_streams _ _ _ Hs (ck_streams _ _ Hok) _ _ E).
Qed.

Lemma release_speaks output bytes r : spoke V c0 (cu_core r) ->
  Forall (send_cast config V) (he_send output) -> speaks V (release output bytes) c0 r.
Proof.
  intros Hs Ho. unfold release. apply bind_speaks.
  { eapply (wp_for_each _ _ (fun r => spoke V c0 (cu_core r))); [|exact Ho|exact Hs].
    intros o r1 H1 H2. by apply emit_speaks. }
  intros _ r1 H1. apply bind_speaks.
  { eapply (wp_for_each _ _ (fun r => spoke V c0 (cu_core r)) (fun _ => True)); [|by apply list.Forall_true|exact H1].
    intros p r2 _ H2. by apply release_snapshot_speaks. }
  intros _ r2 H2. unfold speaks. do 2 wp_step. apply when_speaks; [done|]. destruct r2. by apply add_call_speaks.
Qed.
End Release.

(** ** Methods that do not send *)

Definition running (c : CoreReplica) : Prop := n_halted (core_node c) = false.

Lemma current_store a d : current_raft a = Ok d -> is_Some (ad_store a).
Proof. unfold current_raft, uncertain. destruct (ad_store a); [eauto|]. by rewrite orb_true_r. Qed.

Lemma running_store V c : core_ok V c -> running c -> is_Some (inspection_store (rh_adapter (core_host c))).
Proof. intros Hok Hr. eapply current_store. apply (ho_live _ (ck_host _ _ Hok) Hr). Qed.

Section Quiet.
Context (V : Votes) (c0 : CoreReplica).
Hypothesis Hok : core_ok V c0.
Hypothesis Hrun : running c0.

Lemma get_store_speaks r : spoke V c0 (cu_core r) -> speaks V get_store c0 r.
Proof.
  intros Hs. unfold speaks, get_store. do 2 wp_step.
  destruct (running_store V c0 Hok Hrun) as [store E]. eapply wp_option; [by rewrite (sk_host _ _ _ Hs)|done].
Qed.

Lemma synchronize_speaks before r : spoke V c0 (cu_core r) -> speaks V (synchronize_log before) c0 r.
Proof.
  intros Hs. unfold speaks, synchronize_log. do 2 wp_step. apply bind_speaks; [by apply get_store_speaks|].
  intros store r0 H0. apply bind_speaks.
  { destruct (_ || _ || _); [|apply update_speaks; [quiet_update|done]].
    apply bind_speaks; [apply update_speaks; [quiet_update|done]|]. intros _ r1 H1.
    apply update_speaks; [quiet_update|done]. }
  intros _ r1 H1. apply bind_speaks; [apply when_speaks; [done|]; apply update_speaks; [quiet_update|done]|].
  intros _ r2 H2. apply when_speaks; [done|]. destruct (retain_state_history_from _ _) as [s e].
  apply bind_speaks; [apply update_speaks; [quiet_update|done]|]. intros _ r3 H3.
  apply bind_speaks; [apply when_speaks; [done|]; apply update_speaks; [quiet_update|done]|].
  intros _ r4 H4. apply when_speaks; [done|]; apply update_speaks; [quiet_update|done].
Qed.

Lemma ret_speaks {A} (a : A) r : spoke V c0 (cu_core r) -> speaks V (mret a) c0 r.
Proof. intros Hs. by apply wp_ret. Qed.

Lemma ensure_speaks r : spoke V c0 (cu_core r) -> speaks V ensure_speculative c0 r.
Proof.
  intros Hs. unfold speaks, ensure_speculative. do 2 wp_step.
  destruct (negb _); [by apply ret_speaks|]. apply bind_speaks; [by apply get_store_speaks|].
  intros store r0 H0. destruct (speculate store) as [s|e]; [|by apply ret_speaks].
  apply bind_speaks; [apply update_speaks; [quiet_update|done]|]. intros _ r1 H1.
  apply bind_speaks; [apply update_speaks; [quiet_update|done]|]. intros _ r2 H2. by apply ret_speaks.
Qed.

Lemma parse_term_value t : t <> 0 -> parse_term t = Ok t.
Proof. intros Ht. unfold parse_term. by destruct (Z.eqb_spec t 0). Qed.

Lemma term_speaks {B} (k : Z -> M B) t r : spoke V c0 (cu_core r) -> t <> 0 ->
  speaks V (k t) c0 r -> speaks V (of_result (parse_term t) ≫= k) c0 r.
Proof. intros Hs Ht Hk. rewrite parse_term_value by done. apply wp_bind. by apply wp_ret. Qed.

Lemma noop_speaks r : spoke V c0 (cu_core r) -> d_term (core_durable c0) <> 0 -> speaks V noop c0 r.
Proof.
  intros Hs Ht. unfold noop. apply bind_speaks; [by apply ensure_speaks|]. intros [x|e] r1 H1; [|by apply ret_speaks].
  unfold speaks. do 2 wp_step. destruct (_ <=? _); [by apply ret_speaks|].
  apply term_speaks; [done|by rewrite (spoke_durable _ _ _ H1)|]. by apply ret_speaks.
Qed.
End Quiet.

(** A leader has a term. *)
Lemma leader_term V c : core_ok V c -> core_role c = Leader -> d_term (core_durable c) <> 0.
Proof.
  intros Hok Hr. destruct (ck_host _ _ Hok) as [Hn Hi _ _]. unfold core_role, core_node in Hr.
  destruct (role_term _ _ Hn Hi); [by rewrite Hr|]. unfold core_durable, core_node. lia.
Qed.

(** ** Methods that drive the host *)

(** The replica moved on from [c], and the effects to release are cast. *)
Definition drove (V : Votes) (c : CoreReplica) (r : CoreRun) (x : result Error HostEffects) : Prop :=
  exists V', moved V c V' (cu_core r) /\
  match x with
  | Ok output => running (cu_core r) /\
      Forall (send_cast (raft_config (core_config (cu_core r))) V') (he_send output)
  | Err _ => True
  end.

Section Drive.
Context (sys : System).
Hypothesis Hfuel : kMaximumEntries < Z.of_nat (sys_fuel sys).

(** [m] returns, and takes the replica from [cu_core r] as [moved] says. *)
Definition moves {A} (V : Votes) (m : M A) (r : CoreRun) : Prop :=
  wp m (fun r' _ => exists V', moved V (cu_core r) V' (cu_core r')) r.

Lemma dispatch_drives V i installing r : core_ok V (cu_core r) -> input_typed i ->
  wp (dispatch_host sys i installing) (drove V (cu_core r)) r.
Proof.
  intros Hok Hi. destruct (dispatch_spec (sys_fuel sys) (core_host (cu_core r)) i installing
    (sys_os sys (cu_dispatches r)) (ck_host _ _ Hok) Hi Hfuel) as (h & x & E & [D1 D2 D3 D4]).
  eexists _, x. unfold dispatch_host. rewrite E. split; [reflexivity|]. unfold drove. cbn [cu_core].
  set (d := core_durable (set_host h (cu_core r))).
  assert (votes_fit V d) as Hfit by (eapply votes_fit_le; [exact D3|apply (ck_votes _ _ Hok)]).
  destruct (cast_vote_fits V d Hfit) as [Hsub Hfit']. exists (cast_vote V d). split.
  - destruct Hok as [H1 H2 H3 H4 H5 H6]. split; [done| |done|done].
    split; cbn; [done|congruence|done|done|done|].
    eapply list.Forall_impl; [exact H6|]. intros call. by apply call_cast_mono.
  - destruct x as [out|e]; [|done]. destruct D4 as (Hh & _ & Hv). split; [done|].
    eapply list.Forall_impl; [exact Hv|]. intros o Ho. apply justified_cast.
    + apply (no_durable _ _ (ho_node _ D1)).
    + cbn. by rewrite <- (ck_config _ _ Hok).
Qed.

(** After a quiet part, continue from the state it left. *)
Lemma then_drives {A} (m : M A) (k : A -> M (result Error HostEffects)) V0 c V r :
  moved V0 c V (cu_core r) -> running (cu_core r) -> speaks V m (cu_core r) r ->
  (forall a r', moved V0 c V (cu_core r') -> running (cu_core r') ->
     core_durable (cu_core r') = core_durable (cu_core r) -> core_role (cu_core r') = core_role (cu_core r) ->
     core_config (cu_core r') = core_config (cu_core r) -> wp (k a) (drove V0 c) r') ->
  wp (m ≫= k) (drove V0 c) r.
Proof.
  intros Hm Hr Hs Hk. apply wp_bind. eapply wp_mono; [|exact Hs]. intros r' a Hsp. apply Hk.
  - eapply moved_trans; [exact Hm|]. by apply spoke_moved; [apply Hm|].
  - unfold running, core_node in *. by rewrite (sk_host _ _ _ Hsp).
  - exact (spoke_durable _ _ _ Hsp).
  - unfold core_role, core_node. by rewrite (sk_host _ _ _ Hsp).
  - apply (sk_config _ _ _ Hsp).
Qed.

Lemma fail_drives e V c V' r : moved V c V' (cu_core r) ->
  wp (fail_with e;; mret (Err e)) (drove V c) r.
Proof.
  intros Hm. apply wp_bind, wp_update, wp_ret. exists V'. cbn [cu_core]. split; [|done].
  eapply moved_trans; [exact Hm|]. apply quiet_moved; [apply Hm|]. by split.
Qed.

Lemma output_drives V c V' r output : moved V c V' (cu_core r) -> running (cu_core r) ->
  Forall (send_cast (raft_config (core_config (cu_core r))) V') (he_send output) ->
  wp (mret (Ok output)) (drove V c) r.
Proof. intros Hm Hr Ho. apply wp_ret. by exists V'. Qed.

Ltac quietly := apply update_speaks; [quiet_update|done].

Lemma barrier_drives before output V0 c V r : moved V0 c V (cu_core r) -> running (cu_core r) ->
  core_role (cu_core r) = Leader ->
  Forall (send_cast (raft_config (core_config (cu_core r))) V) (he_send output) ->
  wp (append_barrier sys before output) (drove V0 c) r.
Proof.
  intros Hm Hr Hl Ho. unfold append_barrier. do 2 wp_step.
  eapply then_drives; [done|done|quietly|].
  intros _ r1 M1 R1 D1 L1 C1. eapply then_drives; [done|done|quietly|].
  intros _ r2 M2 R2 D2 L2 C2. eapply then_drives; [done|done| |].
  { apply noop_speaks; [apply M2|done|done|]. eapply leader_term; [apply M2|congruence]. }
  intros event r3 M3 R3 D3 L3 C3. destruct event as [event|e]; [|by eapply fail_drives].
  destruct (encode_domain_event event) as [encoded|e]; [|by eapply fail_drives].
  apply wp_bind. eapply wp_mono; [|apply (dispatch_drives V); [apply M3|done]].
  intros r4 x (V4 & M4 & X4). pose proof (moved_trans _ _ _ _ _ _ M3 M4) as M4'.
  destruct x as [appended|e]; [|by eapply fail_drives]. destruct X4 as [R4 S4].
  eapply then_drives; [done|done|by apply get_store_speaks; [apply M4'| |]|].
  intros store r5 M5 R5 D5 L5 C5. destruct (_ || _); [by eapply fail_drives|].
  eapply then_drives; [done|done|by apply synchronize_speaks; [apply M5| |]|].
  intros _ r6 M6 R6 D6 L6 C6. eapply then_drives; [done|done|quietly|].
  intros _ r7 M7 R7 D7 L7 C7. eapply output_drives; [done|done|]. cbn [append_effects he_send].
  rewrite C7, C6, C5. apply Forall_app_2; [|done].
  eapply list.Forall_impl; [exact Ho|]. intros o So. rewrite (mv_config _ _ _ _ M4), C3, C2, C1.
  eapply send_cast_mono; [apply (mv_votes _ _ _ _ M4)|done].
Qed.

Lemma drive_drives V i installing r : core_ok V (cu_core r) -> input_typed i ->
  wp (drive sys i installing) (drove V (cu_core r)) r.
Proof.
  intros Hok Hi. unfold drive. do 2 wp_step. apply wp_bind.
  eapply wp_mono; [|by apply dispatch_drives]. intros r1 x (V1 & M1 & X1).
  destruct x as [output|e]; [|by eapply fail_drives]. destruct X1 as [R1 S1]. do 2 wp_step.
  eapply then_drives; [done|done|by apply when_speaks; [|apply count_speaks]|].
  intros _ r2 M2 R2 D2 L2 C2. eapply then_drives; [done|done| |].
  { unfold speaks, forget_leader. do 2 wp_step. apply when_speaks; [done|].
    apply bind_speaks; [apply update_speaks; [intros c; split; [done|done|done|]; intros _; apply map_Forall_empty|done]|].
    intros _ r3 H3. apply bind_speaks; [quietly|]. intros _ r4 H4. quietly. }
  intros _ r3 M3 R3 D3 L3 C3.
  eapply then_drives; [done|done|by apply synchronize_speaks; [apply M3| |]|].
  intros _ r4 M4 R4 D4 L4 C4.
  assert (Forall (send_cast (raft_config (core_config (cu_core r4))) V1) (he_send output)) as S4.
  { by rewrite C4, C3, C2. }
  destruct (bool_decide (core_role (cu_core r1) = Leader) && _) eqn:El; [|by eapply output_drives].
  eapply barrier_drives; try done. bool_props. congruence.
Qed.

(** ** The handlers *)

Lemma bind_moves {A B} V (m : M A) (k : A -> M B) r :
  moves V m r -> (forall a r' V', moved V (cu_core r) V' (cu_core r') -> moves V' (k a) r') ->
  moves V (m ≫= k) r.
Proof.
  intros Hm Hk. apply wp_bind. eapply wp_mono; [|exact Hm]. intros r1 a (V1 & M1).
  eapply wp_mono; [|by apply Hk]. intros r2 b (V2 & M2). exists V2. exact (moved_trans _ _ _ _ _ _ M1 M2).
Qed.

Lemma speaks_moves {A} V (m : M A) r : core_ok V (cu_core r) -> speaks V m (cu_core r) r -> moves V m r.
Proof. intros Hok. apply wp_mono. intros r' _ Hs. exists V. by apply spoke_moved. Qed.

Lemma ret_moves {A} V (a : A) r : core_ok V (cu_core r) -> moves V (mret a) r.
Proof. intros Hok. apply wp_ret. exists V. by apply moved_refl. Qed.

Lemma skip_moves V r : core_ok V (cu_core r) -> moves V skip r.
Proof. apply ret_moves. Qed.

Lemma when_moves V b m r : core_ok V (cu_core r) -> moves V m r -> moves V (whenM b m) r.
Proof. intros Hok Hm. destruct b; [done|by apply skip_moves]. Qed.

(** A part that does not drive the host. *)
Lemma speak_then {A B} V (m : M A) (k : A -> M B) r :
  core_ok V (cu_core r) -> speaks V m (cu_core r) r ->
  (forall a r', spoke V (cu_core r) (cu_core r') -> core_ok V (cu_core r') -> moves V (k a) r') ->
  moves V (m ≫= k) r.
Proof.
  intros Hok Hm Hk. apply wp_bind. eapply wp_mono; [|exact Hm]. intros r1 a S1.
  pose proof (spoke_moved _ _ _ Hok S1) as M1. eapply wp_mono; [|apply Hk; [done|apply M1]].
  intros r2 b (V2 & M2). exists V2. exact (moved_trans _ _ _ _ _ _ M1 M2).
Qed.

Lemma spoke_running V c c' : spoke V c c' -> running c -> running c'.
Proof. intros Hs. unfold running, core_node. by rewrite (sk_host _ _ _ Hs). Qed.

Lemma fail_moves {A} V e (x : A) r : core_ok V (cu_core r) -> moves V (fail_with e;; mret x) r.
Proof. intros Hok. apply speak_then; [done|quietly|]. intros _ r1 S1 H1. by apply ret_moves. Qed.

(** The effects of a drive, ready to be released. *)
Definition releasable (V : Votes) (r : CoreRun) (output : HostEffects) : Prop :=
  core_ok V (cu_core r) /\ running (cu_core r) /\
  Forall (send_cast (raft_config (core_config (cu_core r))) V) (he_send output).

Lemma releasable_spoke V r r' output : spoke V (cu_core r) (cu_core r') -> releasable V r output ->
  releasable V r' output.
Proof.
  intros Hs (H1 & H2 & H3). split; [by eapply spoke_ok|]. split; [by eapply spoke_running|].
  by rewrite (sk_config _ _ _ Hs).
Qed.

Lemma release_moves V output bytes r : releasable V r output -> moves V (release output bytes) r.
Proof. intros (Hok & _ & Ho). apply speaks_moves; [done|]. by apply release_speaks. Qed.

Lemma drive_then {B} V i installing (k : result Error HostEffects -> M B) r :
  core_ok V (cu_core r) -> input_typed i ->
  (forall e r' V', core_ok V' (cu_core r') -> moves V' (k (Err e)) r') ->
  (forall output r' V', core_config (cu_core r') = core_config (cu_core r) -> releasable V' r' output ->
     moves V' (k (Ok output)) r') ->
  moves V (drive sys i installing ≫= k) r.
Proof.
  intros Hok Hi He Hk. apply wp_bind. eapply wp_mono; [|by apply drive_drives]. intros r1 x (V1 & M1 & X1).
  assert (moves V1 (k x) r1) as Hx.
  { destruct x as [output|e]; [|apply He, M1]. destruct X1 as [R1 S1].
    apply Hk; [apply (mv_config _ _ _ _ M1)|]. split; [apply M1|done]. }
  eapply wp_mono; [|exact Hx]. intros r2 b (V2 & M2). exists V2. exact (moved_trans _ _ _ _ _ _ M1 M2).
Qed.

Lemma drive_release V i installing bytes r : core_ok V (cu_core r) -> input_typed i ->
  moves V (output ← drive sys i installing; release_if output bytes) r.
Proof.
  intros Hok Hi. apply drive_then; [done|done|intros e r' V' H'; by apply skip_moves|].
  intros output r' V' _ Ho. by apply release_moves.
Qed.

Lemma pump_moves V output r : releasable V r output -> moves V (pump sys output) r.
Proof.
  intros (Hok & Hr & Ho). apply wp_bind. eapply wp_mono; [|by apply drive_drives].
  intros r1 x (V1 & M1 & X1). destruct x as [pumped|e]; [|by apply wp_skip; exists V1].
  destruct X1 as [R1 S1]. eapply wp_mono; [|apply (release_moves V1)].
  - intros r2 b (V2 & M2). exists V2. exact (moved_trans _ _ _ _ _ _ M1 M2).
  - split; [apply M1|]. split; [done|]. cbn [append_effects he_send]. apply Forall_app_2; [|done].
    eapply list.Forall_impl; [exact Ho|]. intros o So. rewrite (mv_config _ _ _ _ M1).
    eapply send_cast_mono; [apply (mv_votes _ _ _ _ M1)|done].
Qed.

Lemma heartbeat_moves V r : core_ok V (cu_core r) -> moves V (heartbeat sys) r.
Proof.
  intros Hok. unfold moves, heartbeat. do 2 wp_step. destruct (core_stopped _); [by apply skip_moves|].
  destruct (is_leader _); [by apply drive_release|].
  apply speak_then; [done|quietly|]. intros _ r1 S1 H1. destruct (_ <=? _); [|by apply drive_release].
  apply speak_then; [done|quietly|]. intros _ r2 S2 H2.
  apply speak_then; [done|by apply draw_speaks|]. intros timeout r3 S3 H3.
  apply speak_then; [done|quietly|]. intros _ r4 S4 H4.
  apply speak_then; [done|by apply count_speaks|]. intros _ r5 S5 H5. by apply drive_release.
Qed.

Lemma append_proposal_moves V proposed encoded r : core_ok V (cu_core r) ->
  moves V (append_proposal sys proposed encoded) r.
Proof.
  intros Hok. unfold append_proposal. apply drive_then; [done|done|intros e r1 V1 H1; by apply ret_moves|].
  intros output r1 V1 _ Ho. pose proof Ho as (H1 & R1 & _).
  destruct (he_capacity_exhausted output); [by apply ret_moves|].
  apply speak_then; [done|by apply get_store_speaks|]. intros store r2 S2 H2.
  destruct (negb _); [by apply fail_moves|]. unfold moves. do 2 wp_step.
  destruct (apply _ _ _) as [state|e]; [|by apply fail_moves].
  apply speak_then; [done|quietly|]. intros _ r3 S3 H3.
  assert (releasable V1 r3 output) as Ho3 by (eapply releasable_spoke; [|exact Ho]; by etrans).
  apply speak_then; [done|apply release_speaks; [done|done|apply Ho3]|].
  intros _ r4 S4 H4. unfold moves. do 2 wp_step. apply speak_then; [done| |intros st r5 S5 H5; by apply ret_moves].
  apply get_store_speaks; [done| |done]. eapply spoke_running; [exact S4|apply Ho3].
Qed.

Lemma stopped_running c : core_stopped c = false -> running c.
Proof. unfold core_stopped, running. by destruct (n_halted (core_node c)). Qed.

Lemma is_leader_role c : is_leader c = true -> core_role c = Leader.
Proof. unfold is_leader. intros H. by bool_props. Qed.

Lemma enqueue_moves V command r : core_ok V (cu_core r) -> moves V (enqueue sys command) r.
Proof.
  intros Hok. unfold moves, enqueue. do 2 wp_step. destruct (core_stopped (cu_core r)) eqn:Hs; [by apply ret_moves|].
  apply stopped_running in Hs. destruct (is_leader (cu_core r)) eqn:Hl; [|by apply ret_moves].
  apply is_leader_role in Hl. cbn [negb].
  apply speak_then; [done|by apply get_store_speaks|]. intros store r1 S1 H1.
  destruct (_ || _); [by apply ret_moves|].
  destruct (core_command_index _ !! _) as [index|]; [by apply ret_moves|].
  destruct (_ <=? _); [by apply ret_moves|].
  apply speak_then; [done|apply ensure_speaks; [done|by eapply spoke_running|done]|]. intros ready r2 S2 H2.
  destruct ready as [x|e]; [|by apply ret_moves]. unfold moves. do 2 wp_step.
  destruct (propose _ _) as [proposed|e]; [|by apply ret_moves].
  apply speak_then; [done| |].
  { rewrite parse_term_value; [by apply ret_speaks|]. eapply leader_term; [done|].
    unfold core_role, core_node in *. by rewrite (sk_host _ _ _ S2), (sk_host _ _ _ S1). }
  intros term r3 S3 H3. destruct (sized_event _ _ _) as [encoded|e]; [|by apply ret_moves].
  by apply append_proposal_moves.
Qed.

Lemma reply_moves V peer correlation success next r : core_ok V (cu_core r) ->
  moves V (reply_chunk peer correlation success next) r.
Proof. intros Hok. apply speaks_moves; [done|]. by apply reply_chunk_speaks. Qed.

Lemma restart_moves V m correlation r : core_ok V (cu_core r) -> moves V (restart_stream m correlation) r.
Proof. intros Hok. apply speak_then; [done|quietly|]. intros _ r1 S1 H1. by apply reply_moves. Qed.

Section Snapshot.
Context (m : ProtoInstallSnapshot) (correlation : Z).
Hypothesis Hm : message_in_range (OfInstallSnapshot m).

Let request (ready : bool) : SnapshotRequest :=
  mkSnapshotRequest (pi_term m) (pi_leader_id m) (pi_last_included_index m) (pi_last_included_term m)
    correlation ready.

Lemma request_typed ready : input_typed (RecvSnapshot (request ready)).
Proof. destruct Hm as (? & ? & ? & ?). by split_and!. Qed.

Lemma finish_moves V bytes r : core_ok V (cu_core r) ->
  moves V (finish_stream sys m correlation (request true) bytes) r.
Proof.
  intros Hok. unfold finish_stream. apply speak_then; [done|quietly|]. intros _ r1 S1 H1.
  destruct (negb _); [by apply reply_moves|]. apply drive_release; [done|apply request_typed].
Qed.

Lemma assemble_moves V r : core_ok V (cu_core r) -> moves V (assemble sys m correlation (request true)) r.
Proof.
  intros Hok. unfold moves, assemble. do 2 wp_step.
  destruct (absorb _ _) as [|i|i|bytes]; [by apply restart_moves|..|by apply finish_moves];
    (apply speak_then; [done|quietly|]; intros _ r1 S1 H1; by apply reply_moves).
Qed.

Lemma installed_moves V installed r : core_ok V (cu_core r) ->
  moves V (already_installed sys m correlation (request true) installed) r.
Proof.
  intros Hok. unfold already_installed. cbv zeta. destruct (match installed with Some _ => _ | None => _ end).
  - by apply reply_moves.
  - apply drive_release; [done|apply request_typed].
Qed.

Lemma on_snapshot_moves V r : core_ok V (cu_core r) -> running (cu_core r) ->
  moves V (on_snapshot sys m correlation) r.
Proof.
  intros Hok Hr. unfold on_snapshot. destruct (chunk_refused m); [by apply skip_moves|].
  unfold moves. do 2 wp_step. apply speak_then; [done|by apply get_store_speaks|]. intros store r1 S1 H1. cbv zeta.
  destruct (_ && _); [by apply skip_moves|].
  apply drive_then; [done|apply (request_typed false)|intros e r2 V2 H2; by apply skip_moves|].
  intros observed r2 V2 _ Ho. pose proof Ho as (H2 & R2 & B2).
  apply speak_then; [done|by apply release_speaks|]. intros _ r3 S3 H3.
  unfold moves. do 2 wp_step. destruct (_ || _); [by apply skip_moves|].
  apply speak_then; [done|quietly|]. intros _ r4 S4 H4. apply speak_then; [done|quietly|]. intros _ r5 S5 H5.
  apply speak_then; [done| |].
  { apply get_store_speaks; [done| |done]. eapply spoke_running; [exact S5|]. eapply spoke_running; [exact S4|].
    by eapply spoke_running. }
  intros store' r6 S6 H6. destruct (_ <=? _); [by apply installed_moves|by apply assemble_moves].
Qed.
End Snapshot.

Lemma on_snapshot_reply_moves V m correlation r : core_ok V (cu_core r) -> u64 (psr_term m) ->
  moves V (on_snapshot_reply sys m correlation) r.
Proof.
  intros Hok Ht. unfold moves, on_snapshot_reply. do 2 wp_step.
  destruct (_ <? _); [by apply drive_release|].
  destruct (core_outgoing _ !! _) as [transfer|] eqn:Eo; [|by apply skip_moves].
  destruct (_ || _); [by apply skip_moves|].
  destruct (psr_success m); cbn [negb]; [|apply speaks_moves; [done|by apply send_chunk_speaks]].
  destruct (negb _); [by apply skip_moves|].
  destruct (tr_final transfer); cbn [negb]; [|apply speaks_moves; [done|by apply send_chunk_speaks]].
  apply speak_then; [done| |].
  { apply wp_update. apply quiet_spoke. split; [done|done|done|]. intros H. by apply map_Forall_delete. }
  intros _ r1 S1 H1. apply drive_then; [done|done|intros e r2 V2 H2; by apply skip_moves|].
  intros output r2 V2 _ Ho. pose proof Ho as (H2 & R2 & _). unfold moves. do 2 wp_step.
  apply speak_then; [done|by apply get_store_speaks|]. intros store r3 S3 H3.
  apply (releasable_spoke _ _ _ _ S3) in Ho. destruct (_ && _); [by apply pump_moves|by apply release_moves].
Qed.

(** Every frame becomes an input with values of its types. *)
Lemma frame_input_typed c progress frame peer i leader : bytes_ok (fr_payload frame) ->
  frame_input c progress frame peer = Some (i, leader) -> input_typed i.
Proof.
  intros Hb. unfold frame_input.
  destruct (_ =? tRequestVote).
  { destruct (decode_request_vote _) as [m|] eqn:E; [|done]. destruct (negb _); [done|]. intros [= <- <-].
    by apply (decoded_by OfRequestVote) in E; [|apply request_vote_keeps|..]. }
  destruct (_ =? tRequestVoteResponse).
  { destruct (decode_vote_response _) as [m|] eqn:E; [|done]. destruct (negb _); [done|]. intros [= <- <-].
    by apply (decoded_by OfVoteResponse) in E; [|apply vote_response_keeps|..]. }
  destruct (_ =? tAppendEntries).
  { destruct (decode_append_entries _) as [m|] eqn:E; [|done]. destruct (negb _); [done|].
    unfold append_input. destruct (_ || _); [done|].
    destruct (append_events _ _ _ _) as [entries|]; [|done]. cbn. intros [= <- <-].
    by apply (decoded_by OfAppendEntries) in E; [|apply append_entries_keeps|..]. }
  destruct (_ =? tAppendEntriesResponse); [|done].
  destruct (decode_append_response _) as [m|] eqn:E; [|done]. destruct (negb _); [done|].
  destruct (unexpected_reply _ _ _ _); [done|]. intros [= <- <-].
  apply (decoded_by OfAppendResponse) in E as (? & ? & ?); [by split_and!|apply append_response_keeps|done..].
Qed.

Lemma peer_progress V c peer : core_ok V c -> known_peer c peer = true ->
  is_Some (v_peers (n_volatile (core_node c)) !! peer).
Proof.
  intros Hok Hp. apply elem_of_dom. unfold core_node.
  rewrite (no_peers _ _ (ho_node _ (ck_host _ _ Hok))), (ck_config _ _ Hok).
  unfold known_peer in Hp. bool_props. by apply elem_of_list_to_set.
Qed.

Lemma after_input_moves V frame peer leader before commit output r :
  known_peer (cu_core r) peer = true -> releasable V r output ->
  moves V (after_input sys frame peer leader before commit output) r.
Proof.
  intros Hp Ho. pose proof Ho as (Hok & Hr & _). unfold moves, after_input. do 2 wp_step.
  apply speak_then; [done| |].
  { apply when_speaks; [done|]. apply bind_speaks; [quietly|]. intros _ r1 H1. quietly. }
  intros _ r1 S1 H1. apply speak_then; [done|apply when_speaks; [done|quietly]|].
  intros _ r2 S2 H2. assert (spoke V (cu_core r) (cu_core r2)) as S02 by (by etrans).
  apply (releasable_spoke _ _ _ _ S02) in Ho. pose proof Ho as (_ & R2 & _).
  unfold moves. do 2 wp_step. destruct (_ && _); [|by apply release_moves].
  destruct (peer_progress V (cu_core r2) peer H2) as [progress Epp].
  { unfold known_peer in *. by rewrite (sk_config _ _ _ S02). }
  apply wp_bind. eapply wp_option; [exact Epp|].
  apply speak_then; [done|by apply get_store_speaks|]. intros store r3 S3 H3.
  apply (releasable_spoke _ _ _ _ S3) in Ho. destruct (_ || _); [by apply pump_moves|by apply release_moves].
Qed.

Lemma handle_moves V frame peer r : core_ok V (cu_core r) -> bytes_ok (fr_payload frame) ->
  moves V (handle sys frame peer) r.
Proof.
  intros Hok Hb. unfold moves, handle. do 2 wp_step.
  destruct (core_stopped (cu_core r)) eqn:Hs; [by apply skip_moves|]. apply stopped_running in Hs. cbn [orb].
  destruct (known_peer (cu_core r) peer) eqn:Hp; [|by apply skip_moves]. cbn [negb].
  destruct (peer_progress V (cu_core r) peer Hok Hp) as [before Ebp]. apply wp_bind. eapply wp_option; [exact Ebp|].
  destruct (_ =? tInstallSnapshot).
  { destruct (decode_install_snapshot _) as [m|] eqn:E; [|by apply skip_moves].
    apply when_moves; [done|]. apply on_snapshot_moves; [|done|done].
    by apply (decoded_by OfInstallSnapshot) in E; [|apply install_snapshot_keeps|..]. }
  destruct (_ =? tInstallSnapshotResponse).
  { destruct (decode_snapshot_response _) as [m|] eqn:E; [|by apply skip_moves].
    apply when_moves; [done|]. apply on_snapshot_reply_moves; [done|].
    by apply (decoded_by OfSnapshotResponse) in E as [? _]; [|apply snapshot_response_keeps|..]. }
  destruct (frame_input _ _ _ _) as [[input leader]|] eqn:E; [|by apply skip_moves].
  apply drive_then; [done|by eapply frame_input_typed|intros e r1 V1 H1; by apply skip_moves|].
  intros output r1 V1 C1 Ho. apply after_input_moves; [|done]. unfold known_peer in *. by rewrite C1.
Qed.
End Drive.

(** ** The life of a replica *)

(** What the owner of a replica can do: install the callbacks, tick, pass on a
    frame from a peer, and submit a command. *)
Inductive CoreInput :=
| Attach (sender hook : bool)
| Tick
| Receive (frame : Frame) (peer : string)
| Submit (command : Command).

Definition core_method (sys : System) (i : CoreInput) : M unit :=
  match i with
  | Attach sender hook => update (set_sender sender);; update (set_commit_hook hook)
  | Tick => heartbeat sys
  | Receive frame peer => handle sys frame peer
  | Submit command => enqueue sys command;; skip
  end.

Fixpoint core_life (c : CoreReplica) (turns : list (CoreInput * System)) : option CoreReplica :=
  match turns with
  | [] => Some c
  | (i, sys) :: rest =>
      match core_method sys i (mkCoreRun c 0) with
      | Some (r, _) => core_life (cu_core r) rest
      | None => None
      end
  end.

(** Frames are bytes, and the fuel exceeds the entries of a log. *)
Definition core_turn_ok (t : CoreInput * System) : Prop :=
  kMaximumEntries < Z.of_nat (sys_fuel (snd t)) /\
  match fst t with Receive frame _ => bytes_ok (fr_payload frame) | _ => True end.

Lemma method_moves V sys i r : core_turn_ok (i, sys) -> core_ok V (cu_core r) -> moves V (core_method sys i) r.
Proof.
  intros [Hf Hi] Hok. cbn in Hf, Hi. destruct i as [sender hook| |frame peer|command]; cbn [core_method].
  - apply speaks_moves; [done|]. apply bind_speaks; [apply update_speaks; [quiet_update|done]|].
    intros _ r1 S1. apply update_speaks; [quiet_update|done].
  - by apply heartbeat_moves.
  - by apply handle_moves.
  - apply bind_moves; [by apply enqueue_moves|]. intros x r1 V1 M1. apply skip_moves, M1.
Qed.

Lemma life_moves turns : forall V c, core_ok V c -> Forall core_turn_ok turns ->
  exists V' c', core_life c turns = Some c' /\ moved V c V' c'.
Proof.
  induction turns as [|[i sys] turns IH]; intros V c Hok Hall; cbn [core_life].
  - exists V, c. split; [done|by apply moved_refl].
  - apply list.Forall_cons in Hall as [Hi Hall].
    destruct (method_moves V sys i (mkCoreRun c 0) Hi Hok) as (r1 & x & E & V1 & M1). rewrite E.
    destruct (IH V1 (cu_core r1) (mv_ok _ _ _ _ M1) Hall) as (V2 & c2 & E2 & M2). exists V2, c2. split; [done|].
    exact (moved_trans _ _ _ _ _ _ M1 M2).
Qed.

(** Methods that leave the host alone, whether or not they return. *)
Definition keeps_host {A} (m : M A) : Prop :=
  forall r r' a, m r = Some (r', a) -> core_host (cu_core r') = core_host (cu_core r).

Lemma bind_keeps_host {A B} (m : M A) (k : A -> M B) :
  keeps_host m -> (forall a, keeps_host (k a)) -> keeps_host (m ≫= k).
Proof.
  intros Hm Hk r r' b. unfold mbind, M_bind. destruct (m r) as [[r1 a]|] eqn:E; [|done].
  intros E2. by rewrite (Hk _ _ _ _ E2), (Hm _ _ _ E).
Qed.

Lemma ret_keeps_host {A} (a : A) : keeps_host (mret a).
Proof. by intros r r' b [= <- <-]. Qed.

Lemma get_keeps_host : keeps_host get.
Proof. by intros r r' b [= <- <-]. Qed.

Lemma update_keeps_host f : (forall c, core_host (f c) = core_host c) -> keeps_host (update f).
Proof. intros Hf r r' b [= <- <-]. apply Hf. Qed.

Lemma option_keeps_host {A} (o : option A) : keeps_host (of_option o).
Proof. destruct o; [apply ret_keeps_host|done]. Qed.

Ltac host_kept :=
  repeat first
  [ progress cbv zeta
  | apply bind_keeps_host; [|intros ?]
  | apply get_keeps_host
  | apply ret_keeps_host
  | apply option_keeps_host
  | apply update_keeps_host; intros ?; reflexivity
  | match goal with |- keeps_host (if ?b then _ else _) => destruct b end
  | match goal with |- keeps_host (match ?b with _ => _ end) => destruct b end
  | progress unfold draw_timeout, synchronize_log, get_store, whenM, skip ].

Lemma constructor_keeps_host config : keeps_host (construct config;; ensure_speculative).
Proof. unfold construct, ensure_speculative. host_kept. Qed.

Section Opened.
Context (config : ReplicaConfig) (named : bool) (directory : Directory) (lease : option Error).
Context (opening : AdapterOs) (disk : Directory) (c0 : CoreReplica).
Hypothesis Hopen : core_open config named directory lease opening = Some (disk, Ok c0).
Hypothesis Htyped : durable_typed (core_durable c0).

Lemma core_opened : core_ok ∅ c0 /\ running c0.
Proof.
  unfold core_open in Hopen. destruct (config_refused config); [done|].
  destruct (host_open _ _ _ _ _ _ _) as [d x] eqn:Eh. destruct x as [h|e]; [|done].
  assert (is_ok (parse_id (rf_id config)) = true) as Hid.
  { destruct (is_ok (parse_id (rf_id config))) eqn:Hi; [done|]. unfold host_open in Eh. cbn [c_self] in Eh.
    by rewrite Hi in Eh. }
  set (r0 := mkCoreRun (fresh_core config h) 0) in Hopen.
  destruct ((construct config;; ensure_speculative) r0) as [[r1 [x|e]]|] eqn:Er in Hopen; [|done|done].
  injection Hopen as _ <-. pose proof (constructor_keeps_host _ _ _ _ Er) as Hh. cbn in Hh.
  assert (durable_typed (n_durable (rh_node h))) as Hd.
  { unfold core_durable, core_node in Htyped. by rewrite Hh in Htyped. }
  destruct (host_open_ok _ _ _ _ _ _ _ _ _ Eh Hd) as (Hok & Hrun & Hc).
  assert (core_ok ∅ (fresh_core config h)) as Hf.
  { split; [done|done|by apply parse_id_size|apply map_Forall_empty|by intros term peer|done]. }
  assert (speaks ∅ (construct config;; ensure_speculative) (fresh_core config h) r0) as (r2 & a & E2 & Hs).
  { apply bind_speaks; [|intros _ r3 H3; by apply ensure_speaks]. unfold construct. cbv zeta.
    apply bind_speaks; [apply update_speaks; [quiet_update|done]|]. intros _ r3 H3.
    apply bind_speaks; [by apply draw_speaks|]. intros timeout r4 H4.
    apply bind_speaks; [apply update_speaks; [quiet_update|done]|]. intros _ r5 H5.
    by apply synchronize_speaks. }
  rewrite Er in E2. injection E2 as <- <-. split; [by eapply spoke_ok|by eapply spoke_running].
Qed.

Lemma opened_life turns : Forall core_turn_ok turns ->
  exists V c, core_life c0 turns = Some c /\ moved ∅ c0 V c.
Proof. intros Hall. destruct core_opened as (Hok & _). by apply life_moves. Qed.

(** C10: The methods of a replica return. From any opened replica, for any
    sequence of ticks, client commands and frames with any bytes from any peer,
    and whatever the system calls do, every method returns: no loop runs
    forever, and what [peers.at], [outgoing_.at], the store and the values of
    results are asked for is always there. The durable state never regresses,
    and a running replica has it on disk. *)
Theorem replica_methods_return turns :
  Forall core_turn_ok turns ->
  exists c, core_life c0 turns = Some c /\ durable_le (core_durable c0) (core_durable c) /\
    (n_halted (core_node c) = false -> current_raft (rh_adapter (core_host c)) = Ok (core_durable c)).
Proof.
  intros Hall. destruct (opened_life turns Hall) as (V & c & E & Hm). exists c. split; [done|].
  split; [apply Hm|]. intros Hr. apply (ho_live _ (ck_host _ _ (mv_ok _ _ _ _ Hm)) Hr).
Qed.

(** C9: One vote a term on the wire. Whatever a replica has been sent and
    whatever failed, any two frames it has handed to the network that decode as
    granted votes of the same term went to the same peer, and the term and the
    vote of its durable state stand behind each of them. *)
Theorem one_vote_per_term_on_the_wire turns c p1 f1 m1 p2 f2 m2 :
  Forall core_turn_ok turns -> core_life c0 turns = Some c ->
  Sent p1 f1 ∈ core_calls c -> fr_type f1 = tRequestVoteResponse ->
  decode_vote_response (fr_payload f1) = Ok m1 -> pvr_vote_granted m1 = true ->
  Sent p2 f2 ∈ core_calls c -> fr_type f2 = tRequestVoteResponse ->
  decode_vote_response (fr_payload f2) = Ok m2 -> pvr_vote_granted m2 = true ->
  (pvr_term m1 = pvr_term m2 -> p1 = p2) /\
  pvr_term m1 <= d_term (core_durable c) /\
  (pvr_term m1 = d_term (core_durable c) -> d_voted_for (core_durable c) = Some p1).
Proof.
  intros Hall E. destruct (opened_life turns Hall) as (V & c' & E' & Hm). rewrite E in E'.
  injection E' as <-. pose proof (mv_ok _ _ _ _ Hm) as Hok. pose proof (ck_calls _ _ Hok) as Hc.
  rewrite list.Forall_forall in Hc. intros I1 T1 D1 G1 I2 T2 D2 G2.
  pose proof (Hc _ I1 T1 m1 D1 G1) as V1. pose proof (Hc _ I2 T2 m2 D2 G2) as V2.
  split; [intros Et; rewrite Et in V1; congruence|]. by apply (ck_votes _ _ Hok).
Qed.
End Opened.

(** ** Replicas that run *)

Definition demo_system : System := mkSystem (Z.to_nat 100001) (fun _ _ => calm_os).

Lemma demo_fuel : kMaximumEntries < Z.of_nat (sys_fuel demo_system).
Proof. cbn [demo_system sys_fuel]. rewrite Z2Nat.id by done. done. Qed.

(** A replica of three, asked for its vote twice in one term. *)
Definition demo_replica : ReplicaConfig :=
  mkReplicaConfig "node-1" "" ["node-2"; "node-3"] true 7 3 6 100 512 262144 262144.

Definition demo_opened : option (Directory * result Error CoreReplica) :=
  core_open demo_replica true host_directory None calm_os.

Definition vote_turns : list (CoreInput * System) :=
  [(Attach true true, demo_system);
   (Receive (vote_frame 2 "node-2") "node-2", demo_system);
   (Receive (vote_frame 2 "node-3") "node-3", demo_system)].

(** A replica alone, which elects itself and commits a command. *)
Definition solo_replica : ReplicaConfig := mkReplicaConfig "node-1" "" [] true 7 3 6 100 512 262144 262144.

Definition solo_opened : option (Directory * result Error CoreReplica) :=
  core_open solo_replica true host_directory None calm_os.

Definition create_command : Command :=
  mkCommand "cmd-1" "opening" CreateChoreography 1 0
    (PCreate "opening" (mkStageBounds 8000 6000) Forbidden 0).

Definition solo_turns : list (CoreInput * System) :=
  (Attach true true, demo_system) :: replicate 6 (Tick, demo_system) ++ [(Submit create_command, demo_system)].

(** What a life leaves, seen through [view]. *)
Definition after_life {A} (opened : option (Directory * result Error CoreReplica)) turns
    (view : CoreReplica -> A) : option A :=
  match opened with
  | Some (_, Ok c) => view <$> core_life c turns
  | _ => None
  end.

Lemma demo_turn i : core_turn_ok (i, demo_system) <->
  match i with Receive frame _ => bytes_ok (fr_payload frame) | _ => True end.
Proof. split; [by intros [_ ?]|]. intros H. split; [exact demo_fuel|exact H]. Qed.

Lemma vote_turns_ok : Forall core_turn_ok vote_turns.
Proof.
  unfold vote_turns. repeat (apply Forall_cons_2; [apply demo_turn|]); [done|..|constructor];
    apply vote_frame_bytes; vm_compute; try split; congruence.
Qed.

Lemma solo_turns_ok : Forall core_turn_ok solo_turns.
Proof. unfold solo_turns. repeat (apply Forall_cons_2; [by apply demo_turn|]). constructor. Qed.

Lemma replica_methods_return_witness :
  exists disk c0 c, solo_opened = Some (disk, Ok c0) /\ core_life c0 solo_turns = Some c /\
    core_role c = Leader /\ d_commit (core_durable c) = 2 /\
    current_raft (rh_adapter (core_host c)) = Ok (core_durable c).
Proof.
  destruct solo_opened as [[disk [c0|e]]|] eqn:E; [|exfalso; revert E; vm_compute; discriminate..].
  assert (after_life solo_opened [] core_durable = Some (mkDurable 1 None [] 0 0 0 0)) as Hd
    by (vm_compute; reflexivity). rewrite E in Hd. injection Hd as Hd.
  assert (after_life solo_opened solo_turns (fun c => (core_role c, d_commit (core_durable c), n_halted (core_node c))) =
          Some (Leader, 2, false)) as Hview by (vm_compute; reflexivity).
  rewrite E in Hview. unfold after_life in Hview.
  destruct (replica_methods_return solo_replica true host_directory None calm_os disk c0 E
    ltac:(rewrite Hd; repeat split; vm_compute; congruence) solo_turns solo_turns_ok) as (c & El & _ & Hc).
  rewrite El in Hview. injection Hview as Hr Hm Hh. exists disk, c0, c.
  split; [reflexivity|]. split; [exact El|]. split; [exact Hr|]. split; [exact Hm|]. exact (Hc Hh).
Defined.

Lemma one_vote_per_term_on_the_wire_witness :
  exists disk c0 c frame m, demo_opened = Some (disk, Ok c0) /\ core_life c0 vote_turns = Some c /\
    Sent "node-2" frame ∈ core_calls c /\ decode_vote_response (fr_payload frame) = Ok m /\
    pvr_vote_granted m = true /\ pvr_term m = 2 /\ length (core_calls c) = 4%nat /\
    d_voted_for (core_durable c) = Some "node-2"%string.
Proof.
  destruct demo_opened as [[disk [c0|e]]|] eqn:E; [|exfalso; revert E; vm_compute; discriminate..].
  assert (after_life demo_opened [] core_durable = Some (mkDurable 1 None [] 0 0 0 0)) as Hd
    by (vm_compute; reflexivity). rewrite E in Hd. injection Hd as Hd.
  set (frame := mkFrame tRequestVoteResponse 7 [8; 2; 18; 6; 110; 111; 100; 101; 45; 49; 24; 1]).
  assert (after_life demo_opened vote_turns (fun c => (head (core_calls c), length (core_calls c), d_term (core_durable c))) =
          Some (Some (Sent "node-2" frame), 4%nat, 2)) as Hview by (vm_compute; reflexivity).
  rewrite E in Hview. unfold after_life in Hview.
  destruct (core_life c0 vote_turns) as [c|] eqn:El; [|discriminate Hview].
  injection Hview as Hcall Hlen Hterm.
  assert (Sent "node-2" frame ∈ core_calls c) as Hin.
  { destruct (core_calls c) as [|x l]; [discriminate Hcall|]. injection Hcall as ->. constructor. }
  exists disk, c0, c, frame, (mkProtoVoteResponse 2 "node-1" true).
  destruct (one_vote_per_term_on_the_wire demo_replica true host_directory None calm_os disk c0 E
    ltac:(rewrite Hd; repeat split; vm_compute; congruence) vote_turns c
    "node-2" frame (mkProtoVoteResponse 2 "node-1" true) "node-2" frame (mkProtoVoteResponse 2 "node-1" true))
    as (_ & _ & Hv);
    [exact vote_turns_ok|exact El|exact Hin|reflexivity|vm_compute; reflexivity|reflexivity
    |exact Hin|reflexivity|vm_compute; reflexivity|reflexivity|].
  split; [reflexivity|]. split; [exact El|]. split; [exact Hin|]. split; [vm_compute; reflexivity|].
  split; [reflexivity|]. split; [reflexivity|]. split; [exact Hlen|]. apply Hv. by rewrite Hterm.
Defined.
