(* ===== verification/SnapshotStream.v ===== *)
(** * Snapshot streams

    The chunked snapshot transfer of core_replica.cpp, between the leader's
    [send_chunk]/[on_snapshot_reply] and the follower's [on_snapshot].  The
    definitions of both ends are in CoreReplica.v; here they are composed: what
    the follower's buffer holds whatever the network loses, repeats or
    reorders, and a whole transfer between two replicas whose frames arrive. *)

From Stdlib Require Import ZArith Lia String.
From stdpp Require Import base list strings.
From S2P Require Import Prelude EntryLog EntryLogRefine Transition Types SnapshotFile FileEngine FileEngineAdapter RuntimeHost RuntimeHostThms Bytes Frame Messages Protobuf MessageCodec MessageCodecThms ReplicaTypes CoreReplica CoreReplicaThms.
Local Open Scope Z_scope.

(** ** Pieces of a string *)

Lemma substring_join n m s :
  String.substring 0 n s +:+ String.substring n m s = String.substring 0 (n + m) s.
Proof.
  revert n. induction s as [|c s IH]; intros [|n]; [by destruct m|by destruct m|done|].
  cbn. f_equal. apply IH.
Qed.

Lemma substring_length n m s :
  String.length (String.substring n m s) = Nat.min m (String.length s - n).
Proof.
  revert n m. induction s as [|c s IH]; intros [|n] [|m]; cbn [String.substring String.length]; rewrite ?IH; cbn; lia.
Qed.

Lemma substring_whole s n : (String.length s <= n)%nat -> String.substring 0 n s = s.
Proof.
  revert n. induction s as [|c s IH]; intros [|n] H; cbn in *; try done; try lia. rewrite IH by lia. done.
Qed.

Lemma substring_of_prefix n m k s :
  (n + m <= k)%nat -> String.substring n m (String.substring 0 k s) = String.substring n m s.
Proof.
  revert n m k. induction s as [|c s IH]; intros [|n] [|m] [|k] H; cbn; try rewrite IH by lia; done || lia.
Qed.

Lemma string_app_length a b : String.length (a +:+ b) = (String.length a + String.length b)%nat.
Proof. induction a as [|c a IH]; cbn; [done|]. by rewrite IH. Qed.

Lemma text_size_nonneg s : 0 <= text_size s.
Proof. unfold text_size. lia. Qed.

Lemma text_size_app a b : text_size (a +:+ b) = text_size a + text_size b.
Proof. unfold text_size. rewrite string_app_length. lia. Qed.

Lemma substr_join s n m : 0 <= n -> 0 <= m -> substr s 0 n +:+ substr s n m = substr s 0 (n + m).
Proof. intros Hn Hm. unfold substr. rewrite Z2Nat.inj_add by done. apply substring_join. Qed.

Lemma substr_size s n m : 0 <= n -> 0 <= m -> n + m <= text_size s -> text_size (substr s n m) = m.
Proof. unfold text_size, substr. intros. rewrite substring_length. lia. Qed.

Lemma substr_whole s n : text_size s <= n -> substr s 0 n = s.
Proof. unfold text_size, substr. intros. apply substring_whole. lia. Qed.

Lemma substr_of_prefix s n m k :
  0 <= n -> 0 <= m -> n + m <= k -> substr (substr s 0 k) n m = substr s n m.
Proof. unfold substr. intros. apply substring_of_prefix. lia. Qed.

(** ** The follower's end *)

(** What one chunk leaves in the buffer, and the payload it completes. *)
Definition buffer_after (a : Absorbed) : option Incoming :=
  match a with
  | Refused | Completed _ => None
  | Repeated i | Extended i => Some i
  end.

(** The buffer after a sequence of chunks, from a follower that has none. *)
Definition buffer (ms : list ProtoInstallSnapshot) : option Incoming :=
  foldl (fun incoming m => buffer_after (absorb incoming m)) None ms.

(** The five fields by which the follower tells streams apart. *)
Record Stream := mkStream {
  st_leader : string; st_term : Z; st_index : Z; st_snapshot_term : Z; st_hash : string }.

Definition stream_of (m : ProtoInstallSnapshot) : Stream :=
  mkStream (pi_leader_id m) (pi_term m) (pi_last_included_index m) (pi_last_included_term m) (pi_state_hash m).

Definition incoming_stream (i : Incoming) : Stream :=
  mkStream (ic_leader i) (ic_term i) (ic_index i) (ic_snapshot_term i) (ic_hash i).

Lemma same_stream_spec incoming m :
  same_stream incoming m = true <-> exists i, incoming = Some i /\ incoming_stream i = stream_of m.
Proof.
  destruct incoming as [i|]; cbn; [|split; [done|by intros (? & ? & _)]].
  rewrite !andb_true_iff, !bool_decide_eq_true, !Z.eqb_eq. unfold incoming_stream, stream_of. split.
  - intros [[[[H1 H2] H3] H4] H5]. exists i. split; [done|]. by rewrite H1, H2, H3, H4, H5.
  - intros (? & [= <-] & [= -> -> -> -> ->]). done.
Qed.

Section Streams.
Context (src : Stream -> string).

(** A chunk that some leader cut from the payload of its stream. *)
Definition genuine (m : ProtoInstallSnapshot) : Prop :=
  let payload := src (stream_of m) in
  0 <= pi_offset m /\ pi_offset m + text_size (pi_payload m) <= text_size payload /\
  pi_payload m = substr payload (pi_offset m) (text_size (pi_payload m)) /\
  pi_more m = negb (pi_offset m + text_size (pi_payload m) =? text_size payload).

(** The buffer holds the beginning of the payload of its stream. *)
Definition buffered (incoming : option Incoming) : Prop :=
  forall i, incoming = Some i ->
    text_size (ic_bytes i) <= text_size (src (incoming_stream i)) /\
    ic_bytes i = substr (src (incoming_stream i)) 0 (text_size (ic_bytes i)).

Lemma buffered_none : buffered None.
Proof. by intros i [=]. Qed.

Lemma buffered_start m : buffered (Some (start_stream m)).
Proof. intros i [= <-]. cbn. split; [apply text_size_nonneg|]. by destruct (src _). Qed.

(** The buffer that the chunk is compared with: of the same stream whenever
    the chunk is not refused at once. *)
Lemma absorb_cases incoming m :
  buffered incoming ->
  match absorb incoming m with
  | Refused => True
  | Repeated i => incoming_stream i = stream_of m /\ buffered (Some i)
  | Extended i => exists i0, incoming_stream i0 = stream_of m /\ buffered (Some i0) /\
      pi_offset m = text_size (ic_bytes i0) /\ i = with_bytes (ic_bytes i0 +:+ pi_payload m) i0 /\ pi_more m = true
  | Completed bytes => exists i0, incoming_stream i0 = stream_of m /\ buffered (Some i0) /\
      pi_offset m = text_size (ic_bytes i0) /\ bytes = ic_bytes i0 +:+ pi_payload m /\ pi_more m = false
  end.
Proof.
  intros Hb. unfold absorb. destruct (same_stream incoming m) eqn:Hs.
  - apply same_stream_spec in Hs as (i & -> & Hi). rewrite andb_false_r. cbn [negb andb orb].
    destruct (_ <? pi_offset m) eqn:E1; [done|]. destruct (pi_offset m <? _) eqn:E2.
    { by destruct (_ && _). }
    apply Z.ltb_ge in E1, E2. destruct (pi_more m) eqn:Em; exists i; repeat split; eauto; try lia; by apply Hb.
  - rewrite andb_true_r. destruct (pi_offset m =? 0) eqn:E0; cbn [negb andb orb].
    + apply Z.eqb_eq in E0. rewrite E0. cbn.
      destruct (pi_more m) eqn:Em; exists (start_stream m); cbn;
        (split; [done|split; [apply buffered_start|done]]).
    + by destruct incoming.
Qed.

Lemma absorb_repeated incoming m i : absorb incoming m = Repeated i -> incoming = Some i.
Proof.
  unfold absorb. destruct (same_stream incoming m) eqn:Hs.
  - rewrite andb_false_r. destruct incoming as [j|]; [|done]. cbn [negb andb orb].
    destruct (_ <? pi_offset m); [done|]. destruct (pi_offset m <? _).
    + destruct (_ && _); [|done]. by intros [= ->].
    + by destruct (pi_more m).
  - rewrite andb_true_r. destruct (pi_offset m =? 0) eqn:E0; cbn [negb andb orb].
    + apply Z.eqb_eq in E0. rewrite E0. cbn. by destruct (pi_more m).
    + by destruct incoming.
Qed.

Lemma genuine_extends i m :
  incoming_stream i = stream_of m -> buffered (Some i) -> genuine m -> pi_offset m = text_size (ic_bytes i) ->
  text_size (ic_bytes i +:+ pi_payload m) = pi_offset m + text_size (pi_payload m) /\
  ic_bytes i +:+ pi_payload m =
    substr (src (stream_of m)) 0 (pi_offset m + text_size (pi_payload m)).
Proof.
  intros Hi Hb (H0 & Hle & Hp & _) Ho. destruct (Hb i eq_refl) as [Hsz Hbytes]. rewrite Hi in Hsz, Hbytes.
  split; [rewrite text_size_app; lia|].
  rewrite <- substr_join by (try done; apply text_size_nonneg). rewrite <- Hp. f_equal. by rewrite Ho.
Qed.

Lemma absorb_buffered incoming m :
  buffered incoming -> genuine m -> buffered (buffer_after (absorb incoming m)).
Proof.
  intros Hb Hg. pose proof (absorb_cases incoming m Hb) as H.
  destruct (absorb incoming m) as [|i|i|bytes]; cbn; try apply buffered_none; [by destruct H|].
  destruct H as (i0 & Hi & H0 & Ho & -> & _). intros i [= <-].
  destruct (genuine_extends i0 m Hi H0 Hg Ho) as [Hsz Heq].
  assert (incoming_stream (with_bytes (ic_bytes i0 +:+ pi_payload m) i0) = stream_of m) as -> by exact Hi.
  cbn [ic_bytes with_bytes]. rewrite Hsz. split; [apply Hg|exact Heq].
Qed.

Lemma absorb_completes incoming m bytes :
  buffered incoming -> genuine m -> absorb incoming m = Completed bytes -> bytes = src (stream_of m).
Proof.
  intros Hb Hg E. pose proof (absorb_cases incoming m Hb) as H. rewrite E in H.
  destruct H as (i0 & Hi & H0 & Ho & -> & Hm). destruct (genuine_extends i0 m Hi H0 Hg Ho) as [_ ->].
  destruct Hg as (_ & _ & _ & Hmore). rewrite Hmore, negb_false_iff, Z.eqb_eq in Hm.
  apply substr_whole. lia.
Qed.

(** What is kept is never the whole payload: the chunk that would make it whole
    completes the stream instead. *)
Definition partial (incoming : option Incoming) : Prop :=
  forall i, incoming = Some i -> text_size (ic_bytes i) < text_size (src (incoming_stream i)).

Lemma repeated_more incoming m i :
  partial incoming -> genuine m -> absorb incoming m = Repeated i -> incoming_stream i = stream_of m -> pi_more m = true.
Proof.
  intros Hp (H0 & _ & _ & ->) E Hi. pose proof (absorb_repeated _ _ _ E) as ->. specialize (Hp i eq_refl).
  rewrite Hi in Hp. destruct (_ =? _) eqn:Ee; [|done]. apply Z.eqb_eq in Ee. exfalso.
  unfold absorb in E. assert (same_stream (Some i) m = true) as Hsame by (apply same_stream_spec; by eexists).
  rewrite Hsame, andb_false_r in E. cbn [negb andb orb] in E. destruct (_ <? pi_offset m); [done|].
  destruct (pi_offset m <? _); [|by destruct (pi_more m)].
  destruct (text_size (pi_payload m) <=? _) eqn:E3; [|done]. apply Z.leb_le in E3. lia.
Qed.

Lemma absorb_partial incoming m :
  buffered incoming -> partial incoming -> genuine m -> partial (buffer_after (absorb incoming m)).
Proof.
  intros Hb Hp Hg. pose proof (absorb_cases incoming m Hb) as H.
  destruct (absorb incoming m) as [|i|i|bytes] eqn:E; cbn; try (by intros i [=]); intros j [= <-].
  - apply Hp. by eapply absorb_repeated.
  - destruct H as (i0 & Hi & H0 & Ho & -> & Hm). destruct (genuine_extends i0 m Hi H0 Hg Ho) as [Hsz _].
    assert (incoming_stream (with_bytes (ic_bytes i0 +:+ pi_payload m) i0) = stream_of m) as -> by exact Hi.
    cbn [ic_bytes with_bytes]. rewrite Hsz. destruct Hg as (_ & Hle & _ & Hmore).
    rewrite Hmore, negb_true_iff, Z.eqb_neq in Hm. lia.
Qed.

Lemma buffer_ok ms : Forall genuine ms -> buffered (buffer ms) /\ partial (buffer ms).
Proof.
  unfold buffer. intros Hms.
  assert (buffered None /\ partial None) as H by (split; by intros i [=]).
  revert H. generalize (None : option Incoming). induction Hms as [|m ms Hm _ IH]; intros b [Hb Hp]; [done|].
  cbn. apply IH. split; [by apply absorb_buffered|by apply absorb_partial].
Qed.

(** C14: Whatever the network loses, repeats, reorders or interleaves of the
    chunks that leaders cut from their snapshots, the follower's buffer is
    always a proper beginning of the payload of its stream, a stream is
    completed only by a last chunk and then with exactly the payload the leader
    had, and a last chunk is never acknowledged as one more chunk: it completes
    the stream or restarts it. *)
Theorem chunks_reassemble ms m :
  Forall genuine ms -> genuine m ->
  match absorb (buffer ms) m with
  | Refused => True
  | Completed bytes => pi_more m = false /\ bytes = src (stream_of m)
  | Repeated i | Extended i =>
      pi_more m = true /\ incoming_stream i = stream_of m /\
      text_size (ic_bytes i) < text_size (src (stream_of m)) /\
      ic_bytes i = substr (src (stream_of m)) 0 (text_size (ic_bytes i))
  end.
Proof.
  intros Hms Hg. destruct (buffer_ok ms Hms) as [Hb Hp].
  pose proof (absorb_cases _ m Hb) as H. pose proof (absorb_partial _ m Hb Hp Hg) as Hp'.
  pose proof (absorb_buffered _ m Hb Hg) as Hb'. destruct (absorb (buffer ms) m) as [|i|i|bytes] eqn:E; [done| | |].
  - destruct H as [Hi _]. specialize (Hp' i eq_refl). destruct (Hb' i eq_refl) as [_ Hbytes].
    rewrite Hi in Hp', Hbytes. split; [|done]. by eapply repeated_more.
  - destruct H as (i0 & Hi & _ & _ & -> & Hm).
    specialize (Hp' _ eq_refl). destruct (Hb' _ eq_refl) as [_ Hbytes].
    change (incoming_stream (with_bytes _ i0)) with (incoming_stream i0) in Hp', Hbytes.
    rewrite Hi in Hp', Hbytes. done.
  - destruct H as (i0 & _ & _ & _ & _ & Hm). split; [done|]. exact (absorb_completes _ _ _ Hb Hg E).
Qed.

End Streams.

(** ** Both ends *)

Lemma bind_get {B} (k : CoreReplica -> M B) r : (c ← get; k c) r = k (cu_core r) r.
Proof. done. Qed.

(** A snapshot that a leader of [term] can send. *)
Definition sendable (term : Z) (s : Snapshot) : Prop :=
  text_size (sp_hash s) = 16 /\ 0 < sp_index s < max_u64 /\ 0 < sp_term s <= term /\
  text_size (sp_payload s) <= kMaximumSnapshotBytes.

(** The stream of [s], and the buffer that holds its first [n] bytes. *)
Definition buffer_of (term : Z) (leader : string) (s : Snapshot) (n : Z) : Incoming :=
  mkIncoming leader term (sp_index s) (sp_term s) (sp_hash s) (substr (sp_payload s) 0 n).

Section Exchange.
Context (term : Z) (leader : string) (limit : Z) (s : Snapshot).
Context (Hlimit : 0 < limit) (Hs : sendable term s).

Lemma chunk_end_at offset :
  0 <= offset <= text_size (sp_payload s) ->
  chunk_end limit s offset = Z.min (offset + limit) (text_size (sp_payload s)) /\
  0 <= chunk_length limit s offset /\ chunk_end limit s offset = offset + chunk_length limit s offset /\
  (text_size (sp_payload s) <> offset -> 0 < chunk_length limit s offset).
Proof.
  intros Ho. unfold chunk_end, chunk_length. destruct Hs as (_ & _ & _ & Hsz). unfold kMaximumSnapshotBytes in Hsz.
  rewrite wrap64_small by (unfold u64, max_u64; lia). lia.
Qed.

Lemma chunk_payload_size offset :
  0 <= offset <= text_size (sp_payload s) ->
  text_size (pi_payload (chunk_message term leader limit s offset)) = chunk_length limit s offset.
Proof.
  intros Ho. destruct (chunk_end_at offset Ho) as (He & Hl & He' & _). cbn. apply substr_size; lia.
Qed.

Lemma chunk_not_refused offset :
  0 <= offset <= text_size (sp_payload s) -> chunk_refused (chunk_message term leader limit s offset) = false.
Proof.
  intros Ho. destruct (chunk_end_at offset Ho) as (He & Hl & He' & Hpos).
  pose proof (chunk_payload_size offset Ho) as Hsz.
  destruct Hs as (Hh & Hi & Ht & Hk). unfold chunk_refused. rewrite Hsz. cbn [pi_state_hash pi_last_included_index
    pi_last_included_term pi_term pi_offset pi_more chunk_message].
  repeat (apply orb_false_iff; split); try lia.
  destruct (chunk_final limit s offset) eqn:Ef; [done|]. unfold chunk_final in Ef. apply Z.eqb_neq in Ef. cbn [negb andb].
  assert (0 < text_size (pi_payload (chunk_message term leader limit s offset))) as H by (rewrite Hsz; apply Hpos; lia).
  by destruct (pi_payload _).
Qed.

(** The next chunk on the buffer that holds all that went before. *)
Lemma absorb_next offset incoming :
  0 <= offset <= text_size (sp_payload s) ->
  incoming = Some (buffer_of term leader s offset) \/
  offset = 0 /\ same_stream incoming (chunk_message term leader limit s offset) = false ->
  absorb incoming (chunk_message term leader limit s offset) =
  if chunk_final limit s offset then Completed (sp_payload s)
  else Extended (buffer_of term leader s (chunk_end limit s offset)).
Proof.
  intros Ho Hin. set (m := chunk_message term leader limit s offset) in *.
  destruct (chunk_end_at offset Ho) as (He & Hl & He' & _).
  assert (absorb incoming m = let bytes := substr (sp_payload s) 0 offset +:+ pi_payload m in
    if pi_more m then Extended (with_bytes bytes (buffer_of term leader s offset)) else Completed bytes) as ->.
  { destruct Hin as [->|[-> Hd]].
    - unfold absorb. assert (same_stream (Some (buffer_of term leader s offset)) m = true) as ->.
      { apply same_stream_spec. by eexists. }
      rewrite andb_false_r. cbn [negb andb orb ic_bytes buffer_of]. rewrite substr_size by lia.
      change (pi_offset m) with offset. by rewrite Z.ltb_irrefl.
    - unfold absorb. rewrite Hd. cbn. unfold buffer_of. by destruct (sp_payload s). }
  cbv zeta. change (pi_more m) with (negb (chunk_final limit s offset)).
  change (pi_payload m) with (substr (sp_payload s) offset (chunk_length limit s offset)).
  rewrite substr_join by lia. rewrite <- He'. destruct (chunk_final limit s offset) eqn:Ef; cbn [negb]; [|done].
  f_equal. apply substr_whole. unfold chunk_final in Ef. apply Z.eqb_eq in Ef. lia.
Qed.

(** A chunk that the buffer already covers is only acknowledged again, with the
    size of the buffer. *)
Lemma absorb_covered offset n :
  0 <= offset <= text_size (sp_payload s) -> chunk_end limit s offset < n <= text_size (sp_payload s) ->
  absorb (Some (buffer_of term leader s n)) (chunk_message term leader limit s offset) =
  Repeated (buffer_of term leader s n).
Proof.
  intros Ho Hn. destruct (chunk_end_at offset Ho) as (He & Hl & He' & _).
  pose proof (chunk_payload_size offset Ho) as Hsz.
  set (m := chunk_message term leader limit s offset) in *. unfold absorb.
  assert (same_stream (Some (buffer_of term leader s n)) m = true) as -> by (apply same_stream_spec; by eexists).
  rewrite andb_false_r, Hsz. cbn [negb andb orb ic_bytes buffer_of]. rewrite substr_size by lia.
  change (pi_offset m) with offset. change (pi_payload m) with (substr (sp_payload s) offset (chunk_length limit s offset)).
  rewrite substr_of_prefix, bool_decide_true by (done || lia).
  rewrite (proj2 (Z.ltb_ge n offset)), (proj2 (Z.ltb_lt offset n)), (proj2 (Z.leb_le _ _)) by lia. done.
Qed.

(** A follower whose buffer is already past the end of the chunk that the
    leader waits for (a delayed copy of a later chunk reached it first) stalls
    the transfer: it acknowledges the chunk with the size of its buffer and
    keeps the buffer, and the leader ignores an acknowledgement that is not
    exactly the end of its chunk, so that sending the chunk again changes
    nothing at either end.  docs/protocol.md says that the leader continues from
    the acknowledged offset. *)
Lemma follower_ahead_stalls sys r peer transfer offset n answer correlation :
  0 <= offset <= text_size (sp_payload s) -> chunk_end limit s offset < n <= text_size (sp_payload s) ->
  core_outgoing (cu_core r) !! peer = Some transfer -> tr_end transfer = chunk_end limit s offset ->
  answer = mkProtoSnapshotResponse (d_term (core_durable (cu_core r))) peer true
             (text_size (ic_bytes (buffer_of term leader s n))) ->
  absorb (Some (buffer_of term leader s n)) (chunk_message term leader limit s offset) =
    Repeated (buffer_of term leader s n) /\
  on_snapshot_reply sys answer correlation r = Some (r, tt).
Proof.
  intros Ho Hn Hp He ->. split; [by apply absorb_covered|].
  unfold on_snapshot_reply. rewrite bind_get. cbn [psr_term psr_follower_id psr_success psr_next_offset].
  rewrite Z.ltb_irrefl, Hp. destruct (_ || _); [done|]. cbn [negb ic_bytes buffer_of].
  rewrite substr_size by (destruct (chunk_end_at offset Ho); lia).
  rewrite (proj2 (Z.eqb_neq _ _)) by lia. done.
Qed.

End Exchange.

(** ** A transfer between two replicas *)

Lemma bind_step {A B} (m : M A) (k : A -> M B) r r' a : m r = Some (r', a) -> (m ≫= k) r = k a r'.
Proof. intros H. unfold mbind, M_bind. by rewrite H. Qed.

(** The frame that a replica sent last. *)
Definition last_frame (r : CoreRun) : option Frame :=
  match list.last (core_calls (cu_core r)) with Some (Sent _ frame) => Some frame | _ => None end.

Definition decoded {A} (x : result Error A) : option A := match x with Ok a => Some a | Err _ => None end.

Section Transfer.
Context (lsys fsys : System) (leader follower : string).

(** One chunk and its answer: the last frame of the leader is handled by the
    follower, and the frame that the follower then sent last by the leader. The
    two messages are those that the frames carry. *)
Definition turn (l f : CoreRun)
    : option (ProtoInstallSnapshot * ProtoSnapshotResponse * CoreRun * CoreRun) :=
  frame ← last_frame l;
  chunk ← decoded (decode_install_snapshot (fr_payload frame));
  '(f', _) ← handle fsys frame leader f;
  reply ← last_frame f';
  answer ← decoded (decode_snapshot_response (fr_payload reply));
  '(l', _) ← handle lsys reply follower l;
  Some (chunk, answer, l', f').

(** [n] turns, with the messages of each. *)
Fixpoint turns (n : nat) (l f : CoreRun)
    : option (list (ProtoInstallSnapshot * ProtoSnapshotResponse) * CoreRun * CoreRun) :=
  match n with
  | O => Some ([], l, f)
  | S n =>
      '(chunk, answer, l, f) ← turn l f;
      '(rest, l, f) ← turns n l f;
      Some ((chunk, answer) :: rest, l, f)
  end.

Context (term : Z) (limit : Z) (s : Snapshot).
Context (Hlimit : 0 < limit <= 262144) (Hs : sendable term s).
Context (Hterm : 0 < term <= max_u64) (Hleader : valid_id leader = true) (Hfollower : valid_id follower = true).

Let size := text_size (sp_payload s).

(** A running leader that knows the follower. *)
Record leads (c : CoreReplica) : Prop := {
  ld_stopped : core_stopped c = false;
  ld_known : known_peer c follower = true;
  ld_progress : is_Some (v_peers (n_volatile (core_node c)) !! follower);
  ld_role : core_role c = Leader;
  ld_sender : core_sender c = true;
  ld_term : d_term (core_durable c) = term;
  ld_id : rf_id (core_config c) = leader;
  ld_limit : rf_max_snapshot_chunk_bytes (core_config c) = limit;
}.

(** The leader waits for the answer to the chunk at [offset], with correlation
    [q], which is the last frame it sent. *)
Record awaits (offset q : Z) (r : CoreRun) : Prop := {
  aw_leads : leads (cu_core r);
  aw_next : core_snapshot_correlation (cu_core r) = q + 1;
  aw_chunk : exists payload pinned,
    encode_install_snapshot (chunk_message term leader limit s offset) = Ok payload /\
    decode_install_snapshot payload = Ok (chunk_message term leader limit s offset) /\
    last_frame r = Some (mkFrame tInstallSnapshot q payload) /\ ps_snapshot pinned = s /\
    core_outgoing (cu_core r) !! follower =
      Some (mkTransfer pinned (mkFrame tInstallSnapshot q payload) (chunk_end limit s offset) (chunk_final limit s offset));
}.

(** A running follower of the leader, with nothing to apply or to compact, that
    is behind the snapshot and does not disagree with it. *)
Record listens (c : CoreReplica) : Prop := {
  ls_stopped : core_stopped c = false;
  ls_known : known_peer c leader = true;
  ls_progress : is_Some (v_peers (n_volatile (core_node c)) !! leader);
  ls_role : core_role c = Follower;
  ls_sender : core_sender c = true;
  ls_term : d_term (core_durable c) = term;
  ls_id : rf_id (core_config c) = follower;
  ls_valid : valid_durable (core_durable c) = true;
  ls_pending : n_pending (core_node c) = None;
  ls_applied : (d_applied (core_durable c) <? d_commit (core_durable c)) = false;
  ls_compact : compact_due (core_host c) = false;
  ls_behind : d_commit (core_durable c) < sp_index s;
  ls_agrees : forall t, term_at (core_durable c) (d_commit (core_durable c)) = Some t -> t <= sp_term s;
  ls_store : exists store, inspection_store (rh_adapter (core_host c)) = Some store /\
    default 0 (log_term_at store (d_commit (core_durable c))) <= sp_term s;
}.

Lemma id_size id : valid_id id = true -> Z.of_nat (String.length id) <= 64.
Proof. unfold valid_id, kMaxIdLength. intros [[_ H%Z.leb_le]%andb_true_iff _]%andb_true_iff. lia. Qed.

Lemma text_fits t : Z.of_nat (String.length t) <= max_u64 -> text_ok t.
Proof. unfold text_ok, sized, zsize. by rewrite bytes_of_length. Qed.

Lemma chunk_ok offset : 0 <= offset <= size -> install_snapshot_ok (chunk_message term leader limit s offset).
Proof.
  intros Ho. destruct (chunk_end_at term limit s ltac:(lia) Hs offset Ho) as (He & Hl & He' & _).
  pose proof (chunk_payload_size term leader limit s ltac:(lia) Hs offset Ho) as Hp.
  pose proof (id_size leader Hleader). destruct Hs as (Hh & Hi & Ht & Hk). unfold kMaximumSnapshotBytes in Hk.
  unfold install_snapshot_ok.
  cbn [pi_term pi_leader_id pi_last_included_index pi_last_included_term pi_state_hash pi_offset chunk_message].
  unfold u64, max_u64, size, text_size in *. split_and!; try lia; apply text_fits; unfold max_u64; lia.
Qed.

(** Sending the chunk at [offset]. *)
Lemma send_chunk_awaits offset transfer r :
  leads (cu_core r) -> core_outgoing (cu_core r) !! follower = Some transfer -> ps_snapshot (tr_pinned transfer) = s ->
  0 <= offset <= size -> core_snapshot_correlation (cu_core r) < max_u64 ->
  exists r', send_chunk follower offset r = Some (r', tt) /\ awaits offset (core_snapshot_correlation (cu_core r)) r'.
Proof.
  intros L Ht Hsn Ho Hq. destruct (install_snapshot_back _ (chunk_ok offset Ho)) as (payload & Ee & Ed).
  pose proof (install_snapshot_size _ _ Ee) as Hsz. pose proof (id_size leader Hleader) as Hid.
  pose proof (chunk_payload_size term leader limit s ltac:(lia) Hs offset Ho) as Hp.
  assert (chunk_length limit s offset <= limit) as Hlen by (unfold chunk_length; lia).
  assert ((kMaxFramePayload <? zsize payload) = false) as Hfits.
  { apply Z.ltb_ge. destruct Hs as (Hh & _). unfold kMaxFramePayload, text_size in *.
    cbn [pi_leader_id pi_state_hash chunk_message] in Hsz. lia. }
  assert (wp (send_chunk follower offset) (fun r' _ => awaits offset (core_snapshot_correlation (cu_core r)) r') r) as (r' & [] & E & A);
    [|by exists r'].
  destruct r as [c n]. cbn [cu_core] in *. unfold send_chunk. do 2 wp_step. apply wp_bind, (wp_option _ _ _ _ Ht). cbn [cu_core].
  rewrite Hsn. fold size. rewrite (proj2 (Z.ltb_ge size offset)), (proj2 (Z.eqb_neq _ max_u64)) by lia. cbn [orb].
  rewrite (ld_limit _ L), (ld_term _ L), (ld_id _ L), Ee. do 2 wp_step. do 2 wp_step. do 2 wp_step.
  unfold count. do 4 wp_step. unfold send. do 2 wp_step.
  match goal with |- context [core_stopped ?c1] => change (core_stopped c1) with (core_stopped c) end.
  rewrite (ld_stopped _ L). cbn [fr_payload]. rewrite Hfits.
  match goal with |- context [core_sender ?c1] => change (core_sender c1) with (core_sender c) end.
  rewrite (ld_sender _ L). cbn [whenM]. wp_step.
  split; [destruct L; by split|done|]. exists payload, (tr_pinned transfer). split; [done|]. split; [done|].
  split; [|split; [done|by apply lookup_insert_eq]].
  unfold last_frame. cbn [cu_core core_calls set_calls]. by rewrite last_snoc.
Qed.

(** The answer on which the leader goes on. *)
Lemma leader_goes_on offset q r payload :
  awaits offset q r -> 0 <= offset <= size -> chunk_final limit s offset = false -> q + 1 < max_u64 ->
  decode_snapshot_response payload = Ok (mkProtoSnapshotResponse term follower true (chunk_end limit s offset)) ->
  exists r', handle lsys (mkFrame tInstallSnapshotResponse q payload) follower r = Some (r', tt) /\
    awaits (chunk_end limit s offset) (q + 1) r'.
Proof.
  intros [L Hn (p & pinned & _ & _ & _ & Hsn & Hout)] Ho Hf Hq Hd.
  destruct (chunk_end_at term limit s ltac:(lia) Hs offset Ho) as (He & _).
  unfold handle. rewrite bind_get, (ld_stopped _ L), (ld_known _ L). cbn [orb negb].
  destruct (ld_progress _ L) as [progress Hp]. rewrite Hp. change (of_option (Some progress)) with (mret (M:=M) progress).
  rewrite (bind_step _ _ r r progress) by done. cbn [fr_type fr_payload fr_correlation].
  change (tInstallSnapshotResponse =? tInstallSnapshot) with false. rewrite Z.eqb_refl. cbv iota. rewrite Hd.
  cbn [psr_follower_id]. rewrite bool_decide_eq_true_2 by done. cbn [whenM].
  unfold CoreReplica.on_snapshot_reply. rewrite bind_get. cbv zeta. rewrite (ld_term _ L). cbn [psr_term psr_follower_id psr_success psr_next_offset].
  rewrite Z.ltb_irrefl, Hout, Z.eqb_refl. cbn [tr_frame tr_end tr_final fr_correlation]. rewrite Z.eqb_refl.
  assert (is_leader (cu_core r) = true) as ->.
  { pose proof (ld_stopped _ L) as Hst. unfold core_stopped in Hst. apply orb_false_iff in Hst as [H1 H2].
    unfold is_leader. by rewrite H1, H2, bool_decide_eq_true_2 by apply (ld_role _ L). }
  cbn [negb orb]. rewrite Z.eqb_refl, Hf. cbn [negb]. rewrite <- Hn.
  eapply send_chunk_awaits; [done|exact Hout|done|unfold size; lia|lia].
Qed.

(** What dispatching the header of a chunk does at the follower: the node steps
    down again, and nothing is written or sent. *)
Lemma header_dispatched c q os n :
  listens c ->
  let header := mkSnapshotRequest term leader (sp_index s) (sp_term s) q false in
  let v := n_volatile (core_node c) in
  let node := n_with_volatile
    (mkVolatile Follower ∅ (reset_in_flight <$> v_peers v) (v_leadership_epoch v) None) (core_node c) in
  exists output, host_dispatch n (core_host c) (RecvSnapshot header) None os =
      Some (drop_pins (rh_with_node node (core_host c)), Ok output) /\
    he_send output = [] /\ he_snapshots output = [].
Proof.
  intros L header v node. pose proof L as []. destruct Hs as (_ & Hi & Ht & _).
  unfold core_stopped in *. apply orb_false_iff in ls_stopped0 as [Hh _].
  set (h := core_host c) in *. change (rh_node h) with (core_node c).
  assert (exists effects, step (rh_config h) (core_node c) (RecvSnapshot header) = (node, effects) /\
    f_persist effects = None /\ f_halt effects = false /\ f_snapshot_needed effects = [] /\ f_send_now effects = [])
    as (effects & Es & E1 & E2 & E3 & E4).
  { unfold step, state_invalid. change (n_durable (core_node c)) with (core_durable c).
    rewrite ls_valid0, ls_pending0, Hh. cbn [negb orb is_some]. unfold step_idle, Transition.on_snapshot.
    cbn [sr_leader sr_term sr_index sr_snapshot_term sr_ready header].
    assert (Transition.known_peer (core_node c) leader = true) as ->.
    { unfold Transition.known_peer. destruct ls_progress0 as [x ->]. done. }
    change (n_durable (core_node c)) with (core_durable c).
    rewrite !(proj2 (Z.eqb_neq _ _)), (proj2 (Z.ltb_ge term (sp_term s))) by lia. cbn [negb orb].
    assert ((d_commit (core_durable c) <? sp_index s) && match term_at (core_durable c) (d_commit (core_durable c)) with
      | Some t => sp_term s <? t | None => false end = false) as ->.
    { apply andb_false_iff. right. destruct (term_at _ _) as [t|]; [|done]. apply Z.ltb_ge. by apply ls_agrees0. }
    rewrite ls_term0, Z.ltb_irrefl. unfold step_down. rewrite bool_decide_eq_true_2 by done. cbn [negb].
    eexists. split; [reflexivity|]. by destruct (v_read (n_volatile (core_node c))). }
  unfold host_dispatch, advance. cbn [hr_host hr_output hr_calls]. change (rh_node h) with (core_node c). rewrite Hh, Es.
  assert (forall r fx inst, f_persist fx = None -> f_halt fx = false -> f_snapshot_needed fx = [] ->
    advance_loop n r fx inst os = Some (mkRun (hr_host r) (add_effects fx (hr_output r)) (hr_calls r), None)) as Hloop.
  { intros r fx inst F1 F2 F3. destruct n; cbn [advance_loop]; unfold collect; rewrite F2, F3; cbn [collect_snapshots]; by rewrite F1. }
  rewrite Hloop by done. cbn [and_then hr_host hr_output hr_calls rh_node rh_with_node rh_config].
  assert (step (rh_config h) node AdvanceCommit = (node, no_effects)) as ->.
  { unfold step, state_invalid, node. cbn [n_durable n_pending n_halted n_with_volatile].
    change (n_durable (core_node c)) with (core_durable c). by rewrite ls_valid0, ls_pending0, Hh. }
  rewrite Hloop by done. cbn [and_then hr_host hr_output hr_calls].
  assert (forall r, rh_node (hr_host r) = node -> apply_loop n r os = Some (r, None)) as Happ.
  { intros r Hr. destruct n; cbn [apply_loop]; rewrite Hr; change (n_durable node) with (core_durable c); by rewrite ls_applied0. }
  rewrite Happ by done. cbn [and_then hr_host hr_output].
  assert (compact_due (rh_with_node node (rh_with_node node h)) = false) as -> by exact ls_compact0.
  eexists. split; [reflexivity|]. split; cbn; [by rewrite E4|done].
Qed.

Lemma listens_same c c' : core_host c' = core_host c -> core_config c' = core_config c ->
  core_sender c' = core_sender c -> core_failure c' = core_failure c -> listens c -> listens c'.
Proof.
  intros E1 E2 E3 E4 []. split; unfold core_stopped, known_peer, core_role, core_durable, core_node in *;
    rewrite ?E1, ?E2, ?E3, ?E4; done.
Qed.

(** What the follower keeps while it handles a chunk, up to the buffer. *)
Definition hears (incoming : option Incoming) (r : CoreRun) : Prop :=
  listens (cu_core r) /\ core_incoming (cu_core r) = incoming.

Lemma update_hears incoming f r : hears incoming r ->
  (forall c, core_host (f c) = core_host c /\ core_config (f c) = core_config c /\ core_sender (f c) = core_sender c /\
     core_failure (f c) = core_failure c /\ core_incoming (f c) = core_incoming c) ->
  wp (update f) (fun r' _ => hears incoming r') r.
Proof.
  intros [L Hi] Hf. apply wp_update. destruct (Hf (cu_core r)) as (E1 & E2 & E3 & E4 & E5).
  split; [by apply (listens_same (cu_core r))|]. cbn [cu_core]. by rewrite E5.
Qed.

Lemma same_log_synchronized incoming r : hears incoming r ->
  wp (synchronize_log (core_durable (cu_core r))) (fun r' _ => hears incoming r') r.
Proof.
  intros H. pose proof H as [L Hi]. destruct (ls_store _ L) as (store & Hst & _). unfold synchronize_log.
  do 2 wp_step. unfold get_store. apply wp_bind. do 2 wp_step. apply (wp_option _ _ _ _ Hst).
  rewrite Z.eqb_refl. unfold log_repaired. rewrite common_prefix_same, Nat.ltb_irrefl, andb_false_r. cbn [negb orb whenM].
  apply wp_bind. destruct (negb (core_index_initialized (cu_core r))).
  - apply wp_bind. eapply wp_mono; [|by apply update_hears]. intros r1 [] H1.
    eapply wp_mono; [|by apply update_hears]. intros r2 [] H2. wp_step. by wp_step; wp_step.
  - eapply wp_mono; [|by apply update_hears]. intros r1 [] H1. wp_step. by wp_step; wp_step.
Qed.

(** The header changes nothing at the follower that matters here. *)
Lemma header_driven incoming q r : hears incoming r ->
  wp (drive fsys (RecvSnapshot (mkSnapshotRequest term leader (sp_index s) (sp_term s) q false)) None)
    (fun r' x => hears incoming r' /\ exists output, x = Ok output /\ he_send output = [] /\ he_snapshots output = []) r.
Proof.
  intros [L Hi]. destruct r as [c n]. cbn [cu_core] in *.
  destruct (header_dispatched c q (sys_os fsys n) (sys_fuel fsys) L) as (output & Ed & O1 & O2).
  set (node := n_with_volatile _ _) in Ed. set (h := drop_pins _) in Ed.
  assert (listens (set_host h c)) as L'.
  { destruct L. split; try done. destruct ls_progress0 as [x Hx].
    unfold core_node, h, node. cbn. rewrite lookup_fmap, Hx. by eexists. }
  unfold drive. do 2 wp_step. apply wp_bind. exists (mkCoreRun (set_host h c) (S n)), (Ok output). split.
  { unfold dispatch_host. cbn [cu_core cu_dispatches]. by rewrite Ed. }
  do 2 wp_step. cbn [cu_core]. rewrite (ls_role _ L). change (core_role (set_host h c)) with Follower.
  rewrite (bool_decide_eq_true_2 (Follower = Follower)) by done. cbn [negb whenM]. do 2 wp_step. apply wp_bind.
  unfold forget_leader. do 2 wp_step. cbn [cu_core]. change (core_durable (set_host h c)) with (core_durable c).
  rewrite Z.eqb_refl. rewrite (bool_decide_eq_false_2 (Follower = Leader)) by done. cbn [negb orb]. rewrite andb_false_r. cbn [whenM].
  wp_step. apply wp_bind. change (core_durable c) with (core_durable (cu_core (mkCoreRun (set_host h c) (S n)))).
  eapply wp_mono; [|by apply (same_log_synchronized incoming)]. intros r' [] H. cbn [andb]. wp_step.
  split; [done|]. by exists output.
Qed.

Lemma nothing_released incoming output bytes r : hears incoming r -> he_send output = [] -> he_snapshots output = [] ->
  wp (release output bytes) (fun r' _ => hears incoming r') r.
Proof.
  intros H O1 O2. unfold release. rewrite O1, O2. cbn [for_each]. do 2 wp_step. do 2 wp_step. do 2 wp_step.
  destruct (_ && _); cbn [whenM]; [by apply update_hears|by wp_step].
Qed.

(** A chunk reaches the buffer. *)
Lemma chunk_reaches_buffer offset q payload incoming r : hears incoming r -> 0 <= offset <= size ->
  decode_install_snapshot payload = Ok (chunk_message term leader limit s offset) ->
  exists r', hears incoming r' /\
    handle fsys (mkFrame tInstallSnapshot q payload) leader r =
    assemble fsys (chunk_message term leader limit s offset) q
      (mkSnapshotRequest term leader (sp_index s) (sp_term s) q true) r'.
Proof.
  intros H Ho Hd. pose proof H as [L Hi]. destruct (ls_store _ L) as (store & Hst & Hct).
  unfold handle. rewrite bind_get, (ls_stopped _ L), (ls_known _ L). cbn [orb negb].
  destruct (ls_progress _ L) as [progress Hp]. rewrite Hp. change (of_option (Some progress)) with (mret (M:=M) progress).
  rewrite (bind_step _ _ r r progress) by done. cbn [fr_type fr_payload fr_correlation]. rewrite Z.eqb_refl. cbv iota. rewrite Hd.
  cbn [pi_leader_id chunk_message]. rewrite bool_decide_eq_true_2 by done. cbn [whenM].
  unfold on_snapshot. rewrite (chunk_not_refused term leader limit s ltac:(lia) Hs offset Ho).
  rewrite bind_get, (bind_step get_store _ r r store) by (unfold get_store; by rewrite bind_get, Hst).
  cbv zeta. cbn [pi_last_included_index pi_last_included_term pi_term pi_leader_id chunk_message].
  rewrite (proj2 (Z.ltb_ge (sp_term s) _)), andb_false_r by exact Hct.
  destruct (header_driven incoming q r H) as (r1 & x & E1 & H1 & output & -> & O1 & O2).
  rewrite (bind_step _ _ _ _ _ E1).
  destruct (nothing_released incoming output 0 r1 H1 O1 O2) as (r2 & [] & E2 & H2). rewrite (bind_step _ _ _ _ _ E2).
  rewrite bind_get. destruct H2 as [L2 Hi2]. rewrite (ls_term _ L2), (ls_role _ L2), Z.eqb_refl, bool_decide_eq_true_2 by done.
  cbn [negb orb].
  destruct (update_hears incoming (set_leader_id leader) r2 (conj L2 Hi2) ltac:(done)) as (r3 & [] & E3 & H3).
  rewrite (bind_step _ _ _ _ _ E3).
  destruct (update_hears incoming (set_elapsed 0) r3 H3 ltac:(done)) as (r4 & [] & E4 & H4).
  rewrite (bind_step _ _ _ _ _ E4). destruct (ls_store _ (proj1 H4)) as (store4 & Hst4 & _).
  rewrite (bind_step get_store _ r4 r4 store4) by (unfold get_store; by rewrite bind_get, Hst4).
  rewrite (proj2 (Z.leb_gt (sp_index s) _)) by apply (ls_behind _ L2). by exists r4.
Qed.

(** The buffer before the chunk at [offset]. *)
Definition buffered_to (offset : Z) (incoming : option Incoming) : Prop :=
  incoming = Some (buffer_of term leader s offset) \/
  offset = 0 /\ same_stream incoming (chunk_message term leader limit s offset) = false.

Definition acknowledgement (offset : Z) : ProtoSnapshotResponse := mkProtoSnapshotResponse term follower true offset.

Lemma acknowledgement_sent q offset incoming r : hears incoming r -> 0 <= offset <= max_u64 ->
  exists r' payload, reply_chunk leader q true offset r = Some (r', tt) /\ hears incoming r' /\
    last_frame r' = Some (mkFrame tInstallSnapshotResponse q payload) /\
    decode_snapshot_response payload = Ok (acknowledgement offset).
Proof.
  intros H Ho. pose proof H as [L _]. pose proof (id_size follower Hfollower) as Hid.
  assert (snapshot_response_ok (acknowledgement offset)) as Hok.
  { unfold snapshot_response_ok. cbn. unfold u64, max_u64 in *. split_and!; try lia. apply text_fits. unfold max_u64. lia. }
  destruct (snapshot_response_back _ Hok) as (payload & Ee & Ed). pose proof (snapshot_response_size _ _ Ee) as Hsz.
  cbn [psr_follower_id acknowledgement] in Hsz.
  unfold reply_chunk. rewrite bind_get, (ls_term _ L), (ls_id _ L). unfold acknowledgement in Ee. rewrite Ee.
  unfold send. rewrite bind_get, (ls_stopped _ L). cbn [fr_payload].
  rewrite (proj2 (Z.ltb_ge kMaxFramePayload _)) by (unfold kMaxFramePayload; lia). rewrite (ls_sender _ L). cbn [whenM].
  eexists _, payload. split; [reflexivity|]. split; [|split; [|done]].
  - destruct H as [_ Hi]. split; [|done]. by apply (listens_same (cu_core r)).
  - unfold last_frame. cbn [cu_core core_calls set_calls]. by rewrite last_snoc.
Qed.

Lemma follower_acknowledges offset q payload incoming r :
  hears incoming r -> 0 <= offset <= size -> buffered_to offset incoming -> chunk_final limit s offset = false ->
  decode_install_snapshot payload = Ok (chunk_message term leader limit s offset) ->
  exists r' reply, handle fsys (mkFrame tInstallSnapshot q payload) leader r = Some (r', tt) /\
    hears (Some (buffer_of term leader s (chunk_end limit s offset))) r' /\
    last_frame r' = Some (mkFrame tInstallSnapshotResponse q reply) /\
    decode_snapshot_response reply = Ok (acknowledgement (chunk_end limit s offset)).
Proof.
  intros H Ho Hb Hf Hd. destruct (chunk_reaches_buffer offset q payload incoming r H Ho Hd) as (r1 & H1 & ->).
  destruct (chunk_end_at term limit s ltac:(lia) Hs offset Ho) as (He & _). pose proof Hs as (_ & _ & _ & Hk). unfold kMaximumSnapshotBytes in Hk.
  unfold assemble. rewrite bind_get, (proj2 H1), (absorb_next term leader limit s ltac:(lia) Hs offset incoming Ho Hb), Hf.
  set (i := buffer_of term leader s (chunk_end limit s offset)).
  assert (hears (Some i) (mkCoreRun (set_incoming (Some i) (cu_core r1)) (cu_dispatches r1))) as H2.
  { destruct H1 as [L1 _]. split; [by apply (listens_same (cu_core r1))|done]. }
  rewrite (bind_step (update (set_incoming (Some i))) _ r1 (mkCoreRun (set_incoming (Some i) (cu_core r1)) (cu_dispatches r1)) tt) by done.
  assert (text_size (ic_bytes i) = chunk_end limit s offset) as -> by (cbn; apply substr_size; unfold size in *; lia).
  cbn [pi_leader_id chunk_message].
  destruct (acknowledgement_sent q (chunk_end limit s offset) (Some i) _ H2) as (r3 & reply & E & H3 & Hl & Hr);
    [unfold max_u64, size in *; lia|]. exists r3, reply. done.
Qed.

(** One chunk that is not the last. *)
Lemma turn_goes_on offset q incoming l f :
  awaits offset q l -> hears incoming f -> 0 <= offset <= size -> buffered_to offset incoming ->
  chunk_final limit s offset = false -> q + 1 < max_u64 ->
  exists l' f', turn l f =
      Some (chunk_message term leader limit s offset, acknowledgement (offset + limit), l', f') /\
    awaits (offset + limit) (q + 1) l' /\ hears (Some (buffer_of term leader s (offset + limit))) f' /\
    offset + limit <= size.
Proof.
  intros A H Ho Hb Hf Hq. destruct (aw_chunk _ _ _ A) as (payload & pinned & _ & Hd & Hl & _).
  destruct (chunk_end_at term limit s ltac:(lia) Hs offset Ho) as (He & _).
  assert (chunk_end limit s offset = offset + limit /\ offset + limit <= size) as [Ee Hle].
  { unfold chunk_final in Hf. apply Z.eqb_neq in Hf. unfold size. lia. }
  destruct (follower_acknowledges offset q payload incoming f H Ho Hb Hf Hd) as (f' & reply & Eh & H' & Hl' & Hr).
  destruct (leader_goes_on offset q l reply A Ho Hf Hq Hr) as (l' & El & A'). rewrite Ee in *.
  exists l', f'. split; [|done]. unfold turn. rewrite Hl. cbn [mbind option_bind fr_payload]. rewrite Hd. cbn [decoded mbind option_bind].
  rewrite Eh. cbn [mbind option_bind]. rewrite Hl'. cbn [mbind option_bind fr_payload]. rewrite Hr. cbn [decoded mbind option_bind].
  by rewrite El.
Qed.

(** The exchange of the [i]-th chunk. *)
Definition exchanged (i : nat) : ProtoInstallSnapshot * ProtoSnapshotResponse :=
  (chunk_message term leader limit s (limit * Z.of_nat i), acknowledgement (limit * Z.of_nat (S i))).

Lemma turns_run n : forall i q incoming l f,
  awaits (limit * Z.of_nat i) q l -> hears incoming f -> buffered_to (limit * Z.of_nat i) incoming ->
  limit * Z.of_nat i <= size <= limit * Z.of_nat (i + S n) -> q + Z.of_nat n < max_u64 ->
  exists k l' f' incoming', (k <= n)%nat /\ turns k l f = Some (exchanged <$> seq i k, l', f') /\
    chunk_final limit s (limit * Z.of_nat (i + k)) = true /\ limit * Z.of_nat (i + k) <= size /\
    awaits (limit * Z.of_nat (i + k)) (q + Z.of_nat k) l' /\ hears incoming' f' /\
    buffered_to (limit * Z.of_nat (i + k)) incoming'.
Proof.
  induction n as [|n IH]; intros i q incoming l f A H Hb Hsz Hq;
    (destruct (chunk_final limit s (limit * Z.of_nat i)) eqn:Hf;
      [exists 0%nat, l, f, incoming; rewrite Nat.add_0_r; replace (q + Z.of_nat 0) with q by lia; by split_and!; [lia|..|lia| | |]|]).
  - exfalso. destruct (chunk_end_at term limit s ltac:(lia) Hs (limit * Z.of_nat i)) as (He & _); [unfold size in *; lia|].
    unfold chunk_final in Hf. apply Z.eqb_neq in Hf. unfold size in *. lia.
  - destruct (turn_goes_on _ q incoming l f A H ltac:(lia) Hb Hf ltac:(lia)) as (l1 & f1 & E & A1 & H1 & Hle).
    replace (limit * Z.of_nat i + limit) with (limit * Z.of_nat (S i)) in * by lia.
    destruct (IH (S i) (q + 1) _ l1 f1 A1 H1 (or_introl eq_refl)) as (k & l2 & f2 & inc & Hk & Et & Hfin & Hend & A2 & H2 & Hb2);
      [lia|lia|]. replace (S i + k)%nat with (i + S k)%nat in * by lia. replace (q + 1 + Z.of_nat k) with (q + Z.of_nat (S k)) in * by lia.
    exists (S k), l2, f2, inc. split; [lia|]. split; [|done]. cbn [turns seq fmap list_fmap]. rewrite E. cbn [mbind option_bind].
    by rewrite Et.
Qed.

(** C15: A transfer whose frames arrive completes. Let a running leader, with
    a chunk limit that opening a replica admits, release a snapshot of at most
    64 MiB with a 16-character hash ([sendable]) to a follower for which it has
    no stream open, with correlation ids left for the chunks; and let the
    follower be a running follower of its term, behind the snapshot and not in
    conflict with it, with nothing to apply or compact, and not in the middle of
    that very stream (a follower that already holds a part of it may stall the
    transfer). Then the leader sends the first chunk, and when each frame is
    handled by the other end, [k <= size / limit] turns follow: in each of them
    the leader's chunk is the next one of the payload, the follower refuses
    nothing and acknowledges exactly the end of the chunk, and the leader goes on
    from there. The frame that the leader then sends is the last chunk, and on it
    the follower goes on to verify and install exactly the payload of the
    leader's snapshot. *)
Theorem transfer_completes pinned l f :
  leads (cu_core l) -> core_outgoing (cu_core l) !! follower = None ->
  ps_snapshot pinned = s -> sn_peer (ps_request pinned) = follower ->
  core_snapshot_correlation (cu_core l) + text_size (sp_payload s) / limit < max_u64 ->
  listens (cu_core f) -> same_stream (core_incoming (cu_core f)) (chunk_message term leader limit s 0) = false ->
  exists l1 k l2 f2 frame f3,
    release_snapshot pinned l = Some (l1, tt) /\ Z.of_nat k <= text_size (sp_payload s) / limit /\
    turns k l1 f = Some (exchanged <$> seq 0 k, l2, f2) /\ last_frame l2 = Some frame /\
    let m := chunk_message term leader limit s (limit * Z.of_nat k) in
    decode_install_snapshot (fr_payload frame) = Ok m /\ pi_more m = false /\
    handle fsys frame leader f2 =
      finish_stream fsys m (fr_correlation frame)
        (mkSnapshotRequest term leader (sp_index s) (sp_term s) (fr_correlation frame) true) (sp_payload s) f3 /\
    listens (cu_core f3).
Proof.
  intros L Hout Hsn Hpeer Hq Lf Hd. pose proof (text_size_nonneg (sp_payload s)) as H0.
  pose proof (Z.div_pos (text_size (sp_payload s)) limit H0 ltac:(lia)) as Hdiv.
  pose proof (Z.div_mod (text_size (sp_payload s)) limit ltac:(lia)). pose proof (Z.mod_pos_bound (text_size (sp_payload s)) limit ltac:(lia)).
  set (r0 := mkCoreRun (set_outgoing (<[follower := mkTransfer pinned default_frame 0 false]> (core_outgoing (cu_core l))) (cu_core l)) (cu_dispatches l)).
  assert (leads (cu_core r0)) as L0 by (destruct L; by split).
  destruct (send_chunk_awaits 0 (mkTransfer pinned default_frame 0 false) r0 L0) as (l1 & E1 & A1);
    [apply lookup_insert_eq|done|unfold size; lia|cbn; lia|].
  change (core_snapshot_correlation (cu_core r0)) with (core_snapshot_correlation (cu_core l)) in A1.
  set (n := Z.to_nat (text_size (sp_payload s) / limit)).
  assert (Z.of_nat n = text_size (sp_payload s) / limit) as Hn by (unfold n; lia).
  destruct (turns_run n 0 (core_snapshot_correlation (cu_core l)) (core_incoming (cu_core f)) l1 f) as (k & l2 & f2 & inc & Hk & Et & Hfin & Hend & A2 & H2 & Hb2);
    [by rewrite Z.mul_0_r|by split|right; by rewrite Z.mul_0_r|unfold size; nia|lia|].
  cbn [Nat.add] in *. destruct (aw_chunk _ _ _ A2) as (payload & pinned2 & _ & Hdec & Hl & _).
  destruct (chunk_reaches_buffer (limit * Z.of_nat k) (core_snapshot_correlation (cu_core l) + Z.of_nat k) payload inc f2 H2)
    as (f3 & H3 & E3); [lia|done|].
  exists l1, k, l2, f2, (mkFrame tInstallSnapshot (core_snapshot_correlation (cu_core l) + Z.of_nat k) payload), f3.
  split. { unfold release_snapshot. rewrite bind_get, Hpeer, Hout. by rewrite (bind_step _ _ l r0 tt) by done. }
  split; [lia|]. split; [done|]. split; [done|]. cbv zeta. cbn [fr_payload fr_correlation].
  split; [done|]. split; [cbn [pi_more chunk_message]; by rewrite Hfin|]. split; [|apply H3].
  rewrite E3. unfold assemble. rewrite bind_get, (proj2 H3), (absorb_next term leader limit s ltac:(lia) Hs _ inc) by (done || lia).
  by rewrite Hfin.
Qed.

End Transfer.

Definition example_snapshot : Snapshot :=
  mkSnapshot 7 2 "0123456789abcdef" [] "choreo".

(** Three chunks of two bytes, the first one delivered twice. *)
Lemma chunks_reassemble_witness :
  absorb (buffer [chunk_message 3 "n1" 2 example_snapshot 0; chunk_message 3 "n1" 2 example_snapshot 0;
                  chunk_message 3 "n1" 2 example_snapshot 2])
    (chunk_message 3 "n1" 2 example_snapshot 4) = Completed "choreo" /\ "choreo" = "choreo".
Proof.
  pose proof (chunks_reassemble (fun _ => "choreo")
    [chunk_message 3 "n1" 2 example_snapshot 0; chunk_message 3 "n1" 2 example_snapshot 0;
     chunk_message 3 "n1" 2 example_snapshot 2] (chunk_message 3 "n1" 2 example_snapshot 4)) as H.
  assert (forall o, o = 0 \/ o = 2 \/ o = 4 -> genuine (fun _ => "choreo") (chunk_message 3 "n1" 2 example_snapshot o)) as Hg.
  { intros o [->|[->| ->]]; (split; [vm_compute; congruence|split; [vm_compute; congruence|split; vm_compute; reflexivity]]). }
  specialize (H ltac:(repeat constructor; apply Hg; lia) ltac:(apply Hg; lia)).
  split; [vm_compute; reflexivity|exact (proj2 H)].
Defined.

(** Two replicas: the first one asks for the vote of the second one and becomes
    the leader of term 2. *)
Definition stream_replica (id peer : string) : ReplicaConfig :=
  mkReplicaConfig id "" [peer] true 7 3 6 100 512 262144 2.

Definition stream_opened (id peer : string) : option CoreRun :=
  match core_open (stream_replica id peer) true host_directory None calm_os with
  | Some (_, Ok c) => Some (mkCoreRun (set_sender true c) 0)
  | _ => None
  end.

Definition carried (from : CoreRun) (sender : string) (to : CoreRun) : option CoreRun :=
  frame ← last_frame from; '(r, _) ← handle demo_system frame sender to; Some r.

Definition stream_pair : option (CoreRun * CoreRun) :=
  l ← stream_opened "node-1" "node-2";
  f ← stream_opened "node-2" "node-1";
  '(l, _) ← for_each [0; 1; 2; 3; 4] (fun _ => heartbeat demo_system) l;
  f ← carried l "node-1" f;
  l ← carried f "node-2" l;
  Some (l, f).

Definition stream_pinned : PinnedSnapshot := mkPinned (mkSnapshotNeeded "node-2" 7 2 1) example_snapshot.

(** The two are as a transfer needs them. *)
Lemma stream_pair_ready : exists l f, stream_pair = Some (l, f) /\
  leads "node-1" "node-2" 2 2 (cu_core l) /\ core_outgoing (cu_core l) !! "node-2" = None /\
  core_snapshot_correlation (cu_core l) = 1 /\
  listens "node-1" "node-2" 2 example_snapshot (cu_core f) /\ core_incoming (cu_core f) = None.
Proof.
  assert (match stream_pair with
    | Some (mkCoreRun c _, mkCoreRun d _) => bool_decide (
        core_stopped c = false /\ known_peer c "node-2" = true /\ is_Some (v_peers (n_volatile (core_node c)) !! "node-2") /\
        core_role c = Leader /\ core_sender c = true /\ d_term (core_durable c) = 2 /\ rf_id (core_config c) = "node-1" /\
        rf_max_snapshot_chunk_bytes (core_config c) = 2 /\ is_some (core_outgoing c !! "node-2") = false /\
        core_snapshot_correlation c = 1 /\
        core_stopped d = false /\ known_peer d "node-1" = true /\ is_Some (v_peers (n_volatile (core_node d)) !! "node-1") /\
        core_role d = Follower /\ core_sender d = true /\ d_term (core_durable d) = 2 /\ rf_id (core_config d) = "node-2" /\
        valid_durable (core_durable d) = true /\ is_some (n_pending (core_node d)) = false /\
        (d_applied (core_durable d) <? d_commit (core_durable d)) = false /\ compact_due (core_host d) = false /\
        d_commit (core_durable d) < 7 /\ default 0 (term_at (core_durable d) (d_commit (core_durable d))) <= 2 /\
        default 3 ((fun store => default 0 (log_term_at store (d_commit (core_durable d)))) <$>
          inspection_store (rh_adapter (core_host d))) <= 2 /\ is_some (core_incoming d) = false)
    | None => false end = true) as H by (vm_compute; reflexivity).
  destruct stream_pair as [[[c n1] [d n2]]|]; [|discriminate H]. apply bool_decide_eq_true in H.
  destruct H as (H1 & H2 & H3 & H4 & H5 & H6 & H7 & H8 & H9 & H10 & F1 & F2 & F3 & F4 & F5 & F6 & F7 & F8 & F9 & F10 & F11 & F12 & F13 & F14 & F15).
  exists (mkCoreRun c n1), (mkCoreRun d n2). split; [reflexivity|]. cbn [cu_core]. split; [by split|].
  split; [by destruct (core_outgoing c !! "node-2")|]. split; [done|]. split; [|by destruct (core_incoming d)].
  split; try done; [by destruct (n_pending (core_node d))| |].
  - intros t Ht. by rewrite Ht in F13.
  - destruct (inspection_store (rh_adapter (core_host d))) as [store|]; [by exists store|]. cbn in F14. lia.
Qed.

Lemma transfer_completes_witness :
  exists l f l1 k l2 f2 frame f3, stream_pair = Some (l, f) /\ release_snapshot stream_pinned l = Some (l1, tt) /\
    Z.of_nat k <= 3 /\
    turns demo_system demo_system "node-1" "node-2" k l1 f =
      Some (exchanged "node-1" "node-2" 2 2 example_snapshot <$> seq 0 k, l2, f2) /\
    last_frame l2 = Some frame /\
    handle demo_system frame "node-1" f2 =
      finish_stream demo_system (chunk_message 2 "node-1" 2 example_snapshot (2 * Z.of_nat k)) (fr_correlation frame)
        (mkSnapshotRequest 2 "node-1" 7 2 (fr_correlation frame) true) "choreo" f3.
Proof.
  destruct stream_pair_ready as (l & f & E & L & Ho & Hq & Lf & Hi).
  assert (sendable 2 example_snapshot) as Hs.
  { split; [reflexivity|]. split; [unfold max_u64; cbn; lia|]. split; [cbn; lia|]. vm_compute. congruence. }
  destruct (transfer_completes demo_system demo_system "node-1" "node-2" 2 2 example_snapshot ltac:(lia) Hs
    ltac:(unfold max_u64; lia) ltac:(reflexivity) ltac:(reflexivity) stream_pinned l f L Ho eq_refl eq_refl)
    as (l1 & k & l2 & f2 & frame & f3 & R & Hk & Ht & Hl & _ & _ & Hh & _);
    [rewrite Hq; reflexivity|exact Lf|by rewrite Hi|].
  exists l, f, l1, k, l2, f2, frame, f3. split; [exact E|]. split; [exact R|]. split; [exact Hk|]. split; [exact Ht|].
  split; [exact Hl|exact Hh].
Defined.

(** A leader that waits for chunk 0 and a follower that took a delayed chunk 1. *)
Lemma follower_ahead_stalls_witness :
  exists disk c0, demo_opened = Some (disk, Ok c0) /\
  let transfer := mkTransfer (mkPinned (mkSnapshotNeeded "node-2" 7 2 1) example_snapshot)
                    (mkFrame tInstallSnapshot 9 []) 2 false in
  let r := mkCoreRun (set_outgoing {["node-2" := transfer]} c0) 0 in
  let i := buffer_of 3 "n1" example_snapshot 4 in
  buffer [chunk_message 3 "n1" 2 example_snapshot 0; chunk_message 3 "n1" 2 example_snapshot 2] = Some i /\
  absorb (Some i) (chunk_message 3 "n1" 2 example_snapshot 0) = Repeated i /\
  on_snapshot_reply demo_system
    (mkProtoSnapshotResponse (d_term (core_durable (cu_core r))) "node-2" true (text_size (ic_bytes i))) 9 r = Some (r, tt).
Proof.
  destruct demo_opened as [[disk [c0|e]]|] eqn:E; [|exfalso; revert E; vm_compute; discriminate..].
  exists disk, c0. split; [reflexivity|]. cbv zeta. split; [vm_compute; reflexivity|].
  assert (sendable 3 example_snapshot) as Hs.
  { split; [reflexivity|]. split; [unfold max_u64; cbn; lia|]. split; [cbn; lia|]. vm_compute. congruence. }
  apply (follower_ahead_stalls 3 "n1" 2 example_snapshot ltac:(lia) Hs demo_system _ "node-2"
    (mkTransfer (mkPinned (mkSnapshotNeeded "node-2" 7 2 1) example_snapshot)
       (mkFrame tInstallSnapshot 9 []) 2 false) 0 4);
    [vm_compute; split; congruence|vm_compute; split; congruence| |vm_compute; reflexivity|reflexivity].
  cbn [cu_core core_outgoing set_outgoing]. apply lookup_singleton_eq.
Defined.
