(* ===== verification/Replica.v ===== *)
(** * The legacy replica

    [cpp-runtime/include/choreoos/replication/replica.hpp] and
    [src/replication/replica.cpp]: the replica that nodes run by default. It
    writes its own log, votes, elections and snapshot streams on a
    [FileEngine], without the transition core: with a fixed leader, or with
    elections when they are configured.

    The calls of [sender_] and [commit_hook_] are recorded in [lr_calls], in
    order. Methods are in a state monad. Every operation on the store takes the
    outcomes of its system calls from [lo_os] (and [lo_install] for an install)
    at the number of operations done before it. *)

From S2P Require Import Prelude Text Stream Types Model EventCodec Machine SnapshotText Bytes Wal Metadata Transaction SnapshotFile FileEngine Frame Messages Protobuf MessageCodec ReplicaTypes.

(** ** Data *)

Inductive Role := Follower | Candidate | Leader.

#[export] Instance Role_eq_dec : EqDecision Role.
Proof. solve_decision. Defined.

Record Probe := mkProbe {
  pb_frame : Frame;
  pb_term : Z;
  pb_index : Z;
  pb_offset : Z;
}.

Record Peer := mkPeer {
  pe_id : string;
  pe_next_index : Z;
  pe_match_index : Z;
  pe_snapshot_index : Z;
  pe_snapshot_offset : Z;
  pe_snapshot_sent_tick : Z;
  pe_probe : option Probe;
}.

(** The member [active] is the constructor of the option around it. *)
Record IncomingSnapshot := mkIncomingSnapshot {
  in_index : Z;
  in_term : Z;
  in_hash : string;
  in_data : string;
}.

Record Replica := mkReplica {
  lr_config : ReplicaConfig;
  lr_store : FileEngine;
  lr_speculative : ChoreographyState;
  lr_speculative_dirty : bool;
  lr_history_anchor : Z;
  lr_command_index : gmap string Z;
  lr_peers : list Peer;
  lr_incoming : option IncomingSnapshot;
  lr_ticks : Z;
  lr_sender : bool;
  lr_commit_hook : bool;
  lr_next_correlation : Z;
  lr_role : Role;
  lr_halted : bool;
  lr_term : Z;
  lr_voted_for : option string;
  lr_votes_from : list string;
  lr_elapsed : Z;
  lr_timeout : Z;
  lr_rng : Z;
  lr_metrics : ConsensusMetrics;
  lr_calls : list Call;
}.

(** ** Fields *)

Definition set_config (v : ReplicaConfig) (r : Replica) : Replica :=
  mkReplica v (lr_store r) (lr_speculative r) (lr_speculative_dirty r) (lr_history_anchor r)
    (lr_command_index r) (lr_peers r) (lr_incoming r) (lr_ticks r) (lr_sender r) (lr_commit_hook r)
    (lr_next_correlation r) (lr_role r) (lr_halted r) (lr_term r) (lr_voted_for r) (lr_votes_from r)
    (lr_elapsed r) (lr_timeout r) (lr_rng r) (lr_metrics r) (lr_calls r).

Definition set_store (v : FileEngine) (r : Replica) : Replica :=
  mkReplica (lr_config r) v (lr_speculative r) (lr_speculative_dirty r) (lr_history_anchor r)
    (lr_command_index r) (lr_peers r) (lr_incoming r) (lr_ticks r) (lr_sender r) (lr_commit_hook r)
    (lr_next_correlation r) (lr_role r) (lr_halted r) (lr_term r) (lr_voted_for r) (lr_votes_from r)
    (lr_elapsed r) (lr_timeout r) (lr_rng r) (lr_metrics r) (lr_calls r).

Definition set_speculative (v : ChoreographyState) (r : Replica) : Replica :=
  mkReplica (lr_config r) (lr_store r) v (lr_speculative_dirty r) (lr_history_anchor r) (lr_command_index r)
    (lr_peers r) (lr_incoming r) (lr_ticks r) (lr_sender r) (lr_commit_hook r) (lr_next_correlation r)
    (lr_role r) (lr_halted r) (lr_term r) (lr_voted_for r) (lr_votes_from r) (lr_elapsed r) (lr_timeout r)
    (lr_rng r) (lr_metrics r) (lr_calls r).

Definition set_speculative_dirty (v : bool) (r : Replica) : Replica :=
  mkReplica (lr_config r) (lr_store r) (lr_speculative r) v (lr_history_anchor r) (lr_command_index r)
    (lr_peers r) (lr_incoming r) (lr_ticks r) (lr_sender r) (lr_commit_hook r) (lr_next_correlation r)
    (lr_role r) (lr_halted r) (lr_term r) (lr_voted_for r) (lr_votes_from r) (lr_elapsed r) (lr_timeout r)
    (lr_rng r) (lr_metrics r) (lr_calls r).

Definition set_history_anchor (v : Z) (r : Replica) : Replica :=
  mkReplica (lr_config r) (lr_store r) (lr_speculative r) (lr_speculative_dirty r) v (lr_command_index r)
    (lr_peers r) (lr_incoming r) (lr_ticks r) (lr_sender r) (lr_commit_hook r) (lr_next_correlation r)
    (lr_role r) (lr_halted r) (lr_term r) (lr_voted_for r) (lr_votes_from r) (lr_elapsed r) (lr_timeout r)
    (lr_rng r) (lr_metrics r) (lr_calls r).

Definition set_command_index (v : gmap string Z) (r : Replica) : Replica :=
  mkReplica (lr_config r) (lr_store r) (lr_speculative r) (lr_speculative_dirty r) (lr_history_anchor r) v
    (lr_peers r) (lr_incoming r) (lr_ticks r) (lr_sender r) (lr_commit_hook r) (lr_next_correlation r)
    (lr_role r) (lr_halted r) (lr_term r) (lr_voted_for r) (lr_votes_from r) (lr_elapsed r) (lr_timeout r)
    (lr_rng r) (lr_metrics r) (lr_calls r).

Definition set_peers (v : list Peer) (r : Replica) : Replica :=
  mkReplica (lr_config r) (lr_store r) (lr_speculative r) (lr_speculative_dirty r) (lr_history_anchor r)
    (lr_command_index r) v (lr_incoming r) (lr_ticks r) (lr_sender r) (lr_commit_hook r)
    (lr_next_correlation r) (lr_role r) (lr_halted r) (lr_term r) (lr_voted_for r) (lr_votes_from r)
    (lr_elapsed r) (lr_timeout r) (lr_rng r) (lr_metrics r) (lr_calls r).

Definition set_incoming (v : option IncomingSnapshot) (r : Replica) : Replica :=
  mkReplica (lr_config r) (lr_store r) (lr_speculative r) (lr_speculative_dirty r) (lr_history_anchor r)
    (lr_command_index r) (lr_peers r) v (lr_ticks r) (lr_sender r) (lr_commit_hook r)
    (lr_next_correlation r) (lr_role r) (lr_halted r) (lr_term r) (lr_voted_for r) (lr_votes_from r)
    (lr_elapsed r) (lr_timeout r) (lr_rng r) (lr_metrics r) (lr_calls r).

Definition set_ticks (v : Z) (r : Replica) : Replica :=
  mkReplica (lr_config r) (lr_store r) (lr_speculative r) (lr_speculative_dirty r) (lr_history_anchor r)
    (lr_command_index r) (lr_peers r) (lr_incoming r) v (lr_sender r) (lr_commit_hook r)
    (lr_next_correlation r) (lr_role r) (lr_halted r) (lr_term r) (lr_voted_for r) (lr_votes_from r)
    (lr_elapsed r) (lr_timeout r) (lr_rng r) (lr_metrics r) (lr_calls r).

Definition set_sender (v : bool) (r : Replica) : Replica :=
  mkReplica (lr_config r) (lr_store r) (lr_speculative r) (lr_speculative_dirty r) (lr_history_anchor r)
    (lr_command_index r) (lr_peers r) (lr_incoming r) (lr_ticks r) v (lr_commit_hook r)
    (lr_next_correlation r) (lr_role r) (lr_halted r) (lr_term r) (lr_voted_for r) (lr_votes_from r)
    (lr_elapsed r) (lr_timeout r) (lr_rng r) (lr_metrics r) (lr_calls r).

Definition set_commit_hook (v : bool) (r : Replica) : Replica :=
  mkReplica (lr_config r) (lr_store r) (lr_speculative r) (lr_speculative_dirty r) (lr_history_anchor r)
    (lr_command_index r) (lr_peers r) (lr_incoming r) (lr_ticks r) (lr_sender r) v (lr_next_correlation r)
    (lr_role r) (lr_halted r) (lr_term r) (lr_voted_for r) (lr_votes_from r) (lr_elapsed r) (lr_timeout r)
    (lr_rng r) (lr_metrics r) (lr_calls r).

Definition set_next_correlation (v : Z) (r : Replica) : Replica :=
  mkReplica (lr_config r) (lr_store r) (lr_speculative r) (lr_speculative_dirty r) (lr_history_anchor r)
    (lr_command_index r) (lr_peers r) (lr_incoming r) (lr_ticks r) (lr_sender r) (lr_commit_hook r) v
    (lr_role r) (lr_halted r) (lr_term r) (lr_voted_for r) (lr_votes_from r) (lr_elapsed r) (lr_timeout r)
    (lr_rng r) (lr_metrics r) (lr_calls r).

Definition set_role (v : Role) (r : Replica) : Replica :=
  mkReplica (lr_config r) (lr_store r) (lr_speculative r) (lr_speculative_dirty r) (lr_history_anchor r)
    (lr_command_index r) (lr_peers r) (lr_incoming r) (lr_ticks r) (lr_sender r) (lr_commit_hook r)
    (lr_next_correlation r) v (lr_halted r) (lr_term r) (lr_voted_for r) (lr_votes_from r) (lr_elapsed r)
    (lr_timeout r) (lr_rng r) (lr_metrics r) (lr_calls r).

Definition set_halted (v : bool) (r : Replica) : Replica :=
  mkReplica (lr_config r) (lr_store r) (lr_speculative r) (lr_speculative_dirty r) (lr_history_anchor r)
    (lr_command_index r) (lr_peers r) (lr_incoming r) (lr_ticks r) (lr_sender r) (lr_commit_hook r)
    (lr_next_correlation r) (lr_role r) v (lr_term r) (lr_voted_for r) (lr_votes_from r) (lr_elapsed r)
    (lr_timeout r) (lr_rng r) (lr_metrics r) (lr_calls r).

Definition set_term (v : Z) (r : Replica) : Replica :=
  mkReplica (lr_config r) (lr_store r) (lr_speculative r) (lr_speculative_dirty r) (lr_history_anchor r)
    (lr_command_index r) (lr_peers r) (lr_incoming r) (lr_ticks r) (lr_sender r) (lr_commit_hook r)
    (lr_next_correlation r) (lr_role r) (lr_halted r) v (lr_voted_for r) (lr_votes_from r) (lr_elapsed r)
    (lr_timeout r) (lr_rng r) (lr_metrics r) (lr_calls r).

Definition set_voted_for (v : option string) (r : Replica) : Replica :=
  mkReplica (lr_config r) (lr_store r) (lr_speculative r) (lr_speculative_dirty r) (lr_history_anchor r)
    (lr_command_index r) (lr_peers r) (lr_incoming r) (lr_ticks r) (lr_sender r) (lr_commit_hook r)
    (lr_next_correlation r) (lr_role r) (lr_halted r) (lr_term r) v (lr_votes_from r) (lr_elapsed r)
    (lr_timeout r) (lr_rng r) (lr_metrics r) (lr_calls r).

Definition set_votes_from (v : list string) (r : Replica) : Replica :=
  mkReplica (lr_config r) (lr_store r) (lr_speculative r) (lr_speculative_dirty r) (lr_history_anchor r)
    (lr_command_index r) (lr_peers r) (lr_incoming r) (lr_ticks r) (lr_sender r) (lr_commit_hook r)
    (lr_next_correlation r) (lr_role r) (lr_halted r) (lr_term r) (lr_voted_for r) v (lr_elapsed r)
    (lr_timeout r) (lr_rng r) (lr_metrics r) (lr_calls r).

Definition set_elapsed (v : Z) (r : Replica) : Replica :=
  mkReplica (lr_config r) (lr_store r) (lr_speculative r) (lr_speculative_dirty r) (lr_history_anchor r)
    (lr_command_index r) (lr_peers r) (lr_incoming r) (lr_ticks r) (lr_sender r) (lr_commit_hook r)
    (lr_next_correlation r) (lr_role r) (lr_halted r) (lr_term r) (lr_voted_for r) (lr_votes_from r) v
    (lr_timeout r) (lr_rng r) (lr_metrics r) (lr_calls r).

Definition set_timeout (v : Z) (r : Replica) : Replica :=
  mkReplica (lr_config r) (lr_store r) (lr_speculative r) (lr_speculative_dirty r) (lr_history_anchor r)
    (lr_command_index r) (lr_peers r) (lr_incoming r) (lr_ticks r) (lr_sender r) (lr_commit_hook r)
    (lr_next_correlation r) (lr_role r) (lr_halted r) (lr_term r) (lr_voted_for r) (lr_votes_from r)
    (lr_elapsed r) v (lr_rng r) (lr_metrics r) (lr_calls r).

Definition set_rng (v : Z) (r : Replica) : Replica :=
  mkReplica (lr_config r) (lr_store r) (lr_speculative r) (lr_speculative_dirty r) (lr_history_anchor r)
    (lr_command_index r) (lr_peers r) (lr_incoming r) (lr_ticks r) (lr_sender r) (lr_commit_hook r)
    (lr_next_correlation r) (lr_role r) (lr_halted r) (lr_term r) (lr_voted_for r) (lr_votes_from r)
    (lr_elapsed r) (lr_timeout r) v (lr_metrics r) (lr_calls r).

Definition set_metrics (v : ConsensusMetrics) (r : Replica) : Replica :=
  mkReplica (lr_config r) (lr_store r) (lr_speculative r) (lr_speculative_dirty r) (lr_history_anchor r)
    (lr_command_index r) (lr_peers r) (lr_incoming r) (lr_ticks r) (lr_sender r) (lr_commit_hook r)
    (lr_next_correlation r) (lr_role r) (lr_halted r) (lr_term r) (lr_voted_for r) (lr_votes_from r)
    (lr_elapsed r) (lr_timeout r) (lr_rng r) v (lr_calls r).

Definition set_calls (v : list Call) (r : Replica) : Replica :=
  mkReplica (lr_config r) (lr_store r) (lr_speculative r) (lr_speculative_dirty r) (lr_history_anchor r)
    (lr_command_index r) (lr_peers r) (lr_incoming r) (lr_ticks r) (lr_sender r) (lr_commit_hook r)
    (lr_next_correlation r) (lr_role r) (lr_halted r) (lr_term r) (lr_voted_for r) (lr_votes_from r)
    (lr_elapsed r) (lr_timeout r) (lr_rng r) (lr_metrics r) v.

Definition peer_next_index (v : Z) (p : Peer) : Peer :=
  mkPeer (pe_id p) v (pe_match_index p) (pe_snapshot_index p) (pe_snapshot_offset p) (pe_snapshot_sent_tick p) (pe_probe p).

Definition peer_match_index (v : Z) (p : Peer) : Peer :=
  mkPeer (pe_id p) (pe_next_index p) v (pe_snapshot_index p) (pe_snapshot_offset p) (pe_snapshot_sent_tick p) (pe_probe p).

Definition peer_snapshot_index (v : Z) (p : Peer) : Peer :=
  mkPeer (pe_id p) (pe_next_index p) (pe_match_index p) v (pe_snapshot_offset p) (pe_snapshot_sent_tick p) (pe_probe p).

Definition peer_snapshot_offset (v : Z) (p : Peer) : Peer :=
  mkPeer (pe_id p) (pe_next_index p) (pe_match_index p) (pe_snapshot_index p) v (pe_snapshot_sent_tick p) (pe_probe p).

Definition peer_snapshot_sent_tick (v : Z) (p : Peer) : Peer :=
  mkPeer (pe_id p) (pe_next_index p) (pe_match_index p) (pe_snapshot_index p) (pe_snapshot_offset p) v (pe_probe p).

Definition peer_probe (v : option Probe) (p : Peer) : Peer :=
  mkPeer (pe_id p) (pe_next_index p) (pe_match_index p) (pe_snapshot_index p) (pe_snapshot_offset p) (pe_snapshot_sent_tick p) v.

(** ** The monad *)

(** The outcomes of the system calls, by the number of the store operation. *)
Record LegacyOs := mkLegacyOs { lo_os : nat -> Os; lo_install : nat -> InstallOs }.

(** The replica and how many store operations it has done. *)
Record ReplicaRun := mkReplicaRun { ru_replica : Replica; ru_ops : nat }.

Definition L (A : Type) : Type := ReplicaRun -> ReplicaRun * A.

#[export] Instance L_ret : MRet L := fun A a r => (r, a).

#[export] Instance L_bind : MBind L := fun A B k m r => let '(r, a) := m r in k a r.

Definition get : L Replica := fun r => (r, ru_replica r).

Definition update (f : Replica -> Replica) : L unit := fun r =>
  (mkReplicaRun (f (ru_replica r)) (ru_ops r), tt).

Definition skip : L unit := mret tt.

Definition whenL (b : bool) (m : L unit) : L unit := if b then m else skip.

Fixpoint for_each {A} (l : list A) (body : A -> L unit) : L unit :=
  match l with
  | [] => skip
  | a :: rest => body a;; for_each rest body
  end.

(** ** Small parts *)

Definition config_leader (leader : string) (c : ReplicaConfig) : ReplicaConfig :=
  mkReplicaConfig (rf_id c) leader (rf_peers c) (rf_elections c) (rf_rng_seed c)
    (rf_election_timeout_min c) (rf_election_timeout_max c) (rf_snapshot_every c)
    (rf_max_append_entries c) (rf_max_append_bytes c) (rf_max_snapshot_chunk_bytes c).

(** The bounds, swapped when they are in the wrong order. *)
Definition config_bounds (min max : Z) (c : ReplicaConfig) : ReplicaConfig :=
  mkReplicaConfig (rf_id c) (rf_leader_id c) (rf_peers c) (rf_elections c) (rf_rng_seed c)
    (if max <? min then max else min) (if max <? min then min else max) (rf_snapshot_every c)
    (rf_max_append_entries c) (rf_max_append_bytes c) (rf_max_snapshot_chunk_bytes c).

Definition set_leader_id (leader : string) (r : Replica) : Replica :=
  set_config (config_leader leader (lr_config r)) r.

Definition count_role_changes (m : ConsensusMetrics) : ConsensusMetrics :=
  mkConsensusMetrics (wrap64 (cm_role_changes m + 1)) (cm_elections_started m) (cm_votes_granted m)
    (cm_step_downs m) (cm_messages_dropped_oversize m) (cm_snapshot_chunks_sent m).

Definition count_step_downs (m : ConsensusMetrics) : ConsensusMetrics :=
  mkConsensusMetrics (cm_role_changes m) (cm_elections_started m) (cm_votes_granted m)
    (wrap64 (cm_step_downs m + 1)) (cm_messages_dropped_oversize m) (cm_snapshot_chunks_sent m).

Definition tally (f : ConsensusMetrics -> ConsensusMetrics) : L unit :=
  update (fun r => set_metrics (f (lr_metrics r)) r).

Definition elections (r : Replica) : bool := rf_elections (lr_config r).

Definition is_leader (r : Replica) : bool :=
  if lr_halted r then false
  else if elections r then bool_decide (lr_role r = Leader)
  else bool_decide (rf_id (lr_config r) = rf_leader_id (lr_config r)).

Definition role_name (r : Replica) : string :=
  if lr_halted r then "halted"
  else if negb (elections r) then (if is_leader r then "leader" else "follower")
  else match lr_role r with Leader => "leader" | Candidate => "candidate" | Follower => "follower" end.

Definition last_index (r : Replica) : Z := last_log_index (lr_store r).

Definition last_term (r : Replica) : Z := default 0 (log_term_at (lr_store r) (last_index r)).

Definition find_index (r : Replica) (index : Z) : option Event := log_entry (lr_store r) index.

Definition majority (r : Replica) : Z := (Z.of_nat (length (lr_peers r)) + 1) / 2 + 1.

Definition is_configured_peer (r : Replica) (id : string) : bool :=
  existsb (fun peer => bool_decide (pe_id peer = id)) (lr_peers r).

Definition log_is_up_to_date (r : Replica) (last_log_term last_log_index : Z) : bool :=
  let ours := last_term r in
  if negb (last_log_term =? ours) then ours <? last_log_term
  else last_index r <=? last_log_index.

Definition find_command (r : Replica) (command_id : string) : option Event :=
  match lr_command_index r !! command_id with
  | Some index =>
      match find_index r index with
      | Some event => if bool_decide (ev_command event = command_id) then Some event else None
      | None => None
      end
  | None => None
  end.

Definition status (r : Replica) : NodeStatus :=
  mkNodeStatus (rf_id (lr_config r)) (rf_leader_id (lr_config r)) (role_name r) (lr_term r)
    (fe_commit (lr_store r)) (last_index r) (rp_state_hash (fe_report (lr_store r))) "".

Definition next_random : L Z :=
  r ← get;
  let rng := xorshift (lr_rng r) in
  update (set_rng rng);; mret rng.

Definition draw_timeout : L Z :=
  r ← get;
  let min := rf_election_timeout_min (lr_config r) in
  let span := to_i32 (rf_election_timeout_max (lr_config r) - min + 1) in
  if span <=? 1 then mret min
  else random ← next_random; mret (min + to_i32 (random mod wrap64 span)).

Definition set_election_bounds (min_ticks max_ticks : Z) : L unit :=
  update (fun r => set_config (config_bounds min_ticks max_ticks (lr_config r)) r);;
  timeout ← draw_timeout;
  update (set_timeout timeout);;
  update (set_elapsed 0).

Definition halt_after_storage_failure : L unit :=
  update (set_halted true);; update (set_role Follower);; update (set_votes_from []);;
  update (set_leader_id "").

Definition send (peer : string) (type : MessageType) (correlation : Z) (payload : list Z) : L unit :=
  r ← get;
  if lr_halted r || negb (lr_sender r) then skip
  else if kMaxFramePayload <? zsize payload then tally count_oversize
  else update (set_calls (lr_calls r ++ [Sent peer (mkFrame type correlation payload)])).

(** [if (auto payload = encode(...)) send(...)] *)
Definition send_encoded (peer : string) (type : MessageType) (correlation : Z)
    (encoded : result Error (list Z)) : L unit :=
  match encoded with Ok payload => send peer type correlation payload | Err _ => skip end.

Definition next_correlation : L Z :=
  r ← get;
  update (set_next_correlation (wrap64 (lr_next_correlation r + 1)));;
  mret (lr_next_correlation r).

Definition run_commit_hook : L unit :=
  r ← get; whenL (lr_commit_hook r) 
    (update (set_calls (lr_calls r ++ [Committed (Some (lr_store r)) (rf_leader_id (lr_config r))]))).

(** ** The speculative state and the command index *)

Fixpoint apply_suffix (store : FileEngine) (indexes : list Z) (state : ChoreographyState)
    : result Error ChoreographyState :=
  match indexes with
  | [] => Ok state
  | index :: rest =>
      match log_entry store index with
      | None => Err (mkError IndexGap "log is missing an uncommitted entry")
      | Some entry =>
          let? state := apply state entry Contiguous in
          apply_suffix store rest state
      end
  end.

Definition build_speculative (store : FileEngine) : result Error ChoreographyState :=
  let first := wrap64 (fe_commit store + 1) in
  apply_suffix store (seqZ first (last_log_index store - first + 1)) (en_state (fe_engine store)).

Definition rebuild_speculative : L unit :=
  r ← get;
  match build_speculative (lr_store r) with
  | Ok state => update (set_speculative state);; update (set_speculative_dirty false)
  | Err _ => skip
  end.

Definition trim_retained_history : L unit :=
  r ← get;
  let anchor := log_first_index (lr_store r) in
  if anchor <=? lr_history_anchor r then skip
  else
    update (set_history_anchor anchor);;
    let '(retained, error) := retain_state_history_from (lr_speculative r) anchor in
    update (set_speculative retained);;
    match error with
    | Some _ => halt_after_storage_failure
    | None => update (set_command_index (filter (fun entry => anchor <= entry.2) (lr_command_index r)))
    end.

Definition ensure_speculative : L unit :=
  trim_retained_history;;
  r ← get; whenL (lr_speculative_dirty r) rebuild_speculative.

Definition index_commands (events : list Event) : gmap string Z :=
  foldl (fun m event => <[ev_command event := ev_index event]> m) ∅ events.

Definition rebuild_command_index : L unit :=
  update (fun r => set_command_index (index_commands (log_events (lr_store r))) r).

Definition index_command (event : Event) : L unit :=
  update (fun r => set_command_index (<[ev_command event := ev_index event]> (lr_command_index r)) r).

(** ** Peers *)

Definition with_peer (i : nat) (body : Peer -> L unit) : L unit :=
  r ← get; match lr_peers r !! i with Some peer => body peer | None => skip end.

Definition update_peer (i : nat) (f : Peer -> Peer) : L unit :=
  update (fun r => set_peers (alter f i (lr_peers r)) r).

(** The chunk of [snapshot] for a peer that needs it from [offset]. *)
Definition snapshot_chunk (r : Replica) (snapshot : Snapshot) (offset length : Z) : ProtoInstallSnapshot :=
  mkProtoInstallSnapshot (lr_term r) (rf_id (lr_config r)) (sp_index snapshot) (sp_term snapshot)
    (sp_hash snapshot) (substr (sp_payload snapshot) offset length) offset
    (wrap64 (offset + length) <? text_size (sp_payload snapshot)).

Definition resend (peer : string) (frame : Frame) : L unit :=
  send peer (fr_type frame) (fr_correlation frame) (fr_payload frame).

Definition send_snapshot_chunk (i : nat) (snapshot : Snapshot) (force : bool) : L unit :=
  with_peer i (fun peer =>
    whenL (negb (pe_snapshot_index peer =? sp_index snapshot))
      (update_peer i (fun p => peer_probe None (peer_snapshot_offset 0
                                 (peer_snapshot_index (sp_index snapshot) p)))));;
  with_peer i (fun peer =>
    r ← get;
    if negb force && (pe_snapshot_sent_tick peer =? lr_ticks r) then skip
    else
      update_peer i (peer_snapshot_sent_tick (lr_ticks r));;
      let fresh :=
        tally count_chunk;;
        let size := text_size (sp_payload snapshot) in
        let offset := Z.min (pe_snapshot_offset peer) size in
        let length := Z.min (rf_max_snapshot_chunk_bytes (lr_config r)) (size - offset) in
        match encode_install_snapshot (snapshot_chunk r snapshot offset length) with
        | Err _ => skip
        | Ok payload =>
            correlation ← next_correlation;
            update_peer i (peer_probe (Some (mkProbe (mkFrame tInstallSnapshot correlation payload)
              (lr_term r) (sp_index snapshot) (wrap64 (offset + length)))));;
            send (pe_id peer) tInstallSnapshot correlation payload
        end in
      match pe_probe peer with
      | Some probe =>
          if (pb_term probe =? lr_term r) && (fr_type (pb_frame probe) =? tInstallSnapshot)
          then resend (pe_id peer) (pb_frame probe) else fresh
      | None => fresh
      end).

(** The bounded batch of entries from [indexes]. *)
Fixpoint append_batch (r : Replica) (indexes : list Z) (entries : list Event) (batch_bytes : Z) : list Event :=
  match indexes with
  | [] => entries
  | next :: rest =>
      match find_index r next with
      | None => entries
      | Some entry =>
          let cost := text_size (canonical_event entry) + 32 in
          if (0 <? Z.of_nat (length entries)) &&
             ((rf_max_append_entries (lr_config r) <=? Z.of_nat (length entries)) ||
              (rf_max_append_bytes (lr_config r) <? wrap64 (batch_bytes + cost)))
          then entries
          else append_batch r rest (entries ++ [entry]) (wrap64 (batch_bytes + cost))
      end
  end.

Definition append_message (r : Replica) (peer : Peer) (previous_index : Z) : ProtoAppendEntries :=
  let '(prev_index, prev_term) :=
    if 0 <? previous_index then
      match log_term_at (lr_store r) previous_index with
      | Some term => (previous_index, term)
      | None => (0, 0)
      end
    else (previous_index, 0) in
  let next := pe_next_index peer in
  mkProtoAppendEntries (lr_term r) (rf_id (lr_config r)) prev_index prev_term
    (append_batch r (seqZ next (last_index r - next + 1)) [] 0) (fe_commit (lr_store r)).

(** The last index that an append request covers. *)
Definition covered_index (m : ProtoAppendEntries) : Z :=
  match list.last (pa_entries m) with Some entry => ev_index entry | None => pa_prev_log_index m end.

(** The log can serve a peer that has everything up to [previous_index]. *)
Definition can_append (r : Replica) (previous_index : Z) : bool :=
  ((previous_index =? 0) && (log_first_index (lr_store r) <=? 1)) ||
  ((0 <? previous_index) && is_some (log_term_at (lr_store r) previous_index)).

Definition replicate (i : nat) (force : bool) : L unit :=
  with_peer i (fun peer =>
    r ← get;
    let append :=
      update_peer i (peer_probe None);;
      let previous_index := if pe_next_index peer =? 0 then 0 else pe_next_index peer - 1 in
      let send_append :=
        let message := append_message r peer previous_index in
        match encode_append_entries message with
        | Err _ => skip
        | Ok payload =>
            correlation ← next_correlation;
            update_peer i (peer_probe (Some (mkProbe (mkFrame tAppendEntries correlation payload)
              (lr_term r) (covered_index message) 0)));;
            send (pe_id peer) tAppendEntries correlation payload
        end in
      if can_append r previous_index then send_append
      else
        match fe_snapshot (lr_store r) with
        | Some snapshot =>
            if is_legacy_format snapshot then send_append else send_snapshot_chunk i snapshot force
        | None => send_append
        end in
    match pe_probe peer with
    | Some probe => if pb_term probe =? lr_term r then resend (pe_id peer) (pb_frame probe) else append
    | None => append
    end).

Definition replicate_all : L unit :=
  r ← get; for_each (seq 0 (length (lr_peers r))) (fun i => replicate i false).

Section Methods.
Context (sys : LegacyOs).

(** An operation on the store; the result is its error. *)
Definition store_op (op : FileEngine -> Os -> InstallOs -> FileEngine * option Error) : L (option Error) :=
  fun r =>
    let '(store, error) :=
      op (lr_store (ru_replica r)) (lo_os sys (ru_ops r)) (lo_install sys (ru_ops r)) in
    (mkReplicaRun (set_store store (ru_replica r)) (S (ru_ops r)), error).

Definition append_entry (event : Event) : L (option Error) :=
  store_op (fun f os _ => append_event f event os).

Definition truncate_entries (index : Z) : L (option Error) :=
  store_op (fun f os _ => store_truncate_after f index os).

Definition commit_entries (index : Z) : L (option Error) :=
  store_op (fun f os _ => commit_through f index os).

Definition persist (term : Z) (voted_for : option string) : L (option Error) :=
  store_op (fun f os _ => persist_consensus f term voted_for os).

Definition install (snapshot : Snapshot) : L (option Error) :=
  store_op (fun f os io => install_snapshot f snapshot os io).

(** ** Terms and votes *)

Definition step_down (term : Z) : L bool :=
  r ← get;
  if term <? lr_term r then mret false
  else if term =? lr_term r then
    whenL (bool_decide (lr_role r = Leader))
      (update (set_role Follower);; tally count_role_changes;; tally count_step_downs;;
       update (set_leader_id ""));;
    mret true
  else
    match parse_term term with
    | Err _ => mret false
    | Ok parsed =>
        stored ← persist parsed None;
        match stored with
        | Some _ => halt_after_storage_failure;; mret false
        | None =>
            update (set_term parsed);; update (set_voted_for None);; update (set_votes_from []);;
            whenL (negb (bool_decide (lr_role r = Follower)))
              (tally count_role_changes;; tally count_step_downs);;
            update (set_role Follower);; update (set_leader_id "");;
            mret true
        end
    end.

(** [persist_vote]: the error, if there is one. *)
Definition persist_vote : L (option Error) :=
  r ← get;
  match parse_term (lr_term r) with
  | Err e => mret (Some e)
  | Ok term =>
      match lr_voted_for r with
      | None => persist term None
      | Some id =>
          match parse_id id with
          | Err e => mret (Some e)
          | Ok vote => persist term (Some vote)
          end
      end
  end.

(** ** Committing *)

Definition copies (r : Replica) (index : Z) : Z :=
  1 + Z.of_nat (length (List.filter (fun peer => index <=? pe_match_index peer) (lr_peers r))).

(** A majority stores [index], which is of the current term. *)
Definition committable (r : Replica) (index : Z) : bool :=
  match find_index r index with
  | Some event => (ev_term event =? lr_term r) && (majority r <=? copies r index)
  | None => false
  end.

(** The loop from the last index down to the commit index. *)
Definition commit_candidate (r : Replica) : option Z :=
  let commit := fe_commit (lr_store r) in
  List.find (committable r) (reverse (seqZ (commit + 1) (last_index r - commit))).

Definition advance_commit : L unit :=
  r ← get;
  if negb (is_leader r) then skip
  else
    match commit_candidate r with
    | None => skip
    | Some index =>
        committed ← commit_entries index;
        match committed with
        | Some _ => halt_after_storage_failure
        | None => run_commit_hook;; replicate_all
        end
    end.

(** ** Elections *)

(** The marker of a new leader, unless an identifier does not parse. *)
Definition marker (r : Replica) (next_index : Z) : option Event :=
  let serial := print_u (lr_term r) +:+ "-" +:+ print_u next_index in
  match parse_id ("noop-" +:+ rf_id (lr_config r) +:+ "-" +:+ serial), parse_id ("noop-" +:+ serial),
        parse_term (lr_term r) with
  | Ok event_id, Ok command_id, Ok term =>
      let show := default "system" (s_id (lr_speculative r)) in
      Some (mkEvent event_id command_id show NoOp kCurrentSchemaVersion 0 next_index term
              (PCreate show (mkStageBounds 1 1) Forbidden 0))
  | _, _, _ => None
  end.

Definition lead_peer (next_index : Z) (p : Peer) : Peer :=
  peer_probe None (peer_snapshot_index 0 (peer_match_index 0 (peer_next_index next_index p))).

Definition become_leader : L unit :=
  r ← get;
  if bool_decide (lr_role r = Leader) then skip
  else
    ensure_speculative;;
    update (set_role Leader);;
    update (fun r => set_leader_id (rf_id (lr_config r)) r);;
    tally count_role_changes;;
    r ← get;
    let next_index := wrap64 (last_index r + 1) in
    update (set_peers (lead_peer next_index <$> lr_peers r));;
    match marker r next_index with
    | None => update (set_role Candidate)
    | Some noop =>
        written ← append_entry noop;
        match written with
        | Some _ => halt_after_storage_failure
        | None =>
            index_command noop;;
            r ← get;
            match apply (lr_speculative r) noop Contiguous with
            | Err _ => update (set_role Candidate)
            | Ok state => update (set_speculative state);; replicate_all;; advance_commit
            end
        end
    end.

Definition request_votes : L unit :=
  r ← get;
  match encode_request_vote (mkProtoRequestVote (lr_term r) (rf_id (lr_config r)) (last_index r) (last_term r)) with
  | Err _ => skip
  | Ok payload =>
      for_each (lr_peers r) (fun peer =>
        correlation ← next_correlation; send (pe_id peer) tRequestVote correlation payload)
  end.

Definition start_election : L unit :=
  r ← get;
  match term_next (lr_term r), parse_id (rf_id (lr_config r)) with
  | Ok next, Ok self =>
      stored ← persist next (Some self);
      match stored with
      | Some _ => halt_after_storage_failure
      | None =>
          update (set_role Candidate);; update (set_term next);;
          update (set_voted_for (Some (rf_id (lr_config r))));;
          update (set_votes_from [rf_id (lr_config r)]);;
          update (set_leader_id "");;
          tally count_election;;
          whenL (negb (bool_decide (lr_role r = Candidate))) (tally count_role_changes);;
          update (set_elapsed 0);;
          timeout ← draw_timeout;
          update (set_timeout timeout);;
          r ← get;
          if majority r <=? Z.of_nat (length (lr_votes_from r)) then become_leader else request_votes
      end
  | _, _ => skip
  end.

Definition on_vote (m : ProtoRequestVote) (correlation : Z) : L unit :=
  r ← get;
  let answer granted (r : Replica) :=
    send_encoded (prv_candidate_id m) tRequestVoteResponse correlation
      (encode_vote_response (mkProtoVoteResponse (lr_term r) (rf_id (lr_config r)) granted)) in
  if negb (is_configured_peer r (prv_candidate_id m)) then skip
  else if negb (elections r) then answer false r
  else
    stepped ← (if lr_term r <? prv_term m then step_down (prv_term m) else mret true);
    if negb stepped then skip
    else
      r ← get;
      let current := prv_term m =? lr_term r in
      let vote_free := match lr_voted_for r with
                       | None => true
                       | Some id => bool_decide (id = prv_candidate_id m)
                       end in
      if current && vote_free && log_is_up_to_date r (prv_last_log_term m) (prv_last_log_index m) then
        update (set_voted_for (Some (prv_candidate_id m)));;
        failed ← persist_vote;
        match failed with
        | None =>
            update (set_elapsed 0);; tally count_vote;;
            answer true r
        | Some _ => update (set_voted_for (lr_voted_for r));; halt_after_storage_failure
        end
      else answer false r.

Definition on_vote_response (m : ProtoVoteResponse) : L unit :=
  r ← get;
  if negb (is_configured_peer r (pvr_voter_id m)) || negb (elections r) then skip
  else if lr_term r <? pvr_term m then _ ← step_down (pvr_term m); skip
  else if negb (bool_decide (lr_role r = Candidate)) || negb (pvr_term m =? lr_term r) ||
          negb (pvr_vote_granted m) || bool_decide (pvr_voter_id m ∈ lr_votes_from r)
  then skip
  else
    update (set_votes_from (lr_votes_from r ++ [pvr_voter_id m]));;
    r ← get;
    whenL (majority r <=? Z.of_nat (length (lr_votes_from r))) become_leader.

(** ** Append requests *)

(** Indexes that follow, terms that do not decrease and do not exceed that of
    the message. *)
Fixpoint entries_follow (limit index term : Z) (entries : list Event) : bool :=
  match entries with
  | [] => true
  | entry :: rest =>
      negb ((index =? max_u64) || negb (ev_index entry =? index + 1) || (ev_term entry <? term) ||
            (limit <? ev_term entry)) &&
      entries_follow limit (ev_index entry) (ev_term entry) rest
  end.

Definition append_well_formed (m : ProtoAppendEntries) : bool :=
  Bool.eqb (pa_prev_log_index m =? 0) (pa_prev_log_term m =? 0) &&
  (pa_prev_log_term m <=? pa_term m) &&
  entries_follow (pa_term m) (pa_prev_log_index m) (pa_prev_log_term m) (pa_entries m).

(** Whether the entry before the request matches, and the hint if not. *)
Definition previous_matches (r : Replica) (m : ProtoAppendEntries) : bool * Z :=
  let prev := pa_prev_log_index m in
  if last_index r <? prev then (false, last_index r)
  else if 0 <? prev then
    match log_term_at (lr_store r) prev with
    | Some term => if term =? pa_prev_log_term m then (true, last_index r) else (false, prev - 1)
    | None => if prev <? log_first_index (lr_store r) then (true, last_index r) else (false, prev - 1)
    end
  else (true, last_index r).

(** What became of the entries: all are in the log, one cannot be, or the store
    failed. *)
Inductive Merge := Merged | Mismatched (hint : Z) | StoreFailed.

Fixpoint merge_entries (entries : list Event) : L Merge :=
  match entries with
  | [] => mret Merged
  | entry :: rest =>
      r ← get;
      let write :=
        written ← append_entry entry;
        match written with
        | Some _ => halt_after_storage_failure;; mret StoreFailed
        | None => index_command entry;; update (set_speculative_dirty true);; merge_entries rest
        end in
      if ev_index entry <? log_first_index (lr_store r) then merge_entries rest
      else
        match find_index r (ev_index entry) with
        | Some existing =>
            if bool_decide (canonical_event existing = canonical_event entry) then merge_entries rest
            else if ev_index existing <=? fe_commit (lr_store r)
            then mret (Mismatched (fe_commit (lr_store r)))
            else
              truncated ← truncate_entries (ev_index entry - 1);
              match truncated with
              | Some _ => halt_after_storage_failure;; mret StoreFailed
              | None => rebuild_command_index;; update (set_speculative_dirty true);; write
              end
        | None =>
            if negb (ev_index entry =? wrap64 (last_index r + 1))
            then mret (Mismatched (last_index r)) else write
        end
  end.

Definition append_answer (m : ProtoAppendEntries) (correlation : Z) (success : bool) (matched hint : Z) : L unit :=
  r ← get;
  send_encoded (pa_leader_id m) tAppendEntriesResponse correlation
    (encode_append_response (mkProtoAppendResponse (lr_term r) (rf_id (lr_config r)) success matched hint)).

(** Commit what the leader has committed; false when the store failed. *)
Definition follow_commit (covered : Z) : L bool :=
  committed ← commit_entries covered;
  match committed with
  | Some _ => halt_after_storage_failure;; mret false
  | None => run_commit_hook;; mret true
  end.

(** The entries of a request from the leader, the commit index and the answer. *)
Definition accept_append (m : ProtoAppendEntries) (correlation : Z) : L unit :=
  r ← get;
  let '(matches, hint) := previous_matches r m in
  if negb matches then append_answer m correlation false 0 hint
  else
    merged ← merge_entries (pa_entries m);
    match merged with
    | StoreFailed => skip
    | Mismatched hint => append_answer m correlation false 0 hint
    | Merged =>
        r ← get;
        let covered := Z.min (pa_leader_commit m) (covered_index m) in
        committed ← (if fe_commit (lr_store r) <? covered then follow_commit covered else mret true);
        if negb committed then skip
        else r ← get; append_answer m correlation true (covered_index m) (last_index r)
    end.

(** A message of a leader of the current term: this node follows it. *)
Definition follow (leader : string) (counted : bool) : L unit :=
  r ← get;
  whenL (negb (bool_decide (lr_role r = Follower)))
    (update (set_role Follower);; tally count_role_changes;; whenL counted (tally count_step_downs));;
  update (set_leader_id leader);;
  update (set_elapsed 0).

Definition on_append (m : ProtoAppendEntries) (correlation : Z) : L unit :=
  r ← get;
  if negb (is_configured_peer r (pa_leader_id m)) || negb (append_well_formed m) then skip
  else if elections r then
    if pa_term m <? lr_term r then append_answer m correlation false 0 (last_index r)
    else
      stepped ← (if lr_term r <? pa_term m then step_down (pa_term m) else mret true);
      if negb stepped then skip
      else follow (pa_leader_id m) true;; accept_append m correlation
  else if negb (bool_decide (pa_leader_id m = rf_leader_id (lr_config r))) || is_leader r
  then append_answer m correlation false 0 (last_index r)
  else accept_append m correlation.

(** The last peer with that id. *)
Fixpoint last_peer (id : string) (i : nat) (peers : list Peer) : option nat :=
  match peers with
  | [] => None
  | peer :: rest =>
      match last_peer id (S i) rest with
      | Some found => Some found
      | None => if bool_decide (pe_id peer = id) then Some i else None
      end
  end.

(** The answer is that of the request in flight. *)
Definition answers (peer : Peer) (type : MessageType) (correlation term : Z) : option Probe :=
  match pe_probe peer with
  | Some probe =>
      if (fr_type (pb_frame probe) =? type) && (fr_correlation (pb_frame probe) =? correlation) &&
         (pb_term probe =? term)
      then Some probe else None
  | None => None
  end.

(** Back up to the hint, or by one. *)
Definition backed_up (next hint last : Z) : Z :=
  let hinted := wrap64 (Z.min hint last + 1) in
  if hinted <? next then (if hinted =? 0 then 1 else hinted)
  else if 1 <? next then next - 1 else next.

Definition on_append_response (m : ProtoAppendResponse) (correlation : Z) : L unit :=
  r ← get;
  if negb (is_configured_peer r (par_follower_id m)) then skip
  else if elections r && (lr_term r <? par_term m) then _ ← step_down (par_term m); skip
  else if elections r && (par_term m <? lr_term r) then skip
  else if negb (is_leader r) then skip
  else
    match last_peer (par_follower_id m) 0 (lr_peers r) with
    | None => skip
    | Some i =>
        with_peer i (fun peer =>
          match answers peer tAppendEntries correlation (par_term m) with
          | None => skip
          | Some probe =>
              if par_success m && negb (par_match_index m =? pb_index probe) then skip
              else
                update_peer i (peer_probe None);;
                if negb (par_success m) then
                  let next := backed_up (pe_next_index peer) (par_hint_index m) (last_index r) in
                  update_peer i (peer_next_index next);;
                  whenL (next <? pe_next_index peer) (replicate i false)
                else if last_index r <? par_match_index m then skip
                else
                  let matched := Z.max (par_match_index m) (pe_match_index peer) in
                  update_peer i (fun p => peer_next_index (wrap64 (matched + 1)) (peer_match_index matched p));;
                  advance_commit;;
                  r ← get;
                  with_peer i (fun peer =>
                    whenL (is_leader r && (pe_next_index peer <=? last_index r)) (replicate i false))
          end)
    end.

(** ** Snapshots *)

Definition reply_install (leader : string) (correlation : Z) (success : bool) (next_offset : Z) : L unit :=
  r ← get;
  send_encoded leader tInstallSnapshotResponse correlation
    (encode_snapshot_response (mkProtoSnapshotResponse (lr_term r) (rf_id (lr_config r)) success next_offset)).

(** The transfer that the message continues; offset 0 starts one. *)
Definition incoming_stream (incoming : option IncomingSnapshot) (m : ProtoInstallSnapshot)
    : option IncomingSnapshot :=
  let incoming :=
    if pi_offset m =? 0
    then Some (mkIncomingSnapshot (pi_last_included_index m) (pi_last_included_term m) (pi_state_hash m) "")
    else incoming in
  match incoming with
  | Some i =>
      if (in_index i =? pi_last_included_index m) && (in_term i =? pi_last_included_term m) &&
         bool_decide (in_hash i = pi_state_hash m) && (pi_offset m <=? text_size (in_data i))
      then Some i else None
  | None => None
  end.

Definition kMaxSnapshotBytes : Z := 67108864.

(** The whole payload has arrived: verify it and install it. *)
Definition install_whole (m : ProtoInstallSnapshot) (correlation : Z) (data : string) : L unit :=
  let snapshot := mkSnapshot (pi_last_included_index m) (pi_last_included_term m) (pi_state_hash m) [] data in
  update (set_incoming None);;
  if negb (is_ok (verify_snapshot snapshot)) then reply_install (pi_leader_id m) correlation false 0
  else
    failed ← install snapshot;
    match failed with
    | Some _ => halt_after_storage_failure
    | None =>
        rebuild_command_index;; rebuild_speculative;; run_commit_hook;;
        reply_install (pi_leader_id m) correlation true (text_size data)
    end.

Definition refuse_install (m : ProtoInstallSnapshot) (correlation : Z) : L unit :=
  update (set_incoming None);; reply_install (pi_leader_id m) correlation false 0.

(** The chunk of a well-formed message. *)
Definition take_chunk (m : ProtoInstallSnapshot) (correlation : Z) : L unit :=
  r ← get;
  match incoming_stream (lr_incoming r) m with
  | None => refuse_install m correlation
  | Some i =>
      update (set_incoming (Some i));;
      let size := text_size (in_data i) in
      if pi_offset m <? size then reply_install (pi_leader_id m) correlation true size
      else if kMaxSnapshotBytes <? wrap64 (size + text_size (pi_payload m)) then refuse_install m correlation
      else
        let data := in_data i +:+ pi_payload m in
        update (set_incoming (Some (mkIncomingSnapshot (in_index i) (in_term i) (in_hash i) data)));;
        if pi_more m then reply_install (pi_leader_id m) correlation true (text_size data)
        else install_whole m correlation data
  end.

Definition install_well_formed (m : ProtoInstallSnapshot) : bool :=
  is_ok (parse_index (pi_last_included_index m)) && is_ok (parse_term (pi_last_included_term m)) &&
  (pi_last_included_term m <=? pi_term m) && (text_size (pi_state_hash m) =? 16).

Definition on_install (m : ProtoInstallSnapshot) (correlation : Z) : L unit :=
  r ← get;
  let proceed := if install_well_formed m then take_chunk m correlation else refuse_install m correlation in
  if negb (is_configured_peer r (pi_leader_id m)) then skip
  else if elections r then
    if pi_term m <? lr_term r then reply_install (pi_leader_id m) correlation false 0
    else
      stepped ← (if lr_term r <? pi_term m then step_down (pi_term m) else mret true);
      if negb stepped then skip else follow (pi_leader_id m) false;; proceed
  else if negb (bool_decide (pi_leader_id m = rf_leader_id (lr_config r))) || is_leader r
  then reply_install (pi_leader_id m) correlation false 0
  else proceed.

(** The first peer with that id. *)
Fixpoint first_peer (id : string) (i : nat) (peers : list Peer) : option nat :=
  match peers with
  | [] => None
  | peer :: rest => if bool_decide (pe_id peer = id) then Some i else first_peer id (S i) rest
  end.

Definition on_install_response (m : ProtoSnapshotResponse) (correlation : Z) : L unit :=
  r ← get;
  if negb (is_configured_peer r (psr_follower_id m)) then skip
  else if elections r && (lr_term r <? psr_term m) then _ ← step_down (psr_term m); skip
  else if negb (is_leader r) then skip
  else
    match first_peer (psr_follower_id m) 0 (lr_peers r) with
    | None => skip
    | Some i =>
        with_peer i (fun peer =>
          match answers peer tInstallSnapshot correlation (psr_term m) with
          | None => skip
          | Some probe =>
              if psr_success m && negb (psr_next_offset m =? pb_offset probe) then skip
              else
                update_peer i (peer_probe None);;
                if negb (psr_success m) then update_peer i (peer_snapshot_offset 0)
                else
                  match fe_snapshot (lr_store r) with
                  | None => update_peer i (peer_snapshot_offset 0)
                  | Some snapshot =>
                      if negb (pe_snapshot_index peer =? sp_index snapshot)
                      then update_peer i (peer_snapshot_offset 0)
                      else if psr_next_offset m <? text_size (sp_payload snapshot) then
                        update_peer i (peer_snapshot_offset (psr_next_offset m));;
                        send_snapshot_chunk i snapshot true
                      else
                        let matched := Z.max (pe_snapshot_index peer) (pe_match_index peer) in
                        update_peer i (fun p => peer_next_index (wrap64 (matched + 1))
                          (peer_match_index matched (peer_snapshot_offset 0 p)));;
                        advance_commit;;
                        replicate i true
                  end
          end)
    end.

(** ** Client commands *)

(** The answer to a command whose id is already in the log. *)
Definition known_answer (r : Replica) (known : Event) (command : Command) : result Error EnqueueResult :=
  let conflict := mkError CommandConflict "command ID reused with a different request" in
  if negb (bool_decide (ev_type known = event_type_for (c_type command))) then Err conflict
  else
    let original := mkCommand (ev_command known) (ev_choreography known) (c_type command)
                      (ev_schema known) (ev_tick known) (ev_payload known) in
    if negb (bool_decide (canonical_command original = canonical_command (normalize_command command)))
    then Err conflict
    else Ok (mkEnqueueResult known true (ev_index known <=? fe_commit (lr_store r)) (rf_leader_id (lr_config r))).

(** Apply an event to the speculative state. *)
Definition apply_speculative (event : Event) : L (option Error) :=
  r ← get;
  match apply (lr_speculative r) event Contiguous with
  | Err e => mret (Some e)
  | Ok state => update (set_speculative state);; mret None
  end.

(** The event under the election term, applied to the speculative state. *)
Definition restamp (proposed : Event) : L (result Error Event) :=
  r ← get;
  if elections r && negb (ev_term proposed =? lr_term r) then
    match parse_term (lr_term r) with
    | Err e => mret (Err e)
    | Ok term =>
        let restamped := event_with_term term proposed in
        failed ← apply_speculative restamped;
        match failed with
        | None => mret (Ok restamped)
        | Some _ =>
            rebuild_speculative;;
            retry ← apply_speculative restamped;
            match retry with Some e => mret (Err e) | None => mret (Ok restamped) end
        end
    end
  else mret (Ok proposed).

(** Write the event, follow it speculatively, replicate and commit. *)
Definition write_proposal (proposed : Event) : L (result Error EnqueueResult) :=
  written ← append_entry proposed;
  match written with
  | Some e => halt_after_storage_failure;; mret (Err e)
  | None =>
      index_command proposed;;
      r ← get;
      failed ← (if negb (elections r) || negb (s_last_applied (lr_speculative r) =? ev_index proposed)
                then apply_speculative proposed else mret None);
      match failed with
      | Some e => mret (Err e)
      | None =>
          replicate_all;;
          advance_commit;;
          r ← get;
          mret (Ok (mkEnqueueResult proposed false (ev_index proposed <=? fe_commit (lr_store r))
                      (rf_leader_id (lr_config r))))
      end
  end.

Definition enqueue (command : Command) : L (result Error EnqueueResult) :=
  r ← get;
  if lr_halted r
  then mret (Err (mkError StoreError "replica halted after storage failure; reopen from disk"))
  else if negb (is_leader r)
  then mret (Err (mkError NotLeaderError ("leader is " +:+ rf_leader_id (lr_config r))))
  else
    let committed := en_state (fe_engine (lr_store r)) in
    if is_some (s_applied_commands committed !! c_id command) ||
       is_some (s_receipts committed !! c_id command)
    then
      mret (let? receipt := resolve_receipt committed command in
            Ok (mkEnqueueResult receipt true true (rf_leader_id (lr_config r))))
    else
      match find_command r (c_id command) with
      | Some known => mret (known_answer r known command)
      | None =>
          ensure_speculative;;
          r ← get;
          match propose (lr_speculative r) command with
          | Err e => mret (Err e)
          | Ok proposed =>
              stamped ← restamp proposed;
              match stamped with
              | Err e => mret (Err e)
              | Ok proposed => write_proposal proposed
              end
          end
      end.

(** ** Frames and time *)

(** A message that decodes, from the peer it names as its origin. *)
Definition deliver {T} (decoded : result Error T) (claimed : T -> string) (transport_peer : string)
    (body : T -> L unit) : L unit :=
  match decoded with
  | Ok m => whenL (bool_decide (transport_peer = "") || bool_decide (claimed m = transport_peer)) (body m)
  | Err _ => skip
  end.

(** [handle]; the simulator passes no transport peer. *)
Definition handle (frame : Frame) (transport_peer : string) : L unit :=
  r ← get;
  let type := fr_type frame in
  let payload := fr_payload frame in
  let correlation := fr_correlation frame in
  if lr_halted r || (negb (bool_decide (transport_peer = "")) && negb (is_configured_peer r transport_peer))
  then skip
  else if type =? tAppendEntries then
    deliver (decode_append_entries payload) pa_leader_id transport_peer (fun m => on_append m correlation)
  else if type =? tAppendEntriesResponse then
    deliver (decode_append_response payload) par_follower_id transport_peer
      (fun m => on_append_response m correlation)
  else if type =? tRequestVote then
    deliver (decode_request_vote payload) prv_candidate_id transport_peer (fun m => on_vote m correlation)
  else if type =? tRequestVoteResponse then
    deliver (decode_vote_response payload) pvr_voter_id transport_peer on_vote_response
  else if type =? tInstallSnapshot then
    deliver (decode_install_snapshot payload) pi_leader_id transport_peer (fun m => on_install m correlation)
  else if type =? tInstallSnapshotResponse then
    deliver (decode_snapshot_response payload) psr_follower_id transport_peer
      (fun m => on_install_response m correlation)
  else skip.

Definition tick : L unit :=
  trim_retained_history;;
  r ← get;
  if lr_halted r then skip
  else
    update (set_ticks (wrap64 (lr_ticks r + 1)));;
    if negb (elections r) then whenL (is_leader r) replicate_all
    else if bool_decide (lr_role r = Leader) then replicate_all
    else
      let elapsed := lr_elapsed r + 1 in
      update (set_elapsed elapsed);;
      whenL (lr_timeout r <=? elapsed) start_election.

Definition heartbeat : L unit := tick.
End Methods.

(** ** Opening *)

Definition legacy_options (snapshot_every : Z) : StoreOptions :=
  mkStoreOptions snapshot_every true false false true.

(** The terms of the log: not decreasing, not above the durable term, and that
    of the snapshot at its index. *)
Fixpoint terms_agree (previous limit : Z) (snapshot : option Snapshot) (events : list Event) : bool :=
  match events with
  | [] => true
  | event :: rest =>
      negb ((ev_term event <? previous) || (limit <? ev_term event) ||
            match snapshot with
            | Some s => (ev_index event =? sp_index s) && negb (ev_term event =? sp_term s)
            | None => false
            end) &&
      terms_agree (ev_term event) limit snapshot rest
  end.

Definition new_peer (id : string) : Peer := mkPeer id 1 0 0 0 max_u64 None.

(** The constructor. *)
Definition construct (config : ReplicaConfig) (store : FileEngine) (speculative : ChoreographyState) : Replica :=
  let fixed_leader := negb (rf_elections config) && bool_decide (rf_id config = rf_leader_id config) in
  let r := mkReplica
    (config_bounds (rf_election_timeout_min config) (rf_election_timeout_max config) config)
    store speculative false 0 ∅ (new_peer <$> rf_peers config) None 0 false false 1 Follower false 1 None []
    0 3 (seed_of config) no_metrics [] in
  let '(run, timeout) := draw_timeout (mkReplicaRun r 0) in
  set_role (if fixed_leader then Leader else Follower) (set_timeout timeout (ru_replica run)).

(** The term, the vote and the role that a constructed replica starts with. *)
Definition recover_replica (metadata : NodeMetadata) (r : Replica) : Replica :=
  let r := set_voted_for (md_voted_for metadata) (set_term (md_term metadata) r) in
  let r :=
    if negb (elections r) then
      let applied := s_term (en_state (fe_engine (lr_store r))) in
      set_term (if lr_term r <? applied then applied else lr_term r)
        (set_role (if bool_decide (rf_id (lr_config r) = rf_leader_id (lr_config r)) then Leader else Follower) r)
    else set_leader_id "" (set_role Follower r) in
  let next := wrap64 (last_index r + 1) in
  set_command_index (index_commands (log_events (lr_store r)))
    (set_peers (peer_next_index next <$> lr_peers r) r).

Definition replica_open (config : ReplicaConfig) (disk : Directory) (open_os : OpenOs) (os : Os)
    : Directory * result Error Replica :=
  match store_open disk (legacy_options (rf_snapshot_every config)) open_os with
  | (disk, Err e) => (disk, Err e)
  | (disk, Ok store) =>
      (disk,
       let? speculative := build_speculative store in
       let? metadata := read_metadata store os in
       if match fe_snapshot store with Some s => md_term metadata <? sp_term s | None => false end
       then Err (mkError StoreError "snapshot term exceeds durable consensus term")
       else if negb (terms_agree 0 (md_term metadata) (fe_snapshot store) (log_events store))
       then Err (mkError StoreError "recovered WAL terms disagree with consensus metadata or snapshot")
       else Ok (recover_replica metadata (construct config store speculative)))
  end.
