(* ===== verification/ReplicaThms.v ===== *)
(** * The votes of the legacy replica

    One vote a term over the whole life of a node, restarts included: the
    replica writes a vote before it sends it, nothing else changes the vote on
    disk, and a write whose outcome is unknown halts the replica. *)

From S2P Require Import Prelude Text Stream Types Model EventCodec Machine MachineThms SnapshotText Bytes Wal Metadata Transaction SnapshotFile FileEngine StoreVotes Frame Messages Protobuf MessageCodec MessageCodecThms ReplicaTypes Replica.

(** ** What a replica and its disk know of the votes *)

(** [m] stands behind the votes: none is of a later term, and one of its own
    term is its vote. *)
Definition fits (V : Votes) (term : Z) (vote : option string) : Prop :=
  forall t peer, V !! t = Some peer -> t <= term /\ (t = term -> vote = Some peer).

(** Metadata that stands behind the votes, and behind what a running replica
    has in memory. *)
Definition on_disk (V : Votes) (memory : option (Z * option string)) (m : NodeMetadata) : Prop :=
  meta_valid m /\ fits V (md_term m) (md_voted_for m) /\
  match memory with
  | Some (term, vote) => term <= md_term m /\ (term = md_term m -> md_voted_for m = vote)
  | None => True
  end.

Lemma on_disk_steady V memory : steady (on_disk V memory).
Proof.
  split; [by intros m [H _]|]. intros m m' (Hv & Hf & Hm) (Hvote & Hle & Hv'). split; [done|]. split.
  - intros t peer Ht. destruct (Hf t peer Ht) as [H1 H2]. split; [lia|]. intros E. rewrite Hvote. apply H2. lia.
  - destruct memory as [[term vote]|]; [|done]. destruct Hm as [H1 H2]. split; [lia|]. intros E. rewrite Hvote.
    apply H2. lia.
Qed.

Lemma on_disk_forget V memory m : on_disk V memory m -> on_disk V None m.
Proof. by intros (H1 & H2 & _). Qed.

Definition probe_ok (p : Peer) : Prop :=
  forall probe, pe_probe p = Some probe -> fr_type (pb_frame probe) <> tRequestVoteResponse.

(** [live]: the memory of the replica is in step with the disk. *)
Record lr_fine (V : Votes) (live : bool) (r : Replica) : Prop := {
  lk_elections : elections r = true;
  lk_id : text_ok (rf_id (lr_config r));
  lk_valid : meta_valid (mkMetadata (lr_term r) 0 (lr_voted_for r));
  lk_votes : live = true -> fits V (lr_term r) (lr_voted_for r);
  lk_store : store_fine (on_disk V (if live then Some (lr_term r, lr_voted_for r) else None)) (lr_store r);
  lk_peers : Forall probe_ok (lr_peers r);
  lk_calls : Forall (call_cast V) (lr_calls r);
}.

Definition lr_ok (V : Votes) (r : Replica) : Prop := lr_fine V (negb (lr_halted r)) r.

(** A call that grants nothing. *)
Definition call_plain (c : Call) : Prop :=
  match c with Sent _ frame => fr_type frame <> tRequestVoteResponse | Committed _ _ => True end.

(** The same term, vote and store; calls are only added, and grant nothing. *)
Record quietly (r r' : Replica) : Prop := {
  ql_elections : elections r' = elections r;
  ql_id : rf_id (lr_config r') = rf_id (lr_config r);
  ql_term : lr_term r' = lr_term r;
  ql_vote : lr_voted_for r' = lr_voted_for r;
  ql_store : lr_store r' = lr_store r;
  ql_halted : lr_halted r' = lr_halted r;
  ql_peers : Forall probe_ok (lr_peers r) -> Forall probe_ok (lr_peers r');
  ql_calls : exists l, lr_calls r' = (lr_calls r ++ l)%list /\ Forall call_plain l;
}.

Lemma plain_cast V c : call_plain c -> call_cast V c.
Proof. destruct c as [peer f|]; [|done]. intros H Ht. done. Qed.

Lemma quietly_fine V live r r' : quietly r r' -> lr_fine V live r -> lr_fine V live r'.
Proof.
  intros [Q1 Q2 Q3 Q4 Q5 _ Q7 (l & Q8 & Hl)] [H1 H2 H3 H4 H5 H6 H7].
  split; rewrite ?Q1, ?Q2, ?Q3, ?Q4, ?Q5, ?Q8; auto. apply Forall_app_2; [done|].
  eapply list.Forall_impl; [exact Hl|]. intros c. apply plain_cast.
Qed.

Lemma quietly_ok V r r' : quietly r r' -> lr_ok V r -> lr_ok V r'.
Proof. intros Hq. unfold lr_ok. rewrite (ql_halted _ _ Hq). by apply quietly_fine. Qed.

Lemma halted_fine V live r : lr_fine V live r -> lr_fine V false r.
Proof.
  intros [H1 H2 H3 H4 H5 H6 H7]. split; try done. destruct live; [|done]. destruct H5 as [S1 S2 S3 S4].
  split; try done. eapply disk_mono; [|exact S1]. intros m. apply on_disk_forget.
Qed.

(** ** Methods that keep all votes *)

Definition keeps_at {A} (m : L A) (r : ReplicaRun) : Prop :=
  forall V, lr_ok V (ru_replica r) -> lr_ok V (ru_replica (m r).1).

Definition keeps {A} (m : L A) : Prop := forall r, keeps_at m r.

Lemma bind_at {A B} (m : L A) (k : A -> L B) r :
  keeps_at m r -> keeps_at (k (m r).2) (m r).1 -> keeps_at (m ≫= k) r.
Proof.
  intros Hm Hk V Hok. unfold mbind, L_bind. specialize (Hk V (Hm V Hok)). by destruct (m r) as [r1 a].
Qed.

Lemma run_bind {A B} (m : L A) (k : A -> L B) r : (m ≫= k) r = let '(r', a) := m r in k a r'.
Proof. done. Qed.

Lemma run_update {B} f (m : L B) r : (update f;; m) r = m (mkReplicaRun (f (ru_replica r)) (ru_ops r)).
Proof. done. Qed.

Lemma get_at {B} (k : Replica -> L B) r : keeps_at (k (ru_replica r)) r -> keeps_at (get ≫= k) r.
Proof. done. Qed.

Lemma keeps_bind {A B} (m : L A) (k : A -> L B) : keeps m -> (forall a, keeps (k a)) -> keeps (m ≫= k).
Proof. intros Hm Hk r. apply bind_at; [apply Hm|apply Hk]. Qed.

Lemma keeps_get {B} (k : Replica -> L B) : (forall r, keeps (k r)) -> keeps (get ≫= k).
Proof. intros Hk r. apply get_at, Hk. Qed.

Lemma keeps_ret {A} (a : A) : keeps (mret a).
Proof. by intros r V. Qed.

Lemma keeps_skip : keeps skip.
Proof. apply keeps_ret. Qed.

Lemma keeps_update f : (forall r, quietly r (f r)) -> keeps (update f).
Proof. intros Hf r V Hok. by eapply quietly_ok; [apply Hf|]. Qed.

Lemma keeps_when b m : keeps m -> keeps (whenL b m).
Proof. intros Hm. destruct b; [done|apply keeps_skip]. Qed.

Lemma keeps_for_each {A} (l : list A) body : (forall a, keeps (body a)) -> keeps (for_each l body).
Proof. intros Hb. induction l as [|a l IH]; [apply keeps_skip|]. by apply keeps_bind. Qed.

Lemma keeps_with_peer i body : (forall p, keeps (body p)) -> keeps (with_peer i body).
Proof. intros Hb. apply keeps_get. intros r. destruct (lr_peers r !! i); [apply Hb|apply keeps_skip]. Qed.

Lemma keeps_halt : keeps halt_after_storage_failure.
Proof.
  intros r V Hok. apply halted_fine in Hok. destruct Hok as [H1 H2 H3 H4 H5 H6 H7]. by split.
Qed.

Ltac quiet := intros ?; split; try done; first [by exists []; rewrite app_nil_r | idtac].

Create HintDb legacy.

(** The parts of a method one after the other. *)
Ltac keeping :=
  cbv zeta;
  lazymatch goal with
  | |- keeps skip => apply keeps_skip
  | |- keeps (mret _) => apply keeps_ret
  | |- keeps (update _) => apply keeps_update; quiet
  | |- keeps (get ≫= _) => apply keeps_get; intros ?; keeping
  | |- keeps (_ ≫= _) => apply keeps_bind; [keeping|intros ?; keeping]
  | |- keeps (whenL _ _) => apply keeps_when; keeping
  | |- keeps (for_each _ _) => apply keeps_for_each; intros ?; keeping
  | |- keeps (if ?b then _ else _) => destruct b; keeping
  | |- keeps (match ?x with _ => _ end) => destruct x eqn:?; keeping
  | |- _ => auto with legacy
  end.


Lemma keeps_tally f : keeps (tally f).
Proof. unfold tally. keeping. Qed.
#[local] Hint Resolve keeps_tally keeps_halt : legacy.

(** Calls that grant nothing may be added. *)
Lemma add_call_at c (r : ReplicaRun) :
  call_plain c -> keeps_at (update (set_calls (lr_calls (ru_replica r) ++ [c]))) r.
Proof.
  intros Hc V Hok. eapply quietly_ok; [|exact Hok]. split; try done. exists [c]. split; [done|]. by constructor.
Qed.

Lemma keeps_send peer type correlation payload :
  type <> tRequestVoteResponse -> keeps (send peer type correlation payload).
Proof.
  intros Ht r. unfold send. apply get_at. destruct (_ || _); [apply keeps_skip|].
  destruct (_ <? _); [apply keeps_tally|]. by apply add_call_at.
Qed.

Lemma keeps_send_encoded peer type correlation encoded :
  type <> tRequestVoteResponse -> keeps (send_encoded peer type correlation encoded).
Proof. intros Ht. destruct encoded; [by apply keeps_send|apply keeps_skip]. Qed.

Lemma keeps_hook : keeps run_commit_hook.
Proof. intros r. unfold run_commit_hook. apply get_at. destruct (lr_commit_hook _); [by apply add_call_at|apply keeps_skip]. Qed.

Lemma keeps_correlation : keeps next_correlation.
Proof. unfold next_correlation. keeping. Qed.

Lemma keeps_draw : keeps draw_timeout.
Proof. unfold draw_timeout, next_random. keeping. Qed.

Lemma keeps_rebuild : keeps rebuild_speculative.
Proof. unfold rebuild_speculative. keeping. Qed.

Lemma keeps_index : keeps rebuild_command_index.
Proof. unfold rebuild_command_index. keeping. Qed.

Lemma keeps_index_command e : keeps (index_command e).
Proof. unfold index_command. keeping. Qed.

Lemma keeps_trim : keeps trim_retained_history.
Proof. unfold trim_retained_history. keeping. Qed.
#[local] Hint Resolve keeps_hook keeps_correlation keeps_draw keeps_rebuild keeps_index keeps_index_command keeps_trim : legacy.

Lemma keeps_ensure : keeps ensure_speculative.
Proof. unfold ensure_speculative. keeping. Qed.

Lemma keeps_bounds lo hi : keeps (set_election_bounds lo hi).
Proof. unfold set_election_bounds. keeping. Qed.

(** ** Peers *)

Lemma keeps_update_peer i f : (forall p, probe_ok p -> probe_ok (f p)) -> keeps (update_peer i f).
Proof.
  intros Hf. apply keeps_update. quiet. cbn. intros Hp. apply Forall_alter; [done|]. intros x Hx Hk. by apply Hf.
Qed.

(** A peer of the list: its request in flight is no vote. *)
Lemma keeps_peer i body : (forall p, probe_ok p -> keeps (body p)) -> keeps (with_peer i body).
Proof.
  intros Hb r V Hok. unfold with_peer. revert V Hok. apply get_at.
  destruct (lr_peers (ru_replica r) !! i) as [p|] eqn:Ep; [|apply keeps_skip]. intros V Hok.
  apply Hb; [|done]. by eapply (Forall_lookup_1 probe_ok); [apply (lk_peers _ _ _ Hok)|].
Qed.

Lemma keeps_resend p probe : probe_ok p -> pe_probe p = Some probe -> keeps (resend (pe_id p) (pb_frame probe)).
Proof. intros Hp Ep. by apply keeps_send, Hp. Qed.

(** Updates that leave the request in flight, drop it, or set one that is no vote. *)
Ltac peer_kept := apply keeps_update_peer; intros ? ? ? ?; cbn in *; simplify_eq; eauto.

Lemma keeps_snapshot_chunk i snapshot force : keeps (send_snapshot_chunk i snapshot force).
Proof.
  unfold send_snapshot_chunk. apply keeps_bind.
  { apply keeps_peer. intros p Hp. apply keeps_when. peer_kept. }
  intros _. apply keeps_peer. intros p Hp. apply keeps_get. intros r. destruct (_ && _); [apply keeps_skip|].
  apply keeps_bind; [peer_kept|]. intros _. cbv zeta.
  set (fresh := tally count_chunk;; _).
  assert (keeps fresh) as Hfresh.
  { unfold fresh. apply keeps_bind; [apply keeps_tally|]. intros _. destruct (encode_install_snapshot _); [|apply keeps_skip].
    apply keeps_bind; [apply keeps_correlation|]. intros c. apply keeps_bind; [peer_kept|]. intros _. by apply keeps_send. }
  clearbody fresh. destruct (pe_probe p) as [probe|] eqn:Ep; [|done]. destruct (_ && _); [by apply keeps_resend|done].
Qed.

Lemma keeps_replicate i force : keeps (replicate i force).
Proof.
  unfold replicate. apply keeps_peer. intros p Hp. apply keeps_get. intros r. cbv zeta.
  set (append := update_peer i (peer_probe None);; _).
  assert (keeps append) as Happend.
  { unfold append. apply keeps_bind; [peer_kept|]. intros _. set (send_append := match encode_append_entries _ with Ok _ => _ | Err _ => _ end).
    assert (keeps send_append) as Hs.
    { unfold send_append. destruct (encode_append_entries _); [|apply keeps_skip].
      apply keeps_bind; [apply keeps_correlation|]. intros c. apply keeps_bind; [peer_kept|]. intros _. by apply keeps_send. }
    destruct (can_append _ _); [done|]. destruct (fe_snapshot _); [|done].
    destruct (is_legacy_format _); [done|apply keeps_snapshot_chunk]. }
  clearbody append. destruct (pe_probe p) as [probe|] eqn:Ep; [|done]. destruct (_ =? _); [by apply keeps_resend|done].
Qed.

Lemma keeps_replicate_all : keeps replicate_all.
Proof. unfold replicate_all. apply keeps_get. intros r. apply keeps_for_each. intros i. apply keeps_replicate. Qed.
#[local] Hint Resolve keeps_ensure keeps_snapshot_chunk keeps_replicate keeps_replicate_all : legacy.

(** ** Store operations *)

Section Methods.
Context (sys : LegacyOs).

Lemma keeps_store_op op :
  (forall Q f os io, steady Q -> store_fine Q f -> store_fine Q (op f os io).1) -> keeps (store_op sys op).
Proof.
  intros Hop r V [H1 H2 H3 H4 H5 H6 H7]. unfold store_op.
  pose proof (Hop _ _ (lo_os sys (ru_ops r)) (lo_install sys (ru_ops r)) (on_disk_steady _ _) H5) as Hs.
  destruct (op _ _ _) as [f e]. by split.
Qed.

Lemma keeps_append e : ev_term e <= max_u64 -> keeps (append_entry sys e).
Proof. intros He. apply keeps_store_op. intros Q f os io _. by apply append_fine. Qed.

Lemma keeps_truncate index : keeps (truncate_entries sys index).
Proof. apply keeps_store_op. intros Q f os io _. apply truncate_fine. Qed.

Lemma keeps_commit index : keeps (commit_entries sys index).
Proof. apply keeps_store_op. intros Q f os io HQ Hf. by apply commit_fine. Qed.

Lemma keeps_install snapshot : sp_term snapshot <= max_u64 -> keeps (install sys snapshot).
Proof. intros Hs. apply keeps_store_op. intros Q f os io HQ Hf. by apply install_fine. Qed.
#[local] Hint Resolve keeps_truncate keeps_commit : legacy.

Lemma keeps_advance : keeps (advance_commit sys).
Proof. unfold advance_commit. keeping. Qed.
#[local] Hint Resolve keeps_advance : legacy.

Lemma marker_term r next e : marker r next = Some e -> ev_term e = lr_term r.
Proof.
  unfold marker. destruct (parse_id _); [|done]. destruct (parse_id _); [|done].
  unfold parse_term. destruct (_ =? _); [done|]. by intros [= <-].
Qed.

Lemma term_small V live r : lr_fine V live r -> lr_term r <= max_u64.
Proof. intros H. destruct (lk_valid _ _ _ H) as [Ht _]. unfold valid_term in Ht. cbn in Ht. lia. Qed.

Lemma keeps_become_leader : keeps (become_leader sys).
Proof.
  unfold become_leader. apply keeps_get. intros r0. case_bool_decide; [apply keeps_skip|].
  apply keeps_bind; [apply keeps_ensure|]. intros _. apply keeps_bind; [by apply keeps_update; quiet|]. intros _.
  apply keeps_bind; [by apply keeps_update; quiet|]. intros _. apply keeps_bind; [apply keeps_tally|]. intros _.
  intros r V Hok. revert V Hok. apply get_at. apply bind_at.
  { intros V Hok. eapply quietly_ok; [|exact Hok]. split; try done; [|by exists []; rewrite app_nil_r].
    cbn. intros Hp. apply Forall_fmap. eapply list.Forall_impl; [exact Hp|]. by intros p _ probe. }
  destruct (marker (ru_replica r) _) as [noop|] eqn:Em; [|by apply keeps_update; quiet].
  apply marker_term in Em. intros V Hok. pose proof (term_small _ _ _ Hok) as Ht. cbn in Ht.
  revert V Hok. apply keeps_bind; [apply keeps_append; lia|]. intros written. keeping.
Qed.
#[local] Hint Resolve keeps_become_leader : legacy.

(** ** Writing a term and a vote *)

(** What a write of [term] and [vote] leaves: they are on disk if it succeeds,
    and the disk still stands behind the votes if it fails. *)
Lemma persist_spec V r term vote r' error :
  lr_fine V true (ru_replica r) -> meta_valid (mkMetadata term 0 vote) -> fits V term vote ->
  persist sys term vote r = (r', error) ->
  exists f, ru_replica r' = set_store f (ru_replica r) /\
    store_fine (on_disk V (match error with None => Some (term, vote) | Some _ => None end)) f.
Proof.
  intros [H1 H2 H3 H4 H5 H6 H7] Hv Hf. unfold persist, store_op.
  destruct (persist_consensus _ _ _ _) as [f e] eqn:E. intros [= <- <-]. exists f. split; [done|].
  destruct (persist_fine _ _ _ _ _ _ _ H5 Hv E) as [Hok [D1 D2 D3 D4]]. destruct e as [e|].
  - split; try done. eapply disk_mono; [|exact D1]. intros m [Hm|(M1 & M2 & M3 & _)]; [by apply on_disk_forget in Hm|].
    split; [done|]. by rewrite M2, M3.
  - destruct (Hok eq_refl) as [[E1 E2 E3 E4] _]. split; try done. eapply disk_mono; [|exact E1].
    intros m (M1 & M2 & M3). split; [done|]. rewrite M2, M3. split; [done|]. split; [lia|done].
Qed.

(** A replica whose disk stands behind the votes halts. *)
Lemma halt_spec V live r : lr_fine V live (ru_replica r) -> lr_ok V (ru_replica (halt_after_storage_failure r).1).
Proof. intros H. apply halted_fine in H as [H1 H2 H3 H4 H5 H6 H7]. by split. Qed.

(** A later term has no vote yet. *)
Lemma fits_later V term vote term' vote' : fits V term vote -> term < term' -> fits V term' vote'.
Proof. intros Hf Hlt t peer Ht. destruct (Hf t peer Ht). split; lia. Qed.

(** A replica that took up a term and a vote that are on disk. *)
Lemma fine_term V r f term vote :
  lr_fine V true r -> meta_valid (mkMetadata term 0 vote) -> fits V term vote ->
  store_fine (on_disk V (Some (term, vote))) f ->
  lr_fine V true (set_voted_for vote (set_term term (set_store f r))).
Proof. intros [H1 H2 H3 H4 H5 H6 H7] Hv Hf Hs. by split. Qed.

Lemma fine_store V r f : lr_fine V true r -> store_fine (on_disk V None) f -> lr_fine V false (set_store f r).
Proof. intros [H1 H2 H3 H4 H5 H6 H7] Hs. by split. Qed.

(** The parts of a method from a state. *)
Definition keeps_live {A} (m : L A) : Prop := forall r, lr_halted (ru_replica r) = false -> keeps_at m r.

Lemma keeps_any {A} (m : L A) : keeps m -> keeps_live m.
Proof. intros Hm r _. apply Hm. Qed.

Lemma live_bind {A B} (m : L A) (k : A -> L B) : keeps_live m -> (forall a, keeps (k a)) -> keeps_live (m ≫= k).
Proof. intros Hm Hk r Hr. apply bind_at; [by apply Hm|apply Hk]. Qed.

Lemma live_get {B} (k : Replica -> L B) : (forall r, keeps_live (k r)) -> keeps_live (get ≫= k).
Proof. intros Hk r Hr. by apply get_at, Hk. Qed.

Lemma live_fine V r : lr_ok V r -> lr_halted r = false -> lr_fine V true r.
Proof. unfold lr_ok. intros H E. by rewrite E in H. Qed.

Lemma live_ok V r : lr_fine V true r -> lr_halted r = false -> lr_ok V r.
Proof. unfold lr_ok. by intros H ->. Qed.

(** The rest of a method, after two updates that are judged together. *)
Lemma keeps_tail {A} (m : L A) f g r V :
  keeps m -> lr_ok V (g (f (ru_replica r))) -> lr_ok V (ru_replica ((update f;; update g;; m) r).1).
Proof. intros Hm Hok. by apply (Hm (mkReplicaRun (g (f (ru_replica r))) (ru_ops r)) V). Qed.

Lemma live_step_down term : term <= max_u64 -> keeps_live (step_down sys term).
Proof.
  intros Hmax r Hr. unfold step_down. apply get_at. destruct (_ <? _) eqn:E1; [apply keeps_ret|].
  destruct (_ =? _) eqn:E2; [apply keeps_bind; [keeping|intros _; apply keeps_ret]|].
  apply Z.ltb_ge in E1. apply Z.eqb_neq in E2. unfold parse_term. destruct (_ =? 0); [apply keeps_ret|].
  intros V Hok. pose proof (live_fine _ _ Hok Hr) as Hf. destruct (lk_valid _ _ _ Hf) as [Ht _]. cbn in Ht.
  assert (meta_valid (mkMetadata term 0 None)) as Hv by (split; [|done]; unfold valid_term in *; cbn; lia).
  assert (fits V term None) as Hfit by (eapply fits_later; [by apply (lk_votes _ _ _ Hf)|lia]).
  rewrite run_bind. destruct (persist sys term None r) as [r1 error] eqn:Ep.
  destruct (persist_spec V r term None r1 error Hf Hv Hfit Ep) as (f & E & Hs). destruct error as [e|].
  - destruct (halt_spec V false r1) as [J1 J2 J3 J4 J5 J6 J7]; [rewrite E; by apply fine_store|]. by split.
  - pose proof (fine_term V _ f term None Hf Hv Hfit Hs) as Hnew. rewrite <- E in Hnew.
    assert (lr_ok V (set_voted_for None (set_term term (ru_replica r1)))) as Hn.
    { apply live_ok; [done|]. by rewrite E. }
    revert Hn. apply keeps_tail. keeping.
Qed.

(** ** Elections *)

Lemma live_start_election : keeps_live (start_election sys).
Proof.
  intros r Hr. unfold start_election. apply get_at. unfold term_next. destruct (Z.eqb_spec (lr_term (ru_replica r)) max_u64) as [|Hm];
    [apply keeps_skip|]. destruct (parse_id _) as [self|] eqn:Eid; [|apply keeps_skip].
  apply parse_id_ok in Eid as [-> Hid]. set (self := rf_id (lr_config (ru_replica r))) in *. cbv zeta.
  intros V Hok. pose proof (live_fine _ _ Hok Hr) as Hf. destruct (lk_valid _ _ _ Hf) as [Ht _]. cbn in Ht.
  set (term := lr_term (ru_replica r) + 1).
  assert (meta_valid (mkMetadata term 0 (Some self))) as Hv by (split; [|done]; unfold valid_term, term in *; cbn; lia).
  assert (fits V term (Some self)) as Hfit by (eapply fits_later; [by apply (lk_votes _ _ _ Hf)|unfold term; lia]).
  rewrite run_bind. destruct (persist sys term (Some self) r) as [r1 error] eqn:Ep.
  destruct (persist_spec V r term (Some self) r1 error Hf Hv Hfit Ep) as (f & E & Hs). destruct error as [e|].
  - apply (halt_spec V false). rewrite E. by apply fine_store.
  - pose proof (fine_term V _ f term (Some self) Hf Hv Hfit Hs) as Hnew. rewrite <- E in Hnew.
    assert (lr_ok V (set_voted_for (Some self) (set_term term (set_role Candidate (ru_replica r1))))) as Hn.
    { apply live_ok; [|by rewrite E]. eapply quietly_fine; [|exact Hnew]. split; try done. exists []. by rewrite app_nil_r. }
    rewrite run_update. apply keeps_tail; [|exact Hn].
    apply keeps_bind; [keeping|]. intros _. keeping. unfold request_votes. keeping. by apply keeps_send.
Qed.

(** ** Append requests and their answers *)

Lemma keeps_merge entries : terms_below max_u64 entries -> keeps (merge_entries sys entries).
Proof.
  induction 1 as [|e entries He _ IH]; cbn [merge_entries]; [apply keeps_ret|]. apply keeps_get. intros r. cbv zeta.
  set (write := append_entry sys e ≫= _).
  assert (keeps write) as Hw.
  { unfold write. apply keeps_bind; [by apply keeps_append|]. intros written. keeping. }
  clearbody write. destruct (_ <? _); [done|]. destruct (find_index _ _); [|by keeping].
  destruct (bool_decide _); [done|]. destruct (_ <=? _); [by keeping|].
  apply keeps_bind; [apply keeps_truncate|]. intros truncated. by keeping.
Qed.

Lemma keeps_answer m correlation success matched hint : keeps (append_answer m correlation success matched hint).
Proof. unfold append_answer. apply keeps_get. intros r. by apply keeps_send_encoded. Qed.
#[local] Hint Resolve keeps_answer : legacy.

Lemma follow_terms limit index term entries :
  entries_follow limit index term entries = true -> terms_below limit entries.
Proof.
  revert index term. induction entries as [|e entries IH]; intros index term; cbn [entries_follow]; [constructor|].
  intros H. bool_props. constructor; [lia|]. by eapply IH.
Qed.

Lemma keeps_accept m correlation : append_well_formed m = true -> pa_term m <= max_u64 ->
  keeps (accept_append sys m correlation).
Proof.
  intros Hw Hm. assert (terms_below max_u64 (pa_entries m)) as He.
  { unfold append_well_formed in Hw. bool_props. eapply list.Forall_impl; [by eapply follow_terms|]. cbn. lia. }
  unfold accept_append. apply keeps_get. intros r. destruct (previous_matches r m) as [matches hint].
  destruct (negb matches); [apply keeps_answer|]. apply keeps_bind; [by apply keeps_merge|]. intros merged.
  destruct merged; [|apply keeps_answer|apply keeps_skip]. apply keeps_get. intros r1. cbv zeta.
  apply keeps_bind; [|intros []; keeping]. destruct (_ <? _); [|apply keeps_ret]. unfold follow_commit. keeping.
Qed.

Lemma keeps_follow leader counted : keeps (follow leader counted).
Proof. unfold follow. keeping. Qed.

Lemma live_if (b : bool) {A} (m k : L A) : keeps_live m -> keeps_live k -> keeps_live (if b then m else k).
Proof. by destruct b. Qed.

Lemma live_skip : keeps_live skip.
Proof. apply keeps_any, keeps_skip. Qed.

(** A message that may carry a later term. *)
Lemma live_stepped (b : bool) term (k : bool -> L unit) : term <= max_u64 -> (forall a, keeps (k a)) ->
  keeps_live (stepped ← (if b then step_down sys term else mret true); k stepped).
Proof.
  intros Ht Hk. apply live_bind; [|done]. apply live_if; [by apply live_step_down|apply keeps_any, keeps_ret].
Qed.

Lemma live_on_append m correlation : pa_term m <= max_u64 -> keeps_live (on_append sys m correlation).
Proof.
  intros Hm. unfold on_append. apply live_get. intros r. destruct (_ || _) eqn:Eb; [apply live_skip|].
  apply orb_false_iff in Eb as [_ Ew]. apply negb_false_iff in Ew.
  destruct (elections r); [|apply keeps_any; destruct (_ || _); [apply keeps_answer|by apply keeps_accept]].
  destruct (_ <? _); [apply keeps_any, keeps_answer|]. apply live_stepped; [done|]. intros []; cbn [negb]; [|apply keeps_skip].
  apply keeps_bind; [apply keeps_follow|]. intros _. by apply keeps_accept.
Qed.

Lemma live_step_skip term : term <= max_u64 -> keeps_live (_ ← step_down sys term; skip).
Proof. intros Ht. apply live_bind; [by apply live_step_down|]. intros _. apply keeps_skip. Qed.

Lemma live_on_append_response m correlation : par_term m <= max_u64 -> keeps_live (on_append_response sys m correlation).
Proof.
  intros Hm. unfold on_append_response. apply live_get. intros r. destruct (negb _); [apply live_skip|].
  destruct (_ && _); [by apply live_step_skip|]. destruct (_ && _); [apply live_skip|].
  destruct (negb _); [apply live_skip|]. destruct (last_peer _ _ _); [|apply live_skip]. apply keeps_any.
  apply keeps_peer. intros p Hp. destruct (answers _ _ _ _); [|apply keeps_skip]. destruct (_ && _); [apply keeps_skip|].
  apply keeps_bind; [peer_kept|]. intros _. destruct (negb _).
  - apply keeps_bind; [peer_kept|]. intros _. keeping.
  - destruct (_ <? _); [apply keeps_skip|]. apply keeps_bind; [peer_kept|]. intros _.
    apply keeps_bind; [apply keeps_advance|]. intros _. apply keeps_get. intros r1. apply keeps_peer. intros p1 _. keeping.
Qed.

(** ** Snapshots *)

Lemma keeps_reply leader correlation success next : keeps (reply_install leader correlation success next).
Proof. unfold reply_install. apply keeps_get. intros r. by apply keeps_send_encoded. Qed.
#[local] Hint Resolve keeps_reply : legacy.

Lemma keeps_refuse m correlation : keeps (refuse_install m correlation).
Proof. unfold refuse_install. keeping. Qed.
#[local] Hint Resolve keeps_refuse : legacy.

Lemma keeps_take_chunk m correlation : pi_last_included_term m <= max_u64 -> keeps (take_chunk sys m correlation).
Proof.
  intros Hm. unfold take_chunk. apply keeps_get. intros r. destruct (incoming_stream _ _) as [i|]; [|apply keeps_refuse].
  apply keeps_bind; [by keeping|]. intros _. cbv zeta. destruct (_ <? _); [apply keeps_reply|].
  destruct (_ <? _); [apply keeps_refuse|]. apply keeps_bind; [by keeping|]. intros _.
  destruct (pi_more m); [apply keeps_reply|]. unfold install_whole. cbv zeta. apply keeps_bind; [by keeping|]. intros _.
  destruct (negb _); [apply keeps_reply|]. apply keeps_bind; [by apply keeps_install|]. intros failed. keeping.
Qed.

Lemma live_on_install m correlation : pi_term m <= max_u64 -> pi_last_included_term m <= max_u64 ->
  keeps_live (on_install sys m correlation).
Proof.
  intros Hm Hl. unfold on_install. apply live_get. intros r. cbv zeta. set (proceed := if install_well_formed m then _ else _).
  assert (keeps proceed) as Hp by (unfold proceed; destruct (install_well_formed m); [by apply keeps_take_chunk|apply keeps_refuse]).
  clearbody proceed. destruct (negb _); [apply live_skip|]. destruct (elections r).
  - destruct (_ <? _); [apply keeps_any, keeps_reply|]. apply live_stepped; [done|]. intros []; cbn [negb]; [|apply keeps_skip].
    apply keeps_bind; [apply keeps_follow|]. by intros _.
  - apply keeps_any. destruct (_ || _); [apply keeps_reply|done].
Qed.

Lemma live_on_install_response m correlation : psr_term m <= max_u64 -> keeps_live (on_install_response sys m correlation).
Proof.
  intros Hm. unfold on_install_response. apply live_get. intros r. destruct (negb _); [apply live_skip|].
  destruct (_ && _); [by apply live_step_skip|]. destruct (negb _); [apply live_skip|].
  destruct (first_peer _ _ _); [|apply live_skip]. apply keeps_any. apply keeps_peer. intros p Hp.
  destruct (answers _ _ _ _); [|apply keeps_skip]. destruct (_ && _); [apply keeps_skip|].
  apply keeps_bind; [peer_kept|]. intros _. destruct (negb _); [peer_kept|].
  destruct (fe_snapshot _) as [snapshot|]; [|peer_kept]. destruct (negb _); [peer_kept|].
  destruct (_ <? _).
  - apply keeps_bind; [peer_kept|]. intros _. apply keeps_snapshot_chunk.
  - apply keeps_bind; [peer_kept|]. intros _. keeping.
Qed.

(** ** Votes *)

Lemma live_on_vote_response m : pvr_term m <= max_u64 -> keeps_live (on_vote_response sys m).
Proof.
  intros Hm. unfold on_vote_response. apply live_get. intros r. destruct (_ || _); [apply live_skip|].
  destruct (_ <? _); [by apply live_step_skip|]. apply keeps_any. destruct (_ || _ || _ || _); [apply keeps_skip|].
  keeping.
Qed.

(** [m] may add votes. *)
Definition moves_at {A} (m : L A) (r : ReplicaRun) : Prop :=
  forall V, lr_ok V (ru_replica r) -> exists V', V ⊆ V' /\ lr_ok V' (ru_replica (m r).1).

Lemma keeps_moves {A} (m : L A) r : keeps_at m r -> moves_at m r.
Proof. intros Hm V Hok. exists V. split; [done|by apply Hm]. Qed.

(** A vote of the current term that the replica holds may go out. *)
Lemma answer_ok V W live r (run : ReplicaRun) peer correlation granted :
  lr_fine W live r -> lr_ok V (ru_replica run) ->
  (granted = true -> V !! lr_term r = Some peer) ->
  lr_ok V (ru_replica (send_encoded peer tRequestVoteResponse correlation
    (encode_vote_response (mkProtoVoteResponse (lr_term r) (rf_id (lr_config r)) granted)) run).1).
Proof.
  intros Hr Hok Hg. destruct (encode_vote_response _) as [payload|] eqn:Ee; [|done]. cbn [send_encoded].
  unfold send. rewrite run_bind. cbn [get]. destruct (_ || _); [done|]. destruct (_ <? _); [by apply keeps_tally|].
  cbn. destruct Hok as [H1 H2 H3 H4 H5 H6 H7]. split; try done. cbn [lr_calls set_calls]. apply Forall_app_2; [done|].
  constructor; [|constructor]. intros _ m. cbn [fr_payload].
  destruct (lk_valid _ _ _ Hr) as [Hv _]. unfold valid_term in Hv. cbn in Hv.
  rewrite (vote_response_decoded (lr_term r) _ _ _ ltac:(unfold u64; lia) (lk_id _ _ _ Hr) Ee). intros [= <-].
  cbn [pvr_term pvr_vote_granted]. rewrite (proj2 (Z.eqb_neq _ _)) by lia. exact Hg.
Qed.

(** The vote that [voted_for_] and the disk agree on joins the votes. *)
Lemma cast_fine V r f peer :
  lr_fine V true r -> valid_id peer = true -> fits V (lr_term r) (Some peer) ->
  store_fine (on_disk V (Some (lr_term r, Some peer))) f ->
  let V' := <[lr_term r := peer]> V in
  V ⊆ V' /\ lr_fine V' true (set_store f (set_voted_for (Some peer) r)).
Proof.
  intros [H1 H2 H3 H4 H5 H6 H7] Hid Hf Hs V'.
  assert (V ⊆ V') as Hsub.
  { destruct (V !! lr_term r) as [q|] eqn:Eq; [|by apply insert_subseteq].
    destruct (Hf _ _ Eq) as [_ Hq]. specialize (Hq eq_refl). unfold V'. rewrite insert_id; [done|congruence]. }
  assert (forall term vote, lr_term r <= term -> (lr_term r = term -> vote = Some peer) -> fits V term vote ->
    fits V' term vote) as Hnew.
  { intros term vote Hle Heq Hfit t q. destruct (decide (t = lr_term r)) as [->|Hne].
    - unfold V'. rewrite lookup_insert_eq. intros [= <-]. done.
    - unfold V'. rewrite lookup_insert_ne by done. apply Hfit. }
  split; [done|]. split; try done.
  - destruct H3 as [Hv _]. by split.
  - intros _. cbn. by apply Hnew.
  - destruct Hs as [S1 S2 S3 S4]. split; try done. eapply disk_mono; [|exact S1].
    intros m (M1 & M2 & M3 & M4). split; [done|]. split; [by apply Hnew|]. by split.
  - eapply list.Forall_impl; [exact H7|]. intros c. by apply call_cast_mono.
Qed.

(** What [persist_vote] leaves after [voted_for_] was set to [peer]. *)
Lemma vote_written V r peer r2 failed :
  lr_fine V true (ru_replica r) -> fits V (lr_term (ru_replica r)) (Some peer) ->
  persist_vote sys (mkReplicaRun (set_voted_for (Some peer) (ru_replica r)) (ru_ops r)) = (r2, failed) ->
  exists f, ru_replica r2 = set_store f (set_voted_for (Some peer) (ru_replica r)) /\
    match failed with
    | None => valid_id peer = true /\ store_fine (on_disk V (Some (lr_term (ru_replica r), Some peer))) f
    | Some _ => store_fine (on_disk V None) f
    end.
Proof.
  intros Hf Hfit. pose proof (halted_fine _ _ _ Hf) as Hh. unfold persist_vote. rewrite run_bind. cbn [get ru_replica].
  assert (forall e, exists f, set_voted_for (Some peer) (ru_replica r) = set_store f (set_voted_for (Some peer) (ru_replica r)) /\
    match Some e : option Error with None => False | Some _ => store_fine (on_disk V None) f end) as Hsame.
  { intros e. exists (lr_store (ru_replica r)). split; [by destruct (ru_replica r)|apply (lk_store _ _ _ Hh)]. }
  cbn [lr_term lr_voted_for set_voted_for]. destruct (parse_term _) as [term|e] eqn:Et; [|intros [= <- <-]; apply (Hsame e)].
  assert (term = lr_term (ru_replica r)) as ->.
  { unfold parse_term in Et. destruct (_ =? _); [done|]. by injection Et as <-. }
  destruct (parse_id peer) as [id|e] eqn:Ei; [|intros [= <- <-]; apply (Hsame e)].
  apply parse_id_ok in Ei as [-> Hid]. unfold persist, store_op. cbn [ru_replica ru_ops lr_store set_voted_for].
  destruct (persist_consensus _ _ _ _) as [f error] eqn:Ep. intros [= <- <-]. exists f. split; [done|].
  assert (meta_valid (mkMetadata (lr_term (ru_replica r)) 0 (Some peer))) as Hv.
  { destruct (lk_valid _ _ _ Hf) as [H _]. by split. }
  assert (persist sys (lr_term (ru_replica r)) (Some peer) r = (mkReplicaRun (set_store f (ru_replica r)) (S (ru_ops r)), error)) as Hp
    by (unfold persist, store_op; by rewrite Ep).
  destruct (persist_spec V r _ (Some peer) _ _ Hf Hv Hfit Hp) as (f' & E & Hs).
  assert (f' = f) as -> by (by injection E). by destruct error.
Qed.

(** A step to a later term that succeeds leaves the replica running. *)
Lemma stepped_live term r r1 : lr_halted (ru_replica r) = false -> step_down sys term r = (r1, true) ->
  lr_halted (ru_replica r1) = false.
Proof.
  intros Hr. unfold step_down. rewrite run_bind. cbn [get]. destruct (_ <? _); [done|]. destruct (_ =? _).
  { intros H. apply (f_equal (fun x => lr_halted (ru_replica x.1))) in H. cbn [fst] in H. rewrite <- H.
    by destruct (bool_decide _). }
  destruct (parse_term term); [|done]. rewrite run_bind.
  destruct (persist _ _ _ _) as [r2 [e|]] eqn:Ep; [done|].
  unfold persist, store_op in Ep. destruct (persist_consensus _ _ _ _) as [f error]. injection Ep as <- ->.
  intros H. apply (f_equal (fun x => lr_halted (ru_replica x.1))) in H. cbn [fst] in H. rewrite <- H.
  destruct (bool_decide _); exact Hr.
Qed.

Lemma moves_on_vote m correlation r : prv_term m <= max_u64 -> lr_halted (ru_replica r) = false ->
  moves_at (on_vote sys m correlation) r.
Proof.
  intros Hm Hr V Hok. unfold on_vote. rewrite run_bind. cbn [get]. cbv zeta.
  assert (forall r1 V1, lr_ok V1 (ru_replica r1) -> exists V', V1 ⊆ V' /\ lr_ok V' (ru_replica
    (send_encoded (prv_candidate_id m) tRequestVoteResponse correlation
      (encode_vote_response (mkProtoVoteResponse (lr_term (ru_replica r1)) (rf_id (lr_config (ru_replica r1))) false)) r1).1)) as Hno.
  { intros r1 V1 H1. exists V1. split; [done|]. by eapply answer_ok. }
  destruct (negb _); [by exists V|]. destruct (negb _); [by apply Hno|]. rewrite run_bind.
  destruct ((if lr_term (ru_replica r) <? prv_term m then step_down sys (prv_term m) else mret true) r)
    as [r1 stepped] eqn:Es.
  assert (lr_ok V (ru_replica r1)) as H1.
  { change r1 with (r1, stepped).1. rewrite <- Es. destruct (_ <? _); [|done]. by apply live_step_down. }
  destruct (negb stepped) eqn:Estep; [by exists V|]. rewrite run_bind. cbn [get].
  destruct (_ && _ && _) eqn:Eg; [|by apply Hno].
  apply andb_true_iff in Eg as [Eg _]. apply andb_true_iff in Eg as [_ Efree].
  assert (lr_halted (ru_replica r1) = false) as Hr1.
  { destruct stepped; [|done]. destruct (_ <? _); [by eapply stepped_live|]. by injection Es as <-. }
  pose proof (live_fine _ _ H1 Hr1) as Hf. rewrite run_update, run_bind.
  set (peer := prv_candidate_id m) in *. set (rv := mkReplicaRun (set_voted_for (Some peer) (ru_replica r1)) (ru_ops r1)).
  assert (fits V (lr_term (ru_replica r1)) (Some peer)) as Hfit.
  { intros t q Hq. destruct (lk_votes _ _ _ Hf eq_refl t q Hq) as [Hle Heq]. split; [done|]. intros E.
    rewrite (Heq E) in Efree. by apply bool_decide_eq_true in Efree as ->. }
  destruct (persist_vote sys rv) as [r2 failed] eqn:Ep.
  destruct (vote_written V r1 peer r2 failed Hf Hfit Ep) as (f & E2 & Hres). destruct failed as [e|].
  - exists V. split; [done|]. rewrite run_update. apply (halt_spec V false). cbn [ru_replica]. rewrite E2.
    destruct (fine_store _ _ _ Hf Hres) as [J1 J2 J3 J4 J5 J6 J7]. by split.
  - destruct Hres as [Hid Hs]. destruct (cast_fine V _ f peer Hf Hid Hfit Hs) as [Hsub Hnew]. eexists. split; [exact Hsub|].
    rewrite <- E2 in Hnew. assert (lr_halted (ru_replica r2) = false) as Hr2 by (by rewrite E2).
    rewrite run_update, run_bind.
    destruct (tally count_vote _) as [r3 []] eqn:Et. unfold tally, update in Et. injection Et as <-. cbn [ru_replica].
    eapply answer_ok; [exact Hf| |by intros _; apply lookup_insert_eq].
    apply live_ok; [|done]. eapply quietly_fine; [|exact Hnew]. split; try done. exists []. by rewrite app_nil_r.
Qed.

(** ** Commands *)

Lemma keeps_apply_speculative e : keeps (apply_speculative e).
Proof. unfold apply_speculative. keeping. Qed.
#[local] Hint Resolve keeps_apply_speculative : legacy.

Lemma keeps_restamp e : keeps (restamp e).
Proof. unfold restamp. keeping. Qed.

(** With elections, a proposal is written under the current term. *)
Lemma restamp_term proposed r e : elections (ru_replica r) = true ->
  (restamp proposed r).2 = Ok e -> ev_term e = lr_term (ru_replica r).
Proof.
  intros He. unfold restamp. rewrite run_bind. cbn [get]. rewrite He. cbn [andb].
  destruct (Z.eqb_spec (ev_term proposed) (lr_term (ru_replica r))) as [E|_]; cbn [negb]; [by intros [= <-]|].
  unfold parse_term. destruct (_ =? 0); [done|]. set (restamped := event_with_term _ _).
  intros H. assert (e = restamped) as ->; [|done]. revert H. rewrite run_bind.
  destruct (apply_speculative restamped r) as [r1 [err|]]; [|by intros [= <-]].
  rewrite run_bind. destruct (rebuild_speculative r1) as [r2 []]. rewrite run_bind.
  destruct (apply_speculative restamped r2) as [r3 [err'|]]; [done|by intros [= <-]].
Qed.

Lemma keeps_write e : ev_term e <= max_u64 -> keeps (write_proposal sys e).
Proof. intros He. unfold write_proposal. apply keeps_bind; [by apply keeps_append|]. intros written. keeping. Qed.

Lemma keeps_enqueue command : keeps (enqueue sys command).
Proof.
  unfold enqueue. apply keeps_get. intros r0. destruct (lr_halted r0); [apply keeps_ret|].
  destruct (negb _); [apply keeps_ret|]. cbv zeta. destruct (_ || _); [apply keeps_ret|].
  destruct (find_command _ _); [apply keeps_ret|]. apply keeps_bind; [apply keeps_ensure|]. intros _.
  apply keeps_get. intros r1. destruct (propose _ _) as [proposed|]; [|apply keeps_ret].
  intros r V Hok. pose proof (restamp_term proposed r) as Ht. revert V Hok.
  enough (lr_term (ru_replica r) <= max_u64 -> elections (ru_replica r) = true -> keeps_at
    (stamped ← restamp proposed; match stamped with Err e => mret (Err e) | Ok proposed => write_proposal sys proposed end) r) as H.
  { intros V Hok. apply H; [by eapply term_small|apply (lk_elections _ _ _ Hok)|done]. }
  intros Hm He. apply bind_at; [apply keeps_restamp|]. destruct (restamp proposed r).2 as [e|e]; [|apply keeps_ret].
  apply keeps_write. by rewrite (Ht e He eq_refl).
Qed.

(** ** Time and frames *)

Lemma live_tick r : keeps_at (tick sys) r.
Proof.
  unfold tick. apply bind_at; [apply keeps_trim|]. apply get_at. destruct (lr_halted _) eqn:Eh; [apply keeps_skip|].
  set (r1 := (trim_retained_history r).1) in *. clearbody r1. apply bind_at; [by apply keeps_update; quiet|].
  destruct (negb _); [apply keeps_when, keeps_replicate_all|]. destruct (bool_decide _); [apply keeps_replicate_all|].
  cbv zeta. apply bind_at; [by apply keeps_update; quiet|]. destruct (_ <=? _); [|apply keeps_skip].
  by apply live_start_election.
Qed.

Lemma deliver_moves {T} (decoded : result Error T) claimed peer (body : T -> L unit) r :
  (forall m, decoded = Ok m -> moves_at (body m) r) -> moves_at (deliver decoded claimed peer body) r.
Proof.
  intros Hb. unfold deliver. destruct decoded as [m|]; [|apply keeps_moves, keeps_skip].
  destruct (_ || _); [by apply Hb|apply keeps_moves, keeps_skip].
Qed.

Lemma moves_get {B} (k : Replica -> L B) r : moves_at (k (ru_replica r)) r -> moves_at (get ≫= k) r.
Proof. done. Qed.

Lemma moves_if {A} (b : bool) (m k : L A) r :
  moves_at m r -> (b = false -> moves_at k r) -> moves_at (if b then m else k) r.
Proof. destruct b; auto. Qed.

(** A decoded message is in range. *)
#[local] Ltac decoded make kept :=
  apply deliver_moves; intros m E; apply (decoded_by make) in E; [|apply kept|done..]; unfold message_in_range, u64 in E.

Lemma moves_handle frame peer r : bytes_ok (fr_payload frame) -> moves_at (handle sys frame peer) r.
Proof.
  intros Hb. unfold handle. apply moves_get. cbv zeta.
  apply moves_if; [apply keeps_moves, keeps_skip|]. intros [Hr _]%orb_false_iff.
  apply moves_if; [|intros _]; [decoded OfAppendEntries append_entries_keeps; apply keeps_moves, live_on_append; [lia|done]|].
  apply moves_if; [|intros _]; [decoded OfAppendResponse append_response_keeps; apply keeps_moves, live_on_append_response; [lia|done]|].
  apply moves_if; [|intros _]; [decoded OfRequestVote request_vote_keeps; apply moves_on_vote; [lia|done]|].
  apply moves_if; [|intros _]; [decoded OfVoteResponse vote_response_keeps; apply keeps_moves, live_on_vote_response; [lia|done]|].
  apply moves_if; [|intros _]; [decoded OfInstallSnapshot install_snapshot_keeps; apply keeps_moves, live_on_install; [lia|lia|done]|].
  apply moves_if; [|intros _]; [decoded OfSnapshotResponse snapshot_response_keeps; apply keeps_moves, live_on_install_response; [lia|done]|].
  apply keeps_moves, keeps_skip.
Qed.
End Methods.

(** ** Opening *)

Section Opening.
Context (config : ReplicaConfig).
Hypothesis Helections : rf_elections config = true.
Hypothesis Hid : text_ok (rf_id config).

(** What the constructor and the recovery set. *)
Lemma recovered metadata store speculative :
  let r := recover_replica metadata (construct config store speculative) in
  elections r = true /\ rf_id (lr_config r) = rf_id config /\ lr_term r = md_term metadata /\
  lr_voted_for r = md_voted_for metadata /\ lr_store r = store /\ lr_halted r = false /\
  lr_calls r = [] /\ Forall probe_ok (lr_peers r).
Proof.
  unfold construct. cbv zeta. set (r0 := mkReplica _ _ _ _ _ _ _ _ _ _ _ _ _ _ _ _ _ _ _ _ _ _).
  assert (exists rng, ru_replica (draw_timeout (mkReplicaRun r0 0)).1 = set_rng rng r0) as [rng Hr].
  { unfold draw_timeout. rewrite run_bind. cbn [get]. destruct (_ <=? 1); [by exists (lr_rng r0)|by eexists]. }
  destruct (draw_timeout _) as [run timeout]. cbn [fst] in Hr. rewrite Hr. unfold recover_replica. cbv zeta.
  assert (elections r0 = true) as He by done.
  destruct (negb (elections _)) eqn:En; [exfalso; revert En; cbn; by rewrite Helections|]. cbn. split_and!; try done.
  apply Forall_fmap, Forall_fmap, list.Forall_forall. by intros id _ probe.
Qed.

Lemma terms_agree_below limit snapshot es : forall previous,
  terms_agree previous limit snapshot es = true -> terms_below limit es.
Proof.
  induction es as [|e es IH]; intros previous; cbn [terms_agree]; [constructor|]. intros H. bool_props.
  constructor; [lia|]. by eapply IH.
Qed.

Lemma open_ready V d open_os os d' res :
  disk_all (on_disk V None) d -> replica_open config d open_os os = (d', res) ->
  disk_all (on_disk V None) d' /\ forall r, res = Ok r -> lr_ok V r /\ lr_calls r = [].
Proof.
  intros Hd. unfold replica_open. destruct (store_open _ _ _) as [d1 opened] eqn:Eo.
  destruct (open_fine _ _ (legacy_options (rf_snapshot_every config)) _ _ _ eq_refl Hd Eo) as [Hd1 Hopen]. destruct opened as [f|e]; [|by intros [= <- <-]].
  intros [= <- Hres]. split; [done|]. intros r Er. rewrite Er in Hres. clear Er.
  destruct (Hopen f eq_refl) as (E1 & _ & Ej & Hl & Hb). clear Hopen.
  destruct (build_speculative f) as [speculative|]; [|done]. unfold read_metadata in Hres.
  destruct (os_meta_read os); [done|]. rewrite E1 in Hres.
  destruct (load_metadata (dir_meta d1)) as [m|] eqn:Em; [|done]. destruct (da_meta _ _ Hd1 m Em) as (Hv & Hf & _).
  destruct (match fe_snapshot f with Some _ => _ | None => _ end) eqn:Es in Hres; [done|].
  destruct (negb (terms_agree _ _ _ _)) eqn:Et in Hres; [done|]. injection Hres as <-.
  destruct (recovered m f speculative) as (R1 & R2 & R3 & R4 & R5 & R6 & R7 & R8). split; [|done].
  unfold lr_ok. rewrite R6. assert (valid_term (md_term m)) as Ht by apply Hv. unfold valid_term in Ht.
  assert (s_term (en_state (fe_engine f)) <= max_u64) as Hst.
  { apply Hb; [done|done|]. destruct (fe_snapshot f); [|done]. apply Z.ltb_ge in Es. lia. }
  split; rewrite ?R2, ?R3, ?R4, ?R5, ?R7; try done. cbn [negb]. split; [|done|done|by rewrite E1].
  rewrite E1. split; [|by rewrite Ej].
  intros m' Em'. rewrite Em in Em'. injection Em' as <-. split; [done|]. split; [done|]. split; [lia|done].
Qed.

(** ** The life of a node *)

(** What happens to a node: it runs or its process is gone; [LReopen] starts
    it from what the disk holds. A crash inside a method is a method whose
    remaining system calls fail, followed by [LCrash]. *)
Inductive LegacyInput :=
| LAttach (sender hook : bool)
| LBounds (min_ticks max_ticks : Z)
| LTick
| LReceive (frame : Frame) (peer : string)
| LSubmit (command : Command)
| LCrash
| LReopen (open_os : OpenOs) (os : Os).

Definition legacy_method (sys : LegacyOs) (i : LegacyInput) : L unit :=
  match i with
  | LAttach sender hook => update (set_sender sender);; update (set_commit_hook hook)
  | LBounds lo hi => set_election_bounds lo hi
  | LTick => tick sys
  | LReceive frame peer => handle sys frame peer
  | LSubmit command => _ ← enqueue sys command; skip
  | LCrash | LReopen _ _ => skip
  end.

(** A node and the frames that its earlier processes sent. *)
Inductive LegacyNode :=
| LUp (r : Replica) (past : list Call)
| LDown (d : Directory) (past : list Call).

Definition legacy_step (n : LegacyNode) (i : LegacyInput) (sys : LegacyOs) : LegacyNode :=
  match n, i with
  | LUp r past, LCrash => LDown (fe_disk (lr_store r)) (past ++ lr_calls r)
  | LUp r past, _ => LUp (ru_replica (legacy_method sys i (mkReplicaRun r 0)).1) past
  | LDown d past, LReopen open_os os =>
      match replica_open config d open_os os with
      | (d', Ok r) => LUp r past
      | (d', Err _) => LDown d' past
      end
  | LDown _ _, _ => n
  end.

Definition legacy_life (n : LegacyNode) (turns : list (LegacyInput * LegacyOs)) : LegacyNode :=
  foldl (fun n t => legacy_step n t.1 t.2) n turns.

(** Every frame the node has sent, over all its processes. *)
Definition sent_by (n : LegacyNode) : list Call :=
  match n with LUp r past => past ++ lr_calls r | LDown _ past => past end.

Definition legacy_ok (V : Votes) (n : LegacyNode) : Prop :=
  match n with
  | LUp r past => lr_ok V r /\ Forall (call_cast V) past
  | LDown d past => disk_all (on_disk V None) d /\ Forall (call_cast V) past
  end.

(** Frames are bytes. *)
Definition legacy_turn_ok (t : LegacyInput * LegacyOs) : Prop :=
  match fst t with LReceive frame _ => bytes_ok (fr_payload frame) | _ => True end.

Lemma method_moves_votes sys i r : legacy_turn_ok (i, sys) -> moves_at (legacy_method sys i) r.
Proof.
  intros Hi. destruct i as [sender hook|lo hi| |frame peer|command| |]; cbn [legacy_method];
    try (apply keeps_moves; first [apply keeps_skip|apply live_tick|apply keeps_bounds]).
  - apply keeps_moves, keeps_bind; [by keeping|]. intros _. by keeping.
  - by apply moves_handle.
  - apply keeps_moves, keeps_bind; [apply keeps_enqueue|]. intros _. apply keeps_skip.
Qed.

Lemma past_mono V V' past : V ⊆ V' -> Forall (call_cast V) past -> Forall (call_cast V') past.
Proof. intros Hle H. eapply list.Forall_impl; [exact H|]. intros c. by apply call_cast_mono. Qed.

Lemma step_votes V n i sys : legacy_turn_ok (i, sys) -> legacy_ok V n ->
  exists V', V ⊆ V' /\ legacy_ok V' (legacy_step n i sys).
Proof.
  intros Hi. destruct n as [r past|d past]; intros [Hok Hp].
  - assert (exists V', V ⊆ V' /\ legacy_ok V' (LUp (ru_replica (legacy_method sys i (mkReplicaRun r 0)).1) past)) as Hm.
    { destruct (method_moves_votes sys i (mkReplicaRun r 0) Hi V Hok) as (V' & Hle & Hok'). exists V'. split; [done|].
      split; [done|by eapply past_mono]. }
    destruct i; try exact Hm. exists V. split; [done|]. split; [apply (lk_store _ _ _ (halted_fine _ _ _ Hok))|].
    apply Forall_app_2; [done|apply (lk_calls _ _ _ Hok)].
  - exists V. split; [done|]. destruct i as [| | | | | |open_os os]; try by split. cbn [legacy_step].
    destruct (replica_open _ _ _ _) as [d' res] eqn:Eo. destruct (open_ready V _ _ _ _ _ Hok Eo) as [Hd' Hr].
    destruct res as [r|e]; [|by split]. destruct (Hr r eq_refl) as [H1 _]. by split.
Qed.

Lemma life_votes turns : forall V n, Forall legacy_turn_ok turns -> legacy_ok V n ->
  exists V', V ⊆ V' /\ legacy_ok V' (legacy_life n turns).
Proof.
  induction turns as [|[i sys] turns IH]; intros V n Hall Hok; [by exists V|].
  apply list.Forall_cons in Hall as [Hi Hall]. destruct (step_votes V n i sys Hi Hok) as (V1 & H1 & Hok1).
  destruct (IH V1 _ Hall Hok1) as (V2 & H2 & Hok2). exists V2. split; [by etransitivity|done].
Qed.

(** The frames of a node whose votes are [V]. *)
Lemma sent_cast V n : legacy_ok V n -> Forall (call_cast V) (sent_by n).
Proof.
  destruct n as [r past|d past]; intros [Hok Hp]; cbn [sent_by]; [|done].
  apply Forall_app_2; [done|apply (lk_calls _ _ _ Hok)].
Qed.

(** A directory that no node has used. *)
Definition new_directory : Directory := mkDirectory None ∅ None None.

Lemma new_node_ok : legacy_ok ∅ (LDown new_directory []).
Proof. split; [|constructor]. split; [|done]. intros m [= <-]. by split_and!. Qed.

(** C11: One vote a term over the whole life of a node. From an empty
    directory, whatever frames, commands, crashes and restarts a node of the
    first replication engine goes through and whatever its system calls do, any
    two frames that its processes ever handed to the network and that decode as
    granted votes of the same term went to the same peer. *)
Theorem legacy_votes_once turns p1 f1 m1 p2 f2 m2 :
  Forall legacy_turn_ok turns ->
  Sent p1 f1 ∈ sent_by (legacy_life (LDown new_directory []) turns) -> fr_type f1 = tRequestVoteResponse ->
  decode_vote_response (fr_payload f1) = Ok m1 -> pvr_vote_granted m1 = true ->
  Sent p2 f2 ∈ sent_by (legacy_life (LDown new_directory []) turns) -> fr_type f2 = tRequestVoteResponse ->
  decode_vote_response (fr_payload f2) = Ok m2 -> pvr_vote_granted m2 = true ->
  pvr_term m1 = pvr_term m2 -> p1 = p2.
Proof.
  intros Hall I1 T1 D1 G1 I2 T2 D2 G2 Et. destruct (life_votes turns _ _ Hall new_node_ok) as (V & _ & Hok).
  apply sent_cast in Hok. rewrite list.Forall_forall in Hok.
  pose proof (Hok _ I1 T1 m1 D1 G1) as V1. pose proof (Hok _ I2 T2 m2 D2 G2) as V2. congruence.
Qed.
End Opening.

(** ** A node that runs *)

Definition legacy_demo : ReplicaConfig :=
  mkReplicaConfig "node-1" "" ["node-2"; "node-3"] true 7 3 6 100 512 262144 262144.

Definition legacy_calm : LegacyOs :=
  mkLegacyOs (fun _ => calm) (fun _ => mkInstallOs None None Replaced undisturbed Accessed None).

Definition legacy_start : LegacyInput :=
  LReopen (mkOpenOs None None None undisturbed Accessed None (fun _ => false) None None Replaced None Replaced) calm.

(** Asked for its vote of term 2 before and after a restart. *)
Definition legacy_turns : list (LegacyInput * LegacyOs) :=
  (fun i => (i, legacy_calm)) <$>
  [legacy_start; LAttach true true; LReceive (vote_frame 2 "node-2") "node-2"; LCrash;
   legacy_start; LAttach true true; LReceive (vote_frame 2 "node-3") "node-3";
   LReceive (vote_frame 2 "node-2") "node-2"].

Lemma legacy_turns_ok : Forall legacy_turn_ok legacy_turns.
Proof.
  unfold legacy_turns. cbn [fmap list_fmap]. repeat (apply Forall_cons_2; [|]); try done;
    apply vote_frame_bytes; vm_compute; try split; congruence.
Qed.

Lemma legacy_votes_once_witness :
  let grant := mkFrame tRequestVoteResponse 7 [8; 2; 18; 6; 110; 111; 100; 101; 45; 49; 24; 1] in
  let refusal := mkFrame tRequestVoteResponse 7 [8; 2; 18; 6; 110; 111; 100; 101; 45; 49] in
  exists before after,
    sent_by (legacy_life legacy_demo (LDown new_directory []) legacy_turns) =
      [Sent before grant; Sent "node-3" refusal; Sent after grant] /\
    decode_vote_response (fr_payload grant) = Ok (mkProtoVoteResponse 2 "node-1" true) /\ before = after.
Proof.
  intros grant refusal. exists "node-2"%string, "node-2"%string.
  assert (sent_by (legacy_life legacy_demo (LDown new_directory []) legacy_turns) =
    [Sent "node-2" grant; Sent "node-3" refusal; Sent "node-2" grant]) as Hsent by (vm_compute; reflexivity).
  assert (decode_vote_response (fr_payload grant) = Ok (mkProtoVoteResponse 2 "node-1" true)) as Hd
    by (vm_compute; reflexivity).
  split; [exact Hsent|]. split; [exact Hd|].
  apply (legacy_votes_once legacy_demo eq_refl ltac:(vm_compute; congruence) legacy_turns
    "node-2" grant (mkProtoVoteResponse 2 "node-1" true) "node-2" grant (mkProtoVoteResponse 2 "node-1" true)).
  - exact legacy_turns_ok.
  - rewrite Hsent. constructor.
  - reflexivity.
  - exact Hd.
  - reflexivity.
  - rewrite Hsent. do 2 constructor.
  - reflexivity.
  - exact Hd.
  - reflexivity.
  - reflexivity.
Defined.
