(* ===== verification/RuntimeReplica.v ===== *)
(** * One of two replicas

    [replication/runtime_replica.cpp]: the variant that a server runs, each
    method forwarded to the replica that is there. *)

From S2P Require Import Prelude Text Types Model Transaction FileEngine FileEngineAdapter RuntimeHost Frame ReplicaTypes CoreReplica Replica.

Inductive RuntimeReplica :=
| LegacyReplica (r : Replica.Replica)
| TransitionReplica (c : CoreReplica.CoreReplica).

(** The outcomes of the system calls of either replica. *)
Record RuntimeEnv := mkRuntimeEnv { en_legacy : LegacyOs; en_core : System }.

(** [open]; [lease] is the outcome of taking the lock of the directory. *)
Definition runtime_open (config : ReplicaConfig) (transition_core named : bool) (directory : Directory)
    (lease : option Error) (opening : AdapterOs) (open_os : OpenOs) (os : Os)
    : option (Directory * result Error RuntimeReplica) :=
  if transition_core then
    match core_open config named directory lease opening with
    | None => None
    | Some (directory, Err e) => Some (directory, Err e)
    | Some (directory, Ok c) => Some (directory, Ok (TransitionReplica c))
    end
  else
    match lease with
    | Some e => Some (directory, Err e)
    | None =>
        let '(directory, r) := replica_open config directory open_os os in
        Some (directory, let? r := r in Ok (LegacyReplica r))
    end.

Definition runtime_set_sender (sender : bool) (r : RuntimeReplica) : RuntimeReplica :=
  match r with
  | LegacyReplica r => LegacyReplica (Replica.set_sender sender r)
  | TransitionReplica c => TransitionReplica (CoreReplica.set_sender sender c)
  end.

Definition runtime_set_commit_hook (hook : bool) (r : RuntimeReplica) : RuntimeReplica :=
  match r with
  | LegacyReplica r => LegacyReplica (Replica.set_commit_hook hook r)
  | TransitionReplica c => TransitionReplica (CoreReplica.set_commit_hook hook c)
  end.

(** A method of the replica that is there, with the calls that it made. *)
Definition visit {A} (legacy : L A) (core : M A) (r : RuntimeReplica) : option (list Call * RuntimeReplica * A) :=
  match r with
  | LegacyReplica r =>
      let '(run, a) := legacy (mkReplicaRun (Replica.set_calls [] r) 0) in
      Some (lr_calls (ru_replica run), LegacyReplica (ru_replica run), a)
  | TransitionReplica c =>
      match core (mkCoreRun (CoreReplica.set_calls [] c) 0) with
      | Some (run, a) => Some (core_calls (cu_core run), TransitionReplica (cu_core run), a)
      | None => None
      end
  end.

Definition visited {A B} (r : option (list Call * A * B)) : option (list Call * A) :=
  match r with Some (calls, a, _) => Some (calls, a) | None => None end.

Definition runtime_heartbeat (env : RuntimeEnv) (r : RuntimeReplica) : option (list Call * RuntimeReplica) :=
  visited (visit (Replica.heartbeat (en_legacy env)) (CoreReplica.heartbeat (en_core env)) r).

Definition runtime_handle (env : RuntimeEnv) (frame : Frame) (peer : string) (r : RuntimeReplica)
    : option (list Call * RuntimeReplica) :=
  visited (visit (Replica.handle (en_legacy env) frame peer) (CoreReplica.handle (en_core env) frame peer) r).

Definition runtime_enqueue (env : RuntimeEnv) (command : Command) (r : RuntimeReplica)
    : option (list Call * RuntimeReplica * result Error EnqueueResult) :=
  visit (Replica.enqueue (en_legacy env) command) (CoreReplica.enqueue (en_core env) command) r.

Definition runtime_store (r : RuntimeReplica) : option FileEngine :=
  match r with
  | LegacyReplica r => Some (lr_store r)
  | TransitionReplica c => inspection_store (rh_adapter (core_host c))
  end.

Definition runtime_leader_id (r : RuntimeReplica) : string :=
  match r with
  | LegacyReplica r => rf_leader_id (lr_config r)
  | TransitionReplica c => core_leader_id c
  end.

Definition runtime_status (r : RuntimeReplica) : option NodeStatus :=
  match r with
  | LegacyReplica r => Some (Replica.status r)
  | TransitionReplica c => CoreReplica.status c <$> inspection_store (rh_adapter (core_host c))
  end.

Definition runtime_metrics (r : RuntimeReplica) : ConsensusMetrics :=
  match r with LegacyReplica r => lr_metrics r | TransitionReplica c => core_metrics c end.

Definition failure_reason (r : RuntimeReplica) : string :=
  match r with
  | LegacyReplica r => if lr_halted r then "legacy replica halted after storage failure" else ""
  | TransitionReplica c => match core_failure c with Some e => err_message e | None => "" end
  end.

Definition engine_name (r : RuntimeReplica) : string :=
  match r with LegacyReplica _ => "legacy" | TransitionReplica _ => "transition" end.

#[export] Instance runtime_ops : RuntimeOps RuntimeReplica RuntimeEnv := {|
  rr_heartbeat := runtime_heartbeat;
  rr_handle := runtime_handle;
  rr_enqueue := runtime_enqueue;
  rr_store := runtime_store;
  rr_leader_id := runtime_leader_id;
  rr_status := runtime_status;
  rr_metrics := runtime_metrics;
  rr_failure_reason := failure_reason;
  rr_engine_name := engine_name;
|}.
