(* ===== verification/Simulator.v ===== *)
(** * The simulated network

    [replication/simulator.cpp]: the seeded in-process network that the tests of
    the first engine run on. The replicas are objects of the test; the network
    holds their addresses, and their sender calls [send]. *)

From S2P Require Import Prelude Text Types Bytes Frame FileEngine ReplicaTypes Replica.

(** [SimulatedNetwork::Packet] *)
Record Packet := mkPacket { pk_from : string; pk_to : string; pk_frame : Frame; pk_deliver_at : Z }.

(** [SimulatedNetwork::LinkRule]; [None] and [""] match everything. *)
Record LinkRule := mkLinkRule {
  lk_type : option MessageType;
  lk_from : string;
  lk_to : string;
  lk_extra_delay : Z;
  lk_drop : bool;
  lk_duplicate : bool;
}.

(** What the test chose. *)
Record Faults := mkFaults {
  ft_drop_percent : Z;
  ft_duplicate_percent : Z;
  ft_reorder_ticks : Z;
  ft_enabled : bool;
  ft_isolated : list string;
  ft_paused : list string;
  ft_side : list string;
  ft_cuts : list (string * string);
  ft_rules : list LinkRule;
}.

Record SimulatedNetwork := mkNetwork {
  sn_rng : Z;
  sn_faults : Faults;
  sn_now : Z;
  sn_replicas : list nat;
  sn_packets : list Packet;
  sn_oversize : Z;
  sn_schedule : string;
}.

Definition new_network (seed : Z) : SimulatedNetwork :=
  mkNetwork (if seed =? 0 then 1 else seed) (mkFaults 0 0 0 false [] [] [] [] []) 0 [] [] 0 "".

Definition with_faults (f : Faults) (n : SimulatedNetwork) : SimulatedNetwork :=
  mkNetwork (sn_rng n) f (sn_now n) (sn_replicas n) (sn_packets n) (sn_oversize n) (sn_schedule n).

(** A line of the schedule, after the time. *)
Definition note (line : string) (n : SimulatedNetwork) : SimulatedNetwork :=
  mkNetwork (sn_rng n) (sn_faults n) (sn_now n) (sn_replicas n) (sn_packets n) (sn_oversize n)
    (sn_schedule n +:+ print_u (sn_now n) +:+ " " +:+ line +:+ String "010" "").

Definition with_packets (packets : list Packet) (n : SimulatedNetwork) : SimulatedNetwork :=
  mkNetwork (sn_rng n) (sn_faults n) (sn_now n) (sn_replicas n) packets (sn_oversize n) (sn_schedule n).

(** ** Controls *)

Definition set_drop_percent (percent : Z) (n : SimulatedNetwork) : SimulatedNetwork :=
  let f := sn_faults n in
  with_faults (mkFaults percent (ft_duplicate_percent f) (ft_reorder_ticks f) (ft_enabled f) (ft_isolated f) (ft_paused f)
    (ft_side f) (ft_cuts f) (ft_rules f)) n.

Definition set_duplicate_percent (percent : Z) (n : SimulatedNetwork) : SimulatedNetwork :=
  let f := sn_faults n in
  with_faults (mkFaults (ft_drop_percent f) percent (ft_reorder_ticks f) (ft_enabled f) (ft_isolated f) (ft_paused f)
    (ft_side f) (ft_cuts f) (ft_rules f)) n.

Definition set_reorder_ticks (ticks : Z) (n : SimulatedNetwork) : SimulatedNetwork :=
  let f := sn_faults n in
  with_faults (mkFaults (ft_drop_percent f) (ft_duplicate_percent f) ticks (ft_enabled f) (ft_isolated f) (ft_paused f)
    (ft_side f) (ft_cuts f) (ft_rules f)) n.

Definition isolate (id : string) (n : SimulatedNetwork) : SimulatedNetwork :=
  let f := sn_faults n in
  with_faults (mkFaults (ft_drop_percent f) (ft_duplicate_percent f) (ft_reorder_ticks f) (ft_enabled f)
    (ft_isolated f ++ [id]) (ft_paused f) (ft_side f) (ft_cuts f) (ft_rules f)) n.

Definition heal (n : SimulatedNetwork) : SimulatedNetwork :=
  let f := sn_faults n in
  note "heal" (with_faults (mkFaults (ft_drop_percent f) (ft_duplicate_percent f) (ft_reorder_ticks f) (ft_enabled f)
    [] [] [] [] []) n).

Definition enable_faults (n : SimulatedNetwork) : SimulatedNetwork :=
  let f := sn_faults n in
  with_faults (mkFaults (ft_drop_percent f) (ft_duplicate_percent f) (ft_reorder_ticks f) true (ft_isolated f) (ft_paused f)
    (ft_side f) (ft_cuts f) (ft_rules f)) n.

Definition add_rule (rule : LinkRule) (n : SimulatedNetwork) : SimulatedNetwork :=
  let f := sn_faults n in
  with_faults (mkFaults (ft_drop_percent f) (ft_duplicate_percent f) (ft_reorder_ticks f) (ft_enabled f) (ft_isolated f)
    (ft_paused f) (ft_side f) (ft_cuts f) (ft_rules f ++ [rule])) n.

Definition delay (type : option MessageType) (from to : string) (ticks : Z) (n : SimulatedNetwork) : SimulatedNetwork :=
  if negb (ft_enabled (sn_faults n)) || (ticks <=? 0) then n
  else add_rule (mkLinkRule type from to ticks false false) n.

Definition drop_link (type : option MessageType) (from to : string) (n : SimulatedNetwork) : SimulatedNetwork :=
  if negb (ft_enabled (sn_faults n)) then n else add_rule (mkLinkRule type from to 0 true false) n.

Definition duplicate_link (type : option MessageType) (from to : string) (n : SimulatedNetwork) : SimulatedNetwork :=
  if negb (ft_enabled (sn_faults n)) then n else add_rule (mkLinkRule type from to 0 false true) n.

Definition disconnect (left right : string) (n : SimulatedNetwork) : SimulatedNetwork :=
  let f := sn_faults n in
  if negb (ft_enabled f) then n
  else note ("disconnect " +:+ left +:+ " " +:+ right)
         (with_faults (mkFaults (ft_drop_percent f) (ft_duplicate_percent f) (ft_reorder_ticks f) (ft_enabled f)
            (ft_isolated f) (ft_paused f) (ft_side f) (ft_cuts f ++ [(left, right)]) (ft_rules f)) n).

Definition partition (side : list string) (n : SimulatedNetwork) : SimulatedNetwork :=
  let f := sn_faults n in
  if negb (ft_enabled f) then n
  else note "partition"
         (with_faults (mkFaults (ft_drop_percent f) (ft_duplicate_percent f) (ft_reorder_ticks f) (ft_enabled f)
            (ft_isolated f) (ft_paused f) side (ft_cuts f) (ft_rules f)) n).

Definition is_paused (n : SimulatedNetwork) (id : string) : bool := bool_decide (id ∈ ft_paused (sn_faults n)).

Definition set_paused (ids : list string) (n : SimulatedNetwork) : SimulatedNetwork :=
  let f := sn_faults n in
  with_faults (mkFaults (ft_drop_percent f) (ft_duplicate_percent f) (ft_reorder_ticks f) (ft_enabled f) (ft_isolated f) ids
    (ft_side f) (ft_cuts f) (ft_rules f)) n.

Definition pause (id : string) (n : SimulatedNetwork) : SimulatedNetwork :=
  if negb (ft_enabled (sn_faults n)) || is_paused n id then n
  else note ("pause " +:+ id) (set_paused (ft_paused (sn_faults n) ++ [id]) n).

Definition resume (id : string) (n : SimulatedNetwork) : SimulatedNetwork :=
  if negb (ft_enabled (sn_faults n)) then n
  else note ("resume " +:+ id) (set_paused (filter (fun x => x <> id) (ft_paused (sn_faults n))) n).

Definition isolated (n : SimulatedNetwork) (id : string) : bool := bool_decide (id ∈ ft_isolated (sn_faults n)).

Definition blocked (n : SimulatedNetwork) (from to : string) : bool :=
  let f := sn_faults n in
  if existsb (fun cut => (bool_decide (fst cut = from) && bool_decide (snd cut = to)) ||
                         (bool_decide (fst cut = to) && bool_decide (snd cut = from))) (ft_cuts f)
  then true
  else if bool_decide (ft_side f = []) then false
  else xorb (bool_decide (from ∈ ft_side f)) (bool_decide (to ∈ ft_side f)).

Definition matches (rule : LinkRule) (from to : string) (type : MessageType) : bool :=
  match lk_type rule with Some t => t =? type | None => true end &&
  (bool_decide (lk_from rule = "") || bool_decide (lk_from rule = from)) &&
  (bool_decide (lk_to rule = "") || bool_decide (lk_to rule = to)).

(** ** Sending *)

(** [roll] *)
Definition roll (n : SimulatedNetwork) : Z * SimulatedNetwork :=
  let rng := xorshift (sn_rng n) in
  (rng, mkNetwork rng (sn_faults n) (sn_now n) (sn_replicas n) (sn_packets n) (sn_oversize n) (sn_schedule n)).

(** A random choice that is only made for a positive percentage. *)
Definition chance (percent : Z) (n : SimulatedNetwork) : bool * SimulatedNetwork :=
  if 0 <? percent then let '(r, n) := roll n in (r mod 100 <? percent, n) else (false, n).

Fixpoint queue_copies (copies : nat) (from to : string) (frame : Frame) (delay : Z) (n : SimulatedNetwork)
    : SimulatedNetwork :=
  match copies with
  | O => n
  | S copies =>
      let ticks := ft_reorder_ticks (sn_faults n) in
      let '(extra, n) :=
        if 0 <? ticks then let '(r, n) := roll n in (wrap64 (delay + r mod (ticks + 1)), n) else (delay, n) in
      let at_tick := wrap64 (sn_now n + 1 + extra) in
      let n := with_packets (sn_packets n ++ [mkPacket from to frame at_tick]) n in
      queue_copies copies from to frame delay (note ("queue " +:+ from +:+ " " +:+ to +:+ " at " +:+ print_u at_tick) n)
  end.

Definition network_send (from to : string) (frame : Frame) (n : SimulatedNetwork) : SimulatedNetwork :=
  let dropped why := note ("drop " +:+ from +:+ " " +:+ to +:+ " " +:+ why) in
  if kMaxFramePayload <? zsize (fr_payload frame) then
    dropped "oversize" (mkNetwork (sn_rng n) (sn_faults n) (sn_now n) (sn_replicas n) (sn_packets n)
                          (wrap64 (sn_oversize n + 1)) (sn_schedule n))
  else if isolated n from || isolated n to || blocked n from to then dropped "isolated" n
  else
    let rules := List.filter (fun rule => matches rule from to (fr_type frame)) (ft_rules (sn_faults n)) in
    let extra_delay := foldl (fun acc rule => acc + lk_extra_delay rule) 0 rules in
    let '(drop, n) := if existsb lk_drop rules then (true, n) else chance (ft_drop_percent (sn_faults n)) n in
    if drop then dropped "random" n
    else
      let '(duplicate, n) :=
        if existsb lk_duplicate rules then (true, n) else chance (ft_duplicate_percent (sn_faults n)) n in
      queue_copies (if duplicate then 2 else 1) from to frame (wrap64 extra_delay) n.

(** ** Delivery *)

(** The network and the replicas of the test. *)
Record Simulation := mkSimulation { sm_network : SimulatedNetwork; sm_objects : gmap nat Replica }.

Definition replica_id (r : Replica) : string := rf_id (lr_config r).

Definition has_id (s : Simulation) (id : string) (address : nat) : bool :=
  match sm_objects s !! address with Some r => bool_decide (replica_id r = id) | None => false end.

Definition attach (address : nat) (s : Simulation) : Simulation :=
  let n := sm_network s in
  mkSimulation
    (mkNetwork (sn_rng n) (sn_faults n) (sn_now n) (sn_replicas n ++ [address]) (sn_packets n) (sn_oversize n) (sn_schedule n))
    (alter (set_sender true) address (sm_objects s)).

Definition terminate (id : string) (s : Simulation) : Simulation :=
  let n := sm_network s in
  if negb (ft_enabled (sn_faults n)) then s
  else mkSimulation
         (note ("terminate " +:+ id)
            (mkNetwork (sn_rng n) (sn_faults n) (sn_now n) (List.filter (fun a => negb (has_id s id a)) (sn_replicas n))
               (sn_packets n) (sn_oversize n) (sn_schedule n)))
         (sm_objects s).

(** [find] *)
Definition find_replica (s : Simulation) (id : string) : option nat := List.find (has_id s id) (sn_replicas (sm_network s)).

(** The frames that a replica sent during a call. *)
Definition send_calls (from : string) (calls : list Call) (n : SimulatedNetwork) : SimulatedNetwork :=
  foldl (fun n call => match call with Sent to frame => network_send from to frame n | Committed _ _ => n end) n calls.

Definition deliver_packet (os : LegacyOs) (p : Packet) (s : Simulation) : Simulation :=
  let n := sm_network s in
  let line verb why := verb +:+ " " +:+ pk_from p +:+ " " +:+ pk_to p +:+ why in
  if isolated n (pk_from p) || isolated n (pk_to p) || blocked n (pk_from p) (pk_to p)
  then mkSimulation (note (line "drop" " partitioned") n) (sm_objects s)
  else if is_paused n (pk_to p) then
    let held := mkPacket (pk_from p) (pk_to p) (pk_frame p) (wrap64 (sn_now n + 1)) in
    mkSimulation (note (line "hold" " paused") (with_packets (sn_packets n ++ [held]) n)) (sm_objects s)
  else
    let n := note (line "deliver" "") n in
    match find_replica s (pk_to p) with
    | None => mkSimulation n (sm_objects s)
    | Some address =>
        match sm_objects s !! address with
        | None => mkSimulation n (sm_objects s)
        | Some r =>
            let '(run, _) := Replica.handle os (pk_frame p) "" (mkReplicaRun (Replica.set_calls [] r) 0) in
            let r := ru_replica run in
            mkSimulation (send_calls (replica_id r) (lr_calls r) n) (<[address := r]> (sm_objects s))
        end
    end.

(** [advance]; [os] are the system calls of each handled packet. *)
Fixpoint deliver_all (os : nat -> LegacyOs) (i : nat) (due : list Packet) (s : Simulation) : Simulation :=
  match due with
  | [] => s
  | p :: rest => deliver_all os (S i) rest (deliver_packet (os i) p s)
  end.

Definition is_due (now : Z) (p : Packet) : bool := pk_deliver_at p <=? now.

Definition advance (os : nat -> LegacyOs) (s : Simulation) : Simulation * nat :=
  let n := sm_network s in
  let now := wrap64 (sn_now n + 1) in
  let due := List.filter (is_due now) (sn_packets n) in
  let waiting := List.filter (fun p => negb (is_due now p)) (sn_packets n) in
  let n := mkNetwork (sn_rng n) (sn_faults n) now (sn_replicas n) waiting (sn_oversize n) (sn_schedule n) in
  (deliver_all os 0 due (mkSimulation n (sm_objects s)), length due).

(** ** Time *)

(** Every packet waits for a later tick: none is delivered late. *)
Definition in_time (n : SimulatedNetwork) : Prop := Forall (fun p => sn_now n < pk_deliver_at p) (sn_packets n).

(** The delays that the test asked for, and the time, are far from overflow. *)
Definition delays_ok (f : Faults) : Prop :=
  0 <= ft_reorder_ticks f <= 2 ^ 31 /\ Forall (fun r => 0 <= lk_extra_delay r) (ft_rules f) /\
  foldl (fun acc rule => acc + lk_extra_delay rule) 0 (ft_rules f) <= 2 ^ 31.

Definition clock_ok (n : SimulatedNetwork) : Prop := 0 <= sn_now n <= 2 ^ 62 /\ delays_ok (sn_faults n) /\ in_time n.

Lemma note_clock line n : clock_ok n -> clock_ok (note line n).
Proof. done. Qed.

Lemma delays_sum_from rules : forall acc, foldl (fun acc rule => acc + lk_extra_delay rule) acc rules =
  acc + foldl (fun acc rule => acc + lk_extra_delay rule) 0 rules.
Proof.
  induction rules as [|r rules IH]; intros acc; cbn [foldl]; [lia|]. rewrite IH, (IH (0 + _)). lia.
Qed.

Lemma delays_filter f rules : Forall (fun r => 0 <= lk_extra_delay r) rules ->
  0 <= foldl (fun acc rule => acc + lk_extra_delay rule) 0 (List.filter f rules) <=
    foldl (fun acc rule => acc + lk_extra_delay rule) 0 rules.
Proof.
  induction 1 as [|r rules Hr _ IH]; [done|]. cbn [List.filter foldl]. rewrite (delays_sum_from rules (0 + _)).
  destruct (f r); [cbn [foldl]; rewrite (delays_sum_from (List.filter f rules) (0 + _))|]; lia.
Qed.

Lemma queue_copies_clock copies from to frame delay : forall n, 0 <= delay <= 2 ^ 31 -> clock_ok n ->
  clock_ok (queue_copies copies from to frame delay n).
Proof.
  induction copies as [|copies IH]; intros n Hd Hn; cbn [queue_copies]; [done|]. cbv zeta.
  assert (forall n' extra, clock_ok n' -> 0 <= extra <= 2 ^ 33 ->
    clock_ok (with_packets (sn_packets n' ++ [mkPacket from to frame (wrap64 (sn_now n' + 1 + extra))]) n')) as Hpush.
  { intros n' extra (H1 & H2 & H3) He. split; [done|]. split; [done|]. apply list.Forall_app. split; [done|].
    constructor; [|constructor]. cbn. rewrite wrap64_small; [lia|]. unfold u64, max_u64. lia. }
  pose proof Hn as (_ & (Hr & _) & _).
  destruct (Z.ltb_spec 0 (ft_reorder_ticks (sn_faults n))) as [Ht|Ht].
  - unfold roll. apply IH; [done|]. apply note_clock, Hpush; [done|].
    pose proof (Z.mod_pos_bound (xorshift (sn_rng n)) (ft_reorder_ticks (sn_faults n) + 1) ltac:(lia)).
    rewrite wrap64_small; [lia|]. unfold u64, max_u64. lia.
  - apply IH; [done|]. apply note_clock, Hpush; [done|]. lia.
Qed.

Lemma chance_clock percent n : clock_ok n -> clock_ok (snd (chance percent n)).
Proof. unfold chance, roll. intros Hn. by destruct (0 <? percent). Qed.

Lemma send_clock from to frame n : clock_ok n -> clock_ok (network_send from to frame n).
Proof.
  intros Hn. unfold network_send. cbv zeta. destruct (_ <? _); [done|]. destruct (_ || _); [done|].
  set (rules := List.filter _ _).
  assert (0 <= wrap64 (foldl (fun acc rule => acc + lk_extra_delay rule) 0 rules) <= 2 ^ 31) as Hd.
  { destruct Hn as (_ & (_ & Hr & Hs) & _).
    pose proof (delays_filter (fun rule => matches rule from to (fr_type frame)) _ Hr) as Hf. fold rules in Hf.
    rewrite wrap64_small; [lia|]. unfold u64, max_u64. lia. }
  pose proof (chance_clock (ft_drop_percent (sn_faults n)) n Hn) as H1.
  destruct (if existsb lk_drop rules then _ else _) as [drop n1] eqn:E1.
  assert (clock_ok n1) as Hn1 by (destruct (existsb lk_drop rules); [by injection E1 as <- <-|by rewrite E1 in H1]).
  destruct drop; [done|]. pose proof (chance_clock (ft_duplicate_percent (sn_faults n1)) n1 Hn1) as H2.
  destruct (if existsb lk_duplicate rules then _ else _) as [duplicate n2] eqn:E2.
  assert (clock_ok n2) as Hn2 by (destruct (existsb lk_duplicate rules); [by injection E2 as <- <-|by rewrite E2 in H2]).
  by apply queue_copies_clock.
Qed.

Lemma send_calls_clock from calls : forall n, clock_ok n -> clock_ok (send_calls from calls n).
Proof.
  induction calls as [|call calls IH]; intros n Hn; [done|]. apply IH. destruct call; [by apply send_clock|done].
Qed.

Lemma deliver_clock os p s : clock_ok (sm_network s) -> clock_ok (sm_network (deliver_packet os p s)).
Proof.
  intros Hn. unfold deliver_packet. cbv zeta. destruct (_ || _); [done|]. destruct (is_paused _ _).
  - cbn [sm_network]. apply note_clock. destruct Hn as (H1 & H2 & H3). split; [done|]. split; [done|].
    apply list.Forall_app. split; [done|]. constructor; [|constructor]. cbn. rewrite wrap64_small; [lia|].
    unfold u64, max_u64. lia.
  - destruct (find_replica s (pk_to p)) as [a|]; [|done]. destruct (sm_objects s !! a) as [r|]; [|done].
    destruct (Replica.handle _ _ _ _) as [run []]. cbn [sm_network]. by apply send_calls_clock.
Qed.

(** A tick delivers the packets that were due at it and no others, and leaves
    only packets of later ticks, whatever the replicas send meanwhile. *)
Lemma advance_delivers_in_time os s : clock_ok (sm_network s) -> sn_now (sm_network s) < 2 ^ 62 ->
  Forall (fun p => pk_deliver_at p = sn_now (sm_network s) + 1)
    (List.filter (is_due (sn_now (sm_network s) + 1)) (sn_packets (sm_network s))) /\
  clock_ok (sm_network (fst (advance os s))).
Proof.
  intros (Hnow & Hd & Ht) Hlt. split.
  - apply list.Forall_forall. intros p Hp. apply list_elem_of_In, List.filter_In in Hp as [Hin Hdue].
    unfold is_due in Hdue. apply Z.leb_le in Hdue. unfold in_time in Ht. rewrite list.Forall_forall in Ht.
    specialize (Ht p). rewrite list_elem_of_In in Ht. specialize (Ht Hin). cbn in Ht. lia.
  - unfold advance. cbv zeta. cbn [fst].
    assert (wrap64 (sn_now (sm_network s) + 1) = sn_now (sm_network s) + 1) as Hw
      by (apply wrap64_small; unfold u64, max_u64; lia).
    rewrite Hw. set (due := List.filter _ (sn_packets (sm_network s))). clearbody due.
    assert (forall i s', clock_ok (sm_network s') -> clock_ok (sm_network (deliver_all os i due s'))) as Hall.
    { induction due as [|p due IH]; intros i s' Hs; [done|]. by apply IH, deliver_clock. }
    apply Hall. split; [cbn; lia|]. split; [done|]. unfold in_time. cbn. apply list.Forall_forall. intros p Hp.
    apply list_elem_of_In, List.filter_In in Hp as [_ Hp]. unfold is_due in Hp. apply negb_true_iff, Z.leb_gt in Hp. lia.
Qed.
