(* ===== verification/Config.v ===== *)
(** * Node configuration

    [runtime/config.cpp]: the reader of the "key: value" file and the two
    validations that the node also runs on configurations built in memory. The
    address parser of the network library is a parameter: [make_address host]
    is [None] for a host it refuses and otherwise says whether the address is
    a loopback address. *)

From S2P Require Import Prelude Text Types.

(** ** Data *)

Record PeerEndpoint := mkPeerEndpoint { ep_id : string; ep_host : string; ep_port : Z }.

Record PeerTlsConfig := mkPeerTlsConfig {
  tc_host : string;
  tc_port : Z;
  tc_ca_file : string;
  tc_certificate_file : string;
  tc_private_key_file : string;
  tc_peers : list PeerEndpoint;
}.

Inductive ConsensusEngine := Legacy | TransitionEngine.

#[export] Instance ConsensusEngine_eq_dec : EqDecision ConsensusEngine.
Proof. solve_decision. Defined.

Record NodeConfig := mkNodeConfig {
  nc_id : string;
  nc_leader_id : string;
  nc_data : string;
  nc_host : string;
  nc_port : Z;
  nc_peers : list PeerEndpoint;
  nc_elections : bool;
  nc_consensus_engine : ConsensusEngine;
  nc_test_mode : bool;
  nc_rng_seed : Z;
  nc_snapshot_every : Z;
  nc_heartbeat_ms : Z;
  nc_election_timeout_min : Z;
  nc_election_timeout_max : Z;
  nc_peer_tls : option PeerTlsConfig;
}.

Definition default_tls : PeerTlsConfig := mkPeerTlsConfig "127.0.0.1" 0 "" "" "" [].

Definition default_config : NodeConfig :=
  mkNodeConfig "" "" "" "127.0.0.1" 0 [] false Legacy false 1 100 50 3 6 None.

Definition tls_with_host (v : string) (c : PeerTlsConfig) : PeerTlsConfig :=
  mkPeerTlsConfig v (tc_port c) (tc_ca_file c) (tc_certificate_file c) (tc_private_key_file c) (tc_peers c).

Definition tls_with_port (v : Z) (c : PeerTlsConfig) : PeerTlsConfig :=
  mkPeerTlsConfig (tc_host c) v (tc_ca_file c) (tc_certificate_file c) (tc_private_key_file c) (tc_peers c).

Definition tls_with_ca_file (v : string) (c : PeerTlsConfig) : PeerTlsConfig :=
  mkPeerTlsConfig (tc_host c) (tc_port c) v (tc_certificate_file c) (tc_private_key_file c) (tc_peers c).

Definition tls_with_certificate_file (v : string) (c : PeerTlsConfig) : PeerTlsConfig :=
  mkPeerTlsConfig (tc_host c) (tc_port c) (tc_ca_file c) v (tc_private_key_file c) (tc_peers c).

Definition tls_with_private_key_file (v : string) (c : PeerTlsConfig) : PeerTlsConfig :=
  mkPeerTlsConfig (tc_host c) (tc_port c) (tc_ca_file c) (tc_certificate_file c) v (tc_peers c).

Definition tls_with_peers (v : list PeerEndpoint) (c : PeerTlsConfig) : PeerTlsConfig :=
  mkPeerTlsConfig (tc_host c) (tc_port c) (tc_ca_file c) (tc_certificate_file c) (tc_private_key_file c) v.

Definition config_with_id (v : string) (c : NodeConfig) : NodeConfig :=
  mkNodeConfig v (nc_leader_id c) (nc_data c) (nc_host c) (nc_port c) (nc_peers c) (nc_elections c)
    (nc_consensus_engine c) (nc_test_mode c) (nc_rng_seed c) (nc_snapshot_every c) (nc_heartbeat_ms c)
    (nc_election_timeout_min c) (nc_election_timeout_max c) (nc_peer_tls c).

Definition config_with_leader_id (v : string) (c : NodeConfig) : NodeConfig :=
  mkNodeConfig (nc_id c) v (nc_data c) (nc_host c) (nc_port c) (nc_peers c) (nc_elections c)
    (nc_consensus_engine c) (nc_test_mode c) (nc_rng_seed c) (nc_snapshot_every c) (nc_heartbeat_ms c)
    (nc_election_timeout_min c) (nc_election_timeout_max c) (nc_peer_tls c).

Definition config_with_data (v : string) (c : NodeConfig) : NodeConfig :=
  mkNodeConfig (nc_id c) (nc_leader_id c) v (nc_host c) (nc_port c) (nc_peers c) (nc_elections c)
    (nc_consensus_engine c) (nc_test_mode c) (nc_rng_seed c) (nc_snapshot_every c) (nc_heartbeat_ms c)
    (nc_election_timeout_min c) (nc_election_timeout_max c) (nc_peer_tls c).

Definition config_with_host (v : string) (c : NodeConfig) : NodeConfig :=
  mkNodeConfig (nc_id c) (nc_leader_id c) (nc_data c) v (nc_port c) (nc_peers c) (nc_elections c)
    (nc_consensus_engine c) (nc_test_mode c) (nc_rng_seed c) (nc_snapshot_every c) (nc_heartbeat_ms c)
    (nc_election_timeout_min c) (nc_election_timeout_max c) (nc_peer_tls c).

Definition config_with_port (v : Z) (c : NodeConfig) : NodeConfig :=
  mkNodeConfig (nc_id c) (nc_leader_id c) (nc_data c) (nc_host c) v (nc_peers c) (nc_elections c)
    (nc_consensus_engine c) (nc_test_mode c) (nc_rng_seed c) (nc_snapshot_every c) (nc_heartbeat_ms c)
    (nc_election_timeout_min c) (nc_election_timeout_max c) (nc_peer_tls c).

Definition config_with_peers (v : list PeerEndpoint) (c : NodeConfig) : NodeConfig :=
  mkNodeConfig (nc_id c) (nc_leader_id c) (nc_data c) (nc_host c) (nc_port c) v (nc_elections c)
    (nc_consensus_engine c) (nc_test_mode c) (nc_rng_seed c) (nc_snapshot_every c) (nc_heartbeat_ms c)
    (nc_election_timeout_min c) (nc_election_timeout_max c) (nc_peer_tls c).

Definition config_with_elections (v : bool) (c : NodeConfig) : NodeConfig :=
  mkNodeConfig (nc_id c) (nc_leader_id c) (nc_data c) (nc_host c) (nc_port c) (nc_peers c) v
    (nc_consensus_engine c) (nc_test_mode c) (nc_rng_seed c) (nc_snapshot_every c) (nc_heartbeat_ms c)
    (nc_election_timeout_min c) (nc_election_timeout_max c) (nc_peer_tls c).

Definition config_with_consensus_engine (v : ConsensusEngine) (c : NodeConfig) : NodeConfig :=
  mkNodeConfig (nc_id c) (nc_leader_id c) (nc_data c) (nc_host c) (nc_port c) (nc_peers c)
    (nc_elections c) v (nc_test_mode c) (nc_rng_seed c) (nc_snapshot_every c) (nc_heartbeat_ms c)
    (nc_election_timeout_min c) (nc_election_timeout_max c) (nc_peer_tls c).

Definition config_with_test_mode (v : bool) (c : NodeConfig) : NodeConfig :=
  mkNodeConfig (nc_id c) (nc_leader_id c) (nc_data c) (nc_host c) (nc_port c) (nc_peers c) (nc_elections c)
    (nc_consensus_engine c) v (nc_rng_seed c) (nc_snapshot_every c) (nc_heartbeat_ms c)
    (nc_election_timeout_min c) (nc_election_timeout_max c) (nc_peer_tls c).

Definition config_with_rng_seed (v : Z) (c : NodeConfig) : NodeConfig :=
  mkNodeConfig (nc_id c) (nc_leader_id c) (nc_data c) (nc_host c) (nc_port c) (nc_peers c) (nc_elections c)
    (nc_consensus_engine c) (nc_test_mode c) v (nc_snapshot_every c) (nc_heartbeat_ms c)
    (nc_election_timeout_min c) (nc_election_timeout_max c) (nc_peer_tls c).

Definition config_with_snapshot_every (v : Z) (c : NodeConfig) : NodeConfig :=
  mkNodeConfig (nc_id c) (nc_leader_id c) (nc_data c) (nc_host c) (nc_port c) (nc_peers c) (nc_elections c)
    (nc_consensus_engine c) (nc_test_mode c) (nc_rng_seed c) v (nc_heartbeat_ms c)
    (nc_election_timeout_min c) (nc_election_timeout_max c) (nc_peer_tls c).

Definition config_with_heartbeat_ms (v : Z) (c : NodeConfig) : NodeConfig :=
  mkNodeConfig (nc_id c) (nc_leader_id c) (nc_data c) (nc_host c) (nc_port c) (nc_peers c) (nc_elections c)
    (nc_consensus_engine c) (nc_test_mode c) (nc_rng_seed c) (nc_snapshot_every c) v
    (nc_election_timeout_min c) (nc_election_timeout_max c) (nc_peer_tls c).

Definition config_with_election_timeout_min (v : Z) (c : NodeConfig) : NodeConfig :=
  mkNodeConfig (nc_id c) (nc_leader_id c) (nc_data c) (nc_host c) (nc_port c) (nc_peers c) (nc_elections c)
    (nc_consensus_engine c) (nc_test_mode c) (nc_rng_seed c) (nc_snapshot_every c) (nc_heartbeat_ms c) v
    (nc_election_timeout_max c) (nc_peer_tls c).

Definition config_with_election_timeout_max (v : Z) (c : NodeConfig) : NodeConfig :=
  mkNodeConfig (nc_id c) (nc_leader_id c) (nc_data c) (nc_host c) (nc_port c) (nc_peers c) (nc_elections c)
    (nc_consensus_engine c) (nc_test_mode c) (nc_rng_seed c) (nc_snapshot_every c) (nc_heartbeat_ms c)
    (nc_election_timeout_min c) v (nc_peer_tls c).

Definition config_with_peer_tls (v : option PeerTlsConfig) (c : NodeConfig) : NodeConfig :=
  mkNodeConfig (nc_id c) (nc_leader_id c) (nc_data c) (nc_host c) (nc_port c) (nc_peers c) (nc_elections c)
    (nc_consensus_engine c) (nc_test_mode c) (nc_rng_seed c) (nc_snapshot_every c) (nc_heartbeat_ms c)
    (nc_election_timeout_min c) (nc_election_timeout_max c) v.

(** ** Text *)

(** The second loop of [trim]. *)
Fixpoint trim_end (s : string) : string :=
  match s with
  | EmptyString => ""
  | String c r =>
      match trim_end r with
      | EmptyString => if is_space c then "" else String c ""
      | r' => String c r'
      end
  end.

Definition trim (text : string) : string := trim_end (skip_space text).

(** [text.rfind(c)], as the text before and after the last occurrence. *)
Fixpoint break_last (c : ascii) (s : string) : option (string * string) :=
  match s with
  | EmptyString => None
  | String x r =>
      match break_last c r with
      | Some (a, b) => Some (String x a, b)
      | None => if bool_decide (x = c) then Some ("", r) else None
      end
  end.

(** [std::from_chars] on an unsigned integer up to [high], consuming everything. *)
Definition from_chars_u (high : Z) (s : string) : option Z :=
  if starts_with_digit s then
    let '(v, rest) := scan_digits s 0 in
    if (v <=? high) && bool_decide (rest = "") then Some v else None
  else None.

Definition config_error (what : string) : Error := mkError StoreError what.

(** The last ':' has to follow the first '@'. *)
Definition parse_peer (text : string) : result Error PeerEndpoint :=
  match break_at "@"%char text with
  | None => Err (config_error "peer must look like id@host:port")
  | Some (id, rest) =>
      match break_last ":"%char rest with
      | None => Err (config_error "peer must look like id@host:port")
      | Some (host, port_text) =>
          if bool_decide (id = "") || bool_decide (host = "")
          then Err (config_error "peer id and host must not be empty")
          else
            match from_chars_u 4294967295 port_text with
            | Some port =>
                if (port =? 0) || (65535 <? port)
                then Err (config_error "peer port must be a whole number from 1 to 65535")
                else Ok (mkPeerEndpoint id host port)
            | None => Err (config_error "peer port must be a whole number from 1 to 65535")
            end
      end
  end.

Definition parse_number (key text : string) (min max : Z) : result Error Z :=
  let refused := config_error ("config " +:+ key +:+ " must be a whole number from " +:+
                               print_u min +:+ " to " +:+ print_u max) in
  match from_chars_u max_u64 text with
  | Some value => if (value <? min) || (max <? value) then Err refused else Ok value
  | None => Err refused
  end.

(** ** Lines *)

(** The items of a "peer" or "peers" line. *)
Fixpoint read_peers (items : list string) (peers : list PeerEndpoint) : result Error (list PeerEndpoint) :=
  match items with
  | [] => Ok peers
  | item :: rest =>
      let item := trim item in
      if bool_decide (item = "") then read_peers rest peers
      else
        let? peer := parse_peer item in
        read_peers rest (peers ++ [peer])
  end.

Definition listen_line (value : string) (c : NodeConfig) : result Error NodeConfig :=
  match break_last ":"%char value with
  | None => Err (config_error "listen must look like host:port")
  | Some (host, port_text) =>
      let? port := parse_number "listen port" port_text 0 65535 in
      Ok (config_with_port port (config_with_host host c))
  end.

(** The "peer_tls_" keys, on the section that the line creates if need be. *)
Definition tls_line (key value : string) (tls : PeerTlsConfig) : result Error PeerTlsConfig :=
  if bool_decide (key = "peer_tls_listen") then
    let? endpoint := parse_peer ("listener@" +:+ value) in
    Ok (tls_with_port (ep_port endpoint) (tls_with_host (ep_host endpoint) tls))
  else if bool_decide (key = "peer_tls_ca") then Ok (tls_with_ca_file value tls)
  else if bool_decide (key = "peer_tls_certificate") then Ok (tls_with_certificate_file value tls)
  else if bool_decide (key = "peer_tls_key") then Ok (tls_with_private_key_file value tls)
  else if bool_decide (key = "peer_tls_peer") then
    let? endpoint := parse_peer value in
    Ok (tls_with_peers (tc_peers tls ++ [endpoint]) tls)
  else Err (config_error ("unknown peer TLS configuration key: " +:+ key)).

Definition is_true_text (value : string) : bool := bool_decide (value = "true") || bool_decide (value = "1").

Definition is_false_text (value : string) : bool := bool_decide (value = "false") || bool_decide (value = "0").

(** A line with a key; unknown keys are ignored. *)
Definition key_line (key value : string) (c : NodeConfig) : result Error NodeConfig :=
  if bool_decide (key = "id") then Ok (config_with_id value c)
  else if bool_decide (key = "leader") then Ok (config_with_leader_id value c)
  else if bool_decide (key = "data") then Ok (config_with_data value c)
  else if bool_decide (key = "listen") then listen_line value c
  else if bool_decide (key = "peer") || bool_decide (key = "peers") then
    let? peers := read_peers (split ","%char value) (nc_peers c) in
    Ok (config_with_peers peers c)
  else if String.prefix "peer_tls_" key then
    let? tls := tls_line key value (default default_tls (nc_peer_tls c)) in
    Ok (config_with_peer_tls (Some tls) c)
  else if bool_decide (key = "consensus_engine") then
    if bool_decide (value = "legacy") then Ok (config_with_consensus_engine Legacy c)
    else if bool_decide (value = "transition") then Ok (config_with_consensus_engine TransitionEngine c)
    else Err (config_error "consensus_engine must be legacy or transition")
  else if bool_decide (key = "elections") then Ok (config_with_elections (is_true_text value) c)
  else if bool_decide (key = "test_mode") then
    if negb (is_true_text value) && negb (is_false_text value)
    then Err (config_error "test_mode must be true or false")
    else Ok (config_with_test_mode (is_true_text value) c)
  else if bool_decide (key = "rng_seed") then
    let? seed := parse_number key value 0 max_u64 in Ok (config_with_rng_seed seed c)
  else if bool_decide (key = "snapshot_every") then
    let? interval := parse_number key value 0 100000 in Ok (config_with_snapshot_every interval c)
  else if bool_decide (key = "heartbeat_ms") then
    let? number := parse_number key value 10 10000 in Ok (config_with_heartbeat_ms number c)
  else if bool_decide (key = "election_timeout_min") then
    let? number := parse_number key value 2 1000 in Ok (config_with_election_timeout_min number c)
  else if bool_decide (key = "election_timeout_max") then
    let? number := parse_number key value 2 1000 in Ok (config_with_election_timeout_max number c)
  else Ok c.

Definition config_line (line : string) (c : NodeConfig) : result Error NodeConfig :=
  let line := trim line in
  if match line with EmptyString => true | String first _ => bool_decide (first = "#"%char) end then Ok c
  else
    match break_at ":"%char line with
    | None => Err (config_error "config line is missing ':'")
    | Some (key, value) => key_line (trim key) (trim value) c
    end.

Fixpoint config_lines (lines : list string) (c : NodeConfig) : result Error NodeConfig :=
  match lines with
  | [] => Ok c
  | line :: rest => let? c := config_line line c in config_lines rest c
  end.

(** ** Validation *)

Section Validation.
Context (make_address : string -> option bool).

Definition is_loopback (host : string) : bool := default false (make_address host).

Definition validate_consensus_config (c : NodeConfig) : result Error unit :=
  if bool_decide (nc_consensus_engine c = Legacy) then Ok tt
  else if negb (bool_decide (nc_consensus_engine c = TransitionEngine)) || negb (nc_elections c) ||
          (nc_election_timeout_min c <? 2) || (nc_election_timeout_max c <? nc_election_timeout_min c) ||
          (1000 <? nc_election_timeout_max c) || (nc_heartbeat_ms c <? 10) || (10000 <? nc_heartbeat_ms c)
  then Err (config_error "transition consensus requires elections and valid timer bounds")
  else
    match nc_peer_tls c with
    | Some _ => Ok tt
    | None =>
        if negb (is_loopback (nc_host c))
        then Err (config_error "transition plaintext listener must be loopback; use peer TLS for remote peers")
        else if negb (forallb (fun peer => is_loopback (ep_host peer)) (nc_peers c))
        then Err (config_error "transition remote peers require peer TLS")
        else Ok tt
    end.

(** The ids of the configured peers, unless one is refused. *)
Fixpoint member_set (self : string) (peers : list PeerEndpoint) (members : gset string) : option (gset string) :=
  match peers with
  | [] => Some members
  | peer :: rest =>
      if bool_decide (ep_id peer = self) || negb (is_ok (parse_id (ep_id peer))) ||
         bool_decide (ep_id peer ∈ members)
      then None
      else member_set self rest ({[ep_id peer]} ∪ members)
  end.

(** The ids of the peers with an endpoint of their own, unless one is refused. *)
Fixpoint secured_set (members : gset string) (peers : list PeerEndpoint) (secured : gset string)
    : option (gset string) :=
  match peers with
  | [] => Some secured
  | peer :: rest =>
      if negb (is_some (make_address (ep_host peer))) || (ep_port peer =? 0) ||
         negb (bool_decide (ep_id peer ∈ members)) || bool_decide (ep_id peer ∈ secured)
      then None
      else secured_set members rest ({[ep_id peer]} ∪ secured)
  end.

Definition validate_peer_tls_config (c : NodeConfig) : result Error unit :=
  match nc_peer_tls c with
  | None => Ok tt
  | Some tls =>
      let invalid why := Err (config_error ("peer TLS: " +:+ why)) in
      if (tc_port tls =? 0) || bool_decide (tc_ca_file tls = "") ||
         bool_decide (tc_certificate_file tls = "") || bool_decide (tc_private_key_file tls = "")
      then invalid "listener, CA, certificate and key are required"
      else if negb (is_loopback (nc_host c)) then invalid "plaintext client listener must be loopback"
      else if negb (is_some (make_address (tc_host tls)))
      then invalid "listener host must be a numeric IP address"
      else if tc_port tls =? nc_port c then invalid "peer and client ports must differ"
      else if negb (is_ok (parse_id (nc_id c))) then invalid "invalid local node ID"
      else
        match member_set (nc_id c) (nc_peers c) ∅ with
        | None => invalid "duplicate or invalid configured peer ID"
        | Some members =>
            match secured_set members (tc_peers tls) ∅ with
            | None => invalid "invalid, unknown or duplicate TLS peer endpoint"
            | Some secured =>
                if bool_decide (secured = members) then Ok tt
                else invalid "every configured peer needs exactly one TLS endpoint"
            end
        end
  end.

(** The tests after the last line. *)
Definition finish_config (c : NodeConfig) : result Error NodeConfig :=
  if nc_election_timeout_max c <? nc_election_timeout_min c
  then Err (config_error "config election_timeout_max must not be below election_timeout_min")
  else if bool_decide (nc_id c = "") || bool_decide (nc_leader_id c = "") || bool_decide (nc_data c = "")
  then Err (config_error "config requires id, leader, and data")
  else check! validate_consensus_config c in check! validate_peer_tls_config c in Ok c.

(** [file] is the text of the file, unless it cannot be opened. *)
Definition load_node_config (path : string) (file : option string) : result Error NodeConfig :=
  match file with
  | None => Err (config_error ("unable to open node config " +:+ path))
  | Some text => let? c := config_lines (split "010"%char text) default_config in finish_config c
  end.
End Validation.
