(* ===== verification/ConfigThms.v ===== *)
(** * What a node configuration guarantees

    Every configuration that is read satisfies the rules of its engine and of
    its TLS section, and every configuration that satisfies them can be written
    in the documented format and is read back. *)

From S2P Require Import Prelude Text Types Config.

(** ** Trimming *)

Definition starts_clean (s : string) : bool :=
  match s with EmptyString => false | String c _ => negb (is_space c) end.

Fixpoint ends_clean (s : string) : bool :=
  match s with
  | EmptyString => false
  | String c EmptyString => negb (is_space c)
  | String _ r => ends_clean r
  end.

Lemma trim_end_clean s : ends_clean s = true -> trim_end s = s.
Proof.
  induction s as [|c s IH]; [done|]. destruct s as [|d s].
  - cbn. by destruct (is_space c).
  - intros H. cbn [trim_end]. change (ends_clean (String c (String d s))) with (ends_clean (String d s)) in H.
    specialize (IH H). cbn [trim_end] in IH. by rewrite IH.
Qed.

Lemma trim_clean s : starts_clean s = true -> ends_clean s = true -> trim s = s.
Proof.
  intros Hs He. unfold trim. destruct s as [|c s]; [done|]. cbn in Hs. apply negb_true_iff in Hs.
  cbn [skip_space]. rewrite Hs. by apply trim_end_clean.
Qed.

Lemma trim_space s : trim (String " " s) = trim s.
Proof. done. Qed.

Lemma starts_clean_app a b : starts_clean a = true -> starts_clean (a +:+ b) = true.
Proof. by destruct a. Qed.

Lemma ends_clean_app a b : ends_clean b = true -> ends_clean (a +:+ b) = true.
Proof.
  intros Hb. induction a as [|c a IH]; [done|]. change (String c a +:+ b) with (String c (a +:+ b)).
  destruct (a +:+ b) eqn:E; [|exact IH]. by destruct (str_app_nil_inv _ _ E) as [_ ->].
Qed.

Lemma starts_clean_cons a : starts_clean a = true -> a <> "".
Proof. by destruct a. Qed.

(** ** Numbers *)

Lemma from_chars_u_range high s v : from_chars_u high s = Some v -> 0 <= v <= high.
Proof.
  unfold from_chars_u. destruct (starts_with_digit s); [|done].
  assert (forall s acc, 0 <= acc -> 0 <= (scan_digits s acc).1) as Hpos.
  { clear. induction s as [|c s IH]; intros acc Ha; cbn [scan_digits]; [done|].
    destruct (is_digit c) eqn:Ed; [|done]. apply IH. unfold is_digit in Ed. bool_props. lia. }
  specialize (Hpos s 0 ltac:(lia)). destruct (scan_digits s 0) as [w rest]. cbn in Hpos.
  destruct (_ && _) eqn:E; [|done]. bool_props. intros [= <-]. lia.
Qed.

Lemma from_chars_u_print high n : 0 <= n <= high -> from_chars_u high (print_u n) = Some n.
Proof.
  intros Hn. unfold from_chars_u. pose proof (print_u_starts n "" ltac:(lia)) as Hs. rewrite str_app_nil_r in Hs.
  rewrite Hs. pose proof (scan_print_u n "" ltac:(lia) eq_refl) as Hp. rewrite str_app_nil_r in Hp. rewrite Hp.
  rewrite (proj2 (Z.leb_le _ _)) by lia. done.
Qed.

Lemma parse_number_range key text lo hi v : parse_number key text lo hi = Ok v -> lo <= v <= hi /\ 0 <= v.
Proof.
  unfold parse_number. destruct (from_chars_u _ _) as [w|] eqn:E; [|done]. apply from_chars_u_range in E.
  destruct (_ || _) eqn:Eb; [done|]. bool_props. intros [= <-]. lia.
Qed.

Lemma parse_number_print key lo hi n : 0 <= lo <= n -> n <= hi -> hi <= max_u64 ->
  parse_number key (print_u n) lo hi = Ok n.
Proof.
  intros Hn Hh Hm. unfold parse_number. rewrite from_chars_u_print by lia.
  rewrite (proj2 (Z.ltb_ge _ _)), (proj2 (Z.ltb_ge _ _)) by lia. done.
Qed.

Lemma print_u_ends n : 0 <= n -> ends_clean (print_u n) = true.
Proof.
  intros Hn. destruct (print_u_digits n Hn) as [Hd Hne]. revert Hd Hne. generalize (print_u n).
  induction s as [|c s IH]; [done|]. intros Hd _. cbn in Hd. apply andb_true_iff in Hd as [Hc Hd].
  destruct s as [|d s]; [|apply IH; [exact Hd|done]]. cbn. by apply digit_not_space_sign in Hc as [-> _].
Qed.

Lemma print_u_starts_clean n : 0 <= n -> starts_clean (print_u n) = true.
Proof.
  intros Hn. destruct (print_u_digits n Hn) as [Hd Hne]. destruct (print_u n) as [|c s]; [done|].
  cbn in Hd. apply andb_true_iff in Hd as [Hc _]. cbn. by apply digit_not_space_sign in Hc as [-> _].
Qed.

(** ** Endpoints *)

Definition endpoint_ok (p : PeerEndpoint) : Prop :=
  ep_id p <> "" /\ ep_host p <> "" /\ 1 <= ep_port p <= 65535.

Definition endpoint_text (p : PeerEndpoint) : string :=
  ep_id p +:+ String "@" (ep_host p +:+ String ":" (print_u (ep_port p))).

Lemma parse_peer_ok text p : parse_peer text = Ok p -> endpoint_ok p.
Proof.
  unfold parse_peer. destruct (break_at _ _) as [[id rest]|]; [|done]. destruct (break_last _ _) as [[host port]|]; [|done].
  destruct (_ || _) eqn:E; [done|]. destruct (from_chars_u _ _) as [n|] eqn:En; [|done].
  apply from_chars_u_range in En. destruct (_ || _) eqn:Ep in |- *; [done|]. bool_props. intros [= <-].
  split_and!; cbn; lia || done.
Qed.

Lemma break_last_app c a b : lacks c b = true -> break_last c (a +:+ String c b) = Some (a, b).
Proof.
  intros Hb. assert (forall s, lacks c s = true -> break_last c s = None) as Hnone.
  { clear. induction s as [|x s IH]; [done|]. cbn. intros [Hx Hs]%andb_true_iff. rewrite IH by done.
    apply negb_true_iff in Hx. by rewrite Hx. }
  induction a as [|x a IH].
  - cbn. rewrite (Hnone b Hb). by rewrite bool_decide_eq_true_2.
  - cbn. by rewrite IH.
Qed.

Lemma parse_endpoint p : endpoint_ok p -> lacks "@"%char (ep_id p) = true -> parse_peer (endpoint_text p) = Ok p.
Proof.
  intros (Hi & Hh & Hp) Ha. unfold parse_peer, endpoint_text. rewrite break_at_first by done.
  rewrite break_last_app by (apply lacks_print_u; [done|lia]).
  rewrite !bool_decide_eq_false_2 by done. cbn [orb]. rewrite from_chars_u_print by lia.
  rewrite (proj2 (Z.eqb_neq _ _)), (proj2 (Z.ltb_ge _ _)) by lia. by destruct p.
Qed.

(** ** Valid configurations *)

(** The ranges of the numbers, whatever the engine. *)
Record fields_ok (c : NodeConfig) : Prop := {
  fo_port : 0 <= nc_port c <= 65535;
  fo_peers : Forall endpoint_ok (nc_peers c);
  fo_seed : u64 (nc_rng_seed c);
  fo_snapshot : 0 <= nc_snapshot_every c <= 100000;
  fo_heartbeat : 10 <= nc_heartbeat_ms c <= 10000;
  fo_min : 2 <= nc_election_timeout_min c <= 1000;
  fo_max : 2 <= nc_election_timeout_max c <= 1000;
  fo_tls : forall tls, nc_peer_tls c = Some tls ->
    0 <= tc_port tls <= 65535 /\ tc_host tls <> "" /\ Forall endpoint_ok (tc_peers tls);
}.

Section Valid.
Context (make_address : string -> option bool).
#[local] Abbreviation loopback := (fun host => make_address host = Some true).
#[local] Abbreviation numeric := (fun host => is_Some (make_address host)).

(** The transition core runs with elections, and in the clear only on loopback
    addresses. *)
Definition engine_rule (c : NodeConfig) : Prop :=
  nc_consensus_engine c = TransitionEngine ->
  nc_elections c = true /\
  (nc_peer_tls c = None -> loopback (nc_host c) /\ Forall (fun p => loopback (ep_host p)) (nc_peers c)).

(** With TLS the members have distinct valid names and one secure endpoint each,
    and the plain listener is a loopback address with another port. *)
Definition tls_rule (c : NodeConfig) : Prop :=
  forall tls, nc_peer_tls c = Some tls ->
  tc_port tls <> 0 /\ tc_ca_file tls <> "" /\ tc_certificate_file tls <> "" /\ tc_private_key_file tls <> "" /\
  loopback (nc_host c) /\ numeric (tc_host tls) /\ tc_port tls <> nc_port c /\
  Forall (fun id => valid_id id = true) (nc_id c :: (ep_id <$> nc_peers c)) /\
  NoDup (nc_id c :: (ep_id <$> nc_peers c)) /\
  Forall (fun p => numeric (ep_host p)) (tc_peers tls) /\
  ep_id <$> tc_peers tls ≡ₚ ep_id <$> nc_peers c.

Record config_valid (c : NodeConfig) : Prop := {
  cv_fields : fields_ok c;
  cv_names : nc_id c <> "" /\ nc_leader_id c <> "" /\ nc_data c <> "";
  cv_timeouts : nc_election_timeout_min c <= nc_election_timeout_max c;
  cv_engine : engine_rule c;
  cv_tls : tls_rule c;
}.

Lemma is_loopback_iff host : is_loopback make_address host = true <-> loopback host.
Proof. unfold is_loopback. destruct (make_address host) as [[]|]; cbn; naive_solver. Qed.

Lemma consensus_iff c : fields_ok c -> nc_election_timeout_min c <= nc_election_timeout_max c ->
  validate_consensus_config make_address c = Ok tt <-> engine_rule c.
Proof.
  intros Hf Ht. destruct Hf as [H1 H2 H3 H4 H5 H6 H7 H8]. unfold validate_consensus_config, engine_rule.
  destruct (nc_consensus_engine c); cbn [bool_decide]; [rewrite bool_decide_eq_true_2 by done; naive_solver|].
  rewrite bool_decide_eq_false_2, bool_decide_eq_true_2 by done. cbn [negb orb].
  do 5 (rewrite (proj2 (Z.ltb_ge _ _)) by lia). rewrite !orb_false_r.
  destruct (nc_elections c); cbn [negb]; [|naive_solver]. destruct (nc_peer_tls c); [naive_solver|].
  destruct (is_loopback make_address (nc_host c)) eqn:El; cbn [negb].
  - apply is_loopback_iff in El. destruct (forallb _ _) eqn:Ef; cbn [negb].
    + split; [|done]. intros _ _. split; [done|]. intros _. split; [done|]. apply list.Forall_forall. intros p Hp.
      apply is_loopback_iff. by eapply forallb_forall in Ef; [|by apply list_elem_of_In].
    + split; [done|]. intros H. destruct (H eq_refl) as [_ Hp]. destruct (Hp eq_refl) as [_ Hp2]. exfalso.
      assert (forallb (fun p => is_loopback make_address (ep_host p)) (nc_peers c) = true); [|congruence].
      apply forallb_forall. intros p Hin%list_elem_of_In. apply is_loopback_iff. by eapply list.Forall_forall in Hp2.
  - split; [done|]. intros H. destruct (H eq_refl) as [_ Hp]. destruct (Hp eq_refl) as [Hl _].
    apply is_loopback_iff in Hl. congruence.
Qed.

(** Both loops of the TLS validation collect distinct ids of endpoints that pass
    a test. *)
Fixpoint collect_ids (test : PeerEndpoint -> bool) (peers : list PeerEndpoint) (seen : gset string)
    : option (gset string) :=
  match peers with
  | [] => Some seen
  | p :: rest =>
      if test p && bool_decide (ep_id p ∉ seen) then collect_ids test rest ({[ep_id p]} ∪ seen) else None
  end.

Lemma collect_iff test peers : forall seen result,
  collect_ids test peers seen = Some result <->
  Forall (fun p => test p = true) peers /\ NoDup (ep_id <$> peers) /\
  (forall id, id ∈ ep_id <$> peers -> id ∉ seen) /\ result = list_to_set (ep_id <$> peers) ∪ seen.
Proof.
  induction peers as [|p peers IH]; intros seen result; cbn [collect_ids fmap list_fmap].
  - cbn. rewrite (left_id_L ∅ (∪)). split; [|by intros (_ & _ & _ & ->)].
    intros [= <-]. split_and!; [constructor|constructor|by intros ? ?%elem_of_nil|done].
  - rewrite list.Forall_cons, list.NoDup_cons. destruct (test p); cbn [andb]; [|naive_solver].
    case_bool_decide as E; [|set_solver]. rewrite IH. cbn [list_to_set].
    change (list_fmap PeerEndpoint string ep_id peers) with (ep_id <$> peers). split.
    + intros (H1 & H2 & H3 & ->). split_and!; [done|done|set_solver|done|set_solver|set_solver].
    + intros ((_ & H1) & (H2 & H3) & H4 & ->). split_and!; [done|done|set_solver|set_solver].
Qed.

Definition member_test (self : string) (p : PeerEndpoint) : bool :=
  bool_decide (ep_id p <> self) && valid_id (ep_id p).

Definition secured_test (members : gset string) (p : PeerEndpoint) : bool :=
  is_some (make_address (ep_host p)) && negb (ep_port p =? 0) && bool_decide (ep_id p ∈ members).

Lemma parse_id_is_ok id : is_ok (parse_id id) = valid_id id.
Proof.
  destruct (parse_id id) eqn:E; [by apply parse_id_ok in E as [_ ->]|].
  destruct (valid_id id) eqn:Ev; [|done]. apply parse_id_valid in Ev. congruence.
Qed.

Lemma member_collect self peers : forall members,
  member_set self peers members = collect_ids (member_test self) peers members.
Proof.
  induction peers as [|p peers IH]; intros members; cbn [member_set collect_ids]; [done|].
  unfold member_test. rewrite parse_id_is_ok, IH, !bool_decide_not.
  destruct (bool_decide (_ = self)), (valid_id _), (bool_decide (_ ∈ members)); done.
Qed.

Lemma secured_collect members peers : forall secured,
  secured_set make_address members peers secured = collect_ids (secured_test members) peers secured.
Proof.
  induction peers as [|p peers IH]; intros secured; cbn [secured_set collect_ids]; [done|].
  unfold secured_test. rewrite IH, !bool_decide_not.
  destruct (is_some _), (_ =? 0), (bool_decide (_ ∈ members)), (bool_decide (_ ∈ secured)); done.
Qed.

Lemma is_some_iff {A} (o : option A) : is_some o = true <-> is_Some o.
Proof. destruct o; cbn; [|]; split; [done|done|done|by intros []]. Qed.

(** The two loops and the comparison of their sets. *)
Lemma members_iff self peers secure :
  Forall endpoint_ok secure ->
  (exists members, member_set self peers ∅ = Some members /\ secured_set make_address members secure ∅ = Some members) <->
  Forall (fun p => valid_id (ep_id p) = true) peers /\ NoDup (self :: (ep_id <$> peers)) /\
  Forall (fun p => numeric (ep_host p)) secure /\ ep_id <$> secure ≡ₚ ep_id <$> peers.
Proof.
  intros Hend. rewrite list.NoDup_cons. split.
  - intros (members & Hm & Hs). rewrite member_collect in Hm. rewrite secured_collect in Hs.
    apply collect_iff in Hm as (M1 & M2 & _ & M3). apply collect_iff in Hs as (S1 & S2 & _ & S3).
    rewrite list.Forall_forall in M1, S1. split; [|split; [split; [|done]|split]].
    + apply list.Forall_forall. intros p Hp. specialize (M1 p Hp). unfold member_test in M1. by bool_props.
    + intros (p & E & Hp)%list_elem_of_fmap. specialize (M1 p Hp). unfold member_test in M1. by bool_props.
    + apply list.Forall_forall. intros p Hp. specialize (S1 p Hp). unfold secured_test in S1. bool_props.
      by apply is_some_iff.
    + apply NoDup_Permutation; [done..|]. intros id. rewrite !(right_id_L ∅ (∪)) in *. subst members.
      rewrite <- (elem_of_list_to_set (C:=gset string) id (ep_id <$> secure)), <- S3. apply elem_of_list_to_set.
  - intros (M1 & [M2 M3] & S1 & Hp). exists (list_to_set (ep_id <$> peers)). rewrite member_collect, secured_collect.
    rewrite !collect_iff, !(right_id_L ∅ (∪)). rewrite !list.Forall_forall in *.
    assert (forall ids : list string, forall id, id ∈ ids -> id ∉ (∅ : gset string)) as Hempty by (by intros ids id _ ?%elem_of_empty).
    split; split_and!; [|done|apply Hempty|done| |by rewrite Hp|apply Hempty|].
    + intros p Hin. unfold member_test. rewrite M1 by done. rewrite bool_decide_eq_true_2; [done|].
      intros E. apply M2. rewrite <- E. by apply list_elem_of_fmap_2.
    + intros p Hin. unfold secured_test. rewrite (proj2 (is_some_iff _)) by (by apply S1). cbn [andb].
      destruct (Hend p Hin) as (_ & _ & Hport). rewrite (proj2 (Z.eqb_neq _ _)) by lia. cbn [negb andb].
      apply bool_decide_eq_true_2. rewrite elem_of_list_to_set, <- Hp. by apply list_elem_of_fmap_2.
    + apply set_eq. intros id. rewrite !elem_of_list_to_set. by rewrite Hp.
Qed.

#[local] Ltac refused := split; [done|by intros (?&?&?&?&?&?&?&?&?)].

Lemma tls_iff c : fields_ok c -> validate_peer_tls_config make_address c = Ok tt <-> tls_rule c.
Proof.
  intros Hf. unfold validate_peer_tls_config, tls_rule. destruct (nc_peer_tls c) as [tls|] eqn:Et; [|naive_solver].
  destruct (fo_tls c Hf tls Et) as (_ & _ & Hend). pose proof (members_iff (nc_id c) (nc_peers c) _ Hend) as Hm.
  transitivity (tc_port tls <> 0 /\ tc_ca_file tls <> "" /\ tc_certificate_file tls <> "" /\ tc_private_key_file tls <> "" /\
    loopback (nc_host c) /\ numeric (tc_host tls) /\ tc_port tls <> nc_port c /\ valid_id (nc_id c) = true /\
    exists members, member_set (nc_id c) (nc_peers c) ∅ = Some members /\
      secured_set make_address members (tc_peers tls) ∅ = Some members).
  - clear Hm Hf Hend Et. rewrite parse_id_is_ok, <- is_loopback_iff, <- is_some_iff.
    destruct (Z.eqb_spec (tc_port tls) 0); [refused|]. cbn [orb].
    do 3 (case_bool_decide; cbn [orb]; [refused|]).
    destruct (is_loopback _ _); cbn [negb]; [|refused]. destruct (is_some _); cbn [negb]; [|refused].
    destruct (Z.eqb_spec (tc_port tls) (nc_port c)); [refused|]. destruct (valid_id _); cbn [negb]; [|refused].
    destruct (member_set _ _ _) as [members|]; [|split; [done|intros (_&_&_&_&_&_&_&_&m&E&_); done]].
    destruct (secured_set _ _ _ _) as [secured|] eqn:Es.
    + case_bool_decide as E; [subst; split; [intros _; split_and!; by eauto|done]|]. split; [done|].
      intros (_&_&_&_&_&_&_&_&m&[= ->]&E2). congruence.
    + split; [done|]. intros (_&_&_&_&_&_&_&_&m&[= ->]&E2). congruence.
  - rewrite Hm. clear. split.
    + intros (?&?&?&?&?&?&?&?&?&?&?&?) tls' [= <-]. split_and!; try done. by constructor; [|apply Forall_fmap].
    + intros H. specialize (H tls eq_refl). destruct H as (?&?&?&?&?&?&?&H8&?&?&?).
      apply list.Forall_cons in H8 as [? H8]. apply Forall_fmap in H8. by split_and!.
Qed.

Lemma finish_iff c c' : fields_ok c ->
  finish_config make_address c = Ok c' <-> c' = c /\ config_valid c.
Proof.
  intros Hf. unfold finish_config. destruct (Z.ltb_spec (nc_election_timeout_max c) (nc_election_timeout_min c)).
  { split; [done|]. intros [_ [_ _ Ht _ _]]. lia. }
  destruct (_ || _) eqn:En.
  { split; [done|]. intros [_ [_ (N1 & N2 & N3) _ _ _]]. by rewrite !bool_decide_eq_false_2 in En. }
  bool_props. pose proof (consensus_iff c Hf ltac:(lia)) as Hc. pose proof (tls_iff c Hf) as Ht.
  destruct (validate_consensus_config _ _) as [[]|]; [|split; [done|intros [_ [_ _ _ H4 _]]; apply Hc in H4; done]].
  destruct (validate_peer_tls_config _ _) as [[]|]; [|split; [done|intros [_ [_ _ _ _ H5]]; apply Ht in H5; done]].
  split; [intros [= <-]; split; [done|]; split; [done|done|lia|by apply Hc|by apply Ht]|by intros [-> _]].
Qed.
End Valid.

(** ** Reading keeps the ranges *)

Lemma read_peers_ok items : forall peers peers',
  Forall endpoint_ok peers -> read_peers items peers = Ok peers' -> Forall endpoint_ok peers'.
Proof.
  induction items as [|item items IH]; intros peers peers' Hp; cbn [read_peers]; [by intros [= <-]|].
  case_bool_decide; [by apply IH|]. destruct (parse_peer _) as [p|] eqn:E; [|done]. apply parse_peer_ok in E.
  apply IH. apply Forall_app_2; [done|by constructor].
Qed.

Definition tls_fields_ok (tls : PeerTlsConfig) : Prop :=
  0 <= tc_port tls <= 65535 /\ tc_host tls <> "" /\ Forall endpoint_ok (tc_peers tls).

Lemma tls_line_ok key value tls tls' : tls_fields_ok tls -> tls_line key value tls = Ok tls' -> tls_fields_ok tls'.
Proof.
  intros (H1 & H2 & H3). unfold tls_line. case_bool_decide.
  { destruct (parse_peer _) as [p|] eqn:E; [|done]. apply parse_peer_ok in E as (E1 & E2 & E3). intros [= <-].
    split_and!; cbn; lia || done. }
  do 3 (case_bool_decide; [by intros [= <-]|]). case_bool_decide; [|done].
  destruct (parse_peer _) as [p|] eqn:E; [|done]. apply parse_peer_ok in E. intros [= <-]. split; [done|].
  split; [done|]. apply Forall_app_2; [done|by constructor].
Qed.

#[local] Ltac numbers :=
  match goal with |- context [parse_number ?k ?t ?a ?b] => destruct (parse_number k t a b) eqn:?; [|done] end;
  match goal with H : parse_number _ _ _ _ = Ok _ |- _ => apply parse_number_range in H end.

Lemma key_line_ok key value c c' : fields_ok c -> key_line key value c = Ok c' -> fields_ok c'.
Proof.
  intros [H1 H2 H3 H4 H5 H6 H7 H8]. unfold key_line. do 3 (case_bool_decide; [intros [= <-]; by split|]).
  case_bool_decide.
  { unfold listen_line. destruct (break_last _ _) as [[host port]|]; [|done]. numbers. intros [= <-].
    split; try done; cbn; lia. }
  destruct (_ || _).
  { destruct (read_peers _ _) as [ps|] eqn:E; [|done]. apply read_peers_ok in E; [|done]. intros [= <-]. by split. }
  destruct (String.prefix _ _).
  { destruct (tls_line _ _ _) as [tls|] eqn:E; [|done]. apply tls_line_ok in E.
    - intros [= <-]. split; try done. intros tls' [= <-]. exact E.
    - destruct (nc_peer_tls c) as [t|]; [by apply H8|]. split_and!; cbn; [lia|lia|done|constructor]. }
  case_bool_decide; [case_bool_decide; [intros [= <-]; by split|]; case_bool_decide; [intros [= <-]; by split|done]|].
  case_bool_decide; [intros [= <-]; by split|].
  case_bool_decide; [destruct (_ && _); [done|]; intros [= <-]; by split|].
  do 5 (case_bool_decide; [numbers; intros [= <-]; split; unfold u64 in *; cbn; lia || done|]).
  by intros [= <-].
Qed.

Lemma lines_ok lines : forall c c', fields_ok c -> config_lines lines c = Ok c' -> fields_ok c'.
Proof.
  induction lines as [|line lines IH]; intros c c' Hc; cbn [config_lines]; [by intros [= <-]|].
  destruct (config_line line c) as [c1|] eqn:E; [|done]. apply IH. unfold config_line in E.
  destruct (match trim line with EmptyString => _ | String _ _ => _ end); [by injection E as <-|].
  destruct (break_at _ _) as [[key value]|]; [|done]. by eapply key_line_ok.
Qed.

Lemma default_fields : fields_ok default_config.
Proof. split; try done; cbn; lia. Qed.

Lemma load_sound make_address path file c :
  load_node_config make_address path file = Ok c -> config_valid make_address c.
Proof.
  unfold load_node_config. destruct file as [text|]; [|done].
  destruct (config_lines _ _) as [c1|] eqn:E; [|done]. apply lines_ok in E; [|apply default_fields].
  intros H. by apply finish_iff in H as [-> ?].
Qed.

(** ** Writing the documented format *)

Definition newline_char : ascii := "010"%char.

Definition config_entry (key value : string) : string := key +:+ String ":" (String " " value).

Definition bool_text (b : bool) : string := if b then "true" else "false".

Definition engine_text (e : ConsensusEngine) : string :=
  match e with Legacy => "legacy" | TransitionEngine => "transition" end.

Definition listen_text (host : string) (port : Z) : string := host +:+ String ":" (print_u port).

Definition tls_entries (tls : PeerTlsConfig) : list (string * string) :=
  [("peer_tls_listen", listen_text (tc_host tls) (tc_port tls)); ("peer_tls_ca", tc_ca_file tls);
   ("peer_tls_certificate", tc_certificate_file tls); ("peer_tls_key", tc_private_key_file tls)] ++
  ((fun p => ("peer_tls_peer", endpoint_text p)) <$> tc_peers tls).

Definition config_entries (c : NodeConfig) : list (string * string) :=
  [("id", nc_id c); ("leader", nc_leader_id c); ("data", nc_data c); ("listen", listen_text (nc_host c) (nc_port c));
   ("elections", bool_text (nc_elections c)); ("consensus_engine", engine_text (nc_consensus_engine c));
   ("test_mode", bool_text (nc_test_mode c)); ("rng_seed", print_u (nc_rng_seed c));
   ("snapshot_every", print_u (nc_snapshot_every c)); ("heartbeat_ms", print_u (nc_heartbeat_ms c));
   ("election_timeout_min", print_u (nc_election_timeout_min c));
   ("election_timeout_max", print_u (nc_election_timeout_max c))]%string ++
  ((fun p => ("peer"%string, endpoint_text p)) <$> nc_peers c) ++
  match nc_peer_tls c with Some tls => tls_entries tls | None => [] end.

Definition config_text (c : NodeConfig) : string :=
  join (String newline_char "") ((fun kv => config_entry kv.1 kv.2) <$> config_entries c).

(** Values that the format can carry: no line break, no space at either end, and
    no separator inside a name. *)
Definition clean (s : string) : bool := starts_clean s && ends_clean s && lacks newline_char s.

Definition clean_host (s : string) : bool := (bool_decide (s = "") || starts_clean s) && lacks newline_char s.

Definition clean_endpoint (separator : ascii) (p : PeerEndpoint) : bool :=
  starts_clean (ep_id p) && lacks "@" (ep_id p) && lacks newline_char (ep_id p) && lacks newline_char (ep_host p) &&
  lacks separator (ep_id p) && lacks separator (ep_host p).

Definition writable (c : NodeConfig) : bool :=
  clean (nc_id c) && clean (nc_leader_id c) && clean (nc_data c) && clean_host (nc_host c) &&
  forallb (clean_endpoint ",") (nc_peers c) &&
  match nc_peer_tls c with
  | None => true
  | Some tls =>
      clean_host (tc_host tls) && clean (tc_ca_file tls) && clean (tc_certificate_file tls) &&
      clean (tc_private_key_file tls) && forallb (clean_endpoint "@") (tc_peers tls)
  end.

(** ** Reading it back *)

Fixpoint key_lines (entries : list (string * string)) (c : NodeConfig) : result Error NodeConfig :=
  match entries with
  | [] => Ok c
  | (key, value) :: rest => let? c := key_line key value c in key_lines rest c
  end.

Lemma key_lines_app a : forall b c, key_lines (a ++ b) c = let? c' := key_lines a c in key_lines b c'.
Proof. induction a as [|[k v] a IH]; intros b c; cbn [key_lines app]; [done|]. by destruct (key_line k v c). Qed.

Definition key_clean (key : string) : bool :=
  clean key && lacks ":" key && lacks "#" key.

Definition entry_clean (kv : string * string) : bool := key_clean kv.1 && clean kv.2.

Lemma entry_read key value c : entry_clean (key, value) = true ->
  config_line (config_entry key value) c = key_line key value c.
Proof.
  unfold entry_clean, key_clean, clean. cbn [fst snd]. intros H. bool_props. unfold config_line.
  assert (trim (config_entry key value) = config_entry key value) as ->.
  { apply trim_clean; [by apply starts_clean_app|]. by apply ends_clean_app, (ends_clean_app ": "). }
  unfold config_entry at 2. rewrite break_at_first by done. rewrite trim_space, !trim_clean by done.
  destruct key as [|x key]; [done|]. cbn -[key_line].
  match goal with H : lacks "#" _ = true |- _ => cbn in H; apply andb_true_iff in H as [Hx _] end.
  apply negb_true_iff in Hx. by rewrite Hx.
Qed.

Lemma entry_newline kv : entry_clean kv = true -> lacks newline_char (config_entry kv.1 kv.2) = true.
Proof.
  destruct kv as [k v]. unfold entry_clean, key_clean, clean, config_entry. cbn [fst snd]. intros H. bool_props.
  rewrite lacks_app. cbn. by apply andb_true_intro.
Qed.

Lemma entries_read entries : forall c, Forall (fun kv => entry_clean kv = true) entries ->
  config_lines ((fun kv => config_entry kv.1 kv.2) <$> entries) c = key_lines entries c.
Proof.
  induction entries as [|[k v] entries IH]; intros c H; [done|]. apply list.Forall_cons in H as [H1 H].
  cbn [fmap list_fmap config_lines key_lines fst snd]. rewrite entry_read by done.
  destruct (key_line k v c); [by apply IH|done].
Qed.

Lemma text_lines entries : Forall (fun kv => entry_clean kv = true) entries ->
  split newline_char (join (String newline_char "") ((fun kv => config_entry kv.1 kv.2) <$> entries)) =
  (fun kv => config_entry kv.1 kv.2) <$> entries.
Proof.
  intros H. apply split_join.
  - apply Forall_fmap. eapply list.Forall_impl; [exact H|]. intros kv. apply entry_newline.
  - rewrite list.fmap_last. destruct (list.last entries) as [[k v]|]; [|done]. cbn. intros [= E].
    by destruct k.
Qed.

(** Values are clean. *)
Lemma clean_print n : 0 <= n -> clean (print_u n) = true.
Proof.
  intros Hn. unfold clean. by rewrite print_u_starts_clean, print_u_ends, lacks_print_u.
Qed.

Lemma clean_listen host port : clean_host host = true -> 0 <= port -> clean (listen_text host port) = true.
Proof.
  unfold clean_host, clean, listen_text. intros H Hp. bool_props. apply andb_true_intro. split; [apply andb_true_intro; split|].
  - match goal with H : _ || _ = true |- _ => apply orb_true_iff in H as [E%bool_decide_eq_true|E] end; [by rewrite E|].
    by apply starts_clean_app.
  - apply ends_clean_app, (ends_clean_app ":"). by apply print_u_ends.
  - rewrite lacks_app. cbn. rewrite lacks_print_u by done. by apply andb_true_intro.
Qed.

Lemma clean_endpoint_text sep p : clean_endpoint sep p = true -> endpoint_ok p -> clean (endpoint_text p) = true.
Proof.
  unfold clean_endpoint, clean, endpoint_text. intros H (_ & _ & Hp). bool_props.
  apply andb_true_intro. split; [apply andb_true_intro; split|].
  - by apply starts_clean_app.
  - apply ends_clean_app, (ends_clean_app "@"), ends_clean_app, (ends_clean_app ":"). apply print_u_ends. lia.
  - rewrite lacks_app. cbn. rewrite lacks_app. cbn. rewrite lacks_print_u by (done || lia).
    by repeat (apply andb_true_intro; split).
Qed.

(** ** The entries of a configuration *)

#[local] Ltac entries := repeat (apply Forall_cons_2; [unfold entry_clean; cbn [fst snd]; apply andb_true_intro; split; [reflexivity|]|]).

Lemma endpoint_entries key sep peers :
  key_clean key = true -> forallb (clean_endpoint sep) peers = true -> Forall endpoint_ok peers ->
  Forall (fun kv => entry_clean kv = true) ((fun p => (key, endpoint_text p)) <$> peers).
Proof.
  intros Hk Hc Hok. apply Forall_fmap, list.Forall_forall. intros p Hp. unfold compose, entry_clean. cbn [fst snd].
  rewrite Hk. cbn [andb]. rewrite forallb_forall in Hc. apply (clean_endpoint_text sep).
  - by apply Hc, list_elem_of_In.
  - by rewrite list.Forall_forall in Hok; apply Hok.
Qed.

Lemma entries_clean c : fields_ok c -> writable c = true ->
  Forall (fun kv => entry_clean kv = true) (config_entries c).
Proof.
  intros [H1 H2 H3 H4 H5 H6 H7 H8] Hw. unfold writable in Hw. unfold config_entries. unfold u64 in H3.
  apply Forall_app_2; [|apply Forall_app_2].
  - bool_props. entries; try done; try (apply clean_print; lia); try constructor.
    + apply clean_listen; [done|lia].
    + by destruct (nc_elections c).
    + by destruct (nc_consensus_engine c).
    + by destruct (nc_test_mode c).
  - bool_props. by eapply endpoint_entries.
  - destruct (nc_peer_tls c) as [tls|]; [|constructor]. destruct (H8 tls eq_refl) as (T1 & T2 & T3). bool_props.
    unfold tls_entries. apply Forall_app_2; [|by eapply endpoint_entries]. entries; try done; try constructor.
    apply clean_listen; [done|lia].
Qed.

(** ** What the entries set *)

Lemma read_endpoint p peers : endpoint_ok p -> clean_endpoint "," p = true ->
  read_peers (split ","%char (endpoint_text p)) peers = Ok (peers ++ [p])%list.
Proof.
  intros Hp Hc. pose proof (clean_endpoint_text _ p Hc Hp) as Ht. unfold clean in Ht. bool_props.
  assert (lacks ","%char (endpoint_text p) = true) as Hl.
  { unfold clean_endpoint in Hc. bool_props. unfold endpoint_text. rewrite lacks_app. cbn. rewrite lacks_app. cbn.
    destruct Hp as (_ & _ & Hport). rewrite lacks_print_u by (done || lia). by repeat (apply andb_true_intro; split). }
  assert (split ","%char (endpoint_text p) = [endpoint_text p]) as ->.
  { pose proof (split_join ","%char [endpoint_text p]) as E. cbn [join] in E. apply E; [by constructor|].
    cbn. intros [= E']. rewrite E' in *. done. }
  cbn [read_peers]. rewrite trim_clean by done. rewrite bool_decide_eq_false_2 by (intros E; by rewrite E in * ).
  unfold clean_endpoint in Hc. bool_props. by rewrite parse_endpoint.
Qed.

Lemma peer_entries peers : forall c, Forall endpoint_ok peers -> forallb (clean_endpoint ",") peers = true ->
  key_lines ((fun p => ("peer"%string, endpoint_text p)) <$> peers) c = Ok (config_with_peers (nc_peers c ++ peers)%list c).
Proof.
  induction peers as [|p peers IH]; intros c Hok Hc.
  - rewrite app_nil_r. by destruct c.
  - apply list.Forall_cons in Hok as [Hp Hok]. cbn in Hc. apply andb_true_iff in Hc as [Hcp Hc].
    cbn [fmap list_fmap key_lines]. change (key_line "peer" (endpoint_text p) c) with
      (let? peers := read_peers (split ","%char (endpoint_text p)) (nc_peers c) in Ok (config_with_peers peers c)).
    rewrite read_endpoint by done. change (list_fmap _ _ ?f peers) with (f <$> peers). rewrite IH by done.
    cbn. by rewrite <- app_assoc.
Qed.

Lemma tls_peer_entries peers : forall tls c, nc_peer_tls c = Some tls -> Forall endpoint_ok peers ->
  forallb (clean_endpoint "@") peers = true ->
  key_lines ((fun p => ("peer_tls_peer"%string, endpoint_text p)) <$> peers) c =
    Ok (config_with_peer_tls (Some (tls_with_peers (tc_peers tls ++ peers)%list tls)) c).
Proof.
  induction peers as [|p peers IH]; intros tls c Ht Hok Hc.
  - rewrite app_nil_r. destruct c, tls. cbn in *. by subst.
  - apply list.Forall_cons in Hok as [Hp Hok]. cbn in Hc. apply andb_true_iff in Hc as [Hcp Hc].
    cbn [fmap list_fmap key_lines]. change (key_line "peer_tls_peer" (endpoint_text p) c) with
      (let? tls := (let? endpoint := parse_peer (endpoint_text p) in
         Ok (tls_with_peers (tc_peers (default default_tls (nc_peer_tls c)) ++ [endpoint])%list
               (default default_tls (nc_peer_tls c)))) in
       Ok (config_with_peer_tls (Some tls) c)).
    unfold clean_endpoint in Hcp. bool_props. rewrite parse_endpoint by done. rewrite Ht. cbn [default].
    change (list_fmap _ _ ?f peers) with (f <$> peers). erewrite IH; [|done..]. cbn. by rewrite <- app_assoc.
Qed.


Lemma number_entry key n lo hi (set : Z -> NodeConfig -> NodeConfig) c :
  (forall value, key_line key value c = let? v := parse_number key value lo hi in Ok (set v c)) ->
  0 <= lo <= n -> n <= hi -> hi <= max_u64 -> key_line key (print_u n) c = Ok (set n c).
Proof. intros E H1 H2 H3. rewrite E. by rewrite parse_number_print. Qed.

Lemma listen_entry host port c : 0 <= port <= 65535 ->
  key_line "listen" (listen_text host port) c = Ok (config_with_port port (config_with_host host c)).
Proof.
  intros Hp. change (key_line "listen" (listen_text host port) c) with (listen_line (listen_text host port) c).
  unfold listen_line, listen_text. rewrite break_last_app by (apply lacks_print_u; [done|lia]).
  by rewrite parse_number_print by (done || lia).
Qed.

(** The entries with one value each. *)
Lemma scalar_entries c : fields_ok c ->
  key_lines (take 12 (config_entries c)) default_config =
    Ok (config_with_peers [] (config_with_peer_tls None c)).
Proof.
  intros [H1 H2 H3 H4 H5 H6 H7 _]. unfold u64 in H3. unfold config_entries. rewrite take_app_length' by done.
  cbn [key_lines]. change (key_line "id" ?v ?c) with (Ok (E:=Error) (config_with_id v c)). cbv iota.
  change (key_line "leader" ?v ?c) with (Ok (E:=Error) (config_with_leader_id v c)). cbv iota.
  change (key_line "data" ?v ?c) with (Ok (E:=Error) (config_with_data v c)). cbv iota. rewrite listen_entry by done. cbv iota.
  assert (forall b c, key_line "elections" (bool_text b) c = Ok (config_with_elections b c)) as -> by (by intros []). cbv iota.
  assert (forall e c, key_line "consensus_engine" (engine_text e) c = Ok (config_with_consensus_engine e c)) as -> by (by intros []). cbv iota.
  assert (forall b c, key_line "test_mode" (bool_text b) c = Ok (config_with_test_mode b c)) as -> by (by intros []). cbv iota.
  rewrite (number_entry "rng_seed" _ 0 max_u64 config_with_rng_seed) by (done || lia). cbv iota.
  rewrite (number_entry "snapshot_every" _ 0 100000 config_with_snapshot_every) by (done || lia). cbv iota.
  rewrite (number_entry "heartbeat_ms" _ 10 10000 config_with_heartbeat_ms) by (done || lia). cbv iota.
  rewrite (number_entry "election_timeout_min" _ 2 1000 config_with_election_timeout_min) by (done || lia). cbv iota.
  rewrite (number_entry "election_timeout_max" _ 2 1000 config_with_election_timeout_max) by (done || lia). done.
Qed.

Lemma tls_section tls c : nc_peer_tls c = None -> tls_fields_ok tls -> tc_port tls <> 0 ->
  forallb (clean_endpoint "@") (tc_peers tls) = true ->
  key_lines (tls_entries tls) c = Ok (config_with_peer_tls (Some tls) c).
Proof.
  intros Hc (H1 & H2 & H3) Hp Hw. unfold tls_entries. rewrite key_lines_app. cbn [key_lines].
  change (key_line "peer_tls_listen" (listen_text (tc_host tls) (tc_port tls)) c) with
    (let? tls := (let? endpoint := parse_peer (endpoint_text (mkPeerEndpoint "listener" (tc_host tls) (tc_port tls))) in
       Ok (tls_with_port (ep_port endpoint) (tls_with_host (ep_host endpoint) (default default_tls (nc_peer_tls c))))) in
     Ok (config_with_peer_tls (Some tls) c)).
  rewrite parse_endpoint by (done || by split_and!; cbn; lia || done). rewrite Hc. cbn [ep_host ep_port default].
  set (c1 := config_with_peer_tls _ c).
  change (key_line "peer_tls_ca" ?v c1) with (Ok (E:=Error) (config_with_peer_tls (Some (tls_with_ca_file v
    (default default_tls (nc_peer_tls c1)))) c1)). cbv iota. set (c2 := config_with_peer_tls _ c1).
  change (key_line "peer_tls_certificate" ?v c2) with (Ok (E:=Error) (config_with_peer_tls (Some (tls_with_certificate_file v
    (default default_tls (nc_peer_tls c2)))) c2)). cbv iota. set (c3 := config_with_peer_tls _ c2).
  change (key_line "peer_tls_key" ?v c3) with (Ok (E:=Error) (config_with_peer_tls (Some (tls_with_private_key_file v
    (default default_tls (nc_peer_tls c3)))) c3)). cbv iota.
  erewrite tls_peer_entries; [|done|done|done]. by destruct tls.
Qed.

Lemma entries_set c : fields_ok c -> (forall tls, nc_peer_tls c = Some tls -> tc_port tls <> 0) -> writable c = true ->
  key_lines (config_entries c) default_config = Ok c.
Proof.
  intros Hf Hport Hw. rewrite <- (take_drop 12 (config_entries c)), key_lines_app, scalar_entries by done.
  unfold config_entries. rewrite drop_app_length' by done. unfold writable in Hw. bool_props.
  rewrite key_lines_app, peer_entries by (done || apply (fo_peers _ Hf)). cbn [nc_peers config_with_peers app].
  destruct (nc_peer_tls c) as [tls|] eqn:Et.
  - bool_props. rewrite tls_section; [|done|by apply (fo_tls _ Hf)|by apply Hport|done]. destruct c. cbn in *. by subst.
  - destruct c. cbn in *. by subst.
Qed.

Lemma config_read_back make_address path c : writable c = true -> config_valid make_address c ->
  load_node_config make_address path (Some (config_text c)) = Ok c.
Proof.
  intros Hw Hv. pose proof (cv_fields _ _ Hv) as Hf. pose proof (entries_clean c Hf Hw) as Hc.
  unfold load_node_config, config_text. change "010"%char with newline_char. rewrite text_lines, entries_read by done.
  rewrite entries_set by (done || intros tls E; apply (cv_tls _ _ Hv tls E)). by apply finish_iff.
Qed.

(** C39: What a configuration file can say. Whatever the file holds, a
    configuration that is read obeys the ranges of its numbers, the rules of its
    engine and those of its TLS section (distinct valid members, exactly one
    secure endpoint for each); and a configuration written line by line in the
    documented format is read back as it was exactly when it obeys them. *)
Theorem configurations_load_iff_valid make_address path c : writable c = true ->
  (load_node_config make_address path (Some (config_text c)) = Ok c <-> config_valid make_address c) /\
  forall file, load_node_config make_address path file = Ok c -> config_valid make_address c.
Proof.
  intros Hw. split; [|intros file; apply load_sound]. split; [apply load_sound|by apply config_read_back].
Qed.

(** ** A secured node *)

Definition demo_address (host : string) : option bool :=
  if bool_decide (host = "127.0.0.1") then Some true
  else if bool_decide (host = "10.0.0.2") then Some false else None.

Definition demo_config : NodeConfig :=
  mkNodeConfig "node-1" "node-1" "data/node-1" "127.0.0.1" 7001 [mkPeerEndpoint "node-2" "10.0.0.2" 7001]
    true TransitionEngine false 42 200 50 3 6
    (Some (mkPeerTlsConfig "10.0.0.2" 7443 "ca.pem" "node.pem" "node.key" [mkPeerEndpoint "node-2" "10.0.0.2" 7443])).

Lemma configurations_load_iff_valid_witness :
  writable demo_config = true /\ config_valid demo_address demo_config.
Proof.
  split; [vm_compute; reflexivity|].
  apply (configurations_load_iff_valid demo_address "node.conf" demo_config).
  - vm_compute. reflexivity.
  - vm_compute. reflexivity.
Defined.
