(* ===== verification/PeerTls.v ===== *)
(** * Peer certificates

    [network/peer_tls.cpp]. What the TLS library answers about a certificate
    is data of the model; the identity that the code reads from it, and what
    it then accepts, are computed as in the source. *)

From S2P Require Import Prelude Text Types Config.

(** A subject alternative name: the bytes of a URI, or any other kind. *)
Inductive GeneralName :=
| GenUri (value : string)
| GenOther.

(** [ct_xkusage]: the certificate has an extended key usage, that permits
    servers ([ct_xku_server]) and clients ([ct_xku_client]). [ct_ca]: it is a
    certificate authority. [ct_ssl_server] and [ct_ssl_client]: the purpose
    checks succeed. [ct_names]: the subject alternative names. *)
Record Certificate := mkCertificate {
  ct_xkusage : bool;
  ct_xku_server : bool;
  ct_xku_client : bool;
  ct_ca : bool;
  ct_ssl_server : bool;
  ct_ssl_client : bool;
  ct_names : option (list GeneralName);
}.

Definition peer_purpose (c : Certificate) : bool :=
  ct_xkusage c && (ct_xku_server c && ct_xku_client c) && negb (ct_ca c) && ct_ssl_server c && ct_ssl_client c.

Definition uri_prefix : string := "urn:choreoos:node:".

(** The rest of [s] after the prefix [p]. *)
Fixpoint after_prefix (p s : string) : option string :=
  match p, s with
  | EmptyString, _ => Some s
  | String a p, String b s => if bool_decide (a = b) then after_prefix p s else None
  | String _ _, EmptyString => None
  end.

(** The loop over the names; [identity] is the one found so far. *)
Fixpoint node_id_loop (names : list GeneralName) (identity : option string) : option string :=
  match names with
  | [] => identity
  | GenOther :: rest => node_id_loop rest identity
  | GenUri value :: rest =>
      if bool_decide (value = "") then None
      else
        match after_prefix uri_prefix value with
        | None => node_id_loop rest identity
        | Some id => if is_some identity || negb (is_ok (parse_id id)) then None else node_id_loop rest (Some id)
        end
  end.

Definition certificate_node_id (c : Certificate) : option string :=
  match ct_names c with
  | None => None
  | Some names => node_id_loop names None
  end.

Definition tls_invalid (why : string) : Error := mkError StoreError ("peer TLS: " +:+ why).

(** What the library answers when the context is built: the exceptions of
    [context(...)] and of the reading of the files, whether TLS 1.3 can be
    required, whether the key is that of the certificate, the certificate, and
    whether its chain is valid. *)
Record ContextOs := mkContextOs {
  cx_created : option string;
  cx_tls13 : bool;
  cx_files : option string;
  cx_key_matches : bool;
  cx_local : Certificate;
  cx_chain_valid : bool;
}.

(** Whether there is a context. *)
Definition make_peer_tls_context (config : NodeConfig) (os : ContextOs) : result Error bool :=
  match nc_peer_tls config with
  | None => Ok false
  | Some _ =>
      match cx_created os with
      | Some what => Err (tls_invalid what)
      | None =>
          if negb (cx_tls13 os) then Err (tls_invalid "TLS 1.3 is required")
          else
            match cx_files os with
            | Some what => Err (tls_invalid what)
            | None =>
                if negb (cx_key_matches os) then Err (tls_invalid "certificate/key mismatch")
                else if negb (bool_decide (certificate_node_id (cx_local os) = Some (nc_id config)))
                then Err (tls_invalid "local certificate URI SAN must match the node ID")
                else if negb (peer_purpose (cx_local os))
                then Err (tls_invalid "local certificate must permit both server and client authentication")
                else if negb (cx_chain_valid os)
                then Err (tls_invalid "local certificate chain or validity check failed")
                else Ok true
            end
      end
  end.

(** One call of the verification callback: the library's own verdict, the depth
    of the certificate in the chain, and the certificate. *)
Record CertificateCheck := mkCertificateCheck {
  ck_preverified : bool;
  ck_depth : Z;
  ck_certificate : Certificate;
}.

Definition is_configured_peer (config : NodeConfig) (id : string) : bool :=
  existsb (fun peer => bool_decide (ep_id peer = id)) (nc_peers config).

(** The answer, and [verified_peer] after the call. *)
Definition verify_peer_certificate (check : CertificateCheck) (config : NodeConfig)
    (expected_peer verified_peer : string) : bool * string :=
  if negb (ck_preverified check) then (false, verified_peer)
  else if negb (ck_depth check =? 0) then (true, verified_peer)
  else if negb (peer_purpose (ck_certificate check)) then (false, verified_peer)
  else
    match certificate_node_id (ck_certificate check) with
    | None => (false, verified_peer)
    | Some id =>
        if negb (bool_decide (expected_peer = "")) && negb (bool_decide (id = expected_peer))
        then (false, verified_peer)
        else if negb (is_configured_peer config id) then (false, verified_peer)
        else (true, id)
    end.

(** ** Identities *)

Lemma after_prefix_app p s rest : after_prefix p s = Some rest <-> s = p +:+ rest.
Proof.
  revert s. induction p as [|a p IH]; intros s; simpl; [naive_solver|].
  destruct s as [|b s]; [naive_solver|]. case_bool_decide as E.
  - subst b. rewrite IH. split; [by intros ->|by intros [= ->]].
  - split; [done|]. intros [= ? ?]. congruence.
Qed.

(** The names that carry a node identity. *)
Definition node_uri (id : string) : GeneralName := GenUri (uri_prefix +:+ id).

(** A name of the prefix, or an empty URI. *)
Definition names_node (name : GeneralName) : Prop :=
  name = GenUri "" \/ exists id, name = node_uri id.

Lemma node_id_loop_spec names : forall identity id, node_id_loop names identity = Some id ->
  (identity = Some id /\ Forall (fun name => ~ names_node name) names) \/
  (identity = None /\ valid_id id = true /\
   exists l1 l2, names = (l1 ++ node_uri id :: l2)%list /\
     Forall (fun name => ~ names_node name) l1 /\ Forall (fun name => ~ names_node name) l2).
Proof.
  induction names as [|name rest IH]; intros identity id; cbn [node_id_loop]; [intros ->; by left|].
  assert (forall n, ~ names_node n -> node_id_loop rest identity = Some id ->
    (identity = Some id /\ Forall (fun name => ~ names_node name) (n :: rest)) \/
    (identity = None /\ valid_id id = true /\
     exists l1 l2, (n :: rest) = (l1 ++ node_uri id :: l2)%list /\
       Forall (fun name => ~ names_node name) l1 /\ Forall (fun name => ~ names_node name) l2)) as Hskip.
  { intros n Hn H. destruct (IH _ _ H) as [[-> Hall]|(-> & Hv & l1 & l2 & -> & H1 & H2)]; [left|right].
    - split; [done|]. by constructor.
    - split; [done|]. split; [done|]. exists (n :: l1), l2. split; [done|]. split; [by constructor|done]. }
  destruct name as [value|]; [|apply Hskip; intros [|[? ?]]; done].
  case_bool_decide as Hempty; [done|].
  destruct (after_prefix uri_prefix value) as [found|] eqn:Ea.
  2: { apply Hskip. intros [Hn|[x Hn]]; [by injection Hn|]. injection Hn as Hn.
       apply (after_prefix_app uri_prefix value x) in Hn. congruence. }
  apply after_prefix_app in Ea as ->. destruct identity as [i|]; [done|]. cbn [is_some orb].
  destruct (parse_id found) as [ok|] eqn:Ep; [|done]. apply parse_id_ok in Ep as [_ Hv]. cbn [is_ok negb].
  intros H. destruct (IH _ _ H) as [[Hs Hall]|[? _]]; [|done]. injection Hs as ->.
  right. split; [done|]. split; [done|]. exists [], rest. split; [done|]. split; [constructor|done].
Qed.

(** The identity of a certificate is that of its only name with the prefix. *)
Lemma certificate_node_id_spec c id : certificate_node_id c = Some id ->
  valid_id id = true /\
  exists l1 l2, ct_names c = Some (l1 ++ node_uri id :: l2)%list /\
    Forall (fun name => ~ names_node name) l1 /\ Forall (fun name => ~ names_node name) l2.
Proof.
  unfold certificate_node_id. intros H. destruct (ct_names c) as [names|]; [|done].
  apply node_id_loop_spec in H as [[? _]|(_ & Hv & l1 & l2 & -> & H1 & H2)]; [done|]. eauto 10.
Qed.

(** What the callback accepts, and what it then records. *)
Lemma verify_records check config expected before verified :
  verify_peer_certificate check config expected before = (true, verified) ->
  verified = before \/
  (ck_preverified check = true /\ ck_depth check = 0 /\ peer_purpose (ck_certificate check) = true /\ certificate_node_id (ck_certificate check) = Some verified /\
   is_configured_peer config verified = true /\ (expected <> "" -> verified = expected)).
Proof.
  unfold verify_peer_certificate. destruct (ck_preverified check); [simpl|done].
  destruct (Z.eqb_spec (ck_depth check) 0); [simpl|intros [= ->]; by left].
  destruct (peer_purpose _) eqn:Ep; [simpl|done].
  destruct (certificate_node_id _) as [id|] eqn:Ei; [|done].
  case_bool_decide as He; simpl.
  - destruct (is_configured_peer config id) eqn:Ec; [|done]. intros [= <-]. right. done.
  - case_bool_decide as Hi; [simpl|done]. destruct (is_configured_peer config id) eqn:Ec; [|done].
    intros [= <-]. right. done.
Qed.

Lemma verify_refuses check config expected before verified :
  verify_peer_certificate check config expected before = (false, verified) -> verified = before.
Proof. unfold verify_peer_certificate. repeat case_goal; congruence. Qed.
