(* ===== verification/NodeServer.v ===== *)
(** * The node server

    [network/node_server.cpp] and the certificate check of
    [network/peer_tls.cpp]. One thread runs the handlers one after the other;
    an event of the network library (a connection, the end of a read or of a
    write, a timer) runs one handler to its end. Sessions are objects with an
    address, which is also that of their outgoing queue. A handler that throws
    is [None]. The replica is any instance of [RuntimeOps]. *)

From S2P Require Import Prelude Text Types Model EventCodec Machine Bytes Transaction SnapshotFile FileEngine OutboundQueue PendingRequests Frame Messages MessageCodec Config PeerTls FileEngineAdapter RuntimeHost ReplicaTypes RuntimeReplica.

Definition kMaxSessions : nat := 128.
Definition kMaxClientSessions : nat := 96.
Definition kMaxSessionWaiters : Z := 64.

(** ** Data *)

Record TransportMetrics := mkTransport {
  tm_frames_sent : Z;
  tm_frames_received : Z;
  tm_malformed : Z;
  tm_rejected : Z;
  tm_dropped : Z;
  tm_reconnects : Z;
}.

Definition no_transport : TransportMetrics := mkTransport 0 0 0 0 0 0.

Definition count_frames_sent (m : TransportMetrics) : TransportMetrics :=
  mkTransport (wrap64 (tm_frames_sent m + 1)) (tm_frames_received m) (tm_malformed m) (tm_rejected m) (tm_dropped m) (tm_reconnects m).

Definition count_frames_received (m : TransportMetrics) : TransportMetrics :=
  mkTransport (tm_frames_sent m) (wrap64 (tm_frames_received m + 1)) (tm_malformed m) (tm_rejected m) (tm_dropped m) (tm_reconnects m).

Definition count_malformed (m : TransportMetrics) : TransportMetrics :=
  mkTransport (tm_frames_sent m) (tm_frames_received m) (wrap64 (tm_malformed m + 1)) (tm_rejected m) (tm_dropped m) (tm_reconnects m).

Definition count_rejected (m : TransportMetrics) : TransportMetrics :=
  mkTransport (tm_frames_sent m) (tm_frames_received m) (tm_malformed m) (wrap64 (tm_rejected m + 1)) (tm_dropped m) (tm_reconnects m).

Definition count_dropped (m : TransportMetrics) : TransportMetrics :=
  mkTransport (tm_frames_sent m) (tm_frames_received m) (tm_malformed m) (tm_rejected m) (wrap64 (tm_dropped m + 1)) (tm_reconnects m).

Definition count_reconnects (m : TransportMetrics) : TransportMetrics :=
  mkTransport (tm_frames_sent m) (tm_frames_received m) (tm_malformed m) (tm_rejected m) (tm_dropped m) (wrap64 (tm_reconnects m + 1)).

(** The read in progress: the header, or the body after a header. *)
Inductive ReadStage :=
| NotReading
| ReadingHeader
| ReadingBody (header : list Z) (size : nat).

Record Session := mkSession {
  se_peer_id : string;
  se_expected_peer : string;
  se_verified_peer : string;
  se_tls : bool;
  se_waiters : Z;
  se_client_admitted : bool;
  se_stage : ReadStage;
  se_in_flight : list nat;
  se_writing : bool;
  se_ready : bool;
  se_handshaking : bool;
  se_closed : bool;
  se_dial_pending : bool;
}.

Definition session_peer_id (v : string) (s : Session) : Session :=
  mkSession v (se_expected_peer s) (se_verified_peer s) (se_tls s) (se_waiters s) (se_client_admitted s)
    (se_stage s) (se_in_flight s) (se_writing s) (se_ready s) (se_handshaking s) (se_closed s)
    (se_dial_pending s).

Definition session_verified_peer (v : string) (s : Session) : Session :=
  mkSession (se_peer_id s) (se_expected_peer s) v (se_tls s) (se_waiters s) (se_client_admitted s)
    (se_stage s) (se_in_flight s) (se_writing s) (se_ready s) (se_handshaking s) (se_closed s)
    (se_dial_pending s).

Definition session_waiters (v : Z) (s : Session) : Session :=
  mkSession (se_peer_id s) (se_expected_peer s) (se_verified_peer s) (se_tls s) v (se_client_admitted s)
    (se_stage s) (se_in_flight s) (se_writing s) (se_ready s) (se_handshaking s) (se_closed s)
    (se_dial_pending s).

Definition session_client_admitted (v : bool) (s : Session) : Session :=
  mkSession (se_peer_id s) (se_expected_peer s) (se_verified_peer s) (se_tls s) (se_waiters s) v
    (se_stage s) (se_in_flight s) (se_writing s) (se_ready s) (se_handshaking s) (se_closed s)
    (se_dial_pending s).

Definition session_stage (v : ReadStage) (s : Session) : Session :=
  mkSession (se_peer_id s) (se_expected_peer s) (se_verified_peer s) (se_tls s) (se_waiters s)
    (se_client_admitted s) v (se_in_flight s) (se_writing s) (se_ready s) (se_handshaking s)
    (se_closed s) (se_dial_pending s).

Definition session_in_flight (v : list nat) (s : Session) : Session :=
  mkSession (se_peer_id s) (se_expected_peer s) (se_verified_peer s) (se_tls s) (se_waiters s)
    (se_client_admitted s) (se_stage s) v (se_writing s) (se_ready s) (se_handshaking s) (se_closed s)
    (se_dial_pending s).

Definition session_writing (v : bool) (s : Session) : Session :=
  mkSession (se_peer_id s) (se_expected_peer s) (se_verified_peer s) (se_tls s) (se_waiters s)
    (se_client_admitted s) (se_stage s) (se_in_flight s) v (se_ready s) (se_handshaking s) (se_closed s)
    (se_dial_pending s).

Definition session_ready (v : bool) (s : Session) : Session :=
  mkSession (se_peer_id s) (se_expected_peer s) (se_verified_peer s) (se_tls s) (se_waiters s)
    (se_client_admitted s) (se_stage s) (se_in_flight s) (se_writing s) v (se_handshaking s)
    (se_closed s) (se_dial_pending s).

Definition session_handshaking (v : bool) (s : Session) : Session :=
  mkSession (se_peer_id s) (se_expected_peer s) (se_verified_peer s) (se_tls s) (se_waiters s)
    (se_client_admitted s) (se_stage s) (se_in_flight s) (se_writing s) (se_ready s) v (se_closed s)
    (se_dial_pending s).

Definition session_closed (v : bool) (s : Session) : Session :=
  mkSession (se_peer_id s) (se_expected_peer s) (se_verified_peer s) (se_tls s) (se_waiters s)
    (se_client_admitted s) (se_stage s) (se_in_flight s) (se_writing s) (se_ready s) (se_handshaking s) v
    (se_dial_pending s).

Definition session_dial_pending (v : bool) (s : Session) : Session :=
  mkSession (se_peer_id s) (se_expected_peer s) (se_verified_peer s) (se_tls s) (se_waiters s)
    (se_client_admitted s) (se_stage s) (se_in_flight s) (se_writing s) (se_ready s) (se_handshaking s)
    (se_closed s) v.

(** A client that waits for a commit; its timer is the event of its id. *)
Record Pending := mkWaiter {
  wt_command_id : string;
  wt_event : option Event;
  wt_duplicate : bool;
  wt_session : nat;
  wt_correlation : Z;
}.

Definition DelayedKey : Type := string * Z * Z.

(** What the timer of a delayed frame holds: the queue that reserves its bytes,
    and the frame. *)
Record DelayedSend := mkDelayedSend { ds_queue : nat; ds_peer : string; ds_bytes : string }.

Section Server.
Context {R E : Type} `{!RuntimeOps R E}.

(** [sv_heap]: all session objects. [sv_connecting]: connection attempts.
    [sv_delivered]: the calls of the replica's [handle], with the session. *)
Record Server := mkServer {
  sv_config : NodeConfig;
  sv_replica : R;
  sv_metrics : TransportMetrics;
  sv_world : World;
  sv_heap : gmap nat Session;
  sv_sessions : list nat;
  sv_dialing : gset string;
  sv_connecting : list PeerEndpoint;
  sv_blocked : gset string;
  sv_delayed : gmap string Z;
  sv_delayed_sends : gmap DelayedKey DelayedSend;
  sv_paused : bool;
  sv_cached_hash : string;
  sv_cached_state : string;
  sv_pending : PendingRequests Pending;
  sv_next : nat;
  sv_delivered : list (nat * string * Frame);
}.

Definition server_replica (v : R) (sv : Server) : Server :=
  mkServer (sv_config sv) v (sv_metrics sv) (sv_world sv) (sv_heap sv) (sv_sessions sv) (sv_dialing sv)
    (sv_connecting sv) (sv_blocked sv) (sv_delayed sv) (sv_delayed_sends sv) (sv_paused sv)
    (sv_cached_hash sv) (sv_cached_state sv) (sv_pending sv) (sv_next sv) (sv_delivered sv).

Definition server_metrics (v : TransportMetrics) (sv : Server) : Server :=
  mkServer (sv_config sv) (sv_replica sv) v (sv_world sv) (sv_heap sv) (sv_sessions sv) (sv_dialing sv)
    (sv_connecting sv) (sv_blocked sv) (sv_delayed sv) (sv_delayed_sends sv) (sv_paused sv)
    (sv_cached_hash sv) (sv_cached_state sv) (sv_pending sv) (sv_next sv) (sv_delivered sv).

Definition server_world (v : World) (sv : Server) : Server :=
  mkServer (sv_config sv) (sv_replica sv) (sv_metrics sv) v (sv_heap sv) (sv_sessions sv) (sv_dialing sv)
    (sv_connecting sv) (sv_blocked sv) (sv_delayed sv) (sv_delayed_sends sv) (sv_paused sv)
    (sv_cached_hash sv) (sv_cached_state sv) (sv_pending sv) (sv_next sv) (sv_delivered sv).

Definition server_heap (v : gmap nat Session) (sv : Server) : Server :=
  mkServer (sv_config sv) (sv_replica sv) (sv_metrics sv) (sv_world sv) v (sv_sessions sv)
    (sv_dialing sv) (sv_connecting sv) (sv_blocked sv) (sv_delayed sv) (sv_delayed_sends sv)
    (sv_paused sv) (sv_cached_hash sv) (sv_cached_state sv) (sv_pending sv) (sv_next sv)
    (sv_delivered sv).

Definition server_sessions (v : list nat) (sv : Server) : Server :=
  mkServer (sv_config sv) (sv_replica sv) (sv_metrics sv) (sv_world sv) (sv_heap sv) v (sv_dialing sv)
    (sv_connecting sv) (sv_blocked sv) (sv_delayed sv) (sv_delayed_sends sv) (sv_paused sv)
    (sv_cached_hash sv) (sv_cached_state sv) (sv_pending sv) (sv_next sv) (sv_delivered sv).

Definition server_dialing (v : gset string) (sv : Server) : Server :=
  mkServer (sv_config sv) (sv_replica sv) (sv_metrics sv) (sv_world sv) (sv_heap sv) (sv_sessions sv) v
    (sv_connecting sv) (sv_blocked sv) (sv_delayed sv) (sv_delayed_sends sv) (sv_paused sv)
    (sv_cached_hash sv) (sv_cached_state sv) (sv_pending sv) (sv_next sv) (sv_delivered sv).

Definition server_connecting (v : list PeerEndpoint) (sv : Server) : Server :=
  mkServer (sv_config sv) (sv_replica sv) (sv_metrics sv) (sv_world sv) (sv_heap sv) (sv_sessions sv)
    (sv_dialing sv) v (sv_blocked sv) (sv_delayed sv) (sv_delayed_sends sv) (sv_paused sv)
    (sv_cached_hash sv) (sv_cached_state sv) (sv_pending sv) (sv_next sv) (sv_delivered sv).

Definition server_blocked (v : gset string) (sv : Server) : Server :=
  mkServer (sv_config sv) (sv_replica sv) (sv_metrics sv) (sv_world sv) (sv_heap sv) (sv_sessions sv)
    (sv_dialing sv) (sv_connecting sv) v (sv_delayed sv) (sv_delayed_sends sv) (sv_paused sv)
    (sv_cached_hash sv) (sv_cached_state sv) (sv_pending sv) (sv_next sv) (sv_delivered sv).

Definition server_delayed (v : gmap string Z) (sv : Server) : Server :=
  mkServer (sv_config sv) (sv_replica sv) (sv_metrics sv) (sv_world sv) (sv_heap sv) (sv_sessions sv)
    (sv_dialing sv) (sv_connecting sv) (sv_blocked sv) v (sv_delayed_sends sv) (sv_paused sv)
    (sv_cached_hash sv) (sv_cached_state sv) (sv_pending sv) (sv_next sv) (sv_delivered sv).

Definition server_delayed_sends (v : gmap DelayedKey DelayedSend) (sv : Server) : Server :=
  mkServer (sv_config sv) (sv_replica sv) (sv_metrics sv) (sv_world sv) (sv_heap sv) (sv_sessions sv)
    (sv_dialing sv) (sv_connecting sv) (sv_blocked sv) (sv_delayed sv) v (sv_paused sv)
    (sv_cached_hash sv) (sv_cached_state sv) (sv_pending sv) (sv_next sv) (sv_delivered sv).

Definition server_paused (v : bool) (sv : Server) : Server :=
  mkServer (sv_config sv) (sv_replica sv) (sv_metrics sv) (sv_world sv) (sv_heap sv) (sv_sessions sv)
    (sv_dialing sv) (sv_connecting sv) (sv_blocked sv) (sv_delayed sv) (sv_delayed_sends sv) v
    (sv_cached_hash sv) (sv_cached_state sv) (sv_pending sv) (sv_next sv) (sv_delivered sv).

Definition server_cached_hash (v : string) (sv : Server) : Server :=
  mkServer (sv_config sv) (sv_replica sv) (sv_metrics sv) (sv_world sv) (sv_heap sv) (sv_sessions sv)
    (sv_dialing sv) (sv_connecting sv) (sv_blocked sv) (sv_delayed sv) (sv_delayed_sends sv)
    (sv_paused sv) v (sv_cached_state sv) (sv_pending sv) (sv_next sv) (sv_delivered sv).

Definition server_cached_state (v : string) (sv : Server) : Server :=
  mkServer (sv_config sv) (sv_replica sv) (sv_metrics sv) (sv_world sv) (sv_heap sv) (sv_sessions sv)
    (sv_dialing sv) (sv_connecting sv) (sv_blocked sv) (sv_delayed sv) (sv_delayed_sends sv)
    (sv_paused sv) (sv_cached_hash sv) v (sv_pending sv) (sv_next sv) (sv_delivered sv).

Definition server_pending (v : PendingRequests Pending) (sv : Server) : Server :=
  mkServer (sv_config sv) (sv_replica sv) (sv_metrics sv) (sv_world sv) (sv_heap sv) (sv_sessions sv)
    (sv_dialing sv) (sv_connecting sv) (sv_blocked sv) (sv_delayed sv) (sv_delayed_sends sv)
    (sv_paused sv) (sv_cached_hash sv) (sv_cached_state sv) v (sv_next sv) (sv_delivered sv).

Definition server_next (v : nat) (sv : Server) : Server :=
  mkServer (sv_config sv) (sv_replica sv) (sv_metrics sv) (sv_world sv) (sv_heap sv) (sv_sessions sv)
    (sv_dialing sv) (sv_connecting sv) (sv_blocked sv) (sv_delayed sv) (sv_delayed_sends sv)
    (sv_paused sv) (sv_cached_hash sv) (sv_cached_state sv) (sv_pending sv) v (sv_delivered sv).

Definition server_delivered (v : list (nat * string * Frame)) (sv : Server) : Server :=
  mkServer (sv_config sv) (sv_replica sv) (sv_metrics sv) (sv_world sv) (sv_heap sv) (sv_sessions sv)
    (sv_dialing sv) (sv_connecting sv) (sv_blocked sv) (sv_delayed sv) (sv_delayed_sends sv)
    (sv_paused sv) (sv_cached_hash sv) (sv_cached_state sv) (sv_pending sv) (sv_next sv) v.

(** ** The monad *)

Definition V (A : Type) : Type := Server -> option (Server * A).

#[export] Instance V_ret : MRet V := fun A a sv => Some (sv, a).
#[export] Instance V_bind : MBind V := fun A B k m sv =>
  match m sv with Some (sv', a) => k a sv' | None => None end.

Definition get : V Server := fun sv => Some (sv, sv).

Definition update (f : Server -> Server) : V unit := fun sv => Some (f sv, tt).

Definition skip : V unit := mret tt.

Definition throw {A} : V A := fun _ => None.

Definition of_option {A} (o : option A) : V A := match o with Some a => mret a | None => throw end.

Definition whenV (b : bool) (m : V unit) : V unit := if b then m else skip.

Fixpoint for_each {A} (l : list A) (body : A -> V unit) : V unit :=
  match l with
  | [] => skip
  | a :: rest => body a;; for_each rest body
  end.

Definition count (f : TransportMetrics -> TransportMetrics) : V unit :=
  update (fun sv => server_metrics (f (sv_metrics sv)) sv).

(** A session object. *)
Definition with_session (s : nat) (body : Session -> V unit) : V unit :=
  sv ← get;
  match sv_heap sv !! s with Some session => body session | None => skip end.

Definition set_session (s : nat) (f : Session -> Session) : V unit :=
  update (fun sv => server_heap (alter f s (sv_heap sv)) sv).

(** ** One handler

    [ev_local]: the other end of the session is a loopback address.
    [ev_close_failed]: closing the socket of a session fails.
    [ev_socket_failed]: closing or cancelling a socket of no session fails. *)
Record HandlerEnv := mkHandlerEnv {
  ev_replica : E;
  ev_local : bool;
  ev_close_failed : nat -> bool;
  ev_socket_failed : bool;
}.

Section Handlers.
Context (make_address : string -> option bool) (env : HandlerEnv).

(** [Session::close] *)
Definition close_socket (s : nat) : V unit := whenV (ev_close_failed env s) (count count_dropped).

Definition waits_on (s : nat) (waiter : Pending) : bool := bool_decide (wt_session waiter = s).

Definition retire (s : nat) : V unit :=
  with_session s (fun session =>
    if se_closed session then skip
    else
      set_session s (session_closed true);;
      update (fun sv => server_world (clear_queue (sv_world sv) s) sv);;
      update (fun sv => server_pending (snd (remove_if (sv_pending sv) (waits_on s))) sv);;
      set_session s (session_waiters 0);;
      whenV (se_dial_pending session)
        (update (fun sv => server_dialing (sv_dialing sv ∖ {[se_expected_peer session]}) sv);;
         set_session s (session_dial_pending false));;
      update (fun sv => server_sessions (filter (fun x => x <> s) (sv_sessions sv)) sv);;
      close_socket s).

(** The front of the queue is handed to the socket. *)
Definition write_next (s : nat) : V unit :=
  sv ← get;
  match wd_queues (sv_world sv) !! s with
  | Some (mkQueue _ (f :: _)) =>
      set_session s (session_writing true);;
      update (fun sv => server_world (start_write (sv_world sv) s) sv);;
      with_session s (fun session => set_session s (session_in_flight (se_in_flight session ++ [fm_bytes f])))
  | _ => set_session s (session_writing false)
  end.

Definition retry_key (bytes : string) : option RetryKey :=
  match peek_header (bytes_of bytes) with
  | Ok header =>
      if (fh_type header =? tAppendEntries) || (fh_type header =? tInstallSnapshot)
      then Some (fh_type header, fh_correlation header) else None
  | Err _ => None
  end.

Definition send_bytes (s : nat) (bytes : string) : V unit :=
  with_session s (fun session =>
    if se_closed session then skip
    else
      sv ← get;
      let '(pushed, world) :=
        push (sv_world sv) s bytes (negb (bool_decide (se_peer_id session = "")) || se_tls session) (retry_key bytes) in
      update (server_world world);;
      if negb pushed then count count_dropped;; retire s
      else whenV (se_ready session && negb (se_writing session)) (write_next s)).

Definition too_large : ProtoError :=
  mkProtoError "ResponseTooLarge" "response exceeds frame limit; use a paginated query".

Definition send_frame (s : nat) (frame : Frame) : V unit :=
  match encode_frame frame with
  | Ok bytes => send_bytes s (string_of bytes)
  | Err _ =>
      match encode_protocol_error too_large with
      | Err _ => retire s
      | Ok payload =>
          match encode_frame (mkFrame tProtocolError (fr_correlation frame) payload) with
          | Ok bytes => send_bytes s (string_of bytes)
          | Err _ => retire s
          end
      end
  end.

(** A message as a frame of its own, unless it cannot be encoded. *)
Definition send_message (s : nat) (type correlation : Z) (encoded : result Error (list Z)) : V unit :=
  match encoded with
  | Ok payload => send_frame s (mkFrame type correlation payload)
  | Err _ => skip
  end.

Definition send_hello (s : nat) : V unit :=
  sv ← get;
  match encode_handshake (mkHandshake (nc_id (sv_config sv)) kProtocolMajor kProtocolMinor) with
  | Err _ => retire s
  | Ok payload =>
      match encode_frame (mkFrame tHandshake 0 payload) with
      | Err _ => retire s
      | Ok bytes => send_bytes s (string_of bytes)
      end
  end.

Definition read_header (s : nat) : V unit :=
  with_session s (fun session => whenV (negb (se_closed session)) (set_session s (session_stage ReadingHeader))).

(** [Session::start] *)
Definition start_session (s : nat) (outbound : bool) : V unit :=
  with_session s (fun session =>
    if negb (se_tls session) then
      set_session s (session_ready true);; read_header s;; whenV outbound (send_hello s)
    else set_session s (session_handshaking true)).

(** [std::make_shared<Session>(...)], added to the sessions. *)
Definition new_session (remote_id : string) (encrypted : bool) : V nat :=
  sv ← get;
  let s := sv_next sv in
  let session := mkSession (if encrypted then "" else remote_id) remote_id "" encrypted 0 false NotReading
                   [] false false false false (encrypted && negb (bool_decide (remote_id = ""))) in
  update (server_next (S s));;
  update (fun sv => server_heap (<[s := session]> (sv_heap sv)) sv);;
  update (fun sv => server_world (new_queue (sv_world sv) s) sv);;
  update (fun sv => server_sessions (sv_sessions sv ++ [s]) sv);;
  mret s.

(** ** Frames of the replica *)

Definition unreachable (sv : Server) (peer : string) : bool := sv_paused sv || bool_decide (peer ∈ sv_blocked sv).

(** The first ready session of the peer. *)
Definition peer_session (sv : Server) (peer : string) : option nat :=
  List.find (fun s =>
    match sv_heap sv !! s with
    | Some session => se_ready session && negb (se_closed session) && bool_decide (se_peer_id session = peer)
    | None => false
    end) (sv_sessions sv).

(** [send_encoded] of [send_to] *)
Definition send_now_to (peer bytes : string) : V unit :=
  sv ← get;
  if unreachable sv peer then count count_dropped
  else match peer_session sv peer with
       | Some s => send_bytes s bytes
       | None => count count_dropped
       end.

Definition delay_send (key : DelayedKey) (peer bytes : string) : V unit :=
  sv ← get;
  if bool_decide (is_Some (sv_delayed_sends sv !! key)) then skip
  else
    let q := sv_next sv in
    let '(pushed, world) := push (new_queue (sv_world sv) q) q bytes true None in
    if Nat.leb kMaxSessions (size (sv_delayed_sends sv)) then count count_dropped
    else if negb pushed then count count_dropped
    else
      update (server_next (S q));;
      update (server_world world);;
      update (fun sv => server_delayed_sends (<[key := mkDelayedSend q peer bytes]> (sv_delayed_sends sv)) sv).

Definition send_to (peer : string) (frame : Frame) : V unit :=
  sv ← get;
  if unreachable sv peer then count count_dropped
  else
    match encode_frame frame with
    | Err _ => count count_dropped
    | Ok bytes =>
        match sv_delayed sv !! peer with
        | Some ms =>
            if negb (ms =? 0) then delay_send (peer, fr_type frame, fr_correlation frame) peer (string_of bytes)
            else send_now_to peer (string_of bytes)
        | None => send_now_to peer (string_of bytes)
        end
    end.

(** The timer of a delayed frame. *)
Definition delay_over (key : DelayedKey) : V unit :=
  sv ← get;
  match sv_delayed_sends sv !! key with
  | None => skip
  | Some d =>
      update (server_delayed_sends (delete key (sv_delayed_sends sv)));;
      update (fun sv => server_world (end_session (sv_world sv) (ds_queue d)) sv);;
      send_now_to (ds_peer d) (ds_bytes d)
  end.

(** ** Answers *)

Definition error_response (e : Error) (leader : string) : ClientResponse :=
  mkClientResponse false false (error_code_name (err_code e)) (err_message e) leader 0 "" "".

Definition result_response (result : EnqueueResult) (hash : string) : ClientResponse :=
  mkClientResponse true (eq_duplicate result) "" "" (eq_leader_id result) (ev_index (eq_event result))
    (canonical_event (eq_event result)) hash.

Definition unavailable (why leader : string) : ClientResponse :=
  mkClientResponse false false "Unavailable" why leader 0 "" "".

(** The event that the receipt of the command records. *)
Definition answered (store : FileEngine) (waiter : Pending) : option Event :=
  match wt_event waiter, s_receipts (en_state (fe_engine store)) !! wt_command_id waiter with
  | Some event, Some receipt =>
      if (rc_index receipt =? ev_index event) && (rc_term receipt =? ev_term event) then Some event else None
  | _, _ => None
  end.

Definition complete_waiter (store : FileEngine) (leader : string) (waiter : Pending) : V unit :=
  let s := wt_session waiter in
  with_session s (fun session =>
    if se_closed session then skip
    else
      set_session s (session_waiters (wrap64 (se_waiters session - 1)));;
      match answered store waiter with
      | None => retire s
      | Some event =>
          let result := mkEnqueueResult event (wt_duplicate waiter) true leader in
          send_message s tClientResponse (wt_correlation waiter)
            (encode_client_response (result_response result (rp_state_hash (fe_report store))))
      end).

(** [complete_waiters], with what it reads of the replica. *)
Definition complete_waiters (store : FileEngine) (leader : string) : V unit :=
  sv ← get;
  let '(ready, pending) := take_through (sv_pending sv) (fe_commit store) in
  update (server_pending pending);;
  for_each ready (complete_waiter store leader).

(** The callbacks of a method of the replica. *)
Definition run_call (call : Call) : V unit :=
  match call with
  | Sent peer frame => send_to peer frame
  | Committed store leader => store ← of_option store; complete_waiters store leader
  end.

Definition leader_contact (sv : Server) : string :=
  let id := rr_leader_id (sv_replica sv) in
  let config := sv_config sv in
  let contact id host port := id +:+ "@" +:+ host +:+ ":" +:+ print_u port in
  if bool_decide (id = "") then ""
  else if bool_decide (id = nc_id config) then contact id (nc_host config) (nc_port config)
  else match List.find (fun peer => bool_decide (ep_id peer = id)) (nc_peers config) with
       | Some peer => contact (ep_id peer) (ep_host peer) (ep_port peer)
       | None => id
       end.

(** ** Clients *)

Definition status_response (status : NodeStatus) : StatusResponse :=
  mkStatusResponse (ns_node_id status) (ns_leader_id status) (ns_role status) (ns_term status)
    (ns_commit_index status) (ns_last_log_index status) (ns_state_hash status) (ns_canonical_state status).

(** A command that decodes, within the limits of waiting requests. *)
Definition submit_command (s : nat) (correlation : Z) (command : Command) : V unit :=
  let reply response := send_message s tClientResponse correlation (encode_client_response response) in
  sv ← get;
  '(calls, replica, queued) ← of_option (rr_enqueue (ev_replica env) command (sv_replica sv));
  update (server_replica replica);;
  for_each calls run_call;;
  sv ← get;
  match queued with
  | Err e =>
      let response := error_response e (rr_leader_id (sv_replica sv)) in
      reply (if bool_decide (err_code e = NotLeaderError) && negb (bool_decide (leader_contact sv = ""))
             then mkClientResponse false false (cr_error_code response) ("leader is " +:+ leader_contact sv)
                    (cr_leader_id response) 0 "" ""
             else response)
  | Ok result =>
      if eq_committed result then
        store ← of_option (rr_store (sv_replica sv));
        reply (result_response result (rp_state_hash (fe_report store)))
      else
        with_session s (fun session => set_session s (session_waiters (wrap64 (se_waiters session + 1))));;
        update (fun sv => server_pending (snd (add (sv_pending sv) (ev_index (eq_event result))
          (mkWaiter (c_id command) (Some (eq_event result)) (eq_duplicate result) s correlation))) sv)
  end.

Definition on_client (s : nat) (frame : Frame) : V unit :=
  let correlation := fr_correlation frame in
  let reply response := send_message s tClientResponse correlation (encode_client_response response) in
  sv ← get;
  if fr_type frame =? tStatusQuery then
    status ← of_option (rr_status (sv_replica sv));
    send_message s tStatusResponse correlation (encode_status_response (status_response status))
  else
    match decode_client_command (fr_payload frame) with
    | Err e => reply (error_response e (nc_leader_id (sv_config sv)))
    | Ok message =>
        match parse_command (cc_canonical message) with
        | Err e => reply (error_response e (nc_leader_id (sv_config sv)))
        | Ok command =>
            with_session s (fun session =>
              if full (sv_pending sv) || (kMaxSessionWaiters <=? se_waiters session)
              then reply (unavailable "pending request capacity reached; retry the same operation ID" "")
              else submit_command s correlation command)
        end
    end.

(** The timer of a waiting request. *)
Definition request_timeout (id : Z) : V unit :=
  sv ← get;
  let '(removed, pending) := take_request (sv_pending sv) id in
  match removed with
  | None => skip
  | Some item =>
      let s := wt_session item in
      update (server_pending pending);;
      with_session s (fun session => set_session s (session_waiters (wrap64 (se_waiters session - 1))));;
      send_message s tClientResponse (wt_correlation item)
        (encode_client_response (unavailable "majority did not acknowledge the command; outcome unknown"
           (rr_leader_id (sv_replica sv))))
  end.

(** ** Management *)

Definition refused_reply (code message : string) : ManagementReply :=
  mkManagementReply code message [] 0 false 0 0 0 0 0 0 0 0 0 0 "" "" "" 0.

(** A page of the canonical state; [page_size] is in KiB. *)
Definition state_page (state hash : string) (commit : Z) (query : ManagementQuery) : ManagementReply :=
  let offset := mq_after_index query in
  let size := text_size state in
  if size <? offset
  then mkManagementReply "InvalidCursor" "state byte cursor exceeds state size" [] 0 false 0 0 0 0 0 0 0 0 0
         commit hash "" "" size
  else
    let kib := if mq_page_size query =? 0 then 64 else Z.min (mq_page_size query) 64 in
    let chunk := substr state offset (kib * 1024) in
    let next := wrap64 (offset + text_size chunk) in
    mkManagementReply "" "" [] next (next <? size) 0 0 0 0 0 0 0 0 0 commit hash "" chunk size.

Definition state_refused (hash : string) (query : ManagementQuery) : bool :=
  (negb (mq_after_index query =? 0) && bool_decide (mq_expected_state_hash query = "")) ||
  (negb (bool_decide (mq_expected_state_hash query = "")) && negb (bool_decide (mq_expected_state_hash query = hash))).

Definition kMaxEventPageBytes : Z := kMaxFramePayload - 4096.

(** The loop over the log; [events], [bytes] and [next] are those of the page. *)
Fixpoint events_loop (log : list Event) (committed limit : Z) (events : list string) (bytes next : Z)
    : ManagementReply :=
  let page more := mkManagementReply "" "" events next more 0 0 0 0 0 0 0 0 0 0 "" "" "" 0 in
  match log with
  | [] => page false
  | event :: rest =>
      if committed <? ev_index event then page false
      else
        let canonical := canonical_event event in
        if kMaxEventPageBytes <? text_size canonical
        then mkManagementReply "EventTooLarge" "committed event exceeds the management page limit" [] next false
               0 0 0 0 0 0 0 0 0 0 "" "" "" 0
        else if (Z.of_nat (length events) =? limit) || (wrap64 (kMaxEventPageBytes - bytes) <? text_size canonical)
        then page true
        else events_loop rest committed limit (events ++ [canonical]) (wrap64 (bytes + text_size canonical))
               (ev_index event)
  end.

(** How many records of the log the page skips. *)
Definition page_offset (log : list Event) (after : Z) : nat :=
  match log with
  | [] => 0
  | front :: _ =>
      if after <? ev_index front then 0
      else
        let distance := wrap64 (after - ev_index front + 1) in
        if Z.of_nat (length log) <=? distance then length log else Z.to_nat distance
  end.

Definition events_page (log : list Event) (committed first : Z) (query : ManagementQuery) : ManagementReply :=
  let after := mq_after_index query in
  let limit := if mq_page_size query =? 0 then 64 else mq_page_size query in
  if (1 <? first) && (after <? first - 1)
  then mkManagementReply "Compacted" "requested event range has been compacted; bootstrap from snapshot" []
         after false 0 0 0 0 0 0 0 0 0 0 "" "" "" 0
  else events_loop (drop (page_offset log after) log) committed limit [] 0 after.

Definition metrics_reply (sv : Server) : ManagementReply :=
  let consensus := rr_metrics (sv_replica sv) in
  let transport := sv_metrics sv in
  mkManagementReply "" "" [] 0 false (cm_role_changes consensus) (cm_elections_started consensus)
    (cm_votes_granted consensus) (cm_step_downs consensus) (cm_messages_dropped_oversize consensus)
    (cm_snapshot_chunks_sent consensus) (tm_frames_sent transport) (tm_frames_received transport)
    (tm_dropped transport) 0 "" "" "" 0.

Definition recovery_reply (sv : Server) (store : FileEngine) : ManagementReply :=
  let report := fe_report store in
  let description :=
    "used_snapshot=" +:+ (if rp_used_snapshot report then "1" else "0") +:+
    " replayed_after_snapshot=" +:+ print_u (rp_replayed report) +:+
    " truncated_tail_bytes=" +:+ print_u (rp_truncated report) +:+
    " commit_index=" +:+ print_u (fe_commit store) +:+
    " consensus_engine=" +:+ rr_engine_name (sv_replica sv) +:+
    " halt_reason=" +:+ substr (rr_failure_reason (sv_replica sv)) 0 512 in
  let '(index, hash) :=
    match fe_snapshot store with
    | Some snapshot => (sp_index snapshot, sp_hash snapshot)
    | None => (rp_snapshot_index report, "")
    end in
  mkManagementReply "" "" [] 0 false 0 0 0 0 0 0 0 0 0 index hash description "" 0.

Definition is_fault (operation : string) : bool :=
  bool_decide (operation = "drop_peer") || bool_decide (operation = "delay_peer") || bool_decide (operation = "heal") ||
  bool_decide (operation = "pause") || bool_decide (operation = "resume").

(** The sessions of a dropped peer are closed, not retired. *)
Definition close_sessions (peer : string) : V unit :=
  sv ← get;
  for_each (sv_sessions sv) (fun s =>
    with_session s (fun session => whenV (bool_decide (se_peer_id session = peer)) (close_socket s))).

Definition inject_fault (query : ManagementQuery) : V ManagementReply :=
  sv ← get;
  let operation := mq_operation query in
  let peer := mq_peer_id query in
  if negb (nc_test_mode (sv_config sv))
  then mret (refused_reply "PermissionDenied" "fault injection requires test_mode and a loopback client")
  else if bool_decide (operation = "drop_peer") || bool_decide (operation = "delay_peer") then
    if negb (is_configured_peer (sv_config sv) peer)
    then mret (refused_reply "InvalidPeer" "fault target must be a configured peer")
    else if bool_decide (operation = "drop_peer") then
      update (server_blocked ({[peer]} ∪ sv_blocked sv));; close_sessions peer;; mret default_management_reply
    else
      update (server_delayed (<[peer := mq_delay_ms query]> (sv_delayed sv)));; mret default_management_reply
  else if bool_decide (operation = "heal") then
    update (server_blocked ∅);; update (server_delayed ∅);; update (server_paused false);; mret default_management_reply
  else update (server_paused (bool_decide (operation = "pause")));; mret default_management_reply.

(** The answer to a query of a local client. *)
Definition manage (query : ManagementQuery) : V ManagementReply :=
  sv ← get;
  let operation := mq_operation query in
  if bool_decide (operation = "state") then
    store ← of_option (rr_store (sv_replica sv));
    let hash := rp_state_hash (fe_report store) in
    if state_refused hash query
    then mret (refused_reply "StateChanged" "state changed or continuation token missing; restart pagination")
    else
      whenV (negb (bool_decide (sv_cached_hash sv = hash)))
        (update (server_cached_state (canonical_state (en_state (fe_engine store))));; update (server_cached_hash hash));;
      sv ← get;
      mret (state_page (sv_cached_state sv) hash (fe_commit store) query)
  else if bool_decide (operation = "events") then
    store ← of_option (rr_store (sv_replica sv));
    mret (events_page (log_events store) (fe_commit store) (log_first_index store) query)
  else if bool_decide (operation = "metrics") then mret (metrics_reply sv)
  else if bool_decide (operation = "recovery") then
    store ← of_option (rr_store (sv_replica sv));
    mret (recovery_reply sv store)
  else if is_fault operation then inject_fault query
  else mret (refused_reply "UnsupportedOperation" "unrecognized management operation").

Definition on_management (s : nat) (frame : Frame) : V unit :=
  reply ← (if negb (ev_local env)
           then mret (refused_reply "PermissionDenied" "management requests require a loopback client")
           else match decode_management_query (fr_payload frame) with
                | Err e => mret (refused_reply "ProtocolError" (err_message e))
                | Ok query => manage query
                end);
  send_message s tManagementReply (fr_correlation frame) (encode_management_reply reply).

(** ** Dispatch *)

Definition is_client_frame (frame : Frame) : bool :=
  (fr_type frame =? tManagementQuery) || (fr_type frame =? tClientCommand) || (fr_type frame =? tStatusQuery).

Definition has_tls (config : NodeConfig) : bool := is_some (nc_peer_tls config).

(** A frame on the wrong listener. *)
Definition wrong_plane (config : NodeConfig) (session : Session) (frame : Frame) : bool :=
  (has_tls config && negb (se_tls session) && negb (is_client_frame frame)) ||
  (se_tls session && is_client_frame frame).

Definition admitted (sv : Server) (s : nat) : bool :=
  match sv_heap sv !! s with Some session => se_client_admitted session | None => false end.

Definition clients (sv : Server) : nat := length (List.filter (admitted sv) (sv_sessions sv)).

(** The first frame of a client. *)
Definition client_refused (sv : Server) (session : Session) : bool :=
  Nat.leb kMaxClientSessions (clients sv) || negb (bool_decide (se_peer_id session = "")).

Definition reject (s : nat) : V unit := count count_rejected;; retire s.

Definition on_handshake (s : nat) (session : Session) (frame : Frame) : V unit :=
  sv ← get;
  if se_client_admitted session then retire s
  else
    match decode_handshake (fr_payload frame) with
    | Err _ => count count_malformed
    | Ok hello =>
        if negb (is_configured_peer (sv_config sv) (hs_node_id hello)) ||
           (negb (bool_decide (se_peer_id session = "")) && negb (bool_decide (se_peer_id session = hs_node_id hello)))
        then reject s
        else set_session s (session_peer_id (hs_node_id hello))
    end.

(** Frames of the replicas. *)
Definition on_replication (s : nat) (session : Session) (frame : Frame) : V unit :=
  sv ← get;
  let peer := se_peer_id session in
  if negb (is_configured_peer (sv_config sv) peer) then count count_rejected
  else if unreachable sv peer then count count_dropped
  else
    update (server_delivered (sv_delivered sv ++ [(s, peer, frame)]));;
    '(calls, replica) ← of_option (rr_handle (ev_replica env) frame peer (sv_replica sv));
    update (server_replica replica);;
    for_each calls run_call.

Definition dispatch (s : nat) (frame : Frame) : V unit :=
  with_session s (fun session =>
    sv ← get;
    if wrong_plane (sv_config sv) session frame then reject s
    else if is_client_frame frame && negb (se_client_admitted session) && client_refused sv session then reject s
    else
      whenV (is_client_frame frame) (set_session s (session_client_admitted true));;
      if fr_type frame =? tHandshake then on_handshake s session frame
      else if fr_type frame =? tManagementQuery then on_management s frame
      else if is_client_frame frame then on_client s frame
      else on_replication s session frame).

(** ** Handlers *)

(** A connection to the listener of clients. The one refused is closed, and
    the handler throws when that fails. *)
Definition accepted : V unit :=
  sv ← get;
  let client_plane := length (List.filter (fun s =>
    match sv_heap sv !! s with
    | Some item => negb (se_tls item) && bool_decide (se_expected_peer item = "")
    | None => false
    end) (sv_sessions sv)) in
  if Nat.leb kMaxSessions (length (sv_sessions sv)) ||
     (has_tls (sv_config sv) && Nat.leb kMaxClientSessions client_plane)
  then count count_rejected;; (if ev_socket_failed env then throw else skip)
  else s ← new_session "" false; start_session s false.

(** A connection to the listener of peers. *)
Definition peer_accepted : V unit :=
  sv ← get;
  if Nat.leb kMaxSessions (length (sv_sessions sv))
  then count count_rejected;; (if ev_socket_failed env then throw else skip)
  else s ← new_session "" true; start_session s false.

Definition connected_to (sv : Server) (peer : string) : bool :=
  existsb (fun s => match sv_heap sv !! s with
                    | Some session => bool_decide (se_peer_id session = peer)
                    | None => false
                    end) (sv_sessions sv).

Fixpoint dial_loop (peers : list PeerEndpoint) : V unit :=
  match peers with
  | [] => skip
  | peer :: rest =>
      sv ← get;
      let id := ep_id peer in
      if connected_to sv id || bool_decide (id ∈ sv_dialing sv) || bool_decide (id ∈ sv_blocked sv)
      then dial_loop rest
      else if Nat.leb kMaxSessions (length (sv_sessions sv) + size (sv_dialing sv)) then skip
      else
        update (server_dialing ({[id]} ∪ sv_dialing sv));;
        _ ← of_option (make_address (ep_host peer));
        update (server_connecting (sv_connecting sv ++ [peer]));;
        dial_loop rest
  end.

Definition dial_missing : V unit :=
  sv ← get;
  dial_loop match nc_peer_tls (sv_config sv) with Some tls => tc_peers tls | None => nc_peers (sv_config sv) end.

Definition erase_dialing (id : string) : V unit :=
  update (fun sv => server_dialing (sv_dialing sv ∖ {[id]}) sv).

(** The end of the attempt [i]. *)
Definition connected (i : nat) (failed : bool) : V unit :=
  sv ← get;
  match sv_connecting sv !! i with
  | None => skip
  | Some peer =>
      update (server_connecting (delete i (sv_connecting sv)));;
      if failed then erase_dialing (ep_id peer)
      else if Nat.leb kMaxSessions (length (sv_sessions sv)) then
        erase_dialing (ep_id peer);; count count_rejected;; whenV (ev_socket_failed env) (count count_dropped)
      else
        count count_reconnects;;
        s ← new_session (ep_id peer) (has_tls (sv_config sv));
        whenV (negb (has_tls (sv_config sv))) (erase_dialing (ep_id peer));;
        start_session s true
  end.

(** The timer of an attempt cancels it; its end is an event of its own. *)
Definition connect_deadline : V unit := whenV (ev_socket_failed env) (count count_dropped).

(** The callback of the TLS library, during the handshake. *)
Definition verify_callback (s : nat) (check : CertificateCheck) : V unit :=
  sv ← get;
  with_session s (fun session =>
    whenV (se_handshaking session)
      (set_session s (session_verified_peer
         (snd (verify_peer_certificate check (sv_config sv) (se_expected_peer session) (se_verified_peer session)))))).

Definition handshake_done (s : nat) (failed : bool) : V unit :=
  with_session s (fun session =>
    whenV (se_handshaking session)
      (set_session s (session_handshaking false);;
       if se_closed session then skip
       else if failed || bool_decide (se_verified_peer session = "") then reject s
       else
         set_session s (session_peer_id (se_verified_peer session));;
         set_session s (session_ready true);;
         whenV (se_dial_pending session)
           (erase_dialing (se_expected_peer session);; set_session s (session_dial_pending false));;
         read_header s;;
         send_hello s)).

(** The end of the read of a header or of a body: [data] are the bytes, unless
    the read failed. A read ends with all bytes that it asked for. *)
Definition header_read (s : nat) (data : option (list Z)) : V unit :=
  match data with
  | None => retire s
  | Some header =>
      match peek_header header with
      | Err _ => count count_malformed;; retire s
      | Ok peeked => set_session s (session_stage (ReadingBody header (Z.to_nat (fh_payload_length peeked + 4))))
      end
  end.

Definition body_read (s : nat) (header : list Z) (data : option (list Z)) : V unit :=
  match data with
  | None => retire s
  | Some body =>
      match decode_frame (header ++ body)%list with
      | Err _ => count count_malformed;; retire s
      | Ok frame => count count_frames_received;; dispatch s frame;; read_header s
      end
  end.

Definition has_size (n : nat) (data : option (list Z)) : bool :=
  match data with Some bytes => Nat.eqb (length bytes) n | None => true end.

Definition read_done (s : nat) (data : option (list Z)) : V unit :=
  with_session s (fun session =>
    match se_stage session with
    | NotReading => skip
    | ReadingHeader =>
        whenV (has_size kFrameHeaderBytes data) (set_session s (session_stage NotReading);; header_read s data)
    | ReadingBody header size =>
        whenV (has_size size data) (set_session s (session_stage NotReading);; body_read s header data)
    end).

(** The end of the oldest write; the handler holds its buffer to the end. *)
Definition write_done (s : nat) (failed : bool) : V unit :=
  with_session s (fun session =>
    match se_in_flight session with
    | [] => skip
    | buffer :: rest =>
        set_session s (session_in_flight rest);;
        (if se_closed session then skip
         else if failed then retire s
         else
           count count_frames_sent;;
           update (fun sv => server_world (pop (sv_world sv) s) sv);;
           write_next s);;
        update (fun sv => server_world (end_write (sv_world sv) buffer) sv)
    end).

Definition heartbeat_timer : V unit :=
  sv ← get;
  if sv_paused sv then skip
  else
    '(calls, replica) ← of_option (rr_heartbeat (ev_replica env) (sv_replica sv));
    update (server_replica replica);;
    for_each calls run_call.

(** ** Events *)

Inductive ServerEvent :=
| Accepted
| PeerAccepted
| Connected (i : nat) (failed : bool)
| ConnectDeadline
| Verify (s : nat) (check : CertificateCheck)
| HandshakeDone (s : nat) (failed : bool)
| HandshakeDeadline (s : nat)
| IoDeadline (s : nat)
| ReadDone (s : nat) (data : option (list Z))
| WriteDone (s : nat) (failed : bool)
| DelayOver (key : DelayedKey)
| RequestTimeout (id : Z)
| HeartbeatTimer
| ReconnectTimer.

Definition handle_event (event : ServerEvent) : V unit :=
  match event with
  | Accepted => accepted
  | PeerAccepted => peer_accepted
  | Connected i failed => connected i failed
  | ConnectDeadline => connect_deadline
  | Verify s check => verify_callback s check
  | HandshakeDone s failed => handshake_done s failed
  | HandshakeDeadline s => reject s
  | IoDeadline s => retire s
  | ReadDone s data => read_done s data
  | WriteDone s failed => write_done s failed
  | DelayOver key => delay_over key
  | RequestTimeout id => request_timeout id
  | HeartbeatTimer => heartbeat_timer
  | ReconnectTimer => dial_missing
  end.
End Handlers.

(** ** The server *)

(** [Impl], before [start]. *)
Definition new_server (config : NodeConfig) (replica : R) : Server :=
  mkServer config replica no_transport idle ∅ [] ∅ [] ∅ ∅ ∅ false "" "" no_requests 0 [].

(** [run]: the events with what each handler meets, up to an exception. *)
Fixpoint server_run (make_address : string -> option bool) (events : list (HandlerEnv * ServerEvent)) (sv : Server)
    : option Server :=
  match events with
  | [] => Some sv
  | (env, event) :: rest =>
      match handle_event make_address env event sv with
      | Some (sv, _) => server_run make_address rest sv
      | None => None
      end
  end.

(** The addresses of the listeners. *)
Definition listen_addresses (config : NodeConfig) : list string :=
  nc_host config :: match nc_peer_tls config with Some tls => [tc_host tls] | None => [] end.

(** [start], once the listeners are open and the replica calls the server. *)
Definition start (make_address : string -> option bool) (sv : Server) : option Server :=
  if forallb (fun host => is_some (make_address host)) (listen_addresses (sv_config sv))
  then fst <$> dial_missing make_address sv
  else None.
End Server.

Arguments Server R : clear implicits.
Arguments HandlerEnv E : clear implicits.

(** ** Opening a node *)

Definition replica_config (config : NodeConfig) : ReplicaConfig :=
  mkReplicaConfig (nc_id config) (nc_leader_id config) (ep_id <$> nc_peers config) (nc_elections config)
    (if nc_rng_seed config =? 0 then 1 else nc_rng_seed config) (to_i32 (nc_election_timeout_min config))
    (to_i32 (nc_election_timeout_max config)) (nc_snapshot_every config) 512 (256 * 1024) (256 * 1024).

(** What opening meets: the TLS library, the system calls of the replica,
    whether a listener cannot be opened, and the text of an exception. *)
Record NodeOs := mkNodeOs {
  no_context : ContextOs;
  no_named : bool;
  no_lease : option Error;
  no_adapter : AdapterOs;
  no_store : OpenOs;
  no_os : Os;
  no_listen_failed : bool;
  no_what : string;
}.

Definition server_open (make_address : string -> option bool) (config : NodeConfig) (directory : Directory) (os : NodeOs)
    : Directory * result Error (Server RuntimeReplica) :=
  let caught := Err (mkError StoreError (no_what os)) in
  match (check! validate_consensus_config make_address config in
         check! validate_peer_tls_config make_address config in
         make_peer_tls_context config (no_context os)) with
  | Err e => (directory, Err e)
  | Ok _ =>
      let transition := bool_decide (nc_consensus_engine config = TransitionEngine) in
      match runtime_open (replica_config config) transition (no_named os) directory (no_lease os) (no_adapter os)
              (no_store os) (no_os os) with
      | None => (directory, caught)
      | Some (directory, Err e) => (directory, Err e)
      | Some (directory, Ok replica) =>
          if no_listen_failed os then (directory, caught)
          else
            match start make_address
                    (new_server config (runtime_set_commit_hook true (runtime_set_sender true replica))) with
            | Some sv => (directory, Ok sv)
            | None => (directory, caught)
            end
      end
  end.
