(* ===== verification/NodeServerInv.v ===== *)
(** * The invariant of the node server

    What every handler of [NodeServer] keeps, from any state and whatever the
    network, the timers and the replica do: the table of sessions, the limits
    of clients and of waiting requests, the connection attempts, the writes in
    progress, and the origin of the frames that reach the replica. Handlers are
    reasoned about with a weakest precondition, which is true of an exception. *)

From S2P Require Import Prelude Text Types Model EventCodec Machine Bytes FileEngine OutboundQueue PendingRequests Frame Messages MessageCodec Config PeerTls ReplicaTypes NodeServer.

(** ** Queues *)

Definition same_queues (w w' : World) : Prop :=
  forall q, is_Some (wd_queues w' !! q) -> is_Some (wd_queues w !! q).

Lemma push_queues w s bytes peer retry : same_queues w (snd (push w s bytes peer retry)).
Proof.
  intros q. unfold push. destruct (wd_queues w !! s) as [x|] eqn:E; [|done].
  case_goal; [done|]. case_goal; [done|]. cbn [snd wd_queues].
  destruct (decide (q = s)) as [-> |]; [by rewrite E|by rewrite lookup_insert_ne].
Qed.

Lemma start_write_queues w s : wd_queues (start_write w s) = wd_queues w.
Proof. unfold start_write. by destruct (wd_queues w !! s) as [[b [|f l]]|]. Qed.

Lemma end_write_queues w r : wd_queues (end_write w r) = wd_queues w.
Proof. unfold end_write. destruct (list_find _ _) as [[i x]|]; [|done]. by rewrite drop_queues. Qed.

Lemma pop_queues w s : same_queues w (pop w s).
Proof.
  intros q. destruct (decide (q = s)) as [-> |Hne]; [|by rewrite pop_other].
  destruct (wd_queues w !! s) as [x|] eqn:E; [eauto|]. unfold pop. by rewrite E, E.
Qed.

Lemma pop_loop_queues n : forall w s, same_queues w (pop_loop w s n).
Proof.
  induction n as [|n IH]; intros w s q Hq; [done|]. cbn [pop_loop] in Hq. by eapply pop_queues, IH.
Qed.

Lemma end_session_queues w s : same_queues w (end_session w s).
Proof.
  intros q. unfold end_session. cbn [wd_queues]. intros Hq. apply (pop_loop_queues (queue_length w s) w s).
  destruct (decide (q = s)) as [-> |Hne]; [by rewrite lookup_delete_eq in Hq; destruct Hq|].
  by rewrite lookup_delete_ne in Hq.
Qed.

(** ** Waiting requests *)

Definition waits_for (s : nat) (x : Z * (Z * Pending)) : Prop := wt_session (snd (snd x)) = s.

#[export] Instance waits_for_dec s x : Decision (waits_for s x) := decide (wt_session (snd (snd x)) = s).

(** The requests that wait on the session [s], and those of a list. *)
Definition waiting (s : nat) (items : gmap Z (Z * Pending)) : Z := Z.of_nat (size (filter (waits_for s) items)).

Definition taken_of (s : nat) (taken : list Pending) : Z :=
  Z.of_nat (length (filter (fun w => wt_session w = s) taken)).

Lemma taken_of_cons s w taken :
  taken_of s (w :: taken) = (if bool_decide (wt_session w = s) then 1 else 0) + taken_of s taken.
Proof. unfold taken_of. rewrite filter_cons. case_decide; [rewrite bool_decide_eq_true_2 by done|rewrite bool_decide_eq_false_2 by done]; cbn [length]; lia. Qed.

Lemma taken_of_nonneg s taken : 0 <= taken_of s taken.
Proof. unfold taken_of. lia. Qed.

Lemma waiting_nonneg s items : 0 <= waiting s items.
Proof. unfold waiting. lia. Qed.

Lemma waiting_insert s items id x : items !! id = None ->
  waiting s (<[id := x]> items) = (if bool_decide (wt_session (snd x) = s) then 1 else 0) + waiting s items.
Proof.
  intros Hid. unfold waiting. case_bool_decide as Hx.
  - rewrite map_filter_insert_True by done. rewrite map_size_insert_None; [lia|].
    apply map_lookup_filter_None. by left.
  - rewrite map_filter_insert_False by done. by rewrite delete_id.
Qed.

Lemma waiting_delete s items id x : items !! id = Some x ->
  waiting s (delete id items) = waiting s items - (if bool_decide (wt_session (snd x) = s) then 1 else 0).
Proof.
  intros Hid. rewrite <- (insert_delete_id items id x Hid) at 2.
  rewrite waiting_insert by apply lookup_delete_eq. case_bool_decide; lia.
Qed.

(** The requests that were taken are those that are gone. *)
Lemma waiting_taken s ids : forall items items' values,
  NoDup ids -> Forall2 (fun id v => exists i, items !! id = Some (i, v)) ids values ->
  (forall id, items' !! id = if bool_decide (id ∈ ids) then None else items !! id) ->
  waiting s items = waiting s items' + taken_of s values.
Proof.
  induction ids as [|id ids IH]; intros items items' values Hnd Hv Hitems.
  - apply Forall2_nil_inv_l in Hv as ->. assert (items' = items) as ->.
    { apply map_eq. intros id. rewrite Hitems. by rewrite bool_decide_eq_false_2 by apply not_elem_of_nil. }
    unfold taken_of. simpl. lia.
  - apply Forall2_cons_inv_l in Hv as (v & values' & [i Hi] & Hrest & ->).
    apply list.NoDup_cons in Hnd as [Hnot Hnd]. rewrite taken_of_cons.
    pose proof (waiting_delete s items id _ Hi) as Hd. cbn [snd] in Hd.
    rewrite (IH (delete id items) items' values' Hnd) in Hd; [lia| |].
    + clear -Hrest Hnot. induction Hrest as [|x y l l' [j Hj] _ IHr]; constructor.
      * exists j. rewrite lookup_delete_ne; [done|]. intros ->. apply Hnot, list_elem_of_here.
      * apply IHr. intros Hin. by apply Hnot, list_elem_of_further.
    + intros x. rewrite Hitems. destruct (decide (x = id)) as [-> |Hne].
      * rewrite lookup_delete_eq, (bool_decide_eq_true_2 (id ∈ id :: ids)) by apply list_elem_of_here.
        by destruct (bool_decide (id ∈ ids)).
      * rewrite lookup_delete_ne by done.
        assert (bool_decide (x ∈ id :: ids) = bool_decide (x ∈ ids)) as -> by (apply bool_decide_ext; rewrite elem_of_cons; naive_solver).
        done.
Qed.

(** ** Sessions *)

(** What holds of every session object. *)
Record session_ok (config : NodeConfig) (x : Session) : Prop := {
  ss_client : se_client_admitted x = true -> se_peer_id x = "" /\ se_tls x = false;
  ss_peer : se_peer_id x = "" \/ is_configured_peer config (se_peer_id x) = true;
  ss_tls : se_tls x = true -> se_ready x = true ->
    se_handshaking x = false /\ se_verified_peer x <> "" /\ se_peer_id x = se_verified_peer x;
  ss_stage : se_stage x <> NotReading -> se_ready x = true;
  ss_handshaking : se_handshaking x = true -> se_tls x = true;
  ss_one_write : (length (se_in_flight x) <= 1)%nat;
  ss_idle : se_writing x = false -> se_in_flight x = [];
}.

(** The configuration that the server was given, and the events so far. *)
Record Past := mkPast { pa_config : NodeConfig; pa_events : list ServerEvent }.

(** A certificate of [id] was accepted for the session. *)
Definition certified (config : NodeConfig) (history : list ServerEvent) (s : nat) (id : string) : Prop :=
  exists check, Verify s check ∈ history /\ ck_preverified check = true /\ ck_depth check = 0 /\
    peer_purpose (ck_certificate check) = true /\ certificate_node_id (ck_certificate check) = Some id /\
    is_configured_peer config id = true.

(** [sessions] are the sessions that are not closed, each once. *)
Definition live_sessions (heap : gmap nat Session) (sessions : list nat) : Prop :=
  NoDup sessions /\ forall s, s ∈ sessions <-> exists x, heap !! s = Some x /\ se_closed x = false.

Definition admitted_in (heap : gmap nat Session) (s : nat) : bool :=
  match heap !! s with Some session => se_client_admitted session | None => false end.

Definition dial_of (heap : gmap nat Session) (s : nat) : option string :=
  match heap !! s with
  | Some x => if se_dial_pending x then Some (se_expected_peer x) else None
  | None => None
  end.

(** The peers of all connection attempts: those in progress, and those whose
    session is in its TLS handshake. *)
Definition attempts (heap : gmap nat Session) (sessions : list nat) (connecting : list PeerEndpoint) : list string :=
  (ep_id <$> connecting) ++ omap (dial_of heap) sessions.

(** A frame that the replica was given, with its session and peer. *)
Definition delivered_ok (config : NodeConfig) (heap : gmap nat Session) (d : nat * string * Frame) : Prop :=
  let '(s, peer, frame) := d in
  is_configured_peer config peer = true /\ is_client_frame frame = false /\
  exists x, heap !! s = Some x /\
    (has_tls config = true -> se_tls x = true /\ se_ready x = true /\ se_verified_peer x = peer).

(** The limits of a moment: request ids given out, requests that wait, and
    requests that wait on a session; and the sessions that a handler holds. *)
Record Limits := mkLimits { lm_next : Z; lm_pending : nat; lm_waiters : nat -> Z; lm_held : list nat }.

(** ** Changing one session *)

Lemma alter_view {A} (g : Session -> A) f s (heap : gmap nat Session) k :
  (forall x, heap !! s = Some x -> g (f x) = g x) -> g <$> (alter f s heap !! k) = g <$> (heap !! k).
Proof.
  intros Hg. destruct (decide (k = s)) as [-> |Hne].
  - rewrite lookup_alter_eq. destruct (heap !! s) as [x|]; [|done]. simpl. by rewrite Hg.
  - by rewrite lookup_alter_ne.
Qed.

Lemma live_ext (heap heap' : gmap nat Session) sessions :
  (forall k, se_closed <$> heap' !! k = se_closed <$> heap !! k) ->
  live_sessions heap sessions -> live_sessions heap' sessions.
Proof.
  intros Hk [Hnd Hl]. split; [done|]. intros s. rewrite Hl. specialize (Hk s).
  destruct (heap !! s) as [x|], (heap' !! s) as [y|]; simpl in Hk; try done.
  injection Hk as Hk. split; intros (z & [= <-] & Hz); eexists; (split; [done|congruence]).
Qed.

Lemma admitted_view heap k : admitted_in heap k = default false (se_client_admitted <$> heap !! k).
Proof. unfold admitted_in. by destruct (heap !! k). Qed.

Definition dial_view (x : Session) : option string := if se_dial_pending x then Some (se_expected_peer x) else None.

Lemma dial_of_view heap k : dial_of heap k = (dial_view <$> heap !! k) ≫= id.
Proof. unfold dial_of. by destruct (heap !! k). Qed.

Lemma filter_admitted_ext heap heap' sessions :
  (forall k, k ∈ sessions -> admitted_in heap' k = admitted_in heap k) ->
  List.filter (admitted_in heap') sessions = List.filter (admitted_in heap) sessions.
Proof.
  intros Hk. induction sessions as [|s l IH]; [done|]. cbn [List.filter].
  rewrite (Hk s) by apply list_elem_of_here. rewrite IH; [done|]. intros k Hin. by apply Hk, list_elem_of_further.
Qed.

Lemma attempts_ext heap heap' sessions connecting :
  (forall k, k ∈ sessions -> dial_of heap' k = dial_of heap k) ->
  attempts heap' sessions connecting = attempts heap sessions connecting.
Proof.
  intros Hk. unfold attempts. f_equal. induction sessions as [|s l IH]; [done|]. cbn [omap list_omap].
  rewrite (Hk s) by apply list_elem_of_here. rewrite IH; [done|]. intros k Hin. by apply Hk, list_elem_of_further.
Qed.

(** A session stays ready, and its certificate then does not change. *)
Definition ready_kept (x y : Session) : Prop :=
  se_tls y = se_tls x /\ (se_ready x = true -> se_ready y = true) /\
  (se_tls x = true -> se_ready x = true -> se_verified_peer y = se_verified_peer x).

(** Sessions that a handler holds, in use. *)
Definition held_ok (heap : gmap nat Session) (held : list nat) : Prop :=
  Forall (fun s => exists x, heap !! s = Some x /\ se_ready x = true) held.

Lemma held_ext (heap heap' : gmap nat Session) held :
  (forall k x, heap !! k = Some x -> exists y, heap' !! k = Some y /\ ready_kept x y) ->
  held_ok heap held -> held_ok heap' held.
Proof.
  intros Hk Hl. eapply list.Forall_impl; [exact Hl|]. intros s (x & Hx & Hr).
  destruct (Hk _ _ Hx) as (y & Hy & _ & Hry & _). eauto.
Qed.

Lemma delivered_ext config (heap heap' : gmap nat Session) l :
  (forall k x, heap !! k = Some x -> exists y, heap' !! k = Some y /\ ready_kept x y) ->
  Forall (delivered_ok config heap) l -> Forall (delivered_ok config heap') l.
Proof.
  intros Hk Hl. eapply list.Forall_impl; [exact Hl|]. intros [[s peer] frame] (H1 & H2 & x & Hx & Ht).
  split; [done|]. split; [done|]. destruct (Hk _ _ Hx) as (y & Hy & Hty & Hry & Hv). exists y. split; [done|].
  intros Hc. destruct (Ht Hc) as (T1 & T2 & T3). rewrite Hty, (Hv T1 T2). auto.
Qed.

Lemma alter_kept f s (heap : gmap nat Session) :
  (forall x, heap !! s = Some x -> ready_kept x (f x)) ->
  forall k x, heap !! k = Some x -> exists y, alter f s heap !! k = Some y /\ ready_kept x y.
Proof.
  intros Hf k x Hx. destruct (decide (k = s)) as [-> |Hne].
  - rewrite lookup_alter_eq, Hx. simpl. eauto.
  - rewrite lookup_alter_ne by done. exists x. split; [done|]. by repeat split.
Qed.

Lemma alter_cases f s (heap : gmap nat Session) k y : alter f s heap !! k = Some y ->
  (k = s /\ exists x, heap !! s = Some x /\ y = f x) \/ (k <> s /\ heap !! k = Some y).
Proof. intros H. apply lookup_alter_Some in H as [(<- & x & Hx & ->)|[Hne Hy]]; [left; eauto|by right]. Qed.

Lemma alter_is_insert f s (heap : gmap nat Session) x : heap !! s = Some x -> alter f s heap = <[s := f x]> heap.
Proof.
  intros Hx. apply map_eq. intros k. destruct (decide (k = s)) as [-> |Hne].
  - by rewrite lookup_alter_eq, lookup_insert_eq, Hx.
  - by rewrite lookup_alter_ne, lookup_insert_ne.
Qed.

Lemma insert_cases (heap : gmap nat Session) s y k z : <[s := y]> heap !! k = Some z ->
  (k = s /\ z = y) \/ (k <> s /\ heap !! k = Some z).
Proof. intros H. apply lookup_insert_Some in H as [[<- <-]|[Hne Hz]]; [by left|by right]. Qed.

(** Removing a session from the list. *)
Lemma filter_le {A} (f g : A -> bool) l : (forall x, x ∈ l -> f x = true -> g x = true) ->
  (length (List.filter f l) <= length (List.filter g l))%nat.
Proof.
  intros Hfg. induction l as [|a l IH]; [done|]. cbn [List.filter].
  assert (length (List.filter f l) <= length (List.filter g l))%nat as Hl
    by (apply IH; intros x Hx; by apply Hfg, list_elem_of_further).
  pose proof (Hfg a (list_elem_of_here _ _)) as Ha.
  destruct (f a), (g a); cbn [length]; first [lia|by specialize (Ha eq_refl)].
Qed.

Lemma filter_without (f : nat -> bool) s l :
  (length (List.filter f (filter (fun x => x <> s) l)) <= length (List.filter f l))%nat.
Proof.
  induction l as [|a l IH]; [done|]. rewrite filter_cons. cbn [List.filter].
  case_decide; cbn [List.filter]; destruct (f a); cbn [length]; lia.
Qed.

(** The attempts without that of the session. *)
Lemma omap_without (f : nat -> option string) s (l : list nat) id :
  id ∈ omap f (filter (fun x => x <> s) l) <-> exists k, k <> s /\ k ∈ l /\ f k = Some id.
Proof.
  rewrite list_elem_of_omap. split.
  - intros (k & Hk & Hf). apply list_elem_of_filter in Hk as [Hne Hk]. eauto.
  - intros (k & Hne & Hk & Hf). exists k. split; [|done]. by apply list_elem_of_filter.
Qed.

Lemma omap_without_sub (f : nat -> option string) s (l : list nat) : omap f (filter (fun x => x <> s) l) `sublist_of` omap f l.
Proof.
  induction l as [|a l IH]; [done|]. rewrite filter_cons. cbn [omap list_omap].
  case_decide; cbn [omap list_omap]; destruct (f a); try done; by constructor.
Qed.

Lemma omap_without_own (f : nat -> option string) s (l : list nat) e :
  NoDup (omap f l) -> s ∈ l -> f s = Some e -> e ∉ omap f (filter (fun x => x <> s) l).
Proof.
  intros Hnd Hin Hf Hw. apply omap_without in Hw as (k & Hne & Hk & Hfk).
  induction l as [|a l IH]; [by apply elem_of_nil in Hin|]. cbn [omap list_omap] in Hnd.
  apply elem_of_cons in Hin. apply elem_of_cons in Hk.
  destruct Hin as [-> |Hin], Hk as [-> |Hk]; try done.
  - rewrite Hf in Hnd. apply list.NoDup_cons in Hnd as [Hnot _]. apply Hnot, list_elem_of_omap. eauto.
  - rewrite Hfk in Hnd. apply list.NoDup_cons in Hnd as [Hnot _]. apply Hnot, list_elem_of_omap. eauto.
  - apply IH; [|done|done]. destruct (f a); [by apply list.NoDup_cons in Hnd as [_ ?]|done].
Qed.

Section Inv.
Context {R E : Type} `{!RuntimeOps R E}.

(** [taken] are requests that a commit removed and that are not answered yet. *)
Record server_ok (L : Limits) (past : Past) (taken : list Pending) (sv : Server R) : Prop := {
  so_world : world_ok (sv_world sv);
  so_queues : forall q, is_Some (wd_queues (sv_world sv) !! q) -> (q < sv_next sv)%nat;
  so_heap : forall s, is_Some (sv_heap sv !! s) -> (s < sv_next sv)%nat;
  so_live : live_sessions (sv_heap sv) (sv_sessions sv);
  so_bound : (length (sv_sessions sv) <= kMaxSessions)%nat;
  so_session : forall s x, sv_heap sv !! s = Some x -> session_ok (sv_config sv) x;
  so_verified : forall s x, sv_heap sv !! s = Some x -> se_verified_peer x <> "" ->
    certified (sv_config sv) (pa_events past) s (se_verified_peer x);
  so_clients : (length (List.filter (admitted_in (sv_heap sv)) (sv_sessions sv)) <= kMaxClientSessions)%nat;
  so_pending : pending_ok (sv_pending sv);
  so_next_id : 1 <= pq_next (sv_pending sv) <= lm_next L;
  so_capacity : (size (pq_items (sv_pending sv)) <= lm_pending L)%nat;
  so_pending_sessions : forall id i v, pq_items (sv_pending sv) !! id = Some (i, v) -> (wt_session v < sv_next sv)%nat;
  so_taken_sessions : Forall (fun v => wt_session v < sv_next sv)%nat taken;
  so_waiters : forall s x, sv_heap sv !! s = Some x -> se_closed x = false ->
    se_waiters x = waiting s (pq_items (sv_pending sv)) + taken_of s taken /\ se_waiters x <= Z.min (lm_waiters L s) kMaxSessionWaiters;
  so_attempts : NoDup (attempts (sv_heap sv) (sv_sessions sv) (sv_connecting sv));
  so_dialing : forall id, id ∈ attempts (sv_heap sv) (sv_sessions sv) (sv_connecting sv) -> id ∈ sv_dialing sv;
  so_delivered : Forall (delivered_ok (sv_config sv) (sv_heap sv)) (sv_delivered sv);
  so_held : held_ok (sv_heap sv) (lm_held L);
  so_connecting : has_tls (sv_config sv) = false ->
    Forall (fun peer => is_configured_peer (sv_config sv) (ep_id peer) = true) (sv_connecting sv);
  so_config : sv_config sv = pa_config past;
}.

(** ** Weakest preconditions *)

Definition wp {A} (m : @V R A) (Q : A -> Server R -> Prop) (sv : Server R) : Prop :=
  match m sv with Some (sv', a) => Q a sv' | None => True end.

Lemma sv_wp_bind {A B} (m : @V R A) (k : A -> @V R B) Q sv :
  wp m (fun a sv' => wp (k a) Q sv') sv -> wp (m ≫= k) Q sv.
Proof. unfold wp, mbind, V_bind. by destruct (m sv) as [[sv' a]|]. Qed.

Lemma sv_wp_ret {A} (a : A) (Q : A -> Server R -> Prop) sv : Q a sv -> wp (mret a) Q sv.
Proof. done. Qed.

Lemma sv_wp_get (Q : Server R -> Server R -> Prop) sv : Q sv sv -> wp get Q sv.
Proof. done. Qed.

Lemma sv_wp_update f (Q : unit -> Server R -> Prop) sv : Q tt (f sv) -> wp (update f) Q sv.
Proof. done. Qed.

Lemma wp_throw {A} (Q : A -> Server R -> Prop) sv : wp throw Q sv.
Proof. done. Qed.

Lemma wp_of_option {A} (o : option A) (Q : A -> Server R -> Prop) sv :
  (forall a, o = Some a -> Q a sv) -> wp (of_option o) Q sv.
Proof. destruct o; intros H; [by apply H|done]. Qed.

Lemma sv_wp_skip (Q : unit -> Server R -> Prop) sv : Q tt sv -> wp skip Q sv.
Proof. done. Qed.

Lemma sv_wp_when b m (Q : unit -> Server R -> Prop) sv : (b = true -> wp m Q sv) -> (b = false -> Q tt sv) -> wp (whenV b m) Q sv.
Proof. destruct b; intros H1 H2; [by apply H1|by apply H2]. Qed.

Lemma sv_wp_mono {A} (m : @V R A) (Q Q' : A -> Server R -> Prop) sv :
  wp m Q sv -> (forall a sv', Q a sv' -> Q' a sv') -> wp m Q' sv.
Proof. unfold wp. destruct (m sv) as [[sv' a]|]; auto. Qed.

Lemma wp_with_session s body (Q : unit -> Server R -> Prop) sv :
  (forall x, sv_heap sv !! s = Some x -> wp (body x) Q sv) -> (sv_heap sv !! s = None -> Q tt sv) ->
  wp (with_session s body) Q sv.
Proof.
  intros H1 H2. unfold with_session. apply sv_wp_bind, sv_wp_get.
  destruct (sv_heap sv !! s) as [x|]; [by apply H1|by apply H2].
Qed.

Lemma sv_wp_for_each {A} (P : list A -> Server R -> Prop) l body :
  (forall a rest sv, P (a :: rest) sv -> wp (body a) (fun _ sv' => P rest sv') sv) ->
  forall sv, P l sv -> wp (for_each l body) (fun _ sv' => P [] sv') sv.
Proof.
  intros Hbody. induction l as [|a l IH]; intros sv HP; cbn [for_each]; [done|].
  apply sv_wp_bind. eapply sv_wp_mono; [by apply Hbody|]. intros [] sv' HP'. by apply IH.
Qed.
(** ** Changes of one field *)

Lemma world_change_ok L H taken sv w : server_ok L H taken sv -> world_ok w -> same_queues (sv_world sv) w ->
  server_ok L H taken (server_world w sv).
Proof. intros [] Hw Hq. split; try done. intros q Hin. cbn in *. eauto. Qed.

(** The fields that decide the tables and the counters. *)
Definition same_roles (x y : Session) : Prop :=
  se_closed y = se_closed x /\ se_client_admitted y = se_client_admitted x /\
  se_dial_pending y = se_dial_pending x /\ se_expected_peer y = se_expected_peer x /\
  se_waiters y = se_waiters x /\ ready_kept x y.

Lemma session_change_ok L H taken sv s f : server_ok L H taken sv ->
  (forall x, sv_heap sv !! s = Some x ->
     same_roles x (f x) /\ session_ok (sv_config sv) (f x) /\
     (se_verified_peer (f x) <> "" -> certified (sv_config sv) (pa_events H) s (se_verified_peer (f x)))) ->
  server_ok L H taken (server_heap (alter f s (sv_heap sv)) sv).
Proof.
  intros [] Hf.
  assert (forall x, sv_heap sv !! s = Some x -> same_roles x (f x)) as Hr by (intros x Hx; by apply Hf).
  assert (attempts (alter f s (sv_heap sv)) (sv_sessions sv) (sv_connecting sv) =
    attempts (sv_heap sv) (sv_sessions sv) (sv_connecting sv)) as Ha.
  { apply attempts_ext. intros k _. rewrite !dial_of_view, alter_view; [done|].
    intros x Hx. destruct (Hr x Hx) as (_ & _ & R1 & R2 & _). unfold dial_view. by rewrite R1, R2. }
  split; try done; cbn [sv_heap server_heap sv_sessions sv_connecting sv_dialing sv_delivered sv_config sv_pending sv_next].
  - intros k [y Hy]. apply so_heap0. apply alter_cases in Hy as [(-> & x & Hx & _)|[_ Hy]]; by eexists.
  - eapply live_ext; [|done]. intros k. apply alter_view. intros x Hx. by destruct (Hr x Hx).
  - intros k y Hy. apply alter_cases in Hy as [(-> & x & Hx & ->)|[_ Hy]]; [by apply Hf|by eapply so_session0].
  - intros k y Hy. apply alter_cases in Hy as [(-> & x & Hx & ->)|[_ Hy]]; [by apply Hf|by eapply so_verified0].
  - rewrite (filter_admitted_ext (sv_heap sv)); [done|]. intros k _. rewrite !admitted_view, alter_view; [done|].
    intros x Hx. by destruct (Hr x Hx) as (_ & ? & _).
  - intros k y Hy Hc. apply alter_cases in Hy as [(-> & x & Hx & ->)|[_ Hy]]; [|by apply so_waiters0].
    destruct (Hr x Hx) as (R1 & _ & _ & _ & R2 & _). rewrite R2. apply so_waiters0; congruence.
  - by rewrite Ha.
  - by rewrite Ha.
  - eapply delivered_ext; [|done]. apply alter_kept. intros x Hx. by destruct (Hr x Hx) as (_ & _ & _ & _ & _ & ?).
  - eapply held_ext; [|done]. apply alter_kept. intros x Hx. by destruct (Hr x Hx) as (_ & _ & _ & _ & _ & ?).
Qed.

(** ** A session that ends *)

(** The attempts once the session [s] is gone. *)
Lemma attempts_without (sv : Server R) s x y L H taken : server_ok L H taken sv ->
  sv_heap sv !! s = Some x -> se_closed x = false ->
  let l := attempts (<[s := y]> (sv_heap sv)) (filter (fun k => k <> s) (sv_sessions sv)) (sv_connecting sv) in
  NoDup l /\
  forall id, id ∈ l -> id ∈ if se_dial_pending x then sv_dialing sv ∖ {[se_expected_peer x]} else sv_dialing sv.
Proof.
  intros [] Hx Hc l. destruct so_live0 as [Hnd Hlive].
  assert (l = attempts (sv_heap sv) (filter (fun k => k <> s) (sv_sessions sv)) (sv_connecting sv)) as ->.
  { apply attempts_ext. intros k Hk. apply list_elem_of_filter in Hk as [Hne _]. unfold dial_of.
    by rewrite lookup_insert_ne. }
  assert (attempts (sv_heap sv) (filter (fun k => k <> s) (sv_sessions sv)) (sv_connecting sv) `sublist_of`
    attempts (sv_heap sv) (sv_sessions sv) (sv_connecting sv)) as Hsub
    by (apply sublist_app; [done|apply omap_without_sub]).
  split; [by eapply sublist_NoDup|]. intros id Hid.
  assert (id ∈ sv_dialing sv) as Hd by (by apply so_dialing0; eapply elem_of_sublist).
  destruct (se_dial_pending x) eqn:Edp; [|done]. apply elem_of_difference. split; [done|].
  apply not_elem_of_singleton. intros ->. unfold attempts in so_attempts0, Hid.
  apply list.NoDup_app in so_attempts0 as (_ & Hdis & Hom).
  assert (dial_of (sv_heap sv) s = Some (se_expected_peer x)) as Hds by (unfold dial_of; by rewrite Hx, Edp).
  assert (s ∈ sv_sessions sv) as Hs by (apply Hlive; eauto).
  apply elem_of_app in Hid as [Hid|Hid].
  - apply (Hdis _ Hid), list_elem_of_omap. eauto.
  - by eapply (omap_without_own (dial_of (sv_heap sv)) s).
Qed.

Lemma remove_waiting s s' p : pending_ok p -> s' <> s ->
  waiting s' (pq_items (snd (remove_if p (waits_on s)))) = waiting s' (pq_items p).
Proof.
  intros Hok Hne. destruct (remove_if_spec p (waits_on s) Hok) as (_ & _ & Hi). unfold waiting. do 2 f_equal.
  apply map_eq. intros id. apply option_eq. intros [i v]. rewrite !map_lookup_filter_Some, Hi.
  unfold waits_for. cbn [snd]. destruct (pq_items p !! id) as [[j w]|]; [|naive_solver].
  unfold waits_on. case_bool_decide as Hb; [|naive_solver]. split; [naive_solver|].
  intros [[= <- <-] <-]. congruence.
Qed.

Lemma remove_size s p : pending_ok p -> (size (pq_items (snd (remove_if p (waits_on s)))) <= size (pq_items p))%nat.
Proof.
  intros Hok. destruct (remove_if_spec p (waits_on s) Hok) as (_ & _ & Hi).
  apply map_subseteq_size. apply map_subseteq_spec. intros id x. rewrite Hi.
  destruct (pq_items p !! id) as [[j w]|]; [|done]. by destruct (waits_on s w).
Qed.

Lemma retired_ok L H taken sv sv' s x y : server_ok L H taken sv ->
  sv_heap sv !! s = Some x -> se_closed x = false ->
  se_closed y = true -> session_ok (sv_config sv) y -> ready_kept x y -> se_verified_peer y = se_verified_peer x ->
  sv_config sv' = sv_config sv -> sv_next sv' = sv_next sv -> sv_connecting sv' = sv_connecting sv ->
  sv_delivered sv' = sv_delivered sv -> sv_world sv' = clear_queue (sv_world sv) s ->
  sv_heap sv' = <[s := y]> (sv_heap sv) -> sv_sessions sv' = filter (fun k => k <> s) (sv_sessions sv) ->
  sv_pending sv' = snd (remove_if (sv_pending sv) (waits_on s)) ->
  sv_dialing sv' = (if se_dial_pending x then sv_dialing sv ∖ {[se_expected_peer x]} else sv_dialing sv) ->
  server_ok L H taken sv'.
Proof.
  intros Hok Hx Hc Hy Hyok Hkept Hver E1 E2 E3 E4 E5 E6 E7 E8 E9.
  destruct (attempts_without sv s x y L H taken Hok Hx Hc) as [Ha Hd].
  pose proof (remove_waiting s) as Hwait. destruct Hok.
  destruct (remove_if_spec (sv_pending sv) (waits_on s) so_pending0) as (P1 & P2 & P3).
  assert (forall k z, sv_heap sv !! k = Some z -> exists z', <[s := y]> (sv_heap sv) !! k = Some z' /\ ready_kept z z') as Hheap.
  { intros k z Hz. destruct (decide (k = s)) as [-> |Hne].
    - rewrite lookup_insert_eq. exists y. split; [done|]. congruence.
    - rewrite lookup_insert_ne by done. exists z. split; [done|]. by repeat split. }
  split; rewrite ?E1, ?E2, ?E3, ?E4, ?E5, ?E6, ?E7, ?E8, ?E9.
  - by apply clear_queue_ok.
  - intros q Hq. apply so_queues0. by eapply pop_loop_queues.
  - intros k [z Hz]. apply so_heap0. apply insert_cases in Hz as [[-> _]|[_ Hz]]; by eexists.
  - destruct so_live0 as [Hnd Hl]. split; [by apply list.NoDup_filter|]. intros k.
    rewrite list_elem_of_filter, Hl. destruct (decide (k = s)) as [-> |Hne].
    + rewrite lookup_insert_eq. split; [by intros [? _]|]. intros (z & [= <-] & Hz). congruence.
    + rewrite lookup_insert_ne by done. naive_solver.
  - etrans; [apply list.length_filter|done].
  - intros k z Hz. apply insert_cases in Hz as [[-> ->]|[_ Hz]]; [done|by eapply so_session0].
  - intros k z Hz Hv. apply insert_cases in Hz as [[-> ->]|[_ Hz]]; [|by apply so_verified0].
    rewrite Hver in *. by apply so_verified0.
  - etrans; [|exact so_clients0]. rewrite (filter_admitted_ext (sv_heap sv)); [apply filter_without|].
    intros k Hk. apply list_elem_of_filter in Hk as [Hne _]. unfold admitted_in. by rewrite lookup_insert_ne.
  - done.
  - by rewrite P2.
  - etrans; [by apply remove_size|done].
  - intros id i v. rewrite P3. destruct (pq_items (sv_pending sv) !! id) as [[j w]|] eqn:Ei; [|done].
    destruct (waits_on s w); [done|]. intros [= <- <-]. by eapply so_pending_sessions0.
  - done.
  - intros k z Hz Hzc. apply insert_cases in Hz as [[-> ->]|[Hne Hz]]; [congruence|].
    rewrite Hwait by done. by apply so_waiters0.
  - done.
  - done.
  - by eapply delivered_ext.
  - by eapply held_ext.
  - done.
  - done.
Qed.

(** ** Operations that keep the invariant *)

Definition keeps {A} (L : Limits) (H : Past) (taken : list Pending) (m : @V R A) : Prop :=
  forall sv, server_ok L H taken sv -> wp m (fun _ sv' => server_ok L H taken sv') sv.

Lemma sv_keeps_bind {A B} L H taken (m : @V R A) (k : A -> @V R B) :
  keeps L H taken m -> (forall a, keeps L H taken (k a)) -> keeps L H taken (m ≫= k).
Proof. intros Hm Hk sv Hok. apply sv_wp_bind. eapply sv_wp_mono; [by apply Hm|]. intros a sv' Hok'. by apply Hk. Qed.

Lemma sv_keeps_get {B} L H taken (k : Server R -> @V R B) :
  (forall sv, server_ok L H taken sv -> wp (k sv) (fun _ sv' => server_ok L H taken sv') sv) ->
  keeps L H taken (get ≫= k).
Proof. intros Hk sv Hok. apply sv_wp_bind, sv_wp_get. by apply Hk. Qed.

Lemma sv_keeps_skip L H taken : keeps L H taken skip.
Proof. intros sv Hok. done. Qed.

Lemma sv_keeps_when L H taken b m : (b = true -> keeps L H taken m) -> keeps L H taken (whenV b m).
Proof. intros Hm. destruct b; [by apply Hm|apply sv_keeps_skip]. Qed.

Lemma sv_keeps_for_each {A} L H taken (l : list A) body :
  (forall a, keeps L H taken (body a)) -> keeps L H taken (for_each l body).
Proof.
  intros Hb sv Hok. apply (sv_wp_for_each (fun _ sv => server_ok L H taken sv)); [|done]. intros a rest sv' Hok'. by apply Hb.
Qed.

Lemma keeps_with L H taken s body :
  (forall sv x, server_ok L H taken sv -> sv_heap sv !! s = Some x ->
     wp (body x) (fun _ sv' => server_ok L H taken sv') sv) ->
  keeps L H taken (with_session s body).
Proof. intros Hb sv Hok. apply wp_with_session; [intros x Hx; by apply Hb|done]. Qed.

Lemma count_ok L H taken f : keeps L H taken (count f).
Proof. intros sv []. by split. Qed.

Lemma set_session_ok L H taken s f sv : server_ok L H taken sv ->
  (forall x, sv_heap sv !! s = Some x ->
     same_roles x (f x) /\ session_ok (sv_config sv) (f x) /\
     (se_verified_peer (f x) <> "" -> certified (sv_config sv) (pa_events H) s (se_verified_peer (f x)))) ->
  wp (set_session s f) (fun _ sv' => server_ok L H taken sv') sv.
Proof. intros Hok Hf. apply sv_wp_update. by apply session_change_ok. Qed.

(** A change that keeps the identity of the session. *)
Lemma set_plain_ok L H taken s f sv : server_ok L H taken sv ->
  (forall x, sv_heap sv !! s = Some x ->
     se_verified_peer (f x) = se_verified_peer x /\ same_roles x (f x) /\
     (session_ok (sv_config sv) x -> session_ok (sv_config sv) (f x))) ->
  wp (set_session s f) (fun _ sv' => server_ok L H taken sv') sv.
Proof.
  intros Hok Hf. apply set_session_ok; [done|]. intros x Hx. destruct (Hf x Hx) as (H1 & H2 & H3).
  split; [done|]. split; [by apply H3, (so_session _ _ _ _ Hok s)|]. rewrite H1. by apply (so_verified _ _ _ _ Hok).
Qed.

Lemma world_ok' L H taken g : (forall w, world_ok w -> world_ok (g w)) -> (forall w, same_queues w (g w)) ->
  keeps L H taken (update (fun sv => server_world (g (sv_world sv)) sv)).
Proof. intros H1 H2 sv Hok. apply sv_wp_update. apply world_change_ok; [done| |done]. by apply H1, (so_world _ _ _ _ Hok). Qed.

Lemma close_socket_ok L H taken env s : keeps L H taken (close_socket (E := E) env s).
Proof. apply sv_keeps_when. intros _. apply count_ok. Qed.

Lemma retire_ok L H taken env s : keeps L H taken (retire (E := E) env s).
Proof.
  apply keeps_with. intros sv x Hok Hx. destruct (se_closed x) eqn:Hc; [done|].
  do 4 (apply sv_wp_bind, sv_wp_update). apply sv_wp_bind.
  set (y := session_waiters 0 (session_closed true x)).
  assert (forall sv', sv_heap sv' = <[s := y]> (sv_heap sv) \/ sv_heap sv' = <[s := session_dial_pending false y]> (sv_heap sv) ->
    sv_config sv' = sv_config sv -> sv_next sv' = sv_next sv -> sv_connecting sv' = sv_connecting sv ->
    sv_delivered sv' = sv_delivered sv -> sv_world sv' = clear_queue (sv_world sv) s ->
    sv_sessions sv' = sv_sessions sv -> sv_pending sv' = snd (remove_if (sv_pending sv) (waits_on s)) ->
    sv_dialing sv' = (if se_dial_pending x then sv_dialing sv ∖ {[se_expected_peer x]} else sv_dialing sv) ->
    wp (update (fun sv => server_sessions (filter (fun k => k <> s) (sv_sessions sv)) sv);; close_socket env s)
      (fun _ sv' => server_ok L H taken sv') sv') as Hend.
  { intros sv' Hh E1 E2 E3 E4 E5 E6 E7 E8. apply sv_wp_bind, sv_wp_update. apply close_socket_ok.
    pose proof (so_session _ _ _ _ Hok s x Hx) as Hs.
    destruct Hh as [Hh|Hh]; [eapply (retired_ok L H taken sv _ s x y)|
      eapply (retired_ok L H taken sv _ s x (session_dial_pending false y))]; try done;
      try (by destruct Hs; split); try (by repeat split); cbn; by rewrite E6. }
  assert (alter (session_waiters 0) s (alter (session_closed true) s (sv_heap sv)) = <[s := y]> (sv_heap sv)) as Hy.
  { rewrite (alter_is_insert _ s _ x Hx), (alter_is_insert _ s _ (session_closed true x)) by apply lookup_insert_eq.
    by rewrite insert_insert_eq. }
  apply sv_wp_when.
  - intros Hd. do 2 (apply sv_wp_bind, sv_wp_update || apply sv_wp_update). apply Hend; try done; cbn.
    + right. rewrite Hy. rewrite (alter_is_insert _ s _ y) by apply lookup_insert_eq. by rewrite insert_insert_eq.
    + by rewrite Hd.
  - intros Hd. apply Hend; try done; cbn; [by left|by rewrite Hd].
Qed.

(** ** Sending *)

(** A change of fields that no limit depends on. *)
Ltac plain_change := split; [done|]; split; [by repeat split|]; destruct 1; split; cbn in *; done.

Lemma write_next_ok L H taken s sv : server_ok L H taken sv ->
  (forall x, sv_heap sv !! s = Some x -> se_in_flight x = []) ->
  wp (write_next s) (fun _ sv' => server_ok L H taken sv') sv.
Proof.
  intros Hok Hidle. unfold write_next. apply sv_wp_bind, sv_wp_get.
  assert (wp (set_session s (session_writing false)) (fun _ sv' => server_ok L H taken sv') sv) as Hstop.
  { apply set_plain_ok; [done|]. intros x Hx. split; [done|]. split; [by repeat split|].
    destruct 1; split; try done. intros _. exact (Hidle x Hx). }
  destruct (wd_queues (sv_world sv) !! s) as [[b [|f l]]|]; try done. clear Hstop.
  apply sv_wp_bind. unfold set_session at 1. apply sv_wp_update.
  assert (server_ok L H taken (server_heap (alter (session_writing true) s (sv_heap sv)) sv)) as Hok1.
  { apply (set_plain_ok L H taken s (session_writing true) sv Hok). intros x Hx. plain_change. }
  apply sv_wp_bind. apply sv_wp_update.
  assert (server_ok L H taken (server_world (start_write (sv_world sv) s)
    (server_heap (alter (session_writing true) s (sv_heap sv)) sv))) as Hok2.
  { apply world_change_ok; [done|apply start_write_ok, (so_world _ _ _ _ Hok)|].
    intros q. by rewrite start_write_queues. }
  apply wp_with_session; [|done]. intros y Hy. apply set_plain_ok; [done|]. intros y' Hy'.
  rewrite Hy in Hy'. injection Hy' as <-. apply alter_cases in Hy as [(_ & x & Hx & ->)|[]]; [|done].
  split; [done|]. split; [by repeat split|]. destruct 1; split; try done. cbn. by rewrite (Hidle x Hx).
Qed.

Lemma send_bytes_ok L H taken env s bytes : keeps L H taken (send_bytes (E := E) env s bytes).
Proof.
  apply keeps_with. intros sv x Hok Hx. destruct (se_closed x); [done|]. apply sv_wp_bind, sv_wp_get.
  pose proof (push_ok (sv_world sv) s bytes (negb (bool_decide (se_peer_id x = "")) || se_tls x)
    (retry_key bytes) (so_world _ _ _ _ Hok)) as Hp.
  pose proof (push_queues (sv_world sv) s bytes (negb (bool_decide (se_peer_id x = "")) || se_tls x) (retry_key bytes)) as Hq.
  destruct (push _ s bytes _ _) as [pushed w]. cbn [snd] in *.
  assert (server_ok L H taken (server_world w sv)) as Hok' by (by apply world_change_ok).
  apply sv_wp_bind, sv_wp_update. destruct pushed; cbn [negb].
  - apply sv_wp_when; [|done]. intros Hr. apply andb_prop in Hr as [_ Hw]. apply negb_true_iff in Hw.
    apply write_next_ok; [done|]. intros y Hy. cbn in Hy. rewrite Hx in Hy. injection Hy as <-.
    by apply (ss_idle _ _ (so_session _ _ _ _ Hok s x Hx)).
  - apply sv_wp_bind. eapply sv_wp_mono; [by apply count_ok|]. intros [] sv' Hok1. by apply retire_ok.
Qed.

Lemma send_frame_ok L H taken env s frame : keeps L H taken (send_frame (E := E) env s frame).
Proof.
  unfold send_frame. repeat case_goal; first [apply send_bytes_ok|apply retire_ok].
Qed.

Lemma send_message_ok L H taken env s type correlation encoded :
  keeps L H taken (send_message (E := E) env s type correlation encoded).
Proof. unfold send_message. destruct encoded; [apply send_frame_ok|apply sv_keeps_skip]. Qed.

Lemma send_hello_ok L H taken env s : keeps L H taken (send_hello (E := E) env s).
Proof.
  apply sv_keeps_get. intros sv Hok. repeat case_goal; by first [apply send_bytes_ok|apply retire_ok].
Qed.

Lemma send_now_to_ok L H taken env peer bytes : keeps L H taken (send_now_to (E := E) env peer bytes).
Proof. apply sv_keeps_get. intros sv Hok. repeat case_goal; by first [apply send_bytes_ok|apply count_ok]. Qed.

Lemma delay_send_ok L H taken key peer bytes : keeps L H taken (delay_send key peer bytes).
Proof.
  apply sv_keeps_get. intros sv Hok. destruct (bool_decide _); [done|]. cbv zeta.
  pose proof Hok as [].
  assert (wd_queues (sv_world sv) !! sv_next sv = None) as Hfresh.
  { apply eq_None_not_Some. intros Hq. apply so_queues0 in Hq. lia. }
  pose proof (push_ok (new_queue (sv_world sv) (sv_next sv)) (sv_next sv) bytes true None
    (new_queue_ok _ _ so_world0 Hfresh)) as Hp.
  pose proof (push_queues (new_queue (sv_world sv) (sv_next sv)) (sv_next sv) bytes true None) as Hq.
  destruct (push _ _ bytes _ _) as [pushed w]. cbn [snd] in *.
  destruct (Nat.leb _ _); [by apply count_ok|]. destruct pushed; cbn [negb]; [|by apply count_ok].
  do 2 (apply sv_wp_bind, sv_wp_update). apply sv_wp_update. split; try done; cbn.
  - intros q Hin. apply Hq in Hin. destruct (decide (q = sv_next sv)) as [-> |Hne]; [lia|].
    unfold new_queue, set_queue in Hin. cbn in Hin. rewrite lookup_insert_ne in Hin by done. apply so_queues0 in Hin. lia.
  - intros s Hs. apply so_heap0 in Hs. lia.
  - intros id i v Hid. apply so_pending_sessions0 in Hid. lia.
  - eapply list.Forall_impl; [done|]. cbn. lia.
Qed.

Lemma send_to_ok L H taken env peer frame : keeps L H taken (send_to (E := E) env peer frame).
Proof.
  apply sv_keeps_get. intros sv Hok.
  repeat case_goal; by first [apply delay_send_ok|apply send_now_to_ok|apply count_ok].
Qed.

Lemma delay_over_ok L H taken env key : keeps L H taken (delay_over (E := E) env key).
Proof.
  apply sv_keeps_get. intros sv Hok. destruct (sv_delayed_sends sv !! key) as [d|]; [|done].
  apply sv_wp_bind, sv_wp_update. apply sv_wp_bind, sv_wp_update. apply send_now_to_ok.
  apply world_change_ok; [by destruct Hok; split|by apply end_session_ok, (so_world _ _ _ _ Hok)|apply end_session_queues].
Qed.

Lemma read_header_ok L H taken s sv : server_ok L H taken sv ->
  (forall x, sv_heap sv !! s = Some x -> se_closed x = false -> se_ready x = true) ->
  wp (read_header s) (fun _ sv' => server_ok L H taken sv') sv.
Proof.
  intros Hok Hr. apply wp_with_session; [|done]. intros x Hx. apply sv_wp_when; [|done]. intros Hc.
  apply negb_true_iff in Hc. apply set_plain_ok; [done|]. intros y Hy. rewrite Hx in Hy. injection Hy as <-.
  split; [done|]. split; [by repeat split|]. destruct 1; split; try done. intros _. exact (Hr x Hx Hc).
Qed.

(** ** Waiting requests *)

Definition limits_le (L L' : Limits) : Prop :=
  lm_next L <= lm_next L' /\ (lm_pending L <= lm_pending L')%nat /\
  (forall s, lm_waiters L s <= lm_waiters L' s) /\ lm_held L' ⊆ lm_held L.

Lemma held_sub heap held held' : held' ⊆ held -> held_ok heap held -> held_ok heap held'.
Proof. intros Hs. unfold held_ok. rewrite !list.Forall_forall. auto. Qed.

Lemma limits_mono L L' H taken sv : limits_le L L' -> server_ok L H taken sv -> server_ok L' H taken sv.
Proof.
  intros (H1 & H2 & H3 & H4) []. split; try done; [lia|lia| |by eapply held_sub]. intros s x Hx Hc.
  destruct (so_waiters0 s x Hx Hc). specialize (H3 s). lia.
Qed.

(** The requests change, and those between the table and their answer. *)
Lemma pending_change_ok L L' H taken taken' sv p : server_ok L H taken sv -> pending_ok p ->
  1 <= pq_next p <= lm_next L' -> (size (pq_items p) <= lm_pending L')%nat ->
  (forall id i v, pq_items p !! id = Some (i, v) -> (wt_session v < sv_next sv)%nat) ->
  Forall (fun v => wt_session v < sv_next sv)%nat taken' ->
  (forall s, waiting s (pq_items p) + taken_of s taken' = waiting s (pq_items (sv_pending sv)) + taken_of s taken) ->
  (forall s, lm_waiters L s <= lm_waiters L' s) -> lm_held L' ⊆ lm_held L ->
  server_ok L' H taken' (server_pending p sv).
Proof.
  intros [] H1 H2 H3 H4 H5 H6 H7 H8. split; try done; [|by eapply held_sub]. intros s x Hx Hc. cbn. rewrite H6.
  destruct (so_waiters0 s x Hx Hc). specialize (H7 s). lia.
Qed.

(** The counter of a session changes with the requests between. *)
Lemma waiters_change_ok L L' H taken taken' sv s x v : server_ok L H taken sv -> sv_heap sv !! s = Some x ->
  lm_next L <= lm_next L' -> (lm_pending L <= lm_pending L')%nat ->
  Forall (fun v => wt_session v < sv_next sv)%nat taken' ->
  (forall k, k <> s -> taken_of k taken' = taken_of k taken /\ lm_waiters L k <= lm_waiters L' k) ->
  (se_closed x = false -> v = waiting s (pq_items (sv_pending sv)) + taken_of s taken' /\ v <= Z.min (lm_waiters L' s) kMaxSessionWaiters) ->
  lm_held L' ⊆ lm_held L ->
  server_ok L' H taken' (server_heap (alter (session_waiters v) s (sv_heap sv)) sv).
Proof.
  intros [] Hx H1 H2 H3 H4 H5 H6.
  assert (attempts (alter (session_waiters v) s (sv_heap sv)) (sv_sessions sv) (sv_connecting sv) =
    attempts (sv_heap sv) (sv_sessions sv) (sv_connecting sv)) as Ha.
  { apply attempts_ext. intros k _. by rewrite !dial_of_view, alter_view. }
  split; try done; cbn [sv_heap server_heap sv_sessions sv_connecting sv_dialing sv_delivered sv_config sv_pending sv_next].
  - intros k [y Hy]. apply so_heap0. apply alter_cases in Hy as [(-> & z & Hz & _)|[_ Hy]]; by eexists.
  - eapply live_ext; [|done]. intros k. by apply alter_view.
  - intros k y Hy. apply alter_cases in Hy as [(-> & z & Hz & ->)|[_ Hy]]; [|by eapply so_session0].
    destruct (so_session0 _ _ Hz). by split.
  - intros k y Hy. apply alter_cases in Hy as [(-> & z & Hz & ->)|[_ Hy]]; [by apply (so_verified0 s z)|by eapply so_verified0].
  - rewrite (filter_admitted_ext (sv_heap sv)); [done|]. intros k _. by rewrite !admitted_view, alter_view.
  - lia.
  - lia.
  - intros k y Hy Hc. apply alter_cases in Hy as [(-> & z & Hz & ->)|[Hne Hy]].
    + rewrite Hx in Hz. injection Hz as <-. by apply H5.
    + destruct (H4 k Hne) as [-> ?]. destruct (so_waiters0 k y Hy Hc). lia.
  - by rewrite Ha.
  - by rewrite Ha.
  - eapply delivered_ext; [|done]. apply alter_kept. intros z _. by repeat split.
  - eapply held_sub; [done|]. eapply held_ext; [|done]. apply alter_kept. intros z _. by repeat split.
Qed.

(** The counter of a request that is answered goes down. *)
Lemma release_ok L H w rest sv x : server_ok L H (w :: rest) sv -> sv_heap sv !! wt_session w = Some x ->
  wp (set_session (wt_session w) (session_waiters (wrap64 (se_waiters x - 1)))) (fun _ sv' => server_ok L H rest sv') sv.
Proof.
  intros Hok Hx. apply sv_wp_update. eapply waiters_change_ok; try done.
  - pose proof (so_taken_sessions _ _ _ _ Hok) as Hf. by apply list.Forall_cons in Hf as [_ ?].
  - intros k Hk. rewrite taken_of_cons, bool_decide_eq_false_2 by congruence. split; [done|lia].
  - intros Hc. destruct (so_waiters _ _ _ _ Hok _ _ Hx Hc) as [Hw Hl].
    rewrite taken_of_cons, bool_decide_eq_true_2 in Hw by done.
    pose proof (waiting_nonneg (wt_session w) (pq_items (sv_pending sv))).
    pose proof (taken_of_nonneg (wt_session w) rest).
    rewrite wrap64_small; [lia|]. unfold u64, max_u64, kMaxSessionWaiters in *. lia.
Qed.

(** A request of a session that is closed is dropped. *)
Lemma drop_taken_ok L H w rest sv : server_ok L H (w :: rest) sv ->
  (forall x, sv_heap sv !! wt_session w = Some x -> se_closed x = true) -> server_ok L H rest sv.
Proof.
  intros [] Hc. apply list.Forall_cons in so_taken_sessions0 as [_ Ht]. split; try done. intros s x Hx Hs.
  destruct (so_waiters0 s x Hx Hs) as [Hw Hl]. rewrite taken_of_cons, bool_decide_eq_false_2 in Hw; [done|].
  intros <-. specialize (Hc x Hx). congruence.
Qed.

Lemma complete_waiter_ok L H env store leader w rest sv : server_ok L H (w :: rest) sv ->
  wp (complete_waiter (E := E) env store leader w) (fun _ sv' => server_ok L H rest sv') sv.
Proof.
  intros Hok. apply wp_with_session.
  - intros x Hx. destruct (se_closed x) eqn:Hc.
    { apply sv_wp_skip. eapply drop_taken_ok; [done|]. intros y Hy. congruence. }
    apply sv_wp_bind. eapply sv_wp_mono; [by apply release_ok|]. intros [] sv' Hok'. cbn beta in *.
    destruct (answered store w); [by apply send_message_ok|by apply retire_ok].
  - intros Hx. eapply drop_taken_ok; [done|]. intros y Hy. congruence.
Qed.

Lemma complete_waiters_ok L H env store leader : keeps L H [] (complete_waiters (E := E) env store leader).
Proof.
  apply sv_keeps_get. intros sv Hok. pose proof Hok as [].
  pose proof (take_loop_woken (size (pq_items (sv_pending sv))) (sv_pending sv) (fe_commit store) [] so_pending0 (Nat.le_refl _))
    as (ids & ready & p & Ht & [Wv Wa Wo] & Hp & Hitems).
  pose proof (take_loop_next (size (pq_items (sv_pending sv))) (sv_pending sv) (fe_commit store) []) as Hn.
  unfold take_through. rewrite Ht in *. cbn [snd app] in *. apply sv_wp_bind, sv_wp_update.
  assert (Forall2 (fun id v => exists i, pq_items (sv_pending sv) !! id = Some (i, v)) ids ready) as Hv
    by (eapply list.Forall2_impl; [exact Wv|]; intros a b (i & Hi & _); eauto).
  assert (NoDup ids) as Hnd.
  { clear -Wo. induction Wo as [|a l _ IH Hall]; [constructor|]. constructor; [|done]. intros Hin.
    rewrite list.Forall_forall in Hall. destruct (Hall a Hin) as (i & va & j & vb & Ha & Hb & Ho).
    rewrite Ha in Hb. injection Hb as <- <-. lia. }
  assert (forall id x, pq_items p !! id = Some x -> pq_items (sv_pending sv) !! id = Some x) as Hsub.
  { intros id x. rewrite Hitems. by case_bool_decide. }
  apply (sv_wp_for_each (fun l sv => server_ok L H l sv)); [intros a rest sv'; apply complete_waiter_ok|].
  eapply pending_change_ok; try done.
  - by rewrite Hn.
  - etrans; [|done]. by apply map_subseteq_size, map_subseteq_spec.
  - intros id i v Hid. apply Hsub in Hid. by eapply so_pending_sessions0.
  - apply list.Forall_forall. intros v Hin. apply list_elem_of_lookup in Hin as [k Hk].
    destruct (Forall2_lookup_r _ _ _ _ _ Hv Hk) as (id & _ & i & Hi). by eapply so_pending_sessions0.
  - intros s. rewrite (waiting_taken s ids (pq_items (sv_pending sv)) (pq_items p) ready) by done.
    change (taken_of s []) with 0. lia.
Qed.

Lemma run_call_ok L H env call : keeps L H [] (run_call (E := E) env call).
Proof.
  destruct call as [peer frame|store leader]; cbn [run_call]; [apply send_to_ok|].
  intros sv Hok. apply sv_wp_bind, wp_of_option. intros f _. by apply complete_waiters_ok.
Qed.

Lemma run_calls_ok L H env calls : keeps L H [] (for_each calls (run_call (E := E) env)).
Proof. apply sv_keeps_for_each. intros call. apply run_call_ok. Qed.

(** ** Clients *)

Definition normal (n : Z) (held : list nat) : Limits := mkLimits n kCapacity (fun _ => kMaxSessionWaiters) held.

(** One place is free, in the table and on the session [s]. *)
Definition roomy (n : Z) (s : nat) : Limits :=
  mkLimits n (pred kCapacity) (fun k => if bool_decide (k = s) then kMaxSessionWaiters - 1 else kMaxSessionWaiters) [s].

Lemma roomy_ok n s H sv : server_ok (normal n [s]) H [] sv -> full (sv_pending sv) = false ->
  (forall x, sv_heap sv !! s = Some x -> se_waiters x < kMaxSessionWaiters) -> server_ok (roomy n s) H [] sv.
Proof.
  intros [] Hf Hw. unfold full in Hf. apply Nat.leb_gt in Hf. split; try done.
  - cbn [roomy lm_pending]. lia.
  - intros k x Hx Hc. destruct (so_waiters0 k x Hx Hc) as [H1 H2]. split; [done|]. cbn in *.
    case_bool_decide as Hk; [|done]. subst k. specialize (Hw x Hx). lia.
Qed.

Lemma roomy_normal n s H sv : server_ok (roomy n s) H [] sv -> server_ok (normal (n + 1) [s]) H [] sv.
Proof.
  apply limits_mono. split; [cbn; lia|]. split; [cbn [roomy normal lm_pending]; lia|]. split; [|done]. intros k. cbn. case_bool_decide; lia.
Qed.

(** A command that waits for its commit. *)
Lemma wait_ok n s H sv w index : server_ok (roomy n s) H [] sv -> n < max_u64 -> wt_session w = s ->
  wp (with_session s (fun session => set_session s (session_waiters (wrap64 (se_waiters session + 1))));;
      update (fun sv => server_pending (snd (add (sv_pending sv) index w)) sv))
    (fun _ sv' => server_ok (normal (n + 1) [s]) H [] sv') sv.
Proof.
  intros Hok Hn Hs. pose proof (so_held _ _ _ _ Hok) as Hheld. apply list.Forall_cons in Hheld as [(x & Hx & Hr) _].
  assert (s < sv_next sv)%nat as Hlt by (apply (so_heap _ _ _ _ Hok); by eexists).
  apply sv_wp_bind, wp_with_session; [|congruence]. intros y Hy. rewrite Hx in Hy. injection Hy as <-. apply sv_wp_update, sv_wp_update.
  assert (server_ok (mkLimits n (pred kCapacity) (fun _ => kMaxSessionWaiters) [s]) H [w]
    (server_heap (alter (session_waiters (wrap64 (se_waiters x + 1))) s (sv_heap sv)) sv)) as Hok1.
  { eapply waiters_change_ok; try done.
    - by constructor; [rewrite Hs|constructor].
    - intros k Hk. rewrite taken_of_cons, bool_decide_eq_false_2 by congruence. split; [lia|]. cbn.
      by rewrite bool_decide_eq_false_2.
    - intros Hc. destruct (so_waiters _ _ _ _ Hok s x Hx Hc) as [Hw Hl]. cbn in Hl.
      rewrite bool_decide_eq_true_2 in Hl by done. rewrite taken_of_cons, bool_decide_eq_true_2 by done.
      pose proof (waiting_nonneg s (pq_items (sv_pending sv))). change (taken_of s []) with 0 in *.
      unfold kMaxSessionWaiters in *. rewrite wrap64_small; [cbn; lia|]. unfold u64, max_u64. lia. }
  pose proof Hok as []. cbn in so_next_id0, so_capacity0.
  assert (pq_items (sv_pending sv) !! pq_next (sv_pending sv) = None) as Hfresh.
  { apply eq_None_not_Some. intros [z Hz]. apply (pd_next _ so_pending0) in Hz. lia. }
  eapply pending_change_ok; [exact Hok1|..]; cbn [sv_pending server_heap lm_next lm_pending normal].
  - apply add_ok; [done|lia].
  - unfold add. cbn [snd pq_next]. rewrite wrap64_small; [lia|]. unfold u64. lia.
  - unfold add. cbn [snd pq_items]. rewrite Hfresh, map_size_insert_None by done. unfold kCapacity in *. lia.
  - intros id i v. unfold add. cbn [snd pq_items]. rewrite Hfresh. intros Hid.
    apply lookup_insert_Some in Hid as [[<- [= <- <-]]|[_ Hid]]; [cbn; by rewrite Hs|]. by apply (so_pending_sessions0 id i v).
  - constructor.
  - intros k. unfold add. cbn [snd pq_items]. rewrite Hfresh, waiting_insert by done. cbn [snd].
    rewrite taken_of_cons. change (taken_of k []) with 0. lia.
  - done.
  - done.
Qed.

Lemma submit_ok n H env s correlation command sv : server_ok (normal n [s]) H [] sv -> n < max_u64 ->
  full (sv_pending sv) = false -> (forall x, sv_heap sv !! s = Some x -> se_waiters x < kMaxSessionWaiters) ->
  wp (submit_command env s correlation command) (fun _ sv' => server_ok (normal (n + 1) [s]) H [] sv') sv.
Proof.
  intros Hok Hn Hf Hw. pose proof (roomy_ok n s H sv Hok Hf Hw) as Hroom. unfold submit_command.
  apply sv_wp_bind, sv_wp_get, sv_wp_bind, wp_of_option. intros [[calls replica] queued] _. apply sv_wp_bind, sv_wp_update, sv_wp_bind.
  eapply sv_wp_mono; [apply run_calls_ok; by destruct Hroom; split|]. intros [] sv1 Hok1. cbn beta in Hok1.
  assert (forall response, wp (send_message env s tClientResponse correlation (encode_client_response response))
    (fun _ sv' => server_ok (normal (n + 1) [s]) H [] sv') sv1) as Hreply.
  { intros response. apply send_message_ok. by apply roomy_normal. }
  apply sv_wp_bind, sv_wp_get. destruct queued as [result|e]; [|apply Hreply]. destruct (eq_committed result).
  - apply sv_wp_bind, wp_of_option. intros store _. apply Hreply.
  - by apply wait_ok.
Qed.

Lemma more_normal n held H sv : server_ok (normal n held) H [] sv -> server_ok (normal (n + 1) held) H [] sv.
Proof. apply limits_mono. split; [cbn; lia|]. split; [done|]. split; [|done]. intros k. cbn. lia. Qed.

Lemma on_client_ok n H env s frame sv : server_ok (normal n [s]) H [] sv -> n < max_u64 ->
  wp (on_client env s frame) (fun _ sv' => server_ok (normal (n + 1) [s]) H [] sv') sv.
Proof.
  intros Hok Hn. unfold on_client. apply sv_wp_bind, sv_wp_get. destruct (fr_type frame =? tStatusQuery).
  - apply sv_wp_bind, wp_of_option. intros status _. apply send_message_ok. by apply more_normal.
  - destruct (decode_client_command (fr_payload frame)) as [message|e];
      [|apply send_message_ok; by apply more_normal].
    destruct (parse_command (cc_canonical message)) as [command|e]; [|apply send_message_ok; by apply more_normal].
    apply wp_with_session; [|intros _; by apply more_normal]. intros x Hx.
    destruct (full (sv_pending sv)) eqn:Hf; [apply send_message_ok; by apply more_normal|].
    destruct (Z.leb_spec kMaxSessionWaiters (se_waiters x)); [apply send_message_ok; by apply more_normal|].
    apply submit_ok; [done..|]. intros y Hy. congruence.
Qed.

Lemma request_timeout_ok n held H env id : keeps (normal n held) H [] (request_timeout env id).
Proof.
  apply sv_keeps_get. intros sv Hok. pose proof Hok as [].
  pose proof (take_ok (sv_pending sv) id so_pending0) as Hp.
  pose proof (take_request_items (sv_pending sv) id) as Hi. pose proof (take_request_next (sv_pending sv) id) as Hn.
  unfold take_request in *. destruct (pq_items (sv_pending sv) !! id) as [[index w]|] eqn:Eid; [|done].
  cbn [snd pq_items pq_next] in Hp, Hi, Hn.
  apply sv_wp_bind, sv_wp_update, sv_wp_bind.
  assert (server_ok (normal n held) H [w] (server_pending (mkPending (pq_next (sv_pending sv)) (delete id (pq_items (sv_pending sv)))
    (if bool_decide (default ∅ (pq_by_index (sv_pending sv) !! index) ∖ {[id]} = ∅)
     then delete index (pq_by_index (sv_pending sv))
     else <[index := default ∅ (pq_by_index (sv_pending sv) !! index) ∖ {[id]}]> (pq_by_index (sv_pending sv)))) sv)) as Hok1.
  { eapply pending_change_ok; try done.
    - cbn [pq_items]. rewrite map_size_delete, Eid. cbn in *. lia.
    - intros id' i v Hid. cbn [pq_items] in Hid. apply lookup_delete_Some in Hid as [_ Hid]. by eapply so_pending_sessions0.
    - constructor; [by eapply so_pending_sessions0|constructor].
    - intros k. cbn [pq_items]. rewrite (waiting_delete k _ id _ Eid), taken_of_cons. cbn [snd].
      change (taken_of k []) with 0. lia. }
  apply wp_with_session.
  - intros x Hx. eapply sv_wp_mono; [by apply release_ok|]. intros [] sv' Hok'. by apply send_message_ok.
  - intros Hx. apply send_message_ok. eapply drop_taken_ok; [exact Hok1|]. intros x Hx'. congruence.
Qed.

End Inv.
