(* ===== verification/NodeServerRun.v ===== *)
(** * Every event keeps the invariant of the node server

    The handlers of [NodeServer], one by one, and then any sequence of events. *)

From S2P Require Import Prelude Text Types Model EventCodec Machine Bytes FileEngine OutboundQueue PendingRequests Frame Messages MessageCodec Config PeerTls ReplicaTypes NodeServer NodeServerInv.

(** One more client among the sessions. *)
Lemma filter_admit heap heap' s l : NoDup l -> (forall k, k <> s -> admitted_in heap' k = admitted_in heap k) ->
  (length (List.filter (admitted_in heap') l) <= S (length (List.filter (admitted_in heap) l)))%nat.
Proof.
  intros Hnd Hk. induction l as [|a l IH]; [cbn; lia|]. apply list.NoDup_cons in Hnd as [Hnot Hnd]. cbn [List.filter].
  destruct (decide (a = s)) as [-> |Hne].
  - rewrite (filter_admitted_ext heap heap' l); [|intros k Hin; apply Hk; by intros ->].
    destruct (admitted_in heap' s), (admitted_in heap s); cbn [length]; lia.
  - rewrite (Hk a Hne). specialize (IH Hnd). destruct (admitted_in heap a); cbn [length]; lia.
Qed.

(** A session whose attempt is over. *)
Lemma omap_none (f g : nat -> option string) s (l : list nat) : g s = None -> (forall k, k <> s -> g k = f k) ->
  omap g l = omap f (filter (fun x => x <> s) l).
Proof.
  intros Hs Hk. induction l as [|a l IH]; [done|]. rewrite filter_cons. cbn [omap list_omap].
  destruct (decide (a <> s)) as [Hne|Heq].
  - cbn [omap list_omap]. by rewrite (Hk a Hne), IH.
  - apply dec_stable in Heq as ->. by rewrite Hs, IH.
Qed.

Section Run.
Context {R E : Type} `{!RuntimeOps R E}.
Implicit Types (sv : Server R) (env : HandlerEnv E).

(** ** Sessions that a handler holds *)

Lemma hold_ok n held H sv s x : server_ok (normal n held) H [] sv -> sv_heap sv !! s = Some x -> se_ready x = true ->
  server_ok (normal n (s :: held)) H [] sv.
Proof. intros [] Hx Hr. split; try done. cbn in *. constructor; eauto. Qed.

Lemma drop_held_ok n held H sv : server_ok (normal n held) H [] sv -> server_ok (normal n []) H [] sv.
Proof.
  apply limits_mono. split; [done|]. split; [done|]. split; [intros; cbn; lia|]. apply list_subseteq_nil.
Qed.

Lemma read_header_held L H taken s : s ∈ lm_held L -> keeps (R := R) L H taken (read_header s).
Proof.
  intros Hs sv Hok. apply read_header_ok; [done|]. intros x Hx _. pose proof (so_held _ _ _ _ Hok) as Hh.
  unfold held_ok in Hh. rewrite list.Forall_forall in Hh. destruct (Hh s Hs) as (y & Hy & Hr). congruence.
Qed.

Lemma reject_ok L H taken env s : keeps (R := R) L H taken (reject env s).
Proof. apply sv_keeps_bind; [apply count_ok|intros []; apply retire_ok]. Qed.

Lemma sv_keeps_ret {A} L H taken (a : A) : keeps (R := R) L H taken (mret a).
Proof. intros sv Hok. done. Qed.

(** ** Management *)

Lemma close_sessions_ok L H taken env peer : keeps (R := R) L H taken (close_sessions env peer).
Proof.
  apply sv_keeps_get. intros sv Hok. apply sv_keeps_for_each; [|done]. intros s. apply keeps_with. intros sv' x Hok' _.
  apply sv_keeps_when; [|done]. intros _. apply close_socket_ok.
Qed.

Lemma inject_fault_ok L H taken env query : keeps (R := R) L H taken (inject_fault env query).
Proof.
  apply sv_keeps_get. intros sv Hok. cbv zeta. destruct (nc_test_mode (sv_config sv)); cbn [negb]; [|done].
  destruct (_ || _).
  - destruct (is_configured_peer _ _); cbn [negb]; [|done]. destruct (bool_decide _).
    + apply sv_wp_bind, sv_wp_update. apply sv_keeps_bind; [apply close_sessions_ok|intros []; apply sv_keeps_ret|by destruct Hok; split].
    + apply sv_wp_bind, sv_wp_update. apply sv_wp_ret. by destruct Hok; split.
  - destruct (bool_decide _); [do 3 (apply sv_wp_bind, sv_wp_update)|apply sv_wp_bind, sv_wp_update]; apply sv_wp_ret; by destruct Hok; split.
Qed.

Lemma manage_ok L H taken env query : keeps L H taken (manage env query).
Proof.
  apply sv_keeps_get. intros sv Hok. cbv zeta. destruct (bool_decide _).
  { apply sv_wp_bind, wp_of_option. intros store _. destruct (state_refused _ _); [done|].
    apply sv_wp_bind. apply sv_wp_when.
    - intros _. apply sv_wp_bind, sv_wp_update, sv_wp_update. apply sv_wp_bind, sv_wp_get, sv_wp_ret. by destruct Hok; split.
    - intros _. apply sv_wp_bind, sv_wp_get. by apply sv_wp_ret. }
  destruct (bool_decide _); [apply sv_wp_bind, wp_of_option; by intros store _|].
  destruct (bool_decide _); [done|].
  destruct (bool_decide _); [apply sv_wp_bind, wp_of_option; by intros store _|].
  destruct (is_fault _); [by apply inject_fault_ok|done].
Qed.

Lemma on_management_ok L H taken env s frame : keeps L H taken (on_management env s frame).
Proof.
  apply sv_keeps_bind; [|intros reply; apply send_message_ok].
  destruct (ev_local env); cbn [negb]; [|apply sv_keeps_ret]. destruct (decode_management_query _); [apply manage_ok|apply sv_keeps_ret].
Qed.

(** ** Dispatch *)

Lemma admit_ok L H taken sv s x : server_ok L H taken sv -> sv_heap sv !! s = Some x ->
  se_client_admitted x = true \/
  (clients sv < kMaxClientSessions)%nat /\ se_peer_id x = "" /\ se_tls x = false ->
  server_ok L H taken (server_heap (alter (session_client_admitted true) s (sv_heap sv)) sv).
Proof.
  intros Hok Hx [Ha|(Hc & Hp & Ht)].
  { apply session_change_ok; [done|]. intros y Hy. rewrite Hx in Hy. injection Hy as <-.
    pose proof (so_session _ _ _ _ Hok s x Hx) as []. split; [by repeat split|].
    split; [split; try done; intros _; by apply ss_client|]. by apply (so_verified _ _ _ _ Hok s x Hx). }
  destruct Hok.
  assert (attempts (alter (session_client_admitted true) s (sv_heap sv)) (sv_sessions sv) (sv_connecting sv) =
    attempts (sv_heap sv) (sv_sessions sv) (sv_connecting sv)) as Hat.
  { apply attempts_ext. intros k _. by rewrite !dial_of_view, alter_view. }
  split; try done; cbn [sv_heap server_heap sv_sessions sv_connecting sv_dialing sv_delivered sv_config sv_pending sv_next].
  - intros k [y Hy]. apply so_heap. apply alter_cases in Hy as [(-> & z & Hz & _)|[_ Hy]]; by eexists.
  - eapply live_ext; [|done]. intros k. by apply alter_view.
  - intros k y Hy. apply alter_cases in Hy as [(-> & z & Hz & ->)|[_ Hy]]; [|by eapply so_session].
    rewrite Hx in Hz. injection Hz as <-. destruct (so_session _ _ Hx). by split.
  - intros k y Hy. apply alter_cases in Hy as [(-> & z & Hz & ->)|[_ Hy]]; [by apply (so_verified s z)|by eapply so_verified].
  - etrans; [apply (filter_admit (sv_heap sv) _ s); [by destruct so_live|]|exact Hc].
    intros k Hk. unfold admitted_in. by rewrite lookup_alter_ne.
  - intros k y Hy Hcl. apply alter_cases in Hy as [(-> & z & Hz & ->)|[_ Hy]]; [by apply (so_waiters s z)|by apply so_waiters].
  - by rewrite Hat.
  - by rewrite Hat.
  - eapply delivered_ext; [|done]. apply alter_kept. intros z _. by repeat split.
  - eapply held_ext; [|done]. apply alter_kept. intros z _. by repeat split.
Qed.

Lemma on_handshake_ok L H taken env s frame sv x : server_ok L H taken sv -> sv_heap sv !! s = Some x ->
  se_ready x = true -> wp (on_handshake env s x frame) (fun _ sv' => server_ok L H taken sv') sv.
Proof.
  intros Hok Hx Hr. unfold on_handshake. apply sv_wp_bind, sv_wp_get.
  destruct (se_client_admitted x) eqn:Ea; [by apply retire_ok|].
  destruct (decode_handshake _) as [hello|e]; [|by apply count_ok].
  destruct (is_configured_peer _ _) eqn:Ec; cbn [negb orb]; [|by apply reject_ok].
  destruct (negb _ && negb _) eqn:Ep; [by apply reject_ok|].
  apply set_session_ok; [done|]. intros y Hy. rewrite Hx in Hy. injection Hy as <-.
  pose proof (so_session _ _ _ _ Hok s x Hx) as []. split; [by repeat split|].
  split; [|by apply (so_verified _ _ _ _ Hok s x Hx)].
  split; try done; cbn in *.
  - rewrite Ea. done.
  - by right.
  - intros Ht _. destruct (ss_tls Ht Hr) as (T1 & T2 & T3). split; [done|]. split; [done|].
    apply andb_false_iff in Ep as [Ep|Ep]; apply negb_false_iff, bool_decide_eq_true in Ep; congruence.
Qed.

Lemma on_replication_ok L H env s frame sv x : server_ok L H [] sv -> sv_heap sv !! s = Some x -> se_ready x = true ->
  wrong_plane (sv_config sv) x frame = false -> is_client_frame frame = false ->
  wp (on_replication env s x frame) (fun _ sv' => server_ok L H [] sv') sv.
Proof.
  intros Hok Hx Hr Hw Hf. unfold on_replication. apply sv_wp_bind, sv_wp_get. cbv zeta.
  destruct (is_configured_peer _ _) eqn:Ec; cbn [negb]; [|by apply count_ok].
  destruct (unreachable _ _); [by apply count_ok|]. apply sv_wp_bind, sv_wp_update, sv_wp_bind, wp_of_option.
  intros [calls replica] _. apply sv_wp_bind, sv_wp_update. apply run_calls_ok.
  destruct Hok. split; try done. cbn. apply list.Forall_app. split; [done|]. constructor; [|constructor].
  split; [done|]. split; [done|]. exists x. split; [done|]. intros Ht. unfold wrong_plane in Hw.
  rewrite Ht, Hf in Hw. destruct (se_tls x) eqn:Etls; [|done]. split; [done|]. split; [done|].
  by destruct (ss_tls _ _ (so_session _ _ Hx) Etls Hr) as (_ & _ & ->).
Qed.

Lemma dispatch_ok n H env s frame sv : server_ok (normal n [s]) H [] sv -> n < max_u64 ->
  wp (dispatch env s frame) (fun _ sv' => server_ok (normal (n + 1) [s]) H [] sv') sv.
Proof.
  intros Hok Hn. apply wp_with_session; [|intros _; by apply more_normal]. intros x Hx. apply sv_wp_bind, sv_wp_get.
  pose proof (so_held _ _ _ _ Hok) as Hheld. cbn in Hheld. apply list.Forall_cons in Hheld as [(y & Hy & Hr) _].
  rewrite Hx in Hy. injection Hy as <-.
  destruct (wrong_plane (sv_config sv) x frame) eqn:Hw; [apply reject_ok; by apply more_normal|].
  destruct (is_client_frame frame && negb (se_client_admitted x) && client_refused sv x) eqn:Href;
    [apply reject_ok; by apply more_normal|].
  apply sv_wp_bind. apply sv_wp_when.
  - intros Hc. rewrite Hc in Href. apply sv_wp_update.
    assert (server_ok (normal n [s]) H [] (server_heap (alter (session_client_admitted true) s (sv_heap sv)) sv)) as Hok1.
    { apply (admit_ok _ _ _ sv s x Hok Hx). destruct (se_client_admitted x) eqn:Ea; [by left|right]. cbn in Href.
      unfold client_refused in Href. apply orb_false_iff in Href as [H1 H2]. apply Nat.leb_gt in H1.
      apply negb_false_iff, bool_decide_eq_true in H2. split; [done|]. split; [done|]. unfold wrong_plane in Hw.
      rewrite Hc in Hw. destruct (se_tls x); [|done]. by rewrite orb_true_r in Hw. }
    assert ((fr_type frame =? tHandshake) = false) as ->.
    { unfold is_client_frame in Hc. destruct (Z.eqb_spec (fr_type frame) tHandshake) as [Et|]; [|done]. by rewrite Et in Hc. }
    destruct (fr_type frame =? tManagementQuery); [apply on_management_ok; by apply more_normal|].
    rewrite Hc. by apply on_client_ok.
  - intros Hc. assert ((fr_type frame =? tManagementQuery) = false) as ->.
    { unfold is_client_frame in Hc. by destruct (fr_type frame =? tManagementQuery). }
    rewrite Hc. destruct (_ =? tHandshake).
    + eapply sv_wp_mono; [by apply on_handshake_ok|]. intros [] sv'. apply more_normal.
    + eapply sv_wp_mono; [by apply on_replication_ok|]. intros [] sv'. apply more_normal.
Qed.
(** ** New sessions *)

(** The session that [new_session] makes. *)
Definition fresh (remote_id : string) (encrypted : bool) : Session :=
  mkSession (if encrypted then "" else remote_id) remote_id "" encrypted 0 false NotReading
    [] false false false false (encrypted && negb (bool_decide (remote_id = ""))).

Lemma fresh_ok config remote_id encrypted :
  (encrypted = false -> remote_id = "" \/ is_configured_peer config remote_id = true) ->
  session_ok config (fresh remote_id encrypted).
Proof. intros Hr. split; cbn; try done; [|lia]. destruct encrypted; [by left|by apply Hr]. Qed.

Lemma waiting_none s items : (forall id i v, items !! id = Some (i, v) -> wt_session v <> s) -> waiting s items = 0.
Proof.
  intros Hn. unfold waiting. replace (filter (waits_for s) items) with (∅ : gmap Z (Z * Pending)); [done|].
  symmetry. apply map_empty. intros id. apply map_lookup_filter_None. right. intros [i v] Hid Hw. by apply (Hn id i v Hid).
Qed.

Lemma new_session_ok n held H sv remote_id encrypted : server_ok (normal n held) H [] sv ->
  (length (sv_sessions sv) < kMaxSessions)%nat ->
  (encrypted = false -> remote_id = "" \/ is_configured_peer (sv_config sv) remote_id = true) ->
  (encrypted = true -> remote_id <> "" ->
     (remote_id ∉ attempts (sv_heap sv) (sv_sessions sv) (sv_connecting sv)) /\ remote_id ∈ sv_dialing sv) ->
  wp (new_session remote_id encrypted)
    (fun s sv' => s = sv_next sv /\ sv_heap sv' = <[s := fresh remote_id encrypted]> (sv_heap sv) /\
       (encrypted = false -> attempts (sv_heap sv') (sv_sessions sv') (sv_connecting sv') =
          attempts (sv_heap sv) (sv_sessions sv) (sv_connecting sv)) /\
       server_ok (normal n held) H [] sv') sv.
Proof.
  intros [] Hlen Hp Hd. unfold new_session. apply sv_wp_bind, sv_wp_get. do 4 (apply sv_wp_bind, sv_wp_update). apply sv_wp_ret.
  split; [done|]. split; [done|]. fold (fresh remote_id encrypted). set (s := sv_next sv). set (heap := <[s := fresh remote_id encrypted]> (sv_heap sv)).
  assert (sv_heap sv !! s = None) as Hnone by (apply eq_None_not_Some; intros Hs; apply so_heap in Hs; unfold s in Hs; lia).
  assert (s ∉ sv_sessions sv) as Hnot.
  { intros Hin. apply so_live in Hin as (x & Hx & _). congruence. }
  assert (forall k, k ∈ sv_sessions sv -> k <> s) as Hne by (intros k Hk ->; done).
  assert (attempts heap (sv_sessions sv ++ [s]) (sv_connecting sv) =
    attempts (sv_heap sv) (sv_sessions sv) (sv_connecting sv) ++
    (if encrypted && negb (bool_decide (remote_id = "")) then [remote_id] else []))%list as Ha.
  { rewrite <- (attempts_ext (sv_heap sv) heap) by
      (intros k Hk; unfold dial_of, heap; by rewrite lookup_insert_ne by (symmetry; by apply Hne)).
    unfold attempts. rewrite omap_app, app_assoc. f_equal. unfold dial_of, heap. cbn [omap list_omap].
    rewrite lookup_insert_eq. cbn. by destruct (encrypted && _). }
  split; [intros ->; cbn [andb] in Ha; by rewrite app_nil_r in Ha|].
  assert (forall k x, sv_heap sv !! k = Some x -> exists y, heap !! k = Some y /\ ready_kept x y) as Hk.
  { intros k x Hx. exists x. split; [|by repeat split]. unfold heap. rewrite lookup_insert_ne; [done|]. intros <-. congruence. }
  split; cbn [sv_heap server_heap sv_sessions sv_connecting sv_dialing sv_delivered sv_config sv_pending sv_next
    server_sessions server_world server_next sv_world]; fold s; fold heap.
  - apply new_queue_ok; [done|]. apply eq_None_not_Some. intros Hq. apply so_queues in Hq. unfold s in Hq. lia.
  - intros q Hq. unfold new_queue, set_queue in Hq. cbn in Hq. destruct (decide (q = s)) as [-> |Hq'].
    + lia.
    + rewrite lookup_insert_ne in Hq by done. apply so_queues in Hq. unfold s. lia.
  - intros k [y Hy]. apply insert_cases in Hy as [[-> _]|[_ Hy]]; [lia|].
    assert (k < sv_next sv)%nat by (apply so_heap; by eexists). unfold s. lia.
  - destruct so_live as [Hnd Hl]. split.
    + apply list.NoDup_app. split; [done|]. split; [|apply list.NoDup_singleton].
      intros k Hin Hs. apply list_elem_of_singleton in Hs as ->. done.
    + intros k. rewrite elem_of_app, list_elem_of_singleton, Hl. unfold heap.
      destruct (decide (k = s)) as [-> |Hks].
      * rewrite lookup_insert_eq. split; [intros _; by eexists|by right].
      * rewrite lookup_insert_ne by done. naive_solver.
  - rewrite length_app. cbn. lia.
  - intros k y Hy. apply insert_cases in Hy as [[-> ->]|[_ Hy]]; [by apply fresh_ok|by eapply so_session].
  - intros k y Hy. apply insert_cases in Hy as [[-> ->]|[_ Hy]]; [done|by eapply so_verified].
  - rewrite List.filter_app, length_app, (filter_admitted_ext (sv_heap sv)).
    + unfold admitted_in at 2, heap. cbn [List.filter]. rewrite lookup_insert_eq. cbn. lia.
    + intros k Hin. unfold admitted_in, heap. by rewrite lookup_insert_ne by (symmetry; by apply Hne).
  - done.
  - done.
  - done.
  - intros id i v Hid. apply so_pending_sessions in Hid. unfold s. lia.
  - constructor.
  - intros k y Hy Hc. apply insert_cases in Hy as [[-> ->]|[_ Hy]]; [|by apply so_waiters].
    rewrite waiting_none; [by cbn|]. intros id i v Hid. apply so_pending_sessions in Hid. unfold s. lia.
  - rewrite Ha. apply list.NoDup_app. split; [done|]. destruct (encrypted && _) eqn:Ee.
    + apply andb_prop in Ee as [-> Ee]. apply negb_true_iff, bool_decide_eq_false in Ee.
      destruct (Hd eq_refl Ee) as [Hin _]. split; [|apply list.NoDup_singleton].
      intros id Hid Hs. apply list_elem_of_singleton in Hs as ->. done.
    + split; [intros id _ Hs; by apply elem_of_nil in Hs|constructor].
  - intros id. rewrite Ha, elem_of_app. intros [Hid|Hid]; [by apply so_dialing|].
    destruct (encrypted && _) eqn:Ee; [|by apply elem_of_nil in Hid]. apply list_elem_of_singleton in Hid as ->.
    apply andb_prop in Ee as [-> Ee]. apply negb_true_iff, bool_decide_eq_false in Ee. by destruct (Hd eq_refl Ee).
  - by eapply delivered_ext.
  - by eapply held_ext.
  - done.
  - done.
Qed.
Lemma start_session_ok n H env s outbound sv x : server_ok (normal n []) H [] sv -> sv_heap sv !! s = Some x ->
  se_ready x = false -> wp (start_session env s outbound) (fun _ sv' => server_ok (normal n []) H [] sv') sv.
Proof.
  intros Hok Hx Hr. apply wp_with_session; [|congruence]. intros y Hy. rewrite Hx in Hy. injection Hy as <-.
  destruct (se_tls x) eqn:Et; cbn [negb].
  - apply set_plain_ok; [done|]. intros y Hy. rewrite Hx in Hy. injection Hy as <-. split; [done|].
    split; [by repeat split|]. destruct 1; split; try done. cbn. congruence.
  - apply sv_wp_bind, sv_wp_update.
    assert (server_ok (normal n [s]) H [] (server_heap (alter (session_ready true) s (sv_heap sv)) sv)) as Hok1.
    { eapply hold_ok; [|cbn; by rewrite lookup_alter_eq, Hx|done].
      apply (set_plain_ok _ _ _ s (session_ready true) sv Hok). intros y Hy. rewrite Hx in Hy. injection Hy as <-.
      split; [done|]. split; [by repeat split|]. destruct 1; split; try done. cbn. congruence. }
    apply sv_wp_bind. eapply sv_wp_mono; [apply (read_header_held (normal n [s]) H [] s (list_elem_of_here _ _)), Hok1|]. intros [] sv' Hok'.
    apply sv_wp_when; [|intros _; by eapply drop_held_ok]. intros _. eapply sv_wp_mono; [by apply send_hello_ok|].
    intros [] sv2 Hok2. by eapply drop_held_ok.
Qed.

(** A session that was just made is started. *)
Lemma started_ok n H env sv remote_id encrypted outbound (k : @V R unit) : server_ok (normal n []) H [] sv ->
  (length (sv_sessions sv) < kMaxSessions)%nat ->
  (encrypted = false -> remote_id = "" \/ is_configured_peer (sv_config sv) remote_id = true) ->
  (encrypted = true -> remote_id <> "" ->
     (remote_id ∉ attempts (sv_heap sv) (sv_sessions sv) (sv_connecting sv)) /\ remote_id ∈ sv_dialing sv) ->
  (forall sv', server_ok (normal n []) H [] sv' ->
     (encrypted = false -> attempts (sv_heap sv') (sv_sessions sv') (sv_connecting sv') =
        attempts (sv_heap sv) (sv_sessions sv) (sv_connecting sv)) ->
     wp k (fun _ sv2 => server_ok (normal n []) H [] sv2 /\ sv_heap sv2 = sv_heap sv') sv') ->
  wp (s ← new_session remote_id encrypted; k;; start_session env s outbound)
    (fun _ sv' => server_ok (normal n []) H [] sv') sv.
Proof.
  intros Hok Hlen Hp Hd Hk. apply sv_wp_bind. eapply sv_wp_mono; [by apply new_session_ok|].
  intros s sv' (-> & Hheap & Ha & Hok'). apply sv_wp_bind. eapply sv_wp_mono; [by apply Hk|].
  intros [] sv2 [Hok2 Hh2]. apply (start_session_ok n H env _ outbound sv2 (fresh remote_id encrypted)); [done| |done].
  rewrite Hh2, Hheap. apply lookup_insert_eq.
Qed.

Lemma accepted_ok n H env : keeps (normal n []) H [] (accepted (R := R) env).
Proof.
  apply sv_keeps_get. intros sv Hok. cbv zeta. destruct (_ || _) eqn:Eo.
  - apply sv_wp_bind. eapply sv_wp_mono; [by apply count_ok|]. intros [] sv' Hok'. by destruct (ev_socket_failed env).
  - apply orb_false_iff in Eo as [Eo _]. apply Nat.leb_gt in Eo.
    apply (started_ok n H env sv "" false false skip); [done|done|by left|done|]. intros sv' Hok' _. by apply sv_wp_skip.
Qed.

Lemma peer_accepted_ok n H env : keeps (normal n []) H [] (peer_accepted (R := R) env).
Proof.
  apply sv_keeps_get. intros sv Hok. destruct (Nat.leb _ _) eqn:Eo.
  - apply sv_wp_bind. eapply sv_wp_mono; [by apply count_ok|]. intros [] sv' Hok'. by destruct (ev_socket_failed env).
  - apply Nat.leb_gt in Eo. apply (started_ok n H env sv "" true false skip); [done|done|by left|done|].
    intros sv' Hok' _. by apply sv_wp_skip.
Qed.

(** ** Dialing *)

Lemma dial_loop_ok L H taken make_address peers :
  forall sv, server_ok L H taken sv ->
  (has_tls (sv_config sv) = false -> Forall (fun peer => is_configured_peer (sv_config sv) (ep_id peer) = true) peers) ->
  wp (dial_loop make_address peers) (fun _ sv' => server_ok L H taken sv') sv.
Proof.
  induction peers as [|peer rest IH]; intros sv Hok Hp; [done|]. cbn [dial_loop]. apply sv_wp_bind, sv_wp_get. cbv zeta.
  assert (has_tls (sv_config sv) = false -> Forall (fun peer => is_configured_peer (sv_config sv) (ep_id peer) = true) rest)
    as Hrest by (intros Ht; specialize (Hp Ht); by apply list.Forall_cons in Hp as [_ ?]).
  destruct (_ || _) eqn:Eo; [by apply IH|].
  destruct (Nat.leb _ _); [done|]. apply sv_wp_bind, sv_wp_update, sv_wp_bind, wp_of_option. intros a _. apply sv_wp_bind, sv_wp_update.
  apply IH; [|done]. apply orb_false_iff in Eo as [Eo _]. apply orb_false_iff in Eo as [_ Eo].
  apply bool_decide_eq_false in Eo. destruct Hok.
  assert (attempts (sv_heap sv) (sv_sessions sv) (sv_connecting sv ++ [peer]) ≡ₚ
    ep_id peer :: attempts (sv_heap sv) (sv_sessions sv) (sv_connecting sv)) as Ha.
  { unfold attempts. rewrite fmap_app. cbn [fmap list_fmap]. rewrite <- app_assoc. apply (Permutation_app_swap_app _ [_]). }
  split; try done; cbn [sv_heap sv_sessions sv_connecting sv_dialing server_connecting server_dialing sv_config].
  - rewrite Ha. constructor; [|done]. intros Hin. by apply Eo, so_dialing.
  - intros id. rewrite Ha. intros Hid. apply elem_of_cons in Hid as [-> |Hid]; [set_solver|].
    apply elem_of_union. right. by apply so_dialing.
  - intros Ht. apply list.Forall_app. split; [by apply so_connecting|]. specialize (Hp Ht).
    apply list.Forall_cons in Hp as [? _]. by constructor.
Qed.

Lemma configured_self config : Forall (fun peer => is_configured_peer config (ep_id peer) = true) (nc_peers config).
Proof.
  apply list.Forall_forall. intros peer Hin. unfold is_configured_peer. apply existsb_exists. exists peer.
  split; [by apply list_elem_of_In|]. by apply bool_decide_eq_true_2.
Qed.

Lemma dial_missing_ok L H taken make_address : keeps (R := R) L H taken (dial_missing make_address).
Proof.
  apply sv_keeps_get. intros sv Hok. apply dial_loop_ok; [done|]. intros Ht. unfold has_tls in Ht.
  destruct (nc_peer_tls (sv_config sv)); [done|]. apply configured_self.
Qed.

(** The end of an attempt, without that of its peer. *)
Lemma attempt_over_ok n held H sv i peer : server_ok (normal n held) H [] sv -> sv_connecting sv !! i = Some peer ->
  server_ok (normal n held) H [] (server_connecting (delete i (sv_connecting sv)) sv) /\
  (ep_id peer ∉ attempts (sv_heap sv) (sv_sessions sv) (delete i (sv_connecting sv))) /\ ep_id peer ∈ sv_dialing sv.
Proof.
  intros [] Hi.
  assert (attempts (sv_heap sv) (sv_sessions sv) (sv_connecting sv) ≡ₚ
    ep_id peer :: attempts (sv_heap sv) (sv_sessions sv) (delete i (sv_connecting sv))) as Ha.
  { unfold attempts. by rewrite (delete_Permutation _ _ _ Hi) at 1. }
  assert (NoDup (ep_id peer :: attempts (sv_heap sv) (sv_sessions sv) (delete i (sv_connecting sv)))) as Hnd by (by rewrite <- Ha).
  apply list.NoDup_cons in Hnd as [Hnot Hnd]. split; [|split; [done|]].
  - split; try done; cbn [sv_heap sv_sessions sv_connecting sv_dialing server_connecting sv_config].
    + intros id Hid. apply so_dialing. rewrite Ha. by apply list_elem_of_further.
    + intros Ht. specialize (so_connecting Ht). by apply Forall_delete.
  - apply so_dialing. rewrite Ha. apply list_elem_of_here.
Qed.

Lemma erase_ok L H taken sv id : server_ok L H taken sv -> id ∉ attempts (sv_heap sv) (sv_sessions sv) (sv_connecting sv) ->
  server_ok L H taken (server_dialing (sv_dialing sv ∖ {[id]}) sv).
Proof.
  intros [] Hnot. split; try done. intros x Hx. cbn in *. apply elem_of_difference. split; [by apply so_dialing|].
  apply not_elem_of_singleton. by intros ->.
Qed.
Lemma connected_ok n H env i failed : keeps (normal n []) H [] (connected (R := R) env i failed).
Proof.
  apply sv_keeps_get. intros sv Hok. destruct (sv_connecting sv !! i) as [peer|] eqn:Ei; [|done].
  destruct (attempt_over_ok n [] H sv i peer Hok Ei) as (Hok1 & Hnot & Hin). apply sv_wp_bind, sv_wp_update.
  destruct failed; [by apply sv_wp_update, erase_ok|]. destruct (Nat.leb _ _) eqn:El.
  { apply sv_wp_bind, sv_wp_update, sv_wp_bind. eapply sv_wp_mono; [apply count_ok, erase_ok; done|]. intros [] sv' Hok'.
    apply sv_keeps_when; [|done]. intros _. apply count_ok. }
  apply Nat.leb_gt in El. apply sv_wp_bind, sv_wp_update.
  apply (started_ok n H env _ (ep_id peer) (has_tls (sv_config sv)) true
    (whenV (negb (has_tls (sv_config sv))) (erase_dialing (ep_id peer)))).
  - by destruct Hok1; split.
  - done.
  - intros Ht. right. pose proof (so_connecting _ _ _ _ Hok Ht) as Hf. rewrite list.Forall_forall in Hf.
    apply Hf. by eapply list_elem_of_lookup_2.
  - done.
  - intros sv' Hok' Ha. apply sv_wp_when; [|done]. intros Ht. apply negb_true_iff in Ht. apply sv_wp_update.
    split; [|done]. apply erase_ok; [done|]. by rewrite (Ha Ht).
Qed.

(** ** TLS handshakes *)

Lemma verify_ok L H taken s check : Verify s check ∈ pa_events H -> keeps (R := R) L H taken (verify_callback s check).
Proof.
  intros Hin. apply sv_keeps_get. intros sv Hok. apply wp_with_session; [|done]. intros x Hx. apply sv_wp_when; [|done].
  intros Hh. apply set_session_ok; [done|]. intros y Hy. rewrite Hx in Hy. injection Hy as <-.
  pose proof (so_session _ _ _ _ Hok s x Hx) as []. split; [|split].
  - repeat split; try done. intros Ht Hr. destruct (ss_tls Ht Hr). congruence.
  - split; try done. intros Ht Hr. destruct (ss_tls Ht Hr). congruence.
  - destruct (verify_peer_certificate _ _ _ _) as [[] verified] eqn:Ev; cbn.
    + apply verify_records in Ev as [-> |(V1 & V2 & V3 & V4 & V5 & _)]; [by apply (so_verified _ _ _ _ Hok)|].
      intros _. by exists check.
    + apply verify_refuses in Ev as ->. by apply (so_verified _ _ _ _ Hok).
Qed.

(** The attempt of a session ends with its handshake. *)
Lemma dialed_ok L H taken sv s x : server_ok L H taken sv -> sv_heap sv !! s = Some x -> se_closed x = false ->
  se_dial_pending x = true ->
  server_ok L H taken (server_heap (alter (session_dial_pending false) s (sv_heap sv))
    (server_dialing (sv_dialing sv ∖ {[se_expected_peer x]}) sv)).
Proof.
  intros Hok Hx Hc Hd. destruct (attempts_without sv s x (session_dial_pending false x) L H taken Hok Hx Hc) as [Ha1 Ha2].
  rewrite Hd in Ha2. rewrite <- (alter_is_insert (session_dial_pending false) s _ x Hx) in Ha1, Ha2.
  assert (attempts (alter (session_dial_pending false) s (sv_heap sv)) (sv_sessions sv) (sv_connecting sv) =
    attempts (alter (session_dial_pending false) s (sv_heap sv)) (filter (fun k => k <> s) (sv_sessions sv)) (sv_connecting sv))
    as Ha.
  { unfold attempts. f_equal. apply omap_none; [|done]. unfold dial_of. by rewrite lookup_alter_eq, Hx. }
  destruct Hok.
  split; try done; cbn [sv_heap server_heap server_dialing sv_sessions sv_connecting sv_dialing sv_delivered sv_config sv_pending sv_next].
  - intros k [y Hy]. apply so_heap. apply alter_cases in Hy as [(-> & z & Hz & _)|[_ Hy]]; by eexists.
  - eapply live_ext; [|done]. intros k. by apply alter_view.
  - intros k y Hy. apply alter_cases in Hy as [(-> & z & Hz & ->)|[_ Hy]]; [|by eapply so_session].
    destruct (so_session _ _ Hz). by split.
  - intros k y Hy. apply alter_cases in Hy as [(-> & z & Hz & ->)|[_ Hy]]; [by apply (so_verified s z)|by eapply so_verified].
  - rewrite (filter_admitted_ext (sv_heap sv)); [done|]. intros k _. by rewrite !admitted_view, alter_view.
  - intros k y Hy Hcl. apply alter_cases in Hy as [(-> & z & Hz & ->)|[_ Hy]]; [by apply (so_waiters s z)|by apply so_waiters].
  - by rewrite Ha.
  - by rewrite Ha.
  - eapply delivered_ext; [|done]. apply alter_kept. intros z _. by repeat split.
  - eapply held_ext; [|done]. apply alter_kept. intros z _. by repeat split.
Qed.

Lemma handshake_done_ok n H env s failed : keeps (normal n []) H [] (handshake_done (R := R) env s failed).
Proof.
  apply keeps_with. intros sv x Hok Hx. apply sv_wp_when; [|done]. intros Hh. apply sv_wp_bind, sv_wp_update.
  pose proof (so_session _ _ _ _ Hok s x Hx) as []. pose proof (ss_handshaking Hh) as Ht.
  assert (se_ready x = false) as Hr.
  { destruct (se_ready x) eqn:Er; [|done]. destruct (ss_tls Ht eq_refl). congruence. }
  set (sv1 := server_heap (alter (session_handshaking false) s (sv_heap sv)) sv).
  assert (server_ok (normal n []) H [] sv1) as Hok1.
  { apply (set_plain_ok _ _ _ s (session_handshaking false) sv Hok). intros y Hy. rewrite Hx in Hy. injection Hy as <-.
    split; [done|]. split; [by repeat split|]. destruct 1; split; try done. cbn. congruence. }
  assert (sv_heap sv1 !! s = Some (session_handshaking false x)) as Hx1 by (cbn; by rewrite lookup_alter_eq, Hx).
  destruct (se_closed x) eqn:Hc; [done|]. destruct (failed || _) eqn:Ef; [by apply reject_ok|].
  apply orb_false_iff in Ef as [_ Ev]. apply bool_decide_eq_false in Ev.
  apply sv_wp_bind, sv_wp_update.
  set (x2 := session_peer_id (se_verified_peer x) (session_handshaking false x)).
  set (sv2 := server_heap (alter (session_peer_id (se_verified_peer x)) s (sv_heap sv1)) sv1).
  assert (server_ok (normal n []) H [] sv2) as Hok2.
  { apply (set_plain_ok _ _ _ s (session_peer_id (se_verified_peer x)) sv1 Hok1). intros y Hy. rewrite Hx1 in Hy.
    injection Hy as <-. split; [done|]. split; [by repeat split|]. destruct 1; split; try done; cbn.
    - intros Ha. destruct (ss_client Ha) as [_ Hf]. congruence.
    - right. destruct (so_verified _ _ _ _ Hok s x Hx Ev) as (check & _ & _ & _ & _ & _ & Hconf). done. }
  assert (sv_heap sv2 !! s = Some x2) as Hx2 by (unfold sv2; cbn [sv_heap server_heap]; by rewrite lookup_alter_eq, Hx1).
  apply sv_wp_bind, sv_wp_update. set (x3 := session_ready true x2).
  set (sv3 := server_heap (alter (session_ready true) s (sv_heap sv2)) sv2).
  assert (sv_heap sv3 !! s = Some x3) as Hx3 by (unfold sv3; cbn [sv_heap server_heap]; by rewrite lookup_alter_eq, Hx2).
  assert (server_ok (normal n [s]) H [] sv3) as Hok3.
  { eapply hold_ok; [|exact Hx3|done]. apply (set_plain_ok _ _ _ s (session_ready true) sv2 Hok2). intros y Hy.
    rewrite Hx2 in Hy. injection Hy as <-. split; [done|]. split; [by repeat split|]. destruct 1; split; try done. }
  assert (forall sv', server_ok (normal n [s]) H [] sv' ->
    wp (read_header s;; send_hello env s) (fun _ sv' => server_ok (normal n []) H [] sv') sv') as Hend.
  { intros sv' Hok'. apply sv_wp_bind.
    eapply sv_wp_mono; [apply (read_header_held (normal n [s]) H [] s (list_elem_of_here _ _)), Hok'|].
    intros [] sv4 Hok4. eapply sv_wp_mono; [by apply send_hello_ok|]. intros [] sv5 Hok5. by eapply drop_held_ok. }
  apply sv_wp_bind, sv_wp_when; [|intros _; by apply Hend]. intros Hd. apply sv_wp_bind, sv_wp_update, sv_wp_update. apply Hend.
  by apply (dialed_ok _ _ _ sv3 s x3).
Qed.
(** ** Reads and writes *)

Lemma stage_held L H taken s stage : s ∈ lm_held L -> keeps (R := R) L H taken (set_session s (session_stage stage)).
Proof.
  intros Hs sv Hok. apply set_plain_ok; [done|]. intros x Hx. split; [done|]. split; [by repeat split|].
  pose proof (so_held _ _ _ _ Hok) as Hh. unfold held_ok in Hh. rewrite list.Forall_forall in Hh.
  destruct (Hh s Hs) as (y & Hy & Hr). rewrite Hx in Hy. injection Hy as <-. destruct 1; split; done.
Qed.

Lemma malformed_ok L H taken env s : keeps (R := R) L H taken (count count_malformed;; retire env s).
Proof. apply sv_keeps_bind; [apply count_ok|intros []; apply retire_ok]. Qed.

Lemma header_read_ok L H taken env s data : s ∈ lm_held L -> keeps (R := R) L H taken (header_read env s data).
Proof.
  intros Hs. destruct data as [header|]; cbn [header_read]; [|apply retire_ok].
  destruct (peek_header header); [by apply stage_held|apply malformed_ok].
Qed.

Lemma body_read_ok n H env s header data sv : server_ok (normal n [s]) H [] sv -> n < max_u64 ->
  wp (body_read env s header data) (fun _ sv' => server_ok (normal (n + 1) [s]) H [] sv') sv.
Proof.
  intros Hok Hn. destruct data as [body|]; cbn [body_read]; [|apply retire_ok; by apply more_normal].
  destruct (decode_frame _) as [frame|e]; [|apply malformed_ok; by apply more_normal].
  apply sv_wp_bind. eapply sv_wp_mono; [by apply count_ok|]. intros [] sv1 Hok1. apply sv_wp_bind.
  eapply sv_wp_mono; [by apply dispatch_ok|]. intros [] sv2 Hok2.
  by apply (read_header_held (normal (n + 1) [s]) H [] s (list_elem_of_here _ _)).
Qed.

Lemma read_done_ok n H env s data sv : server_ok (normal n []) H [] sv -> n < max_u64 ->
  wp (read_done env s data) (fun _ sv' => server_ok (normal (n + 1) []) H [] sv') sv.
Proof.
  intros Hok Hn. apply wp_with_session; [|intros _; by apply more_normal]. intros x Hx.
  assert (forall stage, se_stage x = stage -> stage <> NotReading -> server_ok (normal n [s]) H [] sv) as Hheld.
  { intros stage Hs Hne. eapply hold_ok; [done..|]. apply (ss_stage _ _ (so_session _ _ _ _ Hok s x Hx)). congruence. }
  pose proof (list_elem_of_here s ([] : list nat)) as Hin.
  destruct (se_stage x) as [| |header size] eqn:Es; [by apply more_normal| |].
  - specialize (Hheld _ eq_refl ltac:(done)). apply sv_wp_when; [|intros _; by apply more_normal]. intros _.
    apply sv_wp_bind. eapply sv_wp_mono; [apply (stage_held (normal n [s]) H [] s NotReading Hin), Hheld|].
    intros [] sv1 Hok1. eapply sv_wp_mono; [apply (header_read_ok (normal n [s]) H [] env s data Hin), Hok1|].
    intros [] sv2 Hok2. eapply drop_held_ok. by apply more_normal.
  - specialize (Hheld _ eq_refl ltac:(done)). apply sv_wp_when; [|intros _; by apply more_normal]. intros _.
    apply sv_wp_bind. eapply sv_wp_mono; [apply (stage_held (normal n [s]) H [] s NotReading Hin), Hheld|].
    intros [] sv1 Hok1. eapply sv_wp_mono; [by apply body_read_ok|]. intros [] sv2 Hok2. by eapply drop_held_ok.
Qed.

Lemma end_write_ok' L H taken buffer : keeps (R := R) L H taken (update (fun sv => server_world (end_write (sv_world sv) buffer) sv)).
Proof.
  apply (world_ok' L H taken (fun w => end_write w buffer)); [intros w; apply end_write_ok|].
  intros w q. by rewrite end_write_queues.
Qed.

Lemma write_done_ok L H taken env s failed : keeps (R := R) L H taken (write_done env s failed).
Proof.
  apply keeps_with. intros sv x Hok Hx. destruct (se_in_flight x) as [|buffer rest] eqn:Ef; [done|].
  pose proof (so_session _ _ _ _ Hok s x Hx) as []. rewrite Ef in *. cbn in ss_one_write.
  destruct rest as [|? ?]; [|cbn in ss_one_write; lia]. apply sv_wp_bind, sv_wp_update.
  set (sv1 := server_heap (alter (session_in_flight []) s (sv_heap sv)) sv).
  assert (server_ok L H taken sv1) as Hok1.
  { apply (set_plain_ok _ _ _ s (session_in_flight []) sv Hok). intros y Hy. rewrite Hx in Hy. injection Hy as <-.
    split; [done|]. split; [by repeat split|]. destruct 1; split; try done; cbn; lia. }
  apply sv_wp_bind. apply (sv_wp_mono _ (fun _ sv' => server_ok L H taken sv')); [|intros [] sv'; apply end_write_ok'].
  destruct (se_closed x); [done|]. destruct failed; [by apply retire_ok|].
  apply sv_wp_bind, sv_wp_update, sv_wp_bind, sv_wp_update. apply write_next_ok.
  - apply world_change_ok; [by destruct Hok1; split|by apply pop_ok, (so_world _ _ _ _ Hok1)|apply pop_queues].
  - intros y Hy. cbn in Hy. rewrite lookup_alter_eq, Hx in Hy. by injection Hy as <-.
Qed.

Lemma heartbeat_ok L H env : keeps L H [] (heartbeat_timer env).
Proof.
  apply sv_keeps_get. intros sv Hok. destruct (sv_paused sv); [done|]. apply sv_wp_bind, wp_of_option.
  intros [calls replica] _. apply sv_wp_bind, sv_wp_update. apply run_calls_ok. by destruct Hok; split.
Qed.

(** ** Events *)

Lemma event_ok n H make_address env event sv : server_ok (normal n []) H [] sv -> n < max_u64 -> event ∈ pa_events H ->
  wp (handle_event make_address env event) (fun _ sv' => server_ok (normal (n + 1) []) H [] sv') sv.
Proof.
  intros Hok Hn Hin. pose proof (more_normal n [] H sv Hok) as Hok'.
  destruct event; cbn [handle_event].
  - by apply accepted_ok.
  - by apply peer_accepted_ok.
  - by apply connected_ok.
  - apply sv_keeps_when; [intros _; apply count_ok|done].
  - by apply verify_ok.
  - by apply handshake_done_ok.
  - by apply reject_ok.
  - by apply retire_ok.
  - by apply read_done_ok.
  - by apply write_done_ok.
  - by apply delay_over_ok.
  - by apply request_timeout_ok.
  - by apply heartbeat_ok.
  - by apply dial_missing_ok.
Qed.

Lemma sv_past_mono L config H H' taken sv : H ⊆ H' ->
  server_ok L (mkPast config H) taken sv -> server_ok L (mkPast config H') taken sv.
Proof.
  intros Hs []. split; try done. intros s x Hx Hv. destruct (so_verified s x Hx Hv) as (check & Hc & Hrest).
  exists check. split; [by apply Hs|done].
Qed.

Lemma sv_run_ok make_address events : forall n config H sv sv', server_ok (normal n []) (mkPast config H) [] sv ->
  n + Z.of_nat (length events) <= max_u64 -> server_run make_address events sv = Some sv' ->
  server_ok (normal (n + Z.of_nat (length events)) []) (mkPast config (H ++ (snd <$> events))) [] sv'.
Proof.
  induction events as [|[env event] rest IH]; intros n config H sv sv' Hok Hn Hrun; cbn [server_run length] in *.
  - injection Hrun as <-. cbn [fmap list_fmap]. rewrite app_nil_r. by rewrite Z.add_0_r.
  - assert (server_ok (normal n []) (mkPast config (H ++ [event])) [] sv) as Hok1.
    { eapply sv_past_mono; [|done]. intros e He. apply elem_of_app. by left. }
    pose proof (event_ok n (mkPast config (H ++ [event])) make_address env event sv Hok1 ltac:(lia)
      ltac:(apply elem_of_app; right; apply list_elem_of_here)) as Hstep.
    unfold wp in Hstep. destruct (handle_event make_address env event sv) as [[sv1 []]|]; [|done].
    specialize (IH (n + 1) config (H ++ [event]) sv1 sv' Hstep ltac:(lia) Hrun).
    rewrite <- app_assoc in IH. cbn [fmap list_fmap snd app] in *.
    by replace (n + Z.of_nat (S (length rest))) with (n + 1 + Z.of_nat (length rest)) by lia.
Qed.

Lemma new_server_ok config (replica : R) : server_ok (normal 1 []) (mkPast config []) [] (new_server config replica).
Proof.
  split; cbn.
  - apply idle_ok.
  - intros q Hq. rewrite lookup_empty in Hq. by destruct Hq.
  - intros q Hq. rewrite lookup_empty in Hq. by destruct Hq.
  - split; [constructor|]. intros s. rewrite lookup_empty. split; [intros Hs; by apply elem_of_nil in Hs|by intros (x & ? & _)].
  - lia.
  - intros s x Hx. by rewrite lookup_empty in Hx.
  - intros s x Hx. by rewrite lookup_empty in Hx.
  - unfold kMaxClientSessions. lia.
  - apply no_requests_ok.
  - lia.
  - rewrite map_size_empty. lia.
  - intros id i v Hid. by rewrite lookup_empty in Hid.
  - constructor.
  - intros s x Hx. by rewrite lookup_empty in Hx.
  - constructor.
  - intros id Hid. by apply elem_of_nil in Hid.
  - constructor.
  - constructor.
  - constructor.
  - done.
Qed.

Lemma started_run_ok make_address config (replica : R) sv0 events sv :
  start make_address (new_server config replica) = Some sv0 ->
  1 + Z.of_nat (length events) <= max_u64 -> server_run make_address events sv0 = Some sv ->
  server_ok (normal (1 + Z.of_nat (length events)) []) (mkPast config (snd <$> events)) [] sv.
Proof.
  intros Hs Hn Hrun. unfold start in Hs. destruct (forallb _ _); [|done].
  pose proof (dial_missing_ok (normal 1 []) (mkPast config []) [] make_address _ (new_server_ok config replica)) as Hd.
  unfold wp in Hd. destruct (dial_missing make_address (new_server config replica)) as [[sv1 []]|]; [|done].
  injection Hs as <-. by apply (sv_run_ok make_address events 1 config [] sv1).
Qed.
End Run.
