(* ===== verification/NodeServerThms.v ===== *)
(** * What the node server guarantees

    The limits and the origin of replicated frames over any run, and the pages
    of the management queries. *)

From S2P Require Import Prelude Text Types Model EventCodec Machine Bytes Wal FileEngine OutboundQueue PendingRequests Frame Messages Protobuf MessageCodec MessageCodecThms SnapshotStream Config Transaction FileEngineAdapter AdapterThms StoreRun RuntimeHost ReplicaTypes CoreReplica Replica RuntimeReplica PeerTls NodeServer NodeServerInv NodeServerRun.

(** ** Pages of events *)

(** The records of the log have consecutive indices. *)
Definition consecutive (first : Z) (log : list Event) : Prop :=
  forall i e, log !! i = Some e -> ev_index e = first + Z.of_nat i.

Definition from_index (after : Z) (query : ManagementQuery) : ManagementQuery :=
  mkManagementQuery (mq_operation query) after (mq_page_size query) (mq_peer_id query) (mq_delay_ms query)
    (mq_expected_state_hash query).

(** A reader that follows the cursor of each page. *)
Fixpoint read_events (fuel : nat) (log : list Event) (committed first : Z) (query : ManagementQuery)
    : option (list string) :=
  let page := events_page log committed first query in
  if negb (bool_decide (mr_error_code page = "")) then None
  else if mr_has_more page then
    match fuel with
    | O => None
    | S fuel => app (mr_events page) <$> read_events fuel log committed first (from_index (mr_next_after_index page) query)
    end
  else Some (mr_events page).

(** The committed records after a cursor. *)
Definition committed_after (log : list Event) (after committed : Z) : list Event :=
  filter (fun e => after < ev_index e /\ ev_index e <= committed) log.

Lemma consecutive_cons first e log : consecutive first (e :: log) -> ev_index e = first /\ consecutive (first + 1) log.
Proof.
  intros H. split.
  - pose proof (H 0%nat e eq_refl). lia.
  - intros i x Hi. pose proof (H (S i) x Hi). lia.
Qed.

Lemma consecutive_drop first log k : consecutive first log -> consecutive (first + Z.of_nat k) (drop k log).
Proof. intros H i e Hi. rewrite lookup_drop in Hi. apply H in Hi. lia. Qed.

Lemma committed_drop log : forall first after committed, consecutive first log ->
  committed_after log after committed =
  filter (fun e => ev_index e <= committed) (drop (Z.to_nat (after + 1 - first)) log).
Proof.
  induction log as [|e log IH]; intros first after committed Hc; [by rewrite drop_nil|].
  destruct (consecutive_cons _ _ _ Hc) as [He Hc']. specialize (IH (first + 1) after committed Hc').
  unfold committed_after in *. rewrite filter_cons.
  destruct (decide (after < first)) as [Hlt|Hge].
  - replace (Z.to_nat (after + 1 - first)) with 0%nat by lia.
    replace (Z.to_nat (after + 1 - (first + 1))) with 0%nat in IH by lia. rewrite drop_0 in *. rewrite filter_cons.
    destruct (decide (ev_index e <= committed)); [rewrite decide_True by lia|rewrite decide_False by lia]; by rewrite IH.
  - rewrite decide_False by lia. replace (Z.to_nat (after + 1 - first)) with (S (Z.to_nat (after + 1 - (first + 1)))) by lia.
    cbn [drop]. done.
Qed.

Lemma page_offset_drop log first after : consecutive first log -> 1 <= first -> first - 1 <= after -> u64 after ->
  drop (page_offset log after) log = drop (Z.to_nat (after + 1 - first)) log.
Proof.
  intros Hc Hf Ha Hu. destruct log as [|e log]; [by rewrite !drop_nil|].
  destruct (consecutive_cons _ _ _ Hc) as [He _]. unfold page_offset. rewrite He.
  destruct (Z.ltb_spec after first).
  - by replace (Z.to_nat (after + 1 - first)) with 0%nat by lia.
  - rewrite wrap64_small by (unfold u64 in *; lia). destruct (Z.leb_spec (Z.of_nat (length (e :: log))) (after - first + 1)).
    + rewrite !drop_ge; [done|lia|lia].
    + by replace (after - first + 1) with (after + 1 - first) by lia.
Qed.

(** The size of a list of texts. *)
Definition texts_size (l : list string) : Z := foldr (fun s acc => text_size s + acc) 0 l.

Lemma texts_size_app l l' : texts_size (l ++ l') = texts_size l + texts_size l'.
Proof. induction l as [|s l IH]; [done|]. cbn in *. unfold texts_size in *. lia. Qed.

Lemma texts_size_nonneg l : 0 <= texts_size l.
Proof. induction l as [|s l IH]; [done|]. cbn. unfold texts_size, text_size in *. lia. Qed.

(** What the loop leaves: a prefix of the log, and why it stopped. *)
Record page_of (l : list Event) (committed limit : Z) (events : list string) (next : Z) (m : nat) (page : ManagementReply) : Prop := {
  po_error : mr_error_code page = "";
  po_events : mr_events page = (events ++ (canonical_event <$> take m l))%list;
  po_next : mr_next_after_index page = default next (ev_index <$> list.last (take m l));
  po_committed : Forall (fun e => ev_index e <= committed) (take m l);
  po_more : mr_has_more page = true -> exists e rest, drop m l = e :: rest /\ (events = [] -> (m <> 0)%nat);
  po_done : mr_has_more page = false -> forall e rest, drop m l = e :: rest -> committed < ev_index e;
  po_limit : Z.of_nat (length (mr_events page)) <= limit;
  po_size : texts_size (mr_events page) <= kMaxEventPageBytes;
}.

Lemma events_loop_spec committed limit l : 1 <= limit ->
  Forall (fun e => text_size (canonical_event e) <= kMaxEventPageBytes) l ->
  forall events next, Z.of_nat (length events) <= limit -> texts_size events <= kMaxEventPageBytes ->
  exists m, page_of l committed limit events next m (events_loop l committed limit events (texts_size events) next).
Proof.
  intros Hlim. induction l as [|e l IH]; intros Hsize events next Hlen Hbytes; cbn [events_loop].
  { exists 0%nat. split; cbn; try done. by rewrite app_nil_r. }
  apply list.Forall_cons in Hsize as [He Hsize]. pose proof (texts_size_nonneg events) as Hnn.
  destruct (Z.ltb_spec committed (ev_index e)) as [Hc|Hc].
  { exists 0%nat. split; cbn; try done; [by rewrite app_nil_r|]. intros _ x rest [= <- <-]. done. }
  destruct (Z.ltb_spec kMaxEventPageBytes (text_size (canonical_event e))); [lia|].
  assert (0 <= text_size (canonical_event e)) by (unfold text_size; lia).
  rewrite (wrap64_small (kMaxEventPageBytes - _)) by (unfold u64, max_u64, kMaxEventPageBytes, kMaxFramePayload in *; lia).
  destruct (_ || _) eqn:Eo.
  { exists 0%nat. split; cbn; try done; [by rewrite app_nil_r|]. intros _. exists e, l. split; [done|].
    intros ->. change (texts_size []) with 0 in Eo. change (Z.of_nat (length [])) with 0 in Eo.
    apply orb_prop in Eo as [Eo|Eo]; [apply Z.eqb_eq in Eo|apply Z.ltb_lt in Eo]; lia. }
  apply orb_false_iff in Eo as [E1 E2]. apply Z.eqb_neq in E1. apply Z.ltb_ge in E2.
  assert (texts_size (events ++ [canonical_event e]) = texts_size events + text_size (canonical_event e)) as Es
    by (rewrite texts_size_app; unfold texts_size; cbn; lia).
  rewrite wrap64_small by (unfold u64, max_u64, kMaxEventPageBytes, kMaxFramePayload in *; lia). rewrite <- Es.
  destruct (IH Hsize (events ++ [canonical_event e]) (ev_index e)) as [m [P1 P2 P3 P4 P5 P6 P7 P8]].
  { rewrite length_app. cbn. lia. }
  { lia. }
  exists (S m). split; try done.
  - rewrite P2, <- app_assoc. done.
  - rewrite P3. cbn [take]. destruct (take m l) as [|x t]; [done|]. rewrite last_cons_cons.
    destruct (list.last (x :: t)) eqn:El; [done|]. by apply last_None in El.
  - cbn [take]. by constructor.
  - intros Hm. destruct (P5 Hm) as (x & rest & Hd & _). exists x, rest. done.
Qed.

Lemma filter_none committed first l : consecutive first l -> (forall e rest, l = e :: rest -> committed < ev_index e) ->
  filter (fun e => ev_index e <= committed) l = [].
Proof.
  intros Hc Hh. destruct l as [|e l]; [done|]. specialize (Hh e l eq_refl).
  assert (Forall (fun x => ~ ev_index x <= committed) (e :: l)) as Hall.
  { apply list.Forall_forall. intros x Hx. apply list_elem_of_lookup in Hx as [i Hi].
    pose proof (Hc i x Hi). destruct (consecutive_cons _ _ _ Hc) as [? _]. lia. }
  clear Hc Hh. induction Hall as [|x t Hx _ IH]; [done|]. by rewrite filter_cons, decide_False.
Qed.

(** A page, and the cursor it leaves. *)
Lemma events_page_spec log first committed query :
  consecutive first log -> 1 <= first -> u64 (mq_after_index query) -> first - 1 <= mq_after_index query ->
  0 <= mq_page_size query ->
  Forall (fun e => text_size (canonical_event e) <= kMaxEventPageBytes) log ->
  exists m, page_of (drop (Z.to_nat (mq_after_index query + 1 - first)) log) committed
    (if mq_page_size query =? 0 then 64 else mq_page_size query) [] (mq_after_index query) m
    (events_page log committed first query).
Proof.
  intros Hc Hf Hu Ha Hp Hsize. unfold events_page. cbv zeta.
  assert ((1 <? first) && (mq_after_index query <? first - 1) = false) as ->.
  { apply andb_false_iff. right. by apply Z.ltb_ge. }
  rewrite (page_offset_drop log first) by done. apply (events_loop_spec committed _ _).
  - destruct (Z.eqb_spec (mq_page_size query) 0); lia.
  - by apply Forall_drop.
  - destruct (Z.eqb_spec (mq_page_size query) 0); cbn; lia.
  - by vm_compute.
Qed.

(** The cursor after [m] records. *)
Lemma cursor_after first l m after : consecutive first l -> first = after + 1 -> (m <= length l)%nat ->
  default after (ev_index <$> list.last (take m l)) = after + Z.of_nat m.
Proof.
  intros Hc -> Hm. destruct m as [|m]; [rewrite take_0; simpl; lia|].
  assert (exists e, l !! m = Some e) as [e He] by (apply lookup_lt_is_Some; lia).
  rewrite (take_S_r l m e He), last_snoc. cbn. rewrite (Hc m e He). lia.
Qed.

Lemma filter_whole committed (l : list Event) : Forall (fun e => ev_index e <= committed) l ->
  filter (fun e => ev_index e <= committed) l = l.
Proof. induction 1 as [|e l He _ IH]; [done|]. by rewrite filter_cons, decide_True, IH by done. Qed.

(** One page: the last one, or the reader goes on with what is left. *)
Lemma page_step log first committed query :
  consecutive first log -> 1 <= first -> first + Z.of_nat (length log) <= max_u64 ->
  first - 1 <= mq_after_index query <= max_u64 -> 0 <= mq_page_size query ->
  Forall (fun e => text_size (canonical_event e) <= kMaxEventPageBytes) log ->
  let page := events_page log committed first query in
  let left after := drop (Z.to_nat (after + 1 - first)) log in
  mr_error_code page = "" /\
  if mr_has_more page then
    first - 1 <= mr_next_after_index page <= max_u64 /\
    (length (left (mr_next_after_index page)) < length (left (mq_after_index query)))%nat /\
    canonical_event <$> committed_after log (mq_after_index query) committed =
      (mr_events page ++ (canonical_event <$> committed_after log (mr_next_after_index page) committed))%list
  else canonical_event <$> committed_after log (mq_after_index query) committed = mr_events page.
Proof.
  intros Hc Hf Hlen Ha Hp Hsize page left. unfold page. clear page.
  destruct (events_page_spec log first committed query) as [m [P1 P2 P3 P4 P5 P6 _ _]];
    [done|done|unfold u64; lia|lia|done|done|]. split; [done|].
  rewrite (committed_drop log first) by done. fold (left (mq_after_index query)). unfold left in *.
  set (k := Z.to_nat (mq_after_index query + 1 - first)) in *. set (l := drop k log) in *.
  assert (consecutive (mq_after_index query + 1) l) as Hcl.
  { replace (mq_after_index query + 1) with (first + Z.of_nat k) by lia. by apply consecutive_drop. }
  assert (filter (fun e => ev_index e <= committed) l =
    take m l ++ filter (fun e => ev_index e <= committed) (drop m l))%list as Hsplit.
  { rewrite <- (take_drop m l) at 1. by rewrite list.filter_app, (filter_whole _ (take m l)). }
  destruct (mr_has_more (events_page log committed first query)) eqn:Em.
  - destruct (P5 eq_refl) as (e & rest & Hd & Hm0). specialize (Hm0 eq_refl).
    assert (m < length l)%nat as Hml.
    { assert (length (drop m l) <> 0)%nat as Hne by (by rewrite Hd). rewrite length_drop in Hne. lia. }
    assert (length l = length log - k)%nat as Hll by apply length_drop.
    rewrite P3, (cursor_after (mq_after_index query + 1)) by (done || lia).
    assert (drop (Z.to_nat (mq_after_index query + Z.of_nat m + 1 - first)) log = drop m l) as Hnext.
    { unfold l. rewrite drop_drop. f_equal. lia. }
    rewrite (committed_drop log first _ committed Hc), Hnext, Hsplit, P2, fmap_app. split; [lia|]. split; [|done].
    rewrite length_drop. lia.
  - rewrite Hsplit, (filter_none committed (mq_after_index query + 1 + Z.of_nat m) (drop m l)), app_nil_r;
      [by rewrite P2|by apply consecutive_drop|by apply P6].
Qed.

Lemma read_events_all fuel : forall log first committed query,
  consecutive first log -> 1 <= first -> first + Z.of_nat (length log) <= max_u64 ->
  first - 1 <= mq_after_index query <= max_u64 -> 0 <= mq_page_size query ->
  Forall (fun e => text_size (canonical_event e) <= kMaxEventPageBytes) log ->
  (length (drop (Z.to_nat (mq_after_index query + 1 - first)) log) <= fuel)%nat ->
  read_events fuel log committed first query =
    Some (canonical_event <$> committed_after log (mq_after_index query) committed).
Proof.
  induction fuel as [|fuel IH]; intros log first committed query Hc Hf Hlen Ha Hp Hsize Hfuel;
    destruct (page_step log first committed query Hc Hf Hlen Ha Hp Hsize) as [He Hstep];
    cbn [read_events]; cbv zeta; rewrite He; cbn [negb bool_decide];
    destruct (mr_has_more (events_page log committed first query)).
  - lia.
  - by rewrite Hstep.
  - destruct Hstep as (H1 & H2 & ->). rewrite IH; [done|done|done|done|done|done|done|]. cbn [from_index mq_after_index]. lia.
  - by rewrite Hstep.
Qed.

(** ** Pages fit a frame *)

Lemma write_texts_length f l : forall out,
  Z.of_nat (length (foldl (fun out text => write_bytes out f (bytes_of text)) out l)) <=
  Z.of_nat (length out) + 22 * Z.of_nat (length l) + texts_size l.
Proof.
  induction l as [|t l IH]; intros out; cbn [foldl].
  - cbn. lia.
  - specialize (IH (write_bytes out f (bytes_of t))). pose proof (write_bytes_length out f (bytes_of t)) as Hw.
    rewrite bytes_of_length in Hw. unfold texts_size, text_size in *. cbn [length foldr]. lia.
Qed.

Lemma reply_fits m : mr_error_code m = "" -> mr_error_message m = "" ->
  22 * Z.of_nat (length (mr_events m)) + texts_size (mr_events m) + text_size (mr_snapshot_state_hash m) +
    text_size (mr_recovery_report m) + text_size (mr_state_chunk m) + 400 <= kMaxFramePayload ->
  exists payload, encode_management_reply m = Ok payload /\ zsize payload <= kMaxFramePayload.
Proof.
  intros He Hm Hsize. unfold encode_management_reply. cbv zeta. eexists. split; [reflexivity|]. rewrite He, Hm. unfold zsize.
  change (write_bytes (write_bytes [] 1 (bytes_of "")) 2 (bytes_of "")) with ([] : list Z).
  pose proof (write_texts_length 3 (mr_events m) []) as He3. cbn [length] in He3. unfold text_size in Hsize.
  match goal with |- Z.of_nat (length ?t) <= _ => bound_writes t end.
  rewrite !bytes_of_length in *. lia.
Qed.

(** A page of events carries nothing else. *)
Lemma events_loop_plain log committed limit : forall events bytes next,
  let page := events_loop log committed limit events bytes next in
  mr_snapshot_state_hash page = "" /\ mr_recovery_report page = "" /\ mr_state_chunk page = "" /\
  (mr_error_code page = "" -> mr_error_message page = "").
Proof.
  induction log as [|e log IH]; intros events bytes next; cbn [events_loop]; [done|]. cbv zeta.
  destruct (committed <? ev_index e); [done|]. destruct (kMaxEventPageBytes <? _); [done|].
  destruct (_ || _); [done|apply IH].
Qed.

Lemma events_page_plain log committed first query : mr_error_code (events_page log committed first query) = "" ->
  let page := events_page log committed first query in
  mr_error_message page = "" /\ mr_snapshot_state_hash page = "" /\ mr_recovery_report page = "" /\ mr_state_chunk page = "".
Proof.
  unfold events_page. cbv zeta. destruct (_ && _); [done|]. intros He.
  match goal with |- context [events_loop ?l ?c ?k ?e ?b ?n] => destruct (events_loop_plain l c k e b n) as (H1 & H2 & H3 & H4) end.
  auto.
Qed.

(** C35: the "events" pages of a log that does not change meanwhile, whose
    retained records start at [first]. A cursor below the compacted prefix is
    answered with "Compacted" and no records. From any other cursor, a reader
    that follows the cursors of the pages gets exactly the committed records
    after its cursor, each once and in the order of the log, and comes to the
    last page; no page has more records than asked for, and the reply of a page
    fits a frame. For page sizes up to 128, which is what the decoder of queries
    admits, and a log in which no record is larger than a page (a larger one is
    answered with "EventTooLarge"). *)
Theorem event_pages_are_complete log first committed query :
  consecutive first log -> 1 <= first -> first + Z.of_nat (length log) <= max_u64 ->
  0 <= mq_after_index query <= max_u64 -> 0 <= mq_page_size query <= 128 ->
  Forall (fun e => text_size (canonical_event e) <= kMaxEventPageBytes) log ->
  let page := events_page log committed first query in
  if mq_after_index query <? first - 1 then mr_error_code page = "Compacted" /\ mr_events page = []
  else
    read_events (length log) log committed first query =
      Some (canonical_event <$> committed_after log (mq_after_index query) committed) /\
    Z.of_nat (length (mr_events page)) <= (if mq_page_size query =? 0 then 64 else mq_page_size query) /\
    exists payload, encode_management_reply page = Ok payload /\ zsize payload <= kMaxFramePayload.
Proof.
  intros Hc Hf Hlen Ha Hp Hsize page. destruct (Z.ltb_spec (mq_after_index query) (first - 1)) as [Hlt|Hge].
  { unfold page, events_page. rewrite (proj2 (Z.ltb_lt 1 first)), (proj2 (Z.ltb_lt _ _) Hlt) by lia. done. }
  split.
  - apply read_events_all; [done|done|done|lia|lia|done|]. rewrite length_drop. lia.
  - destruct (events_page_spec log first committed query) as [m []]; [done|done|unfold u64; lia|lia|lia|done|].
    split; [done|]. destruct (events_page_plain log committed first query po_error0) as (H1 & H2 & H3 & H4).
    apply reply_fits; [done|done|]. unfold page. rewrite H2, H3, H4. change (text_size "") with 0.
    assert (Z.of_nat (length (mr_events (events_page log committed first query))) <= 128)
      by (destruct (Z.eqb_spec (mq_page_size query) 0); lia).
    unfold kMaxEventPageBytes in po_size0. lia.
Qed.

(** ** Pages of the state *)

Fixpoint read_state (fuel : nat) (state hash : string) (commit : Z) (query : ManagementQuery) (text : string)
    : option string :=
  let page := state_page state hash commit query in
  if negb (bool_decide (mr_error_code page = "")) then None
  else if mr_has_more page then
    match fuel with
    | O => None
    | S fuel => read_state fuel state hash commit (from_index (mr_next_after_index page) query) (text +:+ mr_state_chunk page)
    end
  else Some (text +:+ mr_state_chunk page).

Definition page_bytes (query : ManagementQuery) : Z :=
  (if mq_page_size query =? 0 then 64 else Z.min (mq_page_size query) 64) * 1024.

Lemma state_page_spec state hash commit query :
  0 <= mq_after_index query <= text_size state -> text_size state <= max_u64 -> 0 <= mq_page_size query ->
  let page := state_page state hash commit query in
  let size := Z.min (page_bytes query) (text_size state - mq_after_index query) in
  mr_error_code page = "" /\ mr_error_message page = "" /\ mr_events page = [] /\ mr_snapshot_state_hash page = hash /\
  mr_recovery_report page = "" /\ mr_state_chunk page = substr state (mq_after_index query) (page_bytes query) /\
  text_size (mr_state_chunk page) = size /\ mr_next_after_index page = mq_after_index query + size /\
  mr_has_more page = (mq_after_index query + size <? text_size state).
Proof.
  intros Ha Hs Hp page size.
  assert (1024 <= page_bytes query) as Hk by (unfold page_bytes; destruct (Z.eqb_spec (mq_page_size query) 0); lia).
  assert (text_size (substr state (mq_after_index query) (page_bytes query)) = size) as Hsize.
  { unfold substr, text_size in *. rewrite substring_length. unfold size. lia. }
  unfold page, state_page. cbv zeta. destruct (Z.ltb_spec (text_size state) (mq_after_index query)); [lia|].
  fold (page_bytes query). cbn [mr_error_code mr_error_message mr_events mr_snapshot_state_hash mr_recovery_report
    mr_state_chunk mr_next_after_index mr_has_more].
  rewrite Hsize, wrap64_small by (unfold u64; lia). done.
Qed.

Lemma read_state_all fuel : forall state hash commit query,
  0 <= mq_after_index query <= text_size state -> text_size state <= max_u64 -> 0 <= mq_page_size query ->
  text_size state - mq_after_index query <= Z.of_nat fuel ->
  read_state fuel state hash commit query (substr state 0 (mq_after_index query)) = Some state.
Proof.
  induction fuel as [|fuel IH]; intros state hash commit query Ha Hs Hp Hfuel;
    destruct (state_page_spec state hash commit query Ha Hs Hp) as (E1 & _ & _ & _ & _ & E2 & E3 & E4 & E5);
    assert (1024 <= page_bytes query) as Hk by (unfold page_bytes; destruct (Z.eqb_spec (mq_page_size query) 0); lia);
    cbn [read_state]; cbv zeta; rewrite E1, E5; cbn [negb bool_decide]; change (negb (bool_decide ("" = ""))) with false; cbv iota;
    rewrite E2, substr_join by lia; destruct (Z.ltb_spec (mq_after_index query +
      Z.min (page_bytes query) (text_size state - mq_after_index query)) (text_size state)) as [Hm|Hm].
  - lia.
  - by rewrite substr_whole by lia.
  - rewrite E4, Z.min_l by lia. apply (IH state hash commit (from_index (mq_after_index query + page_bytes query) query));
      cbn [from_index mq_after_index mq_page_size]; lia.
  - by rewrite substr_whole by lia.
Qed.

(** A reader that follows the cursors of the "state" pages from the start,
    while the state does not change, gets the canonical state byte for byte,
    whatever the page size, and every reply fits a frame. *)
Lemma state_pages_are_complete state hash commit query after :
  0 <= after <= text_size state -> text_size state <= max_u64 -> 0 <= mq_page_size query -> text_size hash <= 4096 ->
  read_state (String.length state) state hash commit (from_index 0 query) "" = Some state /\
  exists payload, encode_management_reply (state_page state hash commit (from_index after query)) = Ok payload /\
    zsize payload <= kMaxFramePayload.
Proof.
  intros Ha Hs Hp Hh. split.
  - pose proof (read_state_all (String.length state) state hash commit (from_index 0 query)) as Hr.
    cbn [from_index mq_after_index mq_page_size] in Hr.
    assert (substr state 0 0 = "") as E by (unfold substr; by destruct state). rewrite E in Hr.
    apply Hr; [lia|done|done|]. unfold text_size. lia.
  - destruct (state_page_spec state hash commit (from_index after query)) as (E1 & E2 & E3 & E4 & E5 & _ & E6 & _); [done..|].
    apply reply_fits; [done|done|]. rewrite E3, E4, E5, E6. change (text_size "") with 0. change (texts_size []) with 0.
    assert (page_bytes (from_index after query) <= 65536)
      by (unfold page_bytes; destruct (Z.eqb_spec (mq_page_size (from_index after query)) 0); lia).
    unfold kMaxFramePayload. cbn [length]. lia.
Qed.

(** ** Any run *)

Section Claims.
Context {R E : Type} `{!RuntimeOps R E}.

(** C12: whatever connections, frames, timers and answers of the replica come, and
    whichever system calls fail: at most 128 sessions are open, each listed once
    and none of them closed; at most 96 are clients, and a client is never a peer
    and never on the TLS listener; at most 1024 requests wait, at most 64 on a
    session, and the counter of an open session is the number of its requests; a
    session never has two writes at once; no peer has two connection attempts at
    once; and the queues never exceed their budgets. *)
Theorem server_limits_hold make_address config (replica : R) sv0 (events : list (HandlerEnv E * ServerEvent)) sv :
  start make_address (new_server config replica) = Some sv0 ->
  1 + Z.of_nat (length events) <= max_u64 -> server_run make_address events sv0 = Some sv ->
  NoDup (sv_sessions sv) /\ (length (sv_sessions sv) <= kMaxSessions)%nat /\
  (forall s, s ∈ sv_sessions sv <-> exists x, sv_heap sv !! s = Some x /\ se_closed x = false) /\
  (clients sv <= kMaxClientSessions)%nat /\ (size (pq_items (sv_pending sv)) <= kCapacity)%nat /\
  (forall s x, sv_heap sv !! s = Some x ->
     (se_client_admitted x = true -> se_peer_id x = "" /\ se_tls x = false) /\
     (length (se_in_flight x) <= 1)%nat /\
     (se_closed x = false ->
        se_waiters x = waiting s (pq_items (sv_pending sv)) /\ se_waiters x <= kMaxSessionWaiters)) /\
  NoDup (attempts (sv_heap sv) (sv_sessions sv) (sv_connecting sv)) /\
  qb_bytes (wd_budget (sv_world sv)) <= kGlobalBytes /\ qb_client_bytes (wd_budget (sv_world sv)) <= kClientBytes.
Proof.
  intros Hs Hn Hrun. destruct (started_run_ok make_address config replica sv0 events sv Hs Hn Hrun).
  destruct so_live as [Hnd Hl]. do 4 (split; [done|]). split; [done|]. split.
  { intros s x Hx. destruct (so_session s x Hx). split; [done|]. split; [done|]. intros Hc.
    destruct (so_waiters s x Hx Hc) as [Hw Hm]. change (taken_of s []) with 0 in Hw. cbn in Hm. lia. }
  split; [done|]. destruct so_world. done.
Qed.

(** C13: the replica is only given frames of configured peers, never the frames of
    clients; and on a node with TLS only over a session whose certificate was
    verified: chain and purpose were accepted and its only node identity is that
    of the peer. *)
Theorem replica_hears_only_peers make_address config (replica : R) sv0 (events : list (HandlerEnv E * ServerEvent)) sv
    s peer frame :
  start make_address (new_server config replica) = Some sv0 ->
  1 + Z.of_nat (length events) <= max_u64 -> server_run make_address events sv0 = Some sv ->
  (s, peer, frame) ∈ sv_delivered sv ->
  is_configured_peer config peer = true /\ is_client_frame frame = false /\
  (has_tls config = true ->
   valid_id peer = true /\
   exists check, Verify s check ∈ (snd <$> events) /\ ck_preverified check = true /\ ck_depth check = 0 /\
     peer_purpose (ck_certificate check) = true /\
     exists l1 l2, ct_names (ck_certificate check) = Some (l1 ++ node_uri peer :: l2)%list /\
       Forall (fun name => ~ names_node name) l1 /\ Forall (fun name => ~ names_node name) l2).
Proof.
  intros Hs Hn Hrun Hin. destruct (started_run_ok make_address config replica sv0 events sv Hs Hn Hrun).
  cbn in so_config. subst config. rewrite list.Forall_forall in so_delivered.
  destruct (so_delivered _ Hin) as (H1 & H2 & x & Hx & Ht). split; [done|]. split; [done|]. intros Htls.
  destruct (Ht Htls) as (T1 & T2 & T3). destruct (so_session s x Hx).
  destruct (ss_tls T1 T2) as (_ & Hv & _). destruct (so_verified s x Hx Hv) as (check & C1 & C2 & C3 & C4 & C5 & C6).
  rewrite T3 in C5. destruct (certificate_node_id_spec _ _ C5) as (Hvalid & l1 & l2 & Hnames). split; [done|].
  exists check. split; [done|]. split; [done|]. split; [done|]. split; [done|]. by exists l1, l2.
Qed.
End Claims.

(** ** A node that runs *)

Definition demo_peers : list PeerEndpoint :=
  [mkPeerEndpoint "node-2" "127.0.0.1" 7002; mkPeerEndpoint "node-3" "127.0.0.1" 7003].

Definition demo_tls : PeerTlsConfig := mkPeerTlsConfig "127.0.0.1" 8001 "ca.pem" "node.pem" "node.key" demo_peers.

Definition demo_node (tls : option PeerTlsConfig) : NodeConfig :=
  mkNodeConfig "node-1" "node-1" "data" "127.0.0.1" 7001 demo_peers true Legacy false 7 100 50 3 6 tls.

Definition numeric (host : string) : option bool := Some true.

(** The certificate of a node. *)
Definition demo_certificate (id : string) : Certificate :=
  mkCertificate true true true false true true (Some [GenOther; node_uri id]).

Definition demo_os : NodeOs :=
  mkNodeOs (mkContextOs None true None true (demo_certificate "node-1") true) true None calm_adapter calm_open calm false "".

Definition demo_empty : Directory := mkDirectory None ∅ None None.

Definition demo_env : HandlerEnv RuntimeEnv :=
  mkHandlerEnv (mkRuntimeEnv (mkLegacyOs (fun _ => calm) (fun _ => mkInstallOs None None Replaced undisturbed Accessed None))
                  (CoreReplica.mkSystem 10 (fun _ _ => calm_adapter))) true (fun _ => false) false.

Definition calmly (events : list ServerEvent) : list (HandlerEnv RuntimeEnv * ServerEvent) :=
  (fun e => (demo_env, e)) <$> events.

(** The reads of a frame. *)
Definition frame_reads (s : nat) (frame : Frame) : list ServerEvent :=
  match encode_frame frame with
  | Ok bytes => [ReadDone s (Some (take kFrameHeaderBytes bytes)); ReadDone s (Some (drop kFrameHeaderBytes bytes))]
  | Err _ => []
  end.

(** A peer connects over TLS and asks for a vote. *)
Definition tls_events : list ServerEvent :=
  [PeerAccepted; Verify 0 (mkCertificateCheck true 1 (demo_certificate "")); Verify 0 (mkCertificateCheck true 0 (demo_certificate "node-2"));
   HandshakeDone 0 false] ++ frame_reads 0 (vote_frame 2 "node-2").

(** The node opens, and runs through the events. *)
Definition demo_run (config : NodeConfig) (events : list ServerEvent) : option (Server RuntimeReplica) :=
  match snd (server_open numeric config demo_empty demo_os) with
  | Ok sv => server_run numeric (calmly events) sv
  | Err _ => None
  end.

(** A node that opened has started its server. *)
Lemma server_open_starts make_address config d os d' sv : server_open make_address config d os = (d', Ok sv) ->
  exists replica, start make_address (new_server config replica) = Some sv.
Proof.
  unfold server_open. destruct (validate_consensus_config make_address config) as [[]|]; [|done].
  destruct (validate_peer_tls_config make_address config) as [[]|]; [|done].
  destruct (make_peer_tls_context config (no_context os)); [|done]. cbv zeta.
  destruct (runtime_open _ _ _ _ _ _ _ _) as [[d1 [r|e]]|]; [|done|done].
  destruct (no_listen_failed os); [done|]. destruct (start _ _) as [sv1|] eqn:Es; [|done].
  intros [= <- <-]. eauto.
Qed.

Lemma demo_run_starts config events sv : demo_run config events = Some sv ->
  exists replica sv0, start numeric (new_server config replica) = Some sv0 /\
    server_run numeric (calmly events) sv0 = Some sv.
Proof.
  unfold demo_run. intros H. destruct (server_open numeric config demo_empty demo_os) as [d [sv0|e]] eqn:Eo; [|done].
  destruct (server_open_starts _ _ _ _ _ _ Eo) as [replica Hr]. eauto.
Qed.

Definition summary (sv : Server RuntimeReplica) : nat * nat * list (nat * string * Frame) * Z :=
  (length (sv_sessions sv), length (sv_connecting sv), sv_delivered sv, tm_rejected (sv_metrics sv)).

Lemma ran_as (r : option (Server RuntimeReplica)) sv x : summary <$> r = Some x -> r = Some sv -> summary sv = x.
Proof. intros Hs ->. cbn [fmap option_fmap option_map] in Hs. congruence. Qed.

(** 130 clients connect while the attempts to reach two peers go on. *)
Lemma server_limits_hold_witness :
  exists sv, demo_run (demo_node None) (repeat Accepted 130) = Some sv /\
    summary sv = (128%nat, 2%nat, [], 2) /\ (length (sv_sessions sv) <= kMaxSessions)%nat /\
    (clients sv <= kMaxClientSessions)%nat.
Proof.
  assert (summary <$> demo_run (demo_node None) (repeat Accepted 130) = Some (128%nat, 2%nat, [], 2)) as Hs
    by (vm_compute; reflexivity).
  destruct (demo_run (demo_node None) (repeat Accepted 130)) as [sv|] eqn:Er; [|discriminate].
  exists sv. split; [reflexivity|]. split; [exact (ran_as _ _ _ Hs eq_refl)|].
  destruct (demo_run_starts _ _ _ Er) as (replica & sv0 & Hstart & Hrun).
  assert (1 + Z.of_nat (length (calmly (repeat Accepted 130))) <= max_u64) as Hn by (vm_compute; discriminate).
  destruct (server_limits_hold numeric (demo_node None) replica sv0 (calmly (repeat Accepted 130)) sv Hstart Hn Hrun)
    as (_ & H1 & _ & H2 & _).
  split; [exact H1|exact H2].
Defined.

Lemma replica_hears_only_peers_witness :
  exists sv, demo_run (demo_node (Some demo_tls)) tls_events = Some sv /\
    summary sv = (1%nat, 2%nat, [(0%nat, "node-2", vote_frame 2 "node-2")], 0) /\
    is_configured_peer (demo_node (Some demo_tls)) "node-2" = true /\
    exists check, Verify 0 check ∈ (snd <$> calmly tls_events) /\ peer_purpose (ck_certificate check) = true.
Proof.
  assert (summary <$> demo_run (demo_node (Some demo_tls)) tls_events =
    Some (1%nat, 2%nat, [(0%nat, "node-2", vote_frame 2 "node-2")], 0)) as Hs by (vm_compute; reflexivity).
  destruct (demo_run (demo_node (Some demo_tls)) tls_events) as [sv|] eqn:Er; [|discriminate].
  exists sv. split; [reflexivity|]. split; [exact (ran_as _ _ _ Hs eq_refl)|].
  destruct (demo_run_starts _ _ _ Er) as (replica & sv0 & Hstart & Hrun).
  assert ((0%nat, "node-2", vote_frame 2 "node-2") ∈ sv_delivered sv) as Hin.
  { pose proof (f_equal (fun t => snd (fst t)) (ran_as _ _ _ Hs eq_refl)) as E. cbn [summary fst snd] in E. rewrite E. constructor. }
  assert (1 + Z.of_nat (length (calmly tls_events)) <= max_u64) as Hn by (vm_compute; discriminate).
  destruct (replica_hears_only_peers numeric (demo_node (Some demo_tls)) replica sv0 (calmly tls_events) sv 0%nat "node-2"
    (vote_frame 2 "node-2") Hstart Hn Hrun Hin) as (H1 & _ & H2).
  split; [exact H1|]. destruct (H2 eq_refl) as (_ & check & C1 & _ & _ & C2 & _). exists check. split; [exact C1|exact C2].
Defined.

(** Records 5, 6 and 7 of a log, the last not committed, in pages of one. *)
Definition page_log : list Event :=
  (fun i => mkEvent ("e-" +:+ print_u i) ("c-" +:+ print_u i) "show" DancerRemoved 1 0 i 2 (PRemove "d-1")) <$> [5; 6; 7].

Definition page_query : ManagementQuery := mkManagementQuery "events" 4 1 "" 0 "".

Lemma event_pages_are_complete_witness :
  read_events 3 page_log 6 5 page_query = Some (canonical_event <$> take 2 page_log) /\
  mr_has_more (events_page page_log 6 5 page_query) = true.
Proof.
  split; [|vm_compute; reflexivity]. change 3%nat with (length page_log).
  pose proof (event_pages_are_complete page_log 5 6 page_query
    ltac:(intros [|[|[|i]]] e [= <-]; vm_compute; reflexivity) ltac:(lia) ltac:(vm_compute; congruence)
    ltac:(vm_compute; split; congruence) ltac:(vm_compute; split; congruence)
    ltac:(repeat constructor; vm_compute; congruence)) as H. cbv zeta in H.
  assert (mq_after_index page_query <? 5 - 1 = false) as E by reflexivity. rewrite E in H.
  rewrite (proj1 H). vm_compute. reflexivity.
Defined.

Definition page_state : string := canonical_state empty_state.

Lemma state_pages_are_complete_witness :
  read_state (String.length page_state) page_state "hash" 6 (from_index 0 (mkManagementQuery "state" 0 1 "" 0 "hash")) "" =
    Some page_state /\ 0 < text_size page_state.
Proof.
  split; [|vm_compute; reflexivity].
  apply (state_pages_are_complete page_state "hash" 6 (mkManagementQuery "state" 0 1 "" 0 "hash") 0).
  - vm_compute. split; discriminate.
  - vm_compute. discriminate.
  - vm_compute. discriminate.
  - vm_compute. discriminate.
Defined.
