(* ===== verification/ProtocolClient.v ===== *)
(** * The blocking client

    [protocol/client.cpp]: one request and its reply over a connection of its
    own, and the assembly of the state from its pages. The outcomes of the
    connection, of the write and of every turn of the reading loop are data.
    The theorem composes the client with the pages of [NodeServer]. *)

From S2P Require Import Prelude Text Types Model Machine Bytes FileEngine Frame Messages Protobuf MessageCodec MessageCodecThms ReplicaTypes SnapshotStream NodeServer NodeServerThms.

(** One turn of [read_exact]: the deadline has passed or nothing came before
    it, the wait was interrupted or failed, or [read_some] threw or read. *)
Inductive PollStep :=
| Expired
| NotReady
| Interrupted
| PollFailed
| ReadFailed (what : string)
| Arrived (bytes : list Z).

Definition timed_out : string := "timed out waiting for a reply".

(** [data] is what was received; bytes after the last one asked for stay in the
    stream. The deadline ends the turns. *)
Fixpoint read_exact (steps : list PollStep) (size : nat) (data : list Z) : result string (list Z * list PollStep) :=
  if Nat.leb size (length data) then Ok (data, steps)
  else
    match steps with
    | [] => Err timed_out
    | Expired :: _ => Err timed_out
    | NotReady :: _ => Err timed_out
    | Interrupted :: rest => read_exact rest size data
    | PollFailed :: _ => Err "poll failed while waiting for a reply"
    | ReadFailed what :: _ => Err what
    | Arrived bytes :: rest =>
        let need := (size - length data)%nat in
        if Nat.ltb (length bytes) need then read_exact rest size (data ++ bytes)
        else Ok (data ++ take need bytes, Arrived (drop need bytes) :: rest)
    end.

(** A connection: the exceptions of connecting and of writing, and the reads. *)
Record Exchange := mkExchange {
  xc_connect : option string;
  xc_write : option string;
  xc_steps : list PollStep;
}.

Definition no_reply (what : string) : Error := mkError UnavailableError what.

Definition transact (request : Frame) (x : Exchange) : result Error Frame :=
  match xc_connect x with
  | Some what => Err (no_reply what)
  | None =>
      let? encoded := encode_frame request in
      match xc_write x with
      | Some what => Err (no_reply what)
      | None =>
          match read_exact (xc_steps x) kFrameHeaderBytes [] with
          | Err what => Err (no_reply what)
          | Ok (header, steps) =>
              let? peeked := peek_header header in
              match read_exact steps (Z.to_nat (fh_payload_length peeked + 4)) [] with
              | Err what => Err (no_reply what)
              | Ok (body, _) => decode_frame (header ++ body)
              end
          end
      end
  end.

Definition state_query (hash assembled : string) : ManagementQuery :=
  mkManagementQuery "state" (text_size assembled) 0 "" 0 hash.

(** The checks of a page. *)
Definition page_refused (hash assembled : string) (maximum : Z) (value : ManagementReply) : bool :=
  (if bool_decide (hash = "") then bool_decide (mr_snapshot_state_hash value = "")
   else negb (bool_decide (hash = mr_snapshot_state_hash value))) ||
  (wrap64 (maximum - text_size assembled) <? text_size (mr_state_chunk value)) ||
  negb (mr_next_after_index value =? wrap64 (text_size assembled + text_size (mr_state_chunk value))) ||
  (mr_state_size value <? mr_next_after_index value) ||
  negb (Bool.eqb (mr_has_more value) (mr_next_after_index value <? mr_state_size value)) ||
  (mr_has_more value && bool_decide (mr_state_chunk value = "")).

(** What a page gives: an error, the whole state, or the hash and text so far. *)
Definition take_page (hash assembled : string) (maximum : Z) (value : ManagementReply)
    : result Error (string + string * string) :=
  if negb (bool_decide (mr_error_code value = "")) then Err (mkError UnavailableError (mr_error_message value))
  else if maximum <? mr_state_size value
  then Err (mkError ProtocolError "state exceeds unary response limit; use paginated state queries")
  else if page_refused hash assembled maximum value
  then Err (mkError ProtocolError "invalid state page cursor or hash")
  else
    let assembled := assembled +:+ mr_state_chunk value in
    Ok (if mr_has_more value then inr (mr_snapshot_state_hash value, assembled) else inl assembled).

(** One round: the time left and how the connection answers a request. *)
Definition Round : Type := Z * (Frame -> Exchange).

Fixpoint fetch_loop (rounds : list Round) (hash assembled : string) (maximum : Z) : result Error string :=
  match rounds with
  | [] => Err (mkError UnavailableError "state pagination timed out")
  | (remaining, connect) :: rest =>
      if remaining <=? 0 then Err (mkError UnavailableError "state pagination timed out")
      else
        let? payload := encode_management_query (state_query hash assembled) in
        let request := mkFrame tManagementQuery 0 payload in
        let? wire := transact request (connect request) in
        if negb (fr_type wire =? tManagementReply)
        then Err (mkError ProtocolError "unexpected state page response")
        else
          let? value := decode_management_reply (fr_payload wire) in
          let? page := take_page hash assembled maximum value in
          match page with
          | inl text => Ok text
          | inr (hash, assembled) => fetch_loop rest hash assembled maximum
          end
  end.

Definition fetch_state (rounds : list Round) (expected_hash : string) (maximum : Z) : result Error string :=
  fetch_loop rounds expected_hash "" maximum.

(** ** A connection that delivers *)

(** The bytes that arrive, in any pieces and with interruptions. *)
Fixpoint arrivals (steps : list PollStep) : option (list Z) :=
  match steps with
  | [] => Some []
  | Interrupted :: rest => arrivals rest
  | Arrived bytes :: rest => app bytes <$> arrivals rest
  | _ => None
  end.

Lemma read_exact_arrives steps : forall size data stream, arrivals steps = Some stream ->
  (length data <= size)%nat -> (size <= length data + length stream)%nat ->
  exists rest, read_exact steps size data = Ok (data ++ take (size - length data) stream, rest) /\
    arrivals rest = Some (drop (size - length data) stream).
Proof.
  induction steps as [|step steps IH]; intros size data stream Ha Hd Hs; cbn [read_exact].
  - injection Ha as <-. cbn in Hs. replace (Nat.leb size (length data)) with true by (symmetry; apply Nat.leb_le; lia).
    exists []. rewrite take_nil, app_nil_r, drop_nil. done.
  - destruct (Nat.leb size (length data)) eqn:El.
    { apply Nat.leb_le in El. replace (size - length data)%nat with 0%nat by lia. rewrite take_0, app_nil_r, drop_0.
      by exists (step :: steps). }
    destruct step as [| | | | |bytes]; cbn [arrivals] in Ha; try done; [by apply IH|].
    destruct (arrivals steps) as [tail|] eqn:Et; [|done]. cbn in Ha. injection Ha as <-. cbv zeta.
    destruct (Nat.ltb_spec (length bytes) (size - length data)) as [Hb|Hb].
    + rewrite length_app in Hs. destruct (IH size (data ++ bytes) tail eq_refl) as (rest & -> & Hr);
        [rewrite length_app; lia|rewrite length_app; lia|].
      exists rest. rewrite length_app in *. rewrite <- app_assoc.
      rewrite (take_app_ge bytes tail), (drop_app_ge bytes tail) by lia.
      rewrite Nat.sub_add_distr in *. done.
    + exists (Arrived (drop (size - length data) bytes) :: steps). rewrite take_app_le, drop_app_le by lia.
      split; [done|]. cbn [arrivals]. by rewrite Et.
Qed.

(** A connection over which [reply] comes back. *)
Definition delivers (reply : Frame) (x : Exchange) : Prop :=
  xc_connect x = None /\ xc_write x = None /\
  exists bytes, encode_frame reply = Ok bytes /\ arrivals (xc_steps x) = Some bytes.

Lemma transact_delivers request reply x : frame_ok request -> frame_ok reply -> delivers reply x ->
  transact request x = Ok reply.
Proof.
  intros (_ & _ & _ & Hq) Hr (Hc & Hw & bytes & He & Ha). pose proof Hr as (_ & _ & _ & Hn).
  unfold transact. rewrite Hc, Hw, (encode_frame_layout request Hq).
  rewrite (encode_frame_layout reply Hn) in He. injection He as <-. set (bytes := seal (frame_body reply)) in *.
  assert (length bytes = kFrameHeaderBytes + length (fr_payload reply) + 4)%nat as Hl by apply sealed_length.
  destruct (read_exact_arrives (xc_steps x) kFrameHeaderBytes [] bytes Ha) as (rest & -> & Hrest);
    [change (@length Z []) with 0%nat; lia..|].
  change (@length Z []) with 0%nat in *. cbn [app]. rewrite Nat.sub_0_r in *.
  assert (peek_header (take kFrameHeaderBytes bytes) =
    Ok (mkFrameHeader (fr_type reply) (fr_correlation reply) (zsize (fr_payload reply)))) as ->.
  { destruct Hr as (Ht & Hco & _ & _). unfold peek_header. rewrite length_take_le by lia.
    destruct (Nat.ltb_spec kFrameHeaderBytes kFrameHeaderBytes) as [|_]; [lia|].
    eapply head_fields; [done..|]. unfold bytes, seal, frame_body. rewrite <- app_assoc, take_app.
    rewrite (take_ge (frame_head _ _ _)) by (rewrite frame_head_length; lia). done. }
  cbn [fh_payload_length].
  assert (Z.to_nat (zsize (fr_payload reply) + 4) = length (drop kFrameHeaderBytes bytes)) as Hsize
    by (rewrite length_drop; unfold zsize; lia).
  destruct (read_exact_arrives rest (Z.to_nat (zsize (fr_payload reply) + 4)) [] _ Hrest) as (rest' & -> & _);
    [change (@length Z []) with 0%nat; lia..|].
  change (@length Z []) with 0%nat. cbn [app]. rewrite Nat.sub_0_r, Hsize, firstn_all, take_drop. by apply decode_sealed.
Qed.

(** ** The server's side *)

(** The "state" branch of [on_management], for a node with that state. *)
Definition state_reply (state hash : string) (commit : Z) (query : ManagementQuery) : ManagementReply :=
  if state_refused hash query
  then refused_reply "StateChanged" "state changed or continuation token missing; restart pagination"
  else state_page state hash commit query.

(** The server's [manage] gives that reply, for the state and the hash of its
    store, as long as its cache is that of the hash. *)
Lemma manage_state {R E} `{!RuntimeOps R E} (env : HandlerEnv E) query (sv : Server R) store :
  mq_operation query = "state" -> rr_store (sv_replica sv) = Some store ->
  let state := canonical_state (en_state (fe_engine store)) in
  let hash := rp_state_hash (fe_report store) in
  (sv_cached_hash sv = hash -> sv_cached_state sv = state) ->
  exists sv', manage env query sv = Some (sv', state_reply state hash (fe_commit store) query) /\
    (sv_cached_hash sv' = hash -> sv_cached_state sv' = state).
Proof.
  intros Hop Hstore state hash Hcache. unfold manage, state_reply, mbind, V_bind, get. cbv beta iota zeta.
  rewrite Hop, Hstore. change (bool_decide ("state" = "state")) with true. cbn [of_option mret V_ret]. cbv beta iota.
  fold hash. destruct (state_refused hash query); [by exists sv|].
  destruct (bool_decide (sv_cached_hash sv = hash)) eqn:Eh; cbn [negb whenV].
  - apply bool_decide_eq_true in Eh. exists sv. cbn. by rewrite (Hcache Eh).
  - eexists. split; [reflexivity|]. done.
Qed.

(** A node at a moment: its canonical state, the hash of it and the commit index. *)
Record Moment := mkMoment { mo_state : string; mo_hash : string; mo_commit : Z }.

Definition moment_ok (m : Moment) : Prop :=
  text_size (mo_state m) <= max_u64 /\ mo_hash m <> "" /\ text_size (mo_hash m) <= 4096 /\ u64 (mo_commit m).

(** The frame that answers a query. *)
Definition state_answer (m : Moment) (request : Frame) : result Error Frame :=
  let reply :=
    match decode_management_query (fr_payload request) with
    | Err e => refused_reply "ProtocolError" (err_message e)
    | Ok query => state_reply (mo_state m) (mo_hash m) (mo_commit m) query
    end in
  let? payload := encode_management_reply reply in
  Ok (mkFrame tManagementReply (fr_correlation request) payload).

(** ** What comes back *)

Lemma text_ok_size s : text_size s <= max_u64 -> text_ok s.
Proof. unfold text_ok, sized, zsize, text_size. by rewrite bytes_of_length. Qed.

Lemma state_query_ok hash assembled : text_size hash <= 4096 -> text_size assembled <= max_u64 ->
  management_query_ok (state_query hash assembled).
Proof.
  intros Hh Ha. unfold management_query_ok, state_query. cbn [mq_operation mq_after_index mq_page_size mq_peer_id mq_delay_ms mq_expected_state_hash].
  split; [apply text_ok_size; by vm_compute|]. split; [unfold u64, text_size in *; lia|]. split; [lia|].
  split; [apply text_ok_size; by vm_compute|]. split; [lia|]. apply text_ok_size. unfold max_u64. lia.
Qed.

Lemma request_ok hash assembled payload : text_size hash <= 4096 -> text_size assembled <= max_u64 ->
  encode_management_query (state_query hash assembled) = Ok payload -> frame_ok (mkFrame tManagementQuery 0 payload).
Proof.
  intros Hh Ha He. split; [by vm_compute|]. split; [by vm_compute|].
  split; [by apply (encoded_bytes (OfManagementQuery (state_query hash assembled))); [apply state_query_ok|]|].
  injection He as <-. unfold zsize. cbn [fr_payload].
  match goal with |- Z.of_nat (length ?t) <= _ => bound_writes t end.
  rewrite !bytes_of_length in *. unfold text_size, state_query, kMaxFramePayload in *. cbn in *. lia.
Qed.

Lemma zero_u64 : u64 0.
Proof. by vm_compute. Qed.

Lemma empty_ok : text_ok "".
Proof. by vm_compute. Qed.

Lemma refused_ok code message : text_size code <= max_u64 -> text_size message <= max_u64 ->
  management_reply_ok (refused_reply code message).
Proof.
  intros Hc%text_ok_size Hm%text_ok_size. pose proof zero_u64. pose proof empty_ok.
  unfold management_reply_ok, refused_reply. cbn [mr_error_code mr_error_message mr_events mr_next_after_index
    mr_role_changes mr_elections_started mr_votes_granted mr_step_downs mr_messages_dropped_oversize
    mr_snapshot_chunks_sent mr_transport_frames_sent mr_transport_frames_received mr_transport_dropped
    mr_snapshot_index mr_snapshot_state_hash mr_recovery_report mr_state_chunk mr_state_size].
  split_and!; try assumption. by apply list.Forall_nil_2.
Qed.

Lemma state_page_ok m query : moment_ok m -> management_query_ok query ->
  management_reply_ok (state_page (mo_state m) (mo_hash m) (mo_commit m) query).
Proof.
  intros (Hs & _ & Hh & Hc) (_ & Hq & _). assert (0 <= text_size (mo_state m)) as Hnn by (unfold text_size; lia).
  assert (text_ok (mo_hash m)) by (apply text_ok_size; unfold max_u64; lia). pose proof zero_u64. pose proof empty_ok.
  assert (forall n k, text_ok (substr (mo_state m) n k)) as Hsub.
  { intros n k. apply text_ok_size. unfold substr, text_size in *. rewrite substring_length. lia. }
  assert (u64 (text_size (mo_state m))) by (unfold u64; lia).
  unfold state_page. cbv zeta.
  destruct (_ <? _); unfold management_reply_ok; cbn [mr_error_code mr_error_message mr_events mr_next_after_index
    mr_role_changes mr_elections_started mr_votes_granted mr_step_downs mr_messages_dropped_oversize
    mr_snapshot_chunks_sent mr_transport_frames_sent mr_transport_frames_received mr_transport_dropped
    mr_snapshot_index mr_snapshot_state_hash mr_recovery_report mr_state_chunk mr_state_size];
    split_and!; try assumption; try apply wrap64_u64; try apply Hsub; try (by apply list.Forall_nil_2);
    apply text_ok_size; vm_compute; discriminate.
Qed.

Lemma state_reply_ok m query : moment_ok m -> management_query_ok query ->
  management_reply_ok (state_reply (mo_state m) (mo_hash m) (mo_commit m) query).
Proof.
  intros Hm Hq. unfold state_reply. destruct (state_refused _ _); [|by apply state_page_ok].
  apply refused_ok; vm_compute; discriminate.
Qed.

(** The client decodes the reply that the server made for its query. *)
Lemma answer_reads m query payload frame : moment_ok m -> management_query_ok query ->
  encode_management_query query = Ok payload -> state_answer m (mkFrame tManagementQuery 0 payload) = Ok frame ->
  (fr_type frame =? tManagementReply) = true /\
  decode_management_reply (fr_payload frame) = Ok (state_reply (mo_state m) (mo_hash m) (mo_commit m) query).
Proof.
  intros Hm Hq He Ha. pose proof (read_extended (OfManagementQuery query) [] payload Hq (list.Forall_nil_2 _) He) as Hr.
  cbn [concat] in Hr. rewrite app_nil_r in Hr. cbn in Hr. unfold result_map in Hr.
  unfold state_answer in Ha. cbn [fr_payload] in Ha.
  destruct (decode_management_query payload) as [q|e]; [|done]. assert (q = query) as -> by congruence. clear Hr.
  set (reply := state_reply (mo_state m) (mo_hash m) (mo_commit m) query) in *.
  destruct (encode_management_reply reply) as [bytes|e] eqn:Er; [|done]. cbn in Ha. injection Ha as <-.
  split; [done|]. cbn [fr_payload].
  pose proof (read_extended (OfManagementReply reply) [] bytes (state_reply_ok m query Hm Hq) (list.Forall_nil_2 _) Er) as Hr.
  cbn [concat] in Hr. rewrite app_nil_r in Hr. cbn in Hr. unfold result_map in Hr.
  destruct (decode_management_reply bytes) as [v|e]; [|done]. congruence.
Qed.

(** ** Assembling *)

(** A reply over the connection, if one comes, is that of the node at one of the
    moments. *)
Definition honest (moments : list Moment) (round : Round) : Prop :=
  forall request frame, transact request (snd round request) = Ok frame ->
  exists m, m ∈ moments /\ state_answer m request = Ok frame.

(** What the client has so far: nothing, or a prefix of the state of its hash. *)
Definition progress (moments : list Moment) (expected hash assembled : string) : Prop :=
  (hash = expected /\ assembled = "") \/
  exists m, m ∈ moments /\ hash = mo_hash m /\ text_size assembled <= text_size (mo_state m) /\
    assembled = substr (mo_state m) 0 (text_size assembled) /\ (expected <> "" -> mo_hash m = expected).

Lemma page_taken m hash assembled maximum result :
  moment_ok m -> 0 <= maximum <= max_u64 -> text_size assembled <= text_size (mo_state m) ->
  assembled = substr (mo_state m) 0 (text_size assembled) ->
  take_page hash assembled maximum (state_reply (mo_state m) (mo_hash m) (mo_commit m) (state_query hash assembled)) = Ok result ->
  (hash <> "" -> hash = mo_hash m) /\ text_size (mo_state m) <= maximum /\
  match result with
  | inl text => text = mo_state m
  | inr (hash', assembled') =>
      hash' = mo_hash m /\ assembled' = substr (mo_state m) 0 (text_size assembled') /\
      text_size assembled' = text_size assembled + 65536 /\ text_size assembled' < text_size (mo_state m)
  end.
Proof.
  intros (Hs & Hne & Hh & Hc) Hmax Hle Hpre. unfold take_page, state_reply.
  destruct (state_refused _ _); [done|].
  assert (0 <= text_size assembled) as Hnn by (unfold text_size; lia).
  destruct (state_page_spec (mo_state m) (mo_hash m) (mo_commit m) (state_query hash assembled))
    as (E1 & E2 & E3 & E4 & E5 & E6 & E7 & E8 & E9); [cbn; lia|done|cbn; lia|].
  assert (mr_state_size (state_page (mo_state m) (mo_hash m) (mo_commit m) (state_query hash assembled)) = text_size (mo_state m)) as E10.
  { unfold state_page. cbv zeta. by destruct (text_size (mo_state m) <? mq_after_index (state_query hash assembled)). }
  set (page := state_page (mo_state m) (mo_hash m) (mo_commit m) (state_query hash assembled)) in *.
  rewrite E1. cbn [negb bool_decide]. change (negb (bool_decide ("" = ""))) with false. cbv iota.
  rewrite E10. destruct (Z.ltb_spec maximum (text_size (mo_state m))); [done|].
  destruct (page_refused hash assembled maximum page) eqn:Ep; [done|]. unfold page_refused in Ep.
  repeat (apply orb_false_iff in Ep as [Ep ?]). intros Hr. cbv zeta in Hr.
  assert (page_bytes (state_query hash assembled) = 65536) as Hpb by reflexivity. rewrite Hpb in *.
  cbn [mq_after_index state_query] in *.
  split; [|split; [done|]].
  - intros Hn. rewrite bool_decide_eq_false_2 in Ep by done. apply negb_false_iff, bool_decide_eq_true in Ep. congruence.
  - rewrite E9, E6, E4 in Hr.
    assert (assembled +:+ substr (mo_state m) (text_size assembled) 65536 = substr (mo_state m) 0 (text_size assembled + 65536)) as Hj
      by (rewrite <- substr_join by lia; f_equal; exact Hpre).
    rewrite Hj in Hr. destruct (Z.ltb_spec (text_size assembled + Z.min 65536 (text_size (mo_state m) - text_size assembled)) (text_size (mo_state m))) as [Hm|Hm].
    + injection Hr as <-. assert (text_size (substr (mo_state m) 0 (text_size assembled + 65536)) = text_size assembled + 65536) as Hz
        by (apply substr_size; lia).
      rewrite Hz. split; [done|]. split; [done|]. lia.
    + injection Hr as <-. apply substr_whole. lia.
Qed.

Lemma progress_size moments expected hash assembled : Forall moment_ok moments -> progress moments expected hash assembled ->
  text_size expected <= 4096 -> text_size hash <= 4096 /\ text_size assembled <= max_u64.
Proof.
  intros Hall [[-> ->]|(m & Hin & -> & Hle & _)] He; [split; [done|by vm_compute]|].
  rewrite list.Forall_forall in Hall. destruct (Hall m Hin) as (H1 & _ & H2 & _). split; [done|lia].
Qed.

Lemma fetch_loop_safe moments expected maximum rounds : Forall moment_ok moments ->
  (forall m m', m ∈ moments -> m' ∈ moments -> mo_hash m = mo_hash m' -> mo_state m = mo_state m') ->
  text_size expected <= 4096 -> 0 <= maximum <= max_u64 -> Forall (honest moments) rounds ->
  forall hash assembled text, progress moments expected hash assembled ->
  fetch_loop rounds hash assembled maximum = Ok text ->
  exists m, m ∈ moments /\ text = mo_state m /\ text_size text <= maximum /\ (expected <> "" -> mo_hash m = expected).
Proof.
  intros Hall Hinj He Hmax Hrounds. induction Hrounds as [|[remaining connect] rest Hr _ IH];
    intros hash assembled text Hp; cbn [fetch_loop]; [done|].
  destruct (remaining <=? 0); [done|].
  destruct (encode_management_query (state_query hash assembled)) as [payload|e] eqn:Ee; [|done].
  destruct (progress_size _ _ _ _ Hall Hp He) as [Hh Ha].
  destruct (transact (mkFrame tManagementQuery 0 payload) (connect (mkFrame tManagementQuery 0 payload))) as [wire|e] eqn:Et; [|done].
  destruct (Hr _ _ Et) as (m & Hin & Hans). pose proof Hall as Hok. rewrite list.Forall_forall in Hok. specialize (Hok m Hin).
  destruct (answer_reads m _ payload wire Hok (state_query_ok hash assembled Hh Ha) Ee Hans) as [-> ->]. cbn [negb].
  destruct (take_page hash assembled maximum (state_reply (mo_state m) (mo_hash m) (mo_commit m) (state_query hash assembled)))
    as [page|e] eqn:Ep; [|done].
  assert ((hash <> "" -> hash = mo_hash m) -> text_size assembled <= text_size (mo_state m) /\
    assembled = substr (mo_state m) 0 (text_size assembled) /\ (expected <> "" -> mo_hash m = expected)) as Hsame.
  { intros Hhash. destruct Hp as [[-> ->]|(m' & Hin' & -> & Hle & Hpre & Hexp)].
    - split; [unfold text_size; cbn; lia|]. split; [unfold substr; by destruct (mo_state m)|]. intros Hn. symmetry. by apply Hhash.
    - pose proof Hall as Hok'. rewrite list.Forall_forall in Hok'. destruct (Hok' m' Hin') as (_ & Hne & _).
      specialize (Hhash Hne). rewrite <- (Hinj m' m Hin' Hin Hhash). split; [done|]. split; [done|].
      intros Hn. rewrite <- Hhash. by apply Hexp. }
  assert (hash <> "" -> hash = mo_hash m) as Hhash.
  { intros Hn. unfold take_page, state_reply in Ep. destruct (state_refused _ _) eqn:Es; [done|].
    unfold state_refused in Es. cbn [state_query mq_after_index mq_expected_state_hash] in Es.
    apply orb_false_iff in Es as [_ Es]. rewrite (bool_decide_eq_false_2 (hash = "")) in Es by done.
    by apply negb_false_iff, bool_decide_eq_true in Es. }
  destruct (Hsame Hhash) as (H1 & H2 & H3).
  destruct (page_taken m hash assembled maximum page Hok Hmax H1 H2 Ep) as (_ & Hsz & Hpage).
  destruct page as [whole|[hash' assembled']].
  - intros [= <-]. exists m. subst whole. done.
  - destruct Hpage as (-> & P2 & P3 & P4). apply IH. right. exists m. split; [done|]. split; [done|]. split; [lia|]. done.
Qed.

(** The server's pages pass the checks of the client. *)
Lemma page_accepted m hash assembled maximum :
  moment_ok m -> text_size (mo_state m) <= maximum <= max_u64 -> text_size assembled <= text_size (mo_state m) ->
  (hash = "" /\ assembled = "") \/ hash = mo_hash m ->
  exists result, take_page hash assembled maximum
    (state_reply (mo_state m) (mo_hash m) (mo_commit m) (state_query hash assembled)) = Ok result.
Proof.
  intros (Hs & Hne & Hh & Hc) Hmax Hle Hhash. unfold take_page, state_reply.
  assert (0 <= text_size assembled) as Hnn by (unfold text_size; lia).
  assert (state_refused (mo_hash m) (state_query hash assembled) = false) as ->.
  { unfold state_refused. cbn [state_query mq_after_index mq_expected_state_hash]. apply orb_false_iff.
    destruct Hhash as [[-> ->]| ->]; [done|]. rewrite (bool_decide_eq_false_2 (mo_hash m = "")) by done.
    rewrite andb_false_r. split; [done|]. by rewrite bool_decide_eq_true_2. }
  destruct (state_page_spec (mo_state m) (mo_hash m) (mo_commit m) (state_query hash assembled))
    as (E1 & E2 & E3 & E4 & E5 & E6 & E7 & E8 & E9); [cbn; lia|done|cbn; lia|].
  assert (mr_state_size (state_page (mo_state m) (mo_hash m) (mo_commit m) (state_query hash assembled)) = text_size (mo_state m)) as E10.
  { unfold state_page. cbv zeta. by destruct (text_size (mo_state m) <? mq_after_index (state_query hash assembled)). }
  set (page := state_page (mo_state m) (mo_hash m) (mo_commit m) (state_query hash assembled)) in *.
  assert (page_bytes (state_query hash assembled) = 65536) as Hpb by reflexivity. rewrite Hpb in *.
  cbn [mq_after_index state_query] in *.
  rewrite E1, E10. change (negb (bool_decide ("" = ""))) with false. cbv iota.
  destruct (Z.ltb_spec maximum (text_size (mo_state m))); [lia|].
  assert (page_refused hash assembled maximum page = false) as ->; [|by eexists].
  unfold page_refused. rewrite E10, E8, E9, E7, E4.
  rewrite !wrap64_small by (unfold u64; lia).
  assert ((if bool_decide (hash = "") then bool_decide (mo_hash m = "") else negb (bool_decide (hash = mo_hash m))) = false) as ->.
  { destruct Hhash as [[-> _]| ->].
    - rewrite (bool_decide_eq_true_2 ("" = "")) by done. by rewrite bool_decide_eq_false_2.
    - rewrite (bool_decide_eq_false_2 (mo_hash m = "")) by done. by rewrite bool_decide_eq_true_2. }
  rewrite Z.eqb_refl, Bool.eqb_reflx. cbn [negb orb].
  set (k := Z.min 65536 (text_size (mo_state m) - text_size assembled)) in *.
  destruct (Z.ltb_spec (maximum - text_size assembled) k); [lia|].
  destruct (Z.ltb_spec (text_size (mo_state m)) (text_size assembled + k)); [lia|]. cbn [orb].
  destruct (Z.ltb_spec (text_size assembled + k) (text_size (mo_state m))); [|done]. cbn [andb].
  apply bool_decide_eq_false. intros Hempty. rewrite Hempty in E7. change (text_size "") with 0 in E7. lia.
Qed.

(** A round in which the node answers, in time. *)
Definition answers_in_time (m : Moment) (round : Round) : Prop :=
  0 < fst round /\
  forall request answer, state_answer m request = Ok answer -> frame_ok answer -> delivers answer (snd round request).

Lemma answer_exists m hash assembled payload : moment_ok m -> text_size hash <= 4096 ->
  text_size assembled <= text_size (mo_state m) -> (hash = "" /\ assembled = "") \/ hash = mo_hash m ->
  encode_management_query (state_query hash assembled) = Ok payload ->
  exists frame, state_answer m (mkFrame tManagementQuery 0 payload) = Ok frame /\ frame_ok frame.
Proof.
  intros Hm Hh Hle Hhash He. pose proof Hm as (Hs & Hne & Hmh & Hc).
  assert (management_query_ok (state_query hash assembled)) as Hq by (apply state_query_ok; [done|lia]).
  pose proof (read_extended (OfManagementQuery _) [] payload Hq (list.Forall_nil_2 _) He) as Hr.
  cbn [concat] in Hr. rewrite app_nil_r in Hr. cbn in Hr. unfold result_map in Hr.
  unfold state_answer. cbn [fr_payload]. destruct (decode_management_query payload) as [q|e]; [|done].
  assert (q = state_query hash assembled) as -> by congruence.
  assert (state_refused (mo_hash m) (state_query hash assembled) = false) as Href.
  { unfold state_refused. cbn [state_query mq_after_index mq_expected_state_hash]. apply orb_false_iff.
    destruct Hhash as [[-> ->]| ->]; [done|]. rewrite (bool_decide_eq_false_2 (mo_hash m = "")) by done.
    rewrite andb_false_r. split; [done|]. by rewrite bool_decide_eq_true_2. }
  unfold state_reply. rewrite Href.
  assert (0 <= text_size assembled) as Hnn by (unfold text_size; lia).
  destruct (state_page_spec (mo_state m) (mo_hash m) (mo_commit m) (state_query hash assembled))
    as (E1 & E2 & E3 & E4 & E5 & E6 & E7 & E8 & E9); [cbn; lia|done|cbn; lia|].
  destruct (reply_fits (state_page (mo_state m) (mo_hash m) (mo_commit m) (state_query hash assembled))) as (bytes & Hb & Hz).
  { done. }
  { done. }
  { rewrite E3, E4, E5, E7. change (page_bytes (state_query hash assembled)) with 65536.
    change (text_size "") with 0. change (texts_size []) with 0. cbn [length]. unfold kMaxFramePayload. lia. }
  rewrite Hb. eexists. split; [reflexivity|]. split; [by vm_compute|]. split; [by vm_compute|]. split; [|done].
  apply (encoded_bytes (OfManagementReply (state_page (mo_state m) (mo_hash m) (mo_commit m) (state_query hash assembled)))); [|done].
  by apply state_page_ok.
Qed.

Lemma fetch_loop_completes m maximum rounds : moment_ok m -> text_size (mo_state m) <= maximum <= max_u64 ->
  Forall (answers_in_time m) rounds ->
  forall hash assembled, (hash = "" /\ assembled = "") \/ hash = mo_hash m ->
  text_size assembled <= text_size (mo_state m) -> assembled = substr (mo_state m) 0 (text_size assembled) ->
  text_size (mo_state m) - text_size assembled < 65536 * Z.of_nat (length rounds) ->
  fetch_loop rounds hash assembled maximum = Ok (mo_state m).
Proof.
  intros Hm Hmax Hall. pose proof Hm as (Hs & Hne & Hmh & Hc).
  induction Hall as [|[remaining connect] rest [Hrem Hans] _ IH]; intros hash assembled Hhash Hle Hpre Hlen.
  { cbn [length] in Hlen. lia. }
  cbn [fetch_loop]. destruct (Z.leb_spec remaining 0); [cbn in Hrem; lia|].
  assert (text_size hash <= 4096) as Hh by (destruct Hhash as [[-> _]| ->]; [by vm_compute|done]).
  destruct (encode_management_query (state_query hash assembled)) as [payload|e] eqn:Ee; [|done].
  destruct (answer_exists m hash assembled payload Hm Hh Hle Hhash Ee) as (frame & Hf & Hfok).
  cbn [snd] in Hans. rewrite (transact_delivers _ frame _ (request_ok hash assembled payload Hh ltac:(lia) Ee) Hfok (Hans _ _ Hf Hfok)).
  destruct (answer_reads m _ payload frame Hm (state_query_ok hash assembled Hh ltac:(lia)) Ee Hf) as [-> ->]. cbn [negb].
  destruct (page_accepted m hash assembled maximum Hm Hmax Hle Hhash) as [page Hp]. rewrite Hp.
  assert (0 <= text_size (mo_state m)) by (unfold text_size; lia).
  destruct (page_taken m hash assembled maximum page Hm ltac:(lia) Hle Hpre Hp) as (_ & _ & Hres).
  destruct page as [text|[hash' assembled']]; [by rewrite Hres|]. destruct Hres as (-> & P2 & P3 & P4).
  apply IH; [by right|lia|done|]. cbn [length] in Hlen. lia.
Qed.

(** C36: [fetch_state] against the pages of the server. Whatever connections fail
    and however the state changes between two pages, what the client returns is
    the whole state of one moment, of the hash that was asked for, and within the
    limit, as long as hashes tell the states of those moments apart. And while
    the state stays the same and replies come in time, in whatever pieces, one
    round for each 64 KiB is enough to return it. *)
Theorem fetched_state_is_whole moments expected maximum rounds :
  Forall moment_ok moments ->
  (forall m m', m ∈ moments -> m' ∈ moments -> mo_hash m = mo_hash m' -> mo_state m = mo_state m') ->
  text_size expected <= 4096 -> 0 <= maximum <= max_u64 ->
  (forall text, Forall (honest moments) rounds -> fetch_state rounds expected maximum = Ok text ->
     exists m, m ∈ moments /\ text = mo_state m /\ text_size text <= maximum /\
       (expected <> "" -> mo_hash m = expected)) /\
  (forall m, m ∈ moments -> expected = "" \/ expected = mo_hash m -> text_size (mo_state m) <= maximum ->
     Forall (answers_in_time m) rounds -> text_size (mo_state m) < 65536 * Z.of_nat (length rounds) ->
     fetch_state rounds expected maximum = Ok (mo_state m)).
Proof.
  intros Hall Hinj He Hmax. split.
  - intros text Hr Hf. eapply fetch_loop_safe; [done..| |exact Hf]. by left.
  - intros m Hin Hexp Hsize Hans Hlen. rewrite list.Forall_forall in Hall.
    apply fetch_loop_completes; [by apply Hall|lia|done| |unfold text_size; cbn; lia| |].
    + destruct Hexp as [-> | ->]; [by left|by right].
    + unfold substr. by destruct (mo_state m).
    + change (text_size "") with 0. lia.
Qed.

(** A node that answers in two pieces, with an interruption. *)
Definition demo_moment : Moment := mkMoment (canonical_state empty_state) "hash" 3.

Definition demo_round : Round :=
  (500, fun request =>
     match state_answer demo_moment request with
     | Ok answer =>
         match encode_frame answer with
         | Ok bytes => mkExchange None None [Arrived (take 7 bytes); Interrupted; Arrived (drop 7 bytes)]
         | Err e => mkExchange (Some "") None []
         end
     | Err e => mkExchange (Some "") None []
     end).

Lemma demo_round_answers : answers_in_time demo_moment demo_round.
Proof.
  split; [done|]. intros request answer Ha (_ & _ & _ & Hn). unfold demo_round. cbn [snd].
  rewrite Ha, (encode_frame_layout answer Hn). split; [done|]. split; [done|].
  exists (seal (frame_body answer)). split; [by apply encode_frame_layout|].
  change (Some (take 7 (seal (frame_body answer)) ++ drop 7 (seal (frame_body answer)) ++ [])%list =
    Some (seal (frame_body answer))).
  by rewrite app_nil_r, take_drop.
Qed.

Lemma fetched_state_is_whole_witness :
  fetch_state [demo_round] "" 3145728 = Ok (mo_state demo_moment) /\ 0 < text_size (mo_state demo_moment).
Proof.
  split; [|vm_compute; reflexivity].
  refine (proj2 (fetched_state_is_whole [demo_moment] "" 3145728 [demo_round] _ _ _ _) demo_moment _ _ _ _ _).
  - constructor; [|constructor]. split; [vm_compute; discriminate|]. split; [discriminate|].
    split; vm_compute; [discriminate|split; discriminate].
  - intros m m' H1 H2 _. apply list_elem_of_singleton in H1. apply list_elem_of_singleton in H2. congruence.
  - vm_compute. discriminate.
  - vm_compute. split; discriminate.
  - constructor.
  - left. reflexivity.
  - vm_compute. discriminate.
  - constructor; [exact demo_round_answers|constructor].
  - vm_compute. reflexivity.
Defined.
