(* ===== verification/Management.v ===== *)
(** * The management gateway

    [apps/management/main.cpp]: the remote procedures that the dashboard calls,
    each a request or two to the node over the blocking client and a
    translation of its answer to a status. Requests and responses are the
    messages of [proto/management/choreoos_management.proto]. The first theorem
    is about what a caller may conclude from the answer to a command. *)

From S2P Require Import Prelude Text Types Model EventCodec EventCodecThms Bytes Frame Messages Protobuf MessageCodec MessageCodecThms ReplicaTypes SnapshotStream Config NodeServer NodeServerThms ProtocolClient.

(** ** The messages of the service *)

Inductive StatusCode :=
| OK
| INVALID_ARGUMENT
| ALREADY_EXISTS
| PERMISSION_DENIED
| RESOURCE_EXHAUSTED
| FAILED_PRECONDITION
| OUT_OF_RANGE
| INTERNAL
| UNAVAILABLE.

#[export] Instance StatusCode_eq_dec : EqDecision StatusCode.
Proof. solve_decision. Defined.

(** [grpc::Status] when it is not OK. *)
Record RpcError := mkRpcError { re_code : StatusCode; re_message : string }.

Record SubmitCommandRequest := mkSubmitCommandRequest { sq_operation_id : string; sq_canonical_command : string }.

Record SubmitCommandResponse := mkSubmitCommandResponse {
  sp_committed : bool;
  sp_duplicate : bool;
  sp_committed_index : Z;
  sp_canonical_event : string;
  sp_hash : string;
  sp_leader_id : string;
}.

Record GetStateResponse := mkGetStateResponse {
  gs_canonical_state : string;
  gs_state_hash : string;
  gs_applied_index : Z;
  gs_term : Z;
  gs_authoritative : bool;
}.

Record NodeStatus := mkNodeStatus {
  no_node_id : string;
  no_leader_id : string;
  no_role : string;
  no_term : Z;
  no_commit_index : Z;
  no_last_log_index : Z;
  no_state_hash : string;
  no_ready : bool;
}.

Record ListEventsResponse := mkListEventsResponse {
  le_events : list (Z * string);
  le_next_after_index : Z;
  le_has_more : bool;
}.

Record MetricsResponse := mkMetricsResponse {
  mt_role_changes : Z;
  mt_elections_started : Z;
  mt_votes_granted : Z;
  mt_step_downs : Z;
  mt_messages_dropped_oversize : Z;
  mt_snapshot_chunks_sent : Z;
  mt_transport_frames_sent : Z;
  mt_transport_frames_received : Z;
  mt_transport_dropped : Z;
}.

Record RecoveryStatus := mkRecoveryStatus {
  rs_commit_index : Z;
  rs_snapshot_index : Z;
  rs_snapshot_state_hash : string;
  rs_recovering : bool;
  rs_recovery_report : string;
}.

(** [InjectTestFaultRequest::Fault]; a number of a later schema is another value. *)
Inductive Fault := FAULT_UNSPECIFIED | DROP_PEER | DELAY_PEER | HEAL_PEERS | PAUSE_NODE | OtherFault (number : Z).

(** ** Requests to the node *)

Definition unavailable_status (e : Error) : RpcError := mkRpcError UNAVAILABLE (err_message e).

(** How the connection behaves for a request. *)
Definition Connection : Type := Frame -> Exchange.

(** [ManagementService::transact] *)
Definition node_transact (connect : Connection) (frame : Frame) : result Error Frame := transact frame (connect frame).

Definition fetch_status (connect : Connection) : result Error StatusResponse :=
  let? payload := encode_status_query in
  let? reply := node_transact connect (mkFrame tStatusQuery 0 payload) in
  if negb (fr_type reply =? tStatusResponse) then Err (mkError ProtocolError "unexpected node status response")
  else decode_status_response (fr_payload reply).

Definition fetch_management (connect : Connection) (query : ManagementQuery) : result Error ManagementReply :=
  let? payload := encode_management_query query in
  let? reply := node_transact connect (mkFrame tManagementQuery 0 payload) in
  if negb (fr_type reply =? tManagementReply) then Err (mkError ProtocolError "unexpected management response")
  else decode_management_reply (fr_payload reply).

(** The failure of a request becomes [UNAVAILABLE]. *)
Definition or_unavailable {A} (r : result Error A) : result RpcError A :=
  match r with Ok a => Ok a | Err e => Err (unavailable_status e) end.

(** ** The procedures *)

(** Trailing metadata of the answer. *)
Definition Metadata : Type := list (string * string).

Definition outcome_unknown : string * string := ("choreoos-outcome", "unknown").

Definition command_frame (payload : list Z) : Frame := mkFrame tClientCommand 0 payload.

(** The status of an answer that is not [ok]. *)
Definition refused_status (body : ClientResponse) : Metadata * RpcError :=
  let code := cr_error_code body in
  let message := cr_error_message body in
  let known := [("choreoos-error-code", code)] in
  if bool_decide (code = "NotLeader") then (known, mkRpcError FAILED_PRECONDITION message)
  else if bool_decide (code = "Unavailable") then (known ++ [outcome_unknown], mkRpcError UNAVAILABLE message)
  else if bool_decide (code = "CommandConflict") then (known, mkRpcError ALREADY_EXISTS message)
  else if bool_decide (code = "OutcomeUnavailable") then (known, mkRpcError FAILED_PRECONDITION message)
  else (known, mkRpcError INVALID_ARGUMENT (code +:+ ": " +:+ message)).

Definition submit_answer (reply : result Error Frame) : Metadata * result RpcError SubmitCommandResponse :=
  match reply with
  | Err e => ([outcome_unknown], Err (unavailable_status e))
  | Ok reply =>
      if negb (fr_type reply =? tClientResponse)
      then ([], Err (mkRpcError INTERNAL "node returned unexpected command frame"))
      else
        match decode_client_response (fr_payload reply) with
        | Err e => ([], Err (mkRpcError INTERNAL (err_message e)))
        | Ok body =>
            if negb (cr_ok body) then let '(metadata, e) := refused_status body in (metadata, Err e)
            else ([], Ok (mkSubmitCommandResponse true (cr_duplicate body) (cr_index body) (cr_event_canonical body)
                            (cr_state_hash body) (cr_leader_id body)))
        end
  end.

Definition SubmitCommand (connect : Connection) (request : SubmitCommandRequest)
    : Metadata * result RpcError SubmitCommandResponse :=
  let invalid := ([], Err (mkRpcError INVALID_ARGUMENT "operation_id must match a valid canonical command ID")) in
  match parse_command (sq_canonical_command request) with
  | Err _ => invalid
  | Ok command =>
      if bool_decide (sq_operation_id request = "") || negb (bool_decide (c_id command = sq_operation_id request))
      then invalid
      else
        match encode_client_command (mkClientCommand (canonical_command command)) with
        | Err e => ([], Err (mkRpcError INVALID_ARGUMENT (err_message e)))
        | Ok encoded => submit_answer (node_transact connect (command_frame encoded))
        end
  end.

(** The state is fetched over connections of its own. *)
Definition GetState (connect : Connection) (rounds : list Round) (require_leader : bool)
    : result RpcError GetStateResponse :=
  let? status := or_unavailable (fetch_status connect) in
  let leader := bool_decide (ss_role status = "leader") in
  if require_leader && negb leader
  then Err (mkRpcError FAILED_PRECONDITION ("not leader; last known leader: " +:+ ss_leader_id status))
  else
    match fetch_state rounds (ss_state_hash status) 3145728 with
    | Err e =>
        Err (mkRpcError (if bool_decide (err_code e = ProtocolError) then RESOURCE_EXHAUSTED else UNAVAILABLE) (err_message e))
    | Ok state => Ok (mkGetStateResponse state (ss_state_hash status) (ss_commit_index status) (ss_term status) leader)
    end.

Definition GetNodeStatus (connect : Connection) : result RpcError NodeStatus :=
  let? status := or_unavailable (fetch_status connect) in
  Ok (mkNodeStatus (ss_node_id status) (ss_leader_id status) (ss_role status) (ss_term status) (ss_commit_index status)
        (ss_last_log_index status) (ss_state_hash status) true).

Fixpoint list_records (events : list string) : result RpcError (list (Z * string)) :=
  match events with
  | [] => Ok []
  | canonical :: rest =>
      match parse_event canonical with
      | Err _ => Err (mkRpcError INTERNAL "node returned malformed committed event")
      | Ok parsed => let? items := list_records rest in Ok ((ev_index parsed, canonical) :: items)
      end
  end.

Definition ListEvents (connect : Connection) (after_index page_size : Z) : result RpcError ListEventsResponse :=
  if 128 <? page_size then Err (mkRpcError INVALID_ARGUMENT "page_size must be at most 128")
  else
    let? body := or_unavailable (fetch_management connect (mkManagementQuery "events" after_index page_size "" 0 "")) in
    if negb (bool_decide (mr_error_code body = ""))
    then Err (mkRpcError (if bool_decide (mr_error_code body = "Compacted") then OUT_OF_RANGE else FAILED_PRECONDITION)
                (mr_error_message body))
    else
      let? items := list_records (mr_events body) in
      Ok (mkListEventsResponse items (mr_next_after_index body) (mr_has_more body)).

Definition GetMetrics (connect : Connection) : result RpcError MetricsResponse :=
  let? metrics := or_unavailable (fetch_management connect (mkManagementQuery "metrics" 0 0 "" 0 "")) in
  if negb (bool_decide (mr_error_code metrics = "")) then Err (mkRpcError FAILED_PRECONDITION (mr_error_message metrics))
  else Ok (mkMetricsResponse (mr_role_changes metrics) (mr_elections_started metrics) (mr_votes_granted metrics)
             (mr_step_downs metrics) (mr_messages_dropped_oversize metrics) (mr_snapshot_chunks_sent metrics)
             (mr_transport_frames_sent metrics) (mr_transport_frames_received metrics) (mr_transport_dropped metrics)).

Definition GetRecoveryStatus (connect connect_status : Connection) : result RpcError RecoveryStatus :=
  let? body := or_unavailable (fetch_management connect (mkManagementQuery "recovery" 0 0 "" 0 "")) in
  let? status := or_unavailable (fetch_status connect_status) in
  Ok (mkRecoveryStatus (ss_commit_index status) (mr_snapshot_index body) (mr_snapshot_state_hash body) false
        (mr_recovery_report body)).

Definition fault_operation (fault : Fault) : option string :=
  match fault with
  | DROP_PEER => Some "drop_peer"
  | DELAY_PEER => Some "delay_peer"
  | HEAL_PEERS => Some "heal"
  | PAUSE_NODE => Some "pause"
  | FAULT_UNSPECIFIED | OtherFault _ => None
  end.

Definition InjectTestFault (connect : Connection) (fault : Fault) (peer_id : string) (delay_ms : Z) : result RpcError bool :=
  match fault_operation fault with
  | None => Err (mkRpcError INVALID_ARGUMENT "unknown test fault")
  | Some operation =>
      let? body := or_unavailable (fetch_management connect (mkManagementQuery operation 0 0 peer_id delay_ms "")) in
      if negb (bool_decide (mr_error_code body = ""))
      then Err (mkRpcError (if bool_decide (mr_error_code body = "PermissionDenied") then PERMISSION_DENIED
                            else INVALID_ARGUMENT) (mr_error_message body))
      else Ok true
  end.

(** ** The command line *)

Definition parse_port (text : string) : option Z :=
  match from_chars_u 4294967295 text with
  | None => None
  | Some number => if (number =? 0) || (65535 <? number) then None else Some number
  end.

(** The node's port and the gateway's, from the two arguments. *)
Definition gateway_ports (args : list string) : option (Z * Z) :=
  match args with
  | [node; management] =>
      match parse_port node, parse_port management with
      | Some node_port, Some management_port =>
          if node_port =? management_port then None else Some (node_port, management_port)
      | _, _ => None
      end
  | _ => None
  end.

(** ** What a caller may conclude *)

(** The node's side of a command, as [on_client] reads it: [answer] is what it
    tells for a command, [refuse] for bytes that are none. *)
Definition client_answer (answer : Command -> ClientResponse) (refuse : Error -> ClientResponse) (request : Frame)
    : ClientResponse :=
  match decode_client_command (fr_payload request) with
  | Err e => refuse e
  | Ok message => match parse_command (cc_canonical message) with Err e => refuse e | Ok command => answer command end
  end.

Definition answer_frame (answer : Command -> ClientResponse) (refuse : Error -> ClientResponse) (request : Frame)
    : result Error Frame :=
  let? payload := encode_client_response (client_answer answer refuse request) in
  Ok (mkFrame tClientResponse (fr_correlation request) payload).

(** If a reply comes at all, it is the node's. *)
Definition honest_node (answer : Command -> ClientResponse) (refuse : Error -> ClientResponse) (connect : Connection) : Prop :=
  forall request frame, frame_ok request -> transact request (connect request) = Ok frame ->
  answer_frame answer refuse request = Ok frame.

(** A request that was answered had fitted in a frame. *)
Lemma answered_fits payload x frame : bytes_ok payload -> transact (command_frame payload) x = Ok frame ->
  frame_ok (command_frame payload).
Proof.
  intros Hb H. split; [by vm_compute|]. split; [by vm_compute|]. split; [done|]. unfold transact, encode_frame in H. cbv zeta in H.
  destruct (xc_connect x); [done|]. destruct (Z.ltb_spec kMaxFramePayload (zsize (fr_payload (command_frame payload)))); [done|lia].
Qed.

(** The node reads the command that the caller submitted. *)
Lemma command_reaches_node answer refuse text command encoded : parse_command text = Ok command ->
  text_ok (canonical_command command) ->
  encode_client_command (mkClientCommand (canonical_command command)) = Ok encoded ->
  client_answer answer refuse (command_frame encoded) = answer command.
Proof.
  intros Hp Ht He. pose proof (read_extended (OfClientCommand (mkClientCommand (canonical_command command))) [] encoded Ht (list.Forall_nil_2 _) He) as Hr.
  cbn [concat] in Hr. rewrite app_nil_r in Hr. cbn in Hr. unfold result_map in Hr. unfold client_answer. cbn [command_frame fr_payload].
  destruct (decode_client_command encoded) as [m|e]; [|done]. injection Hr as Hm.
  assert (m = mkClientCommand (canonical_command command)) as -> by exact Hm.
  cbn [cc_canonical]. by rewrite (parse_canonical_command command (parse_command_ok text command Hp)).
Qed.

Lemma answer_decodes answer refuse request frame : client_response_ok (client_answer answer refuse request) ->
  answer_frame answer refuse request = Ok frame ->
  (fr_type frame =? tClientResponse) = true /\
  decode_client_response (fr_payload frame) = Ok (client_answer answer refuse request).
Proof.
  intros Hok. unfold answer_frame. set (r := client_answer answer refuse request) in *.
  destruct (encode_client_response r) as [bytes|e] eqn:Ee; [|done]. intros [= <-]. split; [done|]. cbn [fr_payload].
  pose proof (read_extended (OfClientResponse r) [] bytes Hok (list.Forall_nil_2 _) Ee) as Hr.
  cbn [concat] in Hr. rewrite app_nil_r in Hr. cbn in Hr. unfold result_map in Hr.
  destruct (decode_client_response bytes) as [v|e]; [congruence|done].
Qed.

Lemma refused_status_says body metadata e : refused_status body = (metadata, e) ->
  ("choreoos-error-code", cr_error_code body) ∈ metadata /\
  (outcome_unknown ∈ metadata <-> cr_error_code body = "Unavailable").
Proof.
  unfold refused_status. cbv zeta. intros H.
  assert (forall code, outcome_unknown ∉ [("choreoos-error-code", code)]) as Hno
    by (intros code [= ]%list_elem_of_singleton).
  repeat match type of H with
  | (if bool_decide ?P then _ else _) = _ => destruct (decide P) as [Hc|]; [rewrite bool_decide_eq_true_2 in H by done|rewrite bool_decide_eq_false_2 in H by done]
  end; injection H as <- <-; (split; [set_solver|]); [| set_solver| | |]; split; intros Hx; first [by apply Hno in Hx|by rewrite Hx in Hc|by rewrite Hx in *].
Qed.

(** The answer of the gateway to a command that it forwards. *)
Definition told (body : ClientResponse) : SubmitCommandResponse :=
  mkSubmitCommandResponse true (cr_duplicate body) (cr_index body) (cr_event_canonical body) (cr_state_hash body) (cr_leader_id body).

(** [GetState] over connections on which the status and the pages are those of
    the node at some moments: what is returned is the whole state of one
    moment, with the hash, the index and the term of the status, and when the
    status is of a moment, it is that moment's state. *)
Lemma get_state_is_one_moment moments connect rounds require_leader status response :
  Forall moment_ok moments ->
  (forall m m', m ∈ moments -> m' ∈ moments -> mo_hash m = mo_hash m' -> mo_state m = mo_state m') ->
  Forall (honest moments) rounds ->
  fetch_status connect = Ok status ->
  (exists m, m ∈ moments /\ ss_state_hash status = mo_hash m /\ ss_commit_index status = mo_commit m) ->
  GetState connect rounds require_leader = Ok response ->
  exists m, m ∈ moments /\ gs_canonical_state response = mo_state m /\ gs_state_hash response = mo_hash m /\
    gs_applied_index response = mo_commit m /\ gs_term response = ss_term status /\
    (require_leader = true -> gs_authoritative response = true).
Proof.
  intros Hall Hinj Hr Hs (m & Hm & Hh & Hc). unfold GetState. rewrite Hs. cbn [or_unavailable].
  pose proof Hall as Hok. rewrite list.Forall_forall in Hok. destruct (Hok m Hm) as (_ & Hne & Hsize & _).
  destruct (require_leader && negb (bool_decide (ss_role status = "leader"))) eqn:El; [done|].
  destruct (fetch_state rounds (ss_state_hash status) 3145728) as [text|e] eqn:Ef; [|done]. intros [= <-].
  cbn [gs_canonical_state gs_state_hash gs_applied_index gs_term gs_authoritative].
  destruct (fetch_loop_safe moments (ss_state_hash status) 3145728 rounds Hall Hinj) with (hash := ss_state_hash status)
    (assembled := "") (text := text) as (m' & Hm' & -> & _ & Hexp); [by rewrite Hh|by vm_compute|done|by left|exact Ef|].
  exists m. split; [done|]. split; [|by destruct require_leader, (bool_decide (ss_role status = "leader"))].
  apply Hinj; [done|done|]. rewrite <- Hh. apply Hexp. by rewrite Hh.
Qed.


(** A node that committed the command, and a connection that brings the answer
    in two pieces. *)
Definition demo_answer (command : Command) : ClientResponse :=
  mkClientResponse true false "" "" "n1" 7 "schema=1" "hash".

Definition demo_refuse (e : Error) : ClientResponse :=
  mkClientResponse false false "ProtocolError" "" "n1" 0 "" "".

Definition demo_connect : Connection := fun request =>
  match answer_frame demo_answer demo_refuse request with
  | Err _ => mkExchange (Some "") None []
  | Ok reply =>
      match encode_frame reply with
      | Err _ => mkExchange (Some "") None []
      | Ok bytes => mkExchange None None [Arrived (take 9 bytes); Interrupted; Arrived (drop 9 bytes)]
      end
  end.

Lemma demo_answer_ok command : client_response_ok (demo_answer command).
Proof. unfold client_response_ok, demo_answer. cbn. split_and!; by vm_compute. Qed.

Lemma demo_refuse_ok e : client_response_ok (demo_refuse e).
Proof. unfold client_response_ok, demo_refuse. cbn. split_and!; by vm_compute. Qed.

Lemma demo_reply request : frame_ok request -> exists reply, answer_frame demo_answer demo_refuse request = Ok reply /\ frame_ok reply.
Proof.
  intros (_ & Hc & _). unfold answer_frame.
  assert (exists c e, client_answer demo_answer demo_refuse request = demo_answer c \/
    client_answer demo_answer demo_refuse request = demo_refuse e) as (c & e & Hr).
  { unfold client_answer. destruct (decode_client_command _) as [m|e]; [|exists demo_command, e; by right].
    destruct (parse_command _) as [c|e]; [exists c, (mkError ProtocolError ""); by left|exists demo_command, e; by right]. }
  assert (exists payload, encode_client_response (client_answer demo_answer demo_refuse request) = Ok payload /\
    bytes_ok payload /\ zsize payload <= kMaxFramePayload) as (payload & -> & Hb & Hs).
  { destruct Hr as [-> | ->]; (eexists; split; [vm_compute; reflexivity|]);
      (split; [by repeat (constructor; [lia|])|vm_compute; discriminate]). }
  eexists. split; [reflexivity|]. split; [by vm_compute|]. done.
Qed.

Lemma demo_connect_delivers request reply : answer_frame demo_answer demo_refuse request = Ok reply -> frame_ok reply ->
  delivers reply (demo_connect request).
Proof.
  intros Ha (_ & _ & _ & Hn). unfold demo_connect. rewrite Ha, (encode_frame_layout reply Hn). split; [done|]. split; [done|].
  exists (seal (frame_body reply)). split; [by apply encode_frame_layout|].
  change (Some (take 9 (seal (frame_body reply)) ++ drop 9 (seal (frame_body reply)) ++ [])%list = Some (seal (frame_body reply))).
  by rewrite app_nil_r, take_drop.
Qed.

Lemma demo_node_honest : honest_node demo_answer demo_refuse demo_connect.
Proof.
  intros request frame Hq Ht. destruct (demo_reply request Hq) as (reply & Ha & Hr).
  rewrite (transact_delivers request reply _ Hq Hr (demo_connect_delivers request reply Ha Hr)) in Ht. congruence.
Qed.

