(* ===== verification/Cli.v ===== *)
(** * The command-line programs

    [apps/cli/main.cpp], [apps/replay/main.cpp] and [apps/node/main.cpp]: the
    commands on a store directory, the commands and queries sent to a node
    with one redirect to its leader, and what is printed. The lock of the
    directory, the outcomes of the system calls and the connections are data.
    The lemmas at the end follow a redirect. *)

From S2P Require Import Prelude Text Stream Types Model EventCodec EventCodecThms Machine SnapshotText Bytes Wal WalThms Metadata Transaction SnapshotFile FileEngine Frame Messages Protobuf MessageCodec MessageCodecThms ReplicaTypes SnapshotStream Config ConfigThms NodeServer NodeServerThms ProtocolClient Management.

(** How a program ends: its exit status and what it wrote to the standard
    output and error, or an exception that leaves [main]. *)
Inductive Outcome :=
| Exited (status : Z) (out err : string)
| Thrown.

(** A step of a program: a value, or the end of the program. *)
Definition Step (A : Type) : Type := result Outcome A.

Definition line_end : string := String "010" "".

(** A conversion that throws, and [Result::value] of a failure. *)
Definition or_throw {A} (value : option A) : Step A := match value with Some v => Ok v | None => Err Thrown end.
Definition value_of {A} (r : result Error A) : Step A := match r with Ok v => Ok v | Err _ => Err Thrown end.

(** [std::stoi]: [None] where it throws. *)
Definition stoi (s : string) : option Z :=
  match stoll s with
  | Some v => if (min_i32 <=? v) && (v <=? max_i32) then Some v else None
  | None => None
  end.

Record Options := mkOptions { op_output : string; op_command : string; op_args : list string }.

Definition usage_text : string :=
"ChoreoOS CLI 0.1.0

Usage:
  choreoos-cli [--output text|json] <command> --store DIR [flags]
  choreoos-cli [--output text|json] <command> --leader HOST:PORT [flags]

Commands:
  create            --id NAME --width-mm N --depth-mm N [--max-travel-mm N]
  add-dancer        --id NAME --x-mm N --y-mm N --count N
  remove-dancer     --id NAME --count N
  move              --id NAME --x-mm N --y-mm N --count N
  define-formation  --id NAME --members a,b --count N
  change-formation  --id NAME --members a,b --count N
  music             --id NAME --count N [--depends ID]
  lighting          --id NAME --count N [--depends ID]
  snapshot
  show              [--count N]
  events
  replay            [--count N]
  validate
  status            --leader HOST:PORT
".

(** [flag]: the argument after the first occurrence of [name]. *)
Fixpoint flag (args : list string) (name : string) : option string :=
  match args with
  | arg :: ((value :: _) as rest) => if bool_decide (arg = name) then Some value else flag rest name
  | _ => None
  end.

Definition fail (error : Error) (output : string) : Outcome :=
  if bool_decide (output = "json")
  then Exited 1 (lit "{'ok':false,'error':'" +:+ error_code_name (err_code error) +:+ lit "','message':'" +:+
         err_message error +:+ lit "'}" +:+ line_end) ""
  else Exited 1 "" (error_to_string error +:+ line_end).

Definition fail_text (message output : string) : Outcome := fail (mkError StoreError message) output.

(** [if (!r) return fail(r.error(), output)] *)
Definition or_fail {A} (output : string) (r : result Error A) : Step A :=
  match r with Ok v => Ok v | Err e => Err (fail e output) end.

(** [if (!r) return fail(message, output)], for optionals and results. *)
Definition need {A} (message output : string) (r : option A) : Step A :=
  match r with Some v => Ok v | None => Err (fail_text message output) end.
Definition ok_of {A} (r : result Error A) : option A := match r with Ok v => Some v | Err _ => None end.

Definition existing_or (store : FileEngine) (fallback : string) : Step string :=
  match s_id (en_state (fe_engine store)) with
  | Some id => Ok id
  | None => value_of (parse_id fallback)
  end.

Definition next_command_id (store : FileEngine) (args : list string) : string :=
  match flag args "--command-id" with
  | Some supplied => supplied
  | None => "cmd-" +:+ print_u (index_next (s_last_applied (en_state (fe_engine store))))
  end.

(** [parse_members] of the program: an invalid name throws. *)
Definition cli_members (raw : string) : Step (list string) := value_of (parse_ids (split ","%char raw)).

(** ** What is printed *)

Definition print_dancer (state : ChoreographyState) (id : string) : string :=
  match s_dancers state !! id with
  | Some dancer =>
      "  " +:+ id +:+ (if ds_active dancer then "" else " (removed)") +:+ " @ " +:+ print_i (pos_x (ds_position dancer)) +:+
      "," +:+ print_i (pos_y (ds_position dancer)) +:+ " mm" +:+ line_end
  | None => ""
  end.

Definition print_stage (state : ChoreographyState) : string :=
  match s_stage state with
  | None => "(empty)" +:+ line_end
  | Some stage =>
      "Choreography " +:+ default "?" (s_id state) +:+ line_end +:+
      "Stage " +:+ print_i (st_width stage) +:+ "mm x " +:+ print_i (st_depth stage) +:+ "mm" +:+ line_end +:+
      "Last applied " +:+ print_u (s_last_applied state) +:+ line_end +:+
      "Hash " +:+ state_hash state +:+ line_end +:+
      String.concat "" (print_dancer state <$> sorted_keys (s_dancers state))
  end.

Fixpoint escape_lines (text : string) : string :=
  match text with
  | EmptyString => ""
  | String ch rest => if bool_decide (ch = "010"%char) then "\n" +:+ escape_lines rest else String ch (escape_lines rest)
  end.

Definition print_json_state (state : ChoreographyState) : string :=
  lit "{'ok':true,'hash':'" +:+ state_hash state +:+ lit "','last_applied':" +:+ print_u (s_last_applied state) +:+
  lit ",'canonical':'" +:+ escape_lines (canonical_state state) +:+ lit "'}" +:+ line_end.

Definition print_submitted (output : string) (result : SubmitResult) (hash : string) : string :=
  let index := print_u (ev_index (sr_event result)) in
  if bool_decide (output = "json")
  then lit "{'ok':true,'duplicate':" +:+ (if sr_duplicate result then "true" else "false") +:+ lit ",'index':" +:+ index +:+
       lit ",'hash':'" +:+ hash +:+ lit "'}" +:+ line_end
  else (if sr_duplicate result then "duplicate " else "committed ") +:+ event_type_name (ev_type (sr_event result)) +:+
       " index=" +:+ index +:+ " hash=" +:+ hash +:+ line_end.

(** [submit] *)
Definition cli_submit (store : FileEngine) (command : Command) (output : string) (os : Os) : FileEngine * Outcome :=
  let '(store, result) := store_submit store command os in
  match result with
  | Err e => (store, fail e output)
  | Ok result => (store, Exited 0 (print_submitted output result (state_hash (en_state (fe_engine store)))) "")
  end.

(** ** A node as the target *)

Record LeaderEndpoint := mkLeaderEndpoint { lp_host : string; lp_port : Z }.

Definition parse_leader (text : string) : option LeaderEndpoint :=
  match break_last ":"%char text with
  | None => None
  | Some (host, port) =>
      match stoi port with Some number => Some (mkLeaderEndpoint host (wrap16 number)) | None => None end
  end.

(** [s.find(needle)], as the text from the first occurrence on. *)
Fixpoint find_text (needle s : string) : option string :=
  if String.prefix needle s then Some s
  else match s with EmptyString => None | String _ rest => find_text needle rest end.

Definition leader_from_rejection (message : string) : option LeaderEndpoint :=
  match find_text "leader is " message with
  | None => None
  | Some marked => match break_at "@"%char marked with None => None | Some (_, contact) => parse_leader contact end
  end.

(** The [create] command of both paths, from valid parts. *)
Definition create_command (id choreography : string) (stage : StageBounds) (tick travel : Z) : Command :=
  mkCommand id choreography CreateChoreography kCurrentSchemaVersion tick (PCreate choreography stage Forbidden travel).

Definition travel_of (args : list string) : Step Z :=
  match flag args "--max-travel-mm" with Some text => or_throw (stoi text) | None => Ok 5000 end.

Definition dancer_type (command : string) : CommandType :=
  if bool_decide (command = "add-dancer") then AddDancer else MoveDancer.

(** The lambda that builds a command for a node; [None] is its [nullopt]. *)
Definition remote_command (options : Options) : Step (option Command) :=
  let args := op_args options in
  match parse_id (default (op_command options) (flag args "--command-id")) with
  | Err _ => Ok None
  | Ok id =>
      if bool_decide (op_command options = "create") then
        match flag args "--id", flag args "--width-mm", flag args "--depth-mm" with
        | Some name, Some width, Some depth =>
            let choreography := parse_id name in
            let? width := or_throw (stoi width) in
            let? depth := or_throw (stoi depth) in
            match choreography, stage_from_mm width depth, from_count 0 with
            | Ok choreography, Ok stage, Ok tick =>
                let? travel := travel_of args in
                Ok (Some (create_command id choreography stage tick travel))
            | _, _, _ => Ok None
            end
        | _, _, _ => Ok None
        end
      else
        match parse_id (default "opening" (flag args "--choreo")), flag args "--count" with
        | Ok choreography, Some count_raw =>
            let? count := or_throw (stoll count_raw) in
            match from_count count with
            | Err _ => Ok None
            | Ok tick =>
                if bool_decide (op_command options = "add-dancer") || bool_decide (op_command options = "move") then
                  match flag args "--id", flag args "--x-mm", flag args "--y-mm" with
                  | Some name, Some x, Some y =>
                      let dancer := parse_id name in
                      let? x := or_throw (stoi x) in
                      let? y := or_throw (stoi y) in
                      match dancer, position_from_mm x y with
                      | Ok dancer, Ok position =>
                          Ok (Some (mkCommand id choreography (dancer_type (op_command options)) kCurrentSchemaVersion tick
                                      (PDancer dancer position)))
                      | _, _ => Ok None
                      end
                  | _, _, _ => Ok None
                  end
                else Ok None
            end
        | _, _ => Ok None
        end
  end.

(** The connections to the nodes: of each attempt, and of the pages of a state. *)
Record Network := mkRemote {
  nk_connect : LeaderEndpoint -> nat -> Connection;
  nk_rounds : LeaderEndpoint -> list Round;
}.

Definition print_status (options : Options) (value : StatusResponse) : string :=
  if bool_decide (op_output options = "json")
  then lit "{'ok':true,'id':'" +:+ ss_node_id value +:+ lit "','role':'" +:+ ss_role value +:+ lit "','term':" +:+
       print_u (ss_term value) +:+ lit ",'commit':" +:+ print_u (ss_commit_index value) +:+ lit ",'hash':'" +:+
       ss_state_hash value +:+ lit "'}" +:+ line_end
  else ss_node_id value +:+ " role=" +:+ ss_role value +:+ " term=" +:+ print_u (ss_term value) +:+ " commit=" +:+
       print_u (ss_commit_index value) +:+ " last=" +:+ print_u (ss_last_log_index value) +:+ " hash=" +:+
       ss_state_hash value +:+ line_end.

(** What was printed before a failure stays printed. *)
Definition after_output (out : string) (outcome : Outcome) : Outcome :=
  match outcome with Exited status out' err => Exited status (out +:+ out') err | Thrown => Thrown end.

Definition remote_status (net : Network) (options : Options) (leader : LeaderEndpoint) (attempt : nat) : Step Outcome :=
  let output := op_output options in
  let? payload := or_fail output encode_status_query in
  let? reply := or_fail output (node_transact (nk_connect net leader attempt) (mkFrame tStatusQuery 0 payload)) in
  let? value := or_fail output (decode_status_response (fr_payload reply)) in
  let text := print_status options value in
  if bool_decide (output = "json") || negb (bool_decide (op_command options = "show")) then Ok (Exited 0 text "")
  else
    match fetch_state (nk_rounds net leader) (ss_state_hash value) 3145728 with
    | Err e => Ok (after_output text (fail e output))
    | Ok state => Ok (Exited 0 (text +:+ state) "")
    end.

(** One attempt to have a command committed. *)
Definition remote_submit (net : Network) (options : Options) (leader : LeaderEndpoint) (attempt : nat) : Step ClientResponse :=
  let output := op_output options in
  let? built := remote_command options in
  let? command := need "remote command is missing flags or is not supported yet" output built in
  let? payload := or_fail output (encode_client_command (mkClientCommand (canonical_command command))) in
  let? reply := or_fail output (node_transact (nk_connect net leader attempt) (command_frame payload)) in
  or_fail output (decode_client_response (fr_payload reply)).

Definition finished (step : Step Outcome) : Outcome := match step with Ok outcome => outcome | Err outcome => outcome end.

(** [run_remote]; [more] is 1 - [redirects]. *)
Fixpoint run_remote (net : Network) (options : Options) (more : nat) (leader : LeaderEndpoint) : Outcome :=
  let attempt := (1 - more)%nat in
  if bool_decide (op_command options = "status") || bool_decide (op_command options = "show")
  then finished (remote_status net options leader attempt)
  else
    match remote_submit net options leader attempt with
    | Err outcome => outcome
    | Ok body =>
        if cr_ok body
        then Exited 0 ((if cr_duplicate body then "duplicate" else "committed") +:+ " index=" +:+ print_u (cr_index body) +:+
                       " hash=" +:+ cr_state_hash body +:+ line_end) ""
        else
          let refused := fail_text (cr_error_code body +:+ ": " +:+ cr_error_message body) (op_output options) in
          match more with
          | O => refused
          | S more =>
              match leader_from_rejection (cr_error_message body) with
              | Some next => run_remote net options more next
              | None => refused
              end
          end
    end.

(** ** A store directory as the target *)

(** What the system gives a command: the lock, the files and the system calls. *)
Record Local := mkLocal { lc_lease : option Error; lc_disk : Directory; lc_open : OpenOs; lc_os : Os }.

(** The defaults of [StoreOptions]. *)
Definition cli_options : StoreOptions := mkStoreOptions 100 true true false false.

Definition cli_snapshot (options : Options) (store : FileEngine) (os : Os) : FileEngine * Outcome :=
  let '(store, saved) := checkpoint store os in
  let state := en_state (fe_engine store) in
  match saved with
  | Some e => (store, fail e (op_output options))
  | None =>
      (store, Exited 0
        (if bool_decide (op_output options = "json")
         then lit "{'ok':true,'hash':'" +:+ state_hash state +:+ lit "'}" +:+ line_end
         else "snapshot index=" +:+ print_u (s_last_applied state) +:+ " hash=" +:+ state_hash state +:+ line_end) "")
  end.

(** [show], [replay] and [validate] *)
Definition cli_show (options : Options) (store : FileEngine) : Step Outcome :=
  let output := op_output options in
  let? through :=
    match flag (op_args options) "--count" with
    | None => Ok None
    | Some text =>
        let? count := or_throw (stoll text) in
        let? tick := or_fail output (from_count count) in
        Ok (Some tick)
    end in
  let? replayed := or_fail output (replay_through (fe_engine store) through None) in
  Ok (Exited 0
        (if bool_decide (output = "json") then print_json_state replayed
         else print_stage replayed +:+
              (if bool_decide (op_command options = "validate") then canonical_state replayed else "")) "").

Definition cli_events (store : FileEngine) : Outcome :=
  Exited 0 (String.concat "" ((fun event => canonical_event event +:+ line_end) <$> en_events (fe_engine store))) "".

(** The command that [create] submits. *)
Definition local_create (options : Options) (id : string) : Step Command :=
  let args := op_args options in
  let output := op_output options in
  match flag args "--id", flag args "--width-mm", flag args "--depth-mm" with
  | Some name, Some width, Some depth =>
      let choreography := parse_id name in
      let? width := or_throw (stoi width) in
      let? depth := or_throw (stoi depth) in
      match choreography, stage_from_mm width depth, from_count 0 with
      | Ok choreography, Ok stage, Ok tick =>
          let? travel := travel_of args in
          Ok (create_command id choreography stage tick travel)
      | _, _, _ => Err (fail_text "invalid create arguments" output)
      end
  | _, _, _ => Err (fail_text "create requires --id --width-mm --depth-mm" output)
  end.

(** The payloads of the other commands; an unknown one prints the usage. *)
Definition local_payload (options : Options) : Step (CommandType * Payload) :=
  let args := op_args options in
  let output := op_output options in
  let named name := bool_decide (op_command options = name) in
  if named "add-dancer" || named "move" then
    match flag args "--id", flag args "--x-mm", flag args "--y-mm" with
    | Some name, Some x, Some y =>
        let dancer := parse_id name in
        let? x := or_throw (stoi x) in
        let? y := or_throw (stoi y) in
        match dancer, position_from_mm x y with
        | Ok dancer, Ok position => Ok (dancer_type (op_command options), PDancer dancer position)
        | _, _ => Err (fail_text "invalid dancer position or id" output)
        end
    | _, _, _ => Err (fail_text "dancer command requires --id --x-mm --y-mm" output)
    end
  else if named "remove-dancer" then
    let? name := need "remove-dancer requires --id" output (flag args "--id") in
    let? dancer := or_fail output (parse_id name) in
    Ok (RemoveDancer, PRemove dancer)
  else if named "define-formation" || named "change-formation" then
    match flag args "--id", flag args "--members" with
    | Some name, Some members_raw =>
        let? formation := or_fail output (parse_id name) in
        let? members := cli_members members_raw in
        Ok (if named "define-formation" then DefineFormation else ChangeFormation, PFormation formation members)
    | _, _ => Err (fail_text "formation command requires --id --members" output)
    end
  else if named "music" || named "lighting" then
    let? name := need "cue command requires --id" output (flag args "--id") in
    let? cue := or_fail output (parse_id name) in
    let? depends :=
      match flag args "--depends" with
      | None => Ok None
      | Some text => let? id := or_fail output (parse_id text) in Ok (Some id)
      end in
    Ok (if named "music" then TriggerMusicCue else TriggerLightingCue, PCue cue depends)
  else Err (Exited 2 usage_text "").

(** The command that is submitted. *)
Definition local_command (options : Options) (store : FileEngine) : Step Command :=
  let args := op_args options in
  let output := op_output options in
  let? id := or_fail output (parse_id (next_command_id store args)) in
  if bool_decide (op_command options = "create") then local_create options id
  else
    let? choreography := existing_or store (default "opening" (flag args "--choreo")) in
    let? count_raw := need "command requires --count" output (flag args "--count") in
    let? count := or_throw (stoll count_raw) in
    let? tick := or_fail output (from_count count) in
    let? (type, payload) := local_payload options in
    Ok (mkCommand id choreography type kCurrentSchemaVersion tick payload).

(** A command on an open store. *)
Definition run_local (options : Options) (store : FileEngine) (os : Os) : FileEngine * Outcome :=
  let named name := bool_decide (op_command options = name) in
  if named "snapshot" then cli_snapshot options store os
  else if named "show" || named "replay" || named "validate" then (store, finished (cli_show options store))
  else if named "events" then (store, cli_events store)
  else
    match local_command options store with
    | Err outcome => (store, outcome)
    | Ok command => cli_submit store command (op_output options) os
    end.

(** ** The programs *)

(** The options of a command line that is not a request for help. *)
Definition parse_options (raw : list string) : option Options :=
  let '(output, rest) :=
    match raw with
    | arg :: value :: rest => if bool_decide (arg = "--output") then (value, rest) else ("text", raw)
    | _ => ("text", raw)
    end in
  match rest with
  | [] => None
  | command :: args => Some (mkOptions output command args)
  end.

(** [main] of the CLI: the directory afterwards and how it ended. *)
Definition cli_main (net : Network) (env : Local) (raw : list string) : Directory * Outcome :=
  let disk := lc_disk env in
  let help := match raw with [] => true | arg :: _ => bool_decide (arg = "help") || bool_decide (arg = "--help") end in
  if help then (disk, Exited 0 usage_text "")
  else
    match parse_options raw with
    | None => (disk, Exited 2 usage_text "")
    | Some options =>
        let output := op_output options in
        match flag (op_args options) "--leader" with
        | Some leader =>
            (disk, match parse_leader leader with
                   | None => fail_text "leader must look like HOST:PORT" output
                   | Some endpoint => run_remote net options 1 endpoint
                   end)
        | None =>
            if bool_decide (op_command options = "version") then (disk, Exited 0 ("choreoos-cli 0.1.0" +:+ line_end) "")
            else
              match flag (op_args options) "--store", lc_lease env with
              | None, _ => (disk, fail_text "missing --store DIR" output)
              | Some _, Some e => (disk, fail e output)
              | Some _, None =>
                  match store_open disk cli_options (lc_open env) with
                  | (disk, Err e) => (disk, fail e output)
                  | (_, Ok store) => let '(store, outcome) := run_local options store (lc_os env) in (fe_disk store, outcome)
                  end
              end
        end
    end.

(** What the replay program prints of a store. *)
Definition replay_text (truncated : Z) (store : FileEngine) : string :=
  let report := fe_report store in
  let state := en_state (fe_engine store) in
  let row name value := name +:+ " " +:+ value +:+ line_end in
  "ChoreoOS replay 0.1.0" +:+ line_end +:+
  row "events" (print_u (Z.of_nat (length (en_events (fe_engine store))))) +:+
  row "snapshot" (if rp_used_snapshot report then "yes" else "no") +:+
  row "snapshot_index" (print_u (rp_snapshot_index report)) +:+
  row "replayed_after_snapshot" (print_u (rp_replayed report)) +:+
  row "truncated_tail_bytes" (print_u truncated) +:+
  row "commit_index" (print_u (rp_commit_index report)) +:+
  row "hash" (state_hash state) +:+ canonical_state state.

(** [main] of the replay program. *)
Definition replay_main (env : Local) (args : list string) : Directory * Outcome :=
  let disk := lc_disk env in
  match args, lc_lease env with
  | [], _ => (disk, Exited 2 "" ("Usage: choreoos-replay STORE_DIR" +:+ line_end))
  | _ :: _, Some e => (disk, Exited 1 "" (error_to_string e +:+ line_end))
  | _ :: _, None =>
      match store_open disk cli_options (lc_open env) with
      | (disk, Err e) => (disk, Exited 1 "" (error_to_string e +:+ line_end))
      | (_, Ok store) => (fe_disk store, Exited 0 (replay_text (rp_truncated (fe_report store)) store) "")
      end
  end.

(** ** Opening a directory again *)

(** A log object that came from a file. *)
Definition loaded (wal : WriteAheadLog) : Prop := exists file truncated cut, load file truncated cut = Ok wal.

Lemma opened_loaded found access cut file wal :
  wal_open found access cut = (file, Ok wal) -> file = Some (wal_file wal) /\ loaded wal.
Proof. intros [-> [bytes H]]%wal_open_loaded. split; [done|]. by exists bytes, 0, cut. Qed.

(** The log after the joint: the one before it, or an empty one that replaced
    a log which ends below the snapshot. The joint holds from then on. *)
Lemma join_log_again wal snapshot metadata outcome cut wal' : loaded wal ->
  join_log wal snapshot metadata outcome cut = (wal', None) ->
  loaded wal' /\
  (wal' = wal \/ wal_events wal' = [] /\ exists boundary last, snapshot = Some boundary /\
     back_index (wal_events wal) = Some last /\ last < sp_index boundary) /\
  (forall metadata' outcome' cut' wal'', wal_events wal'' = wal_events wal' ->
     join_log wal'' snapshot metadata' outcome' cut' = (wal'', None)).
Proof.
  intros Hl. unfold join_log. destruct snapshot as [boundary|]; [|intros [= <-]; split; [done|]; split; [by left|done]].
  destruct (front_index (wal_events wal)) as [first|] eqn:Ef; cycle 1.
  { intros [= <-]. split; [done|]. split; [by left|]. intros m o c w ->. by rewrite Ef. }
  destruct (back_index (wal_events wal)) as [last|] eqn:Eb; cycle 1.
  { intros [= <-]. split; [done|]. split; [by left|]. intros m o c w ->. by rewrite Ef, Eb. }
  cbv zeta. destruct (Z.ltb_spec last (sp_index boundary)) as [Hlt|Hge].
  - destruct (_ || _); [done|]. destruct (rewrite_log wal [] outcome cut) as [w [e|]] eqn:Er; [done|].
    unfold rewrite_log in Er. rewrite (encode_wal_layout [] (list.Forall_nil_2 _)) in Er.
    destruct outcome as [|e|e]; cbn [write_atomic] in Er; cbv beta iota zeta in Er; [|discriminate Er|discriminate Er]. cbn [wal_file wal_truncated from_option id] in Er.
    destruct (load (wal_file_header ++ records []) (wal_truncated wal) cut) as [log|e] eqn:Hw; [|discriminate Er].
    injection Er as ->. pose proof (load_whole [] (wal_truncated wal) cut (list.Forall_nil_2 _)) as Hnil. rewrite Hw in Hnil.
    apply (f_equal (fun r => match r with Ok x => wal_events x | Err _ => [] end)) in Hnil. cbn [wal_events] in Hnil.
    assert (loaded w) as Hlw by exact (ex_intro _ _ (ex_intro _ _ (ex_intro _ _ Hw))). clear Hw.
    rewrite Hnil. change (log_entry_of [] (sp_index boundary)) with (@None Event). intros [= <-]. split; [done|]. split.
    + right. split; [done|]. by exists boundary, last.
    + intros m o c w' ->. by rewrite Hnil.
  - destruct ((sp_index boundary <? first) && negb (first - sp_index boundary =? 1)) eqn:Ej; [done|].
    intros H. assert (wal' = wal) as -> by (repeat case_match; congruence). split; [done|]. split; [by left|].
    intros m o c w Hw. rewrite Hw, Ef, Eb, (proj2 (Z.ltb_ge last (sp_index boundary)) Hge), Ej, Hw. revert H.
    destruct (log_entry_of (wal_events wal) (sp_index boundary)) as [anchor|]; [|done].
    by destruct (negb (ev_term anchor =? sp_term boundary)).
Qed.

(** System calls that do not fail, and read the same snapshot files. *)
Record calm_after (os again : OpenOs) : Prop := mkCalmAfter {
  ca_directory : op_directory again = None;
  ca_journal : op_journal again = None;
  ca_journal_sync : op_journal_sync again = None;
  ca_access : op_created again = Accessed;
  ca_meta_read : op_meta_read again = None;
  ca_unreadable : op_unreadable again = op_unreadable os;
  ca_scanned : op_scanned again = op_scanned os;
}.

(** What two openings agree on: all but the bytes cut from the end of the log. *)
Definition same_store (store store' : FileEngine) : Prop :=
  fe_disk store' = fe_disk store /\ fe_engine store' = fe_engine store /\ log_events store' = log_events store /\
  fe_report store' = mkRecoveryReport (rp_used_snapshot (fe_report store)) (rp_snapshot_index (fe_report store))
    (rp_replayed (fe_report store)) 0 (rp_commit_index (fe_report store)) (rp_state_hash (fe_report store)).

Lemma finish_again disk wal engine snapshot metadata replayed os d store : load_metadata (dir_meta disk) = Ok metadata ->
  metadata_ok metadata -> u64 (s_last_applied (en_state engine)) -> s_term (en_state engine) <= max_u64 ->
  md_commit_index metadata <= s_last_applied (en_state engine) ->
  finish_open disk cli_options wal engine snapshot metadata replayed os = (d, Ok store) ->
  (dir_journal (fe_disk store) = dir_journal disk /\ dir_snapshots (fe_disk store) = dir_snapshots disk /\
   dir_wal (fe_disk store) = dir_wal disk) /\ fe_engine store = engine /\
  exists metadata', load_metadata (dir_meta (fe_disk store)) = Ok metadata' /\
    md_commit_index metadata' <= s_last_applied (en_state engine) /\
    forall wal' again, wal_events wal' = wal_events wal -> wal_truncated wal' = 0 -> exists store',
      finish_open (fe_disk store) cli_options wal' engine snapshot metadata' replayed again = (fe_disk store, Ok store') /\
      same_store store store'.
Proof.
  intros Hm Hok Ha Ht Hc. set (s := en_state engine) in *. unfold finish_open. cbn [cli_options so_commit_on_append so_compact_log andb].
  destruct ((md_commit_index metadata <? s_last_applied s) || (md_term metadata <? s_term s)) eqn:Eu; fold s; rewrite ?Eu.
  - set (updated := raise_term (s_term s) (set_commit (s_last_applied s) metadata)).
    assert (metadata_ok updated) as Hup.
    { destruct Hok as (H1 & _ & H3). unfold updated, raise_term, set_commit. unfold valid_term in *. cbn [md_term].
      destruct (Z.ltb_spec (md_term metadata) (s_term s)); split; cbn; [unfold valid_term; lia|done|unfold valid_term; lia|done]. }
    pose proof (metadata_old_or_new (dir_meta disk) metadata updated (op_meta_write os) Hm Hup) as Hst.
    destruct (store_metadata (dir_meta disk) updated (op_meta_write os)) as [file [e|]]; [done|]. destruct Hst as [_ Hst].
    specialize (Hst eq_refl). intros [= <- <-]. split; [done|]. split; [done|]. exists updated. split; [done|].
    assert (md_commit_index updated = s_last_applied s) as Hcu by (unfold updated, raise_term; by destruct (md_term (set_commit (s_last_applied s) metadata) <? s_term s)).
    split; [lia|]. intros wal' again Hw Htr.
    assert ((md_commit_index updated <? s_last_applied s) || (md_term updated <? s_term s) = false) as ->.
    { apply orb_false_iff. split; apply Z.ltb_ge; [lia|]. unfold updated, raise_term, set_commit. cbn [md_term].
      destruct (Z.ltb_spec (md_term metadata) (s_term s)); cbn; lia. }
    eexists. split; [reflexivity|]. unfold same_store, log_events. cbn. by rewrite Hw, Htr.
  - intros [= <- <-]. split; [done|]. split; [done|]. exists metadata. split; [done|]. split; [done|]. intros wal' again Hw Htr.
    rewrite Eu. eexists. split; [reflexivity|]. unfold same_store, log_events. cbn. by rewrite Hw, Htr.
Qed.

Lemma finish_engine disk wal engine snapshot metadata replayed os d store :
  finish_open disk cli_options wal engine snapshot metadata replayed os = (d, Ok store) -> fe_engine store = engine.
Proof.
  unfold finish_open. cbn [cli_options so_commit_on_append so_compact_log andb]. destruct (_ || _).
  - destruct (store_metadata _ _ _) as [file [e|]]; [done|]. by intros [= <- <-].
  - by intros [= <- <-].
Qed.

Lemma retained_history_short index events last : back_index events = Some last -> last < index -> retained_history index events = [].
Proof.
  intros Hb Hlt. unfold retained_history. rewrite Hb. destruct (front_index events) as [first|]; [|done].
  rewrite (proj2 (Z.leb_gt index last)) by lia. by rewrite andb_false_r.
Qed.

(** A directory that could be opened, whatever its files held, can be opened
    again, and is then left as it is: the same state, history and report. *)
Lemma open_again disk os d store again : files_ok disk -> calm_after os again ->
  store_open disk cli_options os = (d, Ok store) ->
  u64 (s_last_applied (en_state (fe_engine store))) -> s_term (en_state (fe_engine store)) <= max_u64 ->
  exists store', store_open (fe_disk store) cli_options again = (fe_disk store, Ok store') /\ same_store store store'.
Proof.
  intros Hfiles [A1 A2 A3 A7 A4 A5 A6] H Ha Ht. unfold store_open in H. destruct (op_directory os); [done|].
  destruct (recover_snapshot_transaction _ _ _ _) as [disk1 [e|]] eqn:Er; [done|].
  destruct (recovered_directory _ _ _ _ _ Hfiles Er) as [Hj [_ Hmeta]]. clear Er.
  destruct (wal_open (dir_wal disk1) _ _) as [bytes [wal|]] eqn:Ew; [|done]. apply opened_loaded in Ew as [-> Ew]. cbv zeta in H.
  destruct (negb (contiguous 0 (wal_events wal))) eqn:Ec; [done|]. cbn [dir_snapshots dir_meta dir_journal] in H.
  destruct (load_latest_snapshot _ _ _) as [found|] eqn:El; [|done].
  destruct (op_meta_read os); [done|]. destruct (load_metadata (dir_meta disk1)) as [metadata|] eqn:Em; [|done].
  pose proof (loaded_metadata_ok _ _ Hmeta Em) as Hok. cbn [cli_options so_commit_on_append] in H.
  set (selected := match found with Some snapshot => if sp_index snapshot <=? max_u64 then Some snapshot else None | None => None end) in *.
  destruct (match selected with Some _ => _ | None => _ end) as [[engine snapshot]|] eqn:Es; [|done].
  set (start := match selected with Some snapshot => sp_index snapshot | None => 0 end) in *.
  destruct ((start =? 0) && _) eqn:Ef; [done|].
  destruct (join_log wal snapshot metadata _ _) as [wal' [e|]] eqn:Ej; [done|].
  destruct (join_log_again _ _ _ _ _ _ Ew Ej) as (Hl' & Hsame & Hjoin).
  destruct (replay_committed engine start max_u64 (wal_events wal') 0) as [[engine' replayed]|] eqn:Ep; [|done].
  destruct (s_last_applied (en_state engine') <? md_commit_index metadata) eqn:Eh; [done|].
  apply Z.ltb_ge in Eh. set (disk2 := mkDirectory _ _ _ _) in H.
  assert (fe_engine store = engine') as Heng by (by apply finish_engine in H). rewrite Heng in Ha, Ht.
  destruct (finish_again disk2 wal' engine' snapshot metadata replayed os d store Em Hok Ha Ht Eh H)
    as ((J1 & J2 & J3) & _ & metadata' & Em' & Eh' & Hfin). cbn [disk2 dir_journal dir_snapshots dir_wal] in J1, J2, J3.
  unfold store_open. rewrite A1. unfold recover_snapshot_transaction. rewrite A2, J1, Hj, A3.
  destruct Hl' as (file & truncated & cut & Hload). rewrite J3, A7. unfold wal_open, load_found. cbn [default from_option id].
  rewrite (load_again _ _ _ _ (op_cut again) Hload). cbv zeta. cbn [wal_events wal_file dir_snapshots dir_meta dir_journal].
  set (wal2 := mkWal (wal_file wal') (wal_events wal') (wal_ends wal') 0).
  replace (negb (contiguous 0 (wal_events wal'))) with false
    by (destruct Hsame as [-> |[-> _]]; [by rewrite Ec|done]).
  rewrite J2, A5, A6, El, A4, Em'. cbn [cli_options so_commit_on_append]. fold selected. fold start.
  assert (match selected with
          | Some snapshot => let? (engine, in_memory) := restore_from snapshot (wal_events wal') in Ok (engine, Some in_memory)
          | None => Ok (empty_engine, None)
          end = Ok (engine, snapshot)) as ->.
  { destruct Hsame as [-> |[Hnil (boundary & last & -> & Hlast & Hlt)]]; [done|]. rewrite Hnil.
    destruct selected as [chosen|]; [|done]. unfold restore_from in Es |- *.
    destruct (verify_snapshot chosen) as [restored|]; [|done]. destruct (is_legacy_format chosen) eqn:Eg; [done|].
    injection Es as <- <-. by rewrite (retained_history_short _ _ _ Hlast Hlt). }
  replace ((start =? 0) && match front_index (wal_events wal') with Some first => 1 <? first | None => false end) with false
    by (destruct Hsame as [-> |[-> _]]; [by rewrite Ef|by rewrite andb_false_r]).
  rewrite (Hjoin metadata' (op_rewrite again) (op_rewrite_cut again) wal2 eq_refl). cbn [wal2 wal_events wal_file].
  rewrite Ep, (proj2 (Z.ltb_ge _ _) Eh'). fold wal2.
  destruct (Hfin wal2 again eq_refl eq_refl) as (store' & Hf & Hss). exists store'. split; [|done]. rewrite <- Hf. f_equal.
  clear -J1 J2 J3 Hj. destruct (fe_disk store). cbn in *. congruence.
Qed.

(** C38: running the replay program twice on a directory prints the same hash,
    as its comment promises. Whatever bytes the files of the directory hold: if
    the program could open it, a second run in which the system calls do not
    fail ends well, prints the same state, hash and counts (and no cut bytes),
    and leaves the directory as it is. *)
Theorem replay_twice_agrees env args d store again os :
  files_ok (lc_disk env) -> calm_after (lc_open env) again -> args <> [] -> lc_lease env = None ->
  store_open (lc_disk env) cli_options (lc_open env) = (d, Ok store) ->
  u64 (s_last_applied (en_state (fe_engine store))) -> s_term (en_state (fe_engine store)) <= max_u64 ->
  replay_main env args = (fe_disk store, Exited 0 (replay_text (rp_truncated (fe_report store)) store) "") /\
  replay_main (mkLocal None (fe_disk store) again os) args = (fe_disk store, Exited 0 (replay_text 0 store) "").
Proof.
  intros Hf Hc Harg Hlease Eo Ha Ht. unfold replay_main. cbn [lc_lease lc_disk lc_open].
  destruct args as [|arg args]; [done|]. rewrite Hlease, Eo. split; [done|].
  destruct (open_again _ _ _ _ again Hf Hc Eo Ha Ht) as (store' & -> & S1 & S2 & _ & S4).
  rewrite S1. unfold replay_text. by rewrite S4, S2.
Qed.

(** ** Redirects *)

Lemma marker_found rest : find_text "leader is " ("leader is " +:+ rest) = Some ("leader is " +:+ rest).
Proof. by destruct rest. Qed.

(** The contact that a server gives is parsed back, whatever the host. *)
Lemma contact_parses id host port : lacks "@" id = true -> 0 <= port < 65536 ->
  leader_from_rejection ("leader is " +:+ id +:+ "@" +:+ host +:+ ":" +:+ print_u port) = Some (mkLeaderEndpoint host port).
Proof.
  intros Hid Hp. unfold leader_from_rejection.
  rewrite marker_found.
  replace ("leader is " +:+ id +:+ "@" +:+ host +:+ ":" +:+ print_u port)
    with (("leader is " +:+ id) +:+ String "@" (host +:+ String ":" (print_u port))) by (by rewrite <- str_app_assoc).
  rewrite break_at_first by (by rewrite lacks_app, Hid). unfold parse_leader.
  rewrite break_last_app by (apply lacks_print_u; [done|lia]). unfold stoi.
  replace (stoll (print_u port)) with (Some port).
  - rewrite (proj2 (Z.leb_le min_i32 port)), (proj2 (Z.leb_le port max_i32)) by (unfold min_i32, max_i32; lia).
    cbn [andb]. unfold wrap16. by rewrite Z.mod_small by lia.
  - pose proof (stoll_print port ltac:(unfold min_i64, max_i64; lia)) as Hs. unfold print_i in Hs.
    by rewrite (proj2 (Z.ltb_ge port 0)) in Hs by lia.
Qed.

(** The address of the leader, where the server knows it. *)
Definition leader_address {R E} `{!RuntimeOps R E} (sv : Server R) : option LeaderEndpoint :=
  let id := rr_leader_id (sv_replica sv) in
  let config := sv_config sv in
  if bool_decide (id = nc_id config) then Some (mkLeaderEndpoint (nc_host config) (nc_port config))
  else (fun peer => mkLeaderEndpoint (ep_host peer) (ep_port peer)) <$>
         List.find (fun peer => bool_decide (ep_id peer = id)) (nc_peers config).

(** A command that reaches another node than the leader is sent once more, to
    the configured address of the leader that the node names, and the program
    ends as that attempt does. *)
Lemma redirect_reaches_leader {R E} `{!RuntimeOps R E} (sv : Server R) net options first target body :
  valid_id (rr_leader_id (sv_replica sv)) = true -> leader_address sv = Some target -> 0 <= lp_port target < 65536 ->
  op_command options <> "status" -> op_command options <> "show" ->
  remote_submit net options first 0 = Ok body -> cr_ok body = false -> cr_error_message body = "leader is " +:+ leader_contact sv ->
  run_remote net options 1 first = run_remote net options 0 target.
Proof.
  intros Hid Ht Hp Hs Hsh Hb Hok Hm. cbn [run_remote]. change (1 - 1)%nat with 0%nat.
  rewrite (bool_decide_eq_false_2 _ Hs), (bool_decide_eq_false_2 _ Hsh), Hb, Hok, Hm. cbn [orb].
  assert (leader_from_rejection ("leader is " +:+ leader_contact sv) = Some target) as ->; [|done].
  unfold leader_contact, leader_address in *. cbv zeta in *. set (id := rr_leader_id (sv_replica sv)) in *.
  rewrite (bool_decide_eq_false_2 (id = "")) by (by apply valid_id_not_empty).
  assert (lacks "@" id = true) as Hat by (by apply valid_id_lacks).
  destruct (bool_decide (id = nc_id (sv_config sv))); [injection Ht as <-; by apply contact_parses|].
  destruct (List.find _ _) as [peer|] eqn:Ef; [|done]. injection Ht as <-.
  apply List.find_some in Ef as [_ Ef]. apply bool_decide_eq_true in Ef. rewrite Ef. by apply contact_parses.
Qed.

(** ** A torn log *)

Definition demo_created : Event :=
  mkEvent "evt-1" "cmd-1" "opening" ChoreographyCreated 1 0 1 1 (PCreate "opening" (mkStageBounds 10000 8000) Forbidden 5000).

(** A log whose last record was not written to the end. *)
Definition demo_directory : Directory :=
  mkDirectory None ∅ None
    (match encode_wal [demo_created] with Ok bytes => Some (bytes ++ take 20 (drop 16 bytes))%list | Err _ => None end).

Definition demo_open : OpenOs :=
  mkOpenOs None None None (mkInstallOutcome None None Replaced Replaced Replaced true None) Accessed None (fun _ => false) None None
    Replaced None Replaced.

Lemma demo_directory_ok : files_ok demo_directory.
Proof. by split. Qed.

(** The first run cuts the torn record, the second prints the same state. *)
Lemma replay_twice_agrees_witness : exists store, s_last_applied (en_state (fe_engine store)) = 1 /\
  replay_main (mkLocal None demo_directory demo_open calm) ["store"] = (fe_disk store, Exited 0 (replay_text 20 store) "") /\
  replay_main (mkLocal None (fe_disk store) demo_open calm) ["store"] = (fe_disk store, Exited 0 (replay_text 0 store) "").
Proof.
  destruct (store_open demo_directory cli_options demo_open) as [d [store|e]] eqn:Eo; [|by vm_compute in Eo].
  assert (rp_truncated (fe_report store) = 20 /\ s_last_applied (en_state (fe_engine store)) = 1 /\ s_term (en_state (fe_engine store)) = 1)
    as (Ht & Ha & Hs).
  { vm_compute in Eo. injection Eo as <- <-. split_and!; reflexivity. }
  exists store. split; [done|]. rewrite <- Ht.
  apply (replay_twice_agrees (mkLocal None demo_directory demo_open calm) ["store"] d store demo_open calm demo_directory_ok);
    [by split|discriminate|reflexivity|exact Eo| |]; rewrite ?Ha, ?Hs; unfold u64; vm_compute; intuition discriminate.
Defined.
