(* ===== verification/Trace.v ===== *)
(** * Trace lines

    [raft/trace.cpp]: the two line formats in which a run of the transition
    core is recorded. An [std::ostringstream] is the text written to it; a line
    that the source refuses with an exception is [None]. *)

From S2P Require Import Prelude Text EntryLog Transition.

Definition quote_mark : ascii := "034"%char.

Definition hex_digit (n : Z) : ascii := if n <? 10 then char (48 + n) else char (87 + n).

(** One character of [quoted]. *)
Definition escaped (byte : ascii) : string :=
  let c := code byte in
  if c =? 34 then String "\" (String byte "")
  else if c =? 92 then "\\"
  else if c =? 8 then "\b"
  else if c =? 12 then "\f"
  else if c =? 10 then "\n"
  else if c =? 13 then "\r"
  else if c =? 9 then "\t"
  else if c <? 32 then "\u00" +:+ String (hex_digit (Z.shiftr c 4)) (String (hex_digit (Z.land c 15)) "")
  else String byte "".

Fixpoint escaped_text (text : string) : string :=
  match text with
  | EmptyString => ""
  | String byte r => escaped byte +:+ escaped_text r
  end.

Definition quoted (text : string) : string :=
  String quote_mark (escaped_text text +:+ String quote_mark "").

Definition trace_role (role : Role) : string :=
  match role with Follower => "Follower" | Candidate => "Candidate" | Leader => "Leader" end.

Definition bool_word (b : bool) : string := if b then "true" else "false".

Definition optional_text (text : option string) : string :=
  match text with Some t => quoted t | None => "null" end.

Definition write_entry (entry : Entry) : string :=
  lit "{'term':" +:+ print_u (e_term entry) +:+ lit ",'val':" +:+ quoted (e_command entry) +:+ "}".

(** The loop writes a comma before every entry but the first. *)
Definition write_log (log : list Entry) : string := "[" +:+ join "," (write_entry <$> log) +:+ "]".

Definition write_durable (state : Durable) : string :=
  lit "{'term':" +:+ print_u (d_term state) +:+ lit ",'votedFor':" +:+ optional_text (d_voted_for state) +:+
  lit ",'log':" +:+ write_log (d_log state) +:+ lit ",'commit':" +:+ print_u (d_commit state) +:+
  lit ",'applied':" +:+ print_u (d_applied state) +:+ lit ",'snapshot_index':" +:+ print_u (d_snapshot_index state) +:+
  lit ",'snapshot_term':" +:+ print_u (d_snapshot_term state) +:+ "}".

(** ** Messages and inputs

    [write_message], one definition per instance of the template. *)

Definition write_request_vote (m : RequestVote) : string :=
  lit "'term':" +:+ print_u (rv_term m) +:+ lit ",'candidate':" +:+ quoted (rv_candidate m) +:+
  lit ",'last_index':" +:+ print_u (rv_last_index m) +:+ lit ",'last_term':" +:+ print_u (rv_last_term m) +:+
  lit ",'request_id':" +:+ print_u (rv_request_id m).

Definition write_vote_reply (m : VoteReply) : string :=
  lit "'term':" +:+ print_u (vr_term m) +:+ lit ",'voter':" +:+ quoted (vr_voter m) +:+
  lit ",'granted':" +:+ bool_word (vr_granted m) +:+ lit ",'request_id':" +:+ print_u (vr_request_id m).

Definition write_append (m : AppendEntries) : string :=
  lit "'term':" +:+ print_u (ae_term m) +:+ lit ",'leader':" +:+ quoted (ae_leader m) +:+
  lit ",'prev_index':" +:+ print_u (ae_prev_index m) +:+ lit ",'prev_term':" +:+ print_u (ae_prev_term m) +:+
  lit ",'entries':" +:+ write_log (ae_entries m) +:+ lit ",'leader_commit':" +:+ print_u (ae_leader_commit m) +:+
  lit ",'request_id':" +:+ print_u (ae_request_id m).

Definition write_append_reply (m : AppendReply) : string :=
  lit "'term':" +:+ print_u (ar_term m) +:+ lit ",'follower':" +:+ quoted (ar_follower m) +:+
  lit ",'success':" +:+ bool_word (ar_success m) +:+ lit ",'hint':" +:+ print_u (ar_hint m) +:+
  lit ",'matched':" +:+ print_u (ar_matched m) +:+ lit ",'request_id':" +:+ print_u (ar_request_id m).

Definition write_snapshot_request (m : SnapshotRequest) : string :=
  lit "'term':" +:+ print_u (sr_term m) +:+ lit ",'leader':" +:+ quoted (sr_leader m) +:+
  lit ",'index':" +:+ print_u (sr_index m) +:+ lit ",'snapshot_term':" +:+ print_u (sr_snapshot_term m) +:+
  lit ",'request_id':" +:+ print_u (sr_request_id m) +:+ lit ",'ready':" +:+ bool_word (sr_ready m).

Definition write_snapshot_reply (m : SnapshotReply) : string :=
  lit "'term':" +:+ print_u (sp_term m) +:+ lit ",'follower':" +:+ quoted (sp_follower m) +:+
  lit ",'success':" +:+ bool_word (sp_success m) +:+ lit ",'index':" +:+ print_u (sp_index m) +:+
  lit ",'request_id':" +:+ print_u (sp_request_id m).

Definition write_input (input : Input) : string :=
  "{" +:+
  match input with
  | ClientPropose command => lit "'command':" +:+ quoted command
  | PersistCompleted token | PersistFailed token => lit "'token':" +:+ print_u token
  | RecvRequestVote m => write_request_vote m
  | RecvVoteReply m => write_vote_reply m
  | RecvAppend m => write_append m
  | RecvAppendReply m => write_append_reply m
  | RecvSnapshot m => write_snapshot_request m
  | RecvSnapshotReply m => write_snapshot_reply m
  | _ => ""
  end +:+ "}".

Definition trace_action (input : Input) : string :=
  match input with
  | ElectionTimeout => "Timeout"
  | HeartbeatTimeout => "SendAppend"
  | ClientPropose _ => "ClientPropose"
  | BeginRead _ => "BeginRead"
  | CancelRead _ => "CancelRead"
  | RecvRequestVote _ => "HandleRVReq"
  | RecvVoteReply _ => "HandleRVResp"
  | RecvAppend _ => "HandleAEReq"
  | RecvAppendReply _ => "HandleAEResp"
  | AdvanceCommit => "AdvanceCommit"
  | ApplyCommitted => "Apply"
  | CompactCommitted => "CompactCommitted"
  | RecvSnapshot _ => "InstallSnapshot"
  | RecvSnapshotReply _ => "SnapshotReply"
  | PersistCompleted _ => "PersistCompleted"
  | PersistFailed _ => "PersistFailed"
  | Restart => "Restart"
  end.

(** ** Lines *)

(** What is staged, or else what is durable. *)
Definition staged_state (state : Node) : Durable :=
  match n_pending state with Some write => pw_target write | None => n_durable state end.

Definition reads (state : Node) (input : Input) : bool :=
  match input with BeginRead _ | CancelRead _ => true | _ => is_some (v_read (n_volatile state)) end.

(** The first format has no snapshots either. *)
Definition v1_refused (state : Node) (input : Input) : bool :=
  let mem := staged_state state in
  let disk := n_durable state in
  reads state input ||
  match input with CompactCommitted | RecvSnapshot _ | RecvSnapshotReply _ => true | _ => false end ||
  negb (d_snapshot_index mem =? 0) || negb (d_snapshot_term mem =? 0) ||
  negb (d_snapshot_index disk =? 0) || negb (d_snapshot_term disk =? 0).

Definition trace_line (config : Config) (state : Node) (input : Input) (sequence : Z) : option string :=
  let mem := staged_state state in
  let disk := n_durable state in
  if v1_refused state input then None
  else Some
    (lit "{'v':1,'seq':" +:+ print_u sequence +:+ lit ",'node':" +:+ quoted (c_self config) +:+
     lit ",'act':" +:+ quoted (trace_action input) +:+ lit ",'post':{'term':" +:+ print_u (d_term mem) +:+
     lit ",'role':" +:+ quoted (trace_role (v_role (n_volatile state))) +:+
     lit ",'votedFor':" +:+ optional_text (d_voted_for mem) +:+ lit ",'commit':" +:+ print_u (d_commit mem) +:+
     lit ",'log':[" +:+ join "," (write_entry <$> d_log mem) +:+ lit "],'durable':{'term':" +:+ print_u (d_term disk) +:+
     lit ",'log_len':" +:+ print_u (log_size (d_log disk)) +:+ lit ",'commit':" +:+ print_u (d_commit disk) +:+
     lit ",'applied':" +:+ print_u (d_applied disk) +:+ lit "},'alive':" +:+ bool_word (negb (n_halted state)) +:+ "}}").

(** [std::string::pop_back] *)
Fixpoint without_last (s : string) : string :=
  match s with
  | EmptyString | String _ EmptyString => ""
  | String c r => String c (without_last r)
  end.

Definition trace_line_v2 (config : Config) (state : Node) (input : Input) (sequence : Z) : option string :=
  if reads state input then None
  else
    let staged := without_last (write_durable (staged_state state)) in
    Some
      (lit "{'v':2,'seq':" +:+ print_u sequence +:+ lit ",'node':" +:+ quoted (c_self config) +:+
       lit ",'act':" +:+ quoted (trace_action input) +:+ lit ",'in':" +:+ write_input input +:+
       lit ",'post':" +:+ staged +:+ lit ",'role':" +:+ quoted (trace_role (v_role (n_volatile state))) +:+
       lit ",'durable':" +:+ write_durable (n_durable state) +:+
       lit ",'alive':" +:+ bool_word (negb (n_halted state)) +:+ "}}").
