(* ===== verification/TraceThms.v ===== *)
(** * Trace lines are JSON

    A reader of JSON values without spaces, which reads back what is written,
    and the values that the two line formats stand for. *)

From S2P Require Import Prelude Text EntryLog Transition TransitionInv TransitionSteps Trace.

#[local] Set Warnings "-register-all".

(** ** JSON values *)

Inductive Json :=
| JNull
| JBool (b : bool)
| JNumber (n : Z)
| JText (s : string)
| JArray (items : list Json)
| JObject (members : list (string * Json)).

(** Induction with the hypothesis for every item and member. *)
Lemma json_induction (P : Json -> Prop) :
  P JNull -> (forall b, P (JBool b)) -> (forall n, P (JNumber n)) -> (forall s, P (JText s)) ->
  (forall items, Forall P items -> P (JArray items)) ->
  (forall members, Forall (fun m => P m.2) members -> P (JObject members)) -> forall j, P j.
Proof.
  intros H1 H2 H3 H4 H5 H6. fix IH 1. intros [|b|n|s|items|members]; [exact H1|apply H2|apply H3|apply H4|apply H5|apply H6].
  - induction items as [|j items Hi]; constructor; [apply IH|exact Hi].
  - induction members as [|[k j] members Hi]; constructor; [apply IH|exact Hi].
Qed.

Fixpoint render (j : Json) : string :=
  match j with
  | JNull => "null"
  | JBool b => bool_word b
  | JNumber n => print_u n
  | JText s => quoted s
  | JArray items => "[" +:+ join "," (List.map render items) +:+ "]"
  | JObject members => "{" +:+ join "," (List.map (fun m => quoted m.1 +:+ ":" +:+ render m.2) members) +:+ "}"
  end.

(** Numbers are not negative. *)
Inductive json_ok : Json -> Prop :=
| ok_null : json_ok JNull
| ok_bool b : json_ok (JBool b)
| ok_number n : 0 <= n -> json_ok (JNumber n)
| ok_text s : json_ok (JText s)
| ok_array items : Forall json_ok items -> json_ok (JArray items)
| ok_object members : Forall (fun m => json_ok m.2) members -> json_ok (JObject members).

(** ** Reading *)

Definition hex_value (c : ascii) : option Z :=
  if is_digit c then Some (code c - 48)
  else if (97 <=? code c) && (code c <=? 102) then Some (code c - 87) else None.

(** The character of a short escape. *)
Definition unescape (e : ascii) : option ascii :=
  let c := code e in
  if (c =? 34) || (c =? 92) then Some e
  else if c =? 98 then Some (char 8)
  else if c =? 102 then Some (char 12)
  else if c =? 110 then Some (char 10)
  else if c =? 114 then Some (char 13)
  else if c =? 116 then Some (char 9)
  else None.

Definition put (c : ascii) (r : option (string * string)) : option (string * string) :=
  match r with Some (s, rest) => Some (String c s, rest) | None => None end.

(** The rest of a string after its opening quote. *)
Fixpoint read_chars (s : string) : option (string * string) :=
  match s with
  | EmptyString => None
  | String c r =>
      if code c =? 34 then Some ("", r)
      else if code c <? 32 then None
      else if negb (code c =? 92) then put c (read_chars r)
      else
        match r with
        | EmptyString => None
        | String e r' =>
            if code e =? 117 then
              match r' with
              | String "0" (String "0" (String h (String l rest))) =>
                  match hex_value h, hex_value l with
                  | Some a, Some b => put (char (16 * a + b)) (read_chars rest)
                  | _, _ => None
                  end
              | _ => None
              end
            else match unescape e with Some x => put x (read_chars r') | None => None end
        end
  end.

Definition read_text (s : string) : option (string * string) :=
  match s with
  | String c r => if code c =? 34 then read_chars r else None
  | EmptyString => None
  end.

(** [s] without the word in front of it. *)
Fixpoint after_word (w s : string) : option string :=
  match w, s with
  | EmptyString, _ => Some s
  | String a w', String b s' => if bool_decide (a = b) then after_word w' s' else None
  | _, _ => None
  end.

(** One value; [read_items] and [read_members] continue to the closing bracket. *)
Fixpoint read_value (fuel : nat) (s : string) {struct fuel} : option (Json * string) :=
  match fuel, s with
  | S fuel, String c r =>
      if code c =? 34 then
        match read_chars r with Some (t, rest) => Some (JText t, rest) | None => None end
      else if code c =? 91 then
        match after_word "]" r with
        | Some rest => Some (JArray [], rest)
        | None => match read_items fuel r with Some (l, rest) => Some (JArray l, rest) | None => None end
        end
      else if code c =? 123 then
        match after_word "}" r with
        | Some rest => Some (JObject [], rest)
        | None => match read_members fuel r with Some (l, rest) => Some (JObject l, rest) | None => None end
        end
      else if is_digit c then let '(n, rest) := scan_digits s 0 in Some (JNumber n, rest)
      else
        match after_word "null" s, after_word "true" s, after_word "false" s with
        | Some rest, _, _ => Some (JNull, rest)
        | _, Some rest, _ => Some (JBool true, rest)
        | _, _, Some rest => Some (JBool false, rest)
        | _, _, _ => None
        end
  | _, _ => None
  end
with read_items (fuel : nat) (s : string) {struct fuel} : option (list Json * string) :=
  match fuel with
  | O => None
  | S fuel =>
      match read_value fuel s with
      | Some (j, String c r) =>
          if code c =? 93 then Some ([j], r)
          else if code c =? 44 then
            match read_items fuel r with Some (l, rest) => Some (j :: l, rest) | None => None end
          else None
      | _ => None
      end
  end
with read_members (fuel : nat) (s : string) {struct fuel} : option (list (string * Json) * string) :=
  match fuel with
  | O => None
  | S fuel =>
      match read_text s with
      | Some (k, String colon r) =>
          if code colon =? 58 then
            match read_value fuel r with
            | Some (j, String c r) =>
                if code c =? 125 then Some ([(k, j)], r)
                else if code c =? 44 then
                  match read_members fuel r with Some (l, rest) => Some ((k, j) :: l, rest) | None => None end
                else None
            | _ => None
            end
          else None
      | _ => None
      end
  end.

(** A whole text. A value and its place in a list take one step each, and a
    value has at least one character, so that twice the length is enough fuel. *)
Definition parse_json (s : string) : option Json :=
  match read_value (2 * String.length s) s with Some (j, EmptyString) => Some j | _ => None end.

(** ** Strings are read back *)

Lemma read_escaped c s : read_chars (escaped c +:+ s) = put c (read_chars s).
Proof. destruct c as [[] [] [] [] [] [] [] []]; reflexivity. Qed.

Lemma read_escaped_text t rest : read_chars (escaped_text t +:+ String quote_mark rest) = Some (t, rest).
Proof.
  induction t as [|c t IH]; [done|]. cbn [escaped_text]. rewrite <- str_app_assoc, read_escaped, IH. done.
Qed.

Lemma read_quoted t rest : read_text (quoted t +:+ rest) = Some (t, rest).
Proof.
  unfold quoted. cbn [String.append read_text]. change (code quote_mark =? 34) with true. cbv iota.
  rewrite <- str_app_assoc. apply read_escaped_text.
Qed.

(** ** Values are read back *)

Fixpoint json_size (j : Json) : nat :=
  match j with
  | JArray items => S (list_sum (List.map (fun j => S (json_size j)) items))
  | JObject members => S (list_sum (List.map (fun m => S (json_size m.2)) members))
  | _ => 1
  end.

(** What may follow a value. *)
Definition closes (rest : string) : Prop := starts_with_digit rest = false.

Definition reads_back (j : Json) : Prop := forall fuel rest,
  (json_size j <= fuel)%nat -> closes rest -> read_value fuel (render j +:+ rest) = Some (j, rest).

Lemma reads_number n : 0 <= n -> reads_back (JNumber n).
Proof.
  intros Hn fuel rest Hf Hr. destruct fuel as [|fuel]; [cbn in Hf; lia|]. cbn [render].
  pose proof (scan_print_u n rest Hn Hr) as Hs. destruct (print_u_digits n Hn) as [Hd Hne].
  destruct (print_u n) as [|c t]; [done|]. cbn in Hd. apply andb_true_iff in Hd as [Hc _].
  change (String c t +:+ rest) with (String c (t +:+ rest)) in *. cbn [read_value].
  assert (48 <= code c <= 57) as Hcode by (unfold is_digit in Hc; bool_props; lia).
  do 3 (rewrite (proj2 (Z.eqb_neq _ _)) by lia). rewrite Hc, Hs. done.
Qed.

Lemma read_items_back items : forall fuel rest, items <> [] -> Forall reads_back items ->
  (list_sum (List.map (fun j => S (json_size j)) items) <= fuel)%nat ->
  read_items fuel (join "," (List.map render items) +:+ String "]" rest) = Some (items, rest).
Proof.
  induction items as [|j items IH]; [done|]. intros fuel rest _ Hall Hf. apply list.Forall_cons in Hall as [Hj Hall].
  change (list_sum _) with (S (json_size j) + list_sum (List.map (fun j => S (json_size j)) items))%nat in Hf.
  destruct fuel as [|fuel]; [lia|]. cbn [read_items]. destruct items as [|k items].
  - cbn [List.map join]. rewrite Hj by (done || lia). done.
  - change (join "," (List.map render (j :: k :: items))) with (render j +:+ String "," (join "," (List.map render (k :: items)))).
    rewrite <- str_app_assoc, str_app_cons, Hj by (done || lia). change (code "," =? 93) with false. change (code "," =? 44) with true.
    cbv iota. rewrite IH by (done || lia). done.
Qed.

Lemma read_members_back members : forall fuel rest, members <> [] -> Forall (fun m => reads_back m.2) members ->
  (list_sum (List.map (fun m => S (json_size m.2)) members) <= fuel)%nat ->
  read_members fuel (join "," (List.map (fun m => quoted m.1 +:+ ":" +:+ render m.2) members) +:+ String "}" rest) =
    Some (members, rest).
Proof.
  induction members as [|[k j] members IH]; [done|]. intros fuel rest _ Hall Hf. apply list.Forall_cons in Hall as [Hj Hall].
  change (list_sum _) with (S (json_size j) + list_sum (List.map (fun m => S (json_size m.2)) members))%nat in Hf.
  cbn [snd] in Hj. destruct fuel as [|fuel]; [lia|]. cbn [read_members].
  set (text := fun m : string * Json => quoted m.1 +:+ ":" +:+ render m.2) in *. destruct members as [|m members].
  - cbn [List.map join]. unfold text at 1. cbn [fst snd]. rewrite <- !str_app_assoc, read_quoted.
    change (":" +:+ ?s) with (String ":" s). change (code ":" =? 58) with true. cbv iota. rewrite Hj by (done || lia). done.
  - change (join "," (List.map text ((k, j) :: m :: members))) with
      (text (k, j) +:+ String "," (join "," (List.map text (m :: members)))).
    unfold text at 1. cbn [fst snd]. rewrite <- !str_app_assoc, read_quoted.
    change (":" +:+ ?s) with (String ":" s). change (code ":" =? 58) with true. cbv iota. rewrite Hj by (done || lia).
    rewrite str_app_cons. change (code "," =? 125) with false. change (code "," =? 44) with true. cbv iota. rewrite IH by (done || lia). done.
Qed.

(** A text that starts a list of values does not close it. *)
Lemma rendered_open j : json_ok j -> exists c t, render j = String c t /\ code c <> 93.
Proof.
  intros [| []|n Hn|s|items _|members _]; try (by eexists _, _).
  destruct (print_u_digits n Hn) as [Hd Hne]. cbn [render]. destruct (print_u n) as [|c t]; [done|].
  exists c, t. split; [done|]. cbn in Hd. apply andb_true_iff in Hd as [Hc _]. unfold is_digit in Hc. bool_props. lia.
Qed.

Lemma json_reads_back j : json_ok j -> reads_back j.
Proof.
  induction j as [|b|n|s|items IH|members IH] using json_induction; intros Hok fuel rest Hf Hr;
    (destruct fuel as [|fuel]; [cbn in Hf; lia|]).
  - done.
  - by destruct b.
  - apply reads_number; [by inversion Hok|done|done].
  - cbn [render]. unfold quoted. rewrite str_app_cons. cbn [read_value]. change (code quote_mark =? 34) with true. cbv iota.
    rewrite <- str_app_assoc. change (String quote_mark "" +:+ rest) with (String quote_mark rest). by rewrite read_escaped_text.
  - assert (Forall json_ok items) as Hi by (by inversion Hok). assert (Forall reads_back items) as Hb.
    { rewrite list.Forall_forall in *. intros x Hx. by apply IH; [|apply Hi]. }
    destruct items as [|j items]; [done|]. cbn [render]. set (body := join "," _).
    change (("[" +:+ body +:+ "]") +:+ rest) with (String "[" ((body +:+ "]") +:+ rest)). rewrite <- str_app_assoc.
    change ("]" +:+ rest) with (String "]" rest). cbn [read_value]. change (code "[" =? 34) with false. change (code "[" =? 91) with true.
    cbv iota. assert (after_word "]" (body +:+ String "]" rest) = None) as ->.
    { destruct (rendered_open j) as (c & t & E & Hc); [by apply list.Forall_cons in Hi as [? _]|]. unfold body. cbn [List.map].
      assert (forall l, exists u, join "," (String c t :: l) = String c u) as Hu by (intros [|x l]; eexists; reflexivity).
      rewrite E. destruct (Hu (List.map render items)) as [u ->]. cbn [String.append after_word].
      rewrite bool_decide_eq_false_2; [done|]. intros <-. by apply Hc. }
    unfold body. rewrite read_items_back; [done|done|done|]. cbn [json_size] in Hf. lia.
  - assert (Forall (fun m => json_ok m.2) members) as Hi by (by inversion Hok).
    assert (Forall (fun m => reads_back m.2) members) as Hb.
    { rewrite list.Forall_forall in *. intros x Hx. by apply IH; [|apply Hi]. }
    destruct members as [|[k j] members]; [done|]. cbn [render]. set (body := join "," _).
    change (("{" +:+ body +:+ "}") +:+ rest) with (String "{" ((body +:+ "}") +:+ rest)). rewrite <- str_app_assoc.
    change ("}" +:+ rest) with (String "}" rest). cbn [read_value]. change (code "{" =? 34) with false.
    change (code "{" =? 91) with false. change (code "{" =? 123) with true. cbv iota.
    assert (after_word "}" (body +:+ String "}" rest) = None) as -> by (unfold body; by destruct members).
    unfold body. rewrite read_members_back; [done|done|done|]. cbn [json_size] in Hf. lia.
Qed.


(** ** Enough fuel, and one line *)

Lemma length_app_text (a b : string) : String.length (a +:+ b) = (String.length a + String.length b)%nat.
Proof. induction a as [|c a IH]; [done|]. cbn. by rewrite IH. Qed.

Lemma join_length (l : list string) :
  (list_sum (List.map String.length l) <= String.length (join "," l))%nat.
Proof.
  induction l as [|x l IH]; [done|]. change (list_sum _) with (String.length x + list_sum (List.map String.length l))%nat.
  destruct l as [|y l]; [cbn; lia|]. change (join "," (x :: y :: l)) with (x +:+ String "," (join "," (y :: l))).
  rewrite length_app_text. cbn [String.length]. lia.
Qed.

Lemma sum_twice {A} (f g : A -> nat) l : Forall (fun x => f x <= 2 * g x)%nat l ->
  (list_sum (List.map f l) <= 2 * list_sum (List.map g l))%nat.
Proof.
  induction 1 as [|x l Hx _ IH]; [done|]. change (f x + list_sum (List.map f l) <= 2 * (g x + list_sum (List.map g l)))%nat. lia.
Qed.

(** Twice the length covers both a value and its place in a list. *)
Lemma json_size_length j : json_ok j -> (S (json_size j) <= 2 * String.length (render j))%nat.
Proof.
  induction j as [|b|n|s|items IH|members IH] using json_induction; intros Hok.
  - cbn. lia.
  - destruct b; cbn; lia.
  - assert (0 <= n) as Hn by (by inversion Hok). destruct (print_u_digits n Hn) as [_ Hne]. cbn [render json_size].
    destruct (print_u n); [done|]. cbn. lia.
  - cbn [render json_size]. unfold quoted. cbn [String.length]. lia.
  - assert (Forall json_ok items) as Hi by (by inversion Hok). cbn [render json_size]. rewrite !length_app_text. cbn [String.length].
    pose proof (join_length (List.map render items)) as Hj. rewrite List.map_map in Hj.
    pose proof (sum_twice (fun j => S (json_size j)) (fun j => String.length (render j)) items) as Hs.
    match type of Hs with ?P -> _ => assert P as Hall; [|specialize (Hs Hall); lia] end. rewrite list.Forall_forall in *. intros x Hx. by apply IH, Hi.
  - assert (Forall (fun m => json_ok m.2) members) as Hi by (by inversion Hok). cbn [render json_size].
    rewrite !length_app_text. cbn [String.length].
    pose proof (join_length (List.map (fun m => quoted m.1 +:+ ":" +:+ render m.2) members)) as Hj. rewrite List.map_map in Hj.
    pose proof (sum_twice (fun m => S (json_size m.2)) (fun m => String.length (quoted m.1 +:+ ":" +:+ render m.2)) members) as Hs.
    match type of Hs with ?P -> _ => assert P as Hall; [|specialize (Hs Hall); lia] end. rewrite list.Forall_forall in *. intros x Hx. rewrite !length_app_text.
    specialize (IH x Hx (Hi x Hx)). lia.
Qed.

Lemma parse_rendered j : json_ok j -> parse_json (render j) = Some j.
Proof.
  intros Hok. unfold parse_json. pose proof (json_size_length j Hok) as Hs. pose proof (json_reads_back j Hok) as Hr.
  specialize (Hr (2 * String.length (render j))%nat "" ltac:(lia) eq_refl). rewrite str_app_nil_r in Hr. by rewrite Hr.
Qed.

Definition one_line (s : string) : bool := str_all (fun c => negb (code c <? 32)) s.

Lemma one_line_app a b : one_line (a +:+ b) = one_line a && one_line b.
Proof. apply str_all_app. Qed.

Lemma one_line_quoted t : one_line (quoted t) = true.
Proof.
  unfold quoted. change (one_line (String quote_mark ?s)) with (one_line s). rewrite one_line_app, andb_true_r.
  induction t as [|c t IH]; [done|]. cbn [escaped_text]. rewrite one_line_app, IH, andb_true_r. clear.
  by destruct c as [[] [] [] [] [] [] [] []].
Qed.

Lemma one_line_join l : Forall (fun s => one_line s = true) l -> one_line (join "," l) = true.
Proof.
  induction 1 as [|x l Hx Hl IH]; [done|]. destruct l as [|y l]; [done|].
  change (join "," (x :: y :: l)) with (x +:+ String "," (join "," (y :: l))). rewrite one_line_app, Hx. exact IH.
Qed.

(** A rendered value has no control characters, line breaks among them. *)
Lemma one_line_rendered j : json_ok j -> one_line (render j) = true.
Proof.
  induction j as [|b|n|s|items IH|members IH] using json_induction; intros Hok; cbn [render].
  - done.
  - by destruct b.
  - assert (0 <= n) as Hn by (by inversion Hok). destruct (print_u_digits n Hn) as [Hd _]. revert Hd. apply str_all_impl.
    intros c Hc. unfold is_digit in Hc. bool_props. apply negb_true_iff, Z.ltb_ge. lia.
  - apply one_line_quoted.
  - assert (Forall json_ok items) as Hi by (by inversion Hok). rewrite !one_line_app, andb_true_r. apply one_line_join.
    apply List.Forall_map. rewrite list.Forall_forall in *. intros x Hx. by apply IH, Hi.
  - assert (Forall (fun m => json_ok m.2) members) as Hi by (by inversion Hok). rewrite !one_line_app, andb_true_r.
    apply one_line_join. apply List.Forall_map. rewrite list.Forall_forall in *. intros x Hx.
    rewrite !one_line_app, one_line_quoted. by apply IH, Hi.
Qed.

(** ** What the lines say *)

Definition optional_json (text : option string) : Json :=
  match text with Some t => JText t | None => JNull end.

Definition entry_json (e : Entry) : Json := JObject [("term"%string, JNumber (e_term e)); ("val"%string, JText (e_command e))].

Definition log_json (log : list Entry) : Json := JArray (List.map entry_json log).

Definition durable_members (d : Durable) : list (string * Json) :=
  [("term", JNumber (d_term d)); ("votedFor", optional_json (d_voted_for d)); ("log", log_json (d_log d));
   ("commit", JNumber (d_commit d)); ("applied", JNumber (d_applied d));
   ("snapshot_index", JNumber (d_snapshot_index d)); ("snapshot_term", JNumber (d_snapshot_term d))]%string.

Definition input_members (input : Input) : list (string * Json) :=
  match input with
  | ClientPropose command => [("command", JText command)]
  | PersistCompleted token | PersistFailed token => [("token", JNumber token)]
  | RecvRequestVote m =>
      [("term", JNumber (rv_term m)); ("candidate", JText (rv_candidate m)); ("last_index", JNumber (rv_last_index m));
       ("last_term", JNumber (rv_last_term m)); ("request_id", JNumber (rv_request_id m))]
  | RecvVoteReply m =>
      [("term", JNumber (vr_term m)); ("voter", JText (vr_voter m)); ("granted", JBool (vr_granted m));
       ("request_id", JNumber (vr_request_id m))]
  | RecvAppend m =>
      [("term", JNumber (ae_term m)); ("leader", JText (ae_leader m)); ("prev_index", JNumber (ae_prev_index m));
       ("prev_term", JNumber (ae_prev_term m)); ("entries", log_json (ae_entries m));
       ("leader_commit", JNumber (ae_leader_commit m)); ("request_id", JNumber (ae_request_id m))]
  | RecvAppendReply m =>
      [("term", JNumber (ar_term m)); ("follower", JText (ar_follower m)); ("success", JBool (ar_success m));
       ("hint", JNumber (ar_hint m)); ("matched", JNumber (ar_matched m)); ("request_id", JNumber (ar_request_id m))]
  | RecvSnapshot m =>
      [("term", JNumber (sr_term m)); ("leader", JText (sr_leader m)); ("index", JNumber (sr_index m));
       ("snapshot_term", JNumber (sr_snapshot_term m)); ("request_id", JNumber (sr_request_id m));
       ("ready", JBool (sr_ready m))]
  | RecvSnapshotReply m =>
      [("term", JNumber (sp_term m)); ("follower", JText (sp_follower m)); ("success", JBool (sp_success m));
       ("index", JNumber (sp_index m)); ("request_id", JNumber (sp_request_id m))]
  | _ => []
  end%string.

Definition v1_json (config : Config) (state : Node) (input : Input) (sequence : Z) : Json :=
  let mem := staged_state state in
  let disk := n_durable state in
  JObject
    [("v", JNumber 1); ("seq", JNumber sequence); ("node", JText (c_self config)); ("act", JText (trace_action input));
     ("post", JObject
       [("term", JNumber (d_term mem)); ("role", JText (trace_role (v_role (n_volatile state))));
        ("votedFor", optional_json (d_voted_for mem)); ("commit", JNumber (d_commit mem)); ("log", log_json (d_log mem));
        ("durable", JObject
          [("term", JNumber (d_term disk)); ("log_len", JNumber (log_size (d_log disk)));
           ("commit", JNumber (d_commit disk)); ("applied", JNumber (d_applied disk))]);
        ("alive", JBool (negb (n_halted state)))])]%string.

Definition v2_json (config : Config) (state : Node) (input : Input) (sequence : Z) : Json :=
  JObject
    [("v", JNumber 2); ("seq", JNumber sequence); ("node", JText (c_self config)); ("act", JText (trace_action input));
     ("in", JObject (input_members input));
     ("post", JObject (durable_members (staged_state state) ++
       [("role", JText (trace_role (v_role (n_volatile state)))); ("durable", JObject (durable_members (n_durable state)));
        ("alive", JBool (negb (n_halted state)))]))]%string.

(** ** The writers render them *)

(** Both sides as one sequence of literals and values. *)
#[local] Ltac same_text := cbn [render List.map join fst snd app]; rewrite <- ?str_app_assoc; reflexivity.

Lemma write_entry_json e : write_entry e = render (entry_json e).
Proof. unfold write_entry, entry_json. same_text. Qed.

Lemma entries_json log : join "," (write_entry <$> log) = join "," (List.map render (List.map entry_json log)).
Proof. rewrite List.map_map. f_equal. apply list_fmap_ext. intros i e _. apply write_entry_json. Qed.

Lemma write_log_json log : write_log log = render (log_json log).
Proof. unfold write_log, log_json. cbn [render]. by rewrite entries_json. Qed.

Lemma optional_text_json t : optional_text t = render (optional_json t).
Proof. by destruct t. Qed.

Lemma write_durable_json d : write_durable d = render (JObject (durable_members d)).
Proof.
  unfold write_durable, durable_members. rewrite write_log_json, optional_text_json.
  generalize (log_json (d_log d)), (optional_json (d_voted_for d)). intros l v. same_text.
Qed.

Lemma write_input_json input : write_input input = render (JObject (input_members input)).
Proof.
  destruct input; unfold write_input; cbn [input_members];
    unfold write_request_vote, write_vote_reply, write_append, write_append_reply, write_snapshot_request, write_snapshot_reply;
    rewrite ?write_log_json; try (generalize (log_json (ae_entries message)); intros l); same_text.
Qed.

Lemma without_last_app a c : without_last (a +:+ String c "") = a.
Proof.
  induction a as [|x a IH]; [done|]. rewrite str_app_cons. cbn [without_last]. rewrite IH.
  destruct (a +:+ String c "") eqn:E; [|done]. apply str_app_nil_inv in E as [_ E]. done.
Qed.

(** The staged state without its closing brace. *)
Lemma staged_json d : without_last (write_durable d) =
  "{" +:+ join "," (List.map (fun m => quoted m.1 +:+ ":" +:+ render m.2) (durable_members d)).
Proof. rewrite write_durable_json. cbn [render]. rewrite str_app_assoc. apply without_last_app. Qed.

Lemma trace_line_json config state input sequence :
  trace_line config state input sequence =
    if v1_refused state input then None else Some (render (v1_json config state input sequence)).
Proof.
  unfold trace_line. destruct (v1_refused state input); [done|]. f_equal. cbv zeta. rewrite entries_json, optional_text_json.
  unfold v1_json, log_json. cbv zeta. generalize (optional_json (d_voted_for (staged_state state))). intros v. same_text.
Qed.

Lemma trace_line_v2_json config state input sequence :
  trace_line_v2 config state input sequence =
    if reads state input then None else Some (render (v2_json config state input sequence)).
Proof.
  unfold trace_line_v2. destruct (reads state input); [done|]. f_equal. cbv zeta.
  rewrite staged_json, write_durable_json, write_input_json. unfold v2_json. unfold durable_members at 1 3.
  generalize (JObject (input_members input)), (JObject (durable_members (n_durable state))). intros i d.
  generalize (log_json (d_log (staged_state state))), (optional_json (d_voted_for (staged_state state))). intros l v. same_text.
Qed.

(** ** Values of the C++ types *)

Definition entries_typed (log : list Entry) : Prop := Forall (fun e => u64 (e_term e)) log.

Definition state_typed (d : Durable) : Prop := durable_typed d /\ entries_typed (d_log d).

Definition request_typed (input : Input) : Prop :=
  input_typed input /\
  match input with
  | RecvRequestVote m => u64 (rv_request_id m)
  | RecvVoteReply m => u64 (vr_request_id m)
  | RecvAppend m => u64 (ae_request_id m) /\ entries_typed (ae_entries m)
  | RecvAppendReply m => u64 (ar_request_id m)
  | RecvSnapshot m => u64 (sr_request_id m)
  | RecvSnapshotReply m => u64 (sp_request_id m) /\ u64 (sp_index m)
  | PersistCompleted token | PersistFailed token => u64 token
  | _ => True
  end.

Lemma log_json_ok log : entries_typed log -> json_ok (log_json log).
Proof.
  intros H. constructor. apply List.Forall_map. eapply list.Forall_impl; [exact H|]. intros e He. unfold u64 in He.
  constructor. repeat constructor. cbn. lia.
Qed.

Lemma optional_json_ok t : json_ok (optional_json t).
Proof. destruct t; constructor. Qed.

Create HintDb trace.
#[local] Hint Constructors json_ok : trace.
#[local] Hint Resolve log_json_ok optional_json_ok : trace.
#[local] Hint Extern 4 (0 <= _) => lia : trace.
#[local] Ltac members_ok := constructor; cbn [app]; repeat constructor; cbn [snd]; auto with trace; lia.

Lemma durable_json_ok d : state_typed d -> Forall (fun m => json_ok m.2) (durable_members d).
Proof.
  intros ((H1 & H2 & H3 & H4 & H5) & H6). unfold u64 in *. unfold durable_members.
  repeat (apply Forall_cons_2; cbn [snd]); auto with trace.
Qed.

Lemma input_json_ok input : request_typed input -> Forall (fun m => json_ok m.2) (input_members input).
Proof.
  unfold request_typed, u64. destruct input; cbn [input_typed input_members]; unfold u64; intros [Ht Hr]; destruct_and?;
    repeat (apply Forall_cons_2; cbn [snd]); auto with trace.
Qed.

Lemma v1_json_ok config state input sequence : u64 sequence -> state_typed (n_durable state) ->
  state_typed (staged_state state) -> json_ok (v1_json config state input sequence).
Proof.
  intros Hs ((D1 & _ & _ & D4 & D5) & _) ((M1 & _ & _ & M4 & _) & M6). unfold u64 in *. unfold v1_json.
  pose proof (log_size_nn (d_log (n_durable state))).
  repeat first [apply ok_object | apply Forall_cons_2; cbn [snd] | apply Forall_nil_2]; auto with trace.
Qed.

Lemma v2_json_ok config state input sequence : u64 sequence -> state_typed (n_durable state) ->
  state_typed (staged_state state) -> request_typed input -> json_ok (v2_json config state input sequence).
Proof.
  intros Hs Hd Hm Hi. unfold u64 in Hs. unfold v2_json. constructor.
  do 4 (apply Forall_cons_2; [cbn [snd]; auto with trace|]). constructor; [constructor; by apply input_json_ok|].
  constructor; [|constructor]. constructor. apply Forall_app_2; [by apply durable_json_ok|].
  repeat (apply Forall_cons_2; cbn [snd]); auto with trace. constructor. by apply durable_json_ok.
Qed.

(** ** Nothing is lost *)

Lemma entries_json_inj l1 : forall l2, List.map entry_json l1 = List.map entry_json l2 -> l1 = l2.
Proof.
  induction l1 as [|e l1 IH]; intros [|e2 l2] H; try done. cbn in H.
  injection H as Ht Hc H. f_equal; [by destruct e, e2; cbn in *; subst|by apply IH].
Qed.

Lemma optional_json_inj t1 t2 : optional_json t1 = optional_json t2 -> t1 = t2.
Proof. destruct t1, t2; cbn; congruence. Qed.

Lemma durable_members_inj d1 d2 : durable_members d1 = durable_members d2 -> d1 = d2.
Proof.
  unfold durable_members. intros [= H1 H2 H3 H4 H5 H6 H7]. apply optional_json_inj in H2. apply entries_json_inj in H3.
  destruct d1, d2. cbn in *. by subst.
Qed.

(** An input is its action and its fields, unless it is about a read. *)
Lemma input_members_inj i1 i2 : trace_action i1 = trace_action i2 -> input_members i1 = input_members i2 ->
  match i1 with BeginRead _ | CancelRead _ => False | _ => True end -> i1 = i2.
Proof.
  destruct i1, i2; try done; cbn [input_members]; intros _ [=] _; subst; try done;
    repeat match goal with
    | m : RequestVote |- _ => destruct m | m : VoteReply |- _ => destruct m | m : AppendEntries |- _ => destruct m
    | m : AppendReply |- _ => destruct m | m : SnapshotRequest |- _ => destruct m | m : SnapshotReply |- _ => destruct m
    end; cbn in *; subst; try done.
  match goal with H : List.map entry_json _ = _ |- _ => apply entries_json_inj in H end. by subst.
Qed.

Lemma trace_role_inj r1 r2 : trace_role r1 = trace_role r2 -> r1 = r2.
Proof. by destruct r1, r2. Qed.

Lemma v2_json_inj c1 s1 i1 n1 c2 s2 i2 n2 : reads s1 i1 = false ->
  v2_json c1 s1 i1 n1 = v2_json c2 s2 i2 n2 ->
  n1 = n2 /\ c_self c1 = c_self c2 /\ i1 = i2 /\ staged_state s1 = staged_state s2 /\
  n_durable s1 = n_durable s2 /\ v_role (n_volatile s1) = v_role (n_volatile s2) /\ n_halted s1 = n_halted s2.
Proof.
  intros Hr. unfold v2_json. intros H. injection H as Hn Hc Ha Hi H1 H2 H3 H4 H5 H6 H7 Hrole D1 D2 D3 D4 D5 D6 D7 Hh.
  apply trace_role_inj in Hrole. assert (i1 = i2) as Hin.
  { apply input_members_inj; [done|done|]. by destruct i1. }
  assert (staged_state s1 = staged_state s2) as Hs.
  { apply durable_members_inj. unfold durable_members, log_json. by rewrite H1, H2, H3, H4, H5, H6, H7. }
  assert (n_durable s1 = n_durable s2) as Hdu.
  { apply durable_members_inj. unfold durable_members, log_json. by rewrite D1, D2, D3, D4, D5, D6, D7. }
  split_and!; try done. by destruct (n_halted s1), (n_halted s2).
Qed.

(** What the second format can show: no linearizable read is asked for, given
    up or in progress. The first one cannot show snapshots either: none is
    taken, received or acknowledged, and neither the staged nor the durable
    state has one. *)
Definition v2_shows (state : Node) (input : Input) : Prop :=
  (forall id, input <> BeginRead id) /\ (forall id, input <> CancelRead id) /\ v_read (n_volatile state) = None.

Definition v1_shows (state : Node) (input : Input) : Prop :=
  v2_shows state input /\ input <> CompactCommitted /\ (forall m, input <> RecvSnapshot m) /\
  (forall m, input <> RecvSnapshotReply m) /\
  d_snapshot_index (staged_state state) = 0 /\ d_snapshot_term (staged_state state) = 0 /\
  d_snapshot_index (n_durable state) = 0 /\ d_snapshot_term (n_durable state) = 0.

Lemma reads_spec state input : if reads state input then ~ v2_shows state input else v2_shows state input.
Proof.
  unfold reads, v2_shows. destruct input as [| | |id|id| | | | | | | | | | | |]; try (destruct (v_read (n_volatile state)); naive_solver).
  all: naive_solver.
Qed.

Lemma v1_refused_spec state input :
  if v1_refused state input then ~ v1_shows state input else v1_shows state input.
Proof.
  unfold v1_refused, v1_shows. pose proof (reads_spec state input) as H. destruct (reads state input); [naive_solver|].
  destruct input; try naive_solver.
  all: cbn [orb]; repeat (match goal with |- context [Z.eqb ?a 0] => destruct (Z.eqb_spec a 0) end; cbn [negb orb]); naive_solver.
Qed.

(** C40: Trace lines. For values of their C++ types, both formats write one line
    without control characters that is the JSON of the projected state exactly
    for the inputs and states they can show ([v1_shows], [v2_shows]), and nothing
    for the others; a line of the second format determines the sequence number,
    the node, the input, the staged and the durable state, the role and whether
    the node is alive. *)
Theorem trace_lines_are_json config state input sequence :
  u64 sequence -> state_typed (n_durable state) -> state_typed (staged_state state) -> request_typed input ->
  match trace_line config state input sequence with
  | Some line =>
      v1_shows state input /\ one_line line = true /\ parse_json line = Some (v1_json config state input sequence)
  | None => ~ v1_shows state input
  end /\
  match trace_line_v2 config state input sequence with
  | Some line =>
      v2_shows state input /\ one_line line = true /\ parse_json line = Some (v2_json config state input sequence) /\
      forall config' state' input' sequence', u64 sequence' -> state_typed (n_durable state') ->
        state_typed (staged_state state') -> request_typed input' ->
        trace_line_v2 config' state' input' sequence' = Some line ->
        sequence' = sequence /\ c_self config' = c_self config /\ input' = input /\
        staged_state state' = staged_state state /\ n_durable state' = n_durable state /\
        v_role (n_volatile state') = v_role (n_volatile state) /\ n_halted state' = n_halted state
  | None => ~ v2_shows state input
  end.
Proof.
  intros Hs Hd Hm Hi. rewrite trace_line_json, trace_line_v2_json.
  pose proof (v1_refused_spec state input) as H1. pose proof (reads_spec state input) as H2. split.
  - destruct (v1_refused state input); [done|]. pose proof (v1_json_ok config state input sequence Hs Hd Hm).
    split; [done|]. split; [by apply one_line_rendered|by apply parse_rendered].
  - destruct (reads state input) eqn:Er; [done|]. pose proof (v2_json_ok config state input sequence Hs Hd Hm Hi) as Hok.
    pose proof (parse_rendered _ Hok) as Hp. split; [done|]. split; [by apply one_line_rendered|]. split; [done|].
    intros config' state' input' sequence' Hs' Hd' Hm' Hi'. rewrite trace_line_v2_json.
    destruct (reads state' input') eqn:Er'; [done|]. intros E%(inj Some).
    pose proof (parse_rendered _ (v2_json_ok config' state' input' sequence' Hs' Hd' Hm' Hi')) as Hp'. rewrite E, Hp in Hp'.
    apply (inj Some) in Hp'. by apply v2_json_inj.
Qed.

(** ** The line of a vote request *)

Definition demo_state : Durable := mkDurable 3 (Some "a") [mkEntry 3 "say 'hi'"] 1 1 0 0.

Definition demo_trace_node : Node := mkNode demo_state (mkVolatile Follower ∅ ∅ 0 None) None 1 1 false.

Definition demo_input : Input := RecvRequestVote (mkRequestVote 4 "b" 1 3 9).

Lemma trace_lines_are_json_witness :
  exists line, trace_line_v2 (mkConfig "a" ["b"; "c"]) demo_trace_node demo_input 7 = Some line /\
    parse_json line = Some (v2_json (mkConfig "a" ["b"; "c"]) demo_trace_node demo_input 7).
Proof.
  assert (state_typed demo_state) as Hs 
    by (split; [|constructor; [|constructor]]; unfold durable_typed, u64, max_u64; cbn; lia).
  assert (request_typed demo_input) as Hr by (unfold request_typed, input_typed, u64, max_u64; cbn; lia).
  pose proof (trace_lines_are_json (mkConfig "a" ["b"; "c"]) demo_trace_node demo_input 7
    ltac:(unfold u64, max_u64; lia) Hs Hs Hr) as [_ H].
  eexists. split; [reflexivity|]. exact (proj1 (proj2 (proj2 H))).
Defined.
