(* ===== verification/Findings.v ===== *)
(** * Counterexamples found while modelling

    Concrete runs on which the code does something its comments exclude. *)

From S2P Require Import Prelude Text Types Model EventCodec Machine MachineThms SnapshotText Bytes Wal Transaction SnapshotFile FileEngine StoreDisk StoreOpen StoreRun Cli.

(** ** A client can take the identifier of a no-op marker *)

(** A command whose client-chosen id is the id that the leader of term 2 will
    give to its marker at index 3. *)
Definition squatter : Command :=
  mkCommand "noop-2-3" "opening" AddDancer 1 480 (PDancer "alice" (mkPosition 1000 1000)).

(** The command is accepted as event 2; when the leader of term 2 then commits
    its marker at index 3, the marker is refused as a conflicting event. *)
Lemma noop_marker_refused :
  let engine := submit_all empty_engine [hd squatter demo_commands; squatter] in
  let marker := noop_event (Some "opening") 2 3 in
  s_last_applied (en_state engine) = 2 /\ ev_index marker = 3 /\
  apply (en_state engine) marker Contiguous =
    Err (mkError ConflictingEvent "event id was reused with different content").
Proof. cbv zeta. repeat split; vm_compute; reflexivity. Qed.

(** ** A creation whose payload names another choreography *)

Definition renamed_create : Command :=
  mkCommand "c-1" "opening" CreateChoreography 1 0
    (PCreate "finale" (mkStageBounds 10000 8000) Forbidden 2000).

(** The event is accepted and the state takes the payload's name; the text of
    the event only carries the envelope's name, so reading it back and
    replaying it gives a state with another name. *)
Theorem create_id_not_durable :
  let engine := submit_all empty_engine [renamed_create] in
  s_id (en_state engine) = Some "finale" /\
  match en_events engine with
  | [e] => match parse_event (canonical_event e) with
           | Ok e' => match replay [e'] None None with
                      | Ok s => s_id s = Some "opening"
                      | Err _ => False
                      end
           | Err _ => False
           end
  | _ => False
  end.
Proof. cbv zeta. split; vm_compute; reflexivity. Qed.

(** ** A committed record with coordinates outside 32 bits *)

(** The reader of event records narrows a 64-bit coordinate to 32 bits before
    it validates it: a record with [x = 2^32 + 5] is read as [x = 5]. *)
Theorem wide_coordinate_accepted :
  match parse_event "schema=1;type=DANCER_ADDED;event=c-2;cmd=c-2;choreo=opening;tick=0;index=2;term=1;dancer=bob;x=4294967301;y=0" with
  | Ok e => ev_payload e = PDancer "bob" (mkPosition 5 0)
  | Err _ => False
  end.
Proof. vm_compute. reflexivity. Qed.

(** ** A choreography named with a dash *)

Definition dash_create : Command :=
  mkCommand "c-1" "-" CreateChoreography 1 0
    (PCreate "-" (mkStageBounds 10000 8000) Forbidden 2000).

(** A single dash is a valid identifier, and the snapshot text writes a dash for
    an absent name: the snapshot of such a choreography is written without an
    error, read back without its name, and refused because its hash differs. *)
Lemma dash_snapshot_refused :
  let s := en_state (submit_all empty_engine [dash_create]) in
  s_id s = Some "-" /\
  match restore_state (snapshot_payload s) with Ok t => s_id t = None | Err _ => False end /\
  match encode_snapshot s with
  | Ok bytes => read_snapshot bytes =
      Err (mkError StoreError "snapshot state hash does not match its contents")
  | Err _ => False
  end.
Proof. cbv zeta. split; [|split]; vm_compute; reflexivity. Qed.

(** ** A port outside its range *)

(** The command line narrows the port of [--leader] to 16 bits. *)
Lemma wide_port_accepted :
  parse_leader "host:70000" = Some (mkLeaderEndpoint "host" 4464) /\ parse_leader "host:-1" = Some (mkLeaderEndpoint "host" 65535).
Proof. by vm_compute. Qed.

(** ** A log whose creation stopped inside its header *)

(** The system calls of an opening in which creating the log fails after [k]
    bytes of its header. *)
Definition torn_open (k : nat) (e : Error) : OpenOs :=
  mkOpenOs None None None undisturbed (HeaderFailed (Some k) e) None (fun _ => false) None None Replaced None Replaced.

(** The directory that such an opening leaves is never opened again, whatever
    the system calls do, although nothing was ever stored in it. *)
Lemma torn_creation_is_final k e options os : (k < kFileHeaderBytes)%nat ->
  store_open empty_directory options (torn_open k e) = (torn_directory k, Err e) /\
  exists x, store_open (torn_directory k) options os = (torn_directory k, Err x).
Proof. intros Hk. split; [reflexivity|by apply torn_refused]. Qed.
